(* ===== verification/_CoqProject ===== *)
-Q . S2P
Prelude.v
Ring.v
Kfifo.v
KfifoSpsc.v
Rwsem.v
Semaphore.v
ResCounter.v
Ashmem.v
AshmemInv.v
AshmemPin.v
AshmemSpec.v
AshmemTop.v
Wakelock.v
WakelockInv.v
WakelockTop.v
EarlySuspend.v
EarlySuspendInv.v
SuspendTop.v
Logger.v
LoggerTop.v
LoggerDev.v
Chain.v
Notifier.v
NotifierRcu.v
Lowmem.v
Plist.v
Resource.v
ResourceTop.v
ResourceAlloc.v
ResourceDev.v
ResourceBelow.v
ResourceInsert.v
ResourceRegion.v
ResourceSpec.v
ResourceRegionSpec.v
Mempool.v
MempoolTop.v
Rbtree.v
RbtreeRep.v
RbtreeInsert.v
RbtreeErase.v
RbtreeOps.v
RbtreeWalk.v
RbtreeSpec.v
Ctype.v
UserWakelock.v
UserWakelockInv.v
UserWakelockSpec.v
Binder.v
BinderMem.v
BinderInv.v
BinderAlloc.v
BinderTake.v
BinderFree.v
BinderTop.v
BinderSpec.v
BinderRef.v
BinderRefInv.v
BinderRefLink.v
BinderRefCmd.v
BinderRefExit.v
BinderRefSpec.v
BinderRefLife.v
Timer.v
TimerInv.v
TimerTop.v
TimerLoop.v
TimerNext.v
Idr.v
IdrInv.v
IdrAlloc.v
IdrGet.v
IdrSpec.v
Ida.v
Ipc.v
IpcSpec.v
Msg.v
MsgInv.v
MsgSpec.v
MsgTop.v
