(* ===== verification/Prelude.v ===== *)
(** * A verification library of the Eclair kernel (Linux 2.6.29 with the
    Android drivers, as built for the Samsung Galaxy 3)

    The library models parts of the kernel under [src/kernel/] as Rocq functions
    and step relations and proves that they do what their users rely on.  The
    target is the one the repository is configured for: a 32-bit ARM processor,
    one CPU, no kernel preemption, [HZ] = 200.

    ** Parts and files

    A component is modelled in the file that bears its name; the files after it
    in the list hold its invariant, the lemmas on its operations and its main
    theorems.  Short parts share a file as modules of their own, so that a name
    below is that of a file or of a module in the file named before it.

    - [Prelude]: machine integers, error numbers, [list_head] chains, memory
      copies, tactics, the hint databases and the generic lemmas.  [Ring]:
      arithmetic of free-running ring indices, for the FIFO and the logger.
      [Chain]: linked segments of next pointers, for notifiers and resources.
    - [Kfifo], [KfifoSpsc]: [kernel/kfifo.c], [include/linux/kfifo.h].  A FIFO is
      its buffer and the two 32-bit indices.  The calls refine a bounded queue of
      bytes; [KfifoSpsc] splits [__kfifo_put] and [__kfifo_get] at their accesses
      to shared memory and proves them safe without a lock.
    - [Rwsem]: [lib/rwsem-spinlock.c].  Each routine's part under [wait_lock] is a
      function; tasks that call and sleep are the step relation.  Exclusion,
      first-come first-served order, and no lost wake-up.
    - [Semaphore]: [kernel/semaphore.c] with [schedule_timeout].  [__down_common] is
      cut where it sleeps.  Units are conserved and grants are final.
    - [ResCounter]: [kernel/res_counter.c].  A store of counters with parent
      pointers; charging is all or nothing, uncharging is its inverse.
    - [Ashmem], [AshmemInv], [AshmemPin], [AshmemSpec], [AshmemTop]: [mm/ashmem.c].
      The state is a store of areas and ranges, the LRU list and its count.
      The device is safe under any calls; pin, unpin and the shrinker are
      specified by the sets of pages they move.
    - [Wakelock], [WakelockInv], [WakelockTop]: [kernel/power/wakelock.c].  The lists,
      flags, statistics, timer and suspend work; a refinement to the view of a
      lock as off, on, or on until a time; safety, progress, and when the
      machine may sleep.  Progress is for runs in which an active lock is not
      destroyed without being looked at again, which the code gets wrong.
    - [EarlySuspend], [EarlySuspendInv], [SuspendTop]: [kernel/power/earlysuspend.c]
      on top of any implementation of its main wake lock (a class); [SuspendTop]
      gives the instance by the wake locks and the theorem on both together.
    - [Logger], [LoggerInv], [LoggerTop], [LoggerDev]:
      [drivers/staging/android/logger.c].  The ring of entries, its readers,
      writes that fault half-way.  The log stays a sequence of whole entries
      and readers and writers see it as such, apart from the hook for boot
      messages, which can read past the ring, and from a write that faults after
      another writer came between its read of the offset and the mutex.
    - [Notifier], [NotifierTop], [NotifierRcu]: [kernel/notifier.c].  Next pointers in a
      store; the chain refines an ordered list; a walk without the lock races
      updates and grace periods.
    - [Lowmem]: [drivers/staging/android/lowmemorykiller.c].  The choice of the victim.
    - [Plist]: [lib/plist.c].  Priority-sorted lists with their two chains.
    - [Resource] to [ResourceRegionSpec]: [kernel/resource.c].  The tree of address
      ranges with parent, sibling and child pointers.  [ResourceTop], [ResourceOps],
      [ResourceAlloc] and [ResourceDev] have requests, releases, allocation and
      adjustment; [ResourceBelow], [ResourceAdopt], [ResourceInsert] and
      [ResourceExpand] the insertion above resources that are there, and the growth
      of a resource around them; [ResourceRegion], [ResourceRelease] and
      [ResourceReserve] the busy regions and the reservation that splits.  The tree
      stays one under all of them ([ResourceSpec]), and each does what its
      callers rely on.
    - [Mempool], [MempoolTop]: [mm/mempool.c].  The reserve, with the routines cut
      where they give up the lock.
    - [Rbtree] to [RbtreeSpec]: [lib/rbtree.c], [include/linux/rbtree.h].  Nodes with
      parent pointers and colours in a store; one definition with a side for each
      pair of mirrored branches.  [RbtreeRep] relates the pointers to an inductive
      tree, [RbtreeInsert], [RbtreeBal], [RbtreeErase], [RbtreeDel], [RbtreeOps] and
      [RbtreeWalk] follow the routines, [RbtreeTop] and [RbtreeSpec] specify them by
      the sequence of nodes in order, and [RbtreeSeq], in the file [RbtreeWalk], is that
      specification in the form the users of the trees need; [RbtreeKey] is that for trees whose nodes
      have distinct numbers as keys.
    - [Ctype]: [lib/ctype.c], and what is used of [lib/string.c] and [lib/vsprintf.c].
    - [UserWakelock], [UserWakelockInv], [UserWakelockTop], [UserWakelockSpec]:
      [kernel/power/userwakelock.c].  The files [wake_lock] and [wake_unlock], on top
      of the models of the red-black trees, the strings and the wake locks.
    - [Binder] to [BinderSpec]: the buffers of [drivers/staging/android/binder.c].
      The area of a receiving process with its headers, its two trees (on
      [Rbtree]) and its pages, and the transactions that own the buffers.
      [BinderMem] has the pages, [BinderInv] the invariant, [BinderAlloc] and
      [BinderTake] the allocation, [BinderFree] the merging, [BinderTop] and
      [BinderSys] the transactions and the mapping.  The allocator is safe and
      finds the best fit, allocation and freeing are inverse, and ownership of
      the buffers is exact.
    - [BinderRef] to [BinderRefLife]: the nodes and references of the same file.  Nodes,
      references, death notifications and lists of work in stores, the three trees
      of a process on [Rbtree].  [BinderRefInv] has the invariant in four parts,
      [BinderRefOps] and [BinderRefLink] follow the routines on nodes and
      references, [BinderRefGet] the look-ups, [BinderRefCmd] the commands,
      [BinderRefRead] the replies, [BinderRefObj] the objects in transactions,
      [BinderRefProc], [BinderRefExit] and [BinderRefGone] the processes.
      [BinderRefRun] puts them together as the steps of a run; the holds of buffers
      on the nodes of their receiver are a list beside the state.
      [BinderRefSpec] and [BinderRefLife] prove that all calls return, that counts
      and handles are right, that objects come home as what they were, that a
      process is told what it has to know, and what is left of one that ends.
    - [Timer] to [TimerNext]: the timer wheel of [kernel/timer.c].  The five vectors
      of lists, setting and deleting timers, [__run_timers] cut where it calls a
      handler, and the search for the next event of an idle CPU.  [TimerInv] says
      where a timer may wait, [TimerRun] follows the cascades, [TimerTop] the
      operations; [TimerSpec] is the simulation with a queue of due times that do
      not wrap, which is determined by the calls made, [TimerLoop] proves that every timer runs in its jiffy and that the
      loops end, [TimerNext] that the CPU does not sleep past a timer.
    - [Idr], [IdrInv], [IdrAlloc], [IdrGet], [IdrSpec]: the idr of [lib/idr.c] and
      [include/linux/idr.h].  The layers of the radix tree live in memory, with
      their slots, bitmaps and counts, and the list of free layers.  [IdrInv]
      places layers by level and prefix, [IdrTree] follows the changes of the
      tree; [IdrAlloc] has the search for a free id and [IdrGrow] the growth;
      [IdrGet] the new entry and the lookup, [IdrRemove] the removal, [IdrEach]
      the walks.  [IdrSpec] proves that the idr is a finite map, that a new id is
      the least free one and that there are layers enough for it, and shows
      where the search, [idr_remove] and [idr_remove_all] go wrong.
    - [Ida]: the ida of the same file, on top of the idr.  [IdaInv] relates the
      bitmaps in the slots to the ids taken, [IdaSpec] proves that the ida is a
      set of ids.
    - [Ipc], [IpcSpec]: the objects of System V IPC in [ipc/util.c] and [ipc/util.h],
      whatever their kind: the table on [Idr], keys, ids with sequence numbers,
      permissions, locks, reference counts and the release by RCU, [ipcget] and
      the iterator of the files in /proc.  [IpcCount] has the loops that count
      objects, [IpcTable] the table as a finite map and the operations on it,
      [IpcPerms] the permissions.
    - [Msg], [MsgInv], [MsgSpec], [MsgTop]: message queues, [ipc/msg.c], [ipc/msgutil.c]
      and [free_ipcs] of [ipc/namespace.c], on [Ipc].  Messages are in memory of their
      own; a task that sleeps in [msgsnd] or [msgrcv] is what it keeps on its stack.
      [MsgText] has the segments of a message, [MsgInv] the invariant and who owns
      a message, [MsgStep] and [MsgCode] follow the calls, [MsgKeep] the ids.  [MsgTop]
      proves for all calls in all orders that they return, that no message is lost
      or shared, that no task sleeps while its message is there, that queues live
      as long as they are used, and what ids, keys and types select.

    ** How the code is modelled

    An integer is a [Z], reduced to its width where the code computes with it;
    a count of tasks, as in [Rwsem], stays below the width and is not reduced.
    Objects that the code links by pointers live in finite maps from identifiers
    ([gmap]); a [list_head] chain is the list of the identifiers on it; a chain
    of next pointers stays one.  A routine that can hit a [BUG_ON], follow a bad
    pointer or leave a buffer returns [None] then, so that a theorem that it
    returns [Some] says that none of this happens.  Sleeping routines are cut
    where they sleep or give up their lock, and the pieces interleave as the
    steps of an inductive relation; statements about every interleaving are
    proved by induction on reachability.

    A loop over pointers takes fuel.  The wrappers give it the number of objects
    in the store, or what bounds the loop in the code, and the theorems prove
    that this is enough: they conclude that a result is returned, not only what
    it is like if there is one.  Where [fuel] is an argument of a theorem, any
    amount from the length of the chain on will do.

    Results of code outside a component (allocations, user copies that fault,
    pending signals, the clock) are inputs of the definitions.

    ** What is not modelled

    Output to the kernel log and to [/proc]; hardware; the memory allocators, the
    scheduler and the mutexes behind the components, beyond success, failure,
    sleeping and waking; weak memory order (the target has one CPU).  Of
    [kernel/resource.c], the managed regions of devices, which call the modelled ones,
    and the parameter [reserve=].  Of [kernel/timer.c], the system calls and the load
    average; the high-resolution timers of [kernel/hrtimer.c] are the time of their
    next event.  Of [lib/idr.c], readers without a lock: a layer given to
    [call_rcu] is gone at once; and ids from 2^30 on.  Of System V IPC, semaphores
    and shared memory, printing and sysctl; a call is one step up to its sleep, so
    that what [do_msgrcv] reads without the lock does not race a sender, and an
    object given to [call_rcu] goes when the task leaves its read-side section.
    Of the binder, the
    threads with their stacks of transactions, the file descriptors in
    transactions and the loops that parse commands; an asynchronous transaction
    that waits on its node counts as queued.  A run of the nodes and references
    frees a buffer with what was put in it; the code does not see to that when
    two offsets of a transaction name one object ([BinderRefLife]).  Of ashmem, a
    change of size while a first mapping sleeps.  Where a theorem leaves out
    calls that the code answers wrongly, its comment names them, and a lemma next
    to it shows what happens then.

    ** Left for later

    The stacks of transactions of [drivers/staging/android/binder.c]; semaphores and
    shared memory of [ipc/]; radix trees and bitmaps of [lib/]; the high-resolution
    timers. *)

From Stdlib Require Import ZArith Lia Strings.Byte.
From stdpp Require Import base option gmap sorting list_numbers list.

Local Open Scope Z_scope.

Declare Scope kernel_scope.
Delimit Scope kernel_scope with kernel.

(** ** Machine integers

    The target is a 32-bit ARM: [unsigned int], [unsigned long], [size_t]
    are 32 bits wide, [long] and [int] are the signed 32-bit integers.  An
    integer is a [Z]; the functions below reduce it to its width. *)

Definition two32 : Z := 4294967296.
Definition two31 : Z := 2147483648.

Definition u32 (z : Z) : Z := z mod two32.

(** The signed reading of a 32-bit pattern. *)
Definition s32 (z : Z) : Z :=
  let r := z mod two32 in if bool_decide (r < two31)%Z then r else (r - two32)%Z.

Definition two64 : Z := 18446744073709551616.
Definition u64 (z : Z) : Z := z mod two64.

Notation "a +u b" := (u32 (a + b)%Z) (at level 50, left associativity) : kernel_scope.
Notation "a -u b" := (u32 (a - b)%Z) (at level 50, left associativity) : kernel_scope.
Notation "a *u b" := (u32 (a * b)%Z) (at level 40, left associativity) : kernel_scope.

(** ** Error numbers ([include/asm-generic/errno-base.h], [errno.h]) *)

Definition EPERM : Z := 1.
Definition ENOENT : Z := 2.
Definition EINTR : Z := 4.
Definition EBADF : Z := 9.
Definition EAGAIN : Z := 11.
Definition ENOMEM : Z := 12.
Definition EFAULT : Z := 14.
Definition EBUSY : Z := 16.
Definition ENODEV : Z := 19.
Definition EINVAL : Z := 22.
Definition ENOTTY : Z := 25.
Definition ETIME : Z := 62.

(** ** Bytes *)

#[export] Instance byte_inhabited : Inhabited byte := populate x00.

#[export] Instance byte_eq_decision : EqDecision byte := byte_eq_dec.

(** ** Outcomes of a kernel routine that may hit [BUG_ON] *)

Inductive outcome (A : Type) : Type :=
  | Ok (a : A)
  | Err (e : Z)
  | Bug.
Arguments Ok {A} a.
Arguments Err {A} e.
Arguments Bug {A}.

(** ** Doubly linked lists ([include/linux/list.h])

    A [list_head] chain is the list of the identifiers of the objects on it,
    first object first; the objects themselves live in the component's
    store.  An object is on a given chain at most once. *)

Section list_head.
Context {A : Type} `{EqDecision A}.

Definition list_add (new : A) (head : list A) : list A := new :: head.

Definition list_add_tail (new : A) (head : list A) : list A := head ++ [new].

Definition list_del (entry : A) (head : list A) : list A :=
  filter (fun x => x <> entry) head.

(** [list_add_tail (new, pos)] where [pos] is an entry of the chain: [new]
    is linked just before [pos]. *)
Fixpoint list_add_before (new pos : A) (head : list A) : list A :=
  match head with
  | [] => []
  | x :: l => if decide (x = pos) then new :: x :: l
              else x :: list_add_before new pos l
  end.

(** [list_add (new, pos)]: [new] is linked just behind [pos]. *)
Fixpoint list_add_after (new pos : A) (head : list A) : list A :=
  match head with
  | [] => []
  | x :: l => if decide (x = pos) then x :: new :: l
              else x :: list_add_after new pos l
  end.

(** [entry.next] and [entry.prev]; none when [list_is_last], and for the first
    entry. *)
Fixpoint list_next (entry : A) (l : list A) : option A :=
  match l with
  | [] => None
  | x :: l => if decide (x = entry) then head l else list_next entry l
  end.

Definition list_prev (entry : A) (l : list A) : option A := list_next entry (reverse l).

End list_head.

(** ** Memory copies inside a fixed buffer

    Both are partial: an access outside the buffer is [None]. *)

Section memory.
Context {A : Type}.

(** [memcpy(buf + off, src, length src)] *)
Definition memcpy_to (buf : list A) (off : Z) (src : list A) : option (list A) :=
  if bool_decide (0 <= off /\ off + Z.of_nat (length src) <= Z.of_nat (length buf))%Z
  then Some (list_inserts (Z.to_nat off) src buf) else None.

(** [memcpy(dst, buf + off, len)] *)
Definition memcpy_from (buf : list A) (off len : Z) : option (list A) :=
  if bool_decide (0 <= off /\ 0 <= len /\ off + len <= Z.of_nat (length buf))%Z
  then Some (take (Z.to_nat len) (drop (Z.to_nat off) buf)) else None.

End memory.

(** ** Automation *)

Create HintDb kernel.
Create Rewrite HintDb kernel_rw.

Ltac case_bd :=
  match goal with
  | |- context [bool_decide ?P] => destruct (bool_decide_reflect P)
  | H : context [bool_decide ?P] |- _ => destruct (bool_decide_reflect P)
  end.

Tactic Notation "case_bd" "as" ident(E) :=
  match goal with
  | |- context [bool_decide ?P] => destruct (bool_decide_reflect P) as [E|E]
  | H : context [bool_decide ?P] |- _ => destruct (bool_decide_reflect P) as [E|E]
  end.

Ltac unfold_words := unfold u32, u64, two32, two31, two64 in *.

(** ** Lemmas on machine integers *)

Lemma u32_range z : 0 <= u32 z < two32.
Proof. apply Z.mod_pos_bound; reflexivity. Qed.

Lemma u32_small z : 0 <= z < two32 -> u32 z = z.
Proof. apply Z.mod_small. Qed.

Lemma u32_idem z : u32 (u32 z) = u32 z.
Proof. apply u32_small, u32_range. Qed.

Lemma u32_add_l a b : u32 (u32 a + b) = u32 (a + b).
Proof. apply Zplus_mod_idemp_l. Qed.

Lemma u32_add_r a b : u32 (a + u32 b) = u32 (a + b).
Proof. apply Zplus_mod_idemp_r. Qed.

Lemma u32_sub_l a b : u32 (u32 a - b) = u32 (a - b).
Proof. apply Zminus_mod_idemp_l. Qed.

Lemma u32_sub_r a b : u32 (a - u32 b) = u32 (a - b).
Proof. apply Zminus_mod_idemp_r. Qed.

#[export] Hint Rewrite u32_idem u32_add_l u32_add_r u32_sub_l u32_sub_r : kernel_rw.
#[export] Hint Resolve u32_range u32_small : kernel.

Lemma s32_range z : - two31 <= s32 z < two31.
Proof.
  unfold s32. pose proof (Z.mod_pos_bound z two32 eq_refl).
  case_bd; unfold two31, two32 in *; lia.
Qed.

Lemma s32_small z : - two31 <= z < two31 -> s32 z = z.
Proof.
  intros H. unfold s32. destruct (decide (0 <= z)).
  - rewrite Z.mod_small by (unfold two31, two32 in *; lia).
    rewrite bool_decide_eq_true_2; [done | lia].
  - replace (z mod two32) with (z + two32).
    2: { rewrite <- (Z_mod_plus_full z 1). rewrite Z.mod_small; unfold two31, two32 in *; lia. }
    rewrite bool_decide_eq_false_2; unfold two31, two32 in *; lia.
Qed.

Lemma u32_s32 z : u32 (s32 z) = u32 z.
Proof.
  unfold s32, u32, two32, two31. case_bd; [apply Zmod_mod|].
  rewrite <- Zminus_mod_idemp_r, Z_mod_same_full, Z.sub_0_r. apply Zmod_mod.
Qed.

Lemma s32_u32 z : s32 (u32 z) = s32 z.
Proof. unfold s32, u32. by rewrite Zmod_mod. Qed.

(** A mask by a power of two is a remainder. *)
Lemma land_pow2_mask x k : 0 <= k -> Z.land x (2 ^ k - 1) = x mod 2 ^ k.
Proof.
  intros Hk. replace (2 ^ k - 1) with (Z.ones k) by (rewrite Z.ones_equiv; lia).
  by apply Z.land_ones.
Qed.

(** Reducing to 32 bits first does not change a remainder by a power of two
    that divides the word. *)
(** Masking with [~(2^k - 1)] rounds down to a multiple of [2^k]. *)
Lemma land_high_mask x k : 0 <= x < two32 -> 0 <= k <= 32 -> Z.land x (u32 (- 2 ^ k)) = x / 2 ^ k * 2 ^ k.
Proof.
  intros Hx Hk.
  assert (E : u32 (- 2 ^ k) = Z.shiftl (Z.ones (32 - k)) k).
  { rewrite Z.shiftl_mul_pow2, Z.ones_equiv by lia. unfold u32, two32. change 4294967296 with (2 ^ 32).
    assert (Hp : 2 ^ 32 = 2 ^ (32 - k) * 2 ^ k) by (rewrite <- Z.pow_add_r by lia; f_equal; lia).
    pose proof (Z.pow_pos_nonneg 2 k ltac:(lia) ltac:(lia)). pose proof (Z.pow_pos_nonneg 2 (32 - k) ltac:(lia) ltac:(lia)).
    symmetry. apply (Z.mod_unique_pos _ _ (- 1)); nia. }
  rewrite E, <- Z.shiftr_div_pow2, <- Z.shiftl_mul_pow2 by lia. apply Z.bits_inj'. intros n Hn.
  rewrite Z.land_spec, !Z.shiftl_spec by done. destruct (decide (n < k)).
  { rewrite !(Z.testbit_neg_r _ (n - k)) by lia. apply andb_false_r. }
  rewrite Z.shiftr_spec by lia. replace (n - k + k) with n by lia. destruct (decide (n < 32)).
  - rewrite Z.ones_spec_low by lia. apply andb_true_r.
  - rewrite Z.ones_spec_high by lia. rewrite andb_false_r. symmetry.
    destruct (decide (x = 0)) as [->|]; [by rewrite Z.testbit_0_l|]. apply Z.bits_above_log2; [lia|].
    apply Z.lt_le_trans with 32; [|lia]. apply Z.log2_lt_pow2; unfold two32 in *; lia.
Qed.

Lemma u32_mod_pow2 x k : 0 <= k <= 32 -> u32 x mod 2 ^ k = x mod 2 ^ k.
Proof.
  intros Hk. unfold u32, two32.
  apply Z.mod_mod_divide.
  exists (2 ^ (32 - k)). rewrite <- Z.pow_add_r by lia.
  by replace (32 - k + k) with 32 by lia.
Qed.

(** The remainder of a sum that wraps at most once. *)
Lemma mod_add_once a b n :
  0 <= a < n -> 0 <= b <= n ->
  (a + b) mod n = if bool_decide (a + b < n) then a + b else a + b - n.
Proof.
  intros Ha Hb. case_bd.
  - apply Z.mod_small; lia.
  - rewrite <- (Z_mod_plus_full (a + b) (-1)). rewrite Z.mod_small; lia.
Qed.

(** ** Lemmas on lists of identifiers *)

Section list_lemmas.
Context {A : Type} `{EqDecision A}.
Implicit Types (x y : A) (l : list A).

Lemma elem_of_list_del x y l : x ∈ list_del y l <-> x ∈ l /\ x <> y.
Proof. unfold list_del. rewrite list_elem_of_filter. tauto. Qed.

Lemma NoDup_list_del y l : NoDup l -> NoDup (list_del y l).
Proof. unfold list_del. apply NoDup_filter. Qed.

Lemma list_del_not_in y l : y ∉ l -> list_del y l = l.
Proof.
  intros Hy. unfold list_del. induction l as [|x l IH]; [done|].
  rewrite filter_cons_True by (intros ->; apply Hy; left).
  f_equal. apply IH. intros ?; apply Hy; by right.
Qed.

Lemma list_del_app y l1 l2 : list_del y (l1 ++ l2) = list_del y l1 ++ list_del y l2.
Proof. apply filter_app. Qed.

Lemma list_del_split y l1 l2 :
  y ∉ l1 -> y ∉ l2 -> list_del y (l1 ++ y :: l2) = l1 ++ l2.
Proof.
  intros H1 H2. rewrite list_del_app. unfold list_del at 2.
  rewrite filter_cons_False by tauto.
  change (filter (fun x => x <> y) l2) with (list_del y l2).
  by rewrite !list_del_not_in.
Qed.

Lemma list_add_before_split new pos l1 l2 :
  pos ∉ l1 -> list_add_before new pos (l1 ++ pos :: l2) = l1 ++ new :: pos :: l2.
Proof.
  induction l1 as [|x l1 IH]; simpl; intros Hp.
  - by rewrite decide_True.
  - rewrite decide_False by (intros ->; apply Hp; left).
    f_equal. apply IH. intros ?; apply Hp; by right.
Qed.

Lemma list_add_after_split new pos l1 l2 :
  pos ∉ l1 -> list_add_after new pos (l1 ++ pos :: l2) = l1 ++ pos :: new :: l2.
Proof.
  induction l1 as [|x l1 IH]; simpl; intros Hp; [by rewrite decide_True|].
  rewrite decide_False by (intros ->; apply Hp; left). f_equal. apply IH. set_solver.
Qed.

Lemma list_next_split x l1 l2 : x ∉ l1 -> list_next x (l1 ++ x :: l2) = head l2.
Proof.
  induction l1 as [|y l1 IH]; simpl; intros Hx; [by rewrite decide_True|].
  rewrite decide_False by (intros ->; apply Hx; left). apply IH. set_solver.
Qed.

Lemma list_prev_split x l1 l2 : x ∉ l2 -> list_prev x (l1 ++ x :: l2) = last l1.
Proof.
  intros Hx. unfold list_prev. rewrite reverse_app, reverse_cons, <- app_assoc. simpl.
  rewrite list_next_split by (by rewrite elem_of_reverse). by rewrite <- head_reverse.
Qed.

End list_lemmas.

#[export] Hint Rewrite @elem_of_list_del : kernel_rw.
#[export] Hint Resolve NoDup_list_del : kernel.

(** ** Lemmas on partial copies *)

Section memory_lemmas.
Context {A : Type}.
Implicit Types (buf src : list A).

Lemma memcpy_to_ok buf off src :
  0 <= off -> off + Z.of_nat (length src) <= Z.of_nat (length buf) ->
  memcpy_to buf off src = Some (list_inserts (Z.to_nat off) src buf).
Proof. intros. unfold memcpy_to. by rewrite bool_decide_eq_true_2. Qed.

Lemma memcpy_from_ok buf off len :
  0 <= off -> 0 <= len -> off + len <= Z.of_nat (length buf) ->
  memcpy_from buf off len = Some (take (Z.to_nat len) (drop (Z.to_nat off) buf)).
Proof. intros. unfold memcpy_from. by rewrite bool_decide_eq_true_2. Qed.

Lemma memcpy_to_length buf off src buf' :
  memcpy_to buf off src = Some buf' -> length buf' = length buf.
Proof.
  unfold memcpy_to. case_bd; intros; simplify_eq. apply length_inserts.
Qed.

End memory_lemmas.
(** ** Stable insertion by priority

    The place several components give a new object in an ordered list: behind
    every object of the same or a higher priority. *)

Section insert_by.
Context {A : Type}.
Implicit Types (p : A -> Z) (l : list A).

Fixpoint insert_by p (n : A) l : list A :=
  match l with
  | [] => [n]
  | x :: l => if bool_decide (p n > p x) then n :: x :: l else x :: insert_by p n l
  end.

Lemma insert_by_perm p n l : insert_by p n l ≡ₚ n :: l.
Proof. induction l as [|x l IH]; simpl; [done|]. case_bd; [done|]. rewrite IH. constructor. Qed.

Lemma insert_by_elem p n l x : x ∈ insert_by p n l <-> x = n \/ x ∈ l.
Proof. rewrite insert_by_perm. apply elem_of_cons. Qed.

Lemma insert_by_sorted p n l :
  StronglySorted (fun x y => p x >= p y) l -> StronglySorted (fun x y => p x >= p y) (insert_by p n l).
Proof.
  induction 1 as [|x l Hl IH Hx]; simpl; [by repeat constructor|]. case_bd as Hp.
  - constructor; [by constructor|]. constructor; [lia|]. eapply Forall_impl; [exact Hx|]. simpl. lia.
  - constructor; [done|]. apply Forall_forall. intros y [->|Hy]%insert_by_elem; [lia|].
    rewrite Forall_forall in Hx. by apply Hx.
Qed.

End insert_by.
