(* ===== verification/Ring.v ===== *)
(** * Ring buffers

    The reading of a byte array as a ring, and what a copy into it or out of
    it in two parts ("up to the end of the array, then from its start") does.
    [kernel/kfifo.c] and [drivers/staging/android/logger.c] both move bytes
    this way; their models share the lemmas of this file. *)

From Stdlib Require Import ZArith Lia.
From stdpp Require Import base option list_numbers list.
From S2P Require Import Prelude.

Local Open Scope Z_scope.

Section ring.
Context {A : Type} `{Inhabited A}.
Implicit Types (buf src : list A) (off n i k : Z).

(** The cell at position [i] of the ring, positions counted modulo the size. *)
Definition ring_at buf i : A := buf !!! Z.to_nat (i mod Z.of_nat (length buf)).

(** The [n] cells from position [off] on. *)
Definition ring_slice buf off n : list A := ring_at buf <$> seqZ off n.

Lemma length_ring_slice buf off n : 0 <= n -> Z.of_nat (length (ring_slice buf off n)) = n.
Proof. intros Hn. unfold ring_slice. rewrite length_fmap, length_seqZ. lia. Qed.

Lemma ring_slice_nil buf off n : n <= 0 -> ring_slice buf off n = [].
Proof. intros Hn. unfold ring_slice. by rewrite seqZ_nil. Qed.

Lemma ring_slice_app buf off n m :
  0 <= n -> 0 <= m ->
  ring_slice buf off (n + m) = ring_slice buf off n ++ ring_slice buf (off + n) m.
Proof. intros Hn Hm. unfold ring_slice. by rewrite seqZ_app, fmap_app. Qed.

Lemma ring_slice_lookup buf off n i :
  0 <= i < n -> ring_slice buf off n !! Z.to_nat i = Some (ring_at buf (off + i)).
Proof.
  intros Hi. unfold ring_slice. rewrite list_lookup_fmap.
  rewrite (lookup_seqZ_lt off n (Z.to_nat i)) by lia. simpl. f_equal. f_equal. lia.
Qed.

Lemma ring_slice_ext buf buf' off off' n :
  (forall i, 0 <= i < n -> ring_at buf (off + i) = ring_at buf' (off' + i)) ->
  ring_slice buf off n = ring_slice buf' off' n.
Proof.
  intros Hext. apply list_eq. intros i.
  destruct (decide (0 <= Z.of_nat i < n)) as [Hi|Hi].
  - rewrite <- (Nat2Z.id i). rewrite !ring_slice_lookup by done.
    f_equal. by apply Hext.
  - rewrite !lookup_ge_None_2; [done| |]; unfold ring_slice;
      rewrite length_fmap, length_seqZ; lia.
Qed.

(** Positions that agree modulo the size are the same cell. *)
Lemma ring_at_mod buf i j :
  i mod Z.of_nat (length buf) = j mod Z.of_nat (length buf) ->
  ring_at buf i = ring_at buf j.
Proof. unfold ring_at. by intros ->. Qed.

Lemma ring_slice_mod buf off off' n :
  off mod Z.of_nat (length buf) = off' mod Z.of_nat (length buf) ->
  ring_slice buf off n = ring_slice buf off' n.
Proof.
  intros Heq. apply ring_slice_ext. intros i _. apply ring_at_mod.
  rewrite <- (Zplus_mod_idemp_l off), <- (Zplus_mod_idemp_l off').
  by rewrite Heq.
Qed.

Lemma ring_at_lt buf i :
  0 <= i < Z.of_nat (length buf) -> ring_at buf i = buf !!! Z.to_nat i.
Proof. intros Hi. unfold ring_at. by rewrite Z.mod_small. Qed.

Lemma ring_at_add buf o i :
  0 <= o < Z.of_nat (length buf) -> 0 <= i < Z.of_nat (length buf) ->
  ring_at buf (o + i) =
    buf !!! (if bool_decide (o + i < Z.of_nat (length buf))
             then Z.to_nat (o + i) else Z.to_nat (o + i - Z.of_nat (length buf))).
Proof.
  intros Ho Hi. unfold ring_at. rewrite mod_add_once by lia. by case_bd.
Qed.

(** A straight part of the array is a slice of the ring. *)
Lemma take_drop_ring_slice buf o n :
  0 <= o -> 0 <= n -> o + n <= Z.of_nat (length buf) ->
  take (Z.to_nat n) (drop (Z.to_nat o) buf) = ring_slice buf o n.
Proof.
  intros Ho Hn Hle. apply list_eq. intros i.
  destruct (decide (Z.of_nat i < n)) as [Hi|Hi].
  - rewrite lookup_take_lt, lookup_drop by lia.
    rewrite <- (Nat2Z.id i), ring_slice_lookup by lia.
    rewrite ring_at_lt by lia. rewrite list_lookup_lookup_total_lt by lia.
    f_equal. f_equal. lia.
  - rewrite lookup_take_ge by lia. symmetry. apply lookup_ge_None_2.
    unfold ring_slice. rewrite length_fmap, length_seqZ. lia.
Qed.

(** A straight copy of [src] to offset [o], cell by cell. *)
Lemma ring_straight buf o src :
  0 <= o -> o + Z.of_nat (length src) <= Z.of_nat (length buf) ->
  exists b', memcpy_to buf o src = Some b' /\ length b' = length buf /\
    (forall i, 0 <= i < Z.of_nat (length buf) ->
       ring_at b' (o + i) =
         if bool_decide (i < Z.of_nat (length src))
         then src !!! Z.to_nat i else ring_at buf (o + i)).
Proof.
  intros Ho Hle. eexists. rewrite memcpy_to_ok by lia.
  split; [done|]. split; [apply length_inserts|]. intros i Hi.
  unfold ring_at. rewrite length_inserts.
  destruct (decide (o = Z.of_nat (length buf))) as [->|].
  { destruct src; [|simpl in Hle; lia]. simpl. by rewrite bool_decide_eq_false_2 by lia. }
  rewrite mod_add_once by lia. repeat case_bd.
  - rewrite list_lookup_total_inserts by lia. f_equal. lia.
  - rewrite list_lookup_total_inserts_ge; [done|lia].
  - lia.
  - rewrite list_lookup_total_inserts_lt; [done|lia].
Qed.

(** Appending [src] to the [n] cells from [out] on, where it fits before the
    end of the array: the cells keep their contents and [src] follows. *)
Lemma ring_straight_append buf out n src o :
  0 <= n -> n + Z.of_nat (length src) <= Z.of_nat (length buf) ->
  0 < Z.of_nat (length buf) ->
  o = (out + n) mod Z.of_nat (length buf) ->
  o + Z.of_nat (length src) <= Z.of_nat (length buf) ->
  exists b', memcpy_to buf o src = Some b' /\ length b' = length buf /\
    ring_slice b' out n = ring_slice buf out n /\
    ring_slice b' (out + n) (Z.of_nat (length src)) = src.
Proof.
  intros Hn Hle Hpos Ho Hfit.
  assert (Hob : 0 <= o < Z.of_nat (length buf)) by (subst o; by apply Z.mod_pos_bound).
  destruct (ring_straight buf o src) as (b' & E & L & Hat); [lia..|].
  exists b'. split; [done|]. split; [done|]. split.
  - assert (Hmod : out mod Z.of_nat (length buf)
                   = (o + (Z.of_nat (length buf) - n)) mod Z.of_nat (length buf)).
    { rewrite Ho, Zplus_mod_idemp_l.
      replace (out + n + (Z.of_nat (length buf) - n))
        with (out + 1 * Z.of_nat (length buf)) by lia.
      by rewrite Z_mod_plus_full. }
    rewrite (ring_slice_mod b' out (o + (Z.of_nat (length buf) - n))) by (by rewrite L).
    rewrite (ring_slice_mod buf out (o + (Z.of_nat (length buf) - n))) by done.
    apply ring_slice_ext. intros i Hi. rewrite <- !Z.add_assoc. rewrite Hat by lia.
    by rewrite bool_decide_eq_false_2 by lia.
  - rewrite (ring_slice_mod b' (out + n) o) by (by rewrite L, Ho, Zmod_mod).
    apply list_eq. intros i.
    destruct (decide (Z.of_nat i < Z.of_nat (length src))).
    + rewrite <- (Nat2Z.id i), ring_slice_lookup by lia.
      rewrite Hat, bool_decide_eq_true_2 by lia.
      rewrite <- list_lookup_lookup_total_lt; [done|lia].
    + rewrite !lookup_ge_None_2; [done|lia|].
      unfold ring_slice. rewrite length_fmap, length_seqZ. lia.
Qed.

(** The second part of a split copy: it starts where the first one ended, at
    the beginning of the array, or is empty. *)
Lemma ring_wrap_append buf out n src :
  0 <= n -> n + Z.of_nat (length src) <= Z.of_nat (length buf) ->
  0 < Z.of_nat (length buf) ->
  src = [] \/ (out + n) mod Z.of_nat (length buf) = 0 ->
  exists b', memcpy_to buf 0 src = Some b' /\ length b' = length buf /\
    ring_slice b' out n = ring_slice buf out n /\
    ring_slice b' (out + n) (Z.of_nat (length src)) = src.
Proof.
  intros Hn Hle Hpos [->|Ho].
  - exists buf. rewrite memcpy_to_ok by (simpl; lia). simpl.
    repeat (split; [done|]). by apply ring_slice_nil.
  - apply ring_straight_append; lia.
Qed.

(** The bytes that a copy of [n] bytes from position [o], read in two parts,
    delivers. *)
Lemma ring_copy_out buf o n l :
  0 <= o < Z.of_nat (length buf) -> 0 <= n <= Z.of_nat (length buf) ->
  l = Z.min n (Z.of_nat (length buf) - o) ->
  memcpy_from buf o l = Some (ring_slice buf o l) /\
  memcpy_from buf 0 (n - l) = Some (ring_slice buf (o + l) (n - l)) /\
  ring_slice buf o l ++ ring_slice buf (o + l) (n - l) = ring_slice buf o n.
Proof.
  intros Ho Hn Hl. split; [|split].
  - rewrite memcpy_from_ok by lia. f_equal. apply take_drop_ring_slice; lia.
  - rewrite memcpy_from_ok by lia. f_equal.
    rewrite take_drop_ring_slice by lia.
    destruct (decide (n - l <= 0)); [by rewrite !ring_slice_nil|].
    apply ring_slice_mod. replace (o + l) with (Z.of_nat (length buf)) by lia.
    by rewrite Z_mod_same_full, Zmod_0_l.
  - rewrite <- ring_slice_app by lia. f_equal. lia.
Qed.

(** The same in two parts. *)
Lemma ring_append buf out n src o l :
  0 <= n -> n + Z.of_nat (length src) <= Z.of_nat (length buf) ->
  0 < Z.of_nat (length buf) ->
  o = (out + n) mod Z.of_nat (length buf) ->
  l = Z.min (Z.of_nat (length src)) (Z.of_nat (length buf) - o) ->
  exists b1 b2,
    memcpy_to buf o (take (Z.to_nat l) src) = Some b1 /\
    memcpy_to b1 0 (drop (Z.to_nat l) src) = Some b2 /\
    length b1 = length buf /\ length b2 = length buf /\
    ring_slice b2 out n = ring_slice buf out n /\
    ring_slice b2 (out + n) (Z.of_nat (length src)) = src.
Proof.
  intros Hn Hle Hpos Ho Hl.
  assert (Hob : 0 <= o < Z.of_nat (length buf)) by (subst o; by apply Z.mod_pos_bound).
  assert (Hlt : Z.of_nat (length (take (Z.to_nat l) src)) = l) by (rewrite length_take; lia).
  destruct (ring_straight_append buf out n (take (Z.to_nat l) src) o)
    as (b1 & E1 & L1 & S1 & S1'); [lia..|].
  destruct (ring_wrap_append b1 out (n + l) (drop (Z.to_nat l) src))
    as (b2 & E2 & L2 & S2 & S2'); [lia | rewrite length_drop; lia | lia | |].
  { destruct (decide (l = Z.of_nat (length src))); [left; apply drop_ge; lia|right].
    rewrite L1, Z.add_assoc, <- Zplus_mod_idemp_l, <- Ho.
    replace (o + l) with (Z.of_nat (length buf)) by lia. apply Z_mod_same_full. }
  exists b1, b2. repeat (split; [done || lia|]).
  rewrite Hlt in S1'. rewrite !ring_slice_app in S2 by lia.
  apply app_inj_1 in S2 as [S2 S3].
  2: { apply Nat2Z.inj. by rewrite !length_ring_slice. }
  split; [congruence|].
  replace (Z.of_nat (length src)) with (l + Z.of_nat (length (drop (Z.to_nat l) src)))
    by (rewrite length_drop; lia).
  rewrite ring_slice_app, <- Z.add_assoc, S2', S3, S1' by lia. apply take_drop.
Qed.

(** A prefix of a slice. *)
Lemma take_ring_slice buf off n k :
  0 <= k <= n -> take (Z.to_nat k) (ring_slice buf off n) = ring_slice buf off k.
Proof.
  intros Hk. replace n with (k + (n - k)) by lia. rewrite ring_slice_app by lia.
  rewrite take_app_length'; [done|].
  pose proof (length_ring_slice buf off k). lia.
Qed.

Lemma drop_ring_slice buf off n k :
  0 <= k <= n -> drop (Z.to_nat k) (ring_slice buf off n) = ring_slice buf (off + k) (n - k).
Proof.
  intros Hk. replace n with (k + (n - k)) at 1 by lia. rewrite ring_slice_app by lia.
  rewrite drop_app_length'; [done|].
  pose proof (length_ring_slice buf off k). lia.
Qed.

End ring.
