(* ===== verification/Kfifo.v ===== *)
(** * The kernel FIFO ([kernel/kfifo.c], [include/linux/kfifo.h])

    A byte queue in a power-of-two array whose [in] and [out] indices are
    free-running 32-bit counters.  The theorems relate it to a bounded queue
    of bytes, for every position of the counters, their wrap-around at 2^32
    included, and show that no copy leaves the array. *)

From Stdlib Require Import ZArith Lia Strings.Byte.
From stdpp Require Import base option list_numbers list.
From S2P Require Import Prelude Ring.

Local Open Scope Z_scope.
Local Open Scope kernel_scope.

Module Kfifo.

(** [struct kfifo]; the spinlock it points to is the caller's. *)
Record kfifo := mk_kfifo {
  kf_buffer : list byte;
  kf_size : Z;
  kf_in : Z;
  kf_out : Z
}.

Definition is_power_of_2 (n : Z) : bool :=
  bool_decide (n <> 0) && bool_decide (Z.land n (n -u 1) = 0).

(** [fls_long] of a 32-bit word: the position of the last set bit, from 1. *)
Definition fls_long (n : Z) : Z := if bool_decide (n = 0) then 0 else Z.log2 n + 1.

Definition roundup_pow_of_two (n : Z) : Z := u32 (Z.shiftl 1 (fls_long (n -u 1))).

(** [kfifo_ok] tells whether the [kmalloc] of the structure succeeds. *)
Definition kfifo_init (buffer : list byte) (size : Z) (kfifo_ok : bool) : outcome kfifo :=
  if negb (is_power_of_2 size) then Bug
  else if negb kfifo_ok then Err ENOMEM
  else Ok (mk_kfifo buffer size 0 0).

(** [kmalloc] of the data is a parameter: it gives a block of the size asked
    for, or nothing. *)
Definition kfifo_alloc (kmalloc : Z -> option (list byte)) (size : Z) (kfifo_ok : bool)
  : outcome kfifo :=
  let go size :=
    match kmalloc size with
    | None => Err ENOMEM
    | Some buffer => kfifo_init buffer size kfifo_ok
    end in
  if bool_decide (Z.land size (size -u 1) <> 0) then
    if bool_decide (size > 0x80000000) then Bug else go (roundup_pow_of_two size)
  else go size.

(** [None] is an access outside one of the two buffers. *)
Definition __kfifo_put (fifo : kfifo) (buffer : list byte) (len : Z) : option (Z * kfifo) :=
  let len := Z.min len (kf_size fifo -u kf_in fifo +u kf_out fifo) in
  let off := Z.land (kf_in fifo) (kf_size fifo -u 1) in
  let l := Z.min len (kf_size fifo -u off) in
  src1 ← memcpy_from buffer 0 l;
  b1 ← memcpy_to (kf_buffer fifo) off src1;
  src2 ← memcpy_from buffer l (len -u l);
  b2 ← memcpy_to b1 0 src2;
  Some (len, mk_kfifo b2 (kf_size fifo) (kf_in fifo +u len) (kf_out fifo)).

(** The result: the bytes delivered to the caller's buffer, their number, and
    the new state. *)
Definition __kfifo_get (fifo : kfifo) (len : Z) : option (list byte * Z * kfifo) :=
  let len := Z.min len (kf_in fifo -u kf_out fifo) in
  let off := Z.land (kf_out fifo) (kf_size fifo -u 1) in
  let l := Z.min len (kf_size fifo -u off) in
  d1 ← memcpy_from (kf_buffer fifo) off l;
  d2 ← memcpy_from (kf_buffer fifo) 0 (len -u l);
  Some (d1 ++ d2, len,
        mk_kfifo (kf_buffer fifo) (kf_size fifo) (kf_in fifo) (kf_out fifo +u len)).

Definition __kfifo_reset (fifo : kfifo) : kfifo :=
  mk_kfifo (kf_buffer fifo) (kf_size fifo) 0 0.

Definition kfifo_reset (fifo : kfifo) : kfifo := __kfifo_reset fifo.

Definition kfifo_put (fifo : kfifo) (buffer : list byte) (len : Z) : option (Z * kfifo) :=
  __kfifo_put fifo buffer len.

Definition kfifo_get (fifo : kfifo) (len : Z) : option (list byte * Z * kfifo) :=
  '(data, ret, fifo) ← __kfifo_get fifo len;
  if bool_decide (kf_in fifo = kf_out fifo)
  then Some (data, ret, mk_kfifo (kf_buffer fifo) (kf_size fifo) 0 0)
  else Some (data, ret, fifo).

Definition __kfifo_len (fifo : kfifo) : Z := kf_in fifo -u kf_out fifo.

Definition kfifo_len (fifo : kfifo) : Z := __kfifo_len fifo.

(** ** The queue a FIFO stands for *)

Definition kfifo_contents (fifo : kfifo) : list byte :=
  ring_slice (kf_buffer fifo) (kf_out fifo) (kf_in fifo -u kf_out fifo).

Record kfifo_wf (fifo : kfifo) : Prop := {
  wf_pow2 : exists k, 0 <= k <= 31 /\ kf_size fifo = 2 ^ k;
  wf_buffer : Z.of_nat (length (kf_buffer fifo)) = kf_size fifo;
  wf_in : 0 <= kf_in fifo < two32;
  wf_out : 0 <= kf_out fifo < two32;
  wf_len : kf_in fifo -u kf_out fifo <= kf_size fifo
}.

(** The operations of the locked interface as a call sequence, and the
    bounded byte queue that is their specification. *)
Inductive call :=
  | CPut (data : list byte)
  | CGet (len : Z)
  | CReset
  | CLen.

Inductive reply :=
  | RCount (n : Z)
  | RData (n : Z) (data : list byte)
  | RUnit.

Definition kfifo_call (c : call) (fifo : kfifo) : option (reply * kfifo) :=
  match c with
  | CPut data =>
      '(n, fifo) ← kfifo_put fifo data (Z.of_nat (length data)); Some (RCount n, fifo)
  | CGet len => '(data, n, fifo) ← kfifo_get fifo len; Some (RData n data, fifo)
  | CReset => Some (RUnit, kfifo_reset fifo)
  | CLen => Some (RCount (kfifo_len fifo), fifo)
  end.

Fixpoint kfifo_run (cs : list call) (fifo : kfifo) : option (list reply * kfifo) :=
  match cs with
  | [] => Some ([], fifo)
  | c :: cs =>
      '(r, fifo) ← kfifo_call c fifo;
      '(rs, fifo) ← kfifo_run cs fifo;
      Some (r :: rs, fifo)
  end.

Definition queue_call (capacity : Z) (c : call) (q : list byte) : reply * list byte :=
  match c with
  | CPut data =>
      let n := Z.min (Z.of_nat (length data)) (capacity - Z.of_nat (length q)) in
      (RCount n, q ++ take (Z.to_nat n) data)
  | CGet len => (RData (Z.min len (Z.of_nat (length q))) (take (Z.to_nat len) q), drop (Z.to_nat len) q)
  | CReset => (RUnit, [])
  | CLen => (RCount (Z.of_nat (length q)), q)
  end.

Fixpoint queue_run (capacity : Z) (cs : list call) (q : list byte) : list reply * list byte :=
  match cs with
  | [] => ([], q)
  | c :: cs =>
      let '(r, q) := queue_call capacity c q in
      let '(rs, q) := queue_run capacity cs q in (r :: rs, q)
  end.

(** The arguments a C caller can pass: lengths are [unsigned int]. *)
Definition call_ok (c : call) : Prop :=
  match c with
  | CPut data => Z.of_nat (length data) < two32
  | CGet len => 0 <= len < two32
  | _ => True
  end.

(** ** Lemmas *)

Section wf.
Context (f : kfifo) (Hwf : kfifo_wf f).

Lemma wf_size_range : 0 < kf_size f <= two31.
Proof.
  destruct Hwf as [(k & Hk & ->) _ _ _ _]. split; [apply Z.pow_pos_nonneg; lia|].
  change two31 with (2 ^ 31). apply Z.pow_le_mono_r; lia.
Qed.

(** The masked index is the position in the ring. *)
Lemma wf_mask x : Z.land x (kf_size f -u 1) = x mod kf_size f.
Proof.
  pose proof wf_size_range. rewrite u32_small by (unfold two31, two32 in *; lia).
  destruct Hwf as [(k & Hk & ->) _ _ _ _]. apply land_pow2_mask. lia.
Qed.

Lemma wf_u32_mod x : u32 x mod kf_size f = x mod kf_size f.
Proof. destruct Hwf as [(k & Hk & ->) _ _ _ _]. apply u32_mod_pow2. lia. Qed.

Lemma wf_contents_length :
  Z.of_nat (length (kfifo_contents f)) = kf_in f -u kf_out f.
Proof. apply length_ring_slice, u32_range. Qed.

(** The free space the code computes. *)
Lemma wf_room :
  kf_size f -u kf_in f +u kf_out f =
  kf_size f - Z.of_nat (length (kfifo_contents f)).
Proof.
  rewrite wf_contents_length, u32_add_l.
  replace (kf_size f - kf_in f + kf_out f) with (kf_size f - (kf_in f - kf_out f)) by lia.
  rewrite <- u32_sub_r. apply u32_small.
  pose proof wf_size_range. pose proof (u32_range (kf_in f - kf_out f)).
  destruct Hwf as [_ _ _ _ Hl]. unfold two31, two32 in *. lia.
Qed.

(** The write index is the position just after the contents. *)
Lemma wf_index :
  kf_in f mod kf_size f = (kf_out f + (kf_in f -u kf_out f)) mod kf_size f.
Proof.
  rewrite <- Zplus_mod_idemp_r, wf_u32_mod, Zplus_mod_idemp_r. f_equal. lia.
Qed.

Lemma wf_index_range : 0 <= kf_in f mod kf_size f < kf_size f.
Proof. apply Z.mod_pos_bound. apply wf_size_range. Qed.

End wf.

#[local] Hint Resolve wf_size_range : kernel.

(** What [__kfifo_put] does on every well-formed FIFO. *)
Lemma kfifo_put_spec f data len :
  kfifo_wf f -> 0 <= len <= Z.of_nat (length data) ->
  exists n f',
    __kfifo_put f data len = Some (n, f') /\
    n = Z.min len (kf_size f - Z.of_nat (length (kfifo_contents f))) /\
    kfifo_wf f' /\ kf_size f' = kf_size f /\
    kfifo_contents f' = kfifo_contents f ++ take (Z.to_nat n) data.
Proof.
  intros Hwf Hlen. pose proof (wf_size_range f Hwf) as Hsz.
  pose proof (wf_contents_length f) as Hcl. pose proof (wf_room f Hwf) as Hroom.
  pose proof (u32_range (kf_in f - kf_out f)) as Hu.
  pose proof (wf_index f Hwf) as Hidx. pose proof (wf_index_range f Hwf) as Hob.
  destruct (id Hwf) as [Hk Hb Hi Ho Hl].
  set (n := Z.min len _). set (src := take (Z.to_nat n) data).
  assert (Hsl : Z.of_nat (length src) = n) by (unfold src; rewrite length_take; lia).
  set (o := kf_in f mod kf_size f) in *. set (l := Z.min n (kf_size f - o)).
  destruct (ring_append (kf_buffer f) (kf_out f) (kf_in f -u kf_out f) src o l)
    as (b1 & b2 & H1 & H2 & L1 & L2 & Hold & Hnew); rewrite ?Hb; [lia..|].
  assert (Hlen' : kf_in f +u n -u kf_out f = kf_in f -u kf_out f + n).
  { rewrite u32_sub_l. replace (kf_in f + n - kf_out f) with (kf_in f - kf_out f + n) by lia.
    rewrite <- u32_add_l. apply u32_small. unfold two31, two32 in *. lia. }
  exists n, (mk_kfifo b2 (kf_size f) (kf_in f +u n) (kf_out f)).
  split; [|split; [done|split; [|split; [done|]]]].
  - unfold __kfifo_put. rewrite Hroom, wf_mask by done. fold n o.
    rewrite (u32_small (kf_size f - o)) by (unfold two31, two32 in *; lia). fold l.
    rewrite (u32_small (n - l)) by (unfold two31, two32 in *; lia).
    rewrite (memcpy_from_ok data 0 l), (memcpy_from_ok data l (n - l)) by lia.
    simpl. rewrite drop_0.
    replace (take (Z.to_nat l) data) with (take (Z.to_nat l) src)
      by (unfold src; rewrite take_take; f_equal; lia).
    rewrite H1. simpl.
    replace (take (Z.to_nat (n - l)) (drop (Z.to_nat l) data)) with (drop (Z.to_nat l) src)
      by (unfold src; rewrite skipn_firstn_comm; f_equal; lia).
    by rewrite H2.
  - split; simpl; [done | lia | apply u32_range | done | lia].
  - unfold kfifo_contents at 1. simpl. rewrite Hlen', ring_slice_app by lia.
    rewrite Hsl in Hnew. by rewrite Hold, Hnew.
Qed.

(** What [__kfifo_get] does on every well-formed FIFO. *)
Lemma kfifo_get_spec f len :
  kfifo_wf f -> 0 <= len ->
  exists n f',
    __kfifo_get f len = Some (take (Z.to_nat len) (kfifo_contents f), n, f') /\
    n = Z.min len (Z.of_nat (length (kfifo_contents f))) /\
    kfifo_wf f' /\ kf_size f' = kf_size f /\
    kfifo_contents f' = drop (Z.to_nat len) (kfifo_contents f).
Proof.
  intros Hwf Hlen. pose proof (wf_size_range f Hwf) as Hsz.
  pose proof (wf_contents_length f) as Hcl.
  pose proof (u32_range (kf_in f - kf_out f)) as Hu.
  destruct (id Hwf) as [Hk Hb Hi Ho Hl].
  set (o := kf_out f mod kf_size f).
  assert (Hob : 0 <= o < kf_size f) by (apply Z.mod_pos_bound; lia).
  set (n := Z.min len (kf_in f -u kf_out f)).
  set (l := Z.min n (kf_size f - o)).
  destruct (ring_copy_out (kf_buffer f) o n l) as (H1 & H2 & H3); rewrite ?Hb; [lia..|].
  exists n, (mk_kfifo (kf_buffer f) (kf_size f) (kf_in f) (kf_out f +u n)).
  assert (Hlen' : kf_in f -u (kf_out f +u n) = kf_in f -u kf_out f - n).
  { rewrite u32_sub_r. replace (kf_in f - (kf_out f + n)) with (kf_in f - kf_out f - n) by lia.
    rewrite <- u32_sub_l. apply u32_small. unfold two31, two32 in *. lia. }
  split; [|split; [lia|split; [|split; [done|]]]].
  - unfold __kfifo_get. rewrite wf_mask by done. fold n o.
    rewrite (u32_small (kf_size f - o)) by (unfold two31, two32 in *; lia). fold l.
    rewrite (u32_small (n - l)) by (unfold two31, two32 in *; lia).
    rewrite H1. simpl. rewrite H2. simpl. rewrite H3. do 3 f_equal.
    unfold kfifo_contents. rewrite (ring_slice_mod _ o (kf_out f))
      by (rewrite Hb; unfold o; by rewrite Zmod_mod).
    destruct (decide (len <= kf_in f -u kf_out f)).
    + replace n with len by lia. by rewrite take_ring_slice by lia.
    + replace n with (kf_in f -u kf_out f) by lia. rewrite take_ge; [done|]. 
      unfold kfifo_contents in Hcl. lia.
  - split; simpl; [done | done | done | apply u32_range | lia].
  - unfold kfifo_contents. simpl. rewrite Hlen'.
    rewrite (ring_slice_mod _ (kf_out f +u n) (kf_out f + n))
      by (rewrite Hb; by apply wf_u32_mod).
    rewrite <- drop_ring_slice by lia.
    destruct (decide (len <= kf_in f -u kf_out f)); [by replace n with len by lia|].
    replace n with (kf_in f -u kf_out f) by lia.
    rewrite !drop_ge; [done|unfold kfifo_contents in Hcl; lia..].
Qed.

(** ** Powers of two *)

Lemma land_pred_zero n : 0 < n -> Z.land n (n - 1) = 0 -> n = 2 ^ Z.log2 n.
Proof.
  intros Hn Hland. pose proof (Z.log2_spec n Hn) as [Hlo Hhi].
  destruct (decide (n = 2 ^ Z.log2 n)) as [|Hne]; [done|].
  assert (Hl : Z.log2 (n - 1) = Z.log2 n) by (apply Z.log2_unique; [apply Z.log2_nonneg|lia]).
  pose proof (Z.pow_pos_nonneg 2 (Z.log2 n) ltac:(lia) (Z.log2_nonneg n)).
  assert (Hbit : Z.testbit (Z.land n (n - 1)) (Z.log2 n) = true).
  { rewrite Z.land_spec, Z.bit_log2 by lia. rewrite <- Hl.
    by rewrite Z.bit_log2 by lia. }
  by rewrite Hland, Z.bits_0 in Hbit.
Qed.

Lemma land_pred_pow2 k : 0 <= k -> Z.land (2 ^ k) (2 ^ k - 1) = 0.
Proof. intros Hk. rewrite land_pow2_mask by done. apply Z_mod_same_full. Qed.

Lemma is_power_of_2_pow k : 0 <= k <= 31 -> is_power_of_2 (2 ^ k) = true.
Proof.
  intros Hk. pose proof (Z.pow_pos_nonneg 2 k ltac:(lia) ltac:(lia)).
  pose proof (Z.pow_le_mono_r 2 k 31 ltac:(lia) ltac:(lia)).
  unfold is_power_of_2. rewrite u32_small by (unfold two32; lia).
  rewrite land_pred_pow2 by lia. by rewrite bool_decide_eq_true_2 by lia.
Qed.

Lemma log2_le_31 n : 0 < n <= two31 -> 0 <= Z.log2 n <= 31.
Proof.
  intros Hn. split; [apply Z.log2_nonneg|].
  change 31 with (Z.log2 two31). apply Z.log2_le_mono. lia.
Qed.

(** The size [kfifo_alloc] settles on. *)
Lemma roundup_spec n :
  0 < n <= two31 -> Z.land n (n -u 1) <> 0 ->
  exists k, 0 <= k <= 31 /\ roundup_pow_of_two n = 2 ^ k /\ n <= 2 ^ k < 2 * n.
Proof.
  intros Hn Hland. rewrite u32_small in Hland by (unfold two31, two32 in *; lia).
  pose proof (Z.log2_spec n ltac:(lia)) as [Hlo Hhi].
  pose proof (log2_le_31 n Hn) as Hk31.
  assert (Hne : n <> 2 ^ Z.log2 n).
  { intros E. apply Hland. rewrite E. apply land_pred_pow2. lia. }
  assert (Hl : Z.log2 (n - 1) = Z.log2 n) by (apply Z.log2_unique; lia).
  assert (Hk30 : Z.log2 n <= 30).
  { destruct (decide (Z.log2 n = 31)) as [E|]; [|lia].
    rewrite E in *. unfold two31 in *. lia. }
  rewrite Z.pow_succ_r in Hhi by lia.
  exists (Z.log2 n + 1). split; [lia|]. rewrite Z.pow_add_r by lia. split; [|lia].
  unfold roundup_pow_of_two, fls_long.
  rewrite (u32_small (n - 1)) by (unfold two31, two32 in *; lia).
  rewrite bool_decide_eq_false_2 by lia. rewrite Hl, Z.shiftl_1_l.
  rewrite Z.pow_add_r by lia. apply u32_small.
  pose proof (Z.pow_le_mono_r 2 (Z.log2 n) 30 ltac:(lia) ltac:(lia)).
  unfold two31, two32 in *. lia.
Qed.

Lemma kfifo_init_ok buffer k :
  0 <= k <= 31 -> Z.of_nat (length buffer) = 2 ^ k ->
  exists f, kfifo_init buffer (2 ^ k) true = Ok f /\
    kfifo_wf f /\ kfifo_contents f = [] /\ kf_size f = 2 ^ k.
Proof.
  intros Hk Hb. unfold kfifo_init. rewrite is_power_of_2_pow by done. simpl.
  eexists. split; [done|]. pose proof (Z.pow_pos_nonneg 2 k ltac:(lia) ltac:(lia)).
  split; [|split; [by apply ring_slice_nil|done]].
  split; simpl; [by exists k | done | by unfold two32 | by unfold two32 |].
  rewrite u32_small; unfold two32; lia.
Qed.

(** One call of the locked interface does what the queue does. *)
Lemma kfifo_call_spec c f :
  kfifo_wf f -> call_ok c ->
  exists r f', kfifo_call c f = Some (r, f') /\ kfifo_wf f' /\ kf_size f' = kf_size f /\
    queue_call (kf_size f) c (kfifo_contents f) = (r, kfifo_contents f').
Proof.
  intros Hwf Hc. destruct c as [data|len| |]; simpl in *.
  - destruct (kfifo_put_spec f data (Z.of_nat (length data)) Hwf) as (n & f' & E & Hn & W & S & C);
      [lia|].
    unfold kfifo_put. rewrite E. simpl. eexists _, _. split; [done|].
    split; [done|split; [done|]]. by rewrite C, <- Hn.
  - destruct (kfifo_get_spec f len Hwf) as (n & f' & E & Hn & W & S & C); [lia|].
    unfold kfifo_get. rewrite E. simpl. rewrite <- C, <- Hn.
    destruct (bool_decide_reflect (kf_in f' = kf_out f')) as [Hio|]; simpl.
    + eexists _, _. split; [done|]. split; [|split; [done|]].
      * destruct W. split; simpl; try done; [by unfold two32..|].
        rewrite u32_small by (unfold two32; lia).
        pose proof (wf_size_range f' ltac:(by split)). lia.
      * f_equal. unfold kfifo_contents. simpl. rewrite Hio, Z.sub_diag.
        by rewrite !ring_slice_nil.
    + by eexists _, _.
  - eexists _, _. split; [done|]. split; [|split; [done|]].
    + pose proof (wf_size_range f Hwf). destruct Hwf.
      split; simpl; try done; [by unfold two32..|].
      rewrite u32_small; unfold two32; lia.
    + unfold kfifo_contents, kfifo_reset. simpl. by rewrite ring_slice_nil.
  - eexists _, _. split; [done|]. split; [done|split; [done|]].
    by rewrite wf_contents_length.
Qed.

(** ** Main theorems *)

(** C38: every sequence of calls of the locked interface
    ([kfifo_put], [kfifo_get], [kfifo_reset], [kfifo_len]) on a well-formed
    FIFO runs without touching memory outside its buffer, answers exactly
    what a bounded byte queue of capacity [size] answers, the counts that put
    and get return and the bytes copied out, and leaves a
    well-formed FIFO standing for that queue's final contents, wherever the
    free-running indices are and however often they wrap at 2^32. *)
Theorem kfifo_refines_queue cs f :
  kfifo_wf f -> Forall call_ok cs ->
  exists rs f', kfifo_run cs f = Some (rs, f') /\ kfifo_wf f' /\
    queue_run (kf_size f) cs (kfifo_contents f) = (rs, kfifo_contents f').
Proof.
  intros Hwf Hcs. revert f Hwf. induction Hcs as [|c cs Hc _ IH]; intros f Hwf.
  - by exists [], f.
  - destruct (kfifo_call_spec c f Hwf Hc) as (r & f1 & E1 & W1 & S1 & Q1).
    destruct (IH f1 W1) as (rs & f2 & E2 & W2 & Q2).
    exists (r :: rs), f2. simpl. rewrite E1. simpl. rewrite E2. simpl.
    split; [done|]. split; [done|]. rewrite Q1, <- S1. by rewrite Q2.
Qed.

(** The FIFO of the witnesses: four cells, the indices about to wrap. *)
Definition near_wrap : kfifo := mk_kfifo [x61; x62; x63; x64] 4 4294967294 4294967293.

Lemma near_wrap_wf : kfifo_wf near_wrap.
Proof.
  split; simpl; [by exists 2 | done | by unfold two32 | by unfold two32 | by vm_compute].
Qed.

Lemma kfifo_refines_queue_witness :
  exists rs f', kfifo_run [CPut [x31; x32; x33; x34]; CLen; CGet 3; CReset] near_wrap
                = Some (rs, f') /\ kfifo_wf f' /\
    queue_run 4 [CPut [x31; x32; x33; x34]; CLen; CGet 3; CReset] [x62] = (rs, kfifo_contents f').
Proof.
  apply (kfifo_refines_queue [CPut [x31; x32; x33; x34]; CLen; CGet 3; CReset] near_wrap).
  - apply near_wrap_wf.
  - repeat constructor; by unfold two32.
Defined.

(** For a request between 1 and 2^31 bytes [kfifo_alloc]
    either reports [-ENOMEM] or builds a well-formed empty FIFO whose size is
    the least power of two that holds the request; it never hits a [BUG_ON]. *)
Theorem kfifo_alloc_correct kmalloc size kfifo_ok :
  (forall n b, 0 <= n -> kmalloc n = Some b -> Z.of_nat (length b) = n) ->
  0 < size <= two31 ->
  match kfifo_alloc kmalloc size kfifo_ok with
  | Ok f => kfifo_wf f /\ kfifo_contents f = [] /\ size <= kf_size f < 2 * size /\ kfifo_ok = true
  | Err e => e = ENOMEM
  | Bug => False
  end.
Proof.
  intros Hk Hsz. unfold kfifo_alloc.
  assert (Hgo : forall k, 0 <= k <= 31 -> size <= 2 ^ k < 2 * size ->
    match match kmalloc (2 ^ k) with
          | None => Err ENOMEM
          | Some buffer => kfifo_init buffer (2 ^ k) kfifo_ok
          end with
    | Ok f => kfifo_wf f /\ kfifo_contents f = [] /\ size <= kf_size f < 2 * size /\ kfifo_ok = true
    | Err e => e = ENOMEM
    | Bug => False
    end).
  { intros k Hkr Hle. destruct (kmalloc (2 ^ k)) as [b|] eqn:E; [|done].
    pose proof (Hk (2 ^ k) b ltac:(apply Z.pow_nonneg; lia) E) as Hb.
    destruct kfifo_ok.
    - destruct (kfifo_init_ok b k Hkr Hb) as (f & -> & W & C & ->). done.
    - unfold kfifo_init. by rewrite is_power_of_2_pow. }
  case_bd.
  - rewrite bool_decide_eq_false_2 by (unfold two31 in *; lia).
    destruct (roundup_spec size Hsz) as (k & Hkr & -> & Hb); [done|]. by apply Hgo.
  - assert (E : size = 2 ^ Z.log2 size).
    { apply land_pred_zero; [lia|].
      rewrite <- (u32_small (size - 1)) by (unfold two31, two32 in *; lia). lia. }
    specialize (Hgo (Z.log2 size)). rewrite <- E in Hgo.
    apply Hgo; [by apply log2_le_31|lia].
Qed.

Lemma kfifo_alloc_correct_witness :
  match kfifo_alloc (fun n => Some (replicate (Z.to_nat n) x00)) 5 true with
  | Ok f => kfifo_wf f /\ kfifo_contents f = [] /\ 5 <= kf_size f < 10 /\ true = true
  | Err e => e = ENOMEM
  | Bug => False
  end.
Proof.
  apply (kfifo_alloc_correct (fun n => Some (replicate (Z.to_nat n) x00)) 5 true).
  - intros n b Hn Hb. simplify_eq. rewrite length_replicate. lia.
  - by unfold two31.
Defined.

End Kfifo.
