(* ===== verification/KfifoSpsc.v ===== *)
(** * The kernel FIFO without a lock

    [kernel/kfifo.c] documents that with one concurrent reader and one
    concurrent writer [__kfifo_put] and [__kfifo_get] need no lock.  This file
    cuts both routines at their memory barriers into atomic actions, lets the
    two sides interleave freely, and proves the claim.  The barriers make the
    actions of each side take effect in program order, which is what the step
    relation takes for granted. *)

From Stdlib Require Import ZArith Lia Strings.Byte.
From stdpp Require Import base option list_numbers list.
From S2P Require Import Prelude Ring Kfifo.

Local Open Scope Z_scope.
Local Open Scope kernel_scope.

Module Spsc.
Import Kfifo.

(** ** The atomic actions of [__kfifo_put] and [__kfifo_get] *)

(** [len = min(len, fifo->size - fifo->in + fifo->out)] *)
Definition put_sample (f : kfifo) (len : Z) : Z :=
  Z.min len (kf_size f -u kf_in f +u kf_out f).

(** [l = min(len, fifo->size - (fifo->in & (fifo->size - 1)))] *)
Definition put_split (f : kfifo) (len : Z) : Z :=
  Z.min len (kf_size f -u Z.land (kf_in f) (kf_size f -u 1)).

Definition put_copy1 (f : kfifo) (buffer : list byte) (len : Z) : option kfifo :=
  src ← memcpy_from buffer 0 (put_split f len);
  b ← memcpy_to (kf_buffer f) (Z.land (kf_in f) (kf_size f -u 1)) src;
  Some (mk_kfifo b (kf_size f) (kf_in f) (kf_out f)).

Definition put_copy2 (f : kfifo) (buffer : list byte) (len : Z) : option kfifo :=
  src ← memcpy_from buffer (put_split f len) (len -u put_split f len);
  b ← memcpy_to (kf_buffer f) 0 src;
  Some (mk_kfifo b (kf_size f) (kf_in f) (kf_out f)).

Definition put_publish (f : kfifo) (len : Z) : kfifo :=
  mk_kfifo (kf_buffer f) (kf_size f) (kf_in f +u len) (kf_out f).

Definition get_sample (f : kfifo) (len : Z) : Z := Z.min len (kf_in f -u kf_out f).

Definition get_split (f : kfifo) (len : Z) : Z :=
  Z.min len (kf_size f -u Z.land (kf_out f) (kf_size f -u 1)).

Definition get_copy1 (f : kfifo) (len : Z) : option (list byte) :=
  memcpy_from (kf_buffer f) (Z.land (kf_out f) (kf_size f -u 1)) (get_split f len).

Definition get_copy2 (f : kfifo) (len : Z) : option (list byte) :=
  memcpy_from (kf_buffer f) 0 (len -u get_split f len).

Definition get_publish (f : kfifo) (len : Z) : kfifo :=
  mk_kfifo (kf_buffer f) (kf_size f) (kf_in f) (kf_out f +u len).

(** ** The two threads *)

(** Where the writer is, with its arguments and its local [len]. *)
Inductive wpc :=
  | WIdle
  | WSampled (buffer : list byte) (len : Z)
  | WCopied1 (buffer : list byte) (len : Z)
  | WCopied2 (buffer : list byte) (len : Z).

(** Where the reader is, with its local [len] and what it has copied. *)
Inductive rpc :=
  | RIdle
  | RSampled (len : Z)
  | RCopied1 (d1 : list byte) (len : Z)
  | RCopied2 (data : list byte) (len : Z).

(** [produced] and [consumed] are the histories: the bytes of every completed
    put and the bytes handed out by every completed get. *)
Record state := mk_state {
  st_fifo : kfifo;
  st_w : wpc;
  st_r : rpc;
  st_produced : list byte;
  st_consumed : list byte
}.

Inductive step : state -> state -> Prop :=
  | step_w_sample f r p c buffer len :
      0 <= len <= Z.of_nat (length buffer) ->
      step (mk_state f WIdle r p c)
           (mk_state f (WSampled buffer (put_sample f len)) r p c)
  | step_w_copy1 f f' r p c buffer len :
      put_copy1 f buffer len = Some f' ->
      step (mk_state f (WSampled buffer len) r p c)
           (mk_state f' (WCopied1 buffer len) r p c)
  | step_w_copy2 f f' r p c buffer len :
      put_copy2 f buffer len = Some f' ->
      step (mk_state f (WCopied1 buffer len) r p c)
           (mk_state f' (WCopied2 buffer len) r p c)
  | step_w_publish f r p c buffer len :
      step (mk_state f (WCopied2 buffer len) r p c)
           (mk_state (put_publish f len) WIdle r (p ++ take (Z.to_nat len) buffer) c)
  | step_r_sample f w p c len :
      0 <= len ->
      step (mk_state f w RIdle p c) (mk_state f w (RSampled (get_sample f len)) p c)
  | step_r_copy1 f w p c len d1 :
      get_copy1 f len = Some d1 ->
      step (mk_state f w (RSampled len) p c) (mk_state f w (RCopied1 d1 len) p c)
  | step_r_copy2 f w p c len d1 d2 :
      get_copy2 f len = Some d2 ->
      step (mk_state f w (RCopied1 d1 len) p c) (mk_state f w (RCopied2 (d1 ++ d2) len) p c)
  | step_r_publish f w p c len data :
      step (mk_state f w (RCopied2 data len) p c)
           (mk_state (get_publish f len) w RIdle p (c ++ data)).

Definition initial (f : kfifo) : state := mk_state f WIdle RIdle (kfifo_contents f) [].

Inductive reachable (f0 : kfifo) : state -> Prop :=
  | reach_init : reachable f0 (initial f0)
  | reach_step s s' : reachable f0 s -> step s s' -> reachable f0 s'.

(** ** The invariant *)

Definition writer_inv (f : kfifo) (w : wpc) : Prop :=
  match w with
  | WIdle => True
  | WSampled buffer len | WCopied1 buffer len | WCopied2 buffer len =>
      0 <= len <= Z.of_nat (length buffer) /\
      (kf_in f -u kf_out f) + len <= kf_size f /\
      match w with
      | WCopied1 _ _ =>
          ring_slice (kf_buffer f) (kf_in f) (put_split f len)
          = take (Z.to_nat (put_split f len)) buffer
      | WCopied2 _ _ =>
          ring_slice (kf_buffer f) (kf_in f) len = take (Z.to_nat len) buffer
      | _ => True
      end
  end.

Definition reader_inv (f : kfifo) (r : rpc) : Prop :=
  match r with
  | RIdle => True
  | RSampled len | RCopied1 _ len | RCopied2 _ len =>
      0 <= len <= kf_in f -u kf_out f /\
      match r with
      | RCopied1 d1 _ => d1 = ring_slice (kf_buffer f) (kf_out f) (get_split f len)
      | RCopied2 data _ => data = ring_slice (kf_buffer f) (kf_out f) len
      | _ => True
      end
  end.

Record inv (s : state) : Prop := {
  inv_wf : kfifo_wf (st_fifo s);
  inv_w : writer_inv (st_fifo s) (st_w s);
  inv_r : reader_inv (st_fifo s) (st_r s);
  inv_hist : st_consumed s ++ kfifo_contents (st_fifo s) = st_produced s
}.

(** The copy a side is about to make stays inside the buffers. *)
Definition copy_enabled (s : state) : Prop :=
  match st_w s with
  | WSampled buffer len => is_Some (put_copy1 (st_fifo s) buffer len)
  | WCopied1 buffer len => is_Some (put_copy2 (st_fifo s) buffer len)
  | _ => True
  end /\
  match st_r s with
  | RSampled len => is_Some (get_copy1 (st_fifo s) len)
  | RCopied1 _ len => is_Some (get_copy2 (st_fifo s) len)
  | _ => True
  end.

(** ** The actions are the routines *)

(** Run without interruption the four actions of the writer are
    [__kfifo_put]. *)
Lemma put_actions f buffer len :
  __kfifo_put f buffer len =
    (let n := put_sample f len in
     f1 ← put_copy1 f buffer n;
     f2 ← put_copy2 f1 buffer n;
     Some (n, put_publish f2 n)).
Proof.
  unfold __kfifo_put, put_sample, put_copy1, put_copy2, put_split, put_publish. simpl.
  destruct (memcpy_from buffer 0 _); simpl; [|done].
  destruct (memcpy_to (kf_buffer f) _ _); simpl; [|done].
  destruct (memcpy_from buffer _ _); simpl; [|done].
  by destruct (memcpy_to _ 0 _).
Qed.

(** Run without interruption the four actions of the reader are
    [__kfifo_get]. *)
Lemma get_actions f len :
  __kfifo_get f len =
    (let n := get_sample f len in
     d1 ← get_copy1 f n;
     d2 ← get_copy2 f n;
     Some (d1 ++ d2, n, get_publish f n)).
Proof. done. Qed.

(** ** Each action preserves the invariant *)

Section actions.
Context (f : kfifo) (Hwf : kfifo_wf f).

Lemma put_split_eq len : put_split f len = Z.min len (kf_size f - kf_in f mod kf_size f).
Proof.
  unfold put_split. rewrite wf_mask by done. f_equal. apply u32_small.
  pose proof (wf_index_range f Hwf). pose proof (wf_size_range f Hwf).
  unfold two31, two32 in *. lia.
Qed.

Lemma get_split_eq len : get_split f len = Z.min len (kf_size f - kf_out f mod kf_size f).
Proof.
  unfold get_split. rewrite wf_mask by done. f_equal. apply u32_small.
  pose proof (wf_size_range f Hwf).
  pose proof (Z.mod_pos_bound (kf_out f) (kf_size f) ltac:(lia)).
  unfold two31, two32 in *. lia.
Qed.

(** The cells from [in] on are those after the contents. *)
Lemma slice_in (b : list byte) n :
  length b = length (kf_buffer f) ->
  ring_slice b (kf_in f) n = ring_slice b (kf_out f + (kf_in f -u kf_out f)) n.
Proof.
  intros Hb. apply ring_slice_mod. destruct Hwf as [_ Hlen _ _ _].
  rewrite Hb, Hlen. by apply wf_index.
Qed.

Lemma put_copy1_ok buffer len :
  writer_inv f (WSampled buffer len) ->
  exists b, put_copy1 f buffer len = Some (mk_kfifo b (kf_size f) (kf_in f) (kf_out f)) /\
    length b = length (kf_buffer f) /\
    ring_slice b (kf_out f) (kf_in f -u kf_out f) = kfifo_contents f /\
    ring_slice b (kf_in f) (put_split f len) = take (Z.to_nat (put_split f len)) buffer.
Proof.
  intros (Hlen & Hroom & _). pose proof (wf_size_range f Hwf).
  pose proof (wf_index_range f Hwf). pose proof (wf_index f Hwf) as Hidx.
  pose proof (u32_range (kf_in f - kf_out f)). pose proof (put_split_eq len) as Hs.
  destruct (id Hwf) as [_ Hb _ _ _].
  assert (Ht : Z.of_nat (length (take (Z.to_nat (put_split f len)) buffer)) = put_split f len)
    by (rewrite length_take; lia).
  destruct (ring_straight_append (kf_buffer f) (kf_out f) (kf_in f -u kf_out f)
              (take (Z.to_nat (put_split f len)) buffer) (kf_in f mod kf_size f))
    as (b & E & L & S1 & S2); rewrite ?Hb; [lia..|].
  exists b. split; [|split; [done|split; [done|]]].
  - unfold put_copy1. rewrite memcpy_from_ok by lia. simpl. rewrite drop_0, wf_mask by done.
    by rewrite E.
  - rewrite slice_in by done. by rewrite Ht in S2.
Qed.

Lemma put_copy2_ok buffer len :
  writer_inv f (WCopied1 buffer len) ->
  exists b, put_copy2 f buffer len = Some (mk_kfifo b (kf_size f) (kf_in f) (kf_out f)) /\
    length b = length (kf_buffer f) /\
    ring_slice b (kf_out f) (kf_in f -u kf_out f) = kfifo_contents f /\
    ring_slice b (kf_in f) len = take (Z.to_nat len) buffer.
Proof.
  intros (Hlen & Hroom & Hfirst). pose proof (wf_size_range f Hwf).
  pose proof (wf_index_range f Hwf). pose proof (wf_index f Hwf) as Hidx.
  pose proof (u32_range (kf_in f - kf_out f)). pose proof (put_split_eq len) as Hs.
  destruct (id Hwf) as [_ Hb _ _ _]. set (l := put_split f len) in *.
  set (src := take (Z.to_nat (len - l)) (drop (Z.to_nat l) buffer)).
  assert (Ht : Z.of_nat (length src) = len - l)
    by (unfold src; rewrite length_take, length_drop; lia).
  destruct (ring_wrap_append (kf_buffer f) (kf_out f) ((kf_in f -u kf_out f) + l) src)
    as (b & E & L & S1 & S2); rewrite ?Hb; [lia..| |].
  { destruct (decide (len = l)); [left; apply nil_length_inv; lia|right].
    rewrite Z.add_assoc, <- Zplus_mod_idemp_l, <- Hidx.
    replace (_ + l) with (kf_size f) by lia. apply Z_mod_same_full. }
  rewrite !ring_slice_app in S1 by lia. apply app_inj_1 in S1 as [S1 S3].
  2: { apply Nat2Z.inj. by rewrite !length_ring_slice by lia. }
  exists b. split; [|split; [done|split; [done|]]].
  - unfold put_copy2. fold l. rewrite (u32_small (len - l)) by (unfold two31, two32 in *; lia).
    rewrite memcpy_from_ok by lia. simpl. fold src. by rewrite E.
  - rewrite slice_in by done. replace len with (l + (len - l)) at 1 by lia.
    rewrite ring_slice_app, S3, <- slice_in, Hfirst by (done || lia).
    rewrite Z.add_assoc, Ht in S2. rewrite S2.
    unfold src. rewrite take_take_drop. f_equal. lia.
Qed.

Lemma get_copies_ok len :
  0 <= len <= kf_in f -u kf_out f ->
  get_copy1 f len = Some (ring_slice (kf_buffer f) (kf_out f) (get_split f len)) /\
  exists d2, get_copy2 f len = Some d2 /\
    ring_slice (kf_buffer f) (kf_out f) (get_split f len) ++ d2
    = ring_slice (kf_buffer f) (kf_out f) len.
Proof.
  intros Hlen. pose proof (wf_size_range f Hwf). pose proof (get_split_eq len) as Hs.
  pose proof (Z.mod_pos_bound (kf_out f) (kf_size f) ltac:(lia)).
  destruct (id Hwf) as [_ Hb _ _ Hl]. set (l := get_split f len) in *.
  destruct (ring_copy_out (kf_buffer f) (kf_out f mod kf_size f) len l) as (H1 & H2 & H3);
    rewrite ?Hb; [lia..|].
  assert (Hm : forall n, ring_slice (kf_buffer f) (kf_out f mod kf_size f) n
                         = ring_slice (kf_buffer f) (kf_out f) n)
    by (intros n; apply ring_slice_mod; by rewrite Hb, Zmod_mod).
  unfold get_copy1, get_copy2. fold l. rewrite wf_mask by done.
  rewrite (u32_small (len - l)) by (unfold two31, two32 in *; lia).
  rewrite H1, H2, Hm. split; [done|]. eexists. split; [done|].
  by rewrite <- Hm, H3, Hm.
Qed.

(** Publishing the bytes copied appends them to the contents. *)
Lemma put_publish_ok len :
  0 <= len -> (kf_in f -u kf_out f) + len <= kf_size f ->
  kfifo_wf (put_publish f len) /\
  kf_in (put_publish f len) -u kf_out (put_publish f len) = (kf_in f -u kf_out f) + len /\
  kfifo_contents (put_publish f len)
  = kfifo_contents f ++ ring_slice (kf_buffer f) (kf_in f) len.
Proof.
  intros Hlen Hroom. pose proof (wf_size_range f Hwf).
  pose proof (u32_range (kf_in f - kf_out f)).
  assert (Hc : kf_in f +u len -u kf_out f = kf_in f -u kf_out f + len).
  { rewrite u32_sub_l. replace (kf_in f + len - kf_out f) with (kf_in f - kf_out f + len) by lia.
    rewrite <- u32_add_l. apply u32_small. unfold two31, two32 in *. lia. }
  split; [|split; [done|]].
  - destruct Hwf. split; simpl; try done; [apply u32_range|lia].
  - unfold kfifo_contents. simpl. rewrite Hc, ring_slice_app by lia.
    by rewrite <- slice_in.
Qed.

(** Publishing the bytes read drops them from the contents. *)
Lemma get_publish_ok len :
  0 <= len <= kf_in f -u kf_out f ->
  kfifo_wf (get_publish f len) /\
  kf_in (get_publish f len) -u kf_out (get_publish f len) = (kf_in f -u kf_out f) - len /\
  kfifo_contents f
  = ring_slice (kf_buffer f) (kf_out f) len ++ kfifo_contents (get_publish f len).
Proof.
  intros Hlen. pose proof (wf_size_range f Hwf).
  pose proof (u32_range (kf_in f - kf_out f)).
  assert (Hc : kf_in f -u (kf_out f +u len) = kf_in f -u kf_out f - len).
  { rewrite u32_sub_r. replace (kf_in f - (kf_out f + len)) with (kf_in f - kf_out f - len) by lia.
    rewrite <- u32_sub_l. apply u32_small. unfold two31, two32 in *. lia. }
  destruct (id Hwf) as [? Hb ? ? ?].
  split; [|split; [done|]].
  - split; simpl; try done; [apply u32_range|lia].
  - unfold kfifo_contents. simpl. rewrite Hc.
    replace (kf_in f -u kf_out f) with (len + (kf_in f -u kf_out f - len)) at 1 by lia.
    rewrite ring_slice_app by lia. f_equal. apply ring_slice_mod.
    rewrite Hb. symmetry. by apply wf_u32_mod.
Qed.

(** New buffer contents outside the queue do not disturb the reader. *)
Lemma reader_frame b r :
  length b = length (kf_buffer f) ->
  ring_slice b (kf_out f) (kf_in f -u kf_out f) = kfifo_contents f ->
  reader_inv f r -> reader_inv (mk_kfifo b (kf_size f) (kf_in f) (kf_out f)) r.
Proof.
  intros Hb Hc Hr. pose proof (wf_size_range f Hwf).
  assert (Hs : forall k, 0 <= k <= kf_in f -u kf_out f ->
    ring_slice b (kf_out f) k = ring_slice (kf_buffer f) (kf_out f) k).
  { intros k Hk. rewrite <- (take_ring_slice b _ _ _ Hk), Hc.
    by apply take_ring_slice. }
  destruct r as [|len|d1 len|data len]; simpl in *; try done.
  - destruct Hr as [Hl ->]. split; [done|]. symmetry. apply Hs.
    change (get_split (mk_kfifo b (kf_size f) (kf_in f) (kf_out f)) len)
      with (get_split f len).
    rewrite get_split_eq.
    pose proof (Z.mod_pos_bound (kf_out f) (kf_size f) ltac:(lia)). lia.
  - destruct Hr as [Hl ->]. split; [done|]. symmetry. by apply Hs.
Qed.

Lemma wf_new_buffer b :
  length b = length (kf_buffer f) ->
  kfifo_wf (mk_kfifo b (kf_size f) (kf_in f) (kf_out f)).
Proof. intros Hb. destruct Hwf. split; simpl; try done. lia. Qed.

End actions.

Lemma spsc_step_inv s s' : inv s -> step s s' -> inv s'.
Proof.
  intros [Hwf Hw Hr Hh] Hstep. destruct Hstep; simpl in *.
  - split; simpl; try done. split; [|split; [|done]]; unfold put_sample.
    + rewrite wf_room by done. pose proof (wf_contents_length f).
      pose proof (u32_range (kf_in f - kf_out f)). destruct Hwf. lia.
    + rewrite wf_room by done. rewrite wf_contents_length. lia.
  - destruct (put_copy1_ok f Hwf buffer len Hw) as (b & E & L & S1 & S2). simplify_eq.
    destruct Hw as (? & ? & _).
    split; simpl; [by apply wf_new_buffer | by split | by apply reader_frame |].
    unfold kfifo_contents at 1. simpl. by rewrite S1.
  - destruct (put_copy2_ok f Hwf buffer len Hw) as (b & E & L & S1 & S2). simplify_eq.
    destruct Hw as (? & ? & _).
    split; simpl; [by apply wf_new_buffer | by split | by apply reader_frame |].
    unfold kfifo_contents at 1. simpl. by rewrite S1.
  - destruct Hw as (Hlen & Hroom & Hs).
    destruct (put_publish_ok f Hwf len) as (W & Hc & C); [lia..|].
    split; simpl; [done | done | | by rewrite C, app_assoc, Hh, Hs].
    simpl in Hc. destruct r; simpl in *; rewrite ?Hc; intuition lia.
  - split; simpl; try done. split; [|done]. unfold get_sample.
    pose proof (u32_range (kf_in f - kf_out f)). lia.
  - destruct Hr as [Hl _]. destruct (get_copies_ok f Hwf len Hl) as [E _].
    simplify_eq. by split.
  - destruct Hr as [Hl ->]. destruct (get_copies_ok f Hwf len Hl) as [_ (d & E & Hd)].
    simplify_eq. by split.
  - destruct Hr as [Hl ->]. destruct (get_publish_ok f Hwf len Hl) as (W & Hc & C).
    split; simpl; [done | | done | by rewrite C, app_assoc in Hh].
    simpl in Hc. destruct w; simpl in *; rewrite ?Hc; intuition lia.
Qed.

Lemma spsc_reachable_inv f0 s : kfifo_wf f0 -> reachable f0 s -> inv s.
Proof.
  intros Hwf Hr. induction Hr; [by split | by eapply spsc_step_inv].
Qed.

Lemma inv_copy_enabled s : inv s -> copy_enabled s.
Proof.
  destruct s as [f w r p c]. intros [Hwf Hw Hr Hh]. simpl in *. split; simpl.
  - destruct w as [|b len|b len|]; try done.
    + destruct (put_copy1_ok f Hwf b len Hw) as (? & -> & _). by eexists.
    + destruct (put_copy2_ok f Hwf b len Hw) as (? & -> & _). by eexists.
  - destruct r as [|len|d len|]; try done; destruct Hr as [Hl _];
      destruct (get_copies_ok f Hwf len Hl) as [E (d2 & E2 & _)]; eauto.
Qed.

(** ** Main theorem *)

(** C16: with one writer running [__kfifo_put] and one reader running
    [__kfifo_get], their actions interleaved in any way and no lock taken,
    the FIFO stays well formed, the bytes handed out followed by the bytes
    still queued are exactly the bytes put in, in order (so none is lost,
    repeated, reordered or torn), and neither side ever copies outside the
    buffers. *)
Theorem spsc_lock_free f0 s :
  kfifo_wf f0 -> reachable f0 s ->
  kfifo_wf (st_fifo s) /\
  st_consumed s ++ kfifo_contents (st_fifo s) = st_produced s /\
  copy_enabled s.
Proof.
  intros Hwf Hr. pose proof (spsc_reachable_inv f0 s Hwf Hr) as Hi.
  split; [apply Hi|]. split; [apply Hi|]. by apply inv_copy_enabled.
Qed.

(** A reader that overlaps a writer: the put of [1] and the get of the byte
    already queued, the reader's copy falling between the writer's copies. *)
Lemma spsc_lock_free_witness :
  exists s, reachable near_wrap s /\ st_consumed s = [x62] /\
    kfifo_wf (st_fifo s) /\
    st_consumed s ++ kfifo_contents (st_fifo s) = st_produced s /\ copy_enabled s.
Proof.
  pose (mid := mk_kfifo [x61; x62; x31; x64] 4 4294967294 4294967293).
  pose proof (reach_init near_wrap) as Hr.
  pose proof (reach_step _ _ _ Hr (step_r_sample near_wrap WIdle _ _ 5 ltac:(lia))) as Hr1.
  pose proof (reach_step _ _ _ Hr1 (step_w_sample _ _ _ _ [x31] 1 ltac:(simpl; lia))) as Hr2.
  pose proof (reach_step _ _ _ Hr2 (step_w_copy1 near_wrap mid _ _ _ [x31]
    (put_sample near_wrap 1) eq_refl)) as Hr3.
  pose proof (reach_step _ _ _ Hr3 (step_r_copy1 mid _ _ _
    (get_sample near_wrap 5) [x62] eq_refl)) as Hr4.
  pose proof (reach_step _ _ _ Hr4 (step_r_copy2 mid _ _ _
    (get_sample near_wrap 5) [x62] [] eq_refl)) as Hr5.
  pose proof (reach_step _ _ _ Hr5 (step_r_publish _ _ _ _ _ _)) as Hr6.
  eexists. split; [exact Hr6|]. split; [done|].
  apply (spsc_lock_free near_wrap); [apply near_wrap_wf | exact Hr6].
Defined.

End Spsc.
