(* ===== verification/Rwsem.v ===== *)
(** * Reader/writer semaphores ([lib/rwsem-spinlock.c])

    The generic spinlock implementation, which this kernel is configured to
    use ([CONFIG_RWSEM_GENERIC_SPINLOCK]).  Every routine runs its critical
    section under [sem->wait_lock], so a routine is one atomic function on the
    semaphore; a caller that is put on the wait list sleeps until some other
    routine takes it off the list and NULLs its [waiter->task].  The system
    around the semaphore is a step relation that remembers who holds the lock
    and in which mode. *)

From Stdlib Require Import ZArith Lia.
From stdpp Require Import base option sets list_numbers list.
From S2P Require Import Prelude.

Local Open Scope Z_scope.

Module Rwsem.

(** ** The semaphore *)

Definition tid := nat.

Definition RWSEM_WAITING_FOR_READ : Z := 1.
Definition RWSEM_WAITING_FOR_WRITE : Z := 2.

(** [struct rwsem_waiter]: it is on the stack of the blocked task. *)
Record rwsem_waiter := mk_waiter { w_task : tid; w_flags : Z }.

(** [struct rw_semaphore] without its spinlock.  [activity] is a [__s32] in the
    source; here it is not reduced to its width, since there are never 2^31
    tasks to hold the semaphore. *)
Record rw_semaphore := mk_rwsem { activity : Z; wait_list : list rwsem_waiter }.

Definition waiting_for (w : rwsem_waiter) (flag : Z) : bool :=
  bool_decide (Z.land (w_flags w) flag <> 0).

Definition __init_rwsem : rw_semaphore := mk_rwsem 0 [].

(** The loop under [dont_wake_writers]: the waiters woken, and the rest of the
    list. *)
Fixpoint wake_readers (l : list rwsem_waiter) : list rwsem_waiter * list rwsem_waiter :=
  match l with
  | [] => ([], [])
  | w :: l' =>
      if waiting_for w RWSEM_WAITING_FOR_READ then
        let '(woken, rest) := wake_readers l' in (w :: woken, rest)
      else ([], l)
  end.

(** The result is the semaphore and the waiters whose [task] was NULLed and
    which were woken; [None] is the use of the list head as if it were an
    entry, when the list is empty. *)
Definition __rwsem_do_wake (sem : rw_semaphore) (wakewrite : bool)
  : option (rw_semaphore * list rwsem_waiter) :=
  match wait_list sem with
  | [] => None
  | waiter :: l =>
      let wake_rd :=
        let '(woken, rest) := wake_readers (waiter :: l) in
        Some (mk_rwsem (activity sem + Z.of_nat (length woken)) rest, woken) in
      if negb wakewrite then
        if waiting_for waiter RWSEM_WAITING_FOR_WRITE then Some (sem, []) else wake_rd
      else if waiting_for waiter RWSEM_WAITING_FOR_WRITE then
        Some (mk_rwsem (-1) l, [waiter])
      else wake_rd
  end.

Definition __rwsem_wake_one_writer (sem : rw_semaphore)
  : option (rw_semaphore * list rwsem_waiter) :=
  match wait_list sem with
  | [] => None
  | waiter :: l => Some (mk_rwsem (-1) l, [waiter])
  end.

Definition list_empty {A} (l : list A) : bool := match l with [] => true | _ => false end.

(** [true]: the lock is granted at once; [false]: the caller [tsk] is on the
    wait list and sleeps. *)
Definition __down_read (sem : rw_semaphore) (tsk : tid) : rw_semaphore * bool :=
  if bool_decide (activity sem >= 0) && list_empty (wait_list sem) then
    (mk_rwsem (activity sem + 1) (wait_list sem), true)
  else
    (mk_rwsem (activity sem)
       (list_add_tail (mk_waiter tsk RWSEM_WAITING_FOR_READ) (wait_list sem)), false).

Definition __down_read_trylock (sem : rw_semaphore) : rw_semaphore * bool :=
  if bool_decide (activity sem >= 0) && list_empty (wait_list sem) then
    (mk_rwsem (activity sem + 1) (wait_list sem), true)
  else (sem, false).

Definition __down_write_nested (sem : rw_semaphore) (tsk : tid) : rw_semaphore * bool :=
  if bool_decide (activity sem = 0) && list_empty (wait_list sem) then
    (mk_rwsem (-1) (wait_list sem), true)
  else
    (mk_rwsem (activity sem)
       (list_add_tail (mk_waiter tsk RWSEM_WAITING_FOR_WRITE) (wait_list sem)), false).

Definition __down_write (sem : rw_semaphore) (tsk : tid) : rw_semaphore * bool :=
  __down_write_nested sem tsk.

Definition __down_write_trylock (sem : rw_semaphore) : rw_semaphore * bool :=
  if bool_decide (activity sem = 0) && list_empty (wait_list sem) then
    (mk_rwsem (-1) (wait_list sem), true)
  else (sem, false).

Definition __up_read (sem : rw_semaphore) : option (rw_semaphore * list rwsem_waiter) :=
  let sem := mk_rwsem (activity sem - 1) (wait_list sem) in
  if bool_decide (activity sem = 0) && negb (list_empty (wait_list sem))
  then __rwsem_wake_one_writer sem else Some (sem, []).

Definition __up_write (sem : rw_semaphore) : option (rw_semaphore * list rwsem_waiter) :=
  let sem := mk_rwsem 0 (wait_list sem) in
  if negb (list_empty (wait_list sem)) then __rwsem_do_wake sem true else Some (sem, []).

Definition __downgrade_write (sem : rw_semaphore)
  : option (rw_semaphore * list rwsem_waiter) :=
  let sem := mk_rwsem 1 (wait_list sem) in
  if negb (list_empty (wait_list sem)) then __rwsem_do_wake sem false else Some (sem, []).

(** ** The system around it *)

Inductive mode := Rd | Wr.

#[export] Instance mode_eq_dec : EqDecision mode.
Proof. solve_decision. Defined.

(** The mode a woken waiter takes the lock in is the one it asked for. *)
Definition waiter_mode (w : rwsem_waiter) : mode :=
  if waiting_for w RWSEM_WAITING_FOR_WRITE then Wr else Rd.

Definition grants (l : list rwsem_waiter) : list (tid * mode) :=
  (fun w => (w_task w, waiter_mode w)) <$> l.

(** Who holds the lock: one entry per acquisition not yet released. *)
Record sys := mk_sys { s_sem : rw_semaphore; s_holders : list (tid * mode) }.

Definition blocked (s : sys) (t : tid) : Prop := t ∈ w_task <$> wait_list (s_sem s).

(** The acquisitions a call makes. *)
Definition taken (granted : bool) (t : tid) (m : mode) : list (tid * mode) :=
  if granted then [(t, m)] else [].

(** The releases, which only a holder that is not asleep makes. *)
Inductive release : sys -> sys -> Prop :=
  | rel_read s t h sem' woken :
      ~ blocked s t -> s_holders s ≡ₚ (t, Rd) :: h ->
      __up_read (s_sem s) = Some (sem', woken) ->
      release s (mk_sys sem' (grants woken ++ h))
  | rel_write s t h sem' woken :
      ~ blocked s t -> s_holders s ≡ₚ (t, Wr) :: h ->
      __up_write (s_sem s) = Some (sem', woken) ->
      release s (mk_sys sem' (grants woken ++ h)).

Inductive step : sys -> sys -> Prop :=
  | st_release s s' : release s s' -> step s s'
  | st_down_read s t sem' g :
      ~ blocked s t -> __down_read (s_sem s) t = (sem', g) ->
      step s (mk_sys sem' (taken g t Rd ++ s_holders s))
  | st_read_trylock s t sem' g :
      ~ blocked s t -> __down_read_trylock (s_sem s) = (sem', g) ->
      step s (mk_sys sem' (taken g t Rd ++ s_holders s))
  | st_down_write s t sem' g :
      ~ blocked s t -> __down_write (s_sem s) t = (sem', g) ->
      step s (mk_sys sem' (taken g t Wr ++ s_holders s))
  | st_write_trylock s t sem' g :
      ~ blocked s t -> __down_write_trylock (s_sem s) = (sem', g) ->
      step s (mk_sys sem' (taken g t Wr ++ s_holders s))
  | st_downgrade s t h sem' woken :
      ~ blocked s t -> s_holders s ≡ₚ (t, Wr) :: h ->
      __downgrade_write (s_sem s) = Some (sem', woken) ->
      step s (mk_sys sem' (grants woken ++ (t, Rd) :: h)).

Inductive reachable : sys -> Prop :=
  | reach_init : reachable (mk_sys __init_rwsem [])
  | reach_step s s' : reachable s -> step s s' -> reachable s'.

(** [n] releases in a row. *)
Inductive releases : nat -> sys -> sys -> Prop :=
  | releases_0 s : releases 0 s s
  | releases_S n s s1 s2 : release s s1 -> releases n s1 s2 -> releases (S n) s s2.

(** ** The invariant *)

Definition is_reader (w : rwsem_waiter) : Prop := w_flags w = RWSEM_WAITING_FOR_READ.
Definition is_writer (w : rwsem_waiter) : Prop := w_flags w = RWSEM_WAITING_FOR_WRITE.

Definition first_is_writer (l : list rwsem_waiter) : Prop :=
  match l with [] => True | w :: _ => is_writer w end.

Inductive counts : Z -> list (tid * mode) -> list rwsem_waiter -> Prop :=
  | counts_free : counts 0 [] []
  | counts_write t l : counts (-1) [(t, Wr)] l
  | counts_read h l :
      h <> [] -> Forall (fun x => x.2 = Rd) h -> first_is_writer l ->
      counts (Z.of_nat (length h)) h l.

Record inv (s : sys) : Prop := {
  inv_flags : Forall (fun w => is_reader w \/ is_writer w) (wait_list (s_sem s));
  inv_counts : counts (activity (s_sem s)) (s_holders s) (wait_list (s_sem s))
}.

(** ** Lemmas *)

Lemma reader_waits w : is_reader w ->
  waiting_for w RWSEM_WAITING_FOR_READ = true /\ waiting_for w RWSEM_WAITING_FOR_WRITE = false.
Proof. unfold waiting_for. by intros ->. Qed.

Lemma writer_waits w : is_writer w ->
  waiting_for w RWSEM_WAITING_FOR_READ = false /\ waiting_for w RWSEM_WAITING_FOR_WRITE = true.
Proof. unfold waiting_for. by intros ->. Qed.

Lemma counts_read_eq a h l :
  a = Z.of_nat (length h) -> h <> [] -> Forall (fun x => x.2 = Rd) h ->
  first_is_writer l -> counts a h l.
Proof. intros ->. apply counts_read. Qed.

(** The wake-up loop takes exactly the longest run of readers at the front. *)
Lemma wake_readers_spec l woken rest :
  Forall (fun w => is_reader w \/ is_writer w) l ->
  wake_readers l = (woken, rest) ->
  l = woken ++ rest /\ Forall is_reader woken /\ first_is_writer rest.
Proof.
  revert woken rest. induction l as [|w l IH]; intros woken rest Hl E; simpl in E.
  - by simplify_eq.
  - apply Forall_cons in Hl as [[Hw|Hw] Hl].
    + destruct (reader_waits w Hw) as [E1 _]. rewrite E1 in E.
      destruct (wake_readers l) as [woken' rest'] eqn:E'. simplify_eq.
      destruct (IH _ _ Hl eq_refl) as (-> & H1 & H2). split; [done|]. split; [by constructor|done].
    + destruct (writer_waits w Hw) as [E1 _]. rewrite E1 in E. simplify_eq.
      split; [done|]. by split.
Qed.

Lemma grants_readers l :
  Forall is_reader l -> Forall (fun x : tid * mode => x.2 = Rd) (grants l).
Proof.
  intros Hl. unfold grants. apply Forall_fmap. eapply Forall_impl; [exact Hl|].
  intros w Hw. simpl. unfold waiter_mode. by destruct (reader_waits w Hw) as [_ ->].
Qed.

Lemma grants_writer w : is_writer w -> grants [w] = [(w_task w, Wr)].
Proof.
  intros Hw. simpl. unfold waiter_mode. by destruct (writer_waits w Hw) as [_ ->].
Qed.

Lemma counts_read_holder a h t h' l :
  counts a h l -> h ≡ₚ (t, Rd) :: h' ->
  a = Z.of_nat (S (length h')) /\ Forall (fun x => x.2 = Rd) h' /\ first_is_writer l.
Proof.
  intros Hc Hp. inversion Hc as [|t' l'|h'' l' Hne Hrd Hfw]; subst.
  - by apply Permutation_nil_cons in Hp.
  - apply Permutation_singleton_l in Hp. simplify_eq.
  - rewrite Hp in Hrd. apply Forall_cons in Hrd as [_ Hrd]. rewrite Hp. by split.
Qed.

Lemma counts_write_holder a h t h' l :
  counts a h l -> h ≡ₚ (t, Wr) :: h' -> a = -1 /\ h = [(t, Wr)] /\ h' = [].
Proof.
  intros Hc Hp. inversion Hc as [|t' l'|h'' l' Hne Hrd Hfw]; subst.
  - by apply Permutation_nil_cons in Hp.
  - apply Permutation_singleton_l in Hp. by simplify_eq.
  - rewrite Hp in Hrd. by apply Forall_cons in Hrd as [? _].
Qed.

(** Waking readers while [h], all readers, hold the lock. *)
Lemma counts_wake_readers h l woken rest :
  Forall (fun w => is_reader w \/ is_writer w) l ->
  Forall (fun x => x.2 = Rd) h ->
  wake_readers l = (woken, rest) -> h <> [] \/ woken <> [] ->
  Forall (fun w => is_reader w \/ is_writer w) rest /\
  counts (Z.of_nat (length h) + Z.of_nat (length woken)) (grants woken ++ h) rest.
Proof.
  intros Hl Hh E Hne. destruct (wake_readers_spec _ _ _ Hl E) as (-> & Hr & Hf).
  apply Forall_app in Hl as [_ Hl]. split; [done|].
  replace (Z.of_nat (length h) + Z.of_nat (length woken))
    with (Z.of_nat (length (grants woken ++ h))).
  2: { unfold grants. rewrite length_app, length_fmap. lia. }
  constructor; [|apply Forall_app; split; [by apply grants_readers|done]|done].
  destruct woken; simpl; [|done]. by destruct Hne.
Qed.

(** Releasing a read lock. *)
Lemma up_read_spec s t h :
  inv s -> s_holders s ≡ₚ (t, Rd) :: h ->
  exists sem' woken, __up_read (s_sem s) = Some (sem', woken) /\
    inv (mk_sys sem' (grants woken ++ h)) /\
    wait_list (s_sem s) = woken ++ wait_list sem' /\
    woken = match h with [] => take 1 (wait_list (s_sem s)) | _ => [] end.
Proof.
  intros [Hf Hc] Hp. destruct s as [[a l] hs]; simpl in *.
  destruct (counts_read_holder _ _ _ _ _ Hc Hp) as (-> & Hrd & Hfw).
  unfold __up_read. simpl. destruct h as [|x h].
  - rewrite bool_decide_eq_true_2 by (simpl; lia). destruct l as [|w l]; simpl.
    + eexists _, _. split; [done|]. split; [|done]. by split; [|constructor].
    + eexists _, _. split; [done|]. rewrite grants_writer by done.
      apply Forall_cons in Hf as [_ Hf]. split; [|done]. by split; [|constructor].
  - rewrite bool_decide_eq_false_2 by (simpl; lia). simpl.
    eexists _, _. split; [done|]. split; [|done]. split; [done|].
    apply counts_read_eq; simpl; [lia|done|done|done].
Qed.

(** Releasing the write lock. *)
Lemma up_write_spec s t h :
  inv s -> s_holders s ≡ₚ (t, Wr) :: h ->
  h = [] /\
  exists sem' woken, __up_write (s_sem s) = Some (sem', woken) /\
    inv (mk_sys sem' (grants woken ++ h)) /\
    wait_list (s_sem s) = woken ++ wait_list sem' /\
    (woken = [] -> wait_list (s_sem s) = []).
Proof.
  intros [Hf Hc] Hp. destruct s as [[a l] hs]; simpl in *.
  destruct (counts_write_holder _ _ _ _ _ Hc Hp) as (-> & -> & ->). split; [done|].
  unfold __up_write. simpl. destruct l as [|w l]; simpl.
  { eexists _, _. split; [done|]. split; [|done]. by split; [|constructor]. }
  unfold __rwsem_do_wake. simpl. apply Forall_cons in Hf as [[Hw|Hw] Hf].
  - destruct (reader_waits w Hw) as [E1 E2]. rewrite E1, E2.
    destruct (wake_readers l) as [woken rest] eqn:E.
    eexists _, _. split; [done|]. simpl.
    destruct (counts_wake_readers [] (w :: l) (w :: woken) rest) as [H1 H2];
      [by constructor; [left|] | done | simpl; by rewrite E1, E | by right |].
    split; [by split|]. split; [|done].
    by destruct (wake_readers_spec _ _ _ Hf E) as (-> & _ & _).
  - destruct (writer_waits w Hw) as [E1 E2]. rewrite E2.
    eexists _, _. split; [done|]. rewrite grants_writer by done.
    split; [|done]. by split; [|constructor].
Qed.

(** Turning the write lock into a read lock. *)
Lemma downgrade_spec s t h :
  inv s -> s_holders s ≡ₚ (t, Wr) :: h ->
  h = [] /\
  exists sem' woken, __downgrade_write (s_sem s) = Some (sem', woken) /\
    inv (mk_sys sem' (grants woken ++ (t, Rd) :: h)) /\
    wait_list (s_sem s) = woken ++ wait_list sem'.
Proof.
  intros [Hf Hc] Hp. destruct s as [[a l] hs]; simpl in *.
  destruct (counts_write_holder _ _ _ _ _ Hc Hp) as (-> & -> & ->). split; [done|].
  unfold __downgrade_write. simpl.
  assert (Hone : counts 1 [(t, Rd)] []) by (apply (counts_read [(t, Rd)]); [done|by constructor|done]).
  destruct l as [|w l]; simpl.
  { eexists _, _. split; [done|]. split; [|done]. by split. }
  unfold __rwsem_do_wake. simpl. pose proof Hf as Hf'. apply Forall_cons in Hf as [[Hw|Hw] Hf].
  - destruct (reader_waits w Hw) as [E1 E2]. rewrite E1, E2.
    destruct (wake_readers l) as [woken rest] eqn:E.
    eexists _, _. split; [done|]. simpl.
    destruct (counts_wake_readers [(t, Rd)] (w :: l) (w :: woken) rest) as [H1 H2];
      [done | by constructor | simpl; by rewrite E1, E | by right |].
    split; [by split|]. by destruct (wake_readers_spec _ _ _ Hf E) as (-> & _ & _).
  - destruct (writer_waits w Hw) as [_ E2]. rewrite E2.
    eexists _, _. split; [done|]. split; [|done]. split; [done|].
    simpl. apply (counts_read [(t, Rd)]); [done|by constructor|done].
Qed.

(** Acquiring: on an empty wait list. *)
Lemma counts_enqueue a h l w :
  counts a h l -> (a = 0 -> l <> []) -> (a > 0 -> l = [] -> is_writer w) ->
  counts a h (l ++ [w]).
Proof.
  intros Hc Ha Hw. inversion Hc as [|t' l'|h' l' Hne Hrd Hfw]; subst.
  - by destruct (Ha eq_refl).
  - constructor.
  - constructor; [done|done|]. destruct l; simpl in *; [|done].
    apply Hw; [|done]. destruct h; [done|simpl; lia].
Qed.

Lemma down_read_inv s sem' g t :
  inv s ->
  __down_read (s_sem s) t = (sem', g) \/ __down_read_trylock (s_sem s) = (sem', g) ->
  inv (mk_sys sem' (taken g t Rd ++ s_holders s)).
Proof.
  intros [Hf Hc] E. destruct s as [[a l] h]; simpl in *.
  unfold __down_read, __down_read_trylock in E. simpl in E.
  destruct (bool_decide_reflect (a >= 0)) as [Ha|Ha]; destruct l as [|w l]; simpl in E.
  - destruct E as [E|E]; simplify_eq; (split; [done|]); simpl;
      (inversion Hc as [|?|h' l' Hne Hrd Hfw]; subst; [|lia|]).
    all: apply counts_read_eq; simpl; [lia|done|by constructor|done].
  - destruct E as [E|E]; simplify_eq; [|by split].
    split; simpl; [apply Forall_app; split; [done|]; constructor; [by left|done]|].
    by apply (counts_enqueue _ _ (w :: l)).
  - destruct E as [E|E]; simplify_eq; [|by split].
    split; simpl; [constructor; [by left|done]|].
    apply (counts_enqueue a h []); [done | lia | lia].
  - destruct E as [E|E]; simplify_eq; [|by split].
    split; simpl; [apply Forall_app; split; [done|]; constructor; [by left|done]|].
    by apply (counts_enqueue _ _ (w :: l)).
Qed.

Lemma down_write_inv s sem' g t :
  inv s ->
  __down_write (s_sem s) t = (sem', g) \/ __down_write_trylock (s_sem s) = (sem', g) ->
  inv (mk_sys sem' (taken g t Wr ++ s_holders s)).
Proof.
  intros [Hf Hc] E. destruct s as [[a l] h]; simpl in *.
  unfold __down_write, __down_write_nested, __down_write_trylock in E. simpl in E.
  destruct (bool_decide_reflect (a = 0)) as [Ha|Ha]; destruct l as [|w l]; simpl in E.
  - destruct E as [E|E]; simplify_eq; (split; [done|]); simpl;
      (inversion Hc as [|?|h' l' Hne Hrd Hfw]; subst; [constructor|by destruct h]).
  - destruct E as [E|E]; simplify_eq; [|by split].
    split; simpl; [apply Forall_app; split; [done|]; constructor; [by right|done]|].
    by apply (counts_enqueue _ _ (w :: l)).
  - destruct E as [E|E]; simplify_eq; [|by split].
    split; simpl; [constructor; [by right|done]|].
    by apply (counts_enqueue a h []).
  - destruct E as [E|E]; simplify_eq; [|by split].
    split; simpl; [apply Forall_app; split; [done|]; constructor; [by right|done]|].
    by apply (counts_enqueue _ _ (w :: l)).
Qed.

Lemma release_inv s s' : inv s -> release s s' -> inv s'.
Proof.
  intros Hi Hr. destruct Hr as [s t h sem' woken _ Hp E|s t h sem' woken _ Hp E].
  - destruct (up_read_spec s t h Hi Hp) as (? & ? & E' & Hi' & _). by simplify_eq.
  - destruct (up_write_spec s t h Hi Hp) as (_ & ? & ? & E' & Hi' & _). by simplify_eq.
Qed.

Lemma rwsem_step_inv s s' : inv s -> step s s' -> inv s'.
Proof.
  intros Hi Hs. destruct Hs as [s s' Hr|s t sem' g _ E|s t sem' g _ E|s t sem' g _ E|s t sem' g _ E
    |s t h sem' woken _ Hp E].
  - by eapply release_inv.
  - eapply down_read_inv; [done|by left].
  - eapply down_read_inv; [done|by right].
  - eapply down_write_inv; [done|by left].
  - eapply down_write_inv; [done|by right].
  - destruct (downgrade_spec s t h Hi Hp) as (_ & ? & ? & E' & Hi' & _). by simplify_eq.
Qed.

Lemma rwsem_reachable_inv s : reachable s -> inv s.
Proof.
  induction 1 as [|s s' _ IH Hs]; [|by eapply rwsem_step_inv]. split; [done|constructor].
Qed.

(** A queue that is not empty has a holder in front of it. *)
Lemma waiters_have_holder s w l :
  inv s -> wait_list (s_sem s) = w :: l -> s_holders s <> [].
Proof. intros [_ Hc] E. rewrite E in Hc. by inversion Hc. Qed.

Lemma release_queue s s' :
  inv s -> release s s' ->
  exists woken, wait_list (s_sem s) = woken ++ wait_list (s_sem s') /\
    (forall x, x ∈ grants woken -> x ∈ s_holders s') /\
    match s_holders s with
    | [_] => woken = [] -> wait_list (s_sem s) = []
    | hs => woken = [] /\ length hs = S (length (s_holders s'))
    end.
Proof.
  intros Hi Hr. destruct Hr as [s t h sem' woken _ Hp E|s t h sem' woken _ Hp E].
  - destruct (up_read_spec s t h Hi Hp) as (? & ? & E' & _ & Hq & Hw).
    rewrite E in E'. injection E' as <- <-. exists woken. split; [done|]. split; [set_solver|].
    apply Permutation_length in Hp as Hl. destruct (s_holders s) as [|x [|y hs]]; simpl in Hl.
    + lia.
    + destruct h; [|simpl in Hl; lia]. simpl in *. subst woken. by destruct (wait_list _).
    + destruct h as [|z h]; [simpl in Hl; lia|]. subst woken. simpl. simpl in Hl. by split; [|lia].
  - destruct (up_write_spec s t h Hi Hp) as (-> & ? & ? & E' & _ & Hq & Hw).
    rewrite E in E'. injection E' as <- <-. exists woken. split; [done|]. split; [set_solver|].
    apply Permutation_length in Hp as Hl.
    destruct (s_holders s) as [|x [|y hs]]; simpl in Hl; [lia|done|lia].
Qed.

(** After as many releases as there are holders the first waiter has the
    lock. *)
Lemma releases_grant_first n s s' w l :
  inv s -> wait_list (s_sem s) = w :: l -> n = length (s_holders s) ->
  releases n s s' -> (w_task w, waiter_mode w) ∈ s_holders s'.
Proof.
  revert s. induction n as [|n IH]; intros s Hi Hq Hn Hr.
  - exfalso. eapply waiters_have_holder; [done..|]. symmetry in Hn. by apply nil_length_inv in Hn.
  - inversion Hr as [|n' s0 s1 s2 Hrel Hrest]; subst.
    destruct (release_queue s s1 Hi Hrel) as (woken & Hw & Hg & Hcase).
    pose proof (release_inv s s1 Hi Hrel) as Hi1.
    destruct (s_holders s) as [|x [|y hs]]; simpl in *; [done| |].
    + simplify_eq. inversion Hrest; subst.
      destruct woken as [|w' woken]; [by rewrite Hcase in Hq|].
      rewrite Hq in Hw. simpl in Hw. simplify_eq. apply Hg. simpl. by left.
    + destruct Hcase as [-> Hlen]. simpl in *.
      apply (IH s1); [done|congruence|lia|done].
Qed.

(** Unless a holder is itself asleep on the semaphore, the holders can all
    release. *)
Lemma releases_exist n s :
  inv s -> (forall t m, (t, m) ∈ s_holders s -> ~ blocked s t) ->
  n = length (s_holders s) -> exists s', releases n s s'.
Proof.
  revert s. induction n as [|n IH]; intros s Hi Hb Hn; [eexists; constructor|].
  destruct (s_holders s) as [|[t m] h] eqn:Eh; [done|].
  assert (Hrel : exists s1, release s s1).
  { destruct m.
    - destruct (up_read_spec s t h Hi) as (? & ? & E & _); [by rewrite Eh|].
      eexists. eapply rel_read; [apply (Hb t Rd); by left|by rewrite Eh|done].
    - destruct (up_write_spec s t h Hi) as (_ & ? & ? & E & _); [by rewrite Eh|].
      eexists. eapply rel_write; [apply (Hb t Wr); by left|by rewrite Eh|done]. }
  destruct Hrel as [s1 Hrel].
  destruct (release_queue s s1 Hi Hrel) as (woken & Hw & Hg & Hcase).
  pose proof (release_inv s s1 Hi Hrel) as Hi1. rewrite Eh in Hcase.
  destruct h as [|y h].
  - simpl in Hn. assert (n = 0%nat) as -> by lia.
    exists s1. econstructor; [done|constructor].
  - destruct Hcase as [-> Hlen]. simpl in Hw, Hn, Hlen.
    destruct (IH s1 Hi1) as [s2 Hs2]; [|lia|exists s2; by econstructor].
    intros t' m' Hin. unfold blocked. rewrite <- Hw. apply (Hb t' m').
    rewrite <- Eh. clear - Hrel Hin Hw Hi.
    destruct Hrel as [s t h sem' wk _ Hp E|s t h sem' wk _ Hp E]; simpl in *; rewrite Hp; right.
    + destruct (up_read_spec s t h Hi Hp) as (? & ? & E' & _ & Hq & _). simplify_eq.
      rewrite Hw in Hq. apply (app_inv_tail _ [] wk) in Hq. by subst wk.
    + destruct (up_write_spec s t h Hi Hp) as (_ & ? & ? & E' & _ & Hq & _). simplify_eq.
      rewrite Hw in Hq. apply (app_inv_tail _ [] wk) in Hq. by subst wk.
Qed.

(** What an acquiring routine does to the list. *)
Definition acquired (sem sem' : rw_semaphore) (g : bool) : Prop :=
  (g = true /\ wait_list sem' = wait_list sem /\ wait_list sem = []) \/
  (g = false /\ (wait_list sem' = wait_list sem \/ exists w, wait_list sem' = wait_list sem ++ [w])).

Lemma acquire_queue sem sem' g t :
  __down_read sem t = (sem', g) \/ __down_read_trylock sem = (sem', g) \/
  __down_write sem t = (sem', g) \/ __down_write_trylock sem = (sem', g) ->
  acquired sem sem' g.
Proof.
  destruct sem as [a l].
  unfold __down_read, __down_read_trylock, __down_write, __down_write_nested,
    __down_write_trylock, acquired, list_add_tail. simpl.
  repeat case_bd; destruct l; simpl; naive_solver.
Qed.

(** How one step treats the wait list: it leaves the list alone, and then
    lets nobody in unless the list is empty; it appends a waiter and grants
    nothing; or it takes a prefix off and makes exactly that prefix holders. *)
Definition fifo_step (s s' : sys) : Prop :=
  (wait_list (s_sem s') = wait_list (s_sem s) /\
     (wait_list (s_sem s) = [] \/ (length (s_holders s') <= length (s_holders s))%nat)) \/
  (exists w, wait_list (s_sem s') = wait_list (s_sem s) ++ [w] /\ s_holders s' = s_holders s) \/
  (exists woken h, woken <> [] /\ wait_list (s_sem s) = woken ++ wait_list (s_sem s') /\
     s_holders s' = grants woken ++ h /\ (length h <= length (s_holders s))%nat).

Lemma acquired_fifo s sem' g t m :
  acquired (s_sem s) sem' g -> fifo_step s (mk_sys sem' (taken g t m ++ s_holders s)).
Proof.
  unfold fifo_step. intros [(-> & Hw & Hnil)|(-> & [Hw|[w Hw]])]; simpl.
  - left. auto.
  - left. auto.
  - right; left. eauto.
Qed.

Lemma woken_fifo s sem' woken h :
  wait_list (s_sem s) = woken ++ wait_list sem' ->
  (length h <= length (s_holders s))%nat ->
  fifo_step s (mk_sys sem' (grants woken ++ h)).
Proof.
  unfold fifo_step. intros Hq Hh. simpl. destruct woken as [|w woken].
  - left. simpl in *. auto.
  - right; right. by exists (w :: woken), h.
Qed.

(** ** Main theorems *)

(** C35: in every state the semaphore can reach, a task that holds
    it for writing is the only holder, and [activity] tells the truth: -1
    with a writer, otherwise the number of readers. *)
Theorem rwsem_exclusion s :
  reachable s ->
  (forall t, (t, Wr) ∈ s_holders s -> s_holders s = [(t, Wr)] /\ activity (s_sem s) = -1) /\
  ((forall t, (t, Wr) ∉ s_holders s) -> activity (s_sem s) = Z.of_nat (length (s_holders s))).
Proof.
  intros Hr. destruct (rwsem_reachable_inv s Hr) as [_ Hc].
  inversion Hc as [Ha Hh Hl|t' l' Ha Hh|h' l' Hne Hrd Hfw]; subst.
  - split; [by intros t ?%elem_of_nil|done].
  - split; [intros t ->%list_elem_of_singleton; done|].
    intros Hno. exfalso. apply (Hno t'). by left.
  - split; [|done]. intros t Hin. rewrite Forall_forall in Hrd. by apply Hrd in Hin.
Qed.

(** The states of the witnesses: two readers hold the lock, a writer and a
    reader wait. *)
Definition contended : sys :=
  mk_sys (mk_rwsem 2 [mk_waiter 3%nat RWSEM_WAITING_FOR_WRITE; mk_waiter 4%nat RWSEM_WAITING_FOR_READ])
         [(2%nat, Rd); (1%nat, Rd)].

Lemma contended_reachable : reachable contended.
Proof.
  pose (s1 := mk_sys (mk_rwsem 1 []) [(1%nat, Rd)]).
  pose (s2 := mk_sys (mk_rwsem 2 []) [(2%nat, Rd); (1%nat, Rd)]).
  pose (s3 := mk_sys (mk_rwsem 2 [mk_waiter 3%nat RWSEM_WAITING_FOR_WRITE])
                [(2%nat, Rd); (1%nat, Rd)]).
  apply (reach_step s3).
  2: { refine (st_down_read s3 4%nat _ false _ eq_refl). unfold blocked. simpl. set_solver. }
  apply (reach_step s2).
  2: { refine (st_down_write s2 3%nat _ false _ eq_refl). unfold blocked. simpl. set_solver. }
  apply (reach_step s1).
  2: { refine (st_read_trylock s1 2%nat _ true _ eq_refl). unfold blocked. simpl. set_solver. }
  eapply reach_step; [apply reach_init|].
  refine (st_down_read (mk_sys __init_rwsem []) 1%nat _ true _ eq_refl).
  unfold blocked. simpl. set_solver.
Qed.

Lemma rwsem_exclusion_witness :
  (forall t, (t, Wr) ∈ s_holders contended ->
     s_holders contended = [(t, Wr)] /\ activity (s_sem contended) = -1) /\
  ((forall t, (t, Wr) ∉ s_holders contended) -> activity (s_sem contended) = 2).
Proof. apply (rwsem_exclusion contended). apply contended_reachable. Defined.

(** Whenever the semaphore is released or downgraded by a
    holder, the wake-up code finds the wait list as it expects it: it never
    takes an entry of an empty list, and [__rwsem_wake_one_writer], which
    does not look at what the first entry waits for, only ever wakes a
    writer. *)
Theorem rwsem_wake_valid s t :
  reachable s ->
  ((t, Rd) ∈ s_holders s ->
     exists sem' woken, __up_read (s_sem s) = Some (sem', woken) /\ Forall is_writer woken) /\
  ((t, Wr) ∈ s_holders s ->
     is_Some (__up_write (s_sem s)) /\ is_Some (__downgrade_write (s_sem s))).
Proof.
  intros Hr. pose proof (rwsem_reachable_inv s Hr) as Hi. split.
  - intros [h Hp]%elem_of_Permutation.
    destruct (up_read_spec s t h Hi Hp) as (sem' & woken & E & _ & _ & ->).
    destruct Hi as [_ Hc]. destruct (counts_read_holder _ _ _ _ _ Hc Hp) as (_ & _ & Hfw).
    eexists _, _. split; [done|]. destruct h; [|done].
    destruct (wait_list (s_sem s)); simpl in *; [done|by constructor].
  - intros [h Hp]%elem_of_Permutation.
    destruct (up_write_spec s t h Hi Hp) as (_ & ? & ? & -> & _).
    destruct (downgrade_spec s t h Hi Hp) as (_ & ? & ? & -> & _). by split.
Qed.

Lemma rwsem_wake_valid_witness :
  ((2%nat, Rd) ∈ s_holders contended ->
     exists sem' woken, __up_read (s_sem contended) = Some (sem', woken) /\
       Forall is_writer woken) /\
  ((2%nat, Wr) ∈ s_holders contended ->
     is_Some (__up_write (s_sem contended)) /\ is_Some (__downgrade_write (s_sem contended))).
Proof. apply (rwsem_wake_valid contended 2%nat). apply contended_reachable. Defined.

(** No wake-up is lost.  When a task waits, some task holds the
    semaphore; and once the present holders have released it, in whatever
    order, the first waiter holds it in the mode it asked for.  The holders
    can all release unless one of them sleeps on this very semaphore. *)
Theorem rwsem_first_waiter_granted s w l :
  reachable s -> wait_list (s_sem s) = w :: l ->
  s_holders s <> [] /\
  (forall s', releases (length (s_holders s)) s s' ->
     (w_task w, waiter_mode w) ∈ s_holders s') /\
  ((forall t m, (t, m) ∈ s_holders s -> ~ blocked s t) ->
     exists s', releases (length (s_holders s)) s s').
Proof.
  intros Hr Hq. pose proof (rwsem_reachable_inv s Hr) as Hi. split; [|split].
  - by eapply waiters_have_holder.
  - intros s' Hs'. by eapply releases_grant_first.
  - intros Hb. by eapply releases_exist.
Qed.

Lemma rwsem_first_waiter_granted_witness :
  s_holders contended <> [] /\
  (forall s', releases 2 contended s' -> (3%nat, Wr) ∈ s_holders s') /\
  ((forall t m, (t, m) ∈ s_holders contended -> ~ blocked contended t) ->
     exists s', releases 2 contended s').
Proof.
  apply (rwsem_first_waiter_granted contended (mk_waiter 3%nat RWSEM_WAITING_FOR_WRITE)
           [mk_waiter 4%nat RWSEM_WAITING_FOR_READ]).
  - apply contended_reachable.
  - reflexivity.
Defined.

(** The wait list is served strictly in order and nobody
    overtakes it.  Every step from a reachable state leaves the list alone,
    and then adds no holder unless the list is empty; or appends one waiter
    and grants nothing; or takes a prefix of the list off and makes exactly
    that prefix holders. *)
Theorem rwsem_fifo s s' : reachable s -> step s s' -> fifo_step s s'.
Proof.
  intros Hr Hs. pose proof (rwsem_reachable_inv s Hr) as Hi.
  destruct Hs as [s s' Hrel|s t sem' g _ E|s t sem' g _ E|s t sem' g _ E|s t sem' g _ E
    |s t h sem' woken _ Hp E].
  2-5: apply acquired_fifo; eapply (acquire_queue _ _ _ t); eauto.
  - destruct Hrel as [s t h sem' woken _ Hp E|s t h sem' woken _ Hp E].
    + destruct (up_read_spec s t h Hi Hp) as (? & ? & E' & _ & Hq & _).
      rewrite E in E'. injection E' as <- <-.
      apply woken_fifo; [done|]. rewrite Hp. simpl. lia.
    + destruct (up_write_spec s t h Hi Hp) as (_ & ? & ? & E' & _ & Hq & _).
      rewrite E in E'. injection E' as <- <-.
      apply woken_fifo; [done|]. rewrite Hp. simpl. lia.
  - destruct (downgrade_spec s t h Hi Hp) as (_ & ? & ? & E' & _ & Hq).
    rewrite E in E'. injection E' as <- <-.
    apply woken_fifo; [done|]. by rewrite Hp.
Qed.

Lemma rwsem_fifo_witness : exists s', step contended s' /\ fifo_step contended s'.
Proof.
  assert (Hb : ~ blocked contended 5%nat) by (unfold blocked; simpl; set_solver).
  pose proof (st_down_write contended 5%nat _ _ Hb eq_refl) as Hs.
  eexists. split; [exact Hs|].
  apply (rwsem_fifo contended); [apply contended_reachable | exact Hs].
Defined.

End Rwsem.
