(* ===== verification/Semaphore.v ===== *)
(** * Counting semaphores ([kernel/semaphore.c])

    Every routine runs under [sem->lock] except where [__down_common] drops
    it around [schedule_timeout].  A call is therefore one atomic action when
    it does not sleep, and otherwise the action up to the first sleep followed
    by one action per return from the scheduler.  The system around the
    semaphore is a step relation over these actions, with the waiters that
    live on the stacks of the sleeping tasks. *)

From Stdlib Require Import ZArith Lia.
From stdpp Require Import base option gmap list_numbers list.
From S2P Require Import Prelude.

Local Open Scope Z_scope.
Local Open Scope kernel_scope.

Module Semaphore.

Definition tid := nat.

(** ** Task states and signals ([include/linux/sched.h]) *)

Definition TASK_INTERRUPTIBLE : Z := 1.
Definition TASK_UNINTERRUPTIBLE : Z := 2.
Definition TASK_WAKEKILL : Z := 128.
Definition TASK_KILLABLE : Z := Z.lor TASK_WAKEKILL TASK_UNINTERRUPTIBLE.
Definition LONG_MAX : Z := 2147483647.
Definition MAX_SCHEDULE_TIMEOUT : Z := LONG_MAX.

(** What [signal_pending] and [__fatal_signal_pending] say of a task. *)
Record signals := mk_signals { sig_pending : bool; sig_fatal : bool }.

Definition signal_pending_state (state : Z) (p : signals) : bool :=
  if bool_decide (Z.land state (Z.lor TASK_INTERRUPTIBLE TASK_WAKEKILL) = 0) then false
  else if negb (sig_pending p) then false
  else bool_decide (Z.land state TASK_INTERRUPTIBLE <> 0) || sig_fatal p.

(** [schedule_timeout] ([kernel/timer.c]) as a function of [jiffies] when it
    is entered and when it returns. *)
Definition schedule_timeout (timeout jiffies0 jiffies1 : Z) : Z :=
  let out t := if bool_decide (t < 0) then 0 else t in
  if bool_decide (timeout = MAX_SCHEDULE_TIMEOUT) then out timeout
  else if bool_decide (timeout < 0) then out timeout
  else
    let expire := timeout +u jiffies0 in
    out (s32 (expire - jiffies1)).

(** ** The semaphore *)

(** [struct semaphore] without its spinlock; [wait_list] holds the tasks of
    the [semaphore_waiter]s on it. *)
Record semaphore := mk_sem { sem_count : Z; sem_wait_list : list tid }.

Definition sema_init (val : Z) : semaphore := mk_sem (u32 val) [].

(** What an action of a [down] routine ends in: the routine's return, or a
    sleep for at most [timeout]. *)
Inductive action := Return (r : Z) | Sleep (timeout : Z).

(** One turn of the loop of [__down_common], from its head to the sleep. *)
Definition down_loop (sem : semaphore) (task : tid) (state timeout : Z) (sig : signals)
  : semaphore * action :=
  if signal_pending_state state sig then
    (mk_sem (sem_count sem) (list_del task (sem_wait_list sem)), Return (- EINTR))
  else if bool_decide (timeout <= 0) then
    (mk_sem (sem_count sem) (list_del task (sem_wait_list sem)), Return (- ETIME))
  else (sem, Sleep timeout).

(** [__down_common] up to its first sleep. *)
Definition __down_common (sem : semaphore) (task : tid) (state timeout : Z) (sig : signals)
  : semaphore * action :=
  down_loop (mk_sem (sem_count sem) (list_add_tail task (sem_wait_list sem)))
    task state timeout sig.

(** [__down_common] from a return of [schedule_timeout], which gave
    [timeout], to the next sleep; [up] is [waiter.up]. *)
Definition __down_common_resume (sem : semaphore) (task : tid) (up : bool)
  (state timeout : Z) (sig : signals) : semaphore * action :=
  if up then (sem, Return 0) else down_loop sem task state timeout sig.

(** [__down], [__down_interruptible], [__down_killable], [__down_timeout]. *)
Definition __down sem task sig := __down_common sem task TASK_UNINTERRUPTIBLE MAX_SCHEDULE_TIMEOUT sig.
Definition __down_interruptible sem task sig :=
  __down_common sem task TASK_INTERRUPTIBLE MAX_SCHEDULE_TIMEOUT sig.
Definition __down_killable sem task sig := __down_common sem task TASK_KILLABLE MAX_SCHEDULE_TIMEOUT sig.
Definition __down_timeout sem task jiffies sig := __down_common sem task TASK_UNINTERRUPTIBLE jiffies sig.

(** The entry the four routines share: a unit, or the slow path [slow]. *)
Definition down_entry (sem : semaphore) (slow : semaphore * action) : semaphore * action :=
  if bool_decide (sem_count sem > 0) then
    (mk_sem (sem_count sem -u 1) (sem_wait_list sem), Return 0)
  else slow.

Definition down sem task sig := down_entry sem (__down sem task sig).
Definition down_interruptible sem task sig := down_entry sem (__down_interruptible sem task sig).
Definition down_killable sem task sig := down_entry sem (__down_killable sem task sig).
Definition down_timeout sem task jiffies sig := down_entry sem (__down_timeout sem task jiffies sig).

Definition down_trylock (sem : semaphore) : semaphore * Z :=
  let count := s32 (sem_count sem - 1) in
  ((if bool_decide (count >= 0) then mk_sem (u32 count) (sem_wait_list sem) else sem),
   if bool_decide (count < 0) then 1 else 0).

(** [__up]: the first waiter leaves the list and has its [up] set. *)
Definition __up (sem : semaphore) : option (semaphore * tid) :=
  match sem_wait_list sem with
  | [] => None
  | w :: l => Some (mk_sem (sem_count sem) l, w)
  end.

Definition up (sem : semaphore) : option (semaphore * option tid) :=
  if bool_decide (sem_wait_list sem = []) then
    Some (mk_sem (sem_count sem +u 1) (sem_wait_list sem), None)
  else
    '(sem, w) ← __up sem; Some (sem, Some w).

(** ** The system around it *)

(** [struct semaphore_waiter] of a sleeping task, with the parameters of the
    call it sleeps in. *)
Record waiter := mk_waiter { w_up : bool; w_state : Z; w_timeout : Z }.

(** [acquired] and [released] count the successful [down]s that have returned
    and the [up]s. *)
Record sys := mk_sys {
  s_sem : semaphore;
  s_waiters : gmap tid waiter;
  s_acquired : Z;
  s_released : Z
}.

(** The effect of an action of task [t] on the system. *)
Definition finish (s : sys) (t : tid) (state : Z) (r : semaphore * action) : sys :=
  let '(sem, a) := r in
  match a with
  | Return v =>
      mk_sys sem (delete t (s_waiters s))
        (s_acquired s + (if bool_decide (v = 0) then 1 else 0)) (s_released s)
  | Sleep timeout =>
      mk_sys sem (<[t := mk_waiter false state timeout]> (s_waiters s))
        (s_acquired s) (s_released s)
  end.

Inductive step : sys -> sys -> Prop :=
  | st_down s t state timeout sig :
      s_waiters s !! t = None ->
      step s (finish s t state (down_entry (s_sem s) (__down_common (s_sem s) t state timeout sig)))
  | st_resume s t w sig j0 j1 :
      s_waiters s !! t = Some w ->
      step s (finish s t (w_state w)
        (__down_common_resume (s_sem s) t (w_up w) (w_state w)
           (schedule_timeout (w_timeout w) j0 j1) sig))
  | st_trylock s sem' r :
      down_trylock (s_sem s) = (sem', r) ->
      step s (mk_sys sem' (s_waiters s)
                (s_acquired s + (if bool_decide (r = 0) then 1 else 0)) (s_released s))
  | st_up s sem' :
      up (s_sem s) = Some (sem', None) ->
      step s (mk_sys sem' (s_waiters s) (s_acquired s) (s_released s + 1))
  | st_up_wake s sem' t w :
      up (s_sem s) = Some (sem', Some t) -> s_waiters s !! t = Some w ->
      step s (mk_sys sem' (<[t := mk_waiter true (w_state w) (w_timeout w)]> (s_waiters s))
                (s_acquired s) (s_released s + 1)).

(** The runs of a semaphore initialised to [n] in which fewer than 2^31 units
    ever exist, so that the count keeps its meaning. *)
Inductive reachable (n : Z) : sys -> Prop :=
  | reach_init : 0 <= n < two31 -> reachable n (mk_sys (sema_init n) ∅ 0 0)
  | reach_step s s' :
      reachable n s -> step s s' -> n + s_released s' < two31 -> reachable n s'.

(** The sleeping tasks that have been given the semaphore. *)
Definition granted (m : gmap tid waiter) : Z :=
  Z.of_nat (size (filter (fun x : tid * waiter => w_up x.2 = true) m)).

Record inv (n : Z) (s : sys) : Prop := {
  inv_count : 0 <= sem_count (s_sem s);
  inv_list : sem_count (s_sem s) > 0 -> sem_wait_list (s_sem s) = [];
  inv_nodup : NoDup (sem_wait_list (s_sem s));
  inv_waiting : forall t, t ∈ sem_wait_list (s_sem s) <->
    exists w, s_waiters s !! t = Some w /\ w_up w = false;
  inv_units : sem_count (s_sem s) + granted (s_waiters s) + s_acquired s = n + s_released s;
  inv_pos : 0 <= s_acquired s /\ n + s_released s < two31
}.

(** ** Lemmas on the grants *)

Lemma granted_insert_false m t w :
  w_up w = false -> (forall w', m !! t = Some w' -> w_up w' = false) ->
  granted (<[t := w]> m) = granted m.
Proof.
  intros Hw Hm. unfold granted. rewrite map_filter_insert_not'; [done| |].
  - simpl. by rewrite Hw.
  - intros w' Hw'. simpl. by rewrite (Hm w').
Qed.

Lemma granted_insert_true m t w :
  w_up w = true -> (exists w', m !! t = Some w' /\ w_up w' = false) ->
  granted (<[t := w]> m) = granted m + 1.
Proof.
  intros Hw (w' & Hw' & Hf). unfold granted. rewrite map_filter_insert_True by done.
  rewrite map_size_insert_None; [lia|]. apply map_lookup_filter_None. right.
  intros x Hx. simplify_eq. simpl. by rewrite Hf.
Qed.

Lemma granted_delete_false m t :
  (forall w, m !! t = Some w -> w_up w = false) -> granted (delete t m) = granted m.
Proof.
  intros Hm. unfold granted. rewrite map_filter_delete_not; [done|].
  intros w Hw. simpl. by rewrite (Hm w).
Qed.

Lemma granted_delete_true m t w :
  m !! t = Some w -> w_up w = true -> granted (delete t m) = granted m - 1.
Proof.
  intros Hm Hw. unfold granted. rewrite map_filter_delete.
  assert (Hf : filter (fun x : tid * waiter => w_up x.2 = true) m !! t = Some w)
    by (by apply map_lookup_filter_Some).
  rewrite map_size_delete_Some by (by exists w).
  assert (size (filter (fun x : tid * waiter => w_up x.2 = true) m) <> 0%nat); [|lia].
  apply (map_size_ne_0_lookup_2 _ t). by exists w.
Qed.

Lemma granted_nonneg m : 0 <= granted m.
Proof. unfold granted. lia. Qed.

(** ** The invariant *)

(** A turn of the loop by a task that is on the list. *)
Lemma loop_inv n s sem t state timeout sig :
  sem_count sem = 0 -> NoDup (sem_wait_list sem) -> t ∈ sem_wait_list sem ->
  (forall t', t' <> t -> t' ∈ sem_wait_list sem <->
     exists w, s_waiters s !! t' = Some w /\ w_up w = false) ->
  (forall w, s_waiters s !! t = Some w -> w_up w = false) ->
  granted (s_waiters s) + s_acquired s = n + s_released s ->
  0 <= s_acquired s /\ n + s_released s < two31 ->
  inv n (finish s t state (down_loop sem t state timeout sig)).
Proof.
  intros Hc Hnd Ht Hw Htw Hu Hp.
  assert (Hdel : forall r, r <> 0 ->
    inv n (finish s t state (mk_sem (sem_count sem) (list_del t (sem_wait_list sem)), Return r))).
  { intros r Hr. simpl. rewrite bool_decide_eq_false_2 by done.
    split; simpl; try lia; [by apply NoDup_list_del | |].
    - intros t'. rewrite elem_of_list_del. destruct (decide (t' = t)) as [->|Hne].
      + rewrite lookup_delete_eq. naive_solver.
      + rewrite lookup_delete_ne by done. rewrite <- Hw by done. tauto.
    - rewrite granted_delete_false by done. lia. }
  unfold down_loop. destruct (signal_pending_state state sig); [by apply Hdel|].
  case_bd; [by apply Hdel|]. split; simpl; try lia; [done| |].
  - intros t'. destruct (decide (t' = t)) as [->|Hne].
    + rewrite lookup_insert_eq. naive_solver.
    + rewrite lookup_insert_ne by done. by apply Hw.
  - rewrite granted_insert_false by done. lia.
Qed.

Lemma down_entry_inv n s t state timeout sig :
  inv n s -> s_waiters s !! t = None ->
  inv n (finish s t state (down_entry (s_sem s) (__down_common (s_sem s) t state timeout sig))).
Proof.
  intros [Hc Hl Hnd Hw Hu Hp] Ht. unfold down_entry. case_bd as Hpos.
  - pose proof (granted_nonneg (s_waiters s)).
    rewrite u32_small by (unfold two31, two32 in *; lia).
    rewrite Hl by done. simpl. rewrite delete_id by done.
    split; simpl; try lia; [done|constructor|].
    intros t'. rewrite <- Hw. by rewrite Hl.
  - unfold __down_common. assert (t ∉ sem_wait_list (s_sem s)) as Hni.
    { rewrite Hw. intros (w & E & _). congruence. }
    apply loop_inv; simpl; try lia; unfold list_add_tail.
    + apply NoDup_app. split; [done|]. split; [|apply NoDup_singleton].
      intros x Hx ->%list_elem_of_singleton. done.
    + apply elem_of_app. right. by left.
    + intros t' Hne. rewrite elem_of_app, list_elem_of_singleton, Hw. tauto.
    + intros w E. congruence.
Qed.

Lemma resume_inv n s t w timeout sig :
  inv n s -> s_waiters s !! t = Some w ->
  inv n (finish s t (w_state w)
    (__down_common_resume (s_sem s) t (w_up w) (w_state w) timeout sig)).
Proof.
  intros [Hc Hl Hnd Hw Hu Hp] Ht. unfold __down_common_resume.
  destruct (w_up w) eqn:Eup.
  - simpl. split; simpl; try lia; [done|done| |].
    + intros t'. rewrite Hw. destruct (decide (t' = t)) as [->|Hne].
      * rewrite lookup_delete_eq. split; intros (w' & E & ?); congruence.
      * by rewrite lookup_delete_ne.
    + rewrite (granted_delete_true _ _ w) by done. lia.
  - assert (Hin : t ∈ sem_wait_list (s_sem s)) by (apply Hw; by exists w).
    apply loop_inv; try done.
    + destruct (decide (sem_count (s_sem s) > 0)) as [Hgt|]; [|lia].
      rewrite (Hl Hgt) in Hin. by apply elem_of_nil in Hin.
    + intros w' E. by simplify_eq.
    + destruct (decide (sem_count (s_sem s) > 0)) as [Hgt|]; [|lia].
      rewrite (Hl Hgt) in Hin. by apply elem_of_nil in Hin.
Qed.

Lemma trylock_inv n s sem' r :
  inv n s -> down_trylock (s_sem s) = (sem', r) ->
  inv n (mk_sys sem' (s_waiters s)
           (s_acquired s + (if bool_decide (r = 0) then 1 else 0)) (s_released s)).
Proof.
  intros [Hc Hl Hnd Hw Hu Hp] E. unfold down_trylock in E. simplify_eq.
  pose proof (granted_nonneg (s_waiters s)).
  rewrite s32_small by (unfold two31 in *; lia).
  destruct (decide (sem_count (s_sem s) > 0)) as [Hgt|Hle].
  - rewrite (bool_decide_eq_true_2 (_ >= 0)), (bool_decide_eq_false_2 (_ < 0)) by lia.
    simpl. rewrite u32_small by (unfold two31, two32 in *; lia).
    split; simpl; try done; try lia. intros _. by apply Hl.
  - rewrite (bool_decide_eq_false_2 (_ >= 0)), (bool_decide_eq_true_2 (_ < 0)) by lia.
    simpl. split; simpl; try done; lia.
Qed.

Lemma semaphore_step_inv n s s' :
  inv n s -> step s s' -> n + s_released s' < two31 -> inv n s'.
Proof.
  intros Hi Hs Hb.
  destruct Hs as [s t state timeout sig Ht|s t w sig j0 j1 Ht|s sem' r E|s sem' E|s sem' t w E Ht].
  - by apply down_entry_inv.
  - by apply resume_inv.
  - by apply trylock_inv.
  - destruct Hi as [Hc Hl Hnd Hw Hu Hp]. unfold up in E. case_bd as Hnil.
    2: { unfold __up in E. by destruct (sem_wait_list (s_sem s)). }
    simplify_eq. pose proof (granted_nonneg (s_waiters s)). simpl in Hb.
    rewrite u32_small by (unfold two31, two32 in *; lia). by split; simpl; try done; try lia.
  - destruct Hi as [Hc Hl Hnd Hw Hu Hp]. unfold up in E. case_bd as Hnil; [done|].
    unfold __up in E. destruct (sem_wait_list (s_sem s)) as [|t' l] eqn:El; [done|].
    simpl in E. simplify_eq. apply NoDup_cons in Hnd as [Hni Hnd].
    assert (Hup : w_up w = false).
    { destruct (proj1 (Hw t)) as (w' & E & ?); [by left|]. by simplify_eq. }
    split; simpl; [done | intros Hgt; by specialize (Hl Hgt) | done | |
      rewrite granted_insert_true by (done || by exists w); lia | simpl in Hb; lia].
    intros t'. destruct (decide (t' = t)) as [->|Hne].
    + rewrite lookup_insert_eq. naive_solver.
    + rewrite lookup_insert_ne by done. rewrite <- Hw, elem_of_cons. tauto.
Qed.

Lemma semaphore_reachable_inv n s : reachable n s -> inv n s.
Proof.
  induction 1 as [Hn|s s' Hr IH Hs Hb]; [|by eapply semaphore_step_inv].
  assert (Hg : granted ∅ = 0) by done.
  split; simpl; rewrite ?u32_small by (unfold two31, two32 in *; lia); try lia.
  - done.
  - constructor.
  - intros t. rewrite lookup_empty. split; [by intros ?%elem_of_nil|naive_solver].
Qed.

(** A sleeper in the uninterruptible state without a timeout never gives
    up. *)
Lemma uninterruptible_loop sem t sig :
  down_loop sem t TASK_UNINTERRUPTIBLE MAX_SCHEDULE_TIMEOUT sig
  = (sem, Sleep MAX_SCHEDULE_TIMEOUT).
Proof. done. Qed.

Lemma schedule_timeout_max j0 j1 :
  schedule_timeout MAX_SCHEDULE_TIMEOUT j0 j1 = MAX_SCHEDULE_TIMEOUT.
Proof. done. Qed.

Lemma schedule_timeout_bounds timeout j0 j1 :
  0 <= schedule_timeout timeout j0 j1.
Proof.
  unfold schedule_timeout. repeat case_bd; lia.
Qed.

(** ** Main theorems *)

(** Units are neither lost nor made up.  In every reachable
    state the count, the grants on their way to a sleeping task and the
    completed acquisitions add up to the initial value and the releases; a
    positive count means nobody waits; and the wait list holds each task that
    sleeps without a grant exactly once. *)
Theorem semaphore_units n s :
  reachable n s ->
  sem_count (s_sem s) + granted (s_waiters s) + s_acquired s = n + s_released s /\
  0 <= sem_count (s_sem s) /\ s_acquired s <= n + s_released s /\
  (sem_count (s_sem s) > 0 -> sem_wait_list (s_sem s) = []) /\
  NoDup (sem_wait_list (s_sem s)) /\
  (forall t, t ∈ sem_wait_list (s_sem s) <->
     exists w, s_waiters s !! t = Some w /\ w_up w = false).
Proof.
  intros Hr. destruct (semaphore_reachable_inv n s Hr) as [Hc Hl Hnd Hw Hu [Hp _]].
  pose proof (granted_nonneg (s_waiters s)).
  repeat (split; [done || lia|]). done.
Qed.

(** The run of the witnesses: a mutex taken by task 1, task 2 asleep on it in
    [down_timeout], then released: task 2 has the grant and still sleeps. *)
Definition handed_over : sys :=
  mk_sys (mk_sem 0 []) {[ 2%nat := mk_waiter true TASK_UNINTERRUPTIBLE 10 ]} 1 1.

Lemma handed_over_reachable : reachable 1 handed_over.
Proof.
  pose (quiet := mk_signals false false).
  pose (s1 := mk_sys (mk_sem 0 []) ∅ 1 0).
  pose (s2 := mk_sys (mk_sem 0 [2%nat]) {[ 2%nat := mk_waiter false TASK_UNINTERRUPTIBLE 10 ]} 1 0).
  apply (reach_step 1 s2); [| |done].
  - apply (reach_step 1 s1); [| |done].
    + apply (reach_step 1 (mk_sys (sema_init 1) ∅ 0 0)); [by constructor| |done].
      exact (st_down (mk_sys (sema_init 1) ∅ 0 0) 1%nat TASK_UNINTERRUPTIBLE
               MAX_SCHEDULE_TIMEOUT quiet eq_refl).
    + exact (st_down s1 2%nat TASK_UNINTERRUPTIBLE 10 quiet eq_refl).
  - exact (st_up_wake s2 (mk_sem 0 []) 2%nat (mk_waiter false TASK_UNINTERRUPTIBLE 10)
             eq_refl eq_refl).
Qed.

Lemma semaphore_units_witness :
  0 + granted (s_waiters handed_over) + 1 = 1 + 1 /\
  0 <= 0 /\ 1 <= 1 + 1 /\ (0 > 0 -> sem_wait_list (s_sem handed_over) = []) /\
  NoDup (sem_wait_list (s_sem handed_over)) /\
  (forall t, t ∈ sem_wait_list (s_sem handed_over) <->
     exists w, s_waiters handed_over !! t = Some w /\ w_up w = false).
Proof. apply (semaphore_units 1 handed_over). apply handed_over_reachable. Defined.

(** [down], whose result its caller cannot see, never returns
    without the semaphore: whatever signals are pending and however often it
    is woken, an action of an uninterruptible waiter without timeout either
    sleeps again or returns 0; it returns 0 only with a unit taken from the
    count or handed over by [up]. *)
Theorem down_never_fails sem t sig :
  (match down sem t sig with
   | (sem', Return r) => r = 0 /\ 0 < sem_count sem /\ sem_count sem' = u32 (sem_count sem - 1)
   | (sem', Sleep timeout) =>
       timeout = MAX_SCHEDULE_TIMEOUT /\ t ∈ sem_wait_list sem'
   end) /\
  (forall w j0 j1,
     w_state w = TASK_UNINTERRUPTIBLE -> w_timeout w = MAX_SCHEDULE_TIMEOUT ->
     match __down_common_resume sem t (w_up w) (w_state w)
             (schedule_timeout (w_timeout w) j0 j1) sig with
     | (sem', Return r) => r = 0 /\ w_up w = true
     | (sem', Sleep timeout) => timeout = MAX_SCHEDULE_TIMEOUT /\ sem' = sem
     end).
Proof.
  split.
  - unfold down, down_entry, __down, __down_common. case_bd; [simpl; lia|].
    rewrite uninterruptible_loop. split; [done|]. apply elem_of_app. right. by left.
  - intros w j0 j1 -> ->. rewrite schedule_timeout_max. unfold __down_common_resume.
    destruct (w_up w); [done|]. by rewrite uninterruptible_loop.
Qed.

(** A grant is final and in order.  [up] on a non-empty list
    hands the unit to the task that has waited longest; when that task next
    runs, its call returns 0 even if its timeout has passed or a signal is
    pending; and no call, successful or not, leaves its on-stack waiter on
    the list. *)
Theorem semaphore_handover n s :
  reachable n s ->
  (forall t l, sem_wait_list (s_sem s) = t :: l ->
     up (s_sem s) = Some (mk_sem (sem_count (s_sem s)) l, Some t) /\ sem_count (s_sem s) = 0) /\
  (forall t w timeout sig, s_waiters s !! t = Some w -> w_up w = true ->
     __down_common_resume (s_sem s) t (w_up w) (w_state w) timeout sig = (s_sem s, Return 0)) /\
  (forall t w timeout sig sem' r, s_waiters s !! t = Some w ->
     __down_common_resume (s_sem s) t (w_up w) (w_state w) timeout sig = (sem', Return r) ->
     t ∉ sem_wait_list sem').
Proof.
  intros Hr. destruct (semaphore_reachable_inv n s Hr) as [Hc Hl Hnd Hw Hu Hp]. split; [|split].
  - intros t l E. unfold up, __up. rewrite E. simpl. split; [done|].
    destruct (decide (sem_count (s_sem s) > 0)) as [Hgt|]; [|lia].
    by rewrite (Hl Hgt) in E.
  - intros t w timeout sig Ht Hup. unfold __down_common_resume. by rewrite Hup.
  - intros t w timeout sig sem' r Ht E. unfold __down_common_resume, down_loop in E.
    destruct (w_up w) eqn:Eup.
    + simplify_eq. rewrite Hw. intros (w' & E' & ?). congruence.
    + destruct (signal_pending_state _ _); [|case_bd]; simplify_eq; simpl;
        rewrite elem_of_list_del; tauto.
Qed.

Lemma semaphore_handover_witness :
  (forall t l, sem_wait_list (s_sem handed_over) = t :: l ->
     up (s_sem handed_over) = Some (mk_sem (sem_count (s_sem handed_over)) l, Some t) /\
     sem_count (s_sem handed_over) = 0) /\
  (forall t w timeout sig, s_waiters handed_over !! t = Some w -> w_up w = true ->
     __down_common_resume (s_sem handed_over) t (w_up w) (w_state w) timeout sig
     = (s_sem handed_over, Return 0)) /\
  (forall t w timeout sig sem' r, s_waiters handed_over !! t = Some w ->
     __down_common_resume (s_sem handed_over) t (w_up w) (w_state w) timeout sig = (sem', Return r) ->
     t ∉ sem_wait_list sem').
Proof. apply (semaphore_handover 1 handed_over). apply handed_over_reachable. Defined.

End Semaphore.
