(* ===== verification/ResCounter.v ===== *)
(** * Hierarchical resource counters ([kernel/res_counter.c])

    A counter has a usage, a limit and a parent; charging it charges every
    ancestor, or none.  The counters live in a store indexed by their
    identity, and the loops over [c->parent] carry a fuel that the theorems
    show to be enough when it is the length of the parent chain. *)

From Stdlib Require Import ZArith Lia.
From stdpp Require Import base option gmap list_numbers list.
From S2P Require Import Prelude.

Local Open Scope Z_scope.

Module ResCounter.

Definition cid := nat.

Definition LLONG_MAX : Z := 9223372036854775807.

(** [struct res_counter] without its lock. *)
Record res_counter := mk_counter {
  usage : Z;
  max_usage : Z;
  limit : Z;
  failcnt : Z;
  parent : option cid
}.

(** [counter] is the memory the caller passes, zeroed or not. *)
Definition res_counter_init (counter : res_counter) (parent : option cid) : res_counter :=
  mk_counter (usage counter) (max_usage counter) LLONG_MAX (failcnt counter) parent.

Definition res_counter_charge_locked (counter : res_counter) (val : Z) : res_counter * Z :=
  if bool_decide (u64 (usage counter + val) > limit counter) then
    (mk_counter (usage counter) (max_usage counter) (limit counter)
       (u64 (failcnt counter + 1)) (parent counter), - ENOMEM)
  else
    let usage' := u64 (usage counter + val) in
    (mk_counter usage'
       (if bool_decide (usage' > max_usage counter) then usage' else max_usage counter)
       (limit counter) (failcnt counter) (parent counter), 0).

Definition res_counter_uncharge_locked (counter : res_counter) (val : Z) : res_counter :=
  let val := if bool_decide (usage counter < val) then usage counter else val in
  mk_counter (u64 (usage counter - val)) (max_usage counter) (limit counter)
    (failcnt counter) (parent counter).

Abbreviation store := (gmap cid res_counter).

(** The first loop of [res_counter_charge]: the store, the result, and the
    counter [c] it stopped at.  [None]: out of fuel, or a dangling pointer. *)
Fixpoint charge_loop (fuel : nat) (m : store) (c : option cid) (val : Z)
  : option (store * Z * option cid) :=
  match c with
  | None => Some (m, 0, None)
  | Some i =>
      match fuel with
      | O => None
      | S fuel =>
          rc ← m !! i;
          let '(rc', ret) := res_counter_charge_locked rc val in
          let m := <[i := rc']> m in
          if bool_decide (ret < 0) then Some (m, ret, Some i)
          else charge_loop fuel m (parent rc') val
      end
  end.

(** The [undo] loop, from [u] up to but not including [c]; with [c] NULL it is
    the loop of [res_counter_uncharge]. *)
Fixpoint uncharge_loop (fuel : nat) (m : store) (u c : option cid) (val : Z) : option store :=
  if bool_decide (u = c) then Some m
  else
    match fuel with
    | O => None
    | S fuel =>
        i ← u;
        rc ← m !! i;
        let rc' := res_counter_uncharge_locked rc val in
        uncharge_loop fuel (<[i := rc']> m) (parent rc') c val
    end.

(** The store, the return value and [*limit_fail_at]. *)
Definition res_counter_charge (fuel : nat) (m : store) (counter : cid) (val : Z)
  : option (store * Z * option cid) :=
  '(m, ret, c) ← charge_loop fuel m (Some counter) val;
  if bool_decide (ret < 0) then
    m ← uncharge_loop fuel m (Some counter) c val;
    Some (m, ret, c)
  else Some (m, 0, None).

Definition res_counter_uncharge (fuel : nat) (m : store) (counter : cid) (val : Z)
  : option store :=
  uncharge_loop fuel m (Some counter) None val.

(** The members user space can read and write. *)
Inductive res_member := RES_USAGE | RES_MAX_USAGE | RES_LIMIT | RES_FAILCNT.

Definition res_counter_read_u64 (counter : res_counter) (member : res_member) : Z :=
  match member with
  | RES_USAGE => usage counter
  | RES_MAX_USAGE => max_usage counter
  | RES_LIMIT => limit counter
  | RES_FAILCNT => failcnt counter
  end.

Definition set_member (counter : res_counter) (member : res_member) (v : Z) : res_counter :=
  match member with
  | RES_USAGE => mk_counter v (max_usage counter) (limit counter) (failcnt counter) (parent counter)
  | RES_MAX_USAGE => mk_counter (usage counter) v (limit counter) (failcnt counter) (parent counter)
  | RES_LIMIT => mk_counter (usage counter) (max_usage counter) v (failcnt counter) (parent counter)
  | RES_FAILCNT => mk_counter (usage counter) (max_usage counter) (limit counter) v (parent counter)
  end.

(** [res_counter_set_limit], [res_counter_reset_max] and
    [res_counter_reset_failcnt] of the header. *)
Definition res_counter_set_limit (cnt : res_counter) (l : Z) : res_counter * Z :=
  if bool_decide (usage cnt <= l)
  then (mk_counter (usage cnt) (max_usage cnt) l (failcnt cnt) (parent cnt), 0)
  else (cnt, - EBUSY).

Definition res_counter_reset_max (cnt : res_counter) : res_counter :=
  mk_counter (usage cnt) (usage cnt) (limit cnt) (failcnt cnt) (parent cnt).

Definition res_counter_reset_failcnt (cnt : res_counter) : res_counter :=
  mk_counter (usage cnt) (max_usage cnt) (limit cnt) 0 (parent cnt).

(** ** Well-formed hierarchies *)

(** [l] is the path of counters from [c] along the parents to, but not
    including, [t]. *)
Fixpoint seg (m : store) (c : option cid) (l : list cid) (t : option cid) : Prop :=
  match l with
  | [] => c = t
  | i :: l =>
      c = Some i /\ Some i <> t /\ i ∉ l /\
      exists rc, m !! i = Some rc /\ seg m (parent rc) l t
  end.

(** The chain from [c] to the root. *)
Definition chain (m : store) (c : option cid) (l : list cid) : Prop := seg m c l None.

Definition counter_ok (rc : res_counter) : Prop :=
  0 <= usage rc <= limit rc /\ usage rc <= max_usage rc /\ limit rc <= LLONG_MAX.

Definition store_ok (m : store) : Prop := map_Forall (fun _ rc => counter_ok rc) m.

(** What a successful charge does to one counter. *)
Definition charged (val : Z) (rc : res_counter) : res_counter :=
  mk_counter (usage rc + val) (Z.max (max_usage rc) (usage rc + val)) (limit rc)
    (failcnt rc) (parent rc).

Definition fits (val : Z) (rc : res_counter) : Prop := usage rc + val <= limit rc.

Definition all_fit (m : store) (val : Z) (l : list cid) : Prop :=
  Forall (fun i => exists rc, m !! i = Some rc /\ fits val rc) l.

(** ** Lemmas *)

Lemma charge_locked_fits rc val :
  counter_ok rc -> 0 <= val < two32 -> fits val rc ->
  res_counter_charge_locked rc val = (charged val rc, 0).
Proof.
  intros (Hu & Hm & Hl) Hv Hf. unfold fits in Hf. unfold res_counter_charge_locked, u64.
  rewrite Z.mod_small by (unfold LLONG_MAX, two32, two64 in *; lia).
  rewrite bool_decide_eq_false_2 by lia. unfold charged. f_equal. f_equal. case_bd; lia.
Qed.

Lemma charge_locked_over rc val :
  counter_ok rc -> 0 <= val < two32 -> ~ fits val rc ->
  res_counter_charge_locked rc val =
    (mk_counter (usage rc) (max_usage rc) (limit rc) (u64 (failcnt rc + 1)) (parent rc), - ENOMEM).
Proof.
  intros (Hu & Hm & Hl) Hv Hf. unfold fits in Hf. unfold res_counter_charge_locked.
  rewrite bool_decide_eq_true_2; [done|].
  unfold u64. rewrite Z.mod_small by (unfold LLONG_MAX, two32, two64 in *; lia). lia.
Qed.

Lemma uncharge_charged rc val :
  counter_ok rc -> 0 <= val < two32 -> fits val rc ->
  res_counter_uncharge_locked (charged val rc) val =
    mk_counter (usage rc) (Z.max (max_usage rc) (usage rc + val)) (limit rc) (failcnt rc) (parent rc).
Proof.
  intros (Hu & Hm & Hl) Hv Hf. unfold res_counter_uncharge_locked, charged. simpl.
  rewrite bool_decide_eq_false_2 by lia. f_equal. unfold u64.
  rewrite Z.mod_small; unfold LLONG_MAX, two32, two64 in *; lia.
Qed.

(** The counters of [l] updated by [f], the others left alone. *)
Definition update_chain (f : res_counter -> res_counter) (l : list cid) (m : store) : store :=
  foldr (fun i m => alter f i m) m l.

Lemma lookup_update_chain f l m j :
  NoDup l -> update_chain f l m !! j = (if decide (j ∈ l) then f <$> m !! j else m !! j).
Proof.
  induction l as [|i l IH]; intros Hnd.
  { rewrite decide_False; [done|apply not_elem_of_nil]. }
  apply NoDup_cons in Hnd as [Hi Hnd]. unfold update_chain in *. simpl.
  rewrite lookup_alter. destruct (decide (i = j)) as [->|Hne].
  - rewrite IH by done. rewrite decide_False by done. by rewrite decide_True by (by left).
  - rewrite IH by done. destruct (decide (j ∈ l)).
    + by rewrite decide_True by (by right).
    + rewrite decide_False; [done|]. rewrite elem_of_cons. naive_solver.
Qed.

Lemma seg_nodup m c l t : seg m c l t -> NoDup l.
Proof.
  revert c. induction l as [|i l IH]; intros c; simpl; [constructor|].
  intros (_ & _ & Hi & rc & _ & Hc). constructor; [done|by eapply IH].
Qed.

(** Updates that keep the parents keep the path. *)
Lemma counter_seg_ext m m' c l t :
  (forall i rc, i ∈ l -> m !! i = Some rc -> exists rc', m' !! i = Some rc' /\ parent rc' = parent rc) ->
  seg m c l t -> seg m' c l t.
Proof.
  revert c. induction l as [|i l IH]; intros c Hext; simpl; [done|].
  intros (-> & Ht & Hi & rc & E & Hc).
  destruct (Hext i rc) as (rc' & E' & Hp); [by left|done|].
  repeat (split; [done|]). exists rc'. split; [done|]. rewrite Hp.
  apply IH; [|done]. intros j rcj Hj. apply Hext. by right.
Qed.

Lemma seg_insert m c l t i rc : i ∉ l -> seg m c l t -> seg (<[i := rc]> m) c l t.
Proof.
  intros Hi. apply counter_seg_ext. intros j rcj Hj Ej. exists rcj.
  rewrite lookup_insert_ne; [done|]. by intros ->.
Qed.

(** A path stops short at any counter on it. *)
Lemma seg_prefix m c l1 i l2 t : seg m c (l1 ++ i :: l2) t -> seg m c l1 (Some i).
Proof.
  revert c. induction l1 as [|j l1 IH]; intros c; simpl; [by intros (-> & _)|].
  intros (-> & _ & Hj & rc & E & Hc). apply not_elem_of_app in Hj as [Hj Hji].
  split; [done|]. split; [intros ?; simplify_eq; apply Hji; by left|].
  split; [done|]. exists rc. split; [done|by apply IH].
Qed.

Lemma update_chain_insert f l m i rc :
  i ∉ l -> NoDup l -> m !! i = Some rc ->
  update_chain f l (<[i := f rc]> m) = update_chain f (i :: l) m.
Proof.
  intros Hi Hnd E. apply map_eq. intros j.
  rewrite !lookup_update_chain by (done || by constructor).
  destruct (decide (j = i)) as [->|Hne].
  - rewrite decide_False by done. rewrite decide_True by (by left).
    by rewrite lookup_insert_eq, E.
  - rewrite lookup_insert_ne by done. destruct (decide (j ∈ l)).
    + by rewrite decide_True by (by right).
    + rewrite decide_False; [done|]. rewrite elem_of_cons. naive_solver.
Qed.

(** The uncharging loop reaches its end and updates exactly the path. *)
Lemma uncharge_loop_spec fuel m c l t val :
  seg m c l t -> (length l <= fuel)%nat ->
  uncharge_loop fuel m c t val =
    Some (update_chain (fun rc => res_counter_uncharge_locked rc val) l m).
Proof.
  revert fuel m c. induction l as [|i l IH]; intros fuel m c; simpl.
  - intros -> _. destruct fuel; simpl; by rewrite bool_decide_eq_true_2.
  - intros (-> & Ht & Hi & rc & E & Hc) Hf. destruct fuel as [|fuel]; [lia|].
    simpl. rewrite bool_decide_eq_false_2 by done. rewrite E. simpl.
    rewrite IH; [|by apply seg_insert|lia].
    rewrite (update_chain_insert (fun rc => res_counter_uncharge_locked rc val)); try done.
    by eapply seg_nodup.
Qed.

Lemma charged_ok rc val :
  counter_ok rc -> 0 <= val -> fits val rc -> counter_ok (charged val rc).
Proof. unfold counter_ok, fits, charged. simpl. lia. Qed.

Definition over_limit (rc : res_counter) : res_counter :=
  mk_counter (usage rc) (max_usage rc) (limit rc) (u64 (failcnt rc + 1)) (parent rc).

(** The charging loop charges the chain, or stops at the first counter the
    charge does not fit in. *)
Lemma charge_loop_spec fuel m c l val :
  chain m c l -> store_ok m -> 0 <= val < two32 -> (length l <= fuel)%nat ->
  (all_fit m val l /\ charge_loop fuel m c val = Some (update_chain (charged val) l m, 0, None)) \/
  (exists l1 i l2 rc, l = l1 ++ i :: l2 /\ all_fit m val l1 /\ m !! i = Some rc /\ ~ fits val rc /\
     charge_loop fuel m c val =
       Some (<[i := over_limit rc]> (update_chain (charged val) l1 m), - ENOMEM, Some i)).
Proof.
  intros Hc Hok Hv. revert fuel m c Hc Hok. unfold chain.
  induction l as [|i l IH]; intros fuel m c Hc Hok Hf; simpl in Hc.
  - left. subst c. split; [constructor|]. by destruct fuel.
  - destruct Hc as (-> & _ & Hi & rc & E & Hc). destruct fuel as [|fuel]; [simpl in Hf; lia|].
    simpl. rewrite E. simpl. pose proof (Hok i rc E) as Hrc.
    destruct (decide (usage rc + val <= limit rc)) as [Hfit|Hover].
    + rewrite charge_locked_fits by done. simpl.
      destruct (IH fuel (<[i := charged val rc]> m) (parent rc)) as
        [[Hall Hl]|(l1 & k & l2 & rck & -> & Hall & Ek & Hk & Hl)]; simpl in *.
      * by apply seg_insert.
      * by apply map_Forall_insert_2; [apply charged_ok; [|lia|]|].
      * lia.
      * left. rewrite Hl. rewrite update_chain_insert by (done || by eapply seg_nodup).
        split; [|done]. constructor; [by exists rc|].
        eapply Forall_impl; [exact Hall|]. intros j (rcj & Ej & Hj).
        destruct (decide (j = i)) as [->|]; [by exists rc|].
        exists rcj. by rewrite lookup_insert_ne in Ej.
      * right. apply not_elem_of_app in Hi as [Hi1 Hi2]. apply not_elem_of_cons in Hi2 as [Hik Hi2].
        rewrite lookup_insert_ne in Ek by done.
        exists (i :: l1), k, l2, rck. split; [done|]. split; [|split; [done|split; [done|]]].
        -- constructor; [by exists rc|].
           eapply Forall_impl; [exact Hall|]. intros j (rcj & Ej & Hj).
           destruct (decide (j = i)) as [->|]; [by exists rc|].
           exists rcj. by rewrite lookup_insert_ne in Ej.
        -- rewrite Hl. rewrite update_chain_insert; try done.
           apply seg_nodup in Hc. by apply NoDup_app in Hc as [? _].
    + right. exists [], i, l, rc. rewrite charge_locked_over by done. simpl.
      split; [done|]. split; [constructor|]. by split.
Qed.

(** What a failed charge leaves of a counter below the one that refused. *)
Definition refused_below (val : Z) (rc : res_counter) : res_counter :=
  mk_counter (usage rc) (Z.max (max_usage rc) (usage rc + val)) (limit rc) (failcnt rc) (parent rc).

(** Undoing the charges below [i]. *)
Lemma undo_store m l1 i rc val :
  NoDup l1 -> i ∉ l1 -> store_ok m -> 0 <= val < two32 -> all_fit m val l1 ->
  update_chain (fun rc => res_counter_uncharge_locked rc val) l1
    (<[i := over_limit rc]> (update_chain (charged val) l1 m)) =
  <[i := over_limit rc]> (update_chain (refused_below val) l1 m).
Proof.
  intros Hnd Hi Hok Hv Hall. apply map_eq. intros j.
  rewrite lookup_update_chain by done. rewrite !lookup_insert. rewrite !lookup_update_chain by done.
  destruct (decide (i = j)) as [<-|Hne]; [by rewrite decide_False|].
  destruct (decide (j ∈ l1)) as [Hj|]; [|done].
  unfold all_fit in Hall. rewrite Forall_forall in Hall.
  destruct (Hall j Hj) as (rcj & Ej & Hfit). rewrite Ej. simpl. f_equal.
  apply uncharge_charged; [by eapply Hok|done|done].
Qed.

(** ** Main theorems *)

(** C40: charging is all or nothing and always ends.  On an acyclic
    parent chain [l], if the charge fits everywhere it returns 0, every
    counter of the chain is charged and no other one changes.  Otherwise it
    returns [-ENOMEM], [*limit_fail_at] is the first counter of the chain that
    is too full, that counter's [failcnt] is incremented, and every usage in
    the store is what it was. *)
Theorem res_counter_charge_atomic fuel m counter l val :
  chain m (Some counter) l -> store_ok m -> 0 <= val < two32 -> (length l <= fuel)%nat ->
  (all_fit m val l /\
   res_counter_charge fuel m counter val = Some (update_chain (charged val) l m, 0, None) /\
   store_ok (update_chain (charged val) l m)) \/
  (exists l1 i l2 rc m', l = l1 ++ i :: l2 /\ all_fit m val l1 /\
     m !! i = Some rc /\ ~ fits val rc /\
     res_counter_charge fuel m counter val = Some (m', - ENOMEM, Some i) /\
     m' = <[i := over_limit rc]> (update_chain (refused_below val) l1 m) /\
     forall j, usage <$> m' !! j = usage <$> m !! j).
Proof.
  intros Hc Hok Hv Hf. pose proof (seg_nodup _ _ _ _ Hc) as Hnd. unfold res_counter_charge.
  destruct (charge_loop_spec fuel m (Some counter) l val Hc Hok Hv Hf) as
    [[Hall ->]|(l1 & i & l2 & rc & -> & Hall & E & Hover & ->)]; simpl.
  - left. split; [done|]. split; [done|]. intros j rcj. rewrite lookup_update_chain by done.
    case_decide as Hj; [|apply Hok]. rewrite fmap_Some. intros (rc & Erc & ->).
    unfold all_fit in Hall. rewrite Forall_forall in Hall.
    destruct (Hall j Hj) as (rc' & E & Hfit). simplify_eq.
    apply charged_ok; [by eapply Hok|lia|done].
  - right. exists l1, i, l2, rc. apply NoDup_app in Hnd as (Hnd1 & Hdisj & Hnd2).
    assert (Hi : i ∉ l1) by (intros Hin; apply (Hdisj i Hin); by left).
    rewrite (uncharge_loop_spec _ _ _ l1).
    2: { eapply counter_seg_ext; [|by eapply seg_prefix]. intros j rcj Hj Ej.
         rewrite lookup_insert_ne by (by intros ->).
         rewrite lookup_update_chain, decide_True, Ej by done. by eexists. }
    2: { rewrite length_app in Hf. lia. }
    eexists. split; [done|]. split; [done|]. split; [done|]. split; [done|]. simpl.
    split; [done|]. rewrite undo_store by done. split; [done|]. intros j.
    rewrite lookup_insert, lookup_update_chain by done.
    case_decide as Hij; [subst; by rewrite E|].
    case_decide; [|done]. by rewrite <- option_fmap_compose.
Qed.

Lemma map_Forall_two (P : nat -> res_counter -> Prop) i j rc1 rc2 :
  P i rc1 -> P j rc2 -> map_Forall P ({[ i := rc1; j := rc2 ]} : store).
Proof. intros H1 H2. apply map_Forall_insert_2; [done|]. by apply map_Forall_singleton. Qed.

(** The hierarchy of the witnesses: counter 0 under counter 1. *)
Definition two_levels : store :=
  {[ 0%nat := mk_counter 5 5 100 0 (Some 1%nat); 1%nat := mk_counter 8 9 20 3 None ]}.

Lemma two_levels_ok : chain two_levels (Some 0%nat) [0%nat; 1%nat] /\ store_ok two_levels.
Proof.
  split.
  - split; [done|]. split; [done|]. split; [by apply not_elem_of_cons; split; [|apply not_elem_of_nil]|].
    eexists. split; [done|]. simpl. split; [done|]. split; [done|].
    split; [apply not_elem_of_nil|]. by eexists.
  - apply map_Forall_two; unfold counter_ok; simpl; unfold LLONG_MAX; lia.
Qed.

(** A charge of 50 fits in counter 0 and not in its parent. *)
Lemma res_counter_charge_atomic_witness :
  (all_fit two_levels 50 [0%nat; 1%nat] /\
   res_counter_charge 2 two_levels 0%nat 50
   = Some (update_chain (charged 50) [0%nat; 1%nat] two_levels, 0, None) /\
   store_ok (update_chain (charged 50) [0%nat; 1%nat] two_levels)) \/
  (exists l1 i l2 rc m', [0%nat; 1%nat] = l1 ++ i :: l2 /\ all_fit two_levels 50 l1 /\
     two_levels !! i = Some rc /\ ~ fits 50 rc /\
     res_counter_charge 2 two_levels 0%nat 50 = Some (m', - ENOMEM, Some i) /\
     m' = <[i := over_limit rc]> (update_chain (refused_below 50) l1 two_levels) /\
     forall j, usage <$> m' !! j = usage <$> two_levels !! j).
Proof.
  apply (res_counter_charge_atomic 2 two_levels 0%nat [0%nat; 1%nat] 50);
    [apply two_levels_ok | apply two_levels_ok | by unfold two32 | simpl; lia].
Defined.

(** Uncharging what was charged gives back every usage: a
    successful charge followed by an uncharge of the same amount ends and
    leaves each counter of the store with its usage, limit and [failcnt]. *)
Theorem res_counter_charge_uncharge fuel m m' counter l val :
  chain m (Some counter) l -> store_ok m -> 0 <= val < two32 -> (length l <= fuel)%nat ->
  res_counter_charge fuel m counter val = Some (m', 0, None) ->
  res_counter_uncharge fuel m' counter val = Some (update_chain (refused_below val) l m).
Proof.
  intros Hc Hok Hv Hf E. pose proof (seg_nodup _ _ _ _ Hc) as Hnd.
  unfold res_counter_charge in E.
  destruct (charge_loop_spec fuel m (Some counter) l val Hc Hok Hv Hf) as
    [[Hall El]|(l1 & i & l2 & rc & _ & _ & _ & _ & El)]; rewrite El in E; simpl in E.
  2: { by destruct (uncharge_loop _ _ _ _ _). }
  simplify_eq. unfold res_counter_uncharge. rewrite (uncharge_loop_spec _ _ _ l).
  - f_equal. apply map_eq. intros j. rewrite !lookup_update_chain by done.
    case_decide as Hj; [|done]. unfold all_fit in Hall. rewrite Forall_forall in Hall.
    destruct (Hall j Hj) as (rcj & Ej & Hfit). rewrite Ej. simpl. f_equal.
    apply uncharge_charged; [by eapply Hok|done|done].
  - eapply counter_seg_ext; [|exact Hc]. intros j rcj Hj Ej.
    rewrite lookup_update_chain, decide_True, Ej by done. by eexists.
  - done.
Qed.

Lemma res_counter_charge_uncharge_witness :
  exists m', res_counter_charge 2 two_levels 0%nat 12 = Some (m', 0, None) /\
    res_counter_uncharge 2 m' 0%nat 12
    = Some (update_chain (refused_below 12) [0%nat; 1%nat] two_levels).
Proof.
  eexists. split; [vm_compute; reflexivity|].
  eapply (res_counter_charge_uncharge 2 two_levels _ 0%nat [0%nat; 1%nat] 12);
    [apply two_levels_ok | apply two_levels_ok | by unfold two32 | simpl; lia | vm_compute; reflexivity].
Defined.

End ResCounter.
