(* ===== verification/Ashmem.v ===== *)
(** * Anonymous shared memory ([mm/ashmem.c]): the model

    Areas, their unpinned ranges, the global LRU list and every operation of
    the driver, as functions on one state.  An operation is one atomic
    function: what it does to the lists, names and masks it does under
    [ashmem_mutex].  Outside of it are [ASHMEM_SET_SIZE] and [ASHMEM_GET_SIZE],
    which do not sleep, and the checks of [ashmem_pin_unpin] before it takes the
    mutex, whose outcome lasts: they ask for a backing file, which stays once
    it is there, and with it the size.  Left out is one race:
    [ASHMEM_SET_SIZE] while [ashmem_mmap] sleeps in [shmem_file_setup] gives the
    area another size than its file.  The [list_head] chains are lists of range identifiers;
    a range is on the chain of its area and, while it is not purged, on the
    LRU chain: both chains and the store of ranges are part of the state.

    A result [None] is the use of a dangling or NULL pointer. *)

From Stdlib Require Import ZArith Lia Strings.Byte.
From stdpp Require Import base option gmap list_numbers list.
From S2P Require Import Prelude.

Local Open Scope Z_scope.
Local Open Scope kernel_scope.

Module Ashmem.

(** ** Constants ([include/linux/ashmem.h], [asm/page.h], [mman.h]) *)

Definition PAGE_SIZE : Z := 4096.
Definition PAGE_MASK : Z := u32 (- 4096).
Definition PAGE_ALIGN (x : Z) : Z := Z.land (x +u (PAGE_SIZE - 1)) PAGE_MASK.

Definition ASHMEM_NAME_LEN : Z := 256.
(** ["dev/ashmem/"] *)
Definition ASHMEM_NAME_PREFIX : list byte :=
  [x64; x65; x76; x2f; x61; x73; x68; x6d; x65; x6d; x2f].
Definition ASHMEM_NAME_PREFIX_LEN : Z := 11.
Definition ASHMEM_FULL_NAME_LEN : Z := ASHMEM_NAME_LEN + ASHMEM_NAME_PREFIX_LEN.
(** ["dev/ashmem"] with its terminator *)
Definition ASHMEM_NAME_DEF : list byte :=
  [x64; x65; x76; x2f; x61; x73; x68; x6d; x65; x6d; x00].

Definition ASHMEM_NOT_PURGED : Z := 0.
Definition ASHMEM_WAS_PURGED : Z := 1.
Definition ASHMEM_IS_UNPINNED : Z := 0.
Definition ASHMEM_IS_PINNED : Z := 1.

Definition PROT_READ : Z := 1.
Definition PROT_WRITE : Z := 2.
Definition PROT_EXEC : Z := 4.
Definition PROT_MASK : Z := Z.lor PROT_EXEC (Z.lor PROT_READ PROT_WRITE).
Definition READ_IMPLIES_EXEC : Z := 0x400000.
Definition VM_SHARED : Z := 8.
Definition VM_CAN_NONLINEAR : Z := 0x08000000.
Definition __GFP_FS : Z := 0x80.
Definition GFP_KERNEL : Z := 0xd0.

(** ** State *)

Definition aid := nat.
Definition rid := nat.
Definition fid := nat.

(** [struct ashmem_range], its two list links aside. *)
Record ashmem_range := mk_range {
  asma : aid;
  pgstart : Z;
  pgend : Z;
  purged : Z
}.

(** [struct ashmem_area]. *)
Record ashmem_area := mk_area {
  name : list byte;
  unpinned_list : list rid;
  file : option fid;
  size : Z;
  prot_mask : Z
}.

(** The areas (one per open file), the slab of ranges, [ashmem_lru_list] and
    [lru_count], and the reference counts of the shmem files. *)
Record state := mk_state {
  areas : gmap aid ashmem_area;
  ranges : gmap rid ashmem_range;
  ashmem_lru_list : list rid;
  lru_count : Z;
  files : gmap fid Z
}.

Definition set_area (st : state) (a : aid) (area : ashmem_area) : state :=
  mk_state (<[a := area]> (areas st)) (ranges st) (ashmem_lru_list st) (lru_count st) (files st).

Definition set_range (st : state) (r : rid) (range : ashmem_range) : state :=
  mk_state (areas st) (<[r := range]> (ranges st)) (ashmem_lru_list st) (lru_count st) (files st).

Definition set_lru (st : state) (l : list rid) (count : Z) : state :=
  mk_state (areas st) (ranges st) l count (files st).

Definition set_files (st : state) (f : gmap fid Z) : state :=
  mk_state (areas st) (ranges st) (ashmem_lru_list st) (lru_count st) f.

Definition with_unpinned (area : ashmem_area) (l : list rid) : ashmem_area :=
  mk_area (name area) l (file area) (size area) (prot_mask area).

(** ** The range macros *)

Definition range_size (range : ashmem_range) : Z := pgend range -u pgstart range +u 1.

Definition range_on_lru (range : ashmem_range) : bool :=
  bool_decide (purged range = ASHMEM_NOT_PURGED).

Definition page_range_subsumes_range (range : ashmem_range) (start end_ : Z) : bool :=
  bool_decide (pgstart range >= start) && bool_decide (pgend range <= end_).

Definition page_range_subsumed_by_range (range : ashmem_range) (start end_ : Z) : bool :=
  bool_decide (pgstart range <= start) && bool_decide (pgend range >= end_).

Definition page_in_range (range : ashmem_range) (page : Z) : bool :=
  bool_decide (pgstart range <= page) && bool_decide (pgend range >= page).

Definition page_range_in_range (range : ashmem_range) (start end_ : Z) : bool :=
  page_in_range range start || page_in_range range end_ ||
  page_range_subsumes_range range start end_.

Definition range_before_page (range : ashmem_range) (page : Z) : bool :=
  bool_decide (pgend range < page).

(** ** Ranges *)

Definition lru_add (st : state) (r : rid) (range : ashmem_range) : state :=
  set_lru st (list_add_tail r (ashmem_lru_list st)) (lru_count st +u range_size range).

Definition lru_del (st : state) (r : rid) (range : ashmem_range) : state :=
  set_lru st (list_del r (ashmem_lru_list st)) (lru_count st -u range_size range).

(** [alloc] is what [kmem_cache_zalloc] returns; [prev_range] is the entry
    the new range is linked before, [None] for the head of the area's list. *)
Definition range_alloc (st : state) (a : aid) (prev_range : option rid)
  (purged start end_ : Z) (alloc : option rid) : option (state * Z) :=
  match alloc with
  | None => Some (st, - ENOMEM)
  | Some r =>
      area ← areas st !! a;
      let range := mk_range a start end_ purged in
      let l := match prev_range with
               | Some p => list_add_before r p (unpinned_list area)
               | None => list_add_tail r (unpinned_list area)
               end in
      let st := set_area (set_range st r range) a (with_unpinned area l) in
      Some (if range_on_lru range then lru_add st r range else st, 0)
  end.

Definition range_del (st : state) (r : rid) : option state :=
  range ← ranges st !! r;
  area ← areas st !! asma range;
  let st := set_area st (asma range) (with_unpinned area (list_del r (unpinned_list area))) in
  let st := if range_on_lru range then lru_del st r range else st in
  Some (mk_state (areas st) (delete r (ranges st)) (ashmem_lru_list st) (lru_count st) (files st)).

Definition range_shrink (st : state) (r : rid) (start end_ : Z) : option state :=
  range ← ranges st !! r;
  let pre := range_size range in
  let range' := mk_range (asma range) start end_ (purged range) in
  let st := set_range st r range' in
  Some (if range_on_lru range'
        then set_lru st (ashmem_lru_list st) (lru_count st -u (pre -u range_size range'))
        else st).

(** ** Files *)

Definition get_file (st : state) (f : fid) : option state :=
  n ← files st !! f; Some (set_files st (<[f := n + 1]> (files st))).

Definition fput (st : state) (f : fid) : option state :=
  n ← files st !! f;
  Some (set_files st (if bool_decide (n - 1 = 0) then delete f (files st)
                      else <[f := n - 1]> (files st))).

(** ** Opening and closing *)

(** [nonseekable] is the result of [nonseekable_open], [alloc] that of
    [kmem_cache_zalloc]. *)
Definition ashmem_open (st : state) (nonseekable : Z) (alloc : option aid)
  : state * (Z * option aid) :=
  if bool_decide (nonseekable <> 0) then (st, (nonseekable, None))
  else match alloc with
       | None => (st, (- ENOMEM, None))
       | Some a =>
           let area := mk_area
             (ASHMEM_NAME_PREFIX ++ replicate (Z.to_nat ASHMEM_NAME_LEN) x00) [] None 0 PROT_MASK in
           (set_area st a area, (0, Some a))
       end.

(** The [list_for_each_entry_safe] loop of [ashmem_release]. *)
Fixpoint release_loop (st : state) (l : list rid) : option state :=
  match l with
  | [] => Some st
  | r :: l => st ← range_del st r; release_loop st l
  end.

Definition ashmem_release (st : state) (a : aid) : option state :=
  area ← areas st !! a;
  st ← release_loop st (unpinned_list area);
  st ← match file area with Some f => fput st f | None => Some st end;
  Some (mk_state (delete a (areas st)) (ranges st) (ashmem_lru_list st) (lru_count st) (files st)).

(** ** Mapping *)

(** The fields of [struct vm_area_struct] the driver uses. *)
Record vma := mk_vma { vm_flags : Z; vm_file : option fid; shmem_ops : bool }.

(** [setup] is the result of [shmem_file_setup]: a new file, with one
    reference, or an error. *)
Definition ashmem_mmap (st : state) (a : aid) (v : vma) (setup : fid + Z)
  : option (state * vma * Z) :=
  area ← areas st !! a;
  if bool_decide (size area = 0) then Some (st, v, - EINVAL)
  else if bool_decide (Z.land (Z.land (vm_flags v) (Z.lnot (prot_mask area))) PROT_MASK <> 0)
  then Some (st, v, - EPERM)
  else
    let finish (st : state) (f : fid) :=
      st ← get_file st f;
      st ← match vm_file v with Some old => fput st old | None => Some st end;
      Some (st, mk_vma (Z.lor (vm_flags v) VM_CAN_NONLINEAR) (Some f)
                  (if bool_decide (Z.land (vm_flags v) VM_SHARED <> 0) then true else shmem_ops v), 0) in
    match file area with
    | Some f => finish st f
    | None =>
        match setup with
        | inr err => Some (st, v, err)
        | inl f =>
            let area' := mk_area (name area) (unpinned_list area) (Some f) (size area) (prot_mask area) in
            finish (set_files (set_area st a area') (<[f := 1]> (files st))) f
        end
    end.

(** ** Shrinking *)

(** A [vmtruncate_range] of the file behind a range: the file, and the first
    and last byte dropped. *)
Record truncation := mk_trunc { tr_file : fid; tr_start : Z; tr_end : Z }.

(** The loop of [ashmem_shrink] over the LRU list. *)
Fixpoint shrink_loop (st : state) (l : list rid) (nr_to_scan : Z)
  : option (state * list truncation) :=
  match l with
  | [] => Some (st, [])
  | r :: l =>
      range ← ranges st !! r;
      area ← areas st !! asma range;
      inode ← file area;
      let t := mk_trunc inode (pgstart range *u PAGE_SIZE)
                 ((pgend range +u 1) *u PAGE_SIZE -u 1) in
      let range' := mk_range (asma range) (pgstart range) (pgend range) ASHMEM_WAS_PURGED in
      let st := lru_del (set_range st r range') r range' in
      let nr_to_scan := s32 (nr_to_scan - range_size range') in
      if bool_decide (nr_to_scan <= 0) then Some (st, [t])
      else '(st, ts) ← shrink_loop st l nr_to_scan; Some (st, t :: ts)
  end.

Definition ashmem_shrink (st : state) (nr_to_scan gfp_mask : Z)
  : option (state * list truncation * Z) :=
  if bool_decide (nr_to_scan <> 0) && bool_decide (Z.land gfp_mask __GFP_FS = 0)
  then Some (st, [], -1)
  else if bool_decide (nr_to_scan = 0) then Some (st, [], s32 (lru_count st))
  else
    '(st, ts) ← shrink_loop st (ashmem_lru_list st) nr_to_scan;
    Some (st, ts, s32 (lru_count st)).

(** ** Protection mask and name *)

(** [personality] is [current->personality]. *)
Definition set_prot_mask (st : state) (a : aid) (prot personality : Z) : option (state * Z) :=
  area ← areas st !! a;
  if bool_decide (Z.land (prot_mask area) prot <> prot) then Some (st, - EINVAL)
  else
    let prot := if bool_decide (Z.land prot PROT_READ <> 0) &&
                   bool_decide (Z.land personality READ_IMPLIES_EXEC <> 0)
                then Z.lor prot PROT_EXEC else prot in
    Some (set_area st a (mk_area (name area) (unpinned_list area) (file area) (size area) prot), 0).

(** [bytes] are the [ASHMEM_NAME_LEN] bytes [copy_from_user] stored, [fault]
    whether it failed. *)
Definition set_name (st : state) (a : aid) (bytes : list byte) (fault : bool)
  : option (state * Z) :=
  area ← areas st !! a;
  match file area with
  | Some _ => Some (st, - EINVAL)
  | None =>
      n1 ← memcpy_to (name area) ASHMEM_NAME_PREFIX_LEN bytes;
      n2 ← memcpy_to n1 (ASHMEM_FULL_NAME_LEN - 1) [x00];
      Some (set_area st a (mk_area n2 (unpinned_list area) (file area) (size area) (prot_mask area)),
            if fault then - EFAULT else 0)
  end.

(** [strlen] of the bytes from the start of [l]; [None] when no terminator is
    found in the array. *)
Fixpoint strlen (l : list byte) : option Z :=
  match l with
  | [] => None
  | b :: l => if bool_decide (b = x00) then Some 0 else n ← strlen l; Some (n + 1)
  end.

(** The bytes handed to [copy_to_user]; [fault] whether that call fails. *)
Definition get_name (st : state) (a : aid) (fault : bool) : option (list byte * Z) :=
  area ← areas st !! a;
  first ← name area !! Z.to_nat ASHMEM_NAME_PREFIX_LEN;
  out ← (if bool_decide (first <> x00) then
           len ← strlen (drop (Z.to_nat ASHMEM_NAME_PREFIX_LEN) (name area));
           memcpy_from (name area) ASHMEM_NAME_PREFIX_LEN (len + 1)
         else Some ASHMEM_NAME_DEF);
  Some (out, if fault then - EFAULT else 0).

(** ** Pinning *)

(** The loop of [ashmem_pin]: [l] is what is left of the area's list, [ret]
    the result so far, [alloc] what an allocation would return. *)
Fixpoint pin_loop (st : state) (a : aid) (l : list rid) (start end_ ret : Z) (alloc : option rid)
  : option (state * Z) :=
  match l with
  | [] => Some (st, ret)
  | r :: l =>
      range ← ranges st !! r;
      if range_before_page range start then Some (st, ret)
      else if page_range_in_range range start end_ then
        let ret := Z.lor ret (purged range) in
        if page_range_subsumes_range range start end_ then
          st ← range_del st r; pin_loop st a l start end_ ret alloc
        else if bool_decide (pgstart range >= start) then
          st ← range_shrink st r (end_ +u 1) (pgend range);
          pin_loop st a l start end_ ret alloc
        else if bool_decide (pgend range <= end_) then
          st ← range_shrink st r (pgstart range) (start -u 1);
          pin_loop st a l start end_ ret alloc
        else
          '(st, _) ← range_alloc st a (Some r) (purged range) (end_ +u 1) (pgend range) alloc;
          st ← range_shrink st r (pgstart range) (start -u 1);
          Some (st, ret)
      else pin_loop st a l start end_ ret alloc
  end.

Definition ashmem_pin (st : state) (a : aid) (start end_ : Z) (alloc : option rid)
  : option (state * Z) :=
  area ← areas st !! a;
  pin_loop st a (unpinned_list area) start end_ ASHMEM_NOT_PURGED alloc.

(** One pass of [ashmem_unpin] over the area's list: it returns 0 at once,
    merges a range and restarts, or finds the entry to insert before ([None]:
    the list head). *)
Inductive scan := ScanCovered | ScanMerge (r : rid) (range : ashmem_range)
  | ScanInsert (prev : option rid).

Fixpoint unpin_scan (rs : gmap rid ashmem_range) (l : list rid) (start end_ : Z) : option scan :=
  match l with
  | [] => Some (ScanInsert None)
  | r :: l =>
      range ← rs !! r;
      if range_before_page range start then Some (ScanInsert (Some r))
      else if page_range_subsumed_by_range range start end_ then Some ScanCovered
      else if page_range_in_range range start end_ then Some (ScanMerge r range)
      else unpin_scan rs l start end_
  end.

(** The [restart] loop. *)
Fixpoint unpin_loop (fuel : nat) (st : state) (a : aid) (start end_ purged_ : Z)
  (alloc : option rid) : option (state * Z) :=
  area ← areas st !! a;
  s ← unpin_scan (ranges st) (unpinned_list area) start end_;
  match s with
  | ScanCovered => Some (st, 0)
  | ScanInsert prev => range_alloc st a prev purged_ start end_ alloc
  | ScanMerge r range =>
      match fuel with
      | O => None
      | S fuel =>
          st ← range_del st r;
          unpin_loop fuel st a (Z.min (pgstart range) start) (Z.max (pgend range) end_)
            (Z.lor purged_ (purged range)) alloc
      end
  end.

(** Every restart deletes a range of the area, so its number of ranges is
    fuel enough. *)
Definition ashmem_unpin (st : state) (a : aid) (start end_ : Z) (alloc : option rid)
  : option (state * Z) :=
  area ← areas st !! a;
  unpin_loop (length (unpinned_list area)) st a start end_ ASHMEM_NOT_PURGED alloc.

Fixpoint pin_status_loop (rs : gmap rid ashmem_range) (l : list rid) (start end_ : Z) : option Z :=
  match l with
  | [] => Some ASHMEM_IS_PINNED
  | r :: l =>
      range ← rs !! r;
      if range_before_page range start then Some ASHMEM_IS_PINNED
      else if page_range_in_range range start end_ then Some ASHMEM_IS_UNPINNED
      else pin_status_loop rs l start end_
  end.

Definition ashmem_get_pin_status (st : state) (a : aid) (start end_ : Z) : option Z :=
  area ← areas st !! a;
  pin_status_loop (ranges st) (unpinned_list area) start end_.

(** ** The ioctl *)

Inductive pin_cmd := PIN | UNPIN | GET_PIN_STATUS.

(** [struct ashmem_pin] *)
Record pin_request := mk_pin { offset : Z; len : Z }.

(** The checks of [ashmem_pin_unpin]: the first and last page, or an error.
    [user] is what [copy_from_user] read, [None] when it failed. *)
Definition pin_range (area : ashmem_area) (user : option pin_request) : (Z * Z) + Z :=
  match file area with
  | None => inr (- EINVAL)
  | Some _ =>
      match user with
      | None => inr (- EFAULT)
      | Some pin =>
          let len := if bool_decide (len pin = 0)
                     then PAGE_ALIGN (size area) -u offset pin else len pin in
          if bool_decide (Z.land (Z.lor (offset pin) len) (Z.lnot PAGE_MASK) <> 0)
          then inr (- EINVAL)
          else if bool_decide ((two32 - 1) - offset pin < len) then inr (- EINVAL)
          else if bool_decide (PAGE_ALIGN (size area) < offset pin +u len) then inr (- EINVAL)
          else
            let start := offset pin / PAGE_SIZE in
            inl (start, start +u (len / PAGE_SIZE) -u 1)
      end
  end.

Definition ashmem_pin_unpin (st : state) (a : aid) (cmd : pin_cmd) (user : option pin_request)
  (alloc : option rid) : option (state * Z) :=
  area ← areas st !! a;
  match pin_range area user with
  | inr err => Some (st, err)
  | inl (start, end_) =>
      match cmd with
      | PIN => ashmem_pin st a start end_ alloc
      | UNPIN => ashmem_unpin st a start end_ alloc
      | GET_PIN_STATUS => r ← ashmem_get_pin_status st a start end_; Some (st, r)
      end
  end.

(** The commands of [ashmem_ioctl] with what they read from user space and
    from the running task. *)
Inductive ioctl_cmd :=
  | ASHMEM_SET_NAME (bytes : list byte) (fault : bool)
  | ASHMEM_GET_NAME (fault : bool)
  | ASHMEM_SET_SIZE (arg : Z)
  | ASHMEM_GET_SIZE
  | ASHMEM_SET_PROT_MASK (arg personality : Z)
  | ASHMEM_GET_PROT_MASK
  | ASHMEM_PIN_CMD (cmd : pin_cmd) (user : option pin_request) (alloc : option rid)
  | ASHMEM_PURGE_ALL_CACHES (cap_sys_admin : bool)
  | ASHMEM_OTHER.

(** The state, the return value, the bytes sent to user space and the
    truncations made. *)
Definition ashmem_ioctl (st : state) (a : aid) (cmd : ioctl_cmd)
  : option (state * Z * list byte * list truncation) :=
  area ← areas st !! a;
  match cmd with
  | ASHMEM_SET_NAME bytes fault =>
      '(st, r) ← set_name st a bytes fault; Some (st, r, [], [])
  | ASHMEM_GET_NAME fault => '(out, r) ← get_name st a fault; Some (st, r, out, [])
  | ASHMEM_SET_SIZE arg =>
      match file area with
      | Some _ => Some (st, - EINVAL, [], [])
      | None =>
          Some (set_area st a (mk_area (name area) (unpinned_list area) None (u32 arg)
                                 (prot_mask area)), 0, [], [])
      end
  | ASHMEM_GET_SIZE => Some (st, s32 (size area), [], [])
  | ASHMEM_SET_PROT_MASK arg personality =>
      '(st, r) ← set_prot_mask st a arg personality; Some (st, r, [], [])
  | ASHMEM_GET_PROT_MASK => Some (st, s32 (prot_mask area), [], [])
  | ASHMEM_PIN_CMD cmd user alloc =>
      '(st, r) ← ashmem_pin_unpin st a cmd user alloc; Some (st, r, [], [])
  | ASHMEM_PURGE_ALL_CACHES cap =>
      if cap then
        '(st, _, ret) ← ashmem_shrink st 0 GFP_KERNEL;
        '(st, ts, _) ← ashmem_shrink st ret GFP_KERNEL;
        Some (st, ret, [], ts)
      else Some (st, - EPERM, [], [])
  | ASHMEM_OTHER => Some (st, - ENOTTY, [], [])
  end.

End Ashmem.
