(* ===== verification/AshmemInv.v ===== *)
(** * Anonymous shared memory: the invariant

    What the driver's data structures satisfy between two operations, in two
    independent halves: the links between areas and ranges, and the LRU list
    with its page count.  The basic range operations preserve both. *)

From Stdlib Require Import ZArith Lia Strings.Byte.
From stdpp Require Import base option gmap sorting list_numbers list.
From S2P Require Import Prelude Ashmem.

Local Open Scope Z_scope.
Local Open Scope kernel_scope.

Module AshmemInv.
Import Ashmem.

Implicit Types (m : gmap rid ashmem_range) (ars : gmap aid ashmem_area).

(** ** Areas and ranges *)

(** The number of pages of an area. *)
Definition npages (area : ashmem_area) : Z := PAGE_ALIGN (size area) / PAGE_SIZE.

(** [PAGE_ALIGN] rounds up to a multiple of the page size. *)
Lemma page_mask x : 0 <= x < two32 -> Z.land x PAGE_MASK = x / PAGE_SIZE * PAGE_SIZE.
Proof.
  intros Hx. apply (land_high_mask x 12); [done|lia].
Qed.

Lemma npages_eq area : npages area = u32 (size area + 4095) / PAGE_SIZE.
Proof.
  unfold npages, PAGE_ALIGN. rewrite page_mask by apply u32_range.
  by rewrite Z.div_mul.
Qed.

Lemma npages_lt area : 0 <= npages area < two32.
Proof.
  rewrite npages_eq. pose proof (u32_range (size area + 4095)) as [H1 H2].
  unfold PAGE_SIZE. split; [by apply Z.div_pos|]. apply Z.div_lt_upper_bound; unfold two32 in *; lia.
Qed.

(** A range of an area may be empty, [pgstart = pgend + 1]: the code creates
    such ranges. *)
Definition range_ok (area : ashmem_area) (range : ashmem_range) : Prop :=
  0 <= pgstart range <= pgend range + 1 /\ 0 <= pgend range < npages area /\
  (purged range = ASHMEM_NOT_PURGED \/ purged range = ASHMEM_WAS_PURGED).

(** The list of an area is sorted from the highest pages down. *)
Definition above m (r1 r2 : rid) : Prop :=
  forall x y, m !! r1 = Some x -> m !! r2 = Some y -> pgend y < pgstart x.

Record area_ok m (a : aid) (area : ashmem_area) : Prop := {
  ao_nodup : NoDup (unpinned_list area);
  ao_ranges : forall r, r ∈ unpinned_list area ->
    exists range, m !! r = Some range /\ asma range = a /\ range_ok area range;
  ao_sorted : StronglySorted (above m) (unpinned_list area);
  ao_file : unpinned_list area <> [] -> is_Some (file area);
  ao_size : is_Some (file area) -> 0 < size area <= two32 - PAGE_SIZE
}.

Record links ars m : Prop := {
  li_area : forall a area, ars !! a = Some area -> area_ok m a area;
  li_range : forall r range, m !! r = Some range ->
    exists area, ars !! asma range = Some area /\ r ∈ unpinned_list area
}.

(** ** The LRU list *)

Definition pages_of (range : ashmem_range) : Z := pgend range - pgstart range + 1.

Fixpoint lru_pages m (l : list rid) : Z :=
  match l with
  | [] => 0
  | r :: l => (match m !! r with Some range => pages_of range | None => 0 end) + lru_pages m l
  end.

Record lru_ok m (l : list rid) (count : Z) : Prop := {
  lo_nodup : NoDup l;
  lo_elem : forall r, r ∈ l <->
    exists range, m !! r = Some range /\ purged range = ASHMEM_NOT_PURGED;
  lo_count : count = u32 (lru_pages m l)
}.

(** Every area's backing file has a reference, and no two areas share one. *)
Definition files_ok ars (fs : gmap fid Z) : Prop :=
  (forall a area f, ars !! a = Some area -> file area = Some f ->
     exists n, fs !! f = Some n /\ 1 <= n) /\
  (forall a1 a2 x1 x2 f, ars !! a1 = Some x1 -> ars !! a2 = Some x2 ->
     file x1 = Some f -> file x2 = Some f -> a1 = a2).

Record inv (st : state) : Prop := {
  inv_links : links (areas st) (ranges st);
  inv_lru : lru_ok (ranges st) (ashmem_lru_list st) (lru_count st);
  inv_files : files_ok (areas st) (files st)
}.

(** ** Lemmas: the sorted list *)

(** Ranges that only shrink stay sorted. *)
Lemma sorted_shrink m m' l :
  (forall r x', r ∈ l -> m' !! r = Some x' ->
     exists x, m !! r = Some x /\ pgstart x <= pgstart x' /\ pgend x' <= pgend x) ->
  StronglySorted (above m) l -> StronglySorted (above m') l.
Proof.
  induction l as [|r l IH]; intros Hsh Hs; [constructor|].
  apply StronglySorted_cons in Hs as [Hr Hs]. apply StronglySorted_cons. split.
  - rewrite Forall_forall in *. intros r' Hr' x' y' Ex Ey.
    destruct (Hsh r x') as (x & Ex0 & ? & ?); [by left|done|].
    destruct (Hsh r' y') as (y & Ey0 & ? & ?); [by right|done|].
    pose proof (Hr r' Hr' x y Ex0 Ey0). lia.
  - apply IH; [|done]. intros r' x' Hr'. apply Hsh. by right.
Qed.

Lemma sorted_agree m m' l :
  (forall r, r ∈ l -> m' !! r = m !! r) ->
  StronglySorted (above m) l -> StronglySorted (above m') l.
Proof.
  intros Hag. apply sorted_shrink. intros r x' Hr Ex. exists x'.
  rewrite <- Hag by done. done.
Qed.

Lemma sorted_list_del m r l :
  StronglySorted (above m) l -> StronglySorted (above m) (list_del r l).
Proof.
  unfold list_del. induction l as [|x l IH]; intros Hs; [constructor|].
  apply StronglySorted_cons in Hs as [Hx Hs].
  destruct (decide (x = r)) as [->|Hne].
  - rewrite filter_cons_False by tauto. by apply IH.
  - rewrite filter_cons_True by done. apply StronglySorted_cons. split; [|by apply IH].
    apply Forall_forall. intros y [_ Hy]%list_elem_of_filter.
    rewrite Forall_forall in Hx. by apply Hx.
Qed.

(** ** Lemmas: the page count *)

Lemma range_size_u32 range : range_size range = u32 (pages_of range).
Proof. unfold range_size, pages_of. by rewrite u32_add_l. Qed.

Lemma lru_pages_agree m m' l :
  (forall r, r ∈ l -> m' !! r = m !! r) -> lru_pages m' l = lru_pages m l.
Proof.
  induction l as [|r l IH]; intros Hag; simpl; [done|].
  rewrite Hag by (by left). f_equal. apply IH. intros r' Hr'. apply Hag. by right.
Qed.

Lemma lru_pages_app m l1 l2 : lru_pages m (l1 ++ l2) = lru_pages m l1 + lru_pages m l2.
Proof. induction l1; simpl; lia. Qed.

Lemma lru_pages_del m r range l :
  NoDup l -> r ∈ l -> m !! r = Some range ->
  lru_pages m l = pages_of range + lru_pages m (list_del r l).
Proof.
  intros Hnd Hr E. apply list_elem_of_split in Hr as (l1 & l2 & ->).
  apply NoDup_app in Hnd as (Hnd1 & Hd & [Hn2 Hnd2]%NoDup_cons).
  rewrite list_del_split; [|intros ?; eapply Hd; [done|by left]|done].
  rewrite !lru_pages_app. simpl. rewrite E. lia.
Qed.

Lemma u32_sub_total c x y : c = u32 (x + y) -> u32 (c - u32 x) = u32 y.
Proof. intros ->. rewrite u32_sub_l, u32_sub_r. f_equal. lia. Qed.

(** The effect of the basic operations on the LRU half. *)

Lemma lru_ok_insert_on m l c r range :
  lru_ok m l c -> m !! r = None -> purged range = ASHMEM_NOT_PURGED ->
  lru_ok (<[r := range]> m) (list_add_tail r l) (c +u range_size range).
Proof.
  intros [Hnd He ->] Hr Hp.
  assert (Hrl : r ∉ l) by (rewrite He; intros (x & Ex & _); congruence).
  unfold list_add_tail. split.
  - apply NoDup_app. split; [done|]. split; [|apply NoDup_singleton].
    intros x Hx ->%list_elem_of_singleton. done.
  - intros r'. rewrite elem_of_app, list_elem_of_singleton, He, lookup_insert.
    case_decide as Hd.
    + split; [intros _; by exists range|by right].
    + split; [intros [?|?]; [done|congruence]|by left].
  - rewrite range_size_u32, u32_add_l, u32_add_r, lru_pages_app. simpl.
    rewrite lookup_insert_eq. rewrite (lru_pages_agree m (<[r := range]> m) l).
    + f_equal. lia.
    + intros r' Hr'. rewrite lookup_insert_ne; [done|by intros ->].
Qed.

(** A change to a range that is on the LRU neither before nor after. *)
Lemma lru_ok_insert_off m l c r range :
  lru_ok m l c -> (forall x, m !! r = Some x -> purged x <> ASHMEM_NOT_PURGED) ->
  purged range <> ASHMEM_NOT_PURGED -> lru_ok (<[r := range]> m) l c.
Proof.
  intros [Hnd He ->] Hr Hp.
  assert (Hrl : r ∉ l) by (rewrite He; intros (x & Ex & ?); by eapply Hr).
  split; [done| |].
  - intros r'. rewrite He, lookup_insert. case_decide as Hd; [subst|done].
    split; intros (x & Ex & ?); [by destruct (Hr x Ex)|congruence].
  - f_equal. symmetry. apply lru_pages_agree. intros r' Hr'.
    rewrite lookup_insert_ne; [done|by intros ->].
Qed.

Lemma lru_ok_del_on m l c r range :
  lru_ok m l c -> m !! r = Some range -> purged range = ASHMEM_NOT_PURGED ->
  lru_ok (delete r m) (list_del r l) (c -u range_size range).
Proof.
  intros [Hnd He Hc] Hr Hp. assert (Hrl : r ∈ l) by (apply He; by exists range).
  split; [by apply NoDup_list_del| |].
  - intros r'. rewrite elem_of_list_del, He, lookup_delete. case_decide as Hd.
    + split; [by intros [_ []]|]. by intros (x & Ex & _).
    + split; [by intros [? _]|]. intros Hx. split; [done|congruence].
  - rewrite range_size_u32. rewrite (lru_pages_del m r range) in Hc by done.
    rewrite (u32_sub_total _ _ _ Hc). f_equal. symmetry. apply lru_pages_agree.
    intros r' [_ Hne]%elem_of_list_del. by rewrite lookup_delete_ne.
Qed.

Lemma lru_ok_del_off m l c r range :
  lru_ok m l c -> m !! r = Some range -> purged range <> ASHMEM_NOT_PURGED ->
  lru_ok (delete r m) l c.
Proof.
  intros [Hnd He ->] Hr Hp.
  assert (Hrl : r ∉ l) by (rewrite He; intros (x & Ex & ?); congruence).
  split; [done| |].
  - intros r'. rewrite He, lookup_delete. case_decide as Hd; [subst|done].
    split; intros (x & Ex & ?); congruence.
  - f_equal. symmetry. apply lru_pages_agree. intros r' Hr'.
    rewrite lookup_delete_ne; [done|by intros ->].
Qed.

Lemma lru_ok_resize_on m l c r range range' :
  lru_ok m l c -> m !! r = Some range ->
  purged range = ASHMEM_NOT_PURGED -> purged range' = ASHMEM_NOT_PURGED ->
  lru_ok (<[r := range']> m) l (c -u (range_size range -u range_size range')).
Proof.
  intros [Hnd He Hc] Hr Hp Hp'. assert (Hrl : r ∈ l) by (apply He; by exists range).
  split; [done| |].
  - intros r'. rewrite He, lookup_insert. case_decide as Hd; [subst|done].
    split; intros _; by eexists.
  - rewrite !range_size_u32. rewrite (lru_pages_del m r range) in Hc by done.
    rewrite (lru_pages_del (<[r := range']> m) r range') by (done || apply lookup_insert_eq).
    rewrite (lru_pages_agree m (<[r := range']> m) (list_del r l)).
    + rewrite Hc, (u32_sub_l (pages_of range)), (u32_sub_r (pages_of range)).
      autorewrite with kernel_rw. f_equal. lia.
    + intros r' [_ Hne]%elem_of_list_del. by rewrite lookup_insert_ne.
Qed.

(** Purging a range takes it off the list and keeps it in the store. *)
Lemma lru_ok_purge m l c r range :
  lru_ok m l c -> m !! r = Some range -> purged range = ASHMEM_NOT_PURGED ->
  lru_ok (<[r := mk_range (asma range) (pgstart range) (pgend range) ASHMEM_WAS_PURGED]> m)
    (list_del r l) (c -u range_size range).
Proof.
  intros [Hnd He Hc] Hr Hp. assert (Hrl : r ∈ l) by (apply He; by exists range).
  split; [by apply NoDup_list_del| |].
  - intros r'. rewrite elem_of_list_del, He, lookup_insert.
    case_decide as Hd.
    + split; [by intros [_ []]|]. intros (x & Ex & ?). by simplify_eq.
    + split; [by intros [? _]|]. intros Hx. split; [done|congruence].
  - rewrite range_size_u32. rewrite (lru_pages_del m r range) in Hc by done.
    rewrite (u32_sub_total _ _ _ Hc). f_equal. symmetry. apply lru_pages_agree.
    intros r' [_ Hne]%elem_of_list_del. by rewrite lookup_insert_ne.
Qed.

(** ** Lemmas: the links *)

Lemma area_ok_agree m m' a area :
  (forall r, r ∈ unpinned_list area -> m' !! r = m !! r) ->
  area_ok m a area -> area_ok m' a area.
Proof.
  intros Hag [Hnd Hr Hs Hf Hz]. split; try done.
  - intros r Hin. rewrite Hag by done. by apply Hr.
  - by eapply sorted_agree.
Qed.

(** A range is on the list of its own area only. *)
Lemma links_foreign ars m a area r range :
  links ars m -> ars !! a = Some area -> m !! r = Some range -> asma range <> a ->
  r ∉ unpinned_list area.
Proof.
  intros [Ha _] Ea Er Hne Hin. destruct (ao_ranges _ _ _ (Ha a area Ea) r Hin) as (x & Ex & Hx & _).
  congruence.
Qed.

Lemma links_del ars m r range area :
  links ars m -> m !! r = Some range -> ars !! asma range = Some area ->
  links (<[asma range := with_unpinned area (list_del r (unpinned_list area))]> ars) (delete r m).
Proof.
  intros Hl Er Ea. pose proof Hl as [Ha Hr]. split.
  - intros a' area'. rewrite lookup_insert_Some. intros [[<- <-]|[Hne Ea']].
    + destruct (Ha _ _ Ea) as [Hnd Hrs Hs Hf Hz]. split; simpl.
      * by apply NoDup_list_del.
      * intros r' [Hin Hne]%elem_of_list_del. rewrite lookup_delete_ne by done. by apply Hrs.
      * eapply sorted_agree, sorted_list_del, Hs.
        intros r' [_ Hne]%elem_of_list_del. by rewrite lookup_delete_ne.
      * intros Hnil. apply Hf. intros E. apply Hnil. by rewrite E.
      * done.
    + eapply area_ok_agree; [|by apply Ha]. intros r' Hin. rewrite lookup_delete_ne; [done|].
      intros <-. by eapply links_foreign.
  - intros r' range'. rewrite lookup_delete_Some. intros [Hne Er'].
    destruct (Hr r' range' Er') as (area' & Ea' & Hin). rewrite lookup_insert. case_decide as Hd.
    + eexists. split; [done|]. simpl. apply elem_of_list_del. split; [congruence|done].
    + by exists area'.
Qed.

(** A range that shrinks in place, or is marked purged. *)
Lemma links_update ars m r range range' :
  links ars m -> m !! r = Some range -> asma range' = asma range ->
  pgstart range <= pgstart range' <= pgend range' + 1 -> 0 <= pgend range' <= pgend range ->
  purged range' = ASHMEM_NOT_PURGED \/ purged range' = ASHMEM_WAS_PURGED ->
  links ars (<[r := range']> m).
Proof.
  intros Hl Er Has Hst Hen Hp. pose proof Hl as [Ha Hr]. split.
  - intros a' area' Ea'. destruct (decide (asma range = a')) as [<-|Hne].
    + destruct (Ha _ _ Ea') as [Hnd Hrs Hs Hf Hz]. split; try done.
      * intros r' Hin. rewrite lookup_insert. case_decide as Hd; [subst|by apply Hrs].
        exists range'. split; [done|]. split; [done|].
        destruct (Hrs r' Hin) as (x & Ex & _ & (? & ? & _)). simplify_eq.
        repeat split; try lia; done.
      * eapply sorted_shrink; [|done]. intros r' x' Hin. rewrite lookup_insert.
        case_decide as Hd; [subst; intros; simplify_eq|]; [exists range; split; [done|]; lia|].
        intros Ex. by exists x'.
    + eapply area_ok_agree; [|by apply Ha]. intros r' Hin. rewrite lookup_insert_ne; [done|].
      intros <-. by eapply links_foreign.
  - intros r' x. rewrite lookup_insert_Some. intros [[<- <-]|[Hne Ex]]; [|by apply Hr].
    rewrite Has. by apply Hr.
Qed.

(** A new range linked between the higher ranges [l1] and the lower ones
    [l2] of its area. *)
Lemma links_alloc ars m r range area l1 l2 :
  links ars m -> m !! r = None -> ars !! asma range = Some area ->
  unpinned_list area = l1 ++ l2 -> range_ok area range -> is_Some (file area) ->
  (forall r' x, r' ∈ l1 -> m !! r' = Some x -> pgend range < pgstart x) ->
  (forall r' x, r' ∈ l2 -> m !! r' = Some x -> pgend x < pgstart range) ->
  links (<[asma range := with_unpinned area (l1 ++ r :: l2)]> ars) (<[r := range]> m).
Proof.
  intros Hl Er Ea El Hok Hfile H1 H2. pose proof Hl as [Ha Hr].
  assert (Hfresh : forall a' area', ars !! a' = Some area' -> r ∉ unpinned_list area').
  { intros a' area' Ea' Hin. destruct (ao_ranges _ _ _ (Ha _ _ Ea') r Hin) as (x & Ex & _).
    congruence. }
  pose proof (Hfresh _ _ Ea) as Hrl. rewrite El, not_elem_of_app in Hrl. destruct Hrl as [Hr1 Hr2].
  split.
  - intros a' area'. rewrite lookup_insert_Some. intros [[<- <-]|[Hne Ea']].
    2: { eapply area_ok_agree; [|by apply Ha]. intros r' Hin. rewrite lookup_insert_ne; [done|].
         intros <-. by eapply Hfresh. }
    destruct (Ha _ _ Ea) as [Hnd Hrs Hs Hf Hz]. rewrite El in Hnd, Hrs, Hs.
    split; simpl; try done.
    + apply NoDup_app in Hnd as (? & Hd & ?). apply NoDup_app. split; [done|].
      split; [|by constructor]. intros x Hx [->|Hx2]%elem_of_cons; [done|by eapply Hd].
    + intros r'. rewrite elem_of_app, elem_of_cons. intros Hin.
      destruct (decide (r' = r)) as [->|Hne].
      * exists range. by rewrite lookup_insert_eq.
      * rewrite lookup_insert_ne by done. apply Hrs. rewrite elem_of_app. tauto.
    + apply (sorted_agree m (<[r := range]> m)) in Hs.
      2: { intros r'. rewrite elem_of_app. intros Hin. rewrite lookup_insert_ne; [done|].
           intros <-. tauto. }
      apply StronglySorted_app in Hs as (Hx & Hs1 & Hs2). apply StronglySorted_app. split; [|split].
      * intros r1 r2 Hr1' [->|Hr2']%elem_of_cons; [|by apply Hx].
        intros x y. rewrite lookup_insert_ne by (by intros ->). rewrite lookup_insert_eq.
        intros Ex Ey. simplify_eq. by eapply H1.
      * done.
      * apply StronglySorted_cons. split; [|done]. apply Forall_forall. intros r2 Hr2' x y.
        rewrite lookup_insert_eq. rewrite lookup_insert_ne by (by intros ->).
        intros Ex Ey. simplify_eq. by eapply H2.
  - intros r' x. rewrite lookup_insert_Some. intros [[<- <-]|[Hne Ex]].
    + eexists. rewrite lookup_insert_eq. split; [done|]. simpl. rewrite elem_of_app. right. by left.
    + destruct (Hr r' x Ex) as (area' & Ea' & Hin). rewrite lookup_insert. case_decide as Hd.
      * eexists. split; [done|]. simpl. rewrite Hd, Ea' in Ea. simplify_eq. rewrite El in Hin.
        rewrite elem_of_app, elem_of_cons. rewrite elem_of_app in Hin. tauto.
      * by exists area'.
Qed.

(** The area record may change in what the ranges do not depend on. *)
Lemma files_ok_unpinned ars fs a area l :
  files_ok ars fs -> ars !! a = Some area -> files_ok (<[a := with_unpinned area l]> ars) fs.
Proof.
  intros [H1 H2] Ea. split.
  - intros a' x f. rewrite lookup_insert_Some. intros [[<- <-]|[_ Ex]]; [|by apply (H1 a' x)].
    intros F. by apply (H1 a area f).
  - intros a1 a2 x1 x2 f. rewrite !lookup_insert_Some.
    intros [[<- <-]|[_ E1]] [[<- <-]|[_ E2]] F1 F2; simpl in *; eauto.
Qed.

(** ** The basic range operations *)

Lemma range_del_ok st r range area :
  inv st -> ranges st !! r = Some range -> areas st !! asma range = Some area ->
  exists st', range_del st r = Some st' /\ inv st' /\
    areas st' = <[asma range := with_unpinned area (list_del r (unpinned_list area))]> (areas st) /\
    ranges st' = delete r (ranges st) /\ files st' = files st.
Proof.
  intros [Hl Hu Hf] Er Ea. unfold range_del. rewrite Er. simpl. rewrite Ea. simpl.
  eexists. split; [done|]. unfold range_on_lru.
  destruct (bool_decide_reflect (purged range = ASHMEM_NOT_PURGED)); simpl;
    (split; [|done]); split; simpl;
    [by apply links_del | by apply lru_ok_del_on | by apply files_ok_unpinned
    |by apply links_del | by eapply lru_ok_del_off | by apply files_ok_unpinned].
Qed.

Lemma range_shrink_ok st r range s e :
  inv st -> ranges st !! r = Some range ->
  pgstart range <= s <= e + 1 -> 0 <= e <= pgend range ->
  exists st', range_shrink st r s e = Some st' /\ inv st' /\ areas st' = areas st /\
    ranges st' = <[r := mk_range (asma range) s e (purged range)]> (ranges st) /\
    files st' = files st.
Proof.
  intros [Hl Hu Hf] Er Hs He. unfold range_shrink. rewrite Er. simpl.
  eexists. split; [done|].
  assert (Hp : purged range = ASHMEM_NOT_PURGED \/ purged range = ASHMEM_WAS_PURGED).
  { destruct Hl as [Ha Hr]. destruct (Hr r range Er) as (area & Ea & Hin).
    destruct (ao_ranges _ _ _ (Ha _ _ Ea) r Hin) as (x & Ex & _ & (_ & _ & ?)). by simplify_eq. }
  unfold range_on_lru. simpl.
  destruct (bool_decide_reflect (purged range = ASHMEM_NOT_PURGED)); simpl;
    (split; [|done]); split; simpl; try done;
    [by eapply links_update | by apply lru_ok_resize_on | by eapply links_update
    |by apply lru_ok_insert_off; [|intros x Ex; simplify_eq|]].
Qed.

Lemma range_alloc_ok st a area prev p s e r l1 l2 :
  inv st -> ranges st !! r = None -> areas st !! a = Some area ->
  unpinned_list area = l1 ++ l2 -> prev = head l2 ->
  range_ok area (mk_range a s e p) -> is_Some (file area) ->
  (forall r' x, r' ∈ l1 -> ranges st !! r' = Some x -> e < pgstart x) ->
  (forall r' x, r' ∈ l2 -> ranges st !! r' = Some x -> pgend x < s) ->
  exists st', range_alloc st a prev p s e (Some r) = Some (st', 0) /\ inv st' /\
    areas st' = <[a := with_unpinned area (l1 ++ r :: l2)]> (areas st) /\
    ranges st' = <[r := mk_range a s e p]> (ranges st) /\ files st' = files st.
Proof.
  intros [Hl Hu Hf] Er Ea El -> Hok Hfile H1 H2. unfold range_alloc. rewrite Ea. simpl.
  assert (Hpos : match head l2 with
                 | Some p => list_add_before r p (unpinned_list area)
                 | None => list_add_tail r (unpinned_list area)
                 end = l1 ++ r :: l2).
  { rewrite El. destruct l2 as [|p0 l2]; simpl; [by rewrite app_nil_r|].
    apply list_add_before_split. destruct Hl as [Ha _].
    destruct (Ha _ _ Ea) as [Hnd _ _ _ _]. rewrite El in Hnd.
    apply NoDup_app in Hnd as (_ & Hd & _). intros Hin. eapply Hd; [done|]. by left. }
  rewrite Hpos. eexists. split; [done|].
  pose proof (links_alloc (areas st) (ranges st) r (mk_range a s e p) area l1 l2
    Hl Er Ea El Hok Hfile H1 H2) as Hl'. simpl in Hl'.
  unfold range_on_lru. simpl.
  destruct (bool_decide_reflect (p = ASHMEM_NOT_PURGED)); simpl; (split; [|done]); split; simpl; try done;
    [by apply lru_ok_insert_on | by apply files_ok_unpinned
    |apply lru_ok_insert_off; [done|congruence|done] | by apply files_ok_unpinned].
Qed.

End AshmemInv.
