(* ===== verification/AshmemPin.v ===== *)
(** * Anonymous shared memory: pinning and unpinning pages

    What [ashmem_pin], [ashmem_unpin] and [ashmem_get_pin_status] do to the
    set of unpinned pages of an area.  The contract is stated on pages; the
    proofs go through the list of ranges that represents them. *)

From Stdlib Require Import ZArith Lia Strings.Byte.
From stdpp Require Import base option gmap sorting list_numbers list.
From S2P Require Import Prelude Ashmem AshmemInv.

Local Open Scope Z_scope.
Local Open Scope kernel_scope.

Module AshmemPin.
Import Ashmem AshmemInv.

#[local] Arguments range_alloc : simpl never.

(** ** The pages of an area *)

(** Page [p] of area [a] is unpinned, and its contents were ([v] is
    [ASHMEM_WAS_PURGED]) or were not purged. *)
Definition ppage (st : state) (a : aid) (p v : Z) : Prop :=
  exists r range, ranges st !! r = Some range /\ asma range = a /\
    pgstart range <= p <= pgend range /\ purged range = v.

Definition unpinned (st : state) (a : aid) (p : Z) : Prop := exists v, ppage st a p v.

(** What no pin or unpin of an area touches. *)
Record frame (st st' : state) (a : aid) : Prop := {
  fr_files : files st' = files st;
  fr_other : forall b, b <> a -> areas st' !! b = areas st !! b;
  fr_area : forall area, areas st !! a = Some area ->
    exists l, areas st' !! a = Some (with_unpinned area l)
}.

Lemma frame_refl st a : frame st st a.
Proof. split; [done..|]. intros [n l f s p] E. by exists l. Qed.

Lemma frame_trans st1 st2 st3 a : frame st1 st2 a -> frame st2 st3 a -> frame st1 st3 a.
Proof.
  intros [F1 O1 A1] [F2 O2 A2]. split; [congruence|intros b ?; by rewrite O2, O1|].
  intros area Ea. destruct (A1 area Ea) as (l & E1). destruct (A2 _ E1) as (l' & E2).
  by exists l'.
Qed.

Lemma frame_insert st st' a area l :
  areas st !! a = Some area -> areas st' = <[a := with_unpinned area l]> (areas st) ->
  files st' = files st -> frame st st' a.
Proof.
  intros Ea E Hf. split; [done|..].
  - intros b Hb. rewrite E. by apply lookup_insert_ne.
  - intros area' Ea'. simplify_eq. exists l. rewrite E. apply lookup_insert_eq.
Qed.

Lemma frame_same st st' a : areas st' = areas st -> files st' = files st -> frame st st' a.
Proof.
  intros E Hf. split; [done|by rewrite E|]. intros [n l f s p] Ea. exists l. by rewrite E.
Qed.

#[local] Hint Resolve frame_refl frame_same : kernel.

(** ** Ranges of one area are disjoint *)

Lemma inv_range st r range :
  inv st -> ranges st !! r = Some range ->
  exists area, areas st !! asma range = Some area /\ r ∈ unpinned_list area /\
    range_ok area range.
Proof.
  intros [[Ha Hr] _ _] Er. destruct (Hr r range Er) as (area & Ea & Hin).
  destruct (ao_ranges _ _ _ (Ha _ _ Ea) r Hin) as (x & Ex & _ & Hok). simplify_eq. eauto.
Qed.

Lemma inv_member st a area r :
  inv st -> areas st !! a = Some area -> r ∈ unpinned_list area ->
  exists range, ranges st !! r = Some range /\ asma range = a /\ range_ok area range.
Proof. intros [[Ha _] _ _] Ea. apply (ao_ranges _ _ _ (Ha _ _ Ea)). Qed.

(** The neighbours of a range on its list: those before it hold higher
    pages, those after it lower ones. *)
Lemma inv_split st a area l1 r l2 range :
  inv st -> areas st !! a = Some area -> unpinned_list area = l1 ++ r :: l2 ->
  ranges st !! r = Some range ->
  r ∉ l1 /\ r ∉ l2 /\
  (forall r' x, r' ∈ l1 -> ranges st !! r' = Some x -> pgend range < pgstart x) /\
  (forall r' x, r' ∈ l2 -> ranges st !! r' = Some x -> pgend x < pgstart range).
Proof.
  intros [[Ha _] _ _] Ea El Er. destruct (Ha _ _ Ea) as [Hnd _ Hs _ _].
  rewrite El in Hnd, Hs. apply NoDup_app in Hnd as (_ & Hd & [? _]%NoDup_cons).
  apply StronglySorted_app in Hs as (Hx & _ & [Hlow _]%StronglySorted_cons).
  rewrite Forall_forall in Hlow. repeat split.
  - intros Hin. eapply Hd; [done|by left].
  - done.
  - intros r' x Hin Ex. by apply (Hx r' r Hin (list_elem_of_here _ _)).
  - intros r' x Hin Ex. by apply (Hlow r' Hin).
Qed.

Lemma ranges_disjoint st r1 r2 x1 x2 p :
  inv st -> ranges st !! r1 = Some x1 -> ranges st !! r2 = Some x2 -> asma x1 = asma x2 ->
  pgstart x1 <= p <= pgend x1 -> pgstart x2 <= p <= pgend x2 -> r1 = r2.
Proof.
  intros Hi E1 E2 Has H1 H2. destruct (decide (r1 = r2)) as [|Hne]; [done|exfalso].
  destruct (inv_range st r1 x1) as (area & Ea & Hin1 & _); [done..|].
  destruct (inv_range st r2 x2) as (area2 & Ea2 & Hin2 & _); [done..|].
  rewrite <- Has, Ea in Ea2. injection Ea2 as <-.
  apply list_elem_of_split in Hin1 as (l1 & l2 & El).
  destruct (inv_split st _ area l1 r1 l2 x1 Hi Ea El E1) as (_ & _ & Hup & Hlow).
  rewrite El, elem_of_app, elem_of_cons in Hin2. destruct Hin2 as [Hin|[->|Hin]]; [|done|].
  - specialize (Hup r2 x2 Hin E2). lia.
  - specialize (Hlow r2 x2 Hin E2). lia.
Qed.

(** ** The pages after a change to one range *)

Lemma ppage_delete st st' r range :
  inv st -> ranges st !! r = Some range -> ranges st' = delete r (ranges st) ->
  forall b p v, ppage st' b p v <->
    ppage st b p v /\ ~ (b = asma range /\ pgstart range <= p <= pgend range).
Proof.
  intros Hi Er E b p v. unfold ppage. rewrite E. split.
  - intros (r' & x & [Hne Ex]%lookup_delete_Some & <- & Hp & <-). split; [by exists r', x|].
    intros [Has Hp']. apply Hne. symmetry. by eapply ranges_disjoint.
  - intros [(r' & x & Ex & <- & Hp & <-) Hn]. exists r', x.
    rewrite lookup_delete_ne; [done|]. intros <-. simplify_eq. tauto.
Qed.

Lemma ppage_shrink st st' r range s e :
  inv st -> ranges st !! r = Some range -> pgstart range <= s -> e <= pgend range ->
  ranges st' = <[r := mk_range (asma range) s e (purged range)]> (ranges st) ->
  forall b p v, ppage st' b p v <->
    ppage st b p v /\
    ~ (b = asma range /\ pgstart range <= p <= pgend range /\ ~ s <= p <= e).
Proof.
  intros Hi Er Hs He E b p v. unfold ppage. rewrite E. split.
  - intros (r' & x & Ex & <- & Hp & <-). apply lookup_insert_Some in Ex as [[<- <-]|[Hne Ex]]; simpl in *.
    + split; [exists r, range; repeat split; try done; lia|]. tauto.
    + split; [by exists r', x|]. intros (Has & Hp' & _). apply Hne. symmetry.
      by eapply ranges_disjoint.
  - intros [(r' & x & Ex & <- & Hp & <-) Hn]. destruct (decide (r' = r)) as [->|Hne].
    + simplify_eq. eexists r, _. rewrite lookup_insert_eq. split; [done|]. simpl.
      split; [done|]. split; [|done]. destruct (decide (s <= p <= e)); tauto.
    + exists r', x. by rewrite lookup_insert_ne.
Qed.

Lemma ppage_insert st st' r range :
  ranges st !! r = None -> ranges st' = <[r := range]> (ranges st) ->
  forall b p v, ppage st' b p v <->
    ppage st b p v \/ (b = asma range /\ pgstart range <= p <= pgend range /\ v = purged range).
Proof.
  intros Er E b p v. unfold ppage. rewrite E. split.
  - intros (r' & x & Ex & <- & Hp & <-). apply lookup_insert_Some in Ex as [[<- <-]|[Hne Ex]].
    + by right.
    + left. by exists r', x.
  - intros [(r' & x & Ex & <- & Hp & <-)|(-> & Hp & ->)].
    + exists r', x. rewrite lookup_insert_ne; [done|congruence].
    + exists r, range. by rewrite lookup_insert_eq.
Qed.

(** ** Pinning *)

(** The range is met by the loop and overlaps the request. *)
Definition hit (range : ashmem_range) (s e : Z) : Prop :=
  range_before_page range s = false /\ page_range_in_range range s e = true.

Ltac unfold_ranges :=
  unfold range_before_page, page_range_in_range, page_in_range, page_range_subsumes_range,
    page_range_subsumed_by_range in *.

Ltac to_props :=
  unfold_ranges;
  repeat match goal with
  | H : bool_decide _ = true |- _ => apply bool_decide_eq_true in H
  | H : bool_decide _ = false |- _ => apply bool_decide_eq_false in H
  | H : (_ && _) = true |- _ => apply andb_true_iff in H as [? ?]
  | H : (_ && _) = false |- _ => apply andb_false_iff in H as [?|?]
  | H : (_ || _) = true |- _ => apply orb_true_iff in H as [?|?]
  | H : (_ || _) = false |- _ => apply orb_false_iff in H as [? ?]
  end.

Lemma purged_lor ret p :
  ret = 0 \/ ret = 1 -> p = ASHMEM_NOT_PURGED \/ p = ASHMEM_WAS_PURGED ->
  (Z.lor ret p = 0 \/ Z.lor ret p = 1) /\
  (Z.lor ret p = 1 <-> ret = 1 \/ p = ASHMEM_WAS_PURGED).
Proof.
  unfold ASHMEM_NOT_PURGED, ASHMEM_WAS_PURGED. intros [->| ->] [->| ->];
    (split; [first [by left|by right]|]); change (Z.lor 0 0) with 0;
    change (Z.lor 0 1) with 1; change (Z.lor 1 0) with 1; change (Z.lor 1 1) with 1; lia.
Qed.

(** [range_alloc] and [range_shrink] of another range commute: the order in
    which [ashmem_pin] splits a range does not matter. *)
Lemma alloc_shrink_comm st a r p s1 e1 s2 e2 r0 st1 :
  r0 <> r -> range_shrink st r s2 e2 = Some st1 ->
  forall st2, range_alloc st1 a (Some r) p s1 e1 (Some r0) = Some (st2, 0) ->
  exists st3, range_alloc st a (Some r) p s1 e1 (Some r0) = Some (st3, 0) /\
    range_shrink st3 r s2 e2 = Some st2.
Proof.
  intros Hne. unfold range_shrink, range_alloc.
  destruct (ranges st !! r) as [range|] eqn:Er; [|done]. simpl. intros E st2.
  injection E as <-.
  assert (Ha : forall b st l c, areas (if (b : bool) then set_lru st l c else st) = areas st)
    by (by intros []).
  rewrite !Ha. simpl. destruct (areas st !! a) as [area|]; simpl; [|done]. intros E. injection E as <-.
  eexists. split; [done|].
  unfold range_on_lru; simpl.
  repeat case_bd; simpl; (rewrite lookup_insert_ne by done); rewrite Er; simpl;
    unfold range_on_lru; simpl; repeat case_bd; try done; simpl;
    unfold lru_add, set_lru, set_area, set_range; simpl; f_equal;
    rewrite (insert_insert_ne (ranges st)) by done; try done.
  f_equal. autorewrite with kernel_rw. f_equal. lia.
Qed.

(** A request the checks of [ashmem_pin_unpin] let through: pages of the area,
    or the empty range behind its last page. *)
Definition requested (area : ashmem_area) (s e : Z) : Prop :=
  0 <= s /\ 0 <= e < npages area /\ (s <= e \/ (s = e + 1 /\ s = npages area)).

(** What the allocator may return for a new range. *)
Definition fresh (st : state) (alloc : option rid) : Prop :=
  forall r, alloc = Some r -> ranges st !! r = None.

Section pin.
Context (a : aid) (s e : Z) (alloc : option rid).
Implicit Types (st : state) (l : list rid).

(** The ranges of [l] do not meet the request. *)
Definition apart st l : Prop :=
  forall r x, r ∈ l -> ranges st !! r = Some x -> e < pgstart x \/ pgend x < s.

(** A pin step is right when it removes the requested pages and, unless an
    allocation failed, no other, and its result says whether a purged range
    was met. *)
Record pinned st st' l (ret ret' : Z) : Prop := {
  pd_inv : inv st';
  pd_frame : frame st st' a;
  pd_sub : forall b p v, ppage st' b p v -> ppage st b p v /\ ~ (b = a /\ s <= p <= e);
  pd_sup : is_Some alloc -> forall b p v,
    ppage st b p v -> ~ (b = a /\ s <= p <= e) -> ppage st' b p v;
  pd_bool : ret' = 0 \/ ret' = 1;
  pd_ret : ret' = 1 <-> ret = 1 \/
    exists r x, r ∈ l /\ ranges st !! r = Some x /\ hit x s e /\ purged x = ASHMEM_WAS_PURGED
}.

Lemma pinned_stop st area l0 l ret :
  inv st -> areas st !! a = Some area -> unpinned_list area = l0 ++ l ->
  apart st l0 -> (forall r x, r ∈ l -> ranges st !! r = Some x -> pgend x < s) ->
  ret = 0 \/ ret = 1 -> pinned st st l ret ret.
Proof.
  intros Hi Ea El H0 Hl Hret. split; auto with kernel.
  - intros b p v Hp. split; [done|]. intros [-> Hpe].
    destruct Hp as (r & x & Ex & Has & Hp & _).
    destruct (inv_range st r x Hi Ex) as (area' & Ea' & Hin & _).
    rewrite Has, Ea in Ea'. injection Ea' as <-. rewrite El, elem_of_app in Hin.
    destruct Hin as [Hin|Hin]; [destruct (H0 r x Hin Ex)|specialize (Hl r x Hin Ex)]; lia.
  - split; [by left|]. intros [?|(r & x & Hin & Ex & [Hb _] & _)]; [done|].
    specialize (Hl r x Hin Ex). to_props; lia.
Qed.

(** A range that is not met. *)
Lemma pinned_skip st st' l r range ret ret' :
  ranges st !! r = Some range -> page_range_in_range range s e = false ->
  pinned st st' l ret ret' -> pinned st st' (r :: l) ret ret'.
Proof.
  intros Er Ein [? ? ? ? ? Hr]. split; try done. rewrite Hr. split.
  - intros [?|(r' & x & ? & ?)]; [by left|]. right. exists r', x. by split; [right|].
  - intros [?|(r' & x & Hin & Ex & Hh & ?)]; [by left|]. right. exists r', x.
    apply elem_of_cons in Hin as [->|Hin]; [simplify_eq; destruct Hh; congruence|]. done.
Qed.

(** A step on the range [r] at the head of the list, then the rest. *)
Lemma pinned_step st st1 st' l r range ret ret' :
  r ∉ l -> ranges st !! r = Some range -> hit range s e ->
  ret = 0 \/ ret = 1 ->
  purged range = ASHMEM_NOT_PURGED \/ purged range = ASHMEM_WAS_PURGED ->
  frame st st1 a -> (forall r', r' ∈ l -> ranges st1 !! r' = ranges st !! r') ->
  (forall b p v, ppage st1 b p v <->
     ppage st b p v /\ ~ (b = a /\ pgstart range <= p <= pgend range /\ s <= p <= e)) ->
  pinned st1 st' l (Z.lor ret (purged range)) ret' -> pinned st st' (r :: l) ret ret'.
Proof.
  intros Hrl Er Hhit Hret Hpu Hfr Hag Hpp [Hi' Hfr' Hsub Hsup Hb Hr]. split; try done.
  - by eapply frame_trans.
  - intros b p v [Hp ?]%Hsub. apply Hpp in Hp as [? _]. done.
  - intros Hal b p v Hp Hn. apply (Hsup Hal); [|done]. apply Hpp. tauto.
  - rewrite Hr. destruct (purged_lor ret (purged range)) as [_ ->]; [done..|]. split.
    + intros [[?|?]|(r' & x & Hin & Ex & ? & ?)]; [by left| |].
      * right. exists r, range. by split; [left|].
      * right. exists r', x. rewrite <- Hag by done. by split; [right|].
    + intros [?|(r' & x & Hin & Ex & ? & ?)]; [tauto|].
      apply elem_of_cons in Hin as [->|Hin]; [simplify_eq; tauto|].
      right. exists r', x. by rewrite Hag.
Qed.

(** The fourth case of [ashmem_pin], a range with the request strictly
    inside: the part above goes to a new range, the part below stays. *)
Lemma pin_split_ok st area l0 l r range :
  inv st -> areas st !! a = Some area -> unpinned_list area = l0 ++ r :: l ->
  ranges st !! r = Some range -> fresh st alloc ->
  pgstart range < s -> s <= e + 1 -> e < pgend range ->
  exists st' ret st1, range_alloc st a (Some r) (purged range) (e + 1) (pgend range) alloc
      = Some (st1, ret) /\ range_shrink st1 r (pgstart range) (s - 1) = Some st' /\
    inv st' /\ frame st st' a /\
    (forall b p v, ppage st' b p v -> ppage st b p v /\ ~ (b = a /\ s <= p <= e)) /\
    (is_Some alloc -> forall b p v,
       ppage st b p v -> ~ (b = a /\ s <= p <= e) -> ppage st' b p v).
Proof.
  intros Hi Ea El Er Hfresh Hs Hse He.
  destruct (inv_member st a area r) as (x & Ex & Has & Hst & Hen & Hpu);
    [done..|rewrite El, elem_of_app; right; by left|]. simplify_eq.
  destruct (inv_split st _ area l0 r l range Hi Ea El Er) as (Hn1 & Hn2 & Hup & Hlow).
  destruct (range_shrink_ok st r range (pgstart range) (s - 1)) as (st1 & E1 & Hi1 & A1 & R1 & F1);
    [done..|lia|lia|].
  pose proof (ppage_shrink st st1 r range (pgstart range) (s - 1) Hi Er ltac:(lia) ltac:(lia) R1) as Hpp.
  destruct alloc as [r0|].
  2: { exists st1, (- ENOMEM), st. split; [done|]. split; [done|]. split; [done|].
       split; [by apply frame_same|]. split; [|by intros []].
       intros b p v [? Hn]%Hpp. split; [done|]. intros [-> ?]. apply Hn. repeat split; lia. }
  specialize (Hfresh r0 eq_refl).
  assert (Hr0 : ranges st1 !! r0 = None) by (rewrite R1, lookup_insert_ne; [done|congruence]).
  destruct (range_alloc_ok st1 (asma range) area (Some r) (purged range) (e + 1) (pgend range) r0 l0 (r :: l))
    as (st2 & E2 & Hi2 & A2 & R2 & F2); try done.
  - congruence.
  - split; simpl; [lia|]. split; [lia|done].
  - destruct Hi as [[Ha _] _ _]. apply (ao_file _ _ _ (Ha _ _ Ea)). rewrite El. by destruct l0.
  - intros r' x Hin. rewrite R1, lookup_insert_ne by (by intros <-). by apply Hup.
  - intros r' x [->|Hin]%elem_of_cons; rewrite R1; [rewrite lookup_insert_eq; intros [= <-]; simpl; lia|].
    rewrite lookup_insert_ne by (by intros <-). intros Ex'. specialize (Hlow r' x Hin Ex'). lia.
  - destruct (alloc_shrink_comm st (asma range) r (purged range) (e + 1) (pgend range) (pgstart range)
      (s - 1) r0 st1) with (st2 := st2) as (st3 & E3 & E4); [congruence|done..|].
    pose proof (ppage_insert st1 st2 r0 _ Hr0 R2) as Hpp2. simpl in Hpp2.
    exists st2, 0, st3. split; [done|]. split; [done|]. split; [done|]. split.
    { eapply frame_trans; [by apply frame_same|]. eapply frame_insert; [|done..]. congruence. }
    split.
    + intros b p v [[? Hn]%Hpp|(-> & Hp & ->)]%Hpp2.
      * split; [done|]. intros [-> ?]. apply Hn. repeat split; lia.
      * split; [|lia]. exists r, range. repeat split; try done; lia.
    + intros _ b p v Hp Hn. apply Hpp2.
      destruct (decide (b = asma range /\ e + 1 <= p <= pgend range)) as [[-> ?]|Hne].
      * right. repeat split; try lia. destruct Hp as (r' & x & Ex' & Hxa & Hxp & <-).
        assert (r' = r) as -> by (eapply (ranges_disjoint st r' r x range p); try done; lia).
        by simplify_eq.
      * left. apply Hpp. split; [done|]. intros (-> & ? & ?). apply Hne. split; [done|]. lia.
Qed.

Hypothesis Hse : 0 <= s <= e + 1.

(** The two middle cases: the range keeps its pages above or below the
    request. *)
Lemma pinned_shrink st st1 l r range s' e' ret :
  inv st -> ranges st !! r = Some range -> asma range = a -> r ∉ l -> hit range s e ->
  ret = 0 \/ ret = 1 ->
  purged range = ASHMEM_NOT_PURGED \/ purged range = ASHMEM_WAS_PURGED ->
  pgstart range <= s' -> e' <= pgend range ->
  (s' = e + 1 /\ e' = pgend range /\ s <= pgstart range) \/
  (s' = pgstart range /\ e' = s - 1 /\ pgend range <= e) ->
  areas st1 = areas st -> files st1 = files st ->
  ranges st1 = <[r := mk_range (asma range) s' e' (purged range)]> (ranges st) ->
  forall st' ret', pinned st1 st' l (Z.lor ret (purged range)) ret' ->
  pinned st st' (r :: l) ret ret'.
Proof.
  intros Hi Er Has Hn Hhit Hret Hpu Hs' He' Hcase A1 F1 R1 st' ret' Hp.
  eapply (pinned_step st st1 st' l r range); try done.
  - by apply frame_same.
  - intros r' Hin. rewrite R1, lookup_insert_ne; [done|]. by intros ->.
  - intros b p v. rewrite (ppage_shrink st st1 r range s' e') by (done || lia).
    rewrite Has. clear -Hcase. intuition lia.
Qed.

Lemma apart_shrink st st1 l0 r range s' e' p :
  apart st l0 -> e < s' \/ e' < s ->
  ranges st1 = <[r := mk_range (asma range) s' e' p]> (ranges st) -> apart st1 (l0 ++ [r]).
Proof.
  intros H0 Hc R1 r' x. rewrite elem_of_app, list_elem_of_singleton, R1, lookup_insert.
  case_decide; [intros _ [= <-]; simpl; lia|]. intros [Hin| ->] Ex; [by eapply H0|done].
Qed.

Lemma fresh_change st st1 r x :
  fresh st alloc -> ranges st !! r = Some x ->
  (forall r', r' <> r -> ranges st1 !! r' = ranges st !! r') -> fresh st1 alloc.
Proof. intros Hf Er Hag r0 E. rewrite Hag; [by apply Hf|]. intros ->. by rewrite (Hf r E) in Er. Qed.

Lemma pin_loop_ok l : forall st area l0 ret,
  inv st -> areas st !! a = Some area -> unpinned_list area = l0 ++ l ->
  0 <= e < npages area -> apart st l0 -> fresh st alloc -> ret = 0 \/ ret = 1 ->
  exists st' ret', pin_loop st a l s e ret alloc = Some (st', ret') /\
    pinned st st' l ret ret'.
Proof using Hse.
  induction l as [|r l IH]; intros st area l0 ret Hi Ea El He H0 Hfresh Hret; simpl.
  { eexists _, _. split; [done|]. eapply pinned_stop; try done. by intros ?? ?%not_elem_of_nil. }
  pose proof (npages_lt area) as Hnp.
  destruct (inv_member st a area r) as (range & Er & Has & Hok); [done..|rewrite El, elem_of_app; right; by left|].
  rewrite Er. simpl. destruct Hok as (Hst & Hen & Hpu).
  destruct (inv_split st a area l0 r l range Hi Ea El Er) as (Hn1 & Hn2 & Hup & Hlow).
  destruct (range_before_page range s) eqn:Eb.
  { eexists _, _. split; [done|]. eapply pinned_stop; try done. to_props.
    intros r' x [->|Hin]%elem_of_cons Ex; [simplify_eq; lia|].
    specialize (Hlow r' x Hin Ex). lia. }
  destruct (page_range_in_range range s e) eqn:Ein.
  2: { destruct (IH st area (l0 ++ [r]) ret) as (st' & ret' & -> & Hp); try done.
       - by rewrite <- app_assoc.
       - intros r' x. rewrite elem_of_app, list_elem_of_singleton. intros [Hin| ->] Ex; [by eapply H0|].
         simplify_eq. to_props; lia.
       - eexists _, _. split; [done|]. by eapply pinned_skip. }
  assert (Hhit : hit range s e) by done.
  destruct (purged_lor ret (purged range) Hret Hpu) as [Hret' Hpur].
  destruct (page_range_subsumes_range range s e) eqn:Esub.
  { destruct (range_del_ok st r range area) as (st1 & E1 & Hi1 & A1 & R1 & F1); [by rewrite ?Has..|].
    rewrite E1. simpl. rewrite Has, El, list_del_split in A1 by done.
    destruct (IH st1 (with_unpinned area (l0 ++ l)) l0 (Z.lor ret (purged range)))
      as (st' & ret' & -> & Hp); try done.
    - rewrite A1. apply lookup_insert_eq.
    - intros r' x Hin. rewrite R1. intros [_ Ex]%lookup_delete_Some. by eapply H0.
    - eapply fresh_change; try done. intros r' Hr'. by rewrite R1, lookup_delete_ne.
    - eexists _, _. split; [done|]. eapply (pinned_step st st1 st' l r range); try done.
      + by eapply frame_insert.
      + intros r' Hin. rewrite R1, lookup_delete_ne; [done|]. by intros ->.
      + intros b p v. rewrite (ppage_delete st st1 r range) by done. rewrite Has. to_props; intuition lia. }
  assert (Hov : pgstart range <= e + 1 /\ s <= pgend range) by (to_props; lia).
  assert (Hshrink : forall s' e', pgstart range <= s' <= e' + 1 -> 0 <= e' <= pgend range ->
      (s' = e + 1 /\ e' = pgend range /\ s <= pgstart range) \/
      (s' = pgstart range /\ e' = s - 1 /\ pgend range <= e) ->
      exists st' ret' st1, range_shrink st r s' e' = Some st1 /\
        pin_loop st1 a l s e (Z.lor ret (purged range)) alloc = Some (st', ret') /\
        pinned st st' (r :: l) ret ret').
  { intros s' e' Hs' He' Hcase.
    destruct (range_shrink_ok st r range s' e') as (st1 & E1 & Hi1 & A1 & R1 & F1); [done..|].
    destruct (IH st1 area (l0 ++ [r]) (Z.lor ret (purged range))) as (st' & ret' & E2 & Hp); try done.
    - congruence.
    - by rewrite <- app_assoc.
    - eapply apart_shrink; [done| |done]. lia.
    - eapply fresh_change; try done. intros r' Hr'. by rewrite R1, lookup_insert_ne.
    - exists st', ret', st1. split; [done|]. split; [done|].
      eapply (pinned_shrink st st1 l r range s' e'); try done; lia. }
  destruct (bool_decide_reflect (pgstart range >= s)) as [Hge|Hge].
  { rewrite (u32_small (e + 1)) by lia.
    destruct (Hshrink (e + 1) (pgend range)) as (st' & ret' & st1 & -> & E & Hp);
      [to_props; lia..|simpl; eauto]. }
  rewrite (u32_small (s - 1)) by (unfold two32 in *; lia).
  destruct (bool_decide_reflect (pgend range <= e)) as [Hle|Hle].
  { destruct (Hshrink (pgstart range) (s - 1)) as (st' & ret' & st1 & -> & E & Hp);
      [to_props; lia..|simpl; eauto]. }
  rewrite (u32_small (e + 1)) by lia.
  destruct (pin_split_ok st area l0 l r range) as (st' & q & st1 & -> & E2 & Hi' & Hfr & Hsub & Hsup);
    try done; [lia..|]. simpl. rewrite E2. simpl. eexists _, _. split; [done|]. split; try done.
  rewrite Hpur. split.
  - intros [?|?]; [by left|]. right. exists r, range. by split; [left|].
  - intros [?|(r' & x & Hin & Ex & [Hb Hh] & Hpx)]; [by left|].
    apply elem_of_cons in Hin as [->|Hin]; [simplify_eq; by right|].
    specialize (Hlow r' x Hin Ex). to_props; lia.
Qed.

End pin.

(** A proper range is hit exactly when it shares a page with the request. *)
Lemma hit_pages area s e x :
  requested area s e -> range_ok area x -> pgstart x <= pgend x ->
  (hit x s e <-> exists p, s <= p <= e /\ pgstart x <= p <= pgend x).
Proof.
  intros (Hs & He & Hr) (Hst & Hen & _) Hp. unfold hit. split.
  - intros [Hb Hi]. exists (Z.max s (pgstart x)). to_props; lia.
  - intros (p & Hpe & Hpx). unfold_ranges. split; [apply bool_decide_eq_false; lia|].
    repeat case_bd; simpl; try done; lia.
Qed.

Lemma requested_bounds area s e :
  requested area s e -> 0 <= s <= e + 1 /\ 0 <= e < npages area.
Proof. intros (Hs & He & Hr). lia. Qed.

(** ** Unpinning *)

Section unpin.
Context (a : aid) (alloc : option rid).
Implicit Types (st : state) (l : list rid).

(** What one pass over the list of [area] reports. *)
Definition scan_ok st area (s e : Z) (sc : scan) : Prop :=
  match sc with
  | ScanCovered => exists r x, ranges st !! r = Some x /\ asma x = a /\ pgstart x <= s /\ e <= pgend x
  | ScanMerge r x => r ∈ unpinned_list area /\ ranges st !! r = Some x /\ asma x = a /\ hit x s e
  | ScanInsert prev => exists l1 l2, unpinned_list area = l1 ++ l2 /\ prev = head l2 /\
      (forall r x, r ∈ l1 -> ranges st !! r = Some x -> e < pgstart x) /\
      (forall r x, r ∈ l2 -> ranges st !! r = Some x -> pgend x < s)
  end.

Lemma unpin_scan_ok st area s e l : forall l0,
  inv st -> areas st !! a = Some area -> unpinned_list area = l0 ++ l -> 0 <= s <= e + 1 ->
  (forall r x, r ∈ l0 -> ranges st !! r = Some x -> e < pgstart x) ->
  exists sc, unpin_scan (ranges st) l s e = Some sc /\ scan_ok st area s e sc.
Proof.
  induction l as [|r l IH]; intros l0 Hi Ea El Hse H0; simpl.
  { eexists. split; [done|]. exists l0, []. split; [done|]. split; [done|]. split; [done|].
    by intros ?? ?%not_elem_of_nil. }
  assert (Hin : r ∈ unpinned_list area) by (rewrite El, elem_of_app; right; by left).
  destruct (inv_member st a area r) as (x & Er & Has & Hst & Hen & _); [done..|].
  rewrite Er. simpl.
  destruct (inv_split st a area l0 r l x Hi Ea El Er) as (_ & _ & Hup & Hlow).
  destruct (range_before_page x s) eqn:Eb.
  { eexists. split; [done|]. exists l0, (r :: l). repeat (split; [done|]).
    to_props. intros r' y [->|Hl]%elem_of_cons Ey; [simplify_eq; lia|].
    specialize (Hlow r' y Hl Ey). lia. }
  destruct (page_range_subsumed_by_range x s e) eqn:Ec.
  { eexists. split; [done|]. exists r, x. to_props. repeat split; try done; lia. }
  destruct (page_range_in_range x s e) eqn:Ein; [by eexists|].
  apply (IH (l0 ++ [r])); try done; [by rewrite <- app_assoc|].
  intros r' y. rewrite elem_of_app, list_elem_of_singleton. intros [Hl| ->] Ey; [by eapply H0|].
  simplify_eq. to_props; lia.
Qed.

(** The contract of the loop.  [Q] are pages already taken out of the list
    that were purged: they come back as purged pages. *)
Record unpinned_post st (s e : Z) (Q : Z -> Prop) st' (ret : Z) : Prop := {
  up_inv : inv st';
  up_frame : frame st st' a;
  up_sub : forall b p, unpinned st' b p -> unpinned st b p \/ (b = a /\ s <= p <= e);
  up_ret : ret = 0 \/ (ret = - ENOMEM /\ alloc = None);
  up_sup : ret = 0 -> forall b p, unpinned st b p \/ (b = a /\ s <= p <= e) -> unpinned st' b p;
  up_purged : ret = 0 -> forall b p,
    ppage st b p ASHMEM_WAS_PURGED \/ (b = a /\ Q p) -> ppage st' b p ASHMEM_WAS_PURGED
}.

Lemma unpin_loop_eq fuel st s e pu :
  unpin_loop fuel st a s e pu alloc =
    (area ← areas st !! a;
     sc ← unpin_scan (ranges st) (unpinned_list area) s e;
     match sc with
     | ScanCovered => Some (st, 0)
     | ScanInsert prev => range_alloc st a prev pu s e alloc
     | ScanMerge r range =>
         match fuel with
         | O => None
         | S fuel =>
             st ← range_del st r;
             unpin_loop fuel st a (Z.min (pgstart range) s) (Z.max (pgend range) e)
               (Z.lor pu (purged range)) alloc
         end
     end).
Proof. by destruct fuel. Qed.

Definition queued st (s e pu : Z) (Q : Z -> Prop) : Prop :=
  forall p, Q p -> s <= p <= e /\ pu = 1 /\ ~ unpinned st a p.

Lemma unpin_covered st s e pu Q r x :
  inv st -> queued st s e pu Q ->
  ranges st !! r = Some x -> asma x = a -> pgstart x <= s -> e <= pgend x ->
  unpinned_post st s e Q st 0.
Proof.
  intros Hi HQ Ex Has Hs He.
  assert (Hcov : forall p, s <= p <= e -> unpinned st a p).
  { intros p Hp. exists (purged x), r, x. repeat split; try done; lia. }
  split; auto with kernel.
  - intros _ b p [?|[-> ?]]; auto.
  - intros _ b p [?|[-> Hq]]; [done|]. destruct (HQ p Hq) as (? & _ & []). auto.
Qed.

Lemma unpin_insert st area s e pu Q l1 l2 :
  inv st -> areas st !! a = Some area -> is_Some (file area) -> fresh st alloc ->
  0 <= s <= e + 1 -> 0 <= e < npages area -> pu = 0 \/ pu = 1 -> queued st s e pu Q ->
  unpinned_list area = l1 ++ l2 ->
  (forall r x, r ∈ l1 -> ranges st !! r = Some x -> e < pgstart x) ->
  (forall r x, r ∈ l2 -> ranges st !! r = Some x -> pgend x < s) ->
  exists st' ret, range_alloc st a (head l2) pu s e alloc = Some (st', ret) /\
    unpinned_post st s e Q st' ret.
Proof.
  intros Hi Ea Hfile Hfresh Hse He Hpu HQ El H1 H2. destruct alloc as [r0|] eqn:Eal.
  2: { eexists _, _. split; [done|]. split; auto with kernel; by intros ?. }
  destruct (range_alloc_ok st a area (head l2) pu s e r0 l1 l2)
    as (st' & E & Hi' & A & R & F); try done; [by apply Hfresh|].
  pose proof (ppage_insert st st' r0 _ (Hfresh r0 eq_refl) R) as Hpp. simpl in Hpp.
  eexists _, _. split; [done|]. split; auto with kernel.
  - by eapply frame_insert.
  - intros b p (v & [Hp|(-> & ? & _)]%Hpp); [left; by exists v|by right].
  - intros _ b p [[v Hp]|[-> Hp]]; [exists v|exists pu]; apply Hpp; auto.
  - intros _ b p [Hp|[-> Hq]]; apply Hpp; [by left|right].
    destruct (HQ p Hq) as (? & -> & _). done.
Qed.

(** Taking a range out and asking for its pages again, with the request. *)
Lemma unpin_merge st st1 st' s e Q r x ret :
  inv st -> ranges st !! r = Some x -> asma x = a -> hit x s e ->
  ranges st1 = delete r (ranges st) -> frame st st1 a ->
  unpinned_post st1 (Z.min (pgstart x) s) (Z.max (pgend x) e)
    (fun p => Q p \/ (pgstart x <= p <= pgend x /\ purged x = ASHMEM_WAS_PURGED)) st' ret ->
  unpinned_post st s e Q st' ret.
Proof.
  intros Hi Er Has [Hb Hin] R1 Hfr [Hi' Hfr' Hsub Hret Hsup Hpur].
  pose proof (ppage_delete st st1 r x Hi Er R1) as Hpp. rewrite Has in Hpp.
  split; try done.
  - by eapply frame_trans.
  - intros b p [(v & [Hp _]%Hpp)|[-> Hp]]%Hsub; [left; by exists v|].
    destruct (decide (s <= p <= e)); [by right|]. left. exists (purged x), r, x.
    repeat split; try done; to_props; lia.
  - intros Hr0 b p Hp. apply (Hsup Hr0).
    destruct (decide (b = a /\ Z.min (pgstart x) s <= p <= Z.max (pgend x) e)) as [|Hn]; [by right|].
    left. destruct Hp as [[v Hp]|[-> ?]].
    + exists v. apply Hpp. split; [done|]. intros [-> ?]. apply Hn. split; [done|lia].
    + destruct Hn. split; [done|lia].
  - intros Hr0 b p Hp. apply (Hpur Hr0).
    destruct Hp as [Hp|[-> ?]]; [|right; tauto].
    destruct (decide (b = a /\ pgstart x <= p <= pgend x)) as [[-> Hx]|Hn].
    + right. split; [done|]. right. split; [done|]. destruct Hp as (r' & y & Ey & Hya & Hyp & <-).
      assert (r' = r) as -> by (eapply (ranges_disjoint st r' r y x p); try done; congruence).
      by simplify_eq.
    + left. by apply Hpp.
Qed.

Lemma unpin_loop_ok fuel : forall st area s e pu Q,
  inv st -> areas st !! a = Some area -> is_Some (file area) -> fresh st alloc ->
  (length (unpinned_list area) <= fuel)%nat -> 0 <= s <= e + 1 -> 0 <= e < npages area ->
  pu = 0 \/ pu = 1 -> queued st s e pu Q ->
  exists st' ret, unpin_loop fuel st a s e pu alloc = Some (st', ret) /\
    unpinned_post st s e Q st' ret.
Proof.
  induction fuel as [|fuel IH];
    intros st area s e pu Q Hi Ea Hfile Hfresh Hfuel Hse He Hpu HQ; rewrite unpin_loop_eq, Ea; simpl;
    (destruct (unpin_scan_ok st area s e (unpinned_list area) []) as (sc & -> & Hsc);
     [done..|by intros ?? ?%not_elem_of_nil|]); simpl;
    destruct sc as [|r x|prev]; simpl in Hsc;
    try (destruct Hsc as (r & x & ? & ? & ? & ?); eexists _, _; split; [done|by eapply unpin_covered]);
    try (destruct Hsc as (l1 & l2 & ? & -> & ? & ?); by eapply unpin_insert).
  - destruct Hsc as [Hin _]. destruct (unpinned_list area); [by apply not_elem_of_nil in Hin|simpl in *; lia].
  - destruct Hsc as (Hin & Er & Has & Hhit).
    destruct (inv_member st a area r) as (y & Ey & _ & Hst & Hen & Hp); [done..|].
    rewrite Er in Ey. injection Ey as <-.
    destruct (range_del_ok st r x area) as (st1 & -> & Hi1 & A1 & R1 & F1); [by rewrite ?Has..|]. simpl.
    rewrite Has in A1.
    destruct (purged_lor pu (purged x) Hpu Hp) as [Hpu' Hlor].
    destruct (IH st1 (with_unpinned area (list_del r (unpinned_list area)))
      (Z.min (pgstart x) s) (Z.max (pgend x) e) (Z.lor pu (purged x))
      (fun p => Q p \/ (pgstart x <= p <= pgend x /\ purged x = ASHMEM_WAS_PURGED)))
      as (st' & ret & -> & Hpost); try done.
    + rewrite A1. apply lookup_insert_eq.
    + intros r0 E. rewrite R1. apply lookup_delete_None. right. by apply Hfresh.
    + simpl. apply list_elem_of_split in Hin as (l1 & l2 & El).
      destruct (inv_split st a area l1 r l2 x) as (? & ? & _); [done..|].
      rewrite El, list_del_split by done. rewrite El in Hfuel. rewrite length_app in *. simpl in *. lia.
    + lia.
    + unfold npages in *. simpl. lia.
    + pose proof (ppage_delete st st1 r x Hi Er R1) as Hpp. rewrite Has in Hpp.
      intros p [Hq|[Hp1 Hp2]].
      * destruct (HQ p Hq) as (? & -> & Hn). split; [lia|]. split; [tauto|].
        intros [v [? _]%Hpp]. apply Hn. by exists v.
      * split; [lia|]. split; [tauto|]. intros [v [_ Hn]%Hpp]. by apply Hn.
    + eexists _, _. split; [done|]. eapply unpin_merge; try done. by eapply frame_insert.
Qed.

End unpin.

(** ** The pin status *)

Lemma pin_status_loop_ok st a area s e l : forall l0,
  inv st -> areas st !! a = Some area -> unpinned_list area = l0 ++ l ->
  exists ret, pin_status_loop (ranges st) l s e = Some ret /\
    (ret = ASHMEM_IS_PINNED \/ ret = ASHMEM_IS_UNPINNED) /\
    (ret = ASHMEM_IS_UNPINNED <-> exists r x, r ∈ l /\ ranges st !! r = Some x /\ hit x s e).
Proof.
  induction l as [|r l IH]; intros l0 Hi Ea El; simpl.
  { eexists. split; [done|]. split; [by left|]. split; [done|].
    by intros (? & ? & ?%not_elem_of_nil & _). }
  destruct (inv_member st a area r) as (x & Er & _ & Hst & _ & _);
    [done..|rewrite El, elem_of_app; right; by left|].
  destruct (inv_split st a area l0 r l x Hi Ea El Er) as (_ & _ & _ & Hlow).
  rewrite Er. simpl. destruct (range_before_page x s) eqn:Eb.
  { eexists. split; [done|]. split; [by left|]. split; [done|].
    intros (r' & y & [->|Hin]%elem_of_cons & Ey & [Hb _]); [congruence|].
    specialize (Hlow r' y Hin Ey). to_props; lia. }
  destruct (page_range_in_range x s e) eqn:Ein.
  { eexists. split; [done|]. split; [by right|]. split; [|done]. intros _. exists r, x.
    by split; [left|]. }
  destruct (IH (l0 ++ [r])) as (ret & -> & Hb & Hr); [done..|by rewrite <- app_assoc|].
  exists ret. split; [done|]. split; [done|]. rewrite Hr. split.
  - intros (r' & y & ? & ?). exists r', y. by split; [right|].
  - intros (r' & y & Hin & Ey & Hh). exists r', y.
    apply elem_of_cons in Hin as [->|Hin]; [destruct Hh; congruence|done].
Qed.

(** The ranges of an area are those on its list. *)
Lemma area_ranges st a area (P : ashmem_range -> Prop) :
  inv st -> areas st !! a = Some area ->
  (exists r x, r ∈ unpinned_list area /\ ranges st !! r = Some x /\ P x) <->
  (exists r x, ranges st !! r = Some x /\ asma x = a /\ P x).
Proof.
  intros Hi Ea. split.
  - intros (r & x & Hin & Ex & Hp). exists r, x. split; [done|]. split; [|done].
    destruct (inv_member st a area r) as (y & Ey & ? & _); [done..|]. congruence.
  - intros (r & x & Ex & Has & Hp). exists r, x. split; [|done].
    destruct (inv_range st r x Hi Ex) as (y & Ey & Hin & _). congruence.
Qed.

(** All ranges of the area hold at least a page. *)
Definition proper (st : state) (a : aid) : Prop :=
  forall r x, ranges st !! r = Some x -> asma x = a -> pgstart x <= pgend x.

Lemma hit_ppages st a area s e (V : Z -> Prop) :
  inv st -> areas st !! a = Some area -> requested area s e ->
  ((exists p v, s <= p <= e /\ ppage st a p v /\ V v) ->
   exists r x, ranges st !! r = Some x /\ asma x = a /\ hit x s e /\ V (purged x)) /\
  (proper st a ->
   (exists r x, ranges st !! r = Some x /\ asma x = a /\ hit x s e /\ V (purged x)) ->
   exists p v, s <= p <= e /\ ppage st a p v /\ V v).
Proof.
  intros Hi Ea Hreq. split.
  - intros (p & v & Hp & (r & x & Ex & Has & Hx & <-) & Hv). exists r, x. split; [done|].
    split; [done|]. split; [|done]. destruct (inv_range st r x Hi Ex) as (y & Ey & _ & Hok).
    rewrite Has, Ea in Ey. injection Ey as <-. eapply hit_pages; try done; [lia|]. by exists p.
  - intros Hpr (r & x & Ex & Has & Hh & Hv).
    destruct (inv_range st r x Hi Ex) as (y & Ey & _ & Hok).
    rewrite Has, Ea in Ey. injection Ey as <-.
    apply (hit_pages area) in Hh as (p & Hp & Hx); [|done..|by eapply Hpr].
    exists p, (purged x). split; [done|]. split; [|done]. by exists r, x.
Qed.

End AshmemPin.
