(* ===== verification/AshmemSpec.v ===== *)
(** * Anonymous shared memory: what the driver promises

    The reachable states of the driver, driven by any sequence of opens,
    closes, maps, ioctls and shrinker calls, and the contracts of its
    operations on them. *)

From Stdlib Require Import ZArith Lia Strings.Byte.
From stdpp Require Import base option gmap sorting list_numbers list.
From S2P Require Import Prelude Ashmem AshmemInv AshmemPin.

Local Open Scope Z_scope.
Local Open Scope kernel_scope.

Module AshmemSpec.
Import Ashmem AshmemInv AshmemPin.

#[local] Arguments range_alloc : simpl never.

(** ** The checks of [ashmem_pin_unpin] *)

Lemma page_offset x : 0 <= x < two32 -> Z.land x (Z.lnot PAGE_MASK) = x mod PAGE_SIZE.
Proof.
  intros Hx. unfold PAGE_SIZE. change 4096 with (2 ^ 12). rewrite <- Z.land_ones by done.
  change PAGE_MASK with (Z.shiftl (Z.ones 20) 12). apply Z.bits_inj'. intros n Hn.
  rewrite !Z.land_spec, Z.lnot_spec, Z.shiftl_spec by done. destruct (decide (n < 12)).
  { rewrite (Z.testbit_neg_r _ (n - 12)), Z.ones_spec_low by lia. done. }
  rewrite (Z.ones_spec_high 12) by lia. destruct (decide (n < 32)).
  - rewrite Z.ones_spec_low by lia. done.
  - replace (Z.testbit x n) with false; [done|]. symmetry.
    destruct (decide (x = 0)) as [->|]; [by rewrite Z.testbit_0_l|]. apply Z.bits_above_log2; [lia|].
    apply Z.lt_le_trans with 32; [|lia]. apply Z.log2_lt_pow2; unfold two32 in *; lia.
Qed.

Definition word (x : Z) : Prop := 0 <= x < two32.

Lemma lor_word x y : word x -> word y -> word (Z.lor x y).
Proof.
  unfold word, two32. intros [Hx1 Hx2] [Hy1 Hy2]. split; [by apply Z.lor_nonneg|].
  destruct (decide (Z.lor x y = 0)) as [->|]; [lia|].
  pose proof (proj2 (Z.lor_nonneg x y) (conj Hx1 Hy1)).
  change 4294967296 with (2 ^ 32). apply Z.log2_lt_pow2; [lia|]. rewrite Z.log2_lor by done.
  assert (forall z, 0 <= z < 4294967296 -> Z.log2 z < 32).
  { intros z Hz. destruct (decide (z = 0)) as [->|]; [done|]. apply Z.log2_lt_pow2; lia. }
  apply Z.max_lub_lt; auto.
Qed.

(** Both numbers are multiples of the page size exactly when their [|] is. *)
Lemma aligned_lor x y :
  word x -> word y ->
  Z.land (Z.lor x y) (Z.lnot PAGE_MASK) = 0 <-> x mod PAGE_SIZE = 0 /\ y mod PAGE_SIZE = 0.
Proof.
  intros Hx Hy. rewrite <- !page_offset by done.
  rewrite Z.land_lor_distr_l. apply Z.lor_eq_0_iff.
Qed.

Lemma npages_size area :
  0 < size area <= two32 - PAGE_SIZE ->
  PAGE_ALIGN (size area) = npages area * PAGE_SIZE /\ 1 <= npages area /\
  (npages area - 1) * PAGE_SIZE < size area <= npages area * PAGE_SIZE.
Proof.
  intros Hs. unfold npages, PAGE_ALIGN. rewrite page_mask by apply u32_range.
  rewrite Z.div_mul by done. rewrite u32_small by (unfold two32, PAGE_SIZE in *; lia).
  unfold PAGE_SIZE in *. change (4096 - 1) with 4095.
  pose proof (Z.div_mod (size area + 4095) 4096 ltac:(done)).
  pose proof (Z.mod_pos_bound (size area + 4095) 4096 ltac:(done)). lia.
Qed.

(** What a request asks for: pages [s] to [e]; a length of zero stands for
    "up to the end of the area". *)
Definition asks (area : ashmem_area) (pin : pin_request) (s e : Z) : Prop :=
  s * PAGE_SIZE = offset pin /\
  (e + 1) * PAGE_SIZE = (if bool_decide (len pin = 0) then npages area * PAGE_SIZE
                         else offset pin + len pin).

Lemma pin_range_sound area pin s e :
  0 < size area <= two32 - PAGE_SIZE -> word (offset pin) -> word (len pin) ->
  pin_range area (Some pin) = inl (s, e) -> requested area s e /\ asks area pin s e.
Proof.
  intros Hsz Ho Hl. destruct (npages_size area Hsz) as (Hal & Hnp & Hsize).
  pose proof (npages_lt area) as [_ Hnlt].
  unfold pin_range. destruct (file area); [|done]. rewrite Hal.
  set (n := if bool_decide (len pin = 0) then _ else _).
  assert (Hn : word n) by (unfold n; case_bd; [apply u32_range|done]).
  assert (Hnv : n = len pin /\ len pin <> 0 \/
                len pin = 0 /\ n = u32 (npages area * PAGE_SIZE - offset pin))
    by (unfold n; case_bd; auto).
  clearbody n.
  case_bd as H1; [done|]. case_bd as H2; [done|]. case_bd as H3; [done|].
  assert (H1' : Z.land (Z.lor (offset pin) n) (Z.lnot PAGE_MASK) = 0) by lia.
  apply aligned_lor in H1' as [Ho4 Hn4]; [|done..].
  intros [= <- <-].
  unfold word, two32, PAGE_SIZE in *.
  rewrite (u32_small (offset pin + n)) in H3 by (unfold two32; lia).
  pose proof (Z.div_mod (offset pin) 4096 ltac:(done)). pose proof (Z.div_mod n 4096 ltac:(done)).
  assert (Hofs : offset pin / 4096 * 4096 = offset pin) by lia.
  assert (Hns : n / 4096 * 4096 = n) by lia.
  assert (Hnv' : n = (if bool_decide (len pin = 0) then npages area * 4096 - offset pin else len pin)).
  { destruct Hnv as [[-> ?]|[E Hu]]; case_bd; try done; try lia.
    destruct (decide (offset pin <= npages area * 4096)).
    - rewrite Hu. apply u32_small. unfold two32. lia.
    - exfalso. unfold u32, two32 in Hu. rewrite <- (Z_mod_plus_full _ 1), Z.mod_small in Hu; lia. }
  rewrite (u32_small (offset pin / 4096 + n / 4096)) by (unfold two32; lia).
  assert (Hpos : 0 < offset pin / 4096 + n / 4096) by (case_bd; lia).
  rewrite u32_small by (unfold two32; lia).
  unfold requested, asks, PAGE_SIZE. case_bd; lia.
Qed.

(** Every page-aligned request inside the area is let through. *)
Lemma pin_range_complete area pin s e :
  is_Some (file area) -> 0 < size area <= two32 - PAGE_SIZE ->
  word (offset pin) -> word (len pin) -> requested area s e -> asks area pin s e ->
  pin_range area (Some pin) = inl (s, e).
Proof.
  intros [f Hf] Hsz Ho Hl (Hs & He & Hr) [As Ae].
  destruct (npages_size area Hsz) as (Hal & Hnp & Hsize).
  unfold pin_range. rewrite Hf, Hal.
  assert (Hn : (if bool_decide (len pin = 0) then u32 (npages area * PAGE_SIZE - offset pin)
                else len pin) = (e + 1) * PAGE_SIZE - s * PAGE_SIZE).
  { unfold word, two32, PAGE_SIZE in *. revert Ae. case_bd; intros; [|lia].
    rewrite u32_small; unfold two32; lia. }
  rewrite Hn. rewrite <- As. unfold word, two32, PAGE_SIZE in *.
  rewrite bool_decide_eq_false_2.
  2: { intros Hne. apply Hne. apply aligned_lor; unfold word, two32, PAGE_SIZE; [lia..|].
       rewrite <- Z.mul_sub_distr_r. split; apply Z_mod_mult. }
  rewrite bool_decide_eq_false_2 by lia.
  rewrite u32_small by (unfold two32; lia).
  rewrite bool_decide_eq_false_2 by lia.
  replace ((e + 1) * 4096 - s * 4096) with ((e + 1 - s) * 4096) by lia. rewrite !Z.div_mul by done.
  rewrite (u32_small (s + _)) by (unfold two32; lia). rewrite u32_small by (unfold two32; lia).
  do 2 f_equal. lia.
Qed.

(** ** Changes to an area record *)

Lemma links_area ars m a area area' :
  links ars m -> ars !! a = Some area -> unpinned_list area' = unpinned_list area ->
  area_ok m a area' -> links (<[a := area']> ars) m.
Proof.
  intros [Ha Hr] Ea El Hok. split.
  - intros b x. rewrite lookup_insert_Some. intros [[<- <-]|[_ Ex]]; [done|by apply Ha].
  - intros r range Er. destruct (Hr r range Er) as (x & Ex & Hin).
    destruct (decide (asma range = a)) as [E|E].
    + exists area'. rewrite E, lookup_insert_eq, El. split; [done|]. congruence.
    + exists x. by rewrite lookup_insert_ne.
Qed.

(** Name, protection mask, and the size while nothing is mapped. *)
Lemma inv_set_area st a area area' :
  inv st -> areas st !! a = Some area -> unpinned_list area' = unpinned_list area ->
  file area' = file area -> size area' = size area \/ file area = None ->
  inv (set_area st a area').
Proof.
  intros [Hl Hu [Hf1 Hf2]] Ea El Ef Hs. pose proof (li_area _ _ Hl a area Ea) as [? Hr ? Hfi Hz].
  assert (Hnil : file area = None -> unpinned_list area = []).
  { intros E. destruct (unpinned_list area); [done|]. destruct Hfi as [? ?]; [done|congruence]. }
  split; simpl; [|done|split].
  - eapply links_area; [done..|]. split; rewrite ?El, ?Ef; try done.
    + intros r Hin. destruct Hs as [Hs|Hs]; [|rewrite (Hnil Hs) in Hin; by apply not_elem_of_nil in Hin].
      destruct (Hr r Hin) as (x & Ex & Hxa & Hok). exists x. split; [done|]. split; [done|].
      unfold range_ok, npages in *. by rewrite Hs.
    + intros Hfile. destruct Hs as [->|Hs]; [by apply Hz|]. rewrite Hs in Hfile. by destruct Hfile.
  - intros b x f. rewrite lookup_insert_Some. intros [[<- <-]|[_ Ex]]; [|by apply (Hf1 b x)].
    rewrite Ef. by apply (Hf1 a area).
  - intros a1 a2 x1 x2 f. rewrite !lookup_insert_Some.
    intros [[<- <-]|[_ E1]] [[<- <-]|[_ E2]]; rewrite ?Ef; eauto.
Qed.

(** ** Opening *)

Lemma inv_open st a n sz pm :
  inv st -> areas st !! a = None -> inv (set_area st a (mk_area n [] None sz pm)).
Proof.
  intros [[Ha Hr] Hu [Hf1 Hf2]] Ea. split; simpl; [split|done|split].
  - intros b x. rewrite lookup_insert_Some. intros [[<- <-]|[_ Ex]]; [|by apply Ha].
    split; simpl;
      [constructor|by intros r ?%not_elem_of_nil|constructor|done|by intros []].
  - intros r range Er. destruct (Hr r range Er) as (x & Ex & Hin). exists x.
    rewrite lookup_insert_ne; [done|congruence].
  - intros b x f. rewrite lookup_insert_Some. intros [[<- <-]|[_ Ex]]; [done|by apply (Hf1 b x)].
  - intros a1 a2 x1 x2 f. rewrite !lookup_insert_Some.
    intros [[<- <-]|[_ E1]] [[<- <-]|[_ E2]]; simpl; intros; try done. by eapply Hf2.
Qed.

(** ** Closing *)

Lemma release_loop_ok l : forall st a area,
  inv st -> areas st !! a = Some area -> unpinned_list area = l ->
  exists st', release_loop st l = Some st' /\ inv st' /\
    areas st' = <[a := with_unpinned area []]> (areas st) /\ files st' = files st /\
    (forall r x, ranges st' !! r = Some x <-> ranges st !! r = Some x /\ asma x <> a).
Proof.
  induction l as [|r l IH]; intros st a area Hi Ea El; simpl.
  { exists st. split; [done|]. split; [done|]. split; [|split; [done|]].
    - destruct area. simpl in *. subst. unfold with_unpinned. simpl. by rewrite insert_id.
    - intros r x. split; [|tauto]. intros Ex. split; [done|]. intros Has.
      destruct (inv_range st r x Hi Ex) as (area' & Ea' & Hin & _).
      rewrite Has, Ea in Ea'. injection Ea' as <-. rewrite El in Hin. by apply not_elem_of_nil in Hin. }
  destruct (inv_member st a area r) as (x & Ex & Has & _); [done..|rewrite El; by left|].
  destruct (inv_split st a area [] r l x) as (_ & Hn & _); [done..|].
  destruct (range_del_ok st r x area) as (st1 & -> & Hi1 & A1 & R1 & F1); [by rewrite ?Has..|]. simpl.
  rewrite Has, El in A1. change (r :: l) with ([] ++ r :: l) in A1.
  rewrite list_del_split in A1 by (done || apply not_elem_of_nil). simpl in A1.
  destruct (IH st1 a (with_unpinned area l)) as (st' & -> & Hi' & A' & F' & R'); [done| |done|].
  { rewrite A1. apply lookup_insert_eq. }
  exists st'. split; [done|]. split; [done|]. split; [|split; [congruence|]].
  - rewrite A', A1, insert_insert_eq. done.
  - intros r' y. rewrite R', R1, lookup_delete_Some. split; [tauto|].
    intros [Ey Hne]. split; [split; [|done]|done]. intros ->. congruence.
Qed.

(** [fput] of a file no area uses. *)
Lemma files_ok_fput ars fs f n :
  files_ok ars fs -> fs !! f = Some n ->
  (forall a area, ars !! a = Some area -> file area <> Some f) ->
  files_ok ars (if bool_decide (n - 1 = 0) then delete f fs else <[f := n - 1]> fs).
Proof.
  intros [H1 H2] Ef Hn. split; [|done]. intros a area f' Ea Efile.
  destruct (H1 a area f' Ea Efile) as (k & Ek & Hk).
  assert (f <> f') by (intros ->; by apply (Hn a area)).
  exists k. case_bd; by rewrite ?lookup_delete_ne, ?lookup_insert_ne.
Qed.

Lemma links_delete ars m a :
  links ars m -> (forall r x, m !! r = Some x -> asma x <> a) -> links (delete a ars) m.
Proof.
  intros [Ha Hr] Hn. split.
  - intros b x [_ Ex]%lookup_delete_Some. by apply Ha.
  - intros r x Ex. destruct (Hr r x Ex) as (area & Ea & ?). exists area.
    rewrite lookup_delete_ne; [done|]. intros E. by eapply (Hn r x).
Qed.

Lemma files_ok_delete ars fs a : files_ok ars fs -> files_ok (delete a ars) fs.
Proof.
  intros [H1 H2]. split.
  - intros b x f [_ Ex]%lookup_delete_Some. by apply (H1 b x).
  - intros a1 a2 x1 x2 f [_ E1]%lookup_delete_Some [_ E2]%lookup_delete_Some. by eapply H2.
Qed.

(** Closing drops every range of the area, and the area. *)
Lemma ashmem_release_ok st a area :
  inv st -> areas st !! a = Some area ->
  exists st', ashmem_release st a = Some st' /\ inv st' /\
    areas st' = delete a (areas st) /\
    (forall r x, ranges st' !! r = Some x <-> ranges st !! r = Some x /\ asma x <> a).
Proof.
  intros Hi Ea. unfold ashmem_release. rewrite Ea. simpl.
  destruct (release_loop_ok (unpinned_list area) st a area) as (st1 & -> & [Hl Hu Hf] & A1 & F1 & R1);
    [done..|]. simpl.
  assert (Hl' : links (delete a (areas st1)) (ranges st1))
    by (apply links_delete; [done|]; by intros r x [_ ?]%R1).
  assert (Hd : delete a (areas st1) = delete a (areas st)) by (by rewrite A1, delete_insert_eq).
  destruct (file area) as [f|] eqn:Ef; simpl.
  2: { eexists. split; [done|]. split; [split; simpl; [done..|by apply files_ok_delete]|]. done. }
  unfold fput. destruct (proj1 Hf a (with_unpinned area []) f) as (n & En & Hn).
  { rewrite A1. apply lookup_insert_eq. } { done. }
  rewrite En. simpl. eexists. split; [done|]. split; [|done]. split; simpl; [done..|].
  apply files_ok_fput; [by apply files_ok_delete|done|].
  intros b x [Hne Ex]%lookup_delete_Some Hx. apply Hne.
  eapply (proj2 Hf a b (with_unpinned area []) x f); try done. rewrite A1. apply lookup_insert_eq.
Qed.

(** ** Mapping *)

Lemma files_ok_ref ars fs f n k :
  files_ok ars fs -> fs !! f = Some n -> n <= k -> files_ok ars (<[f := k]> fs).
Proof.
  intros [H1 H2] Ef Hk. split; [|done]. intros a area f' Ea Efile.
  destruct (H1 a area f' Ea Efile) as (j & Ej & Hj). rewrite lookup_insert. case_decide.
  - subst. exists k. split; [done|]. rewrite Ef in Ej. injection Ej as <-. lia.
  - by exists j.
Qed.

Lemma files_ok_new ars fs a area f :
  files_ok ars fs -> ars !! a = Some area -> fs !! f = None ->
  files_ok (<[a := mk_area (name area) (unpinned_list area) (Some f) (size area) (prot_mask area)]> ars)
    (<[f := 1]> fs).
Proof.
  intros [H1 H2] Ea Ef. split.
  - intros b x f'. rewrite !lookup_insert_Some. intros [[<- <-]|[Hne Ex]] Hx; simpl in *.
    + simplify_eq. exists 1. by rewrite lookup_insert_eq.
    + destruct (H1 b x f' Ex Hx) as (k & Ek & Hk). exists k.
      rewrite lookup_insert_ne; [done|congruence].
  - intros a1 a2 x1 x2 f'. rewrite !lookup_insert_Some.
    intros [[<- <-]|[_ E1]] [[<- <-]|[_ E2]]; simpl; intros F1 F2; simplify_eq; try done.
    + destruct (H1 _ _ _ E2 F2) as (? & ? & _). congruence.
    + destruct (H1 _ _ _ E1 F1) as (? & ? & _). congruence.
    + by eapply H2.
Qed.

(** The file of the mapping is the device file: it is open and backs no
    area. *)
Definition vma_ok (st : state) (v : vma) : Prop :=
  forall old, vm_file v = Some old ->
    (exists n, files st !! old = Some n) /\
    (forall b x, areas st !! b = Some x -> file x <> Some old).

(** [shmem_file_setup] returns a new file or a negative error. *)
Definition setup_ok (st : state) (setup : fid + Z) : Prop :=
  match setup with inl f => files st !! f = None | inr err => err < 0 end.

Lemma ashmem_mmap_ok st a area v setup :
  inv st -> areas st !! a = Some area -> 0 <= size area <= two32 - PAGE_SIZE ->
  vma_ok st v -> setup_ok st setup ->
  exists st' v' ret, ashmem_mmap st a v setup = Some (st', v', ret) /\ inv st' /\
    ranges st' = ranges st /\
    (areas st' = areas st \/ exists f, file area = None /\
       areas st' = <[a := mk_area (name area) (unpinned_list area) (Some f) (size area) (prot_mask area)]>
                     (areas st)) /\
    (ret = 0 -> size area <> 0 /\
       Z.land (Z.land (vm_flags v) (Z.lnot (prot_mask area))) PROT_MASK = 0 /\
       exists x, areas st' !! a = Some x /\ file x = vm_file v' /\ is_Some (file x)) .
Proof.
  intros [Hl Hu Hf] Ea Hsz Hv Hset. unfold ashmem_mmap. rewrite Ea. simpl.
  case_bd as Hz.
  { eexists _, _, _. split; [done|]. split; [by split|]. split; [done|]. split; [by left|done]. }
  case_bd as Hperm.
  { eexists _, _, _. split; [done|]. split; [by split|]. split; [done|]. split; [by left|done]. }
  assert (Hp : Z.land (Z.land (vm_flags v) (Z.lnot (prot_mask area))) PROT_MASK = 0) by lia.
  assert (Hput : forall ars fs, files_ok ars fs ->
    (forall old, vm_file v = Some old -> is_Some (fs !! old) /\
       forall b x, ars !! b = Some x -> file x <> Some old) ->
    exists fs', (match vm_file v with
           | Some old => fput (mk_state ars (ranges st) (ashmem_lru_list st) (lru_count st) fs) old
           | None => Some (mk_state ars (ranges st) (ashmem_lru_list st) (lru_count st) fs)
           end) = Some (mk_state ars (ranges st) (ashmem_lru_list st) (lru_count st) fs') /\
      files_ok ars fs').
  { intros ars fs Hfs Hold. destruct (vm_file v) as [old|]; [|by eexists].
    destruct (Hold old eq_refl) as [[n En] Hn]. unfold fput. simpl. rewrite En. simpl.
    eexists. split; [done|]. by apply files_ok_fput. }
  destruct (file area) as [f|] eqn:Ef.
  - unfold get_file. destruct (proj1 Hf a area f Ea Ef) as (n & En & Hn). rewrite En. simpl.
    destruct (Hput (areas st) (<[f := n + 1]> (files st))) as (fs' & Efs & Hfs').
    { eapply files_ok_ref; [done..|lia]. }
    { intros old Eo. destruct (Hv old Eo) as [[k Ek] Hb]. split; [|done].
      rewrite lookup_insert_ne; [by eexists|]. intros ->. by eapply Hb. }
    unfold set_files. rewrite Efs. simpl. eexists _, _, _. split; [done|]. split; [by split|].
    split; [done|]. split; [by left|]. intros _. split; [done|]. split; [done|].
    exists area. by rewrite Ef.
  - destruct setup as [f|err].
    2: { simpl in Hset. eexists _, _, _. split; [done|]. split; [by split|]. split; [done|].
         split; [by left|]. intros E. lia. }
    simpl in Hset. unfold get_file. simpl. rewrite lookup_insert_eq. simpl.
    set (area' := mk_area (name area) (unpinned_list area) (Some f) (size area) (prot_mask area)).
    pose proof (files_ok_new _ _ a area f Hf Ea Hset) as Hnew. fold area' in Hnew.
    destruct (Hput (<[a := area']> (areas st)) (<[f := 1 + 1]> (<[f := 1]> (files st)))) as (fs' & Efs & Hfs').
    { eapply files_ok_ref; [done|apply lookup_insert_eq|lia]. }
    { intros old Eo. destruct (Hv old Eo) as [[k Ek] Hb].
      assert (f <> old) by congruence. split; [rewrite !lookup_insert_ne by done; by eexists|].
      intros b x. rewrite lookup_insert_Some. intros [[<- <-]|[_ Ex]]; [simpl; congruence|by eapply Hb]. }
    unfold set_files, set_area. simpl. rewrite Efs. simpl. eexists _, _, _. split; [done|].
    split; [split; simpl; [|done..]|].
    { eapply links_area; [done..|]. pose proof (li_area _ _ Hl a area Ea) as [? Hr ? Hfi Hzz].
      split; try done. simpl. lia. }
    split; [done|]. split; [right; by exists f|]. intros _. split; [done|]. split; [done|].
    exists area'. simpl. rewrite lookup_insert_eq. done.
Qed.

(** ** Shrinking *)

Definition mark_purged (x : ashmem_range) : ashmem_range :=
  mk_range (asma x) (pgstart x) (pgend x) ASHMEM_WAS_PURGED.

(** The bytes dropped for the range [r]. *)
Definition truncates (st : state) (r : rid) (t : truncation) : Prop :=
  exists x area f, ranges st !! r = Some x /\ areas st !! asma x = Some area /\
    file area = Some f /\
    t = mk_trunc f (pgstart x * PAGE_SIZE) ((pgend x + 1) * PAGE_SIZE - 1).

Lemma purge_ok st r x :
  inv st -> ranges st !! r = Some x -> purged x = ASHMEM_NOT_PURGED ->
  inv (lru_del (set_range st r (mark_purged x)) r (mark_purged x)).
Proof.
  intros Hi Er Hp. destruct (inv_range st r x Hi Er) as (area & _ & _ & Hst & Hen & _).
  destruct Hi as [Hl Hu Hf]. split; simpl; [|by apply (lru_ok_purge _ _ _ r x)|done].
  eapply links_update; try done; simpl; [lia..|by right].
Qed.

(** A range of an area that is mapped: no word wraps. *)
Lemma range_words st r x :
  inv st -> ranges st !! r = Some x ->
  exists area f, areas st !! asma x = Some area /\ file area = Some f /\
    range_size x = pages_of x /\ 0 <= pages_of x <= two32 / PAGE_SIZE /\
    pgstart x *u PAGE_SIZE = pgstart x * PAGE_SIZE /\
    (pgend x +u 1) *u PAGE_SIZE -u 1 = (pgend x + 1) * PAGE_SIZE - 1.
Proof.
  intros Hi Er. destruct (inv_range st r x Hi Er) as (area & Ea & Hin & Hst & Hen & _).
  pose proof (li_area _ _ (inv_links _ Hi) _ _ Ea) as [_ _ _ Hfi Hz].
  destruct Hfi as [f Ef]; [intros E; rewrite E in Hin; by apply not_elem_of_nil in Hin|].
  destruct (npages_size area) as (_ & ? & ?); [apply Hz; by eexists|].
  assert (npages area < 1048576) by (unfold two32, PAGE_SIZE in *; specialize (Hz ltac:(by eexists)); lia).
  exists area, f. rewrite range_size_u32. unfold pages_of, PAGE_SIZE, two32 in *.
  split; [done|]. split; [done|].
  split; [apply u32_small; unfold two32; lia|]. split; [change (4294967296 / 4096) with 1048576; lia|].
  split; [apply u32_small; unfold two32; lia|].
  rewrite (u32_small (pgend x + 1)) by (unfold two32; lia).
  rewrite (u32_small ((pgend x + 1) * 4096)) by (unfold two32; lia).
  apply u32_small; unfold two32; lia.
Qed.

Lemma elem_of_take_in {A} (x : A) k l : x ∈ take k l -> x ∈ l.
Proof. intros (i & Hi & _)%elem_of_take. by eapply list_elem_of_lookup_2. Qed.

Lemma Forall2_impl_in {A B} (P Q : A -> B -> Prop) l k :
  Forall2 P l k -> (forall x y, x ∈ l -> y ∈ k -> P x y -> Q x y) -> Forall2 Q l k.
Proof.
  induction 1 as [|x y l k Hxy _ IH]; intros HPQ; constructor.
  - apply HPQ; [by left..|done].
  - apply IH. intros x' y' ??. apply HPQ; by right.
Qed.

(** The shrinker purges ranges from the head of the LRU list until it has
    dropped [nr] pages or the list is empty, and no range more. *)
Record shrunk (st : state) (nr : Z) (st' : state) (ts : list truncation) (k : nat) : Prop := {
  sh_inv : inv st';
  sh_areas : areas st' = areas st;
  sh_files : files st' = files st;
  sh_lru : ashmem_lru_list st' = drop k (ashmem_lru_list st);
  sh_ranges : forall r, ranges st' !! r =
    if decide (r ∈ take k (ashmem_lru_list st)) then mark_purged <$> ranges st !! r else ranges st !! r;
  sh_trunc : Forall2 (truncates st) (take k (ashmem_lru_list st)) ts;
  sh_enough : 0 < nr < two31 -> k = length (ashmem_lru_list st) \/
    nr <= lru_pages (ranges st) (take k (ashmem_lru_list st));
  sh_least : 0 < nr < two31 -> forall j, (0 < j < k)%nat ->
    lru_pages (ranges st) (take j (ashmem_lru_list st)) < nr
}.

Lemma shrink_loop_ok l : forall st nr,
  inv st -> ashmem_lru_list st = l ->
  exists st' ts k, shrink_loop st l nr = Some (st', ts) /\ shrunk st nr st' ts k.
Proof.
  induction l as [|r l IH]; intros st nr Hi El; simpl.
  { exists st, [], 0%nat. split; [done|]. split; rewrite ?El; try done; [by left|intros _; lia]. }
  pose proof (inv_lru _ Hi) as [Hnd He _]. rewrite El in Hnd, He.
  destruct (proj1 (He r)) as (x & Er & Hp); [by left|].
  apply NoDup_cons in Hnd as [Hrl Hnd].
  destruct (range_words st r x Hi Er) as (area & f & Ea & Ef & Hsz & Hpg & W1 & W2).
  rewrite Er. simpl. rewrite Ea. simpl. rewrite Ef. simpl. rewrite W1, W2.
  change (mk_range (asma x) (pgstart x) (pgend x) ASHMEM_WAS_PURGED) with (mark_purged x).
  change (range_size (mark_purged x)) with (range_size x). rewrite Hsz.
  change (two32 / PAGE_SIZE) with 1048576 in Hpg.
  assert (Hnr' : 0 < nr < two31 -> s32 (nr - pages_of x) = nr - pages_of x)
    by (intros; apply s32_small; unfold two31 in *; lia).
  pose proof (purge_ok st r x Hi Er Hp) as Hi1. set (st1 := lru_del _ _ _) in *.
  assert (L1 : ashmem_lru_list st1 = l).
  { simpl. rewrite El. change (r :: l) with ([] ++ r :: l).
    by rewrite list_del_split by (done || apply not_elem_of_nil). }
  assert (R1 : ranges st1 = <[r := mark_purged x]> (ranges st)) by done.
  assert (Ht : truncates st r (mk_trunc f (pgstart x * PAGE_SIZE) ((pgend x + 1) * PAGE_SIZE - 1)))
    by (by exists x, area, f).
  case_bd as Hstop.
  { eexists st1, _, 1%nat. split; [done|]. split; rewrite ?El; simpl; rewrite ?take_0; try done.
    - intros r'. rewrite lookup_insert. case_decide as Hd.
      + subst. rewrite decide_True by (by apply list_elem_of_singleton). by rewrite Er.
      + rewrite decide_False; [done|]. rewrite list_elem_of_singleton. congruence.
    - by constructor.
    - intros Hnr. right. simpl. rewrite Er. rewrite Hnr' in Hstop by done. lia.
    - intros _. lia. }
  destruct (IH st1 (s32 (nr - pages_of x))) as (st' & ts & k & -> & Hs); [done..|].
  simpl. eexists _, _, (S k). split; [done|]. destruct Hs as [Hi' A' F' L' R' T' En Le].
  rewrite L1 in *.
  assert (Hag : forall j, lru_pages (ranges st1) (take j l) = lru_pages (ranges st) (take j l)).
  { intros j. apply (lru_pages_agree (ranges st) (ranges st1)). intros r' Hin.
    rewrite R1, lookup_insert_ne; [done|]. intros <-. apply Hrl. by eapply elem_of_take_in. }
  split; rewrite ?El; simpl; try done.
  - intros r'. rewrite R', R1. destruct (decide (r' = r)) as [->|Hne].
    + rewrite lookup_insert_eq, Er, decide_False, decide_True; [done|by left|].
      intros Hin. apply Hrl. by eapply elem_of_take_in.
    + rewrite lookup_insert_ne by done. rewrite !(decide_ext (r' ∈ r :: take k l) (r' ∈ take k l)); [done|].
      rewrite elem_of_cons. tauto.
  - constructor; [done|]. eapply Forall2_impl_in; [done|].
    intros r' t Hin _ (y & ar & g & Ey & Eya & Eg & ->). exists y, ar, g.
    rewrite R1, lookup_insert_ne in Ey; [done|]. intros <-. apply Hrl. by eapply elem_of_take_in.
  - intros Hnr. rewrite Hnr' in * by done. rewrite Er, <- Hag.
    destruct En as [->|En]; [unfold two31 in *; lia|by left|]. right. lia.
  - intros Hnr. rewrite Hnr' in * by done.
    intros [|[|j]] Hj; [lia|simpl; rewrite Er; simpl; lia|].
    simpl. rewrite Er, <- Hag. specialize (Le ltac:(unfold two31 in *; lia) (S j) ltac:(lia)). lia.
Qed.

End AshmemSpec.
