(* ===== verification/AshmemTop.v ===== *)
(** * Anonymous shared memory: the driver as a whole

    The driver as a state machine, its invariant on every reachable state,
    and the contracts of pin, unpin, pin status, shrink and the names. *)

From Stdlib Require Import ZArith Lia Strings.Byte.
From stdpp Require Import base option gmap sorting list_numbers list.
From S2P Require Import Prelude Ashmem AshmemInv AshmemPin AshmemSpec.

Local Open Scope Z_scope.
Local Open Scope kernel_scope.

Module AshmemTop.
Import Ashmem AshmemInv AshmemPin AshmemSpec.

#[local] Arguments ashmem_shrink : simpl never.

(** ** Names *)

(** The bytes up to the terminator. *)
Fixpoint cstr (l : list byte) : list byte :=
  match l with
  | [] => []
  | b :: l => if bool_decide (b = x00) then [] else b :: cstr l
  end.

Lemma strlen_ok l :
  x00 ∈ l -> exists n, strlen l = Some n /\ 0 <= n < Z.of_nat (length l) /\
    take (Z.to_nat (n + 1)) l = cstr l ++ [x00].
Proof.
  induction l as [|b l IH]; intros Hin; [by apply not_elem_of_nil in Hin|]. simpl.
  case_bd as Hb.
  - exists 0. subst. split; [done|]. split; [lia|done].
  - apply elem_of_cons in Hin as [?|Hin]; [congruence|].
    destruct (IH Hin) as (n & -> & Hn & Et). exists (n + 1). simpl. split; [done|]. split; [lia|].
    replace (Z.to_nat (n + 1 + 1)) with (S (Z.to_nat (n + 1))) by lia. simpl. by rewrite Et.
Qed.

(** The buffer holds the prefix and ends in a terminator. *)
Definition name_ok (n : list byte) : Prop :=
  exists body, n = ASHMEM_NAME_PREFIX ++ body ++ [x00] /\ length body = 255%nat.

Lemma set_name_bytes n bytes :
  name_ok n -> length bytes = 256%nat ->
  exists n1, memcpy_to n ASHMEM_NAME_PREFIX_LEN bytes = Some n1 /\
    memcpy_to n1 (ASHMEM_FULL_NAME_LEN - 1) [x00] =
      Some (ASHMEM_NAME_PREFIX ++ take 255 bytes ++ [x00]).
Proof.
  intros (body & -> & Hb) Hl.
  destruct (lookup_lt_is_Some_2 bytes 255) as [last Elast]; [lia|].
  assert (Hbytes : bytes = take 255 bytes ++ [last]).
  { rewrite <- (take_drop 255 bytes) at 1. f_equal. apply drop_S in Elast. rewrite Elast. f_equal.
    apply drop_ge. lia. }
  exists (ASHMEM_NAME_PREFIX ++ bytes). split.
  - rewrite memcpy_to_ok; [|done|rewrite !length_app, Hb, Hl; simpl; unfold ASHMEM_NAME_PREFIX_LEN; lia].
    f_equal. change (Z.to_nat ASHMEM_NAME_PREFIX_LEN) with (length ASHMEM_NAME_PREFIX + 0)%nat.
    rewrite list_inserts_app_r. f_equal. rewrite <- (app_nil_r (body ++ [x00])).
    rewrite list_inserts_0_r; [by rewrite app_nil_r|]. rewrite length_app. simpl. lia.
  - rewrite memcpy_to_ok; [|done|rewrite !length_app, Hl; simpl; unfold ASHMEM_FULL_NAME_LEN, ASHMEM_NAME_LEN, ASHMEM_NAME_PREFIX_LEN; lia].
    f_equal. change (Z.to_nat (ASHMEM_FULL_NAME_LEN - 1)) with (length ASHMEM_NAME_PREFIX + 255)%nat.
    rewrite list_inserts_app_r. f_equal. rewrite Hbytes at 1.
    replace 255%nat with (length (take 255 bytes) + 0)%nat at 1 by (rewrite length_take; lia).
    by rewrite list_inserts_app_r.
Qed.

(** What the user reads back from a name buffer. *)
Definition shown (body : list byte) : list byte :=
  if bool_decide (cstr body = []) then ASHMEM_NAME_DEF else cstr body ++ [x00].

Lemma cstr_snoc body : cstr (body ++ [x00]) = cstr body.
Proof. induction body as [|b l IH]; simpl; [done|]. case_bd; [done|]. by rewrite IH. Qed.

Lemma get_name_bytes st a area body fault :
  areas st !! a = Some area -> name area = ASHMEM_NAME_PREFIX ++ body ++ [x00] ->
  get_name st a fault = Some (shown body, if fault then - EFAULT else 0).
Proof.
  intros Ea En. unfold get_name. rewrite Ea. simpl. rewrite En.
  unfold shown. rewrite <- (cstr_snoc body).
  assert (Hpre : Z.of_nat (length ASHMEM_NAME_PREFIX) = ASHMEM_NAME_PREFIX_LEN) by done.
  generalize dependent ASHMEM_NAME_PREFIX. intros pre _ Hpre.
  replace (Z.to_nat ASHMEM_NAME_PREFIX_LEN) with (length pre + 0)%nat by lia.
  rewrite lookup_app_r by lia. rewrite Nat.add_sub_swap, Nat.sub_diag by done.
  rewrite <- drop_drop, drop_app_length.
  destruct (body ++ [x00]) as [|b l] eqn:Ebl; [by destruct body|]. simpl.
  destruct (decide (b = x00)) as [->|Hb]; [done|].
  rewrite (bool_decide_eq_true_2 (b <> x00)), (bool_decide_eq_false_2 (b = x00)) by done.
  destruct (strlen_ok (b :: l)) as (n & En' & Hn & Et).
  { rewrite <- Ebl. apply elem_of_app. right. by left. }
  simpl in En'. rewrite bool_decide_eq_false_2 in En' by done. rewrite En'. simpl.
  rewrite memcpy_from_ok; [|done|lia|rewrite length_app; simpl in *; lia].
  replace (Z.to_nat ASHMEM_NAME_PREFIX_LEN) with (length pre) by lia.
  rewrite drop_app_length, Et. simpl. by rewrite bool_decide_eq_false_2.
Qed.

(** ** The driver as a state machine *)

Record wf (st : state) : Prop := {
  wf_inv : inv st;
  wf_area : forall a area, areas st !! a = Some area ->
    name_ok (name area) /\ 0 <= size area < two32
}.

Definition init : state := mk_state ∅ ∅ [] 0 ∅.

(** What reaches the driver; [OpFile] is the file system opening a device
    file, which a mapping then refers to. *)
Inductive op :=
  | OpOpen (nonseekable : Z) (alloc : option aid)
  | OpRelease (a : aid)
  | OpMmap (a : aid) (v : vma) (setup : fid + Z)
  | OpIoctl (a : aid) (cmd : ioctl_cmd)
  | OpShrink (nr gfp_mask : Z)
  | OpFile (f : fid) (refs : Z).

Definition exec (st : state) (o : op) : option state :=
  match o with
  | OpOpen n alloc => Some (fst (ashmem_open st n alloc))
  | OpRelease a => ashmem_release st a
  | OpMmap a v setup => '(st, _, _) ← ashmem_mmap st a v setup; Some st
  | OpIoctl a cmd => '(st, _, _, _) ← ashmem_ioctl st a cmd; Some st
  | OpShrink nr gfp => '(st, _, _) ← ashmem_shrink st nr gfp; Some st
  | OpFile f n => Some (set_files st (<[f := n]> (files st)))
  end.

Definition cmd_ok (st : state) (cmd : ioctl_cmd) : Prop :=
  match cmd with
  | ASHMEM_SET_NAME bytes _ => length bytes = 256%nat
  | ASHMEM_PIN_CMD _ user alloc =>
      fresh st alloc /\ forall pin, user = Some pin -> word (offset pin) /\ word (len pin)
  | _ => True
  end.

(** What the callers guarantee: the area is open, allocators return unused
    objects, arguments are words.  The bound on the size of a mapped area is
    not checked by the driver: see [page_align_wraps] below. *)
Definition valid (st : state) (o : op) : Prop :=
  match o with
  | OpOpen _ alloc => forall a, alloc = Some a -> areas st !! a = None
  | OpRelease a => is_Some (areas st !! a)
  | OpMmap a v setup =>
      (exists area, areas st !! a = Some area /\ size area <= two32 - PAGE_SIZE) /\
      vma_ok st v /\ setup_ok st setup
  | OpIoctl a cmd => is_Some (areas st !! a) /\ cmd_ok st cmd
  | OpShrink _ _ => True
  | OpFile f n => files st !! f = None /\ 1 <= n
  end.

Inductive reachable : state -> Prop :=
  | reach_init : reachable init
  | reach_step st o st' :
      reachable st -> valid st o -> exec st o = Some st' -> reachable st'.

(** *** Every operation keeps the invariant and returns *)

Lemma wf_area_change st a area area' :
  wf st -> areas st !! a = Some area -> unpinned_list area' = unpinned_list area ->
  file area' = file area -> size area' = size area \/ file area = None ->
  name_ok (name area') -> 0 <= size area' < two32 -> wf (set_area st a area').
Proof.
  intros [Hi Ha] Ea El Ef Hs Hn Hz. split; [by eapply inv_set_area|].
  intros b x. simpl. rewrite lookup_insert_Some. intros [[<- <-]|[_ Ex]]; [done|by eapply Ha].
Qed.

Lemma wf_frame st st' a : wf st -> inv st' -> is_Some (areas st !! a) -> frame st st' a -> wf st'.
Proof.
  intros [_ Ha] Hi' [area Ea] [_ Ho Hfa]. split; [done|]. intros b x.
  destruct (decide (b = a)) as [->|Hne]; [|rewrite Ho by done; apply Ha].
  destruct (Hfa area Ea) as [l ->]. intros [= <-]. simpl. by eapply Ha.
Qed.

Lemma wf_open st n alloc :
  wf st -> valid st (OpOpen n alloc) -> wf (fst (ashmem_open st n alloc)).
Proof.
  intros [Hi Ha] Hv. unfold ashmem_open. case_bd; [by split|]. destruct alloc as [a|]; [|by split].
  simpl. split; [apply inv_open; [done|by apply Hv]|]. simpl. intros b x.
  rewrite lookup_insert_Some. intros [[<- <-]|[_ Ex]]; [|by eapply Ha]. split; [|by simpl].
  exists (replicate 255 x00). split; [|apply length_replicate].
  by rewrite <- (replicate_S_end 255 x00).
Qed.

Lemma wf_release st a area :
  wf st -> areas st !! a = Some area -> exists st', ashmem_release st a = Some st' /\ wf st'.
Proof.
  intros [Hi Ha] Ea. destruct (ashmem_release_ok st a area Hi Ea) as (st' & -> & Hi' & A & _).
  exists st'. split; [done|]. split; [done|]. rewrite A. intros b x [_ Ex]%lookup_delete_Some. by eapply Ha.
Qed.

Lemma wf_mmap st a v setup :
  wf st -> valid st (OpMmap a v setup) -> exists st', exec st (OpMmap a v setup) = Some st' /\ wf st'.
Proof.
  intros [Hi Ha] ((area & Ea & Hs) & Hv & Hset). destruct (Ha a area Ea) as [Hn Hz].
  destruct (ashmem_mmap_ok st a area v setup) as (st' & v' & ret & E & Hi' & _ & A & _);
    [done..|lia|done|done|]. simpl. rewrite E. simpl. eexists. split; [done|]. split; [done|].
  destruct A as [->|(f & _ & ->)]; [done|]. intros b x. rewrite lookup_insert_Some.
  intros [[<- <-]|[_ Ex]]; [done|by eapply Ha].
Qed.

Lemma ashmem_shrink_any st nr gfp :
  inv st -> exists st' ts ret k, ashmem_shrink st nr gfp = Some (st', ts, ret) /\ inv st' /\
    areas st' = areas st /\
    (nr <> 0 -> Z.land gfp __GFP_FS <> 0 -> shrunk st nr st' ts k /\ ret = s32 (lru_count st')).
Proof.
  intros Hi. unfold ashmem_shrink.
  destruct (decide (nr = 0)) as [->|Hnr].
  { rewrite (bool_decide_eq_false_2 (0 <> 0)) by tauto. simpl. eexists _, _, _, 0%nat. split; [done|].
    split; [done|]. split; [done|]. done. }
  rewrite (bool_decide_eq_true_2 (nr <> 0)) by done. simpl.
  case_bd as Hg; simpl.
  { eexists _, _, _, 0%nat. split; [done|]. done. }
  rewrite bool_decide_eq_false_2 by done.
  destruct (shrink_loop_ok (ashmem_lru_list st) st nr) as (st' & ts & k & -> & Hs); [done..|]. simpl.
  eexists _, _, _, k. split; [done|]. pose proof Hs as [? ? ? _ _ _ _ _]. done.
Qed.

Lemma wf_shrink st nr gfp :
  wf st -> exists st' ts ret, ashmem_shrink st nr gfp = Some (st', ts, ret) /\ wf st'.
Proof.
  intros [Hi Ha]. destruct (ashmem_shrink_any st nr gfp Hi) as (st' & ts & ret & k & -> & Hi' & A & _).
  eexists _, _, _. split; [done|]. split; [done|]. by rewrite A.
Qed.

Lemma wf_pin_unpin st a cmd user alloc :
  wf st -> is_Some (areas st !! a) -> cmd_ok st (ASHMEM_PIN_CMD cmd user alloc) ->
  exists st' r, ashmem_pin_unpin st a cmd user alloc = Some (st', r) /\ wf st'.
Proof.
  intros Hwf [area Ea] [Hfr Hu]. pose proof (wf_inv _ Hwf) as Hi. unfold ashmem_pin_unpin. rewrite Ea. simpl.
  destruct (pin_range area user) as [[s e]|err] eqn:Ep; [|by eexists _, _].
  assert (Hfile : is_Some (file area)) by (unfold pin_range in Ep; by destruct (file area)).
  assert (exists pin, user = Some pin) as [pin ->]
    by (unfold pin_range in Ep; destruct (file area), user; try done; by eexists).
  destruct (Hu pin eq_refl) as [Ho Hl].
  pose proof (ao_size _ _ _ (li_area _ _ (inv_links _ Hi) a area Ea) Hfile) as Hsz.
  destruct (pin_range_sound area pin s e Hsz Ho Hl Ep) as [Hreq _].
  destruct (requested_bounds area s e Hreq) as [Hse He].
  destruct cmd.
  - unfold ashmem_pin. rewrite Ea. simpl.
    destruct (pin_loop_ok a s e alloc Hse (unpinned_list area) st area [] ASHMEM_NOT_PURGED)
      as (st' & ret & -> & [? ? _ _ _ _]); try done; [by intros ?? ?%not_elem_of_nil|by left|].
    eexists _, _. split; [done|]. by eapply wf_frame.
  - unfold ashmem_unpin. rewrite Ea. simpl.
    destruct (unpin_loop_ok a alloc (length (unpinned_list area)) st area s e ASHMEM_NOT_PURGED (fun _ => False))
      as (st' & ret & -> & [? ? _ _ _ _]); try done; [by left|].
    eexists _, _. split; [done|]. by eapply wf_frame.
  - unfold ashmem_get_pin_status. rewrite Ea. simpl.
    destruct (pin_status_loop_ok st a area s e (unpinned_list area) []) as (ret & -> & _); try done.
    by eexists _, _.
Qed.

Lemma wf_ioctl st a cmd :
  wf st -> valid st (OpIoctl a cmd) -> exists st', exec st (OpIoctl a cmd) = Some st' /\ wf st'.
Proof.
  intros Hwf [[area Ea] Hcmd]. pose proof Hwf as [Hi Ha]. destruct (Ha a area Ea) as [Hn Hz].
  simpl. unfold ashmem_ioctl. rewrite Ea. simpl.
  destruct cmd as [bytes fault|fault|arg| |arg pers| |cmd user alloc|cap|]; simpl in Hcmd.
  - unfold set_name. rewrite Ea. simpl. destruct (file area) eqn:Ef; [by eexists|].
    destruct (set_name_bytes (name area) bytes Hn Hcmd) as (n1 & -> & E2). simpl. rewrite E2. simpl.
    eexists. split; [done|]. eapply wf_area_change; try done; [by left|].
    exists (take 255 bytes). split; [done|]. rewrite length_take. lia.
  - destruct Hn as (body & Eb & _). rewrite (get_name_bytes st a area body fault Ea Eb). by eexists.
  - destruct (file area) eqn:Ef; [by eexists|]. eexists. split; [done|].
    eapply wf_area_change; try done; [by right|apply u32_range].
  - by eexists.
  - unfold set_prot_mask. rewrite Ea. simpl. case_bd; [by eexists|]. simpl. eexists. split; [done|].
    eapply wf_area_change; try done. by left.
  - by eexists.
  - destruct (wf_pin_unpin st a cmd user alloc) as (st' & r & -> & ?); [done|by eexists|done|].
    simpl. by eexists.
  - destruct cap; [|by eexists].
    destruct (wf_shrink st (s32 (lru_count st)) GFP_KERNEL Hwf) as (st2 & ts2 & ret2 & -> & Hwf2). simpl. by eexists.
  - by eexists.
Qed.

Lemma wf_exec st o : wf st -> valid st o -> exists st', exec st o = Some st' /\ wf st'.
Proof.
  intros Hwf Hv. destruct o as [n alloc|a|a v setup|a cmd|nr gfp|f n].
  - eexists. split; [done|]. by apply wf_open.
  - destruct Hv as [area Ea]. by eapply wf_release.
  - by apply wf_mmap.
  - by apply wf_ioctl.
  - destruct (wf_shrink st nr gfp Hwf) as (st' & ts & ret & E & ?). simpl. rewrite E. by eexists.
  - destruct Hv as [Ef Hn]. destruct Hwf as [[Hl Hu [Hf1 Hf2]] Ha]. eexists. split; [done|].
    split; [split; simpl; [done..|split; [|done]]|done].
    intros b x g Ex Hg. destruct (Hf1 b x g Ex Hg) as (k & Ek & Hk). exists k.
    rewrite lookup_insert_ne; [done|congruence].
Qed.

Lemma wf_init : wf init.
Proof.
  split; [split; [split| |split]|]; try done.
  split; [constructor| |done]. intros r. split; [by intros ?%not_elem_of_nil|]. by intros (? & ? & _).
Qed.

Lemma reachable_wf st : reachable st -> wf st.
Proof.
  induction 1 as [|st o st' _ IH Hv E]; [apply wf_init|].
  destruct (wf_exec st o IH Hv) as (st'' & E' & ?). congruence.
Qed.

(** ** A reachable state

    An area of five pages, mapped: pages 0 and 1 were unpinned and then
    purged, pages 3 and 4 are unpinned. *)

Fixpoint run (st : state) (ops : list op) : option state :=
  match ops with
  | [] => Some st
  | o :: ops => st ← exec st o; run st ops
  end.

Definition demo_ops : list op :=
  [ OpOpen 0 (Some 0%nat);
    OpIoctl 0%nat (ASHMEM_SET_SIZE 20480);
    OpMmap 0%nat (mk_vma 3 None false) (inl 7%nat);
    OpIoctl 0%nat (ASHMEM_PIN_CMD UNPIN (Some (mk_pin 0 8192)) (Some 1%nat));
    OpShrink 1 GFP_KERNEL;
    OpIoctl 0%nat (ASHMEM_PIN_CMD UNPIN (Some (mk_pin 12288 8192)) (Some 2%nat)) ].

Definition demo : state := default init (run init demo_ops).

Definition demo_area : ashmem_area :=
  mk_area (ASHMEM_NAME_PREFIX ++ replicate 256 x00) [2; 1]%nat (Some 7%nat) 20480 7.

Lemma demo_lookup : areas demo !! 0%nat = Some demo_area.
Proof. vm_compute. reflexivity. Qed.

Lemma word_dec_true x : bool_decide (0 <= x) && bool_decide (x < two32) = true -> word x.
Proof. intros [?%bool_decide_eq_true ?%bool_decide_eq_true]%andb_true_iff. done. Qed.

Ltac solve_valid :=
  cbn [valid cmd_ok]; repeat match goal with
  | |- _ /\ _ => split
  | |- is_Some _ => eexists; vm_compute; reflexivity
  | |- exists area, _ /\ _ => eexists; split; [vm_compute; reflexivity|vm_compute; congruence]
  | |- fresh _ _ => intros ? [= <-]; vm_compute; reflexivity
  | |- vma_ok _ _ => intros ? ?; discriminate
  | |- setup_ok _ _ => vm_compute; reflexivity
  | |- forall pin, Some _ = Some pin -> _ => intros ? [= <-]
  | |- word _ => apply word_dec_true; vm_compute; reflexivity
  | |- True => exact I
  | |- _ !! _ = None => vm_compute; reflexivity
  end.

Lemma ashmem_demo_reachable : reachable demo.
Proof.
  eapply (reach_step (default init (run init (take 5 demo_ops)))
    (OpIoctl 0%nat (ASHMEM_PIN_CMD UNPIN (Some (mk_pin 12288 8192)) (Some 2%nat)))).
  eapply (reach_step (default init (run init (take 4 demo_ops))) (OpShrink 1 GFP_KERNEL)).
  eapply (reach_step (default init (run init (take 3 demo_ops)))
    (OpIoctl 0%nat (ASHMEM_PIN_CMD UNPIN (Some (mk_pin 0 8192)) (Some 1%nat)))).
  eapply (reach_step (default init (run init (take 2 demo_ops)))
    (OpMmap 0%nat (mk_vma 3 None false) (inl 7%nat))).
  eapply (reach_step (default init (run init (take 1 demo_ops))) (OpIoctl 0%nat (ASHMEM_SET_SIZE 20480))).
  eapply (reach_step init (OpOpen 0 (Some 0%nat))).
  apply reach_init.
  all: lazymatch goal with
       | |- valid _ _ => solve_valid
       | |- _ => vm_compute; reflexivity
       end.
Qed.

(** ** The properties *)

(** C2: in every reachable state, any operation the callers may
    issue runs to its end without touching a bad pointer and leaves the lists,
    the LRU page count, the file references and the name buffers consistent. *)
Theorem ashmem_safe st o :
  reachable st -> valid st o -> exists st', exec st o = Some st' /\ wf st'.
Proof. intros Hr. by apply wf_exec, reachable_wf. Qed.

Lemma ashmem_safe_witness :
  reachable demo /\ exists st', exec demo (OpRelease 0%nat) = Some st' /\ wf st'.
Proof.
  split; [exact ashmem_demo_reachable|].
  apply (ashmem_safe demo (OpRelease 0%nat)); [exact ashmem_demo_reachable|].
  exists demo_area. exact demo_lookup.
Defined.

(** C20: pinning pages [s] to [e] of an area always succeeds, removes
    exactly these pages from the unpinned ones (if the allocation for a split
    fails it may also pin others, never unpin one), touches no other area, and
    reports [ASHMEM_WAS_PURGED] whenever one of the pages was purged, and only
    then when no range is empty. *)
Theorem ashmem_pin_pages st a area s e alloc :
  reachable st -> areas st !! a = Some area -> requested area s e -> fresh st alloc ->
  exists st' ret, ashmem_pin st a s e alloc = Some (st', ret) /\ wf st' /\ frame st st' a /\
    (forall b p v, ppage st' b p v -> ppage st b p v /\ ~ (b = a /\ s <= p <= e)) /\
    (is_Some alloc -> forall b p v,
       ppage st b p v -> ~ (b = a /\ s <= p <= e) -> ppage st' b p v) /\
    (ret = ASHMEM_NOT_PURGED \/ ret = ASHMEM_WAS_PURGED) /\
    ((exists p, s <= p <= e /\ ppage st a p ASHMEM_WAS_PURGED) -> ret = ASHMEM_WAS_PURGED) /\
    (proper st a -> ret = ASHMEM_WAS_PURGED ->
       exists p, s <= p <= e /\ ppage st a p ASHMEM_WAS_PURGED).
Proof.
  intros Hr Ea Hreq Hfr. pose proof (reachable_wf st Hr) as Hwf. pose proof (wf_inv _ Hwf) as Hi.
  destruct (requested_bounds area s e Hreq) as [Hse He].
  unfold ashmem_pin. rewrite Ea. simpl.
  destruct (pin_loop_ok a s e alloc Hse (unpinned_list area) st area [] ASHMEM_NOT_PURGED)
    as (st' & ret & -> & [Hi' Hf' Hsub Hsup Hb Hret]); try done;
    [by intros ?? ?%not_elem_of_nil|by left|].
  exists st', ret. split; [done|]. split; [by eapply wf_frame|]. do 4 (split; [done|]).
  pose proof (area_ranges st a area (fun x => hit x s e /\ purged x = ASHMEM_WAS_PURGED) Hi Ea) as Har.
  destruct (hit_ppages st a area s e (fun v => v = ASHMEM_WAS_PURGED) Hi Ea Hreq) as [H1 H2].
  split.
  - intros (p & Hp & Hpp). apply Hret. right. apply Har, H1. by exists p, ASHMEM_WAS_PURGED.
  - intros Hpr Hw. apply Hret in Hw as [?|Hw]; [done|].
    apply Har, (H2 Hpr) in Hw as (p & v & ? & ? & ->). by exists p.
Qed.

Lemma ashmem_pin_pages_witness :
  requested demo_area 1 3 /\
  exists st' ret, ashmem_pin demo 0%nat 1 3 (Some 5%nat) = Some (st', ret) /\
    ppage st' 0%nat 0 ASHMEM_WAS_PURGED /\ ~ unpinned st' 0%nat 1 /\ ret = ASHMEM_WAS_PURGED.
Proof.
  assert (Hreq : requested demo_area 1 3)
    by (unfold requested; change (npages demo_area) with 5; lia).
  split; [done|].
  destruct (ashmem_pin_pages demo 0%nat demo_area 1 3 (Some 5%nat) ashmem_demo_reachable demo_lookup Hreq)
    as (st' & ret & E & _ & _ & Hsub & Hsup & _ & Hw & _);
    [intros ? [= <-]; vm_compute; reflexivity|].
  assert (Hpp : forall p, 0 <= p <= 1 -> ppage demo 0%nat p ASHMEM_WAS_PURGED).
  { intros p Hp. exists 1%nat, (mk_range 0%nat 0 1 1). split; [vm_compute; reflexivity|].
    split; [done|]. split; [simpl; lia|done]. }
  exists st', ret. split; [done|]. split; [|split].
  - apply Hsup; [by eexists|apply Hpp; lia|lia].
  - intros [v Hv]. apply Hsub in Hv as [_ []]. lia.
  - apply Hw. exists 1. split; [lia|apply Hpp; lia].
Defined.

(** Unpinning terminates with as many restarts as the area has
    ranges; it adds exactly the requested pages to the unpinned ones, keeps
    the record of every page purged before, and fails only when a range
    cannot be allocated, in which case no page becomes unpinned. *)
Theorem ashmem_unpin_pages st a area s e alloc :
  reachable st -> areas st !! a = Some area -> is_Some (file area) ->
  requested area s e -> fresh st alloc ->
  exists st' ret, ashmem_unpin st a s e alloc = Some (st', ret) /\ wf st' /\ frame st st' a /\
    (ret = 0 \/ (ret = - ENOMEM /\ alloc = None)) /\
    (ret = 0 -> forall b p, unpinned st' b p <-> unpinned st b p \/ (b = a /\ s <= p <= e)) /\
    (ret = 0 -> forall b p, ppage st b p ASHMEM_WAS_PURGED -> ppage st' b p ASHMEM_WAS_PURGED) /\
    (forall b p, unpinned st' b p -> unpinned st b p \/ (b = a /\ s <= p <= e)).
Proof.
  intros Hr Ea Hfile Hreq Hfr. pose proof (reachable_wf st Hr) as Hwf. pose proof (wf_inv _ Hwf) as Hi.
  destruct (requested_bounds area s e Hreq) as [Hse He].
  unfold ashmem_unpin. rewrite Ea. simpl.
  destruct (unpin_loop_ok a alloc (length (unpinned_list area)) st area s e ASHMEM_NOT_PURGED (fun _ => False))
    as (st' & ret & -> & [Hi' Hf' Hsub Hret Hsup Hpur]); try done; [by left|].
  exists st', ret. split; [done|]. split; [by eapply wf_frame|]. split; [done|]. split; [done|].
  split; [|split; [|done]].
  - intros H0 b p. split; [apply Hsub|by apply Hsup].
  - intros H0 b p Hp. apply (Hpur H0). by left.
Qed.

Lemma ashmem_unpin_pages_witness :
  is_Some (file demo_area) /\ requested demo_area 1 3 /\
  exists st' ret, ashmem_unpin demo 0%nat 1 3 (Some 5%nat) = Some (st', ret) /\
    (ret = 0 \/ (ret = - ENOMEM /\ Some 5%nat = None)) /\
    (ret = 0 -> unpinned st' 0%nat 2 /\ ppage st' 0%nat 0 ASHMEM_WAS_PURGED).
Proof.
  assert (Hreq : requested demo_area 1 3)
    by (unfold requested; change (npages demo_area) with 5; lia).
  assert (Hf : is_Some (file demo_area)) by (by eexists).
  split; [done|]. split; [done|].
  destruct (ashmem_unpin_pages demo 0%nat demo_area 1 3 (Some 5%nat) ashmem_demo_reachable demo_lookup Hf Hreq)
    as (st' & ret & E & _ & _ & Hret & Hiff & Hp & _);
    [intros ? [= <-]; vm_compute; reflexivity|].
  exists st', ret. split; [done|]. split; [done|]. intros H0. split.
  - apply (Hiff H0). right. split; [done|lia].
  - apply (Hp H0). exists 1%nat, (mk_range 0%nat 0 1 1). split; [vm_compute; reflexivity|].
    split; [done|]. split; [simpl; lia|done].
Defined.

(** The pin status of a range of pages is [ASHMEM_IS_UNPINNED]
    when one of them is unpinned, and, when no range is empty, only then. *)
Theorem ashmem_pin_status_correct st a area s e :
  reachable st -> areas st !! a = Some area -> requested area s e ->
  exists ret, ashmem_get_pin_status st a s e = Some ret /\
    (ret = ASHMEM_IS_PINNED \/ ret = ASHMEM_IS_UNPINNED) /\
    ((exists p, s <= p <= e /\ unpinned st a p) -> ret = ASHMEM_IS_UNPINNED) /\
    (proper st a -> ret = ASHMEM_IS_UNPINNED -> exists p, s <= p <= e /\ unpinned st a p).
Proof.
  intros Hr Ea Hreq. pose proof (wf_inv _ (reachable_wf st Hr)) as Hi.
  unfold ashmem_get_pin_status. rewrite Ea. simpl.
  destruct (pin_status_loop_ok st a area s e (unpinned_list area) []) as (ret & -> & Hb & Hret); try done.
  exists ret. split; [done|]. split; [done|].
  pose proof (area_ranges st a area (fun x => hit x s e) Hi Ea) as Har.
  destruct (hit_ppages st a area s e (fun _ => True) Hi Ea Hreq) as [H1 H2]. split.
  - intros (p & Hp & v & Hv). apply Hret, Har.
    destruct H1 as (r & x & ? & ? & ? & _); [by exists p, v|]. by exists r, x.
  - intros Hpr Hu. apply Hret, Har in Hu as (r & x & ? & ? & ?).
    destruct (H2 Hpr) as (p & v & ? & ? & _); [by exists r, x|]. exists p. split; [done|]. by exists v.
Qed.

Lemma ashmem_pin_status_correct_witness :
  requested demo_area 2 2 /\
  exists ret, ashmem_get_pin_status demo 0%nat 2 2 = Some ret /\
    (ret = ASHMEM_IS_PINNED \/ ret = ASHMEM_IS_UNPINNED).
Proof.
  assert (Hreq : requested demo_area 2 2)
    by (unfold requested; change (npages demo_area) with 5; lia).
  split; [done|].
  destruct (ashmem_pin_status_correct demo 0%nat demo_area 2 2 ashmem_demo_reachable demo_lookup Hreq)
    as (ret & ? & ? & _). by exists ret.
Defined.

(** The checks of [ashmem_pin_unpin] let through exactly the
    page-aligned requests inside the area, in 32-bit arithmetic, and translate
    them to the right pages (a length of zero means up to the end). *)
Theorem ashmem_pin_range_exact area pin s e :
  is_Some (file area) -> 0 < size area <= two32 - PAGE_SIZE ->
  word (offset pin) -> word (len pin) ->
  pin_range area (Some pin) = inl (s, e) <-> requested area s e /\ asks area pin s e.
Proof.
  intros Hf Hs Ho Hl. split; [by apply pin_range_sound|]. intros [? ?]. by apply pin_range_complete.
Qed.

Lemma ashmem_pin_range_exact_witness :
  pin_range demo_area (Some (mk_pin 4096 12288)) = inl (1, 3) <->
  requested demo_area 1 3 /\ asks demo_area (mk_pin 4096 12288) 1 3.
Proof.
  apply ashmem_pin_range_exact; [by eexists|vm_compute; split; congruence|..];
    apply word_dec_true; vm_compute; reflexivity.
Defined.

(** Asked for [nr] pages, the shrinker purges the least prefix
    of the LRU list that has them (or all of it), truncates exactly the bytes
    of the purged ranges in their backing files, changes nothing else, and
    returns the number of pages left on the list. *)
Theorem ashmem_shrink_lru st nr gfp :
  reachable st -> 0 < nr < two31 -> Z.land gfp __GFP_FS <> 0 ->
  exists st' ts k, ashmem_shrink st nr gfp =
      Some (st', ts, s32 (lru_pages (ranges st') (drop k (ashmem_lru_list st)))) /\
    wf st' /\ shrunk st nr st' ts k.
Proof.
  intros Hr Hnr Hg. pose proof (reachable_wf st Hr) as [Hi Ha].
  destruct (ashmem_shrink_any st nr gfp Hi) as (st' & ts & ret & k & -> & Hi' & A & Hs).
  destruct Hs as [Hs ->]; [lia|done|]. exists st', ts, k.
  rewrite (lo_count _ _ _ (inv_lru _ Hi')), (sh_lru _ _ _ _ _ Hs), s32_u32.
  split; [done|]. split; [|done]. split; [done|]. by rewrite A.
Qed.

Lemma ashmem_shrink_lru_witness :
  exists st' ts k, ashmem_shrink demo 1 GFP_KERNEL =
      Some (st', ts, s32 (lru_pages (ranges st') (drop k (ashmem_lru_list demo)))) /\
    wf st' /\ shrunk demo 1 st' ts k.
Proof.
  apply ashmem_shrink_lru; [exact ashmem_demo_reachable|unfold two31; lia|vm_compute; congruence].
Defined.

(** The pages of a sub-list of ranges. *)
Lemma lru_pages_nonneg st l :
  inv st -> 0 <= lru_pages (ranges st) l.
Proof.
  intros Hi. induction l as [|r l IH]; simpl; [lia|].
  destruct (ranges st !! r) as [x|] eqn:Ex; [|lia].
  destruct (range_words st r x Hi Ex) as (? & ? & _ & _ & _ & ? & _). lia.
Qed.

Lemma lru_pages_elem st l r x :
  inv st -> r ∈ l -> ranges st !! r = Some x -> pages_of x <= lru_pages (ranges st) l.
Proof.
  intros Hi Hin Ex. induction l as [|r' l IH]; [by apply not_elem_of_nil in Hin|]. simpl.
  pose proof (lru_pages_nonneg st l Hi). apply elem_of_cons in Hin as [<-|Hin].
  - rewrite Ex. lia.
  - specialize (IH Hin). destruct (ranges st !! r') as [y|] eqn:Ey; [|lia].
    destruct (range_words st r' y Hi Ey) as (? & ? & _ & _ & _ & ? & _). lia.
Qed.

Lemma no_pages_left st : inv st -> lru_pages (ranges st) (ashmem_lru_list st) <= 0 ->
  forall b p, ~ ppage st b p ASHMEM_NOT_PURGED.
Proof.
  intros Hi Hz b p (r & x & Ex & _ & Hp & Hpu).
  assert (Hin : r ∈ ashmem_lru_list st) by (apply (lo_elem _ _ _ (inv_lru _ Hi)); eauto).
  pose proof (lru_pages_elem st _ r x Hi Hin Ex). unfold pages_of in *. lia.
Qed.

(** [ASHMEM_PURGE_ALL_CACHES] by a privileged task leaves no
    unpinned page unpurged, in any area, as long as fewer than 2^31 pages are
    unpinned. *)
Theorem ashmem_purge_all st a :
  reachable st -> is_Some (areas st !! a) ->
  lru_pages (ranges st) (ashmem_lru_list st) < two31 ->
  exists st' ret ts, ashmem_ioctl st a (ASHMEM_PURGE_ALL_CACHES true) = Some (st', ret, [], ts) /\
    ret = lru_pages (ranges st) (ashmem_lru_list st) /\
    forall b p, ~ ppage st' b p ASHMEM_NOT_PURGED.
Proof.
  intros Hr [area Ea] Hlt. pose proof (wf_inv _ (reachable_wf st Hr)) as Hi.
  unfold ashmem_ioctl. rewrite Ea. simpl.
  pose proof (lru_pages_nonneg st (ashmem_lru_list st) Hi) as Hnn.
  set (n := lru_pages (ranges st) (ashmem_lru_list st)) in *.
  assert (Hn : s32 (lru_count st) = n).
  { rewrite (lo_count _ _ _ (inv_lru _ Hi)), s32_u32. apply s32_small. fold n. unfold two31 in *. lia. }
  rewrite Hn.
  destruct (ashmem_shrink_any st n GFP_KERNEL Hi) as (st' & ts & ret & k & E & Hi' & A & Hs).
  rewrite E. simpl. eexists _, _, _. split; [done|]. split; [done|]. apply no_pages_left; [done|].
  destruct (decide (n = 0)) as [E0|Hne].
  { rewrite E0 in E. unfold ashmem_shrink in E. simpl in E. injection E as <- <- <-. lia. }
  destruct (Hs Hne) as [Hsh _]; [done|]. rewrite (sh_lru _ _ _ _ _ Hsh).
  assert (Hdrop : lru_pages (ranges st') (drop k (ashmem_lru_list st))
                = lru_pages (ranges st) (drop k (ashmem_lru_list st))).
  { apply lru_pages_agree. intros r Hin. rewrite (sh_ranges _ _ _ _ _ Hsh), decide_False; [done|].
    pose proof (lo_nodup _ _ _ (inv_lru _ Hi)) as Hnd. rewrite <- (take_drop k (ashmem_lru_list st)) in Hnd.
    apply NoDup_app in Hnd as (_ & Hd & _). intros Ht. by eapply Hd. }
  rewrite Hdrop. destruct (sh_enough _ _ _ _ _ Hsh) as [->|Hen]; [lia|by rewrite drop_all|].
  pose proof (lru_pages_app (ranges st) (take k (ashmem_lru_list st)) (drop k (ashmem_lru_list st))) as Happ.
  rewrite take_drop in Happ. fold n in Happ. lia.
Qed.

Lemma ashmem_purge_all_witness :
  lru_pages (ranges demo) (ashmem_lru_list demo) = 2 /\
  exists st' ret ts, ashmem_ioctl demo 0%nat (ASHMEM_PURGE_ALL_CACHES true) = Some (st', ret, [], ts) /\
    ret = lru_pages (ranges demo) (ashmem_lru_list demo) /\
    forall b p, ~ ppage st' b p ASHMEM_NOT_PURGED.
Proof.
  split; [vm_compute; reflexivity|].
  apply ashmem_purge_all; [exact ashmem_demo_reachable|exists demo_area; exact demo_lookup|].
  vm_compute. reflexivity.
Defined.

(** A name set before the first mapping is read back up to its
    terminator, cut to 255 bytes, and an empty one as [dev/ashmem]; the read
    never runs past the name buffer. *)
Theorem ashmem_name_roundtrip st a area bytes :
  reachable st -> areas st !! a = Some area -> file area = None -> length bytes = 256%nat ->
  exists st', set_name st a bytes false = Some (st', 0) /\ wf st' /\
    get_name st' a false =
      Some (if bool_decide (cstr (take 255 bytes) = []) then ASHMEM_NAME_DEF
            else cstr (take 255 bytes) ++ [x00], 0).
Proof.
  intros Hr Ea Ef Hl. pose proof (reachable_wf st Hr) as Hwf.
  destruct (wf_area _ Hwf a area Ea) as [Hn Hz]. unfold set_name. rewrite Ea. simpl. rewrite Ef.
  destruct (set_name_bytes (name area) bytes Hn Hl) as (n1 & -> & E2). simpl. rewrite E2. simpl.
  eexists. split; [done|]. split.
  - eapply wf_area_change; try done; simpl; [by left|].
    exists (take 255 bytes). split; [done|]. rewrite length_take. lia.
  - eapply (get_name_bytes _ a _ (take 255 bytes) false); [apply lookup_insert_eq|done].
Qed.

Definition demo_open : state := fst (ashmem_open init 0 (Some 0%nat)).

Lemma ashmem_name_roundtrip_witness :
  exists st', set_name demo_open 0%nat (x41 :: x42 :: replicate 254 x00) false = Some (st', 0) /\
    wf st' /\
    get_name st' 0%nat false = Some ([x41; x42; x00], 0).
Proof.
  apply (ashmem_name_roundtrip demo_open 0%nat
    (mk_area (ASHMEM_NAME_PREFIX ++ replicate 256 x00) [] None 0 7));
    [|vm_compute; reflexivity..].
  apply (reach_step init (OpOpen 0 (Some 0%nat))); [apply reach_init|by intros|vm_compute; reflexivity].
Defined.

(** For a task without [READ_IMPLIES_EXEC], the protection mask
    of an area only ever loses bits, and a request for a bit it lacks is
    refused. *)
Theorem ashmem_prot_mask_shrinks st a area prot personality :
  areas st !! a = Some area -> Z.land personality READ_IMPLIES_EXEC = 0 ->
  (Z.land (prot_mask area) prot = prot ->
   exists st' area', set_prot_mask st a prot personality = Some (st', 0) /\
     areas st' !! a = Some area' /\ prot_mask area' = prot /\
     forall i, 0 <= i -> Z.testbit (prot_mask area') i = true -> Z.testbit (prot_mask area) i = true) /\
  (Z.land (prot_mask area) prot <> prot ->
   set_prot_mask st a prot personality = Some (st, - EINVAL)).
Proof.
  intros Ea Hp. unfold set_prot_mask. rewrite Ea. simpl. split; intros Hm.
  - rewrite bool_decide_eq_false_2 by tauto. rewrite Hp. rewrite (bool_decide_eq_false_2 (0 <> 0)) by tauto.
    rewrite andb_false_r. eexists _, _. split; [done|]. simpl. rewrite lookup_insert_eq.
    split; [done|]. split; [done|]. simpl. intros i Hi. rewrite <- Hm at 1.
    rewrite Z.land_spec. by intros [? _]%andb_true_iff.
  - by rewrite bool_decide_eq_true_2.
Qed.

Lemma ashmem_prot_mask_shrinks_witness :
  exists st' area', set_prot_mask demo 0%nat PROT_READ 0 = Some (st', 0) /\
     areas st' !! 0%nat = Some area' /\ prot_mask area' = PROT_READ /\
     forall i, 0 <= i -> Z.testbit (prot_mask area') i = true -> Z.testbit 7 i = true.
Proof.
  apply (proj1 (ashmem_prot_mask_shrinks demo 0%nat demo_area PROT_READ 0 demo_lookup
    ltac:(vm_compute; reflexivity))). vm_compute. reflexivity.
Defined.

(** ** Three corners of the driver *)

(** A task with [READ_IMPLIES_EXEC] can add [PROT_EXEC] to a mask that lost it,
    although the mask is meant to lose bits only. *)
Lemma prot_mask_grows :
  ('(st1, r1) ← set_prot_mask demo 0%nat PROT_READ 0;
   '(st2, r2) ← set_prot_mask st1 0%nat PROT_READ READ_IMPLIES_EXEC;
   Some (r1, r2, prot_mask <$> areas st1 !! 0%nat, prot_mask <$> areas st2 !! 0%nat))
  = Some (0, 0, Some PROT_READ, Some (Z.lor PROT_READ PROT_EXEC)).
Proof. vm_compute. reflexivity. Qed.

(** Unpinning with offset at the end of the area and length zero links one
    more range, of no page, each time. *)
Lemma empty_unpin_grows :
  ('(st1, r1) ← ashmem_pin_unpin demo 0%nat UNPIN (Some (mk_pin 20480 0)) (Some 8%nat);
   '(st2, r2) ← ashmem_pin_unpin st1 0%nat UNPIN (Some (mk_pin 20480 0)) (Some 9%nat);
   Some (r1, r2, unpinned_list <$> areas st2 !! 0%nat, range_size <$> ranges st2 !! 9%nat))
  = Some (0, 0, Some [9; 8; 2; 1]%nat, Some 0).
Proof. vm_compute. reflexivity. Qed.

(** For a size above 2^32 - 4096 [PAGE_ALIGN] wraps to zero: an unpin of the
    whole area asks for pages 0 to 2^32 - 1. *)
Lemma page_align_wraps :
  pin_range (mk_area [] [] (Some 7%nat) 4294967295 7) (Some (mk_pin 0 0)) = inl (0, 4294967295).
Proof. vm_compute. reflexivity. Qed.

End AshmemTop.
