(* ===== verification/Wakelock.v ===== *)
(** * Wake locks ([kernel/power/wakelock.c]): the model

    The locks, the three lists they are on, the statistics, the expiry timer,
    the queued suspend work and every operation of the file.  Each of them
    runs under the [list_lock] spinlock with interrupts off, so an operation
    is one function on the state, at one instant of the clock.

    A result [None] is a [BUG_ON] that fires, or a lock that does not exist. *)

From Stdlib Require Import ZArith Lia Strings.Byte.
From stdpp Require Import base option gmap list_numbers list.
From S2P Require Import Prelude.

Local Open Scope Z_scope.
Local Open Scope kernel_scope.

Module Wakelock.

(** ** Constants *)

Definition WAKE_LOCK_SUSPEND : Z := 0.
Definition WAKE_LOCK_IDLE : Z := 1.
Definition WAKE_LOCK_TYPE_COUNT : Z := 2.

Definition WAKE_LOCK_TYPE_MASK : Z := 0x0f.
Definition WAKE_LOCK_INITIALIZED : Z := 2 ^ 8.
Definition WAKE_LOCK_ACTIVE : Z := 2 ^ 9.
Definition WAKE_LOCK_AUTO_EXPIRE : Z := 2 ^ 10.
Definition WAKE_LOCK_PREVENTING_SUSPEND : Z := 2 ^ 11.

Definition LONG_MAX : Z := two31 - 1.
Definition HZ : Z := 200.
Definition NSEC_PER_SEC : Z := 1000000000.

(** [include/linux/jiffies.h], [mach/timex.h] *)
Definition CLOCK_TICK_RATE : Z := 12000000.
Definition LATCH : Z := (CLOCK_TICK_RATE + HZ / 2) / HZ.
Definition SH_DIV (nom den lsh : Z) : Z :=
  Z.shiftl (nom / den) lsh + (Z.shiftl (nom mod den) lsh + den / 2) / den.
Definition ACTHZ : Z := SH_DIV CLOCK_TICK_RATE LATCH 8.
Definition TICK_NSEC : Z := SH_DIV (1000000 * 1000) ACTHZ 8.

(** [flags & mask] as a condition. *)
Definition flag (flags mask : Z) : bool := bool_decide (Z.land flags mask <> 0).

(** ** Time *)

Record timespec := mk_timespec { tv_sec : Z; tv_nsec : Z }.

(** What the time-keeping code reports while an operation runs.  A [ktime_t]
    is its number of nanoseconds. *)
Record clock := mk_clock {
  jiffies : Z;
  ktime_get : Z;
  current_kernel_time : timespec;
  wall_to_monotonic : timespec
}.

(** [kernel/time.c] *)
Definition jiffies_to_timespec (j : Z) : timespec :=
  mk_timespec (j * TICK_NSEC / NSEC_PER_SEC) (j * TICK_NSEC mod NSEC_PER_SEC).

(** The two loops of [set_normalized_timespec]; [fuel] bounds their number of
    rounds. *)
Fixpoint normalize_down (fuel : nat) (sec nsec : Z) : Z * Z :=
  match fuel with
  | O => (sec, nsec)
  | S fuel => if bool_decide (nsec >= NSEC_PER_SEC)
              then normalize_down fuel (sec + 1) (nsec - NSEC_PER_SEC) else (sec, nsec)
  end.

Fixpoint normalize_up (fuel : nat) (sec nsec : Z) : Z * Z :=
  match fuel with
  | O => (sec, nsec)
  | S fuel => if bool_decide (nsec < 0)
              then normalize_up fuel (sec - 1) (nsec + NSEC_PER_SEC) else (sec, nsec)
  end.

Definition set_normalized_timespec (sec nsec : Z) : timespec :=
  let fuel := Z.to_nat (Z.abs nsec / NSEC_PER_SEC + 1) in
  let '(sec, nsec) := normalize_down fuel sec nsec in
  let '(sec, nsec) := normalize_up fuel sec nsec in
  mk_timespec sec nsec.

Definition timespec_to_ktime (ts : timespec) : Z := tv_sec ts * NSEC_PER_SEC + tv_nsec ts.

(** ** State *)

Definition lid := nat.

(** The three locks of the file. *)
Definition main_wake_lock : lid := 0%nat.
Definition unknown_wakeup : lid := 1%nat.
Definition deleted_wake_locks : lid := 2%nat.

Record lock_stat := mk_stat {
  count : Z;
  expire_count : Z;
  wakeup_count : Z;
  total_time : Z;
  prevent_suspend_time : Z;
  max_time : Z;
  last_time : Z
}.

Record wake_lock_t := mk_lock {
  flags : Z;
  lname : option (list byte);
  expires : Z;
  stat : lock_stat
}.

Record state := mk_state {
  locks : gmap lid wake_lock_t;
  inactive_locks : list lid;
  active_suspend : list lid;
  active_idle : list lid;
  current_event_num : Z;
  last_sleep_time_update : Z;
  wait_for_wakeup : bool;
  expire_timer : option Z;
  suspend_work : bool
}.

(** [active_wake_locks[type]] *)
Definition active_wake_locks (st : state) (type : Z) : option (list lid) :=
  if bool_decide (type = WAKE_LOCK_SUSPEND) then Some (active_suspend st)
  else if bool_decide (type = WAKE_LOCK_IDLE) then Some (active_idle st)
  else None.

Definition set_locks (st : state) (m : gmap lid wake_lock_t) : state :=
  mk_state m (inactive_locks st) (active_suspend st) (active_idle st) (current_event_num st)
    (last_sleep_time_update st) (wait_for_wakeup st) (expire_timer st) (suspend_work st).

Definition set_lock (st : state) (id : lid) (lock : wake_lock_t) : state :=
  set_locks st (<[id := lock]> (locks st)).

Definition set_lists (st : state) (inactive suspend idle : list lid) : state :=
  mk_state (locks st) inactive suspend idle (current_event_num st)
    (last_sleep_time_update st) (wait_for_wakeup st) (expire_timer st) (suspend_work st).

Definition set_timer (st : state) (t : option Z) : state :=
  mk_state (locks st) (inactive_locks st) (active_suspend st) (active_idle st) (current_event_num st)
    (last_sleep_time_update st) (wait_for_wakeup st) t (suspend_work st).

Definition queue_suspend_work (st : state) : state :=
  mk_state (locks st) (inactive_locks st) (active_suspend st) (active_idle st) (current_event_num st)
    (last_sleep_time_update st) (wait_for_wakeup st) (expire_timer st) true.

Definition set_event_num (st : state) (n : Z) : state :=
  mk_state (locks st) (inactive_locks st) (active_suspend st) (active_idle st) n
    (last_sleep_time_update st) (wait_for_wakeup st) (expire_timer st) (suspend_work st).

Definition set_wait (st : state) (b : bool) : state :=
  mk_state (locks st) (inactive_locks st) (active_suspend st) (active_idle st) (current_event_num st)
    (last_sleep_time_update st) b (expire_timer st) (suspend_work st).

Definition set_sleep_time (st : state) (t : Z) : state :=
  mk_state (locks st) (inactive_locks st) (active_suspend st) (active_idle st) (current_event_num st)
    t (wait_for_wakeup st) (expire_timer st) (suspend_work st).

Definition set_flags (lock : wake_lock_t) (f : Z) : wake_lock_t :=
  mk_lock f (lname lock) (expires lock) (stat lock).

Definition set_stat (lock : wake_lock_t) (s : lock_stat) : wake_lock_t :=
  mk_lock (flags lock) (lname lock) (expires lock) s.

Definition set_last_time (s : lock_stat) (t : Z) : lock_stat :=
  mk_stat (count s) (expire_count s) (wakeup_count s) (total_time s) (prevent_suspend_time s)
    (max_time s) t.

Definition set_prevent (s : lock_stat) (t : Z) : lock_stat :=
  mk_stat (count s) (expire_count s) (wakeup_count s) (total_time s) t (max_time s) (last_time s).

(** [list_del(&lock->link)]: the lock leaves the list it is on. *)
Definition unlink (st : state) (id : lid) : state :=
  set_lists st (list_del id (inactive_locks st)) (list_del id (active_suspend st))
    (list_del id (active_idle st)).

Definition add_inactive (st : state) (id : lid) : state :=
  set_lists st (list_add id (inactive_locks st)) (active_suspend st) (active_idle st).

(** [list_add] or [list_add_tail] to [active_wake_locks[type]]. *)
Definition add_active (st : state) (type : Z) (id : lid) (tail : bool) : state :=
  let add l := if tail then list_add_tail id l else list_add id l in
  if bool_decide (type = WAKE_LOCK_SUSPEND)
  then set_lists st (inactive_locks st) (add (active_suspend st)) (active_idle st)
  else set_lists st (inactive_locks st) (active_suspend st) (add (active_idle st)).

(** ** Statistics *)

(** The expiry time when the lock has expired. *)
Definition get_expired_time (clk : clock) (lock : wake_lock_t) : option Z :=
  if negb (flag (flags lock) WAKE_LOCK_AUTO_EXPIRE) then None
  else
    let timeout := s32 (expires lock - jiffies clk) in
    if bool_decide (timeout > 0) then None
    else
      let kt := current_kernel_time clk in
      let tomono := wall_to_monotonic clk in
      let delta := jiffies_to_timespec (u32 (- timeout)) in
      Some (timespec_to_ktime (set_normalized_timespec
              (tv_sec kt + tv_sec tomono - tv_sec delta)
              (tv_nsec kt + tv_nsec tomono - tv_nsec delta))).

Definition wake_unlock_stat_locked (clk : clock) (st : state) (lock : wake_lock_t) (expired : bool)
  : wake_lock_t :=
  if negb (flag (flags lock) WAKE_LOCK_ACTIVE) then lock
  else
    let '(expired, now) := match get_expired_time clk lock with
                           | Some now => (true, now)
                           | None => (expired, ktime_get clk)
                           end in
    let s := stat lock in
    let duration := now - last_time s in
    let s1 := mk_stat (s32 (count s + 1))
                (if expired : bool then s32 (expire_count s + 1) else expire_count s)
                (wakeup_count s) (total_time s + duration) (prevent_suspend_time s)
                (if bool_decide (duration > max_time s) then duration else max_time s)
                (ktime_get clk) in
    if flag (flags lock) WAKE_LOCK_PREVENTING_SUSPEND
    then mk_lock (Z.land (flags lock) (Z.lnot WAKE_LOCK_PREVENTING_SUSPEND)) (lname lock) (expires lock)
           (set_prevent s1 (prevent_suspend_time s1 + (now - last_sleep_time_update st)))
    else set_stat lock s1.

(** The body of the loop of [update_sleep_wait_stats_locked]. *)
Definition update_sleep_wait (clk : clock) (last elapsed : Z) (done : bool) (lock : wake_lock_t)
  : wake_lock_t :=
  let etime := get_expired_time clk lock in
  let lock := if flag (flags lock) WAKE_LOCK_PREVENTING_SUSPEND
              then set_stat lock (set_prevent (stat lock)
                     (prevent_suspend_time (stat lock) +
                        match etime with Some t => t - last | None => elapsed end))
              else lock in
  if done || bool_decide (is_Some etime)
  then set_flags lock (Z.land (flags lock) (Z.lnot WAKE_LOCK_PREVENTING_SUSPEND))
  else set_flags lock (Z.lor (flags lock) WAKE_LOCK_PREVENTING_SUSPEND).

Fixpoint update_sleep_loop (clk : clock) (last elapsed : Z) (done : bool) (m : gmap lid wake_lock_t)
  (l : list lid) : option (gmap lid wake_lock_t) :=
  match l with
  | [] => Some m
  | id :: l =>
      lock ← m !! id;
      update_sleep_loop clk last elapsed done (<[id := update_sleep_wait clk last elapsed done lock]> m) l
  end.

Definition update_sleep_wait_stats_locked (clk : clock) (st : state) (done : bool) : option state :=
  let now := ktime_get clk in
  let elapsed := now - last_sleep_time_update st in
  m ← update_sleep_loop clk (last_sleep_time_update st) elapsed done (locks st) (active_suspend st);
  Some (set_sleep_time (set_locks st m) now).

(** ** Expiry *)

Definition expire_wake_lock (clk : clock) (st : state) (id : lid) : option state :=
  lock ← locks st !! id;
  let lock := wake_unlock_stat_locked clk st lock true in
  let lock := set_flags lock
                (Z.land (flags lock) (Z.lnot (Z.lor WAKE_LOCK_ACTIVE WAKE_LOCK_AUTO_EXPIRE))) in
  Some (add_inactive (unlink (set_lock st id lock) id) id).

Fixpoint has_wake_lock_loop (clk : clock) (st : state) (l : list lid) (max_timeout : Z)
  : option (state * Z) :=
  match l with
  | [] => Some (st, max_timeout)
  | id :: l =>
      lock ← locks st !! id;
      if flag (flags lock) WAKE_LOCK_AUTO_EXPIRE then
        let timeout := s32 (expires lock - jiffies clk) in
        if bool_decide (timeout <= 0)
        then st ← expire_wake_lock clk st id; has_wake_lock_loop clk st l max_timeout
        else has_wake_lock_loop clk st l
               (if bool_decide (timeout > max_timeout) then timeout else max_timeout)
      else Some (st, -1)
  end.

Definition has_wake_lock_locked (clk : clock) (st : state) (type : Z) : option (state * Z) :=
  if bool_decide (type >= WAKE_LOCK_TYPE_COUNT) then None
  else l ← active_wake_locks st type; has_wake_lock_loop clk st l 0.

Definition has_wake_lock (clk : clock) (st : state) (type : Z) : option (state * Z) :=
  has_wake_lock_locked clk st type.

(** ** The operations *)

Definition wake_lock_init (st : state) (id : lid) (type : Z) (name : option (list byte))
  : option state :=
  let name := match name with Some n => Some n | None => (locks st !! id) ≫= lname end in
  match name with
  | None => None
  | Some _ =>
      let lock := mk_lock (Z.lor (Z.land type WAKE_LOCK_TYPE_MASK) WAKE_LOCK_INITIALIZED) name
                    (default 0 (expires <$> locks st !! id)) (mk_stat 0 0 0 0 0 0 0) in
      Some (add_inactive (set_lock st id lock) id)
  end.

(** The statistics of a lock that goes away are added to those of
    [deleted_wake_locks]. *)
Definition add_deleted_stat (st : state) (s : lock_stat) : option state :=
  if bool_decide (count s <> 0) then
    d ← locks st !! deleted_wake_locks;
    let ds := stat d in
    Some (set_lock st deleted_wake_locks (set_stat d
            (mk_stat (s32 (count ds + count s)) (s32 (expire_count ds + expire_count s))
               (wakeup_count ds) (total_time ds + total_time s)
               (prevent_suspend_time ds + prevent_suspend_time s)
               (max_time ds + max_time s) (last_time ds))))
  else Some st.

Definition wake_lock_destroy (st : state) (id : lid) : option state :=
  lock ← locks st !! id;
  let lock := set_flags lock (Z.land (flags lock) (Z.lnot WAKE_LOCK_INITIALIZED)) in
  st ← add_deleted_stat (set_lock st id lock) (stat lock);
  Some (unlink st id).

Definition wake_lock_active (st : state) (id : lid) : option bool :=
  lock ← locks st !! id; Some (flag (flags lock) WAKE_LOCK_ACTIVE).

(** [mod_timer], [del_timer] and [queue_work] after [has_wake_lock_locked]
    (or [-1]) returned [expire_in]. *)
Definition arm_or_queue (clk : clock) (st : state) (expire_in : Z) : state :=
  if bool_decide (expire_in > 0) then set_timer st (Some (jiffies clk +u expire_in))
  else
    let st := set_timer st None in
    if bool_decide (expire_in = 0) then queue_suspend_work st else st.

(** The statistics at the start of [wake_lock_internal]. *)
Definition wake_lock_stats (clk : clock) (st : state) (type : Z) (lock : wake_lock_t)
  : state * wake_lock_t :=
  let '(st, lock) :=
    if bool_decide (type = WAKE_LOCK_SUSPEND) && wait_for_wakeup st then
      let s := stat lock in
      (set_wait st false,
       set_stat lock (mk_stat (count s) (expire_count s) (s32 (wakeup_count s + 1)) (total_time s)
                        (prevent_suspend_time s) (max_time s) (last_time s)))
    else (st, lock) in
  if flag (flags lock) WAKE_LOCK_AUTO_EXPIRE && bool_decide (s32 (expires lock - jiffies clk) <= 0)
  then let lock := wake_unlock_stat_locked clk st lock false in
       (st, set_stat lock (set_last_time (stat lock) (ktime_get clk)))
  else (st, lock).

Definition wake_lock_internal (clk : clock) (st : state) (id : lid) (timeout : Z) (has_timeout : bool)
  : option state :=
  lock ← locks st !! id;
  let type := Z.land (flags lock) WAKE_LOCK_TYPE_MASK in
  if bool_decide (type >= WAKE_LOCK_TYPE_COUNT) then None
  else if negb (flag (flags lock) WAKE_LOCK_INITIALIZED) then None
  else
    let '(st, lock) := wake_lock_stats clk st type lock in
    let lock := if negb (flag (flags lock) WAKE_LOCK_ACTIVE)
                then mk_lock (Z.lor (flags lock) WAKE_LOCK_ACTIVE) (lname lock) (expires lock)
                       (set_last_time (stat lock) (ktime_get clk))
                else lock in
    let lock := if has_timeout
                then mk_lock (Z.lor (flags lock) WAKE_LOCK_AUTO_EXPIRE) (lname lock)
                       (jiffies clk +u timeout) (stat lock)
                else mk_lock (Z.land (flags lock) (Z.lnot WAKE_LOCK_AUTO_EXPIRE)) (lname lock)
                       LONG_MAX (stat lock) in
    let st := add_active (unlink (set_lock st id lock) id) type id has_timeout in
    if bool_decide (type = WAKE_LOCK_SUSPEND) then
      let st := set_event_num st (s32 (current_event_num st + 1)) in
      st ← (if bool_decide (id = main_wake_lock) then update_sleep_wait_stats_locked clk st true
            else a ← wake_lock_active st main_wake_lock;
                 if negb a then update_sleep_wait_stats_locked clk st false else Some st);
      '(st, expire_in) ← (if has_timeout then has_wake_lock_locked clk st type else Some (st, -1));
      Some (arm_or_queue clk st expire_in)
    else Some st.

Definition wake_lock (clk : clock) (st : state) (id : lid) : option state :=
  wake_lock_internal clk st id 0 false.

Definition wake_lock_timeout (clk : clock) (st : state) (id : lid) (timeout : Z) : option state :=
  wake_lock_internal clk st id timeout true.

Definition wake_unlock (clk : clock) (st : state) (id : lid) : option state :=
  lock ← locks st !! id;
  let type := Z.land (flags lock) WAKE_LOCK_TYPE_MASK in
  let lock := wake_unlock_stat_locked clk st lock false in
  let lock := set_flags lock
                (Z.land (flags lock) (Z.lnot (Z.lor WAKE_LOCK_ACTIVE WAKE_LOCK_AUTO_EXPIRE))) in
  let st := add_inactive (unlink (set_lock st id lock) id) id in
  if bool_decide (type = WAKE_LOCK_SUSPEND) then
    '(st, has_lock) ← has_wake_lock_locked clk st type;
    let st := arm_or_queue clk st has_lock in
    if bool_decide (id = main_wake_lock) then update_sleep_wait_stats_locked clk st false
    else Some st
  else Some st.

(** ** Suspending *)

(** The timer function; the timer is no longer pending when it runs. *)
Definition expire_wake_locks (clk : clock) (st : state) : option state :=
  '(st, has_lock) ← has_wake_lock_locked clk (set_timer st None) WAKE_LOCK_SUSPEND;
  Some (if bool_decide (has_lock = 0) then queue_suspend_work st else st).

(** The work function [suspend] up to its check of the locks: whether it goes on.
    The work is no longer pending when it runs. *)
Definition suspend_enter (clk : clock) (st : state) : option (state * bool) :=
  let st := mk_state (locks st) (inactive_locks st) (active_suspend st) (active_idle st)
              (current_event_num st) (last_sleep_time_update st) (wait_for_wakeup st)
              (expire_timer st) false in
  '(st, has_lock) ← has_wake_lock clk st WAKE_LOCK_SUSPEND;
  Some (st, bool_decide (has_lock = 0)).

(** [list_lock] was given up in between: the event number it then remembers. *)
Definition suspend_note (st : state) : Z := current_event_num st.

(** The same function after [pm_suspend] returned. *)
Definition suspend_exit (clk : clock) (st : state) (entry_event_num : Z) : option state :=
  if bool_decide (current_event_num st = entry_event_num)
  then wake_lock_timeout clk st unknown_wakeup (HZ / 2) else Some st.

(** The last callback before the machine sleeps. *)
Definition power_suspend_late (clk : clock) (st : state) : option (state * Z) :=
  '(st, has_lock) ← has_wake_lock clk st WAKE_LOCK_SUSPEND;
  Some (set_wait st true, if bool_decide (has_lock <> 0) then - EAGAIN else 0).

(** ** Initialisation *)

(** ["deleted_wake_locks"], ["main"], ["unknown_wakeups"] *)
Definition deleted_name : list byte :=
  [x64; x65; x6c; x65; x74; x65; x64; x5f; x77; x61; x6b; x65; x5f; x6c; x6f; x63; x6b; x73].
Definition main_name : list byte := [x6d; x61; x69; x6e].
Definition unknown_name : list byte :=
  [x75; x6e; x6b; x6e; x6f; x77; x6e; x5f; x77; x61; x6b; x65; x75; x70; x73].

Definition blank : state := mk_state ∅ [] [] [] 0 0 false None false.

(** [reg_device], [reg_driver] and [workqueue] are what the registrations and
    [create_singlethread_workqueue] return. *)
Definition wakelocks_init (clk : clock) (reg_device reg_driver : Z) (workqueue : bool)
  : option (state * Z) :=
  st ← wake_lock_init blank deleted_wake_locks WAKE_LOCK_SUSPEND (Some deleted_name);
  st ← wake_lock_init st main_wake_lock WAKE_LOCK_SUSPEND (Some main_name);
  st ← wake_lock clk st main_wake_lock;
  st ← wake_lock_init st unknown_wakeup WAKE_LOCK_SUSPEND (Some unknown_name);
  let undo st err :=
    st ← wake_lock_destroy st unknown_wakeup;
    st ← wake_lock_destroy st main_wake_lock;
    st ← wake_lock_destroy st deleted_wake_locks;
    Some (st, err) in
  if bool_decide (reg_device <> 0) then undo st reg_device
  else if bool_decide (reg_driver <> 0) then undo st reg_driver
  else if negb workqueue then undo st (- ENOMEM)
  else Some (st, 0).

End Wakelock.
