(* ===== verification/WakelockInv.v ===== *)
(** * Wake locks: the abstract view and the invariant

    To its users a wake lock is off, on, or on until a time.  This file
    defines that view, shows what every routine of [wakelock.c] does to it
    (the statistics never change it) and proves the invariant of the lists. *)

From Stdlib Require Import ZArith Lia Strings.Byte.
From stdpp Require Import base option gmap sorting list_numbers list.
From S2P Require Import Prelude Wakelock.

Local Open Scope Z_scope.
Local Open Scope kernel_scope.

Module WakelockInv.
Import Wakelock.

(** ** Flag bits *)

Lemma flag_bit f k : 0 <= k -> flag f (2 ^ k) = Z.testbit f k.
Proof.
  intros Hk. unfold flag.
  assert (E : Z.land f (2 ^ k) = if Z.testbit f k then 2 ^ k else 0).
  { apply Z.bits_inj'. intros n Hn. rewrite Z.land_spec, Z.pow2_bits_eqb by done.
    destruct (Z.eqb_spec k n) as [<-|Hne].
    - destruct (Z.testbit f k); [by rewrite Z.pow2_bits_true|by rewrite Z.bits_0].
    - rewrite andb_false_r. destruct (Z.testbit f k); [|by rewrite Z.bits_0].
      by rewrite Z.pow2_bits_false. }
  rewrite E. pose proof (Z.pow_pos_nonneg 2 k). destruct (Z.testbit f k); case_bd; try done; lia.
Qed.

Lemma flag_clear f m k :
  0 <= k -> flag (Z.land f (Z.lnot m)) (2 ^ k) = flag f (2 ^ k) && negb (Z.testbit m k).
Proof. intros Hk. by rewrite !flag_bit, Z.land_spec, Z.lnot_spec. Qed.

Lemma flag_set f m k :
  0 <= k -> flag (Z.lor f m) (2 ^ k) = flag f (2 ^ k) || Z.testbit m k.
Proof. intros Hk. by rewrite !flag_bit, Z.lor_spec. Qed.

Lemma type_clear f m :
  Z.land m WAKE_LOCK_TYPE_MASK = 0 ->
  Z.land (Z.land f (Z.lnot m)) WAKE_LOCK_TYPE_MASK = Z.land f WAKE_LOCK_TYPE_MASK.
Proof.
  intros Hm. apply Z.bits_inj'. intros n Hn. rewrite !Z.land_spec, Z.lnot_spec by done.
  assert (Hb : Z.testbit m n && Z.testbit WAKE_LOCK_TYPE_MASK n = false)
    by (rewrite <- Z.land_spec, Hm; apply Z.bits_0).
  by destruct (Z.testbit f n), (Z.testbit m n), (Z.testbit WAKE_LOCK_TYPE_MASK n).
Qed.

Lemma type_set f m :
  Z.land m WAKE_LOCK_TYPE_MASK = 0 ->
  Z.land (Z.lor f m) WAKE_LOCK_TYPE_MASK = Z.land f WAKE_LOCK_TYPE_MASK.
Proof. intros Hm. by rewrite Z.land_lor_distr_l, Hm, Z.lor_0_r. Qed.

(** ** The view of a lock *)

Inductive status := Off | On | Until (e : Z).

#[export] Instance status_eq_decision : EqDecision status.
Proof. solve_decision. Defined.

Record lview := mk_view { v_init : bool; v_type : Z; v_status : status }.

Definition status_of (lock : wake_lock_t) : status :=
  if flag (flags lock) WAKE_LOCK_ACTIVE
  then if flag (flags lock) WAKE_LOCK_AUTO_EXPIRE then Until (expires lock) else On
  else Off.

Definition view_of (lock : wake_lock_t) : lview :=
  mk_view (flag (flags lock) WAKE_LOCK_INITIALIZED)
    (Z.land (flags lock) WAKE_LOCK_TYPE_MASK) (status_of lock).

Definition view (st : state) : gmap lid lview := view_of <$> locks st.

Definition with_status (v : lview) (s : status) : lview := mk_view (v_init v) (v_type v) s.

(** Flag changes above the type, one bit at a time. *)
Ltac flag_simp :=
  unfold view_of, status_of; simpl;
  unfold WAKE_LOCK_INITIALIZED, WAKE_LOCK_ACTIVE, WAKE_LOCK_AUTO_EXPIRE, WAKE_LOCK_PREVENTING_SUSPEND in *;
  rewrite ?flag_clear, ?flag_set, ?type_clear, ?type_set by done; simpl;
  repeat match goal with
  | |- context [Z.testbit ?m ?k] =>
      let b := eval vm_compute in (Z.testbit m k) in change (Z.testbit m k) with b
  end; rewrite ?andb_true_r, ?andb_false_r, ?orb_false_r, ?orb_true_r.

Lemma view_unlock_stat clk st lock expired :
  view_of (wake_unlock_stat_locked clk st lock expired) = view_of lock.
Proof.
  unfold wake_unlock_stat_locked. destruct (negb _); [done|].
  destruct (get_expired_time clk lock); destruct (flag (flags lock) WAKE_LOCK_PREVENTING_SUSPEND);
    try done; by flag_simp.
Qed.

Lemma view_update_sleep clk last elapsed d lock :
  view_of (update_sleep_wait clk last elapsed d lock) = view_of lock.
Proof.
  unfold update_sleep_wait.
  destruct (flag (flags lock) WAKE_LOCK_PREVENTING_SUSPEND), (d || _); by flag_simp.
Qed.

Lemma view_off lock :
  view_of (set_flags lock
    (Z.land (flags lock) (Z.lnot (Z.lor WAKE_LOCK_ACTIVE WAKE_LOCK_AUTO_EXPIRE))))
  = with_status (view_of lock) Off.
Proof. unfold with_status. by flag_simp. Qed.

Lemma view_set_stat lock s : view_of (set_stat lock s) = view_of lock.
Proof. done. Qed.

(** What [wake_lock_internal] makes of the lock. *)
Lemma view_locked clk lock timeout (has_timeout : bool) :
  view_of
    (let lock := if negb (flag (flags lock) WAKE_LOCK_ACTIVE)
                 then mk_lock (Z.lor (flags lock) WAKE_LOCK_ACTIVE) (lname lock) (expires lock)
                        (set_last_time (stat lock) (ktime_get clk))
                 else lock in
     if has_timeout
     then mk_lock (Z.lor (flags lock) WAKE_LOCK_AUTO_EXPIRE) (lname lock)
            (jiffies clk +u timeout) (stat lock)
     else mk_lock (Z.land (flags lock) (Z.lnot WAKE_LOCK_AUTO_EXPIRE)) (lname lock)
            LONG_MAX (stat lock))
  = with_status (view_of lock) (if has_timeout then Until (jiffies clk +u timeout) else On).
Proof.
  unfold with_status.
  destruct (flag (flags lock) WAKE_LOCK_ACTIVE) eqn:Ea, has_timeout; simpl; flag_simp; by rewrite ?Ea.
Qed.

Lemma wake_lock_stats_ok clk st type lock :
  exists b s', wake_lock_stats clk st type lock = (set_wait st b, s') /\ view_of s' = view_of lock.
Proof.
  unfold wake_lock_stats.
  assert (Hw : st = set_wait st (wait_for_wakeup st)) by (by destruct st).
  destruct (bool_decide _ && _); cbv beta zeta iota.
  - case_match; eexists _, _; (split; [done|]); [|done]. rewrite view_set_stat, view_unlock_stat. done.
  - case_match; eexists _, _; (split; [by rewrite Hw at 1|]); [|done].
    by rewrite view_set_stat, view_unlock_stat.
Qed.

Lemma view_set_lock st id lock : view (set_lock st id lock) = <[id := view_of lock]> (view st).
Proof. unfold view. simpl. apply fmap_insert. Qed.

Lemma view_lookup st id v : view st !! id = Some v -> exists lock, locks st !! id = Some lock /\ view_of lock = v.
Proof. unfold view. rewrite lookup_fmap_Some. intros (x & ? & ?). eauto. Qed.

(** The statistics of the sleep state change no view. *)
Lemma update_sleep_loop_ok clk last elapsed d l : forall m,
  (forall id, id ∈ l -> is_Some (m !! id)) ->
  exists m', update_sleep_loop clk last elapsed d m l = Some m' /\ view_of <$> m' = view_of <$> m.
Proof.
  induction l as [|id l IH]; intros m Hl; simpl; [by exists m|].
  destruct (Hl id) as [lock E]; [by left|]. rewrite E. simpl.
  destruct (IH (<[id := update_sleep_wait clk last elapsed d lock]> m)) as (m' & -> & Ev).
  { intros id' Hid'. rewrite lookup_insert. case_decide; [by eexists|]. apply Hl. by right. }
  exists m'. split; [done|]. rewrite Ev, fmap_insert, view_update_sleep.
  apply insert_id. by rewrite lookup_fmap, E.
Qed.

(** ** The lists *)

Implicit Types (m : gmap lid lview) (l : list lid).

Definition until m (id : lid) : Prop :=
  exists v e, m !! id = Some v /\ v_status v = Until e.

(** An active list: the active locks of its type, those without a timeout
    first. *)
Record act_ok m (type : Z) l : Prop := {
  ac_nodup : NoDup l;
  ac_elem : forall id, id ∈ l <->
    exists v, m !! id = Some v /\ v_init v = true /\ v_type v = type /\ v_status v <> Off;
  ac_order : StronglySorted (fun x y => until m x -> until m y) l
}.

Record ina_ok m l : Prop := {
  in_nodup : NoDup l;
  in_elem : forall id, id ∈ l <->
    exists v, m !! id = Some v /\ v_init v = true /\ v_status v = Off
}.

Lemma sorted_weaken {A} (R R' : A -> A -> Prop) (l : list A) :
  (forall x y, x ∈ l -> y ∈ l -> R x y -> R' x y) -> StronglySorted R l -> StronglySorted R' l.
Proof.
  induction l as [|x l IH]; intros HR Hs; [constructor|].
  apply StronglySorted_cons in Hs as [Hx Hs]. apply StronglySorted_cons. split.
  - rewrite Forall_forall in *. intros y Hy. apply HR; [by left|by right|]. by apply Hx.
  - apply IH; [|done]. intros. apply HR; [by right|by right|done].
Qed.

Lemma sorted_del {A} `{EqDecision A} (R : A -> A -> Prop) (x : A) (l : list A) :
  StronglySorted R l -> StronglySorted R (list_del x l).
Proof.
  unfold list_del. induction l as [|y l IH]; intros Hs; [constructor|].
  apply StronglySorted_cons in Hs as [Hy Hs]. destruct (decide (y = x)) as [->|Hne].
  - rewrite filter_cons_False by tauto. by apply IH.
  - rewrite filter_cons_True by done. apply StronglySorted_cons. split; [|by apply IH].
    apply Forall_forall. intros z [_ Hz]%list_elem_of_filter. rewrite Forall_forall in Hy. by apply Hy.
Qed.

Section change.
Context (m : gmap lid lview) (id : lid) (v : lview) (s : status).
Hypothesis Hid : m !! id = Some v.
Local Notation m' := (<[id := with_status v s]> m).

Lemma until_other x : x <> id -> until m' x <-> until m x.
Proof. intros Hx. unfold until. by rewrite lookup_insert_ne. Qed.

Lemma sorted_change l :
  StronglySorted (fun x y => until m x -> until m y) l ->
  StronglySorted (fun x y => until m' x -> until m' y) (list_del id l).
Proof.
  intros Hs. eapply sorted_weaken, sorted_del, Hs.
  intros x y [_ Hx]%elem_of_list_del [_ Hy]%elem_of_list_del. by rewrite !until_other.
Qed.

(** The lock leaves the list: it is off, or of another type. *)
Lemma act_ok_leave type l :
  act_ok m type l -> s = Off \/ v_type v <> type \/ v_init v = false -> act_ok m' type (list_del id l).
Proof using Hid.
  intros [Hnd He Ho] Hs. split; [by apply NoDup_list_del| |by apply sorted_change].
  intros x. rewrite elem_of_list_del, He. rewrite lookup_insert. case_decide as Hd.
  - subst x. split; [tauto|]. intros (w & [= <-] & Hi & Ht & Hst). simpl in *.
    destruct Hs as [->|[?|?]]; congruence.
  - split; [tauto|]. intros ?. split; [done|congruence].
Qed.

Lemma act_ok_join type l l' :
  act_ok m type l -> s <> Off -> v_type v = type -> v_init v = true ->
  (s = On /\ l' = list_add id (list_del id l)) \/
  ((exists e, s = Until e) /\ l' = list_add_tail id (list_del id l)) ->
  act_ok m' type l'.
Proof using Hid.
  intros [Hnd He Ho] Hs Ht Hi Hl.
  assert (Hnin : id ∉ list_del id l) by (rewrite elem_of_list_del; tauto).
  assert (Hmem : forall x, x ∈ l' <-> x = id \/ x ∈ list_del id l).
  { intros x. destruct Hl as [[_ ->]|[_ ->]]; unfold list_add, list_add_tail;
      rewrite ?elem_of_cons, ?elem_of_app, ?list_elem_of_singleton; tauto. }
  split.
  - destruct Hl as [[_ ->]|[_ ->]]; unfold list_add, list_add_tail.
    + apply NoDup_cons. split; [done|by apply NoDup_list_del].
    + apply NoDup_app. split; [by apply NoDup_list_del|]. split; [|apply NoDup_singleton].
      intros x Hx ->%list_elem_of_singleton. done.
  - intros x. rewrite Hmem, elem_of_list_del, He. rewrite lookup_insert. case_decide as Hd.
    + subst x. split; [|by left]. intros _. by eexists.
    + split; [intros [?|?]; [congruence|tauto]|]. intros ?. right. split; [done|congruence].
  - destruct Hl as [[Es ->]|[[e Es] ->]]; unfold list_add, list_add_tail.
    + apply StronglySorted_cons. split; [|by apply sorted_change]. apply Forall_forall.
      intros y _ (w & e & Ew & Hw). rewrite lookup_insert_eq in Ew. injection Ew as <-.
      simpl in Hw. congruence.
    + apply StronglySorted_app. split; [|split; [by apply sorted_change|]].
      * intros x y _ ->%list_elem_of_singleton _. unfold until. rewrite lookup_insert_eq. by eexists _, e.
      * apply StronglySorted_cons. split; [constructor|constructor].
Qed.

Lemma ina_ok_leave l : ina_ok m l -> s <> Off \/ v_init v = false -> ina_ok m' (list_del id l).
Proof using Hid.
  intros [Hnd He] Hs. split; [by apply NoDup_list_del|].
  intros x. rewrite elem_of_list_del, He. rewrite lookup_insert. case_decide as Hd.
  - subst x. split; [tauto|]. intros (w & [= <-] & Hi & Hst). simpl in *. destruct Hs; congruence.
  - split; [tauto|]. intros ?. split; [done|congruence].
Qed.

Lemma ina_ok_join l :
  ina_ok m l -> s = Off -> v_init v = true -> ina_ok m' (list_add id (list_del id l)).
Proof using Hid.
  intros [Hnd He] -> Hi. unfold list_add. split.
  - apply NoDup_cons. split; [rewrite elem_of_list_del; tauto|by apply NoDup_list_del].
  - intros x. rewrite elem_of_cons, elem_of_list_del, He. rewrite lookup_insert.
    case_decide as Hd.
    + subst x. split; [|by left]. intros _. by eexists.
    + split; [intros [?|?]; [congruence|tauto]|]. intros ?. right. split; [done|congruence].
Qed.

End change.

(** ** The invariant *)

Record winv (st : state) : Prop := {
  wi_ina : ina_ok (view st) (inactive_locks st);
  wi_suspend : act_ok (view st) WAKE_LOCK_SUSPEND (active_suspend st);
  wi_idle : act_ok (view st) WAKE_LOCK_IDLE (active_idle st);
  wi_type : forall id v, view st !! id = Some v -> v_type v = WAKE_LOCK_SUSPEND \/ v_type v = WAKE_LOCK_IDLE;
  wi_main : exists v, view st !! main_wake_lock = Some v /\ v_init v = true /\ v_type v = WAKE_LOCK_SUSPEND;
  wi_unknown : exists v, view st !! unknown_wakeup = Some v /\ v_init v = true /\ v_type v = WAKE_LOCK_SUSPEND;
  wi_deleted : exists v, view st !! deleted_wake_locks = Some v /\ v_init v = true /\ v_type v = WAKE_LOCK_SUSPEND
}.

(** The invariant depends on the view and the lists only. *)
Lemma winv_ext st st' :
  view st' = view st -> inactive_locks st' = inactive_locks st ->
  active_suspend st' = active_suspend st -> active_idle st' = active_idle st -> winv st -> winv st'.
Proof. intros Ev Ei Es Ed [? ? ? ? ? ? ?]. split; rewrite ?Ev, ?Ei, ?Es, ?Ed; done. Qed.

Lemma static_change m id v s x :
  m !! id = Some v ->
  (exists w, m !! x = Some w /\ v_init w = true /\ v_type w = WAKE_LOCK_SUSPEND) ->
  exists w, <[id := with_status v s]> m !! x = Some w /\ v_init w = true /\ v_type w = WAKE_LOCK_SUSPEND.
Proof.
  intros Hv (w & Ew & Hi & Ht). rewrite lookup_insert. case_decide; [|by exists w].
  subst. eexists. split; [done|]. simplify_eq. done.
Qed.

(** A lock taken off. *)
Lemma winv_off st st' id v :
  winv st -> view st !! id = Some v -> v_init v = true ->
  view st' = <[id := with_status v Off]> (view st) ->
  inactive_locks st' = list_add id (list_del id (inactive_locks st)) ->
  active_suspend st' = list_del id (active_suspend st) ->
  active_idle st' = list_del id (active_idle st) -> winv st'.
Proof.
  intros [Hi Hs Hd Ht Hm Hu Hx] Ev Hin Vw I S D. split; rewrite ?Vw, ?I, ?S, ?D;
    auto using ina_ok_join, act_ok_leave; try (by eapply static_change).
  intros x w. rewrite lookup_insert_Some. intros [[<- <-]|[_ Ew]]; [|by apply (Ht x)].
  apply (Ht _ _ Ev).
Qed.

(** A lock taken. *)
Lemma winv_on st st' id v s (add : list lid -> list lid) :
  winv st -> view st !! id = Some v -> v_init v = true -> s <> Off ->
  view st' = <[id := with_status v s]> (view st) ->
  inactive_locks st' = list_del id (inactive_locks st) ->
  (forall l, (s = On /\ add l = list_add id l) \/ ((exists e, s = Until e) /\ add l = list_add_tail id l)) ->
  active_suspend st' = (if bool_decide (v_type v = WAKE_LOCK_SUSPEND)
                        then add (list_del id (active_suspend st)) else list_del id (active_suspend st)) ->
  active_idle st' = (if bool_decide (v_type v = WAKE_LOCK_SUSPEND)
                     then list_del id (active_idle st) else add (list_del id (active_idle st))) -> winv st'.
Proof.
  intros [Hi Hs Hd Ht Hm Hu Hx] Ev Hin Hoff Vw I Hl S D. pose proof (Ht id v Ev) as Htv.
  split; rewrite ?Vw, ?I, ?S, ?D; auto using ina_ok_leave; try (by eapply static_change).
  - case_bd as Ht0; [|by apply act_ok_leave; auto]. eapply act_ok_join; eauto.
  - case_bd as Ht0; [apply act_ok_leave; auto; right; left; by rewrite Ht0|].
    destruct Htv as [?|Ht1]; [done|]. eapply act_ok_join; eauto.
  - intros x w. rewrite lookup_insert_Some. intros [[<- <-]|[_ Ew]]; [|by apply (Ht x)].
    apply (Ht _ _ Ev).
Qed.

(** ** The contract of [has_wake_lock] *)

(** The jiffies left before [e], negative when it has passed. *)
Definition left_of (j e : Z) : Z := s32 (e - j).

Definition expire_view (j : Z) (v : lview) : lview :=
  match v_status v with
  | Until e => if bool_decide (left_of j e <= 0) then with_status v Off else v
  | _ => v
  end.

(** A lock of the type that is active. *)
Definition is_active (type : Z) (v : lview) : Prop :=
  v_init v = true /\ v_type v = type /\ v_status v <> Off.

#[export] Instance is_active_dec type v : Decision (is_active type v).
Proof. unfold is_active. apply _. Defined.

Definition expire_all (j type : Z) (v : lview) : lview :=
  if decide (is_active type v) then expire_view j v else v.

(** As [include/linux/wakelock.h] documents it: -1 when a lock without a
    timeout is active, else the number of jiffies until all active locks have
    timed out, 0 when none is left.  Locks whose time has passed are taken
    off. *)
Inductive has_spec (j type : Z) (m : gmap lid lview) : gmap lid lview -> Z -> Prop :=
  | has_on id v :
      m !! id = Some v -> is_active type v -> v_status v = On -> has_spec j type m m (-1)
  | has_timeout ret :
      (forall id v, m !! id = Some v -> is_active type v -> v_status v <> On) ->
      0 <= ret < two31 ->
      (forall id v e, m !! id = Some v -> is_active type v -> v_status v = Until e -> left_of j e <= ret) ->
      ret = 0 \/ (exists id v e, m !! id = Some v /\ is_active type v /\ v_status v = Until e /\
                    left_of j e = ret) ->
      has_spec j type m (expire_all j type <$> m) ret.

(** The part of the state the statistics do not touch. *)
Record astate := mk_a {
  a_locks : gmap lid lview;
  a_event : Z;
  a_timer : option Z;
  a_work : bool
}.

Definition abs (st : state) : astate :=
  mk_a (view st) (current_event_num st) (expire_timer st) (suspend_work st).

Definition with_locks (a : astate) (m : gmap lid lview) : astate :=
  mk_a m (a_event a) (a_timer a) (a_work a).

Lemma expire_wake_lock_ok clk st id v :
  winv st -> view st !! id = Some v -> v_init v = true ->
  exists st', expire_wake_lock clk st id = Some st' /\ winv st' /\
    abs st' = with_locks (abs st) (<[id := with_status v Off]> (view st)).
Proof.
  intros Hw Ev Hi. destruct (view_lookup st id v Ev) as (lock & El & Hv).
  unfold expire_wake_lock. rewrite El. simpl.
  eexists. split; [done|].
  assert (Hview : view_of (set_flags (wake_unlock_stat_locked clk st lock true)
      (Z.land (flags (wake_unlock_stat_locked clk st lock true))
         (Z.lnot (Z.lor WAKE_LOCK_ACTIVE WAKE_LOCK_AUTO_EXPIRE)))) = with_status v Off)
    by (by rewrite view_off, view_unlock_stat, Hv).
  set (lock' := set_flags _ _) in *.
  assert (Hvw : view (add_inactive (unlink (set_lock st id lock') id) id)
                = <[id := with_status v Off]> (view st))
    by (by rewrite <- Hview, <- view_set_lock).
  split; [by eapply winv_off|]. unfold abs, with_locks. by rewrite Hvw.
Qed.

Lemma flag_until lock e : status_of lock = Until e ->
  flag (flags lock) WAKE_LOCK_AUTO_EXPIRE = true /\ expires lock = e.
Proof.
  unfold status_of. destruct (flag (flags lock) WAKE_LOCK_ACTIVE); [|done].
  destruct (flag (flags lock) WAKE_LOCK_AUTO_EXPIRE); [|done]. intros [= <-]. done.
Qed.

Lemma flag_on lock : status_of lock = On -> flag (flags lock) WAKE_LOCK_AUTO_EXPIRE = false.
Proof.
  unfold status_of. destruct (flag (flags lock) WAKE_LOCK_ACTIVE); [|done].
  by destruct (flag (flags lock) WAKE_LOCK_AUTO_EXPIRE).
Qed.

(** The loop over locks that all have a timeout. *)
Lemma has_loop_ok clk l : forall st mx,
  winv st -> NoDup l -> 0 <= mx < two31 ->
  (forall id, id ∈ l -> exists v e, view st !! id = Some v /\ v_init v = true /\ v_status v = Until e) ->
  exists st' ret, has_wake_lock_loop clk st l mx = Some (st', ret) /\ winv st' /\
    (exists m', abs st' = with_locks (abs st) m') /\
    (forall id, view st' !! id =
       if decide (id ∈ l) then expire_view (jiffies clk) <$> view st !! id else view st !! id) /\
    mx <= ret < two31 /\
    (forall id v e, id ∈ l -> view st !! id = Some v -> v_status v = Until e ->
       left_of (jiffies clk) e <= ret) /\
    (ret = mx \/ exists id v e, id ∈ l /\ view st !! id = Some v /\ v_status v = Until e /\
       left_of (jiffies clk) e = ret).
Proof.
  induction l as [|id l IH]; intros st mx Hw Hnd Hmx Hl; simpl.
  { exists st, mx. split; [done|]. split; [done|]. split; [by eexists|]. split; [done|].
    split; [lia|]. split; [by intros ??? ?%not_elem_of_nil|by left]. }
  apply NoDup_cons in Hnd as [Hnin Hnd].
  destruct (Hl id) as (v & e & Ev & Hi & Hs); [by left|].
  destruct (view_lookup st id v Ev) as (lock & El & Hv). rewrite El. simpl.
  assert (Hst : status_of lock = Until e) by (rewrite <- Hs, <- Hv; done).
  destruct (flag_until lock e Hst) as [-> ->].
  change (s32 (e - jiffies clk)) with (left_of (jiffies clk) e).
  assert (Hexp : expire_view (jiffies clk) v
    = if bool_decide (left_of (jiffies clk) e <= 0) then with_status v Off else v)
    by (unfold expire_view; by rewrite Hs).
  case_bd as Hle.
  - destruct (expire_wake_lock_ok clk st id v Hw Ev Hi) as (st1 & -> & Hw1 & A1). simpl.
    assert (V1 : view st1 = <[id := with_status v Off]> (view st)) by (by injection A1).
    assert (Hoth : forall x, x ∈ l -> view st1 !! x = view st !! x).
    { intros x Hx. rewrite V1, lookup_insert_ne; [done|]. by intros ->. }
    destruct (IH st1 mx) as (st' & ret & -> & Hw' & [m' A'] & V' & Hr & Hub & Hat); try done.
    { intros x Hx. rewrite Hoth by done. apply Hl. by right. }
    exists st', ret. split; [done|]. split; [done|]. split; [exists m'; by rewrite A', A1|].
    split; [|split; [done|split]].
    + intros x. rewrite V'. destruct (decide (x = id)) as [->|Hne].
      * rewrite decide_False, decide_True by (done || by left). rewrite V1, lookup_insert_eq, Ev.
        simpl. by rewrite Hexp.
      * rewrite V1, lookup_insert_ne by done.
        by rewrite (decide_ext (x ∈ id :: l) (x ∈ l)) by (rewrite elem_of_cons; tauto).
    + intros x w e' [->|Hx]%elem_of_cons Ew Hw0; [|by eapply Hub; [|rewrite Hoth|]]. simplify_eq.
      rewrite Hs in Hw0. simplify_eq. lia.
    + destruct Hat as [?|(x & w & e' & ? & Ew & ?)]; [by left|]. right. exists x, w, e'.
      rewrite Hoth in Ew by done. split; [by right|done].
  - set (mx' := if bool_decide (left_of (jiffies clk) e > mx) then _ else _).
    assert (Hmx' : mx <= mx' < two31 /\ left_of (jiffies clk) e <= mx' /\
                   (mx' = mx \/ left_of (jiffies clk) e = mx')).
    { pose proof (s32_range (e - jiffies clk)). unfold mx', left_of in *. case_bd; lia. }
    destruct (IH st mx') as (st' & ret & -> & Hw' & A' & V' & Hr & Hub & Hat); try done; [lia|..].
    { intros x Hx. apply Hl. by right. }
    exists st', ret. split; [done|]. split; [done|]. split; [done|]. split; [|split; [lia|split]].
    + intros x. rewrite V'. destruct (decide (x = id)) as [->|Hne].
      * rewrite decide_False, decide_True by (done || by left). rewrite Ev. simpl. by rewrite Hexp.
      * by rewrite (decide_ext (x ∈ id :: l) (x ∈ l)) by (rewrite elem_of_cons; tauto).
    + intros x w e' [->|Hx]%elem_of_cons Ew Hw0; [|by eapply Hub]. simplify_eq.
      rewrite Hs in Hw0. simplify_eq. lia.
    + destruct Hat as [->|(x & w & e' & ? & Ew & ?)].
      * destruct Hmx' as (_ & _ & [?|?]); [by left|]. right. exists id, v, e. by split; [left|].
      * right. exists x, w, e'. by split; [right|].
Qed.

Definition valid_type (type : Z) : Prop := type = WAKE_LOCK_SUSPEND \/ type = WAKE_LOCK_IDLE.

Lemma winv_active st type l :
  winv st -> active_wake_locks st type = Some l -> act_ok (view st) type l.
Proof.
  intros Hw. unfold active_wake_locks. repeat case_bd; intros; simplify_eq; apply Hw.
Qed.

(** Sorted: when the first lock has a timeout, all have. *)
Lemma all_until m type id l :
  act_ok m type (id :: l) -> until m id -> forall x, x ∈ id :: l -> until m x.
Proof.
  intros [_ _ Ho] Hid x [->|Hx]%elem_of_cons; [done|].
  apply StronglySorted_cons in Ho as [Hf _]. rewrite Forall_forall in Hf. by apply (Hf x Hx).
Qed.

Lemma has_wake_lock_locked_ok clk st type :
  winv st -> valid_type type ->
  exists st' ret m', has_wake_lock_locked clk st type = Some (st', ret) /\ winv st' /\
    abs st' = with_locks (abs st) m' /\ has_spec (jiffies clk) type (view st) m' ret.
Proof.
  intros Hw Hty. unfold has_wake_lock_locked.
  rewrite bool_decide_eq_false_2 by (unfold WAKE_LOCK_TYPE_COUNT; destruct Hty as [->| ->];
    unfold WAKE_LOCK_SUSPEND, WAKE_LOCK_IDLE; lia).
  destruct (active_wake_locks st type) as [l|] eqn:El;
    [|destruct Hty as [->| ->]; unfold active_wake_locks in El; done].
  pose proof (winv_active st type l Hw El) as Hact. simpl.
  assert (Hempty : forall st, abs st = with_locks (abs st) (view st)) by done.
  assert (Hgen : (forall id, id ∈ l -> until (view st) id) ->
    exists st' ret m', has_wake_lock_loop clk st l 0 = Some (st', ret) /\ winv st' /\
      abs st' = with_locks (abs st) m' /\ has_spec (jiffies clk) type (view st) m' ret).
  { intros Hall. destruct Hact as [Hnd He _].
    destruct (has_loop_ok clk l st 0) as (st' & ret & -> & Hw' & [m' A'] & V' & Hr & Hub & Hat); try done.
    { intros id Hin. destruct (Hall id Hin) as (v & e & Ev & Hs).
      apply He in Hin as (w & Ew & ? & _ & _). exists v, e. by simplify_eq. }
    exists st', ret, m'. split; [done|]. split; [done|]. split; [done|].
    assert (m' = view st') as -> by (by injection A').
    assert (Hmem : forall id v, view st !! id = Some v -> is_active type v <-> id ∈ l).
    { intros id v Ev. rewrite He. unfold is_active. split; [by exists v|].
      intros (w & Ew & ?). simplify_eq. done. }
    replace (view st') with (expire_all (jiffies clk) type <$> view st).
    2: { apply map_eq. intros id. rewrite V', lookup_fmap.
         destruct (view st !! id) as [v|] eqn:Ev; simpl; [|by case_decide].
         unfold expire_all. specialize (Hmem id v Ev).
         destruct (decide (is_active type v)), (decide (id ∈ l)); simpl; tauto. }
    apply has_timeout.
    - intros id v Ev Ha. apply (Hmem id v Ev) in Ha. destruct (Hall id Ha) as (w & e & Ew & Hs).
      rewrite Ev in Ew. injection Ew as <-. congruence.
    - lia.
    - intros id v e Ev Ha Hs. eapply (Hub id v e); [by apply (Hmem id v Ev)|done..].
    - destruct Hat as [?|(id & v & e & Hin & Ev & ? & ?)]; [by left|right].
      exists id, v, e. split; [done|]. split; [by apply (Hmem id v Ev)|done]. }
  destruct l as [|id l]; [apply Hgen; by intros ? ?%not_elem_of_nil|].
  pose proof (proj1 (ac_elem _ _ _ Hact id) (list_elem_of_here _ _)) as (v & Ev & Hi & Ht & Hs).
  destruct (v_status v) as [| |e] eqn:Est; [done| |].
  - destruct (view_lookup st id v Ev) as (lock & Elk & Hv). simpl. rewrite Elk. simpl.
    rewrite flag_on by (by rewrite <- Est, <- Hv). eexists _, _, (view st).
    split; [done|]. split; [done|]. split; [done|]. eapply has_on; try done.
    split; [done|]. split; [done|]. congruence.
  - apply Hgen. eapply all_until; [done|]. by exists v, e.
Qed.

(** ** The operations on the abstract state *)

(** Re-evaluating the suspend locks: arm the timer, or queue the work. *)
Definition a_arm (j : Z) (a : astate) (ret : Z) : astate :=
  mk_a (a_locks a) (a_event a) (if bool_decide (ret > 0) then Some (j +u ret) else None)
    (bool_decide (ret = 0) || a_work a).

Definition a_eval (j : Z) (a a' : astate) : Prop :=
  exists m' ret, has_spec j WAKE_LOCK_SUSPEND (a_locks a) m' ret /\ a' = a_arm j (with_locks a m') ret.

Definition a_event_inc (a : astate) : astate :=
  mk_a (a_locks a) (s32 (a_event a + 1)) (a_timer a) (a_work a).

(** [timeout = None] is [wake_lock]. *)
Definition a_lock (j : Z) (id : lid) (timeout : option Z) (a a' : astate) : Prop :=
  exists v, a_locks a !! id = Some v /\
    let s := match timeout with Some t => Until (j +u t) | None => On end in
    let a1 := with_locks a (<[id := with_status v s]> (a_locks a)) in
    if bool_decide (v_type v = WAKE_LOCK_SUSPEND)
    then match timeout with
         | Some _ => a_eval j (a_event_inc a1) a'
         | None => a' = a_arm j (a_event_inc a1) (-1)
         end
    else a' = a1.

Definition a_unlock (j : Z) (id : lid) (a a' : astate) : Prop :=
  exists v, a_locks a !! id = Some v /\
    let a1 := with_locks a (<[id := with_status v Off]> (a_locks a)) in
    if bool_decide (v_type v = WAKE_LOCK_SUSPEND) then a_eval j a1 a' else a' = a1.

Lemma abs_arm clk st ret : abs (arm_or_queue clk st ret) = a_arm (jiffies clk) (abs st) ret.
Proof.
  unfold arm_or_queue, a_arm, abs. destruct (decide (ret > 0)).
  - rewrite !(bool_decide_eq_true_2 (ret > 0)) by done. by rewrite (bool_decide_eq_false_2 (ret = 0)) by lia.
  - rewrite !(bool_decide_eq_false_2 (ret > 0)) by done. by case_bd.
Qed.

Lemma winv_arm clk st ret : winv st -> winv (arm_or_queue clk st ret).
Proof.
  apply winv_ext; unfold arm_or_queue; repeat case_bd; done.
Qed.

Lemma winv_locks st id : winv st -> id ∈ active_suspend st -> is_Some (locks st !! id).
Proof.
  intros Hw Hin. apply (ac_elem _ _ _ (wi_suspend _ Hw)) in Hin as (v & Ev & _).
  destruct (view_lookup st id v Ev) as (lock & ? & _). by eexists.
Qed.

Lemma update_sleep_ok clk st d :
  winv st -> exists st', update_sleep_wait_stats_locked clk st d = Some st' /\ winv st' /\ abs st' = abs st.
Proof.
  intros Hw. unfold update_sleep_wait_stats_locked.
  destruct (update_sleep_loop_ok clk (last_sleep_time_update st) (ktime_get clk - last_sleep_time_update st)
    d (active_suspend st) (locks st)) as (m' & -> & Ev); [by intros; apply winv_locks|]. simpl.
  eexists. split; [done|]. split; [by eapply winv_ext; [..|done]|].
  unfold abs. simpl. f_equal. done.
Qed.

Lemma lock_static st id v :
  winv st -> view st !! id = Some v -> v_init v = true ->
  exists lock, locks st !! id = Some lock /\ view_of lock = v /\
    Z.land (flags lock) WAKE_LOCK_TYPE_MASK = v_type v /\
    flag (flags lock) WAKE_LOCK_INITIALIZED = true.
Proof.
  intros Hw Ev Hi. destruct (view_lookup st id v Ev) as (lock & El & Hv). exists lock.
  subst v. done.
Qed.

Lemma wake_lock_internal_ok clk st id v timeout (has_timeout : bool) :
  winv st -> view st !! id = Some v -> v_init v = true ->
  exists st', wake_lock_internal clk st id timeout has_timeout = Some st' /\ winv st' /\
    a_lock (jiffies clk) id (if has_timeout then Some timeout else None) (abs st) (abs st').
Proof.
  intros Hw Ev Hi. destruct (lock_static st id v Hw Ev Hi) as (lock & El & Hv & Ht & Hf).
  pose proof (wi_type _ Hw id v Ev) as Hty.
  unfold wake_lock_internal. rewrite El. simpl. rewrite Ht, Hf. simpl.
  rewrite (bool_decide_eq_false_2 (v_type v >= WAKE_LOCK_TYPE_COUNT))
    by (unfold WAKE_LOCK_TYPE_COUNT, WAKE_LOCK_SUSPEND, WAKE_LOCK_IDLE in *; lia).
  destruct (wake_lock_stats_ok clk st (v_type v) lock) as (b & lock1 & -> & Hv1).
  pose proof (view_locked clk lock1 timeout has_timeout) as Hlk. cbv zeta in Hlk.
  set (lock2 := if has_timeout then _ else _) in *. rewrite Hv1, Hv in Hlk. clearbody lock2.
  set (s := if has_timeout then Until _ else On) in *.
  set (st1 := add_active _ _ _ _).
  assert (Hv1' : view st1 = <[id := with_status v s]> (view st)).
  { rewrite <- Hlk. unfold st1, add_active. case_bd; apply (view_set_lock (set_wait st b)). }
  assert (Hw1 : winv st1).
  { apply (winv_on st st1 id v s (fun l => if has_timeout then list_add_tail id l else list_add id l)); try done.
    - unfold s. by destruct has_timeout.
    - unfold st1, add_active. by case_bd.
    - intros l. unfold s. destruct has_timeout; [right|left]; eauto.
    - unfold st1, add_active. by case_bd.
    - unfold st1, add_active. by case_bd. }
  assert (A1 : abs st1 = with_locks (abs st) (<[id := with_status v s]> (view st))).
  { unfold abs, with_locks. rewrite Hv1'. unfold st1, add_active. by case_bd. }
  assert (Hs : s = match (if has_timeout then Some timeout else None) with
                   | Some t => Until (jiffies clk +u t) | None => On end)
    by (unfold s; by destruct has_timeout).
  unfold a_lock. case_bd as Hsusp.
  2: { exists st1. split; [done|]. split; [done|]. exists v. split; [done|].
       rewrite <- Hs, bool_decide_eq_false_2 by done. done. }
  set (st2 := set_event_num st1 _).
  assert (Hw2 : winv st2) by (by eapply winv_ext; [..|exact Hw1]).
  assert (exists st3, (if bool_decide (id = main_wake_lock) then update_sleep_wait_stats_locked clk st2 true
    else a ← wake_lock_active st2 main_wake_lock;
         if negb a then update_sleep_wait_stats_locked clk st2 false else Some st2) = Some st3 /\
    winv st3 /\ abs st3 = abs st2) as (st3 & -> & Hw3 & A3).
  { case_bd; [by apply update_sleep_ok|]. unfold wake_lock_active.
    destruct (wi_main _ Hw2) as (w & Ew & _). destruct (view_lookup _ _ _ Ew) as (lk & -> & _). simpl.
    destruct (negb (flag (flags lk) WAKE_LOCK_ACTIVE)); [by apply update_sleep_ok|]. by eexists. }
  simpl. rewrite <- Hs.
  assert (A2 : abs st2 = a_event_inc (with_locks (abs st) (<[id := with_status v s]> (view st)))).
  { change (abs st2) with (a_event_inc (abs st1)). by rewrite A1. }
  destruct has_timeout; simpl.
  - rewrite Hsusp. destruct (has_wake_lock_locked_ok clk st3 WAKE_LOCK_SUSPEND Hw3) as
      (st4 & ret & m' & -> & Hw4 & A4 & Hspec); [by left|]. simpl.
    eexists. split; [done|]. split; [by apply winv_arm|]. exists v. split; [done|].
    rewrite bool_decide_eq_true_2 by done. exists m', ret. split.
    + change (view st3) with (a_locks (abs st3)) in Hspec. by rewrite A3, A2 in Hspec.
    + by rewrite abs_arm, A4, A3, A2.
  - eexists. split; [done|]. split; [by apply winv_arm|]. exists v. split; [done|].
    rewrite bool_decide_eq_true_2 by done. by rewrite abs_arm, A3, A2.
Qed.

Lemma wake_unlock_ok clk st id v :
  winv st -> view st !! id = Some v -> v_init v = true ->
  exists st', wake_unlock clk st id = Some st' /\ winv st' /\
    a_unlock (jiffies clk) id (abs st) (abs st').
Proof.
  intros Hw Ev Hi. destruct (lock_static st id v Hw Ev Hi) as (lock & El & Hv & Ht & Hf).
  unfold wake_unlock. rewrite El. simpl. rewrite Ht.
  assert (Hview : view_of (set_flags (wake_unlock_stat_locked clk st lock false)
      (Z.land (flags (wake_unlock_stat_locked clk st lock false))
         (Z.lnot (Z.lor WAKE_LOCK_ACTIVE WAKE_LOCK_AUTO_EXPIRE)))) = with_status v Off)
    by (by rewrite view_off, view_unlock_stat, Hv).
  set (lock' := set_flags _ _) in *. set (st1 := add_inactive _ _).
  assert (Hv1 : view st1 = <[id := with_status v Off]> (view st))
    by (rewrite <- Hview; apply view_set_lock).
  assert (Hw1 : winv st1) by (by eapply winv_off).
  assert (A1 : abs st1 = with_locks (abs st) (<[id := with_status v Off]> (view st)))
    by (unfold abs, with_locks; by rewrite Hv1).
  unfold a_unlock. case_bd as Hsusp.
  2: { exists st1. split; [done|]. split; [done|]. exists v. split; [done|].
       rewrite bool_decide_eq_false_2 by done. done. }
  rewrite Hsusp. destruct (has_wake_lock_locked_ok clk st1 WAKE_LOCK_SUSPEND Hw1) as
    (st2 & ret & m' & -> & Hw2 & A2 & Hspec); [by left|]. simpl.
  assert (exists st3, (if bool_decide (id = main_wake_lock)
      then update_sleep_wait_stats_locked clk (arm_or_queue clk st2 ret) false
      else Some (arm_or_queue clk st2 ret)) = Some st3 /\ winv st3 /\
      abs st3 = abs (arm_or_queue clk st2 ret)) as (st3 & -> & Hw3 & A3).
  { pose proof (winv_arm clk st2 ret Hw2). case_bd; [by apply update_sleep_ok|]. by eexists. }
  exists st3. split; [done|]. split; [done|]. exists v. split; [done|].
  rewrite bool_decide_eq_true_2 by done. exists m', ret. split.
  - change (view st1) with (a_locks (abs st1)) in Hspec. by rewrite A1 in Hspec.
  - by rewrite A3, abs_arm, A2, A1.
Qed.

End WakelockInv.
