(* ===== verification/WakelockTop.v ===== *)
(** * Wake locks: the suspend state machine

    Wake locks, the expiry timer, the suspend work and the clock as one state
    machine, any interleaving of which is a behaviour of the system; what
    holds in all its reachable states. *)

From Stdlib Require Import ZArith Lia Strings.Byte.
From stdpp Require Import base option gmap sorting list_numbers list.
From S2P Require Import Prelude Wakelock WakelockInv.

Local Open Scope Z_scope.
Local Open Scope kernel_scope.

Module WakelockTop.
Import Wakelock WakelockInv.

(** ** The machine *)

(** Where the suspend work is between its check of the locks and the return of
    [pm_suspend]: it has yet to read the event number, or it has. *)
Inductive phase := Checked | Noted (n : Z).

Record sys := mk_sys { wl : state; now : Z; worker : option phase }.

Inductive event :=
  | EvInit (id : lid) (type : Z) (name : list byte)
  | EvDestroy (id : lid)
  | EvLock (id : lid)
  | EvLockTimeout (id : lid) (timeout : Z)
  | EvUnlock (id : lid)
  | EvHas (type : Z)
  | EvTick
  | EvTimer
  | EvWork
  | EvNote
  | EvLate
  | EvReturn.

Definition exec (s : sys) (clk : clock) (ev : event) : option sys :=
  match ev with
  | EvInit id type name => st ← wake_lock_init (wl s) id type (Some name); Some (mk_sys st (now s) (worker s))
  | EvDestroy id => st ← wake_lock_destroy (wl s) id; Some (mk_sys st (now s) (worker s))
  | EvLock id => st ← wake_lock clk (wl s) id; Some (mk_sys st (now s) (worker s))
  | EvLockTimeout id t => st ← wake_lock_timeout clk (wl s) id t; Some (mk_sys st (now s) (worker s))
  | EvUnlock id => st ← wake_unlock clk (wl s) id; Some (mk_sys st (now s) (worker s))
  | EvHas type => '(st, _) ← has_wake_lock clk (wl s) type; Some (mk_sys st (now s) (worker s))
  | EvTick => Some (mk_sys (wl s) (now s +u 1) (worker s))
  | EvTimer => st ← expire_wake_locks clk (wl s); Some (mk_sys st (now s) (worker s))
  | EvWork => '(st, on) ← suspend_enter clk (wl s); Some (mk_sys st (now s) (if on : bool then Some Checked else None))
  | EvNote => Some (mk_sys (wl s) (now s) (Some (Noted (suspend_note (wl s)))))
  | EvLate => '(st, _) ← power_suspend_late clk (wl s); Some (mk_sys st (now s) (worker s))
  | EvReturn =>
      n ← (match worker s with Some (Noted n) => Some n | _ => None end);
      st ← suspend_exit clk (wl s) n;
      Some (mk_sys st (now s) None)
  end.

Definition known (st : state) (id : lid) : Prop :=
  exists v, view st !! id = Some v /\ v_init v = true.

(** When an event may happen.  Users initialise a lock before they use or destroy
    it, whatever its state then, and keep their hands off the file's own locks.
    Neither the timer nor a suspend lock on its list is 2^31 jiffies (124 days)
    late. *)
Definition enabled (s : sys) (clk : clock) (ev : event) : Prop :=
  jiffies clk = now s /\
  match ev with
  | EvInit id type _ => valid_type type /\ ~ known (wl s) id
  | EvDestroy id => id ∉ [main_wake_lock; unknown_wakeup; deleted_wake_locks] /\
      exists v, view (wl s) !! id = Some v /\ v_init v = true
  | EvLock id | EvLockTimeout id _ | EvUnlock id => known (wl s) id
  | EvHas type => valid_type type
  | EvTick => (forall T, expire_timer (wl s) = Some T -> - two31 < left_of (now s) T) /\
      (forall id v e, view (wl s) !! id = Some v -> is_active WAKE_LOCK_SUSPEND v ->
         v_status v = Until e -> - two31 < left_of (now s) e)
  | EvTimer => exists T, expire_timer (wl s) = Some T /\ left_of (now s) T <= 0
  | EvWork => suspend_work (wl s) = true /\ worker s = None
  | EvNote => worker s = Some Checked
  | EvLate | EvReturn => exists n, worker s = Some (Noted n)
  end.

(** After [wakelocks_init] succeeded. *)
Definition boot (s : sys) : Prop :=
  exists clk, wakelocks_init clk 0 0 true = Some (wl s, 0) /\ worker s = None.

Inductive reachable : sys -> Prop :=
  | reach_boot s : boot s -> reachable s
  | reach_step s clk ev s' :
      reachable s -> enabled s clk ev -> exec s clk ev = Some s' -> reachable s'.

(** [wake_lock_destroy] of an active suspend lock does not look at the other ones;
    the next call that takes or releases a suspend lock does. *)
Definition destroys_active (s : sys) (ev : event) : Prop :=
  exists id v, ev = EvDestroy id /\ view (wl s) !! id = Some v /\ is_active WAKE_LOCK_SUSPEND v.

Definition looks_over (s : sys) (ev : event) : Prop :=
  exists id v t, (ev = EvLock id \/ ev = EvLockTimeout id t \/ ev = EvUnlock id) /\
    view (wl s) !! id = Some v /\ v_type v = WAKE_LOCK_SUSPEND.

(** No active suspend lock was destroyed, or a suspend lock was taken or released
    since. *)
Inductive settled : sys -> Prop :=
  | settled_boot s : boot s -> settled s
  | settled_step s clk ev s' :
      settled s -> ~ destroys_active s ev -> enabled s clk ev -> exec s clk ev = Some s' -> settled s'
  | settled_again s clk ev s' :
      reachable s -> looks_over s ev -> enabled s clk ev -> exec s clk ev = Some s' -> settled s'.

Lemma settled_reachable s : settled s -> reachable s.
Proof. induction 1 as [s Hb|s clk ev s' _ IH _ He E|s clk ev s' Hr _ He E]; [by apply reach_boot|by eapply reach_step..]. Qed.

(** ** Progress *)

(** No suspend lock is active. *)
Definition quiet (m : gmap lid lview) : Prop :=
  forall id v, m !! id = Some v -> ~ is_active WAKE_LOCK_SUSPEND v.

(** Something will look at the locks again: a lock without a timeout is held;
    or the timer is armed for when the last lock expires; or no lock is held
    and the suspend work is queued, or runs and has seen no event. *)
Definition progress (a : astate) (j : Z) (w : option phase) : Prop :=
  (exists id v, a_locks a !! id = Some v /\ is_active WAKE_LOCK_SUSPEND v /\ v_status v = On) \/
  (exists T, a_timer a = Some T /\
     forall id v e, a_locks a !! id = Some v -> is_active WAKE_LOCK_SUSPEND v ->
       v_status v = Until e -> left_of j e <= left_of j T) \/
  (quiet (a_locks a) /\ (a_work a = true \/ w = Some Checked \/ w = Some (Noted (a_event a)))).

Lemma left_of_add j t : 0 < t < two31 -> left_of j (j +u t) = t.
Proof.
  intros Ht. unfold left_of. rewrite <- s32_u32, u32_sub_l, s32_u32.
  replace (j + t - j) with t by lia. apply s32_small. unfold two31 in *. lia.
Qed.

Lemma left_of_tick j e : - two31 < left_of j e -> left_of (j +u 1) e = left_of j e - 1.
Proof.
  unfold left_of. intros H. rewrite <- (s32_u32 (e - (j +u 1))), u32_sub_r, s32_u32.
  replace (e - (j + 1)) with (e - j - 1) by lia. revert H. generalize (e - j). intros z H.
  pose proof (s32_range z) as Hr.
  assert (Hz : s32 (s32 z - 1) = s32 z - 1) by (apply s32_small; lia).
  rewrite <- Hz. unfold s32 at 3.
  assert (Hm : forall y, s32 (z mod two32 - y) = s32 (z - y)).
  { intros y. unfold s32. by rewrite Zminus_mod_idemp_l. }
  case_bd; [by rewrite Hm|]. rewrite <- (Hm 1). unfold s32.
  replace (z mod two32 - two32 - 1) with (z mod two32 - 1 + -1 * two32) by lia.
  by rewrite Z_mod_plus_full.
Qed.

(** What [expire_all] keeps. *)
Lemma expire_all_active j type v :
  is_active type (expire_all j type v) ->
  is_active type v /\ expire_all j type v = v /\ (forall e, v_status v = Until e -> 0 < left_of j e).
Proof.
  unfold expire_all. case_decide as Ha; [|done]. unfold expire_view.
  destruct (v_status v) as [| |e] eqn:Es; [done|done|].
  case_bd as Hle; [by intros (_ & _ & [])|]. intros _. split; [done|]. split; [done|].
  intros e' [= <-]. lia.
Qed.

Lemma expire_all_other j type type' v :
  type <> type' -> is_active type' (expire_all j type v) <-> is_active type' v.
Proof.
  intros Hne. unfold expire_all. case_decide as Ha; [|done]. unfold expire_view.
  destruct Ha as (_ & Ht & _).
  destruct (v_status v) eqn:Es; try done. case_bd; [|done].
  unfold is_active. simpl. split; intros (_ & ? & _); congruence.
Qed.

Lemma expire_all_type j type v : v_type v <> type -> expire_all j type v = v.
Proof. intros Ht. unfold expire_all. case_decide as Ha; [|done]. by destruct Ha as (_ & ? & _). Qed.

(** What [has_wake_lock] leaves of a type. *)
Lemma has_spec_active j type m m' ret type' :
  has_spec j type m m' ret -> forall id v, m' !! id = Some v -> is_active type' v -> m !! id = Some v.
Proof.
  intros Hs id v. inversion Hs as [|r _ _ _ _]; subst; [done|].
  rewrite lookup_fmap_Some. intros (w & <- & Ew) Ha.
  destruct (decide (type = type')) as [->|Hne].
  - by apply expire_all_active in Ha as (_ & -> & _).
  - rewrite expire_all_type; [done|]. apply expire_all_other in Ha as (_ & ? & _); congruence.
Qed.

Lemma has_spec_on j type m m' ret type' id v :
  has_spec j type m m' ret -> m !! id = Some v -> is_active type' v -> v_status v = On ->
  m' !! id = Some v.
Proof.
  intros Hs Ev Ha Hon. inversion Hs as [|r Hn _ _ _]; subst; [done|].
  rewrite lookup_fmap, Ev. simpl. f_equal. unfold expire_all, expire_view.
  case_decide; [|done]. by rewrite Hon.
Qed.

(** A result of zero: no lock of the type is left. *)
Lemma has_spec_zero j m m' ret :
  has_spec j WAKE_LOCK_SUSPEND m m' ret -> ret = 0 <-> quiet m'.
Proof.
  intros Hs. inversion Hs as [id v Ev Ha Hon|r Hn Hr Hub Hat]; subst.
  - split; [done|]. intros Hq. by destruct (Hq id v Ev).
  - split.
    + intros -> id v. rewrite lookup_fmap_Some. intros (w & <- & Ew) Ha.
      apply expire_all_active in Ha as (Ha & _ & Hpos).
      destruct (v_status w) as [| |e] eqn:Es; [by destruct Ha as (_ & _ & [])|by apply (Hn id w)|].
      specialize (Hub id w e Ew Ha Es). specialize (Hpos e eq_refl). lia.
    + intros Hq. destruct Hat as [?|(id & v & e & Ev & Ha & Hs' & He)]; [done|].
      destruct (decide (ret = 0)) as [|Hne]; [done|]. exfalso.
      apply (Hq id v); [|done]. rewrite lookup_fmap, Ev. simpl. f_equal.
      unfold expire_all, expire_view. rewrite decide_True by done. rewrite Hs'.
      by rewrite bool_decide_eq_false_2 by lia.
Qed.

Lemma a_eval_progress j a a' w : a_eval j a a' -> progress a' j w.
Proof.
  intros (m' & ret & Hs & ->). destruct (decide (ret = 0)) as [E|Hne].
  { right; right. split; [by apply (has_spec_zero _ _ _ _ Hs)|]. left. simpl.
    by rewrite bool_decide_eq_true_2. }
  inversion Hs as [id v Ev Ha Hon|r Hn Hr Hub Hat]; subst.
  - left. by exists id, v.
  - right; left. simpl. rewrite bool_decide_eq_true_2 by lia. eexists. split; [done|].
    rewrite left_of_add by lia. intros id v e Ev Ha Hst.
    apply (has_spec_active _ _ _ _ _ WAKE_LOCK_SUSPEND Hs id v) in Ev; [|done]. by apply (Hub id v).
Qed.

(** A look at the locks that changes neither timer nor work. *)
Lemma has_progress j type a m' ret w :
  has_spec j type (a_locks a) m' ret -> progress a j w -> progress (with_locks a m') j w.
Proof.
  intros Hs [(id & v & Ev & Ha & Hon)|[(T & ET & HT)|[Hq Hw]]].
  - left. exists id, v. split; [by eapply has_spec_on|done].
  - right; left. exists T. split; [done|]. intros id v e Ev Ha Hst.
    apply (HT id v e); [by eapply has_spec_active|done..].
  - right; right. split; [|done]. intros id v Ev Ha. apply (Hq id v); [by eapply has_spec_active|done].
Qed.

(** ** Every event keeps the invariant and progress *)

Definition progressing (s : sys) : Prop := progress (abs (wl s)) (now s) (worker s).

Lemma progress_ext a a' j w :
  (forall v id, is_active WAKE_LOCK_SUSPEND v -> a_locks a' !! id = Some v <-> a_locks a !! id = Some v) ->
  a_event a' = a_event a -> a_timer a' = a_timer a -> a_work a' = a_work a ->
  progress a j w -> progress a' j w.
Proof.
  intros Hl E T W [(id & v & Ev & Ha & Hon)|[(t & ET & HT)|[Hq Hw]]].
  - left. exists id, v. split; [by apply Hl|done].
  - right; left. exists t. split; [congruence|]. intros id v e Ev Ha. apply (HT id v e); [by apply Hl|done].
  - right; right. rewrite W, E. split; [|done]. intros id v Ev Ha. apply (Hq id v); [by apply Hl|done].
Qed.

Lemma lock_good clk st id v timeout (ht : bool) w :
  winv st -> view st !! id = Some v -> v_init v = true ->
  exists st', wake_lock_internal clk st id timeout ht = Some st' /\ winv st' /\
    (progress (abs st) (jiffies clk) w \/ v_type v = WAKE_LOCK_SUSPEND -> progress (abs st') (jiffies clk) w).
Proof.
  intros Hw Ev Hi.
  destruct (wake_lock_internal_ok clk st id v timeout ht Hw Ev Hi) as (st' & E & Hw' & (v' & Ev' & Ha)).
  simpl in Ev'. rewrite Ev in Ev'. injection Ev' as <-.
  exists st'. split; [done|]. split; [done|]. intros Hp. revert Ha. cbv zeta. case_bd as Hty.
  - destruct ht; [by apply a_eval_progress|]. intros ->. left. exists id, (with_status v On).
    simpl. rewrite lookup_insert_eq. done.
  - destruct Hp as [Hp|?]; [|done]. intros ->. eapply (progress_ext (abs st)); [|done..|exact Hp]. intros x i (Hxi & Hxt & Hxs). simpl.
    rewrite lookup_insert_Some. split; [intros [[<- <-]|[_ ?]]; [done|done]|].
    intros Ex. right. split; [|done]. intros <-. congruence.
Qed.

Lemma unlock_good clk st id v w :
  winv st -> view st !! id = Some v -> v_init v = true ->
  exists st', wake_unlock clk st id = Some st' /\ winv st' /\
    (progress (abs st) (jiffies clk) w \/ v_type v = WAKE_LOCK_SUSPEND -> progress (abs st') (jiffies clk) w).
Proof.
  intros Hw Ev Hi.
  destruct (wake_unlock_ok clk st id v Hw Ev Hi) as (st' & E & Hw' & (v' & Ev' & Ha)).
  simpl in Ev'. rewrite Ev in Ev'. injection Ev' as <-.
  exists st'. split; [done|]. split; [done|]. intros Hp. revert Ha. cbv zeta. case_bd as Hty; [by apply a_eval_progress|].
  destruct Hp as [Hp|?]; [|done]. intros ->. eapply (progress_ext (abs st)); [|done..|exact Hp]. intros x i (Hxi & Hxt & Hxs). simpl.
  rewrite lookup_insert_Some. split; [intros [[<- <-]|[_ ?]]; [done|done]|].
  intros Ex. right. split; [|done]. intros <-. congruence.
Qed.

(** A lock that is off appears or disappears. *)
Lemma act_ok_inert m m' type l :
  (forall id v, is_active type v -> m' !! id = Some v <-> m !! id = Some v) ->
  act_ok m type l -> act_ok m' type l.
Proof.
  intros Hm [Hnd He Ho]. split; [done| |].
  - intros id. rewrite He. split; intros (v & Ev & ? & ? & ?); exists v;
      (split; [apply Hm; [|done]; split; done|done]).
  - eapply sorted_weaken; [|exact Ho]. intros x y Hx Hy Hxy (v & e & Ev & Hv).
    apply He in Hx as (vx & Ex & ? & ? & ?). apply He in Hy as (vy & Ey & ? & ? & ?).
    assert (Ex' : m' !! x = Some vx) by (by apply Hm).
    assert (Ey' : m' !! y = Some vy) by (by apply Hm).
    rewrite Ex' in Ev. injection Ev as <-.
    destruct (Hxy ltac:(by exists vx, e)) as (w & e' & Ew & Hwe). rewrite Ey in Ew. injection Ew as <-.
    by exists vy, e'.
Qed.

Lemma winv_insert_off st st' id type :
  winv st -> ~ known st id -> valid_type type ->
  view st' = <[id := mk_view true type Off]> (view st) ->
  inactive_locks st' = list_add id (inactive_locks st) ->
  active_suspend st' = active_suspend st -> active_idle st' = active_idle st -> winv st'.
Proof.
  intros [Hi Hs Hd Ht Hm Hu Hx] Hk Hty Vw I S D.
  assert (Hinert : forall ty x v, is_active ty v ->
    <[id := mk_view true type Off]> (view st) !! x = Some v <-> view st !! x = Some v).
  { intros ty x v Ha. rewrite lookup_insert_Some. split.
    - intros [[<- <-]|[_ ?]]; [by destruct Ha as (_ & _ & [])|done].
    - intros Ex. right. split; [|done]. intros <-. apply Hk. exists v. by destruct Ha. }
  assert (Hst : forall x, (exists v, view st !! x = Some v /\ v_init v = true /\ v_type v = WAKE_LOCK_SUSPEND) ->
    exists v, <[id := mk_view true type Off]> (view st) !! x = Some v /\ v_init v = true /\ v_type v = WAKE_LOCK_SUSPEND).
  { intros x (v & Ev & ? & ?). exists v. rewrite lookup_insert_ne; [done|]. intros ->. apply Hk. by exists v. }
  split; rewrite ?Vw, ?I, ?S, ?D; auto.
  - destruct Hi as [Hnd He]. unfold list_add. split.
    + apply NoDup_cons. split; [|done]. rewrite He. intros (v & Ev & ? & _). apply Hk. by exists v.
    + intros x. rewrite elem_of_cons, He, lookup_insert. case_decide as Hd'.
      * subst. split; [|by left]. intros _. by eexists.
      * split; [intros [?|?]; [congruence|done]|by right].
  - eapply act_ok_inert; [|done]. intros x v Ha. by eapply Hinert.
  - eapply act_ok_inert; [|done]. intros x v Ha. by eapply Hinert.
  - intros x v. rewrite lookup_insert_Some. intros [[<- <-]|[_ Ev]]; [done|by apply (Ht x)].
Qed.

(** A lock goes, with its place on a list. *)
Lemma act_ok_del m type l id w : act_ok m type l -> v_init w = false -> act_ok (<[id := w]> m) type (list_del id l).
Proof.
  intros [Hnd He Ho] Hw. split; [by apply NoDup_list_del| |].
  - intros x. rewrite elem_of_list_del, He, lookup_insert. case_decide as Hx; [subst x; split; [tauto|intros (v & [= <-] & ? & _); congruence]|].
    split; [tauto|]. intros Hv. split; [done|congruence].
  - eapply sorted_weaken; [|by apply sorted_del, Ho]. intros x y [_ Hx]%elem_of_list_del [_ Hy]%elem_of_list_del. unfold until. by rewrite !lookup_insert_ne by done.
Qed.

Lemma view_destroyed lock :
  view_of (set_flags lock (Z.land (flags lock) (Z.lnot WAKE_LOCK_INITIALIZED)))
  = mk_view false (v_type (view_of lock)) (v_status (view_of lock)).
Proof. by flag_simp. Qed.

Lemma add_deleted_stat_ok st s :
  (exists w, view st !! deleted_wake_locks = Some w) ->
  exists st', add_deleted_stat st s = Some st' /\ abs st' = abs st /\
    inactive_locks st' = inactive_locks st /\ active_suspend st' = active_suspend st /\
    active_idle st' = active_idle st.
Proof.
  intros (w & Ew). unfold add_deleted_stat. case_bd; [|by exists st].
  destruct (view_lookup _ _ _ Ew) as (d & -> & Hd). simpl.
  eexists. split; [done|]. split; [|done]. unfold abs. f_equal. rewrite view_set_lock, view_set_stat, Hd.
  by apply insert_id.
Qed.

Lemma destroy_good st id v :
  winv st -> id ∉ [main_wake_lock; unknown_wakeup; deleted_wake_locks] ->
  view st !! id = Some v -> v_init v = true ->
  exists st', wake_lock_destroy st id = Some st' /\ winv st' /\
    abs st' = with_locks (abs st) (<[id := mk_view false (v_type v) (v_status v)]> (view st)).
Proof.
  intros Hw Hid Ev Hi. destruct (view_lookup st id v Ev) as (lock & El & Hv).
  unfold wake_lock_destroy. rewrite El. simpl.
  set (lock' := set_flags lock _). set (v' := mk_view false (v_type v) (v_status v)).
  assert (Hl' : view_of lock' = v') by (unfold lock'; rewrite view_destroyed, Hv; done).
  set (st1 := set_lock st id lock').
  assert (V1 : view st1 = <[id := v']> (view st)) by (unfold st1; by rewrite view_set_lock, Hl').
  assert (Hd1 : exists w, view st1 !! deleted_wake_locks = Some w).
  { destruct (wi_deleted _ Hw) as (w & Ew & _). exists w. rewrite V1, lookup_insert_ne; [done|].
    intros ->. apply Hid. by right; right; left. }
  destruct (add_deleted_stat_ok st1 (stat lock) Hd1) as (st2 & E2 & A2 & I2 & S2 & D2).
  change (inactive_locks st1) with (inactive_locks st) in I2.
  change (active_suspend st1) with (active_suspend st) in S2.
  change (active_idle st1) with (active_idle st) in D2.
  rewrite E2. simpl. eexists. split; [done|].
  assert (V2 : view (unlink st2 id) = <[id := v']> (view st)).
  { change (view (unlink st2 id)) with (a_locks (abs st2)). by rewrite A2. }
  split.
  2: { change (abs (unlink st2 id)) with (abs st2). rewrite A2. unfold abs, with_locks. simpl. by rewrite V1. }
  destruct Hw as [[Hnd He] Hs Hd Ht Hm Hu Hx].
  assert (Hst : forall x, x ∈ [main_wake_lock; unknown_wakeup; deleted_wake_locks] ->
    (exists w, view st !! x = Some w /\ v_init w = true /\ v_type w = WAKE_LOCK_SUSPEND) ->
    exists w, <[id := v']> (view st) !! x = Some w /\ v_init w = true /\ v_type w = WAKE_LOCK_SUSPEND).
  { intros x Hin (w & Ew & ? & ?). exists w. rewrite lookup_insert_ne; [done|]. by intros ->. }
  split; rewrite ?V2; simpl; rewrite ?I2, ?S2, ?D2.
  - split; [by apply NoDup_list_del|]. intros x. rewrite elem_of_list_del, He, lookup_insert.
    case_decide as Hd'; [|split; [tauto|intros ?; split; [done|congruence]]].
    subst. split; [tauto|]. intros (w & [= <-] & ? & _). done.
  - by apply act_ok_del.
  - by apply act_ok_del.
  - intros x w. rewrite lookup_insert_Some. intros [[<- <-]|[_ Ew]]; [apply (Ht _ _ Ev)|by apply (Ht x)].
  - apply Hst; [by left|done].
  - apply Hst; [by right; left|done].
  - apply Hst; [by right; right; left|done].
Qed.

(** The state after [wakelocks_init]: the main lock is held. *)
Lemma boot_ok clk :
  exists st, wakelocks_init clk 0 0 true = Some (st, 0) /\
    inactive_locks st = [unknown_wakeup; deleted_wake_locks] /\
    active_suspend st = [main_wake_lock] /\ active_idle st = [] /\
    view st = <[unknown_wakeup := mk_view true 0 Off]> (<[main_wake_lock := mk_view true 0 On]>
                {[deleted_wake_locks := mk_view true 0 Off]}).
Proof.
  eexists. split; [vm_compute; reflexivity|]. repeat split.
Qed.

Lemma boot_good s : boot s -> winv (wl s) /\ progressing s.
Proof.
  intros (clk & E & Hwk). destruct (boot_ok clk) as (st & E' & I & S & D & V).
  rewrite E in E'. injection E' as E'. split.
  - rewrite E'. split; rewrite ?I, ?S, ?D, ?V.
    + split; [repeat constructor; set_solver|]. intros id. split.
      * rewrite !elem_of_cons, elem_of_nil. intros [->|[->|[]]]; eexists; split; [reflexivity|done|reflexivity|done].
      * intros (v & Ev & _ & Hs). rewrite !lookup_insert_Some, lookup_singleton_Some in Ev.
        destruct Ev as [[<- <-]|[_ [[<- <-]|[_ [<- <-]]]]]; [by left|done|by right; left].
    + split; [repeat constructor; set_solver| |repeat constructor]. intros id. split.
      * intros ->%list_elem_of_singleton. by eexists.
      * intros (v & Ev & _ & _ & Hs). rewrite !lookup_insert_Some, lookup_singleton_Some in Ev.
        destruct Ev as [[<- <-]|[_ [[<- <-]|[_ [<- <-]]]]]; [done|by left|done].
    + split; [constructor| |constructor]. intros id. split; [by intros ?%not_elem_of_nil|].
      intros (v & Ev & _ & Ht & _). rewrite !lookup_insert_Some, lookup_singleton_Some in Ev.
      by destruct Ev as [[<- <-]|[_ [[<- <-]|[_ [<- <-]]]]].
    + intros id v Ev. rewrite !lookup_insert_Some, lookup_singleton_Some in Ev.
      destruct Ev as [[<- <-]|[_ [[<- <-]|[_ [<- <-]]]]]; by left.
    + by eexists.
    + by eexists.
    + by eexists.
  - left. exists main_wake_lock, (mk_view true 0 On). simpl. rewrite E', V. done.
Qed.

Lemma tick_progress a j w :
  (forall T, a_timer a = Some T -> - two31 < left_of j T) ->
  (forall id v e, a_locks a !! id = Some v -> is_active WAKE_LOCK_SUSPEND v ->
     v_status v = Until e -> - two31 < left_of j e) ->
  progress a j w -> progress a (j +u 1) w.
Proof.
  intros HT Hb [Hon|[(T & ET & Hle)|Hq]]; [by left| |by right; right].
  right; left. exists T. split; [done|]. intros id v e Ev Ha Hs.
  specialize (Hle id v e Ev Ha Hs). specialize (HT T ET). specialize (Hb id v e Ev Ha Hs).
  rewrite !left_of_tick by done. lia.
Qed.

(** A due timer finds the locks expired and queues the work. *)
Lemma timer_progress j a T m' ret w :
  progress a j w -> a_timer a = Some T -> left_of j T <= 0 ->
  has_spec j WAKE_LOCK_SUSPEND (a_locks a) m' ret ->
  (ret = -1 /\ exists id v, m' !! id = Some v /\ is_active WAKE_LOCK_SUSPEND v /\ v_status v = On) \/
  (ret = 0 /\ quiet m').
Proof.
  intros Hp ET Hdue Hs. destruct (decide (ret = 0)) as [E|Hne].
  { right. split; [done|]. by apply (has_spec_zero _ _ _ _ Hs). }
  left. inversion Hs as [id v Ev Ha Hon|r Hn Hr Hub Hat]; subst; [split; [done|]; by exists id, v|].
  exfalso. destruct Hat as [?|(id & v & e & Ev & Ha & Hst & He)]; [done|].
  destruct Hp as [(id' & v' & Ev' & Ha' & Hon)|[(T' & ET' & Hle)|[Hq _]]].
  - by apply (Hn id' v').
  - rewrite ET in ET'. injection ET' as <-. specialize (Hle id v e Ev Ha Hst). lia.
  - by apply (Hq id v).
Qed.

Lemma winv_work st b : winv st ->
  winv (mk_state (locks st) (inactive_locks st) (active_suspend st) (active_idle st)
          (current_event_num st) (last_sleep_time_update st) (wait_for_wakeup st) (expire_timer st) b).
Proof. by apply winv_ext. Qed.

Lemma winv_timer st t : winv st -> winv (set_timer st t).
Proof. by apply winv_ext. Qed.

(** One lemma per event. *)

Definition goes_well (s : sys) (clk : clock) (ev : event) : Prop :=
  exists s', exec s clk ev = Some s' /\ winv (wl s') /\
    (~ destroys_active s ev -> progressing s \/ looks_over s ev -> progressing s').

Ltac start_event := intros Hw [Hj Hen]; unfold goes_well; cbn [exec].

(** Events that do not look the locks over. *)
Ltac not_over H := destruct H as [H|(? & ? & ? & [?|[?|?]] & _)]; [|done..].

Lemma exec_init_good s clk id type name :
  winv (wl s) -> enabled s clk (EvInit id type name) -> goes_well s clk (EvInit id type name).
Proof.
  start_event.
  destruct Hen as [Hty Hk].
  destruct (winv_insert_off (wl s) (add_inactive (set_lock (wl s) id
    (mk_lock (Z.lor (Z.land type WAKE_LOCK_TYPE_MASK) WAKE_LOCK_INITIALIZED) (Some name)
       (default 0 (expires <$> locks (wl s) !! id)) (mk_stat 0 0 0 0 0 0 0))) id) id type)
    as [? ? ? ? ? ? ?]; try done.
  { change (view (add_inactive ?x id)) with (view x). rewrite view_set_lock. f_equal.
    destruct Hty as [->| ->]; reflexivity. }
  eexists. split; [done|]. simpl. split; [by split|]. intros _ Hp. not_over Hp.
  eapply (progress_ext (abs (wl s))); [|done..|exact Hp]. intros v x Ha.
  change (a_locks (abs (wl (mk_sys (add_inactive ?y id) _ _)))) with (view y). rewrite view_set_lock.
  rewrite lookup_insert_Some. split.
  - intros [[<- <-]|[_ ?]]; [|done]. exfalso. destruct Ha as (_ & _ & Ha). apply Ha.
    destruct Hty as [->| ->]; reflexivity.
  - intros Ex. right. split; [|done]. intros <-. apply Hk. exists v. by destruct Ha.
Qed.

Lemma exec_destroy_good s clk id :
  winv (wl s) -> enabled s clk (EvDestroy id) -> goes_well s clk (EvDestroy id).
Proof.
  start_event.
  destruct Hen as (Hid & v & Ev & Hi).
  destruct (destroy_good (wl s) id v Hw Hid Ev Hi) as (st' & -> & Hw' & A').
  simpl. eexists. split; [done|]. split; [done|]. intros Hn Hp. not_over Hp. unfold progressing. simpl. rewrite A'.
  eapply (progress_ext (abs (wl s))); [|done..|exact Hp]. intros x i Ha. simpl.
  rewrite lookup_insert_Some. split; [intros [[<- <-]|[_ ?]]; [by destruct Ha|done]|].
  intros Ex. right. split; [|done]. intros <-. apply Hn. by exists id, x.
Qed.

Lemma over_type s ev id v : looks_over s ev -> view (wl s) !! id = Some v ->
  ev = EvLock id \/ (exists t, ev = EvLockTimeout id t) \/ ev = EvUnlock id -> v_type v = WAKE_LOCK_SUSPEND.
Proof. intros (id' & v' & t & Hev & Hv' & Ht) Hv He. assert (id' = id) as -> by naive_solver. congruence. Qed.

Lemma exec_lock_good s clk id :
  winv (wl s) -> enabled s clk (EvLock id) -> goes_well s clk (EvLock id).
Proof.
  start_event. destruct Hen as (v & Ev & Hi).
  destruct (lock_good clk (wl s) id v 0 false (worker s) Hw Ev Hi) as (st' & E & ? & Hp).
  unfold wake_lock. rewrite E. simpl. eexists. split; [done|]. split; [done|]. unfold progressing. simpl. rewrite <- Hj.
  intros _ [?|Ho]; apply Hp; [by left|]. right. by apply (over_type s _ id v Ho); auto.
Qed.

Lemma exec_lock_timeout_good s clk id t :
  winv (wl s) -> enabled s clk (EvLockTimeout id t) -> goes_well s clk (EvLockTimeout id t).
Proof.
  start_event. destruct Hen as (v & Ev & Hi).
  destruct (lock_good clk (wl s) id v t true (worker s) Hw Ev Hi) as (st' & E & ? & Hp).
  unfold wake_lock_timeout. rewrite E. simpl. eexists. split; [done|]. split; [done|]. unfold progressing. simpl. rewrite <- Hj.
  intros _ [?|Ho]; apply Hp; [by left|]. right. apply (over_type s _ id v Ho); eauto.
Qed.

Lemma exec_unlock_good s clk id :
  winv (wl s) -> enabled s clk (EvUnlock id) -> goes_well s clk (EvUnlock id).
Proof.
  start_event. destruct Hen as (v & Ev & Hi).
  destruct (unlock_good clk (wl s) id v (worker s) Hw Ev Hi) as (st' & -> & ? & Hp).
  simpl. eexists. split; [done|]. split; [done|]. unfold progressing. simpl. rewrite <- Hj.
  intros _ [?|Ho]; apply Hp; [by left|]. right. apply (over_type s _ id v Ho); auto.
Qed.

Lemma exec_has_good s clk type :
  winv (wl s) -> enabled s clk (EvHas type) -> goes_well s clk (EvHas type).
Proof.
  start_event.
  destruct (has_wake_lock_locked_ok clk (wl s) type Hw Hen) as (st' & ret & m' & E & Hw' & A' & Hs).
  unfold has_wake_lock. rewrite E. simpl. eexists. split; [done|]. split; [done|]. intros _ Hp. not_over Hp.
  unfold progressing in *. simpl. rewrite <- Hj in *. rewrite A'. by eapply has_progress.
Qed.

Lemma exec_tick_good s clk :
  winv (wl s) -> enabled s clk EvTick -> goes_well s clk EvTick.
Proof.
  start_event.
  eexists. split; [done|]. split; [done|]. intros _ Hp. not_over Hp. destruct Hen as [HT Hb].
  by apply tick_progress.
Qed.

Lemma exec_timer_good s clk :
  winv (wl s) -> enabled s clk EvTimer -> goes_well s clk EvTimer.
Proof.
  start_event.
  destruct Hen as (T & ET & Hdue). rewrite <- Hj in Hdue. unfold expire_wake_locks.
  destruct (has_wake_lock_locked_ok clk (set_timer (wl s) None) WAKE_LOCK_SUSPEND)
    as (st' & ret & m' & E & Hw' & A' & Hs); [by apply winv_timer|by left|].
  rewrite E. simpl. eexists. split; [done|]. split; [by case_bd; [apply winv_work|]|].
  intros _ Hp. not_over Hp. unfold progressing in *. simpl. rewrite <- Hj in *.
  destruct (timer_progress (jiffies clk) (abs (wl s)) T m' ret (worker s) Hp ET Hdue Hs)
    as [(-> & id & v & Ev & Ha & Hon)|[-> Hq]]; simpl.
  - left. exists id, v. rewrite A'. done.
  - right; right. simpl.
    change (view (queue_suspend_work st')) with (a_locks (abs st')). rewrite A'. auto.
Qed.

Lemma exec_work_good s clk :
  winv (wl s) -> enabled s clk EvWork -> goes_well s clk EvWork.
Proof.
  start_event.
  destruct Hen as [Hwk Hnone]. unfold suspend_enter.
  destruct (has_wake_lock_locked_ok clk (mk_state (locks (wl s)) (inactive_locks (wl s))
    (active_suspend (wl s)) (active_idle (wl s)) (current_event_num (wl s))
    (last_sleep_time_update (wl s)) (wait_for_wakeup (wl s)) (expire_timer (wl s)) false) WAKE_LOCK_SUSPEND)
    as (st' & ret & m' & E & Hw' & A' & Hs); [by apply winv_work|by left|].
  unfold has_wake_lock. rewrite E. simpl. eexists. split; [done|]. split; [done|].
  intros _ Hp. not_over Hp. unfold progressing in *. simpl. rewrite <- Hj in *. rewrite A'.
  destruct (decide (ret = 0)) as [->|Hne].
  - rewrite bool_decide_eq_true_2 by done. right; right. split; [by apply (has_spec_zero _ _ _ _ Hs)|]. by right; left.
  - rewrite bool_decide_eq_false_2 by done.
    change (view _) with (view (wl s)) in Hs.
    destruct Hp as [Hon|[Htm|[Hq _]]].
    + by eapply has_progress; [exact Hs|left].
    + eapply has_progress; [exact Hs|]. by right; left.
    + exfalso. apply Hne. apply (has_spec_zero _ _ _ _ Hs). intros id v Ev Ha.
      apply (Hq id v); [by eapply has_spec_active|done].
Qed.

Lemma exec_note_good s clk :
  winv (wl s) -> enabled s clk EvNote -> goes_well s clk EvNote.
Proof.
  start_event.
  eexists. split; [done|]. split; [done|]. intros _ Hp. not_over Hp. unfold progressing in *. simpl.
  destruct Hp as [?|[?|[Hq Hw1]]]; [by left|by right; left|]. right; right. split; [done|].
  destruct Hw1 as [?|_]; [by left|]. by right; right.
Qed.

Lemma exec_late_good s clk :
  winv (wl s) -> enabled s clk EvLate -> goes_well s clk EvLate.
Proof.
  start_event.
  unfold power_suspend_late, has_wake_lock.
  destruct (has_wake_lock_locked_ok clk (wl s) WAKE_LOCK_SUSPEND Hw) as (st' & ret & m' & E & Hw' & A' & Hs);
    [by left|]. rewrite E. simpl. eexists. split; [done|]. split; [by eapply winv_ext; [..|exact Hw']|].
  intros _ Hp. not_over Hp. unfold progressing in *. simpl.
  change (abs (set_wait st' true)) with (abs st'). rewrite <- Hj in *. rewrite A'. by eapply has_progress.
Qed.

Lemma exec_return_good s clk :
  winv (wl s) -> enabled s clk EvReturn -> goes_well s clk EvReturn.
Proof.
  start_event.
  destruct Hen as [n Hn]. rewrite Hn. simpl. unfold suspend_exit. case_bd as He.
  - destruct (wi_unknown _ Hw) as (v & Ev & Hi & Ht).
    destruct (lock_good clk (wl s) unknown_wakeup v (HZ / 2) true None Hw Ev Hi) as (st' & E & Hw' & Hp).
    unfold wake_lock_timeout. rewrite E. simpl. eexists. split; [done|]. split; [done|].
    intros _ _. unfold progressing. simpl. rewrite <- Hj. apply Hp. by right.
  - simpl. eexists. split; [done|]. split; [done|]. intros _ Hp. not_over Hp. unfold progressing in *. simpl. rewrite Hn in Hp.
    destruct Hp as [?|[?|[Hq [?|[?|Hwk]]]]]; [by left|by right; left| |done|].
    + right; right. auto.
    + injection Hwk as Hwk. by rewrite Hwk in He.
Qed.

Lemma exec_good s clk ev : winv (wl s) -> enabled s clk ev -> goes_well s clk ev.
Proof.
  destruct ev.
  - apply exec_init_good.
  - apply exec_destroy_good.
  - apply exec_lock_good.
  - apply exec_lock_timeout_good.
  - apply exec_unlock_good.
  - apply exec_has_good.
  - apply exec_tick_good.
  - apply exec_timer_good.
  - apply exec_work_good.
  - apply exec_note_good.
  - apply exec_late_good.
  - apply exec_return_good.
Qed.

Lemma reachable_good s : reachable s -> winv (wl s).
Proof.
  induction 1 as [s Hb|s clk ev s' _ IH Hen E]; [by apply boot_good|].
  destruct (exec_good s clk ev IH Hen) as (s'' & E' & ? & _). congruence.
Qed.

Lemma settled_good s : settled s -> progressing s.
Proof.
  induction 1 as [s Hb|s clk ev s' Hs IH Hn Hen E|s clk ev s' Hr Ho Hen E]; [by apply boot_good| |].
  - destruct (exec_good s clk ev (reachable_good s (settled_reachable s Hs)) Hen) as (s'' & E' & _ & Hp).
    rewrite E in E'. injection E' as <-. apply Hp; [done|by left].
  - destruct (exec_good s clk ev (reachable_good s Hr) Hen) as (s'' & E' & _ & Hp).
    rewrite E in E'. injection E' as <-. apply Hp; [|by right]. destruct Ho as (id & v & t & Hev & _). intros (id' & v' & -> & _). naive_solver.
Qed.

(** ** A reachable state

    The machine booted at jiffy 1000, a lock 5 was initialised and taken for
    100 jiffies, and the main lock was released: the timer is armed. *)

Definition demo_clk : clock := mk_clock 1000 7000 (mk_timespec 5 0) (mk_timespec 0 0).

Definition demo_boot : sys :=
  mk_sys (default blank (fst <$> wakelocks_init demo_clk 0 0 true)) 1000 None.

Definition demo_events : list event :=
  [EvInit 5%nat WAKE_LOCK_SUSPEND [x61]; EvLockTimeout 5%nat 100; EvUnlock main_wake_lock].

Fixpoint exec_all (s : sys) (clk : clock) (evs : list event) : option sys :=
  match evs with
  | [] => Some s
  | ev :: evs => s ← exec s clk ev; exec_all s clk evs
  end.

Definition demo (n : nat) : sys := default demo_boot (exec_all demo_boot demo_clk (take n demo_events)).

(** These events neither destroy a lock nor name one that is not there. *)
Ltac demo_step n ev := eapply (settled_step (demo n) demo_clk ev); [|by intros (? & ? & ? & _)|split; [vm_compute; reflexivity|]|vm_compute; reflexivity].

Lemma demo_settled : settled (demo 3).
Proof.
  demo_step 2%nat (EvUnlock main_wake_lock); [|eexists; split; vm_compute; reflexivity].
  demo_step 1%nat (EvLockTimeout 5%nat 100); [|eexists; split; vm_compute; reflexivity].
  demo_step 0%nat (EvInit 5%nat WAKE_LOCK_SUSPEND [x61]); [|split; [by left|]; intros (v & Ev & _); vm_compute in Ev; discriminate Ev].
  apply settled_boot. exists demo_clk. split; vm_compute; reflexivity.
Qed.

Lemma demo_reachable : reachable (demo 3).
Proof. apply settled_reachable, demo_settled. Qed.

(** The last active lock is destroyed: no lock is held, the timer is not armed,
    the suspend work is not queued, and the machine stays awake. *)
Definition stuck (n : nat) : sys :=
  default demo_boot (exec_all demo_boot demo_clk
    (take n [EvInit 5%nat WAKE_LOCK_SUSPEND [x61]; EvLock 5%nat; EvUnlock main_wake_lock; EvDestroy 5%nat])).

Lemma destroy_gets_stuck : reachable (stuck 4) /\
  active_suspend (wl (stuck 4)) = [] /\ expire_timer (wl (stuck 4)) = None /\ suspend_work (wl (stuck 4)) = false /\ worker (stuck 4) = None.
Proof.
  split; [|by vm_compute].
  eapply (reach_step (stuck 3) demo_clk (EvDestroy 5%nat)); [|split; [vm_compute; reflexivity|]|vm_compute; reflexivity].
  2: { split; [by rewrite !not_elem_of_cons; split_and!; [..|apply not_elem_of_nil]|]. eexists; split; vm_compute; reflexivity. }
  eapply (reach_step (stuck 2) demo_clk (EvUnlock main_wake_lock)); [|split; [vm_compute; reflexivity|eexists; split; vm_compute; reflexivity]|vm_compute; reflexivity].
  eapply (reach_step (stuck 1) demo_clk (EvLock 5%nat)); [|split; [vm_compute; reflexivity|eexists; split; vm_compute; reflexivity]|vm_compute; reflexivity].
  eapply (reach_step (stuck 0) demo_clk (EvInit 5%nat WAKE_LOCK_SUSPEND [x61])); [|split; [vm_compute; reflexivity|]|vm_compute; reflexivity].
  - apply reach_boot. exists demo_clk. split; vm_compute; reflexivity.
  - split; [by left|]. intros (v & Ev & _). vm_compute in Ev. discriminate Ev.
Qed.

(** ** The properties *)

(** C17: in every interleaving of lock operations, clock ticks, timer
    and suspend work, no [BUG_ON] fires and the lists stay consistent: each
    initialised lock is on exactly the list its state says, active locks
    without a timeout before those with one. *)
Theorem wakelock_safe s clk ev :
  reachable s -> enabled s clk ev -> exists s', exec s clk ev = Some s' /\ winv (wl s').
Proof.
  intros Hr Hen. destruct (exec_good s clk ev (reachable_good s Hr) Hen) as (s' & ? & ? & _). eauto.
Qed.

Lemma wakelock_safe_witness :
  reachable (demo 3) /\
  exists s', exec (demo 3) demo_clk (EvHas WAKE_LOCK_SUSPEND) = Some s' /\ winv (wl s').
Proof.
  split; [exact demo_reachable|].
  apply wakelock_safe; [exact demo_reachable|]. split; [vm_compute; reflexivity|by left].
Defined.

(** C1: the system cannot get stuck awake, as long as active suspend locks are not
    destroyed.  In every state that is reached a lock without a timeout is held, or
    the timer is armed for no earlier than the last lock expires, or nothing is held
    and the suspend work is queued or running undisturbed; and when the timer fires,
    however late, with no untimed lock held, all locks are off and the suspend work
    is queued.  After an active suspend lock was destroyed this holds again from the
    next call on that takes or releases a suspend lock, and need not before
    ([destroy_gets_stuck]).  Neither the timer nor an active lock is 2^31 jiffies
    late when the clock ticks. *)
Theorem wakelock_progress s :
  settled s ->
  progress (abs (wl s)) (now s) (worker s) /\
  forall clk, enabled s clk EvTimer ->
    exists s', exec s clk EvTimer = Some s' /\
      ((exists id v, view (wl s') !! id = Some v /\ is_active WAKE_LOCK_SUSPEND v /\ v_status v = On) \/
       (quiet (view (wl s')) /\ suspend_work (wl s') = true)).
Proof.
  intros Hset. pose proof (settled_good s Hset) as Hp. unfold progressing in Hp. pose proof (reachable_good s (settled_reachable s Hset)) as Hw. split; [done|].
  intros clk [Hj (T & ET & Hdue)]. rewrite <- Hj in Hp, Hdue. cbn [exec]. unfold expire_wake_locks.
  destruct (has_wake_lock_locked_ok clk (set_timer (wl s) None) WAKE_LOCK_SUSPEND)
    as (st' & ret & m' & E & Hw' & A' & Hs); [by apply winv_timer|by left|].
  rewrite E. simpl. eexists. split; [done|]. simpl.
  assert (V : view st' = m') by (by injection A').
  destruct (timer_progress (jiffies clk) (abs (wl s)) T m' ret (worker s) Hp ET Hdue Hs)
    as [(-> & id & v & Ev & Ha & Hon)|[-> Hq]]; simpl.
  - left. exists id, v. by rewrite V.
  - right. change (view (queue_suspend_work st')) with (view st'). by rewrite V.
Qed.

Lemma wakelock_progress_witness :
  settled (demo 3) /\ progress (abs (wl (demo 3))) 1000 None.
Proof.
  split; [exact demo_settled|]. exact (proj1 (wakelock_progress (demo 3) demo_settled)).
Defined.

(** C19: the suspend work goes on to [pm_suspend], and the last
    callback lets the machine sleep, exactly when every active suspend lock
    has a timeout that has passed; afterwards no suspend lock is active. *)
Theorem wakelock_suspend_exclusion s clk :
  reachable s -> jiffies clk = now s ->
  (exists st' on, suspend_enter clk (wl s) = Some (st', on) /\
     (on = true <-> forall id v, view (wl s) !! id = Some v -> is_active WAKE_LOCK_SUSPEND v ->
        exists e, v_status v = Until e /\ left_of (now s) e <= 0) /\
     (on = true -> quiet (view st'))) /\
  (exists st' ret, power_suspend_late clk (wl s) = Some (st', ret) /\
     (ret = 0 \/ ret = - EAGAIN) /\
     (ret = 0 <-> forall id v, view (wl s) !! id = Some v -> is_active WAKE_LOCK_SUSPEND v ->
        exists e, v_status v = Until e /\ left_of (now s) e <= 0) /\
     (ret = 0 -> quiet (view st'))).
Proof.
  intros Hr Hj. pose proof (reachable_good s Hr) as Hw. rewrite <- Hj.
  assert (Hzero : forall m m' ret, has_spec (jiffies clk) WAKE_LOCK_SUSPEND m m' ret ->
    ret = 0 <-> forall id v, m !! id = Some v -> is_active WAKE_LOCK_SUSPEND v ->
        exists e, v_status v = Until e /\ left_of (jiffies clk) e <= 0).
  { intros m m' ret Hs. inversion Hs as [id v Ev Ha Hon|r Hn Hr' Hub Hat]; subst.
    - split; [done|]. intros H. destruct (H id v Ev Ha) as (e & ? & _). congruence.
    - split.
      + intros -> id v Ev Ha. destruct (v_status v) as [| |e] eqn:Es;
          [by destruct Ha as (_ & _ & [])|by destruct (Hn id v Ev Ha)|].
        exists e. split; [done|]. by apply (Hub id v).
      + intros H. destruct Hat as [?|(id & v & e & Ev & Ha & Hst & He)]; [done|].
        destruct (H id v Ev Ha) as (e' & Hst' & Hle). rewrite Hst in Hst'. injection Hst' as <-. lia. }
  split.
  - unfold suspend_enter, has_wake_lock.
    edestruct (has_wake_lock_locked_ok clk _ WAKE_LOCK_SUSPEND (winv_work (wl s) false Hw))
      as (st' & ret & m' & -> & _ & A' & Hs); [by left|]. simpl.
    assert (V : view st' = m') by (by injection A').
    eexists _, _. split; [done|]. specialize (Hzero _ _ _ Hs). pose proof (has_spec_zero _ _ _ _ Hs) as Hq.
    rewrite V. destruct (decide (ret = 0)) as [->|Hne].
    + rewrite bool_decide_eq_true_2 by done. tauto.
    + rewrite bool_decide_eq_false_2 by done. split; [|done]. split; [done|].
      intros H. by apply Hzero in H.
  - unfold power_suspend_late, has_wake_lock.
    destruct (has_wake_lock_locked_ok clk (wl s) WAKE_LOCK_SUSPEND Hw)
      as (st' & ret & m' & -> & _ & A' & Hs); [by left|]. simpl.
    assert (V : view st' = m') by (by injection A').
    eexists _, _. split; [done|]. specialize (Hzero _ _ _ Hs). pose proof (has_spec_zero _ _ _ _ Hs) as Hq.
    change (view (set_wait st' true)) with (view st'). rewrite V. destruct (decide (ret = 0)) as [->|Hne].
    + rewrite bool_decide_eq_false_2 by tauto. split; [by left|]. tauto.
    + rewrite bool_decide_eq_true_2 by done. split; [by right|]. split; [|done]. split; [done|].
      intros H. by apply Hzero in H.
Qed.

Lemma wakelock_suspend_exclusion_witness :
  exists st' ret, power_suspend_late demo_clk (wl (demo 3)) = Some (st', ret) /\
    (ret = 0 \/ ret = - EAGAIN) /\ (ret = 0 -> quiet (view st')).
Proof.
  destruct (proj2 (wakelock_suspend_exclusion (demo 3) demo_clk demo_reachable
    ltac:(vm_compute; reflexivity))) as (st' & ret & H1 & H2 & _ & H3).
  exists st', ret. exact (conj H1 (conj H2 H3)).
Defined.

(** On the abstract view (off, on, on until), [wake_lock],
    [wake_lock_timeout] and [wake_unlock] do what their names say to the one
    lock, whatever the statistics; for a suspend lock they then re-evaluate
    the locks and arm the timer or queue the suspend work. *)
Theorem wakelock_refines s clk id timeout :
  reachable s -> jiffies clk = now s -> known (wl s) id ->
  (exists st', wake_lock clk (wl s) id = Some st' /\
     a_lock (now s) id None (abs (wl s)) (abs st')) /\
  (exists st', wake_lock_timeout clk (wl s) id timeout = Some st' /\
     a_lock (now s) id (Some timeout) (abs (wl s)) (abs st')) /\
  (exists st', wake_unlock clk (wl s) id = Some st' /\
     a_unlock (now s) id (abs (wl s)) (abs st')).
Proof.
  intros Hr Hj (v & Ev & Hi). pose proof (reachable_good s Hr) as Hw. rewrite <- Hj.
  destruct (wake_lock_internal_ok clk (wl s) id v 0 false Hw Ev Hi) as (st1 & ? & _ & ?).
  destruct (wake_lock_internal_ok clk (wl s) id v timeout true Hw Ev Hi) as (st2 & ? & _ & ?).
  destruct (wake_unlock_ok clk (wl s) id v Hw Ev Hi) as (st3 & ? & _ & ?).
  split; [by exists st1|]. split; [by exists st2|by exists st3].
Qed.

Lemma wakelock_refines_witness :
  exists st', wake_unlock demo_clk (wl (demo 3)) 5%nat = Some st' /\
    a_unlock 1000 5%nat (abs (wl (demo 3))) (abs st').
Proof.
  apply (proj2 (proj2 (wakelock_refines (demo 3) demo_clk 5%nat 3 demo_reachable
    ltac:(vm_compute; reflexivity) ltac:(eexists; split; vm_compute; reflexivity)))).
Defined.

(** [has_wake_lock] returns -1 when a lock of the type without a
    timeout is active, and otherwise the number of jiffies, modulo the width
    of the clock, until the last active lock of the type times out (0 when
    none is left), taking the expired ones off and touching nothing else. *)
Theorem has_wake_lock_contract s clk type :
  reachable s -> jiffies clk = now s -> valid_type type ->
  exists st' ret m', has_wake_lock clk (wl s) type = Some (st', ret) /\
    abs st' = with_locks (abs (wl s)) m' /\ has_spec (now s) type (view (wl s)) m' ret.
Proof.
  intros Hr Hj Ht. pose proof (reachable_good s Hr) as Hw. rewrite <- Hj.
  destruct (has_wake_lock_locked_ok clk (wl s) type Hw Ht) as (st' & ret & m' & ? & _ & ? & ?).
  by exists st', ret, m'.
Qed.

Lemma has_wake_lock_contract_witness :
  exists st' ret m', has_wake_lock demo_clk (wl (demo 3)) WAKE_LOCK_SUSPEND = Some (st', ret) /\
    abs st' = with_locks (abs (wl (demo 3))) m' /\
    has_spec 1000 WAKE_LOCK_SUSPEND (view (wl (demo 3))) m' ret.
Proof.
  apply (has_wake_lock_contract (demo 3) demo_clk WAKE_LOCK_SUSPEND demo_reachable);
    [vm_compute; reflexivity|by left].
Defined.

End WakelockTop.
