(* ===== verification/EarlySuspend.v ===== *)
(** * Early suspend ([kernel/power/earlysuspend.c])

    The screen-off half of suspend: drivers register handlers, user space
    requests a state, and the work queue calls the handlers and then releases
    the main wake lock.  Requests, registrations and the work functions
    interleave: this file is a step relation over the points where the code
    takes or drops [early_suspend_lock] and [state_lock].

    The main wake lock is used through an interface, [MainWakeLock]; the wake
    locks implement it in [SuspendTop]. *)

From Stdlib Require Import ZArith Lia Strings.Byte.
From stdpp Require Import base option gmap sorting list_numbers list.
From S2P Require Import Prelude.

Local Open Scope Z_scope.

(** ** What the wake locks promise *)

Class MainWakeLock (W : Type) := {
  ml_inv : W -> Prop;
  ml_held : W -> Prop;
  ml_held_dec : forall w, Decision (ml_held w);
  ml_lock : W -> W -> Prop;
  ml_unlock : W -> W -> Prop;
  (** anything else that happens to the wake locks meanwhile *)
  ml_other : W -> W -> Prop;
  ml_lock_spec w w' : ml_inv w -> ml_lock w w' -> ml_inv w' /\ ml_held w';
  ml_unlock_spec w w' : ml_inv w -> ml_unlock w w' -> ml_inv w' /\ ~ ml_held w';
  ml_other_spec w w' : ml_inv w -> ml_other w w' -> ml_inv w' /\ (ml_held w' <-> ml_held w);
  ml_lock_total w : ml_inv w -> exists w', ml_lock w w';
  ml_unlock_total w : ml_inv w -> exists w', ml_unlock w w'
}.

Module EarlySuspend.

(** ** State *)

Definition SUSPEND_REQUESTED : Z := 0x1.
Definition SUSPENDED : Z := 0x2.
Definition SUSPEND_REQUESTED_AND_SUSPENDED : Z := Z.lor SUSPEND_REQUESTED SUSPENDED.

Definition PM_SUSPEND_ON : Z := 0.
Definition PM_SUSPEND_MEM : Z := 3.

Definition hid := nat.

(** [struct early_suspend]: whether its two callbacks are set. *)
Record handler := mk_handler { level : Z; has_suspend : bool; has_resume : bool }.

(** The work items of [suspend_work_queue] this file queues. *)
Inductive work := early_suspend_work | late_resume_work.

#[export] Instance work_eq_decision : EqDecision work.
Proof. solve_decision. Defined.

(** Where the work queue's thread is: in [early_suspend] before it takes the
    mutex, calling the handlers that are left, before [sys_sync], before the
    last check; in [late_resume] likewise. *)
Inductive pc :=
  | Idle
  | EStart | EHandlers (rest : list hid) | ESync | EFinal
  | LStart | LHandlers (rest : list hid).

(** A handler call, and what the handler's device has become by it. *)
Inductive call := CSuspend (h : hid) | CResume (h : hid).

Record es_state (W : Type) := mk_es {
  state : Z;
  requested_suspend_state : Z;
  infos : gmap hid handler;
  early_suspend_handlers : list hid;
  queue : list work;
  thread : pc;
  main : W;
  calls : list call
}.
Arguments mk_es {W}.
Arguments state {W}.
Arguments requested_suspend_state {W}.
Arguments infos {W}.
Arguments early_suspend_handlers {W}.
Arguments queue {W}.
Arguments thread {W}.
Arguments main {W}.
Arguments calls {W}.

Section model.
Context {W : Type}.
Implicit Types (s : es_state W).

Definition set_state s (x : Z) : es_state W :=
  mk_es x (requested_suspend_state s) (infos s) (early_suspend_handlers s) (queue s) (thread s)
    (main s) (calls s).
Definition set_thread s (p : pc) : es_state W :=
  mk_es (state s) (requested_suspend_state s) (infos s) (early_suspend_handlers s) (queue s) p
    (main s) (calls s).
Definition set_queue s (q : list work) : es_state W :=
  mk_es (state s) (requested_suspend_state s) (infos s) (early_suspend_handlers s) q (thread s)
    (main s) (calls s).
Definition set_main s (w : W) : es_state W :=
  mk_es (state s) (requested_suspend_state s) (infos s) (early_suspend_handlers s) (queue s) (thread s)
    w (calls s).
Definition set_requested s (x : Z) : es_state W :=
  mk_es (state s) x (infos s) (early_suspend_handlers s) (queue s) (thread s) (main s) (calls s).
Definition add_call s (c : call) : es_state W :=
  mk_es (state s) (requested_suspend_state s) (infos s) (early_suspend_handlers s) (queue s) (thread s)
    (main s) (calls s ++ [c]).

(** [queue_work]: nothing happens to a work that is pending. *)
Definition queue_work s (w : work) : es_state W :=
  if bool_decide (w ∈ queue s) then s else set_queue s (queue s ++ [w]).

(** The mutex is held while handlers run. *)
Definition mutex_held s : bool :=
  match thread s with EHandlers _ | LHandlers _ => true | _ => false end.

(** ** Registration *)

(** The loop of [register_early_suspend]: [h] is linked before the first
    handler of a higher level. *)
Fixpoint insert_handler (m : gmap hid handler) (h : hid) (l : list hid) : list hid :=
  match l with
  | [] => [h]
  | e :: l' =>
      if bool_decide (default 0 (level <$> m !! e) > default 0 (level <$> m !! h)) then h :: l
      else e :: insert_handler m h l'
  end.

Definition register_early_suspend s (h : hid) (info : handler) : es_state W :=
  let m := <[h := info]> (infos s) in
  let s := mk_es (state s) (requested_suspend_state s) m
             (insert_handler m h (early_suspend_handlers s)) (queue s) (thread s) (main s) (calls s) in
  if bool_decide (Z.land (state s) SUSPENDED <> 0) && has_suspend info
  then add_call s (CSuspend h) else s.

Definition unregister_early_suspend s (h : hid) : es_state W :=
  mk_es (state s) (requested_suspend_state s) (infos s) (list_del h (early_suspend_handlers s))
    (queue s) (thread s) (main s) (calls s).

(** ** The work functions *)

Definition suspend_of s (h : hid) : bool := default false (has_suspend <$> infos s !! h).
Definition resume_of s (h : hid) : bool := default false (has_resume <$> infos s !! h).

(** [early_suspend] up to the first release of [state_lock]. *)
Definition early_suspend_check s : es_state W :=
  if bool_decide (state s = SUSPEND_REQUESTED)
  then set_thread (set_state s (Z.lor (state s) SUSPENDED)) (EHandlers (early_suspend_handlers s))
  else set_thread s EFinal.

(** One round of its handler loop, the mutex released after the last. *)
Definition early_suspend_handler s (rest : list hid) : es_state W :=
  match rest with
  | [] => set_thread s ESync
  | h :: rest => set_thread (if suspend_of s h then add_call s (CSuspend h) else s) (EHandlers rest)
  end.

(** Its end, from the label [abort]; [w] is the wake lock state [wake_unlock]
    leaves. *)
Definition early_suspend_final s (w : W) : es_state W :=
  set_thread (if bool_decide (state s = SUSPEND_REQUESTED_AND_SUSPENDED) then set_main s w else s) Idle.

Definition late_resume_check s : es_state W :=
  if bool_decide (state s = SUSPENDED)
  then set_thread (set_state s (Z.land (state s) (Z.lnot SUSPENDED)))
         (LHandlers (reverse (early_suspend_handlers s)))
  else set_thread s Idle.

Definition late_resume_handler s (rest : list hid) : es_state W :=
  match rest with
  | [] => set_thread s Idle
  | h :: rest => set_thread (if resume_of s h then add_call s (CResume h) else s) (LHandlers rest)
  end.

(** ** Requests *)

(** [w] is the wake lock state [wake_lock] leaves. *)
Definition request_suspend_state s (new_state : Z) (w : W) : es_state W :=
  let old_sleep := Z.land (state s) SUSPEND_REQUESTED in
  let s :=
    if bool_decide (old_sleep = 0) && bool_decide (new_state <> PM_SUSPEND_ON) then
      queue_work (set_state s (Z.lor (state s) SUSPEND_REQUESTED)) early_suspend_work
    else if bool_decide (old_sleep <> 0) && bool_decide (new_state = PM_SUSPEND_ON) then
      queue_work (set_main (set_state s (Z.land (state s) (Z.lnot SUSPEND_REQUESTED))) w)
        late_resume_work
    else s in
  set_requested s new_state.

Definition get_suspend_state s : Z := requested_suspend_state s.

(** Whether that request calls [wake_lock]. *)
Definition request_locks s (new_state : Z) : bool :=
  bool_decide (Z.land (state s) SUSPEND_REQUESTED <> 0) && bool_decide (new_state = PM_SUSPEND_ON).

End model.

(** ** The steps *)

Section steps.
Context {W : Type} `{MainWakeLock W}.
Implicit Types (s : es_state W).

Inductive step : es_state W -> es_state W -> Prop :=
  | step_request s new_state w :
      (if request_locks s new_state then ml_lock (main s) w else w = main s) ->
      step s (request_suspend_state s new_state w)
  | step_register s h info :
      mutex_held s = false -> infos s !! h = None -> step s (register_early_suspend s h info)
  | step_unregister s h :
      mutex_held s = false -> h ∈ early_suspend_handlers s -> step s (unregister_early_suspend s h)
  | step_early_start s q :
      thread s = Idle -> queue s = early_suspend_work :: q ->
      step s (set_thread (set_queue s q) EStart)
  | step_late_start s q :
      thread s = Idle -> queue s = late_resume_work :: q ->
      step s (set_thread (set_queue s q) LStart)
  | step_early_check s : thread s = EStart -> step s (early_suspend_check s)
  | step_early_handler s rest : thread s = EHandlers rest -> step s (early_suspend_handler s rest)
  | step_early_sync s : thread s = ESync -> step s (set_thread s EFinal)
  | step_early_final s w :
      thread s = EFinal ->
      (if bool_decide (state s = SUSPEND_REQUESTED_AND_SUSPENDED) then ml_unlock (main s) w
       else w = main s) ->
      step s (early_suspend_final s w)
  | step_late_check s : thread s = LStart -> step s (late_resume_check s)
  | step_late_handler s rest : thread s = LHandlers rest -> step s (late_resume_handler s rest)
  | step_other s w : ml_other (main s) w -> step s (set_main s w).

(** The static initialisers, with the main lock held by [wakelocks_init]. *)
Definition initial (w : W) : es_state W := mk_es 0 PM_SUSPEND_MEM ∅ [] [] Idle w [].

Inductive reachable : es_state W -> Prop :=
  | reach_initial w : ml_inv w -> ml_held w -> reachable (initial w)
  | reach_step s s' : reachable s -> step s s' -> reachable s'.

End steps.

End EarlySuspend.
