(* ===== verification/EarlySuspendInv.v ===== *)
(** * Early suspend: the protocol with the main wake lock and the handlers

    What holds in every reachable state of the early suspend machine: the
    main wake lock is released only while the handlers are suspended, no
    request is lost, handlers are called in order of their level and, each
    one, alternately. *)

From Stdlib Require Import ZArith Lia Strings.Byte.
From stdpp Require Import base option gmap sorting list_numbers list.
From S2P Require Import Prelude EarlySuspend.

Local Open Scope Z_scope.

Module EarlySuspendInv.
Import EarlySuspend.

(** ** The handler list *)

Definition lvl (m : gmap hid handler) (h : hid) : Z := default 0 (level <$> m !! h).

Definition by_level (m : gmap hid handler) : list hid -> Prop :=
  StronglySorted (fun x y => lvl m x <= lvl m y).

Lemma insert_handler_perm m h l : insert_handler m h l ≡ₚ h :: l.
Proof.
  induction l as [|e l IH]; simpl; [done|]. case_bd; [done|]. rewrite IH. apply Permutation_swap.
Qed.

Lemma insert_handler_sorted m h l : by_level m l -> by_level m (insert_handler m h l).
Proof.
  unfold by_level. induction l as [|e l IH]; intros Hs; simpl.
  { apply StronglySorted_cons. split; constructor. }
  change (default 0 (level <$> m !! ?x)) with (lvl m x).
  pose proof Hs as [He Hl]%StronglySorted_cons. rewrite Forall_forall in He. case_bd as Hgt.
  - apply StronglySorted_cons. split; [|done]. apply Forall_forall.
    intros x [->|Hx]%elem_of_cons; [lia|]. specialize (He x Hx). simpl in He. lia.
  - apply StronglySorted_cons. split; [|by apply IH]. apply Forall_forall. intros x Hx.
    rewrite (insert_handler_perm m h l) in Hx. apply elem_of_cons in Hx as [->|Hx]; [lia|by apply He].
Qed.

Lemma by_level_agree m m' l :
  (forall x, x ∈ l -> m' !! x = m !! x) -> by_level m l -> by_level m' l.
Proof.
  unfold by_level. induction l as [|x l IH]; intros Hag Hs; [constructor|].
  apply StronglySorted_cons in Hs as [Hx Hl]. apply StronglySorted_cons. split.
  - rewrite Forall_forall in *. intros y Hy. unfold lvl. rewrite !Hag by (by left || by right). by apply Hx.
  - apply IH; [|done]. intros y Hy. apply Hag. by right.
Qed.

(** ** Calls of one handler *)

Definition call_of (h : hid) (c : call) : option bool :=
  match c with
  | CSuspend h' => if decide (h' = h) then Some true else None
  | CResume h' => if decide (h' = h) then Some false else None
  end.

(** Its calls in order, [true] for [suspend]. *)
Definition calls_of (h : hid) (cs : list call) : list bool := omap (call_of h) cs.

(** [suspend], [resume], [suspend], ... *)
Definition alternating (l : list bool) : Prop := forall i b, l !! i = Some b -> b = Nat.even i.

Definition asleep (h : hid) (cs : list call) : bool := Nat.odd (length (calls_of h cs)).

Lemma calls_of_snoc h cs c :
  calls_of h (cs ++ [c]) = calls_of h cs ++ match call_of h c with Some b => [b] | None => [] end.
Proof. unfold calls_of. rewrite omap_app. simpl. by destruct (call_of h c). Qed.

Lemma alternating_snoc l b : alternating l -> b = negb (Nat.odd (length l)) -> alternating (l ++ [b]).
Proof.
  intros Ha Hb i x Hi. apply lookup_app_Some in Hi as [Hi|[Hle Hi]]; [by apply Ha|].
  apply list_lookup_singleton_Some in Hi as [Hi <-]. assert (i = length l) as -> by lia.
  by rewrite Hb, Nat.negb_odd.
Qed.

Lemma asleep_snoc h cs c :
  asleep h (cs ++ [c]) = match call_of h c with Some _ => negb (asleep h cs) | None => asleep h cs end.
Proof.
  unfold asleep. rewrite calls_of_snoc, length_app. destruct (call_of h c); simpl.
  - by rewrite Nat.add_1_r, Nat.odd_succ, Nat.negb_odd.
  - by rewrite Nat.add_0_r.
Qed.

(** ** The invariant *)

Section inv.
Context {W : Type} `{MainWakeLock W}.
Implicit Types (s : es_state W).

Definition in_early (p : pc) : Prop :=
  p = EStart \/ (exists r, p = EHandlers r) \/ p = ESync \/ p = EFinal.

(** The state word, the queued work and the main wake lock. *)
Record ctl_inv s : Prop := {
  ci_main : ml_inv (main s);
  ci_state : state s = 0 \/ state s = 1 \/ state s = 2 \/ state s = 3;
  ci_requested : state s = 1 -> early_suspend_work ∈ queue s \/ thread s = EStart;
  ci_resume : state s = 2 -> late_resume_work ∈ queue s \/ thread s = LStart;
  ci_released : ~ ml_held (main s) -> state s = 3;
  ci_pending : state s = 3 -> early_suspend_work ∈ queue s \/ in_early (thread s) \/ ~ ml_held (main s);
  ci_loop : forall r, thread s = EHandlers r -> ml_held (main s)
}.

(** Whether the handlers of the list are asleep. *)
Definition suspended s : bool := Z.testbit (state s) 1.

(** Both callbacks are set. *)
Definition paired s (h : hid) : Prop := suspend_of s h = true /\ resume_of s h = true.

(** What a handler was told last, against where the thread is. *)
Definition told s (h : hid) : Prop :=
  match thread s with
  | EHandlers rest => asleep h (calls s) = bool_decide (h ∉ rest)
  | LHandlers rest => asleep h (calls s) = bool_decide (h ∈ rest)
  | _ => asleep h (calls s) = suspended s
  end.

Definition split_at s : Prop :=
  match thread s with
  | EHandlers rest => suspended s = true /\ exists l, early_suspend_handlers s = l ++ rest
  | LHandlers rest => suspended s = false /\ exists l, reverse (early_suspend_handlers s) = l ++ rest
  | _ => True
  end.

Record call_inv s : Prop := {
  ca_nodup : NoDup (early_suspend_handlers s);
  ca_known : forall h, h ∈ early_suspend_handlers s -> is_Some (infos s !! h);
  ca_sorted : by_level (infos s) (early_suspend_handlers s);
  ca_split : split_at s;
  ca_told : forall h, h ∈ early_suspend_handlers s -> paired s h -> told s h;
  ca_alt : forall h, paired s h -> alternating (calls_of h (calls s));
  ca_fresh : forall h, infos s !! h = None -> calls_of h (calls s) = []
}.

(** ** Control steps *)

Lemma elem_of_queue_work s w w' : w' ∈ queue (queue_work s w) <-> w' = w \/ w' ∈ queue s.
Proof.
  unfold queue_work. case_bd as Hin; simpl.
  - split; [by right|]. by intros [->|].
  - rewrite elem_of_app, list_elem_of_singleton. tauto.
Qed.

Lemma queue_work_fields s w :
  state (queue_work s w) = state s /\ thread (queue_work s w) = thread s /\
  main (queue_work s w) = main s /\ infos (queue_work s w) = infos s /\
  early_suspend_handlers (queue_work s w) = early_suspend_handlers s /\
  calls (queue_work s w) = calls s.
Proof. unfold queue_work. by case_bd. Qed.

(** What a request does to the state word. *)
Lemma request_state s new w :
  state s = 0 \/ state s = 1 \/ state s = 2 \/ state s = 3 ->
  let s' := request_suspend_state s new w in
  thread s' = thread s /\ infos s' = infos s /\
  early_suspend_handlers s' = early_suspend_handlers s /\ calls s' = calls s /\
  suspended s' = suspended s /\
  ((new <> PM_SUSPEND_ON /\ (state s = 0 \/ state s = 2) /\ state s' = state s + 1 /\
      main s' = main s /\ request_locks s new = false /\
      forall x, x ∈ queue s' <-> x = early_suspend_work \/ x ∈ queue s) \/
   (new = PM_SUSPEND_ON /\ (state s = 1 \/ state s = 3) /\ state s' = state s - 1 /\
      main s' = w /\ request_locks s new = true /\
      forall x, x ∈ queue s' <-> x = late_resume_work \/ x ∈ queue s) \/
   (state s' = state s /\ main s' = main s /\ queue s' = queue s /\ request_locks s new = false)).
Proof.
  intros Hst. unfold request_suspend_state, request_locks, suspended.
  destruct (decide (new = PM_SUSPEND_ON)) as [->|Hn].
  - rewrite (bool_decide_eq_false_2 (PM_SUSPEND_ON <> _)), (bool_decide_eq_true_2 (PM_SUSPEND_ON = _)) by tauto.
    rewrite andb_false_r, andb_true_r.
    destruct Hst as [E|[E|[E|E]]]; rewrite E;
      [rewrite bool_decide_eq_false_2 by (vm_compute; tauto)
      |rewrite bool_decide_eq_true_2 by (vm_compute; congruence)
      |rewrite bool_decide_eq_false_2 by (vm_compute; tauto)
      |rewrite bool_decide_eq_true_2 by (vm_compute; congruence)]; simpl;
      try (rewrite E; repeat split; try done; by right; right);
      match goal with |- context [queue_work ?x ?y] =>
        destruct (queue_work_fields x y) as (-> & -> & -> & -> & -> & ->);
        pose proof (elem_of_queue_work x y) end; simpl; repeat split; try done; right; left;
      repeat split; try done; try (by auto); simpl in *; firstorder.
  - rewrite (bool_decide_eq_true_2 (new <> _)), (bool_decide_eq_false_2 (new = _)) by tauto.
    rewrite !andb_false_r, andb_true_r.
    destruct Hst as [E|[E|[E|E]]]; rewrite E;
      [rewrite bool_decide_eq_true_2 by (vm_compute; tauto)
      |rewrite bool_decide_eq_false_2 by (vm_compute; congruence)
      |rewrite bool_decide_eq_true_2 by (vm_compute; tauto)
      |rewrite bool_decide_eq_false_2 by (vm_compute; congruence)]; simpl;
      try (rewrite E; repeat split; try done; by right; right);
      match goal with |- context [queue_work ?x ?y] =>
        destruct (queue_work_fields x y) as (-> & -> & -> & -> & -> & ->);
        pose proof (elem_of_queue_work x y) end; simpl; repeat split; try done; left;
      repeat split; try done; try (by auto); simpl in *; firstorder.
Qed.

Lemma request_ctl s new w :
  ctl_inv s -> (if request_locks s new then ml_lock (main s) w else w = main s) ->
  ctl_inv (request_suspend_state s new w).
Proof.
  intros [Hm Hst Hrq Hrs Hrel Hpe Hlo] Hw.
  destruct (request_state s new w Hst) as (Et & _ & _ & _ & _ & Hc).
  destruct Hc as [(Hn & Hs & Es & Em & El & Hq)|[(Hn & Hs & Es & Em & El & Hq)|(Es & Em & Eq & El)]];
    rewrite El in Hw.
  - assert (Hqe : early_suspend_work ∈ queue (request_suspend_state s new w)) by (apply Hq; by left).
    split; rewrite ?Es, ?Em, ?Et; [done|lia|by left|lia| |by left|done].
    intros Hh. specialize (Hrel Hh). lia.
  - assert (Hql : late_resume_work ∈ queue (request_suspend_state s new w)) by (apply Hq; by left).
    destruct (ml_lock_spec (main s) w Hm Hw) as [Hm' Hh'].
    split; rewrite ?Es, ?Em, ?Et; [done|lia|lia|by left|done|lia|done].
  - split; rewrite ?Es, ?Em, ?Et, ?Eq; done.
Qed.

(** Steps that leave state word, queue, thread and lock alone. *)
Lemma ctl_ext s s' :
  state s' = state s -> queue s' = queue s -> thread s' = thread s -> main s' = main s ->
  ctl_inv s -> ctl_inv s'.
Proof. intros E1 E2 E3 E4 [? ? ? ? ? ? ?]. split; by rewrite ?E1, ?E2, ?E3, ?E4. Qed.

Lemma ctl_step s s' : ctl_inv s -> step s s' -> ctl_inv s'.
Proof.
  intros Hc Hs. pose proof Hc as [Hm Hst Hrq Hrs Hrel Hpe Hlo].
  inversion Hs as [s0 new w Hw|s0 h info Hmu Hfr|s0 h Hmu Hin|s0 q Ht Hq|s0 q Ht Hq|s0 Ht|s0 rest Ht
    |s0 Ht|s0 w Ht Hw|s0 Ht|s0 rest Ht|s0 w Hw]; subst s0 s'.
  - by apply request_ctl.
  - apply (ctl_ext s); try done; unfold register_early_suspend; by destruct (bool_decide _ && _).
  - by apply (ctl_ext s).
  - rewrite Ht, Hq in *. split; simpl; try done.
    + intros E. right. done.
    + intros E. left. destruct (Hrs E) as [[?|?]%elem_of_cons|?]; try done.
    + intros E. right. left. by left.
  - rewrite Ht, Hq in *. split; simpl; try done.
    + intros E. left. destruct (Hrq E) as [[?|?]%elem_of_cons|?]; try done.
    + intros E. right. done.
    + intros E. destruct (Hpe E) as [[?|?]%elem_of_cons|[Hie|?]]; [done|by left| |by right; right].
      destruct Hie as [?|[[? ?]|[?|?]]]; done.
  - unfold early_suspend_check. rewrite Ht in *. case_bd as E.
    + rewrite E in *. split; simpl; try done; [by right; right; right|..].
      * intros _. right. left. right. left. by eexists.
      * intros r _. destruct (ml_held_dec (main s)) as [|Hh]; [done|]. by specialize (Hrel Hh).
    + split; simpl; try done.
      * intros E1. destruct (Hrs E1); [by left|done].
      * intros E1. right. left. by right; right; right.
  - unfold early_suspend_handler. rewrite Ht in *.
    destruct rest as [|h rest]; [|destruct (suspend_of s h)]; split; simpl; try done;
      try (intros E1; destruct (Hrq E1); [by left|done]);
      try (intros E1; destruct (Hrs E1); [by left|done]);
      try (intros r _; by eapply Hlo);
      intros E1; right; left; [by right; right; left|right; left; by eexists|right; left; by eexists].
  - rewrite Ht in *. split; simpl; try done;
      [intros E1; destruct (Hrq E1); [by left|done]|intros E1; destruct (Hrs E1); [by left|done]|].
    intros E1. right. left. by right; right; right.
  - unfold early_suspend_final. rewrite Ht in *. case_bd as E.
    + destruct (ml_unlock_spec (main s) w Hm Hw) as [Hm' Hh'].
      split; simpl; try done; rewrite E; try done. intros _. by right; right.
    + subst w. split; simpl; try done;
        [intros E1; destruct (Hrq E1); [by left|done]|intros E1; destruct (Hrs E1); [by left|done]].
  - unfold late_resume_check. rewrite Ht in *. case_bd as E.
    + rewrite E in *. split; simpl; try done; [by left|]. intros Hh. specialize (Hrel Hh). done.
    + split; simpl; try done.
      * intros E1. destruct (Hrq E1); [by left|done].
      * intros E1. destruct (Hpe E1) as [?|[Hie|?]]; [by left| |by right; right].
        destruct Hie as [?|[[? ?]|[?|?]]]; done.
  - unfold late_resume_handler. rewrite Ht in *.
    destruct rest as [|h rest]; [|destruct (resume_of s h)]; split; simpl; try done;
      try (intros E1; destruct (Hrq E1); [by left|done]);
      try (intros E1; destruct (Hrs E1); [by left|done]);
      intros E1; (destruct (Hpe E1) as [?|[Hie|?]]; [by left| |by right; right]);
      destruct Hie as [?|[[? ?]|[?|?]]]; done.
  - destruct (ml_other_spec (main s) w Hm Hw) as [Hm' Hh']. split; simpl; try done.
    + intros Hh. apply Hrel. by rewrite <- Hh'.
    + intros E1. by rewrite Hh'; apply Hpe.
    + intros r E1. apply Hh'. by eapply Hlo.
Qed.

(** ** Handler steps *)

(** The same handlers, infos and calls, thread outside the handler loops. *)
Lemma call_ext s s' :
  infos s' = infos s -> early_suspend_handlers s' = early_suspend_handlers s -> calls s' = calls s ->
  suspended s' = suspended s -> thread s' = thread s -> call_inv s -> call_inv s'.
Proof.
  intros E1 E2 E3 E4 E5 [? ? ? Hsp Hto Hal ?].
  assert (Hp : forall h, paired s' h <-> paired s h)
    by (intros h; unfold paired, suspend_of, resume_of; by rewrite E1).
  split; rewrite ?E1, ?E2, ?E3; try done.
  - unfold split_at in *. by rewrite E5, E4, E2.
  - intros h Hin Hpa%Hp. specialize (Hto h Hin Hpa). unfold told in *. by rewrite E5, E4, E3.
  - intros h Hpa%Hp. by apply Hal.
Qed.

Definition quiet_pc (p : pc) : Prop := match p with EHandlers _ | LHandlers _ => False | _ => True end.

(** The thread moves between points outside the loops. *)
Lemma call_move s p :
  quiet_pc (thread s) -> quiet_pc p -> call_inv s -> call_inv (set_thread s p).
Proof.
  intros Hq Hp [? ? ? Hsp Hto ? ?]. split; try done.
  - unfold split_at. by destruct p.
  - intros h Hin Hpa. specialize (Hto h Hin Hpa). unfold told in *. simpl in *.
    destruct (thread s), p; done.
Qed.

Lemma suffix_told (h h' : hid) (l rest : list hid) :
  NoDup (l ++ h :: rest) -> h' ∈ l ++ h :: rest ->
  (h' ∉ rest <-> h' = h \/ h' ∉ h :: rest) /\ (h' ∈ rest <-> h' <> h /\ h' ∈ h :: rest).
Proof.
  intros (_ & Hd & [Hn _]%NoDup_cons)%NoDup_app Hin. rewrite !elem_of_cons.
  destruct (decide (h' = h)) as [->|Hne]; [tauto|]. split; tauto.
Qed.

(** One call of a handler loop. *)
Lemma call_early s h rest :
  call_inv s -> thread s = EHandlers (h :: rest) -> call_inv (early_suspend_handler s (h :: rest)).
Proof.
  intros Hc Ht. pose proof Hc as [Hnd Hk Hso Hsp Hto Hal Hfr]. unfold split_at in Hsp. rewrite Ht in Hsp.
  destruct Hsp as (Hsu & l & El).
  assert (Hin : h ∈ early_suspend_handlers s) by (rewrite El, elem_of_app; right; by left).
  assert (Hsplit : early_suspend_handlers s = (l ++ [h]) ++ rest) by (by rewrite <- app_assoc).
  assert (Htold : forall h', h' ∈ early_suspend_handlers s -> paired s h' ->
    asleep h' (calls s) = bool_decide (h' ∉ h :: rest)).
  { intros h' Hin' Hp. specialize (Hto h' Hin' Hp). unfold told in Hto. by rewrite Ht in Hto. }
  unfold early_suspend_handler. destruct (suspend_of s h) eqn:Es.
  2: { split; try done; simpl.
       - split; [done|]. by exists (l ++ [h]).
       - intros h' Hin' Hp. unfold told. simpl. rewrite Htold by done. apply bool_decide_ext.
         rewrite El in Hnd, Hin'. destruct (suffix_told h h' l rest Hnd Hin') as [-> _].
         split; [by right|]. intros [->|?]; [|done]. destruct Hp as [Hp _].
         unfold suspend_of in *. simpl in Hp. congruence. }
  assert (Hcs : forall h', call_of h' (CSuspend h) = if decide (h = h') then Some true else None) by done.
  split; try done; simpl.
  - split; [done|]. by exists (l ++ [h]).
  - intros h' Hin' Hp. unfold told. simpl. rewrite asleep_snoc, Hcs, (Htold h' Hin' Hp).
    rewrite El in Hnd, Hin'. destruct (suffix_told h h' l rest Hnd Hin') as [Hr _].
    case_decide as Hd.
    + subst h'. rewrite bool_decide_eq_false_2 by (rewrite elem_of_cons; tauto). symmetry.
      apply bool_decide_eq_true_2. apply Hr. by left.
    + apply bool_decide_ext. rewrite Hr. split; [by right|]. intros [?|?]; [congruence|done].
  - intros h' Hp. rewrite calls_of_snoc, Hcs. case_decide as Hd; [|rewrite app_nil_r; by apply Hal].
    subst h'. apply alternating_snoc; [by apply Hal|].
    change (Nat.odd _) with (asleep h (calls s)). rewrite (Htold h Hin Hp).
    rewrite bool_decide_eq_false_2 by (rewrite elem_of_cons; tauto). done.
  - intros h' Hn. rewrite calls_of_snoc, Hcs. rewrite (Hfr h' Hn). case_decide as Hd; [|done].
    subst h'. destruct (Hk h Hin) as [? ?]. congruence.
Qed.

Lemma call_late s h rest :
  call_inv s -> thread s = LHandlers (h :: rest) -> call_inv (late_resume_handler s (h :: rest)).
Proof.
  intros Hc Ht. pose proof Hc as [Hnd Hk Hso Hsp Hto Hal Hfr]. unfold split_at in Hsp. rewrite Ht in Hsp.
  destruct Hsp as (Hsu & l & El).
  assert (Hmem : forall x, x ∈ early_suspend_handlers s <-> x ∈ l ++ h :: rest)
    by (intros x; rewrite <- El; symmetry; apply elem_of_reverse).
  assert (Hnd' : NoDup (l ++ h :: rest)) by (rewrite <- El; by rewrite reverse_Permutation).
  assert (Hin : h ∈ early_suspend_handlers s) by (apply Hmem; rewrite elem_of_app; right; by left).
  assert (Hsplit : reverse (early_suspend_handlers s) = (l ++ [h]) ++ rest) by (by rewrite <- app_assoc).
  assert (Htold : forall h', h' ∈ early_suspend_handlers s -> paired s h' ->
    asleep h' (calls s) = bool_decide (h' ∈ h :: rest)).
  { intros h' Hin' Hp. specialize (Hto h' Hin' Hp). unfold told in Hto. by rewrite Ht in Hto. }
  unfold late_resume_handler. destruct (resume_of s h) eqn:Es.
  2: { split; try done; simpl.
       - split; [done|]. by exists (l ++ [h]).
       - intros h' Hin' Hp. unfold told. simpl. rewrite Htold by done. apply bool_decide_ext.
         apply Hmem in Hin'. destruct (suffix_told h h' l rest Hnd' Hin') as [_ ->].
         split; [|tauto]. intros ?. split; [|done]. intros ->. destruct Hp as [_ Hp].
         unfold resume_of in *. simpl in Hp. congruence. }
  assert (Hcs : forall h', call_of h' (CResume h) = if decide (h = h') then Some false else None) by done.
  split; try done; simpl.
  - split; [done|]. by exists (l ++ [h]).
  - intros h' Hin' Hp. unfold told. simpl. rewrite asleep_snoc, Hcs, (Htold h' Hin' Hp).
    apply Hmem in Hin'. destruct (suffix_told h h' l rest Hnd' Hin') as [_ Hr].
    case_decide as Hd.
    + subst h'. rewrite bool_decide_eq_true_2 by (by left). symmetry.
      apply bool_decide_eq_false_2. rewrite Hr. tauto.
    + apply bool_decide_ext. rewrite Hr. split; [|tauto]. intros ?. split; [congruence|done].
  - intros h' Hp. rewrite calls_of_snoc, Hcs. case_decide as Hd; [|rewrite app_nil_r; by apply Hal].
    subst h'. apply alternating_snoc; [by apply Hal|].
    change (Nat.odd _) with (asleep h (calls s)). rewrite (Htold h Hin Hp).
    by rewrite bool_decide_eq_true_2 by (by left).
  - intros h' Hn. rewrite calls_of_snoc, Hcs. rewrite (Hfr h' Hn). case_decide as Hd; [|done].
    subst h'. destruct (Hk h Hin) as [? ?]. congruence.
Qed.

Lemma call_loop_end s p b :
  thread s = EHandlers [] /\ b = true \/ thread s = LHandlers [] /\ b = false ->
  quiet_pc p -> call_inv s -> call_inv (set_thread s p).
Proof.
  intros Ht Hp [? ? ? Hsp Hto ? ?]. split; try done.
  - unfold split_at. by destruct p.
  - intros h Hin Hpa. specialize (Hto h Hin Hpa). unfold told, split_at in *. simpl in *.
    assert (E : asleep h (calls s) = suspended s).
    { destruct Ht as [[Ht _]|[Ht _]]; rewrite Ht in *; destruct Hsp as [-> _]; rewrite Hto;
        [apply bool_decide_eq_true_2|apply bool_decide_eq_false_2]; apply not_elem_of_nil. }
    by destruct p.
Qed.

Lemma call_register s h info :
  call_inv s -> quiet_pc (thread s) -> infos s !! h = None ->
  call_inv (register_early_suspend s h info).
Proof.
  intros [Hnd Hk Hso Hsp Hto Hal Hfr] Hq Hfresh.
  set (m := <[h := info]> (infos s)).
  assert (Hhn : h ∉ early_suspend_handlers s).
  { intros Hin. destruct (Hk h Hin) as [? ?]. congruence. }
  set (b := bool_decide (Z.land (state s) SUSPENDED <> 0) && has_suspend info).
  set (cs := calls s ++ if b then [CSuspend h] else []).
  set (s1 := mk_es (state s) (requested_suspend_state s) m
               (insert_handler m h (early_suspend_handlers s)) (queue s) (thread s) (main s) cs).
  assert (E : register_early_suspend s h info = s1).
  { unfold register_early_suspend, s1, cs. fold m. change (state (mk_es (state s) _ _ _ _ _ _ _)) with (state s).
    fold b. destruct b; [done|]. by rewrite app_nil_r. }
  rewrite E.
  assert (Hsu : suspended s = bool_decide (Z.land (state s) SUSPENDED <> 0)).
  { unfold suspended, SUSPENDED. pose proof (Z.land_spec (state s) 2).
    assert (Hb : Z.land (state s) 2 = if Z.testbit (state s) 1 then 2 else 0).
    { apply Z.bits_inj'. intros n Hn. rewrite H0. change 2 with (2 ^ 1). rewrite Z.pow2_bits_eqb by done.
      destruct (Z.eqb_spec 1 n) as [<-|Hne]; [by destruct (Z.testbit (state s) 1)|].
      rewrite andb_false_r. destruct (Z.testbit (state s) 1); [by rewrite Z.pow2_bits_false|by rewrite Z.bits_0]. }
    rewrite Hb. by destruct (Z.testbit (state s) 1). }
  assert (Hmem : forall x, x ∈ insert_handler m h (early_suspend_handlers s) <->
    x = h \/ x ∈ early_suspend_handlers s)
    by (intros x; by rewrite (insert_handler_perm m h), elem_of_cons).
  assert (Hold : forall x, x <> h -> calls_of x (cs) = calls_of x (calls s)).
  { intros x Hx. unfold cs. destruct b; [|by rewrite app_nil_r]. rewrite calls_of_snoc. simpl.
    rewrite decide_False by congruence. apply app_nil_r. }
  assert (Hnew : calls_of h (cs) = if b then [true] else []).
  { unfold cs. destruct b; [|rewrite app_nil_r; by apply Hfr]. rewrite calls_of_snoc. simpl.
    rewrite decide_True by done. by rewrite (Hfr h Hfresh). }
  assert (Hpold : forall x, x <> h -> paired s1 x -> paired s x).
  { intros x Hx. unfold paired, suspend_of, resume_of. simpl. unfold m. by rewrite lookup_insert_ne. }
  split; simpl.
  - rewrite (insert_handler_perm m h). by apply NoDup_cons.
  - intros x Hx. unfold m. rewrite lookup_insert. destruct (decide (h = x)); [by eexists|].
    apply Hmem in Hx as [?|Hx]; [congruence|by apply Hk].
  - apply insert_handler_sorted. eapply by_level_agree; [|exact Hso]. intros x Hx. unfold m.
    rewrite lookup_insert_ne; [done|]. by intros <-.
  - unfold split_at. simpl. by destruct (thread s).
  - intros x Hx Hp. assert (Ha : asleep x (cs) = suspended s).
    { destruct (decide (x = h)) as [->|Hne].
      - unfold asleep. rewrite Hnew. unfold b. rewrite <- Hsu. destruct Hp as [Hp _].
        unfold suspend_of in Hp. simpl in Hp. unfold m in Hp. rewrite lookup_insert_eq in Hp. simpl in Hp.
        rewrite Hp, andb_true_r. by destruct (suspended s).
      - unfold asleep. rewrite Hold by done. apply Hmem in Hx as [?|Hx]; [done|].
        specialize (Hto x Hx (Hpold x Hne Hp)). unfold told in Hto. by destruct (thread s). }
    unfold told. simpl in *. by destruct (thread s).
  - intros x Hp. destruct (decide (x = h)) as [->|Hne].
    + rewrite Hnew. destruct b; intros i y Ei; [|done].
      by apply list_lookup_singleton_Some in Ei as [-> <-].
    + rewrite Hold by done. by apply Hal, Hpold.
  - intros x. unfold m. rewrite lookup_insert_None. intros [Hx Hne]. rewrite Hold by congruence. by apply Hfr.
Qed.

Lemma call_unregister s h :
  call_inv s -> quiet_pc (thread s) -> call_inv (unregister_early_suspend s h).
Proof.
  intros [Hnd Hk Hso Hsp Hto Hal Hfr] Hq. split; simpl; try done.
  - by apply NoDup_list_del.
  - intros x [Hx _]%elem_of_list_del. by apply Hk.
  - unfold by_level in *. revert Hso. unfold list_del. generalize (early_suspend_handlers s) as l.
    induction l as [|y l IH]; intros Hs; [constructor|]. apply StronglySorted_cons in Hs as [Hy Hs].
    destruct (decide (y = h)) as [->|Hne]; [rewrite filter_cons_False by tauto; by apply IH|].
    rewrite filter_cons_True by done. apply StronglySorted_cons. split; [|by apply IH].
    apply Forall_forall. intros z [_ Hz]%list_elem_of_filter. rewrite Forall_forall in Hy. by apply Hy.
  - unfold split_at. simpl. by destruct (thread s).
  - intros x [Hx _]%elem_of_list_del Hp. specialize (Hto x Hx Hp). unfold told in *. simpl.
    by destruct (thread s).
Qed.

Lemma call_step s s' : ctl_inv s -> call_inv s -> step s s' -> call_inv s'.
Proof.
  intros Hct Hc Hs.
  inversion Hs as [s0 new w Hw|s0 h info Hmu Hfr|s0 h Hmu Hin|s0 q Ht Hq|s0 q Ht Hq|s0 Ht|s0 rest Ht
    |s0 Ht|s0 w Ht Hw|s0 Ht|s0 rest Ht|s0 w Hw]; subst s0 s'.
  - destruct (request_state s new w (ci_state _ Hct)) as (E1 & E2 & E3 & E4 & E5 & _).
    by apply (call_ext s).
  - apply call_register; [done| |done]. unfold mutex_held in Hmu. by destruct (thread s).
  - apply call_unregister; [done|]. unfold mutex_held in Hmu. by destruct (thread s).
  - apply call_move; simpl; [by rewrite Ht|done|]. by apply (call_ext s).
  - apply call_move; simpl; [by rewrite Ht|done|]. by apply (call_ext s).
  - unfold early_suspend_check. case_bd as E; [|by apply call_move; [rewrite Ht| |]].
    destruct Hc as [Hnd Hk Hso Hsp Hto Hal Hfr]. split; simpl; try done.
    + rewrite E. split; [done|]. by exists [].
    + intros h Hin Hp. specialize (Hto h Hin Hp). unfold told in *. simpl. rewrite Ht in Hto. rewrite Hto.
      unfold suspended. rewrite E. symmetry. apply bool_decide_eq_false_2. tauto.
  - destruct rest as [|h rest]; [|by apply call_early]. by apply (call_loop_end s ESync true); [left| |].
  - by apply call_move; [rewrite Ht| |].
  - unfold early_suspend_final. apply call_move; [case_bd; simpl; by rewrite Ht|done|].
    case_bd; [|done]. by apply (call_ext s).
  - unfold late_resume_check. case_bd as E; [|by apply call_move; [rewrite Ht| |]].
    destruct Hc as [Hnd Hk Hso Hsp Hto Hal Hfr]. split; simpl; try done.
    + rewrite E. split; [done|]. by exists [].
    + intros h Hin Hp. specialize (Hto h Hin Hp). unfold told in *. simpl. rewrite Ht in Hto. rewrite Hto.
      unfold suspended. rewrite E. symmetry. apply bool_decide_eq_true_2. by apply elem_of_reverse.
  - destruct rest as [|h rest]; [|by apply call_late]. by apply (call_loop_end s Idle false); [right| |].
  - by apply (call_ext s).
Qed.

Lemma early_suspend_reachable_inv s : reachable s -> ctl_inv s /\ call_inv s.
Proof.
  induction 1 as [w Hi Hh|s s' _ [IH1 IH2] Hst].
  - split; split; simpl; try done; try (by constructor); try (by left).
    all: by intros ? ?%not_elem_of_nil.
  - split; [by eapply ctl_step|by eapply call_step].
Qed.

End inv.

End EarlySuspendInv.
