(* ===== verification/SuspendTop.v ===== *)
(** * Suspend: early suspend on top of the wake locks

    The wake locks of [wakelock.c] keep the promises early suspend relies on,
    so its theorems hold of the two together: when the machine is allowed to
    sleep, user space asked for it and every driver's early suspend handler
    has run. *)

From Stdlib Require Import ZArith Lia Strings.Byte.
From stdpp Require Import base option gmap sorting list_numbers list.
From S2P Require Import Prelude Wakelock WakelockInv WakelockTop EarlySuspend EarlySuspendInv.

Local Open Scope Z_scope.

Module SuspendTop.
Import Wakelock WakelockInv WakelockTop.

(** ** The wake locks implement the interface *)

Definition main_status (s : sys) : option status := v_status <$> view (wl s) !! main_wake_lock.

Definition main_event (ev : event) : bool :=
  match ev with
  | EvLock id | EvUnlock id | EvLockTimeout id _ => bool_decide (id = main_wake_lock)
  | _ => false
  end.

Definition lock_inv (s : sys) : Prop :=
  WakelockTop.reachable s /\ (main_status s = Some On \/ main_status s = Some Off).

Definition does (ev : event) (s s' : sys) : Prop :=
  exists clk, enabled s clk ev /\ WakelockTop.exec s clk ev = Some s'.

Lemma has_spec_keep j type m m' ret id v :
  has_spec j type m m' ret -> m !! id = Some v -> v_status v = On \/ v_status v = Off -> m' !! id = Some v.
Proof.
  intros Hs Ev Hv. inversion Hs; subst; [done|]. rewrite lookup_fmap, Ev. simpl. f_equal.
  unfold expire_all, expire_view. case_decide; [|done]. by destruct Hv as [->| ->].
Qed.

(** Events that do not name the main lock leave it alone. *)
Lemma other_main s s' clk ev v :
  winv (wl s) -> enabled s clk ev -> WakelockTop.exec s clk ev = Some s' -> main_event ev = false ->
  view (wl s) !! main_wake_lock = Some v -> v_status v = On \/ v_status v = Off ->
  view (wl s') !! main_wake_lock = Some v.
Proof.
  intros Hw [Hj Hen] E Hme Ev Hv. destruct (wi_main _ Hw) as (v' & Ev' & Hi & Ht).
  rewrite Ev in Ev'. injection Ev' as <-.
  assert (Hins : forall id x, id <> main_wake_lock -> <[id := x]> (view (wl s)) !! main_wake_lock = Some v)
    by (intros id x Hne; by rewrite lookup_insert_ne).
  assert (Heval : forall a a', a_eval (jiffies clk) a a' -> a_locks a !! main_wake_lock = Some v ->
    a_locks a' !! main_wake_lock = Some v).
  { intros a a' (m' & ret & Hs & ->) Ea. simpl. by eapply has_spec_keep. }
  destruct ev as [id type name|id|id|id t|id|type| | | | | |]; cbn [WakelockTop.exec] in E.
  - destruct Hen as [_ Hk]. simpl in E. injection E as <-. simpl.
    change (view (add_inactive ?x id)) with (view x). rewrite view_set_lock. apply Hins.
    intros ->. apply Hk. by exists v.
  - destruct Hen as (Hid & x & Ex & Hxi).
    destruct (destroy_good (wl s) id x Hw Hid Ex Hxi) as (st' & E' & _ & A').
    rewrite E' in E. injection E as <-. simpl. change (view st') with (a_locks (abs st')). rewrite A'.
    apply Hins. intros ->. apply Hid. by left.
  - simpl in Hme. apply bool_decide_eq_false in Hme. destruct Hen as (x & Ex & Hxi).
    destruct (wake_lock_internal_ok clk (wl s) id x 0 false Hw Ex Hxi) as (st' & E' & _ & (y & Ey & Ha)).
    unfold wake_lock in E. rewrite E' in E. injection E as <-. simpl.
    change (view st') with (a_locks (abs st')). revert Ha. cbv zeta.
    case_bd; intros ->; simpl; by apply Hins.
  - simpl in Hme. apply bool_decide_eq_false in Hme. destruct Hen as (x & Ex & Hxi).
    destruct (wake_lock_internal_ok clk (wl s) id x t true Hw Ex Hxi) as (st' & E' & _ & (y & Ey & Ha)).
    unfold wake_lock_timeout in E. rewrite E' in E. injection E as <-. simpl.
    change (view st') with (a_locks (abs st')). revert Ha. cbv zeta. case_bd; [|intros ->; simpl; by apply Hins].
    intros Ha. eapply Heval; [done|]. simpl. by apply Hins.
  - simpl in Hme. apply bool_decide_eq_false in Hme. destruct Hen as (x & Ex & Hxi).
    destruct (wake_unlock_ok clk (wl s) id x Hw Ex Hxi) as (st' & E' & _ & (y & Ey & Ha)).
    rewrite E' in E. injection E as <-. simpl.
    change (view st') with (a_locks (abs st')). revert Ha. cbv zeta. case_bd; [|intros ->; simpl; by apply Hins].
    intros Ha. eapply Heval; [done|]. simpl. by apply Hins.
  - destruct (has_wake_lock_locked_ok clk (wl s) type Hw Hen) as (st' & ret & m' & E' & _ & A' & Hs).
    unfold has_wake_lock in E. rewrite E' in E. injection E as <-. simpl.
    change (view st') with (a_locks (abs st')). rewrite A'. by eapply has_spec_keep.
  - injection E as <-. done.
  - unfold expire_wake_locks in E.
    destruct (has_wake_lock_locked_ok clk (set_timer (wl s) None) WAKE_LOCK_SUSPEND)
      as (st' & ret & m' & E' & _ & A' & Hs); [by apply winv_timer|by left|].
    rewrite E' in E. injection E as <-. simpl.
    assert (view st' !! main_wake_lock = Some v).
    { change (view st') with (a_locks (abs st')). rewrite A'. by eapply has_spec_keep. }
    by case_bd.
  - unfold suspend_enter, has_wake_lock in E.
    edestruct (has_wake_lock_locked_ok clk _ WAKE_LOCK_SUSPEND (winv_work (wl s) false Hw))
      as (st' & ret & m' & E' & _ & A' & Hs); [by left|]. rewrite E' in E. injection E as <-. simpl.
    change (view st') with (a_locks (abs st')). rewrite A'. by eapply has_spec_keep.
  - injection E as <-. done.
  - unfold power_suspend_late, has_wake_lock in E.
    destruct (has_wake_lock_locked_ok clk (wl s) WAKE_LOCK_SUSPEND Hw) as (st' & ret & m' & E' & _ & A' & Hs);
      [by left|]. rewrite E' in E. injection E as <-. simpl.
    change (view (set_wait st' true)) with (a_locks (abs st')). rewrite A'. by eapply has_spec_keep.
  - destruct Hen as [n Hn]. rewrite Hn in E. simpl in E. unfold suspend_exit in E. revert E. case_bd.
    + destruct (wi_unknown _ Hw) as (x & Ex & Hxi & Hxt).
      destruct (wake_lock_internal_ok clk (wl s) unknown_wakeup x (HZ / 2) true Hw Ex Hxi)
        as (st' & E' & _ & (y & Ey & Ha)).
      unfold wake_lock_timeout. rewrite E'. intros [= <-]. simpl.
      change (view st') with (a_locks (abs st')). revert Ha. cbv zeta. case_bd; [|intros ->; simpl; by apply Hins].
      intros Ha. eapply Heval; [done|]. simpl. by apply Hins.
    + intros [= <-]. done.
Qed.

Lemma main_lock_ok s s' : lock_inv s -> does (EvLock main_wake_lock) s s' ->
  lock_inv s' /\ main_status s' = Some On.
Proof.
  intros [Hr _] (clk & [Hj Hk] & E). assert (Hm : main_status s' = Some On).
  { pose proof (reachable_good s Hr) as Hw. destruct (wi_main _ Hw) as (v & Ev & Hi & Ht).
    destruct (wake_lock_internal_ok clk (wl s) main_wake_lock v 0 false Hw Ev Hi)
      as (st' & E' & _ & (y & Ey & Ha)).
    cbn [WakelockTop.exec] in E. unfold wake_lock in E. rewrite E' in E. injection E as <-.
    unfold main_status. simpl. change (view st') with (a_locks (abs st')). revert Ha. cbv zeta.
    case_bd; intros ->; simpl; by rewrite lookup_insert_eq. }
  split; [|done]. split; [|by left]. by apply (WakelockTop.reach_step s clk (EvLock main_wake_lock)); [|split|].
Qed.

Lemma main_unlock_ok s s' : lock_inv s -> does (EvUnlock main_wake_lock) s s' ->
  lock_inv s' /\ main_status s' = Some Off.
Proof.
  intros [Hr _] (clk & [Hj Hk] & E). assert (Hm : main_status s' = Some Off).
  { pose proof (reachable_good s Hr) as Hw. destruct (wi_main _ Hw) as (v & Ev & Hi & Ht).
    destruct (wake_unlock_ok clk (wl s) main_wake_lock v Hw Ev Hi) as (st' & E' & _ & (y & Ey & Ha)).
    cbn [WakelockTop.exec] in E. rewrite E' in E. injection E as <-.
    unfold main_status. simpl. change (view st') with (a_locks (abs st')). revert Ha. cbv zeta.
    simpl in Ey. rewrite Ev in Ey. injection Ey as <-.
    case_bd; [|intros ->; simpl; by rewrite lookup_insert_eq].
    intros (m' & ret & Hs & ->). simpl in *.
    erewrite (has_spec_keep _ _ _ _ _ main_wake_lock (with_status v Off) Hs);
      [done|apply lookup_insert_eq|by right]. }
  split; [|done]. split; [|by right]. by apply (WakelockTop.reach_step s clk (EvUnlock main_wake_lock)); [|split|].
Qed.

Lemma main_other_ok s s' ev : lock_inv s -> main_event ev = false -> does ev s s' ->
  lock_inv s' /\ main_status s' = main_status s.
Proof.
  intros [Hr Hm] Hev (clk & Hen & E).
  assert (Hsame : main_status s' = main_status s).
  { unfold main_status in *. destruct (view (wl s) !! main_wake_lock) as [v|] eqn:Ev; [|by destruct Hm].
    simpl in Hm. rewrite (other_main s s' clk ev v); try done; [by apply reachable_good|].
    destruct Hm as [[= ->]|[= ->]]; auto. }
  split; [|done]. split; [by eapply WakelockTop.reach_step|by rewrite Hsame].
Qed.

(** An operation on the main lock can always run. *)
Lemma main_total s ev :
  ev = EvLock main_wake_lock \/ ev = EvUnlock main_wake_lock -> lock_inv s -> exists s', does ev s s'.
Proof.
  intros Hev [Hr _]. set (clk := mk_clock (now s) 0 (mk_timespec 0 0) (mk_timespec 0 0)).
  assert (Hen : enabled s clk ev).
  { pose proof (reachable_good s Hr) as Hw. destruct (wi_main _ Hw) as (v & Ev & Hi & Ht).
    destruct Hev as [->| ->]; (split; [done|]; by exists v). }
  destruct (exec_good s clk ev (reachable_good s Hr) Hen) as (s' & E & _). exists s', clk. done.
Qed.

Lemma main_unlock_spec s s' :
  lock_inv s -> does (EvUnlock main_wake_lock) s s' -> lock_inv s' /\ ~ main_status s' = Some On.
Proof. intros Hi Hu. destruct (main_unlock_ok s s' Hi Hu) as [? ->]. done. Qed.

Lemma main_other_spec s s' :
  lock_inv s -> (exists ev, main_event ev = false /\ does ev s s') ->
  lock_inv s' /\ (main_status s' = Some On <-> main_status s = Some On).
Proof. intros Hi (ev & Hev & Hd). destruct (main_other_ok s s' ev Hi Hev Hd) as [? ->]. done. Qed.

#[export] Instance wakelock_main : MainWakeLock sys := {|
  ml_inv := lock_inv;
  ml_held s := main_status s = Some On;
  ml_held_dec s := decide (main_status s = Some On);
  ml_lock := does (EvLock main_wake_lock);
  ml_unlock := does (EvUnlock main_wake_lock);
  ml_other s s' := exists ev, main_event ev = false /\ does ev s s';
  ml_lock_spec := main_lock_ok;
  ml_unlock_spec := main_unlock_spec;
  ml_other_spec := main_other_spec;
  ml_lock_total s := main_total s (EvLock main_wake_lock) (or_introl eq_refl);
  ml_unlock_total s := main_total s (EvUnlock main_wake_lock) (or_intror eq_refl)
|}.

(** ** The properties of early suspend, for any wake locks *)

Section early.
Import EarlySuspend EarlySuspendInv.
Context {W : Type} `{MainWakeLock W}.
Implicit Types (s : es_state W).

Lemma released_asleep s :
  EarlySuspend.reachable s -> ~ ml_held (main s) ->
  state s = SUSPEND_REQUESTED_AND_SUSPENDED /\
  forall h, h ∈ early_suspend_handlers s -> paired s h -> asleep h (calls s) = true.
Proof.
  intros Hr Hh. destruct (early_suspend_reachable_inv s Hr) as [Hc Hk].
  pose proof (ci_released _ Hc Hh) as E. split; [done|]. intros h Hin Hp.
  pose proof (ca_told _ Hk h Hin Hp) as Hto. pose proof (ca_split _ Hk) as Hsp.
  unfold told, split_at, suspended in *. rewrite E in *.
  destruct (thread s) as [| |r| | | |r] eqn:Et; try done.
  - destruct Hh. by eapply (ci_loop _ Hc).
  - by destruct Hsp.
Qed.

(** Whatever the interleaving of requests, registrations and work
    functions, the main wake lock is released only while suspend is requested
    and has been carried out: every registered driver with both callbacks was
    told to suspend and not yet to resume. *)
Theorem early_suspend_main_lock s :
  EarlySuspend.reachable s -> ~ ml_held (main s) ->
  state s = SUSPEND_REQUESTED_AND_SUSPENDED /\
  forall h, h ∈ early_suspend_handlers s -> paired s h -> asleep h (calls s) = true.
Proof. apply released_asleep. Qed.

(** No request is lost.  When the work queue is idle and empty,
    either everything is awake and the main lock is held, or suspend is
    requested, every driver is suspended and the main lock is released. *)
Theorem early_suspend_settled s :
  EarlySuspend.reachable s -> thread s = Idle -> queue s = [] ->
  (state s = 0 /\ ml_held (main s) \/
   state s = SUSPEND_REQUESTED_AND_SUSPENDED /\ ~ ml_held (main s)) /\
  forall h, h ∈ early_suspend_handlers s -> paired s h ->
    asleep h (calls s) = bool_decide (state s = SUSPEND_REQUESTED_AND_SUSPENDED).
Proof.
  intros Hr Ht Hq. destruct (early_suspend_reachable_inv s Hr) as [[Hm Hst Hrq Hrs Hrel Hpe _] Hk].
  rewrite Ht, Hq in *.
  assert (Hcase : state s = 0 /\ ml_held (main s) \/ state s = 3 /\ ~ ml_held (main s)).
  { destruct Hst as [E|[E|[E|E]]].
    - left. split; [done|]. destruct (ml_held_dec (main s)) as [|Hh]; [done|].
      specialize (Hrel Hh). congruence.
    - destruct (Hrq E) as [?%not_elem_of_nil|?]; done.
    - destruct (Hrs E) as [?%not_elem_of_nil|?]; done.
    - right. split; [done|]. destruct (Hpe E) as [?%not_elem_of_nil|[Hie|?]]; [done| |done].
      by destruct Hie as [?|[[? ?]|[?|?]]]. }
  split; [done|]. intros h Hin Hp. pose proof (ca_told _ Hk h Hin Hp) as Hto.
  unfold told, suspended in Hto. rewrite Ht in Hto. rewrite Hto.
  destruct Hcase as [[-> _]|[-> _]]; done.
Qed.

(** The handlers are kept in order of their level, a suspend pass
    walks the list forwards and a resume pass backwards, and every driver with
    both callbacks is told alternately to suspend and to resume, starting with
    suspend. *)
Theorem early_suspend_order s :
  EarlySuspend.reachable s ->
  by_level (infos s) (early_suspend_handlers s) /\
  (forall rest, thread s = EHandlers rest -> exists l, early_suspend_handlers s = l ++ rest) /\
  (forall rest, thread s = LHandlers rest -> exists l, reverse (early_suspend_handlers s) = l ++ rest) /\
  (forall h, paired s h -> alternating (calls_of h (calls s))).
Proof.
  intros Hr. destruct (early_suspend_reachable_inv s Hr) as [_ [? ? ? Hsp ? ? ?]]. unfold split_at in Hsp.
  split; [done|]. split; [|split; [|done]].
  - intros rest Ht. rewrite Ht in Hsp. by destruct Hsp.
  - intros rest Ht. rewrite Ht in Hsp. by destruct Hsp.
Qed.

End early.

(** C18: early suspend and wake locks together.  If the last callback before
    sleep lets the machine sleep, then suspend is requested and carried out,
    and every registered driver with both callbacks was told to suspend. *)
Theorem sleep_only_when_suspended (s : EarlySuspend.es_state sys) clk st' :
  EarlySuspend.reachable s -> jiffies clk = now (EarlySuspend.main s) ->
  power_suspend_late clk (wl (EarlySuspend.main s)) = Some (st', 0) ->
  EarlySuspend.state s = EarlySuspend.SUSPEND_REQUESTED_AND_SUSPENDED /\
  forall h, h ∈ EarlySuspend.early_suspend_handlers s -> EarlySuspendInv.paired s h ->
    EarlySuspendInv.asleep h (EarlySuspend.calls s) = true.
Proof.
  intros Hr Hj E. apply released_asleep; [done|]. simpl. intros Hon.
  destruct (EarlySuspendInv.early_suspend_reachable_inv s Hr) as [Hc _].
  destruct (EarlySuspendInv.ci_main _ Hc) as [Hwr _]. pose proof (reachable_good _ Hwr) as Hw.
  unfold power_suspend_late, has_wake_lock in E.
  destruct (has_wake_lock_locked_ok clk (wl (EarlySuspend.main s)) WAKE_LOCK_SUSPEND Hw)
    as (st1 & ret & m' & E1 & _ & _ & Hs); [by left|]. rewrite E1 in E. simpl in E.
  assert (ret = 0) as ->.
  { destruct (decide (ret = 0)) as [|Hne]; [done|]. rewrite bool_decide_eq_true_2 in E by done. done. }
  destruct (wi_main _ Hw) as (v & Ev & Hi & Ht). unfold main_status in Hon. rewrite Ev in Hon.
  injection Hon as Hon.
  inversion Hs as [|r Hn _ _ _]; subst. apply (Hn _ _ Ev); [|done].
  split; [done|]. split; [done|]. by rewrite Hon.
Qed.

(** ** A run

    One driver registers, user space asks for suspend, and the work queue
    carries it out. *)

Section run.
Import EarlySuspend EarlySuspendInv.

Definition run_info : handler := mk_handler 50 true true.
Definition run0 : es_state sys := initial demo_boot.
Definition run1 : es_state sys := register_early_suspend run0 1%nat run_info.
Definition run2 : es_state sys := request_suspend_state run1 PM_SUSPEND_MEM demo_boot.
Definition run3 : es_state sys := set_thread (set_queue run2 []) EStart.
Definition run4 : es_state sys := early_suspend_check run3.
Definition run5 : es_state sys := early_suspend_handler run4 [1%nat].
Definition run6 : es_state sys := early_suspend_handler run5 [].
Definition run7 : es_state sys := set_thread run6 EFinal.
Definition run_main : sys :=
  default demo_boot (WakelockTop.exec demo_boot demo_clk (EvUnlock main_wake_lock)).
Definition run8 : es_state sys := early_suspend_final run7 run_main.

Lemma demo_boot_reachable : WakelockTop.reachable demo_boot.
Proof. apply reach_boot. exists demo_clk. split; vm_compute; reflexivity. Qed.

Lemma run_unlock : does (EvUnlock main_wake_lock) demo_boot run_main.
Proof.
  exists demo_clk. split; [split; [vm_compute; reflexivity|]|vm_compute; reflexivity].
  eexists. split; vm_compute; reflexivity.
Qed.

Lemma run8_reachable : EarlySuspend.reachable run8.
Proof.
  assert (H0 : EarlySuspend.reachable run0).
  { apply reach_initial; [split; [exact demo_boot_reachable|left]|]; vm_compute; reflexivity. }
  assert (H1 : EarlySuspend.reachable run1)
    by (eapply EarlySuspend.reach_step; [exact H0|]; apply step_register; vm_compute; reflexivity).
  assert (H2 : EarlySuspend.reachable run2)
    by (eapply EarlySuspend.reach_step; [exact H1|]; apply step_request; reflexivity).
  assert (H3 : EarlySuspend.reachable run3)
    by (eapply EarlySuspend.reach_step; [exact H2|]; apply step_early_start; vm_compute; reflexivity).
  assert (H4 : EarlySuspend.reachable run4)
    by (eapply EarlySuspend.reach_step; [exact H3|]; apply step_early_check; reflexivity).
  assert (H5 : EarlySuspend.reachable run5)
    by (eapply EarlySuspend.reach_step; [exact H4|]; apply step_early_handler; vm_compute; reflexivity).
  assert (H6 : EarlySuspend.reachable run6)
    by (eapply EarlySuspend.reach_step; [exact H5|]; apply step_early_handler; vm_compute; reflexivity).
  assert (H7 : EarlySuspend.reachable run7)
    by (eapply EarlySuspend.reach_step; [exact H6|]; apply step_early_sync; vm_compute; reflexivity).
  eapply EarlySuspend.reach_step; [exact H7|]. apply step_early_final; [reflexivity|].
  exact run_unlock.
Qed.

Lemma run8_released : ~ ml_held (main run8).
Proof. intros Hm. vm_compute in Hm. discriminate Hm. Qed.

Lemma early_suspend_main_lock_witness :
  ~ ml_held (main run8) /\ state run8 = SUSPEND_REQUESTED_AND_SUSPENDED /\
  (1%nat ∈ early_suspend_handlers run8 -> paired run8 1%nat -> asleep 1%nat (calls run8) = true).
Proof.
  destruct (early_suspend_main_lock run8 run8_reachable run8_released) as [H1 H2].
  exact (conj run8_released (conj H1 (H2 1%nat))).
Defined.

Lemma early_suspend_settled_witness :
  thread run8 = Idle /\ queue run8 = [] /\
  (state run8 = 0 /\ ml_held (main run8) \/
   state run8 = SUSPEND_REQUESTED_AND_SUSPENDED /\ ~ ml_held (main run8)).
Proof.
  assert (H1 : thread run8 = Idle) by (vm_compute; reflexivity).
  assert (H2 : queue run8 = []) by (vm_compute; reflexivity).
  exact (conj H1 (conj H2 (proj1 (early_suspend_settled run8 run8_reachable H1 H2)))).
Defined.

Lemma early_suspend_order_witness :
  by_level (infos run8) (early_suspend_handlers run8) /\
  (paired run8 1%nat -> alternating (calls_of 1%nat (calls run8))).
Proof.
  destruct (early_suspend_order run8 run8_reachable) as (H1 & _ & _ & H2).
  exact (conj H1 (H2 1%nat)).
Defined.

Lemma sleep_only_when_suspended_witness :
  exists st', power_suspend_late demo_clk (wl (main run8)) = Some (st', 0) /\
    state run8 = SUSPEND_REQUESTED_AND_SUSPENDED.
Proof.
  assert (E : exists st', power_suspend_late demo_clk (wl (main run8)) = Some (st', 0))
    by (eexists; vm_compute; reflexivity).
  destruct E as [st' E]. exists st'.
  exact (conj E (proj1 (sleep_only_when_suspended run8 demo_clk st' run8_reachable
    ltac:(vm_compute; reflexivity) E))).
Defined.

End run.

End SuspendTop.
