(* ===== verification/Logger.v ===== *)
(** * The log driver ([drivers/staging/android/logger.c]): the model

    A log is a ring of bytes that holds entries end to end; writers overwrite
    the oldest ones and pull lapped readers forward.  Everything below runs
    under the log's mutex, except where a definition says otherwise.

    A result [None] is an access outside the log's buffer. *)

From Stdlib Require Import ZArith Lia Strings.Byte.
From stdpp Require Import base option gmap list_numbers list.
From S2P Require Import Prelude Ring.

Local Open Scope Z_scope.
Local Open Scope kernel_scope.

Module Logger.

(** ** Constants ([drivers/staging/android/logger.h], [asm-generic/poll.h]) *)

(** [sizeof(struct logger_entry)] *)
Definition sizeof_logger_entry : Z := 20.
Definition LOGGER_ENTRY_MAX_LEN : Z := 4 * 1024.
Definition LOGGER_ENTRY_MAX_PAYLOAD : Z := LOGGER_ENTRY_MAX_LEN - sizeof_logger_entry.

Definition POLLIN : Z := 0x0001.
Definition POLLOUT : Z := 0x0004.
Definition POLLRDNORM : Z := 0x0040.
Definition POLLWRNORM : Z := 0x0100.

(** ** Bytes of integers *)

Definition byte_of (z : Z) : byte := default x00 (Byte.of_N (Z.to_N (z mod 256))).
Definition Z_of_byte (b : byte) : Z := Z.of_N (Byte.to_N b).

(** The [n] bytes of a little-endian integer. *)
Fixpoint le_bytes (n : nat) (z : Z) : list byte :=
  match n with
  | O => []
  | S n => byte_of z :: le_bytes n (z / 256)
  end.

(** ** State *)

Definition rid := nat.

(** [struct logger_log] with its readers, each with its read offset, and the
    buffer of the boot-time hook. *)
Record logger_log := mk_log {
  buffer : list byte;
  readers : list (rid * Z);
  w_off : Z;
  head : Z;
  size : Z;
  klog_buf : list byte
}.

Definition set_w_off (log : logger_log) (w : Z) : logger_log :=
  mk_log (buffer log) (readers log) w (head log) (size log) (klog_buf log).
Definition set_readers (log : logger_log) (r : list (rid * Z)) : logger_log :=
  mk_log (buffer log) r (w_off log) (head log) (size log) (klog_buf log).
Definition set_head (log : logger_log) (h : Z) : logger_log :=
  mk_log (buffer log) (readers log) (w_off log) h (size log) (klog_buf log).
Definition set_buffer (log : logger_log) (b : list byte) : logger_log :=
  mk_log b (readers log) (w_off log) (head log) (size log) (klog_buf log).
Definition set_klog (log : logger_log) (b : list byte) : logger_log :=
  mk_log (buffer log) (readers log) (w_off log) (head log) (size log) b.

(** The offset of a reader. *)
Fixpoint find_reader (l : list (rid * Z)) (r : rid) : option Z :=
  match l with
  | [] => None
  | (r', off) :: l => if bool_decide (r' = r) then Some off else find_reader l r
  end.

Definition r_off (log : logger_log) (r : rid) : option Z := find_reader (readers log) r.

Definition set_r_off (log : logger_log) (r : rid) (off : Z) : logger_log :=
  set_readers log ((fun x => if bool_decide (fst x = r) then (r, off) else x) <$> readers log).

Definition logger_offset (log : logger_log) (n : Z) : Z := Z.land (u32 n) (size log -u 1).

(** ** Entries *)

Definition get_entry_len (log : logger_log) (off : Z) : option Z :=
  v ← (if bool_decide (size log -u off = 1) then
         b0 ← memcpy_from (buffer log) off 1;
         b1 ← memcpy_from (buffer log) 0 1;
         Some (b0 ++ b1)
       else memcpy_from (buffer log) off 2);
  b0 ← v !! 0%nat;
  b1 ← v !! 1%nat;
  Some (sizeof_logger_entry + (Z_of_byte b0 + 256 * Z_of_byte b1)).

(** The loop of [get_next_entry]; [count] is what was skipped so far. *)
Fixpoint get_next_entry_loop (fuel : nat) (log : logger_log) (off len count : Z) : option Z :=
  match fuel with
  | O => None
  | S fuel =>
      nr ← get_entry_len log off;
      let off := logger_offset log (off + nr) in
      let count := count +u nr in
      if bool_decide (count < len) then get_next_entry_loop fuel log off len count else Some off
  end.

(** Every round skips at least a byte, so [len] rounds are enough. *)
Definition get_next_entry (log : logger_log) (off len : Z) : option Z :=
  get_next_entry_loop (S (Z.to_nat len)) log off len 0.

Definition clock_interval (a b c : Z) : bool :=
  if bool_decide (b < a) then bool_decide (a < c) || bool_decide (b >= c)
  else bool_decide (a < c) && bool_decide (b >= c).

(** ** Writing *)

Definition fix_up_reader (log : logger_log) (old new len : Z) (x : rid * Z) : option (rid * Z) :=
  if clock_interval old new (snd x)
  then off ← get_next_entry log (snd x) len; Some (fst x, off)
  else Some x.

Definition fix_up_readers (log : logger_log) (len : Z) : option logger_log :=
  let old := w_off log in
  let new := logger_offset log (old + len) in
  log ← (if clock_interval old new (head log)
         then h ← get_next_entry log (head log) len; Some (set_head log h) else Some log);
  rs ← mapM (fix_up_reader log old new len) (readers log);
  Some (set_readers log rs).

Definition do_write_log (log : logger_log) (buf : list byte) : option logger_log :=
  let count := Z.of_nat (length buf) in
  let len := Z.min count (size log -u w_off log) in
  b ← memcpy_to (buffer log) (w_off log) (take (Z.to_nat len) buf);
  b ← (if bool_decide (count <> len) then memcpy_to b 0 (drop (Z.to_nat len) buf) else Some b);
  Some (set_w_off (set_buffer log b) (logger_offset log (w_off log + count))).

(** One [struct iovec]: the bytes behind it, and, for each of the two copies,
    what a faulting [copy_from_user] leaves in the log instead. *)
Record iovec := mk_iov {
  iov_data : list byte;
  iov_fault1 : option (list byte);
  iov_fault2 : option (list byte)
}.

(** [copy_from_user] of [src] to offset [off]: the buffer and whether it
    failed.  A failing copy leaves some bytes and zeroes the rest. *)
Definition copy_from_user (buf : list byte) (off : Z) (src : list byte) (fault : option (list byte))
  : option (list byte * bool) :=
  match fault with
  | None => b ← memcpy_to buf off src; Some (b, false)
  | Some junk => b ← memcpy_to buf off (resize (length src) x00 junk); Some (b, true)
  end.

(** The hook for boot-time messages: ["!@"] at the write offset copies the
    message to [klog_buf].  [strncmp] reads the second byte when the first is
    [!].  The copy goes straight on from the write offset: it faults where a
    message that wraps, or a [!] in the last byte of the ring, has it read past
    the buffer. *)
Definition klog_hook (log : logger_log) (count : Z) : option (list byte) :=
  let cleared := replicate 255 x00 ++ drop 255 (klog_buf log) in
  c0 ← buffer log !! Z.to_nat (w_off log);
  if bool_decide (c0 = x21) then
    c1 ← buffer log !! Z.to_nat (w_off log + 1);
    if bool_decide (c1 = x40) then
      m ← memcpy_from (buffer log) (w_off log) (if bool_decide (count < 255) then count else 255);
      Some (<[255%nat := x00]> (list_inserts 0 m cleared))
    else Some cleared
  else Some cleared.

Definition do_write_log_from_user (log : logger_log) (iov : iovec) (count : Z)
  : option (logger_log * Z) :=
  let len := Z.min count (size log -u w_off log) in
  '(b, f1) ← (if bool_decide (len <> 0)
              then copy_from_user (buffer log) (w_off log) (take (Z.to_nat len) (iov_data iov)) (iov_fault1 iov)
              else Some (buffer log, false));
  if f1 : bool then Some (set_buffer log b, - EFAULT)
  else
    '(b, f2) ← (if bool_decide (count <> len)
                then copy_from_user b 0
                       (take (Z.to_nat (count - len)) (drop (Z.to_nat len) (iov_data iov))) (iov_fault2 iov)
                else Some (b, false));
    if f2 : bool then Some (set_buffer log b, - EFAULT)
    else
      let log := set_buffer log b in
      k ← klog_hook log count;
      let log := set_klog log k in
      Some (set_w_off log (logger_offset log (w_off log + count)), count).

(** The entry header; [pad] are the two bytes the code leaves uninitialised. *)
Record header := mk_header {
  h_len : Z; h_pad : list byte; h_pid : Z; h_tid : Z; h_sec : Z; h_nsec : Z
}.

Definition header_bytes (h : header) : list byte :=
  le_bytes 2 (h_len h) ++ h_pad h ++ le_bytes 4 (h_pid h) ++ le_bytes 4 (h_tid h) ++
  le_bytes 4 (h_sec h) ++ le_bytes 4 (h_nsec h).

(** The segment loop of [logger_aio_write]. *)
Fixpoint write_segs (log : logger_log) (segs : list iovec) (hlen ret orig : Z)
  : option (logger_log * Z) :=
  match segs with
  | [] => Some (log, ret)
  | iov :: segs =>
      let len := Z.min (Z.of_nat (length (iov_data iov))) (hlen - ret) in
      '(log, nr) ← do_write_log_from_user log iov len;
      if bool_decide (nr < 0) then Some (set_w_off log orig, nr)
      else write_segs log segs hlen (ret + nr) orig
  end.

(** [orig] is the write offset read before the mutex is taken, [ki_left] the
    size of the request; [pad], [pid], [tid], [sec] and [nsec] fill the
    header. *)
Definition logger_aio_write (log : logger_log) (orig ki_left : Z) (pad : list byte)
  (pid tid sec nsec : Z) (segs : list iovec) : option (logger_log * Z) :=
  let h := mk_header (Z.min ki_left LOGGER_ENTRY_MAX_PAYLOAD) pad pid tid sec nsec in
  if bool_decide (h_len h = 0) then Some (log, 0)
  else
    log ← fix_up_readers log (sizeof_logger_entry + h_len h);
    log ← do_write_log log (header_bytes h);
    write_segs log segs (h_len h) 0 orig.

(** ** Reading *)

(** The bytes handed to user space; [fault] is which of the two copies fails,
    if any. *)
Definition do_read_log_to_user (log : logger_log) (r : rid) (count : Z) (fault : option bool)
  : option (logger_log * Z * list byte) :=
  off ← r_off log r;
  let len := Z.min count (size log -u off) in
  b1 ← memcpy_from (buffer log) off len;
  if bool_decide (fault = Some true) then Some (log, - EFAULT, [])
  else
    b2 ← (if bool_decide (count <> len) then memcpy_from (buffer log) 0 (count - len) else Some []);
    if bool_decide (count <> len) && bool_decide (fault = Some false) then Some (log, - EFAULT, b1)
    else Some (set_r_off log r (logger_offset log (off + count)), count, b1 ++ b2).

(** The wait loop at the start of [logger_read]: go on, or return. *)
Inductive wait := Ready | Sleep | Return (err : Z).

Definition logger_read_wait (log : logger_log) (r : rid) (nonblock signal : bool) : option wait :=
  off ← r_off log r;
  Some (if negb (bool_decide (w_off log = off)) then Ready
        else if nonblock then Return (- EAGAIN)
        else if signal then Return (- EINTR)
        else Sleep).

(** The rest of [logger_read], under the second acquisition of the mutex:
    [None] of the inner option is the jump back to [start]. *)
Definition logger_read_entry (log : logger_log) (r : rid) (count : Z) (fault : option bool)
  : option (option (logger_log * Z * list byte)) :=
  off ← r_off log r;
  if bool_decide (w_off log = off) then Some None
  else
    ret ← get_entry_len log off;
    if bool_decide (count < ret) then Some (Some (log, - EINVAL, []))
    else x ← do_read_log_to_user log r ret fault; Some (Some x).

(** ** Files *)

(** [fmode_read] is [file->f_mode & FMODE_READ], [nonseekable] and [alloc] what
    [nonseekable_open] and [kmalloc] return, [found] whether the minor number
    is that of a log. *)
Definition logger_open (log : logger_log) (found : bool) (nonseekable : Z) (fmode_read : bool)
  (alloc : option rid) : logger_log * Z :=
  if bool_decide (nonseekable <> 0) then (log, nonseekable)
  else if negb found then (log, - ENODEV)
  else if fmode_read then
    match alloc with
    | None => (log, - ENOMEM)
    | Some r => (set_readers log (list_add_tail (r, head log) (readers log)), 0)
    end
  else (log, 0).

(** Without the mutex. *)
Definition logger_release (log : logger_log) (fmode_read : bool) (r : rid) : logger_log :=
  if fmode_read then set_readers log (filter (fun x => fst x <> r) (readers log)) else log.

Definition logger_poll (log : logger_log) (fmode_read : bool) (r : rid) : option Z :=
  let ret := Z.lor POLLOUT POLLWRNORM in
  if negb fmode_read then Some ret
  else
    off ← r_off log r;
    Some (if negb (bool_decide (w_off log = off)) then Z.lor ret (Z.lor POLLIN POLLRDNORM) else ret).

Inductive ioctl_cmd := GET_LOG_BUF_SIZE | GET_LOG_LEN | GET_NEXT_ENTRY_LEN | FLUSH_LOG | OTHER_CMD.

Definition logger_ioctl (log : logger_log) (fmode_read fmode_write : bool) (r : rid) (cmd : ioctl_cmd)
  : option (logger_log * Z) :=
  match cmd with
  | GET_LOG_BUF_SIZE => Some (log, size log)
  | GET_LOG_LEN =>
      if negb fmode_read then Some (log, - EBADF)
      else
        off ← r_off log r;
        Some (log, if bool_decide (w_off log >= off) then w_off log - off
                   else (size log - off) + w_off log)
  | GET_NEXT_ENTRY_LEN =>
      if negb fmode_read then Some (log, - EBADF)
      else
        off ← r_off log r;
        if negb (bool_decide (w_off log = off)) then n ← get_entry_len log off; Some (log, n)
        else Some (log, 0)
  | FLUSH_LOG =>
      if negb fmode_write then Some (log, - EBADF)
      else Some (set_head (set_readers log ((fun x => (fst x, w_off log)) <$> readers log)) (w_off log), 0)
  | OTHER_CMD => Some (log, - ENOTTY)
  end.

(** [DEFINE_LOGGER_DEVICE]: a log of [sz] bytes. *)
Definition define_logger_device (sz : Z) : logger_log :=
  mk_log (replicate (Z.to_nat sz) x00) [] 0 0 sz (replicate 256 x00).

End Logger.

(** ** The log driver: entries

    The ring of a log read as a sequence of whole entries, from the head and
    from every reader; what the driver's steps do to these sequences. *)

Module LoggerInv.
Import Logger.

Notation zlen l := (Z.of_nat (length l)).

(** ** Well-formed logs and entries *)

Record log_ok (log : logger_log) : Prop := {
  lo_size : exists k, 13 <= k <= 30 /\ size log = 2 ^ k;
  lo_buffer : zlen (buffer log) = size log;
  lo_w_off : 0 <= w_off log < size log
}.

Lemma log_ok_bounds log : log_ok log -> 8192 <= size log <= 1073741824.
Proof.
  intros [(k & Hk & E) _ _]. rewrite E. split.
  - change 8192 with (2 ^ 13). apply Z.pow_le_mono_r; lia.
  - change 1073741824 with (2 ^ 30). apply Z.pow_le_mono_r; lia.
Qed.

(** An entry: its first two bytes are the length of its payload. *)
Definition entry (e : list byte) : Prop :=
  exists b0 b1 rest, e = b0 :: b1 :: rest /\
    zlen e = sizeof_logger_entry + (Z_of_byte b0 + 256 * Z_of_byte b1) /\
    zlen e <= LOGGER_ENTRY_MAX_LEN.

Lemma Z_of_byte_range b : 0 <= Z_of_byte b < 256.
Proof. unfold Z_of_byte. pose proof (Byte.to_N_bounded b). lia. Qed.

Lemma entry_len e : entry e -> 20 <= zlen e <= 4096.
Proof.
  intros (b0 & b1 & rest & -> & E & Hle). pose proof (Z_of_byte_range b0). pose proof (Z_of_byte_range b1).
  unfold sizeof_logger_entry, LOGGER_ENTRY_MAX_LEN in *. lia.
Qed.

(** [X] are the bytes from offset [p] up to the write offset. *)
Record tracks (log : logger_log) (p : Z) (X : list byte) : Prop := {
  tr_p : 0 <= p < size log;
  tr_len : zlen X < size log;
  tr_w : (p + zlen X) mod size log = w_off log;
  tr_bytes : ring_slice (buffer log) p (zlen X) = X
}.

Definition total (es : list (list byte)) : Z := zlen (mjoin es).

(** From offset [p] the log holds the entries [es]. *)
Definition at_entries (log : logger_log) (p : Z) (es : list (list byte)) : Prop :=
  Forall entry es /\ tracks log p (mjoin es).

Lemma total_cons e es : total (e :: es) = zlen e + total es.
Proof. unfold total. simpl. rewrite length_app. lia. Qed.

Lemma total_app es es' : total (es ++ es') = total es + total es'.
Proof. unfold total. rewrite join_app, length_app. lia. Qed.

Lemma total_nonneg es : 0 <= total es.
Proof. unfold total. lia. Qed.

Lemma logger_offset_mod log n : log_ok log -> logger_offset log n = n mod size log.
Proof.
  intros Hl. pose proof (log_ok_bounds log Hl) as Hb. destruct Hl as [(k & Hk & E) _ _].
  unfold logger_offset. rewrite (u32_small (size log - 1)) by (unfold two32; lia).
  rewrite E, land_pow2_mask by lia. apply u32_mod_pow2. lia.
Qed.

(** ** Entry lengths *)

Lemma tracks_suffix log p X Y :
  log_ok log -> tracks log p (X ++ Y) -> tracks log ((p + zlen X) mod size log) Y.
Proof.
  intros Hl [Hp Hn Hw Hb]. rewrite length_app, Nat2Z.inj_add in *.
  pose proof (log_ok_bounds log Hl). pose proof (lo_buffer _ Hl) as Hbl. split.
  - apply Z.mod_pos_bound. lia.
  - lia.
  - rewrite Zplus_mod_idemp_l, <- Hw. f_equal. lia.
  - rewrite ring_slice_app in Hb by lia. apply app_inj_1 in Hb as [_ Hb].
    2: { apply Nat2Z.inj. rewrite length_ring_slice; lia. }
    rewrite <- Hb at 2. apply ring_slice_mod. rewrite Hbl. by rewrite Zmod_mod.
Qed.

Lemma at_entries_tail log p e es :
  log_ok log -> at_entries log p (e :: es) -> at_entries log ((p + zlen e) mod size log) es.
Proof.
  intros Hl [Hf Ht]. apply Forall_cons in Hf as [_ Hf]. split; [done|]. by apply tracks_suffix.
Qed.

Lemma get_entry_len_ok log p e es :
  log_ok log -> at_entries log p (e :: es) -> get_entry_len log p = Some (zlen e).
Proof.
  intros Hl [Hf [Hp Hn Hw Hb]]. pose proof (log_ok_bounds log Hl) as Hbd.
  pose proof (lo_buffer _ Hl) as Hbl.
  apply Forall_cons in Hf as [(b0 & b1 & rest & -> & Elen & _) _]. simpl in Hb.
  assert (H0 : ring_at (buffer log) p = b0 /\ ring_at (buffer log) (p + 1) = b1).
  { simpl in Hn.
    assert (Hlk : forall i : Z, 0 <= i < 2 ->
      (b0 :: b1 :: rest ++ mjoin es) !! Z.to_nat i = Some (ring_at (buffer log) (p + i))).
    { intros i Hi. rewrite <- Hb. apply ring_slice_lookup. simpl. lia. }
    pose proof (Hlk 0 ltac:(lia)) as E0. pose proof (Hlk 1 ltac:(lia)) as E1.
    rewrite Z.add_0_r in E0. simpl in E0, E1. split; congruence. }
  destruct H0 as [<- <-].
  unfold get_entry_len. rewrite u32_small by (unfold two32; lia).
  assert (Hres : forall v, v = [ring_at (buffer log) p; ring_at (buffer log) (p + 1)] ->
    (b0 ← v !! 0%nat; b1 ← v !! 1%nat; Some (sizeof_logger_entry + (Z_of_byte b0 + 256 * Z_of_byte b1)))
    = Some (zlen (ring_at (buffer log) p :: ring_at (buffer log) (p + 1) :: rest)))
    by (intros v ->; simpl in *; f_equal; lia).
  assert (H1 : forall q, 0 <= q -> q + 1 <= size log ->
    memcpy_from (buffer log) q 1 = Some [ring_at (buffer log) q]).
  { intros q Hq1 Hq2. rewrite memcpy_from_ok by lia. f_equal.
    by rewrite (take_drop_ring_slice (buffer log) q 1) by lia. }
  case_bd as Hone.
  - rewrite !H1 by lia. apply (Hres ([ring_at (buffer log) p] ++ [ring_at (buffer log) 0])). simpl.
    do 2 f_equal. apply ring_at_mod. rewrite Hbl. replace (p + 1) with (size log) by lia.
    by rewrite Z_mod_same_full, Zmod_0_l.
  - rewrite memcpy_from_ok by lia. rewrite (take_drop_ring_slice (buffer log) p 2) by lia.
    apply (Hres (ring_slice (buffer log) p 2)). unfold ring_slice.
    by rewrite (seqZ_cons p), (seqZ_cons (Z.succ p)), seqZ_nil by lia.
Qed.

(** ** Skipping entries *)

(** [k] is the least number of entries that hold [len] bytes. *)
Definition least_prefix (es : list (list byte)) (len : Z) (k : nat) : Prop :=
  len <= total (take k es) /\ forall j, (j < k)%nat -> total (take j es) < len.

Lemma get_next_entry_loop_ok log len fuel : forall p es count,
  log_ok log -> at_entries log p es -> 0 <= count < len -> len <= 4096 ->
  len <= count + total es -> (Z.to_nat (len - count) <= fuel)%nat ->
  exists k q, get_next_entry_loop fuel log p len count = Some q /\
    at_entries log q (drop k es) /\ least_prefix es (len - count) k.
Proof.
  induction fuel as [|fuel IH]; intros p es count Hl Hat Hc Hlen Htot Hfuel; [lia|].
  destruct es as [|e es]; [unfold total in Htot; simpl in Htot; lia|].
  simpl. rewrite (get_entry_len_ok log p e es Hl Hat). simpl.
  pose proof Hat as [[He _]%Forall_cons _]. pose proof (entry_len e He) as Hel.
  rewrite total_cons in Htot. rewrite u32_small by (unfold two32; lia).
  rewrite logger_offset_mod by done. pose proof (at_entries_tail log p e es Hl Hat) as Hat'.
  case_bd as Hlt.
  - destruct (IH _ es (count + zlen e) Hl Hat') as (k & q & -> & Hq & [Hk1 Hk2]); [lia..|].
    exists (S k), q. split; [done|]. split; [done|]. split.
    + simpl. rewrite total_cons. lia.
    + intros [|j] Hj; simpl; [unfold total; simpl; lia|]. rewrite total_cons.
      specialize (Hk2 j ltac:(lia)). lia.
  - exists 1%nat, ((p + zlen e) mod size log). split; [done|]. split; [done|]. split.
    + simpl. rewrite take_0, total_cons. unfold total. simpl. lia.
    + intros j Hj. assert (j = 0%nat) as -> by lia. unfold total. simpl. lia.
Qed.

Lemma get_next_entry_ok log p es len :
  log_ok log -> at_entries log p es -> 0 < len <= 4096 -> len <= total es ->
  exists k q, get_next_entry log p len = Some q /\ at_entries log q (drop k es) /\ least_prefix es len k.
Proof.
  intros Hl Hat Hlen Htot. unfold get_next_entry.
  destruct (get_next_entry_loop_ok log len (S (Z.to_nat len)) p es 0) as (k & q & E & Hq & Hk); try done; [lia..|].
  exists k, q. by rewrite Z.sub_0_r in Hk.
Qed.

Lemma get_next_entry_ext log log' off len :
  buffer log' = buffer log -> size log' = size log ->
  get_next_entry log' off len = get_next_entry log off len.
Proof.
  intros E1 E2.
  assert (Hg : forall o, get_entry_len log' o = get_entry_len log o)
    by (intros o; unfold get_entry_len; by rewrite E1, E2).
  assert (Ho : forall n, logger_offset log' n = logger_offset log n)
    by (intros n; unfold logger_offset; by rewrite E2).
  unfold get_next_entry. generalize (S (Z.to_nat len)) as fuel, 0 as count, off.
  induction fuel as [|fuel IH]; intros count off'; simpl; [done|].
  rewrite Hg. destruct (get_entry_len log off'); simpl; [|done]. rewrite Ho. by case_bd.
Qed.

(** ** Lapped readers *)

(** A reader with [d] unread bytes is lapped by [len] more exactly when they
    do not fit in front of it with a byte to spare. *)
Lemma clock_interval_ok sz w p d len :
  0 < sz -> 0 <= w < sz -> 0 <= p < sz -> 0 <= d < sz -> (p + d) mod sz = w -> 0 < len < sz ->
  clock_interval w ((w + len) mod sz) p = bool_decide (0 < d /\ sz <= d + len).
Proof.
  intros Hsz Hw Hp Hd Hmod Hlen. rewrite mod_add_once in Hmod by lia. rewrite mod_add_once by lia.
  unfold clock_interval. revert Hmod. repeat case_bd; simpl; intros; try done; try lia.
Qed.

(** What is left in front of the write offset once [len] bytes are promised
    to a new entry. *)
Definition kept (sz len : Z) (es es' : list (list byte)) : Prop :=
  if bool_decide (total es + len < sz) then es' = es
  else exists k, es' = drop k es /\ least_prefix es len k.

Lemma total_take_drop k es : total es = total (take k es) + total (drop k es).
Proof. by rewrite <- total_app, take_drop. Qed.

(** There is room for the entry behind what is kept. *)
Lemma kept_room sz len es es' :
  0 <= len < sz -> total es < sz -> kept sz len es es' -> total es' + len < sz.
Proof.
  intros Hlen Hes. unfold kept. case_bd; [intros ->; lia|]. intros (k & -> & Hk & _).
  pose proof (total_take_drop k es). lia.
Qed.

Definition moved (log : logger_log) (len p p' : Z) : Prop :=
  forall es, at_entries log p es -> exists es', at_entries log p' es' /\ kept (size log) len es es'.

Lemma fix_up_position log p es len :
  log_ok log -> at_entries log p es -> 0 < len <= 4096 ->
  (clock_interval (w_off log) (logger_offset log (w_off log + len)) p = false /\ moved log len p p) \/
  (clock_interval (w_off log) (logger_offset log (w_off log + len)) p = true /\
   exists q, get_next_entry log p len = Some q /\ moved log len p q).
Proof.
  intros Hl Hat Hlen. pose proof (log_ok_bounds log Hl) as Hb.
  pose proof Hat as [_ [Hp Hn Hw _]]. rewrite logger_offset_mod by done.
  rewrite (clock_interval_ok (size log) (w_off log) p (total es)); try done; try lia;
    [|apply Hl|split; [apply total_nonneg|done]].
  (* the bytes up to the write offset are determined *)
  assert (Huniq : forall es2, at_entries log p es2 -> total es2 = total es).
  { intros es2 [_ [_ Hn2 Hw2 _]]. unfold total. rewrite <- Hw in Hw2.
    rewrite !mod_add_once in Hw2 by lia. revert Hw2. repeat case_bd; lia. }
  pose proof (total_nonneg es). case_bd as Hin.
  - right. split; [done|].
    destruct (get_next_entry_ok log p es len Hl Hat) as (k & q & E & _ & _); [lia..|].
    exists q. split; [done|]. intros es2 Hat2. pose proof (Huniq es2 Hat2) as Eq.
    destruct (get_next_entry_ok log p es2 len Hl Hat2) as (k2 & q2 & E2 & Hq2 & Hk2); [lia..|].
    rewrite E in E2. injection E2 as <-. exists (drop k2 es2). split; [done|]. unfold kept.
    rewrite bool_decide_eq_false_2 by lia. by exists k2.
  - left. split; [done|]. intros es2 Hat2. pose proof (Huniq es2 Hat2). exists es2. split; [done|].
    unfold kept. by rewrite bool_decide_eq_true_2 by lia.
Qed.

Definition moved_reader (log : logger_log) (len : Z) (x y : rid * Z) : Prop :=
  fst y = fst x /\ moved log len (snd x) (snd y).

(** Every position of the log, and what it holds. *)
Record log_inv (log : logger_log) : Prop := {
  li_ok : log_ok log;
  li_head : exists es, at_entries log (head log) es;
  li_readers : Forall (fun x => exists es, at_entries log (snd x) es) (readers log);
  li_ids : NoDup (fst <$> readers log)
}.

Lemma at_entries_ext log log' p es :
  buffer log' = buffer log -> w_off log' = w_off log -> size log' = size log ->
  at_entries log p es -> at_entries log' p es.
Proof. intros E1 E2 E3 [? [? ? ? ?]]. split; [done|]. split; by rewrite ?E1, ?E2, ?E3. Qed.

Lemma fix_up_readers_ok log len :
  log_inv log -> 0 < len <= 4096 ->
  exists h' rs', fix_up_readers log len = Some (set_readers (set_head log h') rs') /\
    moved log len (head log) h' /\ Forall2 (moved_reader log len) (readers log) rs'.
Proof.
  intros [Hl [es Hh] Hr Hid] Hlen. unfold fix_up_readers.
  assert (Hhead : exists h', (if clock_interval (w_off log) (logger_offset log (w_off log + len)) (head log)
      then h ← get_next_entry log (head log) len; Some (set_head log h) else Some log)
      = Some (set_head log h') /\ moved log len (head log) h').
  { destruct (fix_up_position log (head log) es len Hl Hh Hlen) as [[-> Hm]|(-> & q & -> & Hm)].
    - exists (head log). split; [by destruct log|done].
    - by exists q. }
  destruct Hhead as (h' & -> & Hm). simpl.
  assert (Hrs : exists rs', mapM (fix_up_reader (set_head log h') (w_off log)
      (logger_offset log (w_off log + len)) len) (readers log) = Some rs' /\
      Forall2 (moved_reader log len) (readers log) rs').
  { clear Hid. induction (readers log) as [|x rs IH]; simpl; [by exists []|].
    apply Forall_cons in Hr as [[esx Hx] Hr]. destruct (IH Hr) as (rs' & -> & Hrs').
    unfold fix_up_reader at 1.
    rewrite (get_next_entry_ext log (set_head log h')) by done.
    destruct (fix_up_position log (snd x) esx len Hl Hx Hlen) as [[-> Hmx]|(-> & q & -> & Hmx)]; simpl;
      eexists; (split; [done|]); constructor; done. }
  destruct Hrs as (rs' & -> & Hrs'). simpl. by exists h', rs'.
Qed.

End LoggerInv.
