(* ===== verification/LoggerTop.v ===== *)
(** * The log driver: what readers see

    Writing an entry, reading one, and the rest of the file operations, as
    contracts on the sequence of entries each reader has in front of it. *)

From Stdlib Require Import ZArith Lia Strings.Byte.
From stdpp Require Import base option gmap list_numbers list.
From S2P Require Import Prelude Ring Logger.

Local Open Scope Z_scope.
Local Open Scope kernel_scope.

Module LoggerTop.
Import Logger LoggerInv.

(** ** Copies into the ring *)

(** The two-part copy of [src] at the write offset, both parts present. *)
Lemma ring_write log p X src :
  log_ok log -> tracks log p X -> zlen X + zlen src <= size log ->
  let l := Z.min (zlen src) (size log -u w_off log) in
  exists b1 b2,
    memcpy_to (buffer log) (w_off log) (take (Z.to_nat l) src) = Some b1 /\
    (if bool_decide (zlen src <> l) then memcpy_to b1 0 (drop (Z.to_nat l) src) else Some b1) = Some b2 /\
    zlen b2 = size log /\ ring_slice b2 p (zlen X + zlen src) = X ++ src.
Proof.
  intros Hl [Hp Hn Hw Hb] Hroom l. pose proof (log_ok_bounds log Hl) as Hbd.
  pose proof (lo_buffer _ Hl) as Hbl. pose proof (lo_w_off _ Hl) as Hwo.
  destruct (ring_append (buffer log) p (zlen X) src (w_off log) l)
    as (b1 & b2 & E1 & E2 & L1 & L2 & S1 & S2); try lia; [by rewrite Hbl|..].
  { unfold l. rewrite Hbl, u32_small by (unfold two32; lia). done. }
  exists b1, b2. split; [done|].
  assert (Hs : ring_slice b2 p (zlen X + zlen src) = X ++ src)
    by (rewrite ring_slice_app, S1, S2 by lia; by rewrite Hb).
  split; [|split; [lia|done]]. case_bd as Hne; [done|].
  rewrite drop_ge in E2 by (rewrite length_drop || idtac; lia).
  rewrite memcpy_to_ok in E2 by (simpl; lia). done.
Qed.

Lemma do_write_log_ok log src :
  log_ok log -> zlen src < size log ->
  exists log', do_write_log log src = Some log' /\ log_ok log' /\ size log' = size log /\
    head log' = head log /\ readers log' = readers log /\
    forall p X, tracks log p X -> zlen X + zlen src < size log -> tracks log' p (X ++ src).
Proof.
  intros Hl Hlen. pose proof (log_ok_bounds log Hl) as Hbd. pose proof (lo_w_off _ Hl) as Hwo.
  assert (H0 : tracks log (w_off log) []).
  { split; simpl; [done|lia|rewrite Z.add_0_r; by apply Z.mod_small|]. by apply ring_slice_nil. }
  unfold do_write_log.
  destruct (ring_write log (w_off log) [] src Hl H0) as (b1 & b2 & E1 & E2 & L2 & _); [simpl; lia|].
  rewrite E1. simpl. rewrite E2. simpl. rewrite logger_offset_mod by done.
  eexists. split; [done|]. split.
  { destruct Hl as [Hk _ _]. split; simpl; [done|done|apply Z.mod_pos_bound; lia]. }
  split; [done|]. split; [done|]. split; [done|].
  intros p X HX Hroom. pose proof HX as [Hp Hn Hw Hb].
  destruct (ring_write log p X src Hl HX) as (b1' & b2' & E1' & E2' & _ & S'); [lia|].
  rewrite E1 in E1'. injection E1' as <-. rewrite E2 in E2'. injection E2' as <-.
  split; simpl; [done|rewrite length_app; lia| |by rewrite length_app, Nat2Z.inj_add].
  rewrite length_app, <- Hw, Zplus_mod_idemp_l. f_equal. lia.
Qed.

(** ** Copies from user space *)

(** The memory in front of the write offset survives a copy of [m] bytes to
    the write offset, and then of [m2] bytes to the start of the ring. *)
Lemma frame_first log p X (m : list byte) :
  log_ok log -> tracks log p X -> zlen X + zlen m <= size log -> w_off log + zlen m <= size log ->
  exists b, memcpy_to (buffer log) (w_off log) m = Some b /\ zlen b = size log /\
    ring_slice b p (zlen X) = X /\ ring_slice b (p + zlen X) (zlen m) = m.
Proof.
  intros Hl [Hp Hn Hw Hb] Hroom Hend. pose proof (lo_buffer _ Hl) as Hbl.
  destruct (ring_straight_append (buffer log) p (zlen X) m (w_off log)) as (b & E & L & S1 & S2);
    rewrite ?Hbl; try lia; try done.
  exists b. rewrite Hb in S1. split; [done|]. split; [lia|done].
Qed.

Lemma frame_second log p X (b m2 : list byte) l :
  log_ok log -> tracks log p X -> zlen b = size log -> ring_slice b p (zlen X) = X -> 0 <= l ->
  zlen X + l + zlen m2 <= size log -> m2 = [] \/ w_off log + l = size log ->
  exists b2, memcpy_to b 0 m2 = Some b2 /\ zlen b2 = size log /\ ring_slice b2 p (zlen X) = X.
Proof.
  intros Hl [Hp Hn Hw Hb] Lb Sb Hl0 Hroom Hend. pose proof (log_ok_bounds log Hl) as Hbd.
  destruct (ring_wrap_append b p (zlen X + l) m2) as (b2 & E & L & S1 & _); try lia.
  { destruct Hend as [?|Hend]; [by left|right]. rewrite Lb, Z.add_assoc, <- Zplus_mod_idemp_l, Hw, Hend.
    apply Z_mod_same_full. }
  exists b2. split; [done|]. split; [lia|]. rewrite !ring_slice_app in S1 by lia.
  apply app_inj_1 in S1 as [S1 _]; [congruence|]. apply Nat2Z.inj. by rewrite !length_ring_slice by lia.
Qed.

Lemma tracks_buffer log p X b :
  tracks log p X -> ring_slice b p (zlen X) = X -> tracks (set_buffer log b) p X.
Proof. intros [? ? ? ?] ?. by split. Qed.

Lemma log_ok_buffer log b : log_ok log -> zlen b = size log -> log_ok (set_buffer log b).
Proof. intros [? ? ?] ?. by split. Qed.

(** A copy from the segment faults. *)
Definition faulty (iov : iovec) : Prop := iov_fault1 iov <> None \/ iov_fault2 iov <> None.

(** What a copy of [n] bytes from user space does: it appends them, or faults
    and leaves what was in front of the write offset as it was. *)
Inductive copied (log : logger_log) (iov : iovec) (n : Z) : logger_log -> Z -> Prop :=
  | copied_ok log' :
      (forall p X, tracks log p X -> zlen X + n < size log ->
         tracks log' p (X ++ take (Z.to_nat n) (iov_data iov))) -> copied log iov n log' n
  | copied_fault log' :
      faulty iov -> w_off log' = w_off log ->
      (forall p X, tracks log p X -> zlen X + n < size log -> tracks log' p X) ->
      copied log iov n log' (- EFAULT).

Definition same_frame (log log' : logger_log) : Prop :=
  log_ok log' /\ size log' = size log /\ head log' = head log /\ readers log' = readers log.

Lemma tracks_here log : log_ok log -> tracks log (w_off log) [].
Proof.
  intros Hl. pose proof (log_ok_bounds log Hl) as Hbd. pose proof (lo_w_off _ Hl) as Hwo.
  split; simpl; [done|lia|rewrite Z.add_0_r; by apply Z.mod_small|]. by apply ring_slice_nil.
Qed.

(** A copy that is skipped when it is empty stores [m], which is [src] unless
    the copy faults. *)
Lemma copy_opt (buf src : list byte) off fault (c : Prop) `{Decision c} :
  (c <-> zlen src <> 0) -> 0 <= off -> off + zlen src <= zlen buf ->
  exists b f m, (if bool_decide c then copy_from_user buf off src fault else Some (buf, false)) = Some (b, f) /\
    zlen m = zlen src /\ memcpy_to buf off m = Some b /\ (f = false -> m = src) /\ (f = true -> fault <> None).
Proof.
  intros Hc Ho Hle. case_bd as Hcd.
  - unfold copy_from_user. destruct fault as [junk|].
    + rewrite memcpy_to_ok by (rewrite ?length_resize; lia). simpl.
      eexists _, _, (resize (length src) x00 junk). split; [done|]. split; [by rewrite length_resize|].
      split; [|done]. by rewrite memcpy_to_ok by (rewrite ?length_resize; lia).
    + rewrite memcpy_to_ok by lia. simpl. eexists _, _, src. split; [done|]. split; [done|].
      rewrite memcpy_to_ok by lia. done.
  - exists buf, false, []. split; [done|]. assert (zlen src = 0) as E by (destruct (decide (zlen src = 0)); tauto).
    destruct src; [|simpl in E; lia]. split; [done|]. split; [|done].
    by rewrite memcpy_to_ok by (simpl; lia).
Qed.

(** ** The hook for boot messages *)

(** [d], stored at offset [w] of a ring of [sz] bytes, may have the hook read
    past the end: it starts in the last byte, with a [!] or not at all, or it
    starts with ["!@"] and what the hook copies of it wraps. *)
Definition runs_over (sz w : Z) (d : list byte) : Prop :=
  (w = sz - 1 /\ (d = [] \/ d !! 0%nat = Some x21)) \/
  (take 2 d = [x21; x40] /\ sz < w + Z.min (zlen d) 255).

(** One of the segments does, the first of them stored at [w], with [room]
    bytes left of the entry. *)
Fixpoint overreads (sz w room : Z) (segs : list iovec) : Prop :=
  match segs with
  | [] => False
  | iov :: segs =>
      let d := take (Z.to_nat room) (iov_data iov) in
      runs_over sz w d \/ overreads sz ((w + zlen d) mod sz) (room - zlen d) segs
  end.

(** The hook returns, unless the bytes just stored at the write offset run over. *)
Lemma klog_hook_ok log d :
  log_ok log -> ring_slice (buffer log) (w_off log) (zlen d) = d ->
  (klog_hook log (zlen d) = None /\ runs_over (size log) (w_off log) d) \/
  exists k, klog_hook log (zlen d) = Some k.
Proof.
  intros Hl Hs. pose proof (lo_buffer _ Hl) as Hbl. pose proof (lo_w_off _ Hl) as Hwo.
  assert (Hat : forall i, 0 <= i < zlen d -> w_off log + i < size log ->
    d !! Z.to_nat i = buffer log !! Z.to_nat (w_off log + i)).
  { intros i Hi Hlt. rewrite <- Hs at 1. rewrite ring_slice_lookup by done. rewrite ring_at_lt by lia.
    symmetry. apply list_lookup_lookup_total_lt. lia. }
  unfold klog_hook.
  destruct (lookup_lt_is_Some_2 (buffer log) (Z.to_nat (w_off log))) as [c0 E0]; [lia|]. rewrite E0. simpl.
  case_bd as H0; [subst c0|right; by eexists].
  destruct (decide (w_off log = size log - 1)) as [Hlast|Hlast].
  { rewrite (lookup_ge_None_2 (buffer log) (Z.to_nat (w_off log + 1))) by lia. left. split; [done|].
    left. split; [done|]. destruct d as [|c d]; [by left|right].
    pose proof (Hat 0 ltac:(simpl; lia) ltac:(lia)) as Ha. rewrite Z.add_0_r, E0 in Ha. exact Ha. }
  destruct (lookup_lt_is_Some_2 (buffer log) (Z.to_nat (w_off log + 1))) as [c1 E1]; [lia|]. rewrite E1. simpl.
  case_bd as H1; [subst c1|right; by eexists].
  replace (if bool_decide (zlen d < 255) then zlen d else 255) with (Z.min (zlen d) 255) by (case_bd; lia).
  unfold memcpy_from. case_bd as Hin; [right; by eexists|]. left. split; [done|]. right. split; [|lia].
  pose proof (Hat 0 ltac:(lia) ltac:(lia)) as A0. pose proof (Hat 1 ltac:(lia) ltac:(lia)) as A1.
  rewrite Z.add_0_r, E0 in A0. rewrite E1 in A1.
  destruct d as [|? [|? d]]; simpl in *; [done|done|]. by simplify_eq.
Qed.

Lemma do_write_user_ok log iov n :
  log_ok log -> 0 <= n <= zlen (iov_data iov) -> n < size log ->
  (do_write_log_from_user log iov n = None /\
   runs_over (size log) (w_off log) (take (Z.to_nat n) (iov_data iov))) \/
  exists log' nr, do_write_log_from_user log iov n = Some (log', nr) /\
    same_frame log log' /\ copied log iov n log' nr.
Proof.
  intros Hl Hn Hnlt. pose proof (log_ok_bounds log Hl) as Hbd. pose proof (lo_w_off _ Hl) as Hwo.
  pose proof (tracks_here log Hl) as Hhere. pose proof (lo_buffer _ Hl) as Hbl.
  set (src := take (Z.to_nat n) (iov_data iov)).
  assert (Hsrc : zlen src = n) by (unfold src; rewrite length_take; lia).
  unfold do_write_log_from_user. set (l := Z.min n (size log -u w_off log)).
  assert (Hlv : l = Z.min n (size log - w_off log)) by (unfold l; by rewrite u32_small by (unfold two32; lia)).
  replace (take (Z.to_nat l) (iov_data iov)) with (take (Z.to_nat l) src)
    by (unfold src; rewrite take_take; f_equal; lia).
  replace (take (Z.to_nat (n - l)) (drop (Z.to_nat l) (iov_data iov))) with (drop (Z.to_nat l) src)
    by (unfold src; rewrite take_drop_commute; do 2 f_equal; lia).
  set (s1 := take (Z.to_nat l) src). set (s2 := drop (Z.to_nat l) src).
  assert (H1 : zlen s1 = l) by (unfold s1; rewrite length_take; lia).
  assert (H2 : zlen s2 = n - l) by (unfold s2; rewrite length_drop; lia).
  destruct (copy_opt (buffer log) s1 (w_off log) (iov_fault1 iov) (l <> 0)) as (b & f1 & m1 & -> & L1 & E1 & F1 & J1);
    [lia..|]. simpl.
  assert (Lb : zlen b = size log) by (apply memcpy_to_length in E1; lia).
  assert (Hframe : forall p X, tracks log p X -> zlen X + n < size log -> ring_slice b p (zlen X) = X).
  { intros p X HX Hroom. destruct (frame_first log p X m1 Hl HX) as (b' & E' & _ & S & _); [lia..|]. congruence. }
  destruct f1.
  { right. eexists _, _. split; [done|]. split; [by split; [apply log_ok_buffer|]|].
    apply copied_fault; [left; by apply J1|done|]. intros p X HX Hroom. apply tracks_buffer; auto. }
  rewrite F1 in * by done. clear F1.
  destruct (copy_opt b s2 0 (iov_fault2 iov) (n <> l)) as (b2 & f2 & m2 & -> & L2 & E2 & F2 & J2); [lia..|]. simpl.
  assert (Lb2 : zlen b2 = size log) by (apply memcpy_to_length in E2; lia).
  assert (Hend : m2 = [] \/ w_off log + l = size log).
  { destruct (decide (n = l)); [left; destruct m2; [done|simpl in *; lia]|right; lia]. }
  destruct f2.
  { right. eexists _, _. split; [done|]. split; [by split; [apply log_ok_buffer|]|].
    apply copied_fault; [right; by apply J2|done|]. intros p X HX Hroom. apply tracks_buffer; [done|].
    destruct (frame_second log p X b m2 l Hl HX Lb) as (b' & E' & _ & S); auto; [lia..|]. congruence. }
  rewrite F2 in * by done. clear F2.
  assert (Hgo : forall p X, tracks log p X -> zlen X + n < size log ->
    ring_slice b2 p (zlen X + n) = X ++ src).
  { intros p X HX Hroom. destruct (ring_write log p X src Hl HX) as (c1 & c2 & G1 & G2 & _ & S); [lia|].
    rewrite Hsrc in *. fold l in G1, G2, S. fold s1 s2 in G1, G2.
    assert (c1 = b) as -> by congruence. rewrite <- S. f_equal. revert G2.
    case_bd as Hne; [congruence|]. intros [= <-]. destruct s2; [|simpl in *; lia].
    rewrite memcpy_to_ok in E2 by (simpl; lia). simpl in E2. congruence. }
  destruct (klog_hook_ok (set_buffer log b2) src) as [[Hkb Hov]|[kb Hkb]];
    [by apply log_ok_buffer|rewrite Hsrc; apply (Hgo _ [] Hhere); simpl; lia|..];
    rewrite Hsrc in Hkb; rewrite Hkb; simpl; [by left|right].
  eexists _, _. split; [done|]. split.
  { split; [|done]. destruct Hl as [Hk _ _]. split; simpl; [done|done|].
    change (logger_offset _ ?x) with (logger_offset log x). rewrite logger_offset_mod by (by split).
    apply Z.mod_pos_bound. lia. }
  apply copied_ok. intros p X HX Hroom. pose proof HX as [Hp HnX Hw Hb]. fold src.
  split; simpl; [done|rewrite length_app; lia| |rewrite length_app, Nat2Z.inj_add, Hsrc; by apply Hgo].
  change (logger_offset _ ?x) with (logger_offset log x). rewrite logger_offset_mod by done.
  rewrite length_app, <- Hw, Zplus_mod_idemp_l. f_equal. lia.
Qed.

(** ** The segment loop *)

Definition payload (segs : list iovec) : list byte := mjoin (iov_data <$> segs).

Lemma payload_cons iov segs : payload (iov :: segs) = iov_data iov ++ payload segs.
Proof. done. Qed.

Inductive written (log : logger_log) (segs : list iovec) (n orig : Z) : logger_log -> Z -> Prop :=
  | written_ok log' ret :
      ret = Z.min n (zlen (payload segs)) ->
      (forall p X, tracks log p X -> zlen X + n < size log ->
         tracks log' p (X ++ take (Z.to_nat n) (payload segs))) -> written log segs n orig log' ret
  | written_fault log' :
      Exists faulty segs -> w_off log' = orig ->
      (forall p X, tracks log p X -> zlen X + n < size log -> ring_slice (buffer log') p (zlen X) = X) ->
      written log segs n orig log' (- EFAULT).

Lemma same_frame_trans l1 l2 l3 : same_frame l1 l2 -> same_frame l2 l3 -> same_frame l1 l3.
Proof. intros (_ & A & B & C) (? & ? & ? & ?). repeat split; try apply H; congruence. Qed.

Lemma write_segs_ok hlen orig segs : forall log ret,
  log_ok log -> (Exists faulty segs -> 0 <= orig < size log) -> 0 <= ret <= hlen -> hlen <= 4096 ->
  (write_segs log segs hlen ret orig = None /\ overreads (size log) (w_off log) (hlen - ret) segs) \/
  exists log' ret' n, write_segs log segs hlen ret orig = Some (log', ret') /\
    same_frame log log' /\ written log segs (hlen - ret) orig log' n /\
    ret' = (if bool_decide (n = - EFAULT) then n else ret + n).
Proof.
  induction segs as [|iov segs IH]; intros log ret Hl Ho Hr Hh; simpl.
  { right. exists log, ret, 0. split; [done|]. split; [by split|]. split.
    - apply written_ok; [simpl; lia|]. intros p X HX _. unfold payload. simpl. by rewrite take_nil, app_nil_r.
    - by rewrite bool_decide_eq_false_2, Z.add_0_r. }
  pose proof (log_ok_bounds log Hl) as Hbd.
  set (n := Z.min (zlen (iov_data iov)) (hlen - ret)).
  assert (Hcut : take (Z.to_nat (hlen - ret)) (iov_data iov) = take (Z.to_nat n) (iov_data iov)).
  { destruct (decide (hlen - ret <= zlen (iov_data iov))); [by replace n with (hlen - ret) by lia|].
    rewrite !take_ge by lia. done. }
  assert (Hlen : zlen (take (Z.to_nat n) (iov_data iov)) = n) by (rewrite length_take; lia).
  destruct (do_write_user_ok log iov n Hl) as [[-> Hov]|(log1 & nr & -> & Hf1 & Hc)]; [lia..| |]; simpl.
  { left. split; [done|]. left. by rewrite Hcut. }
  pose proof Hf1 as (Hl1 & Hs1 & _).
  destruct Hc as [log1 Ht|log1 Hfy Hw Ht].
  - rewrite bool_decide_eq_false_2 by lia.
    assert (Hw1 : w_off log1 = (w_off log + n) mod size log).
    { pose proof (tr_w _ _ _ (Ht _ _ (tracks_here log Hl) ltac:(simpl; lia))) as E. rewrite Hs1 in E.
      simpl in E. by rewrite Hlen in E. }
    destruct (IH log1 (ret + n)) as [[-> Hov]|(log' & ret' & n2 & -> & Hf2 & Hwr & Hret)];
      [done|intros ?; rewrite Hs1; apply Ho; by right|lia|lia| |].
    { left. split; [done|]. right. rewrite Hcut, Hlen, <- Hw1, <- Hs1.
      by replace (hlen - ret - n) with (hlen - (ret + n)) by lia. }
    right. exists log', ret', (if bool_decide (n2 = - EFAULT) then - EFAULT else n + n2).
    split; [done|]. split; [by eapply same_frame_trans|].
    assert (Hpay : forall X, (X ++ take (Z.to_nat n) (iov_data iov)) ++
        take (Z.to_nat (hlen - (ret + n))) (payload segs)
        = X ++ take (Z.to_nat (hlen - ret)) (payload (iov :: segs))).
    { intros X. rewrite <- app_assoc. f_equal. rewrite payload_cons, take_app.
      destruct (decide (hlen - ret <= zlen (iov_data iov))).
      - replace n with (hlen - ret) by lia. replace (hlen - (ret + (hlen - ret))) with 0 by lia.
        replace (Z.to_nat (hlen - ret) - length (iov_data iov))%nat with 0%nat by lia. by rewrite !take_0.
      - rewrite (take_ge (iov_data iov) (Z.to_nat n)), (take_ge (iov_data iov) (Z.to_nat (hlen - ret))) by lia.
        do 2 f_equal. lia. }
    destruct Hwr as [log' n2 Hn2 Ht2|log' Hfy Hw2 Ht2].
    + assert (n2 <> - EFAULT) by (unfold EFAULT; lia). rewrite bool_decide_eq_false_2 in * by done. split.
      * apply written_ok; [rewrite payload_cons, length_app; lia|].
        intros p X HX Hroom. rewrite <- Hpay. apply Ht2; [apply Ht; [done|lia]|].
        rewrite length_app, length_take. rewrite Hs1. lia.
      * rewrite bool_decide_eq_false_2 by (unfold EFAULT; lia). lia.
    + rewrite bool_decide_eq_true_2 in * by done. split; [|by rewrite bool_decide_eq_true_2].
      apply written_fault; [by right|done|]. intros p X HX Hroom.
      specialize (Ht2 p (X ++ take (Z.to_nat n) (iov_data iov))).
      rewrite length_app, Nat2Z.inj_add, ring_slice_app in Ht2 by lia.
      specialize (Ht2 ltac:(apply Ht; [done|lia]) ltac:(rewrite length_take, Hs1; lia)).
      apply app_inj_1 in Ht2 as [? _]; [done|]. apply Nat2Z.inj. by rewrite length_ring_slice by lia.
  - right. exists (set_w_off log1 orig), (- EFAULT), (- EFAULT). split; [done|].
    destruct Hf1 as ([? ? ?] & ? & ? & ?). specialize (Ho ltac:(by left)).
    split; [split; [split; simpl; [done..|lia]|done]|]. split; [|done].
    apply written_fault; [by left|done|]. intros p X HX Hroom. apply Ht; [done|lia].
Qed.

(** ** Entry headers *)

Lemma length_le_bytes n z : length (le_bytes n z) = n.
Proof. revert z. induction n; intros z; simpl; auto. Qed.

Lemma Z_of_byte_of z : Z_of_byte (byte_of z) = z mod 256.
Proof.
  unfold Z_of_byte, byte_of. pose proof (Z.mod_pos_bound z 256 ltac:(lia)).
  destruct (Byte.of_N (Z.to_N (z mod 256))) as [b|] eqn:E; simpl.
  - apply Byte.to_of_N in E. rewrite E. lia.
  - apply Byte.of_N_None_iff in E. lia.
Qed.

Lemma header_entry h data :
  length (h_pad h) = 2%nat -> 0 <= h_len h <= LOGGER_ENTRY_MAX_PAYLOAD -> zlen data = h_len h ->
  zlen (header_bytes h) = sizeof_logger_entry /\ entry (header_bytes h ++ data).
Proof.
  intros Hp Hl Hd. unfold LOGGER_ENTRY_MAX_PAYLOAD, LOGGER_ENTRY_MAX_LEN, sizeof_logger_entry in *.
  assert (Hlen : zlen (header_bytes h) = 20)
    by (unfold header_bytes; rewrite !length_app, !length_le_bytes; lia).
  split; [done|]. unfold entry. eexists (byte_of (h_len h)), (byte_of (h_len h / 256)), _.
  split; [reflexivity|]. rewrite !Z_of_byte_of. unfold sizeof_logger_entry, LOGGER_ENTRY_MAX_LEN.
  change (byte_of (h_len h) :: byte_of (h_len h / 256) :: ?r ++ data) with (header_bytes h ++ data).
  rewrite length_app.
  rewrite (Z.mod_small (h_len h / 256)) by (split; [apply Z.div_pos; lia|apply Z.div_lt_upper_bound; lia]).
  pose proof (Z.div_mod (h_len h) 256 ltac:(lia)). lia.
Qed.

(** ** Writing an entry *)

Lemma join_singleton {A} (e : list A) : mjoin [e] = e.
Proof. apply app_nil_r. Qed.

(** A position that had the entries [es] in front of it has, at its new place,
    what is kept of them followed by [new]. *)
Definition grows (log log' : logger_log) (len : Z) (new : list (list byte)) (p p' : Z) : Prop :=
  forall es, at_entries log p es ->
    exists es', kept (size log) len es es' /\ at_entries log' p' (es' ++ new).

Definition grows_reader (log log' : logger_log) (len : Z) (new : list (list byte)) (x y : rid * Z) : Prop :=
  fst y = fst x /\ grows log log' len new (snd x) (snd y).

Lemma tracks_fields log log' p X :
  buffer log' = buffer log -> w_off log' = w_off log -> size log' = size log ->
  tracks log p X -> tracks log' p X.
Proof. intros E1 E2 E3 [? ? ? ?]. split; by rewrite ?E1, ?E2, ?E3. Qed.

(** Once room was made, the header and the payload follow what was kept. *)
Lemma write_entry log orig h segs :
  log_ok log -> (Exists faulty segs -> orig = w_off log) -> length (h_pad h) = 2%nat ->
  0 < h_len h <= LOGGER_ENTRY_MAX_PAYLOAD -> h_len h <= zlen (payload segs) ->
  ((log1 ← do_write_log log (header_bytes h); write_segs log1 segs (h_len h) 0 orig) = None /\
   overreads (size log) ((w_off log + sizeof_logger_entry) mod size log) (h_len h) segs) \/
  exists log' ret new,
    (log1 ← do_write_log log (header_bytes h); write_segs log1 segs (h_len h) 0 orig)
      = Some (log', ret) /\ same_frame log log' /\
    ((ret = h_len h /\ new = [header_bytes h ++ take (Z.to_nat (h_len h)) (payload segs)]) \/
     (ret = - EFAULT /\ new = [] /\ Exists faulty segs)) /\
    forall p es, at_entries log p es -> total es + (sizeof_logger_entry + h_len h) < size log ->
      at_entries log' p (es ++ new).
Proof.
  intros Hl Ho Hp Hh Hd. pose proof (log_ok_bounds log Hl) as Hbd.
  assert (Hdat : zlen (take (Z.to_nat (h_len h)) (payload segs)) = h_len h) by (rewrite length_take; lia).
  destruct (header_entry h _ Hp ltac:(lia) Hdat) as [Hhl He].
  unfold sizeof_logger_entry, LOGGER_ENTRY_MAX_PAYLOAD, LOGGER_ENTRY_MAX_LEN in *.
  destruct (do_write_log_ok log (header_bytes h) Hl) as (log1 & -> & Hl1 & S1 & H1 & R1 & T1); [lia|].
  cbn [mbind option_bind].
  assert (Hw1 : w_off log1 = (w_off log + 20) mod size log).
  { pose proof (tr_w _ _ _ (T1 (w_off log) [] (tracks_here log Hl) ltac:(cbn [length]; lia))) as E.
    rewrite S1 in E. by rewrite app_nil_l, Hhl in E. }
  destruct (write_segs_ok (h_len h) orig segs log1 0) as [[-> Hov]|(log' & ret & n & -> & Hf & Hw & ->)];
    [done|intros Hfy; rewrite S1, (Ho Hfy); apply Hl|lia|unfold sizeof_logger_entry in *; lia| |].
  { left. split; [done|]. by rewrite S1, Hw1, Z.sub_0_r in Hov. }
  right.
  rewrite Z.sub_0_r in Hw.
  assert (Hf' : same_frame log log') by (eapply same_frame_trans; [|done]; by split).
  destruct Hw as [log' n En Ht|log' Hfy Ew Ht].
  - eexists _, _, [header_bytes h ++ take (Z.to_nat (h_len h)) (payload segs)].
    split; [done|]. split; [done|]. split; [left|].
    { rewrite bool_decide_eq_false_2 by (unfold EFAULT; lia). split; [lia|reflexivity]. }
    intros p es [Hes Htr] Hroom. split; [apply Forall_app; split; [done|by constructor]|].
    rewrite join_app, join_singleton, app_assoc. unfold total in Hroom.
    apply Ht; [apply T1; [done|lia]|]. rewrite length_app, S1. lia.
  - exists log', (- EFAULT), []. split; [by rewrite bool_decide_eq_true_2|]. split; [done|].
    split; [by right|]. intros p es [Hes Htr] Hroom. rewrite app_nil_r. split; [done|]. unfold total in Hroom.
    specialize (T1 p (mjoin es) Htr ltac:(lia)). specialize (Ht p _ T1).
    rewrite length_app, Nat2Z.inj_add, ring_slice_app in Ht by lia. rewrite S1 in Ht.
    specialize (Ht ltac:(lia)). apply app_inj_1 in Ht as [Ht _].
    2: { apply Nat2Z.inj. by rewrite length_ring_slice by lia. }
    destruct Htr as [? ? ? ?]. destruct Hf' as (_ & Sz & _ & _). split; rewrite ?Sz, ?Ew, ?(Ho Hfy); done.
Qed.

Lemma log_inv_grows log log' len new :
  log_inv log -> same_frame log' log' -> grows log log' len new (head log) (head log') ->
  Forall2 (grows_reader log log' len new) (readers log) (readers log') -> log_inv log'.
Proof.
  intros [Hl [es Hh] Hr Hid] (Hl' & _) Hgh Hgr. split; [done|..].
  - destruct (Hgh es Hh) as (es' & _ & ?). by eexists.
  - clear Hid Hgh. revert Hr. induction Hgr as [|x y rs rs' [_ Hg] _ IH]; intros Hr; [constructor|].
    apply Forall_cons in Hr as [[esx Hx] Hr]. constructor; [|by apply IH].
    destruct (Hg esx Hx) as (es' & _ & ?). by eexists.
  - replace (fst <$> readers log') with (fst <$> readers log); [done|].
    clear Hid Hr. induction Hgr as [|x y rs rs' [E _] _ IH]; [done|].
    rewrite !fmap_cons. by rewrite IH, E.
Qed.

(** A write returns, and every position grows by the new entry, unless the
    hook reads past the buffer.  [orig], the write offset of before the mutex
    was taken, is that of the log when a copy faults. *)
Lemma logger_write_ok log orig ki_left pad pid tid sec nsec segs :
  log_inv log -> (Exists faulty segs -> orig = w_off log) -> length pad = 2%nat -> ki_left = zlen (payload segs) -> 0 < ki_left ->
  let h := mk_header (Z.min ki_left LOGGER_ENTRY_MAX_PAYLOAD) pad pid tid sec nsec in
  (logger_aio_write log orig ki_left pad pid tid sec nsec segs = None /\
   overreads (size log) ((w_off log + sizeof_logger_entry) mod size log) (h_len h) segs) \/
  exists log' ret new,
    logger_aio_write log orig ki_left pad pid tid sec nsec segs = Some (log', ret) /\
    log_inv log' /\ size log' = size log /\
    grows log log' (sizeof_logger_entry + h_len h) new (head log) (head log') /\
    Forall2 (grows_reader log log' (sizeof_logger_entry + h_len h) new) (readers log) (readers log') /\
    ((ret = h_len h /\ new = [header_bytes h ++ take (Z.to_nat (h_len h)) (payload segs)]) \/
     (ret = - EFAULT /\ new = [] /\ Exists faulty segs)).
Proof.
  intros Hinv Ho Hpad Hki Hpos h. pose proof (li_ok _ Hinv) as Hl. pose proof (log_ok_bounds log Hl) as Hbd.
  assert (Hh : 0 < h_len h <= LOGGER_ENTRY_MAX_PAYLOAD /\ h_len h <= zlen (payload segs))
    by (unfold h, LOGGER_ENTRY_MAX_PAYLOAD, LOGGER_ENTRY_MAX_LEN, sizeof_logger_entry; simpl; lia).
  assert (Hlen : 0 < sizeof_logger_entry + h_len h <= 4096)
    by (unfold LOGGER_ENTRY_MAX_PAYLOAD, LOGGER_ENTRY_MAX_LEN, sizeof_logger_entry in *; lia).
  unfold logger_aio_write. fold h. rewrite bool_decide_eq_false_2 by lia.
  destruct (fix_up_readers_ok log (sizeof_logger_entry + h_len h) Hinv Hlen) as (h' & rs' & -> & Hmh & Hmr).
  cbn [mbind option_bind]. set (log1 := set_readers (set_head log h') rs').
  assert (Hl1 : log_ok log1) by (destruct Hl; by split).
  destruct (write_entry log1 orig h segs Hl1) as [Hov|(log' & ret & new & -> & Hf & Hret & Hent)];
    [done|done|lia|lia|by left|right].
  destruct Hf as (Hl' & Sz & Hd & Rd). simpl in Sz, Hd, Rd.
  assert (Hgrow : forall p p', moved log (sizeof_logger_entry + h_len h) p p' ->
    grows log log' (sizeof_logger_entry + h_len h) new p p').
  { intros p p' Hm es Hat. destruct (Hm es Hat) as (es' & Hat' & Hk). exists es'. split; [done|].
    apply Hent; [by eapply at_entries_ext; [..|exact Hat']|]. eapply (kept_room (size log)); [lia| |done].
    by destruct Hat as [_ [_ ? _ _]]. }
  assert (Gh : grows log log' (sizeof_logger_entry + h_len h) new (head log) (head log'))
    by (rewrite Hd; by apply Hgrow).
  assert (Gr : Forall2 (grows_reader log log' (sizeof_logger_entry + h_len h) new) (readers log) (readers log')).
  { rewrite Rd. eapply Forall2_impl; [exact Hmr|]. intros x y [E Hm]. split; [done|by apply Hgrow]. }
  exists log', ret, new. split; [done|]. split; [|done]. by eapply log_inv_grows.
Qed.

(** ** Reading an entry *)

Lemma find_reader_elem rs r off : find_reader rs r = Some off -> (r, off) ∈ rs.
Proof.
  induction rs as [|[r' o] rs IH]; simpl; [done|]. case_bd as E; [intros [= <-]; subst; by left|].
  intros ?. right. by apply IH.
Qed.

Lemma do_read_ok log r off e es fault :
  log_ok log -> r_off log r = Some off -> at_entries log off (e :: es) ->
  exists log' ret out, do_read_log_to_user log r (zlen e) fault = Some (log', ret, out) /\
    ((ret = zlen e /\ out = e /\ log' = set_r_off log r ((off + zlen e) mod size log)) \/
     (ret = - EFAULT /\ log' = log /\ fault <> None)).
Proof.
  intros Hl Ho Hat. pose proof (log_ok_bounds log Hl) as Hbd. pose proof (lo_buffer _ Hl) as Hbl.
  pose proof Hat as [[He _]%Forall_cons [Hp Hn Hw Hb]]. pose proof (entry_len e He) as Hel.
  unfold do_read_log_to_user. rewrite Ho. simpl. rewrite (u32_small (size log - off)) by (unfold two32; lia).
  set (l := Z.min (zlen e) (size log - off)).
  destruct (ring_copy_out (buffer log) off (zlen e) l) as (E1 & E2 & E3); rewrite ?Hbl; try lia; try done.
  rewrite E1. simpl. case_bd as F1; [eexists _, _, _; split; [done|]; right; by rewrite F1|].
  assert (Hslice : ring_slice (buffer log) off (zlen e) = e).
  { simpl in Hb. rewrite length_app, Nat2Z.inj_add, ring_slice_app in Hb by lia.
    apply app_inj_1 in Hb as [? _]; [done|]. apply Nat2Z.inj. by rewrite length_ring_slice by lia. }
  rewrite E2. case_bd as Hne; simpl.
  - case_bd as F2; simpl; eexists _, _, _; (split; [done|]); [right; by rewrite F2|left].
    split; [done|]. split; [by rewrite E3|]. by rewrite logger_offset_mod.
  - eexists _, _, _. split; [done|]. left. split; [done|]. split.
    + replace l with (zlen e) by lia. by rewrite app_nil_r.
    + by rewrite logger_offset_mod.
Qed.

Lemma set_r_off_same log r off :
  r ∈ fst <$> readers log -> r_off (set_r_off log r off) r = Some off.
Proof.
  unfold r_off, set_r_off. simpl. induction (readers log) as [|[a o] rs IH]; simpl; intros Hin; [set_solver|].
  destruct (decide (a = r)) as [->|Hne].
  - rewrite (bool_decide_eq_true_2 (r = r)) by done. simpl. by rewrite bool_decide_eq_true_2.
  - rewrite (bool_decide_eq_false_2 (a = r)) by done. simpl. rewrite bool_decide_eq_false_2 by done.
    apply IH. set_solver.
Qed.

Lemma set_r_off_other log r off r' : r' <> r -> r_off (set_r_off log r off) r' = r_off log r'.
Proof.
  intros Hne. unfold r_off, set_r_off. simpl. induction (readers log) as [|[a o] rs IH]; simpl; [done|].
  destruct (decide (a = r)) as [->|Ha].
  - rewrite (bool_decide_eq_true_2 (r = r)) by done. simpl. by rewrite !(bool_decide_eq_false_2 (r = r')).
  - rewrite (bool_decide_eq_false_2 (a = r)) by done. simpl. by case_bd.
Qed.

(** A position has one sequence of entries in front of it. *)
Lemma at_entries_unique log p es : forall es2,
  log_ok log -> at_entries log p es -> at_entries log p es2 -> es2 = es.
Proof.
  revert p. induction es as [|e es IH]; intros p es2 Hl H1 H2.
  - destruct es2 as [|e2 es2]; [done|]. destruct H1 as [_ [Hp _ Hw _]], H2 as [[He2 _]%Forall_cons [_ Hn2 Hw2 _]].
    pose proof (entry_len _ He2) as Hl2. simpl in Hw, Hn2, Hw2. rewrite length_app in *.
    rewrite mod_add_once in Hw by lia. rewrite mod_add_once in Hw2 by lia. revert Hw Hw2. repeat case_bd; lia.
  - destruct es2 as [|e2 es2].
    { destruct H2 as [_ [Hp _ Hw _]], H1 as [[He2 _]%Forall_cons [_ Hn2 Hw2 _]].
      pose proof (entry_len _ He2) as Hl2. simpl in Hw, Hn2, Hw2. rewrite length_app in *.
      rewrite mod_add_once in Hw by lia. rewrite mod_add_once in Hw2 by lia. revert Hw Hw2. repeat case_bd; lia. }
    pose proof (get_entry_len_ok _ _ _ _ Hl H1) as E1. pose proof (get_entry_len_ok _ _ _ _ Hl H2) as E2.
    rewrite E1 in E2. injection E2 as E.
    pose proof (at_entries_tail _ _ _ _ Hl H1) as T1. pose proof (at_entries_tail _ _ _ _ Hl H2) as T2.
    rewrite <- E in T2. pose proof (IH _ _ Hl T1 T2) as ->. f_equal.
    destruct H1 as [_ [_ _ _ B1]], H2 as [_ [_ _ _ B2]]. simpl in B1, B2. rewrite length_app in *.
    assert (E' : length e2 = length e) by lia. rewrite E', B1 in B2. apply app_inj_1 in B2 as [? _]; [done|]. lia.
Qed.

(** ** The device *)

Lemma log_inv_flush log : log_inv log ->
  log_inv (set_head (set_readers log ((fun x => (fst x, w_off log)) <$> readers log)) (w_off log)).
Proof.
  intros [Hl _ _ Hid]. pose proof (tracks_here log Hl) as Ht.
  assert (Hat : forall log', buffer log' = buffer log -> w_off log' = w_off log -> size log' = size log ->
      exists es, at_entries log' (w_off log) es).
  { intros log' ? ? ?. exists []. split; [constructor|]. by apply (tracks_fields log). }
  split; simpl.
  - by destruct Hl; split.
  - by apply Hat.
  - apply Forall_fmap, Forall_true. intros x. by apply Hat.
  - rewrite <- list_fmap_compose. done.
Qed.

Lemma log_inv_open log r : log_inv log -> r ∉ fst <$> readers log ->
  log_inv (set_readers log (list_add_tail (r, head log) (readers log))).
Proof.
  intros [Hl [es Hh] Hr Hid] Hfresh. split; simpl.
  - by destruct Hl; split.
  - exists es. by eapply at_entries_ext; [..|exact Hh].
  - apply Forall_app. split; [|constructor; [|constructor]].
    + eapply Forall_impl; [exact Hr|]. intros x [esx ?]. exists esx. by eapply at_entries_ext; [..|eassumption].
    + exists es. by eapply at_entries_ext; [..|exact Hh].
  - unfold list_add_tail. rewrite fmap_app. apply NoDup_app. split; [done|]. split; [|apply NoDup_singleton].
    intros x Hx Hin. apply list_elem_of_singleton in Hin. simpl in Hin. by subst.
Qed.

Lemma log_inv_release log r : log_inv log ->
  log_inv (set_readers log (filter (fun x => fst x <> r) (readers log))).
Proof.
  intros [Hl [es Hh] Hr Hid]. split; simpl.
  - by destruct Hl; split.
  - exists es. by eapply at_entries_ext; [..|exact Hh].
  - apply Forall_forall. intros x [_ Hx]%list_elem_of_filter. rewrite Forall_forall in Hr.
    destruct (Hr x Hx) as [esx ?]. exists esx. by eapply at_entries_ext; [..|eassumption].
  - clear Hr. induction (readers log) as [|x rs IH]; [done|]. rewrite filter_cons. simpl in Hid.
    apply NoDup_cons in Hid as [Hn Hid]. destruct (decide (fst x <> r)); [|by apply IH].
    simpl. apply NoDup_cons. split; [|by apply IH]. intros (y & Ey & Hy)%list_elem_of_fmap. apply Hn.
    apply list_elem_of_filter in Hy as [_ Hy]. rewrite Ey. by apply list_elem_of_fmap_2.
Qed.

Lemma log_inv_read log r off : log_inv log -> (exists es, at_entries log off es) -> log_inv (set_r_off log r off).
Proof.
  intros [Hl [es Hh] Hr Hid] [es0 H0]. split; simpl.
  - by destruct Hl; split.
  - exists es. by eapply at_entries_ext; [..|exact Hh].
  - apply Forall_fmap. eapply Forall_impl; [exact Hr|]. intros x [esx ?]. simpl.
    case_bd; [exists es0|exists esx]; by eapply at_entries_ext; [..|eassumption].
  - rewrite <- list_fmap_compose. replace ((fst ∘ _) <$> readers log) with (fst <$> readers log); [done|].
    apply list_fmap_ext. intros i x _. simpl. by case_bd.
Qed.

Lemma reader_entries log r off : log_inv log -> r_off log r = Some off -> exists es, at_entries log off es.
Proof.
  intros [_ _ Hr _] Ho. apply find_reader_elem in Ho. rewrite Forall_forall in Hr. by apply (Hr _ Ho).
Qed.

Lemma r_off_elem log r : r ∈ fst <$> readers log <-> exists off, r_off log r = Some off.
Proof.
  split.
  - unfold r_off. induction (readers log) as [|[a o] rs IH]; simpl; [set_solver|].
    intros Hin. case_bd; [by eexists|]. apply IH. set_solver.
  - intros [off Ho]. apply find_reader_elem in Ho. by apply (list_elem_of_fmap_2 fst) in Ho.
Qed.

End LoggerTop.
