(* ===== verification/LoggerDev.v ===== *)
(** * The log driver: the device

    The file operations of a log as events on one device, that no sequence of
    them leaves the buffer or breaks its entries apart, and what a writer and a
    reader are promised. *)

From Stdlib Require Import ZArith Lia Strings.Byte.
From stdpp Require Import base option gmap list_numbers list.
From S2P Require Import Prelude Ring Logger LoggerTop.

Local Open Scope Z_scope.
Local Open Scope kernel_scope.

Module LoggerDev.
Import Logger LoggerInv LoggerTop.

(** ** Events *)

Inductive op :=
  | OpOpen (found : bool) (nonseekable : Z) (fmode_read : bool) (alloc : option rid)
  | OpRelease (fmode_read : bool) (r : rid)
  | OpWrite (orig : Z) (pad : list byte) (pid tid sec nsec : Z) (segs : list iovec)
  | OpRead (r : rid) (count : Z) (fault : option bool)
  | OpPoll (fmode_read : bool) (r : rid)
  | OpIoctl (fmode_read fmode_write : bool) (r : rid) (cmd : ioctl_cmd).

(** One call, and the value it returns (0 where the caller of
    [logger_read_entry] waits again).  [orig] is the write offset a writer read
    before it took the mutex, and goes back to when a copy faults. *)
Definition exec (log : logger_log) (o : op) : option (logger_log * Z) :=
  match o with
  | OpOpen found nonseekable fmode_read alloc => Some (logger_open log found nonseekable fmode_read alloc)
  | OpRelease fmode_read r => Some (logger_release log fmode_read r, 0)
  | OpWrite orig pad pid tid sec nsec segs =>
      logger_aio_write log orig (zlen (payload segs)) pad pid tid sec nsec segs
  | OpRead r count fault =>
      res ← logger_read_entry log r count fault;
      Some match res with None => (log, 0) | Some (log', ret, _) => (log', ret) end
  | OpPoll fmode_read r => m ← logger_poll log fmode_read r; Some (log, m)
  | OpIoctl fmode_read fmode_write r cmd => logger_ioctl log fmode_read fmode_write r cmd
  end.

(** A new reader is a fresh object; a file opened for reading has a reader;
    the two pad bytes are two bytes; no other writer came in between when a
    copy of a write faults ([stale_orig_discards] is what happens then). *)
Definition valid (log : logger_log) (o : op) : Prop :=
  match o with
  | OpOpen _ _ _ alloc => from_option (fun r => r ∉ fst <$> readers log) True alloc
  | OpRelease _ _ => True
  | OpWrite orig pad _ _ _ _ segs => length pad = 2%nat /\ (Exists faulty segs -> orig = w_off log)
  | OpRead r _ _ => r ∈ fst <$> readers log
  | OpPoll fmode_read r | OpIoctl fmode_read _ r _ => fmode_read = true -> r ∈ fst <$> readers log
  end.

(** The write may have the hook for boot messages read past the buffer. *)
Definition hook_overreads (log : logger_log) (o : op) : Prop :=
  match o with
  | OpWrite _ _ _ _ _ _ segs =>
      overreads (size log) ((w_off log + sizeof_logger_entry) mod size log)
        (Z.min (zlen (payload segs)) LOGGER_ENTRY_MAX_PAYLOAD) segs
  | _ => False
  end.

(** The logs a device of [sz] bytes can come to. *)
Inductive reachable (sz : Z) : logger_log -> Prop :=
  | reach_init : reachable sz (define_logger_device sz)
  | reach_step log o log' ret :
      reachable sz log -> valid log o -> exec log o = Some (log', ret) -> reachable sz log'.

(** ** Reading *)

(** What [logger_read] does with the entries in front of a reader. *)
Definition read_result (log : logger_log) (r : rid) (es : list (list byte)) (count : Z)
    (fault : option bool) (res : option (logger_log * Z * list byte)) : Prop :=
  match es with
  | [] => res = None
  | e :: rest =>
      if bool_decide (count < zlen e) then res = Some (log, - EINVAL, [])
      else
        (exists log' off', res = Some (log', zlen e, e) /\
           r_off log' r = Some off' /\ at_entries log' off' rest /\
           (forall r', r' <> r -> r_off log' r' = r_off log r') /\
           buffer log' = buffer log /\ w_off log' = w_off log /\ head log' = head log) \/
        (exists out, res = Some (log, - EFAULT, out) /\ fault <> None)
  end.

Lemma empty_iff log p es : log_ok log -> at_entries log p es -> (w_off log = p <-> es = []).
Proof.
  intros Hl Hat. split; [|intros ->].
  - intros E. apply (at_entries_unique log p []); [done| |done].
    rewrite <- E. split; [constructor|by apply tracks_here].
  - destruct Hat as [_ [? ? Hw _]]. simpl in Hw. rewrite Z.add_0_r, Z.mod_small in Hw by lia. done.
Qed.

Lemma logger_read_ok log r off es count fault :
  log_inv log -> r_off log r = Some off -> at_entries log off es ->
  exists res, logger_read_entry log r count fault = Some res /\ read_result log r es count fault res /\
    forall log' ret out, res = Some (log', ret, out) -> log_inv log'.
Proof.
  intros Hinv Ho Hat. pose proof (li_ok _ Hinv) as Hl. unfold logger_read_entry. rewrite Ho. simpl.
  pose proof (empty_iff log off es Hl Hat) as Hemp. destruct es as [|e es]; simpl.
  { rewrite bool_decide_eq_true_2 by (by apply Hemp). by eexists. }
  rewrite bool_decide_eq_false_2 by (intros E; by apply Hemp in E).
  rewrite (get_entry_len_ok log off e es Hl Hat). simpl. case_bd as Hc.
  { eexists. split; [done|]. split; [done|]. by intros ? ? ? [= <- _ _]. }
  destruct (do_read_ok log r off e es fault Hl Ho Hat) as (log' & ret & out & -> & Hres). simpl.
  eexists. split; [done|]. pose proof (at_entries_tail log off e es Hl Hat) as Ht.
  destruct Hres as [(-> & -> & ->)|(-> & -> & Hf)].
  - split; [left|by intros ? ? ? [= <- _ _]; apply log_inv_read; [|eexists]].
    eexists _, _. split; [done|]. rewrite set_r_off_same by (apply r_off_elem; by eexists). split; [done|].
    split; [by eapply at_entries_ext; [..|exact Ht]|]. split; [by apply set_r_off_other|done].
  - split; [right; by eexists|]. by intros ? ? ? [= <- _ _].
Qed.

(** ** The other file operations *)

Lemma logger_ioctl_ok log fr fw r cmd :
  log_inv log -> (fr = true -> r ∈ fst <$> readers log) ->
  exists log' ret, logger_ioctl log fr fw r cmd = Some (log', ret) /\ log_inv log'.
Proof.
  intros Hinv Hr. destruct cmd; simpl; [by eexists _, _| | | |by eexists _, _].
  - destruct fr; simpl; [|by eexists _, _]. destruct (proj1 (r_off_elem log r) (Hr eq_refl)) as [off ->].
    simpl. by eexists _, _.
  - destruct fr; simpl; [|by eexists _, _]. destruct (proj1 (r_off_elem log r) (Hr eq_refl)) as [off Ho].
    rewrite Ho. simpl. destruct (reader_entries log r off Hinv Ho) as [es Hat].
    pose proof (empty_iff log off es (li_ok _ Hinv) Hat) as Hemp. case_bd as He; simpl; [by eexists _, _|].
    destruct es as [|e es]; [by destruct He; apply Hemp|].
    rewrite (get_entry_len_ok log off e es (li_ok _ Hinv) Hat). simpl. by eexists _, _.
  - destruct fw; simpl; [|by eexists _, _]. eexists _, _. split; [done|]. by apply log_inv_flush.
Qed.

Lemma logger_exec_ok log o : log_inv log -> valid log o ->
  (exists log' ret, exec log o = Some (log', ret) /\ log_inv log') \/
  (exec log o = None /\ hook_overreads log o).
Proof.
  intros Hinv Hv.
  destruct o as [fd ns fr al|fr r|orig pad pid tid sec nsec segs|r count fault|fr r|fr fw r cmd];
    simpl in *; [left|left| |left|left|left].
  - unfold logger_open. case_bd; [by eexists _, _|]. destruct fd, fr, al as [r|]; simpl; try by eexists _, _.
    eexists _, _. split; [done|]. by apply log_inv_open.
  - eexists _, _. split; [done|]. unfold logger_release. destruct fr; [by apply log_inv_release|done].
  - destruct Hv as [Hpad Ho]. destruct (decide (zlen (payload segs) = 0)) as [E|E].
    + left. eexists _, _. unfold logger_aio_write. by rewrite E.
    + destruct (logger_write_ok log orig (zlen (payload segs)) pad pid tid sec nsec segs Hinv Ho Hpad)
        as [Hov|(log' & ret & new & -> & ? & _)]; [done|lia|by right|]. left. by eexists _, _.
  - apply r_off_elem in Hv as [off Ho]. destruct (reader_entries log r off Hinv Ho) as [es Hat].
    destruct (logger_read_ok log r off es count fault Hinv Ho Hat) as (res & -> & _ & Hi). simpl.
    destruct res as [[[log' ret] out]|]; eexists _, _; split; try done. by eapply Hi.
  - unfold logger_poll. destruct fr; simpl; [|by eexists _, _].
    destruct (proj1 (r_off_elem log r) (Hv eq_refl)) as [off ->]. simpl. by eexists _, _.
  - by apply logger_ioctl_ok.
Qed.

Lemma log_inv_init k : 13 <= k <= 30 -> log_inv (define_logger_device (2 ^ k)).
Proof.
  intros Hk.
  assert (Hl : log_ok (define_logger_device (2 ^ k))).
  { pose proof (Z.pow_pos_nonneg 2 k ltac:(lia) ltac:(lia)).
    split; simpl; [by exists k|rewrite length_replicate; lia|lia]. }
  split; [done| |constructor|constructor]. exists []. split; [constructor|]. by apply tracks_here.
Qed.

Lemma logger_reachable_inv k log : 13 <= k <= 30 -> reachable (2 ^ k) log -> log_inv log.
Proof.
  intros Hk. induction 1 as [|log o log' ret _ IH Hv E]; [by apply log_inv_init|].
  destruct (logger_exec_ok log o IH Hv) as [(? & ? & E' & ?)|[E' _]]; by simplify_eq.
Qed.


Lemma forall2_reader (P : Z -> Z -> Prop) rs rs' r off :
  Forall2 (fun x y : rid * Z => fst y = fst x /\ P (snd x) (snd y)) rs rs' ->
  find_reader rs r = Some off -> exists off', find_reader rs' r = Some off' /\ P off off'.
Proof.
  induction 1 as [|[a o] [b o'] rs rs' [E HP] _ IH]; simpl in *; [done|]. subst b.
  case_bd; [intros [= <-]; by eexists|]. apply IH.
Qed.

(** ** Claims *)

(** C3: whatever sequence of opens, releases, writes, reads, polls and
    ioctls a log device of a power-of-two size of at least 8 KiB goes through,
    with user copies faulting anywhere, no call reads or writes outside the
    log's buffer or fails to return, and the bytes from the head and from every
    reader up to the write offset remain a sequence of whole entries, with one
    exception and under one condition.  The exception is the hook for boot
    messages: a call that leaves the buffer is a write with a segment that is
    stored from the last byte of the buffer on and is empty or starts with a
    [!], or that starts with ["!@"] and wraps within its first 255 bytes.  The
    condition is that no other write came between the read of the write offset,
    which is outside the mutex, and the mutex of a write whose copy faults. *)
Theorem logger_safe k log :
  13 <= k <= 30 -> reachable (2 ^ k) log ->
  log_inv log /\
  forall o, valid log o ->
    (exists log' ret, exec log o = Some (log', ret) /\ log_inv log') \/
    (exec log o = None /\ hook_overreads log o).
Proof.
  intros Hk Hr. pose proof (logger_reachable_inv k log Hk Hr) as Hinv. split; [done|].
  intros o. by apply logger_exec_ok.
Qed.


(** A read returns whole entries in order.  With nothing in front
    of the reader it goes back to waiting; with a buffer smaller than the next
    entry it returns -EINVAL and changes nothing; otherwise it hands out exactly
    the bytes of the next entry and leaves the reader in front of the rest, no
    other reader moving, or, only when the copy faults, returns -EFAULT and
    changes nothing. *)
Theorem logger_read_correct log r off es count fault :
  log_inv log -> r_off log r = Some off -> at_entries log off es ->
  exists res, logger_read_entry log r count fault = Some res /\ read_result log r es count fault res.
Proof.
  intros Hinv Ho Hat. destruct (logger_read_ok log r off es count fault Hinv Ho Hat) as (res & ? & ? & _).
  by exists res.
Qed.

(** What the ioctls and poll tell a reader is about the entries in
    front of it: LOGGER_GET_LOG_LEN is their total size, LOGGER_GET_NEXT_ENTRY_LEN
    the size of the first or 0, poll reports the log readable, and the wait at
    the start of a read ends, exactly when there is one; LOGGER_FLUSH_LOG leaves
    the reader with none, and a reader opened afterwards too. *)
Theorem logger_ioctl_correct log r off es fw nonblock signal :
  log_inv log -> r_off log r = Some off -> at_entries log off es ->
  logger_ioctl log true fw r GET_LOG_LEN = Some (log, total es) /\
  logger_ioctl log true fw r GET_NEXT_ENTRY_LEN = Some (log, match es with [] => 0 | e :: _ => zlen e end) /\
  (exists m, logger_poll log true r = Some m /\ (Z.land m POLLIN <> 0 <-> es <> []) /\ Z.land m POLLOUT <> 0) /\
  logger_read_wait log r nonblock signal
    = Some (match es with
            | _ :: _ => Ready
            | [] => if nonblock then Return (- EAGAIN) else if signal then Return (- EINTR) else Sleep
            end) /\
  exists log', logger_ioctl log true true r FLUSH_LOG = Some (log', 0) /\
    (exists off', r_off log' r = Some off' /\ at_entries log' off' []) /\ at_entries log' (head log') [].
Proof.
  intros Hinv Ho Hat. pose proof (li_ok _ Hinv) as Hl. pose proof (log_ok_bounds log Hl) as Hbd.
  pose proof (empty_iff log off es Hl Hat) as Hemp. pose proof (tracks_here log Hl) as Hhere.
  split; [|split; [|split; [|split]]].
  - simpl. rewrite Ho. simpl. do 2 f_equal. destruct Hat as [_ [Hp Hn Hw _]]. unfold total.
    rewrite mod_add_once in Hw by lia. revert Hw. repeat case_bd; lia.
  - simpl. rewrite Ho. simpl. destruct es as [|e es].
    + by rewrite bool_decide_eq_true_2 by (by apply Hemp).
    + rewrite bool_decide_eq_false_2 by (intros E; by apply Hemp in E). simpl.
      by rewrite (get_entry_len_ok log off e es Hl Hat).
  - unfold logger_poll. simpl. rewrite Ho. simpl. eexists. split; [done|]. case_bd as E; simpl.
    + split; [|done]. split; [done|]. intros Hne. by apply Hemp in E.
    + split; [|done]. split; [|done]. intros _ Hne. by apply E, Hemp.
  - unfold logger_read_wait. rewrite Ho. simpl. destruct es as [|e es].
    + by rewrite bool_decide_eq_true_2 by (by apply Hemp).
    + by rewrite bool_decide_eq_false_2 by (intros E; by apply Hemp in E).
  - simpl. eexists. split; [done|]. split.
    + exists (w_off log). split; [|split; [constructor|by apply (tracks_fields log)]].
      destruct (forall2_reader (fun _ o => o = w_off log) (readers log)
        ((fun x => (fst x, w_off log)) <$> readers log) r off) as (o & Eo & ->); [|done|done].
      apply Forall2_fmap_r. apply Forall_Forall2_diag, Forall_true. done.
    + split; [constructor|by apply (tracks_fields log)].
Qed.

(** ** A log with a reader and one entry *)

Definition demo_segs : list iovec := [mk_iov [x68] None None; mk_iov [x69; x21] None None].
Definition demo_entry : list byte :=
  header_bytes (mk_header 3 [x00; x00] 10 11 100 200) ++ [x68; x69; x21].
Definition demo_open : op := OpOpen true 0 true (Some 7%nat).
Definition demo_write : op := OpWrite 0 [x00; x00] 10 11 100 200 demo_segs.
Definition demo0 : logger_log := fst (logger_open (define_logger_device 8192) true 0 true (Some 7%nat)).
Definition demo1 : logger_log := from_option fst demo0 (exec demo0 demo_write).

Lemma logger_demo0_reachable : reachable (2 ^ 13) demo0.
Proof.
  apply (reach_step _ (define_logger_device 8192) demo_open _ 0).
  - apply reach_init.
  - apply not_elem_of_nil.
  - reflexivity.
Qed.

Lemma demo1_reachable : reachable (2 ^ 13) demo1.
Proof.
  apply (reach_step _ demo0 demo_write _ 3); [apply logger_demo0_reachable| |].
  { split; [reflexivity|]. intros _. reflexivity. }
  vm_compute. reflexivity.
Qed.

Lemma demo1_entries : r_off demo1 7%nat = Some 0 /\ at_entries demo1 0 [demo_entry].
Proof.
  split; [vm_compute; reflexivity|]. split.
  - constructor; [|constructor]. exists x03, x00, (drop 2 demo_entry).
    split; [vm_compute; reflexivity|]. split; vm_compute; [reflexivity|discriminate].
  - split; try (vm_compute; (reflexivity || split; (reflexivity || discriminate))).
Qed.

Lemma demo1_inv : log_inv demo1.
Proof. apply (logger_reachable_inv 13); [lia|apply demo1_reachable]. Qed.

Lemma logger_safe_witness : reachable (2 ^ 13) demo1 /\ log_inv demo1.
Proof.
  exact (conj demo1_reachable (proj1 (logger_safe 13 demo1 ltac:(lia) demo1_reachable))).
Defined.



Lemma logger_read_correct_witness : exists res,
  logger_read_entry demo1 7%nat 4096 None = Some res /\ read_result demo1 7%nat [demo_entry] 4096 None res.
Proof.
  exact (logger_read_correct demo1 7%nat 0 [demo_entry] 4096 None demo1_inv
           (proj1 demo1_entries) (proj2 demo1_entries)).
Defined.

Lemma logger_ioctl_correct_witness :
  logger_ioctl demo1 true false 7%nat GET_LOG_LEN = Some (demo1, 23).
Proof.
  exact (proj1 (logger_ioctl_correct demo1 7%nat 0 [demo_entry] false false false demo1_inv
           (proj1 demo1_entries) (proj2 demo1_entries))).
Defined.

(** ** Two writers *)

(** The offset a writer goes back to when its copy faults is read before the
    mutex is taken.  Here a second writer's entry is stored in between, and the
    fault of the first discards it: the reader is left with nothing. *)
Lemma stale_orig_discards :
  let fault := [mk_iov [x68] (Some []) None] in
  exists log1 log2,
    logger_aio_write demo0 (w_off demo0) 3 [x00; x00] 10 11 100 200 demo_segs = Some (log1, 3) /\
    at_entries log1 0 [demo_entry] /\
    logger_aio_write log1 (w_off demo0) 1 [x00; x00] 20 21 100 200 fault = Some (log2, - EFAULT) /\
    r_off log2 7%nat = Some 0 /\ at_entries log2 0 [].
Proof.
  exists demo1. set (res := logger_aio_write demo1 (w_off demo0) 1 [x00; x00] 20 21 100 200
    [mk_iov [x68] (Some []) None]).
  exists (from_option fst demo1 res). unfold res. clear res.
  split; [vm_compute; reflexivity|]. split; [apply demo1_entries|].
  split; [vm_compute; reflexivity|]. split; [vm_compute; reflexivity|]. split; [constructor|].
  split; try (vm_compute; (reflexivity || split; (reflexivity || discriminate))).
Qed.

(** The hook for boot messages copies the message from the write offset on,
    not around the ring: behind two entries that leave the message the last two
    bytes of the ring, the three bytes of ["!@A"] are read past its end. *)
Definition long_write (n : nat) : op := OpWrite 0 [x00; x00] 10 11 100 200 [mk_iov (replicate n x41) None None].

Lemma klog_hook_overreads : exists log,
  reachable (2 ^ 13) log /\
  let o := OpWrite (w_off log) [x00; x00] 10 11 100 200 [mk_iov [x21; x40; x41] None None] in
  valid log o /\ exec log o = None.
Proof.
  set (step := fun log n => from_option fst log (exec log (long_write n))).
  assert (Hstep : forall log n, reachable (2 ^ 13) log -> is_Some (exec log (long_write n)) ->
      reachable (2 ^ 13) (step log n)).
  { intros log n Hr [[log' ret] E]. apply (reach_step _ log (long_write n) _ ret); [done| |].
    - split; [done|]. intros [?|?]%Exists_cons; [|by apply Exists_nil in H]. by destruct H.
    - unfold step. by rewrite E. }
  exists (step (step (define_logger_device 8192) 4076%nat) 4054%nat). split.
  - apply Hstep; [apply Hstep; [apply reach_init|]|]; vm_compute; by eexists.
  - split; [|vm_compute; reflexivity]. split; [done|]. done.
Qed.

End LoggerDev.
