(* ===== verification/Chain.v ===== *)
(** * Singly linked chains

    Chains of objects linked by a [next] pointer and walked with a pointer to
    the pointer ([struct x **p]), as notifier chains and the children of a
    resource are.  A memory is the value of the head pointer and the [next]
    field of every object, [None] where there is no such object. *)

From Stdlib Require Import ZArith Lia.
From stdpp Require Import base option gmap list.
From S2P Require Import Prelude.

Definition oid := nat.

(** A pointer variable: the head, or the [next] field of an object. *)
Inductive slot := SHead | SNext (x : oid).

(** The list [l] leads from pointer [o] to pointer [o']. *)
Fixpoint seg (nx : oid -> option (option oid)) (o : option oid) (l : list oid) (o' : option oid) : Prop :=
  match l with
  | [] => o = o'
  | x :: l => o = Some x /\ exists o1, nx x = Some o1 /\ seg nx o1 l o'
  end.

Definition chain nx o l : Prop := seg nx o l None.

Lemma seg_app nx o l1 l2 o' : seg nx o (l1 ++ l2) o' <-> exists o1, seg nx o l1 o1 /\ seg nx o1 l2 o'.
Proof.
  revert o. induction l1 as [|x l1 IH]; intros o; simpl; [naive_solver|].
  split.
  - intros (-> & o1 & E & H). apply IH in H as (o2 & ? & ?). exists o2. eauto.
  - intros (o2 & (-> & o1 & E & H) & ?). split; [done|]. exists o1. split; [done|]. apply IH. eauto.
Qed.

Lemma seg_ext nx nx' o l o' : (forall x, x ∈ l -> nx' x = nx x) -> seg nx o l o' -> seg nx' o l o'.
Proof.
  revert o. induction l as [|x l IH]; intros o Hx; simpl; [done|]. intros (-> & o1 & E & H).
  split; [done|]. exists o1. split; [rewrite Hx by set_solver; done|]. apply IH; [set_solver|done].
Qed.

Lemma seg_mapped nx o l o' x : seg nx o l o' -> x ∈ l -> is_Some (nx x).
Proof.
  revert o. induction l as [|y l IH]; intros o; [set_solver|]. simpl. intros (-> & o1 & E & H) Hx.
  apply elem_of_cons in Hx as [->|Hx]; [by eexists|eauto].
Qed.

Lemma chain_unique nx o l l' : chain nx o l -> chain nx o l' -> l' = l.
Proof.
  unfold chain. revert o l'. induction l as [|x l IH]; intros o l'; simpl.
  - intros ->. destruct l'; simpl; [done|]. intros [? _]. done.
  - intros (-> & o1 & E & H). destruct l' as [|y l']; simpl; [done|]. intros (Ey & o1' & E' & H').
    injection Ey as <-. rewrite E in E'. injection E' as <-. f_equal. eauto.
Qed.

Lemma chain_suffix nx o l1 l2 : chain nx o (l1 ++ l2) -> chain nx (head l2) l2.
Proof.
  unfold chain. intros (o1 & _ & H)%seg_app. destruct l2 as [|x l2]; [done|]. simpl in *. naive_solver.
Qed.

Lemma chain_head nx o l : chain nx o l -> o = head l.
Proof. destruct l; unfold chain; simpl; naive_solver. Qed.

(** A chain that ends does not come back to an object. *)
Lemma chain_NoDup nx o l : chain nx o l -> NoDup l.
Proof.
  intros H. assert (Hs : forall l1 x l2, l = l1 ++ x :: l2 -> x ∉ l2).
  { intros l1 x l2 -> Hin. apply list_elem_of_split in Hin as (l3 & l4 & ->).
    pose proof (chain_suffix nx o l1 (x :: l3 ++ x :: l4) H) as H1.
    assert (H2 : chain nx o ((l1 ++ x :: l3) ++ x :: l4)) by (by rewrite <- app_assoc).
    apply chain_suffix in H2. pose proof (chain_unique _ _ _ _ H2 H1) as E.
    apply (f_equal length) in E. simpl in E. rewrite length_app in E. simpl in E. lia. }
  clear H. induction l as [|x l IH]; [constructor|]. constructor; [apply (Hs [] x l eq_refl)|].
  apply IH. intros l1 y l2 ->. apply (Hs (x :: l1) y l2 eq_refl).
Qed.

(** ** Reading and writing through a pointer to a pointer *)

(** The slot behind the objects [l] of a chain. *)
Definition slot_of (l : list oid) : slot := from_option SNext SHead (last l).

Definition read_slot (hd : option oid) (nx : oid -> option (option oid)) (s : slot) : option (option oid) :=
  match s with SHead => Some hd | SNext x => nx x end.

Lemma slot_of_snoc l x : slot_of (l ++ [x]) = SNext x.
Proof. unfold slot_of. by rewrite last_snoc. Qed.

Lemma seg_read nx hd l o : seg nx hd l o -> read_slot hd nx (slot_of l) = Some o.
Proof.
  destruct l as [|x l _] using rev_ind; [simpl; by intros ->|]. rewrite slot_of_snoc.
  intros (o1 & _ & H)%seg_app. simpl in *. destruct H as (-> & o2 & ? & <-). done.
Qed.

(** Storing [v] in the slot behind [l] leads [l] to [v]. *)
Lemma seg_write nx hd nx' hd' l o v :
  NoDup l -> seg nx hd l o ->
  read_slot hd' nx' (slot_of l) = Some v ->
  (l <> [] -> hd' = hd) -> (forall y, y ∈ l -> slot_of l <> SNext y -> nx' y = nx y) ->
  seg nx' hd' l v.
Proof.
  destruct l as [|x l _] using rev_ind; [simpl; by intros _ _ [= ->]|].
  rewrite slot_of_snoc. simpl. intros Hnd Hs Hv Hh Hy. rewrite Hh by (by destruct l).
  apply seg_app in Hs as (o1 & H1 & (-> & o2 & E & _)). apply seg_app. exists (Some x).
  apply NoDup_app in Hnd as (_ & Hnd & _). split; [|simpl; eauto].
  eapply seg_ext; [|exact H1]. intros y Hin. apply Hy; [set_solver|]. intros [= ->]. apply (Hnd y Hin). set_solver.
Qed.

(** ** Following a chain *)

Fixpoint follow (fuel : nat) (nx : oid -> option (option oid)) (o : option oid) : option (list oid) :=
  match o, fuel with
  | None, _ => Some []
  | Some _, O => None
  | Some x, S fuel => o ← nx x; l ← follow fuel nx o; Some (x :: l)
  end.

Lemma follow_chain fuel nx o l : follow fuel nx o = Some l -> chain nx o l.
Proof.
  unfold chain. revert o l. induction fuel as [|fuel IH]; intros [x|] l; simpl; try (by intros [= <-]).
  destruct (nx x) as [o|] eqn:Ex; simpl; [|done]. destruct (follow fuel nx o) as [l'|] eqn:E; simpl; [|done].
  intros [= <-]. simpl. eauto.
Qed.
