(* ===== verification/Notifier.v ===== *)
(** * Notifier chains ([kernel/notifier.c]): the model

    A chain is a singly linked list of caller-owned blocks in order of
    priority.  The registration routines run under the head's lock; the calls
    of atomic and SRCU chains walk the list without it.

    A result [None] is a pointer to no block, or a chain that does not end
    within as many blocks as there are. *)

From Stdlib Require Import ZArith Lia.
From stdpp Require Import base option gmap sorting list.
From S2P Require Import Prelude Chain.

Local Open Scope Z_scope.
Local Open Scope kernel_scope.

Module Notifier.

Definition NOTIFY_DONE : Z := 0x0000.
Definition NOTIFY_OK : Z := 0x0001.
Definition NOTIFY_STOP_MASK : Z := 0x8000.
Definition NOTIFY_BAD : Z := Z.lor NOTIFY_STOP_MASK 0x0002.
Definition NOTIFY_STOP : Z := Z.lor NOTIFY_OK NOTIFY_STOP_MASK.

Definition notifier_from_errno (err : Z) : Z := Z.lor NOTIFY_STOP_MASK (NOTIFY_OK - err).

Definition notifier_to_errno (ret : Z) : Z :=
  let ret := Z.land ret (Z.lnot NOTIFY_STOP_MASK) in
  if bool_decide (ret > NOTIFY_OK) then NOTIFY_OK - ret else 0.

(** [struct notifier_block]; the callback is an argument of the call. *)
Record notifier_block := mk_nb { nb_next : option oid; priority : Z }.

(** A notifier head, with the blocks of the system. *)
Record notifier_head := mk_nh { head : option oid; blocks : gmap oid notifier_block }.

Definition next_of (nh : notifier_head) (x : oid) : option (option oid) := nb_next <$> blocks nh !! x.

(** [*nl] and [*nl = v]. *)
Definition read (nh : notifier_head) (nl : slot) : option (option oid) := read_slot (head nh) (next_of nh) nl.

Definition set_next (nh : notifier_head) (x : oid) (v : option oid) : option notifier_head :=
  b ← blocks nh !! x;
  Some (mk_nh (head nh) (<[x := mk_nb v (priority b)]> (blocks nh))).

Definition write (nh : notifier_head) (nl : slot) (v : option oid) : option notifier_head :=
  match nl with
  | SHead => Some (mk_nh v (blocks nh))
  | SNext x => set_next nh x v
  end.

(** [n->next = *nl; rcu_assign_pointer( *nl, n)] *)
Definition link (nh : notifier_head) (nl : slot) (n : oid) : option notifier_head :=
  v ← read nh nl;
  nh ← set_next nh n v;
  write nh nl (Some n).

(** ** The core routines *)

Fixpoint register_loop (fuel : nat) (nh : notifier_head) (nl : slot) (n : oid) : option notifier_head :=
  v ← read nh nl;
  match v with
  | None => link nh nl n
  | Some x =>
      b ← blocks nh !! x;
      bn ← blocks nh !! n;
      if bool_decide (priority bn > priority b) then link nh nl n
      else match fuel with
           | O => None
           | S fuel => register_loop fuel nh (SNext x) n
           end
  end.

Definition notifier_chain_register (nh : notifier_head) (n : oid) : option (notifier_head * Z) :=
  nh ← register_loop (size (blocks nh)) nh SHead n; Some (nh, 0).

Fixpoint cond_register_loop (fuel : nat) (nh : notifier_head) (nl : slot) (n : oid) : option notifier_head :=
  v ← read nh nl;
  match v with
  | None => link nh nl n
  | Some x =>
      if bool_decide (x = n) then Some nh
      else
        b ← blocks nh !! x;
        bn ← blocks nh !! n;
        if bool_decide (priority bn > priority b) then link nh nl n
        else match fuel with
             | O => None
             | S fuel => cond_register_loop fuel nh (SNext x) n
             end
  end.

Definition notifier_chain_cond_register (nh : notifier_head) (n : oid) : option (notifier_head * Z) :=
  nh ← cond_register_loop (size (blocks nh)) nh SHead n; Some (nh, 0).

Fixpoint unregister_loop (fuel : nat) (nh : notifier_head) (nl : slot) (n : oid)
  : option (notifier_head * Z) :=
  v ← read nh nl;
  match v with
  | None => Some (nh, - ENOENT)
  | Some x =>
      if bool_decide (x = n) then
        b ← blocks nh !! n;
        nh ← write nh nl (nb_next b);
        Some (nh, 0)
      else match fuel with
           | O => None
           | S fuel => unregister_loop fuel nh (SNext x) n
           end
  end.

Definition notifier_chain_unregister (nh : notifier_head) (n : oid) : option (notifier_head * Z) :=
  unregister_loop (size (blocks nh)) nh SHead n.

(** The loop of [notifier_call_chain]: [call] is what each callback returns
    for the event.  The result is the last value returned and the blocks
    called, whose number is [*nr_calls]. *)
Fixpoint call_loop (fuel : nat) (nh : notifier_head) (call : oid -> Z) (nb : option oid)
  (nr_to_call ret : Z) : option (Z * list oid) :=
  match nb with
  | None => Some (ret, [])
  | Some x =>
      if bool_decide (nr_to_call = 0) then Some (ret, [])
      else
        next_nb ← next_of nh x;
        let ret := call x in
        if bool_decide (Z.land ret NOTIFY_STOP_MASK = NOTIFY_STOP_MASK) then Some (ret, [x])
        else match fuel with
             | O => None
             | S fuel =>
                 '(ret, l) ← call_loop fuel nh call next_nb (s32 (nr_to_call - 1)) ret;
                 Some (ret, x :: l)
             end
  end.

Definition notifier_call_chain (nh : notifier_head) (call : oid -> Z) (nr_to_call : Z)
  : option (Z * list oid) :=
  call_loop (size (blocks nh)) nh call (head nh) nr_to_call NOTIFY_DONE.

(** ** The four kinds of chain *)

Definition atomic_notifier_chain_register := notifier_chain_register.
Definition atomic_notifier_chain_unregister := notifier_chain_unregister.
Definition __atomic_notifier_call_chain := notifier_call_chain.
Definition atomic_notifier_call_chain nh call := __atomic_notifier_call_chain nh call (-1).

(** While booting the lock is not taken; what is done is the same. *)
Definition blocking_notifier_chain_register (booting : bool) nh n :=
  if booting then notifier_chain_register nh n else notifier_chain_register nh n.
Definition blocking_notifier_chain_cond_register := notifier_chain_cond_register.
Definition blocking_notifier_chain_unregister (booting : bool) nh n :=
  if booting then notifier_chain_unregister nh n else notifier_chain_unregister nh n.

(** The head is first looked at without the lock: [seen] is what was read. *)
Definition __blocking_notifier_call_chain (seen : option oid) nh call nr_to_call : option (Z * list oid) :=
  match seen with
  | Some _ => notifier_call_chain nh call nr_to_call
  | None => Some (NOTIFY_DONE, [])
  end.
Definition blocking_notifier_call_chain seen nh call := __blocking_notifier_call_chain seen nh call (-1).

Definition raw_notifier_chain_register := notifier_chain_register.
Definition raw_notifier_chain_unregister := notifier_chain_unregister.
Definition __raw_notifier_call_chain := notifier_call_chain.
Definition raw_notifier_call_chain nh call := __raw_notifier_call_chain nh call (-1).

Definition srcu_notifier_chain_register (booting : bool) nh n :=
  if booting then notifier_chain_register nh n else notifier_chain_register nh n.
Definition srcu_notifier_chain_unregister (booting : bool) nh n :=
  if booting then notifier_chain_unregister nh n else notifier_chain_unregister nh n.
Definition __srcu_notifier_call_chain := notifier_call_chain.
Definition srcu_notifier_call_chain nh call := __srcu_notifier_call_chain nh call (-1).

(** [ATOMIC_INIT_NOTIFIER_HEAD] and its relatives, [srcu_init_notifier_head]. *)
Definition init_notifier_head (blocks : gmap oid notifier_block) : notifier_head := mk_nh None blocks.

End Notifier.

(** ** Order, calls and lock-free traversal *)

Module NotifierTop.
Import Notifier.

(** ** The chain as a list *)

(** The blocks on the chain, first to be called first. *)
Definition live (nh : notifier_head) (l : list oid) : Prop := chain (next_of nh) (head nh) l.

Definition prio (nh : notifier_head) (x : oid) : Z := default 0 (priority <$> blocks nh !! x).

Definition known (nh : notifier_head) (x : oid) : Prop := is_Some (blocks nh !! x).

(** The same blocks with the same priorities. *)
Definition same_blocks (nh nh' : notifier_head) : Prop :=
  forall x, priority <$> blocks nh' !! x = priority <$> blocks nh !! x.

Lemma same_blocks_prio nh nh' x : same_blocks nh nh' -> prio nh' x = prio nh x.
Proof. unfold prio. intros H. by rewrite H. Qed.

Lemma same_blocks_known nh nh' x : same_blocks nh nh' -> known nh' x <-> known nh x.
Proof.
  unfold known. intros H. specialize (H x).
  destruct (blocks nh !! x), (blocks nh' !! x); simpl in H; split; intros [? ?]; try done; by eexists.
Qed.

Lemma same_blocks_trans a b c : same_blocks a b -> same_blocks b c -> same_blocks a c.
Proof. intros H1 H2 x. by rewrite H2. Qed.

Lemma same_blocks_size nh nh' : same_blocks nh nh' -> size (blocks nh') = size (blocks nh).
Proof.
  intros H. rewrite <- !size_dom. f_equal. apply set_eq. intros x. rewrite !elem_of_dom.
  by apply same_blocks_known.
Qed.

Lemma next_of_known nh x : is_Some (next_of nh x) -> known nh x.
Proof. unfold next_of, known. by rewrite fmap_is_Some. Qed.

Lemma live_known nh l x : live nh l -> x ∈ l -> known nh x.
Proof. intros Hl Hx. apply next_of_known. by eapply seg_mapped. Qed.

Lemma live_size nh l : live nh l -> (length l <= size (blocks nh))%nat.
Proof.
  intros Hl. rewrite <- size_dom. rewrite <- (size_list_to_set (C := gset oid) l) by (by eapply chain_NoDup).
  apply subseteq_size. intros x Hx%elem_of_list_to_set. apply elem_of_dom. by eapply live_known.
Qed.

(** ** Updates of the links *)

Lemma set_next_ok nh x v : known nh x -> exists nh', set_next nh x v = Some nh' /\ head nh' = head nh /\
  next_of nh' x = Some v /\ (forall y, y <> x -> next_of nh' y = next_of nh y) /\ same_blocks nh nh'.
Proof.
  intros [b Hb]. unfold set_next. rewrite Hb. simpl. eexists. split; [done|]. split; [done|].
  unfold next_of. simpl. split; [by rewrite lookup_insert_eq|]. split.
  - intros y Hy. by rewrite lookup_insert_ne.
  - intros y. simpl. destruct (decide (y = x)) as [->|]; [by rewrite lookup_insert_eq, Hb|by rewrite lookup_insert_ne].
Qed.

(** Storing [v] behind [l1]. *)
Lemma write_ok nh l1 o v : seg (next_of nh) (head nh) l1 o -> NoDup l1 ->
  exists nh', write nh (slot_of l1) v = Some nh' /\ seg (next_of nh') (head nh') l1 v /\
    (forall y, slot_of l1 <> SNext y -> next_of nh' y = next_of nh y) /\ same_blocks nh nh'.
Proof.
  intros Hs Hnd. destruct l1 as [|x l1 _] using rev_ind.
  { simpl. eexists. split; [done|]. split; [done|]. split; [done|]. by intros x. }
  rewrite slot_of_snoc. simpl.
  assert (Hk : known nh x).
  { apply next_of_known. eapply seg_mapped; [exact Hs|set_solver]. }
  destruct (set_next_ok nh x v Hk) as (nh' & -> & Hh & Hx & Hy & Hsb). exists nh'. split; [done|].
  split; [|split; [intros y Hne; apply Hy; congruence|done]].
  eapply seg_write; [done|exact Hs| |by rewrite Hh|].
  - by rewrite slot_of_snoc.
  - intros y _. rewrite slot_of_snoc. intros Hne. apply Hy. congruence.
Qed.

Lemma link_ok nh l1 l2 n : live nh (l1 ++ l2) -> n ∉ l1 ++ l2 -> known nh n ->
  exists nh', link nh (slot_of l1) n = Some nh' /\ live nh' (l1 ++ n :: l2) /\ same_blocks nh nh' /\
    (forall y, y <> n -> slot_of l1 <> SNext y -> next_of nh' y = next_of nh y).
Proof.
  intros Hl Hn Hk. pose proof (chain_NoDup _ _ _ Hl) as Hnd. apply NoDup_app in Hnd as (Hnd1 & Hdis & _).
  apply seg_app in Hl as (o & H1 & H2). unfold link, read. rewrite (seg_read _ _ _ _ H1). simpl.
  destruct (set_next_ok nh n o Hk) as (nh1 & -> & Hh & Hx & Hy & Hsb). simpl.
  assert (H1' : seg (next_of nh1) (head nh1) l1 o).
  { rewrite Hh. eapply seg_ext; [|exact H1]. intros x Hin. apply Hy. set_solver. }
  destruct (write_ok nh1 l1 o (Some n) H1' Hnd1) as (nh' & -> & Hs & Hf & Hsb').
  assert (Hne : slot_of l1 <> SNext n).
  { destruct l1 as [|x l1 _] using rev_ind; [done|]. rewrite slot_of_snoc. intros [= ->]. apply Hn. set_solver. }
  exists nh'. split; [done|]. split; [|split; [by eapply same_blocks_trans|]].
  - apply seg_app. exists (Some n). split; [done|]. simpl. split; [done|]. exists o. split; [by rewrite Hf|].
    eapply seg_ext; [|exact H2]. intros x Hin. rewrite Hf.
    + apply Hy. set_solver.
    + intros E. destruct l1 as [|y l1 _] using rev_ind; [done|]. rewrite slot_of_snoc in E. injection E as ->.
      apply (Hdis x); set_solver.
  - intros y Hyn Hys. rewrite Hf by done. by apply Hy.
Qed.

(** ** Registration *)

Lemma prio_lookup nh x b : blocks nh !! x = Some b -> priority b = prio nh x.
Proof. unfold prio. by intros ->. Qed.

(** Where a registration links its block, and what it leaves alone. *)
Definition inserted (nh nh' : notifier_head) (l1 l2 : list oid) (n : oid) : Prop :=
  exists a b, l2 = a ++ b /\ insert_by (prio nh) n l2 = a ++ n :: b /\ live nh' (l1 ++ a ++ n :: b) /\
    same_blocks nh nh' /\ forall y, y <> n -> slot_of (l1 ++ a) <> SNext y -> next_of nh' y = next_of nh y.

Lemma inserted_here nh l1 l2 n : live nh (l1 ++ l2) -> n ∉ l1 ++ l2 -> known nh n ->
  insert_by (prio nh) n l2 = n :: l2 ->
  exists nh', link nh (slot_of l1) n = Some nh' /\ inserted nh nh' l1 l2 n.
Proof.
  intros Hl Hn Hk Hi. destruct (link_ok nh l1 l2 n Hl Hn Hk) as (nh' & -> & ? & ? & ?).
  exists nh'. split; [done|]. exists [], l2. rewrite app_nil_r. done.
Qed.

Lemma inserted_later nh nh' l1 x l2 n : prio nh n <= prio nh x ->
  inserted nh nh' (l1 ++ [x]) l2 n -> inserted nh nh' l1 (x :: l2) n.
Proof.
  intros Hp (a & b & -> & Ei & Hl & Hsb & Hf). exists (x :: a), b. simpl.
  rewrite bool_decide_eq_false_2 by lia. rewrite Ei. rewrite <- !app_assoc in Hl. simpl in Hl.
  rewrite <- app_assoc in Hf. done.
Qed.

Lemma register_loop_ok nh n l2 : forall fuel l1,
  live nh (l1 ++ l2) -> n ∉ l1 ++ l2 -> known nh n -> (length l2 <= fuel)%nat ->
  exists nh', register_loop fuel nh (slot_of l1) n = Some nh' /\ inserted nh nh' l1 l2 n.
Proof.
  induction l2 as [|x l2 IH]; intros fuel l1 Hl Hn Hk Hfuel.
  - pose proof Hl as (o & H1 & H2)%seg_app. simpl in H2. subst o.
    replace (register_loop fuel nh (slot_of l1) n) with (link nh (slot_of l1) n).
    2: { destruct fuel; simpl; unfold read; by rewrite (seg_read _ _ _ _ H1). }
    by apply inserted_here.
  - simpl in Hfuel. destruct fuel as [|fuel]; [lia|]. pose proof Hl as (o & H1 & H2)%seg_app.
    simpl in H2. destruct H2 as (-> & o1 & Ex & H2). simpl. unfold read at 1.
    rewrite (seg_read _ _ _ _ H1). simpl.
    destruct (live_known nh _ x Hl) as [b Eb]; [set_solver|]. rewrite Eb. destruct Hk as [bn Ebn]. rewrite Ebn. simpl.
    rewrite (prio_lookup _ _ _ Eb), (prio_lookup _ _ _ Ebn). case_bd as Hp.
    + apply inserted_here; [done|done|by eexists|]. simpl. by rewrite bool_decide_eq_true_2.
    + destruct (IH fuel (l1 ++ [x])) as (nh' & E & Hi); [by rewrite <- app_assoc|by rewrite <- app_assoc|by eexists|lia|].
      rewrite slot_of_snoc in E. exists nh'. split; [done|]. apply inserted_later; [lia|done].
Qed.

Lemma register_ok nh l n : live nh l -> n ∉ l -> known nh n ->
  exists nh', notifier_chain_register nh n = Some (nh', 0) /\ inserted nh nh' [] l n.
Proof.
  intros Hl Hn Hk. unfold notifier_chain_register.
  destruct (register_loop_ok nh n l (size (blocks nh)) []) as (nh' & E & Hi); try done; [by apply live_size|].
  change (slot_of []) with SHead in E. rewrite E. by exists nh'.
Qed.

(** ** Unregistration *)

Lemma unregister_loop_ok nh n l2 : forall fuel l1,
  live nh (l1 ++ l2) -> n ∉ l1 -> (length l2 <= fuel)%nat ->
  (n ∉ l2 /\ unregister_loop fuel nh (slot_of l1) n = Some (nh, - ENOENT)) \/
  (exists a b nh', l2 = a ++ n :: b /\ unregister_loop fuel nh (slot_of l1) n = Some (nh', 0) /\
     live nh' (l1 ++ a ++ b) /\ same_blocks nh nh' /\
     forall y, slot_of (l1 ++ a) <> SNext y -> next_of nh' y = next_of nh y).
Proof.
  induction l2 as [|x l2 IH]; intros fuel l1 Hl Hn Hfuel; pose proof Hl as (o & H1 & H2)%seg_app; simpl in H2.
  - subst o. left. split; [set_solver|]. destruct fuel; simpl; unfold read; by rewrite (seg_read _ _ _ _ H1).
  - simpl in Hfuel. destruct fuel as [|fuel]; [lia|]. destruct H2 as (-> & o1 & Ex & H2). simpl. unfold read at 1 2.
    rewrite (seg_read _ _ _ _ H1). simpl. case_bd as Exn.
    + subst x. right. exists [], l2. unfold next_of in Ex. apply fmap_Some in Ex as (bn & -> & ->). simpl.
      pose proof (chain_NoDup _ _ _ Hl) as Hnd. apply NoDup_app in Hnd as (Hnd1 & Hdis & Hnd2).
      destruct (write_ok nh l1 _ (nb_next bn) H1 Hnd1) as (nh' & -> & Hs & Hf & Hsb). exists nh'.
      split; [done|]. split; [done|]. rewrite app_nil_r. split; [|done].
      apply seg_app. exists (nb_next bn). split; [done|]. eapply seg_ext; [|exact H2]. intros y Hy. apply Hf.
      intros E. destruct l1 as [|z l1 _] using rev_ind; [done|]. rewrite slot_of_snoc in E. injection E as ->.
      apply (Hdis y); set_solver.
    + destruct (IH fuel (l1 ++ [x])) as [[Hni E]|(a & b & nh' & -> & E & Hlv & Hsb & Hf)];
        [by rewrite <- app_assoc|set_solver|lia|left|right]; rewrite slot_of_snoc in E.
      * split; [set_solver|done].
      * exists (x :: a), b, nh'. rewrite <- !app_assoc in *. done.
Qed.

Lemma unregister_ok nh n l : live nh l ->
  (n ∉ l /\ notifier_chain_unregister nh n = Some (nh, - ENOENT)) \/
  (exists a b nh', l = a ++ n :: b /\ notifier_chain_unregister nh n = Some (nh', 0) /\
     live nh' (a ++ b) /\ same_blocks nh nh' /\
     forall y, slot_of a <> SNext y -> next_of nh' y = next_of nh y).
Proof.
  intros Hl. apply (unregister_loop_ok nh n l (size (blocks nh)) []); [done|set_solver|by apply live_size].
Qed.

(** ** Order *)

Definition by_prio (nh : notifier_head) : list oid -> Prop := StronglySorted (fun x y => prio nh x >= prio nh y).

Lemma by_prio_ext nh nh' l : same_blocks nh nh' -> by_prio nh l -> by_prio nh' l.
Proof.
  intros Hsb. unfold by_prio. induction 1 as [|x l _ IH Hx]; constructor; [done|].
  eapply Forall_impl; [exact Hx|]. intros y. by rewrite !(same_blocks_prio nh nh').
Qed.

Lemma insert_by_prio nh n l : by_prio nh l -> by_prio nh (insert_by (prio nh) n l).
Proof. apply insert_by_sorted. Qed.

Lemma by_prio_app nh l1 l2 : by_prio nh (l1 ++ l2) <->
  by_prio nh l1 /\ by_prio nh l2 /\ forall x y, x ∈ l1 -> y ∈ l2 -> prio nh x >= prio nh y.
Proof. unfold by_prio. rewrite StronglySorted_app. naive_solver. Qed.

Lemma by_prio_remove nh a n b : by_prio nh (a ++ n :: b) -> by_prio nh (a ++ b).
Proof.
  rewrite !by_prio_app. intros (Ha & Hb & Hab). inversion Hb as [|? ? Hb' _]; subst.
  split; [done|]. split; [done|]. intros x y Hx Hy. apply Hab; set_solver.
Qed.

Lemma cond_loop_new nh n l2 : forall fuel l1, live nh (l1 ++ l2) -> n ∉ l2 -> (length l2 <= fuel)%nat ->
  cond_register_loop fuel nh (slot_of l1) n = register_loop fuel nh (slot_of l1) n.
Proof.
  induction l2 as [|x l2 IH]; intros fuel l1 Hl Hn Hfuel; pose proof Hl as (o & H1 & H2)%seg_app; simpl in H2.
  - subst o. destruct fuel; simpl; unfold read; by rewrite (seg_read _ _ _ _ H1).
  - simpl in Hfuel. destruct fuel as [|fuel]; [lia|]. destruct H2 as (-> & o1 & Ex & H2). simpl. unfold read at 1 2.
    rewrite (seg_read _ _ _ _ H1). simpl. rewrite (bool_decide_eq_false_2 (x = n)) by set_solver.
    destruct (blocks nh !! x), (blocks nh !! n); simpl; try done. case_bd; [done|].
    specialize (IH fuel (l1 ++ [x])). rewrite slot_of_snoc, <- app_assoc in IH. apply IH; [done|set_solver|lia].
Qed.

Lemma cond_loop_present nh n l2 : forall fuel l1, live nh (l1 ++ l2) -> n ∈ l2 -> by_prio nh l2 ->
  (length l2 <= fuel)%nat -> cond_register_loop fuel nh (slot_of l1) n = Some nh.
Proof.
  induction l2 as [|x l2 IH]; intros fuel l1 Hl Hn Hs Hfuel; [set_solver|].
  pose proof Hl as (o & H1 & H2)%seg_app. simpl in H2, Hfuel. destruct fuel as [|fuel]; [lia|].
  destruct H2 as (-> & o1 & Ex & H2). simpl. unfold read at 1. rewrite (seg_read _ _ _ _ H1). simpl.
  case_bd as Exn; [done|]. apply elem_of_cons in Hn as [->|Hn]; [done|].
  destruct (live_known nh _ x Hl) as [b Eb]; [set_solver|]. destruct (live_known nh _ n Hl) as [bn Ebn]; [set_solver|].
  rewrite Eb, Ebn. simpl. rewrite (prio_lookup _ _ _ Eb), (prio_lookup _ _ _ Ebn).
  inversion Hs as [|? ? Hs' Hx]; subst. rewrite Forall_forall in Hx. specialize (Hx n Hn). simpl in Hx.
  rewrite bool_decide_eq_false_2 by lia.
  specialize (IH fuel (l1 ++ [x])). rewrite slot_of_snoc, <- app_assoc in IH. apply IH; [done|done|done|lia].
Qed.

(** ** The registration routines as operations on the list *)

Inductive op := Register (n : oid) | CondRegister (n : oid) | Unregister (n : oid).

Definition exec (nh : notifier_head) (o : op) : option (notifier_head * Z) :=
  match o with
  | Register n => notifier_chain_register nh n
  | CondRegister n => notifier_chain_cond_register nh n
  | Unregister n => notifier_chain_unregister nh n
  end.

Definition spec (p : oid -> Z) (o : op) (l : list oid) : list oid * Z :=
  match o with
  | Register n => (insert_by p n l, 0)
  | CondRegister n => if bool_decide (n ∈ l) then (l, 0) else (insert_by p n l, 0)
  | Unregister n => if bool_decide (n ∈ l) then (list_del n l, 0) else (l, - ENOENT)
  end.

(** A block is registered once. *)
Definition valid (nh : notifier_head) (l : list oid) (o : op) : Prop :=
  match o with
  | Register n => known nh n /\ n ∉ l
  | CondRegister n => known nh n
  | Unregister n => True
  end.

Lemma inserted_live nh nh' l n : inserted nh nh' [] l n ->
  live nh' (insert_by (prio nh) n l) /\ same_blocks nh nh'.
Proof. intros (a & b & -> & -> & ? & ? & _). done. Qed.

Lemma list_del_mid (a b : list oid) n : NoDup (a ++ n :: b) -> list_del n (a ++ n :: b) = a ++ b.
Proof.
  intros (_ & Hd & Hnd)%NoDup_app. apply NoDup_cons in Hnd as [Hn _]. apply list_del_split; [|done].
  intros Hin. apply (Hd n Hin). set_solver.
Qed.

Lemma exec_spec nh l o : live nh l -> by_prio nh l -> valid nh l o ->
  exists nh', exec nh o = Some (nh', snd (spec (prio nh) o l)) /\ live nh' (fst (spec (prio nh) o l)) /\
    same_blocks nh nh' /\ by_prio nh' (fst (spec (prio nh) o l)).
Proof.
  intros Hl Hs Hv. destruct o as [n|n|n]; simpl in *.
  - destruct Hv as [Hk Hn]. destruct (register_ok nh l n Hl Hn Hk) as (nh' & E & [Hl' Hsb]%inserted_live).
    exists nh'. split; [done|]. split; [done|]. split; [done|]. by eapply by_prio_ext, insert_by_prio.
  - unfold notifier_chain_cond_register. change SHead with (slot_of []). case_bd as Hn; simpl.
    + rewrite (cond_loop_present nh n l _ []) by (try done; by apply live_size). by exists nh.
    + rewrite (cond_loop_new nh n l _ []) by (try done; by apply live_size).
      destruct (register_ok nh l n Hl Hn Hv) as (nh' & E & [Hl' Hsb]%inserted_live). exists nh'.
      split; [exact E|]. split; [done|]. split; [done|]. by eapply by_prio_ext, insert_by_prio.
  - destruct (unregister_ok nh n l Hl) as [[Hn ->]|(a & b & nh' & -> & -> & Hl' & Hsb & _)].
    + rewrite bool_decide_eq_false_2 by done. by exists nh.
    + rewrite bool_decide_eq_true_2 by set_solver. simpl. rewrite list_del_mid by (by eapply chain_NoDup).
      exists nh'. split; [done|]. split; [done|]. split; [done|]. by eapply by_prio_ext, by_prio_remove.
Qed.

End NotifierTop.
