(* ===== verification/NotifierRcu.v ===== *)
(** * Notifier chains: calls, also without the lock

    What a call of a chain does, and that a call that walks the chain while
    blocks come and go still reaches every block that stays. *)

From Stdlib Require Import ZArith Lia.
From stdpp Require Import base option gmap sorting list.
From S2P Require Import Prelude Chain Notifier.

Local Open Scope Z_scope.
Local Open Scope kernel_scope.

Module NotifierRcu.
Import Notifier NotifierTop.

(** ** Calls *)

Definition stops (ret : Z) : Prop := Z.land ret NOTIFY_STOP_MASK = NOTIFY_STOP_MASK.

#[export] Instance stops_dec ret : Decision (stops ret).
Proof. unfold stops. apply _. Defined.

(** The blocks called are the first [k]: none of them but the last stops the
    call, and the call ends with the chain, with a block that stops it, or with
    the number of calls asked for. *)
Record called (call : oid -> Z) (nr : Z) (l : list oid) (ret0 ret : Z) (k : nat) : Prop := {
  ca_len : (k <= length l)%nat;
  ca_ret : ret = default ret0 (call <$> last (take k l));
  ca_go : forall i x, (S i < k)%nat -> l !! i = Some x -> ~ stops (call x);
  ca_end : k = length l \/ Z.of_nat k = u32 nr \/ exists x, last (take k l) = Some x /\ stops (call x);
  ca_max : Z.of_nat k <= u32 nr
}.

Lemma call_loop_ok nh call l : forall fuel o nr ret0,
  chain (next_of nh) o l -> (length l <= fuel)%nat -> - two31 <= nr < two31 ->
  exists ret k, call_loop fuel nh call o nr ret0 = Some (ret, take k l) /\ called call nr l ret0 ret k.
Proof.
  induction l as [|x l IH]; intros fuel o nr ret0 Hc Hfuel Hnr.
  - unfold chain in Hc. simpl in Hc. subst o. exists ret0, 0%nat. split; [by destruct fuel|].
    split; simpl; [done|done|lia|by left|]. apply u32_range.
  - destruct Hc as (-> & o1 & Ex & Hc). simpl in Hfuel. destruct fuel as [|fuel]; [lia|]. simpl. case_bd as E0.
    { subst nr. exists ret0, 0%nat. split; [done|]. split; simpl; [lia|done|lia|by right; left|done]. }
    assert (Hu : 1 <= u32 nr /\ u32 (s32 (nr - 1)) = u32 nr - 1).
    { assert (1 <= u32 nr) by (unfold u32, two32, two31 in *; Z.div_mod_to_equations; lia).
      split; [done|]. rewrite u32_s32. unfold u32, two32, two31 in *. Z.div_mod_to_equations; lia. }
    destruct Hu as [Hu1 Hu2]. rewrite Ex. simpl. destruct (decide (stops (call x))) as [Es|Es];
      [rewrite bool_decide_eq_true_2 by done|rewrite bool_decide_eq_false_2 by done].
    { exists (call x), 1%nat. split; [done|]. split; simpl; [lia|done| | |lia].
      - intros i y Hi. lia.
      - right. right. by exists x. }
    destruct (IH fuel o1 (s32 (nr - 1)) (call x) Hc) as (ret & k & -> & [Hk Hr Hg He Hm]);
      [lia|apply s32_range|]. simpl.
    exists ret, (S k). split; [done|]. rewrite Hu2 in *. split; simpl.
    + lia.
    + rewrite Hr. destruct (take k l) as [|y t] eqn:Et; [done|]. rewrite last_cons_cons.
      destruct (last (y :: t)) eqn:El; [done|]. by apply last_None in El.
    + intros [|i] y Hi; simpl; [by intros [= ->]|]. apply Hg. lia.
    + destruct He as [->|[He|(y & Ey & Hy)]]; [by left|right; left; lia|]. right. right. exists y.
      destruct (take k l) as [|z t] eqn:Et; [done|]. rewrite last_cons_cons. by split.
    + lia.
Qed.

(** ** Traversal without the lock *)

(** Where a call that holds only the RCU read lock is: about to look at a
    block, calling one with the next one already read, or over. *)
Inductive at_block := AtNext (nb : option oid) | Calling (nb : oid) (next_nb : option oid) | Stopped.

(** [gone] are the blocks unregistered since the call began: their owners are
    still in [synchronize_rcu], so they are neither freed nor registered again
    before it ends. *)
Record walk := mk_walk { w_nh : notifier_head; w_at : at_block; w_called : list oid; w_gone : gset oid }.

(** The steps of the call and of the others.  A registration or unregistration
    makes a single store to memory a reader can reach. *)
Inductive step : walk -> walk -> Prop :=
  | step_read nh x next done gone :
      next_of nh x = Some next ->
      step (mk_walk nh (AtNext (Some x)) done gone) (mk_walk nh (Calling x next) done gone)
  | step_return nh x next done gone ret :
      step (mk_walk nh (Calling x next) done gone)
        (mk_walk nh (if bool_decide (stops ret) then Stopped else AtNext next) (done ++ [x]) gone)
  | step_register nh nh' pos done gone n l :
      live nh l -> known nh n -> n ∉ l -> n ∉ gone ->
      notifier_chain_register nh n = Some (nh', 0) ->
      step (mk_walk nh pos done gone) (mk_walk nh' pos done gone)
  | step_unregister nh nh' pos done gone n :
      notifier_chain_unregister nh n = Some (nh', 0) ->
      step (mk_walk nh pos done gone) (mk_walk nh' pos done ({[n]} ∪ gone)).

(** A call that began when the chain was [nh0]. *)
Inductive walks (nh0 : notifier_head) : walk -> Prop :=
  | walks_begin : walks nh0 (mk_walk nh0 (AtNext (head nh0)) [] ∅)
  | walks_step w w' : walks nh0 w -> step w w' -> walks nh0 w'.

(** What the call has taken up, and where it goes on. *)
Definition taken (w : walk) : list oid :=
  w_called w ++ match w_at w with Calling x _ => [x] | _ => [] end.

Definition cursor (w : walk) : option (option oid) :=
  match w_at w with AtNext o | Calling _ o => Some o | Stopped => None end.

(** From the cursor the links lead through blocks unregistered on the way,
    [g], into the chain, and from there to its end, [s]. *)
Record path (nh : notifier_head) (gone : gset oid) (l0 did : list oid) (o : option oid) (pre g s : list oid)
  : Prop := {
  pa_live : live nh (pre ++ s);
  pa_seg : seg (next_of nh) o g (list.head s);
  pa_gone : forall x, x ∈ g -> x ∈ gone;
  pa_order : by_prio nh (did ++ g ++ s);
  pa_nodup : NoDup (did ++ g ++ s);
  pa_did : forall x, x ∈ did -> x ∈ pre \/ x ∈ gone;
  pa_left : forall x, x ∈ l0 -> x ∈ gone \/ x ∈ did \/ x ∈ s;
  pa_known : forall x, x ∈ gone -> known nh x
}.

Record walk_inv (l0 : list oid) (w : walk) : Prop := {
  wi_live : exists l, live (w_nh w) l /\ by_prio (w_nh w) l /\ (forall x, x ∈ l -> x ∉ w_gone w);
  wi_path : forall o, cursor w = Some o ->
    exists pre g s, path (w_nh w) (w_gone w) l0 (taken w) o pre g s;
  wi_taken : NoDup (taken w) /\ by_prio (w_nh w) (taken w)
}.

Lemma path_did_sorted nh gone l0 did o pre g s : path nh gone l0 did o pre g s -> NoDup did /\ by_prio nh did.
Proof. intros [_ _ _ H1 H2 _ _ _]. apply by_prio_app in H1 as [? _]. by apply NoDup_app in H2 as [? _]. Qed.

Lemma slot_of_elem l y : slot_of l = SNext y -> y ∈ l.
Proof.
  destruct l as [|x l _] using rev_ind; [done|]. rewrite slot_of_snoc. intros [= ->]. set_solver.
Qed.

Lemma app_split {A} (a b pre s : list A) : a ++ b = pre ++ s ->
  (exists k, pre = a ++ k /\ b = k ++ s) \/ (exists z k, a = pre ++ z :: k /\ s = z :: k ++ b).
Proof.
  intros H. apply app_eq_app in H as [k [[-> ->]|[-> ->]]].
  - destruct k as [|z k]; [left; exists []; by rewrite !app_nil_r|right; by exists z, k].
  - left. by exists k.
Qed.

(** The step of the call itself. *)
Lemma path_advance nh gone l0 did x next pre g s :
  path nh gone l0 did (Some x) pre g s -> next_of nh x = Some next ->
  exists pre' g' s', path nh gone l0 (did ++ [x]) next pre' g' s'.
Proof.
  intros [Hl Hs Hg Ho Hn Hd Hr Hk] Hx. destruct g as [|y g].
  - simpl in Hs. destruct s as [|y s]; [done|]. simpl in Hs. injection Hs as <-.
    exists (pre ++ [x]), [], s. simpl in *.
    assert (Hh : list.head s = next).
    { apply chain_suffix in Hl. destruct Hl as (_ & o1 & E & Hc). rewrite Hx in E. injection E as <-.
      symmetry. by eapply chain_head. }
    split; simpl; rewrite <- ?app_assoc; simpl; try done.
    + intros z Hz. apply elem_of_app in Hz as [Hz|Hz]; [destruct (Hd z Hz); set_solver|set_solver].
    + intros z Hz. destruct (Hr z Hz) as [?|[?|?]]; set_solver.
  - simpl in Hs. destruct Hs as (E & o1 & Hx' & Hs). injection E as <-. rewrite Hx in Hx'. injection Hx' as <-.
    exists pre, g, s. split; rewrite <- ?app_assoc; simpl; try done.
    + set_solver.
    + intros z Hz. apply elem_of_app in Hz as [Hz|Hz]; [by apply Hd|]. right. apply Hg. set_solver.
    + intros z Hz. destruct (Hr z Hz) as [?|[?|?]]; set_solver.
Qed.

(** The blocks left behind keep their links: only blocks of the chain are
    stored to. *)
Lemma gone_seg nh nh' (gone : gset oid) a n o g o' :
  seg (next_of nh) o g o' -> (forall x, x ∈ g -> x ∈ gone) -> (forall x, x ∈ a -> x ∉ gone) ->
  n ∉ gone \/ next_of nh' n = next_of nh n ->
  (forall y, y <> n -> slot_of a <> SNext y -> next_of nh' y = next_of nh y) -> seg (next_of nh') o g o'.
Proof.
  intros Hs Hg Ha Hn Hf. eapply seg_ext; [|exact Hs]. intros x Hx. destruct (decide (x = n)) as [->|Hne].
  - destruct Hn as [Hn|Hn]; [destruct Hn; by apply Hg|done].
  - apply Hf; [done|]. intros E. apply (Ha x); [by apply slot_of_elem|by apply Hg].
Qed.

Lemma path_register nh nh' (gone : gset oid) l0 did o pre g s n :
  path nh gone l0 did o pre g s -> by_prio nh (pre ++ s) -> (forall x, x ∈ pre ++ s -> x ∉ gone) ->
  n ∉ gone -> n ∉ pre ++ s -> inserted nh nh' [] (pre ++ s) n ->
  exists pre' g' s', path nh' gone l0 did o pre' g' s'.
Proof.
  intros [Hl Hs Hg Ho Hn Hd Hr Hk] Hbp Hdis Hng Hnl (a & b & E & Ei & Hl' & Hsb & Hf). simpl in *.
  assert (Hs' : seg (next_of nh') o g (list.head s)).
  { eapply (gone_seg nh nh' gone a n); [done|done| |by left|done].
    intros x Hx. apply Hdis. rewrite E. set_solver. }
  assert (Hk' : forall x, x ∈ gone -> known nh' x) by (intros x Hx; apply (same_blocks_known nh nh' x Hsb); auto).
  symmetry in E. apply app_split in E as [(k & -> & ->)|(z & k & -> & ->)].
  - exists (a ++ n :: k), g, s. split; try done; [by rewrite <- app_assoc|by eapply by_prio_ext|].
    intros x Hx. destruct (Hd x Hx); set_solver.
  - exists pre, g, (z :: k ++ n :: b).
    assert (Hsn : by_prio nh (pre ++ z :: k ++ n :: b)).
    { pose proof (insert_by_prio nh n _ Hbp) as Hi. rewrite Ei in Hi. by rewrite <- app_assoc in Hi. }
    split; try done.
    + by rewrite <- app_assoc in Hl'.
    + apply (by_prio_ext nh); [done|]. rewrite app_assoc. rewrite app_assoc in Ho.
      apply by_prio_app in Ho as (H1 & H2 & H3). apply by_prio_app in Hsn as (_ & H4 & _).
      apply by_prio_app. split; [done|]. split; [done|].
      inversion H4 as [|? ? _ Hz]; subst. rewrite Forall_forall in Hz.
      intros x y Hx Hy. apply elem_of_cons in Hy as [->|Hy]; [apply H3; set_solver|].
      specialize (Hz y Hy). specialize (H3 x z Hx). simpl in Hz. assert (prio nh x >= prio nh z) by (apply H3; set_solver). lia.
    + assert (Hnn : n ∉ did ++ g ++ z :: k ++ b).
      { intros [Hx|[Hx|Hx]%elem_of_app]%elem_of_app; [destruct (Hd n Hx); set_solver|by apply Hng, Hg|set_solver]. }
      apply (NoDup_Permutation_proper _ (n :: did ++ g ++ z :: k ++ b)); [|by constructor].
      replace (did ++ g ++ z :: k ++ n :: b) with ((did ++ g ++ z :: k) ++ n :: b) by (by rewrite <- !app_assoc).
      rewrite <- Permutation_middle. by rewrite <- !app_assoc.
    + intros x Hx. destruct (Hr x Hx) as [?|[?|?]]; set_solver.
Qed.

Lemma path_unregister nh nh' (gone : gset oid) l0 did o pre g s a b n :
  path nh gone l0 did o pre g s -> (forall x, x ∈ pre ++ s -> x ∉ gone) ->
  pre ++ s = a ++ n :: b -> live nh' (a ++ b) -> same_blocks nh nh' ->
  (forall y, slot_of a <> SNext y -> next_of nh' y = next_of nh y) ->
  exists pre' g' s', path nh' ({[n]} ∪ gone) l0 did o pre' g' s'.
Proof.
  intros [Hl Hs Hg Ho Hn Hd Hr Hk] Hdis E Hl' Hsb Hf.
  pose proof (chain_NoDup _ _ _ Hl) as Hnd. rewrite E in Hnd.
  assert (Hna : slot_of a <> SNext n).
  { intros En%slot_of_elem. apply NoDup_app in Hnd as (_ & Hnd & _). apply (Hnd n En). set_solver. }
  assert (Hs' : seg (next_of nh') o g (list.head s)).
  { eapply (gone_seg nh nh' gone a n); [done|done| |right; by apply Hf|by intros; apply Hf].
    intros x Hx. apply Hdis. rewrite E. set_solver. }
  assert (Hk' : forall x, x ∈ {[n]} ∪ gone -> known nh' x).
  { intros x Hx. apply (same_blocks_known nh nh' x Hsb). apply elem_of_union in Hx as [->%elem_of_singleton|Hx]; [|by apply Hk].
    apply (live_known nh (pre ++ s)); [done|]. rewrite E. set_solver. }
  apply (by_prio_ext nh nh') in Ho; [|done].
  symmetry in E. apply app_split in E as [(k & -> & Eb)|(z & k & -> & ->)].
  - destruct k as [|x k]; simpl in Eb.
    + (* the block the cursor leads to *)
      subst s. rewrite app_nil_r in *. exists a, (g ++ [n]), b. split; try done.
      * apply seg_app. exists (Some n). split; [done|]. simpl. split; [done|].
        apply chain_suffix in Hl. destruct Hl as (_ & o1 & En & Hc).
        exists o1. rewrite Hf by done. split; [done|]. by eapply chain_head.
      * intros x Hx. set_solver.
      * by rewrite <- app_assoc.
      * by rewrite <- app_assoc.
      * intros x Hx. destruct (Hd x Hx); set_solver.
      * intros x Hx. destruct (Hr x Hx) as [?|[?|?]]; set_solver.
    + (* a block the call has passed *)
      injection Eb as <- ->. exists (a ++ k), g, s. split; try done.
      * by rewrite <- app_assoc.
      * set_solver.
      * intros x Hx. destruct (Hd x Hx); set_solver.
      * intros x Hx. destruct (Hr x Hx) as [?|[?|?]]; set_solver.
  - (* a block ahead *)
    exists pre, g, (z :: k ++ b). split; try done.
    + by rewrite <- app_assoc in Hl'.
    + set_solver.
    + pose proof (by_prio_remove nh' (did ++ g ++ z :: k) n b) as Hrm. rewrite <- !app_assoc in Hrm. by apply Hrm.
    + replace (did ++ g ++ z :: k ++ n :: b) with ((did ++ g ++ z :: k) ++ n :: b) in Hn by (by rewrite <- !app_assoc).
      rewrite <- Permutation_middle, NoDup_cons in Hn. destruct Hn as [_ Hn]. by rewrite <- !app_assoc in Hn.
    + intros x Hx. destruct (Hd x Hx); set_solver.
    + intros x Hx. destruct (Hr x Hx) as [?|[?|?]]; set_solver.
Qed.

Lemma walk_inv_begin nh0 l0 : live nh0 l0 -> by_prio nh0 l0 -> walk_inv l0 (mk_walk nh0 (AtNext (head nh0)) [] ∅).
Proof.
  intros Hl Hs. split; simpl.
  - exists l0. split; [done|]. split; [done|set_solver].
  - intros o [= <-]. exists [], [], l0. split; simpl; try done; try set_solver.
    + by eapply chain_head.
    + by eapply chain_NoDup.
  - split; constructor.
Qed.

Lemma walk_inv_step l0 w w' : walk_inv l0 w -> step w w' -> walk_inv l0 w'.
Proof.
  intros [(l & Hl & Hs & Hdis) Hp [Ht1 Ht2]] Hstep.
  destruct Hstep as [nh x next dn gone Hx|nh x next dn gone ret|nh nh' pos dn gone n l1 Hl1 Hk Hn Hg E
                    |nh nh' pos dn gone n E]; simpl in *.
  - destruct (Hp _ eq_refl) as (pre & g & s & Hpa). unfold taken in Hpa. simpl in Hpa. rewrite app_nil_r in Hpa.
    destruct (path_advance _ _ _ _ _ _ _ _ _ Hpa Hx) as (pre' & g' & s' & Hpa').
    split; simpl; [by exists l| |by eapply path_did_sorted]. intros o [= <-]. by eexists _, _, _.
  - unfold taken in *. simpl in *. split; simpl; [by exists l| |].
    + intros o Ho. unfold taken. simpl.
      replace (match _ with Calling _ _ => _ | _ => _ end) with (@nil oid) by (by case_bd).
      rewrite app_nil_r. unfold cursor in Ho. simpl in Ho. apply Hp. unfold cursor. simpl. by destruct (bool_decide _) in Ho.
    + unfold taken. simpl. replace (match _ with Calling _ _ => _ | _ => _ end) with (@nil oid) by (by case_bd).
      by rewrite app_nil_r.
  - pose proof (chain_unique _ _ _ _ Hl Hl1) as ->.
    destruct (register_ok nh l n Hl Hn Hk) as (nh'' & E' & Hi). rewrite E in E'. injection E' as <-.
    pose proof (inserted_live _ _ _ _ Hi) as [Hl' Hsb]. split; simpl.
    + exists (insert_by (prio nh) n l). split; [done|]. split; [by eapply by_prio_ext, insert_by_prio|].
      intros x [->|Hx]%insert_by_elem; auto.
    + intros o Ho. destruct (Hp o Ho) as (pre & g & s & Hpa).
      pose proof (chain_unique _ _ _ _ Hl (pa_live _ _ _ _ _ _ _ _ Hpa)) as El. rewrite <- El in *.
      destruct (path_register nh nh' gone l0 _ o pre g s n Hpa) as (pre' & g' & s' & Hpa'); try done.
      by eexists _, _, _.
    + split; [done|]. by eapply by_prio_ext.
  - destruct (unregister_ok nh n l Hl) as [[_ E']|(a & b & nh'' & El & E' & Hl' & Hsb & Hf)];
      rewrite E in E'; [by injection E'|]. injection E' as <-. subst l.
    pose proof (chain_NoDup _ _ _ Hl) as Hnd. split; simpl.
    + exists (a ++ b). split; [done|]. split; [by eapply by_prio_ext, by_prio_remove|].
      rewrite <- Permutation_middle, NoDup_cons in Hnd. destruct Hnd as [Hnab _].
      intros x Hx [->%elem_of_singleton|Hxg]%elem_of_union; [done|]. apply (Hdis x); [|done]. set_solver.
    + intros o Ho. destruct (Hp o Ho) as (pre & g & s & Hpa).
      pose proof (chain_unique _ _ _ _ Hl (pa_live _ _ _ _ _ _ _ _ Hpa)) as El.
      destruct (path_unregister nh nh' gone l0 _ o pre g s a b n Hpa) as (pre' & g' & s' & Hpa'); try done.
      { by rewrite El. }
      by eexists _, _, _.
    + split; [done|]. by eapply by_prio_ext.
Qed.

(** ** Claims *)

(** The chains registration calls can build from an empty head. *)
Inductive reachable (bl : gmap oid notifier_block) : notifier_head -> Prop :=
  | reach_init : reachable bl (init_notifier_head bl)
  | reach_step nh l o nh' ret :
      reachable bl nh -> live nh l -> valid nh l o -> exec nh o = Some (nh', ret) -> reachable bl nh'.

Lemma reachable_live bl nh : reachable bl nh -> exists l, live nh l /\ by_prio nh l.
Proof.
  induction 1 as [|nh l o nh' ret _ (l' & Hl' & Hs) Hl Hv E]; [by exists []; repeat constructor|].
  pose proof (chain_unique _ _ _ _ Hl Hl') as ->.
  destruct (exec_spec nh l o Hl Hs Hv) as (nh'' & E' & Hl'' & _ & Hs''). rewrite E in E'. injection E' as <- _.
  by eexists.
Qed.

(** A notifier chain is always a finite list in order of
    priority, and the three registration routines always return and act on it
    as list operations: registering puts a block behind all blocks of the same
    or a higher priority, the conditional registration of a block that is
    already there changes nothing, unregistering removes the block, or returns
    -ENOENT when it is not there. *)
Theorem notifier_chain_refines_list bl nh :
  reachable bl nh ->
  exists l, live nh l /\ by_prio nh l /\
    forall o, valid nh l o ->
      exists nh', exec nh o = Some (nh', snd (spec (prio nh) o l)) /\
        live nh' (fst (spec (prio nh) o l)) /\ by_prio nh' (fst (spec (prio nh) o l)).
Proof.
  intros Hr. destruct (reachable_live bl nh Hr) as (l & Hl & Hs). exists l. split; [done|]. split; [done|].
  intros o Hv. destruct (exec_spec nh l o Hl Hs Hv) as (nh' & E & Hl' & _ & Hs'). by exists nh'.
Qed.

(** Calling a chain calls its blocks from the front, each once,
    until one of them returns a value with the stop bit, the chain ends or
    the number of calls asked for (-1 for all) is reached, and returns what the
    last block called returned, NOTIFY_DONE when none was.  The blocking chain,
    which first looks at the head without its lock, does the same when the head
    it saw is the head. *)
Theorem notifier_call_correct nh l call nr :
  live nh l -> - two31 <= nr < two31 ->
  exists ret k, notifier_call_chain nh call nr = Some (ret, take k l) /\
    called call nr l NOTIFY_DONE ret k /\
    __blocking_notifier_call_chain (head nh) nh call nr = Some (ret, take k l).
Proof.
  intros Hl Hnr. unfold notifier_call_chain.
  destruct (call_loop_ok nh call l (size (blocks nh)) (head nh) nr NOTIFY_DONE Hl) as (ret & k & E & Hc);
    [by apply live_size|done|].
  exists ret, k. split; [done|]. split; [done|]. unfold __blocking_notifier_call_chain, notifier_call_chain.
  destruct (head nh) eqn:Eh; [done|]. by destruct (size (blocks nh)).
Qed.

(** C34: a call of an atomic or SRCU chain walks it without the lock,
    while blocks are registered and unregistered.  Whatever the interleaving, it
    only ever goes on to a block that is registered, or was when the call began
    or later and whose unregistration is still waiting for the call; it calls
    no block twice and calls them in order of priority; and when it runs to the
    end of the chain it has called every block that was registered when it began
    and has not been unregistered since. *)
Theorem notifier_rcu_walk nh0 l0 w :
  live nh0 l0 -> by_prio nh0 l0 -> walks nh0 w ->
  (exists l, live (w_nh w) l /\
     forall x, cursor w = Some (Some x) -> (x ∈ l \/ x ∈ w_gone w) /\ known (w_nh w) x) /\
  NoDup (taken w) /\ by_prio (w_nh w) (taken w) /\
  (w_at w = AtNext None -> forall x, x ∈ l0 -> x ∉ w_gone w -> x ∈ w_called w).
Proof.
  intros Hl Hs Hw.
  assert (Hi : walk_inv l0 w)
    by (induction Hw as [|w w' _ IH Hst]; [by apply walk_inv_begin|by eapply walk_inv_step]).
  destruct Hi as [(l & Hlv & _ & _) Hp [Hn Ho]]. split; [|split; [done|split; [done|]]].
  - exists l. split; [done|]. intros x Hc. destruct (Hp _ Hc) as (pre & g & s & [Hl' Hsg Hg _ _ _ _ Hk]).
    pose proof (chain_unique _ _ _ _ Hlv Hl') as <-. destruct g as [|y g]; simpl in Hsg.
    + destruct s as [|y s]; [done|]. injection Hsg as <-.
      split; [left; set_solver|]. apply (live_known _ (pre ++ x :: s)); [done|set_solver].
    + destruct Hsg as (E & _). injection E as <-. assert (x ∈ w_gone w) by (apply Hg; set_solver). auto.
  - intros E x Hx Hg. destruct (Hp None) as (pre & g & s & [_ Hsg _ _ _ _ Hleft _]); [unfold cursor; by rewrite E|].
    assert (s = []) as ->.
    { destruct g as [|y g]; simpl in Hsg; [by destruct s|by destruct Hsg]. }
    unfold taken in Hleft. rewrite E, app_nil_r in Hleft. destruct (Hleft x Hx) as [?|[?|?]]; [done|done|set_solver].
Qed.

(** An error number survives the trip through a notifier's return value. *)
Lemma notifier_errno_roundtrip err : - 32766 <= err <= 0 -> notifier_to_errno (notifier_from_errno err) = err.
Proof.
  intros H. unfold notifier_to_errno, notifier_from_errno, NOTIFY_STOP_MASK, NOTIFY_OK.
  replace (Z.land (Z.lor 32768 (1 - err)) (Z.lnot 32768)) with (1 - err).
  - case_bd; lia.
  - rewrite Z.land_lor_distr_l. change (Z.land 32768 (Z.lnot 32768)) with 0. rewrite Z.lor_0_l.
    symmetry. apply Z.bits_inj'. intros i Hi. rewrite Z.land_spec, Z.lnot_spec by lia.
    change 32768 with (2 ^ 15). rewrite Z.pow2_bits_eqb by lia.
    destruct (Z.eqb_spec 15 i) as [<-|]; cbn [negb]; [|by rewrite andb_true_r].
    rewrite andb_false_r. symmetry. apply Z.bits_above_log2; [lia|]. apply Z.log2_lt_pow2; lia.
Qed.

(** ** Witnesses *)

Definition demo_blocks : gmap oid notifier_block :=
  {[ 1%nat := mk_nb None 0; 2%nat := mk_nb None 10; 3%nat := mk_nb None 0; 4%nat := mk_nb None 5 ]}.

Definition demo_after (o : op) (nh : notifier_head) : notifier_head := from_option fst nh (exec nh o).

Definition demo1 : notifier_head := demo_after (Register 1%nat) (init_notifier_head demo_blocks).
Definition demo2 : notifier_head := demo_after (Register 2%nat) demo1.
Definition demo3 : notifier_head := demo_after (Register 3%nat) demo2.

Lemma demo_live : live demo1 [1%nat] /\ live demo2 [2%nat; 1%nat] /\ live demo3 [2%nat; 1%nat; 3%nat].
Proof. split_and!; apply (follow_chain 5); vm_compute; reflexivity. Qed.

Lemma notifier_demo_reachable : reachable demo_blocks demo3.
Proof.
  apply (reach_step _ demo2 [2%nat; 1%nat] (Register 3%nat) _ 0).
  - apply (reach_step _ demo1 [1%nat] (Register 2%nat) _ 0).
    + apply (reach_step _ (init_notifier_head demo_blocks) [] (Register 1%nat) _ 0).
      * apply reach_init.
      * vm_compute. reflexivity.
      * split; [by eexists|set_solver].
      * vm_compute. reflexivity.
    + apply demo_live.
    + split; [by eexists|set_solver].
    + vm_compute. reflexivity.
  - apply demo_live.
  - split; [by eexists|set_solver].
  - vm_compute. reflexivity.
Qed.

Lemma demo_sorted : by_prio demo3 [2%nat; 1%nat; 3%nat].
Proof. destruct (reachable_live _ _ notifier_demo_reachable) as (l & Hl & Hs). by rewrite (chain_unique _ _ _ _ Hl (proj2 (proj2 demo_live))). Qed.

Lemma notifier_chain_refines_list_witness :
  reachable demo_blocks demo3 /\ exists l, live demo3 l /\ by_prio demo3 l.
Proof.
  destruct (notifier_chain_refines_list demo_blocks demo3 notifier_demo_reachable) as (l & H1 & H2 & _).
  exact (conj notifier_demo_reachable (ex_intro _ l (conj H1 H2))).
Defined.

Lemma notifier_call_correct_witness : exists ret k,
  notifier_call_chain demo3 (fun _ => NOTIFY_OK) (-1) = Some (ret, take k [2%nat; 1%nat; 3%nat]).
Proof.
  destruct (notifier_call_correct demo3 [2%nat; 1%nat; 3%nat] (fun _ => NOTIFY_OK) (-1) (proj2 (proj2 demo_live)))
    as (ret & k & E & _); [unfold two31; lia|].
  exact (ex_intro _ ret (ex_intro _ k E)).
Defined.

Lemma demo_walk : walks demo3 (mk_walk demo3 (AtNext (head demo3)) [] ∅).
Proof. apply walks_begin. Qed.

(** While block 2 is called, block 1 is unregistered; the call still goes
    through it. *)
Definition demo4 : notifier_head := demo_after (Unregister 1%nat) demo3.

Lemma demo_walk2 : walks demo3 (mk_walk demo4 (AtNext (Some 1%nat)) [2%nat] ({[1%nat]} ∪ ∅)).
Proof.
  apply (walks_step _ (mk_walk demo4 (Calling 2%nat (Some 1%nat)) [] ({[1%nat]} ∪ ∅))).
  - apply (walks_step _ (mk_walk demo3 (Calling 2%nat (Some 1%nat)) [] ∅)).
    + apply (walks_step _ _ _ demo_walk). apply step_read. vm_compute. reflexivity.
    + apply step_unregister. vm_compute. reflexivity.
  - apply (step_return demo4 2%nat (Some 1%nat) [] _ 0).
Qed.

Lemma notifier_rcu_walk_witness : NoDup (taken (mk_walk demo4 (AtNext (Some 1%nat)) [2%nat] ({[1%nat]} ∪ ∅))).
Proof.
  exact (proj1 (proj2 (notifier_rcu_walk demo3 [2%nat; 1%nat; 3%nat] _ (proj2 (proj2 demo_live)) demo_sorted demo_walk2))).
Defined.

End NotifierRcu.
