(* ===== verification/Lowmem.v ===== *)
(** * The low-memory killer ([drivers/staging/android/lowmemorykiller.c])

    A shrinker that, when free and cached pages fall below one of a table of
    thresholds, kills the process it can best do without. *)

From Stdlib Require Import ZArith Lia.
From stdpp Require Import base option sets list.
From S2P Require Import Prelude.

Local Open Scope Z_scope.
Local Open Scope kernel_scope.

Module Lowmem.

(** [include/linux/oom.h] *)
Definition OOM_ADJUST_MAX : Z := 15.

(** The tables, which are module parameters, and the length of each that is in
    use. *)
Record params := mk_params {
  lowmem_adj : list Z;
  lowmem_adj_size : Z;
  lowmem_minfree : list Z;
  lowmem_minfree_size : Z
}.

Definition default_params : params :=
  mk_params [0; 1; 6; 12; 0; 0] 4 [3 * 512; 2 * 1024; 4 * 1024; 16 * 1024; 0; 0] 4.

(** The page counters read with [global_page_state]. *)
Record page_state := mk_pages {
  nr_free : Z; nr_file : Z;
  nr_active_anon : Z; nr_active_file : Z; nr_inactive_anon : Z; nr_inactive_file : Z
}.

(** A process: its pid, [oomkilladj], and the resident pages of its [mm],
    [None] for a kernel thread. *)
Record task := mk_task { pid : nat; oomkilladj : Z; mm_rss : option Z }.

(** [int] compared with [size_t]: the [int] is converted. *)
Definition below (pages minfree : Z) : bool := bool_decide (u32 pages < minfree).

(** The loop over the table from entry [i]; [n] is the number of entries left
    to look at.  [None] is a read outside an array. *)
Fixpoint min_adj_loop (p : params) (other_free other_file : Z) (i n : nat) : option Z :=
  match n with
  | O => Some (OOM_ADJUST_MAX + 1)
  | S n =>
      minfree ← lowmem_minfree p !! i;
      if below other_free minfree && below other_file minfree then lowmem_adj p !! i
      else min_adj_loop p other_free other_file (S i) n
  end.

Definition array_size (p : params) : Z :=
  let size := Z.of_nat (length (lowmem_adj p)) in
  let size := if bool_decide (lowmem_adj_size p < size) then lowmem_adj_size p else size in
  if bool_decide (lowmem_minfree_size p < size) then lowmem_minfree_size p else size.

Definition min_adj (p : params) (other_free other_file : Z) : option Z :=
  min_adj_loop p other_free other_file 0 (Z.to_nat (array_size p)).

(** One turn of [for_each_process]: the selected task with its size. *)
Definition select (min_adj : Z) (selected : option (task * Z)) (p : task) : option (task * Z) :=
  if bool_decide (oomkilladj p < min_adj) then selected
  else
    match mm_rss p with
    | None => selected
    | Some rss =>
        let tasksize := s32 rss in
        if bool_decide (tasksize <= 0) then selected
        else
          match selected with
          | None => Some (p, tasksize)
          | Some (sel, selected_tasksize) =>
              if bool_decide (oomkilladj p < oomkilladj sel) then selected
              else if bool_decide (oomkilladj p = oomkilladj sel) && bool_decide (tasksize <= selected_tasksize)
              then selected
              else Some (p, tasksize)
          end
    end.

(** What is returned, and the task that is sent SIGKILL. *)
Definition lowmem_shrink (p : params) (pages : page_state) (tasks : list task) (nr_to_scan : Z)
  : option (Z * option task) :=
  let other_free := s32 (nr_free pages) in
  let other_file := s32 (nr_file pages) in
  min_adj ← min_adj p other_free other_file;
  let rem := s32 (nr_active_anon pages + nr_active_file pages + nr_inactive_anon pages + nr_inactive_file pages) in
  if bool_decide (nr_to_scan <= 0) || bool_decide (min_adj = OOM_ADJUST_MAX + 1) then Some (rem, None)
  else
    match foldl (select min_adj) None tasks with
    | None => Some (rem, None)
    | Some (sel, tasksize) => Some (s32 (rem - tasksize), Some sel)
    end.

(** ** The threshold *)

(** Tables as long as the array, sizes that the module parameters allow. *)
Record params_ok (p : params) : Prop := {
  po_adj : length (lowmem_adj p) = 6%nat;
  po_minfree : length (lowmem_minfree p) = 6%nat;
  po_sizes : 0 <= lowmem_adj_size p <= 6 /\ 0 <= lowmem_minfree_size p <= 6
}.

(** The entries in use, in order. *)
Definition entries (p : params) : list (Z * Z) :=
  take (Z.to_nat (array_size p)) (zip (lowmem_minfree p) (lowmem_adj p)).

(** Both kinds of pages are short of the entry's threshold. *)
Definition short (other_free other_file : Z) (e : Z * Z) : Prop := u32 other_free < fst e /\ u32 other_file < fst e.

#[export] Instance short_dec f g e : Decision (short f g e).
Proof. unfold short. apply _. Defined.

(** [adj] belongs to the first entry the memory is short of. *)
Definition threshold (p : params) (other_free other_file adj : Z) : Prop :=
  match list_find (short other_free other_file) (entries p) with
  | Some (_, e) => adj = snd e
  | None => adj = OOM_ADJUST_MAX + 1
  end.

Lemma min_adj_loop_ok p f g n : forall i,
  (i + n <= length (lowmem_minfree p))%nat -> (i + n <= length (lowmem_adj p))%nat ->
  min_adj_loop p f g i n =
    Some match list_find (short f g) (take n (drop i (zip (lowmem_minfree p) (lowmem_adj p)))) with
         | Some (_, e) => snd e
         | None => OOM_ADJUST_MAX + 1
         end.
Proof.
  induction n as [|n IH]; intros i H1 H2; simpl; [done|].
  destruct (lookup_lt_is_Some_2 (lowmem_minfree p) i) as [m Em]; [lia|].
  destruct (lookup_lt_is_Some_2 (lowmem_adj p) i) as [a Ea]; [lia|].
  rewrite Em. simpl.
  rewrite (drop_S (zip (lowmem_minfree p) (lowmem_adj p)) (m, a) i) by (by rewrite lookup_zip_with, Em; simpl; rewrite Ea).
  simpl. unfold below. destruct (decide (short f g (m, a))) as [Hs|Hs].
  - unfold short in Hs. simpl in Hs. by rewrite !bool_decide_eq_true_2 by tauto.
  - replace (_ && _) with false.
    2: { unfold short in Hs. simpl in Hs. repeat case_bd; simpl; try done. tauto. }
    rewrite IH by lia. by destruct (list_find _ _) as [[? ?]|].
Qed.

Lemma min_adj_ok p f g : params_ok p -> exists adj, min_adj p f g = Some adj /\ threshold p f g adj.
Proof.
  intros [Ha Hm [Hs1 Hs2]]. unfold min_adj, threshold, entries.
  assert (0 <= array_size p <= 6) by (unfold array_size; rewrite Ha; repeat case_bd; lia).
  rewrite min_adj_loop_ok by lia. rewrite drop_0. eexists. split; [done|]. by destruct (list_find _ _) as [[? ?]|].
Qed.

(** ** The victim *)

(** A task that may be killed: important enough to memory, with pages. *)
Definition eligible (adj : Z) (t : task) : Prop :=
  adj <= oomkilladj t /\ exists rss, mm_rss t = Some rss /\ 0 < s32 rss.

Definition rss_of (t : task) : Z := from_option s32 0 (mm_rss t).

(** [t] is at least as good a victim as [u]. *)
Definition better (t u : task) : Prop :=
  oomkilladj u < oomkilladj t \/ (oomkilladj u = oomkilladj t /\ rss_of u <= rss_of t).

Definition best (adj : Z) (ts : list task) (sel : option (task * Z)) : Prop :=
  match sel with
  | None => forall t, t ∈ ts -> ~ eligible adj t
  | Some (t, n) => t ∈ ts /\ eligible adj t /\ n = rss_of t /\
      forall u, u ∈ ts -> eligible adj u -> better t u
  end.

Lemma select_step adj ts sel t : best adj ts sel -> best adj (ts ++ [t]) (select adj sel t).
Proof.
  intros Hb. unfold select.
  assert (Hskip : ~ eligible adj t -> best adj (ts ++ [t]) sel).
  { intros Hn. destruct sel as [[s n]|]; simpl in *.
    - destruct Hb as (H1 & H2 & H3 & H4). split; [set_solver|]. split; [done|]. split; [done|].
      intros u [Hu| ->%list_elem_of_singleton]%elem_of_app He; [by apply H4|done].
    - intros u [Hu| ->%list_elem_of_singleton]%elem_of_app; [by apply Hb|done]. }
  case_bd as Hadj; [apply Hskip; intros [? _]; lia|].
  destruct (mm_rss t) as [rss|] eqn:Er; [|apply Hskip; intros (_ & r & E & _); congruence].
  case_bd as Hsz; [apply Hskip; intros (_ & r & E & ?); rewrite Er in E; injection E as <-; lia|].
  assert (Ht : eligible adj t) by (split; [lia|]; exists rss; split; [done|lia]).
  assert (Hrss : rss_of t = s32 rss) by (unfold rss_of; by rewrite Er).
  destruct sel as [[s n]|]; simpl in Hb.
  - destruct Hb as (H1 & H2 & -> & H4).
    assert (Hkeep : better s t -> best adj (ts ++ [t]) (Some (s, rss_of s))).
    { intros Hbt. simpl. split; [set_solver|]. split; [done|]. split; [done|].
      intros u [Hu| ->%list_elem_of_singleton]%elem_of_app He; [by apply H4|done]. }
    case_bd as Hlt; [apply Hkeep; left; lia|]. destruct (bool_decide _ && bool_decide _) eqn:Ec.
    + apply andb_true_iff in Ec as [E1%bool_decide_eq_true E2%bool_decide_eq_true]. apply Hkeep. right. lia.
    + assert (Hnew : better t s).
      { destruct (decide (oomkilladj t = oomkilladj s)); [right|left; lia].
        apply andb_false_iff in Ec as [Ec|Ec]; apply bool_decide_eq_false in Ec; [done|lia]. }
      simpl. split; [set_solver|]. split; [done|]. split; [done|].
      intros u [Hu| ->%list_elem_of_singleton]%elem_of_app He.
      * specialize (H4 u Hu He). unfold better in *. lia.
      * right. done.
  - simpl. split; [set_solver|]. split; [done|]. split; [done|].
    intros u [Hu| ->%list_elem_of_singleton]%elem_of_app He; [by destruct (Hb u Hu)|right; done].
Qed.

Lemma select_best adj ts : best adj ts (foldl (select adj) None ts).
Proof.
  induction ts as [|t ts IH] using rev_ind; [simpl; set_solver|].
  rewrite foldl_app. simpl. by apply select_step.
Qed.

(** ** Claims *)

(** The killer reads only inside its tables and always returns.  Asked
    to scan, with memory short of some threshold in use, it kills exactly one
    task if any is eligible, namely one whose oom adjustment is at least that of
    the first such threshold, which is the highest adjustment there is among
    eligible tasks, and which has the most resident pages among those; it kills
    nothing when it is only asked for a count, when memory is short of no
    threshold, or when no task is eligible. *)
Theorem lowmem_kills_best p pages tasks nr_to_scan :
  params_ok p ->
  exists adj ret victim,
    threshold p (s32 (nr_free pages)) (s32 (nr_file pages)) adj /\
    lowmem_shrink p pages tasks nr_to_scan = Some (ret, victim) /\
    match victim with
    | Some t =>
        0 < nr_to_scan /\ adj <> OOM_ADJUST_MAX + 1 /\ t ∈ tasks /\ eligible adj t /\
        forall u, u ∈ tasks -> eligible adj u -> better t u
    | None => nr_to_scan <= 0 \/ adj = OOM_ADJUST_MAX + 1 \/ forall u, u ∈ tasks -> ~ eligible adj u
    end.
Proof.
  intros Hp. destruct (min_adj_ok p (s32 (nr_free pages)) (s32 (nr_file pages)) Hp) as (adj & E & Ht).
  unfold lowmem_shrink. rewrite E. simpl. pose proof (select_best adj tasks) as Hb.
  exists adj. case_bd as Hn; simpl; [eexists _, _; split; [done|]; split; [done|]; by left|].
  case_bd as Ha; [eexists _, _; split; [done|]; split; [done|]; by right; left|].
  destruct (foldl (select adj) None tasks) as [[t n]|]; simpl in Hb; eexists _, _; (split; [done|]); (split; [done|]).
  - destruct Hb as (? & ? & _ & ?). split; [lia|done].
  - by right; right.
Qed.

Definition demo_tasks : list task :=
  [mk_task 1 (-16) (Some 900); mk_task 2 12 (Some 300); mk_task 3 0 None; mk_task 4 12 (Some 500); mk_task 5 6 (Some 800)].

Lemma lowmem_kills_best_witness : exists adj ret victim,
  threshold default_params 1000 1000 adj /\
  lowmem_shrink default_params (mk_pages 1000 1000 1 2 3 4) demo_tasks 128 = Some (ret, victim).
Proof.
  destruct (lowmem_kills_best default_params (mk_pages 1000 1000 1 2 3 4) demo_tasks 128)
    as (adj & ret & victim & H1 & H2 & _); [by split|].
  exact (ex_intro _ adj (ex_intro _ ret (ex_intro _ victim (conj H1 H2)))).
Defined.

End Lowmem.
