(* ===== verification/Plist.v ===== *)
(** * Priority-sorted lists ([lib/plist.c], [include/linux/plist.h])

    A plist threads its nodes on two lists: all of them on [node_list], in
    order of [prio] (the smallest, which is the highest priority, first), and
    the first node of each priority on [prio_list], which insertion walks. *)

From Stdlib Require Import ZArith Lia.
From stdpp Require Import base option gmap sorting list.
From S2P Require Import Prelude.

Local Open Scope Z_scope.
Local Open Scope kernel_scope.

Module Plist.

Definition nid := nat.

(** [struct plist_head] with the [prio] of every node.  A node is on a list
    when it is one of the list's elements; the node that is not has its link
    point to itself. *)
Record plist := mk_plist { prio_list : list nid; node_list : list nid; prios : gmap nid Z }.

Definition prio (h : plist) (n : nid) : Z := default 0 (prios h !! n).

Definition plist_head_init (ps : gmap nid Z) : plist := mk_plist [] [] ps.

(** The node's [prio] is set and it is on no list. *)
Definition plist_node_init (h : plist) (n : nid) (p : Z) : plist :=
  mk_plist (prio_list h) (node_list h) (<[n := p]> (prios h)).

Definition plist_head_empty (h : plist) : bool := bool_decide (node_list h = []).

Definition plist_node_empty (h : plist) (n : nid) : bool := negb (bool_decide (n ∈ node_list h)).

Definition plist_first (h : plist) : option nid := head (node_list h).

(** [list_add_tail(new, pos)] where [pos] is an entry, or the list's head. *)
Definition add_before (new : nid) (pos : option nid) (l : list nid) : list nid :=
  match pos with
  | None => list_add_tail new l
  | Some p => list_add_before new p l
  end.

(** Where the loop of [plist_add] over [prio_list] jumps to, with [iter]: an
    entry, or [None] for the head. *)
Inductive place := lt_prio (iter : option nid) | eq_prio (iter : option nid).

Fixpoint add_scan (p : nid -> Z) (node : nid) (l : list nid) : place :=
  match l with
  | [] => lt_prio None
  | iter :: l =>
      if bool_decide (p node < p iter) then lt_prio (Some iter)
      else if bool_decide (p node = p iter) then eq_prio (head l)
      else add_scan p node l
  end.

Definition plist_add (h : plist) (node : nid) : plist :=
  match add_scan (prio h) node (prio_list h) with
  | lt_prio iter =>
      mk_plist (add_before node iter (prio_list h)) (add_before node iter (node_list h)) (prios h)
  | eq_prio iter => mk_plist (prio_list h) (add_before node iter (node_list h)) (prios h)
  end.

(** The entry behind [n], [None] for the head. *)
Fixpoint next_entry (n : nid) (l : list nid) : option nid :=
  match l with
  | [] => None
  | x :: l => if bool_decide (x = n) then head l else next_entry n l
  end.

(** [list_move_tail] of the head of the list to before [node] only turns the
    circle round, so that [node] comes first after the head; it is deleted
    next. *)
Definition plist_del (h : plist) (node : nid) : plist :=
  let pl := if bool_decide (node ∈ prio_list h) then
              let pl := match next_entry node (node_list h) with
                        | Some next => list_add_before next node (list_del next (prio_list h))
                        | None => prio_list h
                        end in
              list_del node pl
            else prio_list h in
  mk_plist pl (list_del node (node_list h)) (prios h).

(** ** The first node of each priority *)

(** The nodes of [l] whose priority differs from that of the node in front;
    [last] is the priority in front of the first. *)
Fixpoint firsts (p : nid -> Z) (last : option Z) (l : list nid) : list nid :=
  match l with
  | [] => []
  | x :: l => if bool_decide (last = Some (p x)) then firsts p last l else x :: firsts p (Some (p x)) l
  end.

Definition sorted (p : nid -> Z) : list nid -> Prop := StronglySorted (fun x y => p x <= p y).

Definition after (last : option Z) (z : Z) : Prop := match last with None => True | Some q => q <= z end.

Lemma firsts_sub p last l x : x ∈ firsts p last l -> x ∈ l.
Proof. revert last. induction l as [|y l IH]; intros last; simpl; [done|]. case_bd; set_solver. Qed.

Definition last_prio (p : nid -> Z) (last : option Z) (a : list nid) : option Z :=
  match list.last a with Some x => Some (p x) | None => last end.

Lemma last_prio_cons p last x a : last_prio p last (x :: a) = last_prio p (Some (p x)) a.
Proof. unfold last_prio. by destruct a as [|y a]; [|rewrite last_cons_cons; destruct (list.last (y :: a)) eqn:E; [|apply last_None in E]]. Qed.

Lemma firsts_app p last a b : firsts p last (a ++ b) = firsts p last a ++ firsts p (last_prio p last a) b.
Proof.
  revert last. induction a as [|x a IH]; intros last; simpl; [done|].
  rewrite last_prio_cons. case_bd as E; [subst last; apply IH|]. simpl. by rewrite IH.
Qed.

(** ** Insertion *)

Lemma add_before_cons n x pos l : x ∉ option_list pos -> add_before n pos (x :: l) = x :: add_before n pos l.
Proof. destruct pos as [q|]; simpl; [|done]. intros Hx. rewrite decide_False; [done|]. intros ->. set_solver. Qed.

Definition neg (p : nid -> Z) (x : nid) : Z := - p x.

Lemma insert_cons p n x l : p x <= p n -> insert_by (neg p) n (x :: l) = x :: insert_by (neg p) n l.
Proof. intros H. simpl. unfold neg at 1 2. by rewrite bool_decide_eq_false_2 by lia. Qed.

Lemma insert_here p n x l : p n < p x -> insert_by (neg p) n (x :: l) = n :: x :: l.
Proof. intros H. simpl. unfold neg. by rewrite bool_decide_eq_true_2 by lia. Qed.

Lemma add_before_here n x l : add_before n (Some x) (x :: l) = n :: x :: l.
Proof. simpl. by rewrite decide_True. Qed.

Lemma firsts_skip p last x l : last = Some (p x) -> firsts p last (x :: l) = firsts p last l.
Proof. intros E. cbn [firsts]. by rewrite bool_decide_eq_true_2. Qed.

Lemma firsts_keep p last x l : last <> Some (p x) -> firsts p last (x :: l) = x :: firsts p (Some (p x)) l.
Proof. intros E. cbn [firsts]. by rewrite bool_decide_eq_false_2. Qed.

Lemma not_head_firsts p last x l : x ∉ l -> x ∉ option_list (head (firsts p last l)).
Proof.
  intros Hx. destruct (firsts p last l) as [|y t] eqn:E; simpl; [set_solver|].
  intros ->%list_elem_of_singleton. apply Hx, (firsts_sub p last). rewrite E. set_solver.
Qed.

(** The new node goes before the first node behind its own priority. *)
Lemma add_eq p n l : NoDup l -> Forall (fun x => p n <= p x) l ->
  add_before n (head (firsts p (Some (p n)) l)) l = insert_by (neg p) n l /\
  firsts p (Some (p n)) (insert_by (neg p) n l) = firsts p (Some (p n)) l.
Proof.
  induction l as [|x l IH]; intros Hnd Hle.
  { simpl. by rewrite bool_decide_eq_true_2. }
  apply NoDup_cons in Hnd as [Hx Hnd]. apply Forall_cons in Hle as [Hlx Hle].
  destruct (IH Hnd Hle) as [IH1 IH2]. destruct (decide (p n = p x)) as [E|E].
  - rewrite insert_cons by lia. rewrite !firsts_skip by congruence.
    rewrite add_before_cons, IH1 by (by apply not_head_firsts). by split.
  - rewrite insert_here by lia. rewrite (firsts_skip _ _ n) by done. rewrite firsts_keep by congruence.
    by split; [apply add_before_here|].
Qed.

Definition iter_of (pl : place) : option nid := match pl with lt_prio it | eq_prio it => it end.

Lemma scan_elem p n t y : iter_of (add_scan p n t) = Some y -> y ∈ t.
Proof.
  induction t as [|z t IH]; simpl; [done|]. case_bd; simpl; [set_solver|]. case_bd; simpl.
  - destruct t; simpl; [done|]. set_solver.
  - intros. right. by apply IH.
Qed.

(** What [plist_add] makes of [prio_list]. *)
Definition new_prio_list (n : nid) (pl : place) (l : list nid) : list nid :=
  match pl with lt_prio it => add_before n it l | eq_prio _ => l end.

Lemma new_prio_list_cons n pl x l : x ∉ option_list (iter_of pl) -> new_prio_list n pl (x :: l) = x :: new_prio_list n pl l.
Proof. destruct pl; simpl; intros; [by apply add_before_cons|done]. Qed.

Lemma add_ok p n last l : NoDup l -> sorted p l -> (forall q, last = Some q -> q < p n) ->
  let sc := add_scan p n (firsts p last l) in
  add_before n (iter_of sc) l = insert_by (neg p) n l /\
  new_prio_list n sc (firsts p last l) = firsts p last (insert_by (neg p) n l).
Proof.
  revert last. induction l as [|x l IH]; intros last Hnd Hs Hlast sc; unfold sc; clear sc.
  { simpl. rewrite bool_decide_eq_false_2; [done|]. intros E. specialize (Hlast _ E). lia. }
  apply NoDup_cons in Hnd as [Hx Hnd]. inversion Hs as [|? ? Hs' Hle]; subst.
  assert (Hit : forall q, x ∉ option_list (iter_of (add_scan p n (firsts p q l)))).
  { intros q. destruct (iter_of _) as [y|] eqn:E; simpl; [|set_solver]. apply scan_elem, firsts_sub in E.
    intros ->%list_elem_of_singleton. done. }
  destruct (decide (last = Some (p x))) as [El|El].
  - (* [x] is behind a node of its priority *)
    assert (p x < p n) by (by apply Hlast). destruct (IH last Hnd Hs' Hlast) as [IH1 IH2].
    rewrite insert_cons, !firsts_skip by (done || lia). split; [|done]. by rewrite add_before_cons, IH1.
  - rewrite (firsts_keep p last x l El). cbn [add_scan]. case_bd as Hlt; [|case_bd as Heq].
    + rewrite insert_here by done. split; [apply add_before_here|]. cbn [new_prio_list].
      rewrite add_before_here, firsts_keep by (intros E; specialize (Hlast _ E); lia).
      by rewrite firsts_keep by (intros [= E]; lia).
    + rewrite insert_cons, firsts_keep by (done || lia). rewrite <- Heq. cbn [iter_of new_prio_list].
      destruct (add_eq p n l Hnd) as [E1 E2]; [eapply Forall_impl; [exact Hle|]; simpl; lia|].
      by rewrite add_before_cons, E1, E2 by (by apply not_head_firsts).
    + rewrite insert_cons, firsts_keep by (done || lia).
      destruct (IH (Some (p x)) Hnd Hs') as [IH1 IH2]; [intros q [= <-]; lia|].
      by rewrite new_prio_list_cons, add_before_cons, IH1, IH2.
Qed.

(** ** Removal *)

Lemma next_entry_mid n a b : n ∉ a -> next_entry n (a ++ n :: b) = head b.
Proof.
  induction a as [|x a IH]; simpl; intros Hn; [by rewrite bool_decide_eq_true_2|].
  rewrite bool_decide_eq_false_2 by set_solver. apply IH. set_solver.
Qed.

Lemma sorted_app p a b : sorted p (a ++ b) <->
  sorted p a /\ sorted p b /\ forall x y, x ∈ a -> y ∈ b -> p x <= p y.
Proof. unfold sorted. rewrite StronglySorted_app. naive_solver. Qed.

Lemma NoDup_firsts p last l : NoDup l -> NoDup (firsts p last l).
Proof.
  intros Hnd. revert last. induction Hnd as [|x l Hx _ IH]; intros last; simpl; [constructor|].
  case_bd; [done|]. constructor; [|done]. by intros ?%firsts_sub.
Qed.

(** The priority in front of [n] is not that of a node behind it that differs
    from [n]'s. *)
Lemma last_prio_below p a n y : sorted p (a ++ [n; y]) -> p n <> p y -> last_prio p None a <> Some (p y).
Proof.
  intros (_ & Hs & Ha)%sorted_app Hne E. inversion Hs as [|? ? _ Hny]; subst. apply Forall_cons in Hny as [Hny _].
  unfold last_prio in E. destruct (list.last a) as [z|] eqn:Ez; [|done]. injection E as E.
  apply last_Some_elem_of in Ez. specialize (Ha z n Ez ltac:(set_solver)). lia.
Qed.

Lemma del_ok p a n b : NoDup (a ++ n :: b) -> sorted p (a ++ n :: b) ->
  prio_list (plist_del (mk_plist (firsts p None (a ++ n :: b)) (a ++ n :: b) ∅) n) = firsts p None (a ++ b).
Proof.
  intros Hnd Hs. pose proof (NoDup_firsts p None _ Hnd) as Hndf.
  pose proof Hnd as (_ & Hdis & Hnb)%NoDup_app. apply NoDup_cons in Hnb as [Hnb Hnb'].
  assert (Hna : n ∉ a) by (intros H; apply (Hdis n H); set_solver).
  unfold plist_del. simpl. rewrite next_entry_mid by done. rewrite !firsts_app in *.
  set (fa := firsts p None a) in *. assert (Hnfa : n ∉ fa) by (by intros ?%firsts_sub).
  destruct (decide (last_prio p None a = Some (p n))) as [E|E].
  - rewrite firsts_skip in * by done. rewrite bool_decide_eq_false_2; [done|].
    intros [?|?%firsts_sub]%elem_of_app; done.
  - rewrite firsts_keep in * by done. rewrite bool_decide_eq_true_2 by set_solver.
    destruct b as [|y b]; simpl.
    { by rewrite list_del_split by set_solver. }
    assert (Hya : y ∉ fa) by (intros H%firsts_sub; apply (Hdis y H); set_solver).
    assert (Hyn : y <> n) by set_solver. apply NoDup_cons in Hnb' as [Hyb _].
    assert (Hsy : sorted p (a ++ [n; y])).
    { apply sorted_app in Hs as (H1 & H2 & H3). apply sorted_app. split; [done|]. split.
      - inversion H2 as [|? ? _ Hf]; subst. apply Forall_cons in Hf as [Hf _]. by repeat constructor.
      - intros u v Hu Hv. apply H3; set_solver. }
    case_bd as Ep.
    + injection Ep as Ep. rewrite (list_del_not_in y).
      2: { intros [?|[->|?%firsts_sub]%elem_of_cons]%elem_of_app; done. }
      rewrite list_add_before_split by done.
      replace (fa ++ y :: n :: firsts p (Some (p n)) b) with ((fa ++ [y]) ++ n :: firsts p (Some (p n)) b)
        by (by rewrite <- app_assoc).
      rewrite list_del_split; [|set_solver|].
      * rewrite <- app_assoc. simpl. rewrite bool_decide_eq_false_2 by congruence. by rewrite Ep.
      * intros ?%firsts_sub. set_solver.
    + rewrite bool_decide_eq_false_2 by (apply (last_prio_below p a n y); [done|congruence]).
      replace (fa ++ n :: y :: firsts p (Some (p y)) b) with ((fa ++ [n]) ++ y :: firsts p (Some (p y)) b)
        by (by rewrite <- app_assoc).
      rewrite list_del_split; [|set_solver|by intros ?%firsts_sub]. rewrite <- app_assoc. simpl.
      rewrite list_add_before_split by done.
      replace (fa ++ y :: n :: firsts p (Some (p y)) b) with ((fa ++ [y]) ++ n :: firsts p (Some (p y)) b)
        by (by rewrite <- app_assoc).
      rewrite list_del_split; [by rewrite <- app_assoc|set_solver|]. intros ?%firsts_sub. set_solver.
Qed.

(** ** The invariant *)

Record inv (h : plist) : Prop := {
  inv_nodup : NoDup (node_list h);
  inv_sorted : sorted (prio h) (node_list h);
  inv_firsts : prio_list h = firsts (prio h) None (node_list h)
}.

(** A node leaves the list before it is initialised again. *)
Inductive reachable : plist -> Prop :=
  | reach_init ps : reachable (plist_head_init ps)
  | reach_node h n p : reachable h -> n ∉ node_list h -> reachable (plist_node_init h n p)
  | reach_add h n : reachable h -> n ∉ node_list h -> reachable (plist_add h n)
  | reach_del h n : reachable h -> n ∈ node_list h -> reachable (plist_del h n).

Lemma firsts_ext p q last l : (forall x, x ∈ l -> q x = p x) -> firsts q last l = firsts p last l.
Proof.
  revert last. induction l as [|x l IH]; intros last H; simpl; [done|]. rewrite H by set_solver.
  rewrite !IH by set_solver. done.
Qed.

Lemma sorted_ext p q l : (forall x, x ∈ l -> q x = p x) -> sorted p l -> sorted q l.
Proof.
  unfold sorted. intros H. induction 1 as [|x l _ IH Hx]; constructor; [apply IH; set_solver|].
  rewrite Forall_forall in *. intros y Hy. rewrite !H by set_solver. by apply Hx.
Qed.

Lemma sorted_neg p l : sorted p l <-> StronglySorted (fun x y => neg p x >= neg p y) l.
Proof.
  unfold sorted, neg. split; induction 1 as [|x l _ IH Hx]; constructor; try done;
    eapply Forall_impl; try exact Hx; simpl; lia.
Qed.

Lemma add_lists h n : inv h -> n ∉ node_list h ->
  node_list (plist_add h n) = insert_by (neg (prio h)) n (node_list h) /\ inv (plist_add h n) /\
  prios (plist_add h n) = prios h.
Proof.
  intros [Hnd Hs Hf] Hn. destruct (add_ok (prio h) n None (node_list h) Hnd Hs) as [E1 E2]; [done|].
  assert (Hn' : node_list (plist_add h n) = insert_by (neg (prio h)) n (node_list h) /\
    prio_list (plist_add h n) = firsts (prio h) None (insert_by (neg (prio h)) n (node_list h)) /\
    prios (plist_add h n) = prios h).
  { unfold plist_add. rewrite Hf in *. by destruct (add_scan _ _ _). }
  destruct Hn' as (N1 & N2 & N3). split; [done|]. split; [|done].
  assert (Hp : prio (plist_add h n) = prio h) by (unfold prio; by rewrite N3).
  split; rewrite ?Hp, ?N1; [|by apply sorted_neg, insert_by_sorted, sorted_neg|done].
  rewrite insert_by_perm. by constructor.
Qed.

Lemma del_lists h n : inv h -> n ∈ node_list h ->
  node_list (plist_del h n) = list_del n (node_list h) /\ inv (plist_del h n) /\ prios (plist_del h n) = prios h.
Proof.
  intros [Hnd Hs Hf] Hn. split; [done|]. split; [|done]. split; simpl.
  - by apply NoDup_list_del.
  - apply list_elem_of_split in Hn as (a & b & E). rewrite E in *.
    pose proof Hnd as (_ & Hdis & Hnb)%NoDup_app. apply NoDup_cons in Hnb as [Hnb _].
    rewrite list_del_split; [|intros H; apply (Hdis n H); set_solver|done].
    apply sorted_app in Hs as (H1 & H2 & H3). inversion H2; subst. apply sorted_app.
    split; [done|]. split; [done|]. intros x y Hx Hy. apply H3; set_solver.
  - apply list_elem_of_split in Hn as (a & b & E). rewrite E in *.
    pose proof Hnd as (_ & Hdis & Hnb)%NoDup_app. apply NoDup_cons in Hnb as [Hnb _].
    rewrite (list_del_split n a b); [|intros H; apply (Hdis n H); set_solver|done].
    rewrite Hf. apply (del_ok (prio h) a n b Hnd Hs).
Qed.

Lemma plist_reachable_inv h : reachable h -> inv h.
Proof.
  induction 1 as [ps|h n p _ [Hnd Hs Hf] Hn|h n _ IH Hn|h n _ IH Hn].
  - split; simpl; [constructor..|done].
  - assert (Hp : forall x, x ∈ node_list h -> prio (plist_node_init h n p) x = prio h x).
    { intros x Hx. unfold prio. simpl. by rewrite lookup_insert_ne by set_solver. }
    split; simpl; [done|by eapply sorted_ext|]. by rewrite (firsts_ext _ _ _ _ Hp).
  - by apply add_lists.
  - by apply del_lists.
Qed.

(** ** Claims *)

(** Through any sequence of initialisations, additions and removals, a
    plist is in order of priority with no node twice, [prio_list] is exactly the
    first node of each priority, a node is added behind all nodes of its own
    priority and before all of lower ones although the code never looks at
    [node_list] to find the place, a removal takes out that node only, and
    [plist_first] is a node of the highest priority. *)
Theorem plist_ordered h :
  reachable h ->
  inv h /\
  (forall n, n ∉ node_list h -> node_list (plist_add h n) = insert_by (neg (prio h)) n (node_list h)) /\
  (forall n, n ∈ node_list h -> node_list (plist_del h n) = list_del n (node_list h)) /\
  match plist_first h with
  | None => plist_head_empty h = true
  | Some n => n ∈ node_list h /\ forall m, m ∈ node_list h -> prio h n <= prio h m
  end.
Proof.
  intros Hr. pose proof (plist_reachable_inv h Hr) as Hi. split; [done|].
  split; [intros n Hn; by apply add_lists|]. split; [intros n Hn; by apply del_lists|].
  unfold plist_first, plist_head_empty. destruct Hi as [_ Hs _]. destruct (node_list h) as [|n l]; simpl.
  - done.
  - split; [set_solver|]. inversion Hs as [|? ? _ Hle]; subst. rewrite Forall_forall in Hle.
    intros m [->|Hm]%elem_of_cons; [lia|by apply Hle].
Qed.

Definition demo_plist : plist :=
  plist_add (plist_add (plist_add (plist_head_init {[ 1%nat := 5; 2%nat := 3; 3%nat := 5 ]}) 1%nat) 2%nat) 3%nat.

Lemma demo_plist_reachable : reachable demo_plist.
Proof.
  unfold demo_plist. apply reach_add; [apply reach_add; [apply reach_add; [apply reach_init|]|]|];
    vm_compute; intros H; by repeat (apply elem_of_cons in H as [H|H]; [done|]); apply not_elem_of_nil in H.
Qed.

Lemma plist_ordered_witness : reachable demo_plist /\ inv demo_plist.
Proof. exact (conj demo_plist_reachable (proj1 (plist_ordered demo_plist demo_plist_reachable))). Defined.

Example demo_plist_lists :
  node_list demo_plist = [2; 1; 3]%nat /\ prio_list demo_plist = [2; 1]%nat /\
  prio_list (plist_del demo_plist 1%nat) = [2; 3]%nat /\ prio_list (plist_del demo_plist 3%nat) = [2; 1]%nat.
Proof. vm_compute. done. Qed.

End Plist.
