(* ===== verification/Resource.v ===== *)
(** * The resource tree ([kernel/resource.c]): the model

    Ranges of addresses as a tree: a resource points to its first child, and
    the children are linked by [sibling] in order of address.  Everything below
    runs under [resource_lock].

    A result [None] is a pointer to no resource, or a loop that does not end
    within the bound it is given. *)

From Stdlib Require Import ZArith Lia.
From stdpp Require Import base option gmap list.
From S2P Require Import Prelude Chain.

Local Open Scope Z_scope.
Local Open Scope kernel_scope.

Module Resource.

(** [struct resource]; [resource_size_t] is 32 bits wide. *)
Record resource := mk_res {
  start : Z;
  end_ : Z;
  flags : Z;
  parent : option oid;
  sibling : option oid;
  child : option oid
}.

Notation store := (gmap oid resource).

Definition set_range (s e : Z) (r : resource) : resource :=
  mk_res s e (flags r) (parent r) (sibling r) (child r).
Definition set_parent (v : option oid) (r : resource) : resource :=
  mk_res (start r) (end_ r) (flags r) v (sibling r) (child r).
Definition set_sibling (v : option oid) (r : resource) : resource :=
  mk_res (start r) (end_ r) (flags r) (parent r) v (child r).
Definition set_child (v : option oid) (r : resource) : resource :=
  mk_res (start r) (end_ r) (flags r) (parent r) (sibling r) v.

Definition upd (st : store) (x : oid) (f : resource -> resource) : option store :=
  r ← st !! x; Some (<[x := f r]> st).

Definition sib_of (st : store) (x : oid) : option (option oid) := sibling <$> st !! x.

(** [*p] and [*p = v], where [p] starts as [&root->child]. *)
Definition read (st : store) (root : oid) (p : slot) : option (option oid) :=
  rr ← st !! root; read_slot (child rr) (sib_of st) p.

Definition write (st : store) (root : oid) (p : slot) (v : option oid) : option store :=
  match p with
  | SHead => upd st root (set_child v)
  | SNext x => upd st x (set_sibling v)
  end.

(** ** Requesting and releasing *)

(** [new->sibling = tmp; *p = new; new->parent = root] *)
Definition link (st : store) (root : oid) (p : slot) (tmp : option oid) (new : oid) : option store :=
  st ← upd st new (set_sibling tmp);
  st ← write st root p (Some new);
  upd st new (set_parent (Some root)).

Fixpoint request_loop (fuel : nat) (st : store) (root new : oid) (s e : Z) (p : slot)
  : option (store * option oid) :=
  tmp ← read st root p;
  match tmp with
  | None => st ← link st root p None new; Some (st, None)
  | Some t =>
      rt ← st !! t;
      if bool_decide (start rt > e) then st ← link st root p (Some t) new; Some (st, None)
      else if bool_decide (end_ rt < s) then
        match fuel with
        | O => None
        | S fuel => request_loop fuel st root new s e (SNext t)
        end
      else Some (st, Some t)
  end.

(** The conflict entry, [None] when the resource was linked. *)
Definition __request_resource (st : store) (root new : oid) : option (store * option oid) :=
  rr ← st !! root;
  rn ← st !! new;
  if bool_decide (end_ rn < start rn) then Some (st, Some root)
  else if bool_decide (start rn < start rr) then Some (st, Some root)
  else if bool_decide (end_ rn > end_ rr) then Some (st, Some root)
  else request_loop (size st) st root new (start rn) (end_ rn) SHead.

Fixpoint release_loop (fuel : nat) (st : store) (par old : oid) (p : slot) : option (store * Z) :=
  tmp ← read st par p;
  match tmp with
  | None => Some (st, - EINVAL)
  | Some t =>
      if bool_decide (t = old) then
        rt ← st !! t;
        st ← write st par p (sibling rt);
        st ← upd st old (set_parent None);
        Some (st, 0)
      else
        match fuel with
        | O => None
        | S fuel => release_loop fuel st par old (SNext t)
        end
  end.

Definition __release_resource (st : store) (old : oid) : option (store * Z) :=
  ro ← st !! old;
  par ← parent ro;
  release_loop (size st) st par old SHead.

Definition request_resource (st : store) (root new : oid) : option (store * Z) :=
  '(st, conflict) ← __request_resource st root new;
  Some (st, match conflict with Some _ => - EBUSY | None => 0 end).

Definition release_resource (st : store) (old : oid) : option (store * Z) := __release_resource st old.

(** ** Allocation *)

(** [ALIGN(x, a)] of [include/linux/kernel.h] for unsigned arguments. *)
Definition ALIGN (x a : Z) : Z := Z.land (x +u (a - 1)) (u32 (Z.lnot (a - 1))).

(** The loop of [find_resource]: [ns] is [new->start]; the result is the range
    given to [new], with whether it was found.  [alignf] is the caller's
    alignment function, which may move the range. *)
Fixpoint find_loop (fuel : nat) (st : store) (this : option oid) (root_end ns size min max align : Z)
  (alignf : option (Z * Z -> Z * Z)) : option (Z * Z * bool) :=
  ne ← match this with
       | Some t => rt ← st !! t; Some (start rt -u 1)
       | None => Some root_end
       end;
  let ns := if bool_decide (ns < min) then min else ns in
  let ne := if bool_decide (ne > max) then max else ne in
  let ns := ALIGN ns align in
  let '(ns, ne) := match alignf with Some f => f (ns, ne) | None => (ns, ne) end in
  if bool_decide (ns < ne) && bool_decide (ne -u ns >= size -u 1) then Some (ns, ns +u size -u 1, true)
  else
    match this with
    | None => Some (ns, ne, false)
    | Some t =>
        rt ← st !! t;
        match fuel with
        | O => None
        | S fuel => find_loop fuel st (sibling rt) root_end (end_ rt +u 1) size min max align alignf
        end
    end.

Definition find_resource (st : store) (root new : oid) (size_ min max align : Z)
  (alignf : option (Z * Z -> Z * Z)) : option (store * Z) :=
  rr ← st !! root;
  '(ns, this) ← (match child rr with
                 | None => Some (start rr, None)
                 | Some t =>
                     rt ← st !! t;
                     Some (if bool_decide (start rt = 0) then (end_ rt +u 1, sibling rt) else (start rr, Some t))
                 end : option (Z * option oid));
  '(ns, ne, found) ← find_loop (size st) st this (end_ rr) ns size_ min max align alignf;
  st ← upd st new (set_range ns ne);
  Some (st, if found : bool then 0 else - EBUSY).

Definition allocate_resource (st : store) (root new : oid) (size_ min max align : Z)
  (alignf : option (Z * Z -> Z * Z)) : option (store * Z) :=
  '(st, err) ← find_resource st root new size_ min max align alignf;
  if bool_decide (err >= 0) then
    '(st, conflict) ← __request_resource st root new;
    Some (st, match conflict with Some _ => - EBUSY | None => err end)
  else Some (st, err).

(** ** Adjusting *)

(** Every child of the resource lies in the new range. *)
Fixpoint children_fit (fuel : nat) (st : store) (tmp : option oid) (s e : Z) : option bool :=
  match tmp with
  | None => Some true
  | Some t =>
      rt ← st !! t;
      if bool_decide (start rt < s) || bool_decide (end_ rt > e) then Some false
      else match fuel with O => None | S fuel => children_fit fuel st (sibling rt) s e end
  end.

(** The sibling in front of [res], from [tmp] on. *)
Fixpoint find_prev (fuel : nat) (st : store) (tmp res : oid) : option oid :=
  rt ← st !! tmp;
  if bool_decide (sibling rt = Some res) then Some tmp
  else match fuel, sibling rt with
       | S fuel, Some t => find_prev fuel st t res
       | _, _ => None
       end.

Definition adjust_resource (st : store) (res : oid) (s size_ : Z) : option (store * Z) :=
  r ← st !! res;
  par ← parent r;
  rp ← st !! par;
  let e := s +u size_ -u 1 in
  if bool_decide (s < start rp) || bool_decide (e > end_ rp) then Some (st, - EBUSY)
  else
    fit ← children_fit (size st) st (child r) s e;
    if negb fit then Some (st, - EBUSY)
    else
      next_hit ← match sibling r with
                 | Some n => rn ← st !! n; Some (bool_decide (start rn <= e))
                 | None => Some false
                 end;
      if next_hit : bool then Some (st, - EBUSY)
      else
        tmp ← child rp;
        prev_hit ← (if bool_decide (tmp <> res) then
                      prev ← find_prev (size st) st tmp res;
                      rv ← st !! prev;
                      Some (bool_decide (s <= end_ rv))
                    else Some false);
        if prev_hit : bool then Some (st, - EBUSY)
        else st ← upd st res (set_range s e); Some (st, 0).

(** ** Alignment *)

Definition IORESOURCE_SIZEALIGN : Z := 0x00020000.
Definition IORESOURCE_STARTALIGN : Z := 0x00040000.

Definition resource_size (r : resource) : Z := end_ r -u start r +u 1.

Definition resource_alignment (r : resource) : Z :=
  let f := Z.land (flags r) (Z.lor IORESOURCE_SIZEALIGN IORESOURCE_STARTALIGN) in
  if bool_decide (f = IORESOURCE_SIZEALIGN) then resource_size r
  else if bool_decide (f = IORESOURCE_STARTALIGN) then start r
  else 0.

(** ** Inserting above other resources *)

(** How the descent of [__insert_resource] ends: with its result, or at the first
    child [first] of [parent] that is in the way and does not contain [new]. *)
Inductive descent := Done (conflict : option oid) | At (parent first : oid).

Fixpoint insert_descend (fuel : nat) (st : store) (parent new : oid) : option (store * descent) :=
  '(st, first) ← __request_resource st parent new;
  match first with
  | None => Some (st, Done None)
  | Some f =>
      if bool_decide (f = parent) then Some (st, Done (Some f))
      else
        rf ← st !! f;
        rn ← st !! new;
        if bool_decide (start rf > start rn) || bool_decide (end_ rf < end_ rn) then Some (st, At parent f)
        else if bool_decide (start rf = start rn) && bool_decide (end_ rf = end_ rn) then Some (st, At parent f)
        else match fuel with O => None | S fuel => insert_descend fuel st f new end
  end.

(** The children from [next] on that overlap [new]: the first that is not inside
    it, or the last of them. *)
Fixpoint cover_loop (fuel : nat) (st : store) (next new : oid) : option (oid + oid) :=
  rx ← st !! next;
  rn ← st !! new;
  if bool_decide (start rx < start rn) || bool_decide (end_ rx > end_ rn) then Some (inl next)
  else
    match sibling rx with
    | None => Some (inr next)
    | Some s =>
        rs ← st !! s;
        if bool_decide (start rs > end_ rn) then Some (inr next)
        else match fuel with O => None | S fuel => cover_loop fuel st s new end
    end.

(** [next->parent = new] for [next] and all behind it. *)
Fixpoint adopt_loop (fuel : nat) (st : store) (next : option oid) (new : oid) : option store :=
  match next with
  | None => Some st
  | Some x =>
      rx ← st !! x;
      st ← upd st x (set_parent (Some new));
      match fuel with O => None | S fuel => adopt_loop fuel st (sibling rx) new end
  end.

(** [new] takes the place of the children from [first] to [last] of [par], which
    become its own. *)
Definition adopt (st : store) (par new first last : oid) : option store :=
  rl ← st !! last;
  st ← upd st new (fun r => mk_res (start r) (end_ r) (flags r) (Some par) (sibling rl) (Some first));
  st ← upd st last (set_sibling None);
  st ← adopt_loop (size st) st (Some first) new;
  rp ← st !! par;
  if bool_decide (child rp = Some first) then upd st par (set_child (Some new))
  else
    c ← child rp;
    prev ← find_prev (size st) st c first;
    upd st prev (set_sibling (Some new)).

(** The conflicting resource, [None] when the resource was inserted. *)
Definition __insert_resource (st : store) (par new : oid) : option (store * option oid) :=
  '(st, d) ← insert_descend (size st) st par new;
  match d with
  | Done conflict => Some (st, conflict)
  | At par first =>
      last ← cover_loop (size st) st first new;
      match last with
      | inl conflict => Some (st, Some conflict)
      | inr last => st ← adopt st par new first last; Some (st, None)
      end
  end.

Definition insert_resource (st : store) (par new : oid) : option (store * Z) :=
  '(st, conflict) ← __insert_resource st par new;
  Some (st, match conflict with Some _ => - EBUSY | None => 0 end).

(** The loop of [insert_resource_expand_to_fit]. *)
Fixpoint expand_loop (fuel : nat) (st : store) (root new : oid) : option store :=
  '(st, conflict) ← __insert_resource st root new;
  match conflict with
  | None => Some st
  | Some c =>
      if bool_decide (c = root) then Some st
      else
        rc ← st !! c;
        rn ← st !! new;
        st ← upd st new (set_range (if bool_decide (start rc < start rn) then start rc else start rn)
                                   (if bool_decide (end_ rc > end_ rn) then end_ rc else end_ rn));
        match fuel with O => None | S fuel => expand_loop fuel st root new end
  end.

Definition insert_resource_expand_to_fit (st : store) (root new : oid) : option store :=
  rn ← st !! new;
  match parent rn with
  | Some _ => Some st
  | None => expand_loop (size st) st root new
  end.

(** ** Busy regions *)

Definition IORESOURCE_BUSY : Z := 0x80000000.

Definition busy (r : resource) : bool := negb (bool_decide (Z.land (flags r) IORESOURCE_BUSY = 0)).

(** The loop that [__request_region] and [__reserve_region_with_split] share:
    down through resources that are not busy, until [res] is linked or there is a
    conflict. *)
Fixpoint region_loop (fuel : nat) (st : store) (par res : oid) : option (store * option oid) :=
  '(st, conflict) ← __request_resource st par res;
  match conflict with
  | None => Some (st, None)
  | Some c =>
      if bool_decide (c <> par) then
        rc ← st !! c;
        if negb (busy rc) then match fuel with O => None | S fuel => region_loop fuel st c res end
        else Some (st, Some c)
      else Some (st, Some c)
  end.

(** [mem] is what [kzalloc] returns. *)
Definition __request_region (st : store) (par : oid) (s n flags : Z) (mem : option oid) : option (store * option oid) :=
  match mem with
  | None => Some (st, None)
  | Some res =>
      let st := <[res := mk_res s (s +u n -u 1) (Z.lor IORESOURCE_BUSY flags) None None None]> st in
      '(st, conflict) ← region_loop (size st) st par res;
      Some (match conflict with None => (st, Some res) | Some _ => (delete res st, None) end)
  end.

Definition __check_region (st : store) (par : oid) (s n : Z) (mem : option oid) : option (store * Z) :=
  '(st, res) ← __request_region st par s n 0 mem;
  match res with
  | None => Some (st, - EBUSY)
  | Some res => '(st, _) ← release_resource st res; Some (delete res st, 0)
  end.

(** [p] is a slot of [owner]; the result says whether a region was released, or
    the warning printed. *)
Fixpoint release_region_loop (fuel : nat) (st : store) (owner : oid) (p : slot) (s e : Z) : option (store * bool) :=
  res ← read st owner p;
  match res with
  | None => Some (st, false)
  | Some res =>
      r ← st !! res;
      if bool_decide (start r <= s) && bool_decide (end_ r >= e) then
        if negb (busy r) then match fuel with O => None | S fuel => release_region_loop fuel st res SHead s e end
        else if bool_decide (start r <> s) || bool_decide (end_ r <> e) then Some (st, false)
        else st ← write st owner p (sibling r); Some (delete res st, true)
      else match fuel with O => None | S fuel => release_region_loop fuel st owner (SNext res) s e end
  end.

Definition __release_region (st : store) (par : oid) (s n : Z) : option (store * bool) :=
  release_region_loop (size st * S (size st)) st par SHead s (s +u n -u 1).

(** ** Reserving around what is there *)

(** [mem] are the results of [kzalloc] from here on. *)
Fixpoint __reserve_region_with_split (fuel : nat) (st : store) (root : oid) (s e : Z) (mem : list (option oid))
  : option (store * list (option oid)) :=
  match mem with
  | [] => Some (st, [])
  | None :: mem => Some (st, mem)
  | Some res :: mem =>
      let st := <[res := mk_res s e IORESOURCE_BUSY None None None]> st in
      '(st, conflict) ← region_loop (size st) st root res;
      match conflict with
      | None => Some (st, mem)
      | Some c =>
          let st := delete res st in
          rc ← st !! c;
          if bool_decide (start rc <= s) && bool_decide (end_ rc >= e) then Some (st, mem)
          else
            match fuel with
            | O => None
            | S fuel =>
                '(st, mem) ← (if bool_decide (start rc > s)
                              then __reserve_region_with_split fuel st root s (start rc -u 1) mem
                              else Some (st, mem));
                '(st, mem) ← (if negb (busy rc) && bool_decide (Z.max (start rc) s < Z.min (end_ rc) e)
                              then __reserve_region_with_split fuel st root (Z.max (start rc) s) (Z.min (end_ rc) e) mem
                              else Some (st, mem));
                if bool_decide (end_ rc < e)
                then __reserve_region_with_split fuel st root (end_ rc +u 1) e mem
                else Some (st, mem)
            end
      end
  end.

(** [e - s] nested calls are enough for a range inside the root. *)
Definition reserve_region_with_split (st : store) (root : oid) (s e : Z) (mem : list (option oid)) : option (store * list (option oid)) :=
  __reserve_region_with_split (Z.to_nat (e - s)) st root s e mem.

End Resource.
