(* ===== verification/ResourceTop.v ===== *)
(** * The resource tree: disjoint children inside their parents *)

From Stdlib Require Import ZArith Lia.
From stdpp Require Import base option gmap sorting list.
From S2P Require Import Prelude Chain Resource.

Local Open Scope Z_scope.
Local Open Scope kernel_scope.

Module ResourceTop.
Import Resource.

(** ** The tree *)

Definition known (st : store) (x : oid) : Prop := is_Some (st !! x).
Definition lo (st : store) (x : oid) : Z := default 0 (start <$> st !! x).
Definition hi (st : store) (x : oid) : Z := default 0 (end_ <$> st !! x).
Definition parent_of (st : store) (x : oid) : option (option oid) := parent <$> st !! x.
Definition child_of (st : store) (x : oid) : option (option oid) := child <$> st !! x.
Definition rng (st : store) (x : oid) : option (Z * Z * Z) := (fun r => (start r, end_ r, flags r)) <$> st !! x.

(** The children of [r], in order. *)
Definition kids (st : store) (r : oid) (l : list oid) : Prop :=
  exists c, child_of st r = Some c /\ chain (sib_of st) c l.

Definition before (st : store) (a b : oid) : Prop := hi st a < lo st b.

Definition inside (st : store) (r c : oid) : Prop := lo st r <= lo st c /\ lo st c <= hi st c /\ hi st c <= hi st r.

(** Every resource's children are in order of address, pairwise disjoint, and
    lie inside it; they are the resources whose parent it is; the parents of a
    resource lead to the top. *)
Record tree (st : store) : Prop := {
  tr_kids : forall r, known st r -> exists l, kids st r l /\ StronglySorted (before st) l /\
    forall c, c ∈ l -> parent_of st c = Some (Some r) /\ inside st r c;
  tr_parent : forall c p, parent_of st c = Some (Some p) -> exists l, kids st p l /\ c ∈ l;
  tr_path : forall r, known st r -> exists l, chain (parent_of st) (Some r) l;
  tr_word : forall r, known st r -> 0 <= lo st r < two32 /\ 0 <= hi st r < two32
}.

Lemma proj_known {A} (f : resource -> A) st x v : f <$> st !! x = Some v -> known st x.
Proof. unfold known. rewrite fmap_Some. intros (r & -> & _). by eexists. Qed.

Lemma kids_root st r l : kids st r l -> known st r.
Proof. intros (c & E & _). by eapply proj_known. Qed.

Lemma kids_unique st r l l' : kids st r l -> kids st r l' -> l' = l.
Proof. intros (c & E & H) (c' & E' & H'). rewrite E in E'. injection E' as <-. by eapply chain_unique. Qed.

Lemma kids_NoDup st r l : kids st r l -> NoDup l.
Proof. intros (c & _ & H). by eapply chain_NoDup. Qed.

Lemma kids_known st r l x : kids st r l -> x ∈ l -> known st x.
Proof. intros (c & _ & H) Hx. destruct (seg_mapped _ _ _ _ x H Hx) as [o Ho]. by eapply proj_known. Qed.

Lemma kids_size st r l : kids st r l -> (length l <= size st)%nat.
Proof.
  intros Hk. rewrite <- size_dom. rewrite <- (size_list_to_set (C := gset oid) l) by (by eapply kids_NoDup).
  apply subseteq_size. intros x Hx%elem_of_list_to_set. apply elem_of_dom. by eapply kids_known.
Qed.

Lemma rng_lo st st' x : rng st' x = rng st x -> lo st' x = lo st x /\ hi st' x = hi st x.
Proof.
  unfold rng, lo, hi. destruct (st !! x), (st' !! x); simpl; try done. by intros [= -> -> _].
Qed.

Lemma rng_known st st' x : rng st' x = rng st x -> known st' x <-> known st x.
Proof. unfold rng, known. destruct (st !! x), (st' !! x); simpl; intros; split; intros [? ?]; try done; by eexists. Qed.

(** ** Stores to one field *)

Ltac solve_upd x Hx :=
  let y := fresh in intros y;
  unfold rng, parent_of, child_of, sib_of; destruct (decide (y = x)) as [->|];
  [rewrite lookup_insert_eq, Hx|rewrite lookup_insert_ne by done]; done.

Lemma upd_sibling st x v : known st x -> exists st', upd st x (set_sibling v) = Some st' /\
  (forall y, rng st' y = rng st y) /\ (forall y, parent_of st' y = parent_of st y) /\
  (forall y, child_of st' y = child_of st y) /\
  sib_of st' x = Some v /\ (forall y, y <> x -> sib_of st' y = sib_of st y).
Proof.
  intros [r Hr]. unfold upd. rewrite Hr. simpl. eexists. split; [done|].
  split; [solve_upd x Hr|]. split; [solve_upd x Hr|]. split; [solve_upd x Hr|].
  unfold sib_of. split; [by rewrite lookup_insert_eq|]. intros y Hy. by rewrite lookup_insert_ne.
Qed.

Lemma upd_child st x v : known st x -> exists st', upd st x (set_child v) = Some st' /\
  (forall y, rng st' y = rng st y) /\ (forall y, parent_of st' y = parent_of st y) /\
  (forall y, sib_of st' y = sib_of st y) /\
  child_of st' x = Some v /\ (forall y, y <> x -> child_of st' y = child_of st y).
Proof.
  intros [r Hr]. unfold upd. rewrite Hr. simpl. eexists. split; [done|].
  split; [solve_upd x Hr|]. split; [solve_upd x Hr|]. split; [solve_upd x Hr|].
  unfold child_of. split; [by rewrite lookup_insert_eq|]. intros y Hy. by rewrite lookup_insert_ne.
Qed.

Lemma upd_parent st x v : known st x -> exists st', upd st x (set_parent v) = Some st' /\
  (forall y, rng st' y = rng st y) /\ (forall y, child_of st' y = child_of st y) /\
  (forall y, sib_of st' y = sib_of st y) /\
  parent_of st' x = Some v /\ (forall y, y <> x -> parent_of st' y = parent_of st y).
Proof.
  intros [r Hr]. unfold upd. rewrite Hr. simpl. eexists. split; [done|].
  split; [solve_upd x Hr|]. split; [solve_upd x Hr|]. split; [solve_upd x Hr|].
  unfold parent_of. split; [by rewrite lookup_insert_eq|]. intros y Hy. by rewrite lookup_insert_ne.
Qed.

(** Storing through the slot behind the children [l1]: only that slot changes,
    and [l1] then leads to [v]. *)
Lemma resource_write_ok st root l1 l2 v : kids st root (l1 ++ l2) ->
  exists st', write st root (slot_of l1) v = Some st' /\
    (forall y, rng st' y = rng st y) /\ (forall y, parent_of st' y = parent_of st y) /\
    (forall y, y <> root -> child_of st' y = child_of st y) /\
    (forall y, slot_of l1 <> SNext y -> sib_of st' y = sib_of st y) /\
    exists c, child_of st' root = Some c /\ seg (sib_of st') c l1 v.
Proof.
  intros Hk. pose proof (kids_NoDup _ _ _ Hk) as Hnd. apply NoDup_app in Hnd as (Hnd & _ & _).
  destruct Hk as (c & Ec & Hc). pose proof Hc as (o & H1 & H2)%seg_app.
  destruct l1 as [|x l1 _] using rev_ind.
  - destruct (upd_child st root v) as (st' & E & Hr & Hp & Hs & Hc1 & Hc2).
    { by eapply proj_known. }
    exists st'. split; [done|]. split; [done|]. split; [done|]. split; [done|]. split; [auto|]. by exists v.
  - rewrite slot_of_snoc. simpl.
    destruct (upd_sibling st x v) as (st' & E & Hr & Hp & Hc' & Hs1 & Hs2).
    { eapply (kids_known st root); [by exists c|]. set_solver. }
    exists st'. split; [done|]. split; [done|]. split; [done|]. split; [auto|].
    split; [intros y Hy; apply Hs2; congruence|]. exists c. split; [by rewrite Hc'|].
    eapply seg_write; [done|exact H1|by rewrite slot_of_snoc|done|].
    intros y _. rewrite slot_of_snoc. intros Hy. apply Hs2. congruence.
Qed.

(** Lists of children elsewhere do not see the store. *)
Lemma kids_elsewhere st st' root r l1 l2 l :
  tree st -> kids st root (l1 ++ l2) -> kids st r l -> r <> root ->
  child_of st' r = child_of st r ->
  (forall y, parent_of st y = Some (Some r) -> slot_of l1 <> SNext y -> sib_of st' y = sib_of st y) -> kids st' r l.
Proof.
  intros Ht Hroot (c & Ec & Hc) Hne Hch Hsib. exists c. split; [by rewrite Hch|]. eapply seg_ext; [|exact Hc].
  intros x Hx.
  assert (Hp : parent_of st x = Some (Some r)).
  { destruct (tr_kids _ Ht r) as (l' & Hk & _ & Hall).
    - by eapply proj_known.
    - apply Hall. rewrite (kids_unique st r l l'); [done|by exists c|done]. }
  apply Hsib; [done|]. intros E.
  destruct (tr_kids _ Ht root) as (l' & Hk & _ & Hall).
  { by eapply kids_root. }
  rewrite (kids_unique _ _ _ _ Hroot Hk) in Hall. destruct (Hall x) as [Hpx _].
  { destruct l1 as [|z l1 _] using rev_ind; [done|]. rewrite slot_of_snoc in E. injection E as ->. set_solver. }
  congruence.
Qed.

(** ** Linking and unlinking a child *)

(** [new] was linked under [root], between [l1] and [l2]; nothing else moved. *)
Record linked (st st' : store) (root new : oid) (l1 l2 : list oid) : Prop := {
  ln_rng : forall y, rng st' y = rng st y;
  ln_kids : kids st' root (l1 ++ new :: l2);
  ln_else : forall r l, r <> root -> kids st r l -> kids st' r l;
  ln_new : parent_of st' new = Some (Some root);
  ln_parent : forall y, y <> new -> parent_of st' y = parent_of st y
}.

Lemma slot_of_in l y : slot_of l = SNext y -> y ∈ l.
Proof. destruct l as [|x l _] using rev_ind; [done|]. rewrite slot_of_snoc. intros [= ->]. set_solver. Qed.

Lemma child_parent st r l c : tree st -> kids st r l -> c ∈ l -> parent_of st c = Some (Some r) /\ inside st r c.
Proof.
  intros Ht Hk Hc. destruct (tr_kids _ Ht r) as (l' & Hk' & _ & Hall); [by eapply kids_root|].
  apply Hall. by rewrite <- (kids_unique _ _ _ _ Hk' Hk).
Qed.

Lemma kids_sorted st r l : tree st -> kids st r l -> StronglySorted (before st) l.
Proof.
  intros Ht Hk. destruct (tr_kids _ Ht r) as (l' & Hk' & Hs & _); [by eapply kids_root|].
  by rewrite (kids_unique _ _ _ _ Hk' Hk).
Qed.

Lemma kids_split st r l1 l2 : kids st r (l1 ++ l2) ->
  exists c, child_of st r = Some c /\ seg (sib_of st) c l1 (head l2) /\ chain (sib_of st) (head l2) l2.
Proof.
  intros (c & Ec & Hc). pose proof (chain_suffix _ _ _ _ Hc) as Hl2. apply seg_app in Hc as (o & H1 & H2).
  exists c. split; [done|]. split; [|done]. by rewrite <- (chain_head _ _ _ H2).
Qed.

Lemma resource_link_ok st root new l1 l2 :
  tree st -> kids st root (l1 ++ l2) -> parent_of st new = Some None -> new <> root ->
  exists st', link st root (slot_of l1) (head l2) new = Some st' /\ linked st st' root new l1 l2.
Proof.
  intros Ht Hk Hpn Hne.
  assert (Hnk : forall r l, kids st r l -> new ∉ l)
    by (intros r l Hl Hin; destruct (child_parent _ _ _ _ Ht Hl Hin); congruence).
  pose proof (Hnk _ _ Hk) as Hnew. unfold link.
  destruct (upd_sibling st new (head l2)) as (st1 & -> & R1 & P1 & C1 & S1 & S1'); [by eapply proj_known|]. simpl.
  destruct (kids_split _ _ _ _ Hk) as (c & Ec & Hs1 & Hs2).
  assert (Hk1 : kids st1 root (l1 ++ l2)).
  { exists c. split; [by rewrite C1|]. apply seg_app. exists (head l2).
    split; (eapply seg_ext; [|eassumption]); intros x Hx; apply S1'; set_solver. }
  destruct (resource_write_ok st1 root l1 l2 (Some new) Hk1) as (st2 & -> & R2 & P2 & C2 & S2 & (c2 & Ec2 & Hs)). simpl.
  destruct (upd_parent st2 new (Some root)) as (st3 & -> & R3 & C3 & S3 & P3 & P3').
  { apply (rng_known st1); [done|]. apply (rng_known st); [done|]. by eapply proj_known. }
  assert (Hsl : forall y, y ∉ l1 -> slot_of l1 <> SNext y) by (intros y Hy E; by apply Hy, slot_of_in).
  assert (Hdis : forall y, y ∈ l2 -> y ∉ l1).
  { intros y Hy Hy'. apply kids_NoDup, NoDup_app in Hk as (_ & Hd & _). by apply (Hd y). }
  exists st3. split; [done|]. split.
  - intros y. by rewrite R3, R2, R1.
  - exists c2. split; [by rewrite C3|]. apply seg_app. exists (Some new). split; [eapply seg_ext; [|exact Hs]; auto|].
    simpl. split; [done|]. exists (head l2). split; [rewrite S3, S2; [done|apply Hsl; set_solver]|].
    eapply seg_ext; [|exact Hs2]. intros x Hx. rewrite S3, S2 by (by apply Hsl, Hdis). apply S1'. set_solver.
  - intros r l Hr Hl. eapply (kids_elsewhere st st3 root r l1 l2); try done.
    + by rewrite C3, C2, C1.
    + intros y Hy Hys. rewrite S3, S2 by done. apply S1'. intros ->. congruence.
  - done.
  - intros y Hy. by rewrite P3', P2, P1.
Qed.

Lemma before_ext st st' a b : (forall y, rng st' y = rng st y) -> before st a b -> before st' a b.
Proof. unfold before. intros H. destruct (rng_lo st st' a (H a)) as [_ ->]. by destruct (rng_lo st st' b (H b)) as [-> _]. Qed.

Lemma inside_ext st st' r c : (forall y, rng st' y = rng st y) -> inside st r c -> inside st' r c.
Proof.
  unfold inside. intros H. destruct (rng_lo st st' r (H r)) as [-> ->]. by destruct (rng_lo st st' c (H c)) as [-> ->].
Qed.

Lemma sorted_before_ext st st' l : (forall y, rng st' y = rng st y) ->
  StronglySorted (before st) l -> StronglySorted (before st') l.
Proof.
  intros H. induction 1 as [|x l _ IH Hx]; constructor; [done|]. eapply Forall_impl; [exact Hx|]. intros y. by apply before_ext.
Qed.

Lemma sorted_insert st l1 l2 new :
  StronglySorted (before st) (l1 ++ l2) -> Forall (fun x => before st x new) l1 ->
  Forall (before st new) l2 -> StronglySorted (before st) (l1 ++ new :: l2).
Proof.
  intros Hs H1 H2. apply StronglySorted_app in Hs as (Hx & Hs1 & Hs2). apply StronglySorted_app. split; [|split; [done|by constructor]].
  intros x y Hx1 [->|Hy]%elem_of_cons; [|by apply Hx]. rewrite Forall_forall in H1. by apply H1.
Qed.

(** [new] is not [root] or above it. *)
Definition apart (st : store) (root new : oid) : Prop := forall l, chain (parent_of st) (Some root) l -> new ∉ l.

Lemma apart_ne st root new : tree st -> known st root -> apart st root new -> new <> root.
Proof.
  intros Ht Hk Ha ->. destruct (tr_path _ Ht root Hk) as [l Hl]. apply (Ha l Hl).
  destruct l; [done|]. destruct Hl as [[= ->] _]. set_solver.
Qed.

Lemma path_linked st st' root new r :
  tree st -> parent_of st new = Some None -> parent_of st' new = Some (Some root) ->
  (forall y, y <> new -> parent_of st' y = parent_of st y) -> apart st root new -> known st root ->
  known st r -> exists l, chain (parent_of st') (Some r) l.
Proof.
  intros Ht Hp0 Hp Hpy Ha Hkr Hk. destruct (tr_path _ Ht r Hk) as [l Hl]. destruct (tr_path _ Ht root Hkr) as [lr Hlr].
  pose proof (chain_NoDup _ _ _ Hl) as Hnd. destruct (decide (new ∈ l)) as [Hin|Hni].
  - apply list_elem_of_split in Hin as (a & b & ->). apply NoDup_app in Hnd as (_ & Hd & _).
    apply seg_app in Hl as (o & H1 & (-> & o1 & E & _)). rewrite Hp0 in E. injection E as <-.
    exists (a ++ new :: lr). apply seg_app. exists (Some new). split.
    + eapply seg_ext; [|exact H1]. intros y Hy. apply Hpy. intros ->. apply (Hd new Hy). set_solver.
    + simpl. split; [done|]. exists (Some root). split; [done|]. eapply seg_ext; [|exact Hlr].
      intros y Hy. apply Hpy. intros ->. by apply (Ha lr).
  - exists l. eapply seg_ext; [|exact Hl]. intros y Hy. apply Hpy. by intros ->.
Qed.

Lemma tree_linked st st' root new l1 l2 :
  tree st -> linked st st' root new l1 l2 -> kids st root (l1 ++ l2) -> inside st root new ->
  Forall (fun x => before st x new) l1 -> Forall (before st new) l2 -> parent_of st new = Some None ->
  apart st root new -> tree st'.
Proof.
  intros Ht [Hr Hk He Hpn Hpy] Hk0 Hin H1 H2 Hp0 Hap. split.
  - intros r Hkn. apply (rng_known st st' r (Hr r)) in Hkn. destruct (decide (r = root)) as [->|Hne].
    + exists (l1 ++ new :: l2). split; [done|]. split.
      * apply (sorted_before_ext st st'); [done|]. apply sorted_insert; [by eapply kids_sorted|done|done].
      * intros c Hc. destruct (decide (c = new)) as [->|Hcn]; [split; [done|by apply (inside_ext st)]|].
        destruct (child_parent st root (l1 ++ l2) c Ht Hk0) as [Hcp Hci]; [set_solver|].
        split; [by rewrite Hpy|by apply (inside_ext st)].
    + destruct (tr_kids _ Ht r Hkn) as (l & Hkl & Hs & Hall). exists l. split; [by apply He|].
      split; [by eapply sorted_before_ext|]. intros c Hc. destruct (Hall c Hc) as [Hcp Hci].
      split; [rewrite Hpy; [done|intros ->; congruence]|by apply (inside_ext st)].
  - intros c p Hp. destruct (decide (c = new)) as [->|Hcn].
    + rewrite Hpn in Hp. injection Hp as <-. exists (l1 ++ new :: l2). split; [done|set_solver].
    + rewrite Hpy in Hp by done. destruct (tr_parent _ Ht c p Hp) as (l & Hkl & Hcl).
      destruct (decide (p = root)) as [->|Hne]; [|exists l; by split; [apply He|]].
      exists (l1 ++ new :: l2). split; [done|]. rewrite (kids_unique _ _ _ _ Hk0 Hkl) in Hcl. set_solver.
  - intros r Hkn. apply (path_linked st st' root new); try done; [by eapply kids_root|].
    by apply (rng_known st st' r (Hr r)).
  - intros r Hkn. destruct (rng_lo st st' r (Hr r)) as [-> ->]. apply Ht. by apply (rng_known st st' r (Hr r)).
Qed.

(** ** Requesting *)

Lemma read_ok st root l1 l2 : kids st root (l1 ++ l2) -> read st root (slot_of l1) = Some (head l2).
Proof.
  intros (c & Ec & Hs & _)%kids_split. unfold read. unfold child_of in Ec. apply fmap_Some in Ec as (rr & -> & ->).
  simpl. by apply seg_read.
Qed.

Lemma lookup_bounds st x r : st !! x = Some r -> start r = lo st x /\ end_ r = hi st x.
Proof. unfold lo, hi. by intros ->. Qed.

Definition overlap (st : store) (a b : oid) : Prop := lo st a <= hi st b /\ lo st b <= hi st a.

(** The outcome of a walk over [l2] for [new]: the first overlapping child, or
    the place found and taken. *)
Inductive request_result (st : store) (root new : oid) (l1 l2 : list oid) : option (store * option oid) -> Prop :=
  | rq_conflict a t b :
      l2 = a ++ t :: b -> Forall (fun x => before st x new) a -> overlap st new t ->
      request_result st root new l1 l2 (Some (st, Some t))
  | rq_linked a b st' :
      l2 = a ++ b -> Forall (fun x => before st x new) a -> Forall (before st new) b ->
      linked st st' root new (l1 ++ a) b -> request_result st root new l1 l2 (Some (st', None)).

Lemma request_here st root new l1 l2 :
  tree st -> kids st root (l1 ++ l2) -> parent_of st new = Some None -> new <> root ->
  Forall (before st new) l2 ->
  request_result st root new l1 l2 (st ← link st root (slot_of l1) (head l2) new; Some (st, None)).
Proof.
  intros Ht Hk Hp Hne Hb. destruct (resource_link_ok st root new l1 l2 Ht Hk Hp Hne) as (st' & -> & Hl). simpl.
  apply (rq_linked _ _ _ _ _ [] l2); [done|constructor|done|by rewrite app_nil_r].
Qed.

Lemma request_loop_ok st root new l2 : forall fuel l1,
  tree st -> kids st root (l1 ++ l2) -> parent_of st new = Some None -> new <> root ->
  lo st new <= hi st new -> (length l2 <= fuel)%nat ->
  request_result st root new l1 l2 (request_loop fuel st root new (lo st new) (hi st new) (slot_of l1)).
Proof.
  induction l2 as [|t l2 IH]; intros fuel l1 Ht Hk Hp Hne Hle Hfuel.
  { replace (request_loop _ _ _ _ _ _ _) with (st ← link st root (slot_of l1) None new; Some (st, None (A := oid)))
      by (destruct fuel; simpl; by rewrite (read_ok _ _ _ _ Hk)).
    apply (request_here st root new l1 []); done. }
  simpl in Hfuel. destruct fuel as [|fuel]; [lia|]. simpl. rewrite (read_ok _ _ _ _ Hk). simpl.
  destruct (kids_known st root _ t Hk) as [rt Et]; [set_solver|]. rewrite Et. simpl.
  destruct (lookup_bounds _ _ _ Et) as [-> ->]. case_bd as Hgt; [|case_bd as Hlt].
  - apply (request_here st root new l1 (t :: l2)); try done. constructor; [unfold before; lia|].
    pose proof (kids_sorted _ _ _ Ht Hk) as (_ & _ & Hs)%StronglySorted_app.
    inversion Hs as [|? ? _ Hf]; subst. apply Forall_forall. intros x Hx. rewrite Forall_forall in Hf.
    specialize (Hf x Hx). destruct (child_parent st root _ t Ht Hk) as [_ (_ & ? & _)]; [set_solver|].
    unfold before in *. lia.
  - pose proof (IH fuel (l1 ++ [t])) as Hr. rewrite <- app_assoc, slot_of_snoc in Hr.
    specialize (Hr Ht Hk Hp Hne Hle ltac:(lia)). revert Hr. generalize (request_loop fuel st root new (lo st new) (hi st new) (SNext t)).
    intros res [a u b -> Ha Ho|a b st' -> Ha Hb Hl].
    + apply (rq_conflict _ _ _ _ _ (t :: a) u b); [done|by constructor|done].
    + apply (rq_linked _ _ _ _ _ (t :: a) b); [done|by constructor|done|by rewrite <- app_assoc in Hl].
  - apply (rq_conflict _ _ _ _ _ [] t l2); [done|constructor|]. unfold overlap. lia.
Qed.

Lemma not_own_child st r l : tree st -> kids st r l -> r ∉ l.
Proof.
  intros Ht Hk Hin. destruct (child_parent _ _ _ _ Ht Hk Hin) as [Hp _].
  destruct (tr_path _ Ht r (kids_root _ _ _ Hk)) as [p Hpath]. pose proof (chain_NoDup _ _ _ Hpath) as Hnd.
  destruct p as [|x p]; [done|]. destruct Hpath as ([= ->] & o & E & Hc). rewrite Hp in E. injection E as <-.
  destruct p as [|y p]; [done|]. destruct Hc as ([= ->] & _). apply NoDup_cons in Hnd as [Hn _]. set_solver.
Qed.

(** What [__request_resource] does with [new] under [root]. *)
Definition requested (st : store) (root new : oid) (l : list oid) (st' : store) (conflict : option oid) : Prop :=
  match conflict with
  | None => tree st' /\ inside st root new /\ (forall c, c ∈ l -> ~ overlap st new c) /\
      exists l1 l2, l = l1 ++ l2 /\ linked st st' root new l1 l2
  | Some c => st' = st /\ if bool_decide (c = root) then ~ inside st root new
                        else inside st root new /\ c ∈ l /\ overlap st new c /\
                          exists l1 l2, l = l1 ++ c :: l2 /\ Forall (fun x => before st x new) l1
  end.

Lemma request_ok st root new l :
  tree st -> kids st root l -> parent_of st new = Some None -> apart st root new ->
  exists st' conflict, __request_resource st root new = Some (st', conflict) /\ requested st root new l st' conflict.
Proof.
  intros Ht Hk Hp Hap. pose proof (apart_ne _ _ _ Ht (kids_root _ _ _ Hk) Hap) as Hne. unfold __request_resource.
  destruct (kids_root _ _ _ Hk) as [rr Er]. destruct (proj_known _ _ _ _ Hp) as [rn En]. rewrite Er, En. simpl.
  destruct (lookup_bounds _ _ _ Er) as [-> ->]. destruct (lookup_bounds _ _ _ En) as [-> ->].
  assert (Hout : ~ inside st root new -> requested st root new l st (Some root))
    by (intros Hn; simpl; by rewrite bool_decide_eq_true_2).
  case_bd as H1; [eexists _, _; split; [done|]; apply Hout; unfold inside; lia|].
  case_bd as H2; [eexists _, _; split; [done|]; apply Hout; unfold inside; lia|].
  case_bd as H3; [eexists _, _; split; [done|]; apply Hout; unfold inside; lia|].
  assert (Hin : inside st root new) by (unfold inside; lia).
  change SHead with (slot_of []).
  destruct (request_loop_ok st root new l (size st) []) as [a t b -> Ha Ho|a b st' -> Ha Hb Hl];
    try done; try lia; [by eapply kids_size|..]; eexists _, _; (split; [done|]).
  - simpl. split; [done|]. rewrite bool_decide_eq_false_2; [split; [done|]; split; [set_solver|]; split; [done|by exists a, b]|].
    intros ->. apply (not_own_child st root _ Ht Hk). set_solver.
  - simpl. split; [|split; [done|split; [|by exists a, b]]].
    + eapply (tree_linked st st' root new a b); try done.
    + intros c Hc [Ho1 Ho2]. rewrite Forall_forall in Ha, Hb. unfold before in *.
      apply elem_of_app in Hc as [Hc|Hc]; [specialize (Ha c Hc)|specialize (Hb c Hc)]; lia.
Qed.

End ResourceTop.

(** * The resource tree: releasing, allocating, adjusting *)

Local Open Scope Z_scope.
Local Open Scope kernel_scope.

Module ResourceOps.
Import Resource ResourceTop.

(** ** Releasing *)

Record unlinked (st st' : store) (par old : oid) (l1 l2 : list oid) : Prop := {
  un_rng : forall y, rng st' y = rng st y;
  un_kids : kids st' par (l1 ++ l2);
  un_else : forall r l, r <> par -> kids st r l -> kids st' r l;
  un_old : parent_of st' old = Some None;
  un_parent : forall y, y <> old -> parent_of st' y = parent_of st y
}.

Lemma unlink_ok st par old l1 l2 :
  tree st -> kids st par (l1 ++ old :: l2) ->
  exists st1 st', write st par (slot_of l1) (head l2) = Some st1 /\ upd st1 old (set_parent None) = Some st' /\
    unlinked st st' par old l1 l2.
Proof.
  intros Ht Hk. pose proof (kids_NoDup _ _ _ Hk) as (Hnd1 & Hdis & Hnd2)%NoDup_app.
  destruct (resource_write_ok st par l1 (old :: l2) (head l2) Hk) as (st1 & E1 & R1 & P1 & C1 & S1 & (c & Ec & Hs)).
  destruct (upd_parent st1 old None) as (st' & E2 & R2 & C2 & S2 & P2 & P2').
  { apply (rng_known st); [done|]. eapply kids_known; [exact Hk|set_solver]. }
  exists st1, st'. split; [done|]. split; [done|]. split.
  - intros y. by rewrite R2, R1.
  - exists c. split; [by rewrite C2|]. apply seg_app. exists (head l2). split; [eapply seg_ext; [|exact Hs]; auto|].
    destruct (kids_split st par (l1 ++ [old]) l2) as (c' & _ & _ & Hc); [by rewrite <- app_assoc|].
    eapply seg_ext; [|exact Hc]. intros x Hx. rewrite S2. apply S1. intros E%slot_of_in. apply (Hdis x E). set_solver.
  - intros r l Hr Hl. eapply (kids_elsewhere st st' par r l1 (old :: l2)); try done.
    + by rewrite C2, C1.
    + intros y _ Hy. by rewrite S2, S1.
  - done.
  - intros y Hy. by rewrite P2', P1.
Qed.

Lemma sorted_remove {A} (R : A -> A -> Prop) l1 x l2 : StronglySorted R (l1 ++ x :: l2) -> StronglySorted R (l1 ++ l2).
Proof.
  intros (Hx & H1 & H2)%StronglySorted_app. inversion H2; subst. apply StronglySorted_app.
  split; [|done]. intros y z Hy Hz. apply Hx; [done|]. by right.
Qed.

Lemma path_unlinked st st' old r :
  tree st -> parent_of st' old = Some None -> (forall y, y <> old -> parent_of st' y = parent_of st y) ->
  known st r -> exists l, chain (parent_of st') (Some r) l.
Proof.
  intros Ht Hp Hpy Hk. destruct (tr_path _ Ht r Hk) as [l Hl]. pose proof (chain_NoDup _ _ _ Hl) as Hnd.
  destruct (decide (old ∈ l)) as [Hin|Hni].
  - apply list_elem_of_split in Hin as (a & b & ->). apply NoDup_app in Hnd as (_ & Hd & _).
    apply seg_app in Hl as (o & H1 & (-> & _)). exists (a ++ [old]). apply seg_app. exists (Some old). split.
    + eapply seg_ext; [|exact H1]. intros y Hy. apply Hpy. intros ->. apply (Hd old Hy). set_solver.
    + simpl. eauto.
  - exists l. eapply seg_ext; [|exact Hl]. intros y Hy. apply Hpy. by intros ->.
Qed.

Lemma tree_unlinked st st' par old l1 l2 :
  tree st -> kids st par (l1 ++ old :: l2) -> unlinked st st' par old l1 l2 -> tree st'.
Proof.
  intros Ht Hk0 [Hr Hk He Hpo Hpy]. pose proof (kids_NoDup _ _ _ Hk0) as Hnd.
  assert (Hno : old ∉ l1 ++ l2).
  { rewrite <- Permutation_middle in Hnd. by apply NoDup_cons in Hnd as [? _]. }
  split.
  - intros r Hkn. apply (rng_known st st' r (Hr r)) in Hkn. destruct (decide (r = par)) as [->|Hne].
    + exists (l1 ++ l2). split; [done|]. split.
      * apply (sorted_before_ext st st'); [done|]. by eapply sorted_remove, kids_sorted.
      * intros c Hc. destruct (child_parent st par (l1 ++ old :: l2) c Ht Hk0) as [Hcp Hci]; [set_solver|].
        split; [rewrite Hpy; [done|by intros ->]|by apply (inside_ext st)].
    + destruct (tr_kids _ Ht r Hkn) as (l & Hkl & Hs & Hall). exists l. split; [by apply He|].
      split; [by eapply sorted_before_ext|]. intros c Hc. destruct (Hall c Hc) as [Hcp Hci].
      split; [|by apply (inside_ext st)]. rewrite Hpy; [done|]. intros ->.
      destruct (child_parent st par _ old Ht Hk0) as [? _]; [set_solver|]. congruence.
  - intros c p Hp. destruct (decide (c = old)) as [->|Hcn]; [rewrite Hpo in Hp; done|].
    rewrite Hpy in Hp by done. destruct (tr_parent _ Ht c p Hp) as (l & Hkl & Hcl).
    destruct (decide (p = par)) as [->|Hne]; [|exists l; by split; [apply He|]].
    exists (l1 ++ l2). split; [done|]. rewrite (kids_unique _ _ _ _ Hk0 Hkl) in Hcl. set_solver.
  - intros r Hkn. apply (path_unlinked st st' old); try done. by apply (rng_known st st' r (Hr r)).
  - intros r Hkn. destruct (rng_lo st st' r (Hr r)) as [-> ->]. apply Ht. by apply (rng_known st st' r (Hr r)).
Qed.

Lemma resource_release_loop_ok st par old l2 : forall fuel l1,
  tree st -> kids st par (l1 ++ l2) -> old ∈ l2 -> (length l2 <= fuel)%nat ->
  exists a b st', l2 = a ++ old :: b /\ release_loop fuel st par old (slot_of l1) = Some (st', 0) /\
    unlinked st st' par old (l1 ++ a) b.
Proof.
  induction l2 as [|t l2 IH]; intros fuel l1 Ht Hk Hin Hfuel; [set_solver|].
  simpl in Hfuel. destruct fuel as [|fuel]; [lia|]. simpl. rewrite (read_ok _ _ _ _ Hk). simpl. case_bd as Et.
  - subst t. destruct (kids_known st par _ old Hk) as [ro Eo]; [set_solver|]. rewrite Eo. simpl.
    destruct (unlink_ok st par old l1 l2 Ht Hk) as (st1 & st' & E1 & E2 & Hu).
    assert (sibling ro = head l2) as ->.
    { destruct (kids_split st par (l1 ++ [old]) l2) as (c & _ & Hs & _); [by rewrite <- app_assoc|].
      apply seg_read in Hs. rewrite slot_of_snoc in Hs. simpl in Hs. unfold sib_of in Hs. rewrite Eo in Hs.
      by injection Hs. }
    rewrite E1. simpl. rewrite E2. simpl. exists [], l2, st'. split; [done|]. split; [done|]. by rewrite app_nil_r.
  - destruct (IH fuel (l1 ++ [t])) as (a & b & st' & -> & E & Hu); try done; [by rewrite <- app_assoc|set_solver|lia|].
    rewrite slot_of_snoc in E. exists (t :: a), b, st'. split; [done|]. split; [done|]. by rewrite <- app_assoc in Hu.
Qed.

Lemma release_ok st par old :
  tree st -> parent_of st old = Some (Some par) ->
  exists l1 l2 st', kids st par (l1 ++ old :: l2) /\ __release_resource st old = Some (st', 0) /\
    unlinked st st' par old l1 l2 /\ tree st'.
Proof.
  intros Ht Hp. destruct (tr_parent _ Ht old par Hp) as (l & Hk & Hin).
  unfold __release_resource. unfold parent_of in Hp. apply fmap_Some in Hp as (ro & -> & Ep). simpl. rewrite <- Ep. simpl.
  destruct (resource_release_loop_ok st par old l (size st) []) as (a & b & st' & -> & E & Hu); try done; [by eapply kids_size|].
  exists a, b, st'. split; [done|]. split; [exact E|]. split; [done|]. by eapply tree_unlinked.
Qed.

End ResourceOps.
