(* ===== verification/ResourceAlloc.v ===== *)
(** * The resource tree: finding room *)

From Stdlib Require Import ZArith Lia.
From stdpp Require Import base option gmap sorting list.
From S2P Require Import Prelude Chain Resource ResourceTop.

Local Open Scope Z_scope.
Local Open Scope kernel_scope.

Module ResourceAlloc.
Import Resource ResourceTop ResourceOps.

(** ** Changing a range *)

Lemma upd_range st x s e : known st x -> exists st', upd st x (set_range s e) = Some st' /\
  (forall y, parent_of st' y = parent_of st y) /\ (forall y, child_of st' y = child_of st y) /\
  (forall y, sib_of st' y = sib_of st y) /\ lo st' x = s /\ hi st' x = e /\
  (forall y, y <> x -> rng st' y = rng st y) /\ (forall y, known st' y <-> known st y).
Proof.
  intros [r Hr]. unfold upd. rewrite Hr. simpl. eexists. split; [done|].
  split; [solve_upd x Hr|]. split; [solve_upd x Hr|]. split; [solve_upd x Hr|].
  unfold lo, hi. rewrite lookup_insert_eq. split; [done|]. split; [done|]. split.
  - intros y Hy. unfold rng. by rewrite lookup_insert_ne.
  - intros y. unfold known. destruct (decide (y = x)) as [->|]; [by rewrite lookup_insert_eq, Hr|by rewrite lookup_insert_ne].
Qed.

Lemma sorted_before_on st st' l : (forall y, y ∈ l -> rng st' y = rng st y) ->
  StronglySorted (before st) l -> StronglySorted (before st') l.
Proof.
  intros H. induction 1 as [|x l _ IH Hx]; constructor; [apply IH; set_solver|]. rewrite Forall_forall in *.
  intros y Hy. specialize (Hx y Hy). unfold before in *.
  destruct (rng_lo st st' x) as [_ ->]; [apply H; set_solver|]. by destruct (rng_lo st st' y) as [-> _]; [apply H; set_solver|].
Qed.

(** Where [x] can be given the range from [s] to [e]: around its children, and
    in its place among its siblings. *)
Definition fits (st : store) (x : oid) (s e : Z) : Prop :=
  (forall l c, kids st x l -> c ∈ l -> s <= lo st c /\ hi st c <= e) /\
  (forall p l1 l2, kids st p (l1 ++ x :: l2) -> lo st p <= s /\ s <= e /\ e <= hi st p /\
     (forall y, y ∈ l1 -> hi st y < s) /\ (forall y, y ∈ l2 -> e < lo st y)).

Lemma tree_set_range st st' x s e :
  tree st -> 0 <= s < two32 -> 0 <= e < two32 -> fits st x s e -> known st x ->
  upd st x (set_range s e) = Some st' -> tree st'.
Proof.
  intros Ht Hsw Hew [Hc Hp] Hx E. destruct (upd_range st x s e Hx) as (st2 & E2 & P & C & S & Hlo & Hhi & R & K).
  rewrite E in E2. injection E2 as <-.
  assert (Hkids : forall r l, kids st' r l <-> kids st r l).
  { intros r l. unfold kids. setoid_rewrite C. split; intros (c & ? & Hch); exists c; (split; [done|]);
      (eapply seg_ext; [|exact Hch]); intros; by rewrite S. }
  assert (Hb : forall y, y <> x -> lo st' y = lo st y /\ hi st' y = hi st y) by (intros y Hy; by apply rng_lo, R).
  split.
  - intros r Hk%K. destruct (tr_kids _ Ht r Hk) as (l & Hl & Hs & Hall). exists l. split; [by apply Hkids|].
    destruct (decide (x ∈ l)) as [Hin|Hni].
    + pose proof Hin as (l1 & l2 & ->)%list_elem_of_split. destruct (Hp r l1 l2 Hl) as (H1 & H2 & H3 & H4 & H5).
      assert (r <> x) as Hrx by (intros ->; by apply (not_own_child _ _ _ Ht Hl)).
      destruct (Hb r Hrx) as [Er1 Er2]. pose proof (kids_NoDup _ _ _ Hl) as (_ & Hd & Hnd2)%NoDup_app.
      apply NoDup_cons in Hnd2 as [Hx2 _]. assert (Hx1 : x ∉ l1) by (intros ?; by apply (Hd x); [|set_solver]).
      split.
      * apply sorted_insert.
        -- apply (sorted_before_on st); [|by eapply sorted_remove]. intros y Hy. apply R. set_solver.
        -- apply Forall_forall. intros y Hy. unfold before. rewrite Hlo.
           destruct (Hb y) as [_ ->]; [set_solver|]. by apply H4.
        -- apply Forall_forall. intros y Hy. unfold before. rewrite Hhi.
           destruct (Hb y) as [-> _]; [set_solver|]. by apply H5.
      * intros c Hcin. destruct (Hall c Hcin) as [Hcp Hci]. rewrite P. split; [done|]. unfold inside in *.
        rewrite Er1, Er2. destruct (decide (c = x)) as [->|Hcx]; [lia|]. by destruct (Hb c Hcx) as [-> ->].
    + split; [apply (sorted_before_on st); [|done]; intros y Hy; apply R; by intros ->|].
      intros c Hcin. destruct (Hall c Hcin) as [Hcp Hci]. rewrite P. split; [done|]. unfold inside in *.
      destruct (Hb c) as [-> ->]; [by intros ->|]. destruct (decide (r = x)) as [->|Hrx].
      * rewrite Hlo, Hhi. destruct (Hc l c Hl Hcin). lia.
      * by destruct (Hb r Hrx) as [-> ->].
  - intros c p Hcp. rewrite P in Hcp. destruct (tr_parent _ Ht c p Hcp) as (l & Hl & Hin). exists l. by rewrite Hkids.
  - intros r Hk%K. destruct (tr_path _ Ht r Hk) as [l Hl]. exists l. eapply seg_ext; [|exact Hl]. intros. apply P.
  - intros r Hk%K. destruct (decide (r = x)) as [->|Hrx]; [by rewrite Hlo, Hhi|].
    destruct (Hb r Hrx) as [-> ->]. by apply Ht.
Qed.

(** ** Alignment *)

Lemma ALIGN_ok x k : 0 <= x -> 0 <= k < 32 -> x + 2 ^ k <= two32 ->
  ALIGN x (2 ^ k) mod 2 ^ k = 0 /\ x <= ALIGN x (2 ^ k) < two32 /\
  forall s, x <= s -> s mod 2 ^ k = 0 -> ALIGN x (2 ^ k) <= s.
Proof.
  intros Hx Hk Hw. pose proof (Z.pow_pos_nonneg 2 k ltac:(lia) ltac:(lia)) as Hpos.
  assert (Hmask : forall y, 0 <= y < two32 -> Z.land y (u32 (- 2 ^ k)) = y / 2 ^ k * 2 ^ k)
    by (intros y Hy; apply land_high_mask; [done|lia]).
  revert Hpos Hw Hmask. generalize (2 ^ k). clear k Hk. intros a Hpos Hw Hmask. unfold ALIGN.
  replace (Z.lnot (a - 1)) with (- a) by (pose proof (Z.add_lnot_diag (a - 1)); lia).
  rewrite (u32_small (x + (a - 1))) by (unfold two32 in *; lia). rewrite Hmask by (unfold two32 in *; lia).
  pose proof (Z.div_mod (x + (a - 1)) a ltac:(lia)) as Hd. pose proof (Z.mod_pos_bound (x + (a - 1)) a ltac:(lia)) as Hm.
  split; [apply Z_mod_mult|]. split; [unfold two32 in *; lia|].
  intros s Hs Hsm. apply Z.mod_divide in Hsm as [q ->]; [|lia]. apply Z.mul_le_mono_nonneg_r; [lia|].
  apply Z.lt_succ_r, Z.div_lt_upper_bound; lia.
Qed.

(** ** Finding a gap *)

(** What the caller asks for: [size_] units from [min] to [max], aligned to
    [2^k].  Rounding up the places a gap may start at, which are the root's
    start, [min] and the ends of the children, does not wrap. *)
Record asked (st : store) (root : oid) (size_ min max k : Z) : Prop := {
  as_k : 0 <= k < 32;
  as_size : 1 <= size_ < two32;
  as_min : 0 <= min /\ min + 2 ^ k <= two32;
  as_max : 0 <= max < two32;
  as_root : lo st root <= hi st root /\ lo st root + 2 ^ k <= two32;
  as_kids : forall c, parent_of st c = Some (Some root) -> hi st c + 1 + 2 ^ k <= two32
}.

(** The range from [s] is as asked for, inside [root]. *)
Definition candidate (st : store) (root : oid) (size_ min max k s : Z) : Prop :=
  s mod 2 ^ k = 0 /\ min <= s /\ lo st root <= s /\ s + size_ - 1 <= max /\ s + size_ - 1 <= hi st root.

(** The room the search wants: a gap of a single unit is not seen. *)
Definition room (size_ : Z) : Z := Z.max 2 size_.

Definition clear_of (st : store) (s e : Z) (c : oid) : Prop := e < lo st c \/ hi st c < s.

#[export] Instance clear_of_dec st s e c : Decision (clear_of st s e c).
Proof. unfold clear_of. apply _. Defined.

Section find.
Context (st : store) (root : oid) (size_ min max k : Z).
Hypothesis (Hask : asked st root size_ min max k).
Implicit Types (l : list oid) (ns : Z).

(** One round: the gap from [ns] to [ne]. *)
Lemma gap_ok ns ne :
  0 <= ns -> ns + 2 ^ k <= two32 -> 0 <= ne < two32 ->
  let a := ALIGN (if bool_decide (ns < min) then min else ns) (2 ^ k) in
  let b := if bool_decide (ne > max) then max else ne in
  a mod 2 ^ k = 0 /\ min <= a /\ ns <= a < two32 /\ b <= max /\ b <= ne /\
  (bool_decide (a < b) && bool_decide (b -u a >= size_ -u 1) = true -> a + room size_ - 1 <= b) /\
  (bool_decide (a < b) && bool_decide (b -u a >= size_ -u 1) = false ->
   forall s, s mod 2 ^ k = 0 -> min <= s -> ns <= s -> s + room size_ - 1 <= max -> ne < s + room size_ - 1).
Proof.
  destruct Hask as [Hk Hsz [Hmin Hmin'] Hmax _ _]. intros Hns Hns' Hne a b. subst a b. unfold room.
  set (x := if bool_decide (ns < min) then min else ns).
  assert (Hx : min <= x /\ ns <= x /\ 0 <= x /\ x + 2 ^ k <= two32 /\ (x = min \/ x = ns)) by (unfold x; case_bd; lia).
  clearbody x. destruct Hx as (Hx1 & Hx2 & Hx3 & Hx4 & Hx5).
  destruct (ALIGN_ok x k Hx3 Hk Hx4) as (Ha1 & Ha2 & Ha3). set (a := ALIGN x (2 ^ k)) in *. clearbody a.
  set (b := if bool_decide (ne > max) then max else ne).
  assert (Hb : b <= max /\ b <= ne /\ 0 <= b < two32 /\ (b = max \/ b = ne)) by (unfold b; case_bd; lia). clearbody b.
  split; [done|]. split; [lia|]. split; [lia|]. split; [lia|]. split; [lia|].
  rewrite (u32_small (size_ - 1)) by (unfold two32 in *; lia). split.
  - intros [H1%bool_decide_eq_true H2%bool_decide_eq_true]%andb_true_iff.
    rewrite u32_small in H2 by (unfold two32 in *; lia). lia.
  - intros Hf s Hs1 Hs2 Hs3 Hs4. destruct (decide (ne < s + Z.max 2 size_ - 1)) as [|Hge]; [done|exfalso].
    assert (a <= s) by (apply Ha3; [lia|done]).
    apply andb_false_iff in Hf as [Hf|Hf]; apply bool_decide_eq_false in Hf; [lia|].
    rewrite u32_small in Hf by (unfold two32 in *; lia). lia.
Qed.

Lemma find_loop_ok l : forall fuel this ns,
  chain (sib_of st) this l -> StronglySorted (before st) l ->
  (forall c, c ∈ l -> 0 < lo st c /\ ns <= lo st c /\ lo st c <= hi st c /\ hi st c <= hi st root /\
     hi st c + 1 + 2 ^ k <= two32) ->
  0 <= ns -> ns + 2 ^ k <= two32 -> 0 <= hi st root < two32 -> (length l <= fuel)%nat ->
  exists a b found, find_loop fuel st this (hi st root) ns size_ min max (2 ^ k) None = Some (a, b, found) /\
    (0 <= a < two32 /\ 0 <= b < two32) /\
    if found : bool then
      b = a + size_ - 1 /\ a mod 2 ^ k = 0 /\ min <= a /\ ns <= a /\ b <= max /\ b <= hi st root /\
      (forall c, c ∈ l -> clear_of st a b c)
    else forall s, s mod 2 ^ k = 0 -> min <= s -> ns <= s -> s + room size_ - 1 <= max -> s + room size_ - 1 <= hi st root ->
      exists c, c ∈ l /\ ~ clear_of st s (s + room size_ - 1) c.
Proof.
  pose proof (as_size _ _ _ _ _ _ Hask) as Hsz.
  assert (Hrm : size_ <= room size_ /\ 2 <= room size_) by (unfold room; lia).
  pose proof (Z.pow_pos_nonneg 2 k ltac:(lia) (proj1 (as_k _ _ _ _ _ _ Hask))) as Hpw.
  pose proof (as_max _ _ _ _ _ _ Hask) as Hmx.
  induction l as [|c l IH]; intros fuel this ns Hch Hs Hall Hns Hns' Hhi Hfuel.
  - unfold chain in Hch. simpl in Hch. subst this.
    destruct (gap_ok ns (hi st root) Hns Hns' ltac:(lia)) as (G1 & G2 & G3 & G4 & G5 & G6 & G7).
    set (a := ALIGN _ _) in *. set (b := if bool_decide (hi st root > max) then _ else _) in *.
    assert (Hb : 0 <= b < two32) by (unfold b; case_bd; lia).
    destruct fuel; simpl; fold a; fold b; (destruct (_ && _) eqn:Ef; eexists _, _, _; (split; [done|]); simpl).
    1,3: specialize (G6 eq_refl); rewrite u32_sub_l, u32_small by lia;
      split; [lia|]; repeat split; try done; try lia; set_solver.
    1,2: split; [lia|]; intros s H1 H2 H3 H4 H5; specialize (G7 eq_refl s H1 H2 H3 H4); lia.
  - destruct Hch as (-> & o & Ec & Hch). inversion Hs as [|? ? Hs' Hbef]; subst. simpl in Hfuel.
    destruct fuel as [|fuel]; [lia|]. unfold sib_of in Ec. apply fmap_Some in Ec as (rc & Ec & ->).
    destruct (lookup_bounds _ _ _ Ec) as [Elo Ehi]. destruct (Hall c ltac:(set_solver)) as (C1 & C0 & C2 & C3 & C4).
    destruct (gap_ok ns (lo st c - 1) Hns Hns' ltac:(lia)) as (G1 & G2 & G3 & G4 & G5 & G6 & G7).
    simpl. rewrite Ec. simpl. rewrite Elo, (u32_small (lo st c - 1)) by lia.
    set (a := ALIGN _ _) in *. set (b := if bool_decide (lo st c - 1 > max) then _ else _) in *.
    assert (Hb : 0 <= b < two32) by (unfold b; case_bd; lia).
    destruct (_ && _) eqn:Ef.
    + specialize (G6 eq_refl). eexists _, _, _. split; [done|]. simpl.
      rewrite u32_sub_l, u32_small by lia.
      split; [lia|]. repeat split; try done; try lia.
      intros d [->|Hd]%elem_of_cons; [left; lia|]. left. rewrite Forall_forall in Hbef. specialize (Hbef d Hd).
      unfold before in Hbef. lia.
    + rewrite Ehi, (u32_small (hi st c + 1)) by lia.
      destruct (IH fuel (sibling rc) (hi st c + 1) Hch Hs') as (a' & b' & found & -> & Hw & Hres);
        [|lia|lia|lia|lia|].
      { intros d Hd. destruct (Hall d ltac:(set_solver)) as (D1 & _ & D2 & D3 & D4). rewrite Forall_forall in Hbef.
        specialize (Hbef d Hd). unfold before in Hbef. lia. }
      eexists _, _, _. split; [done|]. split; [done|]. destruct found.
      * destruct Hres as (R1 & R2 & R3 & R4 & R5 & R6 & R7). assert (ns <= a') by lia.
        repeat split; try done. intros d [->|Hd]%elem_of_cons; [right; lia|by apply R7].
      * intros s H1 H2 H3 H4 H5. specialize (G7 eq_refl s H1 H2 H3 H4).
        destruct (decide (hi st c + 1 <= s)) as [Hsc|Hsc].
        -- destruct (Hres s H1 H2 Hsc H4 H5) as (d & Hd & Ho). exists d. split; [by right|done].
        -- exists c. split; [by left|]. unfold clear_of. lia.
Qed.

End find.

(** ** Allocation *)

(** A resource that is not in the tree and has nothing below it. *)
Definition loose (st : store) (root new : oid) : Prop :=
  parent_of st new = Some None /\ kids st new [] /\ apart st root new.

Lemma loose_fits st root new s e : tree st -> loose st root new -> fits st new s e.
Proof.
  intros Ht (Hp & Hk & _). split.
  - intros l c Hl Hc. rewrite (kids_unique _ _ _ _ Hk Hl) in Hc. set_solver.
  - intros p l1 l2 Hl. destruct (child_parent _ _ _ new Ht Hl) as [E _]; [set_solver|]. congruence.
Qed.

(** The range of a loose resource changes, the tree stays. *)
Lemma set_range_ok st root new l a b :
  tree st -> kids st root l -> loose st root new -> 0 <= a < two32 -> 0 <= b < two32 ->
  exists st1, upd st new (set_range a b) = Some st1 /\ tree st1 /\ kids st1 root l /\ loose st1 root new /\
    lo st1 new = a /\ hi st1 new = b /\ (forall y, y <> new -> rng st1 y = rng st y) /\
    (forall y, parent_of st1 y = parent_of st y).
Proof.
  intros Ht Hk Hl Ha Hb. pose proof (proj_known _ _ _ _ (proj1 Hl)) as Hn.
  destruct (upd_range st new a b Hn) as (st1 & E & P & C & S & Hlo & Hhi & R & _).
  assert (Hkids : forall r l, kids st r l -> kids st1 r l).
  { intros r l' (c & Ec & Hch). exists c. rewrite C. split; [done|]. eapply seg_ext; [|exact Hch]. auto. }
  exists st1. split; [done|]. split; [by eapply tree_set_range; [..|exact E]; [| | |eapply loose_fits|]|].
  split; [by apply Hkids|]. split; [|done]. destruct Hl as (H1 & H2 & H3). split; [by rewrite P|].
  split; [by apply Hkids|]. intros p Hp. apply H3. eapply seg_ext; [|exact Hp]. intros. by rewrite P.
Qed.

(** Where the search starts: at the first child, or behind it when it starts at
    address 0. *)
Inductive starts (st : store) (root : oid) (l : list oid) : Z -> list oid -> Prop :=
  | starts_first : (forall c, c ∈ l -> 0 < lo st c) -> starts st root l (lo st root) l
  | starts_second c l' : l = c :: l' -> lo st c = 0 -> starts st root l (hi st c + 1) l'.

Lemma find_start st root l rr :
  tree st -> kids st root l -> (forall c, c ∈ l -> hi st c + 1 < two32) -> st !! root = Some rr ->
  exists ns this l',
    match child rr with
    | None => Some (start rr, None)
    | Some t => rt ← st !! t; Some (if bool_decide (start rt = 0) then (end_ rt +u 1, sibling rt) else (start rr, Some t))
    end = Some (ns, this) /\
    chain (sib_of st) this l' /\ starts st root l ns l'.
Proof.
  intros Ht Hk Hhi Er. pose proof (kids_sorted _ _ _ Ht Hk) as Hs.
  assert (Hc : chain (sib_of st) (child rr) l).
  { destruct Hk as (c & Ec & Hc). unfold child_of in Ec. rewrite Er in Ec. by injection Ec as ->. }
  destruct (lookup_bounds _ _ _ Er) as [Elo _]. unfold chain in Hc. destruct l as [|c l]; simpl in Hc.
  { rewrite Hc. eexists _, _, []. split; [done|]. split; [done|]. rewrite Elo. apply starts_first. set_solver. }
  destruct Hc as (-> & o & Eo & Hc). unfold sib_of in Eo. apply fmap_Some in Eo as (rc & Ec & ->). rewrite Ec. simpl.
  destruct (lookup_bounds _ _ _ Ec) as [Eclo Echi].
  destruct (child_parent st root (c :: l) c Ht Hk) as [_ (I1 & I2 & I3)]; [set_solver|].
  destruct (tr_word _ Ht c) as [W1 W2]; [eapply kids_known; [exact Hk|set_solver]|].
  inversion Hs as [|? ? _ Hbef]; subst. rewrite Forall_forall in Hbef.
  destruct (decide (start rc = 0)) as [E0|E0].
  - rewrite bool_decide_eq_true_2 by done. eexists _, _, l. split; [done|]. split; [done|].
    specialize (Hhi c ltac:(set_solver)). rewrite Echi, u32_small by lia. apply starts_second; [done|congruence].
  - rewrite bool_decide_eq_false_2 by done. eexists _, _, (c :: l). split; [done|]. split.
    + split; [done|]. exists (sibling rc). split; [unfold sib_of; by rewrite Ec|done].
    + rewrite Elo. apply starts_first. intros d [->|Hd]%elem_of_cons; [lia|].
      specialize (Hbef d Hd). unfold before in Hbef. lia.
Qed.

Lemma starts_facts st root l ns l' :
  tree st -> kids st root l -> lo st root <= hi st root -> starts st root l ns l' ->
  StronglySorted (before st) l' /\ (length l' <= length l)%nat /\ lo st root <= ns <= hi st root + 1 /\
  (forall c, c ∈ l' -> 0 < lo st c /\ ns <= lo st c /\ lo st c <= hi st c /\ hi st c <= hi st root) /\
  (forall a b, ns <= a -> (forall d, d ∈ l' -> clear_of st a b d) -> forall c, c ∈ l -> clear_of st a b c) /\
  (forall s e, lo st root <= s -> s <= e -> (forall c, c ∈ l -> clear_of st s e c) -> ns <= s /\ forall c, c ∈ l' -> clear_of st s e c).
Proof.
  intros Ht Hk Hlr Hst. pose proof (kids_sorted _ _ _ Ht Hk) as Hs.
  assert (Hin : forall c, c ∈ l -> inside st root c) by (intros c Hc; by destruct (child_parent _ _ _ c Ht Hk Hc)).
  destruct Hst as [Hpos|c l' -> Hc0].
  - split; [done|]. split; [done|]. split; [lia|]. split; [|split; [done|]].
    + intros c Hc. destruct (Hin c Hc) as (? & ? & ?). specialize (Hpos c Hc). lia.
    + intros s e H1 H2 H3. by split.
  - destruct (Hin c ltac:(set_solver)) as (I1 & I2 & I3).
    inversion Hs as [|? ? Hs' Hbef]; subst. rewrite Forall_forall in Hbef.
    split; [done|]. split; [simpl; lia|]. split; [lia|]. split; [|split].
    + intros d Hd. destruct (Hin d ltac:(set_solver)) as (? & ? & ?). specialize (Hbef d Hd). unfold before in Hbef. lia.
    + intros a b Ha Hcl d [->|Hd]%elem_of_cons; [right; lia|by apply Hcl].
    + intros s e H1 H2 Hcl. destruct (Hcl c ltac:(set_solver)) as [H|H]; [|split; [lia|set_solver]].
      (* [c] starts at 0, so nothing lies in front of it *)
      destruct (tr_word _ Ht root (kids_root _ _ _ Hk)). lia.
Qed.

(** What [find_resource] finds, and that it misses nothing. *)
Lemma find_resource_ok st root new l size_ min max k :
  tree st -> kids st root l -> loose st root new -> asked st root size_ min max k ->
  exists a b st1 ret, find_resource st root new size_ min max (2 ^ k) None = Some (st1, ret) /\
    upd st new (set_range a b) = Some st1 /\ 0 <= a < two32 /\ 0 <= b < two32 /\
    ((ret = 0 /\ b = a + size_ - 1 /\ candidate st root size_ min max k a /\ (forall c, c ∈ l -> clear_of st a b c)) \/
     (ret = - EBUSY /\ forall s, candidate st root (room size_) min max k s ->
        exists c, c ∈ l /\ ~ clear_of st s (s + room size_ - 1) c)).
Proof.
  intros Ht Hk Hl Ha. destruct (kids_root _ _ _ Hk) as [rr Er]. unfold find_resource. rewrite Er. simpl.
  destruct (as_root _ _ _ _ _ _ Ha) as [Hlr Hhr]. pose proof (Z.pow_pos_nonneg 2 k ltac:(lia) (proj1 (as_k _ _ _ _ _ _ Ha))) as Hpw.
  assert (Hce : forall c, c ∈ l -> hi st c + 1 + 2 ^ k <= two32).
  { intros c Hc. apply (as_kids _ _ _ _ _ _ Ha). by destruct (child_parent _ _ _ c Ht Hk Hc). }
  destruct (find_start st root l rr Ht Hk ltac:(intros c Hc; specialize (Hce c Hc); lia) Er) as (ns & this & l' & E & Hch & Hst).
  rewrite E. simpl. destruct (lookup_bounds _ _ _ Er) as [_ ->].
  destruct (starts_facts st root l ns l' Ht Hk Hlr Hst) as (F1 & F2 & F3 & F4 & F5 & F6).
  destruct (tr_word _ Ht root (kids_root _ _ _ Hk)) as [W1 W2]. pose proof (kids_size _ _ _ Hk) as Hsz.
  assert (Hns : ns + 2 ^ k <= two32 /\ forall c, c ∈ l' -> hi st c + 1 + 2 ^ k <= two32).
  { destruct Hst as [_|c l' -> _]; [done|]. split; [apply Hce; set_solver|]. intros d Hd. apply Hce. set_solver. }
  destruct Hns as [Hns Hce'].
  destruct (find_loop_ok st root size_ min max k Ha l' (size st) this ns Hch F1) as (a & b & found & -> & [Wa Wb] & Hres);
    [intros c Hc; destruct (F4 c Hc) as (? & ? & ? & ?); specialize (Hce' c Hc); done|lia|lia|lia|lia|]. simpl.
  destruct (set_range_ok st root new l a b Ht Hk Hl Wa Wb) as (st1 & Eu & _). rewrite Eu. simpl.
  eexists a, b, st1, _. split; [done|]. split; [done|]. split; [done|]. split; [done|]. destruct found.
  - left. destruct Hres as (R1 & R2 & R3 & R4 & R5 & R6 & R7). split; [done|]. split; [done|].
    split; [unfold candidate; lia|]. by apply F5.
  - right. split; [done|]. intros s (C1 & C2 & C3 & C4 & C5). pose proof (as_size _ _ _ _ _ _ Ha).
    assert (2 <= room size_) by (unfold room; lia).
    destruct (decide (Forall (clear_of st s (s + room size_ - 1)) l)) as [Hcl|Hcl].
    + rewrite Forall_forall in Hcl. destruct (F6 s (s + room size_ - 1) C3 ltac:(lia) Hcl) as [Hnss Hcl'].
      destruct (Hres s C1 C2 Hnss C4 C5) as (c & Hc & Hn). by destruct (Hn (Hcl' c Hc)).
    + apply not_Forall_Exists, Exists_exists in Hcl; [|apply _]. destruct Hcl as (c & Hc & Hn). by exists c.
Qed.

End ResourceAlloc.
