(* ===== verification/ResourceDev.v ===== *)
(** * The resource tree: the operations together *)

From Stdlib Require Import ZArith Lia.
From stdpp Require Import base option gmap sorting list.
From S2P Require Import Prelude Chain Resource ResourceTop ResourceAlloc.

Local Open Scope Z_scope.
Local Open Scope kernel_scope.

Module ResourceDev.
Import Resource ResourceTop ResourceOps ResourceAlloc.

Definition word (z : Z) : Prop := 0 <= z < two32.

(** ** Allocation, whatever the arguments *)

Lemma land_word x y : word x -> word (Z.land x y).
Proof.
  unfold word. intros Hx. assert (E : x = Z.land x (Z.ones 32)).
  { rewrite Z.land_ones by lia. symmetry. apply Z.mod_small. change (2 ^ 32) with two32. done. }
  rewrite E, <- Z.land_assoc, (Z.land_comm (Z.ones 32)), Z.land_assoc, Z.land_ones by lia.
  apply Z.mod_pos_bound. done.
Qed.

Lemma u32_word z : word (u32 z).
Proof. apply u32_range. Qed.

Definition words (p : Z * Z) : Prop := word (fst p) /\ word (snd p).

(** The caller's alignment function keeps to 32 bits. *)
Definition alignf_ok (alignf : option (Z * Z -> Z * Z)) : Prop :=
  match alignf with None => True | Some f => forall p, words p -> words (f p) end.

Lemma find_loop_total st root_end size_ min max align alignf l :
  (forall x, known st x -> word (lo st x) /\ word (hi st x)) ->
  word root_end -> word min -> word max -> alignf_ok alignf -> forall fuel this ns,
  chain (sib_of st) this l -> word ns -> (length l <= fuel)%nat ->
  exists a b found, find_loop fuel st this root_end ns size_ min max align alignf = Some (a, b, found) /\ word a /\ word b.
Proof.
  intros Hw Hr Hmin Hmax Haf. induction l as [|c l IH]; intros fuel this ns Hch Hns Hfuel.
  - unfold chain in Hch. simpl in Hch. subst this.
    assert (Hin : words (match alignf with Some f => f | None => id end
      (ALIGN (if bool_decide (ns < min) then min else ns) align, if bool_decide (root_end > max) then max else root_end))).
    { assert (words (ALIGN (if bool_decide (ns < min) then min else ns) align, if bool_decide (root_end > max) then max else root_end))
        by (split; simpl; [apply land_word, u32_word|by case_bd]). destruct alignf; simpl in *; auto. }
    destruct fuel; simpl; destruct alignf as [f|]; simpl in *;
      try (destruct (f _) as [a b]); destruct Hin as [W1 W2]; simpl in *; destruct (_ && _);
      eexists _, _, _; (split; [done|]); split; try done; apply u32_word.
  - destruct Hch as (-> & o & Ec & Hch). unfold sib_of in Ec. apply fmap_Some in Ec as (rc & Ec & ->).
    simpl in Hfuel. destruct fuel as [|fuel]; [lia|]. simpl. rewrite Ec. simpl.
    assert (Hin : words (match alignf with Some f => f | None => id end
      (ALIGN (if bool_decide (ns < min) then min else ns) align,
       if bool_decide (start rc -u 1 > max) then max else start rc -u 1))).
    { assert (words (ALIGN (if bool_decide (ns < min) then min else ns) align,
         if bool_decide (start rc -u 1 > max) then max else start rc -u 1))
        by (split; simpl; [apply land_word, u32_word|case_bd; [done|apply u32_word]]). destruct alignf; simpl in *; auto. }
    destruct (IH fuel (sibling rc) (end_ rc +u 1) Hch (u32_word _) ltac:(lia)) as (a' & b' & found & E & W).
    destruct alignf as [f|]; simpl in *; try (destruct (f _) as [a b]); destruct Hin as [W1 W2]; simpl in *; destruct (_ && _);
      try (eexists _, _, _; (split; [done|]); split; try done; apply u32_word); by exists a', b', found.
Qed.

Lemma find_resource_total st root new l size_ min max align alignf :
  tree st -> kids st root l -> loose st root new -> word min -> word max -> alignf_ok alignf ->
  exists a b st1 ret, find_resource st root new size_ min max align alignf = Some (st1, ret) /\
    upd st new (set_range a b) = Some st1 /\ word a /\ word b /\ (ret = 0 \/ ret = - EBUSY).
Proof.
  intros Ht Hk Hl Hmin Hmax Haf. pose proof (kids_root _ _ _ Hk) as Hkr. pose proof Hkr as [rr Er].
  unfold find_resource. rewrite Er. simpl.
  assert (Hst : exists ns this l', match child rr with
    | None => Some (start rr, None)
    | Some t => rt ← st !! t; Some (if bool_decide (start rt = 0) then (end_ rt +u 1, sibling rt) else (start rr, Some t))
    end = Some (ns, this) /\ chain (sib_of st) this l' /\ word ns /\ (length l' <= length l)%nat).
  { destruct (lookup_bounds _ _ _ Er) as [Elo _]. destruct (tr_word _ Ht root Hkr) as [W _].
    assert (Hc : chain (sib_of st) (child rr) l).
    { destruct Hk as (c & Ec & Hc). unfold child_of in Ec. rewrite Er in Ec. by injection Ec as ->. }
    destruct l as [|c l]; unfold chain in Hc; simpl in Hc.
    - rewrite Hc. eexists _, _, []. split; [done|]. split; [done|]. split; [by rewrite Elo|done].
    - pose proof Hc as (-> & o & Eo & Hc'). unfold sib_of in Eo. apply fmap_Some in Eo as (rc & Ec & ->). rewrite Ec. simpl.
      case_bd.
      + eexists _, _, l. split; [done|]. split; [done|]. split; [apply u32_word|simpl; lia].
      + eexists _, _, (c :: l). split; [done|]. split; [by split; [|apply Hc]|]. split; [by rewrite Elo|done]. }
  destruct Hst as (ns & this & l' & E & Hch & Wns & Hlen). rewrite E. simpl.
  destruct (lookup_bounds _ _ _ Er) as [_ ->]. pose proof (kids_size _ _ _ Hk) as Hsz.
  destruct (find_loop_total st (hi st root) size_ min max align alignf l') with (fuel := size st) (this := this) (ns := ns)
    as (a & b & found & -> & Wa & Wb); try done; [by apply Ht|by apply Ht|lia|]. simpl.
  destruct (set_range_ok st root new l a b Ht Hk Hl Wa Wb) as (st1 & Eu & _). rewrite Eu. simpl.
  exists a, b, st1. destruct found; eexists; (split; [done|]); auto.
Qed.

(** After [find_resource] the tree is as it was, [new] still loose. *)
Lemma allocate_safe st root new l size_ min max align alignf :
  tree st -> kids st root l -> loose st root new -> word min -> word max -> alignf_ok alignf ->
  exists st' ret, allocate_resource st root new size_ min max align alignf = Some (st', ret) /\ tree st'.
Proof.
  intros Ht Hk Hl Hmin Hmax Haf. unfold allocate_resource.
  destruct (find_resource_total st root new l size_ min max align alignf Ht Hk Hl Hmin Hmax Haf)
    as (a & b & st1 & ret & -> & Eu & Wa & Wb & Hret). simpl.
  destruct (set_range_ok st root new l a b Ht Hk Hl Wa Wb) as (st1' & Eu' & Ht1 & Hk1 & Hl1 & _).
  rewrite Eu in Eu'. injection Eu' as <-. case_bd; [|by eexists _, _].
  destruct Hl1 as (Hp1 & _ & Hap1). destruct (request_ok st1 root new l Ht1 Hk1 Hp1 Hap1) as (st' & cf & -> & Hrq). simpl.
  destruct cf; simpl in Hrq; eexists _, _; (split; [done|]); [by destruct Hrq as [-> _]|by destruct Hrq].
Qed.

(** ** Adjusting *)

Lemma children_fit_ok st s e l : forall fuel tmp, chain (sib_of st) tmp l -> (length l <= fuel)%nat ->
  exists f, children_fit fuel st tmp s e = Some f /\ (f = true <-> forall c, c ∈ l -> s <= lo st c /\ hi st c <= e).
Proof.
  induction l as [|c l IH]; intros fuel tmp Hch Hfuel.
  - unfold chain in Hch. simpl in Hch. subst tmp. exists true. split; [by destruct fuel|]. split; [set_solver|done].
  - destruct Hch as (-> & o & Ec & Hch). unfold sib_of in Ec. apply fmap_Some in Ec as (rc & Ec & ->).
    simpl in Hfuel. destruct fuel as [|fuel]; [lia|]. simpl. rewrite Ec. simpl.
    destruct (lookup_bounds _ _ _ Ec) as [-> ->].
    destruct (IH fuel (sibling rc) Hch ltac:(lia)) as (f & Ef & Hf).
    destruct (bool_decide (lo st c < s) || bool_decide (hi st c > e)) eqn:E.
    + exists false. split; [done|]. split; [done|]. intros H. destruct (H c) as [H1 H2]; [set_solver|].
      apply orb_true_iff in E as [E|E]; apply bool_decide_eq_true in E; lia.
    + exists f. split; [done|]. rewrite Hf. apply orb_false_iff in E as [E1%bool_decide_eq_false E2%bool_decide_eq_false].
      split; [intros H d [->|Hd]%elem_of_cons; [lia|by apply H]|set_solver].
Qed.

Lemma find_prev_ok st res p a : forall fuel tmp,
  seg (sib_of st) (Some tmp) (a ++ [p]) (Some res) -> res ∉ a ++ [p] -> (length a <= fuel)%nat ->
  find_prev fuel st tmp res = Some p.
Proof.
  induction a as [|x a IH]; intros fuel tmp Hs Hn Hf; simpl in Hs, Hn, Hf; destruct Hs as ([= ->] & o & Eo & Hs);
    unfold sib_of in Eo; apply fmap_Some in Eo as (r & Er & ->).
  - simpl in Hs. destruct fuel; simpl; rewrite Er; simpl; rewrite bool_decide_eq_true_2; done.
  - destruct fuel as [|fuel]; [lia|]. simpl. rewrite Er. simpl.
    assert (Hh : sibling r = head (a ++ [p])).
    { destruct a as [|y a]; simpl in Hs; destruct Hs as [-> _]; done. }
    apply not_elem_of_cons in Hn as [_ Hn].
    destruct (a ++ [p]) as [|y t] eqn:Et; [by destruct a|]. simpl in Hh. rewrite Hh in *.
    rewrite bool_decide_eq_false_2 by (intros [= ->]; apply Hn; by left).
    apply IH; [done|done|lia].
Qed.

Lemma fits_iff st res par l1 l2 lk s e :
  tree st -> kids st par (l1 ++ res :: l2) -> kids st res lk ->
  fits st res s e <->
  (forall c, c ∈ lk -> s <= lo st c /\ hi st c <= e) /\ lo st par <= s /\ s <= e /\ e <= hi st par /\
  (forall y, y ∈ l1 -> hi st y < s) /\ (forall y, y ∈ l2 -> e < lo st y).
Proof.
  intros Ht Hk Hlk. split.
  - intros [H1 H2]. split; [intros c; by apply H1|]. by apply (H2 par l1 l2).
  - intros [H1 H2]. split; [intros l c Hl; rewrite (kids_unique _ _ _ _ Hlk Hl); by apply H1|].
    intros p a b Hp.
    assert (p = par) as ->.
    { destruct (child_parent _ _ _ res Ht Hk) as [E1 _]; [set_solver|].
      destruct (child_parent _ _ _ res Ht Hp) as [E2 _]; [set_solver|]. congruence. }
    pose proof (kids_unique _ _ _ _ Hk Hp) as E. pose proof (kids_NoDup _ _ _ Hk) as (_ & Hd & Hnd)%NoDup_app.
    apply NoDup_cons in Hnd as [Hr2 _].
    assert (a = l1 /\ b = l2) as [-> ->]; [|done].
    apply app_eq_app in E as [t [[E1 E2]|[E1 E2]]]; destruct t as [|z t]; simplify_eq/=; rewrite ?app_nil_r; try done.
    + exfalso. apply Hr2. set_solver.
    + exfalso. apply (Hd z); set_solver.
Qed.

Lemma sibling_head st par l1 res l2 r : kids st par (l1 ++ res :: l2) -> st !! res = Some r -> sibling r = head l2.
Proof.
  intros Hk Er. destruct (kids_split st par (l1 ++ [res]) l2) as (c & _ & Hs & _); [by rewrite <- app_assoc|].
  apply seg_read in Hs. rewrite slot_of_snoc in Hs. simpl in Hs. unfold sib_of in Hs. rewrite Er in Hs. by injection Hs.
Qed.

(** The neighbour in front. *)
Lemma prev_hit_ok st par rp l1 res l2 s :
  kids st par (l1 ++ res :: l2) -> st !! par = Some rp ->
  StronglySorted (before st) l1 -> (forall y, y ∈ l1 -> lo st y <= hi st y) ->
  exists tmp hit, child rp = Some tmp /\
    (if bool_decide (tmp <> res) then
       prev ← find_prev (size st) st tmp res; rv ← st !! prev; Some (bool_decide (s <= end_ rv))
     else Some false) = Some hit /\ (hit = false <-> forall y, y ∈ l1 -> hi st y < s).
Proof.
  intros Hk Ep Hs Hle. destruct (kids_split st par l1 (res :: l2) Hk) as (c & Ec & Hseg & _).
  unfold child_of in Ec. rewrite Ep in Ec. injection Ec as <-. pose proof (kids_NoDup _ _ _ Hk) as (_ & Hd & _)%NoDup_app.
  destruct l1 as [|p l1 _] using rev_ind.
  - simpl in Hseg. exists res, false. split; [done|]. rewrite bool_decide_eq_false_2 by (by intros H). split; [done|].
    split; [set_solver|done].
  - assert (Hne : exists tmp, child rp = Some tmp /\ tmp ∈ l1 ++ [p]).
    { destruct l1 as [|x l1]; simpl in Hseg; destruct Hseg as [-> _]; eexists; (split; [done|]); set_solver. }
    destruct Hne as (tmp & Etmp & Htmp). rewrite Etmp in *. exists tmp.
    rewrite bool_decide_eq_true_2 by (intros ->; apply (Hd res Htmp); set_solver).
    rewrite (find_prev_ok st res p l1); [|done|intros H; apply (Hd res H); set_solver|].
    2: { pose proof (kids_size _ _ _ Hk) as Hsz. rewrite !length_app in Hsz. lia. }
    simpl. destruct (kids_known st par _ p Hk) as [rv Ev]; [set_solver|]. rewrite Ev. simpl.
    destruct (lookup_bounds _ _ _ Ev) as [_ ->]. eexists. split; [done|]. split; [done|].
    rewrite bool_decide_eq_false. split.
    + intros H y Hy. apply elem_of_app in Hy as [Hy| ->%list_elem_of_singleton]; [|lia].
      apply StronglySorted_app in Hs as (Hx & _ & _). specialize (Hx y p Hy ltac:(set_solver)). unfold before in Hx.
      specialize (Hle p ltac:(set_solver)). lia.
    + intros H. specialize (H p ltac:(set_solver)). lia.
Qed.

Lemma adjust_ok st res par l1 l2 lk s size_ :
  tree st -> kids st par (l1 ++ res :: l2) -> kids st res lk -> 0 <= s -> 0 < size_ -> s + size_ <= two32 ->
  exists st' ret, adjust_resource st res s size_ = Some (st', ret) /\ tree st' /\
    ((ret = 0 /\ fits st res s (s + size_ - 1) /\ upd st res (set_range s (s + size_ - 1)) = Some st') \/
     (ret = - EBUSY /\ st' = st /\ ~ fits st res s (s + size_ - 1))).
Proof.
  intros Ht Hk Hlk Hs0 Hsz Hw. pose proof (fits_iff st res par l1 l2 lk s (s + size_ - 1) Ht Hk Hlk) as Hiff.
  pose proof (kids_sorted _ _ _ Ht Hk) as (Hs12 & Hs1 & Hs2)%StronglySorted_app.
  assert (Hin : forall c, c ∈ l1 ++ res :: l2 -> inside st par c) by (intros c Hc; by destruct (child_parent _ _ _ c Ht Hk Hc)).
  destruct (child_parent _ _ _ res Ht Hk) as [Hp _]; [set_solver|].
  unfold parent_of in Hp. apply fmap_Some in Hp as (r & Er & Ep). unfold adjust_resource. rewrite Er. simpl. rewrite <- Ep. simpl.
  destruct (kids_root _ _ _ Hk) as [rp Erp]. rewrite Erp. simpl. destruct (lookup_bounds _ _ _ Erp) as [-> ->].
  assert (Ee : s +u size_ -u 1 = s + size_ - 1).
  { unfold u32. rewrite Zminus_mod_idemp_l. apply Z.mod_small. lia. }
  rewrite Ee. clear Ee. set (e := s + size_ - 1) in *.
  destruct (bool_decide (s < lo st par) || bool_decide (e > hi st par)) eqn:E1.
  { eexists _, _. split; [done|]. split; [done|]. right. split; [done|]. split; [done|]. intros (_ & ? & ? & ? & _)%Hiff.
    apply orb_true_iff in E1 as [E1|E1]; apply bool_decide_eq_true in E1; lia. }
  apply orb_false_iff in E1 as [E1%bool_decide_eq_false E2%bool_decide_eq_false].
  assert (Hch : chain (sib_of st) (child r) lk).
  { destruct Hlk as (c & Ec & Hc). unfold child_of in Ec. rewrite Er in Ec. by injection Ec as ->. }
  destruct (children_fit_ok st s e lk (size st) (child r) Hch) as (f & -> & Hf); [by eapply kids_size|]. simpl.
  destruct f; simpl.
  2: { eexists _, _. split; [done|]. split; [done|]. right. split; [done|]. split; [done|]. intros (H & _)%Hiff.
       by apply Hf in H. }
  rewrite (sibling_head st par l1 res l2 r Hk Er).
  assert (Hnext : exists hit, match head l2 with Some n => rn ← st !! n; Some (bool_decide (start rn <= e)) | None => Some false end
      = Some hit /\ (hit = false <-> forall y, y ∈ l2 -> e < lo st y)).
  { destruct l2 as [|n l2]; simpl; [exists false; split; [done|]; split; [set_solver|done]|].
    destruct (kids_known st par _ n Hk) as [rn En]; [set_solver|]. rewrite En. simpl.
    destruct (lookup_bounds _ _ _ En) as [-> _]. eexists. split; [done|]. rewrite bool_decide_eq_false. split.
    - intros H y [->|Hy]%elem_of_cons; [lia|]. inversion Hs2 as [|? ? Hs3 _]; subst. inversion Hs3 as [|? ? _ Hb]; subst.
      rewrite Forall_forall in Hb. specialize (Hb y Hy). destruct (Hin n) as (_ & ? & _); [set_solver|]. unfold before in Hb. lia.
    - intros H. specialize (H n ltac:(set_solver)). lia. }
  destruct Hnext as (hit & -> & Hhit). simpl. destruct hit.
  { eexists _, _. split; [done|]. split; [done|]. right. split; [done|]. split; [done|]. intros (_ & _ & _ & _ & _ & H)%Hiff.
    by apply Hhit in H. }
  destruct (prev_hit_ok st par rp l1 res l2 s Hk Erp Hs1) as (tmp & hit & -> & Eh & Hprev).
  { intros y Hy. destruct (Hin y) as (_ & ? & _); [set_solver|done]. }
  simpl. rewrite Eh. simpl. destruct hit.
  { eexists _, _. split; [done|]. split; [done|]. right. split; [done|]. split; [done|]. intros (_ & _ & _ & _ & H & _)%Hiff.
    by apply Hprev in H. }
  assert (Hfit : fits st res s e).
  { apply Hiff. split; [by apply Hf|]. split; [lia|]. split; [lia|]. split; [lia|].
    split; [by apply Hprev|by apply Hhit]. }
  destruct (upd_range st res s e) as (st' & Eu & _); [by eexists|]. rewrite Eu. simpl.
  eexists _, _. split; [done|]. split; [by eapply (tree_set_range st st' res s e); [done|lia|lia|done|eexists|]|].
  by left.
Qed.

(** ** New resources *)

Lemma tree_new st x s e f : tree st -> st !! x = None -> word s -> word e ->
  tree (<[x := mk_res s e f None None None]> st).
Proof.
  intros Ht Hx Hs He. set (st' := <[x := _]> st).
  assert (Hl : forall y, y <> x -> st' !! y = st !! y) by (intros; by apply lookup_insert_ne).
  assert (Hkn : forall y, known st y -> y <> x) by (intros y [r E] ->; congruence).
  assert (Hkids : forall r l, kids st r l -> kids st' r l).
  { intros r l Hk. pose proof (kids_root _ _ _ Hk) as Hr. destruct Hk as (c & Ec & Hc). exists c.
    unfold child_of. rewrite Hl by auto. split; [done|]. eapply seg_ext; [|exact Hc]. intros y Hy. unfold sib_of.
    rewrite Hl; [done|]. apply Hkn. eapply kids_known; [by exists c|done]. }
  assert (Hrng : forall y, known st y -> rng st' y = rng st y) by (intros y Hy; unfold rng; by rewrite Hl by auto).
  assert (Hpar : forall y, known st y -> parent_of st' y = parent_of st y) by (intros y Hy; unfold parent_of; by rewrite Hl by auto).
  assert (Hx' : parent_of st' x = Some None /\ child_of st' x = Some None /\ lo st' x = s /\ hi st' x = e)
    by (unfold parent_of, child_of, lo, hi, st'; by rewrite lookup_insert_eq).
  destruct Hx' as (Hxp & Hxc & Hxlo & Hxhi).
  assert (Hcase : forall y, known st' y -> y = x \/ known st y).
  { intros y [r Hy]. destruct (decide (y = x)) as [->|Hne]; [by left|right]. rewrite Hl in Hy by done. by eexists. }
  split.
  - intros r [->|Hr]%Hcase.
    + exists []. split; [by exists None|]. split; [constructor|set_solver].
    + destruct (tr_kids _ Ht r Hr) as (l & Hk & Hso & Hall). exists l. split; [by apply Hkids|]. split.
      * apply (sorted_before_on st); [|done]. intros y Hy. apply Hrng. by eapply kids_known.
      * intros c Hc. destruct (Hall c Hc) as [Hp Hi]. pose proof (kids_known _ _ _ _ Hk Hc) as Hck.
        split; [by rewrite Hpar|]. unfold inside in *.
        destruct (rng_lo st st' r (Hrng r Hr)) as [-> ->]. by destruct (rng_lo st st' c (Hrng c Hck)) as [-> ->].
  - intros c p Hp. destruct (decide (c = x)) as [->|Hne]; [congruence|]. unfold parent_of in Hp. rewrite Hl in Hp by done.
    destruct (tr_parent _ Ht c p Hp) as (l & Hk & Hc). exists l. by split; [apply Hkids|].
  - intros r [->|Hr]%Hcase; [exists [x]; split; [done|]; by exists None|]. destruct (tr_path _ Ht r Hr) as [l Hp]. exists l.
    eapply seg_ext; [|exact Hp]. intros y Hy. apply Hpar. destruct (seg_mapped _ _ _ _ y Hp Hy) as [o Ho].
    by eapply proj_known.
  - intros r [->|Hr]%Hcase; [by rewrite Hxlo, Hxhi|]. destruct (rng_lo st st' r (Hrng r Hr)) as [-> ->]. by apply Ht.
Qed.

End ResourceDev.
