(* ===== verification/ResourceBelow.v ===== *)
(** * The resource tree: what lies below a resource *)

From Stdlib Require Import ZArith Lia.
From stdpp Require Import base option gmap sorting list.
From S2P Require Import Prelude Chain Resource ResourceTop ResourceAlloc ResourceDev.

Local Open Scope Z_scope.
Local Open Scope kernel_scope.

Module ResourceBelow.
Import Resource ResourceTop ResourceOps ResourceAlloc.

(** [x] is a child of [r], or of one that is below [r]. *)
Inductive below (st : store) (r : oid) : oid -> Prop :=
  | below_child x : parent_of st x = Some (Some r) -> below st r x
  | below_deeper y x : below st r y -> parent_of st x = Some (Some y) -> below st r x.

Definition within (st : store) (x y : oid) : Prop := lo st y <= lo st x /\ hi st x <= hi st y.

(** The ranges overlap and neither contains the other. *)
Definition clash (st : store) (x y : oid) : Prop := overlap st x y /\ ~ within st x y /\ ~ within st y x.

Lemma within_trans st x y z : within st x y -> within st y z -> within st x z.
Proof. unfold within. lia. Qed.

Lemma parent_inside st r x : tree st -> parent_of st x = Some (Some r) -> inside st r x.
Proof. intros Ht Hp. destruct (tr_parent _ Ht x r Hp) as (l & Hk & Hx). by apply (child_parent st r l). Qed.

Lemma parent_known st r x : tree st -> parent_of st x = Some (Some r) -> known st r.
Proof. intros Ht Hp. destruct (tr_parent _ Ht x r Hp) as (l & Hk & _). by eapply kids_root. Qed.

Lemma below_inside st r x : tree st -> below st r x -> inside st r x.
Proof.
  intros Ht. induction 1 as [x Hp|y x _ IH Hp]; [by apply parent_inside|]. pose proof (parent_inside _ _ _ Ht Hp) as H.
  unfold inside in *. lia.
Qed.

Lemma below_parent st r x : below st r x -> exists p, parent_of st x = Some (Some p).
Proof. destruct 1; eauto. Qed.

Lemma below_known st r x : below st r x -> known st x.
Proof. intros [p Hp]%below_parent. by eapply proj_known. Qed.

Lemma below_up st r c x : parent_of st c = Some (Some r) -> below st c x -> below st r x.
Proof.
  intros Hc. induction 1 as [x Hp|y x _ IH Hp]; [|by eapply below_deeper].
  eapply below_deeper; [|exact Hp]. by apply below_child.
Qed.

Lemma below_trans st r y x : below st r y -> below st y x -> below st r x.
Proof. intros Hy. induction 1 as [x Hp|z x _ IH Hp]; by eapply below_deeper. Qed.

(** The child of [r] on the way to [x]. *)
Lemma below_first st r x : below st r x -> exists c, parent_of st c = Some (Some r) /\ (x = c \/ below st c x).
Proof.
  induction 1 as [x Hp|y x _ (c & Hc & IH) Hp]; [eauto|]. exists c. split; [done|]. right.
  destruct IH as [->|IH]; [by apply below_child|by eapply below_deeper].
Qed.

(** Two children of one resource are the same or do not overlap. *)
Lemma siblings_disjoint st r a b : tree st -> parent_of st a = Some (Some r) -> parent_of st b = Some (Some r) ->
  a = b \/ ~ overlap st a b.
Proof.
  intros Ht Ha Hb. destruct (tr_parent _ Ht a r Ha) as (l & Hk & Hia). destruct (tr_parent _ Ht b r Hb) as (l' & Hk' & Hib).
  rewrite <- (kids_unique _ _ _ _ Hk Hk') in Hia. clear l Hk. rename l' into l. pose proof (kids_sorted _ _ _ Ht Hk') as Hs.
  clear Hk'. induction Hs as [|x l _ IH Hx]; [set_solver|]. rewrite Forall_forall in Hx.
  apply elem_of_cons in Hia as [->|Hia]; apply elem_of_cons in Hib as [->|Hib]; [by left| | |by apply IH];
    right; unfold overlap; [specialize (Hx b Hib)|specialize (Hx a Hia)]; unfold before in Hx; lia.
Qed.

(** What overlaps something inside [f] is [f], or below it, or not below the
    parent of [f]. *)
Lemma below_toward st q f new x : tree st -> parent_of st f = Some (Some q) -> within st new f -> below st q x ->
  overlap st new x -> x = f \/ below st f x.
Proof.
  intros Ht Hf Hw Hb Ho. destruct (below_first st q x Hb) as (c & Hc & Hx).
  destruct (siblings_disjoint st q c f Ht Hc Hf) as [->|Hd]; [done|]. exfalso. apply Hd.
  assert (Hxc : within st x c) by (destruct Hx as [->|Hx]; [unfold within; lia|destruct (below_inside _ _ _ Ht Hx); unfold within; lia]).
  unfold overlap, within in *. lia.
Qed.

(** Of two that overlap, one is below the other. *)
Lemma below_comparable st p x y : tree st -> below st p x -> below st p y -> overlap st x y -> x = y \/ below st x y \/ below st y x.
Proof.
  intros Ht Hx. assert (Hsib : forall z c, parent_of st c = Some (Some z) -> below st z y -> overlap st c y -> c = y \/ below st c y).
  { intros z c Hc Hy Ho. destruct (below_first st z y Hy) as (d & Hd & Hyd). destruct (siblings_disjoint st z c d Ht Hc Hd) as [->|Hdj]; [destruct Hyd; [by left|by right]|].
    exfalso. apply Hdj. destruct Hyd as [->|Hyd]; [done|]. apply (below_inside _ _ _ Ht) in Hyd. unfold overlap, inside in *. lia. }
  induction Hx as [x Hp|z x Hz IH Hp]; intros Hy Ho; [destruct (Hsib p x Hp Hy Ho); tauto|].
  assert (Hoz : overlap st z y) by (pose proof (parent_inside _ _ _ Ht Hp); unfold overlap, inside in *; lia).
  destruct (IH Hy Hoz) as [->|[H|H]]; [right; right; by apply below_child|destruct (Hsib z x Hp H Ho); tauto|right; right; by eapply below_deeper].
Qed.

(** If no child of [q] overlaps [new], nothing below [q] does. *)
Lemma below_clear st q l new x : tree st -> kids st q l -> (forall c, c ∈ l -> ~ overlap st new c) -> below st q x -> ~ overlap st new x.
Proof.
  intros Ht Hk Hno Hb Ho. destruct (below_first st q x Hb) as (c & Hc & Hx).
  destruct (tr_parent _ Ht c q Hc) as (l' & Hk' & Hcl). rewrite (kids_unique _ _ _ _ Hk Hk') in Hcl. apply (Hno c Hcl).
  destruct Hx as [->|Hx]; [done|]. destruct (below_inside _ _ _ Ht Hx) as (? & ? & ?). unfold overlap in *. lia.
Qed.

(** ** Loose resources *)

(** A resource without children is above nothing. *)
Lemma childless_apart st q new : tree st -> kids st new [] -> q <> new -> apart st q new.
Proof.
  intros Ht Hk Hne l Hl Hin. apply list_elem_of_split in Hin as (a & b & ->).
  destruct a as [|y a _] using rev_ind; [destruct Hl as [[= ->] _]; done|].
  rewrite <- app_assoc in Hl. apply seg_app in Hl as (o & _ & (-> & o1 & E & (-> & _))).
  destruct (tr_parent _ Ht y new E) as (l' & Hk' & Hy). rewrite (kids_unique _ _ _ _ Hk Hk') in Hy. by apply not_elem_of_nil in Hy.
Qed.

Lemma loose_ne st q new : tree st -> known st q -> loose st q new -> new <> q.
Proof. intros Ht Hq (_ & _ & Ha). by apply (apart_ne st q new). Qed.

Lemma loose_at st q new : tree st -> parent_of st new = Some None -> kids st new [] -> new <> q -> loose st q new.
Proof. intros Ht Hp Hk Hne. split; [done|]. split; [done|]. by apply childless_apart. Qed.

Lemma loose_below st p q new : tree st -> loose st p new -> parent_of st q = Some (Some p) -> loose st q new.
Proof. intros Ht (Hp & Hk & _) Hq. apply loose_at; try done. intros ->. congruence. Qed.

(** The way to the top has room in the store. *)
Lemma path_size st r l : chain (parent_of st) (Some r) l -> (length l <= size st)%nat.
Proof.
  intros Hl. rewrite <- size_dom, <- (size_list_to_set (C := gset oid) l) by (by eapply chain_NoDup).
  apply subseteq_size. intros x Hx%elem_of_list_to_set. apply elem_of_dom. destruct (seg_mapped _ _ _ _ x Hl Hx) as [o Ho]. by eapply proj_known.
Qed.

Lemma path_down st p q l : chain (parent_of st) (Some p) l -> parent_of st q = Some (Some p) -> chain (parent_of st) (Some q) (q :: l).
Proof. intros Hl Hq. split; [done|]. by exists (Some p). Qed.

(** Nothing is below itself. *)
Lemma below_irrefl st x : tree st -> ~ below st x x.
Proof.
  intros Ht Hx. destruct (tr_path _ Ht x (below_known _ _ _ Hx)) as [l Hl].
  assert (H : forall y, below st x y -> exists l', chain (parent_of st) (Some y) l' /\ (length l < length l')%nat).
  { induction 1 as [y Hp|z y _ (l' & IH1 & IH2) Hp]; [exists (y :: l)|exists (y :: l')]; (split; [by eapply path_down|simpl; lia]). }
  destruct (H x Hx) as (l' & H1 & H2). rewrite (chain_unique _ _ _ _ Hl H1) in H2. lia.
Qed.

Lemma below_ext st st' r x : (forall y, parent_of st' y = parent_of st y) -> below st r x -> below st' r x.
Proof. intros H. induction 1 as [x Hp|y x _ IH Hp]; [apply below_child|eapply below_deeper; [done|]]; by rewrite H. Qed.

(** ** On the way down *)

(** [q] is [p] or below it, and contains [new]; of what is below [p] only what is
    below [q], or contains [new] and may be passed, overlaps it. *)
Record toward (may_pass : oid -> Prop) (st : store) (p q new : oid) : Prop := {
  tw_at : q = p \/ below st p q;
  tw_known : known st q;
  tw_inside : inside st q new;
  tw_only : forall x, below st p x -> overlap st new x -> below st q x \/ within st new x /\ may_pass x
}.

Lemma toward_here P st p new : known st p -> inside st p new -> toward P st p p new.
Proof. intros Hk Hi. split; [by left|done|done|]. by left. Qed.

Lemma toward_down (P : oid -> Prop) st p f q new : tree st -> parent_of st f = Some (Some p) -> within st new f -> P f -> toward P st f q new -> toward P st p q new.
Proof.
  intros Ht Hf Hw Hw' [T1 T2 T3 T4]. split; [|done|done|].
  - right. destruct T1 as [->|T1]; [by apply below_child|by eapply below_up].
  - intros x Hx Ho. destruct (below_toward st p f new x Ht Hf Hw Hx Ho) as [->|Hb]; [by right|by apply T4].
Qed.

Lemma toward_ne P st p q new : tree st -> known st p -> loose st p new -> toward P st p q new -> q <> new.
Proof.
  intros Ht Hp Hl [[->|T1] _ _ _]; [by apply not_eq_sym, (loose_ne st p new)|]. intros ->. apply below_parent in T1 as [r Hr]. destruct Hl. congruence.
Qed.

End ResourceBelow.

(** * The resource tree: a resource takes over a run of children *)

Local Open Scope Z_scope.
Local Open Scope kernel_scope.

Module ResourceAdopt.
Import Resource ResourceTop ResourceOps ResourceAlloc ResourceDev ResourceBelow.

(** [new] stands in the place of the children [m] of [par], which are now its own;
    nothing else moved. *)
Record adopted (st st' : store) (par new : oid) (a m b : list oid) : Prop := {
  ad_rng : forall y, rng st' y = rng st y;
  ad_par : kids st' par (a ++ new :: b);
  ad_own : kids st' new m;
  ad_else : forall r l, r <> par -> r <> new -> kids st r l -> kids st' r l;
  ad_new : parent_of st' new = Some (Some par);
  ad_moved : forall x, x ∈ m -> parent_of st' x = Some (Some new);
  ad_parent : forall y, y <> new -> y ∉ m -> parent_of st' y = parent_of st y
}.

(** ** The pieces of [adopt] *)

Lemma chain_size st o l : chain (sib_of st) o l -> (length l <= size st)%nat.
Proof.
  intros Hl. rewrite <- size_dom, <- (size_list_to_set (C := gset oid) l) by (by eapply chain_NoDup).
  apply subseteq_size. intros x Hx%elem_of_list_to_set. apply elem_of_dom. destruct (seg_mapped _ _ _ _ x Hl Hx) as [v Hv]. by eapply proj_known.
Qed.

Lemma adopt_loop_ok new l : forall fuel st o, chain (sib_of st) o l -> (length l <= fuel)%nat ->
  exists st', adopt_loop fuel st o new = Some st' /\
    (forall y, rng st' y = rng st y) /\ (forall y, child_of st' y = child_of st y) /\ (forall y, sib_of st' y = sib_of st y) /\
    (forall x, x ∈ l -> parent_of st' x = Some (Some new)) /\ (forall y, y ∉ l -> parent_of st' y = parent_of st y).
Proof.
  induction l as [|x l IH]; intros fuel st o Hl Hf.
  - unfold chain in Hl. simpl in Hl. subst o. exists st. split; [by destruct fuel|]. repeat split; try done. intros x Hx. by apply not_elem_of_nil in Hx.
  - pose proof (chain_NoDup _ _ _ Hl) as [Hx _]%NoDup_cons. destruct Hl as (-> & o1 & Eo & Hl). simpl in Hf. destruct fuel as [|fuel]; [lia|].
    pose proof Eo as Er. unfold sib_of in Er. apply fmap_Some in Er as (rx & Ex & ->). simpl. rewrite Ex. simpl.
    destruct (upd_parent st x (Some new)) as (st1 & -> & R1 & C1 & S1 & P1 & P1'); [by eexists|]. simpl.
    destruct (IH fuel st1 (sibling rx)) as (st' & E & R & C & S & P & P'); [by eapply seg_ext; [|exact Hl]; auto|lia|].
    exists st'. split; [done|]. split; [intros y; by rewrite R, R1|]. split; [intros y; by rewrite C, C1|]. split; [intros y; by rewrite S, S1|]. split.
    + intros y [->|Hy]%elem_of_cons; [by rewrite P'|by apply P].
    + intros y [Hy Hy']%not_elem_of_cons. by rewrite P', P1'.
Qed.

(** The search for the slot that leads to [first], and the store to it. *)
Lemma relink st par a first rest v : kids st par (a ++ first :: rest) ->
  (rp ← st !! par;
   if bool_decide (child rp = Some first) then upd st par (set_child v)
   else c ← child rp; prev ← find_prev (size st) st c first; upd st prev (set_sibling v)) = write st par (slot_of a) v.
Proof.
  intros Hk. pose proof (kids_NoDup _ _ _ Hk) as (_ & Hd & _)%NoDup_app. destruct (kids_split st par a (first :: rest) Hk) as (c & Ec & Hs & _).
  pose proof (kids_size _ _ _ Hk) as Hsz. rewrite length_app in Hsz. unfold child_of in Ec. apply fmap_Some in Ec as (rp & -> & ->). simpl in Hs |- *.
  destruct a as [|p a _] using rev_ind; [simpl in Hs; by rewrite bool_decide_eq_true_2|]. rewrite slot_of_snoc.
  assert (Hne : exists t, child rp = Some t /\ t ∈ a ++ [p]) by (destruct a as [|x a]; simpl in Hs; destruct Hs as [-> _]; eexists; (split; [done|]); set_solver).
  destruct Hne as (t & Et & Hin). rewrite Et in *. rewrite bool_decide_eq_false_2 by (intros [= ->]; apply (Hd first Hin); set_solver). simpl.
  rewrite (find_prev_ok st first p a); [done|done|intros H; apply (Hd first H); set_solver|]. rewrite length_app in Hsz. lia.
Qed.

Lemma upd_adopter st new par sib f : known st new -> exists st',
  upd st new (fun r => mk_res (start r) (end_ r) (flags r) (Some par) sib (Some f)) = Some st' /\
  (forall y, rng st' y = rng st y) /\
  parent_of st' new = Some (Some par) /\ (forall y, y <> new -> parent_of st' y = parent_of st y) /\
  child_of st' new = Some (Some f) /\ (forall y, y <> new -> child_of st' y = child_of st y) /\
  sib_of st' new = Some sib /\ (forall y, y <> new -> sib_of st' y = sib_of st y).
Proof.
  intros [r Hr]. unfold upd. rewrite Hr. simpl. eexists. split; [done|]. split; [solve_upd new Hr|].
  unfold parent_of, child_of, sib_of. rewrite lookup_insert_eq. split; [done|]. split; [intros y Hy; by rewrite lookup_insert_ne|].
  split; [done|]. split; [intros y Hy; by rewrite lookup_insert_ne|]. split; [done|]. intros y Hy. by rewrite lookup_insert_ne.
Qed.

Lemma adopt_ok st par new a f m z b mm : tree st -> kids st par (a ++ mm ++ b) -> mm = f :: m -> last mm = Some z -> loose st par new ->
  exists st', adopt st par new f z = Some st' /\ adopted st st' par new a mm b.
Proof.
  intros Ht Hk Emm Hz Hl. pose proof (loose_ne _ _ _ Ht (kids_root _ _ _ Hk) Hl) as Hne. destruct Hl as (Hpn & Hkn & _).
  assert (Hnk : forall r l, kids st r l -> new ∉ l) by (intros r l Hl Hin; destruct (child_parent _ _ _ _ Ht Hl Hin); congruence).
  pose proof (Hnk _ _ Hk) as Hnew. pose proof (kids_NoDup _ _ _ Hk) as (Na & Dab & (Nm & Dmb & Nb)%NoDup_app)%NoDup_app.
  destruct (kids_split st par a (mm ++ b) Hk) as (c & Ec & Hsa & Hsm). apply last_Some in Hz as [m0 Em0].
  assert (Hsm' : seg (sib_of st) (Some f) mm (head b) /\ chain (sib_of st) (head b) b).
  { destruct (kids_split st par (a ++ mm) b) as (c' & _ & Hs & Hb); [by rewrite <- app_assoc|]. split; [|done]. apply seg_app in Hs as (o & Hs1 & Hs2).
    destruct mm as [|f' mm]; [done|]. injection Emm as -> ->. destruct Hs2 as (-> & o2 & Eo & Hs2). split; [done|]. by exists o2. }
  destruct Hsm' as [Hm Hb]. assert (Hzr : exists rz, st !! z = Some rz /\ sibling rz = head b).
  { destruct (kids_known st par _ z Hk) as [rz Ez]; [rewrite Em0; set_solver|]. exists rz. split; [done|].
    eapply (sibling_head st par (a ++ m0)); [|exact Ez]. rewrite Em0 in Hk. by rewrite <- !app_assoc in *. }
  destruct Hzr as (rz & Ez & Esz). unfold adopt. rewrite Ez. simpl. rewrite Esz.
  destruct (upd_adopter st new par (head b) f) as (st1 & -> & R1 & P1 & P1' & C1 & C1' & S1 & S1'); [by eapply proj_known|]. simpl.
  destruct (upd_sibling st1 z None) as (st2 & -> & R2 & P2 & C2 & S2 & S2'); [apply (rng_known st); [done|by eexists]|]. simpl.
  assert (Hzn : z <> new) by (intros ->; apply Hnew; rewrite Em0; set_solver).
  assert (Hm2 : chain (sib_of st2) (Some f) mm).
  { rewrite Em0 in Hm |- *. apply seg_app in Hm as (o & H1 & (-> & _)). apply seg_app. exists (Some z). split; [|split; [done|by exists None]].
    eapply seg_ext; [|exact H1]. intros y Hy. rewrite Em0 in Nm, Hnew. rewrite S2', S1'; [done|set_solver|]. intros ->. apply NoDup_app in Nm as (_ & D & _). apply (D z Hy). set_solver. }
  destruct (adopt_loop_ok new mm (size st2) st2 (Some f) Hm2 (chain_size _ _ _ Hm2)) as (st3 & -> & R3 & C3 & S3 & P3 & P3'). simpl.
  assert (Hza : z ∉ a) by (intros H; apply (Dab z H); rewrite Em0; set_solver).
  assert (Hk3 : kids st3 par (a ++ mm)).
  { exists c. split; [by rewrite C3, C2, C1'|]. apply seg_app. exists (Some f). split; [|by eapply seg_ext; [|exact Hm2]; auto].
    rewrite Emm in Hsa. eapply seg_ext; [|exact Hsa]. intros y Hy. rewrite S3, S2', S1'; [done|set_solver|]. by intros ->. }
  pose proof Hk3 as Hk3'. rewrite Emm in Hk3'. rewrite (relink st3 par a f m (Some new) Hk3').
  destruct (resource_write_ok st3 par a mm (Some new) Hk3) as (st4 & -> & R4 & P4 & C4 & S4 & (c4 & Ec4 & Hs4)).
  assert (Hslot : forall y, y ∉ a -> slot_of a <> SNext y) by (intros y Hy E; by apply Hy, slot_of_in).
  assert (Hsib : forall y, y ∉ a -> y <> z -> y <> new -> sib_of st4 y = sib_of st y) by (intros y H1 H2 H3; by rewrite S4, S3, S2', S1' by auto).
  assert (Hpar : forall y, y <> new -> y ∉ mm -> parent_of st4 y = parent_of st y) by (intros y H1 H2; by rewrite P4, P3', P2, P1').
  assert (Hza' : z ∈ mm) by (rewrite Em0; set_solver).
  exists st4. split; [done|]. split.
  - intros y. by rewrite R4, R3, R2, R1.
  - exists c4. split; [done|]. apply seg_app. exists (Some new). split; [done|]. split; [done|]. exists (head b). split.
    + rewrite S4, S3, S2' by (auto; apply Hslot; set_solver). done.
    + eapply seg_ext; [|exact Hb]. intros y Hy. apply Hsib; [intros H; apply (Dab y H); set_solver|intros ->; by apply (Dmb z)|set_solver].
  - exists (Some f). split; [by rewrite C4, C3, C2|]. eapply seg_ext; [|exact Hm2]. intros y Hy. rewrite S4, S3; [done|]. apply Hslot. intros H. apply (Dab y H). set_solver.
  - intros r l H1 H2 Hkl. pose proof Hkl as (cr & Er & Hcr). exists cr. split; [by rewrite C4, C3, C2, C1'|]. eapply seg_ext; [|exact Hcr].
    intros y Hy. destruct (child_parent st r l y Ht Hkl Hy) as [Hpy _]. assert (Hnp : y ∉ a ++ mm ++ b) by (intros H; destruct (child_parent st par _ y Ht Hk H) as [? _]; congruence).
    apply Hsib; [set_solver|intros ->; set_solver|]. intros ->. by apply (Hnk r l).
  - rewrite P4, P3', P2 by set_solver. done.
  - intros x Hx. rewrite P4. by apply P3.
  - done.
Qed.

(** ** The tree afterwards *)

Section after.
Context (st st' : store) (par new : oid) (a m b : list oid).
Hypothesis Ht : tree st.
Hypothesis Hk : kids st par (a ++ m ++ b).
Hypothesis Hl : loose st par new.
Hypothesis Had : adopted st st' par new a m b.

Lemma adopted_ne : new <> par.
Proof. exact (loose_ne _ _ _ Ht (kids_root _ _ _ Hk) Hl). Qed.

Lemma adopted_child x : x ∈ a ++ m ++ b -> parent_of st x = Some (Some par) /\ inside st par x /\ x <> new.
Proof.
  intros Hx. destruct (child_parent st par _ x Ht Hk Hx) as [H1 H2]. split; [done|]. split; [done|]. intros ->. destruct Hl. congruence.
Qed.

Lemma par_path : exists l, chain (parent_of st') (Some par) l.
Proof.
  destruct (tr_path _ Ht par (kids_root _ _ _ Hk)) as [l Hp]. exists l. eapply seg_ext; [|exact Hp]. intros y Hy. apply (ad_parent _ _ _ _ _ _ _ Had).
  - intros ->. by apply (proj2 (proj2 Hl) l).
  - intros Hm. destruct (adopted_child y) as (Hyp & _); [set_solver|]. pose proof (path_down _ _ _ _ Hp Hyp) as Hd.
    apply chain_NoDup, NoDup_cons in Hd as [? _]. done.
Qed.

Lemma adopted_path l : forall o, chain (parent_of st) o l -> exists l', chain (parent_of st') o l'.
Proof.
  destruct par_path as [lp Hp]. induction l as [|x l IH]; intros o Hc; [exists []; exact Hc|]. destruct Hc as (-> & o1 & Eo & Hc). destruct (IH o1 Hc) as [l' Hl'].
  destruct (decide (x = new)) as [->|Hn]; [exists (new :: lp); split; [done|]; exists (Some par); by split; [apply Had|]|].
  destruct (decide (x ∈ m)) as [Hm|Hm].
  - exists (x :: new :: lp). split; [done|]. exists (Some new). split; [by apply Had|]. split; [done|]. exists (Some par). by split; [apply Had|].
  - exists (x :: l'). split; [done|]. exists o1. split; [|done]. by rewrite (ad_parent _ _ _ _ _ _ _ Had).
Qed.

Lemma tree_adopted : inside st par new -> (forall x, x ∈ m -> within st x new) ->
  Forall (fun x => before st x new) a -> Forall (before st new) b -> tree st'.
Proof.
  intros Hin Hw Ha Hb. pose proof Had as [Hr Hkp Hkn He Hpn Hpm Hpy]. pose proof adopted_ne as Hne.
  pose proof (kids_sorted _ _ _ Ht Hk) as Hs. apply StronglySorted_app in Hs as (Sx & Sa & (Sy & Sm & Sb)%StronglySorted_app).
  pose proof (kids_NoDup _ _ _ Hk) as (Na & Dab & (Nm & Dmb & Nb)%NoDup_app)%NoDup_app. split.
  - intros r Hkr. apply (rng_known st st' r (Hr r)) in Hkr. destruct (decide (r = par)) as [->|Hrp]; [|destruct (decide (r = new)) as [->|Hrn]].
    + exists (a ++ new :: b). split; [done|]. split.
      * apply (sorted_before_ext st st'); [done|]. apply sorted_insert; try done. apply StronglySorted_app. split; [|done]. intros x y Hx Hy. apply Sx; [done|set_solver].
      * intros c Hc. destruct (decide (c = new)) as [->|Hcn]; [split; [done|by apply (inside_ext st)]|].
        destruct (adopted_child c) as (Hcp & Hci & _); [set_solver|]. split; [|by apply (inside_ext st)].
        rewrite Hpy; [done|done|]. intros Hm. apply elem_of_app in Hc as [Hc|[->|Hc]%elem_of_cons]; [apply (Dab c Hc); set_solver|done|by apply (Dmb c)].
    + exists m. split; [done|]. split; [by apply (sorted_before_ext st st')|]. intros c Hc. split; [by apply Hpm|]. apply (inside_ext st); [done|].
      destruct (adopted_child c) as (_ & (_ & Hci & _) & _); [set_solver|]. destruct (Hw c Hc). unfold inside. lia.
    + destruct (tr_kids _ Ht r Hkr) as (l & Hkl & Hsl & Hall). exists l. split; [by apply He|]. split; [by eapply sorted_before_ext|].
      intros c Hc. destruct (Hall c Hc) as [Hcp Hci]. split; [|by apply (inside_ext st)]. rewrite Hpy; [done|intros ->; destruct Hl; congruence|].
      intros Hm. destruct (adopted_child c) as (? & _); [set_solver|]. congruence.
  - intros c p Hp. destruct (decide (c = new)) as [->|Hcn]; [rewrite Hpn in Hp; injection Hp as <-; exists (a ++ new :: b); split; [done|set_solver]|].
    destruct (decide (c ∈ m)) as [Hcm|Hcm]; [rewrite (Hpm c Hcm) in Hp; injection Hp as <-; by exists m|].
    rewrite Hpy in Hp by done. destruct (tr_parent _ Ht c p Hp) as (l & Hkl & Hcl). destruct (decide (p = par)) as [->|Hpp].
    + exists (a ++ new :: b). split; [done|]. rewrite (kids_unique _ _ _ _ Hk Hkl) in Hcl. set_solver.
    + exists l. split; [|done]. apply He; try done. intros ->. destruct Hl as (_ & Hk0 & _). rewrite (kids_unique _ _ _ _ Hk0 Hkl) in Hcl. by apply not_elem_of_nil in Hcl.
  - intros r Hkr. apply (rng_known st st' r (Hr r)) in Hkr. destruct (tr_path _ Ht r Hkr) as [l Hp]. by apply (adopted_path l).
  - intros r Hkr. destruct (rng_lo st st' r (Hr r)) as [-> ->]. apply Ht. by apply (rng_known st st' r (Hr r)).
Qed.

End after.

End ResourceAdopt.
