(* ===== verification/ResourceInsert.v ===== *)
(** * The resource tree: inserting above other resources *)

From Stdlib Require Import ZArith Lia.
From stdpp Require Import base option gmap sorting list.
From S2P Require Import Prelude Chain Resource ResourceTop ResourceAlloc ResourceDev ResourceBelow.

Local Open Scope Z_scope.
Local Open Scope kernel_scope.

Module ResourceInsert.
Import Resource ResourceTop ResourceOps ResourceAlloc ResourceDev ResourceBelow ResourceAdopt.

(** ** The way down *)

Notation heading st p q new := (toward (fun x => ~ within st x new) st p q new).

(** Where the descent ends. *)
Definition descended (st : store) (p new : oid) (st' : store) (d : descent) : Prop :=
  match d with
  | Done (Some c) => st' = st /\ c = p /\ ~ inside st p new
  | Done None => exists q l1 l2, heading st p q new /\ kids st q (l1 ++ l2) /\ linked st st' q new l1 l2 /\ tree st' /\
      forall c, c ∈ l1 ++ l2 -> ~ overlap st new c
  | At q f => st' = st /\ heading st p q new /\ (exists a b, kids st q (a ++ f :: b) /\ Forall (fun x => before st x new) a) /\
      overlap st new f /\ (within st new f -> within st f new)
  end.

Lemma descended_down st p f new st' d : tree st -> parent_of st f = Some (Some p) -> within st new f -> ~ within st f new -> inside st f new ->
  descended st f new st' d -> descended st p new st' d.
Proof.
  intros Ht Hf Hw Hw' Hi H. destruct d as [[c|]|q g]; simpl in *.
  - by destruct H as (_ & -> & Hn).
  - destruct H as (q & l1 & l2 & Hq & H). exists q, l1, l2. split; [by eapply toward_down|done].
  - destruct H as (-> & Hq & H). split; [done|]. split; [by eapply toward_down|done].
Qed.

Lemma insert_descend_ok st new : tree st -> forall fuel p lp, known st p -> loose st p new -> chain (parent_of st) (Some p) lp ->
  (size st < fuel + length lp)%nat ->
  exists st' d, insert_descend fuel st p new = Some (st', d) /\ descended st p new st' d.
Proof.
  intros Ht. induction fuel as [|fuel IH]; intros p lp Hp Hl Hlp Hf.
  { pose proof (path_size _ _ _ Hlp). lia. }
  destruct (tr_kids _ Ht p Hp) as (l & Hk & _). pose proof Hl as (Hpn & Hkn & Hap).
  destruct (request_ok st p new l Ht Hk Hpn Hap) as (st1 & cf & E & Hrq). simpl. rewrite E. simpl. destruct cf as [f|]; simpl in Hrq.
  2: { destruct Hrq as (Ht' & Hin & Hno & (l1 & l2 & -> & Hln)). eexists _, _. split; [done|]. exists p, l1, l2. split; [by apply toward_here|]. done. }
  destruct Hrq as [-> Hrq]. case_bd as Hfp; [subst f; eexists _, _; by split|].
  destruct Hrq as (Hin & Hfl & Ho & (a & b & -> & Ha)). destruct (kids_known st p _ f Hk Hfl) as [rf Ef]. destruct (proj_known _ _ _ _ Hpn) as [rn En].
  rewrite Ef, En. simpl. destruct (lookup_bounds _ _ _ Ef) as [-> ->]. destruct (lookup_bounds _ _ _ En) as [-> ->].
  assert (Hat : (within st new f -> within st f new) -> descended st p new st (At p f)).
  { intros Hn. split; [done|]. split; [by apply toward_here|]. split; [by exists a, b|done]. }
  destruct (bool_decide (lo st f > lo st new) || bool_decide (hi st f < hi st new)) eqn:E1.
  { eexists _, _. split; [done|]. apply Hat. intros [H1 H2]. apply orb_true_iff in E1 as [E1|E1]; apply bool_decide_eq_true in E1; lia. }
  apply orb_false_iff in E1 as [E1%bool_decide_eq_false E2%bool_decide_eq_false].
  destruct (bool_decide (lo st f = lo st new) && bool_decide (hi st f = hi st new)) eqn:E3.
  { eexists _, _. split; [done|]. apply Hat. intros _. apply andb_true_iff in E3 as [E3%bool_decide_eq_true E4%bool_decide_eq_true]. unfold within. lia. }
  destruct (child_parent st p _ f Ht Hk Hfl) as [Hpf Hif].
  destruct (IH f (f :: lp)) as (st' & d & E' & Hd); [by eexists|by eapply loose_below|by eapply path_down|simpl; lia|].
  exists st', d. split; [done|]. unfold inside in *. apply andb_false_iff in E3.
  eapply (descended_down st p f); try done; unfold within, inside; destruct E3 as [E3%bool_decide_eq_false|E3%bool_decide_eq_false]; lia.
Qed.

(** ** The children that are in the way *)

(** The outcome for the children [l] from the first that overlaps [new]. *)
Definition covered (st : store) (new : oid) (l : list oid) (res : oid + oid) : Prop :=
  match res with
  | inl c => exists l1 l2, l = l1 ++ c :: l2 /\ (forall x, x ∈ l1 -> within st x new) /\ lo st c <= hi st new /\ ~ within st c new
  | inr z => exists m b, l = m ++ z :: b /\ (forall x, x ∈ m ++ [z] -> within st x new) /\ Forall (before st new) b
  end.

Lemma covered_cons st new x l res : within st x new -> covered st new l res -> covered st new (x :: l) res.
Proof.
  intros Hx. destruct res as [c|z]; simpl.
  - intros (l1 & l2 & -> & H & H'). exists (x :: l1), l2. split; [done|]. split; [|done]. intros y [->|Hy]%elem_of_cons; [done|by apply H].
  - intros (m & b & -> & H & H'). exists (x :: m), b. split; [done|]. split; [|done]. intros y [->|Hy]%elem_of_cons; [done|by apply H].
Qed.

Lemma cover_loop_step st q a x l new fuel : kids st q (a ++ x :: l) -> known st new ->
  cover_loop fuel st x new =
    if bool_decide (lo st x < lo st new) || bool_decide (hi st x > hi st new) then Some (inl x)
    else match head l with
         | None => Some (inr x)
         | Some s => if bool_decide (lo st s > hi st new) then Some (inr x)
                     else match fuel with O => None | S fuel => cover_loop fuel st s new end
         end.
Proof.
  intros Hk [rn En]. destruct (kids_known st q _ x Hk) as [rx Ex]; [set_solver|]. rewrite <- (sibling_head _ _ _ _ _ _ Hk Ex).
  destruct (lookup_bounds _ _ _ Ex) as [<- <-]. destruct (lookup_bounds _ _ _ En) as [<- <-].
  assert (Hs : forall s, sibling rx = Some s -> exists rs, st !! s = Some rs /\ start rs = lo st s).
  { rewrite (sibling_head _ _ _ _ _ _ Hk Ex). intros s Hs. destruct l as [|y l]; [done|]. injection Hs as ->.
    destruct (kids_known st q _ s Hk) as [rs Es]; [set_solver|]. exists rs. split; [done|]. by apply lookup_bounds in Es as [? _]. }
  destruct fuel; simpl; rewrite Ex, En; simpl; (destruct (_ || _); [done|]); (destruct (sibling rx) as [s|]; [|done]);
    destruct (Hs s eq_refl) as (rs & -> & <-); done.
Qed.

Lemma cover_loop_ok st q new l : tree st -> known st new -> forall fuel a x, kids st q (a ++ x :: l) -> lo st x <= hi st new -> (length l <= fuel)%nat ->
  exists res, cover_loop fuel st x new = Some res /\ covered st new (x :: l) res.
Proof.
  intros Ht Hn. induction l as [|y l IH]; intros fuel a x Hk Hlo Hf; rewrite (cover_loop_step st q a x _ new fuel Hk Hn);
    (destruct (bool_decide (lo st x < lo st new) || bool_decide (hi st x > hi st new)) eqn:E1;
    [eexists; (split; [done|]); eexists [], _; (split; [done|]); (split; [intros z Hz; by apply not_elem_of_nil in Hz|]); (split; [done|]);
     unfold within; apply orb_true_iff in E1 as [E1|E1]; apply bool_decide_eq_true in E1; lia|]);
    apply orb_false_iff in E1 as [E1%bool_decide_eq_false E2%bool_decide_eq_false]; assert (Hw : within st x new) by (unfold within; lia); simpl.
  - eexists. split; [done|]. exists [], []. split; [done|]. split; [|constructor]. intros z Hz%list_elem_of_singleton. by subst.
  - assert (Hk' : kids st q ((a ++ [x]) ++ y :: l)) by (by rewrite <- app_assoc). simpl in Hf. destruct fuel as [|fuel]; [lia|]. case_bd as Hgt.
    + eexists. split; [done|]. exists [], (y :: l). split; [done|]. split; [intros z Hz%list_elem_of_singleton; by subst|].
      pose proof (kids_sorted _ _ _ Ht Hk') as (_ & _ & Hs)%StronglySorted_app. inversion Hs as [|? ? _ Hfa]; subst.
      destruct (child_parent st q _ y Ht Hk') as [_ (_ & Hy & _)]; [set_solver|]. rewrite Forall_forall in Hfa.
      constructor; [unfold before; lia|]. apply Forall_forall. intros z Hz. specialize (Hfa z Hz). unfold before in *. lia.
    + destruct (IH fuel (a ++ [x]) y Hk' ltac:(lia) ltac:(lia)) as (res & E & Hc). exists res. split; [done|]. by apply covered_cons.
Qed.

(** ** The whole *)

(** [new] was inserted below [p]: the tree has the same resources in the same
    places to one another, and below [new] is exactly what lies inside it. *)
Record inserted (st st' : store) (p new : oid) : Prop := {
  in_tree : tree st';
  in_rng : forall y, rng st' y = rng st y;
  in_below : below st' p new;
  in_own : forall x, below st' new x <-> below st p x /\ within st x new;
  in_rest : forall x y, x <> new -> y <> new -> below st' x y <-> below st x y
}.

(** How the parents change: some resources have [new] between their parent and
    themselves. *)
Record between (st st' : store) (q new : oid) : Prop := {
  bt_new : parent_of st' new = Some (Some q);
  bt_top : parent_of st new = Some None;
  bt_leaf : forall y, parent_of st y <> Some (Some new);
  bt_to : forall y r, parent_of st y = Some (Some r) -> parent_of st' y = Some (Some r) \/ r = q /\ parent_of st' y = Some (Some new);
  bt_from : forall y r, y <> new -> parent_of st' y = Some (Some r) -> parent_of st y = Some (Some r) \/ r = new /\ parent_of st y = Some (Some q)
}.

Lemma between_below st st' q new x y : between st st' q new -> x <> new -> y <> new -> below st' x y <-> below st x y.
Proof.
  intros [Hn Ht Hlf Hto Hfr] Hx Hy. split.
  - intros Hb. assert (H : (y <> new -> below st x y) /\ (y = new -> q = x \/ below st x q)); [|by apply H].
    clear Hy. induction Hb as [y Hp|z y Hz [IH1 IH2] Hp].
    + split; [|intros ->; left; congruence]. intros Hy. destruct (Hfr y x Hy Hp) as [H|[-> _]]; [by apply below_child|done].
    + split.
      * intros Hy. destruct (Hfr y z Hy Hp) as [H|[-> H]]; [eapply below_deeper; [apply IH1|exact H]; intros ->; by apply (Hlf y)|].
        destruct (IH2 eq_refl) as [->|H']; [by apply below_child|by eapply below_deeper].
      * intros ->. rewrite Hn in Hp. injection Hp as <-. destruct (decide (q = new)) as [->|Hq]; [by apply IH2|right; by apply IH1].
  - intros Hb. clear Hy. induction Hb as [y Hp|z y _ IH Hp]; destruct (Hto y _ Hp) as [H|[-> H]].
    + by apply below_child.
    + eapply below_deeper; [by apply below_child|done].
    + by eapply below_deeper.
    + eapply below_deeper; [|exact H]. by eapply below_deeper.
Qed.

Lemma toward_new P st st' p q new : tree st -> loose st p new -> toward P st p q new -> between st st' q new -> known st p -> below st' p new.
Proof.
  intros Ht Hl Hq Hb Hp. pose proof (toward_ne _ _ _ _ _ Ht Hp Hl Hq) as Hne. destruct Hq as [T1 T2 T3 T4]. pose proof (bt_new _ _ _ _ Hb) as Hn. destruct T1 as [->|T1]; [by apply below_child|].
  eapply below_deeper; [|exact Hn]. apply (between_below st st' q new p q Hb); [|done|done]. by apply not_eq_sym, (loose_ne st p new).
Qed.

Lemma linked_between st st' p q new l1 l2 : tree st -> loose st p new -> kids st q (l1 ++ l2) -> linked st st' q new l1 l2 -> between st st' q new.
Proof.
  intros Ht (Hp & Hkn & _) Hk [R K E N P]. assert (Hleaf : forall y, parent_of st y <> Some (Some new)).
  { intros y Hy. destruct (tr_parent _ Ht y new Hy) as (l & Hkl & Hyl). rewrite (kids_unique _ _ _ _ Hkn Hkl) in Hyl. by apply not_elem_of_nil in Hyl. }
  split; try done.
  - intros y r Hy. left. rewrite P; [done|]. intros ->. congruence.
  - intros y r Hy Hr. left. by rewrite <- P.
Qed.

Lemma adopted_between st st' p q new a m b : tree st -> loose st p new -> kids st q (a ++ m ++ b) -> adopted st st' q new a m b -> between st st' q new.
Proof.
  intros Ht (Hp & Hkn & _) Hk [R K O E N M P]. assert (Hleaf : forall y, parent_of st y <> Some (Some new)).
  { intros y Hy. destruct (tr_parent _ Ht y new Hy) as (l & Hkl & Hyl). rewrite (kids_unique _ _ _ _ Hkn Hkl) in Hyl. by apply not_elem_of_nil in Hyl. }
  assert (Hm : forall y, y ∈ m -> parent_of st y = Some (Some q)) by (intros y Hy; destruct (child_parent st q _ y Ht Hk) as [? _]; [set_solver|done]).
  split; try done.
  - intros y r Hy. destruct (decide (y ∈ m)) as [Hym|Hym]; [right; split; [|by apply M]; specialize (Hm y Hym); congruence|].
    left. rewrite P; [done|intros ->; congruence|done].
  - intros y r Hy Hr. destruct (decide (y ∈ m)) as [Hym|Hym]; [right; split; [rewrite (M y Hym) in Hr; congruence|by apply Hm]|]. left. by rewrite <- P.
Qed.

(** What the way down did not pass is below [q]. *)
Lemma toward_own st p q new x : tree st -> heading st p q new -> below st p x -> within st x new -> below st q x.
Proof.
  intros Ht [T1 T2 T3 T4] Hx [Hw1 Hw2]. destruct (below_inside _ _ _ Ht Hx) as (_ & Hlx & _).
  destruct (T4 x Hx) as [H|[_ H]]; [unfold overlap, inside in *; lia|done|]. destruct H. by split.
Qed.

Lemma linked_inserted st st' p q new l1 l2 : tree st -> known st p -> loose st p new -> heading st p q new -> kids st q (l1 ++ l2) ->
  linked st st' q new l1 l2 -> tree st' -> (forall c, c ∈ l1 ++ l2 -> ~ overlap st new c) -> inserted st st' p new.
Proof.
  intros Ht Hp Hl Hq Hk Hln Ht' Hno. pose proof (linked_between _ _ _ _ _ _ _ Ht Hl Hk Hln) as Hb. pose proof (ln_rng _ _ _ _ _ _ Hln) as Hr.
  split; [done|done|by eapply (toward_new _ st st' p q new)| |intros x y Hx Hy; by apply (between_below st st' q new)].
  intros x. split.
  - intros (c & Hc & _)%below_first. exfalso. destruct Hln as [_ _ _ Hn Hpar]. destruct (decide (c = new)) as [->|Hcn].
    + rewrite Hn in Hc. injection Hc as ->. by apply (toward_ne _ _ _ _ _ Ht Hp Hl Hq).
    + rewrite Hpar in Hc by done. by apply (bt_leaf _ _ _ _ Hb) in Hc.
  - intros [Hx Hw]. pose proof (toward_own _ _ _ _ _ Ht Hq Hx Hw) as Hbq. exfalso. apply (below_clear st q _ new x Ht Hk Hno Hbq).
    destruct (below_inside _ _ _ Ht Hx) as (_ & ? & _). destruct (tw_inside _ _ _ _ _ Hq). unfold overlap, within in *. lia.
Qed.

Lemma adopted_inserted st st' p q new a m b : tree st -> known st p -> loose st p new -> heading st p q new -> kids st q (a ++ m ++ b) ->
  adopted st st' q new a m b -> (forall x, x ∈ m -> within st x new) -> Forall (fun x => before st x new) a -> Forall (before st new) b -> inserted st st' p new.
Proof.
  intros Ht Hp Hl Hq Hk Had Hw Ha Hb. pose proof (adopted_between _ _ _ _ _ _ _ _ Ht Hl Hk Had) as Hbt. pose proof (toward_ne _ _ _ _ _ Ht Hp Hl Hq) as Hqn.
  assert (Hlq : loose st q new) by (destruct Hl as (? & ? & _); by apply loose_at). pose proof (tw_inside _ _ _ _ _ Hq) as Hin.
  assert (Ht' : tree st') by (by apply (tree_adopted st st' q new a m b)). split; [done|apply Had|by eapply (toward_new _ st st' p q new)| |intros x y Hx Hy; by apply (between_below st st' q new)].
  assert (Hkid : forall c, parent_of st' c = Some (Some new) <-> c ∈ m).
  { intros c. split; [|apply Had]. intros Hc. destruct (tr_parent _ Ht' c new Hc) as (l & Hkl & Hcl). by rewrite (kids_unique _ _ _ _ (ad_own _ _ _ _ _ _ _ Had) Hkl) in Hcl. }
  assert (Hqp : forall x, below st q x -> below st p x) by (intros x Hx; destruct (tw_at _ _ _ _ _ Hq) as [->|H]; [done|by eapply below_trans]).
  assert (Hmq : forall c, c ∈ m -> parent_of st c = Some (Some q) /\ c <> new) by (intros c Hc; destruct (adopted_child st q new a m b Ht Hk Hlq c) as (? & _ & ?); [set_solver|done]).
  assert (Hnb : forall c x, c <> new -> below st' c x -> x = new \/ below st c x).
  { intros c x Hc Hx. destruct (decide (x = new)) as [->|Hx']; [by left|right]. by apply (between_below st st' q new). }
  intros x. split.
  - intros (c & Hc & Hx)%below_first. apply Hkid in Hc. destruct (Hmq c Hc) as [Hcq Hcn]. destruct Hx as [->|Hx]; [split; [by apply Hqp, below_child|by apply Hw]|].
    assert (Hxn : x <> new) by (intros ->; apply (below_irrefl st' new Ht'); eapply below_up; [by apply Hkid|done]).
    destruct (Hnb c x Hcn Hx) as [->|Hx']; [done|]. split; [apply Hqp; by eapply below_up|]. eapply within_trans; [|by apply Hw].
    destruct (below_inside _ _ _ Ht Hx') as (? & ? & ?). unfold within. lia.
  - intros [Hx Hwx]. pose proof (toward_own _ _ _ _ _ Ht Hq Hx Hwx) as Hbq. destruct (below_first _ _ _ Hbq) as (c & Hc & Hcx).
    destruct (tr_parent _ Ht c q Hc) as (l & Hkl & Hcl). rewrite (kids_unique _ _ _ _ Hk Hkl) in Hcl.
    assert (Hxc : within st x c /\ lo st x <= hi st x).
    { pose proof (below_inside _ _ _ Ht Hx) as (_ & Hlx & _). split; [|done]. destruct Hcx as [->|Hcx]; [unfold within; lia|]. destruct (below_inside _ _ _ Ht Hcx) as (? & ? & ?). unfold within. lia. }
    destruct Hxc as [Hxc Hlx]. rewrite Forall_forall in Ha, Hb. unfold before, within in *. assert (Hcm : c ∈ m).
    { apply elem_of_app in Hcl as [Hca|[Hcm|Hcb]%elem_of_app]; [specialize (Ha c Hca); lia|done|specialize (Hb c Hcb); lia]. }
    destruct (Hmq c Hcm) as [_ Hcn]. destruct Hcx as [->|Hcx]; [by apply below_child, Hkid|].
    eapply below_up; [by apply Hkid|]. apply (between_below st st' q new); try done. intros ->. apply below_parent in Hx as [r Hr]. destruct Hl. congruence.
Qed.

(** The conflicting resource is [p] when [new] is not inside it, and otherwise one
    below [p] with which it clashes. *)
Lemma resource_insert_ok st p new : tree st -> known st p -> loose st p new ->
  exists st' conflict, __insert_resource st p new = Some (st', conflict) /\
    match conflict with
    | None => inside st p new /\ (forall x, below st p x -> ~ clash st new x) /\ inserted st st' p new
    | Some c => st' = st /\ if bool_decide (c = p) then ~ inside st p new else inside st p new /\ below st p c /\ clash st new c
    end.
Proof.
  intros Ht Hp Hl. destruct (tr_path _ Ht p Hp) as [lp Hlp].
  destruct (insert_descend_ok st new Ht (size st) p lp Hp Hl Hlp) as (st1 & d & E & Hd); [destruct lp; [done|simpl; lia]|].
  unfold __insert_resource. rewrite E. simpl.
  assert (Hip : forall q, heading st p q new -> inside st p new).
  { intros q [[->|T] _ Hi _]; [done|]. pose proof (below_inside _ _ _ Ht T). unfold inside in *. lia. }
  destruct d as [[c|]|q f]; simpl in Hd.
  - destruct Hd as (-> & -> & Hn). eexists _, _. split; [done|]. simpl. by rewrite bool_decide_eq_true_2.
  - destruct Hd as (q & l1 & l2 & Hq & Hk & Hln & Ht' & Hno). eexists _, _. split; [done|]. split; [by eapply Hip|]. split; [|by eapply linked_inserted].
    intros x Hx (Ho & Hw & _). destruct (tw_only _ _ _ _ _ Hq x Hx Ho) as [H|[? _]]; [|done]. by apply (below_clear st q _ new x Ht Hk Hno).
  - destruct Hd as (-> & Hq & (a & b & Hk & Ha) & Ho & Hnc). pose proof (toward_ne _ _ _ _ _ Ht Hp Hl Hq) as Hqn.
    assert (Hlq : loose st q new) by (destruct Hl as (? & ? & _); by apply loose_at).
    destruct (cover_loop_ok st q new b Ht) with (fuel := size st) (a := a) (x := f) as (res & E2 & Hc);
      [eapply proj_known; apply Hl|done|apply Ho|pose proof (kids_size _ _ _ Hk) as Hs; rewrite length_app in Hs; simpl in Hs; lia|].
    rewrite E2. simpl. destruct res as [c|z]; simpl in Hc.
    + destruct Hc as (m & b' & El & Hm & Hlo & Hnw). eexists _, _. split; [done|]. split; [done|].
      assert (Hck : parent_of st c = Some (Some q)) by (apply (child_parent st q _ c Ht Hk); rewrite El; set_solver).
      assert (Hbc : below st p c) by (destruct (tw_at _ _ _ _ _ Hq) as [->|T]; [by apply below_child|by eapply below_deeper]).
      rewrite bool_decide_eq_false_2 by (intros ->; by apply (below_irrefl st p Ht)). split; [by eapply Hip|]. split; [done|].
      destruct m as [|f' m]; simpl in El; injection El as -> El; [split; [done|]; split; [|done]; intros H; by apply Hnw, Hnc|].
      assert (Hfc : before st f' c).
      { pose proof (kids_sorted _ _ _ Ht Hk) as (_ & _ & Hs)%StronglySorted_app. inversion Hs as [|? ? _ Hf]; subst. rewrite Forall_forall in Hf. apply Hf. set_solver. }
      destruct (Hm f') as [W1 W2]; [set_solver|]. pose proof (parent_inside _ _ _ Ht Hck) as (_ & Hcc & _).
      destruct (child_parent st q _ f' Ht Hk) as [_ (_ & Hff & _)]; [set_solver|]. unfold clash, overlap, within, before in *. lia.
    + destruct Hc as (m & b' & El & Hm & Hb). assert (Hk' : kids st q (a ++ (m ++ [z]) ++ b')) by (rewrite <- app_assoc; simpl; by rewrite <- El).
      assert (Hhd : exists m', m ++ [z] = f :: m') by (destruct m as [|f' m]; injection El as -> _; simpl; eauto). destruct Hhd as [m' Em].
      destruct (adopt_ok st q new a f m' z b' _ Ht Hk' Em) as (st' & E3 & Had); [by rewrite last_snoc|done|]. rewrite E3. simpl.
      eexists _, _. split; [done|]. split; [by eapply Hip|]. split; [|by eapply adopted_inserted].
      intros x Hx (Hox & Hw & Hw'). destruct (tw_only _ _ _ _ _ Hq x Hx Hox) as [H|[? _]]; [|done]. destruct (below_first _ _ _ H) as (c & Hc & Hcx).
      destruct (tr_parent _ Ht c q Hc) as (l & Hkl & Hcl). rewrite (kids_unique _ _ _ _ Hk' Hkl) in Hcl.
      assert (Hxc : within st x c) by (destruct Hcx as [->|Hcx]; [unfold within; lia|destruct (below_inside _ _ _ Ht Hcx) as (? & ? & ?); unfold within; lia]).
      rewrite Forall_forall in Ha, Hb. unfold before, within, overlap in *.
      apply elem_of_app in Hcl as [Hca|[Hcm|Hcb]%elem_of_app]; [specialize (Ha c Hca); lia| |specialize (Hb c Hcb); lia]. specialize (Hm c Hcm). lia.
Qed.

End ResourceInsert.

(** * The resource tree: inserting a resource that grows to fit *)

Local Open Scope Z_scope.
Local Open Scope kernel_scope.

Module ResourceExpand.
Import Resource ResourceTop ResourceOps ResourceAlloc ResourceDev ResourceBelow ResourceAdopt ResourceInsert.

(** [x] lies in the range from [s] to [e]. *)
Definition in_range (st : store) (x : oid) (s e : Z) : Prop := s <= lo st x /\ hi st x <= e.

(** The range from [s] to [e] overlaps [x], and neither contains the other. *)
Definition cuts (st : store) (x : oid) (s e : Z) : Prop :=
  (s <= hi st x /\ lo st x <= e) /\ ~ (lo st x <= s /\ e <= hi st x) /\ ~ in_range st x s e.

(** [new] was inserted below [root] with the least range around the one it had
    that cuts nothing. *)
Record expanded (st st' : store) (root new : oid) : Prop := {
  ex_tree : tree st';
  ex_below : below st' root new;
  ex_rng : forall y, y <> new -> rng st' y = rng st y;
  ex_own : forall x, below st' new x <-> below st root x /\ in_range st x (lo st' new) (hi st' new);
  ex_rest : forall x y, x <> new -> y <> new -> below st' x y <-> below st x y;
  ex_grow : lo st' new <= lo st new /\ hi st new <= hi st' new;
  ex_fit : forall x, below st root x -> ~ cuts st x (lo st' new) (hi st' new);
  ex_least : forall s e, s <= lo st new -> hi st new <= e -> (forall x, below st root x -> ~ cuts st x s e) -> s <= lo st' new /\ hi st' new <= e
}.

Lemma clash_cuts st new x : clash st new x <-> cuts st x (lo st new) (hi st new).
Proof. unfold clash, cuts, overlap, within, in_range. lia. Qed.

Lemma below_new st r new x : loose st r new -> below st r x -> x <> new.
Proof. intros (Hp & _) [p Hx]%below_parent ->. congruence. Qed.

Lemma inserted_expanded st st' root new : loose st root new -> inserted st st' root new -> (forall x, below st root x -> ~ clash st new x) -> expanded st st' root new.
Proof.
  intros Hl [I1 I2 I3 I4 I5] Hno. destruct (rng_lo st st' new (I2 new)) as [El Eh].
  split; rewrite ?El, ?Eh; try done; lia.
Qed.

(** One turn of the loop: [st1] is [st] with the range of [new] grown over the
    conflict [c]. *)
Lemma expanded_step st st1 st' root new c : tree st -> loose st root new -> below st root c -> clash st new c ->
  (forall y, parent_of st1 y = parent_of st y) -> (forall y, y <> new -> rng st1 y = rng st y) ->
  lo st1 new = Z.min (lo st c) (lo st new) -> hi st1 new = Z.max (hi st c) (hi st new) ->
  expanded st1 st' root new -> expanded st st' root new.
Proof.
  intros Ht Hl Hc Hcl P R El Eh [X1 X2 X3 X4 X5 X6 X7 X8].
  assert (Hb : forall r x, below st1 r x <-> below st r x) by (intros r x; split; apply below_ext; [intros y; by rewrite P|done]).
  assert (Hr : forall x, below st root x -> lo st1 x = lo st x /\ hi st1 x = hi st x) by (intros x Hx; apply rng_lo, R; by eapply below_new).
  assert (Hcut : forall x s e, below st root x -> cuts st1 x s e <-> cuts st x s e) by (intros x s e Hx; unfold cuts, in_range; by destruct (Hr x Hx) as [-> ->]).
  split; try done.
  - intros y Hy. by rewrite X3, R.
  - intros x. rewrite X4, Hb. unfold in_range. split; intros [Hx H]; (split; [done|]); destruct (Hr x Hx) as [E1 E2]; by rewrite ?E1, ?E2 in *.
  - intros x y Hx Hy. by rewrite X5, Hb.
  - rewrite El, Eh in X6. lia.
  - intros x Hx. rewrite <- Hcut by done. by apply X7, Hb.
  - intros s e Hs He Hno. rewrite El, Eh in X8. assert (Hce : ~ cuts st c s e) by (by apply Hno).
    apply X8; [| |intros x Hx%Hb; rewrite Hcut by done; by apply Hno]; unfold cuts, clash, overlap, within, in_range in *; lia.
Qed.

(** ** The loop ends *)

#[export] Instance within_dec st x y : Decision (within st x y).
Proof. unfold within. apply _. Defined.

(** The resources that do not lie inside [new]. *)
Definition outside (st : store) (new : oid) : list oid := filter (fun x => ~ within st x new) (elements (dom st)).

Lemma outside_size st new : (length (outside st new) <= size st)%nat.
Proof. unfold outside. etransitivity; [apply length_filter|]. by rewrite <- size_dom. Qed.

Lemma elem_of_outside st new x : x ∈ outside st new <-> known st x /\ ~ within st x new.
Proof. unfold outside. rewrite list_elem_of_filter, elem_of_elements, elem_of_dom. unfold known. tauto. Qed.

(** Growing over one of them leaves fewer. *)
Lemma outside_grow st st1 new c : (forall y, y <> new -> rng st1 y = rng st y) -> (forall y, known st1 y <-> known st y) -> c <> new ->
  known st c -> ~ within st c new -> lo st1 new <= lo st new -> hi st new <= hi st1 new -> within st1 c new ->
  (length (outside st1 new) < length (outside st new))%nat.
Proof.
  intros R K Hcn Hk Hc Hlo Hhi Hw. assert (Hnd : forall s, NoDup (outside s new)) by (intros s; apply NoDup_filter, NoDup_elements).
  assert (Hsub : c :: outside st1 new ⊆+ outside st new); [|by apply submseteq_length in Hsub].
  apply NoDup_submseteq.
  - apply NoDup_cons. split; [|done]. rewrite elem_of_outside. tauto.
  - intros x [->|Hx]%elem_of_cons; [by apply elem_of_outside|]. apply elem_of_outside in Hx as [Hx1 Hx2]. apply elem_of_outside. split; [by apply K|].
    intros [W1 W2]. apply Hx2. destruct (decide (x = new)) as [->|Hne]; [unfold within; lia|]. destruct (rng_lo st st1 x (R x Hne)) as [E1 E2].
    unfold within. rewrite E1, E2. lia.
Qed.

Lemma expand_loop_ok root new : forall fuel st, tree st -> known st root -> loose st root new -> (length (outside st new) <= fuel)%nat ->
  exists st', expand_loop fuel st root new = Some st' /\ (inside st root new -> expanded st st' root new) /\ (~ inside st root new -> st' = st).
Proof.
  induction fuel as [|fuel IH]; intros st Ht Hr Hl Hf;
    destruct (resource_insert_ok st root new Ht Hr Hl) as (st1 & cf & E & H); simpl; rewrite E; simpl; (destruct cf as [c|];
      [|destruct H as (Hi & Hno & Hin); exists st1; split; [done|]; split; [intros _; by apply inserted_expanded|done]]);
    destruct H as [-> H]; (case_bd as Hc; [exists st; split; [done|]; split; [done|done]|]); destruct H as (Hi & Hbc & Hcl);
    destruct (below_known _ _ _ Hbc) as [rc Ec]; destruct (proj_known _ _ _ _ (proj1 Hl)) as [rn En]; rewrite Ec, En; simpl;
    destruct (lookup_bounds _ _ _ Ec) as [-> ->]; destruct (lookup_bounds _ _ _ En) as [-> ->].
  - exfalso. assert (Hin : c ∈ outside st new) by (apply elem_of_outside; split; [by eexists|apply Hcl]).
    destruct (outside st new); [by apply not_elem_of_nil in Hin|simpl in Hf; lia].
  - destruct (tr_kids _ Ht root Hr) as (l & Hk & _). destruct (tr_word _ Ht c) as [Wc1 Wc2]; [by eexists|]. destruct (tr_word _ Ht new) as [Wn1 Wn2]; [by eexists|].
    replace (if bool_decide (lo st c < lo st new) then _ else _) with (Z.min (lo st c) (lo st new)) by (case_bd; lia).
    replace (if bool_decide (hi st c > hi st new) then _ else _) with (Z.max (hi st c) (hi st new)) by (case_bd; lia).
    destruct (set_range_ok st root new l (Z.min (lo st c) (lo st new)) (Z.max (hi st c) (hi st new)) Ht Hk Hl ltac:(lia) ltac:(lia)) as (st1 & E1 & Ht1 & Hk1 & Hl1 & Elo & Ehi & R & P).
    rewrite E1. simpl. destruct (upd_range st new (Z.min (lo st c) (lo st new)) (Z.max (hi st c) (hi st new))) as (st2 & E2 & _ & _ & _ & _ & _ & _ & K); [by eexists|].
    rewrite E1 in E2. injection E2 as <-. pose proof (below_new _ _ _ _ Hl Hbc) as Hcn. destruct (rng_lo st st1 c (R c Hcn)) as [Elc Ehc].
    assert (Hrn : root <> new) by (by apply not_eq_sym, (loose_ne st root new)). destruct (rng_lo st st1 root (R root Hrn)) as [Elr Ehr].
    destruct (IH st1 Ht1 (kids_root _ _ _ Hk1) Hl1) as (st' & E' & Hin & _).
    { assert (length (outside st1 new) < length (outside st new))%nat; [|lia]. apply (outside_grow st st1 new c); try done.
      - by eexists.
      - apply Hcl.
      - lia.
      - lia.
      - unfold within. lia. }
    exists st'. split; [done|]. split; [|done]. intros _. apply (expanded_step st st1 st' root new c); try done. apply Hin.
    pose proof (below_inside _ _ _ Ht Hbc). unfold inside in *. lia.
Qed.

Lemma expand_ok st root new : tree st -> known st root -> loose st root new ->
  exists st', insert_resource_expand_to_fit st root new = Some st' /\ (inside st root new -> expanded st st' root new) /\ (~ inside st root new -> st' = st).
Proof.
  intros Ht Hr Hl. unfold insert_resource_expand_to_fit. pose proof (proj1 Hl) as Hp. unfold parent_of in Hp. apply fmap_Some in Hp as (rn & -> & Ep). simpl.
  rewrite <- Ep. apply expand_loop_ok; try done. apply outside_size.
Qed.

End ResourceExpand.
