(* ===== verification/ResourceRegion.v ===== *)
(** * The resource tree: busy regions *)

From Stdlib Require Import ZArith Lia.
From stdpp Require Import base option gmap sorting list.
From S2P Require Import Prelude Chain Resource ResourceTop ResourceAlloc ResourceDev ResourceBelow ResourceInsert.

Local Open Scope Z_scope.
Local Open Scope kernel_scope.

Module ResourceRegion.
Import Resource ResourceTop ResourceOps ResourceAlloc ResourceDev ResourceBelow ResourceAdopt ResourceInsert.

Definition is_busy (st : store) (x : oid) : Prop := busy <$> st !! x = Some true.

Lemma busy_rng st st' x : rng st' x = rng st x -> is_busy st' x <-> is_busy st x.
Proof. unfold is_busy, rng, busy. destruct (st !! x), (st' !! x); simpl; try done. by intros [= _ _ ->]. Qed.

Lemma busy_eq st x r : st !! x = Some r -> is_busy st x <-> busy r = true.
Proof. unfold is_busy. intros ->. simpl. split; [by intros [=]|by intros ->]. Qed.

(** ** Objects come and go *)

Lemma below_map st st' r x : (forall y q, parent_of st y = Some (Some q) -> parent_of st' y = Some (Some q)) -> below st r x -> below st' r x.
Proof. intros H. induction 1 as [x Hp|y x _ IH Hp]; [apply below_child|eapply below_deeper; [done|]]; by apply H. Qed.

Section new.
Context (st : store) (x : oid) (s e f : Z).
Hypothesis Hx : st !! x = None.

Notation st0 := (<[x := mk_res s e f None None None]> st).

Lemma new_lookup y : y <> x -> st0 !! y = st !! y.
Proof. intros Hy. by apply lookup_insert_ne. Qed.

Lemma new_rng y : y <> x -> rng st0 y = rng st y.
Proof. intros Hy. unfold rng. by rewrite new_lookup. Qed.

Lemma new_parent y : y <> x -> parent_of st0 y = parent_of st y.
Proof. intros Hy. unfold parent_of. by rewrite new_lookup. Qed.

Lemma new_below r y : below st0 r y <-> below st r y.
Proof.
  split; apply below_map; intros z q Hz; destruct (decide (z = x)) as [->|Hne].
  - unfold parent_of in Hz. rewrite lookup_insert_eq in Hz. done.
  - by rewrite <- new_parent.
  - unfold parent_of in Hz. rewrite Hx in Hz. done.
  - by rewrite new_parent.
Qed.

Lemma new_bounds : lo st0 x = s /\ hi st0 x = e.
Proof. unfold lo, hi. by rewrite lookup_insert_eq. Qed.

Lemma new_loose p : tree st0 -> known st p -> loose st0 p x.
Proof.
  intros Ht [rp Hp]. apply loose_at; [done|unfold parent_of; by rewrite lookup_insert_eq| |intros ->; congruence].
  exists None. split; [unfold child_of; by rewrite lookup_insert_eq|done].
Qed.

End new.

(** A resource that is in no tree and has no children can be freed. *)
Lemma tree_delete st x : tree st -> parent_of st x = Some None -> kids st x [] -> tree (delete x st).
Proof.
  intros Ht Hp Hk. set (st' := delete x st). assert (Hl : forall y, y <> x -> st' !! y = st !! y) by (intros; by apply lookup_delete_ne).
  assert (Hkn : forall y, known st' y -> y <> x /\ known st y).
  { intros y [r Hy]. destruct (decide (y = x)) as [->|Hne]; [unfold st' in Hy; by rewrite lookup_delete_eq in Hy|]. rewrite Hl in Hy by done. split; [done|by eexists]. }
  assert (Hin : forall r l c, kids st r l -> c ∈ l -> c <> x) by (intros r l c Hkl Hc ->; destruct (child_parent st r l x Ht Hkl Hc); congruence).
  assert (Hkids : forall r l, r <> x -> kids st r l -> kids st' r l).
  { intros r l Hr Hkl. pose proof Hkl as (c & Ec & Hc). exists c. unfold child_of. rewrite Hl by done. split; [done|]. eapply seg_ext; [|exact Hc].
    intros y Hy. unfold sib_of. rewrite Hl; [done|]. by eapply Hin. }
  assert (Hr : forall y, y <> x -> rng st' y = rng st y) by (intros y Hy; unfold rng; by rewrite Hl).
  assert (Hpar : forall y, y <> x -> parent_of st' y = parent_of st y) by (intros y Hy; unfold parent_of; by rewrite Hl).
  assert (Hb : forall y, y <> x -> lo st' y = lo st y /\ hi st' y = hi st y) by (intros y Hy; by apply rng_lo, Hr).
  split.
  - intros r [Hrx Hkr]%Hkn. destruct (tr_kids _ Ht r Hkr) as (l & Hkl & Hs & Hall). exists l. split; [by apply Hkids|]. split.
    + apply (sorted_before_on st); [|done]. intros y Hy. apply Hr. by eapply Hin.
    + intros c Hc. destruct (Hall c Hc) as [Hcp Hci]. pose proof (Hin r l c Hkl Hc) as Hcx. split; [by rewrite Hpar|].
      unfold inside. destruct (Hb r Hrx) as [-> ->]. by destruct (Hb c Hcx) as [-> ->].
  - intros c q Hc. assert (Hcx : c <> x) by (intros ->; unfold parent_of, st' in Hc; by rewrite lookup_delete_eq in Hc).
    rewrite Hpar in Hc by done. destruct (tr_parent _ Ht c q Hc) as (l & Hkl & Hcl). exists l. split; [|done]. apply Hkids; [|done].
    intros ->. rewrite (kids_unique _ _ _ _ Hk Hkl) in Hcl. by apply not_elem_of_nil in Hcl.
  - intros r [Hrx Hkr]%Hkn. destruct (tr_path _ Ht r Hkr) as [l Hl']. exists l. eapply seg_ext; [|exact Hl']. intros y Hy. apply Hpar. intros ->.
    by apply (childless_apart st r x Ht Hk Hrx l).
  - intros r [Hrx Hkr]%Hkn. destruct (Hb r Hrx) as [-> ->]. by apply Ht.
Qed.

(** ** Requesting *)

(** The range from [s] to [e] inside [p] is free: whatever it overlaps contains it
    and is not busy. *)
Definition vacant (st : store) (p : oid) (s e : Z) : Prop :=
  (lo st p <= s /\ s <= e /\ e <= hi st p) /\
  forall x, below st p x -> s <= hi st x -> lo st x <= e -> (lo st x <= s /\ e <= hi st x) /\ ~ is_busy st x.

(** [x] was added below [p] as a resource without children, and nothing else
    moved; what is above it is not busy. *)
Record added (st st' : store) (p x : oid) : Prop := {
  ra_tree : tree st';
  ra_below : below st' p x;
  ra_leaf : kids st' x [];
  ra_rng : forall y, rng st' y = rng st y;
  ra_parent : forall y, y <> x -> parent_of st' y = parent_of st y;
  ra_rest : forall y z, y <> x -> z <> x -> below st' y z <-> below st y z;
  ra_idle : forall y, below st' p y -> below st' y x -> ~ is_busy st y
}.

Notation idle st := (toward (fun x => ~ is_busy st x) st).

Lemma parent_below st y x o : parent_of st x = Some (Some o) -> below st y x -> y = o \/ below st y o.
Proof. intros Ho H. destruct H as [x Hp|z x Hz Hp]; rewrite Ho in Hp; injection Hp as ->; [by left|by right]. Qed.

Lemma linked_added st st' p q x l1 l2 : tree st -> known st p -> loose st p x -> idle st p q x -> kids st q (l1 ++ l2) -> linked st st' q x l1 l2 ->
  tree st' -> added st st' p x.
Proof.
  intros Ht Hp Hl Hq Hk Hln Ht'. pose proof (linked_between _ _ _ _ _ _ _ Ht Hl Hk Hln) as Hb. pose proof (toward_ne _ _ _ _ _ Ht Hp Hl Hq) as Hqx.
  assert (Hr : forall y z, y <> x -> z <> x -> below st' y z <-> below st y z) by (intros y z Hy Hz; by apply (between_below st st' q x)).
  assert (Hpx : p <> x) by (by apply not_eq_sym, (loose_ne st p x)). destruct Hln as [R K E N P].
  split; try done.
  - by eapply (toward_new _ st st' p q x).
  - apply E; [done|]. apply Hl.
  - intros y Hpy Hyx. assert (Hne : y <> x) by (intros ->; by apply (below_irrefl st' x Ht')). apply Hr in Hpy; try done.
    assert (Hyq : y = q \/ below st y q) by (destruct (parent_below st' y x q N Hyx) as [->|H]; [by left|right; by apply Hr]).
    assert (Hov : overlap st x y).
    { pose proof (tw_inside _ _ _ _ _ Hq) as Hi. destruct Hyq as [->|H]; [|apply (below_inside _ _ _ Ht) in H]; unfold inside, overlap in *; lia. }
    destruct (tw_only _ _ _ _ _ Hq y Hpy Hov) as [H|[_ H]]; [|done]. exfalso. destruct Hyq as [->|H']; [by apply (below_irrefl st q Ht)|].
    apply (below_irrefl st q Ht). by eapply below_trans.
Qed.

Lemma region_loop_ok st x : tree st -> forall fuel p lp, known st p -> loose st p x -> chain (parent_of st) (Some p) lp -> (size st < fuel + length lp)%nat ->
  exists st' cf, region_loop fuel st p x = Some (st', cf) /\
    match cf with
    | None => exists q l1 l2, idle st p q x /\ kids st q (l1 ++ l2) /\ linked st st' q x l1 l2 /\ tree st' /\ forall c, c ∈ l1 ++ l2 -> ~ overlap st x c
    | Some c => st' = st /\ (c = p /\ ~ inside st p x \/ below st p c /\ overlap st x c /\ (is_busy st c \/ ~ within st x c))
    end.
Proof.
  intros Ht. induction fuel as [|fuel IH]; intros p lp Hp Hl Hlp Hf.
  { pose proof (path_size _ _ _ Hlp). lia. }
  destruct (tr_kids _ Ht p Hp) as (l & Hk & _). pose proof Hl as (Hpn & Hkn & Hap).
  destruct (request_ok st p x l Ht Hk Hpn Hap) as (st1 & cf & E & Hrq). simpl. rewrite E. simpl. destruct cf as [c|]; simpl in Hrq.
  2: { destruct Hrq as (Ht' & Hin & Hno & (l1 & l2 & -> & Hln)). eexists _, _. split; [done|]. exists p, l1, l2. split; [by apply toward_here|]. done. }
  destruct Hrq as [-> Hrq]. case_bd as Hcp.
  2: { apply dec_stable in Hcp. subst c. eexists _, _. split; [done|]. split; [done|]. left. split; [done|]. revert Hrq. by rewrite bool_decide_eq_true_2. }
  revert Hrq. rewrite bool_decide_eq_false_2 by done. intros (Hin & Hcl & Ho & _). destruct (kids_known st p _ c Hk Hcl) as [rc Ec]. rewrite Ec. simpl.
  destruct (child_parent st p _ c Ht Hk Hcl) as [Hpc Hic]. destruct (busy rc) eqn:Hbz; simpl.
  { eexists _, _. split; [done|]. split; [done|]. right. split; [by apply below_child|]. split; [done|]. left. by apply (busy_eq st c rc). }
  destruct (IH c (c :: lp)) as (st' & cf & E' & H); [by eexists|by eapply loose_below|by eapply path_down|simpl; lia|].
  exists st', cf. split; [done|]. assert (Hnb : ~ is_busy st c) by (rewrite (busy_eq st c rc Ec); congruence). destruct cf as [d|].
  - destruct H as [-> H]. split; [done|]. right. destruct H as [[-> Hn]|(Hb & H)]; [|split; [by eapply below_up|done]].
    split; [by apply below_child|]. split; [done|]. right. intros Hw. apply Hn. unfold inside, within in *. lia.
  - destruct H as (q & l1 & l2 & Hq & H). exists q, l1, l2. split; [|done]. eapply (toward_down _ st p c); try done.
    pose proof (tw_inside _ _ _ _ _ Hq) as Hqi. destruct (tw_at _ _ _ _ _ Hq) as [->|Hb]; [unfold within, inside in *; lia|].
    apply (below_inside _ _ _ Ht) in Hb. unfold within, inside in *. lia.
Qed.

(** The loop for a new resource from [s] to [e]. *)
Lemma attempt_ok st p x s e f : tree st -> known st p -> word s -> word e -> st !! x = None ->
  let st0 := <[x := mk_res s e f None None None]> st in
  exists st1 cf, region_loop (size st0) st0 p x = Some (st1, cf) /\
    match cf with
    | None => vacant st p s e /\ added st0 st1 p x
    | Some c => st1 = st0 /\ (c = p /\ ~ (lo st p <= s /\ s <= e /\ e <= hi st p) \/
        below st p c /\ (s <= hi st c /\ lo st c <= e) /\ (is_busy st c \/ ~ (lo st c <= s /\ e <= hi st c)))
    end.
Proof.
  intros Ht Hp Hs He Hx st0. assert (Ht0 : tree st0) by (by apply tree_new). pose proof (new_loose st x s e f Hx p Ht0 Hp) as Hl0. fold st0 in Hl0.
  assert (Hpx : p <> x) by (intros ->; destruct Hp; congruence).
  assert (Hp0 : known st0 p) by (destruct Hp as [rp ?]; exists rp; unfold st0; by rewrite lookup_insert_ne).
  destruct (tr_path _ Ht0 p Hp0) as [lp Hlp].
  destruct (region_loop_ok st0 x Ht0 (size st0) p lp Hp0 Hl0 Hlp) as (st1 & cf & E & H); [destruct lp; [done|simpl; lia]|].
  exists st1, cf. split; [done|]. destruct (new_bounds st x s e f) as [Elo Ehi]. fold st0 in Elo, Ehi.
  assert (Hbx : forall y, below st p y -> y <> x) by (intros y [r Hy]%below_parent ->; unfold parent_of in Hy; by rewrite Hx in Hy).
  assert (Hnb : forall r y, below st0 r y <-> below st r y) by (intros; by apply new_below).
  assert (Hrg : forall y, y <> x -> lo st0 y = lo st y /\ hi st0 y = hi st y) by (intros y Hy; by apply rng_lo, new_rng).
  assert (Hbz : forall y, y <> x -> is_busy st0 y <-> is_busy st y) by (intros y Hy; by apply busy_rng, new_rng).
  destruct (Hrg p Hpx) as [Ep1 Ep2]. destruct cf as [c|].
  - destruct H as [-> H]. split; [done|]. destruct H as [[-> Hn]|(Hb & Ho & H)].
    + left. split; [done|]. unfold inside in Hn. rewrite Elo, Ehi, Ep1, Ep2 in Hn. lia.
    + right. apply Hnb in Hb. pose proof (Hbx c Hb) as Hcx. destruct (Hrg c Hcx) as [Ec1 Ec2]. unfold overlap, within in *. rewrite Elo, Ehi, Ec1, Ec2 in *.
      rewrite (Hbz c Hcx) in H. done.
  - destruct H as (q & l1 & l2 & Hq & Hk & Hln & Ht' & Hno). split; [|by eapply linked_added].
    pose proof (tw_inside _ _ _ _ _ Hq) as Hi. assert (Hip : inside st0 p x).
    { destruct (tw_at _ _ _ _ _ Hq) as [->|T]; [done|]. apply (below_inside _ _ _ Ht0) in T. unfold inside in *. lia. }
    split; [unfold inside in Hip; rewrite Elo, Ehi, Ep1, Ep2 in Hip; lia|]. intros y Hy H1 H2. pose proof (Hbx y Hy) as Hyx. apply Hnb in Hy. destruct (Hrg y Hyx) as [Ey1 Ey2].
    assert (Hov : overlap st0 x y) by (unfold overlap; rewrite Elo, Ehi, Ey1, Ey2; lia).
    destruct (tw_only _ _ _ _ _ Hq y Hy Hov) as [H|[Hw H]]; [exfalso; by apply (below_clear st0 q _ x y Ht0 Hk Hno)|].
    unfold within in Hw. rewrite Elo, Ehi, Ey1, Ey2 in Hw. split; [lia|]. rewrite <- Hbz by done. done.
Qed.

Lemma request_region_ok st p s n f mem : tree st -> known st p -> word s -> (forall x, mem = Some x -> st !! x = None) ->
  let e := s +u n -u 1 in
  exists st' res, __request_region st p s n f mem = Some (st', res) /\
    match res with
    | None => st' = st /\ (mem = None \/ ~ vacant st p s e)
    | Some x => mem = Some x /\ vacant st p s e /\ added (<[x := mk_res s e (Z.lor IORESOURCE_BUSY f) None None None]> st) st' p x
    end.
Proof.
  intros Ht Hp Hs Hm e. destruct mem as [x|]; [|eexists _, _; split; [done|]; by split; [|left]]. specialize (Hm x eq_refl).
  unfold __request_region. fold e. destruct (attempt_ok st p x s e (Z.lor IORESOURCE_BUSY f) Ht Hp Hs (u32_word _) Hm) as (st' & cf & E & H).
  rewrite E. simpl. destruct cf as [c|]; [|by eexists _, _]. destruct H as [-> H]. eexists _, _. split; [done|]. split; [by rewrite delete_insert_id|]. right.
  intros [Hv1 Hv2]. destruct H as [[_ Hn]|(Hb & [Ho1 Ho2] & H)]; [lia|]. destruct (Hv2 c Hb Ho1 Ho2) as [Hw Hn]. destruct H as [H|H]; [done|lia].
Qed.

End ResourceRegion.

(** * The resource tree: releasing and checking regions *)

Local Open Scope Z_scope.
Local Open Scope kernel_scope.

Module ResourceRelease.
Import Resource ResourceTop ResourceOps ResourceAlloc ResourceDev ResourceBelow ResourceAdopt ResourceInsert ResourceRegion.

(** [r] is the busy region from [s] to [e] that can be reached from [p] through
    resources that are not busy. *)
Record region (st : store) (p r : oid) (s e : Z) : Prop := {
  rg_below : below st p r;
  rg_lo : lo st r = s;
  rg_hi : hi st r = e;
  rg_busy : is_busy st r;
  rg_idle : forall y, below st p y -> below st y r -> ~ is_busy st y
}.

(** Unlinking and freeing a child. *)
Definition removed (st st' : store) (r : oid) : Prop :=
  exists q l1 l2 st1, kids st q (l1 ++ r :: l2) /\ write st q (slot_of l1) (head l2) = Some st1 /\ st' = delete r st1.

Definition released (st : store) (p : oid) (s e : Z) (st' : store) (b : bool) : Prop :=
  if b then exists r, region st p r s e /\ removed st st' r else st' = st /\ forall r, ~ region st p r s e.

Definition spans (st : store) (c : oid) (s e : Z) : Prop := lo st c <= s /\ e <= hi st c.

(** The child of [o] that spans a region below [o]. *)
Lemma region_child st o r s e : tree st -> region st o r s e -> exists c, parent_of st c = Some (Some o) /\ spans st c s e /\ (r = c \/ below st c r) /\ s <= e.
Proof.
  intros Ht [Hb Hlo Hhi _ _]. destruct (below_inside _ _ _ Ht Hb) as (_ & Hle & _). destruct (below_first _ _ _ Hb) as (c & Hc & Hr). exists c. split; [done|].
  split; [|split; [done|lia]]. unfold spans. destruct Hr as [->|Hr]; [lia|]. apply (below_inside _ _ _ Ht) in Hr. unfold inside in Hr. lia.
Qed.

(** The regions below [o] are those below the child [c] that spans the range, if
    it is not busy. *)
Lemma region_down st o c r s e : tree st -> parent_of st c = Some (Some o) -> spans st c s e -> ~ is_busy st c ->
  region st o r s e <-> region st c r s e.
Proof.
  intros Ht Hc Hsp Hnb. split.
  - intros Hr. destruct (region_child _ _ _ _ _ Ht Hr) as (c' & Hc' & Hsp' & Hor & Hse). destruct Hr as [Hb Hlo Hhi Hbz Hid].
    assert (c' = c) as ->. { destruct (siblings_disjoint st o c' c Ht Hc' Hc) as [->|Hd]; [done|]. exfalso. apply Hd. unfold overlap, spans in *. lia. }
    destruct Hor as [->|Hor]; [done|]. split; try done. intros y Hy. apply Hid. by eapply below_up.
  - intros [Hb Hlo Hhi Hbz Hid]. split; try done; [by eapply below_up|]. intros y Hy Hyr. destruct (below_first _ _ _ Hy) as (c' & Hc' & Hor).
    pose proof (below_inside _ _ _ Ht Hb) as Hbi. pose proof (below_inside _ _ _ Ht Hyr) as Hyi.
    assert (c' = c) as ->.
    { destruct (siblings_disjoint st o c' c Ht Hc' Hc) as [->|Hd]; [done|]. exfalso. apply Hd.
      destruct Hor as [->|Hor]; [|pose proof (below_inside _ _ _ Ht Hor)]; unfold overlap, spans, inside in *; lia. }
    destruct Hor as [->|Hor]; [done|by apply Hid].
Qed.

(** A busy child that spans the range is the region, or hides it. *)
Lemma region_busy st o c r s e : tree st -> parent_of st c = Some (Some o) -> spans st c s e -> is_busy st c ->
  region st o r s e -> r = c.
Proof.
  intros Ht Hc Hsp Hbz Hr. destruct (region_child _ _ _ _ _ Ht Hr) as (c' & Hc' & Hsp' & Hor & Hse). destruct Hr as [_ _ _ _ Hid].
  assert (c' = c) as ->. { destruct (siblings_disjoint st o c' c Ht Hc' Hc) as [->|Hd]; [done|]. exfalso. apply Hd. unfold overlap, spans in *. lia. }
  destruct Hor as [->|Hor]; [done|]. exfalso. by apply (Hid c (below_child _ _ _ Hc) Hor).
Qed.

Lemma region_here st o c s e : tree st -> parent_of st c = Some (Some o) -> lo st c = s -> hi st c = e -> is_busy st c -> region st o c s e.
Proof.
  intros Ht Hc Hlo Hhi Hbz. split; try done; [by apply below_child|]. intros y Hoy Hyc. exfalso.
  destruct (parent_below st y c o Hc Hyc) as [->|H]; [by apply (below_irrefl st o Ht)|]. apply (below_irrefl st o Ht). by eapply below_trans.
Qed.

Lemma release_region_loop_ok st s e : tree st -> forall fuel o lo_ l1 l2, kids st o (l1 ++ l2) -> chain (parent_of st) (Some o) lo_ ->
  (forall c, c ∈ l1 -> ~ spans st c s e) -> ((size st - length lo_) * S (size st) + length l2 <= fuel)%nat ->
  exists st' b, release_region_loop fuel st o (slot_of l1) s e = Some (st', b) /\ released st o s e st' b.
Proof.
  intros Ht. induction fuel as [|fuel IH]; intros o lp l1 l2 Hk Hlp Hno Hf;
    (destruct l2 as [|c l2]; [|destruct (kids_known st o _ c Hk) as [rc Ec]; [set_solver|]; destruct (child_parent st o _ c Ht Hk) as [Hc _]; [set_solver|]]).
  1, 3: exists st, false; simpl; rewrite (read_ok _ _ _ _ Hk); simpl; split; [done|]; split; [done|]; intros r Hr;
    destruct (region_child _ _ _ _ _ Ht Hr) as (c & Hc & Hsp & _); destruct (tr_parent _ Ht c o Hc) as (l & Hkl & Hcl);
    rewrite (kids_unique _ _ _ _ Hk Hkl), app_nil_r in Hcl; by apply (Hno c).
  { apply Nat.le_0_r, Nat.eq_add_0 in Hf as [_ Hf]. done. }
  simpl. rewrite (read_ok _ _ _ _ Hk). simpl. rewrite Ec. simpl. destruct (lookup_bounds _ _ _ Ec) as [-> ->]. pose proof (busy_eq st c rc Ec) as Hbz.
  destruct (bool_decide (lo st c <= s) && bool_decide (hi st c >= e)) eqn:E1.
  - apply andb_true_iff in E1 as [E1%bool_decide_eq_true E2%bool_decide_eq_true]. assert (Hsp : spans st c s e) by (unfold spans; lia).
    destruct (busy rc) eqn:Hb; simpl.
    + destruct (bool_decide (lo st c <> s) || bool_decide (hi st c <> e)) eqn:E3.
      * exists st, false. split; [done|]. split; [done|]. intros r Hr. pose proof (region_busy _ _ _ _ _ _ Ht Hc Hsp (proj2 Hbz eq_refl) Hr) as ->. destruct Hr as [_ H1 H2 _ _].
        apply orb_true_iff in E3 as [E3|E3]; apply bool_decide_eq_true in E3; lia.
      * apply orb_false_iff in E3 as [E3%bool_decide_eq_false E4%bool_decide_eq_false]. apply dec_stable in E3, E4.
        destruct (unlink_ok st o c l1 l2 Ht Hk) as (st1 & _ & E & _). rewrite (sibling_head st o l1 c l2 rc Hk Ec), E. simpl.
        eexists _, true. split; [done|]. exists c. split; [by apply region_here; try done; apply Hbz|]. by exists o, l1, l2, st1.
    + assert (Hnb : ~ is_busy st c) by (rewrite Hbz; done). destruct (tr_kids _ Ht c) as (lc & Hkc & _); [by eexists|].
      pose proof (path_down _ _ _ _ Hlp Hc) as Hlc. pose proof (path_size _ _ _ Hlc) as Hsz. pose proof (kids_size _ _ _ Hkc) as Hszc.
      destruct (IH c (c :: lp) [] lc Hkc Hlc) as (st' & b & E & H); [intros d Hd; by apply not_elem_of_nil in Hd|simpl in *; nia|].
      exists st', b. split; [exact E|]. destruct b; simpl in *.
      * destruct H as (r & Hr & Hrm). exists r. split; [by apply (region_down st o c r)|done].
      * destruct H as [-> H]. split; [done|]. intros r Hr. apply (H r). by apply (region_down st o c r).
  - assert (Hk' : kids st o ((l1 ++ [c]) ++ l2)) by (by rewrite <- app_assoc). destruct (IH o lp (l1 ++ [c]) l2 Hk' Hlp) as (st' & b & E & H).
    + intros d [Hd|Hd%list_elem_of_singleton]%elem_of_app; [by apply Hno|]. subst d. intros [H1 H2].
      apply andb_false_iff in E1 as [E1%bool_decide_eq_false|E1%bool_decide_eq_false]; lia.
    + cbn [length] in Hf. lia.
    + exists st', b. rewrite slot_of_snoc in E. by split.
Qed.

Lemma release_region_ok st p s n : tree st -> known st p ->
  exists st' b, __release_region st p s n = Some (st', b) /\ released st p s (s +u n -u 1) st' b.
Proof.
  intros Ht Hp. destruct (tr_kids _ Ht p Hp) as (l & Hk & _). destruct (tr_path _ Ht p Hp) as [lp Hlp]. unfold __release_region. change SHead with (slot_of []).
  apply (release_region_loop_ok st s _ Ht _ p lp [] l Hk Hlp); [intros c Hc; by apply not_elem_of_nil in Hc|].
  pose proof (kids_size _ _ _ Hk). pose proof (path_size _ _ _ Hlp). destruct lp as [|x lp]; [done|]. simpl in *. nia.
Qed.

(** ** What is left *)

(** [r] is gone and everything else is as it was. *)
Record gone (st st' : store) (r : oid) : Prop := {
  go_tree : tree st';
  go_none : st' !! r = None;
  go_rng : forall y, y <> r -> rng st' y = rng st y;
  go_parent : forall y, y <> r -> parent_of st' y = parent_of st y;
  go_below : forall x y, x <> r -> y <> r -> below st' x y <-> below st x y
}.

Lemma leaf_no_child st r : tree st -> kids st r [] -> forall y, parent_of st y <> Some (Some r).
Proof.
  intros Ht Hk y Hy. destruct (tr_parent _ Ht y r Hy) as (l & Hkl & Hyl). rewrite (kids_unique _ _ _ _ Hk Hkl) in Hyl. by apply not_elem_of_nil in Hyl.
Qed.

Lemma deleted_gone st st2 r : (forall y, rng st2 y = rng st y) -> (forall y, y <> r -> parent_of st2 y = parent_of st y) ->
  tree st -> tree st2 -> kids st r [] -> kids st2 r [] -> parent_of st2 r = Some None -> gone st (delete r st2) r.
Proof.
  intros R P Ht Ht2 Hk Hk2 Hp. assert (HP : forall y, y <> r -> parent_of (delete r st2) y = parent_of st y) by (intros y Hy; rewrite <- P by done; unfold parent_of; by rewrite lookup_delete_ne).
  split; [by apply tree_delete|by rewrite lookup_delete_eq| |done|].
  - intros y Hy. rewrite <- R. unfold rng. by rewrite lookup_delete_ne.
  - intros x y Hx Hy. split; intros Hb.
    + clear Hy. induction Hb as [y Hb|z y _ IH Hb]; (assert (Hy : y <> r) by (intros ->; unfold parent_of in Hb; by rewrite lookup_delete_eq in Hb)); rewrite HP in Hb by done;
        [by apply below_child|by eapply below_deeper].
    + induction Hb as [y Hb|z y _ IH Hb]; [apply below_child; by rewrite HP|]. eapply below_deeper; [|by rewrite HP]. apply IH. intros ->. by apply (leaf_no_child st r Ht Hk y).
Qed.

Lemma removed_gone st st' r : tree st -> kids st r [] -> removed st st' r -> gone st st' r.
Proof.
  intros Ht Hk (q & l1 & l2 & st1 & Hq & E & ->). destruct (unlink_ok st q r l1 l2 Ht Hq) as (st1' & st2 & E1 & E2 & Hu). rewrite E in E1. injection E1 as <-.
  pose proof (tree_unlinked _ _ _ _ _ _ Ht Hq Hu) as Ht2. destruct Hu as [R K Els N P].
  assert (Eq : delete r st1 = delete r st2). { unfold upd in E2. destruct (st1 !! r) as [x|]; [|done]. injection E2 as <-. by rewrite delete_insert_eq. }
  rewrite Eq. apply deleted_gone; try done. apply Els; [|done]. intros ->. apply (not_own_child st q _ Ht Hq). set_solver.
Qed.

(** Adding a region and removing it leaves the tree there was. *)
Lemma added_gone st p x s e f st1 st2 : st !! x = None -> added (<[x := mk_res s e f None None None]> st) st1 p x -> gone st1 st2 x ->
  tree st2 /\ (forall y, rng st2 y = rng st y) /\ (forall y, parent_of st2 y = parent_of st y) /\ (forall y z, below st2 y z <-> below st y z).
Proof.
  intros Hx [A1 A2 A3 A4 A5 A6 A7] [G1 G2 G3 G4 G5]. split; [done|]. assert (HP : forall y, parent_of st2 y = parent_of st y).
  { intros y. destruct (decide (y = x)) as [->|Hy]; [unfold parent_of; by rewrite G2, Hx|]. by rewrite G4, A5, new_parent. }
  split; [|split; [done|]].
  - intros y. destruct (decide (y = x)) as [->|Hy]; [unfold rng; by rewrite G2, Hx|]. by rewrite G3, A4, new_rng.
  - intros y z. split; apply below_ext; intros w; by rewrite HP.
Qed.

Lemma region_unique st p r r' s e : tree st -> region st p r s e -> region st p r' s e -> r' = r.
Proof.
  intros Ht [Hb Hlo Hhi Hbz Hid] [Hb' Hlo' Hhi' Hbz' Hid']. destruct (below_inside _ _ _ Ht Hb) as (_ & Hle & _).
  destruct (below_comparable st p r r' Ht Hb Hb') as [->|[H|H]]; [unfold overlap; lia|done|exfalso; by apply (Hid' r)|exfalso; by apply (Hid r')].
Qed.

(** The region that was added is the one that is found. *)
Lemma added_region st st1 p x s e : tree st -> lo st x = s -> hi st x = e -> is_busy st x -> added st st1 p x -> region st1 p x s e.
Proof.
  intros Ht Hlo Hhi Hbz [A1 A2 A3 A4 A5 A6 A7]. destruct (rng_lo st st1 x (A4 x)) as [El Eh].
  assert (Hb : forall y, is_busy st1 y <-> is_busy st y) by (intros y; by apply busy_rng).
  split; [done|lia|lia|by apply Hb|intros y H1 H2; rewrite Hb; by apply A7].
Qed.

Lemma busy_flags f s e : busy (mk_res s e (Z.lor IORESOURCE_BUSY f) None None None) = true.
Proof.
  unfold busy. simpl. rewrite bool_decide_eq_false_2; [done|]. intros H. assert (Hb : Z.testbit (Z.land (Z.lor IORESOURCE_BUSY f) IORESOURCE_BUSY) 31 = true).
  { rewrite Z.land_spec, Z.lor_spec. done. }
  rewrite H in Hb. done.
Qed.

(** The state of a new region, before it is linked. *)
Lemma new_region st x s e f : let st0 := <[x := mk_res s e (Z.lor IORESOURCE_BUSY f) None None None]> st in lo st0 x = s /\ hi st0 x = e /\ is_busy st0 x.
Proof.
  intros st0. destruct (new_bounds st x s e (Z.lor IORESOURCE_BUSY f)) as [H1 H2]. split; [done|]. split; [done|]. unfold is_busy, st0. rewrite lookup_insert_eq. simpl. f_equal. apply busy_flags.
Qed.

(** The same tree. *)
Definition same_tree (st st' : store) : Prop :=
  tree st' /\ (forall y, rng st' y = rng st y) /\ (forall y, parent_of st' y = parent_of st y) /\ (forall y z, below st' y z <-> below st y z).

Lemma same_tree_refl st : tree st -> same_tree st st.
Proof. done. Qed.

(** Releasing what was requested. *)
Lemma request_release_region st p x s n f st1 : tree st -> known st p -> word s -> st !! x = None -> let e := s +u n -u 1 in
  added (<[x := mk_res s e (Z.lor IORESOURCE_BUSY f) None None None]> st) st1 p x ->
  exists st2, __release_region st1 p s n = Some (st2, true) /\ same_tree st st2.
Proof.
  intros Ht Hp Hs Hx e Ha. assert (Ht0 : tree (<[x := mk_res s e (Z.lor IORESOURCE_BUSY f) None None None]> st)) by (apply tree_new; try done; apply u32_word).
  destruct (new_region st x s e f) as (Hlo & Hhi & Hbz). pose proof (added_region _ _ _ _ _ _ Ht0 Hlo Hhi Hbz Ha) as Hrg. pose proof (ra_tree _ _ _ _ Ha) as Ht1.
  destruct (release_region_ok st1 p s n Ht1) as (st2 & b & E & Hre); [destruct (below_first _ _ _ (ra_below _ _ _ _ Ha)) as (c & Hc & _); by eapply parent_known|].
  fold e in Hre. destruct b; [|by destruct Hre as [_ Hre]; apply Hre in Hrg]. destruct Hre as (r & Hr & Hrm). rewrite (region_unique st1 p x r s e Ht1 Hrg Hr) in Hrm.
  exists st2. split; [done|]. eapply added_gone; [exact Hx|exact Ha|]. apply removed_gone; try done. apply Ha.
Qed.

Lemma check_region_ok st p s n mem : tree st -> known st p -> word s -> (forall x, mem = Some x -> st !! x = None) ->
  exists st' ret, __check_region st p s n mem = Some (st', ret) /\ same_tree st st' /\
    (ret = 0 /\ is_Some mem /\ vacant st p s (s +u n -u 1) \/ ret = - EBUSY /\ st' = st /\ (mem = None \/ ~ vacant st p s (s +u n -u 1))).
Proof.
  intros Ht Hp Hs Hm. destruct (request_region_ok st p s n 0 mem Ht Hp Hs Hm) as (st1 & res & E & H). unfold __check_region. rewrite E. simpl. destruct res as [x|].
  2: { destruct H as [-> H]. eexists _, _. split; [done|]. split; [by apply same_tree_refl|]. by right. }
  destruct H as (-> & Hv & Ha). pose proof (ra_tree _ _ _ _ Ha) as Ht1. destruct (below_parent _ _ _ (ra_below _ _ _ _ Ha)) as [q Hq].
  destruct (release_ok st1 q x Ht1 Hq) as (l1 & l2 & st2 & Hk & E2 & Hu & Ht2). unfold release_resource. rewrite E2. simpl. eexists _, _. split; [done|]. split; [|by left].
  eapply added_gone; [by apply Hm|exact Ha|]. destruct Hu as [R K Els N P].
  apply deleted_gone; try done; [apply Ha|]. apply Els; [|apply Ha]. intros ->. apply (not_own_child st1 q _ Ht1 Hk). set_solver.
Qed.

End ResourceRelease.

(** ** Reserving around what is there *)

Module ResourceReserve.
Import Resource ResourceTop ResourceOps ResourceAlloc ResourceDev ResourceBelow ResourceAdopt ResourceInsert ResourceRegion.

(** The objects that [kzalloc] will return are new and different. *)
Definition supply (st : store) (mem : list (option oid)) : Prop := (forall x, Some x ∈ mem -> st !! x = None) /\ NoDup (omap id mem).

(** Resources were only added: busy ones, below [root] and in the range. *)
Record reserved (st st' : store) (root : oid) (s e : Z) (mem mem' : list (option oid)) : Prop := {
  rv_tree : tree st';
  rv_rng : forall y, known st y -> rng st' y = rng st y;
  rv_below : forall y, below st root y -> below st' root y;
  rv_new : forall y, known st' y -> known st y \/ (below st' root y /\ is_busy st' y /\ s <= lo st' y /\ hi st' y <= e);
  rv_supply : supply st' mem';
  rv_suffix : mem' `suffix_of` mem
}.

Lemma reserved_refl st root s e mem mem' : tree st -> supply st mem -> mem' `suffix_of` mem -> reserved st st root s e mem mem'.
Proof.
  intros Ht [H1 H2] Hs. split; try done; [by left|]. destruct Hs as [k ->]. split; [intros x Hx; apply H1; set_solver|].
  rewrite omap_app in H2. by apply NoDup_app in H2 as (_ & _ & ?).
Qed.

Lemma reserved_known st st' root s e mem mem' y : reserved st st' root s e mem mem' -> known st y -> known st' y.
Proof. intros Hr Hy. by apply (rng_known st st' y (rv_rng _ _ _ _ _ _ _ Hr y Hy)). Qed.

Lemma reserved_trans st st1 st2 root s e s1 e1 s2 e2 mem mem1 mem2 : s <= s1 -> e1 <= e -> s <= s2 -> e2 <= e ->
  reserved st st1 root s1 e1 mem mem1 -> reserved st1 st2 root s2 e2 mem1 mem2 -> reserved st st2 root s e mem mem2.
Proof.
  intros B1 B2 B3 B4 H1 H2. pose proof H1 as [A1 A2 A3 A4 A5 A6]. pose proof H2 as [C1 C2 C3 C4 C5 C6].
  assert (Hkn : forall y, known st y -> known st1 y) by (intros y; by eapply reserved_known).
  split; [done| | | |done|by etransitivity].
  - intros y Hy. rewrite C2 by auto. by apply A2.
  - auto.
  - intros y Hy. destruct (C4 y Hy) as [H|(H & H' & H'')]; [|right; split; [done|]; split; [done|lia]]. destruct (A4 y H) as [?|(D1 & D2 & D3)]; [by left|right].
    destruct (rng_lo st1 st2 y (C2 y H)) as [-> ->]. split; [by apply C3|]. split; [by apply (busy_rng st1 st2 y (C2 y H))|lia].
Qed.

(** ** What is covered *)

Definition covered_at (st : store) (root : oid) (x : Z) : Prop := exists b, below st root b /\ is_busy st b /\ lo st b <= x <= hi st b.

Lemma covered_mono st st' root s e mem mem' x : reserved st st' root s e mem mem' -> covered_at st root x -> covered_at st' root x.
Proof.
  intros Hr (b & Hb & Hz & Hx). pose proof (rv_rng _ _ _ _ _ _ _ Hr b (below_known _ _ _ Hb)) as Hrg. exists b. split; [by eapply rv_below|].
  split; [by apply (busy_rng st st' b Hrg)|]. by destruct (rng_lo st st' b Hrg) as [-> ->].
Qed.

(** All resources below [root] begin and end at multiples of [g]. *)
Definition aligned (g : Z) (st : store) (root : oid) : Prop := forall x, below st root x -> (g | lo st x) /\ (g | hi st x + 1).

(** What a part of the reservation does for the addresses [d]. *)
Definition serves (st : store) (root : oid) (s e : Z) (d : Z -> Prop) (mem : list (option oid)) (r : option (store * list (option oid))) : Prop :=
  exists st' mem', r = Some (st', mem') /\ reserved st st' root s e mem mem' /\
    forall g, 2 <= g -> (g | s) -> (g | e + 1) -> aligned g st root -> Forall is_Some mem -> mem' <> [] ->
      aligned g st' root /\ forall x, d x -> covered_at st' root x.

Lemma serves_skip st root s e d mem : tree st -> supply st mem -> (forall g, 2 <= g -> (g | s) -> (g | e + 1) -> aligned g st root -> forall x, d x -> covered_at st root x) ->
  serves st root s e d mem (Some (st, mem)).
Proof.
  intros Ht Hm Hd. exists st, mem. split; [done|]. split; [by apply reserved_refl|]. intros g Hg Hs He Ha _ _. split; [done|]. by apply (Hd g).
Qed.

Lemma suffix_nonempty {A} (l l' : list A) : l' `suffix_of` l -> l' <> [] -> l <> [].
Proof. intros [k ->] H H'. apply app_eq_nil in H' as [_ ?]. done. Qed.

Lemma suffix_Forall {A} (P : A -> Prop) (l l' : list A) : l' `suffix_of` l -> Forall P l -> Forall P l'.
Proof. intros [k ->] H. by apply Forall_app in H as [_ ?]. Qed.

(** A part of the range. *)
Lemma serves_widen st root s e s1 e1 d mem r : serves st root s1 e1 d mem r -> s <= s1 -> e1 <= e ->
  (forall g, (g | s) -> (g | e + 1) -> aligned g st root -> (g | s1) /\ (g | e1 + 1)) -> serves st root s e d mem r.
Proof.
  intros (st1 & mem1 & -> & [A1 A2 A3 A4 A5 A6] & G) B1 B2 Hal. exists st1, mem1. split; [done|]. split.
  - split; try done. intros y Hy. destruct (A4 y Hy) as [?|(? & ? & ?)]; [by left|right]. split; [done|]. split; [done|lia].
  - intros g Hg Gs Ge Ha. destruct (Hal g Gs Ge Ha). by apply G.
Qed.

(** One part after another. *)
Lemma serves_bind st root s e s1 e1 d1 mem r k : serves st root s1 e1 d1 mem r -> s <= s1 -> e1 <= e ->
  (forall g, (g | s) -> (g | e + 1) -> aligned g st root -> (g | s1) /\ (g | e1 + 1)) -> forall d2,
  (forall st1 mem1, reserved st st1 root s1 e1 mem mem1 -> serves st1 root s e d2 mem1 (k (st1, mem1))) ->
  serves st root s e (fun x => d1 x \/ d2 x) mem (r ≫= k).
Proof.
  intros (st1 & mem1 & -> & H1 & G1) B1 B2 Hal d2 Hk. simpl. destruct (Hk st1 mem1 H1) as (st2 & mem2 & -> & H2 & G2). exists st2, mem2. split; [done|].
  split; [eapply (reserved_trans st st1 st2 root s e s1 e1 s e); try done; lia|]. intros g Hg Hs He Ha Hm Hne. destruct (Hal g Hs He Ha) as [Hs1 He1].
  pose proof (rv_suffix _ _ _ _ _ _ _ H1) as Hf1. pose proof (rv_suffix _ _ _ _ _ _ _ H2) as Hf2.
  destruct (G1 g Hg Hs1 He1 Ha Hm (suffix_nonempty _ _ Hf2 Hne)) as [Ha1 Hc1]. destruct (G2 g Hg Hs He Ha1 (suffix_Forall _ _ _ Hf1 Hm) Hne) as [Ha2 Hc2].
  split; [done|]. intros x [Hx|Hx]; [|by apply Hc2]. eapply covered_mono; [exact H2|]. by apply Hc1.
Qed.

Lemma serves_impl st root s e (d d' : Z -> Prop) mem r : serves st root s e d mem r ->
  (forall g, 2 <= g -> (g | s) -> (g | e + 1) -> aligned g st root -> forall x, d' x -> d x \/ covered_at st root x) -> serves st root s e d' mem r.
Proof.
  intros (st' & mem' & -> & Hr & G) Hd. exists st', mem'. split; [done|]. split; [done|]. intros g Hg Hs He Ha Hm Hne. destruct (G g Hg Hs He Ha Hm Hne) as [Ha' Hc].
  split; [done|]. intros x Hx. destruct (Hd g Hg Hs He Ha x Hx) as [H|H]; [by apply Hc|]. by eapply covered_mono.
Qed.

(** ** Linking the whole range *)

Lemma added_reserved st st' root x s e mem : tree st -> supply st (Some x :: mem) -> word s -> word e -> s <= e ->
  added (<[x := mk_res s e IORESOURCE_BUSY None None None]> st) st' root x -> serves st root s e (fun y => s <= y <= e) (Some x :: mem) (Some (st', mem)).
Proof.
  intros Ht Hm Hs He Hse [A1 A2 A3 A4 A5 A6 A7]. assert (Hx : st !! x = None) by (apply Hm; set_solver). set (st0 := <[x := _]> st) in *.
  assert (Hrx : rng st' x = Some (s, e, IORESOURCE_BUSY)) by (rewrite A4; unfold rng, st0; by rewrite lookup_insert_eq).
  assert (Hx' : lo st' x = s /\ hi st' x = e /\ is_busy st' x).
  { unfold lo, hi, is_busy, rng in *. destruct (st' !! x) as [r|]; [|done]. simpl in *. injection Hrx as -> -> Hfl. unfold busy. by rewrite Hfl. }
  destruct Hx' as (El & Eh & Hbz). assert (Hrg : forall y, y <> x -> rng st' y = rng st y) by (intros y Hy; rewrite A4; by apply new_rng).
  assert (Hbe : forall y, below st root y -> y <> x) by (intros y [p Hy]%below_parent ->; unfold parent_of in Hy; by rewrite Hx in Hy).
  assert (Hroot : root <> x) by (intros ->; by apply (below_irrefl st' x A1)).
  exists st', mem. split; [done|]. split.
  - split; [done| | | | |by exists [Some x]].
    + intros y [r Hy]. apply Hrg. congruence.
    + intros y Hy. apply A6; [done|by apply Hbe|]. by apply new_below.
    + intros y Hy. destruct (decide (y = x)) as [->|Hne]; [right; rewrite El, Eh; split; [done|]; split; [done|lia]|left]. by apply (rng_known st st' y (Hrg y Hne)).
    + destruct Hm as [M1 M2]. split; [|simpl in M2; by apply NoDup_cons in M2 as [_ ?]]. intros y Hy. assert (Hne : y <> x).
      { intros ->. simpl in M2. apply NoDup_cons in M2 as [M2 _]. apply M2. apply list_elem_of_omap. by exists (Some x). }
      assert (Hst : st !! y = None) by (apply M1; set_solver). pose proof (Hrg y Hne) as H. unfold rng in H. rewrite Hst in H. by destruct (st' !! y).
  - intros g Hg Gs Ge Ha _ _. split; [|intros y Hy; exists x; rewrite El, Eh; done].
    intros y Hy. destruct (decide (y = x)) as [->|Hne]; [by rewrite El, Eh|]. destruct (rng_lo st st' y (Hrg y Hne)) as [-> ->]. apply Ha.
    apply A6 in Hy; [|done|done]. by apply new_below in Hy.
Qed.

(** ** The recursion *)

Lemma min_divide g a b : (g | a) -> (g | b) -> (g | Z.min a b) /\ (g | Z.max a b).
Proof. intros Ha Hb. destruct (Z.min_spec a b) as [[_ ->]|[_ ->]], (Z.max_spec a b) as [[_ ->]|[_ ->]]; done. Qed.

Lemma reserve_ok root : forall fuel st s e mem, tree st -> known st root -> supply st mem -> lo st root <= s -> s <= e -> e <= hi st root ->
  e - s <= Z.of_nat fuel ->
  serves st root s e (fun x => s <= x <= e) mem (__reserve_region_with_split fuel st root s e mem).
Proof.
  induction fuel as [fuel IH] using (well_founded_induction lt_wf). intros st s e mem Ht Hr Hm Hs Hse He Hf.
  destruct (tr_word _ Ht root Hr) as [Wl Wh]. assert (Ws : word s) by (unfold word; lia). assert (We : word e) by (unfold word; lia).
  destruct mem as [|[x|] mem].
  { exists st, []. split; [by destruct fuel|]. split; [by apply reserved_refl|]. done. }
  2: { exists st, mem. split; [by destruct fuel|]. split; [apply reserved_refl; try done; by exists [None]|]. intros g _ _ _ _ Hall. by apply Forall_cons in Hall as [[? ?] _]. }
  assert (Hx : st !! x = None) by (apply Hm; set_solver). assert (Hm' : supply st mem).
  { destruct Hm as [M1 M2]. split; [intros y Hy; apply M1; set_solver|]. simpl in M2. by apply NoDup_cons in M2 as [_ ?]. }
  destruct (attempt_ok st root x s e IORESOURCE_BUSY Ht Hr Ws We Hx) as (st1 & cf & E & H). set (st0 := <[x := _]> st) in *. destruct cf as [c|].
  2: { replace (__reserve_region_with_split _ _ _ _ _ _) with (Some (st1, mem)) by (destruct fuel; simpl; fold st0; by rewrite E). destruct H as [_ H]. by apply added_reserved. }
  destruct H as [-> [[_ Hn]|(Hb & Ho & H)]]; [lia|]. destruct (below_known _ _ _ Hb) as [rc Ec]. destruct (lookup_bounds _ _ _ Ec) as [Es Ee].
  pose proof (below_inside _ _ _ Ht Hb) as (_ & Hcc & Hch).
  assert (Hdel : delete x st0 = st) by (unfold st0; by rewrite delete_insert_id).
  assert (Hcov : is_busy st c -> forall y, lo st c <= y <= hi st c -> covered_at st root y) by (intros Hz y Hy; by exists c).
  assert (Hmc : serves st root s e (fun x => s <= x <= e) mem (__reserve_region_with_split fuel st root s e (Some x :: mem)) ->
    serves st root s e (fun x => s <= x <= e) (Some x :: mem) (__reserve_region_with_split fuel st root s e (Some x :: mem))).
  { intros (st' & mem' & E' & [A1 A2 A3 A4 A5 A6] & G). exists st', mem'. split; [done|]. split; [split; try done; by apply suffix_cons_r|].
    intros g Hg Gs Ge Ha [_ Hall]%Forall_cons. by apply G. }
  apply Hmc. clear Hmc. rewrite <- Es in *. rewrite <- Ee in *.
  destruct (bool_decide (start rc <= s) && bool_decide (end_ rc >= e)) eqn:Esp.
  { replace (__reserve_region_with_split _ _ _ _ _ _) with (Some (st, mem)) by (destruct fuel; simpl; fold st0; rewrite E; simpl; rewrite Hdel, Ec; simpl; by rewrite Esp).
    apply andb_true_iff in Esp as [H1%bool_decide_eq_true H2%bool_decide_eq_true]. apply serves_skip; try done. intros g _ _ _ _ y Hy. apply Hcov; [|lia]. destruct H as [H|H]; [done|lia]. }
  assert (Hns : start rc > s \/ end_ rc < e).
  { apply andb_false_iff in Esp as [H1%bool_decide_eq_false|H1%bool_decide_eq_false]; lia. }
  destruct fuel as [|fuel]; [lia|]. simpl. fold st0. rewrite E. simpl. rewrite Hdel, Ec. simpl. rewrite Esp.
  assert (Hal : forall g, aligned g st root -> (g | start rc) /\ (g | end_ rc + 1)) by (intros g Ha; rewrite Es, Ee; by apply Ha).
  apply (serves_impl st root s e (fun y => (s <= y < start rc) \/ ((busy rc = false /\ Z.max (start rc) s < Z.min (end_ rc) e /\ Z.max (start rc) s <= y <= Z.min (end_ rc) e) \/ end_ rc < y <= e))).
  2: { intros g Hg Gs Ge Ha y Hy. destruct (Hal g Ha) as [G1 G2]. destruct (busy rc) eqn:Hz; [destruct (decide (start rc <= y <= end_ rc)); [right; apply Hcov; [by apply (busy_eq st c rc)|lia]|lia]|].
       left. destruct (min_divide g (end_ rc + 1) (e + 1) G2 Ge) as [D1 _]. destruct (min_divide g (start rc) s G1 Gs) as [_ D2].
       destruct (decide (Z.max (start rc) s = Z.min (end_ rc) e)) as [Heq|]; [|lia]. exfalso.
       destruct D1 as [k1 D1], D2 as [k2 D2]. assert (k1 * g - k2 * g = 1) by lia. assert (g * (k1 - k2) = 1) by lia. assert (g = 1 \/ g = -1) by (eapply Z.eq_mul_1; eassumption). lia. }
  apply (serves_bind st root s e s (if bool_decide (start rc > s) then start rc - 1 else e)); [case_bd as Hgt|lia|case_bd; lia| |].
  { rewrite (u32_small (start rc - 1)) by (unfold word in *; lia). eapply serves_impl; [apply (IH fuel ltac:(lia)); try done; lia|]. intros g _ _ _ _ y Hy. left. lia. }
  { apply serves_skip; try done. intros g _ _ _ _ y Hy. lia. }
  { intros g Gs Ge Ha. destruct (Hal g Ha) as [G1 _]. case_bd; [|done]. by replace (start rc - 1 + 1) with (start rc) by lia. }
  intros st1 mem1 R1. assert (Hk1 : known st1 root) by (by eapply reserved_known). destruct (rng_lo st st1 root (rv_rng _ _ _ _ _ _ _ R1 root Hr)) as [Q1 Q2].
  assert (Hc1 : rng st1 c = rng st c) by (apply (rv_rng _ _ _ _ _ _ _ R1); by eexists). destruct (rng_lo st st1 c Hc1) as [Lc1 Lc2].
  assert (Hal1 : forall g, aligned g st1 root -> (g | start rc) /\ (g | end_ rc + 1)) by (intros g Ha; rewrite Es, Ee, <- Lc1, <- Lc2; by apply Ha, (rv_below _ _ _ _ _ _ _ R1)).
  set (b2 := negb (busy rc) && bool_decide (Z.max (start rc) s < Z.min (end_ rc) e)).
  apply (serves_bind st1 root s e (if b2 then Z.max (start rc) s else s) (if b2 then Z.min (end_ rc) e else e)); [destruct b2 eqn:Hb2|destruct b2; lia|destruct b2; lia| |].
  { apply andb_true_iff in Hb2 as [H1 H2%bool_decide_eq_true]. eapply serves_impl; [apply (IH fuel ltac:(lia)); try apply R1; try done; lia|]. intros g _ _ _ _ y Hy. left. lia. }
  { apply serves_skip; try apply R1. intros g _ _ _ _ y (H1 & H2 & H3). unfold b2 in Hb2. rewrite H1 in Hb2. simpl in Hb2. apply bool_decide_eq_false in Hb2. lia. }
  { intros g Gs Ge Ha. destruct (Hal1 g Ha) as [G1 G2]. destruct b2; [|done]. destruct (min_divide g (start rc) s G1 Gs) as [_ D1]. split; [done|].
    replace (Z.min (end_ rc) e + 1) with (Z.min (end_ rc + 1) (e + 1)) by lia. by apply min_divide. }
  intros st2 mem2 R2. assert (Hk2 : known st2 root) by (by eapply reserved_known). destruct (rng_lo st1 st2 root (rv_rng _ _ _ _ _ _ _ R2 root Hk1)) as [Q3 Q4].
  assert (Hc2 : known st1 c) by (apply (rng_known st st1 c Hc1); by eexists). destruct (rng_lo st1 st2 c (rv_rng _ _ _ _ _ _ _ R2 c Hc2)) as [Lc3 Lc4].
  case_bd as Hlt; [|apply serves_skip; try apply R2; intros g _ _ _ _ y Hy; lia].
  rewrite (u32_small (end_ rc + 1)) by (unfold word in *; lia).
  apply (serves_widen st2 root s e (end_ rc + 1) e); [|lia|lia|].
  - eapply serves_impl; [apply (IH fuel ltac:(lia)); try apply R2; try done; lia|]. intros g _ _ _ _ y Hy. left. lia.
  - intros g Gs Ge Ha. destruct (Ha c) as [_ G]; [by apply (rv_below _ _ _ _ _ _ _ R2), (rv_below _ _ _ _ _ _ _ R1)|]. by rewrite Lc4, Lc2, <- Ee in G.
Qed.

(** ** A range outside the root *)

(** A range that begins before the root is never finished: the part before the
    root is split off again and again.  Each turn gives its object back, so that
    memory does not run out; [x] stands for it. *)
Lemma reserve_diverges st root rr x : st !! root = Some rr -> st !! x = None -> 0 < start rr -> start rr < two32 -> forall fuel s e, s < start rr ->
  ~ (start rr <= s /\ e <= end_ rr) -> __reserve_region_with_split fuel st root s e (replicate (S fuel) (Some x)) = None.
Proof.
  intros Er Hx Hpos Hw. assert (Hrx : root <> x) by (intros ->; congruence). induction fuel as [|fuel IH]; intros s e Hs Hn.
  all: assert (E : __request_resource (<[x := mk_res s e IORESOURCE_BUSY None None None]> st) root x = Some (<[x := mk_res s e IORESOURCE_BUSY None None None]> st, Some root))
    by (unfold __request_resource; rewrite (lookup_insert_ne st x root) by (by apply not_eq_sym); rewrite Er, lookup_insert_eq; simpl; case_bd; [done|]; by rewrite bool_decide_eq_true_2);
    assert (E1 : forall n, region_loop n (<[x := mk_res s e IORESOURCE_BUSY None None None]> st) root x = Some (<[x := mk_res s e IORESOURCE_BUSY None None None]> st, Some root))
    by (intros n; destruct n; simpl; rewrite E; simpl; by rewrite bool_decide_eq_false_2 by tauto).
  all: cbn [replicate __reserve_region_with_split]; rewrite E1; simpl; rewrite delete_insert_id, Er by done; simpl.
  all: rewrite (bool_decide_eq_false_2 (start rr <= s)) by lia; simpl.
  { done. }
  rewrite (bool_decide_eq_true_2 (start rr > s)) by lia. change (Some x :: replicate fuel (Some x)) with (replicate (S fuel) (Some x)). rewrite IH; [done|done|lia].
Qed.

End ResourceReserve.
