(* ===== verification/ResourceSpec.v ===== *)
(** * The resource tree: what its users are promised *)

From Stdlib Require Import ZArith Lia.
From stdpp Require Import base option gmap sorting list.
From S2P Require Import Prelude Chain Resource ResourceTop ResourceAlloc ResourceDev ResourceBelow ResourceInsert ResourceRegion.

Local Open Scope Z_scope.
Local Open Scope kernel_scope.

Module ResourceSpec.
Import Resource ResourceTop ResourceOps ResourceAlloc ResourceDev ResourceBelow ResourceInsert ResourceExpand ResourceRegion ResourceRelease ResourceReserve.

(** ** A run of operations *)

Inductive op :=
  | ONew (x : oid) (s e f : Z)
  | ORequest (root new : oid)
  | ORelease (old : oid)
  | OAllocate (root new : oid) (size_ min max align : Z) (alignf : option (Z * Z -> Z * Z))
  | OAdjust (res : oid) (s size_ : Z)
  | OInsert (par new : oid)
  | OExpand (root new : oid)
  | ORequestRegion (par : oid) (s n f : Z) (mem : option oid)
  | OCheckRegion (par : oid) (s n : Z) (mem : option oid)
  | OReleaseRegion (par : oid) (s n : Z)
  | OReserve (root : oid) (s e : Z) (mem : list (option oid)).

Definition exec (st : store) (o : op) : option (store * Z) :=
  match o with
  | ONew x s e f => Some (<[x := mk_res s e f None None None]> st, 0)
  | ORequest root new => request_resource st root new
  | ORelease old => release_resource st old
  | OAllocate root new size_ min max align alignf => allocate_resource st root new size_ min max align alignf
  | OAdjust res s size_ => adjust_resource st res s size_
  | OInsert par new => insert_resource st par new
  | OExpand root new => st ← insert_resource_expand_to_fit st root new; Some (st, 0)
  | ORequestRegion par s n f mem => '(st, _) ← __request_region st par s n f mem; Some (st, 0)
  | OCheckRegion par s n mem => __check_region st par s n mem
  | OReleaseRegion par s n => '(st, _) ← __release_region st par s n; Some (st, 0)
  | OReserve root s e mem => '(st, _) ← reserve_region_with_split st root s e mem; Some (st, 0)
  end.

(** A caller links a resource that is in no tree, releases and adjusts one that
    is, and does not ask for a range that wraps; an object that is allocated is a
    new one; a region is released when nothing was linked below it, and one
    that is reserved lies inside the root. *)
Definition valid (st : store) (o : op) : Prop :=
  match o with
  | ONew x s e _ => st !! x = None /\ word s /\ word e
  | ORequest root new => known st root /\ parent_of st new = Some None /\ apart st root new
  | ORelease old => exists p, parent_of st old = Some (Some p)
  | OAllocate root new _ min max _ alignf =>
      known st root /\ loose st root new /\ word min /\ word max /\ alignf_ok alignf
  | OAdjust res s size_ => (exists p, parent_of st res = Some (Some p)) /\ 0 <= s /\ 0 < size_ /\ s + size_ <= two32
  | OInsert par new | OExpand par new => known st par /\ loose st par new
  | ORequestRegion par s _ _ mem | OCheckRegion par s _ mem => known st par /\ word s /\ forall x, mem = Some x -> st !! x = None
  | OReleaseRegion par s n => known st par /\ forall r, region st par r s (s +u n -u 1) -> kids st r []
  | OReserve root s e mem => known st root /\ supply st mem /\ lo st root <= s /\ s <= e /\ e <= hi st root
  end.

Inductive reachable : store -> Prop :=
  | reach_init : reachable ∅
  | reach_step st o st' ret : reachable st -> valid st o -> exec st o = Some (st', ret) -> reachable st'.

Lemma resource_exec_ok st o : tree st -> valid st o -> exists st' ret, exec st o = Some (st', ret) /\ tree st'.
Proof.
  intros Ht Hv. destruct o as [x s e f|root new|old|root new size_ min max align alignf|res s size_|par new|root new|par s n f mem|par s n mem|par s n|root s e mem]; simpl in *.
  - destruct Hv as (Hx & Hs & He). eexists _, _. split; [done|]. by apply tree_new.
  - destruct Hv as (Hr & Hp & Ha). destruct (tr_kids _ Ht root Hr) as (l & Hk & _).
    unfold request_resource. destruct (request_ok st root new l Ht Hk Hp Ha) as (st' & cf & -> & Hrq). simpl.
    eexists _, _. split; [done|]. destruct cf; simpl in Hrq; [by destruct Hrq as [-> _]|by destruct Hrq].
  - destruct Hv as [p Hp]. destruct (release_ok st p old Ht Hp) as (l1 & l2 & st' & _ & E & _ & Ht').
    eexists _, _. by split; [exact E|].
  - destruct Hv as (Hr & Hl & Hmin & Hmax & Haf). destruct (tr_kids _ Ht root Hr) as (l & Hk & _).
    by eapply allocate_safe.
  - destruct Hv as ((p & Hp) & H1 & H2 & H3). destruct (tr_parent _ Ht res p Hp) as (l & Hk & Hin).
    apply list_elem_of_split in Hin as (l1 & l2 & ->).
    destruct (tr_kids _ Ht res (proj_known _ _ _ _ Hp)) as (lk & Hlk & _).
    destruct (adjust_ok st res p l1 l2 lk s size_ Ht Hk Hlk H1 H2 H3) as (st' & ret & E & Ht' & _). eauto.
  - destruct Hv as [Hp Hl]. destruct (resource_insert_ok st par new Ht Hp Hl) as (st' & cf & E & H). unfold insert_resource. rewrite E. simpl. eexists _, _. split; [done|].
    destruct cf; [by destruct H as [-> _]|apply H].
  - destruct Hv as [Hp Hl]. destruct (expand_ok st root new Ht Hp Hl) as (st' & E & H1 & H2). rewrite E. simpl. eexists _, _. split; [done|].
    destruct (decide (inside st root new)) as [Hi|Hi]; [by apply H1|by rewrite H2].
  - destruct Hv as (Hp & Hs & Hm). destruct (request_region_ok st par s n f mem Ht Hp Hs Hm) as (st' & res & E & H). rewrite E. simpl. eexists _, _. split; [done|].
    destruct res; [apply H|by destruct H as [-> _]].
  - destruct Hv as (Hp & Hs & Hm). destruct (check_region_ok st par s n mem Ht Hp Hs Hm) as (st' & ret & E & H & _). exists st', ret. split; [done|apply H].
  - destruct Hv as (Hp & Hlf). destruct (release_region_ok st par s n Ht Hp) as (st' & b & E & H). rewrite E. simpl. eexists _, _. split; [done|].
    destruct b; [|by destruct H as [-> _]]. destruct H as (r & Hr & Hrm). apply (removed_gone st st' r Ht (Hlf r Hr) Hrm).
  - destruct Hv as (Hr & Hm & Hs & Hse & He). destruct (reserve_ok root (Z.to_nat (e - s)) st s e mem Ht Hr Hm Hs Hse He ltac:(lia)) as (st' & mem' & E & H & _). unfold reserve_region_with_split. rewrite E. simpl.
    eexists _, _. split; [done|]. apply H.
Qed.

Lemma tree_empty : tree ∅.
Proof.
  split.
  - intros r [? H]. by rewrite lookup_empty in H.
  - intros c p H. unfold parent_of in H. by rewrite lookup_empty in H.
  - intros r [? H]. by rewrite lookup_empty in H.
  - intros r [? H]. by rewrite lookup_empty in H.
Qed.

Lemma reachable_tree st : reachable st -> tree st.
Proof.
  induction 1 as [|st o st' ret _ IH Hv E]; [apply tree_empty|].
  destruct (resource_exec_ok st o IH Hv) as (? & ? & E' & ?). by simplify_eq.
Qed.

(** ** Claims *)

(** C36: however resources are requested, released, allocated,
    adjusted, inserted and grown, and regions requested, checked, released and
    reserved, they remain a tree in which the children of a resource lie inside
    it, in order of address and pairwise disjoint, and every call returns, as
    long as callers keep to what [valid] says: they link what is in no tree and
    release or adjust what is in one, no adjusted range wraps, a region that is
    released has nothing linked below it, a region that is reserved lies inside
    the root, and an alignment function keeps to 32-bit addresses. *)
Theorem resource_tree_safe st :
  reachable st -> tree st /\ forall o, valid st o -> exists st' ret, exec st o = Some (st', ret) /\ tree st'.
Proof.
  intros Hr. pose proof (reachable_tree st Hr) as Ht. split; [done|]. intros o. by apply resource_exec_ok.
Qed.

(** A request succeeds exactly when the range lies inside the
    root and overlaps none of its children; the resource is then one of the
    children, and releasing it gives back the children there were.  A refused
    request returns -EBUSY and changes nothing. *)
Theorem request_release_correct st root new l :
  tree st -> kids st root l -> parent_of st new = Some None -> apart st root new ->
  exists st' ret, request_resource st root new = Some (st', ret) /\
    (ret = 0 <-> inside st root new /\ forall c, c ∈ l -> ~ overlap st new c) /\
    (ret <> 0 -> ret = - EBUSY /\ st' = st) /\
    (ret = 0 -> tree st' /\ (exists l1 l2, l = l1 ++ l2 /\ kids st' root (l1 ++ new :: l2)) /\
       exists st'', release_resource st' new = Some (st'', 0) /\ kids st'' root l /\ parent_of st'' new = Some None).
Proof.
  intros Ht Hk Hp Ha. unfold request_resource, release_resource.
  destruct (request_ok st root new l Ht Hk Hp Ha) as (st' & cf & -> & Hrq). simpl.
  eexists _, _. split; [done|]. destruct cf as [c|]; simpl in Hrq.
  - destruct Hrq as [-> Hrq]. split; [|split; [done|done]]. split; [done|]. intros [Hin Hno]. exfalso.
    revert Hrq. case_bd; [done|]. intros (_ & Hc & Ho & _). by apply (Hno c).
  - destruct Hrq as (Ht' & Hin & Hno & (l1 & l2 & -> & [_ Hk' _ Hpn _])). split; [done|]. split; [done|]. intros _.
    split; [done|]. split; [by exists l1, l2|].
    destruct (release_ok st' root new Ht' Hpn) as (a & b & st'' & Hk1 & E & [_ Hk2 _ Hpo _] & _).
    exists st''. split; [done|]. split; [|done].
    pose proof (kids_unique _ _ _ _ Hk' Hk1) as El. pose proof (kids_NoDup _ _ _ Hk') as Hnd.
    replace (l1 ++ l2) with (list_del new (l1 ++ new :: l2)).
    2: { apply NoDup_app in Hnd as (_ & Hd & [Hn _]%NoDup_cons). apply list_del_split; [|done].
         intros H. apply (Hd new H). set_solver. }
    rewrite <- El. rewrite <- El in Hnd. rewrite list_del_split; [done|..];
      apply NoDup_app in Hnd as (_ & Hd & [Hn _]%NoDup_cons); [|done]. intros H. apply (Hd new H). set_solver.
Qed.


(** ** Witnesses *)

Definition after (o : op) (st : store) : store := from_option fst st (exec st o).

(** A root of all addresses with one child, and a resource to place. *)
Definition demo0 : store :=
  after (ONew 2%nat 0 0 0) (after (ONew 1%nat 0x1000 0x1fff 0) (after (ONew 0%nat 0 0xffffffff 0) ∅)).
Definition demo1 : store := after (ORequest 0%nat 1%nat) demo0.

Lemma resource_demo0_reachable : reachable demo0.
Proof.
  assert (Hw : word 0 /\ word 0x1000 /\ word 0x1fff /\ word 0xffffffff) by (unfold word, two32; lia).
  destruct Hw as (W0 & W1 & W2 & W3).
  apply (reach_step (after (ONew 1%nat 0x1000 0x1fff 0) (after (ONew 0%nat 0 0xffffffff 0) ∅)) (ONew 2%nat 0 0 0) _ 0); [|by split|done].
  apply (reach_step (after (ONew 0%nat 0 0xffffffff 0) ∅) (ONew 1%nat 0x1000 0x1fff 0) _ 0); [|by split|done].
  apply (reach_step ∅ (ONew 0%nat 0 0xffffffff 0) _ 0); [apply reach_init|by split|done].
Qed.

(** A resource that is at the top. *)
Lemma apart_top st root new : parent_of st root = Some None -> new <> root -> apart st root new.
Proof.
  intros Hp Hne l Hl Hin. destruct l as [|x l]; [done|]. destruct Hl as ([= ->] & o & E & Hl). rewrite Hp in E.
  injection E as <-. destruct l as [|y l]; [set_solver|]. by destruct Hl.
Qed.

Lemma kids_follow st r c l : child_of st r = Some c -> follow (size st) (sib_of st) c = Some l -> kids st r l.
Proof. intros Ec El. exists c. split; [done|]. by eapply follow_chain. Qed.

Lemma demo0_facts : kids demo0 0%nat [] /\ parent_of demo0 1%nat = Some None /\ apart demo0 0%nat 1%nat.
Proof.
  split; [by eapply kids_follow|]. split; [done|]. apply apart_top; done.
Qed.

Lemma demo1_facts : reachable demo1 /\ kids demo1 0%nat [1%nat] /\ loose demo1 0%nat 2%nat.
Proof.
  split.
  - apply (reach_step demo0 (ORequest 0%nat 1%nat) _ 0); [apply resource_demo0_reachable| |vm_compute; reflexivity].
    split; [by eexists|]. apply demo0_facts.
  - split; [eapply kids_follow; vm_compute; reflexivity|]. split; [vm_compute; reflexivity|].
    split; [eapply kids_follow; vm_compute; reflexivity|]. apply apart_top; [vm_compute; reflexivity|done].
Qed.


Lemma resource_tree_safe_witness : reachable demo1 /\ tree demo1.
Proof.
  exact (conj (proj1 demo1_facts) (proj1 (resource_tree_safe demo1 (proj1 demo1_facts)))).
Defined.

Lemma request_release_correct_witness : exists st' ret,
  request_resource demo0 0%nat 1%nat = Some (st', ret) /\
  (ret = 0 <-> inside demo0 0%nat 1%nat /\ forall c, c ∈ [] -> ~ overlap demo0 1%nat c).
Proof.
  destruct (request_release_correct demo0 0%nat 1%nat [] (reachable_tree _ resource_demo0_reachable)
    (proj1 demo0_facts) (proj1 (proj2 demo0_facts)) (proj2 (proj2 demo0_facts))) as (st' & ret & H1 & H2 & _).
  exact (ex_intro _ st' (ex_intro _ ret (conj H1 H2))).
Defined.


(** ** Where the arithmetic wraps *)

(** A root that ends at the last address, with all but its ends taken. *)
Definition full : store :=
  after (ORequest 0%nat 1%nat)
    (after (ONew 2%nat 0 0 0) (after (ONew 1%nat 0x1000 0xfffff000 0) (after (ONew 0%nat 0 0xffffffff 0) ∅))).

(** Asked for a range from 0x1000 on, [allocate_resource] succeeds with the range
    from 0: rounding up the start behind the child wraps to 0. *)
Lemma allocate_below_min : exists st',
  allocate_resource full 0%nat 2%nat 0x100 0x1000 0xffffffff 0x1000 None = Some (st', 0) /\
  lo st' 2%nat = 0 /\ hi st' 2%nat = 0xff.
Proof.
  eexists (after (OAllocate 0%nat 2%nat 0x100 0x1000 0xffffffff 0x1000 None) full).
  split; [vm_compute; reflexivity|]. split; vm_compute; reflexivity.
Qed.

(** [adjust_resource] accepts a size with which the range wraps: the resource is
    left ending before it starts. *)
Lemma adjust_wraps : exists st',
  adjust_resource demo1 1%nat 0x2000 0xfffff000 = Some (st', 0) /\ hi st' 1%nat < lo st' 1%nat.
Proof.
  eexists (after (OAdjust 1%nat 0x2000 0xfffff000) demo1). split; vm_compute; reflexivity.
Qed.

(** A gap of one unit is never found, although the request fits it. *)
Lemma one_unit_gap : exists st' st'',
  allocate_resource (after (ORequest 0%nat 1%nat) (after (ONew 2%nat 0 0 0)
    (after (ONew 1%nat 1 0xffff 0) (after (ONew 0%nat 0 0xffff 0) ∅)))) 0%nat 2%nat 1 0 0xffff 1 None = Some (st', - EBUSY) /\
  request_resource (after (ORequest 0%nat 1%nat) (after (ONew 2%nat 0 0 0)
    (after (ONew 1%nat 1 0xffff 0) (after (ONew 0%nat 0 0xffff 0) ∅)))) 0%nat 2%nat = Some (st'', 0).
Proof. eexists _, _. split; vm_compute; reflexivity. Qed.

End ResourceSpec.
