(* ===== verification/ResourceRegionSpec.v ===== *)
(** * The resource tree: insertion and regions, what users are promised *)

From Stdlib Require Import ZArith Lia.
From stdpp Require Import base option gmap sorting list.
From S2P Require Import Prelude Chain Resource ResourceTop ResourceAlloc ResourceDev ResourceBelow ResourceInsert ResourceRegion ResourceSpec.

Local Open Scope Z_scope.
Local Open Scope kernel_scope.

Module ResourceRegionSpec.
Import Resource ResourceTop ResourceOps ResourceAlloc ResourceDev ResourceBelow ResourceInsert ResourceExpand ResourceRegion ResourceRelease ResourceReserve ResourceSpec.

(** ** Insertion *)

(** [insert_resource] always returns.  It succeeds exactly when the new
    range lies inside the parent and each resource below the parent is apart from
    it, inside it, or contains it.  Then the new resource has below it exactly the
    resources that lie inside its range, and all others keep their places to one
    another; otherwise it returns -EBUSY and nothing has changed. *)
Theorem insert_resource_correct st par new : reachable st -> known st par -> loose st par new ->
  exists st' ret, insert_resource st par new = Some (st', ret) /\
    (ret = 0 <-> inside st par new /\ forall x, below st par x -> ~ clash st new x) /\
    (ret <> 0 -> ret = - EBUSY /\ st' = st) /\
    (ret = 0 -> tree st' /\ below st' par new /\ (forall y, rng st' y = rng st y) /\
       (forall x, below st' new x <-> below st par x /\ within st x new) /\
       forall x y, x <> new -> y <> new -> below st' x y <-> below st x y).
Proof.
  intros Hre Hp Hl. pose proof (reachable_tree st Hre) as Ht. destruct (resource_insert_ok st par new Ht Hp Hl) as (st' & cf & E & H). unfold insert_resource. rewrite E. simpl.
  eexists _, _. split; [done|]. destruct cf as [c|].
  - destruct H as [-> H]. split; [|done]. split; [done|]. intros [Hi Hno]. exfalso. revert H. case_bd; [done|]. intros (_ & Hb & Hc). by apply (Hno c).
  - destruct H as (Hi & Hno & [I1 I2 I3 I4 I5]). done.
Qed.

(** [insert_resource_expand_to_fit] ends.  A resource inside the root is
    inserted, and its range has grown to the least one around it that every
    resource below the root is apart from, inside of, or contains; one that is not
    inside the root is left alone. *)
Theorem insert_expand_least st root new : reachable st -> known st root -> loose st root new ->
  exists st', insert_resource_expand_to_fit st root new = Some st' /\
    (~ inside st root new -> st' = st) /\
    (inside st root new ->
      let s := lo st' new in let e := hi st' new in
      tree st' /\ below st' root new /\ (forall y, y <> new -> rng st' y = rng st y) /\
      (s <= lo st new /\ hi st new <= e) /\ (forall x, below st root x -> ~ cuts st x s e) /\
      (forall s' e', s' <= lo st new -> hi st new <= e' -> (forall x, below st root x -> ~ cuts st x s' e') -> s' <= s /\ e <= e') /\
      forall x, below st' new x <-> below st root x /\ in_range st x s e).
Proof.
  intros Hre Hr Hl. pose proof (reachable_tree st Hre) as Ht. destruct (expand_ok st root new Ht Hr Hl) as (st' & E & H1 & H2). exists st'. split; [done|]. split; [done|].
  intros Hi. by destruct (H1 Hi) as [X1 X2 X3 X4 X5 X6 X7 X8].
Qed.

(** ** Regions *)

(** [__request_region] always returns.  With memory for it, a region is
    given exactly when the range lies inside the parent and whatever it overlaps
    contains it and is not busy; else nothing has changed.  As long as it is
    there, no range that overlaps it is given out again, and
    [__release_region] of it leaves the tree there was before. *)
Theorem request_region_correct st par s n f x : reachable st -> known st par -> word s -> st !! x = None ->
  let e := s +u n -u 1 in
  exists st' res, __request_region st par s n f (Some x) = Some (st', res) /\
    (res = Some x <-> vacant st par s e) /\ (res <> Some x -> res = None /\ st' = st) /\
    (res = Some x ->
      tree st' /\ below st' par x /\ lo st' x = s /\ hi st' x = e /\ is_busy st' x /\
      (forall s' e', s' <= e -> s <= e' -> ~ vacant st' par s' e') /\
      exists st'', __release_region st' par s n = Some (st'', true) /\ tree st'' /\
        (forall y, rng st'' y = rng st y) /\ (forall y, parent_of st'' y = parent_of st y)).
Proof.
  intros Hre Hp Hs Hx e. pose proof (reachable_tree st Hre) as Ht. destruct (request_region_ok st par s n f (Some x) Ht Hp Hs) as (st' & res & E & H); [by intros y [= <-]|].
  exists st', res. split; [done|]. destruct res as [y|].
  - destruct H as ([= <-] & Hv & Ha). split; [done|]. split; [done|]. intros _.
    pose proof (added_region _ _ par x s e (tree_new st x s e _ Ht Hx Hs (u32_word _)) (proj1 (new_region st x s e f)) (proj1 (proj2 (new_region st x s e f))) (proj2 (proj2 (new_region st x s e f))) Ha) as [R1 R2 R3 R4 _].
    split; [apply Ha|]. split; [done|]. split; [done|]. split; [done|]. split; [done|]. split.
    + intros s' e' H1 H2 [_ Hvac]. destruct (Hvac x R1) as [_ Hn]; [lia|lia|done].
    + destruct (request_release_region st par x s n f st' Ht Hp Hs Hx Ha) as (st'' & E2 & Hst & Hr & Hpar & _). by exists st''.
  - destruct H as [-> [?|Hv]]; [done|]. split; [by split|]. split; [done|done].
Qed.

(** On a range inside the root, [__reserve_region_with_split] ends
    within as many nested calls as the range is long.  It only adds resources,
    all of them busy, below the root and in the range.  If memory does not run
    out and all resources and the range begin and end at multiples of some
    number from 2 on, every address of the range is then in a busy resource. *)
Theorem reserve_region_correct st root s e mem : reachable st -> known st root -> supply st mem -> lo st root <= s -> s <= e -> e <= hi st root ->
  exists st' mem', __reserve_region_with_split (Z.to_nat (e - s)) st root s e mem = Some (st', mem') /\ tree st' /\
    (forall y, known st y -> rng st' y = rng st y) /\ (forall y, below st root y -> below st' root y) /\
    (forall y, known st' y -> known st y \/ (below st' root y /\ is_busy st' y /\ s <= lo st' y /\ hi st' y <= e)) /\
    forall g, 2 <= g -> (g | s) -> (g | e + 1) -> aligned g st root -> Forall is_Some mem -> mem' <> [] -> forall x, s <= x <= e -> covered_at st' root x.
Proof.
  intros Hre Hr Hm Hs Hse He. pose proof (reachable_tree st Hre) as Ht.
  destruct (reserve_ok root (Z.to_nat (e - s)) st s e mem Ht Hr Hm Hs Hse He ltac:(lia)) as (st' & mem' & E & [R1 R2 R3 R4 R5 R6] & G).
  exists st', mem'. split; [done|]. split; [done|]. split; [done|]. split; [done|]. split; [done|]. intros g Hg Gs Ge Ha Hall Hne. by apply (G g).
Qed.

(** ** Witnesses *)

Definition demo_run (l : list op) : store := foldl (fun st o => after o st) ∅ l.

(** A root of 64 KiB with two children, a resource around them and one that cuts
    the second. *)
Definition demo2_ops : list op :=
  [ONew 0%nat 0 0xffff 0; ONew 1%nat 0x1000 0x1fff 0; ORequest 0%nat 1%nat; ONew 3%nat 0x3000 0x3fff 0; ORequest 0%nat 3%nat; ONew 4%nat 0x1000 0x37ff 0].

Definition demo2 : store := demo_run demo2_ops.

Lemma demo_step st o st' : reachable st -> valid st o -> after o st = st' -> is_Some (exec st o) -> reachable st'.
Proof. intros Hr Hv E [[st1 ret] E1]. unfold after in E. rewrite E1 in E. simpl in E. subst. by eapply reach_step. Qed.

Lemma demo2_reachable : reachable demo2.
Proof.
  assert (Hw : word 0 /\ word 0x1000 /\ word 0x1fff /\ word 0xffff /\ word 0x3000 /\ word 0x3fff /\ word 0x37ff) by (unfold word, two32; lia).
  destruct Hw as (W0 & W1 & W2 & W3 & W4 & W5 & W6). set (run k := demo_run (take k demo2_ops)).
  assert (R0 : reachable (run 0%nat)) by apply reach_init.
  assert (R1 : reachable (run 1%nat)) by (eapply (demo_step _ (ONew 0%nat 0 0xffff 0)); [exact R0|by split|vm_compute; reflexivity|by eexists]).
  assert (R2 : reachable (run 2%nat)) by (eapply (demo_step _ (ONew 1%nat 0x1000 0x1fff 0)); [exact R1|by split|vm_compute; reflexivity|by eexists]).
  assert (R3 : reachable (run 3%nat)).
  { eapply (demo_step _ (ORequest 0%nat 1%nat)); [exact R2| |vm_compute; reflexivity|by eexists]. split; [by eexists|]. split; [vm_compute; reflexivity|]. by apply apart_top. }
  assert (R4 : reachable (run 4%nat)) by (eapply (demo_step _ (ONew 3%nat 0x3000 0x3fff 0)); [exact R3|by split|vm_compute; reflexivity|by eexists]).
  assert (R5 : reachable (run 5%nat)).
  { eapply (demo_step _ (ORequest 0%nat 3%nat)); [exact R4| |vm_compute; reflexivity|by eexists]. split; [by eexists|]. split; [vm_compute; reflexivity|]. by apply apart_top. }
  eapply (demo_step _ (ONew 4%nat 0x1000 0x37ff 0)); [exact R5|by split|vm_compute; reflexivity|by eexists].
Qed.

Lemma demo2_loose : known demo2 0%nat /\ loose demo2 0%nat 4%nat.
Proof.
  split; [by eexists|]. split; [vm_compute; reflexivity|]. split; [eapply kids_follow; vm_compute; reflexivity|]. apply apart_top; [vm_compute; reflexivity|done].
Qed.

Lemma insert_resource_correct_witness : exists st' ret, insert_resource demo2 0%nat 4%nat = Some (st', ret) /\
  (ret = 0 <-> inside demo2 0%nat 4%nat /\ forall x, below demo2 0%nat x -> ~ clash demo2 4%nat x).
Proof.
  destruct (insert_resource_correct demo2 0%nat 4%nat demo2_reachable (proj1 demo2_loose) (proj2 demo2_loose)) as (st' & ret & E & H & _).
  exists st', ret. split; [exact E|exact H].
Defined.

Lemma insert_expand_least_witness : exists st', insert_resource_expand_to_fit demo2 0%nat 4%nat = Some st' /\ below st' 0%nat 4%nat.
Proof.
  destruct (insert_expand_least demo2 0%nat 4%nat demo2_reachable (proj1 demo2_loose) (proj2 demo2_loose)) as (st' & E & _ & H). exists st'. split; [exact E|].
  apply H. unfold inside. vm_compute. repeat split; discriminate.
Defined.

Lemma request_region_correct_witness : exists st' res, __request_region demo2 0%nat 0x3100 0x100 0 (Some 9%nat) = Some (st', res) /\
  (res = Some 9%nat <-> vacant demo2 0%nat 0x3100 0x31ff).
Proof.
  destruct (request_region_correct demo2 0%nat 0x3100 0x100 0 9%nat demo2_reachable (proj1 demo2_loose)) as (st' & res & E & H & _).
  - unfold word, two32. lia.
  - vm_compute. reflexivity.
  - exists st', res. split; [exact E|exact H].
Defined.

Definition demo_mem : list (option oid) := [Some 10%nat; Some 11%nat; Some 12%nat; Some 13%nat; Some 14%nat; Some 15%nat; Some 16%nat; Some 17%nat; Some 18%nat].

Lemma reserve_region_correct_witness : exists st' mem', __reserve_region_with_split (Z.to_nat (0x3fff - 0x800)) demo2 0%nat 0x800 0x3fff demo_mem = Some (st', mem') /\ tree st'.
Proof.
  assert (Hm : supply demo2 demo_mem).
  { split; [|apply (bool_decide_unpack _); vm_compute; exact I]. intros x Hx. unfold demo_mem in Hx. repeat (apply elem_of_cons in Hx as [Hx|Hx]; [injection Hx as ->; vm_compute; reflexivity|]).
    by apply not_elem_of_nil in Hx. }
  destruct (reserve_region_correct demo2 0%nat 0x800 0x3fff demo_mem demo2_reachable (proj1 demo2_loose) Hm) as (st' & mem' & E & Ht & _).
  - vm_compute. discriminate.
  - lia.
  - vm_compute. discriminate.
  - exists st', mem'. split; [exact E|exact Ht].
Defined.

(** ** Where reserving goes wrong *)

(** Where a resource that is not busy and the range have one unit in common, that
    unit stays free. *)
Lemma reserve_skips_unit : exists st' mem' st'',
  __reserve_region_with_split 0x800 demo2 0%nat 0x800 0x1000 demo_mem = Some (st', mem') /\ mem' <> [] /\
  __request_region st' 0%nat 0x1000 1 0 (Some 19%nat) = Some (st'', Some 19%nat).
Proof. eexists _, _, _. split; [vm_compute; reflexivity|]. split; [discriminate|]. vm_compute. reflexivity. Qed.

(** A range that begins before the root: no number of nested calls is enough. *)
Lemma reserve_outside_root : exists st, reachable st /\ forall fuel, __reserve_region_with_split fuel st 0%nat 0x800 0x1fff (replicate (S fuel) (Some 9%nat)) = None.
Proof.
  exists (<[0%nat := mk_res 0x1000 0xffff 0 None None None]> ∅). split.
  - apply (reach_step ∅ (ONew 0%nat 0x1000 0xffff 0) _ 0); [apply reach_init|split; [done|unfold word, two32; lia]|done].
  - intros fuel. eapply (reserve_diverges _ 0%nat (mk_res 0x1000 0xffff 0 None None None) 9%nat); simpl; try lia; vm_compute; done.
Qed.

End ResourceRegionSpec.
