(* ===== verification/Mempool.v ===== *)
(** * Memory pools ([mm/mempool.c]): the model

    A pool keeps a reserve of elements for when the allocator behind it fails.
    The parts of a routine that run under [pool->lock] are one definition each;
    between them other tasks may run.

    A result [None] is a [BUG_ON] or an access outside [pool->elements]. *)

From Stdlib Require Import ZArith Lia.
From stdpp Require Import base option gmap list.
From S2P Require Import Prelude.

Local Open Scope Z_scope.
Local Open Scope kernel_scope.

Module Mempool.

Definition eid := nat.

(** [mempool_t]: [elements] are the first [curr_nr] entries of the array, whose
    length is [capacity]. *)
Record mempool := mk_pool { min_nr : Z; elements : list eid; capacity : Z }.

Definition curr_nr (pool : mempool) : Z := Z.of_nat (length (elements pool)).

Definition set_elements (pool : mempool) (l : list eid) : mempool := mk_pool (min_nr pool) l (capacity pool).
Definition set_min_nr (pool : mempool) (n : Z) : mempool := mk_pool n (elements pool) (capacity pool).

Definition add_element (pool : mempool) (element : eid) : option mempool :=
  if bool_decide (curr_nr pool >= min_nr pool) then None
  else if bool_decide (curr_nr pool < capacity pool) then Some (set_elements pool (elements pool ++ [element]))
  else None.

Definition remove_element (pool : mempool) : option (mempool * eid) :=
  if bool_decide (curr_nr pool <= 0) then None
  else e ← last (elements pool); Some (set_elements pool (removelast (elements pool)), e).

(** The elements passed to [pool->free], in order. *)
Fixpoint free_pool_loop (fuel : nat) (pool : mempool) : option (list eid) :=
  if bool_decide (curr_nr pool <> 0) then
    match fuel with
    | O => None
    | S fuel => '(pool, e) ← remove_element pool; l ← free_pool_loop fuel pool; Some (e :: l)
    end
  else Some [].

Definition free_pool (pool : mempool) : option (list eid) := free_pool_loop (length (elements pool)) pool.

(** ** Creation and destruction *)

(** What creation ends in: the pool, or NULL with the elements given back. *)
Inductive created := Pool (pool : mempool) | Null (freed : list eid).

(** The preallocation loop; [allocs] are the successive results of
    [pool->alloc]. *)
Fixpoint fill_loop (allocs : list (option eid)) (pool : mempool) : option created :=
  if bool_decide (curr_nr pool < min_nr pool) then
    match allocs with
    | [] => None
    | None :: _ => l ← free_pool pool; Some (Null l)
    | Some e :: allocs => pool ← add_element pool e; fill_loop allocs pool
    end
  else Some (Pool pool).

(** [struct_ok] and [array_ok] say whether the two [kmalloc_node] succeed; the
    array is as long as the 32-bit product asks for. *)
Definition mempool_create_node (nr : Z) (struct_ok array_ok : bool) (allocs : list (option eid)) : option created :=
  if negb struct_ok then Some (Null [])
  else if negb array_ok then Some (Null [])
  else fill_loop allocs (mk_pool nr [] ((nr *u 4) / 4)).

Definition mempool_create := mempool_create_node.

Definition mempool_destroy (pool : mempool) : option (list eid) :=
  if bool_decide (curr_nr pool <> min_nr pool) then None else free_pool pool.

(** ** Allocation and freeing *)

Inductive alloc_result := Got (e : eid) | NoElement | Wait.

(** One round of [mempool_alloc], from [repeat_alloc]: [element] is what
    [pool->alloc] returns, [gfp_wait] whether [__GFP_WAIT] is set. *)
Definition mempool_alloc (pool : mempool) (element : option eid) (gfp_wait : bool)
  : option (mempool * alloc_result) :=
  match element with
  | Some e => Some (pool, Got e)
  | None =>
      if bool_decide (curr_nr pool <> 0) then '(pool, e) ← remove_element pool; Some (pool, Got e)
      else if negb gfp_wait then Some (pool, NoElement)
      else Some (pool, Wait)
  end.

(** On the wait queue: whether the task sleeps before the next round. *)
Definition mempool_alloc_sleeps (pool : mempool) : bool := bool_decide (curr_nr pool = 0).

(** [mempool_free] of an element: the test without the lock, and the part under
    it, which says whether the element is left to [pool->free]. *)
Definition mempool_free_test (pool : mempool) : bool := bool_decide (curr_nr pool < min_nr pool).

Definition mempool_free_locked (pool : mempool) (element : eid) : option (mempool * bool) :=
  if bool_decide (curr_nr pool < min_nr pool) then pool ← add_element pool element; Some (pool, false)
  else Some (pool, true).

(** The whole of it, undisturbed: with what is left to [pool->free]. *)
Definition mempool_free (pool : mempool) (element : option eid) : option (mempool * option eid) :=
  match element with
  | None => Some (pool, None)
  | Some e =>
      if mempool_free_test pool
      then '(pool, full) ← mempool_free_locked pool e; Some (pool, if full : bool then Some e else None)
      else Some (pool, Some e)
  end.

(** ** Resizing *)

(** Where [mempool_resize] gives up the lock: to free an element while it
    shrinks, before the new array is allocated, before the next element is
    allocated, and with that element allocated; or its return. *)
Inductive resizing :=
  | RFree (new_min_nr : Z) (element : eid)
  | RGrow (new_min_nr : Z)
  | RFill
  | RAdd (element : eid)
  | RReturn (ret : Z).

Definition resize_shrink (pool : mempool) (new_min_nr : Z) : option (mempool * resizing) :=
  if bool_decide (new_min_nr < curr_nr pool)
  then '(pool, e) ← remove_element pool; Some (pool, RFree new_min_nr e)
  else Some (set_min_nr pool new_min_nr, RReturn 0).

Definition resize_start (pool : mempool) (new_min_nr : Z) : option (mempool * resizing) :=
  if bool_decide (new_min_nr <= 0) then None
  else if bool_decide (new_min_nr <= min_nr pool) then resize_shrink pool new_min_nr
  else Some (pool, RGrow new_min_nr).

(** The test of the fill loop. *)
Definition resize_fill (pool : mempool) : resizing :=
  if bool_decide (curr_nr pool < min_nr pool) then RFill else RReturn 0.

(** [kmalloc_ok] says whether the new array was allocated. *)
Definition resize_grow (pool : mempool) (new_min_nr : Z) (kmalloc_ok : bool) : option (mempool * resizing) :=
  if negb kmalloc_ok then Some (pool, RReturn (- ENOMEM))
  else if bool_decide (new_min_nr <= min_nr pool) then Some (pool, RReturn 0)
  else
    let size := (new_min_nr *u 4) / 4 in
    if bool_decide (curr_nr pool <= size) then
      let pool := mk_pool new_min_nr (elements pool) size in
      Some (pool, resize_fill pool)
    else None.

(** With the element allocated: whether it is left to [pool->free]. *)
Definition resize_add (pool : mempool) (element : eid) : option (mempool * resizing * bool) :=
  if bool_decide (curr_nr pool < min_nr pool)
  then pool ← add_element pool element; Some (pool, resize_fill pool, false)
  else Some (pool, RReturn 0, true).

(** The whole of [mempool_resize], undisturbed, from any of its points:
    [allocs] are the successive results of [pool->alloc], [freed] what was
    passed to [pool->free]. *)
Fixpoint resize_loop (fuel : nat) (pool : mempool) (r : resizing) (kmalloc_ok : bool) (allocs : list (option eid))
    (freed : list eid) : option (mempool * Z * list eid) :=
  match fuel, r with
  | _, RReturn ret => Some (pool, ret, freed)
  | O, _ => None
  | S fuel, RFree n e =>
      '(pool, r) ← resize_shrink pool n; resize_loop fuel pool r kmalloc_ok allocs (freed ++ [e])
  | S fuel, RGrow n => '(pool, r) ← resize_grow pool n kmalloc_ok; resize_loop fuel pool r kmalloc_ok allocs freed
  | S fuel, RFill =>
      match allocs with
      | [] => None
      | None :: _ => Some (pool, 0, freed)
      | Some e :: allocs => resize_loop fuel pool (RAdd e) kmalloc_ok allocs freed
      end
  | S fuel, RAdd e =>
      '(pool, r, full) ← resize_add pool e;
      resize_loop fuel pool r kmalloc_ok allocs (if full : bool then freed ++ [e] else freed)
  end.

(** At most one step per element removed, two per element added, and one for the
    array. *)
Definition mempool_resize (pool : mempool) (new_min_nr : Z) (kmalloc_ok : bool) (allocs : list (option eid))
  : option (mempool * Z * list eid) :=
  '(pool', r) ← resize_start pool new_min_nr;
  resize_loop (length (elements pool) + 2 * length allocs + 2) pool' r kmalloc_ok allocs [].

End Mempool.
