(* ===== verification/MempoolTop.v ===== *)
(** * Memory pools: the reserve under concurrency *)

From Stdlib Require Import ZArith Lia.
From stdpp Require Import base option gmap list list_tactics.
From S2P Require Import Prelude Mempool.

Local Open Scope Z_scope.
Local Open Scope kernel_scope.

Module MempoolTop.
Import Mempool.

(** ** Runs *)

(** A pool with its users: the elements they hold, those on their way to
    [pool->free], the resize under way, and, for the statements only, the
    size the pool had when its reserve was last full, or was reduced to since,
    and the elements that exist. *)
Record sys := mk_sys {
  s_pool : mempool;
  s_held : list eid;
  s_pend : list eid;
  s_resize : option resizing;
  s_floor : Z;
  s_live : gset eid
}.

(** A reserve that is full stands for the whole size again, unless the pool is
    being reduced. *)
Definition floor_of (pool : mempool) (rs : option resizing) (fl : Z) : Z :=
  match rs with
  | Some (RFree _ _) => fl
  | _ => if bool_decide (min_nr pool <= curr_nr pool) then min_nr pool else fl
  end.

Definition ongoing (r : resizing) : option resizing := match r with RReturn _ => None | _ => Some r end.

Inductive step : sys -> sys -> Prop :=
  (* [mempool_alloc] gets an element from [pool->alloc], or from the reserve *)
  | st_alloc pool held pend rs fl live e w :
      e ∉ live -> mempool_alloc pool (Some e) w = Some (pool, Got e) ->
      step (mk_sys pool held pend rs fl live) (mk_sys pool (e :: held) pend rs fl ({[e]} ∪ live))
  | st_reserve pool pool' held pend rs fl live e w :
      mempool_alloc pool None w = Some (pool', Got e) ->
      step (mk_sys pool held pend rs fl live) (mk_sys pool' (e :: held) pend rs fl live)
  (* [mempool_free]: the test without the lock fails *)
  | st_free_full pool held held' pend rs fl live e :
      held ≡ₚ e :: held' -> mempool_free_test pool = false ->
      step (mk_sys pool held pend rs fl live) (mk_sys pool held' (e :: pend) rs fl live)
  (* or it succeeded at some earlier time *)
  | st_free pool pool' held held' pend rs fl live e full :
      held ≡ₚ e :: held' -> mempool_free_locked pool e = Some (pool', full) ->
      step (mk_sys pool held pend rs fl live)
        (mk_sys pool' held' (if full : bool then e :: pend else pend) rs (floor_of pool' rs fl) live)
  | st_free_done pool held pend pend' rs fl live e :
      pend ≡ₚ e :: pend' ->
      step (mk_sys pool held pend rs fl live) (mk_sys pool held pend' rs fl (live ∖ {[e]}))
  (* [mempool_resize], one at a time *)
  | st_resize pool pool' held pend fl live n r :
      n * 4 < two32 -> resize_start pool n = Some (pool', r) ->
      step (mk_sys pool held pend None fl live) (mk_sys pool' held pend (ongoing r) (Z.min fl n) live)
  | st_resize_free pool pool' held pend fl live n e r :
      resize_shrink pool n = Some (pool', r) ->
      step (mk_sys pool held pend (Some (RFree n e)) fl live)
        (mk_sys pool' held pend (ongoing r) fl (live ∖ {[e]}))
  | st_resize_grow pool pool' held pend fl live n ok r :
      resize_grow pool n ok = Some (pool', r) ->
      step (mk_sys pool held pend (Some (RGrow n)) fl live)
        (mk_sys pool' held pend (ongoing r) (floor_of pool' (ongoing r) fl) live)
  | st_resize_nomem pool held pend fl live :
      step (mk_sys pool held pend (Some RFill) fl live) (mk_sys pool held pend None fl live)
  | st_resize_alloc pool held pend fl live e :
      e ∉ live ->
      step (mk_sys pool held pend (Some RFill) fl live) (mk_sys pool held pend (Some (RAdd e)) fl ({[e]} ∪ live))
  | st_resize_add pool pool' held pend fl live e r full :
      resize_add pool e = Some (pool', r, full) ->
      step (mk_sys pool held pend (Some (RAdd e)) fl live)
        (mk_sys pool' held pend (ongoing r) (floor_of pool' (ongoing r) fl) (if full : bool then live ∖ {[e]} else live)).

Inductive reachable : sys -> Prop :=
  | reach_init nr allocs pool :
      0 <= nr -> nr * 4 < two32 -> NoDup (omap id allocs) ->
      mempool_create nr true true allocs = Some (Pool pool) ->
      reachable (mk_sys pool [] [] None nr (list_to_set (elements pool)))
  | reach_step s s' : reachable s -> step s s' -> reachable s'.

(** ** The invariant *)

Definition transit (r : option resizing) : list eid :=
  match r with Some (RFree _ e) | Some (RAdd e) => [e] | _ => [] end.

(** Where every element is. *)
Definition accounted (s : sys) : list eid := elements (s_pool s) ++ s_held s ++ s_pend s ++ transit (s_resize s).

Definition resize_ok (pool : mempool) (floor : Z) (r : option resizing) : Prop :=
  match r with
  | Some (RFree n _) => floor <= n /\ 0 < n <= min_nr pool
  | Some (RGrow n) => 0 < n /\ n * 4 < two32
  | Some (RReturn _) => False
  | _ => True
  end.

(** Every element that exists is in one place. *)
Definition balanced (l : list eid) (live : gset eid) : Prop := NoDup l /\ forall e, e ∈ l <-> e ∈ live.

Record inv (s : sys) : Prop := {
  in_nr : curr_nr (s_pool s) <= min_nr (s_pool s) <= capacity (s_pool s);
  in_resize : resize_ok (s_pool s) (s_floor s) (s_resize s);
  in_floor : s_floor s <= min_nr (s_pool s);
  in_reserve : s_floor s <= curr_nr (s_pool s) + Z.of_nat (length (s_held s));
  in_live : balanced (accounted s) (s_live s)
}.

Lemma floor_of_ok pool rs fl (held : list eid) :
  resize_ok pool fl rs -> fl <= min_nr pool -> fl <= curr_nr pool + Z.of_nat (length held) ->
  resize_ok pool (floor_of pool rs fl) rs /\ floor_of pool rs fl <= min_nr pool /\
  floor_of pool rs fl <= curr_nr pool + Z.of_nat (length held).
Proof. intros H1 H2 H3. destruct rs as [[]|]; simpl in *; try done; case_bd; split; (done || lia). Qed.

(** A run keeps the invariant with the floor raised. *)
Lemma inv_floor pool held pend rs fl live :
  inv (mk_sys pool held pend rs fl live) -> inv (mk_sys pool held pend rs (floor_of pool rs fl) live).
Proof. intros [H1 H2 H3 H4 H5]. simpl in *. destruct (floor_of_ok pool rs fl held) as (? & ? & ?); try done. Qed.

(** ** The parts *)

Lemma add_element_ok pool e : curr_nr pool < min_nr pool -> min_nr pool <= capacity pool ->
  exists pool', add_element pool e = Some pool' /\ min_nr pool' = min_nr pool /\ capacity pool' = capacity pool /\
    elements pool' = elements pool ++ [e] /\ curr_nr pool' = curr_nr pool + 1.
Proof.
  intros H1 H2. unfold add_element. rewrite bool_decide_eq_false_2 by lia. rewrite bool_decide_eq_true_2 by lia.
  eexists. split; [done|]. split; [done|]. split; [done|]. split; [done|].
  unfold curr_nr. simpl. rewrite length_app. simpl. lia.
Qed.

Lemma remove_element_ok pool : 0 < curr_nr pool ->
  exists pool' e, remove_element pool = Some (pool', e) /\ min_nr pool' = min_nr pool /\ capacity pool' = capacity pool /\
    elements pool = elements pool' ++ [e] /\ curr_nr pool' = curr_nr pool - 1.
Proof.
  intros H. unfold remove_element. rewrite bool_decide_eq_false_2 by lia. unfold curr_nr in *.
  destruct (elements pool) as [|e l _] eqn:E using rev_ind; [simpl in H; lia|].
  rewrite last_snoc, removelast_last. simpl. eexists _, _. split; [done|]. simpl.
  split; [done|]. split; [done|]. split; [done|]. rewrite length_app. simpl. lia.
Qed.

(** ** Accounts *)

Lemma balanced_perm l l' live : l' ≡ₚ l -> balanced l live -> balanced l' live.
Proof. intros Hp [H1 H2]. split; [by rewrite Hp|]. intros e. by rewrite Hp. Qed.

Lemma balanced_add l l' live e : l' ≡ₚ e :: l -> e ∉ live -> balanced l live -> balanced l' ({[e]} ∪ live).
Proof.
  intros Hp He [H1 H2]. split.
  - rewrite Hp. constructor; [by rewrite H2|done].
  - intros x. rewrite Hp. rewrite elem_of_cons, H2. set_solver.
Qed.

Lemma balanced_del l l' live e : l ≡ₚ e :: l' -> balanced l live -> balanced l' (live ∖ {[e]}).
Proof.
  intros Hp [H1 H2]. rewrite Hp in H1. apply NoDup_cons in H1 as [Hn H1]. split; [done|].
  intros x. specialize (H2 x). rewrite Hp, elem_of_cons in H2. rewrite elem_of_difference, elem_of_singleton.
  split; [intros Hx; split; [tauto|by intros ->]|]. intros [Hx Hne]. tauto.
Qed.

Lemma resize_shrink_ok pool n pool' r floor : 0 < n <= min_nr pool -> curr_nr pool <= min_nr pool <= capacity pool -> floor <= n ->
  floor <= min_nr pool -> resize_shrink pool n = Some (pool', r) ->
  curr_nr pool' <= min_nr pool' <= capacity pool' /\ resize_ok pool' floor (ongoing r) /\ floor <= min_nr pool' /\
  (curr_nr pool' = curr_nr pool \/ floor <= curr_nr pool') /\ elements pool' ++ transit (ongoing r) = elements pool.
Proof.
  intros Hn Hnr Hf Hfm. unfold resize_shrink. case_bd as Hlt.
  - destruct (remove_element_ok pool ltac:(lia)) as (p & e & -> & E1 & E2 & E3 & E4). simpl. intros [= <- <-]. simpl.
    rewrite E1, E2, E4. repeat split; try lia. by rewrite E3.
  - intros [= <- <-]. simpl. rewrite app_nil_r. change (curr_nr (set_min_nr pool n)) with (curr_nr pool). repeat split; try lia.
Qed.

Lemma resize_fill_ok pool floor : resize_ok pool floor (ongoing (resize_fill pool)) /\ transit (ongoing (resize_fill pool)) = [].
Proof. unfold resize_fill. by case_bd. Qed.

Lemma mempool_inv_step s s' : inv s -> step s s' -> inv s'.
Proof.
  intros Hi Hst.
  destruct Hst as [pool held pend rs fl live e w Hfr E|pool pool' held pend rs fl live e w E
    |pool held held' pend rs fl live e Hp E|pool pool' held held' pend rs fl live e full Hp E
    |pool held pend pend' rs fl live e Hp|pool pool' held pend fl live n r Hn E|pool pool' held pend fl live n e r E
    |pool pool' held pend fl live n ok r E|pool held pend fl live|pool held pend fl live e Hfr
    |pool pool' held pend fl live e r full E];
    destruct Hi as [Hnr Hrs Hfl Hres Hlv]; unfold accounted in Hlv; simpl in *.
  - split; simpl; try done; [lia|]. eapply balanced_add; [|done|exact Hlv]. unfold accounted. simpl. solve_Permutation.
  - revert E. case_bd as Hc; [|by destruct w].
    destruct (remove_element_ok pool) as (p & e' & -> & E1 & E2 & E3 & E4); [unfold curr_nr in *; lia|]. simpl. intros [= <- <-].
    split; simpl; rewrite ?E1, ?E2, ?E4; try lia.
    + destruct rs as [[]|]; simpl in *; by rewrite ?E1.
    + eapply balanced_perm; [|exact Hlv]. unfold accounted. simpl. rewrite E3. solve_Permutation.
  - unfold mempool_free_test in E. apply bool_decide_eq_false in E. apply Permutation_length in Hp as Hlen. simpl in Hlen.
    split; simpl; try done; [lia|]. eapply balanced_perm; [|exact Hlv]. unfold accounted. simpl. rewrite Hp. solve_Permutation.
  - apply inv_floor. apply Permutation_length in Hp as Hlen. simpl in Hlen. unfold mempool_free_locked in E. revert E. case_bd as Hc.
    + destruct (add_element_ok pool e Hc) as (p & -> & E1 & E2 & E3 & E4); [lia|]. simpl. intros [= <- <-].
      split; simpl; rewrite ?E1, ?E2, ?E4; try lia.
      * destruct rs as [[]|]; simpl in *; by rewrite ?E1.
      * eapply balanced_perm; [|exact Hlv]. unfold accounted. simpl. rewrite E3, Hp. solve_Permutation.
    + intros [= <- <-]. split; simpl; try done; [lia|]. eapply balanced_perm; [|exact Hlv]. unfold accounted. simpl.
      rewrite Hp. solve_Permutation.
  - split; simpl; try done. eapply balanced_del; [|exact Hlv]. unfold accounted. simpl. rewrite Hp. solve_Permutation.
  - unfold resize_start in E. revert E. case_bd as H0; [done|]. case_bd as Hle.
    + intros E. destruct (resize_shrink_ok pool n pool' r (Z.min fl n)) as (G1 & G2 & G3 & G4 & G5); try done; try lia.
      split; simpl; try done; [lia|]. eapply balanced_perm; [|exact Hlv]. unfold accounted. simpl. rewrite <- G5. solve_Permutation.
    + intros [= <- <-]. split; simpl; try done; try lia.
  - destruct Hrs as [Hf Hn]. destruct (resize_shrink_ok pool n pool' r fl) as (G1 & G2 & G3 & G4 & G5); try done.
    split; simpl; try done; [lia|]. eapply balanced_del; [|exact Hlv]. unfold accounted. simpl. rewrite <- G5. solve_Permutation.
  - apply inv_floor. unfold resize_grow in E. destruct ok; simpl in E; [|by injection E as <- <-]. revert E. case_bd as Hle; [by intros [= <- <-]|].
    rewrite u32_small by lia. rewrite Z.div_mul by lia. case_bd as Hc; [|done]. intros [= <- <-]. simpl.
    destruct (resize_fill_ok (mk_pool n (elements pool) n) fl) as [F1 F2].
    change (curr_nr (mk_pool n (elements pool) n)) with (curr_nr pool) in *.
    split; simpl; try done; try (change (curr_nr (mk_pool n (elements pool) n)) with (curr_nr pool)); try lia.
    unfold accounted. simpl. by rewrite F2.
  - split; simpl; done.
  - split; simpl; try done. eapply balanced_add; [|done|exact Hlv]. unfold accounted. simpl. solve_Permutation.
  - apply inv_floor. unfold resize_add in E. revert E. case_bd as Hc.
    + destruct (add_element_ok pool e Hc) as (p & -> & E1 & E2 & E3 & E4); [lia|]. simpl. intros [= <- <- <-].
      destruct (resize_fill_ok p fl) as [F1 F2]. split; simpl; rewrite ?E1, ?E2, ?E4; try done; try lia.
      eapply balanced_perm; [|exact Hlv]. unfold accounted. simpl. rewrite E3, F2. solve_Permutation.
    + intros [= <- <- <-]. split; simpl; try done. eapply balanced_del; [|exact Hlv]. unfold accounted. simpl. solve_Permutation.
Qed.

(** ** Creation *)

Lemma free_pool_ok pool : free_pool pool = Some (rev (elements pool)).
Proof.
  unfold free_pool. remember (length (elements pool)) as n eqn:En. revert pool En.
  induction n as [|n IH]; intros pool En; simpl.
  - destruct (elements pool) eqn:E; [|done]. unfold curr_nr. by rewrite E.
  - rewrite bool_decide_eq_true_2 by (unfold curr_nr; lia).
    destruct (remove_element_ok pool) as (p & e & -> & _ & _ & E & Ec); [unfold curr_nr; lia|]. simpl.
    rewrite IH; [|unfold curr_nr in Ec; lia]. simpl. by rewrite E, rev_app_distr.
Qed.

(** The loop takes the first results there are up to a failure: with enough of
    them it ends with a full pool, or gives back what it took. *)
Lemma fill_loop_ok allocs : forall pool,
  curr_nr pool <= min_nr pool <= capacity pool ->
  min_nr pool - curr_nr pool <= Z.of_nat (length allocs) ->
  exists res, fill_loop allocs pool = Some res /\
    match res with
    | Pool pool' => min_nr pool' = min_nr pool /\ capacity pool' = capacity pool /\ curr_nr pool' = min_nr pool /\
        elements pool' = elements pool ++ omap id (take (Z.to_nat (min_nr pool - curr_nr pool)) allocs)
    | Null freed => exists k, allocs !! k = Some None /\ Z.of_nat k < min_nr pool - curr_nr pool /\
        freed = rev (elements pool ++ omap id (take k allocs))
    end.
Proof.
  induction allocs as [|a allocs IH]; intros pool Hnr Hlen; simpl in Hlen.
  { simpl. rewrite bool_decide_eq_false_2 by lia. eexists. split; [done|]. split; [done|]. split; [done|]. split; [lia|].
    by rewrite take_nil, app_nil_r. }
  simpl. case_bd as Hlt.
  2: { eexists. split; [done|]. split; [done|]. split; [done|]. split; [lia|].
       replace (Z.to_nat (min_nr pool - curr_nr pool)) with 0%nat by lia. by rewrite app_nil_r. }
  destruct a as [e|].
  - destruct (add_element_ok pool e Hlt) as (p & -> & E1 & E2 & E3 & E4); [lia|]. simpl.
    destruct (IH p) as (res & -> & Hres); [lia|lia|]. eexists. split; [done|]. destruct res as [p'|freed].
    + destruct Hres as (R1 & R2 & R3 & R4). rewrite E1 in *. split; [done|]. split; [congruence|]. split; [done|].
      rewrite R4, E3, E4. replace (Z.to_nat (min_nr pool - curr_nr pool)) with (S (Z.to_nat (min_nr pool - (curr_nr pool + 1)))) by lia.
      simpl. by rewrite <- app_assoc.
    + destruct Hres as (k & K1 & K2 & ->). exists (S k). rewrite E1, E4 in K2. split; [done|]. split; [lia|]. simpl.
      by rewrite E3, <- app_assoc.
  - rewrite free_pool_ok. simpl. eexists. split; [done|]. exists 0%nat. split; [done|]. split; [lia|]. by rewrite take_0, app_nil_r.
Qed.

(** A loop that returns a pool had enough results. *)
Lemma fill_loop_enough allocs : forall pool pool', curr_nr pool <= min_nr pool <= capacity pool ->
  fill_loop allocs pool = Some (Pool pool') -> min_nr pool - curr_nr pool <= Z.of_nat (length allocs).
Proof.
  induction allocs as [|a allocs IH]; intros pool pool' Hnr; simpl; case_bd as Hlt; try done; try lia.
  destruct a as [e|]; [|by rewrite free_pool_ok].
  destruct (add_element_ok pool e Hlt) as (p & -> & E1 & E2 & _ & E4); [lia|]. simpl. intros E.
  apply IH in E; lia.
Qed.

Lemma mempool_inv_init nr allocs pool : 0 <= nr -> nr * 4 < two32 -> NoDup (omap id allocs) ->
  mempool_create nr true true allocs = Some (Pool pool) -> inv (mk_sys pool [] [] None nr (list_to_set (elements pool))).
Proof.
  intros H0 H4 Hnd. unfold mempool_create, mempool_create_node. simpl. rewrite u32_small by lia. rewrite Z.div_mul by lia.
  intros E. set (p0 := mk_pool nr [] nr) in *.
  assert (Hp0 : curr_nr p0 <= min_nr p0 <= capacity p0) by (subst p0; unfold curr_nr; simpl; lia).
  destruct (fill_loop_ok allocs p0 Hp0 (fill_loop_enough _ _ _ Hp0 E)) as (res & E' & Hres).
  rewrite E in E'. injection E' as <-. destruct Hres as (R1 & R2 & R3 & R4). subst p0. simpl in *.
  split; simpl; rewrite ?R1, ?R2, ?R3; try done; try lia.
  split; unfold accounted; simpl; rewrite ?app_nil_r.
  - rewrite R4. rewrite <- (take_drop (Z.to_nat (nr - curr_nr (mk_pool nr [] nr))) allocs), omap_app in Hnd.
    by apply NoDup_app in Hnd as [Hnd _].
  - intros e. by rewrite elem_of_list_to_set.
Qed.

(** ** A resize on its own *)

Lemma resize_shrink_run fuel ok allocs n : forall pool freed,
  0 < n <= min_nr pool -> curr_nr pool - n < Z.of_nat fuel ->
  exists pool' out r, resize_shrink pool n = Some (pool', r) /\
    resize_loop fuel pool' r ok allocs freed = Some (out, 0, freed ++ rev (drop (Z.to_nat n) (elements pool))) /\
    min_nr out = n /\ capacity out = capacity pool /\ elements out = take (Z.to_nat n) (elements pool).
Proof.
  induction fuel as [|fuel IH]; intros pool freed Hn Hfuel; unfold resize_shrink; case_bd as Hlt; try lia.
  1, 3: exists (set_min_nr pool n), (set_min_nr pool n), (RReturn 0); unfold curr_nr in Hlt; simpl;
    rewrite drop_ge, take_ge by lia; rewrite app_nil_r; done.
  destruct (remove_element_ok pool) as (p & e & -> & E1 & E2 & E3 & E4); [lia|]. simpl.
  destruct (IH p (freed ++ [e])) as (p' & out & r & S1 & S2 & S3 & S4 & S5); [lia|lia|].
  exists p, out, (RFree n e). split; [done|]. rewrite S1. simpl. rewrite S2.
  assert (Hl : (Z.to_nat n <= length (elements p))%nat) by (unfold curr_nr in *; lia).
  rewrite E3, drop_app_le, take_app_le, rev_app_distr, <- app_assoc by done.
  split; [done|]. split; [done|]. split; [congruence|done].
Qed.

Lemma resize_fill_run allocs : forall fuel pool ok freed,
  curr_nr pool <= min_nr pool <= capacity pool -> min_nr pool - curr_nr pool <= Z.of_nat (length allocs) ->
  (2 * length allocs <= fuel)%nat ->
  exists out k, resize_loop fuel pool (resize_fill pool) ok allocs freed = Some (out, 0, freed) /\
    min_nr out = min_nr pool /\ capacity out = capacity pool /\ elements out = elements pool ++ omap id (take k allocs) /\
    (curr_nr out = min_nr pool \/ allocs !! k = Some None).
Proof.
  induction allocs as [|a allocs IH]; intros fuel pool ok freed Hnr Hlen Hfuel; unfold resize_fill; case_bd as Hlt; simpl in Hlen; try lia.
  1, 3: exists pool, 0%nat; rewrite take_0, app_nil_r; destruct fuel; simpl; repeat split; lia.
  simpl in Hfuel. destruct fuel as [|[|fuel]]; try lia. destruct a as [e|].
  - simpl. unfold resize_add. rewrite bool_decide_eq_true_2 by done.
    destruct (add_element_ok pool e Hlt) as (p & -> & E1 & E2 & E3 & E4); [lia|]. simpl.
    destruct (IH fuel p ok freed) as (out & k & -> & R1 & R2 & R3 & R4); [lia|lia|lia|].
    exists out, (S k). split; [done|]. rewrite R1, R2, R3, E3, <- app_assoc. rewrite E1 in *. done.
  - exists pool, 0%nat. rewrite take_0, app_nil_r. simpl. repeat split. by right.
Qed.

(** A [mempool_resize] that runs undisturbed returns.  To a smaller
    size, it passes exactly the elements beyond the new size to [pool->free],
    the last one first, and returns 0.  To a larger one, it returns [-ENOMEM]
    with the pool as it was when the array cannot be allocated, and otherwise 0
    with the new size in force, the elements kept in their places, and the
    results of [pool->alloc] added up to the first failure or a full pool. *)
Theorem mempool_resize_correct pool n kmalloc_ok allocs :
  curr_nr pool <= min_nr pool <= capacity pool -> 0 < n -> n * 4 < two32 -> n <= Z.of_nat (length allocs) ->
  exists pool' ret freed, mempool_resize pool n kmalloc_ok allocs = Some (pool', ret, freed) /\
  if bool_decide (n <= min_nr pool) then
    ret = 0 /\ min_nr pool' = n /\ capacity pool' = capacity pool /\ elements pool' = take (Z.to_nat n) (elements pool) /\
    freed = rev (drop (Z.to_nat n) (elements pool))
  else if kmalloc_ok then
    ret = 0 /\ freed = [] /\ min_nr pool' = n /\ capacity pool' = n /\
    exists k, elements pool' = elements pool ++ omap id (take k allocs) /\ (curr_nr pool' = n \/ allocs !! k = Some None)
  else ret = - ENOMEM /\ freed = [] /\ pool' = pool.
Proof.
  intros Hnr H0 H4 Hlen. assert (Hc : 0 <= curr_nr pool) by (unfold curr_nr; lia).
  unfold mempool_resize, resize_start. rewrite (bool_decide_eq_false_2 (n <= 0)) by lia. case_bd as Hle.
  - destruct (resize_shrink_run (length (elements pool) + 2 * length allocs + 2) kmalloc_ok allocs n pool [])
      as (p & out & r & -> & S2 & S3 & S4 & S5); [lia|unfold curr_nr; lia|].
    eexists _, _, _. split; [exact S2|]. done.
  - rewrite Nat.add_succ_r. simpl. unfold resize_grow. destruct kmalloc_ok; simpl.
    + rewrite (bool_decide_eq_false_2 (n <= _)) by lia. rewrite u32_small, Z.div_mul by lia.
      rewrite bool_decide_eq_true_2 by lia. simpl.
      destruct (resize_fill_run allocs (length (elements pool) + 2 * length allocs + 1) (mk_pool n (elements pool) n) true [])
        as (out & k & E & R1 & R2 & R3 & R4); try (unfold curr_nr in *; simpl; lia).
      replace (length (elements pool) + (length allocs + (length allocs + 0)) + 1)%nat
        with (length (elements pool) + 2 * length allocs + 1)%nat by lia.
      eexists _, _, _. split; [exact E|]. repeat split; try done. exists k. done.
    + eexists _, _, _. split; [by rewrite Nat.add_succ_r|]. done.
Qed.

Lemma mempool_resize_correct_witness :
  exists pool' ret freed,
    mempool_resize (mk_pool 3 [1; 2; 3]%nat 3) 2 true [None; None] = Some (pool', ret, freed) /\
    min_nr pool' = 2 /\ freed = [3%nat].
Proof.
  destruct (mempool_resize_correct (mk_pool 3 [1; 2; 3]%nat 3) 2 true [None; None])
    as (pool' & ret & freed & E & H); [unfold curr_nr; simpl; lia|lia|reflexivity|simpl; lia|].
  exists pool', ret, freed. split; [exact E|]. destruct H as (_ & H2 & _ & _ & H5). split; [exact H2|]. rewrite H5. reflexivity.
Defined.

(** ** The pool under concurrency *)

Lemma mempool_reachable_inv s : reachable s -> inv s.
Proof. induction 1; eauto using mempool_inv_init, mempool_inv_step. Qed.

(** What the resize under way does next returns. *)
Definition resize_defined (pool : mempool) (r : option resizing) : Prop :=
  match r with
  | Some (RFree n _) => is_Some (resize_shrink pool n)
  | Some (RGrow n) => forall ok, is_Some (resize_grow pool n ok)
  | Some (RAdd e) => is_Some (resize_add pool e)
  | _ => True
  end.

Lemma mempool_free_locked_ok pool e : min_nr pool <= capacity pool ->
  exists pool', mempool_free_locked pool e =
    Some (pool', bool_decide (min_nr pool <= curr_nr pool)) /\
    elements pool' = elements pool ++ (if bool_decide (min_nr pool <= curr_nr pool) then [] else [e]) /\
    min_nr pool' = min_nr pool.
Proof.
  intros H. unfold mempool_free_locked. case_bd as Hc.
  - destruct (add_element_ok pool e Hc H) as (p & -> & E1 & E2 & E3 & E4). simpl. exists p.
    rewrite bool_decide_eq_false_2 by lia. done.
  - exists pool. rewrite bool_decide_eq_true_2 by lia. by rewrite app_nil_r.
Qed.

Lemma mempool_alloc_ok pool a w : is_Some (mempool_alloc pool a w).
Proof.
  destruct a as [e|]; [done|]. simpl. case_bd as Hc; [|by destruct w].
  destruct (remove_element_ok pool) as (p & e & -> & _); [unfold curr_nr in *; lia|done].
Qed.

Lemma resize_defined_ok s : inv s -> resize_defined (s_pool s) (s_resize s).
Proof.
  intros [Hnr Hrs _ _ _]. destruct (s_resize s) as [[n e|n| |e|]|]; simpl in *; try done.
  - unfold resize_shrink. case_bd as Hc; [|done]. destruct (remove_element_ok (s_pool s)) as (p & x & -> & _); [lia|done].
  - intros ok. unfold resize_grow. destruct ok; simpl; [|done]. case_bd as Hc; [done|].
    rewrite u32_small, Z.div_mul by lia. rewrite bool_decide_eq_true_2 by lia. done.
  - unfold resize_add. case_bd as Hc; [|done]. destruct (add_element_ok (s_pool s) e) as (p & -> & _); [lia|lia|done].
Qed.

(** Whatever allocations, frees and resizes of one pool
    interleave, one resize at a time, the pool never holds more elements than
    its size nor more than its array has room for, no [BUG_ON] fires and no
    access leaves the array in any routine that runs next, and every element
    that exists is in exactly one place: the reserve, a user's hands, on its way
    to [pool->free], or with the resize. *)
Theorem mempool_safe s : reachable s ->
  curr_nr (s_pool s) <= min_nr (s_pool s) <= capacity (s_pool s) /\
  balanced (accounted s) (s_live s) /\
  (forall a w, is_Some (mempool_alloc (s_pool s) a w)) /\
  (forall e, is_Some (mempool_free_locked (s_pool s) e)) /\
  (forall n, 0 < n -> is_Some (resize_start (s_pool s) n)) /\
  resize_defined (s_pool s) (s_resize s).
Proof.
  intros Hr%mempool_reachable_inv. pose proof (resize_defined_ok s Hr) as Hd. destruct Hr as [Hnr _ _ _ Hlv].
  split; [done|]. split; [done|]. split; [by apply mempool_alloc_ok|]. split; [|split; [|done]].
  - intros e. destruct (mempool_free_locked_ok (s_pool s) e) as (p & -> & _); [lia|done].
  - intros n Hn. unfold resize_start. rewrite bool_decide_eq_false_2 by lia. case_bd as Hle; [|done].
    unfold resize_shrink. case_bd as Hc; [|done]. destruct (remove_element_ok (s_pool s)) as (p & x & -> & _); [lia|done].
Qed.

(** A pool of two whose reserve was emptied by allocations that failed. *)
Definition demo_pool : mempool := mk_pool 2 [1; 2]%nat 2.
Definition demo_empty : sys := mk_sys (mk_pool 2 [] 2) [1; 2]%nat [] None 2 {[1; 2]}%nat.

Lemma demo_empty_reachable : reachable demo_empty.
Proof.
  assert (H0 : reachable (mk_sys demo_pool [] [] None 2 (list_to_set (elements demo_pool)))).
  { eapply (reach_init 2 [Some 1; Some 2]%nat); [lia|done| |done]. by apply (bool_decide_unpack _). }
  assert (H1 : reachable (mk_sys (mk_pool 2 [1]%nat 2) [2]%nat [] None 2 (list_to_set (elements demo_pool)))).
  { eapply reach_step; [exact H0|]. by eapply (st_reserve _ _ _ _ _ _ _ _ true). }
  replace demo_empty with (mk_sys (mk_pool 2 [] 2) [1; 2]%nat [] None 2 (list_to_set (elements demo_pool))).
  - eapply reach_step; [exact H1|]. by eapply (st_reserve _ _ _ _ _ _ _ _ true).
  - apply f_equal. vm_compute. reflexivity.
Qed.

Lemma mempool_safe_witness : reachable demo_empty /\ is_Some (resize_start (s_pool demo_empty) 1).
Proof.
  split; [exact demo_empty_reachable|].
  destruct (mempool_safe demo_empty demo_empty_reachable) as (_ & _ & _ & _ & H & _). apply H. lia.
Defined.



(** ** Two resizes at a time

    A resize that shrinks the pool does not look at the pool's size again after
    it gave up the lock: when others shrink the pool further and grow it a
    little meanwhile, it sets a size beyond the new array, and a later
    [mempool_free] writes past its end. *)
Lemma concurrent_resize_overflows :
  exists p1 e p2 f2 p3 f3 p4,
    resize_start (mk_pool 10 (seq 0 10) 10) 5 = Some (p1, RFree 5 e) /\
    mempool_resize p1 3 true [] = Some (p2, 0, f2) /\
    mempool_resize p2 4 true [Some 11%nat] = Some (p3, 0, f3) /\
    resize_shrink p3 5 = Some (p4, RReturn 0) /\
    min_nr p4 = 5 /\ capacity p4 = 4 /\ mempool_free p4 (Some 12%nat) = None.
Proof. do 7 eexists. repeat split; vm_compute; reflexivity. Qed.

End MempoolTop.
