(* ===== verification/Rbtree.v ===== *)
(** * Red-black trees ([lib/rbtree.c], [include/linux/rbtree.h]): the model

    The nodes are embedded in the objects of the caller; they live in a store
    and are linked by pointers.  Several trees may use one store, each with its
    own root.  A routine that follows a null pointer, or a pointer to no node,
    has the result [None].

    The two halves of the rebalancing code, one the mirror image of the other
    with left and right exchanged, are one definition with the side as an
    argument. *)

From Stdlib Require Import ZArith Lia.
From stdpp Require Import base option gmap list.
From S2P Require Import Prelude.

Module Rbtree.

Definition nid := nat.

Inductive color := RB_RED | RB_BLACK.

#[export] Instance color_eq_decision : EqDecision color.
Proof. solve_decision. Defined.

(** [rb_parent_color] packs the parent pointer and the colour bit, which the
    alignment of a node keeps apart. *)
Record rb_node := mk_node {
  rb_parent : option nid;
  rb_color : color;
  rb_right : option nid;
  rb_left : option nid
}.

(** The nodes in memory and the root of the tree at hand. *)
Record rb_root := mk_root { root_node : option nid; nodes : gmap nid rb_node }.

Inductive side := Lt | Rt.

#[export] Instance side_eq_decision : EqDecision side.
Proof. solve_decision. Defined.

Definition opp (d : side) : side := match d with Lt => Rt | Rt => Lt end.

(** ** Access to the fields *)

Definition child (d : side) (n : rb_node) : option nid :=
  match d with Lt => rb_left n | Rt => rb_right n end.

Definition with_parent (p : option nid) (n : rb_node) : rb_node := mk_node p (rb_color n) (rb_right n) (rb_left n).
Definition with_color (c : color) (n : rb_node) : rb_node := mk_node (rb_parent n) c (rb_right n) (rb_left n).
Definition with_child (d : side) (x : option nid) (n : rb_node) : rb_node :=
  match d with
  | Lt => mk_node (rb_parent n) (rb_color n) (rb_right n) x
  | Rt => mk_node (rb_parent n) (rb_color n) x (rb_left n)
  end.

Definition update (t : rb_root) (x : nid) (f : rb_node -> rb_node) : option rb_root :=
  n ← nodes t !! x; Some (mk_root (root_node t) (<[x := f n]> (nodes t))).

Definition rb_set_parent (t : rb_root) (x : nid) (p : option nid) : option rb_root := update t x (with_parent p).
Definition rb_set_color (t : rb_root) (x : nid) (c : color) : option rb_root := update t x (with_color c).
Definition rb_set_black (t : rb_root) (x : nid) : option rb_root := rb_set_color t x RB_BLACK.
Definition rb_set_red (t : rb_root) (x : nid) : option rb_root := rb_set_color t x RB_RED.
Definition set_child (t : rb_root) (x : nid) (d : side) (y : option nid) : option rb_root := update t x (with_child d y).

(** [if (x) f(x);] *)
Definition unless_null (x : option nid) (f : nid -> option rb_root) (t : rb_root) : option rb_root :=
  match x with Some x => f x | None => Some t end.

Definition rb_is_red (t : rb_root) (x : nid) : option bool := n ← nodes t !! x; Some (bool_decide (rb_color n = RB_RED)).

(** [!x || rb_is_black(x)] *)
Definition null_or_black (t : rb_root) (x : option nid) : option bool :=
  match x with None => Some true | Some x => b ← rb_is_red t x; Some (negb b) end.

(** The link that leads to a node: a field of its parent, or the root. *)
Definition set_link (t : rb_root) (parent : option nid) (d : side) (node : nid) (new : option nid) : option rb_root :=
  match parent with
  | Some p =>
      pn ← nodes t !! p;
      if decide (child d pn = Some node) then set_child t p d new else set_child t p (opp d) new
  | None => Some (mk_root new (nodes t))
  end.

(** ** Rotations *)

(** [__rb_rotate_left] is the rotation to the left, [d] = [Lt]. *)
Definition __rb_rotate (d : side) (t : rb_root) (node : nid) : option rb_root :=
  n ← nodes t !! node;
  right ← child (opp d) n;
  let parent := rb_parent n in
  r ← nodes t !! right;
  t ← set_child t node (opp d) (child d r);
  t ← unless_null (child d r) (fun l => rb_set_parent t l (Some node)) t;
  t ← set_child t right d (Some node);
  t ← rb_set_parent t right parent;
  t ← set_link t parent d node (Some right);
  rb_set_parent t node (Some right).

Definition __rb_rotate_left := __rb_rotate Lt.
Definition __rb_rotate_right := __rb_rotate Rt.

(** ** Insertion *)

(** [rb_link_node(node, parent, rb_link)] with [rb_link] the link on side [d]
    of [parent], or the root. *)
Definition rb_link_node (t : rb_root) (node : nid) (parent : option nid) (d : side) : option rb_root :=
  let t := mk_root (root_node t) (<[node := mk_node parent RB_RED None None]> (nodes t)) in
  match parent with
  | Some p => set_child t p d (Some node)
  | None => Some (mk_root (Some node) (nodes t))
  end.

(** One turn of the loop of [rb_insert_color] with [parent] the child of
    [gparent] on side [d]: the node to go on with. *)
Definition insert_side (d : side) (t : rb_root) (node parent gparent : nid) : option (rb_root * nid) :=
  gn ← nodes t !! gparent;
  red ← (match child (opp d) gn with Some uncle => rb_is_red t uncle | None => Some false end);
  if red : bool then
    uncle ← child (opp d) gn;
    t ← rb_set_black t uncle;
    t ← rb_set_black t parent;
    t ← rb_set_red t gparent;
    Some (t, gparent)
  else
    pn ← nodes t !! parent;
    '(t, parent, node) ← (if decide (child (opp d) pn = Some node)
                          then t ← __rb_rotate d t parent; Some (t, node, parent)
                          else Some (t, parent, node));
    t ← rb_set_black t parent;
    t ← rb_set_red t gparent;
    t ← __rb_rotate (opp d) t gparent;
    Some (t, node).

Fixpoint insert_loop (fuel : nat) (t : rb_root) (node : nid) : option rb_root :=
  match fuel with
  | O => None
  | S fuel =>
      n ← nodes t !! node;
      match rb_parent n with
      | None => Some t
      | Some parent =>
          red ← rb_is_red t parent;
          if red : bool then
            pn ← nodes t !! parent;
            gparent ← rb_parent pn;
            gn ← nodes t !! gparent;
            '(t, node) ← insert_side (if decide (rb_left gn = Some parent) then Lt else Rt) t node parent gparent;
            insert_loop fuel t node
          else Some t
      end
  end.

Definition rb_insert_color (t : rb_root) (node : nid) : option rb_root :=
  t ← insert_loop (S (size (nodes t))) t node;
  r ← root_node t;
  rb_set_black t r.

(** ** Removal *)

(** One turn of the loop of [__rb_erase_color] with [node] the child of [parent]
    on side [d]: the node to go on with, or none after the [break].  First what
    is done once [other], the other child of [parent], is black. *)
Definition erase_black (d : side) (t : rb_root) (parent other : nid) : option (rb_root * option nid) :=
  on ← nodes t !! other;
  b1 ← null_or_black t (child d on);
  b2 ← null_or_black t (child (opp d) on);
  if b1 && b2 then
    t ← rb_set_red t other;
    Some (t, Some parent)
  else
    '(t, other) ← (if b2 : bool then
                     t ← unless_null (child d on) (fun x => rb_set_black t x) t;
                     t ← rb_set_red t other;
                     t ← __rb_rotate (opp d) t other;
                     pn ← nodes t !! parent;
                     other ← child (opp d) pn;
                     Some (t, other)
                   else Some (t, other));
    pn ← nodes t !! parent;
    t ← rb_set_color t other (rb_color pn);
    t ← rb_set_black t parent;
    on ← nodes t !! other;
    t ← unless_null (child (opp d) on) (fun x => rb_set_black t x) t;
    t ← __rb_rotate d t parent;
    Some (t, None).

Definition erase_side (d : side) (t : rb_root) (parent : nid) : option (rb_root * option nid) :=
  pn ← nodes t !! parent;
  other ← child (opp d) pn;
  red ← rb_is_red t other;
  if red : bool then
    t ← rb_set_black t other;
    t ← rb_set_red t parent;
    t ← __rb_rotate d t parent;
    pn ← nodes t !! parent;
    other ← child (opp d) pn;
    erase_black d t parent other
  else erase_black d t parent other.

Fixpoint erase_loop (fuel : nat) (t : rb_root) (node parent : option nid) : option (rb_root * option nid) :=
  match fuel with
  | O => None
  | S fuel =>
      black ← null_or_black t node;
      if black && negb (bool_decide (node = root_node t)) then
        p ← parent;
        pn ← nodes t !! p;
        '(t, next) ← erase_side (if decide (rb_left pn = node) then Lt else Rt) t p;
        match next with
        | Some node =>
            n ← nodes t !! node;
            erase_loop fuel t (Some node) (rb_parent n)
        | None => Some (t, root_node t)
        end
      else Some (t, node)
  end.

Definition __rb_erase_color (t : rb_root) (node parent : option nid) : option rb_root :=
  '(t, node) ← erase_loop (S (size (nodes t))) t node parent;
  unless_null node (fun x => rb_set_black t x) t.

(** Follow links on one side to the end. *)
Fixpoint far (d : side) (fuel : nat) (t : rb_root) (x : nid) : option nid :=
  match fuel with
  | O => None
  | S fuel =>
      n ← nodes t !! x;
      match child d n with Some y => far d fuel t y | None => Some x end
  end.

(** [node] has two children: its successor takes its place. *)
Definition erase_two (t : rb_root) (old : nid) (on : rb_node) : option (rb_root * option nid * option nid * color) :=
  right ← rb_right on;
  node ← far Lt (S (size (nodes t))) t right;
  n ← nodes t !! node;
  let child := rb_right n in
  parent ← rb_parent n;
  let color := rb_color n in
  t ← unless_null child (fun x => rb_set_parent t x (Some parent)) t;
  '(t, parent) ← (if decide (parent = old)
                  then t ← set_child t parent Rt child; Some (t, node)
                  else t ← set_child t parent Lt child; Some (t, parent));
  o ← nodes t !! old;
  t ← update t node (fun _ => mk_node (rb_parent o) (rb_color o) (rb_right o) (rb_left o));
  t ← set_link t (rb_parent o) Lt old (Some node);
  left ← rb_left o;
  t ← rb_set_parent t left (Some node);
  t ← unless_null (rb_right o) (fun x => rb_set_parent t x (Some node)) t;
  Some (t, child, Some parent, color).

(** At most one child, which takes its place. *)
Definition erase_one (t : rb_root) (node : nid) (n : rb_node) (child : option nid)
  : option (rb_root * option nid * option nid * color) :=
  let parent := rb_parent n in
  t ← unless_null child (fun x => rb_set_parent t x parent) t;
  t ← set_link t parent Lt node child;
  Some (t, child, parent, rb_color n).

Definition rb_erase (t : rb_root) (node : nid) : option rb_root :=
  n ← nodes t !! node;
  '(t, child, parent, color) ←
    (match rb_left n, rb_right n with
     | None, child => erase_one t node n child
     | child, None => erase_one t node n child
     | Some _, Some _ => erase_two t node n
     end);
  if decide (color = RB_BLACK) then __rb_erase_color t child parent else Some t.

(** ** Traversal *)

(** [rb_first] and [rb_last]; [Some None] is NULL. *)
Definition rb_end (d : side) (t : rb_root) : option (option nid) :=
  match root_node t with
  | None => Some None
  | Some n => x ← far d (S (size (nodes t))) t n; Some (Some x)
  end.

Definition rb_first := rb_end Lt.
Definition rb_last := rb_end Rt.

(** Go up as long as the node is its parent's child on side [d]; the parent
    where it ends. *)
Fixpoint climb (d : side) (fuel : nat) (t : rb_root) (node : nid) : option (option nid) :=
  match fuel with
  | O => None
  | S fuel =>
      n ← nodes t !! node;
      match rb_parent n with
      | None => Some None
      | Some p =>
          pn ← nodes t !! p;
          if decide (child d pn = Some node) then climb d fuel t p else Some (Some p)
      end
  end.

(** [rb_next] for [d] = [Rt], [rb_prev] for [d] = [Lt]. *)
Definition rb_step (d : side) (t : rb_root) (node : nid) : option (option nid) :=
  n ← nodes t !! node;
  if decide (rb_parent n = Some node) then Some None
  else match child d n with
       | Some y => x ← far (opp d) (S (size (nodes t))) t y; Some (Some x)
       | None => climb d (S (size (nodes t))) t node
       end.

Definition rb_next := rb_step Rt.
Definition rb_prev := rb_step Lt.

(** ** Replacement *)

Definition rb_replace_node (t : rb_root) (victim new : nid) : option rb_root :=
  v ← nodes t !! victim;
  t ← set_link t (rb_parent v) Lt victim (Some new);
  t ← unless_null (rb_left v) (fun x => rb_set_parent t x (Some new)) t;
  t ← unless_null (rb_right v) (fun x => rb_set_parent t x (Some new)) t;
  v ← nodes t !! victim;
  Some (mk_root (root_node t) (<[new := v]> (nodes t))).

(** ** Search

    The loop of the callers that looks for a key or for the place of a new
    node: [cmp] says on which side of a node to go on ([None] when the node is
    the one looked for).  It ends at a node, or at an empty link. *)
Inductive place := Found (x : nid) | Empty (parent : option nid) (d : side).

Fixpoint search (cmp : nid -> option (option side)) (fuel : nat) (t : rb_root) (link : option nid)
    (parent : option nid) (d : side) : option place :=
  match link with
  | None => Some (Empty parent d)
  | Some x =>
      match fuel with
      | O => None
      | S fuel =>
          n ← nodes t !! x;
          way ← cmp x;
          match way with
          | None => Some (Found x)
          | Some d => search cmp fuel t (child d n) (Some x) d
          end
      end
  end.

Definition rb_search (cmp : nid -> option (option side)) (t : rb_root) : option place :=
  search cmp (S (size (nodes t))) t (root_node t) None Lt.

(** The search for the least node that is not too small, which remembers where
    it last went left.  The flag says whether it stopped at an equal node. *)
Fixpoint bound (cmp : nid -> option (option side)) (fuel : nat) (t : rb_root) (n best : option nid)
  : option (option nid * bool) :=
  match n with
  | None => Some (best, false)
  | Some x =>
      match fuel with
      | O => None
      | S fuel =>
          nd ← nodes t !! x;
          way ← cmp x;
          match way with
          | Some Lt => bound cmp fuel t (rb_left nd) (Some x)
          | Some Rt => bound cmp fuel t (rb_right nd) best
          | None => Some (Some x, true)
          end
      end
  end.

Definition rb_bound (cmp : nid -> option (option side)) (t : rb_root) : option (option nid * bool) :=
  bound cmp (S (size (nodes t))) t (root_node t) None.

End Rbtree.
