(* ===== verification/RbtreeRep.v ===== *)
(** * Red-black trees: the tree in the store

    The inductive tree that a root and the nodes in memory stand for, contexts
    with a hole for the place the code works at, and what the single accesses of
    the code do to them. *)

From Stdlib Require Import ZArith Lia.
From stdpp Require Import base option gmap list.
From S2P Require Import Prelude Rbtree.

Module RbtreeRep.
Import Rbtree.

(** ** Trees and contexts *)

Inductive tree := E | T (c : color) (l : tree) (x : nid) (r : tree).

Definition Td (d : side) (c : color) (a : tree) (x : nid) (b : tree) : tree :=
  match d with Lt => T c a x b | Rt => T c b x a end.

Definition top (t : tree) : option nid := match t with E => None | T _ _ x _ => Some x end.

Fixpoint elems (t : tree) : list nid := match t with E => [] | T _ l x r => elems l ++ x :: elems r end.

(** The hole is the child on side [d] of [x], whose other child is [s]. *)
Record frame := Fr { f_side : side; f_color : color; f_node : nid; f_other : tree }.

Definition ctx := list frame.

Definition fill (f : frame) (t : tree) : tree := Td (f_side f) (f_color f) t (f_node f) (f_other f).

Fixpoint plug (c : ctx) (t : tree) : tree := match c with [] => t | f :: c => plug c (fill f t) end.

Definition hole (c : ctx) : option nid := match c with [] => None | f :: _ => Some (f_node f) end.

Definition before (f : frame) : list nid := match f_side f with Lt => [] | Rt => elems (f_other f) ++ [f_node f] end.
Definition behind (f : frame) : list nid := match f_side f with Lt => f_node f :: elems (f_other f) | Rt => [] end.

(** What stands before and behind the hole. *)
Fixpoint pre (c : ctx) : list nid := match c with [] => [] | f :: c => pre c ++ before f end.
Fixpoint post (c : ctx) : list nid := match c with [] => [] | f :: c => behind f ++ post c end.

Lemma plug_app c c' t : plug (c ++ c') t = plug c' (plug c t).
Proof. revert t. induction c as [|f c IH]; intros t; simpl; [done|]. apply IH. Qed.

Lemma elems_fill f t : elems (fill f t) = before f ++ elems t ++ behind f.
Proof. destruct f as [[] k x s]; unfold fill, before, behind; simpl; by rewrite <- ?app_assoc, ?app_nil_r. Qed.

Lemma elems_plug c : forall t, elems (plug c t) = pre c ++ elems t ++ post c.
Proof.
  induction c as [|f c IH]; intros t; simpl; [by rewrite app_nil_r|]. rewrite IH, elems_fill. by rewrite <- !app_assoc.
Qed.

Lemma pre_app c c' : pre (c ++ c') = pre c' ++ pre c.
Proof. induction c as [|f c IH]; simpl; [by rewrite app_nil_r|]. by rewrite IH, app_assoc. Qed.

Lemma post_app c c' : post (c ++ c') = post c ++ post c'.
Proof. induction c as [|f c IH]; simpl; [done|]. by rewrite IH, app_assoc. Qed.

(** ** The store *)

Definition cell (p : option nid) (d : side) (c : color) (a b : option nid) : rb_node :=
  match d with Lt => mk_node p c b a | Rt => mk_node p c a b end.

Fixpoint flat (p : option nid) (t : tree) : list (nid * rb_node) :=
  match t with
  | E => []
  | T c l x r => (x, mk_node p c (top r) (top l)) :: flat (Some x) l ++ flat (Some x) r
  end.

Fixpoint flatc (c : ctx) (h : option nid) : list (nid * rb_node) :=
  match c with
  | [] => []
  | Fr d k x s :: c => (x, cell (hole c) d k h (top s)) :: flat (Some x) s ++ flatc c (Some x)
  end.

Definition holds (m : gmap nid rb_node) (l : list (nid * rb_node)) : Prop := forall x n, (x, n) ∈ l -> m !! x = Some n.

(** The store holds the tree, below the root. *)
Record rep (t : rb_root) (s : tree) : Prop := {
  rep_nodup : NoDup (elems s);
  rep_root : root_node t = top s;
  rep_holds : holds (nodes t) (flat None s)
}.

(** The nodes outside a set are as they were. *)
Definition same_but (t t' : rb_root) (l : list nid) : Prop := forall x, x ∉ l -> nodes t' !! x = nodes t !! x.

Lemma holds_app m l1 l2 : holds m (l1 ++ l2) <-> holds m l1 /\ holds m l2.
Proof. unfold holds. set_solver. Qed.

Lemma holds_cons m x n l : holds m ((x, n) :: l) <-> m !! x = Some n /\ holds m l.
Proof.
  unfold holds. split; [intros H; split; [apply H; set_solver|intros; apply H; set_solver]|].
  intros [H1 H2] y k [[= -> ->]|Hy]%elem_of_cons; [done|]. by apply H2.
Qed.

Lemma holds_nil m : holds m [].
Proof. intros x n Hx. set_solver. Qed.

Lemma holds_perm m l l' : l ≡ₚ l' -> holds m l <-> holds m l'.
Proof. intros Hp. unfold holds. by setoid_rewrite Hp. Qed.

Lemma flat_plug c : forall t, flat None (plug c t) ≡ₚ flatc c (top t) ++ flat (hole c) t.
Proof.
  induction c as [|[d k x s] c IH]; intros t; [done|]. simpl plug. rewrite IH.
  destruct d; unfold fill; simpl; solve_Permutation.
Qed.

Lemma flat_fst p t x : x ∈ (flat p t).*1 <-> x ∈ elems t.
Proof.
  revert p. induction t as [|c l IHl y r IHr]; intros p; simpl; [done|].
  rewrite fmap_app, elem_of_cons, !elem_of_app, elem_of_cons, IHl, IHr. tauto.
Qed.

Lemma flatc_fst c : forall h x, x ∈ (flatc c h).*1 <-> x ∈ pre c \/ x ∈ post c.
Proof.
  induction c as [|[d k y s] c IH]; intros h x; simpl; [set_solver|].
  rewrite fmap_app, elem_of_cons, !elem_of_app, IH, flat_fst. unfold before, behind. destruct d; simpl; set_solver.
Qed.

Lemma holds_same m m' l : holds m l -> (forall x, x ∈ l.*1 -> m' !! x = m !! x) -> holds m' l.
Proof. intros H Hs x n Hx. rewrite Hs; [by apply H|]. apply list_elem_of_fmap. by exists (x, n). Qed.

(** ** Decomposition at a hole *)

Lemma top_plug c : forall t, top (plug c t) = match last c with Some f => Some (f_node f) | None => top t end.
Proof.
  induction c as [|f c IH]; intros t; [done|]. simpl plug. rewrite IH. destruct c as [|g c]; simpl.
  - by destruct f as [[] ? ? ?].
  - destruct (last (g :: c)) eqn:Hl; [done|]. by apply last_None in Hl.
Qed.

Record rep_at (t : rb_root) (c : ctx) (s : tree) : Prop := {
  ra_nodup : NoDup (pre c ++ elems s ++ post c);
  ra_root : root_node t = match last c with Some f => Some (f_node f) | None => top s end;
  ra_ctx : holds (nodes t) (flatc c (top s));
  ra_tree : holds (nodes t) (flat (hole c) s)
}.

Lemma rep_plug t c s : rep t (plug c s) <-> rep_at t c s.
Proof.
  split.
  - intros [H1 H2 H3]. rewrite elems_plug in H1. rewrite top_plug in H2.
    rewrite (holds_perm _ _ _ (flat_plug c s)), holds_app in H3. destruct H3. by split.
  - intros [H1 H2 H3 H4]. split; [by rewrite elems_plug|by rewrite top_plug|].
    rewrite (holds_perm _ _ _ (flat_plug c s)), holds_app. done.
Qed.

Lemma holds_Td m p d c a x b : holds m (flat p (Td d c a x b)) <->
  m !! x = Some (cell p d c (top a) (top b)) /\ holds m (flat (Some x) a) /\ holds m (flat (Some x) b).
Proof. destruct d; simpl; rewrite holds_cons, holds_app; simpl; tauto. Qed.

Lemma elems_Td d c a x b : elems (Td d c a x b) = match d with Lt => elems a ++ x :: elems b | Rt => elems b ++ x :: elems a end.
Proof. by destruct d. Qed.

Lemma in_Td d c a x b y : y ∈ elems (Td d c a x b) <-> y = x \/ y ∈ elems a \/ y ∈ elems b.
Proof. destruct d; simpl; set_solver. Qed.

Lemma top_Td d c a x b : top (Td d c a x b) = Some x.
Proof. by destruct d. Qed.

(** The node at the hole, and the one above it. *)
Lemma rep_node t c d k a x b : rep t (plug c (Td d k a x b)) -> nodes t !! x = Some (cell (hole c) d k (top a) (top b)).
Proof. intros [_ _ _ H]%rep_plug. apply holds_Td in H. tauto. Qed.

Lemma child_cell d p c a b : child d (cell p d c a b) = a /\ child (opp d) (cell p d c a b) = b.
Proof. by destruct d. Qed.

Lemma child_cell_same d p c a b : child d (cell p d c a b) = a.
Proof. by destruct d. Qed.
Lemma child_cell_opp d p c a b : child (opp d) (cell p d c a b) = b.
Proof. by destruct d. Qed.
Lemma parent_cell d p c a b : rb_parent (cell p d c a b) = p.
Proof. by destruct d. Qed.
Lemma color_cell d p c a b : rb_color (cell p d c a b) = c.
Proof. by destruct d. Qed.
Lemma cell_opp d p c a b : cell p (opp d) c a b = cell p d c b a.
Proof. by destruct d. Qed.
Lemma Td_opp d c a x b : Td (opp d) c a x b = Td d c b x a.
Proof. by destruct d. Qed.
Lemma opp_opp d : opp (opp d) = d.
Proof. by destruct d. Qed.

(** ** Updates *)

Lemma update_some t x n f : nodes t !! x = Some n -> update t x f = Some (mk_root (root_node t) (<[x := f n]> (nodes t))).
Proof. intros H. unfold update. by rewrite H. Qed.

Lemma set_child_some t x n d y : nodes t !! x = Some n ->
  set_child t x d y = Some (mk_root (root_node t) (<[x := with_child d y n]> (nodes t))).
Proof. apply update_some. Qed.

Lemma set_parent_some t x n p : nodes t !! x = Some n ->
  rb_set_parent t x p = Some (mk_root (root_node t) (<[x := with_parent p n]> (nodes t))).
Proof. apply update_some. Qed.

Lemma same_but_refl t l : same_but t t l.
Proof. by intros x _. Qed.

Lemma same_but_trans t1 t2 t3 l : same_but t1 t2 l -> same_but t2 t3 l -> same_but t1 t3 l.
Proof. intros H1 H2 x Hx. by rewrite H2, H1. Qed.

Lemma same_but_insert t r x n l : x ∈ l -> same_but t (mk_root r (<[x := n]> (nodes t))) l.
Proof. intros Hx y Hy. simpl. apply lookup_insert_ne. set_solver. Qed.

Lemma holds_insert m l x n : holds m l -> x ∉ l.*1 -> holds (<[x := n]> m) l.
Proof. intros H Hx. eapply holds_same; [exact H|]. intros y Hy. apply lookup_insert_ne. set_solver. Qed.

(** The ways a store changes at one place. *)
Lemma holds_insert_flat m p s x n : holds m (flat p s) -> x ∉ elems s -> holds (<[x := n]> m) (flat p s).
Proof. intros H Hx. apply holds_insert; [done|]. by rewrite flat_fst. Qed.

Lemma holds_insert_flatc m c h x n : holds m (flatc c h) -> x ∉ pre c -> x ∉ post c -> holds (<[x := n]> m) (flatc c h).
Proof. intros H H1 H2. apply holds_insert; [done|]. rewrite flatc_fst. tauto. Qed.

(** Another parent for a subtree. *)
Lemma reparent_step t p p' s : holds (nodes t) (flat p s) -> NoDup (elems s) ->
  exists t', unless_null (top s) (fun z => rb_set_parent t z p') t = Some t' /\ root_node t' = root_node t /\
    holds (nodes t') (flat p' s) /\ forall z, z ∉ elems s -> nodes t' !! z = nodes t !! z.
Proof.
  destruct s as [|k l x r]; [by exists t|]. simpl. rewrite holds_cons, holds_app. intros (H1 & H2 & H3) Hnd.
  apply NoDup_app in Hnd as (_ & Hl & [Hr _]%NoDup_cons). rewrite (set_parent_some _ _ _ _ H1). eexists. split; [done|].
  split; [done|]. simpl. split.
  - rewrite holds_cons, holds_app. split; [by rewrite lookup_insert_eq|].
    split; apply holds_insert_flat; try done. intros Hx. apply (Hl x Hx). set_solver.
  - intros z Hz. apply lookup_insert_ne. set_solver.
Qed.

(** Another child at the hole. *)
Lemma relink_ok m f c h h' : holds m (flatc (f :: c) h) -> NoDup (f_node f :: elems (f_other f) ++ pre c ++ post c) ->
  holds (<[f_node f := cell (hole c) (f_side f) (f_color f) h' (top (f_other f))]> m) (flatc (f :: c) h').
Proof.
  destruct f as [d k x s]. simpl. rewrite !holds_cons, !holds_app. intros (H1 & H2 & H3) [Hx _]%NoDup_cons.
  split; [by rewrite lookup_insert_eq|]. split; [apply holds_insert_flat|apply holds_insert_flatc]; set_solver.
Qed.

Lemma fill_perm f c : pre (f :: c) ++ post (f :: c) ≡ₚ f_node f :: elems (f_other f) ++ pre c ++ post c.
Proof. destruct f as [[] k x s]; unfold before, behind; simpl; unfold before, behind; simpl; solve_Permutation. Qed.

Lemma nodup_hole c l : NoDup (pre c ++ l ++ post c) <-> NoDup l /\ NoDup (pre c ++ post c) /\ forall x, x ∈ l -> x ∉ pre c ++ post c.
Proof.
  assert (Hp : pre c ++ l ++ post c ≡ₚ l ++ pre c ++ post c) by solve_Permutation. rewrite Hp, NoDup_app. tauto.
Qed.

Lemma set_color_ok t c k k' d a x b : rep t (plug c (Td d k a x b)) ->
  exists t', rb_set_color t x k' = Some t' /\ rep t' (plug c (Td d k' a x b)) /\
    same_but t t' (elems (plug c (Td d k a x b))).
Proof.
  intros Hr. pose proof (rep_node _ _ _ _ _ _ _ Hr) as Hx. apply rep_plug in Hr as [Hnd Hroot Hc Ht].
  unfold rb_set_color. rewrite (update_some _ _ _ _ Hx). eexists. split; [done|].
  rewrite top_Td in *. rewrite elems_Td, nodup_hole in Hnd. destruct Hnd as (Hnd & Hnc & Hsep).
  split.
  - apply rep_plug. split; simpl; [|by rewrite top_Td| |].
    + rewrite elems_Td. by apply nodup_hole.
    + rewrite top_Td. apply holds_insert_flatc; [done| |]; specialize (Hsep x); destruct d; set_solver.
    + rewrite holds_Td in *. destruct Ht as (_ & Ha & Hb). split; [rewrite lookup_insert_eq; by destruct d|].
      split; apply holds_insert_flat; try done;
        destruct d; apply NoDup_app in Hnd as (_ & Hl & [Hr _]%NoDup_cons); set_solver.
  - apply same_but_insert. rewrite elems_plug, elems_Td. destruct d; set_solver.
Qed.

(** The link above a subtree after its root has changed to [y]. *)
Lemma set_link_ok t c d' x h s' : NoDup (pre c ++ post c) -> x ∉ pre c ++ post c ->
  holds (nodes t) (flatc c (Some x)) -> hole c = h ->
  exists t', set_link t h d' x s' = Some t' /\ holds (nodes t') (flatc c s') /\
    root_node t' = (match c with [] => s' | _ => root_node t end) /\
    (match c with [] => nodes t' = nodes t
     | f :: c' => nodes t' = <[f_node f := cell (hole c') (f_side f) (f_color f) s' (top (f_other f))]> (nodes t) end).
Proof.
  intros Hnd Hx Hc <-. destruct c as [|f c]; simpl; [by eexists|].
  rewrite fill_perm in Hnd, Hx.
  destruct f as [df k p s]. simpl in *. pose proof Hc as Hc'. rewrite holds_cons in Hc'. destruct Hc' as [Hp Hrest].
  rewrite Hp. simpl. pose proof (relink_ok _ (Fr df k p s) c _ s' Hc) as Hrl. simpl in Hrl.
  assert (Hs : top s <> Some x).
  { destruct s as [|? ? z ?]; simpl; [done|]. intros [= ->]. set_solver. }
  assert (E : (if decide (child d' (cell (hole c) df k (Some x) (top s)) = Some x)
     then set_child t p d' s' else set_child t p (opp d') s') = set_child t p df s').
  { destruct d', df; simpl; case_decide; done. }
  rewrite E. unfold set_child. rewrite (update_some _ _ _ _ Hp). eexists. split; [done|]. simpl.
  replace (with_child df s' (cell (hole c) df k (Some x) (top s))) with (cell (hole c) df k s' (top s)) by by destruct df.
  split; [by apply Hrl|done].
Qed.

(** ** Rotations *)

(** A store that holds the pieces of a tree before they are linked. *)
Ltac solve_in := try done; repeat match goal with H : NoDup _ |- _ => clear H end; set_solver.

Ltac keep :=
  match goal with
  | |- holds (<[_ := _]> _) (flat _ _) => apply holds_insert_flat; [keep|solve_in]
  | |- holds (<[_ := _]> _) (flatc _ _) => apply holds_insert_flatc; [keep|solve_in|solve_in]
  | |- <[?x := _]> _ !! ?x = _ => rewrite lookup_insert_eq; try done
  | |- <[_ := _]> _ !! _ = _ => rewrite lookup_insert_ne by solve_in; keep
  | |- _ => try done
  end.

Lemma rotate_perm d k1 a x k2 b y e c :
  pre c ++ elems (Td d k1 a x (Td d k2 b y e)) ++ post c ≡ₚ x :: y :: elems a ++ elems b ++ elems e ++ pre c ++ post c.
Proof. destruct d; simpl; solve_Permutation. Qed.

Lemma rotate_elems d k1 a x k2 b y e : elems (Td d k1 a x (Td d k2 b y e)) = elems (Td d k2 (Td d k1 a x b) y e).
Proof. destruct d; simpl; by rewrite <- !app_assoc. Qed.

Lemma rotate_nodup {x y : nid} {A B C D : list nid} : NoDup (x :: y :: A ++ B ++ C ++ D) ->
  x <> y /\ (x ∉ A /\ x ∉ B /\ x ∉ C /\ x ∉ D) /\ (y ∉ A /\ y ∉ B /\ y ∉ C /\ y ∉ D) /\
  (forall z, z ∈ B -> z ∉ A /\ z ∉ C /\ z ∉ D) /\ NoDup B /\ NoDup D /\ (forall z, z ∈ A ++ B ++ C -> z ∉ D).
Proof.
  rewrite !NoDup_cons, !NoDup_app. intros (H1 & H2 & H3 & H4 & (H5 & H6 & H7 & H8 & H9)). repeat split; set_solver.
Qed.

Lemma hole_in c p : hole c = Some p -> p ∈ pre c ++ post c.
Proof. destruct c as [|[[] k q s] c]; [done| |]; intros [= ->]; simpl; unfold before, behind; simpl; set_solver. Qed.

(** The first four writes: the inner subtree changes its parent, [y] gets [x] as
    child. *)
Lemma rotate_inner t c d k1 a x k2 b y e : rep t (plug c (Td d k1 a x (Td d k2 b y e))) ->
  exists t', (t ← set_child t x (opp d) (top b);
              t ← unless_null (top b) (fun l => rb_set_parent t l (Some x)) t;
              t ← set_child t y d (Some x);
              rb_set_parent t y (hole c)) = Some t' /\ root_node t' = root_node t /\
    same_but t t' (elems (plug c (Td d k1 a x (Td d k2 b y e)))) /\
    holds (nodes t') (flatc c (Some x)) /\ holds (nodes t') (flat (Some x) a) /\ holds (nodes t') (flat (Some x) b) /\
    holds (nodes t') (flat (Some y) e) /\ nodes t' !! x = Some (cell (hole c) d k1 (top a) (top b)) /\
    nodes t' !! y = Some (cell (hole c) d k2 (Some x) (top e)).
Proof.
  intros [Hnd Hroot Hc Ht]%rep_plug. rewrite rotate_perm in Hnd.
  destruct (rotate_nodup Hnd) as (N1 & N2 & N3 & N4 & N5 & N6 & N7).
  rewrite !holds_Td, !top_Td in Ht. destruct Ht as (Hx & Ha & Hy & Hb & He). rewrite top_Td in Hc.
  assert (Hin : forall z, z = x \/ z = y \/ z ∈ elems b -> z ∈ elems (plug c (Td d k1 a x (Td d k2 b y e)))).
  { intros z Hz. rewrite elems_plug, !elem_of_app, !in_Td. tauto. }
  rewrite (set_child_some _ _ _ _ _ Hx). simpl.
  replace (with_child (opp d) (top b) _) with (cell (hole c) d k1 (top a) (top b)) by by destruct d.
  set (m1 := <[x := _]> (nodes t)).
  assert (Hb1 : holds m1 (flat (Some y) b)) by (subst m1; keep).
  destruct (reparent_step (mk_root (root_node t) m1) (Some y) (Some x) b Hb1 N5) as ([r2 m2] & -> & R2 & Hb2 & Hk). simpl in *.
  assert (Hy2 : m2 !! y = Some (cell (Some x) d k2 (top b) (top e))) by (rewrite Hk by tauto; subst m1; keep).
  rewrite (set_child_some (mk_root r2 m2) _ _ _ _ Hy2). simpl.
  erewrite set_parent_some by apply lookup_insert_eq. simpl. rewrite insert_insert_eq.
  replace (with_parent _ _) with (cell (hole c) d k2 (Some x) (top e)) by by destruct d.
  eexists. split; [done|]. split; [done|]. simpl. split.
  { intros z Hz. simpl. rewrite lookup_insert_ne; [|intros ->; apply Hz, Hin; tauto].
    rewrite Hk by (intros Hb'; apply Hz, Hin; tauto). subst m1. apply lookup_insert_ne. intros ->. apply Hz, Hin. tauto. }
  assert (Hx2 : m2 !! x = Some (cell (hole c) d k1 (top a) (top b))) by (rewrite Hk by tauto; subst m1; keep).
  assert (Hs : forall l, holds (nodes t) l -> (forall z, z ∈ l.*1 -> z <> x /\ z ∉ elems b) -> holds m2 l).
  { intros l Hl Hz. eapply holds_same; [exact Hl|]. intros z Hzl. destruct (Hz z Hzl). rewrite Hk by done. subst m1.
    by apply lookup_insert_ne. }
  repeat split; keep; apply Hs; try done; intros z; rewrite ?flat_fst, ?flatc_fst; set_solver.
Qed.

Lemma rotate_ok t c d k1 a x k2 b y e : rep t (plug c (Td d k1 a x (Td d k2 b y e))) ->
  exists t', __rb_rotate d t x = Some t' /\ rep t' (plug c (Td d k2 (Td d k1 a x b) y e)) /\
    same_but t t' (elems (plug c (Td d k1 a x (Td d k2 b y e)))).
Proof.
  intros Hr. destruct (rotate_inner _ _ _ _ _ _ _ _ _ _ Hr) as (t1 & E1 & R1 & S1 & Hc & Ha & Hb & He & Hx & Hy).
  apply rep_plug in Hr as [Hnd Hroot _ Ht]. pose proof Hnd as Hnd'. rewrite rotate_perm in Hnd'.
  destruct (rotate_nodup Hnd') as (N1 & N2 & N3 & N4 & N5 & N6 & N7).
  rewrite !holds_Td, !top_Td in Ht. destruct Ht as (Hx0 & _ & Hy0 & _).
  unfold __rb_rotate. rewrite Hx0. simpl. rewrite child_cell_opp, parent_cell. simpl. rewrite Hy0. simpl. rewrite child_cell_same.
  destruct (set_link_ok t1 c d x (hole c) (Some y)) as (t2 & E2 & Hc2 & R2 & M2); [done|tauto|done|done|].
  assert (Hk : forall z, z ∉ pre c ++ post c -> nodes t2 !! z = nodes t1 !! z).
  { intros z Hz. destruct c as [|f c]; rewrite M2; [done|]. apply lookup_insert_ne. intros Hq. apply Hz, hole_in. simpl. by rewrite Hq. }
  assert (Hx2 : nodes t2 !! x = Some (cell (hole c) d k1 (top a) (top b))) by (by rewrite Hk by tauto).
  assert (E : forall B (k : rb_root -> option B), (t0 ← set_child t x (opp d) (top b);
     t3 ← unless_null (top b) (fun l => rb_set_parent t0 l (Some x)) t0;
     t4 ← set_child t3 y d (Some x); t5 ← rb_set_parent t4 y (hole c); k t5) = k t1).
  { intros B k. destruct (set_child t x (opp d) (top b)); [|done]. simpl in *.
    destruct (unless_null _ _ _); [|done]. simpl in *. destruct (set_child _ y d _); [|done]. simpl in *. by rewrite E1. }
  rewrite E, E2. simpl. rewrite (set_parent_some _ _ _ _ Hx2). eexists. split; [done|].
  replace (with_parent (Some y) _) with (cell (Some y) d k1 (top a) (top b)) by by destruct d.
  assert (Hs : forall p s, holds (nodes t1) (flat p s) -> (forall z, z ∈ elems s -> z ∉ pre c ++ post c) -> holds (nodes t2) (flat p s)).
  { intros p s Hl Hz. eapply holds_same; [exact Hl|]. intros z Hzl%flat_fst. auto. }
  split.
  - apply rep_plug. split; simpl.
    + by rewrite rotate_elems in Hnd.
    + rewrite R2, R1, Hroot, !top_Td. destruct c as [|f c]; [done|]. destruct (last (f :: c)) eqn:Hl; [done|]. by apply last_None in Hl.
    + rewrite top_Td. keep.
    + rewrite !holds_Td, !top_Td. repeat split; keep; try (apply Hs; [done|]; set_solver). rewrite Hk by tauto. done.
  - intros z Hz. simpl. assert (Hz' : z ∉ pre c ++ post c) by (rewrite elems_plug in Hz; set_solver).
    rewrite lookup_insert_ne; [rewrite Hk by done; by apply S1|].
    intros ->. apply Hz. rewrite elems_plug, !elem_of_app, in_Td. tauto.
Qed.

End RbtreeRep.
