(* ===== verification/RbtreeInsert.v ===== *)
(** * Red-black trees: insertion

    The loop of [rb_insert_color] as a function on trees with a hole, that the
    code in the store does the same, and that the result is balanced. *)

From Stdlib Require Import ZArith Lia.
From stdpp Require Import base option gmap list.
From S2P Require Import Prelude Rbtree RbtreeRep.

Module RbtreeInsert.
Import Rbtree RbtreeRep.

(** ** Changes that keep the order *)

(** The store holds [s'] where it held [s], with the same nodes in the same
    order, and nothing else changed. *)
Record evolves (t : rb_root) (s : tree) (t' : rb_root) (s' : tree) : Prop := {
  ev_rep : rep t' s';
  ev_elems : elems s' = elems s;
  ev_same : same_but t t' (elems s)
}.

Lemma evolves_refl t s : rep t s -> evolves t s t s.
Proof. intros H. split; [done|done|apply same_but_refl]. Qed.

Lemma evolves_trans t1 s1 t2 s2 t3 s3 : evolves t1 s1 t2 s2 -> evolves t2 s2 t3 s3 -> evolves t1 s1 t3 s3.
Proof.
  intros [A1 A2 A3] [B1 B2 B3]. split; [done|congruence|]. rewrite A2 in B3. by eapply same_but_trans.
Qed.

Definition blacken (t : tree) : tree := match t with E => E | T _ l x r => T RB_BLACK l x r end.

Definition is_red (t : tree) : bool := match t with T RB_RED _ _ _ => true | _ => false end.

Lemma elems_recolor c d k k' a x b : elems (plug c (Td d k' a x b)) = elems (plug c (Td d k a x b)).
Proof. by rewrite !elems_plug, !elems_Td. Qed.

(** A subtree seen from the other side of its parent. *)
Lemma refocus c d k a x b : plug c (Td d k a x b) = plug (Fr (opp d) k x a :: c) b.
Proof. by destruct d. Qed.

Lemma focus c d k a x b : plug c (Td d k a x b) = plug (Fr d k x b :: c) a.
Proof. by destruct d. Qed.

Lemma color_step t s c d k k' a x b : rep t s -> s = plug c (Td d k a x b) ->
  exists t', rb_set_color t x k' = Some t' /\ evolves t s t' (plug c (Td d k' a x b)).
Proof.
  intros Hr ->. destruct (set_color_ok t c k k' d a x b Hr) as (t' & E1 & E2 & E3).
  exists t'. split; [done|]. split; [done|apply elems_recolor|done].
Qed.

Lemma rotate_step t s c d k1 a x k2 b y e : rep t s -> s = plug c (Td d k1 a x (Td d k2 b y e)) ->
  exists t', __rb_rotate d t x = Some t' /\ evolves t s t' (plug c (Td d k2 (Td d k1 a x b) y e)).
Proof.
  intros Hr ->. destruct (rotate_ok t c d k1 a x k2 b y e Hr) as (t' & E1 & E2 & E3).
  exists t'. split; [done|]. split; [done|by rewrite !elems_plug, rotate_elems|done].
Qed.

(** The colour of a subtree, or black for none, as the code reads it. *)
Lemma read_red t s c r : rep t s -> s = plug c r ->
  match top r with Some u => rb_is_red t u = Some (is_red r) | None => is_red r = false end.
Proof.
  intros Hr ->. destruct r as [|k l x r]; simpl; [done|].
  unfold rb_is_red. rewrite (rep_node t c Lt k l x r Hr). simpl. by destruct k.
Qed.

(** On which side of its parent a node is. *)
Lemma other_child t s c d k a x b : rep t s -> s = plug c (Td d k a x b) -> is_Some (top a) -> top b <> top a.
Proof.
  intros [Hnd _ _] -> [y Hy] Hab. rewrite elems_plug, elems_Td in Hnd.
  destruct a as [|? la ya ra]; [done|]. destruct b as [|? lb yb rb]; [done|]. simpl in Hab. injection Hab as ->.
  apply nodup_hole in Hnd as (Hnd & _). destruct d; simpl in Hnd; apply NoDup_app in Hnd as (_ & Hd & _); eapply (Hd ya); set_solver.
Qed.

Lemma side_of h d k p q : p <> q -> (if decide (rb_left (cell h d k p q) = p) then Lt else Rt) = d.
Proof. intros H. destruct d; simpl; case_decide; congruence. Qed.

(** ** The loop as a function *)

(** [t] is the tree below a red node that was put into the hole. *)
Fixpoint ins_fix (c : ctx) (t : tree) : option tree :=
  match c with
  | Fr d1 RB_RED p s1 :: c' =>
      match c' with
      | [] => None
      | Fr d2 k g s2 :: c'' =>
          match s2 with
          | T RB_RED l u r => ins_fix c'' (Td d2 RB_RED (Td d1 RB_BLACK t p s1) g (T RB_BLACK l u r))
          | _ =>
              if decide (d1 = d2) then Some (plug c'' (Td d2 RB_BLACK t p (Td d2 RB_RED s1 g s2)))
              else match t with
                   | E => None
                   | T kx l x r =>
                       let '(a, b) := match d2 with Lt => (l, r) | Rt => (r, l) end in
                       Some (plug c'' (Td d2 RB_BLACK (Td d2 RB_RED s1 p a) x (Td d2 RB_RED b g s2)))
                   end
          end
      end
  | _ => Some (plug c t)
  end.

Lemma insert_stop fuel t s c d0 k0 x a b : rep t s -> s = plug c (Td d0 k0 a x b) ->
  (match c with Fr _ RB_RED _ _ :: _ => False | _ => True end) -> insert_loop (S fuel) t x = Some t.
Proof.
  intros Hr -> Hc. simpl. rewrite (rep_node t c d0 k0 a x b Hr). simpl. rewrite parent_cell.
  destruct c as [|[d k p s] c]; simpl; [done|]. pose proof (rep_node t c d k (Td d0 k0 a x b) p s Hr) as Hp.
  unfold rb_is_red. rewrite Hp. simpl. rewrite color_cell. by destruct k.
Qed.

(** One turn with a red uncle. *)
Lemma insert_red t s c x d1 p s1 d2 k g l u r a : rep t s ->
  s = plug c (Td d2 k (Td d1 RB_RED a p s1) g (T RB_RED l u r)) ->
  exists t', insert_side d2 t x p g = Some (t', g) /\
    evolves t s t' (plug c (Td d2 RB_RED (Td d1 RB_BLACK a p s1) g (T RB_BLACK l u r))).
Proof.
  intros Hr Es. unfold insert_side, rb_set_black, rb_set_red. pose proof Hr as Hg. rewrite Es in Hg. apply rep_node in Hg. rewrite Hg. simpl.
  rewrite child_cell_opp. pose proof Es as Eu. rewrite refocus in Eu. simpl top.
  pose proof (read_red _ _ _ _ Hr Eu) as Hu. simpl in Hu. rewrite Hu. simpl.
  destruct (color_step t s _ Lt RB_RED RB_BLACK l u r Hr Eu) as (t1 & -> & V1). simpl.
  destruct (color_step t1 _ (Fr d2 k g (T RB_BLACK l u r) :: c) d1 RB_RED RB_BLACK a p s1 (ev_rep _ _ _ _ V1)) as (t2 & E2 & V2).
  { by destruct d2. }
  rewrite E2. simpl.
  destruct (color_step t2 _ c d2 k RB_RED (Td d1 RB_BLACK a p s1) g (T RB_BLACK l u r) (ev_rep _ _ _ _ V2)) as (t3 & E3 & V3).
  { by destruct d2. }
  rewrite E3. simpl. eexists. split; [done|].
  eapply evolves_trans; [exact V1|]. eapply evolves_trans; [exact V2|exact V3].
Qed.

(** The last part of a turn: recolour and rotate. *)
Lemma insert_rotate t s c d k kp g p a s1 s2 : rep t s -> s = plug c (Td d k (Td d kp a p s1) g s2) ->
  exists t', (t ← rb_set_black t p; t ← rb_set_red t g; __rb_rotate (opp d) t g) = Some t' /\
    evolves t s t' (plug c (Td d RB_BLACK a p (Td d RB_RED s1 g s2))).
Proof.
  intros Hr Es. pose proof Es as Ep. rewrite focus in Ep.
  destruct (color_step t s _ d kp RB_BLACK a p s1 Hr Ep) as (t1 & E1 & V1). unfold rb_set_black. rewrite E1. simpl.
  destruct (color_step t1 _ c d k RB_RED (Td d RB_BLACK a p s1) g s2 (ev_rep _ _ _ _ V1)) as (t2 & E2 & V2); [by destruct d|].
  unfold rb_set_red. rewrite E2. simpl.
  destruct (rotate_step t2 _ c (opp d) RB_RED s2 g RB_BLACK s1 p a (ev_rep _ _ _ _ V2)) as (t3 & E3 & V3).
  { by rewrite !Td_opp. }
  rewrite E3. eexists. split; [done|]. rewrite !Td_opp in V3.
  eapply evolves_trans; [exact V1|]. eapply evolves_trans; [exact V2|exact V3].
Qed.

(** One turn without. *)
Lemma insert_turn t s c d1 kx l x r p s1 d2 k g s2 res : rep t s ->
  s = plug c (Td d2 k (Td d1 RB_RED (T kx l x r) p s1) g s2) -> is_red s2 = false ->
  ins_fix (Fr d1 RB_RED p s1 :: Fr d2 k g s2 :: c) (T kx l x r) = Some res ->
  exists t' y fr c' ky d a b, insert_side d2 t x p g = Some (t', y) /\ evolves t s t' res /\
    res = plug (fr :: c') (Td d ky a y b) /\ f_color fr = RB_BLACK.
Proof.
  intros Hr Es Hs2 Hres. unfold insert_side. pose proof Hr as Hg. rewrite Es in Hg. apply rep_node in Hg. rewrite Hg. simpl.
  rewrite child_cell_opp. pose proof Es as Eu. rewrite refocus in Eu. pose proof (read_red _ _ _ _ Hr Eu) as Hu.
  assert (E : match top s2 with Some uncle => rb_is_red t uncle | None => Some false end = Some false).
  { destruct (top s2); [by rewrite Hu, Hs2|done]. }
  rewrite E. simpl. pose proof Es as Ep. rewrite focus in Ep. pose proof Hr as Hp. rewrite Ep in Hp. apply rep_node in Hp. rewrite Hp. simpl.
  assert (Hne : top s1 <> Some x). { apply (other_child t s _ d1 RB_RED (T kx l x r) p s1 Hr Ep). done. }
  assert (Hres' : ins_fix (Fr d1 RB_RED p s1 :: Fr d2 k g s2 :: c) (T kx l x r)
    = if decide (d1 = d2) then Some (plug c (Td d2 RB_BLACK (T kx l x r) p (Td d2 RB_RED s1 g s2)))
      else let '(a, b) := match d2 with Lt => (l, r) | Rt => (r, l) end in
           Some (plug c (Td d2 RB_BLACK (Td d2 RB_RED s1 p a) x (Td d2 RB_RED b g s2)))).
  { simpl. destruct s2 as [|[] ? ? ?]; done. }
  rewrite Hres' in Hres. clear Hres'. case_decide as Hd; [subst d1|].
  - injection Hres as <-. rewrite child_cell_opp. rewrite decide_False by done. simpl.
    destruct (insert_rotate t s c d2 k RB_RED g p (T kx l x r) s1 s2 Hr Es) as (t' & E' & V).
    destruct (rb_set_black t p) as [t1|]; [|done]. simpl in *. destruct (rb_set_red t1 g) as [t2|]; [|done]. simpl in *. rewrite E'. simpl.
    eexists t', x, (Fr d2 RB_BLACK p (Td d2 RB_RED s1 g s2)), c, kx, Lt, l, r. split; [done|]. split; [done|]. done.
  - assert (d1 = opp d2) as -> by (by destruct d1, d2). rewrite child_cell_same. rewrite decide_True by done.
    set (a := match d2 with Lt => l | Rt => r end) in *. set (b := match d2 with Lt => r | Rt => l end) in *.
    assert (Hx : T kx l x r = Td d2 kx a x b) by (by destruct d2). simpl top in *.
    destruct (rotate_step t s (Fr d2 k g s2 :: c) d2 RB_RED s1 p kx a x b Hr) as (t0 & E0 & V0).
    { rewrite Ep, Td_opp, Hx. by destruct d2. }
    rewrite E0. simpl.
    destruct (insert_rotate t0 _ c d2 k kx g x (Td d2 RB_RED s1 p a) b s2 (ev_rep _ _ _ _ V0)) as (t' & E' & V); [done|].
    destruct (rb_set_black t0 x) as [t1|]; [|done]. simpl in *. destruct (rb_set_red t1 g) as [t2|]; [|done]. simpl in *. rewrite E'. simpl.
    assert (res = plug c (Td d2 RB_BLACK (Td d2 RB_RED s1 p a) x (Td d2 RB_RED b g s2))) as -> by (destruct d2; by injection Hres).
    eexists t', p, (Fr d2 RB_BLACK x (Td d2 RB_RED b g s2)), c, RB_RED, d2, s1, a. split; [done|].
    split; [by eapply evolves_trans|]. done.
Qed.

Lemma insert_loop_ok n : forall c fuel t s d k a x b res, (length c < n)%nat -> (length c < fuel)%nat -> rep t s ->
  s = plug c (Td d k a x b) -> ins_fix c (Td d k a x b) = Some res ->
  exists t', insert_loop fuel t x = Some t' /\ evolves t s t' res.
Proof.
  induction n as [|n IH]; intros c fuel t s d k a x b res Hn Hf Hr Es Hres; [lia|].
  destruct fuel as [|fuel]; [lia|]. destruct c as [|[d1 [] p s1] c].
  - exists t. split; [by eapply insert_stop|]. injection Hres as <-. subst s. by apply evolves_refl.
  - destruct c as [|[d2 kg g s2] c]; [done|]. simpl in Hn, Hf.
    assert (Ef : s = plug (Fr d2 kg g s2 :: c) (Td d1 RB_RED (Td d k a x b) p s1)) by done.
    assert (Eg : s = plug c (Td d2 kg (Td d1 RB_RED (Td d k a x b) p s1) g s2)) by done.
    pose proof Hr as H1. rewrite Es in H1. apply rep_node in H1.
    pose proof Hr as H2. rewrite Ef in H2. apply rep_node in H2.
    pose proof Hr as H3. rewrite Eg in H3. apply rep_node in H3.
    pose proof (other_child _ _ _ _ _ _ _ _ Hr Eg) as Hne. rewrite top_Td in Hne. specialize (Hne ltac:(done)).
    simpl insert_loop. rewrite H1. simpl. rewrite parent_cell. simpl. unfold rb_is_red. rewrite H2. simpl. rewrite color_cell. simpl.
    rewrite parent_cell. simpl. rewrite H3. simpl. rewrite top_Td, side_of by done.
    destruct (is_red s2) eqn:Hu.
    + destruct s2 as [|[] l u r]; try done.
      destruct (insert_red t s c x d1 p s1 d2 kg g l u r (Td d k a x b) Hr Eg) as (t1 & -> & V1). simpl.
      assert (Hc : (length c < n)%nat /\ (length c < fuel)%nat) by lia. destruct Hc as [Hc1 Hc2].
      destruct (IH c fuel t1 _ d2 RB_RED _ g _ res Hc1 Hc2 (ev_rep _ _ _ _ V1) eq_refl) as (t' & E' & V'); [by destruct d2|].
      exists t'. split; [done|]. by eapply evolves_trans.
    + assert (Hx : exists kx l r, Td d k a x b = T kx l x r) by (destruct d; eauto). destruct Hx as (kx & l & r & Hx). rewrite Hx in *.
      destruct (insert_turn t s c d1 kx l x r p s1 d2 kg g s2 res Hr Eg Hu Hres)
        as (t1 & y & fr & c' & ky & d' & a' & b' & -> & V & Er & Hfr). simpl.
      exists t1. split; [|done]. destruct fuel as [|fuel]; [lia|].
      eapply (insert_stop _ _ _ _ _ _ _ _ _ (ev_rep _ _ _ _ V) Er). destruct fr. simpl in *. by subst.
  - exists t. split; [by eapply insert_stop|]. simpl in Hres. injection Hres as <-. subst s. by apply evolves_refl.
Qed.

End RbtreeInsert.

(** * Red-black trees: balance

    The red-black invariant of a tree and of a tree with a hole, how deep such a
    tree can be, and that insertion keeps it. *)

Module RbtreeBal.
Import Rbtree RbtreeRep RbtreeInsert.

(** Every path down to a missing child passes [n] black nodes. *)
Fixpoint bal (t : tree) (n : nat) : Prop :=
  match t with
  | E => n = 0%nat
  | T RB_RED l _ r => bal l n /\ bal r n
  | T RB_BLACK l _ r => exists m, n = S m /\ bal l m /\ bal r m
  end.

(** No red node has a red child. *)
Fixpoint no_rr (t : tree) : Prop :=
  match t with
  | E => True
  | T c l _ r => (c = RB_RED -> is_red l = false /\ is_red r = false) /\ no_rr l /\ no_rr r
  end.

Definition red_black (t : tree) : Prop := no_rr t /\ (exists n, bal t n) /\ is_red t = false.

(** A tree of black height [n] in the hole gives one of black height [N]. *)
Fixpoint balc (c : ctx) (n N : nat) : Prop :=
  match c with
  | [] => n = N
  | Fr _ RB_RED _ s :: c => bal s n /\ balc c n N
  | Fr _ RB_BLACK _ s :: c => bal s n /\ balc c (S n) N
  end.

Definition hole_red (c : ctx) : bool := match c with Fr _ RB_RED _ _ :: _ => true | _ => false end.

Fixpoint no_rrc (c : ctx) : Prop :=
  match c with
  | [] => True
  | Fr _ k _ s :: c => (k = RB_RED -> is_red s = false /\ hole_red c = false) /\ no_rr s /\ no_rrc c
  end.

Lemma bal_Td d k a x b n : bal (Td d k a x b) n <->
  match k with RB_RED => bal a n /\ bal b n | RB_BLACK => exists m, n = S m /\ bal a m /\ bal b m end.
Proof. destruct d, k; simpl; split; try tauto; intros (m & H); exists m; tauto. Qed.

Lemma no_rr_Td d k a x b : no_rr (Td d k a x b) <-> (k = RB_RED -> is_red a = false /\ is_red b = false) /\ no_rr a /\ no_rr b.
Proof. destruct d; simpl; tauto. Qed.

Lemma is_red_Td d k a x b : is_red (Td d k a x b) = match k with RB_RED => true | RB_BLACK => false end.
Proof. by destruct d, k. Qed.

Lemma bal_plug c : forall t N, bal (plug c t) N <-> exists n, bal t n /\ balc c n N.
Proof.
  induction c as [|[d k x s] c IH]; intros t N; simpl; [split; [intros H; by exists N|by intros (n & H & ->)]|].
  rewrite IH. unfold fill. simpl. split.
  - intros (n & Hb & Hc). apply bal_Td in Hb. destruct k; simpl in Hc; [exists n; tauto|]. destruct Hb as (m & -> & H1 & H2). exists m. tauto.
  - intros (n & Ht & Hc). destruct k; destruct Hc as [Hs Hc]; eexists; (split; [apply bal_Td|exact Hc]); [done|]. exists n. done.
Qed.

Lemma no_rr_plug c : forall t, no_rr (plug c t) <-> no_rr t /\ no_rrc c /\ (hole_red c = true -> is_red t = false).
Proof.
  induction c as [|[d k x s] c IH]; intros t; simpl; [naive_solver|]. rewrite IH. unfold fill. simpl.
  rewrite no_rr_Td, is_red_Td. destruct k; simpl; destruct (hole_red c), (is_red t), (is_red s); simpl; intuition congruence.
Qed.

Lemma is_red_plug f c t : is_red (plug (f :: c) t) = match last (f :: c) with Some f => bool_decide (f_color f = RB_RED) | None => false end.
Proof.
  revert f t. induction c as [|g c IH]; intros f t; simpl.
  - unfold fill. destruct f as [d k x s]. simpl. rewrite is_red_Td. by destruct k.
  - specialize (IH g (fill f t)). simpl in IH. by rewrite IH.
Qed.

(** ** Depth *)

Fixpoint height (t : tree) : nat := match t with E => 0 | T _ l _ r => S (Nat.max (height l) (height r)) end.

Lemma bal_height t : forall n, bal t n -> no_rr t -> (height t <= 2 * n + (if is_red t then 1 else 0))%nat.
Proof.
  induction t as [|k l IHl x r IHr]; intros n; simpl; [lia|]. intros Hb (Hc & Hl & Hr). destruct k.
  - destruct Hb as [B1 B2]. destruct (Hc eq_refl) as [C1 C2]. specialize (IHl n B1 Hl). specialize (IHr n B2 Hr).
    rewrite C1 in IHl. rewrite C2 in IHr. lia.
  - destruct Hb as (m & -> & B1 & B2). specialize (IHl m B1 Hl). specialize (IHr m B2 Hr).
    destruct (is_red l), (is_red r); lia.
Qed.

Lemma bal_size t : forall n, bal t n -> (2 ^ n <= S (length (elems t)))%nat.
Proof.
  induction t as [|k l IHl x r IHr]; intros n; simpl; [intros ->; simpl; lia|]. rewrite length_app. simpl. destruct k.
  - intros [B1 B2]. specialize (IHl n B1). specialize (IHr n B2). lia.
  - intros (m & -> & B1 & B2). specialize (IHl m B1). specialize (IHr m B2). simpl. lia.
Qed.

(** The depth is at most twice the logarithm of the number of nodes and one. *)
Lemma red_black_height t : red_black t -> (height t <= 2 * Nat.log2 (S (length (elems t))))%nat.
Proof.
  intros (H1 & [n H2] & H3). pose proof (bal_height t n H2 H1) as Hh. rewrite H3 in Hh. pose proof (bal_size t n H2) as Hs.
  assert (n <= Nat.log2 (S (length (elems t))))%nat; [|lia]. apply Nat.log2_le_mono in Hs. by rewrite Nat.log2_pow2 in Hs by lia.
Qed.

(** ** Insertion *)

Definition root_black (c : ctx) : Prop := match last c with Some f => f_color f = RB_BLACK | None => True end.


Lemma blacken_rb t n : no_rr t -> bal t n -> red_black (blacken t).
Proof.
  destruct t as [|k l x r]; [intros _ H; split; [done|]; split; [by exists n|done]|].
  intros (H1 & H2 & H3) Hb. split; [done|]. split; [|done]. destruct k.
  - exists (S n), n. destruct Hb. done.
  - destruct Hb as (m & _ & H). by exists (S m), m.
Qed.

Lemma ins_fix_rb m : forall c t n N, (length c < m)%nat -> no_rrc c -> root_black c -> balc c n N -> no_rr t -> bal t n -> is_red t = true ->
  exists res, ins_fix c t = Some res /\ red_black (blacken res).
Proof.
  induction m as [|m IH]; intros c t n N Hm Hc Hrb Hbc Ht Hb Hred; [lia|].
  destruct c as [|[d1 [] p s1] c]; simpl in Hm.
  - exists t. split; [done|]. by eapply blacken_rb.
  - simpl in Hc, Hbc. destruct Hc as (Hk & Hs1 & Hc). destruct (Hk eq_refl) as [R1 Rc]. destruct Hbc as [Bs1 Hbc].
    destruct c as [|[d2 [] g s2] c]; [done|done|]. simpl in Hc, Hbc, Hm. destruct Hc as (_ & Hs2 & Hc). destruct Hbc as [Bs2 Hbc].
    destruct (is_red s2) eqn:Ru.
    + destruct s2 as [|[] l u r]; try done. simpl in Hs2, Bs2. destruct Hs2 as (Hlr & Hl & Hr). destruct Bs2 as [Bl Br].
      destruct (IH c (Td d2 RB_RED (Td d1 RB_BLACK t p s1) g (T RB_BLACK l u r)) (S n) N) as (res & E & Hres); try done; try lia.
      * by destruct c.
      * apply no_rr_Td. rewrite is_red_Td, no_rr_Td. simpl. naive_solver.
      * apply bal_Td. rewrite bal_Td. simpl. split; exists n; done.
      * by rewrite is_red_Td.
      * exists res. split; [|done]. simpl. destruct d2; exact E.
    + assert (E : exists s', ins_fix (Fr d1 RB_RED p s1 :: Fr d2 RB_BLACK g s2 :: c) t = Some (plug c s') /\
        no_rr s' /\ bal s' (S n) /\ is_red s' = false).
      { destruct t as [|[] l x r]; try done. simpl in Ht, Hb. destruct Ht as (Hlr & Hl & Hr). destruct (Hlr eq_refl) as [Rl Rr]. destruct Hb as [Bl Br].
        assert (Hi : ins_fix (Fr d1 RB_RED p s1 :: Fr d2 RB_BLACK g s2 :: c) (T RB_RED l x r)
          = if decide (d1 = d2) then Some (plug c (Td d2 RB_BLACK (T RB_RED l x r) p (Td d2 RB_RED s1 g s2)))
            else let '(a, b) := match d2 with Lt => (l, r) | Rt => (r, l) end in
                 Some (plug c (Td d2 RB_BLACK (Td d2 RB_RED s1 p a) x (Td d2 RB_RED b g s2)))) by (simpl; by destruct s2 as [|[] ? ? ?]).
        rewrite Hi. case_decide as Hd.
        - eexists. split; [done|]. rewrite !no_rr_Td, !bal_Td, !is_red_Td. split; [simpl; naive_solver|]. split; [|done].
          exists n. rewrite bal_Td. simpl. done.
        - destruct d2; eexists; (split; [done|]); simpl; (split; [naive_solver|]); (split; [|done]); exists n; done. }
      destruct E as (s' & -> & E1 & E2 & E3). eexists. split; [done|]. apply (blacken_rb _ N).
      * apply no_rr_plug. split; [done|]. split; [done|]. by rewrite E3.
      * apply bal_plug. by exists (S n).
  - eexists. split; [done|]. apply (blacken_rb _ N).
    + apply (no_rr_plug (Fr d1 RB_BLACK p s1 :: c)). done.
    + apply (bal_plug (Fr d1 RB_BLACK p s1 :: c)). by exists n.
Qed.

(** A red node in a hole of a red-black tree. *)
Lemma ins_fix_ok c x : red_black (plug c E) -> exists res, ins_fix c (T RB_RED E x E) = Some res /\ red_black (blacken res).
Proof.
  intros (H1 & [N H2] & H3). apply no_rr_plug in H1 as (_ & Hc & _). apply bal_plug in H2 as (n & Hn & Hbc). simpl in Hn. subst n.
  eapply (ins_fix_rb (S (length c))); try done; try lia. unfold root_black. destruct c as [|f c]; [done|].
  rewrite is_red_plug in H3. destruct (last (f :: c)) as [g|]; [|done]. apply bool_decide_eq_false in H3. by destruct (f_color g).
Qed.

End RbtreeBal.
