(* ===== verification/RbtreeErase.v ===== *)
(** * Red-black trees: rebalancing after a removal

    The loop of [__rb_erase_color] as a relation on trees with a hole, and that
    the code in the store follows it. *)

From Stdlib Require Import ZArith Lia.
From stdpp Require Import base option gmap list.
From S2P Require Import Prelude Rbtree RbtreeRep RbtreeInsert.

Module RbtreeErase.
Import Rbtree RbtreeRep RbtreeInsert RbtreeBal.

(** ** The turns of the loop *)

(** [t], on side [d] of [p], is one black node short and [s] is the other child,
    black: what [p] and its subtrees become, and whether that ends the loop. *)
Inductive del_step (d : side) (k : color) (p : nid) (t : tree) : tree -> bool -> tree -> Prop :=
  | ds_recolor ks near o far : is_red near = false -> is_red far = false ->
      del_step d k p t (Td d ks near o far) false (Td d k t p (Td d RB_RED near o far))
  | ds_near ks a n b o far : is_red far = false ->
      del_step d k p t (Td d ks (Td d RB_RED a n b) o far) true (Td d k (Td d RB_BLACK t p a) n (Td d RB_BLACK b o far))
  | ds_far ks near o far : is_red far = true ->
      del_step d k p t (Td d ks near o far) true (Td d k (Td d RB_BLACK t p near) o (blacken far)).

Inductive del_fix : ctx -> tree -> tree -> Prop :=
  | df_root t : del_fix [] t (blacken t)
  | df_red c t : is_red t = true -> del_fix c t (plug c (blacken t))
  | df_done d k p s c t t' : is_red t = false -> is_red s = false -> del_step d k p t s true t' ->
      del_fix (Fr d k p s :: c) t (blacken (plug c t'))
  | df_up d k p s c t t' res : is_red t = false -> is_red s = false -> del_step d k p t s false t' -> del_fix c t' res ->
      del_fix (Fr d k p s :: c) t res
  | df_sib_done d k p near o far c t t' : is_red t = false -> del_step d RB_RED p t near true t' ->
      del_fix (Fr d k p (Td d RB_RED near o far) :: c) t (blacken (plug c (Td d RB_BLACK t' o far)))
  | df_sib_up d k p near o far c t t' : is_red t = false -> del_step d RB_RED p t near false t' ->
      del_fix (Fr d k p (Td d RB_RED near o far) :: c) t (plug c (Td d RB_BLACK (blacken t') o far)).

(** ** The code *)

Lemma null_or_black_ok t s c r : rep t s -> s = plug c r -> null_or_black t (top r) = Some (negb (is_red r)).
Proof.
  intros Hr Es. pose proof (read_red _ _ _ _ Hr Es) as H. unfold null_or_black. destruct (top r); [|by rewrite H].
  rewrite H. done.
Qed.

Lemma blacken_step t s c r : rep t s -> s = plug c r ->
  exists t', unless_null (top r) (fun x => rb_set_black t x) t = Some t' /\ evolves t s t' (plug c (blacken r)).
Proof.
  intros Hr Es. destruct r as [|k l x r]; simpl.
  - exists t. split; [done|]. subst s. by apply evolves_refl.
  - apply (color_step t s c Lt k RB_BLACK l x r Hr Es).
Qed.

(** The steps before the [break]. *)
Lemma erase_finish t s c d k p a ks near o far : rep t s -> s = plug c (Td d k a p (Td d ks near o far)) ->
  exists t', (pn ← nodes t !! p; t ← rb_set_color t o (rb_color pn); t ← rb_set_black t p; on ← nodes t !! o;
              t ← unless_null (child (opp d) on) (fun x => rb_set_black t x) t; __rb_rotate d t p) = Some t' /\
    evolves t s t' (plug c (Td d k (Td d RB_BLACK a p near) o (blacken far))).
Proof.
  intros Hr Es. pose proof Hr as Hp. rewrite Es in Hp. apply rep_node in Hp. rewrite Hp. simpl. rewrite color_cell.
  pose proof Es as Eo. rewrite refocus in Eo. destruct (color_step t s _ d ks k near o far Hr Eo) as (t1 & -> & V1). simpl.
  destruct (color_step t1 _ c d k RB_BLACK a p (Td d k near o far) (ev_rep _ _ _ _ V1)) as (t2 & E2 & V2); [by rewrite <- refocus|].
  change (rb_set_black t1 p = Some t2) in E2. rewrite E2. simpl.
  assert (Ho : nodes t2 !! o = Some (cell (Some p) d k (top near) (top far))).
  { apply (rep_node t2 (Fr (opp d) RB_BLACK p a :: c)). rewrite <- refocus. apply V2. }
  rewrite Ho. simpl. rewrite child_cell_opp.
  destruct (blacken_step t2 _ (Fr (opp d) k o near :: Fr (opp d) RB_BLACK p a :: c) far (ev_rep _ _ _ _ V2)) as (t3 & -> & V3).
  { by rewrite <- !refocus. }
  simpl. destruct (rotate_step t3 _ c d RB_BLACK a p k near o (blacken far) (ev_rep _ _ _ _ V3)) as (t4 & -> & V4); [by rewrite <- !refocus|].
  eexists. split; [done|]. eapply evolves_trans; [exact V1|]. eapply evolves_trans; [exact V2|]. eapply evolves_trans; [exact V3|exact V4].
Qed.

Lemma erase_near t s c d k p a0 ks a n b o far : rep t s -> s = plug c (Td d k a0 p (Td d ks (Td d RB_RED a n b) o far)) ->
  exists t', (t ← unless_null (Some n) (fun x => rb_set_black t x) t; t ← rb_set_red t o; __rb_rotate (opp d) t o) = Some t' /\
    evolves t s t' (plug c (Td d k a0 p (Td d RB_BLACK a n (Td d RB_RED b o far)))).
Proof.
  intros Hr Es. set (c1 := Fr (opp d) k p a0 :: c). assert (Eo : s = plug c1 (Td d ks (Td d RB_RED a n b) o far)) by (subst s c1; by rewrite refocus).
  pose proof Eo as En. rewrite focus in En. simpl. unfold rb_set_black, rb_set_red.
  destruct (color_step t s _ d RB_RED RB_BLACK a n b Hr En) as (t1 & -> & V1). simpl.
  destruct (color_step t1 _ c1 d ks RB_RED (Td d RB_BLACK a n b) o far (ev_rep _ _ _ _ V1)) as (t2 & -> & V2); [by rewrite focus|]. simpl.
  destruct (rotate_step t2 _ c1 (opp d) RB_RED far o RB_BLACK b n a (ev_rep _ _ _ _ V2)) as (t3 & -> & V3); [by rewrite !Td_opp|].
  eexists. split; [done|]. rewrite !Td_opp in V3. subst c1. rewrite <- !refocus in V3. rewrite <- (refocus c d k a0 p (Td d RB_RED _ o far)) in V2.
  eapply evolves_trans; [exact V1|]. eapply evolves_trans; [exact V2|exact V3].
Qed.

Lemma del_step_top d k p t s b t' : del_step d k p t s b t' -> is_Some (top s).
Proof. destruct 1; rewrite top_Td; done. Qed.

Lemma erase_black_ok t s c d k p a so b a' o : rep t s -> s = plug c (Td d k a p so) -> del_step d k p a so b a' -> top so = Some o ->
  exists t', erase_black d t p o = Some (t', if b then None else Some p) /\ evolves t s t' (plug c a').
Proof.
  intros Hr Es Hd Ho. destruct Hd as [ks near o' far Hn Hf|ks x n y o' far Hf|ks near o' far Hf]; rewrite top_Td in Ho; injection Ho as ->.
  all: pose proof Es as Eo; rewrite refocus in Eo; pose proof Hr as Hro; rewrite Eo in Hro; apply rep_node in Hro;
    unfold erase_black; rewrite Hro; simpl; rewrite child_cell_same, child_cell_opp.
  all: pose proof Eo as En; rewrite focus in En; rewrite (null_or_black_ok _ _ _ _ Hr En); simpl.
  all: pose proof Eo as Ef; rewrite refocus in Ef; rewrite (null_or_black_ok _ _ _ _ Hr Ef); simpl.
  - rewrite Hn, Hf. simpl. destruct (color_step t s _ d ks RB_RED near o far Hr Eo) as (t1 & E1 & V1).
    unfold rb_set_red. rewrite E1. simpl. exists t1. split; [done|]. by rewrite <- refocus in V1.
  - rewrite is_red_Td, Hf. simpl. rewrite top_Td. destruct (erase_near t s c d k p a ks x n y o far Hr Es) as (t1 & E1 & V1).
    assert (Hp : nodes t1 !! p = Some (cell (hole c) d k (top a) (Some n))).
    { pose proof (ev_rep _ _ _ _ V1) as H1. apply rep_node in H1. by rewrite top_Td in H1. }
    destruct (erase_finish t1 _ c d k p a RB_BLACK x n (Td d RB_RED y o far) (ev_rep _ _ _ _ V1) eq_refl) as (t2 & E2 & V2).
    rewrite Hp in E2. simpl in E1, E2. apply bind_Some in E1 as (ta & Ea & (tb & Eb & Ec)%bind_Some).
    simpl. rewrite Ea. simpl. rewrite Eb. simpl. rewrite Ec. simpl. rewrite Hp. simpl. rewrite child_cell_opp. simpl. rewrite Hp. simpl.
    apply bind_Some in E2 as (t3 & -> & (t4 & E4 & (n4 & E5 & (t5 & E6 & E7)%bind_Some)%bind_Some)%bind_Some). simpl.
    rewrite E4. simpl. rewrite E5. simpl. rewrite E6. simpl. rewrite E7. simpl.
    eexists. split; [done|]. eapply evolves_trans; [exact V1|]. destruct d; exact V2.
  - rewrite Hf. simpl. rewrite andb_false_r.
    destruct (erase_finish t s c d k p a ks near o far Hr Es) as (t2 & E2 & V2).
    pose proof Hr as Hp. rewrite Es in Hp. apply rep_node in Hp. rewrite Hp in E2 |- *. simpl in *.
    apply bind_Some in E2 as (t3 & -> & (t4 & E4 & (n4 & E5 & (t5 & E6 & E7)%bind_Some)%bind_Some)%bind_Some). simpl.
    rewrite E4. simpl. rewrite E5. simpl. rewrite E6. simpl. rewrite E7. simpl. eexists. split; [done|exact V2].
Qed.

Lemma erase_side_black t s c d k p a so b a' : rep t s -> s = plug c (Td d k a p so) -> is_red so = false -> del_step d k p a so b a' ->
  exists t', erase_side d t p = Some (t', if b then None else Some p) /\ evolves t s t' (plug c a').
Proof.
  intros Hr Es Hs Hd. destruct (del_step_top _ _ _ _ _ _ _ Hd) as [o Ho]. unfold erase_side.
  pose proof Hr as Hp. rewrite Es in Hp. apply rep_node in Hp. rewrite Hp. simpl. rewrite child_cell_opp, Ho. simpl.
  pose proof Es as Eo. rewrite refocus in Eo. pose proof (read_red _ _ _ _ Hr Eo) as Hred. rewrite Ho in Hred. rewrite Hred, Hs. simpl.
  by eapply erase_black_ok.
Qed.

Lemma erase_side_red t s c d k p a near o far b a' : rep t s -> s = plug c (Td d k a p (Td d RB_RED near o far)) ->
  del_step d RB_RED p a near b a' ->
  exists t', erase_side d t p = Some (t', if b then None else Some p) /\ evolves t s t' (plug c (Td d RB_BLACK a' o far)).
Proof.
  intros Hr Es Hd. destruct (del_step_top _ _ _ _ _ _ _ Hd) as [o' Ho']. unfold erase_side, rb_set_black, rb_set_red.
  pose proof Hr as Hp. rewrite Es in Hp. apply rep_node in Hp. rewrite Hp. simpl. rewrite child_cell_opp, top_Td. simpl.
  pose proof Es as Eo. rewrite refocus in Eo. pose proof (read_red _ _ _ _ Hr Eo) as Hred. rewrite top_Td, is_red_Td in Hred. rewrite Hred. simpl.
  destruct (color_step t s _ d RB_RED RB_BLACK near o far Hr Eo) as (t1 & -> & V1). simpl.
  destruct (color_step t1 _ c d k RB_RED a p (Td d RB_BLACK near o far) (ev_rep _ _ _ _ V1)) as (t2 & -> & V2); [by rewrite <- refocus|]. simpl.
  destruct (rotate_step t2 _ c d RB_RED a p RB_BLACK near o far (ev_rep _ _ _ _ V2) eq_refl) as (t3 & -> & V3). simpl.
  pose proof (ev_rep _ _ _ _ V3) as H3. rewrite focus in H3. pose proof H3 as Hp3. apply rep_node in Hp3. rewrite Hp3. simpl.
  rewrite child_cell_opp, Ho'. simpl.
  destruct (erase_black_ok t3 _ (Fr d RB_BLACK o far :: c) d RB_RED p a near b a' o' H3 eq_refl Hd Ho') as (t4 & -> & V4).
  eexists. split; [done|]. eapply evolves_trans; [exact V1|]. eapply evolves_trans; [exact V2|]. eapply evolves_trans; [exact V3|].
  rewrite focus. exact V4.
Qed.

(** ** The loop *)

Lemma top_not_root t s f c a : rep t s -> s = plug (f :: c) a -> top a <> root_node t.
Proof.
  intros Hr ->. apply rep_plug in Hr as [Hnd Hroot _ _]. rewrite Hroot. destruct (last (f :: c)) as [g|] eqn:Hl; [|by apply last_None in Hl].
  destruct a as [|k l x r]; simpl; [done|]. intros [= ->]. apply nodup_hole in Hnd as (_ & _ & Hsep).
  apply (Hsep (f_node g)); [simpl; set_solver|]. clear - Hl. revert f Hl. induction c as [|h c IH]; intros f Hl.
  - injection Hl as ->. by apply hole_in.
  - rewrite fill_perm. specialize (IH h Hl). set_solver.
Qed.

Definition erase_from (fuel : nat) (t : rb_root) (node parent : option nid) : option rb_root :=
  '(t, node) ← erase_loop fuel t node parent; unless_null node (fun x => rb_set_black t x) t.

(** The loop stops at a red node and at the root, which then becomes black. *)
Lemma erase_stop fuel t s c a : rep t s -> s = plug c a -> is_red a = true \/ c = [] ->
  exists t', erase_from (S fuel) t (top a) (hole c) = Some t' /\ evolves t s t' (plug c (blacken a)).
Proof.
  intros Hr Es Hc. unfold erase_from. simpl. rewrite (null_or_black_ok _ _ _ _ Hr Es). simpl.
  assert (E : negb (is_red a) && negb (bool_decide (top a = root_node t)) = false).
  { destruct Hc as [->| ->]; [done|]. subst s. rewrite (rep_root _ _ Hr). simpl. rewrite bool_decide_eq_true_2 by done. by rewrite andb_false_r. }
  rewrite E. simpl. by eapply blacken_step.
Qed.

(** A turn that goes on, and one that breaks. *)
Lemma erase_turn fuel t s c f a t1 next s1 : rep t s -> s = plug (f :: c) a -> is_red a = false ->
  is_Some (top (f_other f)) -> erase_side (f_side f) t (f_node f) = Some (t1, next) -> rep t1 s1 ->
  erase_from (S fuel) t (top a) (hole (f :: c)) =
    match next with
    | Some x => n ← nodes t1 !! x; erase_from fuel t1 (Some x) (rb_parent n)
    | None => unless_null (top s1) (fun x => rb_set_black t1 x) t1
    end.
Proof.
  intros Hr Es Ha Ho He Hr1. unfold erase_from. simpl. rewrite (null_or_black_ok _ _ _ _ Hr Es), Ha. simpl.
  rewrite bool_decide_eq_false_2 by (by eapply top_not_root). simpl.
  destruct f as [d k p so]. simpl in *. pose proof Hr as Hp. rewrite Es in Hp. apply rep_node in Hp. simpl in Hp. rewrite Hp. simpl.
  rewrite side_of.
  - rewrite He. simpl. destruct next as [x|]; simpl; [by destruct (nodes t1 !! x)|]. by rewrite (rep_root _ _ Hr1).
  - intros Heq. destruct a as [|? ? y ?]; simpl in *; [destruct Ho; congruence|].
    eapply (other_child t s c d k (T _ _ y _) p so Hr); [exact Es|done|]. by rewrite <- Heq.
Qed.

Lemma blacken_root t s : rep t s ->
  exists t', unless_null (top s) (fun x => rb_set_black t x) t = Some t' /\ evolves t s t' (blacken s).
Proof. intros Hr. apply (blacken_step t s [] s Hr eq_refl). Qed.

Lemma erase_loop_ok c a res : del_fix c a res -> forall fuel t s, (S (length c) < fuel)%nat -> rep t s -> s = plug c a ->
  exists t', erase_from fuel t (top a) (hole c) = Some t' /\ evolves t s t' res.
Proof.
  induction 1 as [a|c a Ha|d k p so c a a' Ha Hso Hd|d k p so c a a' res Ha Hso Hd Hf IH|d k p near o far c a a' Ha Hd|d k p near o far c a a' Ha Hd];
    intros fuel t s Hfuel Hr Es; (destruct fuel as [|fuel]; [lia|]).
  - apply (erase_stop fuel t s [] a Hr Es). by right.
  - by apply erase_stop; [| |left].
  - destruct (erase_side_black t s c d k p a so true a' Hr Es Hso Hd) as (t1 & E1 & V1).
    rewrite (erase_turn fuel t s c (Fr d k p so) a t1 None _ Hr Es Ha (del_step_top _ _ _ _ _ _ _ Hd) E1 (ev_rep _ _ _ _ V1)).
    destruct (blacken_root t1 _ (ev_rep _ _ _ _ V1)) as (t2 & E2 & V2). exists t2. split; [done|]. by eapply evolves_trans.
  - destruct (erase_side_black t s c d k p a so false a' Hr Es Hso Hd) as (t1 & E1 & V1).
    rewrite (erase_turn fuel t s c (Fr d k p so) a t1 (Some p) _ Hr Es Ha (del_step_top _ _ _ _ _ _ _ Hd) E1 (ev_rep _ _ _ _ V1)).
    simpl in Hfuel. destruct (IH fuel t1 _ ltac:(lia) (ev_rep _ _ _ _ V1) eq_refl) as (t2 & E2 & V2). exists t2.
    split; [|by eapply evolves_trans]. inversion Hd; subst. pose proof (ev_rep _ _ _ _ V1) as H1. apply rep_node in H1. rewrite H1. simpl.
    rewrite parent_cell. by rewrite top_Td in E2.
  - destruct (erase_side_red t s c d k p a near o far true a' Hr Es Hd) as (t1 & E1 & V1).
    rewrite (erase_turn fuel t s c (Fr d k p _) a t1 None _ Hr Es Ha ltac:(simpl; by rewrite top_Td) E1 (ev_rep _ _ _ _ V1)).
    destruct (blacken_root t1 _ (ev_rep _ _ _ _ V1)) as (t2 & E2 & V2). exists t2. split; [done|]. by eapply evolves_trans.
  - destruct (erase_side_red t s c d k p a near o far false a' Hr Es Hd) as (t1 & E1 & V1).
    rewrite (erase_turn fuel t s c (Fr d k p _) a t1 (Some p) _ Hr Es Ha ltac:(simpl; by rewrite top_Td) E1 (ev_rep _ _ _ _ V1)).
    simpl in Hfuel. destruct fuel as [|fuel]; [lia|].
    assert (Ha' : is_red a' = true) by (inversion Hd; subst; by rewrite is_red_Td).
    destruct (erase_stop fuel t1 _ (Fr d RB_BLACK o far :: c) a' (ev_rep _ _ _ _ V1) (focus _ _ _ _ _ _) (or_introl Ha')) as (t2 & E2 & V2).
    exists t2. rewrite <- focus in V2. split; [|by eapply evolves_trans].
    inversion Hd; subst. pose proof (ev_rep _ _ _ _ V1) as H1. rewrite focus in H1. apply rep_node in H1. rewrite H1. simpl.
    rewrite parent_cell. by rewrite top_Td in E2.
Qed.

End RbtreeErase.

(** * Red-black trees: balance after a removal

    The turns of [__rb_erase_color] exist and restore the invariant of a tree one
    of whose subtrees is one black node short. *)

Module RbtreeDel.
Import Rbtree RbtreeRep RbtreeInsert RbtreeBal RbtreeErase.

Lemma Td_view d k l x r : exists a b, T k l x r = Td d k a x b.
Proof. destruct d; [by exists l, r|by exists r, l]. Qed.

(** A black tree of positive black height, seen from a side. *)
Lemma black_view d s n : is_red s = false -> bal s (S n) -> no_rr s ->
  exists near o far, s = Td d RB_BLACK near o far /\ bal near n /\ bal far n /\ no_rr near /\ no_rr far.
Proof.
  destruct s as [|[] l o r]; try done. intros _ Hb Hn. destruct (Td_view d RB_BLACK l o r) as (a & b & E). rewrite E in *.
  apply bal_Td in Hb as (m & [= <-] & H1 & H2). apply no_rr_Td in Hn as (_ & H3 & H4). by exists a, o, b.
Qed.

(** The black height of a node of colour [k] with children of height [n]. *)
Definition blacks (k : color) (n : nat) : nat := match k with RB_RED => n | RB_BLACK => S n end.

Lemma bal_Td_blacks d k a x b n : bal a n -> bal b n -> bal (Td d k a x b) (blacks k n).
Proof. intros H1 H2. apply bal_Td. destruct k; simpl; [done|]. by exists n. Qed.

Lemma bal_blacken t n : is_red t = true -> bal t n -> bal (blacken t) (S n).
Proof. destruct t as [|[] l x r]; try done. intros _ [H1 H2]. by exists n. Qed.

Lemma no_rr_blacken t : no_rr t -> no_rr (blacken t).
Proof. destruct t as [|[] l x r]; try done. simpl. naive_solver. Qed.

Lemma blacken_black t : is_red t = false -> blacken t = t.
Proof. by destruct t as [|[] l x r]. Qed.

Lemma is_red_blacken t : is_red (blacken t) = false.
Proof. by destruct t. Qed.

(** A turn at a black sibling. *)
Lemma del_step_exists d k p a s n : bal a n -> no_rr a -> is_red a = false -> is_red s = false -> bal s (S n) -> no_rr s ->
  exists b a', del_step d k p a s b a' /\
    (if b : bool then bal a' (blacks k (S n)) /\ no_rr a' else bal a' (blacks k n)) /\
    no_rr (blacken a') /\ is_red a' = bool_decide (k = RB_RED).
Proof.
  intros Ba Na Ra Rs Bs Ns. destruct (black_view d s n Rs Bs Ns) as (near & o & far & -> & Bn & Bf & Nn & Nf).
  assert (Hred : forall x u v, is_red (Td d k u x v) = bool_decide (k = RB_RED)) by (intros; rewrite is_red_Td; by destruct k).
  destruct (is_red far) eqn:Rf; [|destruct (is_red near) eqn:Rn].
  - exists true. eexists. split; [by apply ds_far|].
    assert (H1 : bal (Td d k (Td d RB_BLACK a p near) o (blacken far)) (blacks k (S n))).
    { apply bal_Td_blacks; [by apply (bal_Td_blacks d RB_BLACK a p near n)|by apply bal_blacken]. }
    assert (H2 : no_rr (Td d k (Td d RB_BLACK a p near) o (blacken far))).
    { rewrite no_rr_Td, no_rr_Td, is_red_Td, is_red_blacken. split; [done|]. split; [done|by apply no_rr_blacken]. }
    split; [done|]. split; [by apply no_rr_blacken|apply Hred].
  - destruct near as [|[] l y r]; try done. destruct (Td_view d RB_RED l y r) as (u & v & E). rewrite E in *.
    apply bal_Td in Bn as [Bu Bv]. apply no_rr_Td in Nn as (_ & Nu & Nv). exists true. eexists. split; [by apply ds_near|].
    assert (H1 : bal (Td d k (Td d RB_BLACK a p u) y (Td d RB_BLACK v o far)) (blacks k (S n))).
    { apply bal_Td_blacks; by apply (bal_Td_blacks d RB_BLACK _ _ _ n). }
    assert (H2 : no_rr (Td d k (Td d RB_BLACK a p u) y (Td d RB_BLACK v o far))).
    { rewrite no_rr_Td, !no_rr_Td, !is_red_Td. done. }
    split; [done|]. split; [by apply no_rr_blacken|apply Hred].
  - exists false. eexists. split; [by apply ds_recolor|]. split; [apply bal_Td_blacks; [done|by apply (bal_Td_blacks d RB_RED _ _ _ n)]|].
    split; [|apply Hred]. destruct d; simpl; naive_solver.
Qed.

Lemma root_black_plug f c t : root_black (f :: c) -> is_red (plug (f :: c) t) = false.
Proof.
  intros H. rewrite is_red_plug. unfold root_black in H. destruct (last (f :: c)) as [g|]; [|done]. by rewrite H.
Qed.

Lemma red_black_plug c t n N : no_rrc c -> root_black c -> balc c n N -> no_rr t -> bal t n -> is_red t = false -> red_black (plug c t).
Proof.
  intros H1 H2 H3 H4 H5 H6. split; [|split].
  - apply no_rr_plug. done.
  - exists N. apply bal_plug. by exists n.
  - destruct c as [|f c]; [done|]. by apply root_black_plug.
Qed.

(** The loop restores the invariant. *)
Lemma del_fix_rb c : forall a n N, no_rrc c -> root_black c -> balc c (S n) N -> no_rr (blacken a) -> bal a n ->
  exists res, del_fix c a res /\ red_black res.
Proof.
  induction c as [|[d k p s] c IH]; intros a n N Hc Hrb Hbc Na Ba.
  - exists (blacken a). split; [constructor|]. split; [done|]. split; [|apply is_red_blacken].
    destruct (is_red a) eqn:Ra; [exists (S n); by apply bal_blacken|]. exists n. by rewrite blacken_black.
  - destruct (is_red a) eqn:Ra.
    { eexists. split; [by apply df_red|]. eapply red_black_plug; try done; [by apply bal_blacken|apply is_red_blacken]. }
    rewrite blacken_black in Na by done.
    assert (Hrb' : root_black c) by (unfold root_black in *; by destruct c).
    simpl in Hc. destruct Hc as (Hk & Ns & Hc). destruct (is_red s) eqn:Rs.
    + destruct k; [destruct (Hk eq_refl); congruence|]. simpl in Hbc. destruct Hbc as [Bs Hbc].
      destruct s as [|[] l o r]; try done. destruct (Td_view d RB_RED l o r) as (near & far & E). rewrite E in *.
      apply bal_Td in Bs as [Bn Bf]. apply no_rr_Td in Ns as (Hnf & Nn & Nf). destruct (Hnf eq_refl) as [Rn Rf].
      destruct (del_step_exists d RB_RED p a near n Ba Na Ra Rn Bn Nn) as (b & a' & Hd & Hb & Nb & Rb).
      destruct b.
      * eexists. split; [by apply df_sib_done|]. destruct Hb as [Hb1 Hb2]. apply (blacken_rb _ N).
        -- apply no_rr_plug. rewrite no_rr_Td, is_red_Td. done.
        -- apply bal_plug. exists (S (S n)). split; [|done]. by apply (bal_Td_blacks d RB_BLACK _ _ _ (S n)).
      * eexists. split; [by apply df_sib_up|]. eapply (red_black_plug _ _ (S (S n))); try done.
        -- rewrite no_rr_Td. done.
        -- apply (bal_Td_blacks d RB_BLACK _ _ _ (S n)); [|done]. by apply bal_blacken.
        -- by rewrite is_red_Td.
    + assert (Hbs : bal s (S n) /\ balc c (blacks k (S n)) N) by (destruct k; done). destruct Hbs as [Bs Hbc'].
      destruct (del_step_exists d k p a s n Ba Na Ra Rs Bs Ns) as (b & a' & Hd & Hb & Nb & Rb).
      destruct b.
      * eexists. split; [by apply df_done|]. destruct Hb as [Hb1 Hb2]. apply (blacken_rb _ N).
        -- apply no_rr_plug. split; [done|]. split; [done|]. rewrite Rb. destruct k; [|done]. destruct (Hk eq_refl) as [_ Hh]. by rewrite Hh.
        -- apply bal_plug. by exists (blacks k (S n)).
      * destruct (IH a' (blacks k n) N) as (res & Hr & Hres); try done; [by destruct k|]. exists res. split; [|done]. by eapply df_up.
Qed.

End RbtreeDel.
