(* ===== verification/RbtreeOps.v ===== *)
(** * Red-black trees: linking and unlinking nodes

    What [rb_link_node], [rb_replace_node] and the first half of [rb_erase] do to
    the tree in the store. *)

From Stdlib Require Import ZArith Lia.
From stdpp Require Import base option gmap list sorting.
From S2P Require Import Prelude Rbtree RbtreeRep RbtreeInsert RbtreeErase.

Module RbtreeOps.
Import Rbtree RbtreeRep RbtreeInsert RbtreeBal RbtreeErase RbtreeDel.

(** ** A node with at most one child *)

(** A change of the link at a hole leaves the rest alone. *)
Lemma set_link_step t c d x y : NoDup (pre c ++ post c) -> x ∉ pre c ++ post c -> holds (nodes t) (flatc c (Some x)) ->
  exists t', set_link t (hole c) d x y = Some t' /\ holds (nodes t') (flatc c y) /\
    root_node t' = (match c with [] => y | _ => root_node t end) /\ forall z, z ∉ pre c ++ post c -> nodes t' !! z = nodes t !! z.
Proof.
  intros H1 H2 H3. destruct (set_link_ok t c d x (hole c) y H1 H2 H3 eq_refl) as (t' & E & Hc & Hr & Hm).
  exists t'. split; [done|]. split; [done|]. split; [done|]. intros z Hz. destruct c as [|f c]; rewrite Hm; [done|].
  apply lookup_insert_ne. intros Hq. apply Hz, hole_in. simpl. by rewrite Hq.
Qed.

Lemma root_at t c s y : rep_at t c s ->
  match c with [] => y | _ => root_node t end = match last c with Some f => Some (f_node f) | None => y end.
Proof.
  intros [_ Hr _ _]. destruct c as [|f c]; [done|]. rewrite Hr. destruct (last (f :: c)) eqn:Hl; [done|]. by apply last_None in Hl.
Qed.

Lemma splice_ok t s c d k x ch : rep t s -> s = plug c (Td d k E x ch) ->
  exists t1 t2, unless_null (top ch) (fun z => rb_set_parent t z (hole c)) t = Some t1 /\
    set_link t1 (hole c) Lt x (top ch) = Some t2 /\ rep t2 (plug c ch) /\ same_but t t2 (elems (plug c ch)) /\
    (forall z, z ∉ elems ch -> nodes t1 !! z = nodes t !! z) /\ x ∉ elems (plug c ch) /\ holds (nodes t1) (flatc c (Some x)).
Proof.
  intros Hr ->. apply rep_plug in Hr as Hra. pose proof Hra as [Hnd Hroot Hc Ht].
  rewrite holds_Td in Ht. destruct Ht as (Hx & _ & Hch). rewrite top_Td in Hc.
  assert (Hp : pre c ++ elems (Td d k E x ch) ++ post c ≡ₚ x :: elems ch ++ pre c ++ post c) by (destruct d; simpl; solve_Permutation).
  rewrite Hp in Hnd. apply NoDup_cons in Hnd as [Hx1 Hnd]. apply NoDup_app in Hnd as (N1 & N2 & N3).
  destruct (reparent_step t (Some x) (hole c) ch Hch N1) as (t1 & E1 & R1 & Hch1 & K1).
  assert (Hc1 : holds (nodes t1) (flatc c (Some x))).
  { eapply holds_same; [exact Hc|]. intros z Hz. apply K1. intros Hz'. apply (N2 z Hz'). rewrite flatc_fst in Hz. set_solver. }
  destruct (set_link_step t1 c Lt x (top ch)) as (t2 & E2 & Hc2 & R2 & K2); [done|set_solver|done|].
  exists t1, t2. split; [done|]. split; [done|]. split.
  - apply rep_plug. split.
    + apply nodup_hole. done.
    + rewrite R2, R1. by apply (root_at t c (Td d k E x ch)).
    + done.
    + eapply holds_same; [exact Hch1|]. intros z Hz%flat_fst. by apply K2, N2.
  - split; [|split; [done|split; [|done]]].
    + intros z Hz. rewrite elems_plug in Hz. rewrite K2 by set_solver. apply K1. set_solver.
    + rewrite elems_plug. set_solver.
Qed.

Lemma erase_one_ok t s c d k x ch : rep t s -> s = plug c (Td d k E x ch) ->
  exists n t', nodes t !! x = Some n /\ erase_one t x n (top ch) = Some (t', top ch, hole c, k) /\
    rep t' (plug c ch) /\ same_but t t' (elems (plug c ch)) /\ x ∉ elems (plug c ch).
Proof.
  intros Hr Es. destruct (splice_ok t s c d k x ch Hr Es) as (t1 & t2 & E1 & E2 & Hr2 & S2 & _ & Hx & _).
  pose proof Hr as Hn. rewrite Es in Hn. apply rep_node in Hn. eexists _, t2. split; [exact Hn|].
  unfold erase_one. rewrite parent_cell, color_cell, E1. simpl. by rewrite E2.
Qed.

(** ** Putting a node in the place of another *)

Lemma replace_core t s c k l x r y : rep t s -> s = plug c (T k l x r) -> y ∉ elems s ->
  exists t1 t2 t3, set_link t (hole c) Lt x (Some y) = Some t1 /\
    unless_null (top l) (fun z => rb_set_parent t1 z (Some y)) t1 = Some t2 /\
    unless_null (top r) (fun z => rb_set_parent t2 z (Some y)) t2 = Some t3 /\
    nodes t3 !! x = nodes t !! x /\ same_but t t3 (elems s) /\
    forall m, m !! y = nodes t !! x -> (forall z, z <> y -> m !! z = nodes t3 !! z) ->
      rep (mk_root (root_node t3) m) (plug c (T k l y r)).
Proof.
  intros Hr -> Hy. apply rep_plug in Hr as Hra. pose proof Hra as [Hnd Hroot Hc Ht]. simpl in Hc, Ht. rewrite holds_cons, holds_app in Ht.
  destruct Ht as (Hx & Hl & Hrr). rewrite elems_plug in Hy |- *. simpl in Hy |- *.
  assert (Hp : forall z, pre c ++ (elems l ++ z :: elems r) ++ post c ≡ₚ z :: elems l ++ elems r ++ pre c ++ post c) by (intros z; solve_Permutation).
  pose proof Hnd as Hnd0. simpl in Hnd0. rewrite Hp in Hnd0. apply NoDup_cons in Hnd0 as [Hx1 Hnd1].
  pose proof Hnd1 as Hnd2. apply NoDup_app in Hnd2 as (N1 & N2 & (N3 & N4 & N5)%NoDup_app).
  destruct (set_link_step t c Lt x (Some y)) as (t1 & E1 & Hc1 & R1 & K1); [done|set_solver|done|].
  destruct (reparent_step t1 (Some x) (Some y) l) as (t2 & E2 & R2 & Hl2 & K2).
  { eapply holds_same; [exact Hl|]. intros z Hz%flat_fst. apply K1. specialize (N2 z Hz). set_solver. }
  { done. }
  destruct (reparent_step t2 (Some x) (Some y) r) as (t3 & E3 & R3 & Hr3 & K3).
  { eapply holds_same; [exact Hrr|]. intros z Hz%flat_fst. rewrite K2, K1; [done| |]; intros H; [by apply (N4 z)|apply (N2 z); set_solver]. }
  { done. }
  exists t1, t2, t3. split; [done|]. split; [done|]. split; [done|]. split; [|split].
  - rewrite K3, K2, K1; set_solver.
  - intros z Hz. rewrite K3, K2, K1; set_solver.
  - intros m Hmy Hm. apply rep_plug. split; simpl.
    + rewrite Hp. constructor; [|done]. set_solver.
    + rewrite R3, R2, R1. by apply (root_at t c (T k l x r)).
    + eapply holds_same; [exact Hc1|]. intros z Hz%flatc_fst. assert (z <> y) by (intros ->; set_solver).
      rewrite Hm by done. rewrite K3 by (intros H'; apply (N4 z H'); set_solver). rewrite K2 by (intros H'; apply (N2 z H'); set_solver). done.
    + rewrite holds_cons, holds_app. split; [by rewrite Hmy|]. split.
      * eapply holds_same; [exact Hl2|]. intros z Hz%flat_fst. assert (z <> y) by (intros ->; set_solver).
        rewrite Hm by done. apply K3. intros H'. apply (N2 z Hz). set_solver.
      * eapply holds_same; [exact Hr3|]. intros z Hz%flat_fst. assert (z <> y) by (intros ->; set_solver). by apply Hm.
Qed.

Lemma replace_node_ok t s c k l x r y : rep t s -> s = plug c (T k l x r) -> y ∉ elems s ->
  exists t', rb_replace_node t x y = Some t' /\ rep t' (plug c (T k l y r)) /\ same_but t t' (y :: elems s).
Proof.
  intros Hr Es Hy. destruct (replace_core t s c k l x r y Hr Es Hy) as (t1 & t2 & t3 & E1 & E2 & E3 & Hx & S3 & Hm).
  pose proof Hr as Hn. rewrite Es in Hn. apply (rep_node t c Lt) in Hn. simpl in Hn.
  unfold rb_replace_node. rewrite Hn. simpl. rewrite E1. simpl. rewrite E2. simpl. rewrite E3. simpl. rewrite Hx, Hn. simpl.
  eexists. split; [done|]. split.
  - apply Hm; [by rewrite lookup_insert_eq, Hn|]. intros z Hz. by apply lookup_insert_ne.
  - intros z Hz. simpl. rewrite lookup_insert_ne by set_solver. apply S3. set_solver.
Qed.

(** ** How many nodes there are *)

Lemma rep_in t s x : rep t s -> x ∈ elems s -> is_Some (nodes t !! x).
Proof.
  intros [_ _ Hh] Hx. apply (flat_fst None), list_elem_of_fmap in Hx as ([y n] & -> & Hy). apply Hh in Hy. simpl. by eexists.
Qed.

Lemma size_store t l : NoDup l -> (forall x, x ∈ l -> is_Some (nodes t !! x)) -> (length l <= size (nodes t))%nat.
Proof.
  intros Hnd Hin. rewrite <- (size_list_to_set (C := gset nid) l Hnd), <- (size_dom (D := gset nid)).
  apply subseteq_size. intros x Hx%elem_of_list_to_set. by apply elem_of_dom, Hin.
Qed.

Lemma rep_size t s : rep t s -> (length (elems s) <= size (nodes t))%nat.
Proof. intros Hr. apply size_store; [apply Hr|]. intros x. by apply rep_in. Qed.

Lemma rep_size_out t s x : rep t s -> x ∉ elems s -> is_Some (nodes t !! x) -> (length (elems s) < size (nodes t))%nat.
Proof.
  intros Hr Hx Hs. apply (size_store t (x :: elems s)); [constructor; [done|apply Hr]|].
  intros y [->|Hy]%elem_of_cons; [done|]. by eapply rep_in.
Qed.

Lemma ctx_length c t : (length c <= length (elems (plug c t)))%nat.
Proof.
  rewrite elems_plug, !length_app. assert (length c <= length (pre c) + length (post c))%nat; [|lia].
  induction c as [|[[] k x s] c IH]; simpl; [lia| |]; unfold before, behind; simpl; rewrite ?length_app; simpl; rewrite ?length_app; simpl; lia.
Qed.

Lemma elems_split s x : x ∈ elems s -> exists c k l r, s = plug c (T k l x r).
Proof.
  assert (H : forall s c, x ∈ elems s -> exists c' k l r, plug c s = plug c' (T k l x r)).
  { clear s. intros s. induction s as [|k l IHl y r IHr]; intros c; simpl; [set_solver|].
    rewrite elem_of_app, elem_of_cons. intros [Hx|[->|Hx]].
    - destruct (IHl (Fr Lt k y r :: c) Hx) as (c' & k' & l' & r' & E). by exists c', k', l', r'.
    - by exists c, k, l, r.
    - destruct (IHr (Fr Rt k y l :: c) Hx) as (c' & k' & l' & r' & E). by exists c', k', l', r'. }
  intros Hx. apply (H s [] Hx).
Qed.

(** ** The end of a chain of links on one side *)

Definition all_side (d : side) (c : ctx) : Prop := Forall (fun f => f_side f = d) c.

Lemma far_ok d a : forall c t s x fuel, rep t s -> s = plug c a -> top a = Some x -> (length (elems a) <= fuel)%nat ->
  exists cm k y b, far d fuel t x = Some y /\ a = plug cm (Td d k E y b) /\ all_side d cm.
Proof.
  assert (H : forall n a c t s x fuel, (length (elems a) <= n)%nat -> rep t s -> s = plug c a -> top a = Some x -> (length (elems a) <= fuel)%nat ->
    exists cm k y b, far d fuel t x = Some y /\ a = plug cm (Td d k E y b) /\ all_side d cm).
  { clear a. induction n as [|n IH]; intros a c t s x fuel Hn Hr Es Hx Hf.
    { destruct a; simpl in *; [done|]. rewrite length_app in Hn. simpl in Hn. lia. }
    destruct a as [|k l z r]; [done|]. injection Hx as ->. destruct (Td_view d k l x r) as (a & b & E). rewrite E in *.
    assert (Hlen : length (elems (Td d k a x b)) = S (length (elems a) + length (elems b))).
    { destruct d; simpl; rewrite length_app; simpl; lia. }
    destruct fuel as [|fuel]; [lia|]. simpl. pose proof Hr as Hn'. rewrite Es in Hn'. apply rep_node in Hn'. rewrite Hn'. simpl.
    rewrite child_cell_same. destruct (top a) as [y|] eqn:Ha.
    - destruct (IH a (Fr d k x b :: c) t s y fuel) as (cm & k' & y' & b' & E1 & E2 & E3); try done; try lia.
      exists (cm ++ [Fr d k x b]), k', y', b'. split; [done|]. split; [|apply Forall_app; split; [done|by constructor]].
      rewrite plug_app, <- E2. done.
    - destruct a; [|done]. exists [], k, x, b. split; [done|]. split; [done|constructor]. }
  intros. by eapply (H (length (elems a))).
Qed.

Lemma pre_left cm : all_side Lt cm -> pre cm = [].
Proof. induction 1 as [|[[] k x s] cm Hf _ IH]; [done|simpl; by rewrite IH|done]. Qed.

End RbtreeOps.

(** * Red-black trees: what the routines promise

    Insertion, removal, replacement, traversal and search, on any red-black tree
    in the store. *)

Module RbtreeTop.
Import Rbtree RbtreeRep RbtreeInsert RbtreeBal RbtreeErase RbtreeDel RbtreeOps.

#[local] Arguments far : simpl never.
#[local] Arguments climb : simpl never.

(** ** Removal *)

(** The relink of the successor's child, written out by cases in the code. *)
Lemma relink_two t1 cm k x l c y h : let c1 := cm ++ Fr Rt k x l :: c in
  all_side Lt cm -> NoDup (pre c1 ++ post c1) -> y ∉ pre c1 ++ post c1 -> holds (nodes t1) (flatc c1 (Some y)) ->
  exists p, hole c1 = Some p /\
    (if decide (p = x) then t ← set_child t1 p Rt h; Some (t, y) else t ← set_child t1 p Lt h; Some (t, p))
    = (t2 ← set_link t1 (hole c1) Lt y h; q ← hole (cm ++ Fr Rt k y l :: c); Some (t2, q)).
Proof.
  intros c1 Hcm Hnd Hy Hh. destruct cm as [|[d kf p so] cm]; simpl in *.
  - exists x. split; [done|]. rewrite decide_True by done. rewrite holds_cons in Hh. destruct Hh as [Hx _]. rewrite Hx. simpl.
    rewrite decide_False; [done|]. destruct l as [|? ? z ?]; simpl; [done|]. intros [= ->]. apply Hy. simpl.
    unfold before. simpl. set_solver.
  - exists p. split; [done|]. apply Forall_cons in Hcm as [Hd _]. simpl in Hd. subst d.
    rewrite holds_cons in Hh. destruct Hh as [Hp _]. rewrite Hp. simpl. rewrite (decide_True (P := Some y = Some y)) by done.
    rewrite decide_False; [done|]. intros ->. unfold before, behind in Hnd. simpl in Hnd.
    rewrite pre_app, post_app in Hnd. simpl in Hnd. unfold before in Hnd. simpl in Hnd.
    clear - Hnd. rewrite <- !app_assoc in Hnd. simpl in Hnd. apply NoDup_app in Hnd as (_ & _ & Hnd).
    apply NoDup_app in Hnd as (_ & _ & [Hx _]%NoDup_cons). apply Hx. set_solver.
Qed.

Lemma erase_two_ok t s c k l x r : rep t s -> s = plug c (T k l x r) -> is_Some (top l) -> is_Some (top r) ->
  exists t' cm y ry ky, erase_two t x (mk_node (hole c) k (top r) (top l))
      = Some (t', top ry, hole (cm ++ Fr Rt k y l :: c), ky) /\
    all_side Lt cm /\ r = plug cm (T ky E y ry) /\
    rep t' (plug (cm ++ Fr Rt k y l :: c) ry) /\ same_but t t' (elems s) /\ is_Some (nodes t' !! x).
Proof.
  intros Hr Es [lx Hl] [rx Hrx]. unfold erase_two. simpl. rewrite Hrx. simpl.
  assert (Er : s = plug (Fr Rt k x l :: c) r) by done.
  assert (Hsz : (length (elems r) <= S (size (nodes t)))%nat).
  { pose proof (rep_size t s Hr) as Hs. rewrite Er, elems_plug, !length_app in Hs. lia. }
  destruct (far_ok Lt r _ t s rx _ Hr Er Hrx Hsz) as (cm & ky & y & ry & Hfar & Err & Hcm). simpl in Err. rewrite Hfar. simpl.
  set (c1 := cm ++ Fr Rt k x l :: c). assert (Ey : s = plug c1 (Td Lt ky E y ry)).
  { rewrite Er, Err. subst c1. by rewrite plug_app. }
  pose proof Hr as Hy. rewrite Ey in Hy. apply rep_node in Hy. simpl in Hy. rewrite Hy. simpl.
  destruct (splice_ok t s c1 Lt ky y ry Hr Ey) as (t1 & t2 & E1 & E2 & Hr2 & S2 & K1 & Hny & Hc1).
  pose proof Hr as Hra. rewrite Ey in Hra. apply rep_plug in Hra as [Hnd _ _ _]. apply nodup_hole in Hnd as (_ & Hndc & Hsep).
  destruct (relink_two t1 cm k x l c y (top ry) Hcm Hndc) as (p & Hp & Erl); [apply Hsep; set_solver|done|].
  fold c1 in Hp, Erl. rewrite Hp in E1, E2, Erl |- *. simpl. rewrite E1. simpl. rewrite Erl, E2. simpl.
  destruct (hole (cm ++ Fr Rt k y l :: c)) as [q|] eqn:Hq; [|by destruct cm]. simpl.
  set (r' := plug cm ry). assert (Er2 : plug c1 ry = plug c (T k l x r')) by (subst c1 r'; by rewrite plug_app).
  rewrite Er2 in Hr2, Hny, S2. pose proof Hr2 as Hx2. apply (rep_node t2 c Lt) in Hx2. simpl in Hx2. rewrite Hx2. simpl.
  assert (Hy2 : nodes t2 !! y = nodes t !! y) by (by apply S2). rewrite Hy in Hy2.
  rewrite (update_some _ _ _ _ Hy2). simpl. set (o := mk_node (hole c) k (top r') (top l)). set (t3 := mk_root _ _).
  assert (Hr3 : rep t3 (plug c (T k l x r'))).
  { destruct Hr2 as [A B C]. split; [done|done|]. apply holds_insert; [done|]. by rewrite flat_fst. }
  destruct (replace_core t3 _ c k l x r' y Hr3 eq_refl Hny) as (t4 & t5 & t6 & E4 & E5 & E6 & Hx6 & S6 & Hm).
  rewrite E4. simpl. rewrite Hl in E5 |- *. simpl in E5 |- *. rewrite E5. simpl. rewrite E6. simpl.
  assert (Hsub : forall z, z ∈ elems (plug c (T k l x r')) -> z ∈ elems s).
  { intros z. rewrite Ey, <- Er2, !elems_plug. simpl. set_solver. }
  exists t6, cm, y, ry, ky. split; [by rewrite Hq|]. split; [done|]. split; [done|]. split.
  - rewrite plug_app. destruct t6 as [r6 m6]. simpl in *. apply Hm.
    + rewrite S6 by done. simpl. rewrite lookup_insert_eq, lookup_insert_ne; [done|].
      intros ->. apply Hny. rewrite elems_plug. simpl. set_solver.
    + done.
  - split.
    + intros z Hz. rewrite S6 by auto. subst t3. simpl.
      rewrite lookup_insert_ne; [by apply S2; auto|]. intros ->. apply Hz. rewrite Ey, elems_plug. simpl. set_solver.
    + rewrite Hx6. apply (rep_in _ _ _ Hr3). rewrite elems_plug. simpl. set_solver.
Qed.

(** The balance of a context does not depend on which nodes are in it. *)
Lemma rename_ctx cm d k x y l c n N : no_rrc (cm ++ Fr d k x l :: c) -> root_black (cm ++ Fr d k x l :: c) -> balc (cm ++ Fr d k x l :: c) n N ->
  no_rrc (cm ++ Fr d k y l :: c) /\ root_black (cm ++ Fr d k y l :: c) /\ balc (cm ++ Fr d k y l :: c) n N.
Proof.
  intros H1 H2 H3. split; [|split].
  - clear - H1. induction cm as [|[d' k' x' s'] cm IH]; simpl in *; [done|]. destruct H1 as (A & B & C). split; [|auto].
    intros Hk. destruct (A Hk) as [A1 A2]. split; [done|]. by destruct cm.
  - clear - H2. unfold root_black in *. rewrite !last_app in *. destruct c as [|f c]; [done|]. simpl in *. done.
  - clear - H3. revert n H3. induction cm as [|[d' [] x' s'] cm IH]; intros n; simpl; [by destruct k| |]; intros [A B]; split; auto.
Qed.

(** A node with at most one child leaves a tree that is fine or that the loop
    repairs. *)
Lemma unlink_rb c d k x ch : red_black (plug c (Td d k E x ch)) ->
  no_rrc c /\ (c <> [] -> root_black c) /\ exists N, match k with
    | RB_RED => balc c 0 N /\ ch = E
    | RB_BLACK => balc c 1 N /\ bal ch 0 /\ no_rr ch end.
Proof.
  intros (H1 & [N H2] & H3). apply no_rr_plug in H1 as (Hn & Hc & Hh). apply bal_plug in H2 as (n & Hb & Hbc).
  apply no_rr_Td in Hn as (Hk & _ & Nch). split; [done|]. split.
  { intros Hne. destruct c as [|f c]; [done|]. rewrite is_red_plug in H3. unfold root_black. destruct (last (f :: c)) as [g|]; [|done].
    apply bool_decide_eq_false in H3. by destruct (f_color g). }
  exists N. destruct k; apply bal_Td in Hb.
  - destruct Hb as [-> Hch]. split; [done|]. destruct (Hk eq_refl) as [_ Rch]. destruct ch as [|[] ? ? ?]; try done. by destruct Hch as (? & ? & _).
  - destruct Hb as (m & -> & -> & Hch). done.
Qed.

Lemma root_black_or c : (c <> [] -> root_black c) -> root_black c.
Proof. intros H. destruct c as [|f c]; [done|]. by apply H. Qed.

(** What is left to do after the node was unlinked. *)
Lemma erase_color_ok t c k ch x N : rep t (plug c ch) -> x ∉ elems (plug c ch) -> is_Some (nodes t !! x) ->
  no_rrc c -> root_black c ->
  match k with RB_RED => balc c 0 N /\ ch = E | RB_BLACK => balc c 1 N /\ bal ch 0 /\ no_rr ch end ->
  exists t' s', (if decide (k = RB_BLACK) then __rb_erase_color t (top ch) (hole c) else Some t) = Some t' /\
    rep t' s' /\ red_black s' /\ elems s' = elems (plug c ch) /\ same_but t t' (elems (plug c ch)).
Proof.
  intros Hr Hx Hs Hc Hrb Hk. destruct k; simpl.
  - destruct Hk as [Hbc ->]. exists t, (plug c E). split; [done|]. split; [done|]. split; [|split; [done|apply same_but_refl]].
    by apply (red_black_plug c E 0 N).
  - destruct Hk as (Hbc & Bch & Nch). destruct (del_fix_rb c ch 0 N Hc Hrb Hbc (no_rr_blacken _ Nch) Bch) as (res & Hf & Hres).
    assert (Hfuel : (S (length c) < S (size (nodes t)))%nat).
    { pose proof (rep_size_out t _ x Hr Hx Hs). pose proof (ctx_length c ch). lia. }
    destruct (erase_loop_ok c ch res Hf _ t _ Hfuel Hr eq_refl) as (t' & E & V). exists t', res.
    split; [exact E|]. split; [apply V|]. split; [done|]. split; apply V.
Qed.

Lemma plug_del c l r x k : NoDup (elems (plug c (T k l x r))) ->
  list_del x (elems (plug c (T k l x r))) = pre c ++ elems l ++ elems r ++ post c.
Proof.
  rewrite elems_plug. simpl. intros Hnd.
  replace (pre c ++ (elems l ++ x :: elems r) ++ post c) with ((pre c ++ elems l) ++ x :: (elems r ++ post c)) in *
    by (by rewrite <- !app_assoc).
  apply NoDup_app in Hnd as (_ & H1 & [H2 _]%NoDup_cons).
  rewrite list_del_split; [by rewrite <- !app_assoc| |done]. intros Hin. apply (H1 x Hin). set_solver.
Qed.

Lemma rb_erase_ok t s x : rep t s -> red_black s -> x ∈ elems s ->
  exists t' s', rb_erase t x = Some t' /\ rep t' s' /\ red_black s' /\ elems s' = list_del x (elems s) /\ same_but t t' (elems s).
Proof.
  intros Hr Hrb Hx. destruct (elems_split s x Hx) as (c & k & l & r & Es).
  pose proof (rep_nodup _ _ Hr) as Hnd. rewrite Es in Hnd. pose proof (plug_del c l r x k Hnd) as Hdel. rewrite <- Es in Hdel.
  pose proof Hr as Hn. rewrite Es in Hn. apply (rep_node t c Lt) in Hn. simpl in Hn. unfold rb_erase. rewrite Hn. simpl.
  assert (Hone : forall d ch, s = plug c (Td d k E x ch) -> elems l ++ elems r = elems ch ->
    exists t' s', ('(t1, child, parent, color) ← erase_one t x (mk_node (hole c) k (top r) (top l)) (top ch);
       if decide (color = RB_BLACK) then __rb_erase_color t1 child parent else Some t1) = Some t' /\
      rep t' s' /\ red_black s' /\ elems s' = list_del x (elems s) /\ same_but t t' (elems s)).
  { intros d ch E Hch. destruct (erase_one_ok t s c d k x ch Hr E) as (n' & t1 & En & E1 & Hr1 & S1 & Hx1). rewrite Hn in En. injection En as <-.
    rewrite E1. simpl. rewrite E in Hrb. destruct (unlink_rb c d k x ch Hrb) as (Hc & Hrc & N & Hk).
    assert (Hs1 : is_Some (nodes t1 !! x)) by (rewrite S1 by done; by rewrite Hn).
    destruct (erase_color_ok t1 c k ch x N Hr1 Hx1 Hs1 Hc (root_black_or c Hrc) Hk) as (t' & s' & E' & R' & B' & L' & S').
    exists t', s'. split; [done|]. split; [done|]. split; [done|].
    assert (Hl : elems (plug c ch) = list_del x (elems s)) by (rewrite Hdel, elems_plug, <- Hch; by rewrite <- app_assoc).
    split; [by rewrite L'|]. rewrite Hl in S1, S'. intros z Hz. rewrite S', S1; [done| |]; rewrite elem_of_list_del; tauto. }
  destruct l as [|kl ll lx lr]; [apply (Hone Lt r); done|]. destruct r as [|kr rl rx rr]; [apply (Hone Rt (T kl ll lx lr)); [done|by rewrite app_nil_r]|].
  set (l := T kl ll lx lr) in *. set (r := T kr rl rx rr) in *. simpl top.
  destruct (erase_two_ok t s c k l x r Hr Es) as (t1 & cm & y & ry & ky & E1 & Hcm & Er & Hr1 & S1 & Hs1); [done|done|].
  simpl in E1. rewrite E1. simpl. clearbody l r.
  set (c1 := cm ++ Fr Rt k x l :: c). set (c2 := cm ++ Fr Rt k y l :: c) in *.
  assert (Ey : s = plug c1 (Td Lt ky E y ry)) by (subst c1; rewrite plug_app; simpl; rewrite <- Er; done).
  rewrite Ey in Hrb. destruct (unlink_rb c1 Lt ky y ry Hrb) as (Hc & Hrc & N & Hk).
  assert (Hc2 : no_rrc c2 /\ root_black c2 /\ forall n, balc c1 n N -> balc c2 n N).
  { assert (Hex : exists n, balc c1 n N) by (destruct ky; [exists 0%nat|exists 1%nat]; tauto). destruct Hex as [n0 Hn0].
    destruct (rename_ctx cm Rt k x y l c n0 N Hc (root_black_or _ Hrc) Hn0) as (A & B & _). split; [done|]. split; [done|].
    intros n Hb. by apply (rename_ctx cm Rt k x y l c n N Hc (root_black_or _ Hrc) Hb). }
  destruct Hc2 as (Hc2 & Hrc2 & Hbc2).
  assert (Hl2 : elems (plug c2 ry) = list_del x (elems s)).
  { rewrite Hdel. subst c2. rewrite plug_app. simpl. rewrite elems_plug. unfold fill. simpl. rewrite Er.
    rewrite !elems_plug. simpl. rewrite (pre_left cm Hcm). simpl. rewrite <- !app_assoc. simpl. by rewrite <- !app_assoc. }
  assert (Hx1 : x ∉ elems (plug c2 ry)) by (rewrite Hl2; rewrite elem_of_list_del; tauto).
  destruct (erase_color_ok t1 c2 ky ry x N Hr1 Hx1 Hs1 Hc2 Hrc2) as (t' & s' & E' & R' & B' & L' & S').
  { destruct ky; destruct Hk as [A B]; split; auto. }
  exists t', s'. split; [done|]. split; [done|]. split; [done|]. split; [by rewrite L'|].
  rewrite Hl2 in S'. intros z Hz. rewrite S', S1; [done|done|]. rewrite elem_of_list_del. tauto.
Qed.

End RbtreeTop.
