(* ===== verification/RbtreeWalk.v ===== *)
(** * Red-black trees: insertion, traversal and search *)

From Stdlib Require Import ZArith Lia.
From stdpp Require Import base option gmap sorting list.
From S2P Require Import Prelude Rbtree RbtreeRep RbtreeInsert RbtreeErase RbtreeOps.

Module RbtreeWalk.
Import Rbtree RbtreeRep RbtreeInsert RbtreeBal RbtreeErase RbtreeDel RbtreeOps.

#[local] Arguments far : simpl never.

(** ** Insertion *)

Definition hole_side (c : ctx) (d : side) : Prop := match c with [] => True | f :: _ => f_side f = d end.

Lemma link_node_ok t s c d y : rep t s -> s = plug c E -> y ∉ elems s -> hole_side c d ->
  exists t', rb_link_node t y (hole c) d = Some t' /\ rep t' (plug c (T RB_RED E y E)) /\ same_but t t' (y :: elems s).
Proof.
  intros Hr Es Hy Hd. pose proof Hr as Hra. rewrite Es in Hra. apply rep_plug in Hra. pose proof Hra as [Hnd Hroot Hc _]. simpl in Hc.
  rewrite Es, elems_plug in Hy |- *. simpl in Hy, Hnd |- *. unfold rb_link_node.
  assert (Hc1 : forall n, holds (<[y := n]> (nodes t)) (flatc c None)) by (intros n; apply holds_insert_flatc; set_solver).
  destruct c as [|[df k p so] c]; simpl hole.
  - eexists. split; [done|]. split; [|by apply same_but_insert; set_solver].
    apply (rep_plug _ []). split; simpl; [apply NoDup_singleton|done|apply holds_nil|].
    rewrite holds_cons. split; [by rewrite lookup_insert_eq|apply holds_nil].
  - simpl in Hd. subst df. rewrite fill_perm in Hnd. simpl in Hnd. specialize (Hc1 (mk_node (Some p) RB_RED None None)).
    pose proof Hc1 as Hp. simpl in Hp. rewrite holds_cons in Hp. destruct Hp as [Hp _].
    rewrite (set_child_some (mk_root _ _) _ _ _ _ Hp). simpl. eexists. split; [done|].
    replace (with_child d (Some y) (cell (hole c) d k None (top so))) with (cell (hole c) d k (Some y) (top so)) by (by destruct d).
    assert (Hpy : p <> y). { intros ->. apply Hy. apply (hole_in (Fr d k y so :: c) y). done. }
    split.
    + apply (rep_plug _ (Fr d k p so :: c)). split.
      * apply nodup_hole. split; [apply NoDup_singleton|]. split; [by rewrite fill_perm|]. set_solver.
      * simpl root_node. rewrite Hroot. destruct (last (Fr d k p so :: c)) eqn:Hl; [done|]. by apply last_None in Hl.
      * apply (relink_ok _ (Fr d k p so) c None (Some y)); [done|]. done.
      * simpl. rewrite holds_cons. split; [|apply holds_nil]. by rewrite lookup_insert_ne, lookup_insert_eq.
    + intros z Hz. simpl. rewrite !lookup_insert_ne; [done|set_solver|]. intros ->. apply Hz. right.
      apply (hole_in (Fr d k z so :: c) z). done.
Qed.

Lemma insert_ok t s c d y : rep t s -> red_black s -> s = plug c E -> y ∉ elems s -> hole_side c d ->
  exists t1 t2 s', rb_link_node t y (hole c) d = Some t1 /\ rb_insert_color t1 y = Some t2 /\
    rep t2 s' /\ red_black s' /\ elems s' = pre c ++ y :: post c /\ same_but t t2 (y :: elems s).
Proof.
  intros Hr Hrb Es Hy Hd. destruct (link_node_ok t s c d y Hr Es Hy Hd) as (t1 & E1 & Hr1 & S1).
  rewrite Es in Hrb. destruct (ins_fix_ok c y Hrb) as (res & Hf & Hres).
  assert (Hfuel : (length c < S (size (nodes t1)))%nat).
  { pose proof (rep_size t1 _ Hr1). pose proof (ctx_length c (T RB_RED E y E)). lia. }
  destruct (insert_loop_ok (S (length c)) c _ t1 _ Lt RB_RED E y E res (Nat.lt_succ_diag_r _) Hfuel Hr1 eq_refl Hf) as (t2 & E2 & V2).
  destruct (blacken_root t2 res (ev_rep _ _ _ _ V2)) as (t3 & E3 & V3).
  assert (Hl : elems res = pre c ++ y :: post c) by (rewrite (ev_elems _ _ _ _ V2), elems_plug; done).
  exists t1, t3, (blacken res). split; [done|]. split; [|split; [apply V3|split; [done|split]]].
  - unfold rb_insert_color. rewrite E2. cbn [mbind option_bind]. rewrite (rep_root _ _ (ev_rep _ _ _ _ V2)).
    destruct (top res) as [r|] eqn:Hr'; [done|]. destruct res; [|done]. simpl in Hl. by destruct (pre c).
  - by rewrite (ev_elems _ _ _ _ V3).
  - pose proof (ev_same _ _ _ _ (evolves_trans _ _ _ _ _ _ V2 V3)) as S3. intros z Hz.
    rewrite S3, S1; [done|done|]. rewrite Es in Hz. rewrite !elems_plug in *. simpl in *. set_solver.
Qed.

(** ** Traversal *)

(** The first element on the side [d] of the rest of the tree. *)
Definition beyond (d : side) (c : ctx) : option nid := match d with Rt => head (post c) | Lt => last (pre c) end.

Lemma beyond_cons d f c : beyond d (f :: c) = if decide (f_side f = d) then beyond d c else Some (f_node f).
Proof.
  destruct d, f as [[] k x s]; simpl; unfold before, behind; simpl; try done.
  - by rewrite app_nil_r.
  - by rewrite app_assoc, last_snoc.
Qed.

Lemma no_self_parent t c s x : rep t (plug c s) -> top s = Some x -> hole c <> Some x.
Proof.
  intros [Hnd _ _ _]%rep_plug Hx Hh. apply nodup_hole in Hnd as (_ & _ & Hs). apply (Hs x); [|by apply hole_in].
  destruct s; [done|]. injection Hx as ->. simpl. set_solver.
Qed.

Lemma climb_ok d c : forall t s a x fuel, rep t s -> s = plug c a -> top a = Some x -> (length c < fuel)%nat -> climb d fuel t x = Some (beyond d c).
Proof.
  induction c as [|f c IH]; intros t s a x fuel Hr Es Hx Hf; (destruct fuel as [|fuel]; [lia|]); simpl;
    (destruct a as [|k l y r]; [done|]); injection Hx as ->.
  - pose proof Hr as Hn. rewrite Es in Hn. apply (rep_node t [] Lt) in Hn. rewrite Hn. by destruct d.
  - rewrite beyond_cons. pose proof Hr as Hn. rewrite Es in Hn. apply (rep_node t (f :: c) Lt) in Hn. rewrite Hn. simpl.
    destruct f as [df kf p so]. simpl. pose proof Hr as Hp. rewrite Es in Hp. apply (rep_node t c df kf (T k l x r) p so) in Hp. rewrite Hp. simpl.
    assert (Hne : top so <> Some x). { apply (other_child t s c df kf (T k l x r) p so Hr Es). done. }
    destruct (decide (df = d)) as [->|Hd].
    + rewrite child_cell_same, decide_True by done. eapply (IH t s (Td d kf (T k l x r) p so)); [done|exact Es|apply top_Td|simpl in Hf; lia].
    + assert (d = opp df) as -> by (by destruct d, df). rewrite child_cell_opp. by rewrite decide_False.
Qed.

Lemma far_elems d cm k y b : all_side d cm ->
  (match d with Lt => head (elems (plug cm (Td d k E y b))) | Rt => last (elems (plug cm (Td d k E y b))) end) = Some y.
Proof.
  intros Hcm. rewrite elems_plug, elems_Td. destruct d; simpl.
  - rewrite (pre_left cm Hcm). done.
  - assert (Hp : post cm = []). { induction Hcm as [|[[] kf p s] cm Hf _ IH]; [done|done|]. simpl. by rewrite IH. }
    by rewrite Hp, app_nil_r, app_assoc, last_snoc.
Qed.

Lemma rb_end_ok d t s : rep t s -> rb_end d t = Some (match d with Lt => head (elems s) | Rt => last (elems s) end).
Proof.
  intros Hr. unfold rb_end. rewrite (rep_root _ _ Hr). destruct (top s) as [x|] eqn:Hx; [|destruct s; [by destruct d|done]].
  destruct (far_ok d s [] t s x (S (size (nodes t))) Hr eq_refl Hx) as (cm & k & y & b & E1 & E2 & Hcm).
  { pose proof (rep_size t s Hr). lia. }
  rewrite E1. simpl. pose proof (far_elems d cm k y b Hcm) as Hf. rewrite <- E2 in Hf. destruct d; by rewrite Hf.
Qed.

Lemma app_cons_unique {A} (x : A) L1 L2 l1 l2 : x ∉ L1 -> x ∉ L2 -> L1 ++ x :: L2 = l1 ++ x :: l2 -> l1 = L1 /\ l2 = L2.
Proof.
  revert l1. induction L1 as [|z L1 IH]; intros [|z1 l1] H1 H2 Hl; simpl in *.
  - by injection Hl.
  - injection Hl as -> ->. set_solver.
  - injection Hl as -> Hl. set_solver.
  - injection Hl as -> Hl. destruct (IH l1) as [-> ->]; set_solver.
Qed.

Lemma split_unique s c k l x r l1 l2 : NoDup (elems s) -> s = plug c (T k l x r) -> elems s = l1 ++ x :: l2 ->
  l1 = pre c ++ elems l /\ l2 = elems r ++ post c.
Proof.
  intros Hnd -> Hl. rewrite elems_plug in *. simpl in *.
  replace (pre c ++ (elems l ++ x :: elems r) ++ post c) with ((pre c ++ elems l) ++ x :: (elems r ++ post c)) in * by (by rewrite <- !app_assoc).
  apply NoDup_app in Hnd as (_ & Hn1 & [Hn2 _]%NoDup_cons).
  apply (app_cons_unique x); [|done|done]. intros Hx. apply (Hn1 x Hx). set_solver.
Qed.

Lemma rb_step_ok d t s x l1 l2 : rep t s -> elems s = l1 ++ x :: l2 ->
  rb_step d t x = Some (match d with Rt => head l2 | Lt => last l1 end).
Proof.
  intros Hr Hl. destruct (elems_split s x) as (c & k & l & r & Es); [rewrite Hl; set_solver|].
  pose proof (split_unique s c k l x r l1 l2 (rep_nodup _ _ Hr) Es Hl) as Hsp.
  destruct Hsp as [-> ->]. pose proof Hr as Hn. rewrite Es in Hn. pose proof (no_self_parent t c _ x Hn eq_refl) as Hself.
  apply (rep_node t c Lt) in Hn. unfold rb_step. rewrite Hn. simpl. rewrite decide_False by done.
  assert (Hsz : (length c < S (size (nodes t)))%nat).
  { pose proof (rep_size t s Hr). pose proof (ctx_length c (T k l x r)). rewrite <- Es in *. lia. }
  assert (Hsub : forall a f, s = plug (f :: c) a -> (length (elems a) <= S (size (nodes t)))%nat).
  { intros a f Ea. pose proof (rep_size t s Hr) as Hs. rewrite Ea, elems_plug, !length_app in Hs. lia. }
  destruct d; simpl.
  - destruct (top l) as [y|] eqn:Hy.
    + destruct (far_ok Rt l (Fr Lt k x r :: c) t s y _ Hr Es Hy (Hsub l (Fr Lt k x r) Es)) as (cm & k' & z & b & E1 & E2 & Hcm). simpl opp.
      rewrite E1. simpl. pose proof (far_elems Rt cm k' z b Hcm) as Hf. rewrite <- E2 in Hf. by rewrite last_app, Hf.
    + destruct l; [|done]. rewrite app_nil_r. exact (climb_ok Lt c t s (T k E x r) x _ Hr Es eq_refl Hsz).
  - destruct (top r) as [y|] eqn:Hy.
    + destruct (far_ok Lt r (Fr Rt k x l :: c) t s y _ Hr Es Hy (Hsub r (Fr Rt k x l) Es)) as (cm & k' & z & b & E1 & E2 & Hcm). simpl opp.
      rewrite E1. simpl. pose proof (far_elems Lt cm k' z b Hcm) as Hf. rewrite <- E2 in Hf. destruct (elems r); [done|]. injection Hf as ->. done.
    + destruct r; [|done]. exact (climb_ok Rt c t s (T k l x E) x _ Hr Es eq_refl Hsz).
Qed.

(** ** Search *)

Section search.
Context (cmp : nid -> option (option side)) (way : nid -> option side).

(** The nodes above the hole are the ones the search went past. *)
Definition path (c : ctx) : Prop := Forall (fun f => way (f_node f) = Some (f_side f)) c.

Lemma search_from a : forall c d t s fuel, rep t s -> s = plug c a -> hole_side c d -> path c ->
  (forall x, x ∈ elems s -> cmp x = Some (way x)) -> (height a <= fuel)%nat ->
  exists pl, search cmp fuel t (top a) (hole c) d = Some pl /\
    match pl with
    | Found x => x ∈ elems s /\ way x = None
    | Empty p d' => exists c', s = plug c' E /\ p = hole c' /\ hole_side c' d' /\ path c'
    end.
Proof.
  assert (H : forall n a c d t s fuel, (height a <= n)%nat -> rep t s -> s = plug c a -> hole_side c d -> path c ->
    (forall x, x ∈ elems s -> cmp x = Some (way x)) -> (height a <= fuel)%nat ->
    exists pl, search cmp fuel t (top a) (hole c) d = Some pl /\
      match pl with
      | Found x => x ∈ elems s /\ way x = None
      | Empty p d' => exists c', s = plug c' E /\ p = hole c' /\ hole_side c' d' /\ path c'
      end).
  { clear a. induction n as [|n IH]; intros a c d t s fuel Hn Hr Es Hd Hp Hcmp Hf.
    { destruct a; simpl in Hn; [|lia]. eexists. split; [by destruct fuel|]. by exists c. }
    destruct a as [|k l x r]; [eexists; split; [by destruct fuel|]; by exists c|]. simpl in Hn, Hf. destruct fuel as [|fuel]; [lia|].
    simpl. pose proof Hr as Hx. rewrite Es in Hx. apply (rep_node t c Lt) in Hx. rewrite Hx. simpl.
    assert (Hin : x ∈ elems s) by (rewrite Es, elems_plug; simpl; set_solver). rewrite (Hcmp x Hin). simpl.
    destruct (way x) as [[]|] eqn:Hw; simpl.
    - apply (IH l (Fr Lt k x r :: c) Lt t s fuel); try done; try lia. by constructor.
    - apply (IH r (Fr Rt k x l :: c) Rt t s fuel); try done; try lia. by constructor.
    - eexists. split; [done|]. done. }
  intros. by eapply (H (height a)).
Qed.

(** Who goes left stays left from there on, and the other way round. *)
Definition monotone (x y : nid) : Prop := (way x = Some Lt -> way y = Some Lt) /\ (way y = Some Rt -> way x = Some Rt).

Lemma path_split c : forall a, StronglySorted monotone (elems (plug c a)) -> path c ->
  Forall (fun x => way x = Some Rt) (pre c) /\ Forall (fun x => way x = Some Lt) (post c).
Proof.
  induction c as [|f c IH]; intros a Hs Hp; [done|]. apply Forall_cons in Hp as [Hf Hp]. destruct (IH (fill f a) Hs Hp) as [IH1 IH2].
  simpl plug in Hs. rewrite elems_plug, elems_fill in Hs. apply StronglySorted_app_1_r, StronglySorted_app_1_l in Hs.
  destruct f as [[] k x so]; unfold before, behind in *; simpl in *.
  - split; [by rewrite app_nil_r|]. constructor; [done|]. apply Forall_app. split; [|done].
    apply StronglySorted_app_1_r, StronglySorted_cons in Hs as [Hall _]. eapply Forall_impl; [exact Hall|].
    intros z [Hz _]. auto.
  - split; [|done]. apply Forall_app. split; [done|]. apply Forall_app. split; [|by constructor].
    rewrite <- app_assoc in Hs. apply Forall_forall. intros z Hz.
    apply (StronglySorted_app_1_elem_of _ _ _ z x) in Hs; [destruct Hs; auto|done|simpl; set_solver].
Qed.

Lemma search_height t s : rep t s -> red_black s -> (forall x, x ∈ elems s -> cmp x = Some (way x)) ->
  StronglySorted monotone (elems s) ->
  forall fuel, (2 * Nat.log2 (S (length (elems s))) <= fuel)%nat ->
  exists pl, search cmp fuel t (root_node t) None Lt = Some pl /\
    match pl with
    | Found x => x ∈ elems s /\ way x = None
    | Empty p d => exists c, s = plug c E /\ p = hole c /\ hole_side c d /\
        Forall (fun x => way x = Some Rt) (pre c) /\ Forall (fun x => way x = Some Lt) (post c)
    end.
Proof.
  intros Hr Hrb Hcmp Hs fuel Hfuel. pose proof (red_black_height s Hrb) as Hh. rewrite (rep_root _ _ Hr).
  destruct (search_from s [] Lt t s fuel Hr eq_refl I (Forall_nil_2 _) Hcmp) as (pl & Epl & Hpl); [lia|]. exists pl. split; [exact Epl|].
  destruct pl as [x|p d]; [done|]. destruct Hpl as (c & Es & Hp & Hd & Hpath). exists c. split; [done|]. split; [done|]. split; [done|].
  apply (path_split c E); [by rewrite <- Es|done].
Qed.

(** The search of the callers, whose fuel is the number of nodes there are. *)
Lemma rb_search_ok t s : rep t s -> red_black s -> (forall x, x ∈ elems s -> cmp x = Some (way x)) ->
  StronglySorted monotone (elems s) ->
  exists pl, rb_search cmp t = Some pl /\
    match pl with
    | Found x => x ∈ elems s /\ way x = None
    | Empty p d => exists c, s = plug c E /\ p = hole c /\ hole_side c d /\
        Forall (fun x => way x = Some Rt) (pre c) /\ Forall (fun x => way x = Some Lt) (post c)
    end.
Proof.
  intros Hr Hrb Hcmp Hs. unfold rb_search. pose proof (rep_size t s Hr) as Hsz. rewrite (rep_root _ _ Hr).
  destruct (search_from s [] Lt t s (S (size (nodes t))) Hr eq_refl I (Forall_nil_2 _) Hcmp) as (pl & Epl & Hpl).
  { assert (Hh : forall u, (height u <= length (elems u))%nat); [|specialize (Hh s); lia].
    intros u. induction u as [|k l IHl x r IHr]; simpl; [lia|]. rewrite length_app. simpl. lia. }
  exists pl. split; [exact Epl|].
  destruct pl as [x|p d]; [done|]. destruct Hpl as (c & Es & Hp & Hd & Hpath). exists c. split; [done|]. split; [done|]. split; [done|].
  apply (path_split c E); [by rewrite <- Es|done].
Qed.

End search.

End RbtreeWalk.

(** ** Red-black trees as ordered sequences

    The interface the clients of [lib/rbtree.c] are verified against: a tree is
    the sequence of its nodes, [rb_erase] takes a node out of it, a search and an
    insertion put one in, and a tree is untouched by what happens to nodes that
    are not its own.  Trees that share a store of nodes are told apart by the
    last point. *)

Module RbtreeSeq.
Import Rbtree RbtreeRep RbtreeInsert RbtreeBal RbtreeOps RbtreeTop RbtreeWalk.

(** A red-black tree with these nodes, in this order. *)
Definition seq (t : rb_root) (l : list nid) : Prop := exists s, rep t s /\ red_black s /\ elems s = l.

Lemma seq_nodup t l : seq t l -> NoDup l.
Proof. intros (s & Hr & _ & <-). apply (rep_nodup _ _ Hr). Qed.

Lemma seq_empty m : seq (mk_root None m) [].
Proof.
  exists E. split; [|split; [|done]].
  - split; [constructor|done|apply holds_nil].
  - split; [done|]. split; [by exists 0%nat|done].
Qed.

Lemma seq_frame t l m : seq t l -> (forall x, x ∈ l -> m !! x = nodes t !! x) -> seq (mk_root (root_node t) m) l.
Proof.
  intros (s & [H1 H2 H3] & Hrb & <-) Hm. exists s. split; [|done]. split; [done|done|].
  eapply holds_same; [exact H3|]. intros x Hx. apply Hm. by rewrite flat_fst in Hx.
Qed.

Lemma seq_erase t l x : seq t l -> x ∈ l -> exists t', rb_erase t x = Some t' /\ seq t' (list_del x l) /\ same_but t t' l.
Proof.
  intros (s & Hr & Hrb & <-) Hx. destruct (rb_erase_ok t s x Hr Hrb Hx) as (t' & s' & H1 & H2 & H3 & H4 & H5).
  exists t'. split; [done|]. split; [by exists s'|done].
Qed.

Lemma seq_first t l : seq t l -> rb_first t = Some (head l).
Proof. intros (s & Hr & _ & <-). apply (rb_end_ok Lt t s Hr). Qed.

Lemma seq_size t l : seq t l -> (length l <= size (nodes t))%nat.
Proof. intros (s & Hr & _ & <-). by apply rep_size. Qed.

Section search.
Context (cmp : nid -> option (option side)) (way : nid -> option side).

(** A search ends at a node it accepts, or at the empty link where a new node
    belongs. *)
Lemma seq_search t l : seq t l -> (forall x, x ∈ l -> cmp x = Some (way x)) -> StronglySorted (monotone way) l ->
  exists pl, rb_search cmp t = Some pl /\
    match pl with
    | Found x => x ∈ l /\ way x = None
    | Empty p d => exists l1 l2, l = l1 ++ l2 /\
        Forall (fun x => way x = Some Rt) l1 /\ Forall (fun x => way x = Some Lt) l2 /\
        forall y, y ∉ l -> exists t1 t2, rb_link_node t y p d = Some t1 /\ rb_insert_color t1 y = Some t2 /\
          seq t2 (l1 ++ y :: l2) /\ same_but t t2 (y :: l)
    end.
Proof.
  intros (s & Hr & Hrb & <-) Hcmp Hs. destruct (rb_search_ok cmp way t s Hr Hrb Hcmp Hs) as (pl & E1 & Hpl).
  exists pl. split; [done|]. destruct pl as [x|p d]; [done|]. destruct Hpl as (c & Es & -> & Hd & H1 & H2).
  exists (pre c), (post c). split; [by rewrite Es, elems_plug|]. split; [done|]. split; [done|]. intros y Hy.
  destruct (insert_ok t s c d y Hr Hrb Es Hy Hd) as (t1 & t2 & s' & F1 & F2 & F3 & F4 & F5 & F6).
  exists t1, t2. split; [done|]. split; [done|]. split; [by exists s'|done].
Qed.

(** When the search must end at an empty link. *)
Lemma seq_place t l : seq t l -> (forall x, x ∈ l -> cmp x = Some (way x)) -> StronglySorted (monotone way) l ->
  (forall x, x ∈ l -> way x <> None) ->
  exists p d l1 l2, rb_search cmp t = Some (Empty p d) /\ l = l1 ++ l2 /\
    Forall (fun x => way x = Some Rt) l1 /\ Forall (fun x => way x = Some Lt) l2 /\
    forall y, y ∉ l -> exists t1 t2, rb_link_node t y p d = Some t1 /\ rb_insert_color t1 y = Some t2 /\
      seq t2 (l1 ++ y :: l2) /\ same_but t t2 (y :: l).
Proof.
  intros Ht Hcmp Hs Hne. destruct (seq_search t l Ht Hcmp Hs) as ([x|p d] & E & H).
  - destruct H as [Hx Hw]. by apply Hne in Hx.
  - destruct H as (l1 & l2 & H). by exists p, d, l1, l2.
Qed.

End search.

(** ** The least upper bound

    A search that remembers where it last went left: it ends at an equal node or
    with the first node behind the place it was looking for. *)
Section bound.
Context (cmp : nid -> option (option side)) (way : nid -> option side).

Lemma bound_from a : forall c t s fuel, rep t s -> s = plug c a -> path way c ->
  (forall x, x ∈ elems s -> cmp x = Some (way x)) -> (length (elems a) <= fuel)%nat ->
  exists b (e : bool), bound cmp fuel t (top a) (head (post c)) = Some (b, e) /\
    if e then exists x, b = Some x /\ x ∈ elems s /\ way x = None
    else exists c', s = plug c' E /\ b = head (post c') /\ path way c'.
Proof.
  induction a as [|k l IHl x r IHr]; intros c t s fuel Hr Es Hp Hcmp Hf.
  { exists (head (post c)), false. split; [by destruct fuel|]. by exists c. }
  simpl in Hf. rewrite length_app in Hf. simpl in Hf. destruct fuel as [|fuel]; [lia|].
  simpl. pose proof Hr as Hx. rewrite Es in Hx. apply (rep_node t c Lt) in Hx. rewrite Hx. simpl.
  assert (Hin : x ∈ elems s) by (rewrite Es, elems_plug; simpl; set_solver). rewrite (Hcmp x Hin). simpl.
  destruct (way x) as [[]|] eqn:Hw; simpl.
  - apply (IHl (Fr Lt k x r :: c) t s fuel); try done; [by constructor|lia].
  - apply (IHr (Fr Rt k x l :: c) t s fuel); try done; [by constructor|lia].
  - exists (Some x), true. split; [done|]. by exists x.
Qed.

Lemma seq_bound t l : seq t l -> (forall x, x ∈ l -> cmp x = Some (way x)) -> StronglySorted (monotone way) l ->
  (exists x, rb_bound cmp t = Some (Some x, true) /\ x ∈ l /\ way x = None) \/
  (exists l1 l2, rb_bound cmp t = Some (head l2, false) /\ l = l1 ++ l2 /\
     Forall (fun x => way x = Some Rt) l1 /\ Forall (fun x => way x = Some Lt) l2).
Proof.
  intros (s & Hr & Hrb & <-) Hcmp Hs. unfold rb_bound. rewrite (rep_root _ _ Hr).
  destruct (bound_from s [] t s (S (size (nodes t))) Hr eq_refl (Forall_nil_2 _) Hcmp) as (b & e & E1 & H); [pose proof (rep_size t s Hr); lia|].
  simpl head in E1. destruct e; [destruct H as (x & -> & Hx); left; by exists x|]. destruct H as (c & Es & -> & Hp).
  right. exists (pre c), (post c). split; [done|]. split; [by rewrite Es, elems_plug|].
  apply (path_split cmp way c E); [by rewrite <- Es|done].
Qed.

End bound.

End RbtreeSeq.

(** * Red-black trees with keys

    The interface for a tree whose nodes have distinct numbers as keys: the nodes
    it holds are those with a property, and a search finds the one with a
    key or the place where a new one belongs. *)

Local Open Scope Z_scope.

Module RbtreeKey.
Import Rbtree RbtreeRep RbtreeWalk RbtreeSeq.

(** The comparison of the callers. *)
Definition three_way (a b : Z) : option side :=
  if bool_decide (a < b) then Some Lt else if bool_decide (a > b) then Some Rt else None.

Lemma three_way_spec a b : match three_way a b with Some Lt => a < b | Some Rt => b < a | None => a = b end.
Proof. unfold three_way. case_bd; [done|]. case_bd; lia. Qed.

Definition keyed (t : rb_root) (key : nid -> Z) (P : nid -> Prop) : Prop :=
  exists l, seq t l /\ StronglySorted (fun x y => key x < key y) l /\ forall x, x ∈ l <-> P x.

Lemma keys_ext (key key' : nid -> Z) l : (forall x, x ∈ l -> key' x = key x) -> StronglySorted (fun x y => key x < key y) l -> StronglySorted (fun x y => key' x < key' y) l.
Proof.
  intros H Hs. induction Hs as [|x l Hs IH Hf]; constructor; [apply IH; set_solver|]. rewrite Forall_forall in Hf |- *. intros y Hy. rewrite !H by set_solver. by apply Hf.
Qed.

Lemma keyed_ext t key key' P P' : keyed t key P -> (forall x, P x -> key' x = key x) -> (forall x, P' x <-> P x) -> keyed t key' P'.
Proof.
  intros (l & Hl & Hs & HP) Hk HP'. exists l. split; [done|]. split; [eapply keys_ext; [|exact Hs]; intros x Hx; by apply Hk, HP|]. intros x. by rewrite HP, HP'.
Qed.

Lemma keyed_empty key P : (forall x, ~ P x) -> keyed (mk_root None ∅) key P.
Proof. intros H. exists []. split; [apply seq_empty|]. split; [constructor|]. intros x. rewrite elem_of_nil. split; [done|]. apply H. Qed.

Lemma sorted_monotone (key : nid -> Z) k l : StronglySorted (fun x y => key x < key y) l -> StronglySorted (monotone (fun x => three_way k (key x))) l.
Proof.
  intros Hs. induction Hs as [|x l Hs IH Hf]; constructor; [done|]. eapply Forall_impl; [exact Hf|]. intros y Hy. simpl in Hy. pose proof (three_way_spec k (key x)) as Hx. pose proof (three_way_spec k (key y)) as Hy'.
  split; intros E; rewrite E in *; [destruct (three_way k (key y)) as [[]|]|destruct (three_way k (key x)) as [[]|]]; (done || (exfalso; lia)).
Qed.

Lemma keyed_inj t key P x y : keyed t key P -> P x -> P y -> key x = key y -> x = y.
Proof.
  intros (l & _ & Hs & HP) Hx%HP Hy%HP E. clear HP. induction Hs as [|z l Hs IH Hf]; [by apply elem_of_nil in Hx|]. rewrite Forall_forall in Hf.
  apply elem_of_cons in Hx as [->|Hx]; apply elem_of_cons in Hy as [->|Hy]; [done|specialize (Hf y Hy); lia|specialize (Hf x Hx); lia|by apply IH].
Qed.

(** A search that starts at a node ends below one. *)
Lemma search_parent cmp : forall fuel t link parent d pl, search cmp fuel t link parent d = Some pl -> parent <> None \/ link <> None -> forall p' d', pl = Empty p' d' -> p' <> None.
Proof.
  induction fuel as [|fuel IH]; intros t link parent d pl E Hne p' d' ->; destruct link as [x|]; simpl in E.
  - done.
  - injection E as -> ->. by destruct Hne.
  - destruct (nodes t !! x) as [n|]; [|done]. simpl in E. destruct (cmp x) as [[s|]|]; [|done|done]. simpl in E. eapply IH; [exact E|by left|done].
  - injection E as -> ->. by destruct Hne.
Qed.

Lemma keyed_search t key P cmp k : keyed t key P -> (forall x, P x -> cmp x = Some (three_way k (key x))) ->
  exists pl, rb_search cmp t = Some pl /\
    match pl with
    | Found x => P x /\ key x = k
    | Empty p d => (forall x, P x -> key x <> k) /\ (p = None <-> root_node t = None) /\
        forall y key' P', ~ P y -> key' y = k -> (forall x, P x -> key' x = key x) -> (forall x, P' x <-> P x \/ x = y) ->
          exists t1 t2, rb_link_node t y p d = Some t1 /\ rb_insert_color t1 y = Some t2 /\ keyed t2 key' P'
    end.
Proof.
  intros (l & Hl & Hs & HP) Hcmp. destruct (seq_search cmp (fun x => three_way k (key x)) t l Hl) as (pl & E & H); [intros x Hx; by apply Hcmp, HP|by apply sorted_monotone|].
  exists pl. split; [done|]. destruct pl as [x|p d].
  - destruct H as [Hx Hw]. split; [by apply HP|]. pose proof (three_way_spec k (key x)) as Ht. rewrite Hw in Ht. done.
  - destruct H as (l1 & l2 & -> & H1 & H2 & Hins). rewrite Forall_forall in H1, H2.
    assert (K1 : forall x, x ∈ l1 -> key x < k) by (intros x Hx; pose proof (three_way_spec k (key x)) as Ht; by rewrite (H1 x Hx) in Ht).
    assert (K2 : forall x, x ∈ l2 -> k < key x) by (intros x Hx; pose proof (three_way_spec k (key x)) as Ht; by rewrite (H2 x Hx) in Ht).
    split; [|split].
    + intros x Hx Ek. apply HP, elem_of_app in Hx as [Hx|Hx]; [specialize (K1 _ Hx)|specialize (K2 _ Hx)]; lia.
    + unfold rb_search in E. destruct (root_node t) as [x|] eqn:Er; [|simpl in E; injection E as <- _; done]. split; [|done]. intros ->. exfalso. by eapply (search_parent _ _ _ _ _ _ _ E); [by right|done|].
    + intros y key' P' Hy Hk Hkey HP'. destruct (Hins y) as (t1 & t2 & E1 & E2 & Hseq & _); [intros Hin; by apply Hy, HP|]. exists t1, t2. split; [done|]. split; [done|]. exists (l1 ++ y :: l2). split; [done|]. split.
      * assert (Hs' : StronglySorted (fun x z => key' x < key' z) (l1 ++ l2)) by (eapply keys_ext; [|exact Hs]; intros x Hx; by apply Hkey, HP).
        apply StronglySorted_app in Hs' as (Hc & S1 & S2). apply StronglySorted_app. split; [|split; [done|]].
        -- intros a c Ha [->|Hc']%elem_of_cons; [rewrite Hk, Hkey by (apply HP; set_solver); by apply K1|by apply Hc].
        -- constructor; [done|]. rewrite Forall_forall. intros c Hc'. rewrite Hk, Hkey by (apply HP; set_solver). by apply K2.
      * intros x. rewrite HP', <- HP. set_solver.
Qed.

Lemma keys_del (key : nid -> Z) x l : StronglySorted (fun x y => key x < key y) l -> StronglySorted (fun x y => key x < key y) (list_del x l).
Proof. intros Hs. unfold list_del. induction Hs as [|y l Hs IH Hf]; [constructor|]. rewrite filter_cons. case_decide; [|done]. constructor; [done|]. rewrite Forall_forall in Hf |- *. intros z Hz. apply Hf. by apply list_elem_of_filter in Hz as [_ Hz]. Qed.

Lemma keyed_erase t key P x : keyed t key P -> P x -> exists t', rb_erase t x = Some t' /\ forall P', (forall y, P' y <-> P y /\ y <> x) -> keyed t' key P'.
Proof.
  intros (l & Hl & Hs & HP) Hx%HP. destruct (seq_erase t l x Hl Hx) as (t' & E & Hl' & _). exists t'. split; [done|]. intros P' HP'. exists (list_del x l). split; [done|].
  split; [by apply keys_del|]. intros y. by rewrite elem_of_list_del, HP', HP.
Qed.

Lemma keyed_first t key P : keyed t key P -> exists o, rb_first t = Some o /\ match o with None => forall x, ~ P x | Some x => P x end.
Proof.
  intros (l & Hl & _ & HP). exists (head l). split; [by apply seq_first|]. destruct l as [|x l]; simpl; [intros x Hx%HP; by apply elem_of_nil in Hx|]. apply HP. set_solver.
Qed.

Lemma keyed_root t key P : keyed t key P -> root_node t = None <-> forall x, ~ P x.
Proof.
  intros (l & (s & Hr & _ & <-) & _ & HP). rewrite (rep_root _ _ Hr). destruct s as [|k a x c]; simpl in *.
  - split; [|done]. intros _ x Hx%HP. by apply elem_of_nil in Hx.
  - split; [done|]. intros H. exfalso. apply (H x), HP. set_solver.
Qed.

Lemma seq_next t l1 x l2 : seq t (l1 ++ x :: l2) -> rb_next t x = Some (head l2).
Proof. intros (s & Hr & _ & E). exact (rb_step_ok Rt t s x l1 l2 Hr E). Qed.

End RbtreeKey.
