(* ===== verification/RbtreeSpec.v ===== *)
(** * Red-black trees: the contract of the library

    What [lib/rbtree.c] and the search loops of its callers promise together. *)

From Stdlib Require Import ZArith Lia.
From stdpp Require Import base option gmap sorting list.
From S2P Require Import Prelude Rbtree RbtreeRep RbtreeInsert RbtreeOps RbtreeWalk.

Module RbtreeSpec.
Import Rbtree RbtreeRep RbtreeInsert RbtreeBal RbtreeOps RbtreeTop RbtreeWalk.

(** ** Loops over a tree *)

(** [for (n = rb_first(root); n != NULL; n = rb_next(n))], as the list of the
    nodes the body sees. *)
Fixpoint walk_from (fuel : nat) (t : rb_root) (n : option nid) : option (list nid) :=
  match n with
  | None => Some []
  | Some x =>
      match fuel with
      | O => None
      | S fuel => n ← rb_next t x; l ← walk_from fuel t n; Some (x :: l)
      end
  end.

Definition rb_walk (t : rb_root) : option (list nid) := n ← rb_first t; walk_from (size (nodes t)) t n.

Lemma walk_from_ok t s l2 : forall l1 fuel, rep t s -> elems s = l1 ++ l2 -> (length l2 <= fuel)%nat ->
  walk_from fuel t (head l2) = Some l2.
Proof.
  induction l2 as [|x l2 IH]; intros l1 fuel Hr Hl Hf; simpl; [by destruct fuel|]. simpl in Hf. destruct fuel as [|fuel]; [lia|]. simpl.
  unfold rb_next. rewrite (rb_step_ok Rt t s x l1 l2 Hr Hl). simpl.
  rewrite (IH (l1 ++ [x]) fuel Hr); [done|by rewrite <- app_assoc|lia].
Qed.

Lemma rb_walk_ok t s : rep t s -> rb_walk t = Some (elems s).
Proof.
  intros Hr. unfold rb_walk, rb_first. rewrite (rb_end_ok Lt t s Hr). simpl. apply (walk_from_ok t s (elems s) []); [done|done|by apply rep_size].
Qed.

Lemma search_more cmp fuel : forall t link parent d pl, search cmp fuel t link parent d = Some pl ->
  forall fuel', (fuel <= fuel')%nat -> search cmp fuel' t link parent d = Some pl.
Proof.
  induction fuel as [|fuel IH]; intros t link parent d pl H fuel' Hle; (destruct link as [x|]; [|by destruct fuel']); [done|].
  destruct fuel' as [|fuel']; [lia|]. simpl in *. destruct (nodes t !! x); [|done]. simpl in *. destruct (cmp x) as [[d'|]|]; try done. simpl in *.
  apply IH; [done|lia].
Qed.

(** ** Insertion *)

(** Three nodes in order of their numbers, for the examples. *)
Definition demo_tree : tree := T RB_BLACK (T RB_RED E 1%nat E) 2%nat (T RB_RED E 3%nat E).
Definition demo_root : rb_root := mk_root (Some 2%nat) (list_to_map (flat None demo_tree)).

Lemma demo_tree_rep : rep demo_root demo_tree.
Proof.
  split; [by apply (bool_decide_unpack _)|done|]. intros x n Hx. simpl in Hx.
  repeat (apply elem_of_cons in Hx as [[= -> ->]|Hx]; [reflexivity|]). by apply elem_of_nil in Hx.
Qed.

Lemma demo_tree_rb : red_black demo_tree.
Proof. split; [simpl; naive_solver|]. split; [by exists 1%nat, 0%nat|done]. Qed.

(** Where 4 goes. *)
Definition demo_way (x : nid) : option side :=
  if decide (x = 4%nat) then None else if decide (x < 4)%nat then Some Rt else Some Lt.

(** C30: searching and inserting.  In a red-black tree whose nodes are
    in the order of the comparison, the search of a caller ends after looking at
    no more than 2 log2 (n + 1) of its n nodes, at a node the comparison accepts,
    or at an empty link with exactly the nodes to be passed on the right before
    it and those to be passed on the left behind it; and linking a new node
    there with [rb_link_node] and [rb_insert_color] follows no null pointer and
    gives a red-black tree with the new node at that place of the order, all
    others where they were, and no node of another tree touched. *)
Theorem rb_insert_correct t s cmp way :
  rep t s -> red_black s -> (forall x, x ∈ elems s -> cmp x = Some (way x)) -> StronglySorted (monotone way) (elems s) ->
  exists pl, rb_search cmp t = Some pl /\
    search cmp (2 * Nat.log2 (S (length (elems s)))) t (root_node t) None Lt = Some pl /\
    match pl with
    | Found x => x ∈ elems s /\ way x = None
    | Empty p d => exists l1 l2, elems s = l1 ++ l2 /\
        Forall (fun x => way x = Some Rt) l1 /\ Forall (fun x => way x = Some Lt) l2 /\
        forall y, y ∉ elems s -> exists t1 t2 s', rb_link_node t y p d = Some t1 /\ rb_insert_color t1 y = Some t2 /\
          rep t2 s' /\ red_black s' /\ elems s' = l1 ++ y :: l2 /\ same_but t t2 (y :: elems s)
    end.
Proof.
  intros Hr Hrb Hcmp Hs. destruct (rb_search_ok cmp way t s Hr Hrb Hcmp Hs) as (pl & E1 & Hpl).
  destruct (search_height cmp way t s Hr Hrb Hcmp Hs _ (le_n _)) as (pl' & E2 & _). exists pl. split; [done|].
  assert (pl' = pl) as ->.
  { unfold rb_search in E1. pose proof (search_more _ _ _ _ _ _ _ E2 (2 * Nat.log2 (S (length (elems s))) + S (size (nodes t)))%nat) as F2.
    pose proof (search_more _ _ _ _ _ _ _ E1 (2 * Nat.log2 (S (length (elems s))) + S (size (nodes t)))%nat) as F1.
    rewrite F1 in F2 by lia. specialize (F2 ltac:(lia)). congruence. }
  split; [done|]. destruct pl as [x|p d]; [done|]. destruct Hpl as (c & Es & -> & Hd & H1 & H2).
  exists (pre c), (post c). split; [by rewrite Es, elems_plug|]. split; [done|]. split; [done|]. intros y Hy. by apply insert_ok.
Qed.

Lemma rb_insert_correct_witness :
  exists t1 t2 s', rb_search (fun x => Some (demo_way x)) demo_root = Some (Empty (Some 3%nat) Rt) /\
    rb_link_node demo_root 4%nat (Some 3%nat) Rt = Some t1 /\ rb_insert_color t1 4%nat = Some t2 /\ rep t2 s' /\
    elems s' = [1; 2; 3; 4]%nat.
Proof.
  destruct (rb_insert_correct demo_root demo_tree (fun x => Some (demo_way x)) demo_way) as (pl & E1 & _ & Hpl).
  - exact demo_tree_rep.
  - exact demo_tree_rb.
  - intros x _. reflexivity.
  - repeat constructor; intros; done.
  - assert (Epl : pl = Empty (Some 3%nat) Rt) by (vm_compute in E1; injection E1 as <-; reflexivity). rewrite Epl in *.
    destruct Hpl as (l1 & l2 & Hl & H1 & H2 & Hins). destruct (Hins 4%nat) as (t1 & t2 & s' & F1 & F2 & F3 & F4 & F5 & _).
    { vm_compute. set_solver. }
    exists t1, t2, s'. split; [exact E1|]. split; [exact F1|]. split; [exact F2|]. split; [exact F3|]. rewrite F5.
    destruct l2 as [|z l2]; [rewrite app_nil_r in Hl; rewrite <- Hl; reflexivity|].
    exfalso. apply Forall_cons in H2 as [Hz _]. assert (Hin : z ∈ elems demo_tree) by (rewrite Hl; set_solver). simpl in Hin.
    repeat (apply elem_of_cons in Hin as [->|Hin]; [discriminate Hz|]). by apply elem_of_nil in Hin.
Defined.

(** ** Removal *)

(** C31: [rb_erase] of a node of a red-black tree follows no null
    pointer, its loops end, and it leaves a red-black tree of the other nodes in
    their order, without touching a node of another tree. *)
Theorem rb_erase_correct t s x : rep t s -> red_black s -> x ∈ elems s ->
  exists t' s', rb_erase t x = Some t' /\ rep t' s' /\ red_black s' /\ elems s' = list_del x (elems s) /\ same_but t t' (elems s).
Proof. apply rb_erase_ok. Qed.

Lemma rb_erase_correct_witness :
  exists t' s', rb_erase demo_root 2%nat = Some t' /\ rep t' s' /\ elems s' = [1; 3]%nat.
Proof.
  destruct (rb_erase_correct demo_root demo_tree 2%nat demo_tree_rep demo_tree_rb) as (t' & s' & E & Hr & _ & Hl & _).
  - vm_compute. set_solver.
  - exists t', s'. split; [exact E|]. split; [exact Hr|]. rewrite Hl. reflexivity.
Defined.

(** ** Traversal and replacement *)

(** [rb_first], [rb_last], [rb_next] and [rb_prev] are the ends and
    the neighbours in the order of the tree, so that a loop over them sees each
    node once, in order; and [rb_replace_node] puts a new node exactly where the
    old one was, without rebalancing. *)
Theorem rb_walk_correct t s : rep t s ->
  rb_first t = Some (head (elems s)) /\ rb_last t = Some (last (elems s)) /\ rb_walk t = Some (elems s) /\
  forall l1 x l2, elems s = l1 ++ x :: l2 ->
    rb_next t x = Some (head l2) /\ rb_prev t x = Some (last l1) /\
    forall y, y ∉ elems s -> exists t' s', rb_replace_node t x y = Some t' /\ rep t' s' /\ elems s' = l1 ++ y :: l2 /\
      (red_black s -> red_black s') /\ same_but t t' (y :: elems s).
Proof.
  intros Hr. split; [apply (rb_end_ok Lt t s Hr)|]. split; [apply (rb_end_ok Rt t s Hr)|]. split; [by apply rb_walk_ok|].
  intros l1 x l2 Hl. split; [apply (rb_step_ok Rt t s x l1 l2 Hr Hl)|]. split; [apply (rb_step_ok Lt t s x l1 l2 Hr Hl)|].
  intros y Hy. destruct (elems_split s x) as (c & k & l & r & Es); [rewrite Hl; set_solver|].
  destruct (replace_node_ok t s c k l x r y Hr Es Hy) as (t' & E & Hr' & Hs'). exists t', (plug c (T k l y r)).
  split; [done|]. split; [done|]. split; [|split; [|done]].
  - pose proof (rep_nodup _ _ Hr) as Hnd. destruct (split_unique s c k l x r l1 l2 Hnd Es Hl) as [-> ->]. rewrite elems_plug. simpl. by rewrite <- !app_assoc.
  - rewrite Es. intros (H1 & [n H2] & H3). apply no_rr_plug in H1 as (A & B & C). apply bal_plug in H2 as (m & D & F).
    split; [|split].
    + apply no_rr_plug. done.
    + exists n. apply bal_plug. by exists m.
    + destruct c as [|f c]; [done|]. rewrite is_red_plug in H3 |- *. done.
Qed.

Lemma rb_walk_correct_witness : rb_walk demo_root = Some [1; 2; 3]%nat /\ rb_next demo_root 1%nat = Some (Some 2%nat).
Proof.
  destruct (rb_walk_correct demo_root demo_tree demo_tree_rep) as (_ & _ & H & Hn). split; [exact H|].
  apply (Hn [] 1%nat [2; 3]%nat). reflexivity.
Defined.

End RbtreeSpec.
