(* ===== verification/Ctype.v ===== *)
(** * Characters and strings ([lib/ctype.c], [lib/string.c], [lib/vsprintf.c])

    The parts of the string library that the components use.  A string is the
    bytes from its start on; reading beyond them is [None]. *)

From Stdlib Require Import ZArith Lia Strings.Byte.
From stdpp Require Import base option list_numbers list.
From S2P Require Import Prelude.

Local Open Scope Z_scope.

Module Ctype.

Definition byteZ (b : byte) : Z := Z.of_N (Byte.to_N b).

(** ** Character classes *)

Definition c_U : Z := 0x01.
Definition c_L : Z := 0x02.
Definition c_D : Z := 0x04.
Definition c_C : Z := 0x08.
Definition c_P : Z := 0x10.
Definition c_S : Z := 0x20.
Definition c_X : Z := 0x40.
Definition c_SP : Z := 0x80.

Local Notation "a +| b" := (Z.lor a b) (at level 50, left associativity).

Definition _ctype : list Z := [
   c_C; c_C; c_C; c_C; c_C; c_C; c_C; c_C;
   c_C; c_C +| c_S; c_C +| c_S; c_C +| c_S; c_C +| c_S; c_C +| c_S; c_C; c_C;
   c_C; c_C; c_C; c_C; c_C; c_C; c_C; c_C;
   c_C; c_C; c_C; c_C; c_C; c_C; c_C; c_C;
   c_S +| c_SP; c_P; c_P; c_P; c_P; c_P; c_P; c_P;
   c_P; c_P; c_P; c_P; c_P; c_P; c_P; c_P;
   c_D; c_D; c_D; c_D; c_D; c_D; c_D; c_D;
   c_D; c_D; c_P; c_P; c_P; c_P; c_P; c_P;
   c_P; c_U +| c_X; c_U +| c_X; c_U +| c_X; c_U +| c_X; c_U +| c_X; c_U +| c_X; c_U;
   c_U; c_U; c_U; c_U; c_U; c_U; c_U; c_U;
   c_U; c_U; c_U; c_U; c_U; c_U; c_U; c_U;
   c_U; c_U; c_U; c_P; c_P; c_P; c_P; c_P;
   c_P; c_L +| c_X; c_L +| c_X; c_L +| c_X; c_L +| c_X; c_L +| c_X; c_L +| c_X; c_L;
   c_L; c_L; c_L; c_L; c_L; c_L; c_L; c_L;
   c_L; c_L; c_L; c_L; c_L; c_L; c_L; c_L;
   c_L; c_L; c_L; c_P; c_P; c_P; c_P; c_C;
   0; 0; 0; 0; 0; 0; 0; 0;
   0; 0; 0; 0; 0; 0; 0; 0;
   0; 0; 0; 0; 0; 0; 0; 0;
   0; 0; 0; 0; 0; 0; 0; 0;
   c_S +| c_SP; c_P; c_P; c_P; c_P; c_P; c_P; c_P;
   c_P; c_P; c_P; c_P; c_P; c_P; c_P; c_P;
   c_P; c_P; c_P; c_P; c_P; c_P; c_P; c_P;
   c_P; c_P; c_P; c_P; c_P; c_P; c_P; c_P;
   c_U; c_U; c_U; c_U; c_U; c_U; c_U; c_U;
   c_U; c_U; c_U; c_U; c_U; c_U; c_U; c_U;
   c_U; c_U; c_U; c_U; c_U; c_U; c_U; c_P;
   c_U; c_U; c_U; c_U; c_U; c_U; c_U; c_L;
   c_L; c_L; c_L; c_L; c_L; c_L; c_L; c_L;
   c_L; c_L; c_L; c_L; c_L; c_L; c_L; c_L;
   c_L; c_L; c_L; c_L; c_L; c_L; c_L; c_P;
   c_L; c_L; c_L; c_L; c_L; c_L; c_L; c_L].

Definition __ismask (b : byte) : Z := nth (Z.to_nat (byteZ b)) _ctype 0.

Definition isspace (b : byte) : bool := bool_decide (Z.land (__ismask b) c_S <> 0).
Definition isdigit (b : byte) : bool := bool_decide (Z.land (__ismask b) c_D <> 0).
Definition isxdigit (b : byte) : bool := bool_decide (Z.land (__ismask b) (c_D +| c_X) <> 0).

(** [TOLOWER], for digits and letters. *)
Definition TOLOWER (b : byte) : Z := Z.lor (byteZ b) 0x20.

(** ** Numbers *)

Definition simple_guess_base (cp : list byte) : option Z :=
  c0 ← cp !! 0%nat;
  if bool_decide (byteZ c0 = 48) then
    c1 ← cp !! 1%nat;
    if bool_decide (TOLOWER c1 = 120) then
      c2 ← cp !! 2%nat;
      Some (if isxdigit c2 then 16 else 8)
    else Some 8
  else Some 10.

Definition digit_value (b : byte) : Z := if isdigit b then byteZ b - 48 else TOLOWER b - 97 + 10.

(** The loop: the number, and where it ends. *)
Fixpoint strtoull_loop (cp : list byte) (base result : Z) : option (Z * list byte) :=
  c ← cp !! 0%nat;
  if isxdigit c then
    if bool_decide (digit_value c >= base) then Some (result, cp)
    else match cp with [] => None | _ :: cp => strtoull_loop cp base (u64 (u64 (result * base) + digit_value c)) end
  else Some (result, cp).

(** [simple_strtoull(cp, &endp, 0)]. *)
Definition simple_strtoull (cp : list byte) : option (Z * list byte) :=
  base ← simple_guess_base cp;
  cp ← (if bool_decide (base = 16) then
          c0 ← cp !! 0%nat;
          if bool_decide (byteZ c0 = 48) then
            c1 ← cp !! 1%nat; Some (if bool_decide (TOLOWER c1 = 120) then drop 2 cp else cp)
          else Some cp
        else Some cp);
  strtoull_loop cp base 0.

(** ** Comparison *)

(** A value stored in a [signed char]. *)
Definition schar (z : Z) : Z := let r := z mod 256 in if bool_decide (r < 128) then r else r - 256.

Fixpoint strncmp (cs ct : list byte) (count : nat) {struct count} : option Z :=
  match count with
  | O => Some 0
  | S count =>
      match cs, ct with
      | a :: cs, b :: ct =>
          let res := schar (byteZ a - byteZ b) in
          if bool_decide (res <> 0) || bool_decide (byteZ a = 0) then Some res else strncmp cs ct count
      | _, _ => None
      end
  end.

(** [scnprintf(s, size, ...)] of a text: what is written before the
    terminator. *)
Definition scnprintf (size : Z) (text : list byte) : list byte := take (Z.to_nat (size - 1)) text.

End Ctype.
