(* ===== verification/UserWakelock.v ===== *)
(** * User wake locks ([kernel/power/userwakelock.c]): the model

    User space takes and releases wake locks by writing names to two files; the
    locks are created on first use and kept in a red-black tree ordered by name.
    Every routine runs under [tree_lock].

    A [struct user_wake_lock] is known by one identifier, which stands for its
    node of the tree and for its wake lock. *)

From Stdlib Require Import ZArith Lia Strings.Byte.
From stdpp Require Import base option gmap list_numbers list.
From S2P Require Import Prelude Wakelock Ctype Rbtree.

Local Open Scope Z_scope.
Local Open Scope kernel_scope.

Module UserWakelock.
Import Wakelock Ctype Rbtree.

(** The tree, the names ([char name[]], with the terminator) and the wake
    locks. *)
Record uw := mk_uw { user_wake_locks : rb_root; names : gmap nid (list byte); wakelocks : state }.

Definition set_wakelocks (u : uw) (w : state) : uw := mk_uw (user_wake_locks u) (names u) w.

(** ** The argument *)

(** [while ( *arg && !isspace( *arg)) arg++;] with the length passed. *)
Fixpoint skip_name (arg : list byte) : option (nat * list byte) :=
  match arg with
  | [] => None
  | c :: rest =>
      if bool_decide (c = x00) || isspace c then Some (0%nat, arg)
      else '(n, arg) ← skip_name rest; Some (S n, arg)
  end.

(** [while (isspace( *arg)) arg++;] *)
Fixpoint skip_space (arg : list byte) : option (list byte) :=
  match arg with
  | [] => None
  | c :: rest => if isspace c then skip_space rest else Some arg
  end.

Definition at_end (arg : list byte) : option bool := c ← arg !! 0%nat; Some (bool_decide (c = x00)).

(** From nanoseconds to jiffies, and into a [long]. *)
Definition timeout_jiffies (timeout : Z) : Z :=
  let timeout := u64 (timeout + (NSEC_PER_SEC / HZ - 1)) in
  let timeout := timeout / (NSEC_PER_SEC / HZ) in
  let timeout := if bool_decide (timeout <= 0) then 1 else timeout in
  s32 timeout.

(** The length of the name and the timeout; [inl] is the jump to [bad_arg]. *)
Definition parse_arg (buf : list byte) (timeoutptr : bool) : option (Z + nat * Z) :=
  '(name_len, arg) ← skip_name buf;
  if bool_decide (name_len = 0%nat) then Some (inl (- EINVAL))
  else
    arg ← skip_space arg;
    e ← at_end arg;
    if timeoutptr && negb e then
      '(timeout, arg) ← simple_strtoull arg;
      arg ← skip_space arg;
      e ← at_end arg;
      if negb e then Some (inl (- EINVAL)) else Some (inr (name_len, timeout_jiffies timeout))
    else if negb e then Some (inl (- EINVAL))
    else Some (inr (name_len, 0)).

(** ** The tree *)

(** The comparison of the search loop: the side to go on. *)
Definition compare (u : uw) (buf : list byte) (name_len : nat) (l : nid) : option (option side) :=
  name ← names u !! l;
  diff ← strncmp buf name name_len;
  diff ← (if bool_decide (diff = 0) then c ← name !! name_len; Some (if bool_decide (c <> x00) then -1 else 0)
          else Some diff);
  Some (if bool_decide (diff < 0) then Some Lt else if bool_decide (diff > 0) then Some Rt else None).

(** A new lock: [kzalloc], the name, [wake_lock_init] and the tree. *)
Definition add_wake_lock (u : uw) (l : nid) (name : list byte) (parent : option nid) (p : side) : option uw :=
  w ← wake_lock_init (wakelocks u) l WAKE_LOCK_SUSPEND (Some name);
  t ← rb_link_node (user_wake_locks u) l parent p;
  t ← rb_insert_color t l;
  Some (mk_uw t (<[l := name ++ [x00]]> (names u)) w).

(** [alloc] is the object [kzalloc] returns.  The result is the lock and the
    timeout, or the error of [ERR_PTR]. *)
Definition lookup_wake_lock_name (u : uw) (buf : list byte) (allocate : option (option nid)) (timeoutptr : bool)
  : option (uw * (Z + nid * Z)) :=
  arg ← parse_arg buf timeoutptr;
  match arg with
  | inl e => Some (u, inl e)
  | inr (name_len, timeout) =>
      place ← rb_search (compare u buf name_len) (user_wake_locks u);
      match place with
      | Found l => Some (u, inr (l, timeout))
      | Empty parent p =>
          match allocate with
          | None => Some (u, inl (- EINVAL))
          | Some None => Some (u, inl (- ENOMEM))
          | Some (Some l) => u ← add_wake_lock u l (take name_len buf) parent p; Some (u, inr (l, timeout))
          end
      end
  end.

(** ** The files *)

(** A write of [n] bytes to [/sys/power/wake_lock]; [buf] is the page with a
    terminator after them. *)
Definition wake_lock_store (clk : clock) (u : uw) (buf : list byte) (n : Z) (alloc : option nid) : option (uw * Z) :=
  '(u, l) ← lookup_wake_lock_name u buf (Some alloc) true;
  match l with
  | inl e => Some (u, e)
  | inr (l, timeout) =>
      w ← (if bool_decide (timeout <> 0) then wake_lock_timeout clk (wakelocks u) l timeout
           else wake_lock clk (wakelocks u) l);
      Some (set_wakelocks u w, n)
  end.

Definition wake_unlock_store (clk : clock) (u : uw) (buf : list byte) (n : Z) : option (uw * Z) :=
  '(u, l) ← lookup_wake_lock_name u buf None false;
  match l with
  | inl e => Some (u, e)
  | inr (l, _) => w ← wake_unlock clk (wakelocks u) l; Some (set_wakelocks u w, n)
  end.

Definition PAGE_SIZE : Z := 4096.

(** The text up to the terminator. *)
Fixpoint text (s : list byte) : list byte :=
  match s with [] => [] | c :: s => if bool_decide (c = x00) then [] else c :: text s end.

(** [s += scnprintf(s, end - s, ...)] where [out] is what was written so far. *)
Definition emit (out new : list byte) : list byte := out ++ scnprintf (PAGE_SIZE - Z.of_nat (length out)) new.

(** The loop of [wake_lock_show] ([active]) and [wake_unlock_show]. *)
Fixpoint show_loop (fuel : nat) (u : uw) (active : bool) (n : option nid) (out : list byte) : option (list byte) :=
  match n with
  | None => Some out
  | Some l =>
      match fuel with
      | O => None
      | S fuel =>
          a ← wake_lock_active (wakelocks u) l;
          name ← names u !! l;
          let out := if Bool.eqb a active then emit out (text name ++ [x20]) else out in
          n ← rb_next (user_wake_locks u) l;
          show_loop fuel u active n out
      end
  end.

Definition show (u : uw) (active : bool) : option (list byte) :=
  n ← rb_first (user_wake_locks u);
  out ← show_loop (size (nodes (user_wake_locks u))) u active n [];
  Some (emit out [x0a]).

Definition wake_lock_show (u : uw) : option (list byte) := show u true.
Definition wake_unlock_show (u : uw) : option (list byte) := show u false.

End UserWakelock.
