(* ===== verification/UserWakelockInv.v ===== *)
(** * User wake locks: names

    The order of names that the search follows, the invariant of the tree, and
    what a lookup finds. *)

From Stdlib Require Import ZArith Lia Strings.Byte.
From stdpp Require Import base option gmap sorting list_numbers list.
From S2P Require Import Prelude Wakelock WakelockInv WakelockTop Rbtree RbtreeRep RbtreeInsert RbtreeOps RbtreeWalk Ctype UserWakelock.

Local Open Scope Z_scope.
Local Open Scope kernel_scope.

Module UserWakelockInv.
Import Wakelock Ctype Rbtree RbtreeRep RbtreeInsert RbtreeBal RbtreeOps RbtreeWalk UserWakelock.

(** ** Names *)

(** A character of a name: ASCII, not a space, not the terminator. *)
Definition name_char (c : byte) : Prop := 0 < byteZ c < 128 /\ isspace c = false.

Definition good_name (nm : list byte) : Prop := nm <> [] /\ Forall name_char nm.

Fixpoint name_cmp (a b : list byte) : comparison :=
  match a, b with
  | [], [] => Eq
  | [], _ :: _ => Datatypes.Lt
  | _ :: _, [] => Gt
  | x :: a, y :: b => match byteZ x ?= byteZ y with Eq => name_cmp a b | c => c end
  end.

Definition name_lt (a b : list byte) : Prop := name_cmp a b = Datatypes.Lt.

Lemma byteZ_inj x y : byteZ x = byteZ y -> x = y.
Proof.
  unfold byteZ. intros H%N2Z.inj. pose proof (Byte.of_to_N x) as Hx. rewrite H, Byte.of_to_N in Hx. by injection Hx.
Qed.

Lemma name_cmp_eq a : forall b, name_cmp a b = Eq <-> a = b.
Proof.
  induction a as [|x a IH]; intros [|y b]; simpl; try done.
  destruct (Z.compare_spec (byteZ x) (byteZ y)) as [Hxy|Hxy|Hxy].
  - rewrite IH. apply byteZ_inj in Hxy. subst. split; [by intros ->|by intros [= ->]].
  - split; [done|]. intros [= -> ->]. lia.
  - split; [done|]. intros [= -> ->]. lia.
Qed.

Lemma name_cmp_opp a : forall b, name_cmp b a = CompOpp (name_cmp a b).
Proof.
  induction a as [|x a IH]; intros [|y b]; simpl; try done. rewrite (Z.compare_antisym (byteZ x)).
  destruct (byteZ x ?= byteZ y); simpl; [apply IH|done|done].
Qed.

Lemma name_lt_trans a : forall b c, name_lt a b -> name_lt b c -> name_lt a c.
Proof.
  unfold name_lt. induction a as [|x a IH]; intros [|y b] [|z c]; simpl; try done.
  destruct (Z.compare_spec (byteZ x) (byteZ y)), (Z.compare_spec (byteZ y) (byteZ z)), (Z.compare_spec (byteZ x) (byteZ z));
    try done; try lia. apply IH.
Qed.

(** ** The comparison of the code *)

Lemma schar_small z : -128 < z < 128 -> schar z = z.
Proof.
  intros Hz. unfold schar. case_bd as Hr.
  - destruct (decide (0 <= z)); [by rewrite Z.mod_small by lia|]. rewrite <- (Z.mod_add z 1 256), Z.mod_small in Hr by lia. lia.
  - destruct (decide (0 <= z)); [rewrite Z.mod_small in Hr by lia; lia|].
    rewrite <- (Z.mod_add z 1 256), Z.mod_small by lia. lia.
Qed.

Definition side_of_cmp (c : comparison) : option side :=
  match c with Datatypes.Lt => Some Lt | Gt => Some Rt | Eq => None end.

(** [strncmp] with the test of the terminator orders ASCII names as
    [name_cmp]. *)
Lemma strncmp_names nm rest : forall nm', Forall name_char nm -> Forall name_char nm' ->
  exists diff, strncmp (nm ++ rest) (nm' ++ [x00]) (length nm) = Some diff /\
    (diff <> 0 -> name_cmp nm nm' = (if bool_decide (diff < 0) then Datatypes.Lt else Gt)) /\
    (diff = 0 -> exists c, (nm' ++ [x00]) !! length nm = Some c /\ name_cmp nm nm' = if bool_decide (c = x00) then Eq else Datatypes.Lt).
Proof.
  induction nm as [|x nm IH]; intros nm' H1 H2.
  - exists 0. split; [done|]. split; [done|]. intros _. destruct nm' as [|y nm']; simpl; [by exists x00|].
    apply Forall_cons in H2 as [[Hy _] _]. exists y. split; [done|]. rewrite bool_decide_eq_false_2; [done|]. intros ->. destruct Hy as [Hy _]. discriminate Hy.
  - apply Forall_cons in H1 as [[Hx Hxs] H1]. destruct nm' as [|y nm']; simpl.
    + exists (schar (byteZ x - 0)). rewrite (schar_small (byteZ x - 0)) by lia. change (byteZ x00) with 0.
      rewrite schar_small by lia. rewrite bool_decide_eq_true_2 by lia. simpl. split; [done|].
      split; [|lia]. intros _. rewrite bool_decide_eq_false_2 by lia. done.
    + apply Forall_cons in H2 as [[Hy _] H2]. rewrite schar_small by lia.
      destruct (decide (byteZ x - byteZ y <> 0)) as [Hd|Hd].
      * exists (byteZ x - byteZ y). rewrite (bool_decide_eq_true_2 (_ <> 0)) by done. simpl. split; [done|]. split; [|lia]. intros _.
        destruct (Z.compare_spec (byteZ x) (byteZ y)); [lia| |]; case_bd; try lia; done.
      * rewrite (bool_decide_eq_false_2 (_ <> 0)) by done. rewrite (bool_decide_eq_false_2 (byteZ x = 0)) by lia. simpl.
        destruct (IH nm' H1 H2) as (diff & E1 & E2 & E3). exists diff. split; [done|].
        replace (byteZ x) with (byteZ y) by lia. by rewrite Z.compare_refl.
Qed.

Lemma compare_names u l nm nm' rest : names u !! l = Some (nm' ++ [x00]) -> Forall name_char nm -> Forall name_char nm' ->
  compare u (nm ++ rest) (length nm) l = Some (side_of_cmp (name_cmp nm nm')).
Proof.
  intros Hl H1 H2. unfold compare. rewrite Hl. simpl. destruct (strncmp_names nm rest nm' H1 H2) as (diff & -> & Hn & Hz). simpl.
  case_bd as Hd.
  - destruct (Hz Hd) as (c & -> & ->). simpl. destruct (decide (c = x00)) as [->|Hc]; [done|].
    rewrite (bool_decide_eq_true_2 (c <> x00)), (bool_decide_eq_false_2 (c = x00)) by done. done.
  - rewrite (Hn Hd). simpl. case_bd as Hlt; [done|]. rewrite bool_decide_eq_true_2 by lia. done.
Qed.

(** ** The invariant *)

Definition named (u : uw) (nm : list byte) (l : nid) : Prop := names u !! l = Some (nm ++ [x00]).

Definition before_in (u : uw) (x y : nid) : Prop := exists a b, named u a x /\ named u b y /\ name_lt a b.

Record tree_ok (u : uw) (s : tree) : Prop := {
  to_rep : rep (user_wake_locks u) s;
  to_rb : red_black s;
  to_dom : forall x, x ∈ elems s <-> is_Some (names u !! x);
  to_names : forall x b, names u !! x = Some b -> exists nm, b = nm ++ [x00] /\ good_name nm;
  to_sorted : StronglySorted (before_in u) (elems s)
}.

Lemma named_inj u a b l : named u a l -> named u b l -> a = b.
Proof. unfold named. intros H1 H2. rewrite H1 in H2. injection H2 as H2. by apply app_inj_tail in H2 as [-> _]. Qed.

(** No two locks have the same name. *)
Lemma named_unique u s nm l l' : tree_ok u s -> named u nm l -> named u nm l' -> l = l'.
Proof.
  intros [Hr _ Hd _ Hs] H1 H2. destruct (decide (l = l')) as [|Hne]; [done|]. exfalso.
  assert (Hl : l ∈ elems s) by (apply Hd; by eexists). assert (Hl' : l' ∈ elems s) by (apply Hd; by eexists).
  assert (Hirr : forall x y, before_in u x y -> named u nm x -> named u nm y -> False).
  { intros x y (a & b & Ha & Hb & Hlt) Hx Hy. rewrite (named_inj u a nm x Ha Hx), (named_inj u b nm y Hb Hy) in Hlt.
    unfold name_lt in Hlt. by rewrite (proj2 (name_cmp_eq nm nm) eq_refl) in Hlt. }
  apply list_elem_of_split in Hl as (l1 & l2 & E). rewrite E in Hs, Hl'. rewrite StronglySorted_app in Hs. destruct Hs as (Ha & _ & Hc).
  apply StronglySorted_cons in Hc as [Hc _]. rewrite Forall_forall in Hc.
  apply elem_of_app in Hl' as [Hl'|[Heq|Hl']%elem_of_cons]; [|done|].
  - apply (Hirr l' l); [apply Ha; [done|set_solver]|done|done].
  - apply (Hirr l l'); [by apply Hc|done|done].
Qed.

(** Where the search for a name goes at a lock. *)
Definition way_of (u : uw) (nm : list byte) (x : nid) : option side :=
  match names u !! x with Some b => side_of_cmp (name_cmp nm (removelast b)) | None => None end.

Lemma way_of_named u nm nm' x : named u nm' x -> way_of u nm x = side_of_cmp (name_cmp nm nm').
Proof. unfold way_of, named. intros ->. by rewrite removelast_last. Qed.

Lemma way_monotone u nm x y : before_in u x y -> monotone (way_of u nm) x y.
Proof.
  intros (a & b & Ha & Hb & Hlt). unfold monotone. rewrite (way_of_named u nm a x Ha), (way_of_named u nm b y Hb). split.
  - intros H. assert (H1 : name_lt nm a) by (unfold name_lt; by destruct (name_cmp nm a)).
    pose proof (name_lt_trans _ _ _ H1 Hlt) as H2. unfold name_lt in H2. by rewrite H2.
  - intros H. assert (H1 : name_lt b nm). { unfold name_lt. rewrite name_cmp_opp. by destruct (name_cmp nm b). }
    pose proof (name_lt_trans _ _ _ Hlt H1) as H2. unfold name_lt in H2. rewrite name_cmp_opp in H2. by destruct (name_cmp nm a).
Qed.

Lemma search_name u s nm rest : tree_ok u s -> good_name nm ->
  exists pl, rb_search (compare u (nm ++ rest) (length nm)) (user_wake_locks u) = Some pl /\
    match pl with
    | Found l => named u nm l
    | Empty p d => (forall l, ~ named u nm l) /\ exists c, s = plug c E /\ p = hole c /\ hole_side c d /\
        Forall (fun x => exists a, named u a x /\ name_lt a nm) (pre c) /\
        Forall (fun x => exists a, named u a x /\ name_lt nm a) (post c)
    end.
Proof.
  intros Hto [Hne Hnm]. pose proof Hto as [Hr Hrb Hd Hn Hs].
  assert (Hex : forall x, x ∈ elems s -> exists a, named u a x /\ Forall name_char a).
  { intros x [b Hb]%Hd. destruct (Hn x b Hb) as (a & -> & _ & Ha). by exists a. }
  destruct (rb_search_ok (compare u (nm ++ rest) (length nm)) (way_of u nm) (user_wake_locks u) s Hr Hrb) as (pl & E1 & Hpl).
  - intros x Hx. destruct (Hex x Hx) as (a & Ha & Hac). by rewrite (compare_names u x nm a rest Ha Hnm Hac), (way_of_named u nm a x Ha).
  - eapply WakelockInv.sorted_weaken; [|exact Hs]. intros x y _ _. apply way_monotone.
  - exists pl. split; [done|]. destruct pl as [l|p d].
    + destruct Hpl as [Hl Hw]. destruct (Hex l Hl) as (a & Ha & _). rewrite (way_of_named u nm a l Ha) in Hw.
      destruct (name_cmp nm a) eqn:Hc; [|done|done]. apply name_cmp_eq in Hc as ->. done.
    + destruct Hpl as (c & Es & Hp & Hds & H1 & H2).
      assert (Hpost : forall x, x ∈ pre c ++ post c -> x ∈ elems s) by (intros x; rewrite Es, elems_plug; simpl; done).
      split; [|exists c; split; [done|]; split; [done|]; split; [done|]; split].
      * intros l Hl. assert (Hls : l ∈ elems s) by (apply Hd; by eexists).
        rewrite Es, elems_plug in Hls. simpl in Hls. rewrite Forall_forall in H1, H2.
        assert (Hw : way_of u nm l = None) by (rewrite (way_of_named u nm nm l Hl), (proj2 (name_cmp_eq nm nm) eq_refl); done).
        apply elem_of_app in Hls as [Hls|Hls]; [rewrite H1 in Hw|rewrite H2 in Hw]; done.
      * rewrite Forall_forall in H1 |- *. intros x Hx. destruct (Hex x) as (a & Ha & _); [apply Hpost; set_solver|]. exists a. split; [done|].
        specialize (H1 x Hx). rewrite (way_of_named u nm a x Ha) in H1. unfold name_lt. rewrite name_cmp_opp. by destruct (name_cmp nm a).
      * rewrite Forall_forall in H2 |- *. intros x Hx. destruct (Hex x) as (a & Ha & _); [apply Hpost; set_solver|]. exists a. split; [done|].
        specialize (H2 x Hx). rewrite (way_of_named u nm a x Ha) in H2. unfold name_lt. by destruct (name_cmp nm a).
Qed.

End UserWakelockInv.

(** * User wake locks: the files

    The machine of the wake locks with user space on top: what a write to the two
    files does, and what a read of them shows. *)

Local Open Scope Z_scope.
Local Open Scope kernel_scope.

Module UserWakelockTop.
Import Wakelock WakelockInv WakelockTop Ctype Rbtree RbtreeRep RbtreeInsert RbtreeBal RbtreeOps RbtreeWalk UserWakelock UserWakelockInv.

(** ** The argument *)

(** A buffer with a terminator in it. *)
Definition terminated (buf : list byte) : Prop := x00 ∈ buf.

Lemma skip_name_ok buf : terminated buf -> exists nm rest, buf = nm ++ rest /\ terminated rest /\
  skip_name buf = Some (length nm, rest) /\ Forall (fun c => c <> x00 /\ isspace c = false) nm.
Proof.
  induction buf as [|c buf IH]; intros Ht; [by apply elem_of_nil in Ht|]. simpl. destruct (decide (c = x00)) as [->|Hc].
  - exists [], (x00 :: buf). rewrite bool_decide_eq_true_2 by done. done.
  - rewrite bool_decide_eq_false_2 by done. simpl. destruct (isspace c) eqn:Hs.
    + exists [], (c :: buf). done.
    + destruct IH as (nm & rest & -> & Hr & -> & Hnm); [apply elem_of_cons in Ht as [Ht|Ht]; [congruence|done]|]. simpl.
      exists (c :: nm), rest. split; [done|]. split; [done|]. split; [done|]. by constructor.
Qed.

Lemma skip_space_ok s : terminated s -> exists s', skip_space s = Some s' /\ terminated s'.
Proof.
  induction s as [|c s IH]; intros Ht; [by apply elem_of_nil in Ht|]. simpl. destruct (isspace c) eqn:Hs; [|by eexists].
  apply IH. apply elem_of_cons in Ht as [<-|Ht]; [discriminate Hs|done].
Qed.

Lemma strtoull_loop_ok base s : terminated s -> forall r, exists v s', strtoull_loop s base r = Some (v, s') /\ terminated s'.
Proof.
  induction s as [|c s IH]; intros Ht r; [by apply elem_of_nil in Ht|]. simpl. destruct (isxdigit c) eqn:Hx; [|by eexists _, _].
  case_bd; [by eexists _, _|]. apply IH. apply elem_of_cons in Ht as [<-|Ht]; [discriminate Hx|done].
Qed.

(** A terminated string can be read up to and including its terminator. *)
Lemma terminated_head s : terminated s -> exists c s', s = c :: s' /\ (c <> x00 -> terminated s').
Proof. intros Ht. destruct s as [|c s]; [by apply elem_of_nil in Ht|]. exists c, s. split; [done|]. intros Hc. apply elem_of_cons in Ht as [Ht|Ht]; [congruence|done]. Qed.

Lemma simple_strtoull_ok s : terminated s -> exists v s', simple_strtoull s = Some (v, s') /\ terminated s'.
Proof.
  intros Ht. destruct (terminated_head s Ht) as (c0 & s0 & -> & H0). unfold simple_strtoull, simple_guess_base. simpl.
  case_bd as Hz; [|apply (strtoull_loop_ok 10 _ Ht)].
  destruct (terminated_head s0) as (c1 & s1 & -> & H1); [apply H0; intros ->; discriminate Hz|]. simpl. case_bd as Hx; simpl.
  2: { apply (strtoull_loop_ok 8 _ Ht). }
  destruct (terminated_head s1) as (c2 & s2 & -> & H2); [apply H1; intros ->; discriminate Hx|]. simpl.
  destruct (isxdigit c2); simpl.
  - apply (strtoull_loop_ok 16 (c2 :: s2)).
    apply H1. intros ->. discriminate Hx.
  - apply (strtoull_loop_ok 8 _ Ht).
Qed.

Lemma at_end_ok s : terminated s -> exists e, at_end s = Some e.
Proof. intros Ht. destruct (terminated_head s Ht) as (c & s' & -> & _). by eexists. Qed.

(** The argument of a terminated buffer is a name, or is refused. *)
Lemma parse_arg_ok buf tp : terminated buf -> exists res, parse_arg buf tp = Some res /\
  match res with
  | inl e => e = - EINVAL
  | inr (len, t) => exists nm rest, buf = nm ++ rest /\ len = length nm /\ nm <> [] /\
      Forall (fun c => c <> x00 /\ isspace c = false) nm
  end.
Proof.
  intros Ht. unfold parse_arg. destruct (skip_name_ok buf Ht) as (nm & rest & -> & Hr & -> & Hnm). simpl.
  case_bd as Hl; [by eexists|]. destruct (skip_space_ok rest Hr) as (r1 & -> & Hr1). simpl. destruct (at_end_ok r1 Hr1) as (e & ->). simpl.
  assert (Hnn : nm <> []) by (by destruct nm).
  destruct (tp && negb e).
  - destruct (simple_strtoull_ok r1 Hr1) as (v & r2 & -> & Hr2). simpl. destruct (skip_space_ok r2 Hr2) as (r3 & -> & Hr3). simpl.
    destruct (at_end_ok r3 Hr3) as (e' & ->). simpl. destruct e'; simpl; [|by eexists]. eexists. split; [done|]. by exists nm, rest.
  - destruct e; simpl; [|by eexists]. eexists. split; [done|]. by exists nm, rest.
Qed.

(** ** Locks of user space stay *)

(** An initialised lock stays initialised and keeps its type. *)
Definition keeps (m m' : gmap lid lview) : Prop :=
  forall x v, m !! x = Some v -> v_init v = true -> exists v', m' !! x = Some v' /\ v_init v' = true /\ v_type v' = v_type v.

Lemma keeps_refl m : keeps m m.
Proof. intros x v Hx Hi. by exists v. Qed.

Lemma keeps_trans m1 m2 m3 : keeps m1 m2 -> keeps m2 m3 -> keeps m1 m3.
Proof. intros H1 H2 x v Hx Hi. destruct (H1 x v Hx Hi) as (v2 & Hx2 & Hi2 & <-). destruct (H2 x v2 Hx2 Hi2) as (v3 & ? & ? & ?). by exists v3. Qed.

Lemma keeps_status m id v s : m !! id = Some v -> keeps m (<[id := with_status v s]> m).
Proof.
  intros Hid x w Hx Hi. destruct (decide (x = id)) as [->|Hne]; [|rewrite lookup_insert_ne by done; by exists w].
  rewrite lookup_insert_eq. rewrite Hid in Hx. injection Hx as <-. by eexists.
Qed.

Lemma keeps_has j type m m' ret : has_spec j type m m' ret -> keeps m m'.
Proof.
  intros H x v Hx Hi. inversion H; subst; [by exists v|]. rewrite lookup_fmap, Hx. simpl. eexists. split; [done|].
  unfold expire_all, expire_view. case_decide; [|done]. destruct (v_status v); [done..|]. by case_decide.
Qed.

Lemma keeps_eval j a a' : a_eval j a a' -> keeps (a_locks a) (a_locks a').
Proof. intros (m' & ret & Hs & ->). by eapply keeps_has. Qed.

Lemma keeps_lock j id t a a' : a_lock j id t a a' -> keeps (a_locks a) (a_locks a').
Proof.
  intros (v & Ev & Ha). cbv zeta in Ha. set (a1 := with_locks a _) in Ha.
  assert (K1 : keeps (a_locks a) (a_locks a1)) by (by apply keeps_status).
  revert Ha. case_bd; [|by intros ->]. destruct t; [|by intros ->]. intros Ha. eapply keeps_trans; [exact K1|]. by apply (keeps_eval j (a_event_inc a1)).
Qed.

Lemma keeps_unlock j id a a' : a_unlock j id a a' -> keeps (a_locks a) (a_locks a').
Proof.
  intros (v & Ev & Ha). cbv zeta in Ha. set (a1 := with_locks a _) in Ha.
  assert (K1 : keeps (a_locks a) (a_locks a1)) by (by apply keeps_status).
  revert Ha. case_bd; [|by intros ->]. intros Ha. eapply keeps_trans; [exact K1|]. by apply (keeps_eval j a1).
Qed.

(** All locks but [l] are as they were, or are suspend locks whose time has
    passed and which were taken off. *)
Definition others_kept (j : Z) (l : lid) (m m' : gmap lid lview) : Prop :=
  forall x v, x <> l -> m !! x = Some v -> m' !! x = Some v \/ m' !! x = Some (expire_all j WAKE_LOCK_SUSPEND v).

Lemma others_eval j l v a s a' a1 : a_locks a !! l = Some v -> a_locks a1 = <[l := with_status v s]> (a_locks a) ->
  a_eval j a1 a' -> others_kept j l (a_locks a) (a_locks a').
Proof.
  intros Hv E1 (m' & ret & Hs & ->) x w Hx Hw. rewrite E1 in Hs. simpl. inversion Hs; subst; simpl.
  - left. by rewrite lookup_insert_ne.
  - right. by rewrite lookup_fmap, lookup_insert_ne, Hw by done.
Qed.

Lemma others_status j l v s m : others_kept j l m (<[l := with_status v s]> m).
Proof. intros x w Hx Hw. left. by rewrite lookup_insert_ne. Qed.

Lemma others_lock j l t a a' : a_lock j l t a a' -> others_kept j l (a_locks a) (a_locks a').
Proof.
  intros (v & Ev & Ha). cbv zeta in Ha. revert Ha. case_bd; [destruct t|]; [|intros ->; apply others_status..].
  apply (others_eval j l v a (Until (j +u z))); done.
Qed.

Lemma others_unlock j l a a' : a_unlock j l a a' -> others_kept j l (a_locks a) (a_locks a').
Proof.
  intros (v & Ev & Ha). cbv zeta in Ha. revert Ha. case_bd; [|intros ->; apply others_status].
  apply (others_eval j l v a Off); done.
Qed.

Lemma view_init_new st id type name : valid_type type -> exists st', wake_lock_init st id type (Some name) = Some st' /\
  view st' = <[id := mk_view true type Off]> (view st) /\ abs st' = with_locks (abs st) (<[id := mk_view true type Off]> (view st)).
Proof.
  intros Hty. unfold wake_lock_init. eexists. split; [done|].
  assert (E : view (add_inactive (set_lock st id (mk_lock (Z.lor (Z.land type WAKE_LOCK_TYPE_MASK) WAKE_LOCK_INITIALIZED)
    (Some name) (default 0 (expires <$> locks st !! id)) (mk_stat 0 0 0 0 0 0 0))) id) = <[id := mk_view true type Off]> (view st)).
  { change (view (add_inactive ?x id)) with (view x). rewrite view_set_lock. f_equal. destruct Hty as [->| ->]; reflexivity. }
  split; [done|]. unfold abs, with_locks. by rewrite E.
Qed.

Lemma exec_keeps s clk ev s' x v : winv (wl s) -> enabled s clk ev -> exec s clk ev = Some s' -> ev <> EvDestroy x ->
  view (wl s) !! x = Some v -> v_init v = true ->
  exists v', view (wl s') !! x = Some v' /\ v_init v' = true /\ v_type v' = v_type v.
Proof.
  intros Hw [Hj Hen] Ex Hd Hv Hi.
  destruct ev as [id type name|id|id|id t|id|type| | | | | |]; cbn [exec] in Ex.
  - destruct Hen as [Hty Hk]. destruct (view_init_new (wl s) id type name Hty) as (st' & E' & V' & _). rewrite E' in Ex. injection Ex as <-. simpl.
    rewrite V', lookup_insert_ne; [by exists v|]. intros ->. apply Hk. by exists v.
  - destruct Hen as (Hid & y & Ey & Hyi). destruct (destroy_good (wl s) id y Hw Hid Ey Hyi) as (st' & E' & _ & A').
    rewrite E' in Ex. injection Ex as <-. simpl. change (view st') with (a_locks (abs st')). rewrite A'. simpl.
    rewrite lookup_insert_ne; [by exists v|]. congruence.
  - destruct Hen as (y & Ey & Hyi). destruct (wake_lock_internal_ok clk (wl s) id y 0 false Hw Ey Hyi) as (st' & E' & _ & Ha).
    unfold wake_lock in Ex. rewrite E' in Ex. injection Ex as <-. by apply (keeps_lock _ _ _ _ _ Ha).
  - destruct Hen as (y & Ey & Hyi). destruct (wake_lock_internal_ok clk (wl s) id y t true Hw Ey Hyi) as (st' & E' & _ & Ha).
    unfold wake_lock_timeout in Ex. rewrite E' in Ex. injection Ex as <-. by apply (keeps_lock _ _ _ _ _ Ha).
  - destruct Hen as (y & Ey & Hyi). destruct (wake_unlock_ok clk (wl s) id y Hw Ey Hyi) as (st' & E' & _ & Ha).
    rewrite E' in Ex. injection Ex as <-. by apply (keeps_unlock _ _ _ _ Ha).
  - destruct (has_wake_lock_locked_ok clk (wl s) type Hw Hen) as (st' & ret & m' & E' & _ & A' & Hs).
    unfold has_wake_lock in Ex. rewrite E' in Ex. injection Ex as <-. simpl. change (view st') with (a_locks (abs st')). rewrite A'.
    by apply (keeps_has _ _ _ _ _ Hs).
  - injection Ex as <-. by exists v.
  - unfold expire_wake_locks in Ex. destruct (has_wake_lock_locked_ok clk (set_timer (wl s) None) WAKE_LOCK_SUSPEND)
      as (st' & ret & m' & E' & _ & A' & Hs); [by apply winv_timer|by left|]. rewrite E' in Ex. injection Ex as <-. simpl.
    assert (Hk : exists v', view st' !! x = Some v' /\ v_init v' = true /\ v_type v' = v_type v).
    { change (view st') with (a_locks (abs st')). rewrite A'. by apply (keeps_has _ _ _ _ _ Hs). }
    by case_bd.
  - unfold suspend_enter, has_wake_lock in Ex. edestruct (has_wake_lock_locked_ok clk _ WAKE_LOCK_SUSPEND (winv_work (wl s) false Hw))
      as (st' & ret & m' & E' & _ & A' & Hs); [by left|]. rewrite E' in Ex. injection Ex as <-. simpl.
    change (view st') with (a_locks (abs st')). rewrite A'. by apply (keeps_has _ _ _ _ _ Hs).
  - injection Ex as <-. by exists v.
  - unfold power_suspend_late, has_wake_lock in Ex. destruct (has_wake_lock_locked_ok clk (wl s) WAKE_LOCK_SUSPEND Hw)
      as (st' & ret & m' & E' & _ & A' & Hs); [by left|]. rewrite E' in Ex. injection Ex as <-. simpl.
    change (view (set_wait st' true)) with (a_locks (abs st')). rewrite A'. by apply (keeps_has _ _ _ _ _ Hs).
  - destruct Hen as [n Hn]. rewrite Hn in Ex. simpl in Ex. unfold suspend_exit in Ex. revert Ex. case_bd; [|intros [= <-]; by exists v].
    destruct (wi_unknown _ Hw) as (y & Ey & Hyi & _).
    destruct (wake_lock_internal_ok clk (wl s) unknown_wakeup y (HZ / 2) true Hw Ey Hyi) as (st' & E' & _ & Ha).
    unfold wake_lock_timeout. rewrite E'. intros [= <-]. by apply (keeps_lock _ _ _ _ _ Ha).
Qed.

(** ** The machine *)

Record usys := mk_usys { us_uw : uw; us_now : Z; us_worker : option phase }.

Definition wsys (x : usys) : sys := mk_sys (wakelocks (us_uw x)) (us_now x) (us_worker x).

Definition with_uw (x : usys) (u : uw) : usys := mk_usys u (us_now x) (us_worker x).
Definition with_wsys (x : usys) (s : sys) : usys := mk_usys (set_wakelocks (us_uw x) (wl s)) (now s) (worker s).

(** A page that sysfs hands over: terminated, and here ASCII. *)
Definition page (buf : list byte) : Prop := terminated buf /\ Forall (fun c => byteZ c < 128) buf.

(** What [kzalloc] returns is not in use. *)
Definition fresh_lock (u : uw) (alloc : option nid) : Prop :=
  forall l : nid, alloc = Some l -> names u !! l = None /\ ~ known (wakelocks u) l.

(** Others leave the locks of user space where they are. *)
Definition foreign (u : uw) (ev : event) : Prop :=
  match ev with EvDestroy id => names u !! id = None | _ => True end.

Inductive ureach : usys -> Prop :=
  | ur_boot s : boot s -> ureach (mk_usys (mk_uw (mk_root None ∅) ∅ (wl s)) (now s) (worker s))
  | ur_event x clk ev s' : ureach x -> enabled (wsys x) clk ev -> exec (wsys x) clk ev = Some s' -> foreign (us_uw x) ev ->
      ureach (with_wsys x s')
  | ur_lock x clk buf n alloc u' ret : ureach x -> jiffies clk = us_now x -> page buf -> fresh_lock (us_uw x) alloc ->
      wake_lock_store clk (us_uw x) buf n alloc = Some (u', ret) -> ureach (with_uw x u')
  | ur_unlock x clk buf n u' ret : ureach x -> jiffies clk = us_now x -> page buf ->
      wake_unlock_store clk (us_uw x) buf n = Some (u', ret) -> ureach (with_uw x u').

Definition suspend_lock (w : state) (l : lid) : Prop :=
  exists v, view w !! l = Some v /\ v_init v = true /\ v_type v = WAKE_LOCK_SUSPEND.

(** The tree, and the wake locks below it. *)
Record uinv (x : usys) (s : tree) : Prop := {
  ui_reach : reachable (wsys x);
  ui_tree : tree_ok (us_uw x) s;
  ui_locks : forall (l : nid) b, names (us_uw x) !! l = Some b -> suspend_lock (wakelocks (us_uw x)) l
}.

Lemma page_name buf nm rest : page buf -> buf = nm ++ rest -> nm <> [] -> Forall (fun c => c <> x00 /\ isspace c = false) nm -> good_name nm.
Proof.
  intros [_ Hp] -> Hne Hnm. split; [done|]. apply Forall_app in Hp as [Hp _]. rewrite Forall_forall in *. intros c Hc.
  destruct (Hnm c Hc) as [H1 H2]. specialize (Hp c Hc). split; [|done]. split; [|done].
  assert (byteZ c <> 0); [|unfold byteZ in *; lia]. intros H0. apply H1, byteZ_inj. by rewrite H0.
Qed.

(** ** A new lock *)

Lemma add_wake_lock_ok x s (l : nid) nm c d : uinv x s -> good_name nm -> s = plug c E -> hole_side c d ->
  Forall (fun y => exists a, named (us_uw x) a y /\ name_lt a nm) (pre c) ->
  Forall (fun y => exists a, named (us_uw x) a y /\ name_lt nm a) (post c) ->
  names (us_uw x) !! l = None -> ~ known (wakelocks (us_uw x)) l ->
  exists u' s', add_wake_lock (us_uw x) l nm (hole c) d = Some u' /\ uinv (with_uw x u') s' /\
    names u' = <[l := nm ++ [x00]]> (names (us_uw x)) /\
    (forall y, y <> l -> view (wakelocks u') !! y = view (wakelocks (us_uw x)) !! y) /\
    exec (wsys x) (mk_clock (us_now x) 0 (mk_timespec 0 0) (mk_timespec 0 0)) (EvInit l WAKE_LOCK_SUSPEND nm) = Some (wsys (with_uw x u')).
Proof.
  intros [Hre Hto Hlk] Hnm Es Hd Hpre Hpost Hl Hk. pose proof Hto as [Hr Hrb Hdom Hgn Hs]. set (u := us_uw x) in *.
  assert (Hty : valid_type WAKE_LOCK_SUSPEND) by by left.
  destruct (view_init_new (wakelocks u) l WAKE_LOCK_SUSPEND nm Hty) as (w' & Ew & Vw & Aw).
  assert (Hln : l ∉ elems s) by (rewrite Hdom, Hl; by intros [? ?]).
  destruct (insert_ok (user_wake_locks u) s c d l Hr Hrb Es Hln Hd) as (t1 & t2 & s' & E1 & E2 & Hr2 & Hrb2 & Hel & _).
  unfold add_wake_lock. rewrite Ew. simpl. rewrite E1. simpl. rewrite E2. simpl. eexists _, s'. split; [done|].
  assert (Hex : exec (wsys x) (mk_clock (us_now x) 0 (mk_timespec 0 0) (mk_timespec 0 0)) (EvInit l WAKE_LOCK_SUSPEND nm)
    = Some (mk_sys w' (us_now x) (us_worker x))).
  { cbn [exec]. unfold wsys. cbn [wl now worker]. fold u. by rewrite Ew. }
  set (u' := mk_uw t2 (<[l := nm ++ [x00]]> (names u)) w').
  assert (Hsame : forall y a, named u a y -> named u' a y).
  { intros y a Ha. unfold named in *. simpl. rewrite lookup_insert_ne; [done|]. intros ->. by rewrite Hl in Ha. }
  split; [|split; [done|split; [intros y Hy; simpl; rewrite Vw; by apply lookup_insert_ne|exact Hex]]]. split; simpl.
  - eapply reach_step; [exact Hre| |exact Hex]. split; [done|]. split; [done|]. exact Hk.
  - split; simpl; [done|done| | |].
    + intros y. rewrite Hel, elem_of_app, elem_of_cons. destruct (decide (y = l)) as [->|Hy].
      * rewrite lookup_insert_eq. split; [done|]. tauto.
      * rewrite lookup_insert_ne by done. rewrite <- Hdom, Es, elems_plug. simpl. rewrite elem_of_app. tauto.
    + intros y b. rewrite lookup_insert_Some. intros [[<- <-]|[_ Hb]]; [by exists nm|by apply (Hgn y)].
    + rewrite Hel. rewrite Es, elems_plug in Hs. simpl in Hs. rewrite StronglySorted_app in Hs. destruct Hs as (S1 & S2 & S3).
      assert (Hw : forall L, StronglySorted (before_in u) L -> StronglySorted (before_in u') L).
      { intros L. apply sorted_weaken. intros y z _ _ (a & b & Ha & Hb & Hab). exists a, b. auto. }
      assert (Hll : named u' nm l) by (unfold named; simpl; apply lookup_insert_eq).
      rewrite Forall_forall in Hpre, Hpost. apply StronglySorted_app. split; [|split; [by apply Hw|]].
      * intros y z Hy. rewrite elem_of_cons. intros [->|Hz].
        -- destruct (Hpre y Hy) as (a & Ha & Hlt). exists a, nm. auto.
        -- destruct (S1 y z Hy Hz) as (a & b & Ha & Hb & Hab). exists a, b. auto.
      * apply StronglySorted_cons. split; [|by apply Hw]. apply Forall_forall. intros z Hz. destruct (Hpost z Hz) as (a & Ha & Hlt).
        exists nm, a. auto.
  - intros y b. rewrite lookup_insert_Some. intros [[<- _]|[Hy Hb]].
    + eexists. split; [by rewrite Vw, lookup_insert_eq|]. done.
    + destruct (Hlk y b Hb) as (v & Hv & Hi & Ht). exists v. split; [|done]. rewrite Vw, lookup_insert_ne; [done|]. congruence.
Qed.

(** ** Lookups *)

(** What a lookup may do: find the lock of the name, refuse, or make it. *)
Definition lookup_spec (u : uw) (buf : list byte) (allocate : option (option nid)) (tp : bool) (u' : uw) (res : Z + nid * Z) : Prop :=
  match parse_arg buf tp with
  | Some (inr (len, t)) =>
      (exists l, named u (take len buf) l /\ u' = u /\ res = inr (l, t)) \/
      (forall l, ~ named u (take len buf) l) /\
      match allocate with
      | None => u' = u /\ res = inl (- EINVAL)
      | Some None => u' = u /\ res = inl (- ENOMEM)
      | Some (Some l) => names u' = <[l := take len buf ++ [x00]]> (names u) /\ res = inr (l, t) /\
          forall y, y <> l -> view (wakelocks u') !! y = view (wakelocks u) !! y
      end
  | _ => u' = u /\ res = inl (- EINVAL)
  end.

Lemma with_same x : with_uw x (us_uw x) = x.
Proof. by destruct x. Qed.

Lemma lookup_ok x s buf allocate tp : uinv x s -> page buf -> (forall a, allocate = Some a -> fresh_lock (us_uw x) a) ->
  exists u' res s', lookup_wake_lock_name (us_uw x) buf allocate tp = Some (u', res) /\ uinv (with_uw x u') s' /\
    lookup_spec (us_uw x) buf allocate tp u' res.
Proof.
  intros Hu Hp Hf. unfold lookup_wake_lock_name, lookup_spec. destruct (parse_arg_ok buf tp (proj1 Hp)) as (res & -> & Hres). simpl.
  destruct res as [e|[len t]]; [subst e; exists (us_uw x), (inl (- EINVAL)), s; by rewrite with_same|].
  destruct Hres as (nm & rest & Eb & -> & Hne & Hch). pose proof (page_name buf nm rest Hp Eb Hne Hch) as Hgn.
  assert (Ht : take (length nm) buf = nm) by (rewrite Eb; by rewrite take_app_length). rewrite Ht.
  destruct (search_name (us_uw x) s nm rest (ui_tree _ _ Hu) Hgn) as (pl & E & Hpl). rewrite <- Eb in E. rewrite E. simpl.
  destruct pl as [l|p d].
  - exists (us_uw x), (inr (l, t)), s. rewrite with_same. split; [done|]. split; [done|]. left. by exists l.
  - destruct Hpl as (Hno & c & Es & -> & Hd & Hpre & Hpost). destruct allocate as [[l|]|].
    + destruct (Hf (Some l) eq_refl l eq_refl) as [Hl Hk].
      destruct (add_wake_lock_ok x s l nm c d Hu Hgn Es Hd Hpre Hpost Hl Hk) as (u' & s' & E' & Hu' & Hn & Hv & _).
      rewrite E'. simpl. exists u', (inr (l, t)), s'. split; [done|]. split; [done|]. right. done.
    + exists (us_uw x), (inl (- ENOMEM)), s. rewrite with_same. split; [done|]. split; [done|]. by right.
    + exists (us_uw x), (inl (- EINVAL)), s. rewrite with_same. split; [done|]. split; [done|]. by right.
Qed.

(** ** Locking and unlocking *)

Lemma uinv_wakelocks x s w : uinv x s -> reachable (mk_sys w (us_now x) (us_worker x)) -> keeps (view (wakelocks (us_uw x))) (view w) ->
  uinv (with_uw x (set_wakelocks (us_uw x) w)) s.
Proof.
  intros [Hre Hto Hlk] Hr Hk. split; [done| |].
  - by destruct Hto.
  - intros l b Hl. destruct (Hlk l b Hl) as (v & Hv & Hi & Ht). destruct (Hk l v Hv Hi) as (v' & Hv' & Hi' & Ht').
    exists v'. split; [done|]. split; [done|]. congruence.
Qed.

Lemma status_until j l t a a' v : a_lock j l (Some t) a a' -> a_locks a !! l = Some v -> v_type v = WAKE_LOCK_SUSPEND -> 0 < t < two31 ->
  exists v', a_locks a' !! l = Some v' /\ v_status v' = Until (j +u t).
Proof.
  intros (w & Hw & Ha) Hv Ht Hpos. rewrite Hv in Hw. injection Hw as <-. cbv zeta in Ha. rewrite bool_decide_eq_true_2 in Ha by done.
  destruct Ha as (m' & ret & Hs & ->). simpl in *. inversion Hs as [|]; subst; simpl.
  - exists (with_status v (Until (j +u t))). by rewrite lookup_insert_eq.
  - rewrite lookup_fmap, lookup_insert_eq. simpl. eexists. split; [done|]. unfold expire_all, expire_view. case_decide; [|done]. simpl.
    rewrite bool_decide_eq_false_2; [done|]. rewrite left_of_add by done. lia.
Qed.

Lemma status_on j l a a' v : a_lock j l None a a' -> a_locks a !! l = Some v -> exists v', a_locks a' !! l = Some v' /\ v_status v' = On.
Proof.
  intros (w & Hw & Ha) Hv. rewrite Hv in Hw. injection Hw as <-. cbv zeta in Ha. revert Ha. case_bd; intros ->; simpl; rewrite lookup_insert_eq; by eexists.
Qed.

Lemma status_off j l a a' v : a_unlock j l a a' -> a_locks a !! l = Some v -> exists v', a_locks a' !! l = Some v' /\ v_status v' = Off.
Proof.
  intros (w & Hw & Ha) Hv. rewrite Hv in Hw. injection Hw as <-. cbv zeta in Ha. revert Ha. case_bd; [|intros ->; simpl; rewrite lookup_insert_eq; by eexists].
  intros (m' & ret & Hs & ->). simpl in *. inversion Hs as [|]; subst; simpl; [rewrite lookup_insert_eq; by eexists|].
  rewrite lookup_fmap, lookup_insert_eq. simpl. eexists. split; [done|]. unfold expire_all, expire_view. by case_decide.
Qed.

Lemma lock_user x s clk (l : nid) b t : uinv x s -> jiffies clk = us_now x -> names (us_uw x) !! l = Some b ->
  exists w', (if bool_decide (t <> 0) then wake_lock_timeout clk (wakelocks (us_uw x)) l t else wake_lock clk (wakelocks (us_uw x)) l) = Some w' /\
    uinv (with_uw x (set_wakelocks (us_uw x) w')) s /\
    others_kept (us_now x) l (view (wakelocks (us_uw x))) (view w') /\
    exists v, view w' !! l = Some v /\ (t = 0 -> v_status v = On) /\ (0 < t < two31 -> v_status v = Until (us_now x +u t)).
Proof.
  intros Hu Hj Hl. destruct (ui_locks _ _ Hu l b Hl) as (v & Hv & Hi & Ht).
  pose proof (reachable_good _ (ui_reach _ _ Hu)) as Hw. simpl in Hw. rewrite <- Hj.
  case_bd as H0.
  - destruct (wake_lock_internal_ok clk (wakelocks (us_uw x)) l v t true Hw Hv Hi) as (w' & E & Hw' & Ha).
    unfold wake_lock_timeout. exists w'. split; [done|]. split.
    + apply uinv_wakelocks; [done| |by apply (keeps_lock _ _ _ _ _ Ha)]. eapply (reach_step (wsys x) clk (EvLockTimeout l t)); [apply Hu|by split; [|exists v]|].
      cbn [exec wsys wl]. unfold wake_lock_timeout. by rewrite E.
    + split; [exact (others_lock _ _ _ _ _ Ha)|]. destruct (decide (0 < t < two31)) as [Hpos|Hpos].
      * destruct (status_until _ _ _ _ _ v Ha Hv Ht Hpos) as (v' & Hv' & Hs'). exists v'. split; [done|]. done.
      * destruct (keeps_lock _ _ _ _ _ Ha l v Hv Hi) as (v' & Hv' & _). exists v'. done.
  - apply dec_stable in H0. subst t. destruct (wake_lock_internal_ok clk (wakelocks (us_uw x)) l v 0 false Hw Hv Hi) as (w' & E & Hw' & Ha).
    unfold wake_lock. exists w'. split; [done|]. split.
    + apply uinv_wakelocks; [done| |by apply (keeps_lock _ _ _ _ _ Ha)]. eapply (reach_step (wsys x) clk (EvLock l)); [apply Hu|by split; [|exists v]|].
      cbn [exec wsys wl]. unfold wake_lock. by rewrite E.
    + split; [exact (others_lock _ _ _ _ _ Ha)|]. destruct (status_on _ _ _ _ v Ha Hv) as (v' & Hv' & Hs'). exists v'. split; [done|]. split; [done|lia].
Qed.

Lemma unlock_user x s clk (l : nid) b : uinv x s -> jiffies clk = us_now x -> names (us_uw x) !! l = Some b ->
  exists w', wake_unlock clk (wakelocks (us_uw x)) l = Some w' /\ uinv (with_uw x (set_wakelocks (us_uw x) w')) s /\
    others_kept (us_now x) l (view (wakelocks (us_uw x))) (view w') /\ exists v, view w' !! l = Some v /\ v_status v = Off.
Proof.
  intros Hu Hj Hl. destruct (ui_locks _ _ Hu l b Hl) as (v & Hv & Hi & Ht).
  pose proof (reachable_good _ (ui_reach _ _ Hu)) as Hw. simpl in Hw.
  destruct (wake_unlock_ok clk (wakelocks (us_uw x)) l v Hw Hv Hi) as (w' & E & Hw' & Ha). exists w'. split; [done|]. split.
  - apply uinv_wakelocks; [done| |by apply (keeps_unlock _ _ _ _ Ha)]. eapply (reach_step (wsys x) clk (EvUnlock l)); [apply Hu|by split; [|exists v]|].
    cbn [exec wsys wl]. by rewrite E.
  - rewrite <- Hj. split; [exact (others_unlock _ _ _ _ Ha)|]. destruct (status_off _ _ _ _ v Ha Hv) as (v' & Hv' & Hs'). by exists v'.
Qed.

Lemma lock_store_ok x s clk buf n alloc : uinv x s -> jiffies clk = us_now x -> page buf -> fresh_lock (us_uw x) alloc ->
  exists u' ret s', wake_lock_store clk (us_uw x) buf n alloc = Some (u', ret) /\ uinv (with_uw x u') s' /\
    exists u1 res, lookup_spec (us_uw x) buf (Some alloc) true u1 res /\ user_wake_locks u' = user_wake_locks u1 /\ names u' = names u1 /\
      match res with
      | inl e => ret = e /\ u' = u1
      | inr (l, t) => ret = n /\ others_kept (us_now x) l (view (wakelocks (us_uw x))) (view (wakelocks u')) /\
          exists v, view (wakelocks u') !! l = Some v /\
          (t = 0 -> v_status v = On) /\ (0 < t < two31 -> v_status v = Until (us_now x +u t))
      end.
Proof.
  intros Hu Hj Hp Hf. destruct (lookup_ok x s buf (Some alloc) true Hu Hp) as (u1 & res & s1 & E1 & Hu1 & Hl); [by intros a [= <-]|].
  unfold wake_lock_store. rewrite E1. simpl. destruct res as [e|[l t]].
  - exists u1, e, s1. split; [done|]. split; [done|]. exists u1, (inl e). done.
  - assert (Hnl : (exists b, names u1 !! l = Some b) /\
      forall y, y <> l -> view (wakelocks u1) !! y = view (wakelocks (us_uw x)) !! y).
    { unfold lookup_spec in Hl. destruct (parse_arg buf true) as [[e|[len t']]|]; [by destruct Hl| |by destruct Hl].
      destruct Hl as [(l' & Hnm & -> & [= <- <-])|[_ Hl]]; [split; [by eexists|done]|]. destruct alloc as [l'|]; [|by destruct Hl].
      destruct Hl as (-> & [= <- <-] & Hv). split; [eexists; apply lookup_insert_eq|exact Hv]. }
    destruct Hnl as [[b Hb] Hsame]. destruct (lock_user (with_uw x u1) s1 clk l b t Hu1 Hj Hb) as (w' & E2 & Hu2 & Ho & Hv). simpl in E2. rewrite E2. simpl.
    eexists _, n, s1. split; [done|]. split; [exact Hu2|]. exists u1, (inr (l, t)). split; [done|]. split; [done|]. split; [done|].
    split; [done|]. split; [|done]. intros y v Hy Hyv. apply (Ho y v Hy). simpl. by rewrite Hsame.
Qed.

Lemma unlock_store_ok x s clk buf n : uinv x s -> jiffies clk = us_now x -> page buf ->
  exists u' ret s', wake_unlock_store clk (us_uw x) buf n = Some (u', ret) /\ uinv (with_uw x u') s' /\
    user_wake_locks u' = user_wake_locks (us_uw x) /\ names u' = names (us_uw x) /\
    exists res, lookup_spec (us_uw x) buf None false (us_uw x) res /\
      match res with
      | inl e => ret = e /\ u' = us_uw x
      | inr (l, _) => ret = n /\ others_kept (us_now x) l (view (wakelocks (us_uw x))) (view (wakelocks u')) /\
          exists v, view (wakelocks u') !! l = Some v /\ v_status v = Off
      end.
Proof.
  intros Hu Hj Hp. destruct (lookup_ok x s buf None false Hu Hp) as (u1 & res & s1 & E1 & Hu1 & Hl); [done|].
  assert (Hs : u1 = us_uw x /\ forall l t, res = inr (l, t) -> exists b, names u1 !! l = Some b).
  { unfold lookup_spec in Hl. destruct (parse_arg buf false) as [[e|[len t']]|]; [by destruct Hl as [-> ->]| |by destruct Hl as [-> ->]].
    destruct Hl as [(l' & Hnm & -> & ->)|(_ & -> & ->)]; [|done]. split; [done|]. intros l t [= -> ->]. by eexists. }
  destruct Hs as [-> Hs]. unfold wake_unlock_store. rewrite E1. simpl. destruct res as [e|[l t]].
  - exists (us_uw x), e, s1. split; [done|]. split; [done|]. split; [done|]. split; [done|]. exists (inl e). done.
  - destruct (Hs l t eq_refl) as [b Hb]. rewrite with_same in Hu1. destruct (unlock_user x s1 clk l b Hu1 Hj Hb) as (w' & E2 & Hu2 & Hv).
    rewrite E2. simpl. eexists _, n, s1. split; [done|]. split; [done|]. split; [done|]. split; [done|]. exists (inr (l, t)). done.
Qed.

Lemma ureach_uinv x : ureach x -> exists s, uinv x s.
Proof.
  induction 1 as [s Hb|x clk ev s' _ [s Hu] Hen Hex Hfo|x clk buf n alloc u' ret _ [s Hu] Hj Hp Hf E|x clk buf n u' ret _ [s Hu] Hj Hp E].
  - exists E. split; simpl.
    + destruct s. by apply reach_boot.
    + split; simpl.
      * split; [constructor|done|apply holds_nil].
      * split; [done|]. split; [by exists 0%nat|done].
      * intros y. rewrite lookup_empty. split; [intros Hy; by apply elem_of_nil in Hy|by intros [? ?]].
      * intros y b. by rewrite lookup_empty.
      * constructor.
    + intros l b. by rewrite lookup_empty.
  - exists s. destruct Hu as [Hre Hto Hlk]. split.
    + destruct s'. by eapply reach_step.
    + by destruct Hto.
    + intros l b Hl. destruct (Hlk l b Hl) as (v & Hv & Hi & Ht).
      destruct (exec_keeps (wsys x) clk ev s' l v (reachable_good _ Hre) Hen Hex) as (v' & Hv' & Hi' & Ht'); [|done|done|].
      * intros ->. simpl in Hfo. unfold with_wsys in Hl. simpl in Hl. pose proof (eq_trans (eq_sym Hfo) Hl) as Hq. discriminate Hq.
      * exists v'. split; [done|]. split; [done|]. congruence.
  - destruct (lock_store_ok x s clk buf n alloc Hu Hj Hp Hf) as (u2 & r2 & s' & E2 & Hu' & _). rewrite E in E2. injection E2 as <- <-. by exists s'.
  - destruct (unlock_store_ok x s clk buf n Hu Hj Hp) as (u2 & r2 & s' & E2 & Hu' & _). rewrite E in E2. injection E2 as <- <-. by exists s'.
Qed.

End UserWakelockTop.
