(* ===== verification/UserWakelockSpec.v ===== *)
(** * User wake locks: what user space is promised *)

From Stdlib Require Import ZArith Lia Strings.Byte.
From stdpp Require Import base option gmap sorting list_numbers list.
From S2P Require Import Prelude Wakelock WakelockInv WakelockTop Rbtree RbtreeRep RbtreeInsert RbtreeOps RbtreeWalk Ctype.
From S2P Require Import UserWakelock UserWakelockInv.

Local Open Scope Z_scope.
Local Open Scope kernel_scope.

Module UserWakelockSpec.
Import Wakelock WakelockInv WakelockTop Ctype Rbtree RbtreeRep RbtreeInsert RbtreeBal RbtreeOps RbtreeWalk.
Import UserWakelock UserWakelockInv UserWakelockTop.

(** ** Writing *)

Definition unused (u : uw) (nm : list byte) : Prop := forall l, ~ named u nm l.

(** [l] is the one lock of the name, and the other names are as before. *)
Definition the_lock (u u' : uw) (nm : list byte) (l : nid) : Prop :=
  (forall l', named u' nm l' <-> l' = l) /\ forall nm' l', nm' <> nm -> named u' nm' l' <-> named u nm' l'.

Lemma lookup_the_lock x s u' s' buf alloc len t : uinv x s -> uinv (with_uw x u') s' -> fresh_lock (us_uw x) alloc ->
  parse_arg buf true = Some (inr (len, t)) ->
  forall u1 l t', lookup_spec (us_uw x) buf (Some alloc) true u1 (inr (l, t')) -> names u' = names u1 ->
  t' = t /\ the_lock (us_uw x) u' (take len buf) l.
Proof.
  intros Hu Hu' Hf Hp u1 l t' Hl Hn. unfold lookup_spec in Hl. rewrite Hp in Hl.
  assert (Hnew : named u' (take len buf) l -> (forall nm' l', nm' <> take len buf -> named u' nm' l' <-> named (us_uw x) nm' l') ->
    the_lock (us_uw x) u' (take len buf) l).
  { intros H1 H2. split; [|done]. intros l'. split; [|by intros ->]. intros H'. by eapply (named_unique u' s' _ _ _ (ui_tree _ _ Hu')). }
  destruct Hl as [(l' & Hnm & -> & [= <- <-])|[Hno Hl]].
  - split; [done|]. apply Hnew; [unfold named; by rewrite Hn|]. intros nm' l'' _. unfold named. by rewrite Hn.
  - destruct alloc as [l'|]; [|by destruct Hl]. destruct Hl as (Hn1 & [= <- <-] & _). rewrite Hn1 in Hn. split; [done|].
    apply Hnew; [unfold named; rewrite Hn; apply lookup_insert_eq|]. intros nm' l'' Hne. unfold named. rewrite Hn.
    destruct (decide (l'' = l)) as [->|Hl'']; [|by rewrite lookup_insert_ne].
    rewrite lookup_insert_eq. destruct (Hf l eq_refl) as [Hfl _]. rewrite Hfl. split; [|done].
    intros [= Heq]. apply app_inj_tail in Heq as [Heq _]. by rewrite Heq in Hne.
Qed.

(** A lookup that fails changes nothing. *)
Lemma lookup_fails u buf allocate tp u' e : lookup_spec u buf allocate tp u' (inl e) ->
  u' = u /\ (e = - EINVAL \/ e = - ENOMEM).
Proof.
  unfold lookup_spec. destruct (parse_arg buf tp) as [[?|[? ?]]|]; [intros [-> [= ->]]; auto| |intros [-> [= ->]]; auto].
  intros [(? & _ & _ & [=])|[_ H]]. destruct allocate as [[?|]|]; [by destruct H as (_ & [=] & _)|..];
    destruct H as [-> [= ->]]; auto.
Qed.

(** ** Numbers *)

(** A number in decimal. *)
Definition decimal (ds : list byte) : Z := fold_left (fun r c => r * 10 + (byteZ c - 48)) ds 0.

Lemma digit_facts c : isdigit c = true -> 48 <= byteZ c <= 57 /\ isxdigit c = true /\ isspace c = false /\ c <> x00.
Proof. destruct c; intros H; try discriminate H; (split; [vm_compute; split; discriminate|]); done. Qed.

Lemma decimal_from_ge l : forall r, 0 <= r -> Forall (fun c => isdigit c = true) l -> r <= fold_left (fun r c => r * 10 + (byteZ c - 48)) l r.
Proof.
  induction l as [|d l IH]; intros r H0 Hl; simpl; [lia|]. apply Forall_cons in Hl as [Hd Hl]. destruct (digit_facts d Hd) as (Hb & _).
  specialize (IH (r * 10 + (byteZ d - 48)) ltac:(lia) Hl). lia.
Qed.

Lemma strtoull_decimal ds rest : forall r, Forall (fun c => isdigit c = true) ds -> 0 <= r ->
  fold_left (fun r c => r * 10 + (byteZ c - 48)) ds r < two64 -> isxdigit (default x00 (head rest)) = false -> rest <> [] ->
  strtoull_loop (ds ++ rest) 10 r = Some (fold_left (fun r c => r * 10 + (byteZ c - 48)) ds r, rest).
Proof.
  induction ds as [|c ds IH]; intros r Hds Hr Hv Hx Hne; simpl.
  - destruct rest as [|c rest]; [done|]. simpl in *. by rewrite Hx.
  - apply Forall_cons in Hds as [Hc Hds]. destruct (digit_facts c Hc) as (Hb & -> & _). unfold digit_value. rewrite Hc.
    rewrite bool_decide_eq_false_2 by lia. simpl in Hv.
    pose proof (decimal_from_ge ds (r * 10 + (byteZ c - 48)) ltac:(lia) Hds) as Hm.
    assert (E : u64 (u64 (r * 10) + (byteZ c - 48)) = r * 10 + (byteZ c - 48)).
    { unfold u64. rewrite (Z.mod_small (r * 10)) by lia. apply Z.mod_small. lia. }
    rewrite E. apply IH; try done. lia.
Qed.

Lemma skip_name_all nm c rest : Forall name_char nm -> c = x00 \/ isspace c = true -> skip_name (nm ++ c :: rest) = Some (length nm, c :: rest).
Proof.
  intros Hnm Hc. induction Hnm as [|x nm [Hx Hs] Hnm IH]; simpl.
  - destruct Hc as [->| ->]; [done|]. by rewrite orb_true_r.
  - rewrite Hs, bool_decide_eq_false_2; [|intros ->; destruct Hx as [Hx _]; discriminate Hx]. simpl. by rewrite IH.
Qed.

(** ** The argument *)

Definition spaces (sp : list byte) : Prop := Forall (fun c => isspace c = true /\ byteZ c < 128) sp.

Definition number (ds : list byte) : Prop :=
  ds <> [] /\ head ds <> Some x30 /\ Forall (fun c => isdigit c = true) ds.

(** The page asks for the lock [nm]: the name alone, or the name and a number
    of nanoseconds in decimal, with white space after them. *)
Inductive asks (nm : list byte) : list byte -> option Z -> Prop :=
  | asks_name sp : spaces sp -> asks nm (nm ++ sp ++ [x00]) None
  | asks_time sp ds sp' : spaces sp -> sp <> [] -> number ds -> spaces sp' ->
      asks nm (nm ++ sp ++ ds ++ sp' ++ [x00]) (Some (decimal ds)).

(** [t] jiffies are [ns] nanoseconds, rounded up and at least one. *)
Definition rounds_up (ns t : Z) : Prop :=
  1 <= t /\ ns <= t * (NSEC_PER_SEC / HZ) /\ (1 < t -> (t - 1) * (NSEC_PER_SEC / HZ) < ns).

(** The longest time, 2^31 - 1 jiffies (124 days at 200 Hz). *)
Definition max_time : Z := (two31 - 1) * (NSEC_PER_SEC / HZ).

Lemma skip_space_all sp rest c : spaces sp -> head rest = Some c -> isspace c = false ->
  skip_space (sp ++ rest) = Some rest.
Proof.
  intros Hsp Hc Hs. induction Hsp as [|x sp [Hx _] _ IH]; simpl; [|by rewrite Hx].
  destruct rest as [|c' rest]; [done|]. simpl in *. injection Hc as ->. by rewrite Hs.
Qed.

Lemma skip_name_to nm sp rest : Forall name_char nm -> spaces sp -> sp <> [] \/ head rest = Some x00 ->
  skip_name (nm ++ sp ++ rest) = Some (length nm, sp ++ rest).
Proof.
  intros Hnm Hsp Hor. destruct sp as [|c sp].
  - destruct Hor as [?|Hr]; [done|]. destruct rest as [|c rest]; [done|]. injection Hr as ->. apply skip_name_all; auto.
  - apply Forall_cons in Hsp as [[Hc _] _]. apply (skip_name_all nm c (sp ++ rest)); auto.
Qed.

(** A number of nanoseconds becomes a number of jiffies. *)
Lemma timeout_rounds ns : 0 <= ns <= max_time -> 0 < timeout_jiffies ns < two31 /\ rounds_up ns (timeout_jiffies ns).
Proof.
  unfold max_time, rounds_up, timeout_jiffies. change (NSEC_PER_SEC / HZ) with 5000000. change two31 with 2147483648. intros Hv.
  unfold u64, two64. rewrite (Z.mod_small (ns + _)) by lia.
  assert (Hq : (ns + (5000000 - 1)) / 5000000 < 2147483648) by (apply Z.div_lt_upper_bound; lia).
  pose proof (Z.div_mod (ns + (5000000 - 1)) 5000000 ltac:(lia)) as Hdm.
  pose proof (Z.mod_pos_bound (ns + (5000000 - 1)) 5000000 ltac:(lia)) as Hmb.
  case_bd as Hz; rewrite s32_small by (unfold two31; lia); lia.
Qed.

Lemma strtoull_number ds sp : number ds -> spaces sp -> decimal ds <= max_time ->
  simple_strtoull (ds ++ sp ++ [x00]) = Some (decimal ds, sp ++ [x00]).
Proof.
  intros (Hne & H0 & Hds) Hsp Hv. destruct ds as [|d ds]; [done|]. unfold simple_strtoull, simple_guess_base. simpl.
  rewrite (bool_decide_eq_false_2 (byteZ d = 48)) by (intros H; apply H0; simpl; f_equal; by apply byteZ_inj). simpl.
  change (if isxdigit d then _ else _) with (strtoull_loop ((d :: ds) ++ sp ++ [x00]) 10 0).
  apply (strtoull_decimal (d :: ds) (sp ++ [x00]) 0 Hds); [lia| | |by destruct sp].
  - change (decimal (d :: ds) < two64). unfold max_time, two64 in *. change (NSEC_PER_SEC / HZ) with 5000000 in Hv.
    change two31 with 2147483648 in Hv. lia.
  - destruct Hsp as [|c sp [Hc _] _]; [done|]. destruct c; try discriminate Hc; done.
Qed.

(** What the code reads from such a page. *)
Lemma asks_parse nm buf time : good_name nm -> asks nm buf time -> (forall ns, time = Some ns -> ns <= max_time) ->
  page buf /\ take (length nm) buf = nm /\
  parse_arg buf true = Some (inr (length nm, match time with None => 0 | Some ns => timeout_jiffies ns end)) /\
  (time = None -> parse_arg buf false = Some (inr (length nm, 0))).
Proof.
  intros [Hne Hnm] Ha Hmax. assert (Hlen : length nm <> 0%nat) by (by destruct nm).
  assert (Hasc : Forall (fun c => byteZ c < 128) nm) by (eapply Forall_impl; [exact Hnm|]; intros c [? _]; lia).
  assert (Hsa : forall sp, spaces sp -> Forall (fun c => byteZ c < 128) sp)
    by (intros sp H; eapply Forall_impl; [exact H|]; by intros c [_ ?]).
  assert (H0 : Forall (fun c => byteZ c < 128) [x00]) by by repeat constructor.
  destruct Ha as [sp Hsp|sp ds sp' Hsp Hspn Hds Hsp'].
  - split; [split; [unfold terminated; set_solver|rewrite !Forall_app; auto]|]. split; [apply take_app_length|].
    unfold parse_arg. rewrite (skip_name_to nm sp [x00]) by auto. simpl. rewrite bool_decide_eq_false_2 by done.
    rewrite (skip_space_all sp [x00] x00) by done. done.
  - pose proof Hds as (Hd & _ & Hdig).
    assert (Hda : Forall (fun c => byteZ c < 128) ds)
      by (eapply Forall_impl; [exact Hdig|]; intros c Hc; destruct (digit_facts c Hc); lia).
    split; [split; [unfold terminated; set_solver|rewrite !Forall_app; auto 6]|]. split; [apply take_app_length|]. split; [|done].
    unfold parse_arg. rewrite (skip_name_to nm sp (ds ++ sp' ++ [x00])) by auto. simpl. rewrite bool_decide_eq_false_2 by done.
    destruct ds as [|d ds]; [done|]. apply Forall_cons in Hdig as [Hc _]. destruct (digit_facts d Hc) as (_ & _ & Hns & Hnz).
    rewrite (skip_space_all sp ((d :: ds) ++ sp' ++ [x00]) d) by done. cbn [mbind option_bind].
    assert (He : at_end ((d :: ds) ++ sp' ++ [x00]) = Some false) by (unfold at_end; simpl; by rewrite bool_decide_eq_false_2).
    rewrite He. cbn [mbind option_bind negb andb]. rewrite (strtoull_number (d :: ds) sp') by auto. cbn [mbind option_bind].
    rewrite (skip_space_all sp' [x00] x00) by done. done.
Qed.

(** ** The files *)

(** The status a lock gets that is asked for at time [now]. *)
Definition asked_status (now : Z) (time : option Z) (st : status) : Prop :=
  match time with None => st = On | Some ns => exists t, rounds_up ns t /\ st = Until (now +u t) end.

Lemma decimal_nonneg ds : number ds -> 0 <= decimal ds.
Proof. intros (_ & _ & H). by apply (decimal_from_ge ds 0). Qed.

Lemma asks_nonneg nm buf ns : asks nm buf (Some ns) -> 0 <= ns.
Proof. inversion 1; subst. by apply decimal_nonneg. Qed.

(** C33: writing to the two files, for names of ASCII characters other than
    white space.  A write of the name to [wake_lock] takes the one lock of that
    name, which it creates when there is none, for ever; a write of the name and
    a decimal number of nanoseconds (not starting with 0, at most 2^31 - 1
    jiffies) takes it until that time, rounded up to jiffies and at least one,
    has passed; a write of the name to [wake_unlock] releases it.  No other name
    gets or loses its lock, and no other lock changes, except that suspend locks
    whose time has passed may be taken off.  The write fails, and changes nothing,
    exactly when there is no memory for a new lock, or the name to be released was
    never used.  And whatever ASCII text is written to either file, the write
    returns, and changes nothing when it fails. *)
Theorem user_wake_lock_files x clk n alloc :
  ureach x -> jiffies clk = us_now x -> fresh_lock (us_uw x) alloc ->
  (forall nm buf time, good_name nm -> asks nm buf time -> (forall ns, time = Some ns -> ns <= max_time) ->
     exists u' ret, wake_lock_store clk (us_uw x) buf n alloc = Some (u', ret) /\
       (ret = - ENOMEM /\ alloc = None /\ u' = us_uw x /\ unused (us_uw x) nm \/
        ret = n /\ exists l v, the_lock (us_uw x) u' nm l /\ view (wakelocks u') !! l = Some v /\
          v_type v = WAKE_LOCK_SUSPEND /\ asked_status (us_now x) time (v_status v) /\
          others_kept (us_now x) l (view (wakelocks (us_uw x))) (view (wakelocks u')))) /\
  (forall nm buf, good_name nm -> asks nm buf None ->
     exists u' ret, wake_unlock_store clk (us_uw x) buf n = Some (u', ret) /\
       (ret = - EINVAL /\ u' = us_uw x /\ unused (us_uw x) nm \/
        ret = n /\ names u' = names (us_uw x) /\ exists l v, named (us_uw x) nm l /\
          view (wakelocks u') !! l = Some v /\ v_status v = Off /\
          others_kept (us_now x) l (view (wakelocks (us_uw x))) (view (wakelocks u')))) /\
  (forall buf, page buf ->
     (exists u' ret, wake_lock_store clk (us_uw x) buf n alloc = Some (u', ret) /\
        (ret = n \/ u' = us_uw x /\ (ret = - EINVAL \/ ret = - ENOMEM))) /\
     (exists u' ret, wake_unlock_store clk (us_uw x) buf n = Some (u', ret) /\
        (ret = n \/ u' = us_uw x /\ ret = - EINVAL))).
Proof.
  intros Hr Hj Hf. destruct (ureach_uinv x Hr) as [s Hu]. split; [|split].
  - intros nm buf time Hnm Ha Hmax. destruct (asks_parse nm buf time Hnm Ha Hmax) as (Hp & Ht & Hpa & _).
    destruct (lock_store_ok x s clk buf n alloc Hu Hj Hp Hf) as (u' & ret & s' & E' & Hu' & u1 & res & Hl & _ & Hn & Hres).
    exists u', ret. split; [done|]. pose proof Hl as Hl0. unfold lookup_spec in Hl. rewrite Hpa, Ht in Hl.
    destruct res as [e|[l t']].
    + left. destruct Hl as [(l & _ & _ & [=])|[Hno Hl]]. destruct alloc as [l|]; [by destruct Hl as (_ & [=] & _)|].
      destruct Hl as [-> [= ->]]. by destruct Hres as [-> ->].
    + right. destruct (lookup_the_lock x s u' s' buf alloc _ _ Hu Hu' Hf Hpa u1 l t' Hl0 Hn) as [-> Hthe]. rewrite Ht in Hthe.
      destruct Hres as (-> & Hot & v & Hv & H1 & H2). split; [done|]. exists l, v. split; [done|]. split; [done|]. split; [|split; [|done]].
      * destruct (ui_locks _ _ Hu' l (nm ++ [x00])) as (v' & Hv' & _ & Ht'); [by apply (proj1 Hthe l)|].
        pose proof (eq_trans (eq_sym Hv) Hv') as Hq. by injection Hq as ->.
      * destruct time as [ns|]; [|by apply H1]. destruct (timeout_rounds ns) as [Hb Hru]; [split; [by eapply asks_nonneg|by apply Hmax]|].
        exists (timeout_jiffies ns). split; [done|]. by apply H2.
  - intros nm buf Hnm Ha. destruct (asks_parse nm buf None Hnm Ha) as (Hp & Ht & _ & Hpa); [done|].
    destruct (unlock_store_ok x s clk buf n Hu Hj Hp) as (u' & ret & s' & E' & Hu' & _ & Hn & res & Hl & Hres).
    exists u', ret. split; [done|]. unfold lookup_spec in Hl. rewrite (Hpa eq_refl), Ht in Hl.
    destruct Hl as [(l & Hnm' & _ & ->)|(Hno & _ & ->)].
    + right. destruct Hres as (-> & Hot & v & Hv & Ho). split; [done|]. split; [done|]. by exists l, v.
    + left. by destruct Hres as [-> ->].
  - intros buf Hp. split.
    + destruct (lock_store_ok x s clk buf n alloc Hu Hj Hp Hf) as (u' & ret & s' & E' & _ & u1 & res & Hl & _ & _ & Hres).
      exists u', ret. split; [done|]. destruct res as [e|[l t]]; [|left; apply Hres]. right. destruct Hres as [-> ->].
      by apply (lookup_fails (us_uw x) buf (Some alloc) true).
    + destruct (unlock_store_ok x s clk buf n Hu Hj Hp) as (u' & ret & s' & E' & _ & _ & _ & res & Hl & Hres).
      exists u', ret. split; [done|]. destruct res as [e|[l t]]; [|left; apply Hres]. right. destruct Hres as [-> ->].
      split; [done|]. destruct (lookup_fails _ _ _ _ _ _ Hl) as [_ [?|H]]; [done|]. revert Hl. unfold lookup_spec.
      destruct (parse_arg buf false) as [[?|[? ?]]|]; [by intros [_ [=]]| |by intros [_ [=]]].
      intros [(? & _ & _ & [=])|(_ & _ & [=])]. done.
Qed.

(** The machine after boot, and a lock of user space. *)
Definition demo_users : usys := mk_usys (mk_uw (mk_root None ∅) ∅ (wl demo_boot)) 1000 None.

Lemma demo_users_reach : ureach demo_users.
Proof. apply (ur_boot demo_boot). exists demo_clk. split; vm_compute; reflexivity. Qed.

Lemma demo_fresh : fresh_lock (us_uw demo_users) (Some 7%nat).
Proof.
  intros l [= <-]. split; [done|]. intros (v & Hv & _). vm_compute in Hv. discriminate Hv.
Qed.

Lemma user_wake_lock_files_witness :
  exists u' l v, wake_lock_store demo_clk (us_uw demo_users) ([x66; x6f; x6f] ++ [x20] ++ [x31; x32] ++ [x0a] ++ [x00]) 8 (Some 7%nat)
      = Some (u', 8) /\
    named u' [x66; x6f; x6f] l /\ view (wakelocks u') !! l = Some v /\ asked_status 1000 (Some 12) (v_status v).
Proof.
  destruct (user_wake_lock_files demo_users demo_clk 8 (Some 7%nat) demo_users_reach eq_refl demo_fresh) as [H _].
  destruct (H [x66; x6f; x6f] ([x66; x6f; x6f] ++ [x20] ++ [x31; x32] ++ [x0a] ++ [x00]) (Some 12)) as (u' & ret & E1 & Hres).
  - split; [discriminate|]. repeat constructor.
  - apply (asks_time [x66; x6f; x6f] [x20] [x31; x32] [x0a]); try discriminate; try (repeat constructor; fail).
    split; [discriminate|]. split; [discriminate|]. repeat constructor.
  - intros ns [= <-]. vm_compute. discriminate.
  - destruct Hres as [(_ & Hno & _)|(Hret & l & v & Ht & Hv & _ & Hs & _)]; [discriminate Hno|].
    exists u', l, v. split; [rewrite E1, Hret; reflexivity|]. split; [apply (proj1 Ht l); reflexivity|]. split; [exact Hv|exact Hs].
Defined.

(** A longer time does not fit the [long] it is put into: 2^32 jiffies are no
    timeout, half of that has passed already, and the longest time of all is one
    jiffy. *)
Lemma long_timeouts_wrap :
  timeout_jiffies (4294967296 * 5000000) = 0 /\ timeout_jiffies (2147483648 * 5000000) = - two31 /\
  timeout_jiffies (two64 - 1) = 1.
Proof. vm_compute. done. Qed.

(** Beyond ASCII the difference of two characters does not fit the [signed char]
    of [strncmp], which then is no order: eight locks with names of one byte are
    taken, one after the other, and the third cannot be released any more. *)
Definition take_locks (u : uw) (l : list (nid * byte)) : option uw :=
  foldl (fun u '(id, c) => u ← u; '(u, _) ← wake_lock_store demo_clk u [c; x00] 1 (Some id); Some u) (Some u) l.

Lemma non_ascii_lost :
  exists u, take_locks (us_uw demo_users)
      [(11%nat, x30); (12%nat, x90); (13%nat, xe0); (14%nat, xa1); (15%nat, xa8); (16%nat, xac); (17%nat, xae); (18%nat, xaf)] = Some u /\
    named u [xe0] 13%nat /\ exists u', wake_unlock_store demo_clk u [xe0; x00] 1 = Some (u', - EINVAL).
Proof. eexists. split; [vm_compute; reflexivity|]. split; [vm_compute; reflexivity|]. eexists. vm_compute. reflexivity. Qed.

(** ** Reading *)

Definition is_on (u : uw) (l : lid) : bool :=
  match view (wakelocks u) !! l with Some v => bool_decide (v_status v <> Off) | None => false end.

(** What a file shows: the names in order, a space after each, and a newline. *)
Definition listing (u : uw) (active : bool) (l : list nid) : list byte :=
  concat (map (fun y : nid => if Bool.eqb (is_on u y) active then text (default [] (names u !! y)) ++ [x20] else []) l) ++ [x0a].

Lemma emit_take X Y : emit (take 4095 X) Y = take 4095 (X ++ Y).
Proof.
  unfold emit, scnprintf, PAGE_SIZE. rewrite take_app. f_equal. rewrite length_take. f_equal. lia.
Qed.

Lemma active_view w l v : view w !! l = Some v -> wake_lock_active w l = Some (bool_decide (v_status v <> Off)).
Proof.
  intros Hv. destruct (view_lookup w l v Hv) as (lock & El & <-). unfold wake_lock_active. rewrite El. simpl. f_equal.
  unfold status_of. destruct (flag (flags lock) WAKE_LOCK_ACTIVE); [|done]. by destruct (flag (flags lock) WAKE_LOCK_AUTO_EXPIRE).
Qed.

Lemma show_loop_ok x s active l2 : forall l1 fuel X, uinv x s -> elems s = l1 ++ l2 -> (length l2 <= fuel)%nat ->
  show_loop fuel (us_uw x) active (head l2) (take 4095 X) =
    Some (take 4095 (X ++ concat (map (fun y : nid => if Bool.eqb (is_on (us_uw x) y) active
                                       then text (default [] (names (us_uw x) !! y)) ++ [x20] else []) l2))).
Proof.
  induction l2 as [|y l2 IH]; intros l1 fuel X Hu Hl Hf; [destruct fuel; simpl; by rewrite app_nil_r|].
  simpl in Hf. destruct fuel as [|fuel]; [lia|]. pose proof (ui_tree _ _ Hu) as Hto.
  assert (Hy : y ∈ elems s) by (rewrite Hl; set_solver). apply (to_dom _ _ Hto) in Hy as [b Hb].
  destruct (ui_locks _ _ Hu y b Hb) as (v & Hv & _). simpl. rewrite (active_view _ _ _ Hv). simpl. rewrite Hb. simpl.
  unfold rb_next. rewrite (rb_step_ok Rt _ s y l1 l2 (to_rep _ _ Hto) Hl). simpl.
  assert (Hon : is_on (us_uw x) y = bool_decide (v_status v <> Off)) by (unfold is_on; by rewrite Hv). rewrite Hon.
  set (b0 := Bool.eqb _ active). replace (if b0 then emit (take 4095 X) (text b ++ [x20]) else take 4095 X)
    with (take 4095 (X ++ if b0 then text b ++ [x20] else [])) by (destruct b0; [by rewrite emit_take|by rewrite app_nil_r]).
  rewrite (IH (l1 ++ [y])); [by rewrite <- app_assoc|done|by rewrite <- app_assoc|lia].
Qed.

(** Reading the two files.  All locks of user space are listed by
    name in increasing order, each in exactly one of the files: the active ones
    in [wake_lock], the others in [wake_unlock]; what does not fit the page is cut
    off after 4095 bytes, never written beyond it. *)
Theorem user_wake_lock_show x : ureach x ->
  exists l, NoDup l /\ (forall y, y ∈ l <-> is_Some (names (us_uw x) !! y)) /\ StronglySorted (before_in (us_uw x)) l /\
    wake_lock_show (us_uw x) = Some (take 4095 (listing (us_uw x) true l)) /\
    wake_unlock_show (us_uw x) = Some (take 4095 (listing (us_uw x) false l)).
Proof.
  intros Hr. destruct (ureach_uinv x Hr) as [s Hu]. pose proof (ui_tree _ _ Hu) as [Hrep _ Hd _ Hs]. exists (elems s).
  split; [apply Hrep|]. split; [done|]. split; [done|].
  assert (H : forall active, show (us_uw x) active = Some (take 4095 (listing (us_uw x) active (elems s)))).
  { intros active. unfold show, rb_first. rewrite (rb_end_ok Lt _ s Hrep). simpl.
    pose proof (show_loop_ok x s active (elems s) [] _ [] Hu eq_refl (rep_size _ _ Hrep)) as Hl. rewrite take_nil in Hl.
    rewrite Hl. simpl. by rewrite emit_take. }
  split; apply H.
Qed.

Lemma user_wake_lock_show_witness : exists l, wake_lock_show (us_uw demo_users) = Some (take 4095 (listing (us_uw demo_users) true l)).
Proof. destruct (user_wake_lock_show demo_users demo_users_reach) as (l & _ & _ & _ & H & _). exists l. exact H. Defined.

End UserWakelockSpec.
