(* ===== verification/Binder.v ===== *)
(** * The buffers of the binder ([drivers/staging/android/binder.c])

    Each process that receives transactions maps an area that the driver hands
    out in buffers.  A buffer is a header of 40 bytes, [struct binder_buffer],
    with its data behind it.  The buffers lie one after the other; all are on the
    list [buffers] by address, the free ones in a tree by size and the others in
    a tree by address.  Only the pages in use are backed by memory.

    The state is [binder_proc] as far as the area is concerned.  A header is read
    and written only while the pages it lies on are there, otherwise the routine
    is [None], as it is for a [BUG_ON].  Both trees link the [rb_node]s in the
    headers, and so share a store; a node is named by the offset of its header
    in the area. *)

From Stdlib Require Import ZArith Lia.
From stdpp Require Import base option gmap list_numbers list.
From S2P Require Import Prelude Ashmem Resource Rbtree.

Local Open Scope Z_scope.
Local Open Scope kernel_scope.

Module Binder.
Import Rbtree.

Notation PAGE_SIZE := Ashmem.PAGE_SIZE.
Notation PAGE_MASK := Ashmem.PAGE_MASK.
Notation PAGE_ALIGN := Ashmem.PAGE_ALIGN.
Notation ALIGN := Resource.ALIGN.

(** ** State *)

Definition tid := nat.

Record binder_buffer := mk_buffer {
  free : bool;
  allow_user_free : bool;
  async_transaction : bool;
  transaction : option tid;
  data_size : Z;
  offsets_size : Z
}.

(** [sizeof(struct binder_buffer)], which is [offsetof(struct binder_buffer, data)]
    too: 8 bytes for [entry], 12 for [rb_node] and 4 for each other word. *)
Definition sizeof_binder_buffer : Z := 40.

Record binder_proc := mk_proc {
  vma : option (Z * Z);             (* vm_start and vm_end *)
  buffer : Z;                       (* NULL is 0 *)
  user_buffer_offset : Z;
  buffers : list Z;
  headers : gmap Z binder_buffer;   (* memory, as far as it holds headers *)
  rb_nodes : gmap nid rb_node;
  free_buffers : option nid;
  allocated_buffers : option nid;
  free_async_space : Z;
  pages : list bool;                (* which pages are there *)
  buffer_size : Z
}.

Definition with_vma (v : option (Z * Z)) (p : binder_proc) : binder_proc :=
  mk_proc v (buffer p) (user_buffer_offset p) (buffers p) (headers p) (rb_nodes p) (free_buffers p)
    (allocated_buffers p) (free_async_space p) (pages p) (buffer_size p).
Definition with_buffers (l : list Z) (p : binder_proc) : binder_proc :=
  mk_proc (vma p) (buffer p) (user_buffer_offset p) l (headers p) (rb_nodes p) (free_buffers p)
    (allocated_buffers p) (free_async_space p) (pages p) (buffer_size p).
Definition with_headers (m : gmap Z binder_buffer) (p : binder_proc) : binder_proc :=
  mk_proc (vma p) (buffer p) (user_buffer_offset p) (buffers p) m (rb_nodes p) (free_buffers p)
    (allocated_buffers p) (free_async_space p) (pages p) (buffer_size p).
Definition with_async (z : Z) (p : binder_proc) : binder_proc :=
  mk_proc (vma p) (buffer p) (user_buffer_offset p) (buffers p) (headers p) (rb_nodes p) (free_buffers p)
    (allocated_buffers p) z (pages p) (buffer_size p).
Definition with_pages (l : list bool) (p : binder_proc) : binder_proc :=
  mk_proc (vma p) (buffer p) (user_buffer_offset p) (buffers p) (headers p) (rb_nodes p) (free_buffers p)
    (allocated_buffers p) (free_async_space p) l (buffer_size p).
Definition with_free_tree (t : rb_root) (p : binder_proc) : binder_proc :=
  mk_proc (vma p) (buffer p) (user_buffer_offset p) (buffers p) (headers p) (nodes t) (root_node t)
    (allocated_buffers p) (free_async_space p) (pages p) (buffer_size p).
Definition with_allocated_tree (t : rb_root) (p : binder_proc) : binder_proc :=
  mk_proc (vma p) (buffer p) (user_buffer_offset p) (buffers p) (headers p) (nodes t) (free_buffers p)
    (root_node t) (free_async_space p) (pages p) (buffer_size p).

Definition free_tree (p : binder_proc) : rb_root := mk_root (free_buffers p) (rb_nodes p).
Definition allocated_tree (p : binder_proc) : rb_root := mk_root (allocated_buffers p) (rb_nodes p).

(** [&buffer->rb_node] and [rb_entry]. *)
Definition rb_node_of (p : binder_proc) (b : Z) : nid := Z.to_nat (b - buffer p).
Definition rb_entry (p : binder_proc) (n : nid) : Z := buffer p + Z.of_nat n.

(** ** Memory *)

(** [proc->pages[(page_addr - proc->buffer) / PAGE_SIZE]] *)
Definition page_slot (p : binder_proc) (a : Z) : nat := Z.to_nat ((a - buffer p) / PAGE_SIZE).

Definition page_at (p : binder_proc) (a : Z) : option bool :=
  if bool_decide (buffer p <= a) then pages p !! page_slot p a else None.

Definition set_page (p : binder_proc) (a : Z) (v : bool) : binder_proc := with_pages (<[page_slot p a := v]> (pages p)) p.

Definition present (p : binder_proc) (a : Z) : bool := bool_decide (page_at p a = Some true).

(** The first and the last byte of the header at [b] are there. *)
Definition mapped (p : binder_proc) (b : Z) : bool := present p b && present p (b + sizeof_binder_buffer - 1).

Definition header (p : binder_proc) (b : Z) : option binder_buffer := if mapped p b then headers p !! b else None.

Definition set_header (p : binder_proc) (b : Z) (h : binder_buffer) : option binder_proc :=
  if mapped p b then Some (with_headers (<[b := h]> (headers p)) p) else None.

Definition set_free (v : bool) (h : binder_buffer) : binder_buffer :=
  mk_buffer v (allow_user_free h) (async_transaction h) (transaction h) (data_size h) (offsets_size h).
Definition set_transaction (t : option tid) (h : binder_buffer) : binder_buffer :=
  mk_buffer (free h) (allow_user_free h) (async_transaction h) t (data_size h) (offsets_size h).
Definition set_user_free (v : bool) (h : binder_buffer) : binder_buffer :=
  mk_buffer (free h) v (async_transaction h) (transaction h) (data_size h) (offsets_size h).

Definition update_header (p : binder_proc) (b : Z) (f : binder_buffer -> binder_buffer) : option binder_proc :=
  h ← header p b; set_header p b (f h).

(** ** The list and the trees *)

Definition data (b : Z) : Z := b +u sizeof_binder_buffer.

Definition binder_buffer_size (p : binder_proc) (b : Z) : Z :=
  match list_next b (buffers p) with
  | None => buffer p +u buffer_size p -u data b
  | Some next => next -u data b
  end.

(** The way to the place of a free buffer of a size. *)
Definition free_cmp (p : binder_proc) (new_buffer_size : Z) (n : nid) : option (option side) :=
  let buffer := rb_entry p n in
  h ← header p buffer;
  if free h then Some (Some (if bool_decide (new_buffer_size < binder_buffer_size p buffer) then Lt else Rt))
  else None.

Definition binder_insert_free_buffer (p : binder_proc) (new_buffer : Z) : option binder_proc :=
  h ← header p new_buffer;
  if free h then
    place ← rb_search (free_cmp p (binder_buffer_size p new_buffer)) (free_tree p);
    match place with
    | Found _ => None
    | Empty parent d =>
        t ← rb_link_node (free_tree p) (rb_node_of p new_buffer) parent d;
        t ← rb_insert_color t (rb_node_of p new_buffer);
        Some (with_free_tree t p)
    end
  else None.

(** The way to an address in the tree of allocated buffers. *)
Definition address_cmp (p : binder_proc) (key : Z) (n : nid) : option (option side) :=
  let buffer := rb_entry p n in
  h ← header p buffer;
  if free h then None
  else Some (if bool_decide (key < buffer) then Some Lt else if bool_decide (key > buffer) then Some Rt else None).

Definition binder_insert_allocated_buffer (p : binder_proc) (new_buffer : Z) : option binder_proc :=
  h ← header p new_buffer;
  if free h then None
  else
    place ← rb_search (address_cmp p new_buffer) (allocated_tree p);
    match place with
    | Found _ => None
    | Empty parent d =>
        t ← rb_link_node (allocated_tree p) (rb_node_of p new_buffer) parent d;
        t ← rb_insert_color t (rb_node_of p new_buffer);
        Some (with_allocated_tree t p)
    end.

Definition binder_buffer_lookup (p : binder_proc) (user_ptr : Z) : option (option Z) :=
  let kern_ptr := user_ptr -u user_buffer_offset p -u sizeof_binder_buffer in
  place ← rb_search (address_cmp p kern_ptr) (allocated_tree p);
  match place with
  | Found n => Some (Some (rb_entry p n))
  | Empty _ _ => Some None
  end.

(** ** Pages *)

(** What becomes of a page of the area: [alloc_page], [map_vm_area] and
    [vm_insert_page] in this order. *)
Inductive page_result := PageOk | PageNone | PageKernelFails | PageUserFails.

#[export] Instance page_result_eq_decision : EqDecision page_result.
Proof. solve_decision. Defined.

(** What an allocation depends on: whether the process still has its
    [mm_struct], and how each page, by its address, fares. *)
Record page_env := mk_env { e_mm : bool; e_page : Z -> page_result }.

(** [vm_insert_page] refuses addresses outside the mapping. *)
Definition insert_page_ok (v : Z * Z) (addr : Z) : bool := negb (bool_decide (addr < v.1) || bool_decide (addr >= v.2)).

(** [__free_page] of the page, whose slot becomes [NULL]. *)
Definition drop_page (p : binder_proc) (page_addr : Z) : option binder_proc :=
  pg ← page_at p page_addr;
  if pg : bool then Some (set_page p page_addr false) else None.

(** The loop that allocates; it ends with the address of the page that failed, if
    any, after its own part of the cleaning up. *)
Fixpoint map_loop (fuel : nat) (p : binder_proc) (v : Z * Z) (e : Z -> page_result) (page_addr end_ : Z)
  : option (binder_proc * option Z) :=
  if bool_decide (page_addr < end_) then
    match fuel with
    | O => None
    | S fuel =>
        pg ← page_at p page_addr;
        if pg : bool then None
        else
          match e page_addr with
          | PageNone => Some (p, Some page_addr)
          | r =>
              let p := set_page p page_addr true in
              if bool_decide (r = PageOk) && insert_page_ok v (page_addr +u user_buffer_offset p)
              then map_loop fuel p v e (page_addr +u PAGE_SIZE) end_
              else p ← drop_page p page_addr; Some (p, Some page_addr)
          end
    end
  else Some (p, None).

(** The loop that frees, from the last page down. *)
Fixpoint unmap_loop (fuel : nat) (p : binder_proc) (page_addr start : Z) : option binder_proc :=
  if bool_decide (page_addr >= start) then
    match fuel with
    | O => None
    | S fuel => p ← drop_page p page_addr; unmap_loop fuel p (page_addr -u PAGE_SIZE) start
    end
  else Some p.

(** [allocate] is what the allocation meets with, or none to free; [v] the [vma]
    argument. *)
Definition binder_update_page_range (p : binder_proc) (allocate : option page_env) (start end_ : Z) (v : option (Z * Z))
  : option (binder_proc * Z) :=
  if bool_decide (end_ <= start) then Some (p, 0)
  else
    let fuel := length (pages p) in
    match allocate with
    | None => p ← unmap_loop fuel p (end_ -u PAGE_SIZE) start; Some (p, - ENOMEM)
    | Some env =>
        let v := match v with Some v => Some v | None => if e_mm env then vma p else None end in
        match v with
        | None => Some (p, - ENOMEM)
        | Some v =>
            '(p, failed) ← map_loop fuel p v (e_page env) start end_;
            match failed with
            | None => Some (p, 0)
            | Some page_addr => p ← unmap_loop fuel p (page_addr -u PAGE_SIZE) start; Some (p, - ENOMEM)
            end
        end
    end.

(** ** Allocation *)

(** The size of the data and the offsets of a transaction, each aligned. *)
Definition request_size (data_size offsets_size : Z) : Z := ALIGN data_size 4 +u ALIGN offsets_size 4.

Definition size_cmp (p : binder_proc) (size : Z) (n : nid) : option (option side) :=
  let buffer := rb_entry p n in
  h ← header p buffer;
  if free h then
    let buffer_size := binder_buffer_size p buffer in
    Some (if bool_decide (size < buffer_size) then Some Lt else if bool_decide (size > buffer_size) then Some Rt else None)
  else None.

(** What is done once the pages are there: [buffer] leaves the tree of free
    buffers, and what it does not need becomes a free buffer of its own.  [stale]
    is what the memory of the new header holds. *)
Definition take_buffer (p : binder_proc) (best_fit : nid) (buffer size buffer_size : Z) (stale : binder_buffer) : option binder_proc :=
  t ← rb_erase (free_tree p) best_fit;
  let p := with_free_tree t p in
  p ← update_header p buffer (set_free false);
  p ← binder_insert_allocated_buffer p buffer;
  if bool_decide (buffer_size <> size) then
    let new_buffer := data buffer +u size in
    let p := with_buffers (list_add_after new_buffer buffer (buffers p)) p in
    p ← set_header p new_buffer (set_free true stale);
    binder_insert_free_buffer p new_buffer
  else Some p.

(** [binder_vma_close] does not take [binder_lock]: [closed] says that it runs
    between the first test of [proc->vma] and the allocation of the pages. *)
Definition binder_alloc_buf (p : binder_proc) (data_size offsets_size : Z) (is_async : bool)
    (closed : bool) (env : page_env) (stale : binder_buffer) : option (binder_proc * option Z) :=
  match vma p with
  | None => Some (p, None)
  | Some _ =>
      let size := request_size data_size offsets_size in
      if bool_decide (size < data_size) || bool_decide (size < offsets_size) then Some (p, None)
      else if is_async && bool_decide (free_async_space p < size +u sizeof_binder_buffer) then Some (p, None)
      else
        '(best_fit, equal) ← rb_bound (size_cmp p size) (free_tree p);
        match best_fit with
        | None => Some (p, None)
        | Some best_fit =>
            let buffer := rb_entry p best_fit in
            let buffer_size := binder_buffer_size p buffer in
            let has_page_addr := Z.land (data buffer +u buffer_size) PAGE_MASK in
            let buffer_size := if equal : bool then buffer_size
                               else if bool_decide (size +u sizeof_binder_buffer +u 4 >= buffer_size) then size
                               else size +u sizeof_binder_buffer in
            let end_page_addr := PAGE_ALIGN (data buffer +u buffer_size) in
            let end_page_addr := if bool_decide (end_page_addr > has_page_addr) then has_page_addr else end_page_addr in
            let p := if closed then with_vma None p else p in
            '(p, ret) ← binder_update_page_range p (Some env) (PAGE_ALIGN (data buffer)) end_page_addr None;
            if bool_decide (ret <> 0) then Some (p, None)
            else
              p ← take_buffer p best_fit buffer size buffer_size stale;
              p ← update_header p buffer (fun h => mk_buffer (free h) (allow_user_free h) is_async (transaction h) data_size offsets_size);
              Some (if is_async then with_async (free_async_space p -u (size +u sizeof_binder_buffer)) p else p, Some buffer)
        end
  end.

(** ** Freeing *)

Definition buffer_start_page (b : Z) : Z := Z.land b PAGE_MASK.
Definition buffer_end_page (b : Z) : Z := Z.land (b +u sizeof_binder_buffer -u 1) PAGE_MASK.

Definition binder_delete_free_buffer (p : binder_proc) (b : Z) : option binder_proc :=
  if bool_decide (head (buffers p) = Some b) then None
  else
    prev ← list_prev b (buffers p);
    h ← header p prev;
    if negb (free h) then None
    else
      let shares_prev := bool_decide (buffer_end_page prev = buffer_start_page b) in
      let free_page_start := negb shares_prev in
      let free_page_end := negb (shares_prev && bool_decide (buffer_end_page prev = buffer_end_page b)) in
      let '(free_page_start, free_page_end) :=
        match list_next b (buffers p) with
        | Some next =>
            if bool_decide (buffer_start_page next = buffer_end_page b)
            then (free_page_start && negb (bool_decide (buffer_start_page next = buffer_start_page b)), false)
            else (free_page_start, free_page_end)
        | None => (free_page_start, free_page_end)
        end in
      let p := with_buffers (list_del b (buffers p)) p in
      if free_page_start || free_page_end then
        '(p, _) ← binder_update_page_range p None
                    (if free_page_start then buffer_start_page b else buffer_end_page b)
                    ((if free_page_end then buffer_end_page b else buffer_start_page b) +u PAGE_SIZE) None;
        Some p
      else Some p.

(** The buffer behind [b], when it is free, is merged into [b]. *)
Definition merge_next (p : binder_proc) (b : Z) : option binder_proc :=
  match list_next b (buffers p) with
  | None => Some p
  | Some next =>
      h ← header p next;
      if free h then
        t ← rb_erase (free_tree p) (rb_node_of p next);
        binder_delete_free_buffer (with_free_tree t p) next
      else Some p
  end.

(** [b] is merged into the buffer before it, when that is free; the result is
    the buffer there is then. *)
Definition merge_prev (p : binder_proc) (b : Z) : option (binder_proc * Z) :=
  if bool_decide (head (buffers p) = Some b) then Some (p, b)
  else
    prev ← list_prev b (buffers p);
    h ← header p prev;
    if free h then
      p ← binder_delete_free_buffer p b;
      t ← rb_erase (free_tree p) (rb_node_of p prev);
      Some (with_free_tree t p, prev)
    else Some (p, b).

Definition binder_free_buf (p : binder_proc) (b : Z) : option binder_proc :=
  h ← header p b;
  let bsize := binder_buffer_size p b in
  let size := request_size (data_size h) (offsets_size h) in
  if free h || bool_decide (size > bsize) || bool_decide (transaction h <> None) ||
     bool_decide (b < buffer p) || bool_decide (b > buffer p +u buffer_size p)
  then None
  else
    let p := if async_transaction h then with_async (free_async_space p +u (size +u sizeof_binder_buffer)) p else p in
    '(p, _) ← binder_update_page_range p None (PAGE_ALIGN (data b)) (Z.land (data b +u bsize) PAGE_MASK) None;
    t ← rb_erase (allocated_tree p) (rb_node_of p b);
    p ← update_header (with_allocated_tree t p) b (set_free true);
    p ← merge_next p b;
    '(p, b) ← merge_prev p b;
    binder_insert_free_buffer p b.

(** ** The area *)

Definition SZ_4M : Z := 0x400000.
Definition VM_WRITE : Z := 2.

(** The rows of a page in an aliasing cache, [SHMLBA] / [PAGE_SIZE] of them. *)
Definition CACHE_COLOUR (a : Z) : Z := Z.shiftr (Z.land a 0x3fff) 12.

(** [vm_start] is moved up to the colour of [proc->buffer]. *)
Fixpoint colour_loop (fuel : nat) (vm_start buf : Z) : option Z :=
  if bool_decide (CACHE_COLOUR (Z.lxor vm_start buf) <> 0) then
    match fuel with O => None | S fuel => colour_loop fuel (vm_start +u PAGE_SIZE) buf end
  else Some vm_start.

(** [area] is what [get_vm_area] returns, [aliasing] is [cache_is_vipt_aliasing()],
    [array] says whether there is memory for [proc->pages]. *)
Definition binder_mmap (p : binder_proc) (vm_start vm_end vm_flags : Z) (area : option Z) (aliasing array : bool)
    (env : page_env) (stale : binder_buffer) : option (binder_proc * Z) :=
  let vm_end := if bool_decide (vm_end -u vm_start > SZ_4M) then vm_start +u SZ_4M else vm_end in
  if bool_decide (Z.land vm_flags VM_WRITE <> 0) then Some (p, - EPERM)
  else if bool_decide (buffer p <> 0) then Some (p, - EBUSY)
  else
    match area with
    | None => Some (p, - ENOMEM)
    | Some addr =>
        let offset := vm_start -u addr in
        vm_start ← (if aliasing then colour_loop 4 vm_start addr else Some vm_start);
        let size := vm_end -u vm_start in
        let p := mk_proc (vma p) addr offset (buffers p) (headers p) (rb_nodes p) (free_buffers p)
                   (allocated_buffers p) (free_async_space p) [] (buffer_size p) in
        let fail (p : binder_proc) := mk_proc (vma p) 0 (user_buffer_offset p) (buffers p) (headers p) (rb_nodes p)
                   (free_buffers p) (allocated_buffers p) (free_async_space p) [] (buffer_size p) in
        if negb array then Some (fail p, - ENOMEM)
        else
          let p := mk_proc (vma p) addr offset (buffers p) (headers p) (rb_nodes p) (free_buffers p)
                     (allocated_buffers p) (free_async_space p) (replicate (Z.to_nat (size / PAGE_SIZE)) false) size in
          '(p, ret) ← binder_update_page_range p (Some env) addr (addr +u PAGE_SIZE) (Some (vm_start, vm_end));
          if bool_decide (ret <> 0) then Some (fail p, - ENOMEM)
          else
            let p := with_buffers [addr] p in
            p ← set_header p addr (set_free true stale);
            p ← binder_insert_free_buffer p addr;
            Some (with_vma (Some (vm_start, vm_end)) (with_async (size / 2) p), 0)
    end.

Definition binder_vma_close (p : binder_proc) : binder_proc := with_vma None p.

(** ** Transactions

    What the driver does with the buffer of a transaction.  [t_buffer] holds
    [t->buffer] of every transaction there is, and [queued] the ones that wait on
    a list to be read by the receiver.  The objects inside the data, the target
    node with its list of asynchronous transactions, and the threads are not part
    of this state. *)

Record binder_state := mk_state { proc : binder_proc; t_buffer : gmap tid (option Z); queued : list tid }.

(** In [binder_transaction]: the buffer of a new transaction. *)
Definition transaction_alloc (s : binder_state) (t : tid) (data_size offsets_size : Z) (is_async closed : bool) (env : page_env)
    (stale : binder_buffer) : option (binder_state * bool) :=
  '(p, b) ← binder_alloc_buf (proc s) data_size offsets_size is_async closed env stale;
  match b with
  | None => Some (mk_state p (t_buffer s) (queued s), false)
  | Some b =>
      p ← update_header p b (set_user_free false);
      p ← update_header p b (set_transaction (Some t));
      Some (mk_state p (<[t := Some b]> (t_buffer s)) (queued s), true)
  end.

(** A transaction whose data cannot be copied, or whose objects cannot be
    translated, is given up again. *)
Definition transaction_fail (s : binder_state) (t : tid) : option binder_state :=
  tb ← t_buffer s !! t;
  b ← tb;
  p ← update_header (proc s) b (set_transaction None);
  p ← binder_free_buf p b;
  Some (mk_state p (delete t (t_buffer s)) (queued s)).

(** What [binder_transaction] does with the buffer and the list of the receiver:
    [copied] says whether the data could be copied and its objects translated. *)
Definition transaction_buffer (s : binder_state) (t : tid) (data_size offsets_size : Z) (is_async closed copied : bool) (env : page_env)
    (stale : binder_buffer) : option (binder_state * bool) :=
  '(s, ok) ← transaction_alloc s t data_size offsets_size is_async closed env stale;
  if ok : bool then
    if copied then Some (mk_state (proc s) (t_buffer s) (list_add_tail t (queued s)), true)
    else s ← transaction_fail s t; Some (s, false)
  else Some (s, false).

(** In [binder_thread_read]: the receiver reads the transaction.  Unless it is
    one that waits for a reply, it is freed. *)
Definition deliver (s : binder_state) (t : tid) (needs_reply : bool) : option binder_state :=
  tb ← t_buffer s !! t;
  b ← tb;
  p ← update_header (proc s) b (set_user_free true);
  if needs_reply then Some (mk_state p (t_buffer s) (list_del t (queued s)))
  else
    p ← update_header p b (set_transaction None);
    Some (mk_state p (delete t (t_buffer s)) (list_del t (queued s))).

(** [binder_pop_transaction], when its reply was sent or has failed. *)
Definition binder_pop_transaction (s : binder_state) (t : tid) : option binder_state :=
  tb ← t_buffer s !! t;
  p ← (match tb with Some b => update_header (proc s) b (set_transaction None) | None => Some (proc s) end);
  Some (mk_state p (delete t (t_buffer s)) (queued s)).

(** In [binder_release_work]: what becomes of a transaction that waits on the list
    of a thread that exits, or of the process.  [popped] says whether the sender is
    told, by [binder_send_failed_reply], which frees the transaction. *)
Definition release_work (s : binder_state) (t : tid) (popped : bool) : option binder_state :=
  tb ← t_buffer s !! t;
  b ← tb;
  _ ← header (proc s) b;
  let s := mk_state (proc s) (t_buffer s) (list_del t (queued s)) in
  if popped then binder_pop_transaction s t else Some s.

(** In [binder_free_thread]: the thread that was to reply is gone. *)
Definition free_thread_buffer (s : binder_state) (t : tid) : option binder_state :=
  tb ← t_buffer s !! t;
  match tb with
  | Some b =>
      p ← update_header (proc s) b (set_transaction None);
      Some (mk_state p (<[t := None]> (t_buffer s)) (queued s))
  | None => Some s
  end.

(** The transaction, if any, forgets the buffer, and the buffer the
    transaction. *)
Definition unlink_transaction (s : binder_state) (b : Z) : option binder_state :=
  h ← header (proc s) b;
  match transaction h with
  | None => Some s
  | Some t =>
      _ ← t_buffer s !! t;
      p ← update_header (proc s) b (set_transaction None);
      Some (mk_state p (<[t := None]> (t_buffer s)) (queued s))
  end.

(** [BC_FREE_BUFFER], as far as the buffer and its transaction are concerned. *)
Definition bc_free_buffer (s : binder_state) (data_ptr : Z) : option binder_state :=
  b ← binder_buffer_lookup (proc s) data_ptr;
  match b with
  | None => Some s
  | Some b =>
      h ← header (proc s) b;
      if negb (allow_user_free h) then Some s
      else
        s ← unlink_transaction s b;
        p ← binder_free_buf (proc s) b;
        Some (mk_state p (t_buffer s) (queued s))
  end.

(** In [binder_deferred_release]: every buffer still handed out is freed; the
    result counts them. *)
Fixpoint release_loop (fuel : nat) (s : binder_state) (count : Z) : option (binder_state * Z) :=
  n ← rb_first (allocated_tree (proc s));
  match n with
  | None => Some (s, count)
  | Some n =>
      match fuel with
      | O => None
      | S fuel =>
          let b := rb_entry (proc s) n in
          s ← unlink_transaction s b;
          p ← binder_free_buf (proc s) b;
          release_loop fuel (mk_state p (t_buffer s) (queued s)) (count + 1)
      end
  end.

(** The pages still there, which are freed one by one. *)
Definition page_count (p : binder_proc) : Z :=
  Z.of_nat (length (filter (fun b : bool => b = true) (take (Z.to_nat (buffer_size p / PAGE_SIZE)) (pages p)))).

Definition release_buffers (s : binder_state) : option (binder_state * Z * Z) :=
  '(s, count) ← release_loop (length (buffers (proc s))) s 0;
  Some (s, count, page_count (proc s)).

End Binder.
