(* ===== verification/BinderMem.v ===== *)
(** * The binder's area: tiling and pages

    Facts about memory alone.  The buffers tile the area; the bytes in use are
    the headers and the data of the buffers that are handed out; a page is there
    when one of its bytes is in use. *)

From Stdlib Require Import ZArith Lia.
From stdpp Require Import base option gmap sorting list_numbers list.
From S2P Require Import Prelude Ashmem AshmemInv Resource Rbtree Binder.

Local Open Scope Z_scope.
Local Open Scope kernel_scope.

Module BinderMem.
Import Rbtree Binder.

(** ** Tiling *)

(** Where a list of buffers that ends at [e] begins. *)
Definition start (l : list Z) (e : Z) : Z := default e (head l).

Fixpoint tiled (l : list Z) (e : Z) : Prop :=
  match l with
  | [] => True
  | b :: l => b mod 4 = 0 /\ b + 40 <= start l e /\ tiled l e
  end.

Lemma start_cons b l e : start (b :: l) e = b.
Proof. done. Qed.

Lemma start_app l1 l2 e : start (l1 ++ l2) e = start l1 (start l2 e).
Proof. by destruct l1. Qed.

Lemma tiled_app l1 l2 e : tiled (l1 ++ l2) e <-> tiled l1 (start l2 e) /\ tiled l2 e.
Proof. induction l1 as [|b l1 IH]; simpl; [tauto|]. rewrite IH, start_app. tauto. Qed.

Lemma tiled_le l e : tiled l e -> start l e <= e.
Proof. induction l as [|b l IH]; [unfold start; simpl; lia|]. intros (_ & H & Hl). specialize (IH Hl). rewrite start_cons. lia. Qed.

Lemma tiled_in l e b : tiled l e -> b ∈ l -> start l e <= b /\ b + 40 <= e /\ b mod 4 = 0.
Proof.
  intros Ht (l1 & l2 & ->)%list_elem_of_split. apply tiled_app in Ht as [H1 H2]. pose proof (tiled_le _ _ H1) as H3.
  rewrite start_app. simpl in H2. destruct H2 as (Hm & H4 & H5). apply tiled_le in H5. rewrite start_cons in *. lia.
Qed.

Lemma tiled_sorted l e : tiled l e -> StronglySorted Z.lt l.
Proof.
  induction l as [|b l IH]; simpl; [constructor|]. intros (_ & H & Hl). constructor; [by apply IH|].
  apply Forall_forall. intros c Hc. apply (tiled_in l e c Hl) in Hc. lia.
Qed.

Lemma tiled_nodup l e : tiled l e -> NoDup l.
Proof.
  intros Ht. apply tiled_sorted in Ht. induction Ht as [|b l Hl IH Hb]; constructor; [|done].
  intros Hin. rewrite Forall_forall in Hb. apply Hb in Hin. lia.
Qed.

Lemma tiled_notin l1 b l2 e : tiled (l1 ++ b :: l2) e -> b ∉ l1 /\ b ∉ l2.
Proof. intros H%tiled_nodup. apply NoDup_app in H as (_ & H1 & H2). apply NoDup_cons in H2 as [H2 _]. split; [|done]. set_solver. Qed.

(** ** Bytes in use *)

Fixpoint used (fr : Z -> bool) (l : list Z) (e x : Z) : Prop :=
  match l with
  | [] => False
  | b :: l => b <= x < (if fr b then b + 40 else start l e) \/ used fr l e x
  end.

Lemma used_app fr l1 l2 e x : used fr (l1 ++ l2) e x <-> used fr l1 (start l2 e) x \/ used fr l2 e x.
Proof. induction l1 as [|b l1 IH]; simpl; [tauto|]. rewrite IH, start_app. tauto. Qed.

Lemma used_ext fr fr' l e x : (forall b, b ∈ l -> fr b = fr' b) -> used fr l e x <-> used fr' l e x.
Proof.
  induction l as [|b l IH]; simpl; [done|]. intros H. rewrite (H b) by set_solver. rewrite IH; [done|]. set_solver.
Qed.

Lemma used_range fr l e x : tiled l e -> used fr l e x -> start l e <= x < e.
Proof.
  induction l as [|b l IH]; [done|]. intros (_ & H & Hl) [Hx|Hx]; pose proof (tiled_le _ _ Hl); rewrite start_cons.
  - destruct (fr b); lia.
  - specialize (IH Hl Hx). lia.
Qed.

Lemma used_header fr l e b x : tiled l e -> b ∈ l -> b <= x < b + 40 -> used fr l e x.
Proof.
  intros Ht (l1 & l2 & ->)%list_elem_of_split Hx. apply tiled_app in Ht as [_ (_ & Hb & _)]. apply used_app. right. left.
  destruct (fr b); lia.
Qed.

(** ** Pages *)

Definition meets (U : Z -> Prop) (a : Z) : Prop := exists x, a <= x < a + PAGE_SIZE /\ U x.

Lemma meets_ext U V a : (forall x, U x <-> V x) -> meets U a <-> meets V a.
Proof. intros H. unfold meets. by setoid_rewrite H. Qed.

(** Bytes from [s] to [t] come into use inside a hole from [P] to [N]: the pages
    that come in are those that meet them and lie in the hole wholly. *)
Lemma meets_fill U V P N s t a : a mod PAGE_SIZE = 0 -> P <= s <= t -> t <= N -> P = s \/ s < t -> (forall x, V x <-> U x \/ s <= x < t) ->
  (forall x, P <= x < N -> ~ U x) -> U (P - 1) -> U N \/ N mod PAGE_SIZE = 0 ->
  (meets V a <-> meets U a \/ (P <= a /\ a + PAGE_SIZE <= N /\ a < t /\ s < a + PAGE_SIZE)) /\
  (P <= a -> a + PAGE_SIZE <= N -> ~ meets U a).
Proof.
  unfold meets, Ashmem.PAGE_SIZE. intros Ha Hst HN Hne HV HU HP HF. split; [split|].
  - intros (x & Hx & Hv). apply HV in Hv as [Hu|Hv]; [left; by exists x|].
    destruct (decide (a < P)); [left; exists (P - 1); split; [lia|done]|].
    destruct (decide (a + 4096 <= N)); [right; lia|]. destruct HF as [HF|HF]; [left; exists N; split; [lia|done]|].
    exfalso. pose proof (Z.div_mod a 4096 ltac:(lia)). pose proof (Z.div_mod N 4096 ltac:(lia)). lia.
  - intros [(x & Hx & Hu)|(H1 & H2 & H3 & H4)]; [exists x; split; [done|apply HV; by left]|]. exists (Z.max a s). split; [lia|]. apply HV. right. lia.
  - intros H1 H2 (x & Hx & Hu). apply (HU x); [lia|done].
Qed.

(** ** The area *)

Record geometry (p : binder_proc) : Prop := {
  geo_base : buffer p mod PAGE_SIZE = 0;
  geo_low : PAGE_SIZE <= buffer p;
  geo_size : buffer_size p mod PAGE_SIZE = 0;
  geo_pos : 0 < buffer_size p <= SZ_4M;
  geo_high : buffer p + buffer_size p <= two32 - PAGE_SIZE;
  geo_pages : length (pages p) = Z.to_nat (buffer_size p / PAGE_SIZE)
}.

Definition area_end (p : binder_proc) : Z := buffer p + buffer_size p.

Definition addr (p : binder_proc) (i : nat) : Z := buffer p + PAGE_SIZE * Z.of_nat i.

Ltac geo H := destruct (geo_base _ H), (geo_low _ H), (geo_size _ H), (geo_pos _ H), (geo_high _ H).

Lemma geo_length p : geometry p -> buffer_size p = PAGE_SIZE * Z.of_nat (length (pages p)).
Proof.
  intros G. rewrite (geo_pages p G). pose proof (geo_size p G) as H1. pose proof (geo_pos p G) as H2. unfold Ashmem.PAGE_SIZE in *.
  pose proof (Z.div_mod (buffer_size p) 4096 ltac:(lia)). rewrite Z2Nat.id; lia.
Qed.

(** The page an address of the area lies on. *)
Definition slot (p : binder_proc) (a : Z) : nat := Z.to_nat ((a - buffer p) / PAGE_SIZE).

Lemma slot_lt p a : geometry p -> buffer p <= a < area_end p -> (slot p a < length (pages p))%nat /\ addr p (slot p a) <= a < addr p (slot p a) + PAGE_SIZE.
Proof.
  intros G Ha. pose proof (geo_length p G) as Hl. unfold slot, addr, area_end, Ashmem.PAGE_SIZE in *.
  pose proof (Z.div_mod (a - buffer p) 4096 ltac:(lia)). pose proof (Z.mod_pos_bound (a - buffer p) 4096 ltac:(lia)).
  rewrite Z2Nat.id by lia. lia.
Qed.

Lemma slot_addr p i : slot p (addr p i) = i.
Proof. unfold slot, addr, Ashmem.PAGE_SIZE. replace (_ - _) with (Z.of_nat i * 4096) by lia. rewrite Z.div_mul by lia. lia. Qed.

Lemma page_at_addr p i : page_at p (addr p i) = pages p !! i.
Proof.
  unfold page_at, page_slot. rewrite bool_decide_eq_true_2 by (unfold addr, Ashmem.PAGE_SIZE; lia).
  change (Z.to_nat _) with (slot p (addr p i)). by rewrite slot_addr.
Qed.

Lemma set_page_addr p i v : set_page p (addr p i) v = with_pages (<[i := v]> (pages p)) p.
Proof. unfold set_page, page_slot. change (Z.to_nat _) with (slot p (addr p i)). by rewrite slot_addr. Qed.

Lemma addr_range p i : geometry p -> (i <= length (pages p))%nat -> PAGE_SIZE <= addr p i <= area_end p /\ area_end p <= two32 - PAGE_SIZE /\ addr p i mod PAGE_SIZE = 0.
Proof.
  intros G Hi. pose proof (geo_length p G) as Hl. pose proof (geo_low p G). pose proof (geo_high p G). pose proof (geo_base p G).
  unfold addr, area_end, Ashmem.PAGE_SIZE in *. split; [lia|]. split; [lia|]. rewrite Z.mul_comm, Z_mod_plus_full. done.
Qed.

(** Rounding down and up. *)
Definition up_slot (p : binder_proc) (a : Z) : nat := Z.to_nat ((a - buffer p + 4095) / PAGE_SIZE).

Lemma mask_addr p x : geometry p -> buffer p <= x <= area_end p -> Z.land x PAGE_MASK = addr p (slot p x).
Proof.
  intros G Hx. pose proof (geo_low p G). pose proof (geo_high p G). pose proof (geo_base p G) as Hb.
  unfold area_end, two32, Ashmem.PAGE_SIZE in *. rewrite AshmemInv.page_mask by (unfold two32; lia).
  unfold addr, slot, Ashmem.PAGE_SIZE. pose proof (Z.div_mod (buffer p) 4096 ltac:(lia)) as Hd.
  replace x with (x - buffer p + buffer p / 4096 * 4096) at 1 by lia. rewrite Z.div_add by lia.
  rewrite Z2Nat.id by (apply Z.div_pos; lia). lia.
Qed.

Lemma page_align_addr p x : geometry p -> buffer p <= x <= area_end p -> PAGE_ALIGN x = addr p (up_slot p x).
Proof.
  intros G Hx. pose proof (geo_low p G). pose proof (geo_high p G). pose proof (geo_base p G) as Hb.
  unfold area_end, Ashmem.PAGE_ALIGN, two32, Ashmem.PAGE_SIZE in *. rewrite u32_small by (unfold two32; lia).
  rewrite AshmemInv.page_mask by (unfold two32; lia). unfold addr, up_slot, Ashmem.PAGE_SIZE.
  pose proof (Z.div_mod (buffer p) 4096 ltac:(lia)) as Hd. replace (x + (4096 - 1)) with (x - buffer p + 4095 + buffer p / 4096 * 4096) by lia.
  rewrite Z.div_add by lia. rewrite Z2Nat.id by (apply Z.div_pos; lia). lia.
Qed.

(** Comparisons with a multiple of the page size. *)
Lemma up_slot_le p x i : geometry p -> buffer p <= x -> (up_slot p x <= i)%nat <-> x <= addr p i.
Proof.
  intros G Hx. unfold up_slot, addr, Ashmem.PAGE_SIZE.
  pose proof (Z.div_mod (x - buffer p + 4095) 4096 ltac:(lia)). pose proof (Z.mod_pos_bound (x - buffer p + 4095) 4096 ltac:(lia)).
  pose proof (Z.div_pos (x - buffer p + 4095) 4096 ltac:(lia) ltac:(lia)). lia.
Qed.

Lemma slot_le p x i : geometry p -> buffer p <= x -> (i <= slot p x)%nat <-> addr p i <= x.
Proof.
  intros G Hx. unfold slot, addr, Ashmem.PAGE_SIZE.
  pose proof (Z.div_mod (x - buffer p) 4096 ltac:(lia)). pose proof (Z.mod_pos_bound (x - buffer p) 4096 ltac:(lia)).
  pose proof (Z.div_pos (x - buffer p) 4096 ltac:(lia) ltac:(lia)). lia.
Qed.

(** ** The loops over pages *)

(** Two page arrays that differ in that the second has [v] from [i] to [j]. *)
Definition ranged (l l' : list bool) (i j : nat) (v : bool) : Prop :=
  length l' = length l /\ forall m, l' !! m = if decide (i <= m < j)%nat then (if decide (m < length l)%nat then Some v else None) else l !! m.

Lemma ranged_empty l i j v : (j <= i)%nat -> ranged l l i j v.
Proof. intros H. split; [done|]. intros m. by rewrite decide_False by lia. Qed.

Lemma ranged_front l l' i j v : (i < j)%nat -> ranged (<[i := v]> l) l' (S i) j v -> ranged l l' i j v.
Proof.
  intros Hij [H1 H2]. rewrite length_insert in H1, H2. split; [done|]. intros m. rewrite H2.
  destruct (decide (m = i)) as [->|Hm].
  - rewrite decide_False by lia. rewrite decide_True by lia. destruct (decide (i < length l)%nat) as [Hl|Hl].
    + by rewrite list_lookup_insert_eq.
    + rewrite list_insert_ge by lia. apply lookup_ge_None. lia.
  - rewrite list_lookup_insert_ne by done. destruct (decide (S i <= m < j)%nat), (decide (i <= m < j)%nat); try done; lia.
Qed.

Lemma ranged_back l l' i j v : (i <= j)%nat -> ranged (<[j := v]> l) l' i j v -> ranged l l' i (S j) v.
Proof.
  intros Hij [H1 H2]. rewrite length_insert in H1, H2. split; [done|]. intros m. rewrite H2.
  destruct (decide (m = j)) as [->|Hm].
  - rewrite decide_False by lia. rewrite decide_True by lia. destruct (decide (j < length l)%nat) as [Hl|Hl].
    + by rewrite list_lookup_insert_eq.
    + rewrite list_insert_ge by lia. apply lookup_ge_None. lia.
  - rewrite list_lookup_insert_ne by done. destruct (decide (i <= m < j)%nat), (decide (i <= m < S j)%nat); try done; lia.
Qed.

Lemma ranged_undo l l1 l2 i m : (forall k, (i <= k < m)%nat -> l !! k = Some false) -> ranged l l1 i m true -> ranged l1 l2 i m false -> l2 = l.
Proof.
  intros Hf [L1 H1] [L2 H2]. apply list_eq. intros k. rewrite H2, H1, L1. destruct (decide (i <= k < m)%nat) as [Hk|]; [|done].
  specialize (Hf k Hk). rewrite Hf. rewrite decide_True; [done|]. by apply lookup_lt_Some in Hf.
Qed.

Lemma with_pages_id p : with_pages (pages p) p = p.
Proof. by destruct p. Qed.

Lemma addr_next p i : geometry p -> (i < length (pages p))%nat -> addr p i +u PAGE_SIZE = addr p (S i).
Proof.
  intros G Hi. destruct (addr_range p (S i) G ltac:(lia)) as (H1 & H2 & _). destruct (addr_range p i G ltac:(lia)) as (H3 & _).
  rewrite u32_small; unfold addr, area_end, two32, Ashmem.PAGE_SIZE in *; lia.
Qed.

Lemma addr_prev p i : geometry p -> (i < length (pages p))%nat -> addr p (S i) -u PAGE_SIZE = addr p i.
Proof.
  intros G Hi. destruct (addr_range p (S i) G ltac:(lia)) as (H1 & H2 & _). destruct (addr_range p i G ltac:(lia)) as (H3 & _).
  rewrite u32_small; unfold addr, area_end, two32, Ashmem.PAGE_SIZE in *; lia.
Qed.

Lemma geometry_pages p l : geometry p -> length l = length (pages p) -> geometry (with_pages l p).
Proof. intros [? ? ? ? ? ?] Hl. split; try done. simpl. by rewrite Hl. Qed.

Lemma drop_page_ok p i : pages p !! i = Some true -> drop_page p (addr p i) = Some (with_pages (<[i := false]> (pages p)) p).
Proof. intros Hi. unfold drop_page. rewrite page_at_addr, Hi. simpl. by rewrite set_page_addr. Qed.

(** A page fares well. *)
Definition page_fine (p : binder_proc) (v : Z * Z) (e : Z -> page_result) (a : Z) : Prop :=
  e a = PageOk /\ insert_page_ok v (a +u user_buffer_offset p) = true.

Lemma map_loop_ok k : forall p v e i fuel, geometry p -> (i + k <= length (pages p))%nat -> (k <= fuel)%nat ->
  (forall m, (i <= m < i + k)%nat -> pages p !! m = Some false) ->
  exists l' failed, map_loop fuel p v e (addr p i) (addr p (i + k)) = Some (with_pages l' p, failed) /\
    match failed with
    | None => ranged (pages p) l' i (i + k) true
    | Some a => exists m, (i <= m < i + k)%nat /\ a = addr p m /\ ranged (pages p) l' i m true /\ ~ page_fine p v e a
    end.
Proof.
  induction k as [|k IH]; intros p v e i fuel G Hik Hf Hp.
  { exists (pages p), None. rewrite Nat.add_0_r. split; [|apply ranged_empty; lia].
    rewrite with_pages_id. destruct fuel; simpl; by rewrite bool_decide_eq_false_2 by lia. }
  destruct fuel as [|fuel]; [lia|]. cbn [map_loop].
  rewrite bool_decide_eq_true_2 by (unfold addr, Ashmem.PAGE_SIZE; lia). rewrite page_at_addr, Hp by lia. cbn.
  assert (Hbad : forall r, ~ page_fine p v e (addr p i) -> r = (q ← drop_page (set_page p (addr p i) true) (addr p i); Some (q, Some (addr p i))) ->
    exists l' failed, r = Some (with_pages l' p, failed) /\ match failed with
    | None => ranged (pages p) l' i (i + S k) true
    | Some a => exists m, (i <= m < i + S k)%nat /\ a = addr p m /\ ranged (pages p) l' i m true /\ ~ page_fine p v e a
    end).
  { intros r Hnf ->. exists (pages p), (Some (addr p i)). split.
    - rewrite set_page_addr. pose proof (drop_page_ok (with_pages (<[i:=true]> (pages p)) p) i) as Hd. simpl in Hd.
      rewrite list_lookup_insert_eq in Hd by lia. specialize (Hd eq_refl). change (addr (with_pages _ p)) with (addr p) in Hd. rewrite Hd. cbn. rewrite list_insert_insert_eq, list_insert_id by (apply Hp; lia). done.
    - exists i. split; [lia|]. split; [done|]. split; [apply ranged_empty; lia|done]. }
  destruct (e (addr p i)) eqn:He; try (apply Hbad; [unfold page_fine; rewrite He; intros [? _]; done|done]).
  - cbn. change (user_buffer_offset (set_page _ _ _)) with (user_buffer_offset p). destruct (insert_page_ok v _) eqn:Hi.
    + rewrite set_page_addr, addr_next by (try done; lia).
      destruct (IH (with_pages (<[i:=true]> (pages p)) p) v e (S i) fuel) as (l' & failed & E1 & H1).
      * apply geometry_pages; [done|]. apply length_insert.
      * simpl. rewrite length_insert. lia.
      * lia.
      * intros m Hm. simpl. rewrite list_lookup_insert_ne by lia. apply Hp. lia.
      * exists l', failed. replace (i + S k)%nat with (S i + k)%nat by lia. split; [exact E1|].
        destruct failed as [a|].
        -- destruct H1 as (m & Hm & -> & Hr & Hnf). exists m. split; [lia|]. split; [done|]. split; [|done].
           apply ranged_front; [lia|]. exact Hr.
        -- apply ranged_front; [lia|]. exact H1.
    + rewrite andb_false_r. apply Hbad; [unfold page_fine; rewrite Hi; intros [_ ?]; done|done].
  - exists (pages p), (Some (addr p i)). rewrite with_pages_id. split; [done|]. exists i. split; [lia|]. split; [done|].
    split; [apply ranged_empty; lia|]. unfold page_fine. rewrite He. intros [? _]; done.
Qed.

Lemma unmap_loop_ok k : forall p i fuel, geometry p -> (i + k <= length (pages p))%nat -> (k <= fuel)%nat ->
  (forall m, (i <= m < i + k)%nat -> pages p !! m = Some true) ->
  exists l', unmap_loop fuel p (addr p (i + k) -u PAGE_SIZE) (addr p i) = Some (with_pages l' p) /\ ranged (pages p) l' i (i + k) false.
Proof.
  induction k as [|k IH]; intros p i fuel G Hik Hf Hp.
  { exists (pages p). rewrite Nat.add_0_r. split; [|apply ranged_empty; lia]. rewrite with_pages_id.
    destruct (addr_range p i G ltac:(lia)) as (H1 & H2 & _). rewrite u32_small by (unfold two32, Ashmem.PAGE_SIZE in *; lia).
    destruct fuel; simpl; by rewrite bool_decide_eq_false_2 by (unfold Ashmem.PAGE_SIZE; lia). }
  destruct fuel as [|fuel]; [lia|]. replace (i + S k)%nat with (S (i + k)) by lia. rewrite addr_prev by (try done; lia). cbn [unmap_loop].
  rewrite bool_decide_eq_true_2 by (unfold addr, Ashmem.PAGE_SIZE; lia). rewrite drop_page_ok by (apply Hp; lia). cbn.
  destruct (IH (with_pages (<[(i + k)%nat := false]> (pages p)) p) i fuel) as (l' & E1 & H1).
  - apply geometry_pages; [done|]. apply length_insert.
  - simpl. rewrite length_insert. lia.
  - lia.
  - intros m Hm. simpl. rewrite list_lookup_insert_ne by lia. apply Hp. lia.
  - exists l'. split; [exact E1|]. apply ranged_back; [lia|]. exact H1.
Qed.

(** Freeing a range whose pages are all there. *)
Lemma free_range_ok p i j v : geometry p -> (j <= length (pages p))%nat -> (forall m, (i <= m < j)%nat -> pages p !! m = Some true) ->
  exists l' r, binder_update_page_range p None (addr p i) (addr p j) v = Some (with_pages l' p, r) /\ ranged (pages p) l' i j false.
Proof.
  intros G Hj Hp. unfold binder_update_page_range. case_bd as Hij.
  - exists (pages p), 0. rewrite with_pages_id. split; [done|]. apply ranged_empty. unfold addr, Ashmem.PAGE_SIZE in Hij. lia.
  - assert (i < j)%nat by (unfold addr, Ashmem.PAGE_SIZE in Hij; lia).
    destruct (unmap_loop_ok (j - i) p i (length (pages p)) G) as (l' & E1 & H1); [lia|lia|intros m Hm; apply Hp; lia|].
    replace (i + (j - i))%nat with j in * by lia. exists l', (- ENOMEM). split; [by rewrite E1|done].
Qed.

(** Allocating a range none of whose pages is there. *)
Lemma alloc_range_ok p i j env v : geometry p -> (j <= length (pages p))%nat -> (forall m, (i <= m < j)%nat -> pages p !! m = Some false) ->
  exists l' r, binder_update_page_range p (Some env) (addr p i) (addr p j) v = Some (with_pages l' p, r) /\
    (r = 0 /\ ranged (pages p) l' i j true \/
     r = - ENOMEM /\ l' = pages p /\ (i < j)%nat /\
       match (match v with Some v => Some v | None => if e_mm env then vma p else None end) with
       | Some v => exists m, (i <= m < j)%nat /\ ~ page_fine p v (e_page env) (addr p m)
       | None => True
       end).
Proof.
  intros G Hj Hp. unfold binder_update_page_range. case_bd as Hij.
  - exists (pages p), 0. rewrite with_pages_id. split; [done|]. left. split; [done|]. apply ranged_empty. unfold addr, Ashmem.PAGE_SIZE in Hij. lia.
  - assert (i < j)%nat by (unfold addr, Ashmem.PAGE_SIZE in Hij; lia).
    destruct (match v with Some v => Some v | None => if e_mm env then vma p else None end) as [w|] eqn:Hv.
    2: { exists (pages p), (- ENOMEM). rewrite with_pages_id. split; [done|]. right. done. }
    destruct (map_loop_ok (j - i) p w (e_page env) i (length (pages p)) G) as (l' & failed & E1 & H1); [lia|lia|intros m Hm; apply Hp; lia|].
    replace (i + (j - i))%nat with j in * by lia. rewrite E1. cbn. destruct failed as [a|].
    + destruct H1 as (m & Hm & -> & Hr & Hnf). destruct Hr as [Hl Hr].
      destruct (unmap_loop_ok (m - i) (with_pages l' p) i (length (pages p))) as (l2 & E2 & H2).
      * by apply geometry_pages.
      * simpl. lia.
      * lia.
      * intros k Hk. simpl. rewrite Hr, decide_True by lia. rewrite decide_True; [done|]. lia.
      * replace (i + (m - i))%nat with m in * by lia. change (addr (with_pages l' p)) with (addr p) in E2. rewrite E2. cbn.
        exists (pages p), (- ENOMEM). simpl in H2. rewrite (ranged_undo (pages p) l' l2 i m); [|intros k Hk; apply Hp; lia|done|done].
        split; [by rewrite with_pages_id; destruct p|]. right. split; [done|]. split; [done|]. split; [lia|]. by exists m; split; [lia|].
    + exists l', 0. split; [done|]. by left.
Qed.

(** ** Headers *)

(** The pages that are there are the ones with a byte in use. *)
Definition backed (p : binder_proc) (U : Z -> Prop) : Prop :=
  forall i, (i < length (pages p))%nat -> pages p !! i = Some true <-> meets U (addr p i).

Lemma backed_ext p U V : (forall x, U x <-> V x) -> backed p U -> backed p V.
Proof. intros H HU i Hi. rewrite (HU i Hi). by apply meets_ext. Qed.

Lemma backed_false p U i : backed p U -> (i < length (pages p))%nat -> ~ meets U (addr p i) -> pages p !! i = Some false.
Proof.
  intros HU Hi Hm. destruct (lookup_lt_is_Some_2 (pages p) i Hi) as [[] Hb]; [|done]. exfalso. apply Hm. by apply HU.
Qed.

Lemma present_used p U x : geometry p -> backed p U -> buffer p <= x < area_end p -> U x -> present p x = true.
Proof.
  intros G HU Hx Hu. destruct (slot_lt p x G Hx) as [H1 H2]. unfold present, page_at. rewrite (bool_decide_eq_true_2 (buffer p <= x)) by lia.
  change (page_slot p x) with (slot p x). apply bool_decide_eq_true_2. apply HU; [done|]. exists x. done.
Qed.

Lemma mapped_ok p U b : geometry p -> backed p U -> buffer p <= b -> b + 40 <= area_end p -> (forall x, b <= x < b + 40 -> U x) -> mapped p b = true.
Proof.
  intros G HU H1 H2 H3. unfold mapped, sizeof_binder_buffer.
  rewrite (present_used p U b G HU), (present_used p U (b + 40 - 1) G HU); try done; try lia; apply H3; lia.
Qed.

End BinderMem.
