(* ===== verification/BinderInv.v ===== *)
(** * The binder's buffers: the list and the two trees

    The parts of the invariant, and what the operations on the trees do to
    them. *)

From Stdlib Require Import ZArith Lia.
From stdpp Require Import base option gmap sorting list_numbers list.
From S2P Require Import Prelude Ashmem Resource Rbtree RbtreeRep RbtreeWalk Binder BinderMem.

Local Open Scope Z_scope.
Local Open Scope kernel_scope.

Module BinderInv.
Import Rbtree RbtreeRep RbtreeWalk RbtreeSeq Binder BinderMem.

(** ** The room between a header and the next *)

Definition gap (l : list Z) (e c : Z) : Z := default e (list_next c l) - c - 40.

Lemma gap_split l1 c l2 e : c ∉ l1 -> gap (l1 ++ c :: l2) e c = start l2 e - c - 40.
Proof. intros H. unfold gap. by rewrite list_next_split. Qed.

Lemma gap_add l1 b new l2 e c : NoDup (l1 ++ b :: new :: l2) -> c ∈ l1 ++ b :: l2 -> c <> b ->
  gap (l1 ++ b :: new :: l2) e c = gap (l1 ++ b :: l2) e c.
Proof.
  intros Hnd Hc Hne. apply elem_of_app in Hc as [Hc|Hc].
  - apply list_elem_of_split in Hc as (u & v & ->). rewrite <- !app_assoc in *. simpl in *.
    assert (Hu : c ∉ u) by (apply NoDup_app in Hnd as (_ & H & _); set_solver).
    rewrite !gap_split by done. by destruct v.
  - apply elem_of_cons in Hc as [->|Hc]; [done|]. apply list_elem_of_split in Hc as (u & v & ->).
    assert (Hu : c ∉ l1 ++ b :: new :: u).
    { replace (l1 ++ b :: new :: u ++ c :: v) with ((l1 ++ b :: new :: u) ++ c :: v) in Hnd by (rewrite <- app_assoc; done).
      apply NoDup_app in Hnd as (_ & H & _). set_solver. }
    replace (l1 ++ b :: new :: u ++ c :: v) with ((l1 ++ b :: new :: u) ++ c :: v) by (rewrite <- app_assoc; done).
    replace (l1 ++ b :: u ++ c :: v) with ((l1 ++ b :: u) ++ c :: v) by (rewrite <- app_assoc; done).
    rewrite !gap_split by set_solver. done.
Qed.

(** ** The buffers can be read *)

Record area (p : binder_proc) : Prop := {
  ar_geo : geometry p;
  ar_tiled : tiled (buffers p) (area_end p);
  ar_head : head (buffers p) = Some (buffer p);
  ar_mapped : forall b, b ∈ buffers p -> mapped p b = true;
  ar_headers : forall b, b ∈ buffers p -> is_Some (headers p !! b)
}.

Definition isfree (p : binder_proc) (b : Z) : bool := match headers p !! b with Some h => free h | None => false end.

Definition live (p : binder_proc) (x : Z) : Prop := used (isfree p) (buffers p) (area_end p) x.

(** The pages there are those of the live bytes. *)
Record layout (p : binder_proc) : Prop := { lay_area : area p; lay_backed : backed p (live p) }.

Lemma area_in p b : area p -> b ∈ buffers p -> buffer p <= b /\ b + 40 <= area_end p /\ b mod 4 = 0.
Proof.
  intros Ha Hb. pose proof (tiled_in _ _ _ (ar_tiled p Ha) Hb) as H. pose proof (ar_head p Ha) as Hh.
  destruct (buffers p) as [|c l]; [done|]. injection Hh as ->. rewrite start_cons in H. done.
Qed.

Lemma area_word p : area p -> PAGE_SIZE <= buffer p /\ area_end p <= two32 - PAGE_SIZE /\ 0 < buffer_size p <= SZ_4M.
Proof. intros [G _ _ _]. split; [apply (geo_low p G)|]. split; [apply (geo_high p G)|apply (geo_pos p G)]. Qed.

Ltac words Ha := let H1 := fresh in let H2 := fresh in let H3 := fresh in
  destruct (area_word _ Ha) as (H1 & H2 & H3); unfold two32, SZ_4M, Ashmem.PAGE_SIZE in H1, H2, H3.

Lemma area_header p b : area p -> b ∈ buffers p -> header p b = headers p !! b.
Proof. intros Ha Hb. unfold header. by rewrite (ar_mapped p Ha b Hb). Qed.

Lemma area_isfree p b h : area p -> b ∈ buffers p -> header p b = Some h -> free h = isfree p b.
Proof. intros Ha Hb Hh. unfold isfree. rewrite <- (area_header p b Ha Hb), Hh. done. Qed.

Lemma area_some p b : area p -> b ∈ buffers p -> exists h, header p b = Some h /\ headers p !! b = Some h /\ free h = isfree p b.
Proof.
  intros Ha Hb. destruct (ar_headers p Ha b Hb) as [h Hh]. exists h. rewrite (area_header p b Ha Hb). split; [done|]. split; [done|].
  unfold isfree. by rewrite Hh.
Qed.

Lemma area_data p b : area p -> b ∈ buffers p -> data b = b + 40.
Proof.
  intros Ha Hb. words Ha. destruct (area_in p b Ha Hb) as (H3 & H4 & _). unfold data, sizeof_binder_buffer.
  apply u32_small. unfold two32. lia.
Qed.

Definition room (p : binder_proc) (b : Z) : Z := gap (buffers p) (area_end p) b.

Lemma buffer_size_room p b : area p -> b ∈ buffers p -> binder_buffer_size p b = room p b /\ 0 <= room p b /\ data b + room p b <= area_end p.
Proof.
  intros Ha Hb. pose proof (area_data p b Ha Hb) as Hd. words Ha. pose proof (area_in p b Ha Hb) as (H1' & H2' & _).
  apply list_elem_of_split in Hb as (l1 & l2 & Hl). unfold binder_buffer_size, room. pose proof (ar_tiled p Ha) as Ht. rewrite Hl in *.
  destruct (tiled_notin _ _ _ _ Ht) as [Hn _]. rewrite list_next_split, gap_split by done.
  apply tiled_app in Ht as [_ (_ & Hs & Ht)]. pose proof (tiled_le _ _ Ht) as Hle. rewrite Hd. unfold start in *.
  destruct (head l2) as [c|]; simpl in *; unfold area_end in *.
  - rewrite u32_small by (unfold two32; lia). lia.
  - rewrite u32_sub_l, u32_small by (unfold two32; lia). lia.
Qed.

(** ** The trees *)

Notation node := rb_node_of.

Lemma entry_node p b : buffer p <= b -> rb_entry p (node p b) = b.
Proof. intros H. unfold rb_entry, rb_node_of. lia. Qed.

Lemma node_inj p a b : buffer p <= a -> buffer p <= b -> node p a = node p b -> a = b.
Proof. unfold rb_node_of. lia. Qed.

(** [F] and [A]: the buffers in the two trees, in the order of the trees. *)
Record trees (p : binder_proc) (F A : list Z) : Prop := {
  tr_free : seq (free_tree p) (map (node p) F);
  tr_alloc : seq (allocated_tree p) (map (node p) A);
  tr_low : forall b, b ∈ F ++ A -> buffer p <= b;
  tr_apart : forall b, b ∈ F -> b ∉ A
}.

Lemma node_in p (l : list Z) b : (forall x, x ∈ l -> buffer p <= x) -> buffer p <= b -> node p b ∈ map (node p) l <-> b ∈ l.
Proof.
  intros Hl Hb. rewrite list_elem_of_In, in_map_iff. setoid_rewrite <- list_elem_of_In. split.
  - intros (x & Hx & Hin). apply node_inj in Hx as ->; auto.
  - intros H. by exists b.
Qed.

Lemma map_list_del p (l : list Z) b : (forall x, x ∈ l -> buffer p <= x) -> buffer p <= b ->
  list_del (node p b) (map (node p) l) = map (node p) (list_del b l).
Proof.
  intros Hl Hb. unfold list_del. induction l as [|x l IH]; [done|]. simpl map at 1.
  rewrite !filter_cons. destruct (decide (x <> b)) as [Hx|Hx].
  - rewrite decide_True; [simpl; f_equal; apply IH; set_solver|]. intros Hn. apply Hx. apply (node_inj p); [apply Hl; left|done|done].
  - rewrite decide_False; [apply IH; set_solver|]. intros Hn. apply Hn. f_equal. apply dec_stable. intros Hne. by apply Hx.
Qed.

Lemma seq_other t t' m (l l' : list nid) r : seq (mk_root r (nodes t)) l' -> same_but t t' l -> (forall x, x ∈ l' -> x ∉ l) ->
  m = nodes t' -> seq (mk_root r m) l'.
Proof. intros Hs Hsb Hx ->. apply (seq_frame (mk_root r (nodes t)) l' (nodes t') Hs). intros x Hin. apply Hsb. by apply Hx. Qed.

Lemma erase_free_ok p F A b : trees p F A -> b ∈ F ->
  exists t, rb_erase (free_tree p) (node p b) = Some t /\ trees (with_free_tree t p) (list_del b F) A.
Proof.
  intros [H1 H2 H3 H4] Hb. assert (HF : forall x, x ∈ F -> buffer p <= x) by set_solver. assert (HA : forall x, x ∈ A -> buffer p <= x) by set_solver.
  destruct (seq_erase _ _ (node p b) H1) as (t & E1 & Hs & Hsb); [by apply node_in; auto|]. exists t. split; [done|].
  rewrite map_list_del in Hs by auto. split; try change (node (with_free_tree t p)) with (node p); simpl.
  - by destruct t.
  - eapply (seq_other (free_tree p) t); [exact H2|exact Hsb| |done]. intros x Hx Hx'.
    apply list_elem_of_In, in_map_iff in Hx as (y & <- & Hy%list_elem_of_In). rewrite node_in in Hx' by auto. by apply (H4 y).
  - intros x Hx. apply H3. rewrite elem_of_app in *. rewrite elem_of_list_del in Hx. tauto.
  - intros x Hx. apply elem_of_list_del in Hx as [Hx _]. by apply H4.
Qed.

Lemma erase_alloc_ok p F A b : trees p F A -> b ∈ A ->
  exists t, rb_erase (allocated_tree p) (node p b) = Some t /\ trees (with_allocated_tree t p) F (list_del b A).
Proof.
  intros [H1 H2 H3 H4] Hb. assert (HF : forall x, x ∈ F -> buffer p <= x) by set_solver. assert (HA : forall x, x ∈ A -> buffer p <= x) by set_solver.
  destruct (seq_erase _ _ (node p b) H2) as (t & E1 & Hs & Hsb); [by apply node_in; auto|]. exists t. split; [done|].
  rewrite map_list_del in Hs by auto. split; try change (node (with_allocated_tree t p)) with (node p); simpl.
  - eapply (seq_other (allocated_tree p) t); [exact H1|exact Hsb| |done]. intros x Hx Hx'.
    apply list_elem_of_In, in_map_iff in Hx as (y & <- & Hy%list_elem_of_In). rewrite node_in in Hx' by auto. by apply (H4 y).
  - by destruct t.
  - intros x Hx. apply H3. rewrite elem_of_app in *. rewrite elem_of_list_del in Hx. tauto.
  - intros x Hx Hx'. apply elem_of_list_del in Hx' as [Hx' _]. by apply (H4 x).
Qed.

(** ** Order *)

Lemma sorted_map {X Y} (R : relation X) (S : relation Y) (f : X -> Y) l : StronglySorted R l ->
  (forall x y, x ∈ l -> y ∈ l -> R x y -> S (f x) (f y)) -> StronglySorted S (map f l).
Proof.
  induction 1 as [|x l Hl IH Hx]; intros H; simpl; constructor; [apply IH; set_solver|].
  apply Forall_forall. intros y (z & <- & Hz%list_elem_of_In)%list_elem_of_In%in_map_iff. rewrite Forall_forall in Hx.
  apply H; [set_solver|set_solver|by apply Hx].
Qed.

Lemma ordered_insert {X} (R : relation X) l1 y l2 : StronglySorted R (l1 ++ l2) -> Forall (fun x => R x y) l1 -> Forall (R y) l2 ->
  StronglySorted R (l1 ++ y :: l2).
Proof.
  induction l1 as [|x l1 IH]; simpl; intros Hs H1 H2; [by constructor|]. apply StronglySorted_cons in Hs as [Hx Hs].
  apply Forall_cons in H1 as [Hxy H1]. constructor; [by apply IH|]. apply Forall_app in Hx as [Hx1 Hx2]. apply Forall_app. split; [done|by constructor].
Qed.

Lemma ordered_del {X} `{EqDecision X} (R : relation X) x l : StronglySorted R l -> StronglySorted R (list_del x l).
Proof.
  unfold list_del. induction 1 as [|y l Hl IH Hy]; [constructor|]. rewrite filter_cons. case_decide; [|done]. constructor; [done|].
  rewrite Forall_forall in *. intros z Hz%list_elem_of_filter. apply Hy. tauto.
Qed.

Lemma ordered_ext {X} (R S : relation X) l : (forall x y, x ∈ l -> y ∈ l -> R x y -> S x y) -> StronglySorted R l -> StronglySorted S l.
Proof. intros H Hl. rewrite <- (map_id l). by apply (sorted_map R S (fun x => x)). Qed.

Lemma Forall_map_node {X Y} (P : Y -> Prop) (f : X -> Y) l : Forall P (map f l) <-> Forall (fun x => P (f x)) l.
Proof. induction l as [|x l IH]; simpl; [done|]. by rewrite !Forall_cons, IH. Qed.

(** A new node in a tree, for the two trees alike. *)
Lemma place_ok p (r : option nid) (O L : list Z) cmp way new :
  seq (mk_root r (rb_nodes p)) (map (node p) L) -> (forall b, b ∈ L -> buffer p <= b) -> buffer p <= new -> new ∉ L ->
  (forall b, b ∈ L -> cmp (node p b) = Some (Some (way b))) ->
  StronglySorted (fun a b => (way a = Lt -> way b = Lt) /\ (way b = Rt -> way a = Rt)) L ->
  exists q d L1 L2 t1 t, L = L1 ++ L2 /\ Forall (fun b => way b = Rt) L1 /\ Forall (fun b => way b = Lt) L2 /\
    rb_search cmp (mk_root r (rb_nodes p)) = Some (Empty q d) /\
    rb_link_node (mk_root r (rb_nodes p)) (node p new) q d = Some t1 /\ rb_insert_color t1 (node p new) = Some t /\
    seq t (map (node p) (L1 ++ new :: L2)) /\ same_but (mk_root r (rb_nodes p)) t (map (node p) (new :: L)).
Proof.
  intros Hs HL Hn Hin Hcmp Hso.
  destruct (seq_place cmp (fun n => Some (way (rb_entry p n))) _ _ Hs) as (q & d & l1 & l2 & Es & El & H1 & H2 & Hins).
  - intros x (b & <- & Hb%list_elem_of_In)%list_elem_of_In%in_map_iff. rewrite Hcmp by done. by rewrite entry_node by auto.
  - eapply sorted_map; [exact Hso|]. intros x y Hx Hy [Ha Hb]. unfold monotone. rewrite !entry_node by auto. split; intros [= ?]; f_equal; auto.
  - done.
  - apply map_eq_app in El as (L1 & L2 & -> & <- & <-). rewrite Forall_map_node in H1, H2.
    destruct (Hins (node p new)) as (t1 & t & E1 & E2 & E3 & E4); [by rewrite node_in by auto|]. exists q, d, L1, L2, t1, t. split; [done|].
    split; [|split; [|split; [done|split; [done|split; [done|split; [|done]]]]]].
    + rewrite Forall_forall in *. intros b Hb. specialize (H1 b Hb). rewrite entry_node in H1 by (apply HL; set_solver). congruence.
    + rewrite Forall_forall in *. intros b Hb. specialize (H2 b Hb). rewrite entry_node in H2 by (apply HL; set_solver). congruence.
    + by rewrite map_app.
Qed.

(** ** Insertion *)

Definition by_room (p : binder_proc) (a b : Z) : Prop := room p a <= room p b.

Lemma insert_free_ok p F A new : area p -> trees p F A -> (forall b, b ∈ F -> b ∈ buffers p /\ isfree p b = true) ->
  StronglySorted (by_room p) F -> new ∈ buffers p -> isfree p new = true -> new ∉ F -> new ∉ A ->
  exists t F1 F2, F = F1 ++ F2 /\ binder_insert_free_buffer p new = Some (with_free_tree t p) /\
    trees (with_free_tree t p) (F1 ++ new :: F2) A /\ StronglySorted (by_room p) (F1 ++ new :: F2).
Proof.
  intros Ha [H1 H2 H3 H4] HF Hso Hn Hnf Hni Hna. destruct (area_some p new Ha Hn) as (h & Eh & _ & Hf).
  destruct (buffer_size_room p new Ha Hn) as (Er & _). destruct (area_in p new Ha Hn) as (Hlow & _).
  set (way b := if bool_decide (room p new < room p b) then Lt else Rt).
  destruct (place_ok p (free_buffers p) A F (free_cmp p (binder_buffer_size p new)) way new) as (q & d & F1 & F2 & t1 & t & -> & W1 & W2 & E1 & E2 & E3 & E4 & E5); try done.
  - set_solver.
  - intros b Hb. destruct (HF b Hb) as [Hb1 Hb2]. destruct (area_some p b Ha Hb1) as (hb & Ehb & _ & Hfb). unfold free_cmp.
    rewrite entry_node by (apply H3; set_solver). rewrite Ehb. simpl. rewrite Hfb, Hb2. do 2 f_equal. unfold way.
    destruct (buffer_size_room p b Ha Hb1) as (Erb & _). by rewrite Er, Erb.
  - eapply ordered_ext; [|exact Hso]. unfold by_room, way. intros x y _ _ Hxy. repeat case_bd; split; done || (intros; lia).
  - exists t, F1, F2. split; [done|]. split; [|split].
    + unfold binder_insert_free_buffer. rewrite Eh. simpl. rewrite Hf, Hnf. unfold free_tree. rewrite E1. simpl. rewrite E2. simpl. by rewrite E3.
    + split; try change (node (with_free_tree t p)) with (node p); simpl.
      * by destruct t.
      * eapply (seq_other (mk_root (free_buffers p) (rb_nodes p)) t); [exact H2|exact E5| |done].
        intros x (y & <- & Hy%list_elem_of_In)%list_elem_of_In%in_map_iff. rewrite node_in.
        -- intros [->|Hx]%elem_of_cons; [done|]. by apply (H4 y).
        -- intros z [->|Hz]%elem_of_cons; [done|]. set_solver.
        -- set_solver.
      * set_solver.
      * intros b Hb. assert (b = new \/ b ∈ F1 ++ F2) as [->|Hb'] by set_solver; [done|]. by apply H4.
    + apply ordered_insert; [done| |].
      * eapply Forall_impl; [exact W1|]. unfold way, by_room. intros x. case_bd; [done|lia].
      * eapply Forall_impl; [exact W2|]. unfold way, by_room. intros x. case_bd; [lia|done].
Qed.

(** The way to an address, among the allocated buffers. *)
Definition address_way (key b : Z) : option side :=
  if bool_decide (key < b) then Some Lt else if bool_decide (key > b) then Some Rt else None.

Lemma address_cmp_ok p key b : area p -> b ∈ buffers p -> isfree p b = false -> address_cmp p key (node p b) = Some (address_way key b).
Proof.
  intros Ha Hb Hf. unfold address_cmp. destruct (area_in p b Ha Hb) as (Hlow & _). rewrite entry_node by done.
  destruct (area_some p b Ha Hb) as (h & -> & _ & Hh). simpl. by rewrite Hh, Hf.
Qed.

Lemma insert_alloc_ok p F A new : area p -> trees p F A -> (forall b, b ∈ A -> b ∈ buffers p /\ isfree p b = false) ->
  StronglySorted Z.lt A -> new ∈ buffers p -> isfree p new = false -> new ∉ F -> new ∉ A ->
  exists t A1 A2, A = A1 ++ A2 /\ binder_insert_allocated_buffer p new = Some (with_allocated_tree t p) /\
    trees (with_allocated_tree t p) F (A1 ++ new :: A2) /\ StronglySorted Z.lt (A1 ++ new :: A2).
Proof.
  intros Ha [H1 H2 H3 H4] HA Hso Hn Hnf Hni Hna. destruct (area_some p new Ha Hn) as (h & Eh & _ & Hf).
  destruct (area_in p new Ha Hn) as (Hlow & _).
  set (way b := if bool_decide (new < b) then Lt else Rt).
  destruct (place_ok p (allocated_buffers p) F A (address_cmp p new) way new) as (q & d & A1 & A2 & t1 & t & -> & W1 & W2 & E1 & E2 & E3 & E4 & E5); try done.
  - set_solver.
  - intros b Hb. destruct (HA b Hb) as [Hb1 Hb2]. rewrite (address_cmp_ok p new b Ha Hb1 Hb2). unfold address_way, way.
    case_bd; [done|]. case_bd; [done|]. exfalso. assert (new = b) as -> by lia. done.
  - eapply ordered_ext; [|exact Hso]. unfold way. intros x y _ _ Hxy. repeat case_bd; split; done || (intros; lia).
  - assert (Hgt : forall b, b ∈ A1 -> b < new).
    { intros b Hb. rewrite Forall_forall in W1. specialize (W1 b Hb). unfold way in W1. case_bd; [done|].
      assert (b <> new) by (intros ->; apply Hna; set_solver). lia. }
    exists t, A1, A2. split; [done|]. split; [|split].
    + unfold binder_insert_allocated_buffer. rewrite Eh. simpl. rewrite Hf, Hnf. unfold allocated_tree. rewrite E1. simpl. rewrite E2. simpl. by rewrite E3.
    + split; try change (node (with_allocated_tree t p)) with (node p); simpl.
      * eapply (seq_other (mk_root (allocated_buffers p) (rb_nodes p)) t); [exact H1|exact E5| |done].
        intros x (y & <- & Hy%list_elem_of_In)%list_elem_of_In%in_map_iff. rewrite node_in.
        -- intros [->|Hx]%elem_of_cons; [done|]. by apply (H4 y).
        -- intros z [->|Hz]%elem_of_cons; [done|]. set_solver.
        -- set_solver.
      * by destruct t.
      * set_solver.
      * intros b Hb Hb'. assert (b = new \/ b ∈ A1 ++ A2) as [->|Hb2] by set_solver; [done|]. by apply (H4 b).
    + apply ordered_insert; [done|by apply Forall_forall|].
      eapply Forall_impl; [exact W2|]. unfold way. intros x. case_bd; [lia|done].
Qed.

(** ** Searches *)

Lemma address_sorted key A : StronglySorted Z.lt A ->
  StronglySorted (fun a b => (address_way key a = Some Lt -> address_way key b = Some Lt) /\
                             (address_way key b = Some Rt -> address_way key a = Some Rt)) A.
Proof. apply ordered_ext. unfold address_way. intros x y _ _ Hxy. repeat case_bd; split; done || (intros; lia). Qed.

Lemma buffer_lookup_ok p F A user_ptr : area p -> trees p F A -> (forall b, b ∈ A -> b ∈ buffers p /\ isfree p b = false) ->
  StronglySorted Z.lt A -> let k := user_ptr -u user_buffer_offset p -u 40 in
  binder_buffer_lookup p user_ptr = Some (if decide (k ∈ A) then Some k else None).
Proof.
  intros Ha [H1 H2 H3 H4] HA Hso k. unfold binder_buffer_lookup, sizeof_binder_buffer. fold k.
  destruct (seq_search (address_cmp p k) (fun n => address_way k (rb_entry p n)) _ _ H2) as (pl & E1 & Hpl).
  - intros x (b & <- & Hb%list_elem_of_In)%list_elem_of_In%in_map_iff. destruct (HA b Hb) as [Hb1 Hb2].
    rewrite (address_cmp_ok p k b Ha Hb1 Hb2). by rewrite entry_node by (apply H3; set_solver).
  - eapply sorted_map; [exact (address_sorted k A Hso)|]. intros x y Hx Hy HR. unfold monotone. by rewrite !entry_node by (apply H3; set_solver).
  - rewrite E1. simpl. destruct pl as [n|q d].
    + destruct Hpl as [(b & <- & Hb%list_elem_of_In)%list_elem_of_In%in_map_iff Hw]. rewrite entry_node in * by (apply H3; set_solver).
      unfold address_way in Hw. do 2 (case_bd; [done|]). assert (b = k) as -> by lia. by rewrite decide_True.
    + destruct Hpl as (l1 & l2 & El & W1 & W2 & _). rewrite decide_False; [done|]. intros Hk.
      apply map_eq_app in El as (A1 & A2 & -> & <- & <-). rewrite Forall_map_node in W1, W2. rewrite Forall_forall in *.
      apply elem_of_app in Hk as [Hk|Hk]; [specialize (W1 k Hk)|specialize (W2 k Hk)]; simpl in *; rewrite entry_node in * by (apply H3; set_solver);
        unfold address_way in *; rewrite !bool_decide_eq_false_2 in * by lia; done.
Qed.

(** The search of an allocation: a free buffer of exactly the size, or the
    smallest that is larger. *)
Lemma best_fit_ok p F A size : area p -> trees p F A -> (forall b, b ∈ F -> b ∈ buffers p /\ isfree p b = true) -> StronglySorted (by_room p) F ->
  exists best equal, rb_bound (size_cmp p size) (free_tree p) = Some (best, equal) /\
    match best with
    | Some n => exists b, n = node p b /\ b ∈ F /\ size <= room p b /\ equal = bool_decide (room p b = size) /\
                  forall c, c ∈ F -> size <= room p c -> room p b <= room p c
    | None => forall c, c ∈ F -> room p c < size
    end.
Proof.
  intros Ha [H1 H2 H3 H4] HF Hso.
  set (way b := if bool_decide (size < room p b) then Some Lt else if bool_decide (size > room p b) then Some Rt else None).
  assert (Hcmp : forall b, b ∈ F -> size_cmp p size (node p b) = Some (way b)).
  { intros b Hb. destruct (HF b Hb) as [Hb1 Hb2]. unfold size_cmp. rewrite entry_node by (apply H3; set_solver).
    destruct (area_some p b Ha Hb1) as (h & -> & _ & Hh). simpl. rewrite Hh, Hb2. destruct (buffer_size_room p b Ha Hb1) as (-> & _). done. }
  destruct (seq_bound (size_cmp p size) (fun n => way (rb_entry p n)) _ _ H1) as [(x & E1 & Hx & Hw)|(l1 & l2 & E1 & El & W1 & W2)].
  - intros x (b & <- & Hb%list_elem_of_In)%list_elem_of_In%in_map_iff. rewrite Hcmp by done. by rewrite entry_node by (apply H3; set_solver).
  - eapply sorted_map; [exact Hso|]. unfold monotone, by_room, way. intros x y Hx Hy Hxy. rewrite !entry_node by (apply H3; set_solver).
    repeat case_bd; split; done || (intros; lia).
  - apply list_elem_of_In, in_map_iff in Hx as (b & <- & Hb%list_elem_of_In). rewrite entry_node in Hw by (apply H3; set_solver).
    unfold way in Hw. do 2 (case_bd; [done|]). assert (Hr : room p b = size) by lia. exists (Some (node p b)), true. split; [done|].
    exists b. split; [done|]. split; [done|]. split; [lia|]. split; [by rewrite bool_decide_eq_true_2|]. lia.
  - apply map_eq_app in El as (F1 & F2 & -> & <- & <-). rewrite Forall_map_node in W1, W2.
    assert (W1' : forall c, c ∈ F1 -> room p c < size).
    { rewrite Forall_forall in W1. intros c Hc. specialize (W1 c Hc). simpl in W1. rewrite entry_node in W1 by (apply H3; set_solver).
      unfold way in W1. do 2 (case_bd; try done). lia. }
    destruct F2 as [|b F2]; [exists None, false; split; [done|]; rewrite app_nil_r; done|].
    exists (Some (node p b)), false. split; [done|]. exists b. split; [done|]. split; [set_solver|].
    rewrite Forall_forall in W2. specialize (W2 b ltac:(set_solver)). simpl in W2. rewrite entry_node in W2 by (apply H3; set_solver).
    assert (Hlt : size < room p b) by (unfold way in W2; clear - W2; do 2 (case_bd; try done)). clear W2. split; [lia|]. split; [by rewrite bool_decide_eq_false_2 by lia|].
    intros c Hc Hs. apply elem_of_app in Hc as [Hc|Hc]; [apply W1' in Hc; lia|].
    apply StronglySorted_app_1_r in Hso. apply StronglySorted_cons in Hso as [Hall _]. rewrite Forall_forall in Hall.
    apply elem_of_cons in Hc as [->|Hc]; [lia|]. by apply Hall.
Qed.

End BinderInv.
