(* ===== verification/BinderAlloc.v ===== *)
(** * The binder's buffers: the invariant, and allocation *)

From Stdlib Require Import ZArith Lia.
From stdpp Require Import base option gmap sorting list_numbers list.
From S2P Require Import Prelude Ashmem Resource Rbtree RbtreeRep RbtreeWalk Binder BinderMem BinderInv.

Local Open Scope Z_scope.
Local Open Scope kernel_scope.

Module BinderAlloc.
Import Rbtree RbtreeRep RbtreeWalk RbtreeSeq Binder BinderMem BinderInv.

(** ** Sizes *)

Lemma align4 x : 0 <= x < two32 -> ALIGN x 4 = u32 (x + 3) / 4 * 4.
Proof.
  intros Hx. unfold Resource.ALIGN. change (4 - 1) with 3. change (u32 (Z.lnot 3)) with (u32 (- 2 ^ 2)).
  rewrite land_high_mask; [done|apply u32_range|lia].
Qed.

Definition word (z : Z) : Prop := 0 <= z < two32.

(** The test of the sizes excludes every overflow. *)
Lemma request_size_ok ds os : word ds -> word os -> let s := request_size ds os in
  (~ s < ds /\ ~ s < os <-> (ds + 3) / 4 * 4 + (os + 3) / 4 * 4 < two32) /\
  (~ s < ds -> ~ s < os -> s = (ds + 3) / 4 * 4 + (os + 3) / 4 * 4).
Proof.
  unfold word, request_size. intros Hd Ho. rewrite !align4 by done. unfold u32, two32 in *.
  assert (Hm : forall x, 0 <= x < 4294967296 -> (x + 3) mod 4294967296 / 4 * 4 = (if decide (x + 3 < 4294967296) then (x + 3) / 4 * 4 else 0)).
  { intros x Hx. case_decide; [by rewrite Z.mod_small by lia|].
    replace ((x + 3) mod 4294967296) with (x + 3 - 4294967296); [|rewrite <- (Z_mod_plus_full (x + 3) (-1)), Z.mod_small; lia].
    rewrite Z.div_small by lia. done. }
  rewrite !Hm by done. pose proof (Z.div_mod (ds + 3) 4 ltac:(lia)). pose proof (Z.mod_pos_bound (ds + 3) 4 ltac:(lia)).
  pose proof (Z.div_mod (os + 3) 4 ltac:(lia)). pose proof (Z.mod_pos_bound (os + 3) 4 ltac:(lia)).
  set (D := (ds + 3) / 4) in *. set (O := (os + 3) / 4) in *.
  destruct (decide (ds + 3 < 4294967296)), (decide (os + 3 < 4294967296)); cbv zeta.
  all: rewrite mod_add_once by lia; case_bd; lia.
Qed.

Definition req (h : binder_buffer) : Z := request_size (data_size h) (offsets_size h).

(** What a transaction of these sizes needs. *)
Definition need (ds os : Z) : Z := (ds + 3) / 4 * 4 + (os + 3) / 4 * 4.

Lemma need_facts ds os : 0 <= ds -> 0 <= os -> 0 <= need ds os /\ need ds os mod 4 = 0 /\ ds + os <= need ds os.
Proof.
  intros Hd Ho. unfold need. pose proof (Z.div_mod (ds + 3) 4 ltac:(lia)). pose proof (Z.mod_pos_bound (ds + 3) 4 ltac:(lia)).
  pose proof (Z.div_mod (os + 3) 4 ltac:(lia)). pose proof (Z.mod_pos_bound (os + 3) 4 ltac:(lia)). split; [lia|]. split; [|lia].
  replace (_ + _) with (((ds + 3) / 4 + (os + 3) / 4) * 4) by lia. apply Z.mod_mul. lia.
Qed.

(** ** The space for asynchronous transactions *)

Definition charge (h : binder_buffer) : Z := if async_transaction h then req h + 40 else 0.

Definition cost (p : binder_proc) (b : Z) : Z := match headers p !! b with Some h => charge h | None => 0 end.

Definition total (p : binder_proc) (A : list Z) : Z := foldr Z.add 0 (map (cost p) A).

Lemma charges_app p A1 A2 : total p (A1 ++ A2) = total p A1 + total p A2.
Proof. unfold total. induction A1 as [|b A1 IH]; simpl; [done|]. rewrite IH. lia. Qed.

Lemma total_mid p A1 b A2 : total p (A1 ++ b :: A2) = cost p b + total p (A1 ++ A2).
Proof. rewrite !charges_app. unfold total. simpl. lia. Qed.

Lemma total_ext p p' A : (forall b, b ∈ A -> headers p' !! b = headers p !! b) -> total p' A = total p A.
Proof.
  intros H. unfold total. induction A as [|b A IH]; simpl; [done|]. rewrite IH by set_solver. unfold cost. by rewrite H by set_solver.
Qed.

(** ** The invariant *)

(** [F] are the free buffers by size and [A] the others by address. *)
Record binv (p : binder_proc) (F A : list Z) : Prop := {
  bi_lay : layout p;
  bi_trees : trees p F A;
  bi_free : forall b, b ∈ F <-> b ∈ buffers p /\ isfree p b = true;
  bi_alloc : forall b, b ∈ A <-> b ∈ buffers p /\ isfree p b = false;
  bi_by_room : StronglySorted (by_room p) F;
  bi_by_address : StronglySorted Z.lt A;
  bi_merged : forall l1 a b l2, buffers p = l1 ++ a :: b :: l2 -> isfree p a = true -> isfree p b = true -> False;
  bi_fit : forall b h, b ∈ A -> headers p !! b = Some h -> 0 <= req h <= room p b;
  bi_async : free_async_space p + total p A = buffer_size p / 2 /\ 0 <= free_async_space p;
  bi_vma : forall v, vma p = Some v -> v.1 = buffer p +u user_buffer_offset p /\ v.2 = v.1 + buffer_size p /\ v.2 <= two32
}.

Lemma bi_area p F A : binv p F A -> area p.
Proof. intros H. apply H. Qed.

Lemma charges_nonneg p A : (forall b h, b ∈ A -> headers p !! b = Some h -> 0 <= req h) -> 0 <= total p A.
Proof.
  intros H. induction A as [|b A IH]; [done|]. specialize (IH ltac:(set_solver)). change (0 <= cost p b + total p A). unfold cost, charge.
  destruct (headers p !! b) as [h|] eqn:Hh; [|lia]. specialize (H b h ltac:(set_solver) Hh). destruct (async_transaction h); lia.
Qed.

(** ** Pages come and go *)

Lemma geometry_ext p p' : geometry p -> buffer p' = buffer p -> buffer_size p' = buffer_size p -> length (pages p') = length (pages p) -> geometry p'.
Proof. intros [? ? ? ? ? ?] E1 E2 E3. split; rewrite ?E1, ?E2, ?E3; done. Qed.

Section grow.
Context (p : binder_proc) (U V : Z -> Prop) (P N s t : Z) (i j : nat).
Context (G : geometry p) (Hst : P <= s <= t) (HN : t <= N) (Hne : P = s \/ s < t) (HV : forall x, V x <-> U x \/ s <= x < t).
Context (HU : forall x, P <= x < N -> ~ U x) (HP : U (P - 1)) (HF : U N \/ N mod PAGE_SIZE = 0).
Context (Hij : forall m, (m < length (pages p))%nat ->
  (i <= m < j)%nat <-> P <= addr p m /\ addr p m + PAGE_SIZE <= N /\ addr p m < t /\ s < addr p m + PAGE_SIZE).
Context (Hj : (j <= length (pages p))%nat).

Lemma addr_aligned m : addr p m mod PAGE_SIZE = 0.
Proof. unfold addr. rewrite Z.mul_comm, Z_mod_plus_full. apply (geo_base p G). Qed.

Lemma grow_absent : backed p U -> forall m, (i <= m < j)%nat -> pages p !! m = Some false.
Proof.
  intros HB m Hm. eapply backed_false; [exact HB|lia|]. apply Hij in Hm as (H1 & H2 & _); [|lia].
  by apply (meets_fill U V P N s t (addr p m) (addr_aligned m) Hst HN Hne HV HU HP HF).
Qed.

Lemma grow_present : backed p V -> forall m, (i <= m < j)%nat -> pages p !! m = Some true.
Proof.
  intros HB m Hm. apply HB; [lia|]. apply Hij in Hm as Hm'; [|lia].
  apply (meets_fill U V P N s t (addr p m) (addr_aligned m) Hst HN Hne HV HU HP HF). by right.
Qed.

Lemma backed_grow l : backed p U -> ranged (pages p) l i j true -> backed (with_pages l p) V.
Proof.
  intros HB [Hl Hr] m Hm. simpl in *. change (addr (with_pages l p) m) with (addr p m).
  destruct (meets_fill U V P N s t (addr p m) (addr_aligned m) Hst HN Hne HV HU HP HF) as [-> _].
  rewrite Hr. rewrite Hl in Hm. rewrite <- Hij by done. destruct (decide (i <= m < j)%nat) as [H|H].
  - rewrite decide_True by done. tauto.
  - rewrite (HB m Hm). tauto.
Qed.

Lemma backed_shrink l : backed p V -> ranged (pages p) l i j false -> backed (with_pages l p) U.
Proof.
  intros HB [Hl Hr] m Hm. simpl in *. change (addr (with_pages l p) m) with (addr p m). rewrite Hl in Hm.
  destruct (meets_fill U V P N s t (addr p m) (addr_aligned m) Hst HN Hne HV HU HP HF) as [H1 H2].
  rewrite Hr. destruct (decide (i <= m < j)%nat) as [H|H].
  - rewrite decide_True by done. apply Hij in H as (H3 & H4 & _); [|done]. split; [done|]. intros Hu. by apply H2 in Hu.
  - rewrite (HB m Hm), H1. split; [|tauto]. intros [?|Hm']; [done|]. by apply Hij in Hm'.
Qed.

End grow.

Lemma area_intro p V : geometry p -> tiled (buffers p) (area_end p) -> head (buffers p) = Some (buffer p) ->
  (forall b, b ∈ buffers p -> is_Some (headers p !! b)) -> backed p V ->
  (forall b x, b ∈ buffers p -> b <= x < b + 40 -> V x) -> area p.
Proof.
  intros G Ht Hh Hs HB HV. split; try done. intros b Hb. pose proof (tiled_in _ _ _ Ht Hb) as (H1 & H2 & _).
  assert (start (buffers p) (area_end p) = buffer p) as Hst by (unfold start; by rewrite Hh).
  eapply mapped_ok; [done|exact HB|lia|lia|]. intros x Hx. by apply (HV b).
Qed.

(** ** States that differ in one part *)

Lemma trees_ext p p' F A : trees p F A -> buffer p' = buffer p -> rb_nodes p' = rb_nodes p -> free_buffers p' = free_buffers p ->
  allocated_buffers p' = allocated_buffers p -> trees p' F A.
Proof.
  intros [H1 H2 H3 H4] E1 E2 E3 E4. split; unfold free_tree, allocated_tree, rb_node_of in *; by rewrite ?E1, ?E2, ?E3, ?E4.
Qed.

(** Everything but the list, the headers and the trees is kept. *)
Definition reshaped (p : binder_proc) (l : list Z) (m : gmap Z binder_buffer) (p' : binder_proc) : Prop :=
  exists n f a, p' = mk_proc (vma p) (buffer p) (user_buffer_offset p) l m n f a (free_async_space p) (pages p) (buffer_size p).

Lemma area_ext p p' : area p -> buffer p' = buffer p -> buffer_size p' = buffer_size p -> pages p' = pages p -> buffers p' = buffers p ->
  (forall b, b ∈ buffers p -> is_Some (headers p' !! b)) -> area p'.
Proof.
  intros [G Ht Hh Hm Hs] E1 E2 E3 E4 Hs'. assert (Ee : area_end p' = area_end p) by (unfold area_end; by rewrite E1, E2).
  assert (Em : forall x, mapped p' x = mapped p x) by (intros x; unfold mapped, present, page_at, page_slot; by rewrite E1, E3).
  split; rewrite ?E4, ?Ee, ?E1; try done.
  - apply (geometry_ext p p' G E1 E2). by rewrite E3.
  - intros b Hb. rewrite Em. auto.
Qed.

Lemma room_ext p p' b : buffer p' = buffer p -> buffer_size p' = buffer_size p -> buffers p' = buffers p -> room p' b = room p b.
Proof. intros E1 E2 E3. unfold room, area_end. by rewrite E1, E2, E3. Qed.

Lemma update_header_ok p b f h : area p -> b ∈ buffers p -> headers p !! b = Some h ->
  update_header p b f = Some (with_headers (<[b := f h]> (headers p)) p) /\ area (with_headers (<[b := f h]> (headers p)) p).
Proof.
  intros Ha Hb Hh. split.
  - unfold update_header, set_header. rewrite (area_header p b Ha Hb), Hh. simpl. by rewrite (ar_mapped p Ha b Hb).
  - eapply area_ext; try done. simpl. intros c Hc. destruct (decide (c = b)) as [->|Hne].
    + by rewrite lookup_insert_eq.
    + rewrite lookup_insert_ne by done. by apply (ar_headers p Ha).
Qed.

Lemma isfree_insert p p' b h c : headers p' = <[b := h]> (headers p) -> isfree p' c = if decide (c = b) then free h else isfree p c.
Proof.
  intros E. unfold isfree. rewrite E. destruct (decide (c = b)) as [->|Hne]; [by rewrite lookup_insert_eq|by rewrite lookup_insert_ne].
Qed.

(** ** Handing out a buffer *)

(** The free buffer [b] becomes an allocated one, on the list as before. *)
Lemma take_ok p F A b h : area p -> trees p F A ->
  (forall c, c ∈ F -> c ∈ buffers p /\ isfree p c = true) -> (forall c, c ∈ A -> c ∈ buffers p /\ isfree p c = false) ->
  StronglySorted Z.lt A -> b ∈ F -> headers p !! b = Some h ->
  exists p' A1 A2, A = A1 ++ A2 /\ reshaped p (buffers p) (<[b := set_free false h]> (headers p)) p' /\
    (t ← rb_erase (free_tree p) (node p b);
     p1 ← update_header (with_free_tree t p) b (set_free false);
     binder_insert_allocated_buffer p1 b) = Some p' /\
    area p' /\ trees p' (list_del b F) (A1 ++ b :: A2) /\ StronglySorted Z.lt (A1 ++ b :: A2).
Proof.
  intros Ha Ht HF HA Hso Hb Hh. destruct (HF b Hb) as [Hbb Hbf]. destruct (erase_free_ok p F A b Ht Hb) as (t & E1 & Ht1).
  assert (Ha1 : area (with_free_tree t p)) by (eapply area_ext; try done; intros; by apply (ar_headers p Ha)).
  destruct (update_header_ok (with_free_tree t p) b (set_free false) h Ha1 Hbb Hh) as [E2 Ha2]. simpl in E2, Ha2.
  set (p2 := with_headers _ _) in *. assert (Hf2 : forall c, isfree p2 c = if decide (c = b) then false else isfree p c) by (intros c; exact (isfree_insert p p2 b (set_free false h) c eq_refl)).
  assert (Hbn : b ∉ A) by (intros H; apply HA in H as [_ H]; congruence).
  destruct (insert_alloc_ok p2 (list_del b F) A b Ha2) as (t2 & A1 & A2 & -> & E3 & Ht3 & Hs3); try done.
  - by eapply trees_ext.
  - intros c Hc. rewrite Hf2. destruct (HA c Hc) as [H1 H2]. split; [done|]. by case_decide.
  - rewrite Hf2. by rewrite decide_True.
  - rewrite elem_of_list_del. tauto.
  - eexists _, A1, A2. split; [done|]. split; [|split].
    + by eexists (nodes t2), _, _.
    + rewrite E1. simpl. rewrite E2. simpl. exact E3.
    + split; [|done]. eapply area_ext; try done. simpl. apply (ar_headers _ Ha2).
Qed.

(** The rest of a free buffer, beyond [size], becomes a free buffer. *)
Lemma split_ok p F A b l1 l2 size stale : area p -> trees p F A -> buffers p = l1 ++ b :: l2 ->
  (forall c, c ∈ F -> c ∈ buffers p /\ isfree p c = true) -> (forall c, c ∈ A -> c ∈ buffers p) -> StronglySorted (by_room p) F -> b ∉ F ->
  0 <= size -> size mod 4 = 0 -> b + 40 + size + 40 <= start l2 (area_end p) -> mapped p (b + 40 + size) = true ->
  let new := b + 40 + size in
  exists p' F1 F2, F = F1 ++ F2 /\ reshaped p (l1 ++ b :: new :: l2) (<[new := set_free true stale]> (headers p)) p' /\
    (let q := with_buffers (list_add_after (data b +u size) b (buffers p)) p in
     q ← set_header q (data b +u size) (set_free true stale);
     binder_insert_free_buffer q (data b +u size)) = Some p' /\
    area p' /\ trees p' (F1 ++ new :: F2) A /\ StronglySorted (by_room p') (F1 ++ new :: F2).
Proof.
  intros Ha Ht El HF HA Hso Hb H0 Hs4 Hroom Hmap new. fold new in Hmap.
  assert (Hbb : b ∈ buffers p) by (rewrite El; set_solver). pose proof (ar_tiled p Ha) as Htl. rewrite El in Htl.
  destruct (tiled_notin _ _ _ _ Htl) as [Hn1 Hn2]. apply tiled_app in Htl as [T1 (Hb4 & Hb5 & T2)]. pose proof (tiled_le _ _ T2) as Hle.
  pose proof (area_data p b Ha Hbb) as Hd. destruct (area_in p b Ha Hbb) as (Hb1 & Hb2 & Hb3). destruct (area_word p Ha) as (W1 & W2 & _).
  assert (Enew : data b +u size = new) by (rewrite Hd; apply u32_small; unfold two32, Ashmem.PAGE_SIZE in *; lia). rewrite Enew.
  assert (Tn : tiled (l1 ++ b :: new :: l2) (area_end p)).
  { apply tiled_app. split; [done|]. split; [done|]. rewrite start_cons. split; [lia|]. split; [|by split].
    unfold new. rewrite Z.add_mod, Hs4, Z.add_0_r, Z.mod_mod by lia. replace (b + 40) with (b + 10 * 4) by lia. by rewrite Z_mod_plus_full. }
  pose proof (tiled_nodup _ _ Tn) as Hnd. assert (Hnew : new ∉ buffers p).
  { rewrite El. intros Hin. apply NoDup_app in Hnd as (_ & N1 & N2). apply elem_of_app in Hin as [Hin|Hin]; [apply (N1 new Hin); set_solver|].
    apply elem_of_cons in Hin as [Hin|Hin]; [lia|]. apply NoDup_cons in N2 as [_ N2]. apply NoDup_cons in N2 as [N2 _]. done. }
  rewrite El, list_add_after_split by done. set (q := with_buffers (l1 ++ b :: new :: l2) p). cbv zeta.
  change (set_header q new (set_free true stale)) with
    (if mapped p new then Some (with_headers (<[new := set_free true stale]> (headers p)) q) else None). rewrite Hmap. simpl.
  set (r := with_headers (<[new := set_free true stale]> (headers p)) q).
  assert (Ha' : area r).
  { split.
    - by apply (geometry_ext p); [apply (ar_geo p Ha)|..].
    - exact Tn.
    - pose proof (ar_head p Ha) as Hh. rewrite El in Hh. simpl. by destruct l1.
    - intros c Hc. change (mapped r c) with (mapped p c). simpl in Hc. destruct (decide (c = new)) as [->|Hne]; [done|]. apply (ar_mapped p Ha). rewrite El. set_solver.
    - intros c Hc. simpl in *. destruct (decide (c = new)) as [->|Hne]; [by rewrite lookup_insert_eq|]. rewrite lookup_insert_ne by done.
      apply (ar_headers p Ha). rewrite El. set_solver. }
  assert (Hfr : forall c, isfree r c = if decide (c = new) then true else isfree p c) by (intros c; exact (isfree_insert p r new (set_free true stale) c eq_refl)).
  assert (Hrm : forall c, c ∈ F -> room r c = room p c).
  { intros c Hc. unfold room. rewrite El. simpl. apply gap_add; [done|rewrite <- El; by apply HF|intros ->; done]. }
  destruct (insert_free_ok r F A new Ha') as (t & F1 & F2 & -> & E1 & Ht' & Hs'); try done.
  - by eapply trees_ext.
  - intros c Hc. rewrite Hfr. destruct (HF c Hc) as [H1 H2]. rewrite El in H1. split; [simpl; set_solver|]. case_decide; done.
  - eapply ordered_ext; [|exact Hso]. unfold by_room. intros x y Hx Hy. by rewrite !Hrm.
  - simpl. set_solver.
  - rewrite Hfr. by rewrite decide_True.
  - intros Hin. apply HF in Hin as [Hin _]. done.
  - intros Hin. apply HA in Hin. done.
  - exists (with_free_tree t r), F1, F2. split; [done|]. split; [by eexists (nodes t), _, _|]. split; [exact E1|]. split; [|split; [done|]].
    + eapply area_ext; try done. apply (ar_headers r Ha').
    + exact Hs'.
Qed.

(** ** The free room behind a header *)

Lemma live_split p l1 b l2 x : buffers p = l1 ++ b :: l2 ->
  live p x <-> used (isfree p) l1 b x \/ b <= x < (if isfree p b then b + 40 else start l2 (area_end p)) \/ used (isfree p) l2 (area_end p) x.
Proof. intros E. unfold live. rewrite E, used_app, start_cons. done. Qed.

Lemma hole_used fr l1 b l2 e : tiled (l1 ++ b :: l2) e -> fr b = true -> let n := start l2 e in let U := used fr (l1 ++ b :: l2) e in
  (forall x, b + 40 <= x < n -> ~ U x) /\ U (b + 40 - 1) /\ (U n \/ n = e) /\ b + 40 <= n <= e.
Proof.
  intros Ht Hf n U. pose proof Ht as Ht0. apply tiled_app in Ht as [T1 (_ & Hb5 & T2)]. pose proof (tiled_le _ _ T2) as Hle. rewrite start_cons in T1.
  split; [|split; [|split]].
  - intros x Hx. unfold U. rewrite used_app, start_cons. simpl. rewrite Hf. intros [H|[H|H]].
    + apply (used_range _ _ _ _ T1) in H. lia.
    + lia.
    + apply (used_range _ _ _ _ T2) in H. fold n in H. lia.
  - apply (used_header _ _ _ b); [done|set_solver|lia].
  - unfold n. destruct l2 as [|c l2]; [by right|left]. rewrite start_cons. apply (used_header _ _ _ c); [done|set_solver|lia].
  - done.
Qed.

Lemma area_end_aligned p : geometry p -> area_end p mod PAGE_SIZE = 0.
Proof.
  intros G. unfold area_end. pose proof (geo_base p G). pose proof (geo_size p G). unfold Ashmem.PAGE_SIZE in *.
  rewrite Z.add_mod by lia. replace (buffer p mod 4096) with 0. by replace (buffer_size p mod 4096) with 0.
Qed.

Lemma hole_facts p l1 b l2 : area p -> buffers p = l1 ++ b :: l2 -> isfree p b = true -> let e := start l2 (area_end p) in
  (forall x, b + 40 <= x < e -> ~ live p x) /\ live p (b + 40 - 1) /\ (live p e \/ e mod PAGE_SIZE = 0) /\
  buffer p <= b + 40 <= e /\ e <= area_end p /\ room p b = e - (b + 40).
Proof.
  intros Ha El Hf e. assert (Hb : b ∈ buffers p) by (rewrite El; set_solver). pose proof (ar_tiled p Ha) as Ht. rewrite El in Ht.
  destruct (tiled_notin _ _ _ _ Ht) as [Hn _]. destruct (area_in p b Ha Hb) as (Hb1 & _ & _). unfold live. rewrite El.
  destruct (hole_used (isfree p) l1 b l2 (area_end p) Ht Hf) as (H1 & H2 & H3 & H4). fold e in H1, H3, H4.
  split; [done|]. split; [done|]. split; [|split; [lia|split; [lia|]]].
  - destruct H3 as [H3|H3]; [by left|right]. rewrite H3. apply area_end_aligned, Ha.
  - unfold room. rewrite El, gap_split by done. fold e. lia.
Qed.

(** Nothing that fits a buffer is near an overflow. *)
Lemma fits_small p b n : area p -> b ∈ buffers p -> n <= room p b -> room p b < SZ_4M /\ n + 44 < two32.
Proof.
  intros Ha Hb Hn. assert (Hr : room p b < SZ_4M); [|unfold two32, SZ_4M in *; lia].
  destruct (buffer_size_room p b Ha Hb) as (_ & _ & H). rewrite (area_data p b Ha Hb) in H. destruct (area_in p b Ha Hb) as (H1 & _).
  destruct (area_word p Ha) as (_ & _ & W). unfold area_end in H. lia.
Qed.

Lemma request_fits p b ds os : area p -> b ∈ buffers p -> word ds -> word os -> need ds os <= room p b -> request_size ds os = need ds os.
Proof.
  intros Ha Hb Hd Ho Hn. destruct (request_size_ok ds os Hd Ho) as [R1 R2]. fold (need ds os) in R1, R2.
  destruct (fits_small p b (need ds os) Ha Hb Hn) as [_ Hlt]. assert (H : need ds os < two32) by lia. apply R1 in H as [H1 H2]. by apply R2.
Qed.

Lemma addr_S p m : addr p (S m) = addr p m + PAGE_SIZE.
Proof. unfold addr, Ashmem.PAGE_SIZE. lia. Qed.

Lemma index_set p D X F : geometry p -> buffer p <= D -> buffer p <= X -> buffer p <= F ->
  forall m, (up_slot p D <= m < Nat.min (up_slot p X) (slot p F))%nat <-> D <= addr p m /\ addr p m < X /\ addr p m + PAGE_SIZE <= F.
Proof.
  intros G HD HX HF m. rewrite <- addr_S. pose proof (up_slot_le p D m G HD). pose proof (up_slot_le p X m G HX).
  pose proof (slot_le p F (S m) G HF). lia.
Qed.

Lemma min_addr p i j : (if bool_decide (addr p i > addr p j) then addr p j else addr p i) = addr p (Nat.min i j).
Proof. unfold addr, Ashmem.PAGE_SIZE. case_bd; f_equal; lia. Qed.

Lemma slot_bound p x : geometry p -> buffer p <= x <= area_end p -> (slot p x <= length (pages p))%nat.
Proof.
  intros G Hx. pose proof (geo_length p G) as Hl. destruct (slot_le p x (slot p x) G ltac:(lia)) as [H _]. specialize (H (le_n _)).
  unfold addr, area_end, Ashmem.PAGE_SIZE in *. lia.
Qed.

(** What an allocation does to the pages.  [bsz] is the size it counts with, and
    [X] where the bytes in use will end. *)
Lemma alloc_pages_ok p b l1 l2 bsz X env : layout p -> buffers p = l1 ++ b :: l2 -> isfree p b = true ->
  let e := start l2 (area_end p) in 0 <= bsz <= room p b -> b + 40 + bsz <= X <= e -> X = b + 40 + bsz \/ X = e /\ e - (b + 40 + bsz) < PAGE_SIZE ->
  exists l r, binder_update_page_range p (Some env) (PAGE_ALIGN (data b))
      (if bool_decide (PAGE_ALIGN (data b +u bsz) > Z.land (data b +u room p b) PAGE_MASK)
       then Z.land (data b +u room p b) PAGE_MASK else PAGE_ALIGN (data b +u bsz)) None = Some (with_pages l p, r) /\
    (r = 0 /\ length l = length (pages p) /\ backed (with_pages l p) (fun x => live p x \/ b + 40 <= x < X) \/
     r = - ENOMEM /\ l = pages p /\
       match (if e_mm env then vma p else None) with
       | Some v => exists a, b + 40 <= a < b + 40 + bsz /\ ~ page_fine p v (e_page env) a
       | None => True
       end).
Proof.
  intros [Ha HB] El Hf e Hbsz HXe HX. pose proof (ar_geo p Ha) as G. destruct (hole_facts p l1 b l2 Ha El Hf) as (HU & HD & HF & H1 & H2 & Hr).
  fold e in HU, HF, H1, H2, Hr. assert (Hb : b ∈ buffers p) by (rewrite El; set_solver). rewrite (area_data p b Ha Hb). words Ha.
  rewrite !u32_small by (unfold two32; lia). replace (b + 40 + room p b) with e by lia.
  rewrite (page_align_addr p (b + 40) G), (page_align_addr p (b + 40 + bsz) G), (mask_addr p e G) by lia. rewrite min_addr.
  set (i := up_slot p (b + 40)). set (j := Nat.min (up_slot p (b + 40 + bsz)) (slot p e)).
  assert (Hj : (j <= length (pages p))%nat) by (pose proof (slot_bound p e G ltac:(lia)); lia).
  assert (Hij' : forall m, (i <= m < j)%nat <-> b + 40 <= addr p m /\ addr p m < b + 40 + bsz /\ addr p m + PAGE_SIZE <= e).
  { intros m. apply (index_set p (b + 40) (b + 40 + bsz) e G); lia. }
  assert (Hij : forall m, (m < length (pages p))%nat ->
    (i <= m < j)%nat <-> b + 40 <= addr p m /\ addr p m + PAGE_SIZE <= e /\ addr p m < X /\ b + 40 < addr p m + PAGE_SIZE).
  { intros m _. rewrite Hij'. unfold Ashmem.PAGE_SIZE in *. lia. }
  assert (HX' : b + 40 <= b + 40 <= X) by lia. assert (HXe' : X <= e) by lia.
  assert (HV : forall x, live p x \/ b + 40 <= x < X <-> live p x \/ b + 40 <= x < X) by done.
  destruct (alloc_range_ok p i j env None G Hj) as (l & r & E1 & Hres).
  { exact (grow_absent p (live p) _ (b + 40) e (b + 40) X i j G HX' HXe' (or_introl eq_refl) HV HU HD HF Hij Hj HB). }
  exists l, r. split; [exact E1|]. destruct Hres as [[-> Hrg]|(-> & -> & Hlt & Hv)]; [left|right]; (split; [done|]).
  - split; [apply Hrg|]. exact (backed_grow p (live p) _ (b + 40) e (b + 40) X i j G HX' HXe' (or_introl eq_refl) HV HU HD HF Hij l HB Hrg).
  - split; [done|]. destruct (if e_mm env then vma p else None); [|done]. destruct Hv as (m & Hm & Hnf). exists (addr p m). split; [|done].
    apply Hij' in Hm. unfold Ashmem.PAGE_SIZE in Hm. lia.
Qed.

End BinderAlloc.
