(* ===== verification/BinderTake.v ===== *)
(** * The binder's buffers: an allocation keeps the invariant *)

From Stdlib Require Import ZArith Lia.
From stdpp Require Import base option gmap sorting list_numbers list.
From S2P Require Import Prelude Ashmem Resource Rbtree RbtreeRep RbtreeWalk Binder BinderMem BinderInv BinderAlloc.

Local Open Scope Z_scope.
Local Open Scope kernel_scope.

Module BinderTake.
Import Rbtree RbtreeRep RbtreeWalk RbtreeSeq Binder BinderMem BinderInv BinderAlloc.

(** ** The state after an allocation *)

Section taken.
Context (p : binder_proc) (F A : list Z) (Hp : binv p F A).
Context (b : Z) (l1 l2 : list Z) (El : buffers p = l1 ++ b :: l2) (HbF : b ∈ F).
Context (size : Z) (Hsize : 0 <= size <= room p b) (Hsize4 : size mod 4 = 0).

(** Whether there is room for another buffer behind it. *)
Definition splits : bool := bool_decide (size + 44 < room p b).
Definition rest : Z := b + 40 + size.
Definition edge : Z := if splits then rest + 40 else start l2 (area_end p).

Context (hb stale : binder_buffer) (Hhb : free hb = false) (Hreq : req hb = size).

(** What the list and the headers become. *)
Definition buffers' : list Z := if splits then l1 ++ b :: rest :: l2 else buffers p.

Context (p' : binder_proc) (F' A1 A2 : list Z) (EA : A = A1 ++ A2).
Context (Eb : buffer p' = buffer p) (Es : buffer_size p' = buffer_size p) (Ebs : buffers p' = buffers').
Context (Eh : forall c, headers p' !! c = if decide (c = b) then Some hb
                                          else if decide (splits = true /\ c = rest) then Some (set_free true stale) else headers p !! c).
Context (Harea : area p') (HB : backed p' (fun x => live p x \/ b + 40 <= x < edge)).
Context (Ht : trees p' F' (A1 ++ b :: A2)) (HF' : forall c, c ∈ F' <-> c ∈ F /\ c <> b \/ splits = true /\ c = rest).
Context (HsF : StronglySorted (by_room p') F') (HsA : StronglySorted Z.lt (A1 ++ b :: A2)).
Context (Has : free_async_space p' = free_async_space p - charge hb) (Has0 : 0 <= free_async_space p').
Context (Hvma : vma p' = vma p \/ vma p' = None) (Euo : user_buffer_offset p' = user_buffer_offset p).

Lemma taken_end : area_end p' = area_end p.
Proof. unfold area_end. by rewrite Eb, Es. Qed.

Lemma taken_b : b ∈ buffers p /\ isfree p b = true.
Proof. apply (bi_free p F A Hp). done. Qed.

Lemma taken_nodup : NoDup (buffers p') /\ b ∉ l1 /\ b ∉ l2 /\ (splits = true -> rest ∉ buffers p).
Proof.
  pose proof (ar_tiled p (bi_area p F A Hp)) as H. rewrite El in H. destruct (tiled_notin _ _ _ _ H) as [H1 H2].
  pose proof (tiled_nodup _ _ (ar_tiled p' Harea)) as Hnd. split; [done|]. split; [done|]. split; [done|]. intros Hs.
  rewrite Ebs in Hnd. unfold buffers' in Hnd. rewrite Hs in Hnd. rewrite El. intros Hin. apply NoDup_app in Hnd as (_ & N1 & N2).
  apply elem_of_app in Hin as [Hin|Hin]; [apply (N1 rest Hin); set_solver|]. apply NoDup_cons in N2 as [N3 N2]. apply NoDup_cons in N2 as [N2 _].
  apply elem_of_cons in Hin as [Hin|Hin]; [|done]. unfold rest in Hin. lia.
Qed.

Lemma taken_in c : c ∈ buffers p' <-> c ∈ buffers p \/ splits = true /\ c = rest.
Proof. rewrite Ebs. unfold buffers'. destruct splits; rewrite ?El; set_solver. Qed.

Lemma taken_isfree c : c ∈ buffers p' -> isfree p' c = if decide (c = b) then false else if decide (splits = true /\ c = rest) then true else isfree p c.
Proof. intros _. unfold isfree. rewrite Eh. repeat case_decide; done. Qed.

Lemma taken_old c : c ∈ buffers p -> c <> b -> isfree p' c = isfree p c /\ headers p' !! c = headers p !! c /\ room p' c = room p c.
Proof.
  intros Hc Hne. assert (Hr : ~ (splits = true /\ c = rest)) by (intros [Hs ->]; destruct taken_nodup as (_ & _ & _ & H); by apply (H Hs)).
  split; [rewrite taken_isfree by (apply taken_in; by left); by rewrite !decide_False|]. split; [rewrite Eh; by rewrite !decide_False|].
  pose proof (proj1 taken_nodup) as Hnd. unfold room. rewrite taken_end. rewrite Ebs in *. unfold buffers' in *.
  destruct (decide (splits = true)) as [Hs|Hs%not_true_is_false]; rewrite Hs in *; [|done]. rewrite El. apply gap_add; [done|by rewrite <- El|done].
Qed.

Lemma taken_room : size <= room p' b.
Proof.
  unfold room. rewrite taken_end, Ebs. unfold buffers'. destruct taken_nodup as (_ & H1 & _). destruct (decide (splits = true)) as [Hs|Hs%not_true_is_false]; rewrite Hs.
  - rewrite gap_split, start_cons by done. unfold rest. lia.
  - exact (proj2 Hsize).
Qed.

Lemma taken_live x : live p' x <-> live p x \/ b + 40 <= x < edge.
Proof.
  destruct (hole_facts p l1 b l2 (bi_area p F A Hp) El (proj2 taken_b)) as (_ & _ & _ & H1 & H2 & Hr). rewrite (live_split p l1 b l2 x El).
  rewrite (proj2 taken_b). unfold live. rewrite taken_end, Ebs.
  assert (Hb0 : isfree p' b = false) by (rewrite taken_isfree by (apply taken_in; left; apply taken_b); by rewrite decide_True).
  assert (X1 : used (isfree p') l1 b x <-> used (isfree p) l1 b x).
  { apply used_ext. intros c Hc. apply taken_old; [rewrite El; set_solver|]. intros ->. by destruct taken_nodup as (_ & H & _). }
  assert (X2 : used (isfree p') l2 (area_end p) x <-> used (isfree p) l2 (area_end p) x).
  { apply used_ext. intros c Hc. apply taken_old; [rewrite El; set_solver|]. intros ->. by destruct taken_nodup as (_ & _ & H & _). }
  unfold buffers', edge. destruct (decide (splits = true)) as [Hs|Hs%not_true_is_false]; rewrite Hs.
  - assert (Hf : isfree p' rest = true).
    { rewrite taken_isfree by (apply taken_in; by right). rewrite decide_False by (unfold rest; lia). by rewrite decide_True. }
    rewrite used_app, start_cons. simpl. rewrite start_cons, X1, X2, Hb0, Hf.
    assert (Hx : b <= x < rest \/ rest <= x < rest + 40 <-> b <= x < b + 40 \/ b + 40 <= x < rest + 40) by (unfold rest; lia). tauto.
  - rewrite El, used_app, start_cons. simpl. rewrite X1, X2, Hb0. set (e := start l2 (area_end p)) in *.
    assert (Hx : b <= x < e <-> b <= x < b + 40 \/ b + 40 <= x < e) by lia. tauto.
Qed.

Lemma binv_taken : binv p' F' (A1 ++ b :: A2).
Proof.
  destruct Hp as [_ _ Bf Ba _ _ Bm Bfit Bas Bv]. destruct taken_b as [Hb1 Hb2].
  assert (HA : forall c, c ∈ A1 ++ b :: A2 <-> c = b \/ c ∈ A) by (intros c; rewrite EA; set_solver).
  assert (Hbs : forall c, c ∈ buffers p' -> c = b \/ splits = true /\ c = rest /\ c <> b /\ isfree p' c = true \/ c ∈ buffers p /\ c <> b).
  { intros c Hc. destruct (decide (c = b)) as [->|Hne]; [by left|]. apply taken_in in Hc as [Hc|[Hs ->]]; [by right; right|]. right. left.
    split; [done|]. split; [done|]. split; [done|]. rewrite taken_isfree by (apply taken_in; by right). rewrite decide_False by done. by rewrite decide_True. }
  assert (Hb' : isfree p' b = false) by (rewrite taken_isfree by (apply taken_in; by left); by rewrite decide_True).
  split; try done.
  - split; [done|]. eapply backed_ext; [|exact HB]. intros x. symmetry. apply taken_live.
  - intros c. rewrite HF', Bf. split.
    + intros [[[Hc Hcf] Hne]|[Hs ->]].
      * split; [apply taken_in; by left|]. by rewrite (proj1 (taken_old c Hc Hne)).
      * assert (Hin : rest ∈ buffers p') by (apply taken_in; by right). split; [done|].
        destruct (Hbs rest Hin) as [Hx|[(_ & _ & _ & ?)|[Hx _]]]; [unfold rest in Hx; lia|done|]. exfalso. by apply (proj2 (proj2 (proj2 taken_nodup)) Hs).
    + intros [Hc Hcf]. destruct (Hbs c Hc) as [->|[(Hs & -> & _)|[Hc' Hne]]]; [congruence|by right|]. left.
      split; [|done]. split; [done|]. by rewrite <- (proj1 (taken_old c Hc' Hne)).
  - intros c. rewrite HA, Ba. split.
    + intros [->|[Hc Hcf]]; [split; [apply taken_in; by left|done]|]. assert (Hne : c <> b) by congruence.
      split; [apply taken_in; by left|]. by rewrite (proj1 (taken_old c Hc Hne)).
    + intros [Hc Hcf]. destruct (Hbs c Hc) as [->|[(_ & _ & _ & ?)|[Hc' Hne]]]; [by left|congruence|]. right. split; [done|].
      by rewrite <- (proj1 (taken_old c Hc' Hne)).
  - intros k1 a c k2 Ek Hfa Hfc.
    assert (Hpair : forall x, x ∈ buffers p -> isfree p' x = true -> x <> b /\ isfree p x = true).
    { intros x Hx Hxf. assert (Hne : x <> b) by congruence. split; [done|]. by rewrite <- (proj1 (taken_old x Hx Hne)). }
    rewrite Ebs in Ek. unfold buffers' in Ek. destruct (decide (splits = true)) as [Hs|Hs%not_true_is_false]; rewrite Hs in Ek.
    + pose proof (proj1 taken_nodup) as Hnd. rewrite Ebs in Hnd. unfold buffers' in Hnd. rewrite Hs in Hnd.
      destruct taken_nodup as (_ & N1 & N2 & _).
      assert (N3 : b ∉ rest :: l2) by (intros [Hx|Hx]%elem_of_cons; [unfold rest in Hx; lia|done]).
      assert (Hab : a <> b) by congruence. assert (Hcb : c <> b) by congruence.
      (* b is in k1, or behind a and c *)
      assert (Hin : b ∈ k1 ++ a :: c :: k2) by (rewrite <- Ek; set_solver). apply elem_of_app in Hin as [Hin|Hin].
      * apply list_elem_of_split in Hin as (u & v & ->). rewrite <- app_assoc in Ek. simpl in Ek.
        destruct (RbtreeWalk.app_cons_unique b l1 (rest :: l2) u (v ++ a :: c :: k2)) as [-> Ev]; [done|done|done|].
        destruct v as [|y v]; simpl in Ev.
        -- injection Ev as Ea Ec. apply (Bm l1 b c k2); [by rewrite El, <- Ec|done|]. apply Hpair; [rewrite El, <- Ec; set_solver|done].
        -- injection Ev as Ey Ec. apply (Bm (l1 ++ b :: v) a c k2); [by rewrite El, <- Ec, <- app_assoc| |]; apply Hpair; try done; rewrite El, <- Ec; set_solver.
      * apply elem_of_cons in Hin as [?|Hin]; [congruence|]. apply elem_of_cons in Hin as [?|Hin]; [congruence|].
        apply list_elem_of_split in Hin as (u & v & ->).
        destruct (RbtreeWalk.app_cons_unique b l1 (rest :: l2) (k1 ++ a :: c :: u) v) as [Eu Ev].
        { done. }
        { done. }
        { rewrite Ek. by rewrite <- app_assoc. }
        apply (Bm k1 a c (u ++ b :: l2)); [by rewrite El, <- Eu, <- app_assoc| |]; apply Hpair; try done; rewrite El, <- Eu; set_solver.
    + assert (Ha' : a ∈ buffers p) by (rewrite Ek; set_solver). assert (Hc' : c ∈ buffers p) by (rewrite Ek; set_solver).
      apply (Bm k1 a c k2 Ek); by apply Hpair.
  - intros c h Hc Hh. apply HA in Hc as [->|Hc].
    + rewrite Eh, decide_True in Hh by done. injection Hh as <-. rewrite Hreq. pose proof taken_room. lia.
    + pose proof Hc as Hc0. apply Ba in Hc as [Hc Hcf]. assert (Hne : c <> b) by congruence. destruct (taken_old c Hc Hne) as (_ & E2 & E3). rewrite E2 in Hh. rewrite E3. by apply (Bfit c).
  - rewrite total_mid, <- EA. rewrite (total_ext p p' A).
    + unfold cost. rewrite Eh, decide_True by done. rewrite Es, Has. lia.
    + intros c Hc. apply Ba in Hc as [Hc Hcf]. apply taken_old; [done|congruence].
  - intros v Hv. rewrite Eb, Es, Euo. apply Bv. destruct Hvma as [E|E]; congruence.
Qed.

End taken.

(** ** [binder_alloc_buf] *)

Lemma take_buffer_eq p n b size bsz stale : take_buffer p n b size bsz stale =
  (q ← (t ← rb_erase (free_tree p) n;
        p1 ← update_header (with_free_tree t p) b (set_free false);
        binder_insert_allocated_buffer p1 b);
   if bool_decide (bsz <> size) then
     let r := with_buffers (list_add_after (data b +u size) b (buffers q)) q in
     r ← set_header r (data b +u size) (set_free true stale);
     binder_insert_free_buffer r (data b +u size)
   else Some q).
Proof.
  unfold take_buffer. destruct (rb_erase _ _); simpl; [|done]. destruct (update_header _ _ _); simpl; [|done]. done.
Qed.

Definition close_vma (closed : bool) (p : binder_proc) : binder_proc := if closed then with_vma None p else p.

Lemma layout_ext p p' : layout p -> buffer p' = buffer p -> buffer_size p' = buffer_size p -> pages p' = pages p -> buffers p' = buffers p ->
  headers p' = headers p -> layout p'.
Proof.
  intros [Ha HB] E1 E2 E3 E4 E5. split.
  - eapply area_ext; try done. rewrite E5. apply (ar_headers p Ha).
  - unfold backed, live, isfree, area_end, addr in *. by rewrite E1, E2, E3, E4, E5.
Qed.

Lemma binv_close closed p F A : binv p F A -> binv (close_vma closed p) F A.
Proof.
  intros H. destruct closed; [|done]. destruct H. split; try done.
  - by eapply layout_ext.
  - by eapply trees_ext.
Qed.

(** A buffer of [size] out of the free buffer [b], once its pages are there. *)
Lemma take_buffer_ok p F A b l1 l2 h size stale l : binv p F A -> buffers p = l1 ++ b :: l2 -> b ∈ F -> headers p !! b = Some h ->
  0 <= size <= room p b -> size mod 4 = 0 ->
  length l = length (pages p) -> backed (with_pages l p) (fun x => live p x \/ b + 40 <= x < edge p b l2 size) ->
  let q := with_pages l p in
  exists p' F' A1 A2, A = A1 ++ A2 /\
    take_buffer q (node q b) b size (if splits p b size then size + 40 else size) stale = Some p' /\
    reshaped q (buffers' p b l1 l2 size) (if splits p b size then <[rest b size := set_free true stale]> (<[b := set_free false h]> (headers p))
                                      else <[b := set_free false h]> (headers p)) p' /\
    area p' /\ trees p' F' (A1 ++ b :: A2) /\ (forall c, c ∈ F' <-> c ∈ F /\ c <> b \/ splits p b size = true /\ c = rest b size) /\
    StronglySorted (by_room p') F' /\ StronglySorted Z.lt (A1 ++ b :: A2).
Proof.
  intros Hp El HbF Hh Hsize H4 Hl HB q. pose proof Hp as [[Ha _] Ht Bf Ba Bs Bsa _ _ _ _].
  assert (Hq : area q).
  { apply (area_intro q (fun x => live p x \/ b + 40 <= x < edge p b l2 size)); try apply Ha; [|done|].
    - by apply (geometry_ext p); [apply (ar_geo p Ha)|..].
    - intros c x Hc Hx. left. by apply (used_header _ _ _ c); [apply Ha|..]. }
  assert (Htq : trees q F A) by (by eapply trees_ext).
  destruct (take_ok q F A b h Hq Htq) as (p1 & A1 & A2 & EA & (n1 & f1 & a1 & Ep1) & E1 & Ha1 & Ht1 & Hs1); try done.
  { intros c Hc. by apply Bf. } { intros c Hc. by apply Ba. }
  assert (Hbb : b ∈ buffers p) by (by apply Bf).
  destruct (hole_facts p l1 b l2 Ha El) as (_ & _ & _ & H1 & H2 & Hr); [by apply Bf|].
  assert (Hbl : b ∉ list_del b F) by (rewrite elem_of_list_del; tauto).
  assert (Hf1 : forall c, isfree p1 c = if decide (c = b) then false else isfree p c).
  { intros c. apply (isfree_insert p p1 b (set_free false h) c). by rewrite Ep1. }
  destruct (decide (splits p b size = true)) as [Hs|Hs%not_true_is_false]; rewrite Hs.
  - assert (Hroom : size + 44 < room p b) by (unfold splits in Hs; by apply bool_decide_eq_true in Hs).
    destruct (split_ok p1 (list_del b F) (A1 ++ b :: A2) b l1 l2 size stale Ha1 Ht1) as (p2 & F1 & F2 & EF & (n2 & f2 & a2 & Ep2) & E2 & Ha2 & Ht2 & Hs2); try done; try lia.
    + by rewrite Ep1.
    + intros c [Hc Hne]%elem_of_list_del. apply Bf in Hc as [Hc Hcf]. rewrite Hf1, decide_False by done. split; [by rewrite Ep1|done].
    + intros c Hc. rewrite Ep1. assert (c = b \/ c ∈ A) as [->|Hc'] by (rewrite EA; set_solver); [done|]. by apply Ba.
    + apply ordered_del. eapply ordered_ext; [|exact Bs]. intros x y _ _ Hxy. rewrite Ep1. exact Hxy.
    + rewrite Ep1. change (area_end _) with (area_end p). lia.
    + rewrite Ep1. change (mapped _ (b + 40 + size)) with (mapped q (b + 40 + size)).
      eapply mapped_ok; [apply Hq|exact HB|change (buffer q) with (buffer p); lia|change (area_end q) with (area_end p); lia|].
      intros x Hx. right. unfold edge. rewrite Hs. unfold rest. lia.
    + exists p2, (F1 ++ rest b size :: F2), A1, A2. split; [done|]. split; [|split; [|split; [done|split; [done|split]]]].
      * rewrite take_buffer_eq, E1. cbn [mbind option_bind]. rewrite bool_decide_eq_true_2 by lia. exact E2.
      * rewrite Ep2, Ep1. eexists n2, f2, a2. unfold buffers'. rewrite Hs. done.
      * intros c. rewrite <- (elem_of_list_del c b F), EF. set_solver.
      * done.
  - exists p1, (list_del b F), A1, A2. split; [done|]. split; [|split; [|split; [done|split; [done|split; [|split; [|done]]]]]].
    + rewrite take_buffer_eq, E1. cbn [mbind option_bind]. by rewrite bool_decide_eq_false_2 by tauto.
    + rewrite Ep1. eexists n1, f1, a1. unfold buffers'. by rewrite Hs.
    + intros c. rewrite elem_of_list_del. naive_solver.
    + apply ordered_del. eapply ordered_ext; [|exact Bs]. intros x y _ _ Hxy. rewrite Ep1. exact Hxy.
Qed.

(** Why an allocation can fail. *)
Definition refused (p : binder_proc) (F : list Z) (ds os : Z) (is_async closed : bool) (env : page_env) : Prop :=
  vma p = None \/ two32 <= need ds os \/
  is_async = true /\ free_async_space p < need ds os + 40 \/
  (forall c, c ∈ F -> room p c < need ds os) \/
  closed = true \/ e_mm env = false \/
  exists v a, vma p = Some v /\ buffer p <= a < area_end p /\ ~ page_fine p v (e_page env) a.

(** What a successful one leaves behind. *)
Record given (p : binder_proc) (F A : list Z) (ds os : Z) (is_async closed : bool) (p' : binder_proc) (b : Z) : Prop := {
  gv_inv : exists F' A1 A2, A = A1 ++ A2 /\ binv p' F' (A1 ++ b :: A2);
  gv_free : b ∈ F;
  gv_fits : need ds os <= room p b;
  gv_best : forall c, c ∈ F -> need ds os <= room p c -> room p b <= room p c;
  gv_buffers : buffers p' = if splits p b (need ds os) then list_add_after (rest b (need ds os)) b (buffers p) else buffers p;
  gv_header : exists h, headers p !! b = Some h /\ headers p' !! b = Some (mk_buffer false (allow_user_free h) is_async (transaction h) ds os);
  gv_others : forall c, c ∈ buffers p -> c <> b -> headers p' !! c = headers p !! c;
  gv_async : free_async_space p' = free_async_space p - if is_async then need ds os + 40 else 0;
  gv_place : buffer p' = buffer p /\ buffer_size p' = buffer_size p /\ user_buffer_offset p' = user_buffer_offset p;
  gv_vma : vma p' = vma (close_vma closed p)
}.

Lemma room_close closed p b : room (close_vma closed p) b = room p b.
Proof. by destruct closed. Qed.

(** The part of [binder_alloc_buf] behind the choice of the buffer. *)
Lemma alloc_from_ok p F A ds os is_async closed env stale b : binv p F A -> word ds -> word os -> need ds os < two32 ->
  (is_async = true -> need ds os + 40 <= free_async_space p) ->
  b ∈ F -> need ds os <= room p b -> (forall c, c ∈ F -> need ds os <= room p c -> room p b <= room p c) ->
  let size := need ds os in
  let bsz := if splits p b size then size + 40 else size in
  exists p' res,
    ('(q, ret) ← binder_update_page_range (close_vma closed p) (Some env) (PAGE_ALIGN (data b))
        (if bool_decide (PAGE_ALIGN (data b +u bsz) > Z.land (data b +u room p b) PAGE_MASK)
         then Z.land (data b +u room p b) PAGE_MASK else PAGE_ALIGN (data b +u bsz)) None;
     if bool_decide (ret <> 0) then Some (q, None)
     else
       q ← take_buffer q (node p b) b size bsz stale;
       q ← update_header q b (fun h => mk_buffer (free h) (allow_user_free h) is_async (transaction h) ds os);
       Some (if is_async then with_async (free_async_space q -u (size +u 40)) q else q, Some b)) = Some (p', res) /\
    match res with
    | None => p' = close_vma closed p /\ refused p F ds os is_async closed env
    | Some b' => b' = b /\ given p F A ds os is_async closed p' b
    end.
Proof.
  intros Hp Hd Ho Hn Has HbF Hfit Hbest size bsz. set (p0 := close_vma closed p).
  assert (Hp0 : binv p0 F A) by (by apply binv_close). pose proof (bi_area _ _ _ Hp0) as Ha.
  assert (Hbb : b ∈ buffers p0) by (by apply (bi_free _ _ _ Hp0)). assert (Hbf : isfree p0 b = true) by (by apply (bi_free _ _ _ Hp0)).
  pose proof Hbb as Hbs. apply list_elem_of_split in Hbs as (l1 & l2 & El). destruct (need_facts ds os) as (N0 & N4 & _); [unfold word in *; lia..|].
  fold size in N0, N4, Hfit, Has, Hn, Hbest. destruct (hole_facts p0 l1 b l2 Ha El Hbf) as (_ & _ & _ & H1 & H2 & Hr).
  assert (Er : room p b = room p0 b) by (symmetry; apply room_close). rewrite Er in *. assert (Esp : splits p b size = splits p0 b size) by (unfold splits; by rewrite Er).
  unfold bsz in *. clear bsz. rewrite Esp in *. set (bsz := if splits p0 b size then size + 40 else size).
  assert (Hbsz : 0 <= bsz <= room p0 b).
  { unfold bsz. destruct (splits p0 b size) eqn:Hs; [unfold splits in Hs; apply bool_decide_eq_true in Hs; lia|lia]. }
  assert (HX : b + 40 + bsz <= edge p0 b l2 size <= start l2 (area_end p0) /\
    (edge p0 b l2 size = b + 40 + bsz \/ edge p0 b l2 size = start l2 (area_end p0) /\ start l2 (area_end p0) - (b + 40 + bsz) < PAGE_SIZE)).
  { unfold bsz, edge, rest in *. destruct (splits p0 b size) eqn:Hs; unfold splits in Hs; [lia|]. apply bool_decide_eq_false in Hs.
    unfold Ashmem.PAGE_SIZE. lia. }
  destruct HX as [HX1 HX2]. destruct (alloc_pages_ok p0 b l1 l2 bsz (edge p0 b l2 size) env (bi_lay _ _ _ Hp0) El Hbf Hbsz HX1 HX2) as (l & r & E1 & Hres).
  rewrite E1. cbn [mbind option_bind]. destruct Hres as [(-> & Hl & HB)|(-> & -> & Hv)].
  2: { exists p0, None. rewrite with_pages_id. split; [done|]. split; [done|]. unfold refused. destruct (vma p) as [v|] eqn:Ev; [|by left].
       do 4 right. unfold p0 in Hv. destruct closed; [by left|]. right. destruct (e_mm env); [|by left]. right. simpl in Hv. rewrite Ev in Hv.
       destruct Hv as (a & Hw & Hnf). exists v, a. split; [done|]. split; [|done]. unfold p0 in *. simpl in *. lia. }
  rewrite bool_decide_eq_false_2 by tauto. destruct (area_some p0 b Ha Hbb) as (h & _ & Hh & Hhf).
  assert (Enode : node p b = node (with_pages l p0) b) by (unfold p0; by destruct closed). rewrite Enode.
  assert (Hsz : 0 <= size <= room p0 b) by lia.
  destruct (take_buffer_ok p0 F A b l1 l2 h size stale l Hp0 El HbF Hh Hsz N4 Hl HB)
    as (p1 & F' & A1 & A2 & EA & E2 & (n & f & a & Ep1) & Ha1 & Ht1 & HF1 & HsF & HsA).
  cbv zeta in E2. fold bsz in E2. rewrite E2. cbn [mbind option_bind].
  assert (Hrest : rest b size <> b) by (unfold rest; lia).
  assert (Hb1 : b ∈ buffers p1) by (rewrite Ep1; simpl; unfold buffers'; destruct (splits p0 b size); [set_solver|done]).
  assert (Hh1 : headers p1 !! b = Some (set_free false h)).
  { rewrite Ep1. simpl. destruct (splits p0 b size); [rewrite lookup_insert_ne by done|]; apply lookup_insert_eq. }
  destruct (update_header_ok p1 b (fun h => mk_buffer (free h) (allow_user_free h) is_async (transaction h) ds os) _ Ha1 Hb1 Hh1) as [E3 Ha2].
  rewrite E3. cbn [mbind option_bind]. simpl free in *. set (hb := mk_buffer false (allow_user_free (set_free false h)) is_async (transaction (set_free false h)) ds os) in *.
  assert (Hreq : req hb = size) by (by apply (request_fits p0 b)).
  pose proof (area_word p0 Ha) as (W1 & W2 & W3). pose proof (bi_async _ _ _ Hp0) as [As1 As2]. pose proof (charges_nonneg p0 A) as Htn.
  assert (Hfa : free_async_space p0 = free_async_space p) by (unfold p0; by destruct closed).
  rewrite (u32_small (size + 40)) by (destruct (fits_small p0 b size Ha Hbb); lia).
  set (p2 := with_headers (<[b:=hb]> (headers p1)) p1) in *.
  set (p3 := if is_async then with_async (free_async_space p2 -u (size + 40)) p2 else p2).
  assert (Has3 : free_async_space p3 = free_async_space p - charge hb /\ 0 <= free_async_space p3).
  { assert (free_async_space p2 = free_async_space p) as Hp2 by (unfold p2; rewrite Ep1; simpl; done). unfold p3, charge.
    rewrite Hreq, Hp2. change (async_transaction hb) with is_async. destruct is_async; [|lia]. specialize (Has eq_refl).
    change (free_async_space (with_async ?z p2)) with z. rewrite u32_small; [lia|]. specialize (Htn ltac:(intros c hc Hc Hhc; by apply (bi_fit _ _ _ Hp0 c))).
    assert (buffer_size p0 / 2 <= buffer_size p0) by (apply Z.div_le_upper_bound; lia). unfold two32, SZ_4M in *. lia. }
  assert (Eh3 : forall c, headers p3 !! c = if decide (c = b) then Some hb
      else if decide (splits p0 b size = true /\ c = rest b size) then Some (set_free true stale) else headers p0 !! c).
  { intros c. assert (headers p3 = <[b:=hb]> (headers p1)) as -> by (unfold p3; by destruct is_async). rewrite Ep1. simpl.
    destruct (decide (c = b)) as [->|Hne]; [apply lookup_insert_eq|]. rewrite lookup_insert_ne by done.
    destruct (splits p0 b size) eqn:Hs.
    - destruct (decide (true = true /\ c = rest b size)) as [[_ ->]|Hr']; [apply lookup_insert_eq|]. rewrite lookup_insert_ne by (intros <-; by apply Hr').
      by rewrite lookup_insert_ne.
    - rewrite decide_False by (intros [? _]; done). by rewrite lookup_insert_ne. }
  assert (Hshape : vma p3 = vma p0 /\ buffer p3 = buffer p0 /\ buffer_size p3 = buffer_size p0 /\ user_buffer_offset p3 = user_buffer_offset p0 /\
    buffers p3 = buffers' p0 b l1 l2 size /\ pages p3 = l) by (unfold p3, p2; rewrite Ep1; by destruct is_async).
  destruct Hshape as (Sv & Sb & Ss & Su & Sl & Sp).
  exists p3, (Some b). split; [done|]. split; [done|]. split.
  - exists F', A1, A2. split; [done|]. apply (binv_taken p0 F A Hp0 b l1 l2 El HbF size Hsz N4 hb stale eq_refl Hreq p3 F' A1 A2 EA Sb Ss Sl Eh3).
    + unfold p3. destruct is_async; [|done]. by eapply area_ext; try done; [apply (ar_headers p2 Ha2)].
    + intros i Hi. unfold addr. rewrite Sp, Sb. rewrite Sp in Hi. by apply (HB i).
    + eapply (trees_ext p1); [done|unfold p3, p2; by destruct is_async..].
    + done.
    + eapply ordered_ext; [|exact HsF]. intros x y _ _ Hxy. unfold by_room in *. unfold p3, p2. destruct is_async; exact Hxy.
    + done.
    + rewrite (proj1 Has3). by rewrite Hfa.
    + apply Has3.
    + by left.
    + done.
  - done.
  - fold size. by rewrite Er.
  - fold size. rewrite Er. intros c Hc Hs. by apply Hbest.
  - fold size. rewrite Sl. unfold buffers'. assert (buffers p = buffers p0) as -> by (unfold p0; by destruct closed).
    assert (Esp' : splits p b size = splits p0 b size) by (unfold splits; by rewrite Er). rewrite Esp'. destruct (splits p0 b size); [|done].
    rewrite El, list_add_after_split; [done|]. pose proof (ar_tiled p0 Ha) as Htl. rewrite El in Htl. by apply tiled_notin in Htl as [? _].
  - exists h. split; [unfold p0 in Hh; by destruct closed|]. rewrite Eh3. by rewrite decide_True.
  - intros c Hc Hne. rewrite Eh3, decide_False by done. rewrite decide_False.
    + unfold p0. by destruct closed.
    + intros [Hs ->]. unfold splits in Hs. apply bool_decide_eq_true in Hs.
      assert (Hc0 : rest b size ∈ buffers p0) by (unfold p0; by destruct closed). pose proof (ar_tiled p0 Ha) as Htl. rewrite El in Htl, Hc0.
      apply tiled_app in Htl as [T1 (_ & _ & T2)]. rewrite start_cons in T1. apply elem_of_app in Hc0 as [Hc0|Hc0].
      * apply (tiled_in _ _ _ T1) in Hc0. unfold rest in Hc0. lia.
      * apply elem_of_cons in Hc0 as [?|Hc0]; [done|]. apply (tiled_in _ _ _ T2) in Hc0. unfold rest in Hc0. lia.
  - rewrite (proj1 Has3). unfold charge. simpl. rewrite Hreq. by destruct is_async.
  - rewrite Sb, Ss, Su. unfold p0. by destruct closed.
  - exact Sv.
Qed.

Lemma alloc_ok p F A ds os is_async closed env stale : binv p F A -> word ds -> word os ->
  exists p' res, binder_alloc_buf p ds os is_async closed env stale = Some (p', res) /\
    match res with
    | None => (p' = p \/ p' = close_vma closed p) /\ refused p F ds os is_async closed env
    | Some b => given p F A ds os is_async closed p' b
    end.
Proof.
  intros Hp Hd Ho. unfold binder_alloc_buf. destruct (vma p) as [v|] eqn:Ev.
  2: { exists p, None. split; [done|]. split; [by left|]. by left. }
  destruct (request_size_ok ds os Hd Ho) as [R1 R2]. fold (need ds os) in R1, R2. set (s := request_size ds os) in *.
  destruct (bool_decide_reflect (s < ds)) as [H1|H1]; simpl.
  { exists p, None. split; [done|]. split; [by left|]. right. left. apply Z.nlt_ge. intros H. by apply R1 in H as [H _]. }
  destruct (bool_decide_reflect (s < os)) as [H2|H2].
  { exists p, None. split; [done|]. split; [by left|]. right. left. apply Z.nlt_ge. intros H. by apply R1 in H as [_ H]. }
  assert (Hn : need ds os < two32) by (by apply R1). assert (Es : s = need ds os) by (by apply R2). rewrite Es. clear R1 R2 H1 H2.
  destruct (need_facts ds os) as (N0 & _ & _); [unfold word in *; lia..|].
  destruct (is_async && bool_decide (free_async_space p < need ds os +u sizeof_binder_buffer)) eqn:Has.
  { exists p, None. split; [done|]. split; [by left|]. right. right. left. apply andb_true_iff in Has as [-> Has]. apply bool_decide_eq_true in Has. split; [done|].
    pose proof (Z.mod_le (need ds os + sizeof_binder_buffer) two32 ltac:(unfold sizeof_binder_buffer; lia) ltac:(done)) as Hle.
    unfold u32, sizeof_binder_buffer in *. lia. }
  destruct Hp as [Hlay Ht Bf Ba Bs Bsa Bm Bfit Bas Bv] eqn:HpE. clear HpE. pose proof (lay_area p Hlay) as Ha.
  destruct (best_fit_ok p F A (need ds os) Ha Ht) as (best & equal & E1 & Hbest); [intros b Hb; by apply Bf|done|].
  rewrite E1. cbn [mbind option_bind]. destruct best as [n|].
  2: { exists p, None. split; [done|]. split; [by left|]. do 3 right. by left. }
  destruct Hbest as (b & -> & HbF & Hfit & -> & Hmin). assert (Hbb : b ∈ buffers p) by (by apply Bf).
  rewrite entry_node by (by apply (tr_low _ _ _ Ht); set_solver). destruct (buffer_size_room p b Ha Hbb) as (Er & R0 & R3). rewrite Er.
  pose proof (area_word p Ha) as (W1 & W2 & W3). destruct (area_in p b Ha Hbb) as (Hb1 & Hb2 & _). rewrite (area_data p b Ha Hbb) in R3.
  assert (Hbsz : (if bool_decide (room p b = need ds os) then room p b
                  else if bool_decide (need ds os +u sizeof_binder_buffer +u 4 >= room p b) then need ds os else need ds os +u sizeof_binder_buffer)
                 = (if splits p b (need ds os) then need ds os + 40 else need ds os)).
  { unfold splits, sizeof_binder_buffer, area_end in *. unfold two32, SZ_4M, Ashmem.PAGE_SIZE in *. rewrite !(u32_small (need ds os + 40)) by (unfold two32; lia).
    rewrite u32_small by (unfold two32; lia). repeat case_bd; lia. }
  rewrite Hbsz. change (if closed then with_vma None p else p) with (close_vma closed p).
  destruct (alloc_from_ok p F A ds os is_async closed env stale b Hp Hd Ho Hn) as (p' & res & E2 & Hres); [|done|done|done|].
  { intros ->. simpl in Has. apply bool_decide_eq_false in Has. unfold sizeof_binder_buffer, area_end in *. unfold two32, SZ_4M, Ashmem.PAGE_SIZE in *.
    rewrite u32_small in Has by (unfold two32; lia). lia. }
  exists p', res. cbv zeta in E2. split; [exact E2|]. destruct res as [b'|]; [by destruct Hres as [-> ?]|]. destruct Hres as [-> Hr]. split; [by right|done].
Qed.

End BinderTake.
