(* ===== verification/BinderFree.v ===== *)
(** * The binder's buffers: freeing keeps the invariant *)

From Stdlib Require Import ZArith Lia.
From stdpp Require Import base option gmap sorting list_numbers list.
From S2P Require Import Prelude Ashmem Resource Rbtree RbtreeRep RbtreeWalk Binder BinderMem BinderInv BinderAlloc BinderTake.

Local Open Scope Z_scope.
Local Open Scope kernel_scope.

Module BinderFree.
Import Rbtree RbtreeRep RbtreeWalk RbtreeSeq Binder BinderMem BinderInv BinderAlloc BinderTake.

(** ** A free buffer in no tree *)

(** The invariant while the free buffer [b] is between the trees: its neighbours
    may be free. *)
Record loose (p : binder_proc) (F A : list Z) (b : Z) : Prop := {
  lo_lay : layout p;
  lo_trees : trees p F A;
  lo_in : b ∈ buffers p;
  lo_isfree : isfree p b = true;
  lo_free : forall c, c ∈ F <-> c ∈ buffers p /\ isfree p c = true /\ c <> b;
  lo_alloc : forall c, c ∈ A <-> c ∈ buffers p /\ isfree p c = false;
  lo_by_room : StronglySorted (by_room p) F;
  lo_by_address : StronglySorted Z.lt A;
  lo_merged : forall l1 a c l2, buffers p = l1 ++ a :: c :: l2 -> isfree p a = true -> isfree p c = true -> a = b \/ c = b;
  lo_fit : forall c h, c ∈ A -> headers p !! c = Some h -> 0 <= req h <= room p c;
  lo_async : free_async_space p + total p A = buffer_size p / 2 /\ 0 <= free_async_space p;
  lo_vma : forall v, vma p = Some v -> v.1 = buffer p +u user_buffer_offset p /\ v.2 = v.1 + buffer_size p /\ v.2 <= two32
}.

(** What stays as it is. *)
Definition kept (p p' : binder_proc) : Prop :=
  vma p' = vma p /\ buffer p' = buffer p /\ user_buffer_offset p' = user_buffer_offset p /\ buffer_size p' = buffer_size p.

Lemma kept_trans p q r : kept p q -> kept q r -> kept p r.
Proof. unfold kept. intuition congruence. Qed.

Lemma kept_end p q : kept p q -> area_end q = area_end p.
Proof. intros (_ & E1 & _ & E2). unfold area_end. by rewrite E1, E2. Qed.

(** Put into the tree of free buffers, it completes the invariant. *)
Lemma loose_insert p F A b : loose p F A b ->
  (forall c, list_next b (buffers p) = Some c -> isfree p c = false) -> (forall c, list_prev b (buffers p) = Some c -> isfree p c = false) ->
  exists p' F', binder_insert_free_buffer p b = Some p' /\ binv p' F' A /\ kept p p' /\ buffers p' = buffers p /\ headers p' = headers p /\
    pages p' = pages p /\ free_async_space p' = free_async_space p.
Proof.
  intros [H1 H2 H3 H4 H5 H6 H7 H8 H9 H10 H11 H12] Hnext Hprev. pose proof (lay_area p H1) as Ha.
  destruct (insert_free_ok p F A b Ha H2) as (t & F1 & F2 & -> & E & Ht & Hs); try done.
  - intros c Hc. by apply H5 in Hc as (? & ? & _).
  - intros Hc. by apply H5 in Hc as (_ & _ & ?).
  - intros Hc. apply H6 in Hc as [_ Hc]. congruence.
  - exists (with_free_tree t p), (F1 ++ b :: F2). split; [done|]. split; [|done]. split; try done.
    + by eapply layout_ext.
    + intros c. assert (Hiff : c ∈ F1 ++ b :: F2 <-> c = b \/ c ∈ F1 ++ F2) by set_solver. rewrite Hiff, H5. simpl.
      destruct (decide (c = b)) as [->|Hne]; [|naive_solver]. split; [done|]. by left.
    + intros l1 a c l2 Hl Hfa Hfc. change (isfree p a = true) in Hfa. change (isfree p c = true) in Hfc. pose proof (tiled_nodup _ _ (ar_tiled p Ha)) as Hnd. simpl in Hl. destruct (H9 l1 a c l2 Hl Hfa Hfc) as [->| ->].
      * specialize (Hnext c). rewrite Hl, list_next_split in Hnext; [by rewrite Hnext in Hfc|].
        rewrite Hl in Hnd. apply NoDup_app in Hnd as (_ & Hnd & _). intros Hin. apply (Hnd b Hin). set_solver.
      * specialize (Hprev a). replace (buffers p) with ((l1 ++ [a]) ++ b :: l2) in Hprev, Hnd by (rewrite Hl, <- app_assoc; done).
        rewrite list_prev_split, last_snoc in Hprev; [by rewrite Hprev in Hfa|].
        apply NoDup_app in Hnd as (_ & _ & Hnd). by apply NoDup_cons in Hnd as [? _].
Qed.

(** ** A header goes *)

Lemma addr_inj p i j : addr p i = addr p j <-> i = j.
Proof. unfold addr, Ashmem.PAGE_SIZE. lia. Qed.

Lemma slot_mono p x y : x <= y -> (slot p x <= slot p y)%nat.
Proof. intros H. unfold slot. pose proof (Z.div_le_mono (x - buffer p) (y - buffer p) PAGE_SIZE ltac:(done) ltac:(lia)). lia. Qed.

Lemma start_page_addr p b : area p -> b ∈ buffers p -> buffer_start_page b = addr p (slot p b).
Proof. intros Ha Hb. destruct (area_in p b Ha Hb) as (H1 & H2 & _). apply mask_addr; [apply Ha|lia]. Qed.

Lemma end_page_addr p b : area p -> b ∈ buffers p -> buffer_end_page b = addr p (slot p (b + 39)).
Proof.
  intros Ha Hb. destruct (area_in p b Ha Hb) as (H1 & H2 & _). words Ha. unfold buffer_end_page, sizeof_binder_buffer.
  rewrite u32_sub_l. replace (b + 40 - 1) with (b + 39) by lia. rewrite u32_small by (unfold two32; lia). apply mask_addr; [apply Ha|lia].
Qed.

(** The two flags of [binder_delete_free_buffer], on page numbers: the header lies
    on the pages [sc] to [ec], the one before it ends on [pe], and the next one
    begins on [sn]. *)
Definition page_flags (pe sc ec : nat) (sn : option nat) : bool * bool :=
  let shares := bool_decide (pe = sc) in
  let fs := negb shares in
  let fe := negb (shares && bool_decide (pe = ec)) in
  match sn with
  | Some n => if bool_decide (n = ec) then (fs && negb (bool_decide (n = sc)), false) else (fs, fe)
  | None => (fs, fe)
  end.

(** The pages to be freed are those of the header that share no other. *)
Lemma page_flags_ok pe sc ec sn n fs fe : (pe <= sc <= ec)%nat -> (ec <= n)%nat -> (ec <= S sc)%nat ->
  match sn with Some n' => n' = n | None => (ec < n)%nat end -> page_flags pe sc ec sn = (fs, fe) -> forall m,
  (pe < m < n /\ sc <= m <= ec)%nat <->
    fs || fe = true /\ ((if fs then sc else ec) <= m < S (if fe then ec else sc))%nat.
Proof.
  unfold page_flags. intros H1 H2 H3 Hn Hf m. destruct sn as [n'|]; [subst n'|].
  - destruct (bool_decide_reflect (pe = sc)), (bool_decide_reflect (pe = ec)), (bool_decide_reflect (n = ec)), (bool_decide_reflect (n = sc));
      simpl in Hf; injection Hf as <- <-; simpl; lia.
  - destruct (bool_decide_reflect (pe = sc)), (bool_decide_reflect (pe = ec)); simpl in Hf; injection Hf as <- <-; simpl; lia.
Qed.

Lemma delete_eq p l1 a c l2 : area p -> buffers p = l1 ++ a :: c :: l2 -> isfree p a = true ->
  binder_delete_free_buffer p c =
    let q := with_buffers (l1 ++ a :: l2) p in
    let '(fs, fe) := page_flags (slot p (a + 39)) (slot p c) (slot p (c + 39)) (slot p <$> head l2) in
    if fs || fe then
      '(r, _) ← binder_update_page_range q None (addr p (if fs then slot p c else slot p (c + 39))) (addr p (S (if fe then slot p (c + 39) else slot p c))) None;
      Some r
    else Some q.
Proof.
  intros Ha El Hfa. pose proof (ar_geo p Ha) as G. pose proof (ar_tiled p Ha) as Ht.
  assert (Hca : c ∈ buffers p) by (rewrite El; set_solver). assert (Haa : a ∈ buffers p) by (rewrite El; set_solver).
  destruct (area_in p c Ha Hca) as (C1 & C2 & _). destruct (slot_lt p c G ltac:(lia)) as [L1 _]. destruct (slot_lt p (c + 39) G ltac:(lia)) as [L2 _].
  assert (El' : buffers p = (l1 ++ [a]) ++ c :: l2) by (by rewrite El, <- app_assoc). rewrite El' in Ht. destruct (tiled_notin _ _ _ _ Ht) as [N1 N2].
  unfold binder_delete_free_buffer. rewrite bool_decide_eq_false_2.
  2: { rewrite El'. destruct l1; simpl; intros [= ->]; set_solver. }
  rewrite El'. rewrite list_prev_split, last_snoc, list_next_split by done. cbn [mbind option_bind].
  destruct (area_some p a Ha Haa) as (h & -> & _ & Hh). cbn [mbind option_bind]. rewrite Hh, Hfa. cbn [negb].
  rewrite list_del_split by done. rewrite <- (app_assoc l1 [a] l2). change ([a] ++ l2) with (a :: l2).
  rewrite (end_page_addr p a), (end_page_addr p c), (start_page_addr p c) by done.
  assert (Hbd : forall i j, bool_decide (addr p i = addr p j) = bool_decide (i = j)) by (intros; apply bool_decide_ext, addr_inj).
  rewrite !Hbd. unfold page_flags.
  assert (Hup : forall fs fe : bool, (if fe then addr p (slot p (c + 39)) else addr p (slot p c)) +u PAGE_SIZE = addr p (S (if fe then slot p (c + 39) else slot p c)) /\
    (if fs then addr p (slot p c) else addr p (slot p (c + 39))) = addr p (if fs then slot p c else slot p (c + 39))).
  { intros fs fe. split; [|by destruct fs]. destruct fe; apply addr_next; done. }
  destruct l2 as [|n l2]; [change (head (@nil Z)) with (@None Z)|change (head (n :: l2)) with (Some n)]; simpl fmap; cbv beta iota zeta.
  - set (fs := negb (bool_decide _)). set (fe := negb (_ && _)). by rewrite (proj1 (Hup fs fe)), (proj2 (Hup fs fe)).
  - rewrite (start_page_addr p n) by (try done; rewrite El'; set_solver). rewrite !Hbd. destruct (bool_decide (slot p n = slot p (c + 39))).
    + set (fs := negb _ && negb _). by rewrite (proj1 (Hup fs false)), (proj2 (Hup fs false)).
    + set (fs := negb (bool_decide _)). set (fe := negb (_ && _)). by rewrite (proj1 (Hup fs fe)), (proj2 (Hup fs fe)).
Qed.

(** The free buffer [c] behind the free buffer [a] is merged into it. *)
Lemma delete_ok p l1 a c l2 : layout p -> buffers p = l1 ++ a :: c :: l2 -> isfree p a = true -> isfree p c = true ->
  exists l, binder_delete_free_buffer p c = Some (with_pages l (with_buffers (l1 ++ a :: l2) p)) /\
    layout (with_pages l (with_buffers (l1 ++ a :: l2) p)) /\ length l = length (pages p).
Proof.
  intros [Ha HB] El Hfa Hfc. pose proof (ar_geo p Ha) as G. pose proof (ar_tiled p Ha) as Ht.
  assert (Hca : c ∈ buffers p) by (rewrite El; set_solver). assert (Haa : a ∈ buffers p) by (rewrite El; set_solver).
  destruct (area_in p a Ha Haa) as (A1 & A2 & _). destruct (area_in p c Ha Hca) as (C1 & C2 & _).
  pose proof (tiled_nodup _ _ Ht) as Hnd. rewrite El in Ht, Hnd.
  assert (El' : l1 ++ a :: c :: l2 = (l1 ++ [a]) ++ c :: l2) by (by rewrite <- app_assoc).
  assert (Hn : c ∉ l1 ++ [a] /\ c ∉ l2) by (rewrite El' in Ht; by eapply tiled_notin).
  assert (Ht' : tiled (l1 ++ a :: l2) (area_end p) /\ a + 40 <= c /\ c + 40 <= start l2 (area_end p)).
  { apply tiled_app in Ht as [T1 (M1 & B1 & M2 & B2 & T2)]. rewrite start_cons in T1, B1. split; [|lia]. apply tiled_app. split; [done|]. split; [done|].
    split; [lia|done]. }
  destruct Ht' as (Ht' & B1 & B2).
  set (U := used (isfree p) (l1 ++ a :: l2) (area_end p)). set (N := start l2 (area_end p)).
  destruct (hole_used (isfree p) l1 a l2 (area_end p) Ht' Hfa) as (HU & HP & HF & HN). fold U N in HU, HP, HF, HN. fold N in B2.
  assert (HF' : U N \/ N mod PAGE_SIZE = 0) by (destruct HF as [?| ->]; [by left|right; by apply area_end_aligned]).
  assert (HV : forall x, live p x <-> U x \/ c <= x < c + 40).
  { intros x. unfold live, U. rewrite El, !used_app, !start_cons. simpl. rewrite Hfa, Hfc. tauto. }
  assert (S1 : (slot p (a + 39) <= slot p c)%nat) by (apply slot_mono; lia).
  assert (S2 : (slot p c <= slot p (c + 39))%nat) by (apply slot_mono; lia).
  assert (S3 : (slot p (c + 39) <= slot p N)%nat) by (apply slot_mono; lia).
  destruct (slot_lt p c G ltac:(lia)) as [L1 R1]. destruct (slot_lt p (c + 39) G ltac:(lia)) as [L2 R2].
  assert (S4 : (slot p (c + 39) <= S (slot p c))%nat) by (unfold addr, Ashmem.PAGE_SIZE in *; lia).
  rewrite (delete_eq p l1 a c l2 Ha El Hfa). cbv zeta. destruct (page_flags _ _ _ _) as [fs fe] eqn:Hfl.
  pose proof (fun H1 => page_flags_ok _ _ _ _ (slot p N) fs fe (conj S1 S2) S3 S4 H1 Hfl) as Hset'. specialize (Hset' ltac:(
    unfold N; destruct l2 as [|n l2']; [change (start [] (area_end p)) with (area_end p); apply (slot_le p (area_end p) (S (slot p (c + 39))) G); [lia|];
      rewrite addr_S; pose proof (geo_length p G); unfold addr, area_end, Ashmem.PAGE_SIZE in *; lia|done])).
  set (q := with_buffers (l1 ++ a :: l2) p).
  assert (Hset : forall m, (m < length (pages q))%nat -> ((if fs || fe then if fs then slot p c else slot p (c + 39) else 0) <= m <
      (if fs || fe then S (if fe then slot p (c + 39) else slot p c) else 0))%nat <->
    a + 40 <= addr q m /\ addr q m + PAGE_SIZE <= N /\ addr q m < c + 40 /\ c < addr q m + PAGE_SIZE).
  { intros m Hm. change (addr q) with (addr p). rewrite <- addr_S. pose proof (slot_le p (a + 39) m G ltac:(lia)). pose proof (slot_le p N (S m) G ltac:(lia)).
    pose proof (slot_le p (c + 39) m G ltac:(lia)). pose proof (slot_le p c (S m) G ltac:(lia)). specialize (Hset' m).
    transitivity (slot p (a + 39) < m < slot p N /\ slot p c <= m <= slot p (c + 39))%nat; [|lia]. rewrite Hset'. destruct (fs || fe); [tauto|lia]. }
  assert (Gq : geometry q) by (by apply (geometry_ext p)).
  assert (HBq : backed q (live p)) by exact HB.
  assert (Hac : a + 40 <= c <= c + 40) by lia. assert (Hcc : a + 40 = c \/ c < c + 40) by lia.
  assert (Hend : exists l, (if fs || fe then '(r, _) ← binder_update_page_range q None (addr p (if fs then slot p c else slot p (c + 39)))
      (addr p (S (if fe then slot p (c + 39) else slot p c))) None; Some r else Some q) = Some (with_pages l q) /\ ranged (pages q) l
        (if fs || fe then if fs then slot p c else slot p (c + 39) else 0) (if fs || fe then S (if fe then slot p (c + 39) else slot p c) else 0) false).
  { destruct (fs || fe) eqn:Hor; [|exists (pages q); rewrite with_pages_id; split; [done|by apply ranged_empty]].
    destruct (free_range_ok q (if fs then slot p c else slot p (c + 39)) (S (if fe then slot p (c + 39) else slot p c)) None Gq) as (l & r & E1 & H1).
    - change (pages q) with (pages p). destruct fe; lia.
    - apply (grow_present q U (live p) (a + 40) N c (c + 40)); try done. change (pages q) with (pages p). destruct fe; lia.
    - exists l. change (addr q) with (addr p) in E1. rewrite E1. done. }
  destruct Hend as (l & E1 & Hrg). exists l. split; [exact E1|].
  assert (HBl : backed (with_pages l q) U) by (by eapply (backed_shrink q U (live p) (a + 40) N c (c + 40))).
  split; [|apply Hrg]. split; [|exact HBl]. apply (area_intro _ U); simpl.
  - apply (geometry_ext p); [done|done|done|apply Hrg].
  - exact Ht'.
  - pose proof (ar_head p Ha) as Hh. rewrite El in Hh. by destruct l1.
  - intros b Hb. apply (ar_headers p Ha). rewrite El. set_solver.
  - exact HBl.
  - intros b x Hb Hx. by apply (used_header _ _ _ b).
Qed.

(** ** Merging *)

(** Neighbours on the shorter list that are not [a] were neighbours before. *)
Lemma adjacent_before (l1 : list Z) a c l2 k1 x y k2 : a ∉ l1 -> a ∉ l2 -> l1 ++ a :: l2 = k1 ++ x :: y :: k2 -> x <> a -> y <> a ->
  exists j1 j2, l1 ++ a :: c :: l2 = j1 ++ x :: y :: j2.
Proof.
  intros N1 N2 E Hx Hy. assert (Hin : a ∈ k1 ++ x :: y :: k2) by (rewrite <- E; set_solver). apply elem_of_app in Hin as [Hin|Hin].
  - apply list_elem_of_split in Hin as (u & v & ->). rewrite <- app_assoc in E. simpl in E.
    destruct (app_cons_unique a l1 l2 u (v ++ x :: y :: k2) N1 N2 E) as [-> <-]. exists (l1 ++ a :: c :: v), k2. by rewrite <- app_assoc.
  - apply elem_of_cons in Hin as [?|Hin]; [congruence|]. apply elem_of_cons in Hin as [?|Hin]; [congruence|].
    apply list_elem_of_split in Hin as (u & v & ->).
    destruct (app_cons_unique a l1 l2 (k1 ++ x :: y :: u) v N1 N2) as [<- ->]; [by rewrite E, <- app_assoc|]. exists k1, (u ++ a :: c :: l2). by rewrite <- app_assoc.
Qed.

Lemma drop_loose p F A b p' F' l1 a c l2 : loose p F A b -> buffers p = l1 ++ a :: c :: l2 -> isfree p a = true -> isfree p c = true -> b = a \/ b = c ->
  layout p' -> buffers p' = l1 ++ a :: l2 -> headers p' = headers p -> kept p p' -> free_async_space p' = free_async_space p ->
  trees p' F' A -> (forall x, x ∈ F' <-> x ∈ F /\ x <> a /\ x <> c) -> StronglySorted (by_room p) F' -> loose p' F' A a.
Proof.
  intros [Hlay _ _ _ Lf La _ Ls Lm Lfit Las Lv] El Hfa Hfc Hb Hlay' El' Eh Hk Has Ht HF' Hs.
  pose proof (tiled_nodup _ _ (ar_tiled p (lay_area p Hlay))) as Hnd. rewrite El in Hnd.
  assert (Hif : forall x, isfree p' x = isfree p x) by (intros; unfold isfree; by rewrite Eh).
  apply NoDup_app in Hnd as Hnd'. destruct Hnd' as (_ & N1 & N2). apply NoDup_cons in N2 as [N2 N3]. apply NoDup_cons in N3 as [N3 _].
  assert (Hin : forall x, x ∈ buffers p' <-> x ∈ buffers p /\ x <> c).
  { intros x. rewrite El', El. split; [|set_solver]. intros Hx. split; [set_solver|]. intros ->. apply elem_of_app in Hx as [Hx|Hx]; [|set_solver].
    apply (N1 c Hx). set_solver. }
  assert (Hrm : forall x, x ∈ buffers p -> x <> a -> x <> c -> room p' x = room p x).
  { intros x Hx Hxa Hxc. unfold room. rewrite (kept_end p p' Hk), El', El. symmetry. apply gap_add; [done| |done]. rewrite El in Hx. set_solver. }
  destruct Hk as (Kv & Kb & Ku & Ks). split; try done.
  - rewrite El'. set_solver.
  - by rewrite Hif.
  - intros x. rewrite HF', Lf, Hin, Hif. destruct Hb as [->| ->]; tauto.
  - intros x. rewrite La, Hin, Hif. split; [|tauto]. intros [H1 H2]. split; [|done]. split; [done|congruence].
  - eapply ordered_ext; [|exact Hs]. unfold by_room. intros x y Hx Hy. apply HF' in Hx as (Hx & ? & ?). apply HF' in Hy as (Hy & ? & ?).
    apply Lf in Hx as (Hx & _). apply Lf in Hy as (Hy & _). by rewrite !Hrm.
  - intros k1 x y k2 Ek Hx Hy. rewrite Hif in Hx, Hy. destruct (decide (x = a)) as [|Hxa]; [by left|]. destruct (decide (y = a)) as [|Hya]; [by right|].
    rewrite El' in Ek. destruct (adjacent_before l1 a c l2 k1 x y k2) as (j1 & j2 & Ej); try done.
    { intros Hin1. apply (N1 a Hin1). set_solver. } { set_solver. }
    assert (Hx' : x ∈ buffers p') by (rewrite El', Ek; set_solver). assert (Hy' : y ∈ buffers p') by (rewrite El', Ek; set_solver).
    apply Hin in Hx' as [_ Hxc]. apply Hin in Hy' as [_ Hyc]. exfalso. rewrite <- El in Ej. destruct (Lm j1 x y j2 Ej Hx Hy) as [->| ->]; destruct Hb; congruence.
  - intros x h Hx Hh. rewrite Eh in Hh. assert (Hx2 := Hx). apply La in Hx2 as [Hx2 Hxf]. rewrite Hrm by (done || congruence). by apply (Lfit x).
  - rewrite Has, Ks, (total_ext p p' A); [done|]. intros x _. by rewrite Eh.
  - rewrite Kv, Kb, Ku, Ks. done.
Qed.

(** The buffer behind, and the one before, as the lists show them. *)
Lemma loose_split p F A b : loose p F A b -> exists l1 l2, buffers p = l1 ++ b :: l2 /\ b ∉ l1 /\ b ∉ l2 /\
  list_next b (buffers p) = head l2 /\ list_prev b (buffers p) = last l1.
Proof.
  intros H. pose proof (lo_in _ _ _ _ H) as Hb. apply list_elem_of_split in Hb as (l1 & l2 & El). exists l1, l2. split; [done|].
  pose proof (ar_tiled p (lay_area p (lo_lay _ _ _ _ H))) as Ht. rewrite El in Ht. destruct (tiled_notin _ _ _ _ Ht) as [H1 H2].
  rewrite El, list_next_split, list_prev_split by done. done.
Qed.

(** The list once the buffer behind [b] is merged into it. *)
Definition after_next (p : binder_proc) (b : Z) : list Z :=
  match list_next b (buffers p) with Some c => if isfree p c then list_del c (buffers p) else buffers p | None => buffers p end.

Lemma merge_next_ok p F A b : loose p F A b -> exists p' F', merge_next p b = Some p' /\ loose p' F' A b /\ kept p p' /\
  (forall c, list_next b (buffers p') = Some c -> isfree p' c = false) /\ buffers p' = after_next p b /\ headers p' = headers p /\
  length (pages p') = length (pages p) /\ free_async_space p' = free_async_space p.
Proof.
  intros Hl. destruct (loose_split p F A b Hl) as (l1 & l2 & El & N1 & N2 & En & _). pose proof (lay_area p (lo_lay _ _ _ _ Hl)) as Ha.
  unfold merge_next, after_next. rewrite En. destruct l2 as [|c l2]; [change (head (@nil Z)) with (@None Z) in *|change (head (c :: l2)) with (Some c) in *]; cbv iota beta.
  { exists p, F. split; [done|]. split; [done|]. split; [done|]. split; [by rewrite En|done]. }
  assert (Hcb : c ∈ buffers p) by (rewrite El; set_solver). destruct (area_some p c Ha Hcb) as (h & -> & _ & Hh). cbn [mbind option_bind]. rewrite Hh.
  destruct (isfree p c) eqn:Hf.
  2: { exists p, F. split; [done|]. split; [done|]. split; [done|]. rewrite En. split; [by intros c' [= <-]|done]. }
  assert (Hne : c <> b) by set_solver. assert (HcF : c ∈ F) by (by apply (lo_free _ _ _ _ Hl)).
  destruct (erase_free_ok p F A c (lo_trees _ _ _ _ Hl) HcF) as (t & E1 & Ht). rewrite E1. cbn [mbind option_bind].
  assert (Hlay1 : layout (with_free_tree t p)) by (apply (layout_ext p); [apply (lo_lay _ _ _ _ Hl)|done..]).
  destruct (delete_ok (with_free_tree t p) l1 b c l2 Hlay1 El (lo_isfree _ _ _ _ Hl) Hf) as (l & E2 & Hlay2 & Hlen). rewrite E2.
  eexists _, (list_del c F). split; [done|]. set (p2 := with_pages l _) in *.
  assert (Hl2 : loose p2 (list_del c F) A b).
  { apply (drop_loose p F A b p2 (list_del c F) l1 b c l2); try done; try (by left).
    - apply (lo_isfree _ _ _ _ Hl).
    - by eapply trees_ext.
    - intros x. rewrite elem_of_list_del, (lo_free _ _ _ _ Hl). tauto.
    - apply ordered_del, (lo_by_room _ _ _ _ Hl). }
  split; [done|]. split; [done|]. split; [|split; [|done]].
  - intros n. simpl buffers. rewrite list_next_split by done. intros Hn. destruct l2 as [|n' l2]; [done|]. injection Hn as ->. change (isfree p n = false).
    destruct (isfree p n) eqn:Hfn; [|done]. exfalso. destruct (lo_merged _ _ _ _ Hl (l1 ++ [b]) c n l2) as [?| ->]; try done; [by rewrite El, <- app_assoc|set_solver].
  - simpl. rewrite El. replace (l1 ++ b :: c :: l2) with ((l1 ++ [b]) ++ c :: l2) by (by rewrite <- app_assoc).
    pose proof (ar_tiled p Ha) as Htl. rewrite El in Htl. replace (l1 ++ b :: c :: l2) with ((l1 ++ [b]) ++ c :: l2) in Htl by (by rewrite <- app_assoc).
    destruct (tiled_notin _ _ _ _ Htl) as [M1 M2]. rewrite list_del_split by done. by rewrite <- app_assoc.
Qed.

(** The list and the buffer once [b] is merged into the one before it. *)
Definition after_prev (p : binder_proc) (b : Z) : list Z * Z :=
  match list_prev b (buffers p) with Some a => if isfree p a then (list_del b (buffers p), a) else (buffers p, b) | None => (buffers p, b) end.

Lemma merge_prev_ok p F A b : loose p F A b -> (forall c, list_next b (buffers p) = Some c -> isfree p c = false) ->
  exists p' F' b', merge_prev p b = Some (p', b') /\ loose p' F' A b' /\ kept p p' /\
    (forall c, list_next b' (buffers p') = Some c -> isfree p' c = false) /\ (forall c, list_prev b' (buffers p') = Some c -> isfree p' c = false) /\
    (buffers p', b') = after_prev p b /\ headers p' = headers p /\ length (pages p') = length (pages p) /\ free_async_space p' = free_async_space p.
Proof.
  intros Hl Hnext. destruct (loose_split p F A b Hl) as (l1 & l2 & El & N1 & N2 & En & Ep). pose proof (lay_area p (lo_lay _ _ _ _ Hl)) as Ha.
  unfold merge_prev, after_prev. rewrite Ep. destruct l1 as [|a l0 _] using rev_ind.
  { exists p, F, b. rewrite bool_decide_eq_true_2 by (by rewrite El). split; [done|]. split; [done|]. split; [done|]. split; [done|].
    split; [by rewrite Ep|done]. }
  rewrite bool_decide_eq_false_2 by (rewrite El; destruct l0; simpl; intros [= ->]; set_solver).
  rewrite last_snoc. cbn [mbind option_bind]. assert (Hab : a ∈ buffers p) by (rewrite El; set_solver).
  destruct (area_some p a Ha Hab) as (h & -> & _ & Hh). cbn [mbind option_bind]. rewrite Hh. destruct (isfree p a) eqn:Hf.
  2: { exists p, F, b. split; [done|]. split; [done|]. split; [done|]. split; [done|]. rewrite Ep, last_snoc. split; [by intros c [= <-]|done]. }
  assert (Hne : a <> b) by set_solver. assert (HaF : a ∈ F) by (by apply (lo_free _ _ _ _ Hl)).
  assert (El' : buffers p = l0 ++ a :: b :: l2) by (by rewrite El, <- app_assoc).
  destruct (delete_ok p l0 a b l2 (lo_lay _ _ _ _ Hl) El' Hf (lo_isfree _ _ _ _ Hl)) as (l & E2 & Hlay2 & Hlen). rewrite E2. cbn [mbind option_bind].
  set (p1 := with_pages l _) in *. assert (Ht1 : trees p1 F A) by (apply (trees_ext p); [apply (lo_trees _ _ _ _ Hl)|done..]).
  destruct (erase_free_ok p1 F A a Ht1 HaF) as (t & E1 & Ht). change (node p a) with (node p1 a). rewrite E1. cbn [mbind option_bind].
  exists (with_free_tree t p1), (list_del a F), a. split; [done|].
  assert (Hl2 : loose (with_free_tree t p1) (list_del a F) A a).
  { apply (drop_loose p F A b _ (list_del a F) l0 a b l2); try done; try (by right).
    - apply (lo_isfree _ _ _ _ Hl).
    - by eapply layout_ext.
    - intros x. rewrite elem_of_list_del, (lo_free _ _ _ _ Hl). tauto.
    - apply ordered_del, (lo_by_room _ _ _ _ Hl). }
  pose proof (ar_tiled _ (lay_area _ (lo_lay _ _ _ _ Hl2))) as Htl. simpl in Htl. destruct (tiled_notin _ _ _ _ Htl) as [M1 M2].
  split; [done|]. split; [done|]. simpl buffers. rewrite list_next_split, list_prev_split by done. split; [|split; [|split; [|done]]].
  - intros c Hc. change (isfree p c = false). apply Hnext. by rewrite En.
  - intros c Hc. change (isfree p c = false). destruct (isfree p c) eqn:Hfc; [|done]. exfalso.
    apply last_Some in Hc as [k ->]. destruct (lo_merged _ _ _ _ Hl k c a (b :: l2)) as [->| ->]; try done; [by rewrite El', <- app_assoc|].
    apply N1. set_solver.
  - rewrite El, list_del_split by done. by rewrite <- app_assoc.
Qed.

(** ** [binder_free_buf] *)

Lemma total_del p A b : NoDup A -> b ∈ A -> total p A = cost p b + total p (list_del b A).
Proof.
  intros Hnd (A1 & A2 & ->)%list_elem_of_split. apply NoDup_app in Hnd as (_ & N1 & N2). apply NoDup_cons in N2 as [N2 _].
  rewrite list_del_split; [apply total_mid| |done]. intros H. apply (N1 b H). set_solver.
Qed.

Lemma sorted_nodup A : StronglySorted Z.lt A -> NoDup A.
Proof. induction 1 as [|x A HA IH Hx]; constructor; [|done]. intros Hin. rewrite Forall_forall in Hx. apply Hx in Hin. lia. Qed.

(** The pages of [b] that only its data lie on go. *)
Lemma release_pages_ok p b l1 l2 : layout p -> buffers p = l1 ++ b :: l2 -> isfree p b = false ->
  let fr c := if decide (c = b) then true else isfree p c in
  exists l r, binder_update_page_range p None (PAGE_ALIGN (data b)) (Z.land (data b +u room p b) PAGE_MASK) None = Some (with_pages l p, r) /\
    length l = length (pages p) /\ backed (with_pages l p) (used fr (buffers p) (area_end p)).
Proof.
  intros [Ha HB] El Hf fr. pose proof (ar_geo p Ha) as G. assert (Hb : b ∈ buffers p) by (rewrite El; set_solver).
  pose proof (ar_tiled p Ha) as Ht. rewrite El in Ht. destruct (tiled_notin _ _ _ _ Ht) as [N1 N2].
  destruct (hole_used fr l1 b l2 (area_end p) Ht) as (HU & HP & HF & HN); [unfold fr; by rewrite decide_True|]. set (e := start l2 (area_end p)) in *.
  rewrite <- El in HU, HP, HF. set (U := used fr (buffers p) (area_end p)) in *.
  assert (HV : forall x, live p x <-> U x \/ b + 40 <= x < e).
  { intros x. unfold live, U. rewrite El, !used_app, !start_cons. simpl. rewrite Hf. assert (Hfb : fr b = true) by (unfold fr; by rewrite decide_True). rewrite Hfb.
    rewrite (used_ext (isfree p) fr l1), (used_ext (isfree p) fr l2).
    - fold e. assert (b <= x < e <-> b <= x < b + 40 \/ b + 40 <= x < e) by lia. tauto.
    - intros c Hc. unfold fr. rewrite decide_False; [done|]. intros ->. done.
    - intros c Hc. unfold fr. rewrite decide_False; [done|]. intros ->. done. }
  assert (HF' : U e \/ e mod PAGE_SIZE = 0) by (destruct HF as [?| ->]; [by left|right; by apply area_end_aligned]).
  destruct (buffer_size_room p b Ha Hb) as (_ & R0 & R1). rewrite (area_data p b Ha Hb) in *. words Ha. destruct (area_in p b Ha Hb) as (B1 & B2 & _).
  assert (Er : b + 40 + room p b = e) by (unfold room; rewrite El, gap_split by done; fold e; lia).
  rewrite u32_small by (unfold two32; lia). rewrite Er, (page_align_addr p (b + 40) G), (mask_addr p e G) by lia.
  assert (Hj : (slot p e <= length (pages p))%nat) by (apply (slot_bound p e G); lia).
  assert (Hij : forall m, (m < length (pages p))%nat -> (up_slot p (b + 40) <= m < slot p e)%nat <->
    b + 40 <= addr p m /\ addr p m + PAGE_SIZE <= e /\ addr p m < e /\ b + 40 < addr p m + PAGE_SIZE).
  { intros m _. rewrite <- addr_S. pose proof (up_slot_le p (b + 40) m G ltac:(lia)). pose proof (slot_le p e (S m) G ltac:(lia)).
    rewrite addr_S in *. unfold Ashmem.PAGE_SIZE in *. lia. }
  assert (Hst : b + 40 <= b + 40 <= e) by lia.
  destruct (free_range_ok p (up_slot p (b + 40)) (slot p e) None G Hj) as (l & r & E1 & Hrg).
  { exact (grow_present p U (live p) (b + 40) e (b + 40) e _ _ G Hst (Z.le_refl _) (or_introl eq_refl) HV HU HP HF' Hij Hj HB). }
  exists l, r. split; [done|]. split; [apply Hrg|].
  exact (backed_shrink p U (live p) (b + 40) e (b + 40) e _ _ G Hst (Z.le_refl _) (or_introl eq_refl) HV HU HP HF' Hij l HB Hrg).
Qed.

(** The state once [b] has left the tree of allocated buffers. *)
Lemma released_loose p F A b h p1 : binv p F A -> b ∈ A -> headers p !! b = Some h ->
  area p1 -> backed p1 (used (fun c => if decide (c = b) then true else isfree p c) (buffers p) (area_end p)) -> trees p1 F (list_del b A) ->
  kept p p1 -> buffers p1 = buffers p -> headers p1 = <[b := set_free true h]> (headers p) -> free_async_space p1 = free_async_space p + charge h ->
  loose p1 F (list_del b A) b.
Proof.
  intros [_ _ Bf Ba Bs Bsa Bm Bfit Bas Bv] Hb Hh Ha1 HB1 Ht1 Hk Hl1 Hh1 Has. pose proof Hb as Hb'. apply Ba in Hb' as [Hbb Hbf].
  assert (Hif : forall c, isfree p1 c = if decide (c = b) then true else isfree p c) by (intros c; by apply (isfree_insert p p1 b (set_free true h) c)).
  assert (Hrm : forall c, room p1 c = room p c) by (intros c; unfold room; by rewrite (kept_end p p1 Hk), Hl1).
  assert (Hho : forall c, c <> b -> headers p1 !! c = headers p !! c) by (intros c Hc; rewrite Hh1; by apply lookup_insert_ne).
  pose proof (kept_end p p1 Hk) as He. destruct Hk as (Kv & Kb & Ku & Ks). split; try done.
  - split; [done|]. unfold live. rewrite Hl1, He. eapply backed_ext; [|exact HB1]. intros x. apply used_ext. intros c _. by rewrite Hif.
  - by rewrite Hl1.
  - by rewrite Hif, decide_True.
  - intros c. rewrite Bf, Hl1, Hif. case_decide as Hc; [subst c|tauto]. split; [intros [_ ?]; congruence|by intros (_ & _ & ?)].
  - intros c. rewrite elem_of_list_del, Ba, Hl1, Hif. case_decide as Hc; [subst c|tauto]. split; by intros [_ ?].
  - eapply ordered_ext; [|exact Bs]. unfold by_room. intros x y _ _. by rewrite !Hrm.
  - by apply ordered_del.
  - intros k1 x y k2 Ek Hx Hy. rewrite Hl1 in Ek. rewrite Hif in Hx, Hy. destruct (decide (x = b)); [by left|]. destruct (decide (y = b)); [by right|].
    exfalso. by apply (Bm k1 x y k2 Ek).
  - intros c hc [Hc Hne]%elem_of_list_del Hhc. rewrite Hho in Hhc by done. rewrite Hrm. by apply (Bfit c).
  - rewrite Has, Ks. destruct Bas as [Bas Bas0]. rewrite (total_del p A b) in Bas by (by try apply sorted_nodup).
    rewrite (total_ext p p1) by (intros c [_ Hne]%elem_of_list_del; by apply Hho). unfold cost in Bas. rewrite Hh in Bas.
    split; [lia|]. destruct (Bfit b h Hb Hh). unfold charge. destruct (async_transaction h); lia.
  - by rewrite Kv, Kb, Ku, Ks.
Qed.

(** What freeing [b] leaves on the list. *)
Definition merged_list (p : binder_proc) (b : Z) : list Z :=
  let l := after_next p b in
  match list_prev b l with Some a => if isfree p a then list_del b l else l | None => l end.

(** What the buffer was charged is given back, without overflow. *)
Lemma give_back p F A b h : binv p F A -> b ∈ A -> headers p !! b = Some h ->
  free_async_space (if async_transaction h then with_async (free_async_space p +u (req h +u sizeof_binder_buffer)) p else p) = free_async_space p + charge h.
Proof.
  intros Hp Hb Hh. pose proof (bi_area _ _ _ Hp) as Ha. assert (Hbb : b ∈ buffers p) by (by apply (bi_alloc _ _ _ Hp) in Hb as [? _]).
  destruct (bi_fit _ _ _ Hp b h Hb Hh) as [Q0 Q1]. destruct (fits_small p b (req h) Ha Hbb Q1) as [_ Hs]. destruct (area_word p Ha) as (_ & _ & W).
  destruct (bi_async _ _ _ Hp) as [As1 As2]. assert (Hc : charge h <= total p A).
  { rewrite (total_del p A b) by (try done; apply sorted_nodup, (bi_by_address _ _ _ Hp)). unfold cost. rewrite Hh.
    assert (0 <= total p (list_del b A)); [|lia]. apply charges_nonneg. intros c hc [Hc _]%elem_of_list_del Hhc. by apply (bi_fit _ _ _ Hp c). }
  unfold charge in *. destruct (async_transaction h); [|lia]. simpl. unfold sizeof_binder_buffer.
  assert (buffer_size p / 2 <= buffer_size p) by (apply Z.div_le_upper_bound; lia).
  rewrite (u32_small (req h + 40)) by lia. apply u32_small. unfold two32, SZ_4M in *. lia.
Qed.

(** The list is told apart by the headers other than that of [b]. *)
Lemma merged_list_eq p q3 q4 F4 A4 b L b5 : loose q4 F4 A4 b -> NoDup (buffers p) -> b ∈ buffers p -> buffers q3 = buffers p ->
  (forall c, c <> b -> isfree q3 c = isfree p c) -> (forall c, isfree q4 c = isfree q3 c) ->
  buffers q4 = after_next q3 b -> (L, b5) = after_prev q4 b -> L = merged_list p b.
Proof.
  intros Lo4 Hnd Hbb L3 Hif3 Hif4 L4 L5. apply list_elem_of_split in Hbb as (l1 & l2 & El). rewrite El in Hnd.
  apply NoDup_app in Hnd as (_ & X1 & X2). apply NoDup_cons in X2 as [X2 _].
  assert (E4 : after_next q3 b = after_next p b).
  { unfold after_next. rewrite L3, El, list_next_split by (intros H; apply (X1 b H); set_solver). destruct l2 as [|c l2]; [done|]. simpl.
    rewrite Hif3 by set_solver. done. }
  unfold merged_list. rewrite <- E4, <- L4. unfold after_prev in L5. destruct (list_prev b (buffers q4)) as [a|] eqn:Hprev; [|congruence].
  assert (Hab : a <> b).
  { intros ->. destruct (loose_split q4 F4 _ b Lo4) as (k1 & k2 & _ & Hk1 & _ & _ & Hk). rewrite Hk in Hprev. apply last_Some in Hprev as [k ->]. set_solver. }
  rewrite Hif4, Hif3 in L5 by done. destruct (isfree p a); congruence.
Qed.

Lemma free_ok p F A b h : binv p F A -> b ∈ A -> headers p !! b = Some h -> transaction h = None ->
  exists p' F', binder_free_buf p b = Some p' /\ binv p' F' (list_del b A) /\ kept p p' /\ buffers p' = merged_list p b /\
    headers p' = <[b := set_free true h]> (headers p) /\ length (pages p') = length (pages p) /\ free_async_space p' = free_async_space p + charge h.
Proof.
  intros Hp Hb Hh Htr. pose proof Hb as Hb'. apply (bi_alloc _ _ _ Hp) in Hb' as [Hbb Hbf]. pose proof (bi_area _ _ _ Hp) as Ha.
  destruct (area_in p b Ha Hbb) as (B1 & B2 & _). destruct (buffer_size_room p b Ha Hbb) as (Er & R0 & _). destruct (bi_fit _ _ _ Hp b h Hb Hh) as [Q0 Q1].
  pose proof (area_word p Ha) as (W1 & W2 & W3).
  assert (Hfh : free h = false) by (unfold isfree in Hbf; by rewrite Hh in Hbf).
  unfold binder_free_buf. rewrite (area_header p b Ha Hbb), Hh. cbn [mbind option_bind]. rewrite Er, Hfh, Htr. fold (req h).
  rewrite !bool_decide_eq_false_2 by (try tauto; try lia; rewrite u32_small; unfold area_end, two32, Ashmem.PAGE_SIZE in *; lia). cbn [orb].
  set (q := if async_transaction h then with_async (free_async_space p +u (req h +u sizeof_binder_buffer)) p else p).
  assert (Hqas : free_async_space q = free_async_space p + charge h) by (by eapply give_back).
  assert (Hq : kept p q /\ buffers q = buffers p /\ headers q = headers p /\ pages q = pages p /\ trees q F A).
  { unfold q. destruct (async_transaction h); [|split; [done|]; split; [done|]; split; [done|]; split; [done|]; apply (bi_trees _ _ _ Hp)].
    split; [done|]. split; [done|]. split; [done|]. split; [done|]. apply (trees_ext p); [apply (bi_trees _ _ _ Hp)|done..]. }
  destruct Hq as (Kq & Lq & Hhq & Pq & Tq). assert (Layq : layout q) by (apply (layout_ext p); [apply (bi_lay _ _ _ Hp)|apply Kq|apply Kq|done..]).
  assert (Eif : forall c, isfree q c = isfree p c) by (intros c; unfold isfree; by rewrite Hhq).
  pose proof Hbb as Hsp. apply list_elem_of_split in Hsp as (l1 & l2 & El). assert (Elq : buffers q = l1 ++ b :: l2) by congruence.
  assert (Hfq : isfree q b = false) by (by rewrite Eif).
  destruct (release_pages_ok q b l1 l2 Layq Elq Hfq) as (l & r & E1 & Hlen & HB).
  assert (Erq : room q b = room p b) by (unfold room; by rewrite (kept_end p q Kq), Lq). rewrite Erq in E1. rewrite E1. cbn [mbind option_bind].
  set (q1 := with_pages l q) in *.
  assert (Aq1 : area q1).
  { apply (area_intro q1 _ ltac:(apply (geometry_ext q); [apply Layq|done..]) (ar_tiled q (lay_area q Layq)) (ar_head q (lay_area q Layq)) (ar_headers q (lay_area q Layq)) HB).
    intros c x Hc Hx. apply (used_header _ _ _ c); [apply (ar_tiled q (lay_area q Layq))|done|done]. }
  assert (Tq1 : trees q1 F A) by (by apply (trees_ext q)).
  destruct (erase_alloc_ok q1 F A b Tq1 Hb) as (t & E2 & T2). rewrite E2. cbn [mbind option_bind].
  assert (Aq2 : area (with_allocated_tree t q1)) by (by apply (area_ext q1); [..|apply (ar_headers q1 Aq1)]).
  assert (Hb2 : b ∈ buffers (with_allocated_tree t q1)) by (simpl; by rewrite Lq).
  assert (Hh2 : headers (with_allocated_tree t q1) !! b = Some h) by (simpl; by rewrite Hhq).
  destruct (update_header_ok (with_allocated_tree t q1) b (set_free true) h Aq2 Hb2 Hh2) as [E3 Aq3]. rewrite E3. cbn [mbind option_bind].
  set (q3 := with_headers _ _) in *. assert (K3 : kept p q3) by exact Kq.
  assert (Lo3 : loose q3 F (list_del b A) b).
  { apply (released_loose p F A b h q3 Hp Hb Hh Aq3); try done.
    - eapply backed_ext; [|exact HB]. intros x. rewrite Lq, (kept_end p q Kq). apply used_ext. intros c _. by rewrite Eif.
    - by apply (trees_ext (with_allocated_tree t q1)).
    - simpl. by rewrite Hhq. }
  assert (H3 : buffers q3 = buffers p /\ headers q3 = <[b := set_free true h]> (headers p)) by (split; simpl; congruence). destruct H3 as [L3 H3].
  destruct (merge_next_ok q3 F _ b Lo3) as (q4 & F4 & E4 & Lo4 & K4 & N4 & L4 & H4 & P4 & S4). rewrite E4. cbn [mbind option_bind].
  destruct (merge_prev_ok q4 F4 _ b Lo4 N4) as (q5 & F5 & b5 & E5 & Lo5 & K5 & N5 & M5 & L5 & H5 & P5 & S5). rewrite E5. cbn [mbind option_bind].
  destruct (loose_insert q5 F5 _ b5 Lo5 N5 M5) as (p' & F' & E6 & Hp' & K6 & L6 & H6 & P6 & S6).
  exists p', F'. split; [exact E6|]. split; [done|]. split; [|split; [|split; [congruence|split; [|rewrite S6, S5, S4; exact Hqas]]]].
  - eapply kept_trans; [exact K3|]. eapply kept_trans; [exact K4|]. by eapply kept_trans.
  - rewrite L6. apply (merged_list_eq p q3 q4 F4 _ b _ b5 Lo4); try done.
    + apply (tiled_nodup _ _ (ar_tiled p Ha)).
    + intros c Hc. unfold isfree. rewrite H3. by rewrite lookup_insert_ne.
    + intros c. unfold isfree. by rewrite H4.
  - rewrite P6, P5, P4. simpl. rewrite Hlen. by rewrite Pq.
Qed.

End BinderFree.
