(* ===== verification/BinderTop.v ===== *)
(** * The binder's buffers and the transactions that own them

    The operations of the driver keep the invariant of the area, and that every
    transaction and its buffer know each other. *)

From Stdlib Require Import ZArith Lia.
From stdpp Require Import base option gmap sorting list_numbers list.
From S2P Require Import Prelude Ashmem Resource Rbtree RbtreeRep RbtreeWalk Binder BinderMem BinderInv BinderAlloc BinderTake BinderFree.

Local Open Scope Z_scope.
Local Open Scope kernel_scope.

Module BinderTop.
Import Rbtree RbtreeRep RbtreeWalk RbtreeSeq Binder BinderMem BinderInv BinderAlloc BinderTake BinderFree.

(** ** Fields the allocator does not look at *)

(** A change of the header of an allocated buffer that concerns neither its size
    nor its state. *)
Lemma binv_mark p F A b h f : binv p F A -> b ∈ A -> headers p !! b = Some h ->
  free (f h) = free h -> async_transaction (f h) = async_transaction h -> data_size (f h) = data_size h -> offsets_size (f h) = offsets_size h ->
  update_header p b f = Some (with_headers (<[b := f h]> (headers p)) p) /\ binv (with_headers (<[b := f h]> (headers p)) p) F A.
Proof.
  intros Hp Hb Hh E1 E2 E3 E4. pose proof (bi_area _ _ _ Hp) as Ha. assert (Hbb : b ∈ buffers p) by (by apply (bi_alloc _ _ _ Hp) in Hb as [? _]).
  destruct (update_header_ok p b f h Ha Hbb Hh) as [Eu Ha']. split; [done|]. set (p' := with_headers _ _) in *.
  assert (Hif : forall c, isfree p' c = isfree p c).
  { intros c. rewrite (isfree_insert p p' b (f h) c eq_refl). case_decide as Hc; [|done]. subst c. unfold isfree. by rewrite Hh, E1. }
  assert (Hreq : req (f h) = req h) by (unfold req; by rewrite E3, E4).
  destruct Hp as [[_ HB] Ht Bf Ba Bs Bsa Bm Bfit Bas Bv]. split; try done.
  - split; [done|]. eapply backed_ext; [|exact HB]. intros x. unfold live. simpl. apply used_ext. intros c _. by rewrite Hif.
  - by apply (trees_ext p).
  - intros c. rewrite Hif. apply Bf.
  - intros c. rewrite Hif. apply Ba.
  - intros l1 x y l2 Hl. rewrite !Hif. exact (Bm l1 x y l2 Hl).
  - intros c hc Hc Hhc. simpl in Hhc. destruct (decide (c = b)) as [->|Hne].
    + rewrite lookup_insert_eq in Hhc. injection Hhc as <-. rewrite Hreq. by apply (Bfit b).
    + rewrite lookup_insert_ne in Hhc by done. by apply (Bfit c).
  - assert (Etot : total p' A = total p A); [|by rewrite Etot]. unfold total. f_equal. apply map_ext_in. intros c _. unfold cost. simpl.
    destruct (decide (c = b)) as [->|Hne]; [|by rewrite lookup_insert_ne]. rewrite lookup_insert_eq, Hh. unfold charge. by rewrite E2, Hreq.
Qed.

(** ** The invariant of the whole *)

Record core (s : binder_state) (F A : list Z) : Prop := {
  co_proc : binv (proc s) F A;
  co_owner : forall t b, t_buffer s !! t = Some (Some b) <-> b ∈ A /\ exists h, headers (proc s) !! b = Some h /\ transaction h = Some t
}.

(** Nobody can free [b]: the receiver may not, and it belongs to no transaction
    that is still to be read. *)
Definition lost (s : binder_state) (b : Z) : Prop :=
  exists h, headers (proc s) !! b = Some h /\ allow_user_free h = false /\ forall t, transaction h = Some t -> t ∉ queued s.

Lemma lost_keep s s' b : lost s b -> headers (proc s') !! b = headers (proc s) !! b -> (forall t, t ∈ queued s' -> t ∈ queued s) -> lost s' b.
Proof. intros (h & Hh & Hu & Ht) E Hq. exists h. rewrite E. split; [done|]. split; [done|]. intros t Et Hin. by apply (Ht t Et), Hq. Qed.

(** Queued transactions keep their buffers, and a buffer that the receiver may
    not free yet belongs to one of them, or is one of the lost ones [L]. *)
Record pending (s : binder_state) (A L : list Z) : Prop := {
  pe_queued : forall t, t ∈ queued s -> exists b h, t_buffer s !! t = Some (Some b) /\ headers (proc s) !! b = Some h /\ allow_user_free h = false;
  pe_held : forall b h, b ∈ A -> headers (proc s) !! b = Some h -> allow_user_free h = false -> b ∉ L -> exists t, transaction h = Some t /\ t ∈ queued s;
  pe_lost : forall b, b ∈ L -> b ∈ A /\ lost s b;
  pe_nodup : NoDup (queued s)
}.

Definition sinv (s : binder_state) (F A L : list Z) : Prop := core s F A /\ pending s A L.

Lemma pending_change s s' A A' L : pending s A L ->
  (forall t, t ∈ queued s' -> t ∈ queued s /\ t_buffer s' !! t = t_buffer s !! t /\
     forall b, t_buffer s !! t = Some (Some b) -> headers (proc s') !! b = headers (proc s) !! b) ->
  (forall b h, b ∈ A' -> b ∉ L -> headers (proc s') !! b = Some h -> allow_user_free h = false ->
     b ∈ A /\ headers (proc s) !! b = Some h /\ forall t, transaction h = Some t -> t ∈ queued s -> t ∈ queued s') ->
  (forall b, b ∈ L -> b ∈ A -> lost s b -> b ∈ A' /\ lost s' b) ->
  NoDup (queued s') -> pending s' A' L.
Proof.
  intros [H1 H2 HL H3] C1 C2 CL C3. split; [| |intros b Hb; destruct (HL b Hb); by apply CL|done].
  - intros t Ht. destruct (C1 t Ht) as (Hq & Et & Eh). destruct (H1 t Hq) as (b & h & Eb & Hh & Hu). exists b, h. rewrite Et, (Eh b Eb). done.
  - intros b h Hb Hh Hu HbL. destruct (C2 b h Hb HbL Hh Hu) as (Hb' & Hh' & Hq). destruct (H2 b h Hb' Hh' Hu HbL) as (t & Ht & Htq). exists t. split; [done|]. by apply Hq.
Qed.

Lemma alloc_header p F A b : binv p F A -> b ∈ A -> exists h, header p b = Some h /\ headers p !! b = Some h /\ free h = false /\ b ∈ buffers p.
Proof.
  intros Hp Hb. apply (bi_alloc _ _ _ Hp) in Hb as [Hb Hf]. destruct (area_some p b (bi_area _ _ _ Hp) Hb) as (h & H1 & H2 & H3).
  exists h. split; [done|]. split; [done|]. split; [congruence|done].
Qed.

(** The transaction [t] of [b] is no longer its owner. *)
Lemma core_disown s F A t b h h' m q : core s F A -> t_buffer s !! t = Some (Some b) -> headers (proc s) !! b = Some h ->
  binv (with_headers (<[b := h']> (headers (proc s))) (proc s)) F A -> transaction h' = None ->
  (forall t', t' <> t -> m !! t' = t_buffer s !! t') -> (forall c, m !! t <> Some (Some c)) ->
  core (mk_state (with_headers (<[b := h']> (headers (proc s))) (proc s)) m q) F A.
Proof.
  intros [Hp Ho] Ht Hh Hp' Hn Hm Hmt. split; simpl; [done|]. apply Ho in Ht as Hb. destruct Hb as (Hb & h0 & Eh0 & Ht0). assert (h0 = h) as -> by congruence.
  intros t' c. destruct (decide (t' = t)) as [->|Hne].
  - split; [intros H; by apply Hmt in H|]. intros (Hc & hc & Hhc & Htc). exfalso. destruct (decide (c = b)) as [->|Hcb].
    + rewrite lookup_insert_eq in Hhc. injection Hhc as <-. congruence.
    + rewrite lookup_insert_ne in Hhc by done. assert (t_buffer s !! t = Some (Some c)) by (apply Ho; split; [done|by exists hc]). congruence.
  - rewrite Hm by done. rewrite Ho. split; intros (Hc & hc & Hhc & Htc); (split; [done|]); exists hc; (split; [|done]).
    + rewrite lookup_insert_ne; [done|]. intros <-. congruence.
    + destruct (decide (c = b)) as [->|Hcb]; [|by rewrite lookup_insert_ne in Hhc]. rewrite lookup_insert_eq in Hhc. injection Hhc as <-. congruence.
Qed.

Lemma owner_header s F A t b : core s F A -> t_buffer s !! t = Some (Some b) ->
  exists h, b ∈ A /\ headers (proc s) !! b = Some h /\ transaction h = Some t.
Proof. intros [_ Ho] (Hb & h & Hh & Ht)%Ho. by exists h. Qed.

(** What [unlink_transaction] does to an allocated buffer. *)
Definition forget (s : binder_state) (b : Z) (h : binder_buffer) : binder_state :=
  match transaction h with
  | None => s
  | Some t => mk_state (with_headers (<[b := set_transaction None h]> (headers (proc s))) (proc s)) (<[t := None]> (t_buffer s)) (queued s)
  end.

Lemma unlink_transaction_ok s F A b h : core s F A -> b ∈ A -> headers (proc s) !! b = Some h ->
  unlink_transaction s b = Some (forget s b h) /\ core (forget s b h) F A /\ headers (proc (forget s b h)) !! b = Some (set_transaction None h).
Proof.
  intros Hc Hb Hh. pose proof Hc as [Hp Ho]. destruct (alloc_header _ _ _ b Hp Hb) as (h0 & E1 & E2 & _ & Hbb). assert (h0 = h) as -> by congruence.
  unfold unlink_transaction, forget. rewrite E1. cbn [mbind option_bind]. destruct (transaction h) as [t|] eqn:Ht.
  2: { split; [done|]. split; [done|]. rewrite Hh. destruct h; simpl in *. by subst. }
  assert (Etb : t_buffer s !! t = Some (Some b)) by (apply Ho; split; [done|by exists h]). rewrite Etb. cbn [mbind option_bind].
  destruct (binv_mark _ _ _ b h (set_transaction None) Hp Hb Hh) as [E3 Hp']; try done. rewrite E3. cbn [mbind option_bind]. split; [done|].
  split; [|simpl; by rewrite lookup_insert_eq]. eapply core_disown; try done.
  - intros t' Hne. by rewrite lookup_insert_ne.
  - intros c. by rewrite lookup_insert_eq.
Qed.

(** Freeing a buffer that belongs to no transaction. *)
Lemma core_free s F A b h : core s F A -> b ∈ A -> headers (proc s) !! b = Some h -> transaction h = None ->
  exists p' F', binder_free_buf (proc s) b = Some p' /\ core (mk_state p' (t_buffer s) (queued s)) F' (list_del b A) /\
    kept (proc s) p' /\ buffers p' = merged_list (proc s) b /\ headers p' = <[b := set_free true h]> (headers (proc s)) /\
    length (pages p') = length (pages (proc s)) /\ free_async_space p' = free_async_space (proc s) + charge h.
Proof.
  intros [Hp Ho] Hb Hh Ht. destruct (free_ok _ _ _ b h Hp Hb Hh Ht) as (p' & F' & E & Hp' & Hk & Hbs & Hhs & Hlen & Has).
  exists p', F'. split; [done|]. split; [|done]. split; simpl; [done|].
  intros t c. rewrite Ho, elem_of_list_del, Hhs. split.
  - intros (Hc & hc & Hhc & Htc). assert (Hne : c <> b) by (intros ->; congruence). split; [done|]. exists hc. by rewrite lookup_insert_ne.
  - intros ([Hc Hne] & hc & Hhc & Htc). rewrite lookup_insert_ne in Hhc by done. split; [done|]. by exists hc.
Qed.

(** ** Ends of a transaction *)

Section ends.
Context (s : binder_state) (F A L : list Z) (Hs : sinv s F A L).

(** A transaction that is not queued has lost its buffer, or the receiver may
    free it. *)
Lemma popped_pending t b h m : t ∉ queued s -> t_buffer s !! t = Some (Some b) -> headers (proc s) !! b = Some h ->
  (forall t', t' <> t -> m !! t' = t_buffer s !! t') ->
  pending (mk_state (with_headers (<[b := set_transaction None h]> (headers (proc s))) (proc s)) m (queued s)) A L.
Proof.
  intros Hq Ht Hh Hm. destruct Hs as [Hc Hpe]. destruct (owner_header s F A t b Hc Ht) as (h0 & Hb & Eh & Et). assert (h0 = h) as -> by congruence.
  apply (pending_change s _ A A L Hpe); simpl; [| | |apply Hpe].
  - intros t' Ht'. assert (Hne : t' <> t) by congruence. split; [done|]. split; [by apply Hm|]. intros b' Hb'. apply lookup_insert_ne. intros <-.
    destruct (owner_header s F A t' b Hc Hb') as (h1 & _ & Eh1 & Et1). congruence.
  - intros c hc Hc' HcL Hhc Hu. destruct (decide (c = b)) as [->|Hne].
    + rewrite lookup_insert_eq in Hhc. injection Hhc as <-. simpl in Hu. destruct (pe_held s A L Hpe b h Hb Hh Hu HcL) as (t' & Et' & Hq'). congruence.
    + rewrite lookup_insert_ne in Hhc by done. done.
  - intros c _ Hc' Hl. split; [done|]. destruct (decide (c = b)) as [->|Hne]; [|apply (lost_keep s); simpl; [done|by rewrite lookup_insert_ne|done]].
    destruct Hl as (h' & Hh' & Hu & _). assert (h' = h) as -> by congruence. exists (set_transaction None h). simpl. by rewrite lookup_insert_eq.
Qed.

Lemma pop_ok t : is_Some (t_buffer s !! t) -> t ∉ queued s ->
  exists s', binder_pop_transaction s t = Some s' /\ sinv s' F A L.
Proof.
  intros [tb Ht] Hq. pose proof Hs as [Hc Hpe]. unfold binder_pop_transaction. rewrite Ht. cbn [mbind option_bind]. destruct tb as [b|].
  - destruct (owner_header s F A t b Hc Ht) as (h & Hb & Eh & Et).
    destruct (binv_mark _ _ _ b h (set_transaction None) (co_proc _ _ _ Hc) Hb Eh) as [E3 Hp']; try done. rewrite E3. cbn [mbind option_bind].
    eexists. split; [done|]. split.
    + eapply core_disown; try done; [intros t' Hne; by rewrite lookup_delete_ne|intros c; by rewrite lookup_delete_eq].
    + apply (popped_pending t); try done. intros t' Hne. by rewrite lookup_delete_ne.
  - cbn [mbind option_bind]. eexists. split; [done|]. split.
    + split; simpl; [apply Hc|]. intros t' c. rewrite <- (co_owner _ _ _ Hc). destruct (decide (t' = t)) as [->|Hne].
      * rewrite lookup_delete_eq, Ht. split; intros [=].
      * by rewrite lookup_delete_ne.
    + apply (pending_change s _ A A L Hpe); simpl; [| | |apply Hpe]; [|by intros|intros c _ Hc' Hl; split; [done|by apply (lost_keep s)]].
      intros t' Ht'. split; [done|]. split; [|done]. rewrite lookup_delete_ne; [done|]. intros <-. done.
Qed.

Lemma free_thread_ok t : is_Some (t_buffer s !! t) -> t ∉ queued s ->
  exists s', free_thread_buffer s t = Some s' /\ sinv s' F A L.
Proof.
  intros [tb Ht] Hq. pose proof Hs as [Hc Hpe]. unfold free_thread_buffer. rewrite Ht. cbn [mbind option_bind]. destruct tb as [b|]; [|by exists s].
  destruct (owner_header s F A t b Hc Ht) as (h & Hb & Eh & Et).
  destruct (binv_mark _ _ _ b h (set_transaction None) (co_proc _ _ _ Hc) Hb Eh) as [E3 Hp']; try done. rewrite E3. cbn [mbind option_bind].
  eexists. split; [done|]. split.
  - eapply core_disown; try done; [intros t' Hne; by rewrite lookup_insert_ne|intros c; by rewrite lookup_insert_eq].
  - apply (popped_pending t); try done. intros t' Hne. by rewrite lookup_insert_ne.
Qed.

Lemma deliver_ok t nr : t ∈ queued s -> exists s', deliver s t nr = Some s' /\ sinv s' F A L.
Proof.
  intros Hq. pose proof Hs as [Hc Hpe]. destruct (pe_queued s A L Hpe t Hq) as (b & h & Ht & Hh & Hu).
  destruct (owner_header s F A t b Hc Ht) as (h0 & Hb & Eh & Et). assert (h0 = h) as -> by congruence.
  unfold deliver. rewrite Ht. cbn [mbind option_bind].
  destruct (binv_mark _ _ _ b h (set_user_free true) (co_proc _ _ _ Hc) Hb Hh) as [E1 Hp1]; try done. rewrite E1. cbn [mbind option_bind].
  assert (Hpend : forall h' m, allow_user_free h' = true -> (forall t', t' <> t -> m !! t' = t_buffer s !! t') ->
    pending (mk_state (with_headers (<[b := h']> (headers (proc s))) (proc s)) m (list_del t (queued s))) A L).
  { intros h' m Hu' Hm. apply (pending_change s _ A A L Hpe); simpl; [| | |apply NoDup_list_del, Hpe].
    - intros t' [Ht' Hne]%elem_of_list_del. split; [done|]. split; [by apply Hm|]. intros b' Hb'. apply lookup_insert_ne. intros <-.
      destruct (owner_header s F A t' b Hc Hb') as (h1 & _ & Eh1 & Et1). congruence.
    - intros c hc Hc' _ Hhc Huc. destruct (decide (c = b)) as [->|Hne].
      + rewrite lookup_insert_eq in Hhc. injection Hhc as <-. congruence.
      + rewrite lookup_insert_ne in Hhc by done. split; [done|]. split; [done|]. intros t' Ht' Hq'. apply elem_of_list_del. split; [done|]. intros ->.
        assert (t_buffer s !! t = Some (Some c)) by (apply (co_owner _ _ _ Hc); split; [done|by exists hc]). congruence.
    - intros c _ Hc' Hl. split; [done|]. apply (lost_keep s); simpl; [done| |intros t' Ht'; by apply elem_of_list_del in Ht' as [? _]].
      rewrite lookup_insert_ne; [done|]. intros ->. destruct Hl as (h0 & E0 & _ & H0). apply (H0 t); [congruence|done]. }
  destruct nr.
  - eexists. split; [done|]. split; [|by apply Hpend]. split; simpl; [done|]. intros t' c. rewrite (co_owner _ _ _ Hc).
    split; intros (Hc' & hc & Hhc & Htc); (split; [done|]); (destruct (decide (c = b)) as [->|Hne]; [|exists hc; by rewrite lookup_insert_ne in *]).
    + exists (set_user_free true h). rewrite lookup_insert_eq. split; [done|]. simpl. congruence.
    + exists h. split; [done|]. rewrite lookup_insert_eq in Hhc. by injection Hhc as <-.
  - set (p1 := with_headers _ _) in *. assert (Hh1 : headers p1 !! b = Some (set_user_free true h)) by (apply lookup_insert_eq).
    destruct (binv_mark p1 F A b _ (set_transaction None) Hp1 Hb Hh1) as [E2 Hp2]; try done. rewrite E2. cbn [mbind option_bind].
    eexists. split; [done|]. unfold p1 in *. simpl in *. rewrite insert_insert_eq in *. change (with_headers ?m (with_headers _ ?q)) with (with_headers m q) in *.
    split; [|apply Hpend; [done|]; intros t' Hne; by rewrite lookup_delete_ne].
    eapply core_disown; try done; [intros t' Hne; by rewrite lookup_delete_ne|intros c; by rewrite lookup_delete_eq].
Qed.

(** A transaction that is taken off its list unread leaves its buffer to nobody. *)
Lemma drop_ok t b : t ∈ queued s -> t_buffer s !! t = Some (Some b) ->
  sinv (mk_state (proc s) (t_buffer s) (list_del t (queued s))) F A (b :: L).
Proof.
  intros Hq Et. destruct Hs as [Hc Hpe]. destruct (pe_queued s A L Hpe t Hq) as (b0 & h & Et0 & Hh & Hu). assert (b0 = b) as -> by congruence.
  destruct (owner_header s F A t b Hc Et) as (h0 & Hb & Eh & Eth). assert (h0 = h) as -> by congruence.
  split; [destruct Hc; by split|]. split; simpl.
  - intros t' [Ht' _]%elem_of_list_del. by apply (pe_queued s A L Hpe).
  - intros c hc HcA Hhc Huc HcL. destruct (pe_held s A L Hpe c hc HcA Hhc Huc) as (t' & Et' & Hq'); [set_solver|]. exists t'. split; [done|].
    apply elem_of_list_del. split; [done|]. intros ->. assert (t_buffer s !! t = Some (Some c)) by (apply (co_owner _ _ _ Hc); split; [done|by exists hc]). set_solver.
  - intros c [->|Hc']%elem_of_cons.
    + split; [done|]. exists h. split; [done|]. split; [done|]. simpl. intros t' Ht' [_ Hne]%elem_of_list_del. congruence.
    + destruct (pe_lost s A L Hpe c Hc') as [HcA Hl]. split; [done|]. apply (lost_keep s); simpl; [done|done|]. intros t' Ht'. by apply elem_of_list_del in Ht' as [? _].
  - apply NoDup_list_del, Hpe.
Qed.

End ends.

Lemma release_work_ok s F A L t popped : sinv s F A L -> t ∈ queued s ->
  exists s' b, release_work s t popped = Some s' /\ t_buffer s !! t = Some (Some b) /\ sinv s' F A (b :: L).
Proof.
  intros Hs Hq. pose proof Hs as [Hc Hpe]. destruct (pe_queued s A L Hpe t Hq) as (b & h & Et & Hh & Hu). destruct (owner_header s F A t b Hc Et) as (h0 & Hb & _).
  destruct (alloc_header _ _ _ b (co_proc _ _ _ Hc) Hb) as (h1 & E1 & _). pose proof (drop_ok s F A L Hs t b Hq Et) as Hd.
  unfold release_work. rewrite Et. cbn [mbind option_bind]. rewrite E1. cbn [mbind option_bind]. destruct popped; [|by eexists _, b].
  destruct (pop_ok _ F A (b :: L) Hd t) as (s' & E & Hs').
  - simpl. by rewrite Et.
  - simpl. rewrite elem_of_list_del. tauto.
  - by exists s', b.
Qed.

End BinderTop.

(** * The binder's buffers: sending, freeing, mapping and releasing *)

Local Open Scope Z_scope.
Local Open Scope kernel_scope.

Module BinderSys.
Import Rbtree RbtreeRep RbtreeWalk RbtreeSeq Binder BinderMem BinderInv BinderAlloc BinderTake BinderFree BinderTop.

(** ** The mapping goes *)

Lemma sinv_close closed s F A L : sinv s F A L -> sinv (mk_state (close_vma closed (proc s)) (t_buffer s) (queued s)) F A L.
Proof.
  intros [[Hp Ho] [P1 P2 PL P3]]. assert (Eh : headers (close_vma closed (proc s)) = headers (proc s)) by (by destruct closed).
  split; split; simpl; rewrite ?Eh; try done; [by apply binv_close|]. intros b Hb. destruct (PL b Hb) as [Hb' Hl]. split; [done|].
  apply (lost_keep s); simpl; [done|by rewrite Eh|done].
Qed.

(** ** Sending *)

Lemma core_add s F A t b h p' F' A1 A2 : core s F A -> A = A1 ++ A2 -> b ∈ F -> t_buffer s !! t = None ->
  binv p' F' (A1 ++ b :: A2) -> headers p' !! b = Some h -> transaction h = Some t ->
  (forall c, c ∈ A -> headers p' !! c = headers (proc s) !! c) ->
  forall q, core (mk_state p' (<[t := Some b]> (t_buffer s)) q) F' (A1 ++ b :: A2).
Proof.
  intros [Hp Ho] EA HbF Ht Hp' Hh Htr Hold q. split; simpl; [done|].
  assert (HbA : b ∉ A) by (intros H; by apply (tr_apart _ _ _ (bi_trees _ _ _ Hp) b HbF)).
  assert (HA : forall c, c ∈ A1 ++ b :: A2 <-> c = b \/ c ∈ A) by (intros c; rewrite EA; set_solver).
  intros t' c. rewrite HA. destruct (decide (t' = t)) as [->|Hne].
  - rewrite lookup_insert_eq. split.
    + intros [= <-]. split; [by left|]. by exists h.
    + intros [[->|Hc] (hc & Hhc & Htc)]; [done|]. rewrite Hold in Hhc by done.
      assert (t_buffer s !! t = Some (Some c)) by (apply Ho; split; [done|by exists hc]). congruence.
  - rewrite lookup_insert_ne, Ho by done. split.
    + intros (Hc & hc & Hhc & Htc). split; [by right|]. exists hc. by rewrite Hold.
    + intros [[->|Hc] (hc & Hhc & Htc)]; [congruence|]. split; [done|]. exists hc. by rewrite <- Hold.
Qed.

Lemma transaction_alloc_ok s F A L t ds os is_async closed env stale : sinv s F A L -> t_buffer s !! t = None -> word ds -> word os ->
  exists s' ok, transaction_alloc s t ds os is_async closed env stale = Some (s', ok) /\
    if ok : bool then exists F' A1 A2 b h, A = A1 ++ A2 /\ b ∉ A /\ core s' F' (A1 ++ b :: A2) /\ t_buffer s' = <[t := Some b]> (t_buffer s) /\
        queued s' = queued s /\ headers (proc s') !! b = Some h /\ transaction h = Some t /\ allow_user_free h = false /\
        (forall c, c ∈ A -> headers (proc s') !! c = headers (proc s) !! c)
    else sinv s' F A L.
Proof.
  intros Hs Ht Hd Ho. pose proof Hs as [Hc Hpe]. pose proof (co_proc _ _ _ Hc) as Hp.
  destruct (alloc_ok (proc s) F A ds os is_async closed env stale Hp Hd Ho) as (p' & res & E1 & Hres).
  unfold transaction_alloc. rewrite E1. cbn [mbind option_bind]. destruct res as [b|].
  2: { eexists _, false. split; [done|]. destruct Hres as [[->| ->] _]; [exact (sinv_close false s F A L Hs)|by apply sinv_close]. }
  destruct Hres as [(F' & A1 & A2 & EA & Hp') HbF _ _ _ (h & Hh & Hh') Hoth _ _ _].
  assert (HbA : b ∉ A) by (intros H; by apply (tr_apart _ _ _ (bi_trees _ _ _ Hp) b HbF)). assert (Hb' : b ∈ A1 ++ b :: A2) by set_solver.
  set (h' := mk_buffer false (allow_user_free h) is_async (transaction h) ds os) in *.
  destruct (binv_mark p' F' _ b h' (set_user_free false) Hp' Hb' Hh') as [E2 Hp2]; try done. rewrite E2. cbn [mbind option_bind].
  set (p2 := with_headers _ _) in *. assert (Hh2 : headers p2 !! b = Some (set_user_free false h')) by (apply lookup_insert_eq).
  destruct (binv_mark p2 F' _ b _ (set_transaction (Some t)) Hp2 Hb' Hh2) as [E3 Hp3]; try done. rewrite E3. cbn [mbind option_bind].
  set (p3 := with_headers _ p2) in *. assert (Hh3 : headers p3 !! b = Some (set_transaction (Some t) (set_user_free false h'))) by (apply lookup_insert_eq).
  assert (Hold : forall c, c ∈ A -> headers p3 !! c = headers (proc s) !! c).
  { intros c Hcc. assert (Hne : c <> b) by congruence. unfold p3, p2. simpl. rewrite !lookup_insert_ne by done. apply Hoth; [|done].
    by apply (bi_alloc _ _ _ Hp) in Hcc as [? _]. }
  eexists _, true. split; [done|]. exists F', A1, A2, b, (set_transaction (Some t) (set_user_free false h')). split; [done|]. split; [done|].
  split; [|done]. eapply core_add; try done.
Qed.

Lemma transaction_fail_ok s F A t b : core s F A -> t_buffer s !! t = Some (Some b) ->
  exists s' F', transaction_fail s t = Some s' /\ core s' F' (list_del b A) /\ t_buffer s' = delete t (t_buffer s) /\ queued s' = queued s /\
    (forall c, c <> b -> headers (proc s') !! c = headers (proc s) !! c).
Proof.
  intros Hc Ht. destruct (owner_header s F A t b Hc Ht) as (h & Hb & Eh & Et). unfold transaction_fail. rewrite Ht. cbn [mbind option_bind].
  destruct (binv_mark _ _ _ b h (set_transaction None) (co_proc _ _ _ Hc) Hb Eh) as [E1 Hp1]; try done. rewrite E1. cbn [mbind option_bind].
  assert (Hc1 := core_disown s F A t b h (set_transaction None h) (delete t (t_buffer s)) (queued s) Hc Ht Eh Hp1 eq_refl
    (fun t' Hne => lookup_delete_ne _ _ _ (not_eq_sym Hne)) ltac:(intros c; by rewrite lookup_delete_eq)).
  destruct (core_free _ F A b (set_transaction None h) Hc1 Hb) as (p' & F' & E2 & Hc2 & _ & _ & Hhs & _); [apply lookup_insert_eq|done|].
  simpl in E2, Hc2, Hhs. rewrite E2. cbn [mbind option_bind]. eexists _, F'. split; [done|]. split; [exact Hc2|]. split; [done|]. split; [done|].
  intros c Hne. simpl. rewrite Hhs, !lookup_insert_ne by done. done.
Qed.

Lemma transact_ok s F A L t ds os is_async closed copied env stale : sinv s F A L -> t_buffer s !! t = None -> word ds -> word os ->
  exists s' ok F' A', transaction_buffer s t ds os is_async closed copied env stale = Some (s', ok) /\ sinv s' F' A' L.
Proof.
  intros Hs Ht Hd Ho. pose proof Hs as [Hc Hpe]. unfold transaction_buffer.
  destruct (transaction_alloc_ok s F A L t ds os is_async closed env stale Hs Ht Hd Ho) as (s1 & ok & E1 & H1). rewrite E1. cbn [mbind option_bind].
  destruct ok; [|by exists s1, false, F, A]. destruct H1 as (F' & A1 & A2 & b & h & EA & HbA & Hc1 & Etb & Eq & Hh & Htr & Hu & Hold).
  assert (Htq : t ∉ queued s) by (intros Hq; destruct (pe_queued s A L Hpe t Hq) as (b' & h' & Eb & _); congruence).
  assert (Hq' : forall t', t' ∈ queued s -> t' <> t /\ exists b' h', t_buffer s !! t' = Some (Some b') /\ b' ∈ A /\ headers (proc s) !! b' = Some h' /\ allow_user_free h' = false).
  { intros t' Hq. split; [congruence|]. destruct (pe_queued s A L Hpe t' Hq) as (b' & h' & Eb & Eh & Eu). exists b', h'. split; [done|]. split; [|done].
    by apply (co_owner _ _ _ Hc) in Eb as [? _]. }
  destruct copied.
  - eexists _, true, F', (A1 ++ b :: A2). split; [done|]. split; [destruct Hc1; by split|]. unfold list_add_tail. rewrite Eq. split; simpl.
    + intros t' [Hq|Hq]%elem_of_app.
      * destruct (Hq' t' Hq) as (Hne & b' & h' & Eb & Hb' & Eh & Eu). exists b', h'. rewrite Etb, lookup_insert_ne by done. by rewrite Hold.
      * apply list_elem_of_singleton in Hq as ->. exists b, h. rewrite Etb, lookup_insert_eq. done.
    + intros c hc Hcc Hhc Huc HcL. assert (c = b \/ c ∈ A) as [->|HcA] by (rewrite EA; set_solver).
      * exists t. split; [congruence|set_solver].
      * rewrite Hold in Hhc by done. destruct (pe_held s A L Hpe c hc HcA Hhc Huc HcL) as (t' & Et' & Hq). exists t'. split; [done|set_solver].
    + intros c Hc'. destruct (pe_lost s A L Hpe c Hc') as [HcA (hc & Ehc & Eu & Hl)]. split; [rewrite EA in HcA; set_solver|]. exists hc. simpl. rewrite Hold by done.
      split; [done|]. split; [done|]. intros t' Et' [Hin|Hin]%elem_of_app; [by apply (Hl t')|]. apply list_elem_of_singleton in Hin as ->.
      assert (t_buffer s !! t = Some (Some c)) by (apply (co_owner _ _ _ Hc); split; [done|by exists hc]). congruence.
    + apply NoDup_app. split; [apply Hpe|]. split; [set_solver|apply NoDup_singleton].
  - assert (Htb : t_buffer s1 !! t = Some (Some b)) by (rewrite Etb; apply lookup_insert_eq).
    destruct (transaction_fail_ok s1 F' _ t b Hc1 Htb) as (s2 & F2 & E2 & Hc2 & Etb2 & Eq2 & Hold2). rewrite E2. cbn [mbind option_bind].
    assert (EA' : list_del b (A1 ++ b :: A2) = A) by (rewrite EA; apply list_del_split; rewrite EA in HbA; set_solver). rewrite EA' in Hc2.
    exists s2, false, F2, A. split; [done|]. split; [done|]. apply (pending_change s s2 A A L Hpe); rewrite ?Eq2, ?Eq; [| | |apply Hpe].
    + intros t' Hq. destruct (Hq' t' Hq) as (Hne & b' & h' & Eb & Hb' & _). split; [done|]. rewrite Etb2, Etb, lookup_delete_ne, lookup_insert_ne by done.
      split; [done|]. intros c Ec. assert (c = b') as -> by congruence. rewrite Hold2 by (intros ->; done). by apply Hold.
    + intros c hc HcA _ Hhc Huc. rewrite Hold2 in Hhc by (intros ->; done). rewrite Hold in Hhc by done. done.
    + intros c _ HcA Hl. split; [done|]. apply (lost_keep s); [done| |by rewrite Eq2, Eq]. rewrite Hold2 by (intros ->; done). by apply Hold.
Qed.

(** ** Freeing by the receiver *)

(** The buffer whose data lie at an address of the receiver. *)
Definition at_user (p : binder_proc) (ptr : Z) : Z := ptr -u user_buffer_offset p -u 40.

Lemma bc_free_ok s F A L ptr : sinv s F A L -> exists s' F' A', bc_free_buffer s ptr = Some s' /\ sinv s' F' A' L /\
  let b := at_user (proc s) ptr in
  (s' = s /\ (b ∉ A \/ exists h, headers (proc s) !! b = Some h /\ allow_user_free h = false) \/
   b ∈ A /\ (exists h, headers (proc s) !! b = Some h /\ allow_user_free h = true) /\ A' = list_del b A).
Proof.
  intros Hs. pose proof Hs as [Hc Hpe]. pose proof (co_proc _ _ _ Hc) as Hp. unfold bc_free_buffer.
  rewrite (buffer_lookup_ok (proc s) F A ptr (bi_area _ _ _ Hp) (bi_trees _ _ _ Hp)); [|intros b Hb; by apply (bi_alloc _ _ _ Hp)|apply (bi_by_address _ _ _ Hp)].
  cbn [mbind option_bind]. fold (at_user (proc s) ptr). set (b := at_user (proc s) ptr). destruct (decide (b ∈ A)) as [Hb|Hb].
  2: { exists s, F, A. split; [done|]. split; [done|]. left. split; [done|]. by left. }
  destruct (alloc_header _ _ _ b Hp Hb) as (h & E1 & Hh & _ & _). rewrite E1. cbn [mbind option_bind].
  destruct (allow_user_free h) eqn:Hu; simpl.
  2: { exists s, F, A. split; [done|]. split; [done|]. left. split; [done|]. right. by exists h. }
  destruct (unlink_transaction_ok s F A b h Hc Hb Hh) as (E2 & Hc2 & Hh2). rewrite E2. cbn [mbind option_bind].
  destruct (core_free _ F A b (set_transaction None h) Hc2 Hb Hh2 eq_refl) as (p' & F' & E3 & Hc3 & _ & _ & Hhs & _). rewrite E3. cbn [mbind option_bind].
  eexists _, F', (list_del b A). split; [done|]. split; [|right; split; [done|]; split; [by exists h|done]]. split; [exact Hc3|].
  assert (Hho : forall c, c <> b -> headers p' !! c = headers (proc s) !! c).
  { intros c Hne. rewrite Hhs, lookup_insert_ne by done. unfold forget. destruct (transaction h); simpl; [by rewrite lookup_insert_ne|done]. }
  assert (Eqd : queued (forget s b h) = queued s) by (unfold forget; by destruct (transaction h)).
  apply (pending_change s _ A _ L Hpe); simpl; rewrite ?Eqd; [| | |apply Hpe].
  - intros t Ht. destruct (pe_queued s A L Hpe t Ht) as (b' & h' & Eb & Eh & Eu). assert (Hne : b' <> b) by (intros ->; congruence). split; [done|]. split.
    + unfold forget. destruct (transaction h) as [t'|] eqn:Et; [|done]. simpl. rewrite lookup_insert_ne; [done|]. intros ->.
      assert (t_buffer s !! t = Some (Some b)) by (apply (co_owner _ _ _ Hc); split; [done|by exists h]). congruence.
    + intros c Ec. apply Hho. congruence.
  - intros c hc [HcA Hne]%elem_of_list_del _ Hhc Huc. rewrite Hho in Hhc by done. done.
  - intros c _ HcA Hl. assert (Hne : c <> b) by (intros ->; destruct Hl as (h' & ? & ? & _); congruence). split; [by apply elem_of_list_del|].
    apply (lost_keep s); simpl; [done|by apply Hho|done].
Qed.

(** ** The end of the process *)

Lemma kept_refl p : kept p p.
Proof. done. Qed.

Lemma forget_kept s b h : kept (proc s) (proc (forget s b h)) /\ length (pages (proc (forget s b h))) = length (pages (proc s)).
Proof. unfold forget. by destruct (transaction h). Qed.

Lemma release_buffers_ok A : forall s F n fuel, core s F A -> (length A <= fuel)%nat ->
  exists s' F', release_loop fuel s n = Some (s', n + Z.of_nat (length A)) /\ core s' F' [] /\ kept (proc s) (proc s').
Proof.
  induction A as [|b A IH]; intros s F n fuel Hc Hf; pose proof (co_proc _ _ _ Hc) as Hp.
  - exists s, F. destruct fuel; cbn [release_loop]; rewrite (seq_first _ _ (tr_alloc _ _ _ (bi_trees _ _ _ Hp))); simpl; by rewrite Z.add_0_r.
  - simpl in Hf. destruct fuel as [|fuel]; [lia|]. cbn [release_loop]. rewrite (seq_first _ _ (tr_alloc _ _ _ (bi_trees _ _ _ Hp))).
    cbn [mbind option_bind map head hd_error]. assert (Hb : b ∈ b :: A) by set_solver. destruct (alloc_header _ _ _ b Hp Hb) as (h & _ & Hh & _ & Hbb).
    change (head (node (proc s) b :: map (node (proc s)) A)) with (Some (node (proc s) b)). cbv iota beta zeta.
    rewrite entry_node by (apply (tr_low _ _ _ (bi_trees _ _ _ Hp)); set_solver).
    destruct (unlink_transaction_ok s F _ b h Hc Hb Hh) as (E2 & Hc2 & Hh2). rewrite E2. cbn [mbind option_bind].
    destruct (core_free _ F _ b (set_transaction None h) Hc2 Hb Hh2 eq_refl) as (p' & F' & E3 & Hc3 & Hk & _). rewrite E3. cbn [mbind option_bind].
    pose proof (sorted_nodup _ (bi_by_address _ _ _ Hp)) as Hnd. apply NoDup_cons in Hnd as [Hnb _].
    rewrite (list_del_split b [] A) in Hc3 by (try done; apply not_elem_of_nil). simpl in Hc3.
    destruct (IH _ F' (n + 1) fuel Hc3 ltac:(lia)) as (s' & F2 & E4 & Hc4 & Hk4). exists s', F2. split; [rewrite E4; do 2 f_equal; simpl length; lia|].
    split; [done|]. eapply kept_trans; [apply forget_kept|]. eapply kept_trans; [exact Hk|exact Hk4].
Qed.

Lemma alloc_length p F A : binv p F A -> (length A <= length (buffers p))%nat.
Proof.
  intros Hp. apply submseteq_length, NoDup_submseteq; [apply sorted_nodup, (bi_by_address _ _ _ Hp)|].
  intros b Hb. by apply (bi_alloc _ _ _ Hp) in Hb as [? _].
Qed.

(** With nothing handed out, the area is one free buffer on one page. *)
Lemma empty_area p F : binv p F [] -> buffers p = [buffer p] /\ free_async_space p = buffer_size p / 2 /\
  exists n, pages p = true :: replicate n false.
Proof.
  intros Hp. pose proof (bi_area _ _ _ Hp) as Ha. assert (Hall : forall b, b ∈ buffers p -> isfree p b = true).
  { intros b Hb. destruct (isfree p b) eqn:Hf; [done|]. exfalso. apply (not_elem_of_nil b). by apply (bi_alloc _ _ _ Hp). }
  assert (El : buffers p = [buffer p]).
  { pose proof (ar_head p Ha) as Hh. destruct (buffers p) as [|b l] eqn:El; [done|]. injection Hh as ->. destruct l as [|c l]; [done|]. exfalso.
    apply (bi_merged _ _ _ Hp [] (buffer p) c l); [by rewrite El|apply Hall; set_solver|apply Hall; set_solver]. }
  split; [done|]. split; [destruct (bi_async _ _ _ Hp) as [H _]; change (total p []) with 0 in H; lia|].
  pose proof (ar_geo p Ha) as G. pose proof (geo_length p G) as Hl. destruct (area_word p Ha) as (_ & _ & W).
  exists (pred (length (pages p))). apply list_eq. intros i. destruct (decide (i < length (pages p))%nat) as [Hi|Hi].
  - assert (Hiff : pages p !! i = Some true <-> i = 0%nat).
    { rewrite (lay_backed p (bi_lay _ _ _ Hp) i Hi). unfold meets, live. rewrite El. simpl. rewrite (Hall (buffer p)) by (rewrite El; set_solver).
      unfold addr, Ashmem.PAGE_SIZE. split.
      - intros (x & Hx & [Hx'|[]]). lia.
      - intros ->. exists (buffer p). split; [lia|]. left. lia. }
    destruct i as [|i]; [by rewrite (proj2 Hiff eq_refl)|]. simpl. rewrite lookup_replicate_2 by lia.
    destruct (lookup_lt_is_Some_2 (pages p) (S i) Hi) as [[] Hb]; [|done]. by apply Hiff in Hb.
  - rewrite lookup_ge_None_2 by lia. symmetry. apply lookup_ge_None_2. simpl. rewrite length_replicate.
    unfold Ashmem.PAGE_SIZE in *. lia.
Qed.

Lemma page_count_one p F : binv p F [] -> page_count p = 1.
Proof.
  intros Hp. destruct (empty_area p F Hp) as (_ & _ & n & Ep). unfold page_count. pose proof (geo_pages p (ar_geo p (bi_area _ _ _ Hp))) as Hl.
  rewrite take_ge by lia. rewrite Ep. rewrite filter_cons_True by done. simpl. assert (E : filter (fun b : bool => b = true) (replicate n false) = []).
  { clear. induction n as [|n IH]; [done|]. simpl. by rewrite filter_cons_False. }
  rewrite E. done.
Qed.

(** ** Mapping *)

(** What the caller of [binder_mmap] and [get_vm_area] guarantee. *)
Record mapping_ok (vm_start vm_end : Z) (area : option Z) (aliasing : bool) : Prop := {
  mo_start : vm_start mod PAGE_SIZE = 0;
  mo_end : vm_end mod PAGE_SIZE = 0;
  mo_range : 0 <= vm_start < vm_end /\ vm_end < two32;
  mo_area : forall a, area = Some a -> a mod PAGE_SIZE = 0 /\ PAGE_SIZE <= a /\ a + Z.min (vm_end - vm_start) SZ_4M <= two32 - PAGE_SIZE;
  mo_colour : forall a, area = Some a -> aliasing = true -> CACHE_COLOUR (Z.lxor vm_start a) = 0
}.

(** A process that has no area yet. *)
Definition unmapped (p : binder_proc) : Prop := buffer p = 0 /\ vma p = None /\ free_buffers p = None /\ allocated_buffers p = None.

(** The state with the first page there and one free buffer. *)
Lemma first_buffer_ok p stale env l r v : geometry p -> free_buffers p = None -> allocated_buffers p = None ->
  v.1 = buffer p +u user_buffer_offset p -> v.2 = v.1 + buffer_size p -> v.2 <= two32 ->
  (forall i, pages p !! i = Some true -> False) ->
  binder_update_page_range p (Some env) (addr p 0) (addr p 1) (Some v) = Some (with_pages l p, r) -> ranged (pages p) l 0 1 true ->
  exists p' F, (let q := with_buffers [buffer p] (with_pages l p) in
                q ← set_header q (buffer p) (set_free true stale);
                q ← binder_insert_free_buffer q (buffer p);
                Some (with_vma (Some v) (with_async (buffer_size p / 2) q))) = Some p' /\ binv p' F [] /\
    buffer p' = buffer p /\ buffer_size p' = buffer_size p /\ vma p' = Some v.
Proof.
  intros G Ef Ea V1 V2 V3 Hnp _ [Hlen Hrg]. pose proof (geo_low p G) as G1. pose proof (geo_high p G) as G2. pose proof (geo_pos p G) as G3.
  pose proof (geo_length p G) as Hl. set (q0 := with_headers (<[buffer p := set_free true stale]> (headers p)) (with_buffers [buffer p] (with_pages l p))).
  assert (Gq : geometry q0) by (by apply (geometry_ext p)).
  assert (Hfree : isfree q0 (buffer p) = true) by (unfold isfree, q0; simpl; by rewrite lookup_insert_eq).
  assert (Hlive : forall x, live q0 x <-> buffer p <= x < buffer p + 40).
  { intros x. unfold live. simpl. rewrite Hfree. tauto. }
  assert (Hback : backed q0 (live q0)).
  { intros i Hi. rewrite (meets_ext _ _ _ Hlive). simpl in Hi. simpl pages. rewrite Hrg. unfold meets, addr, Ashmem.PAGE_SIZE. simpl buffer.
    destruct (decide (0 <= i < 1)%nat) as [H|H].
    - rewrite decide_True by lia. split; [|done]. intros _. exists (buffer p). lia.
    - split; [intros Hx; by apply Hnp in Hx|]. intros (x & Hx & Hx'). lia. }
  assert (Htile : tiled (buffers q0) (area_end q0)).
  { simpl. split; [|split; [|done]].
    - pose proof (geo_base p G) as Hb. unfold Ashmem.PAGE_SIZE in Hb. pose proof (Z.div_mod (buffer p) 4096 ltac:(lia)) as Hd. rewrite Hd, Hb, Z.add_0_r.
      replace (4096 * (buffer p / 4096)) with (buffer p / 4096 * 1024 * 4) by lia. apply Z.mod_mul. lia.
    - change (start [] (area_end q0)) with (area_end p). unfold area_end, Ashmem.PAGE_SIZE in *. lia. }
  assert (Haq : area q0).
  { apply (area_intro q0 (live q0)); try done.
    - intros b Hb. simpl in *. apply list_elem_of_singleton in Hb as ->. by rewrite lookup_insert_eq.
    - intros b x Hb Hx. apply (used_header _ _ _ b); [exact Htile|done|done]. }
  cbv zeta. change (set_header (with_buffers [buffer p] (with_pages l p)) (buffer p) (set_free true stale)) with
    (if mapped q0 (buffer p) then Some q0 else None). rewrite (ar_mapped q0 Haq) by (simpl; set_solver). cbn [mbind option_bind].
  assert (Ht0 : trees q0 [] []).
  { split; simpl; unfold free_tree, allocated_tree; simpl; rewrite ?Ef, ?Ea; try apply seq_empty; set_solver. }
  destruct (insert_free_ok q0 [] [] (buffer p) Haq Ht0) as (t & F1 & F2 & EF & E1 & Ht1 & Hs1); try done; try (simpl; set_solver); [constructor|].
  symmetry in EF. apply app_eq_nil in EF as [-> ->]. simpl in Ht1, Hs1.
  rewrite E1. cbn [mbind option_bind]. eexists _, [buffer p]. split; [done|]. split; [|done]. split; simpl.
  - apply (layout_ext q0); try done.
  - by apply (trees_ext (with_free_tree t q0)).
  - intros b. rewrite list_elem_of_singleton. split; [|tauto]. by intros ->.
  - intros b. rewrite elem_of_nil, list_elem_of_singleton. split; [done|]. intros [-> H]. change (isfree q0 (buffer p) = false) in H. congruence.
  - exact Hs1.
  - constructor.
  - intros l1 a b l2 H _ _. destruct l1 as [|? [|? ?]]; discriminate H.
  - intros b h Hb. by apply not_elem_of_nil in Hb.
  - change (total _ []) with 0. rewrite Z.add_0_r. split; [done|]. apply Z.div_pos; lia.
  - by intros v' [= <-].
Qed.

Lemma mmap_ok p vm_start vm_end flags a aliasing array env stale : unmapped p -> mapping_ok vm_start vm_end a aliasing ->
  exists p' r, binder_mmap p vm_start vm_end flags a aliasing array env stale = Some (p', r) /\
    (r = 0 /\ (exists F, binv p' F []) /\ buffer_size p' = Z.min (vm_end - vm_start) SZ_4M /\
       vma p' = Some (vm_start, vm_start + Z.min (vm_end - vm_start) SZ_4M) /\ a = Some (buffer p') \/ r < 0 /\ unmapped p').
Proof.
  intros Hu [M1 M2 M3 M4 M5]. pose proof Hu as (U1 & U2 & U3 & U4). unfold binder_mmap.
  assert (Eend : (if bool_decide (vm_end -u vm_start > SZ_4M) then vm_start +u SZ_4M else vm_end) = vm_start + Z.min (vm_end - vm_start) SZ_4M).
  { unfold two32, SZ_4M in *. rewrite u32_small by (unfold two32; lia). case_bd; [rewrite u32_small by (unfold two32; lia)|]; lia. }
  rewrite Eend. set (size := Z.min (vm_end - vm_start) SZ_4M) in *.
  destruct (bool_decide (Z.land flags VM_WRITE <> 0)); [exists p, (- EPERM); split; [done|]; by right|].
  rewrite (bool_decide_eq_false_2 (buffer p <> 0)) by (rewrite U1; tauto).
  destruct a as [a|]; [|exists p, (- ENOMEM); split; [done|]; by right]. destruct (M4 a eq_refl) as (A1 & A2 & A3).
  assert (Ecol : (if aliasing then colour_loop 4 vm_start a else Some vm_start) = Some vm_start).
  { destruct aliasing; [|done]. cbn [colour_loop]. rewrite bool_decide_eq_false_2; [done|]. rewrite (M5 a eq_refl eq_refl). tauto. }
  rewrite Ecol. cbn [mbind option_bind]. destruct array; cbn [negb]; [|eexists _, (- ENOMEM); split; [done|]; by right].
  assert (Hsz : 0 < size <= SZ_4M /\ size mod PAGE_SIZE = 0 /\ size <= vm_end - vm_start).
  { unfold size, SZ_4M, Ashmem.PAGE_SIZE in *. split; [lia|]. split; [|lia].
    destruct (Z.min_spec (vm_end - vm_start) 4194304) as [[_ ->]|[_ ->]]; [|done]. rewrite Zminus_mod. by rewrite M1, M2. }
  destruct Hsz as (S1 & S2 & S3). assert (Esz : vm_start + size -u vm_start = size) by (replace (vm_start + size - vm_start) with size by lia; apply u32_small; unfold two32, SZ_4M in *; lia). rewrite Esz.
  set (p1 := mk_proc _ _ _ _ _ _ _ _ _ (replicate _ false) _). assert (G : geometry p1).
  { split; simpl; try done. by rewrite length_replicate. }
  assert (Hlen : (1 <= length (pages p1))%nat) by (pose proof (geo_length p1 G) as H; change (buffer_size p1) with size in H; unfold Ashmem.PAGE_SIZE in H; lia).
  assert (E0 : a = addr p1 0) by (unfold addr; simpl; lia). assert (E1 : a +u PAGE_SIZE = addr p1 1) by (transitivity (addr p1 0 +u PAGE_SIZE); [by rewrite <- E0|apply addr_next; [done|lia]]).
  rewrite E1. assert (Hno : forall i, pages p1 !! i = Some true -> False).
  { intros i Hi. simpl in Hi. by apply lookup_replicate in Hi as [? _]. }
  destruct (alloc_range_ok p1 0 1 env (Some (vm_start, vm_start + size)) G Hlen) as (l & r & E2 & Hres).
  { intros m Hm. destruct (lookup_lt_is_Some_2 (pages p1) m ltac:(lia)) as [[] Hb]; [|done]. by apply Hno in Hb. }
  pose proof E2 as E2'. rewrite <- E0 in E2'. rewrite E2'. cbn [mbind option_bind]. destruct Hres as [[-> Hrg]|(-> & -> & _)].
  2: { rewrite bool_decide_eq_true_2 by done. eexists _, (- ENOMEM). split; [done|]. right. split; [done|]. by split. }
  rewrite bool_decide_eq_false_2 by tauto.
  destruct (first_buffer_ok p1 stale env l 0 (vm_start, vm_start + size) G U3 U4) as (p' & F & E3 & Hp' & B1 & B2 & B3); try done.
  - simpl. unfold p1. simpl. rewrite u32_add_r. replace (a + (vm_start - a)) with vm_start by lia. symmetry. apply u32_small. lia.
  - simpl. lia.
  - exists p', 0. cbv zeta in E3. change (buffer p1) with a in E3. change (buffer_size p1) with size in E3. split.
    + destruct (set_header _ _ _) as [q|]; cbn [mbind option_bind] in *; [|done]. destruct (binder_insert_free_buffer q a) as [q'|]; cbn [mbind option_bind] in *; [|done].
      by injection E3 as <-.
    + left. split; [done|]. split; [by exists F|]. split; [by rewrite B2|]. split; [done|]. by rewrite B1.
Qed.

End BinderSys.
