(* ===== verification/BinderSpec.v ===== *)
(** * The binder's buffers: what the driver can rely on *)

From Stdlib Require Import ZArith Lia.
From stdpp Require Import base option gmap sorting list_numbers list.
From S2P Require Import Prelude Ashmem Resource Rbtree RbtreeRep RbtreeWalk.
From S2P Require Import Binder BinderMem BinderInv BinderAlloc BinderTake BinderFree BinderTop.

Local Open Scope Z_scope.
Local Open Scope kernel_scope.

Module BinderSpec.
Import Rbtree RbtreeRep RbtreeWalk RbtreeSeq Binder BinderMem BinderInv BinderAlloc BinderTake BinderFree BinderTop BinderSys.

(** ** Histories *)

Inductive event :=
  | Transact (t : tid) (data_size offsets_size : Z) (is_async closed copied : bool) (env : page_env) (stale : binder_buffer)
  | Deliver (t : tid) (needs_reply : bool)
  | Pop (t : tid)
  | FreeThread (t : tid)
  | ReleaseWork (t : tid) (popped : bool)
  | FreeBuffer (data_ptr : Z)
  | CloseVma.

Definition run (s : binder_state) (ev : event) : option binder_state :=
  match ev with
  | Transact t ds os is_async closed copied env stale => '(s, _) ← transaction_buffer s t ds os is_async closed copied env stale; Some s
  | Deliver t needs_reply => deliver s t needs_reply
  | Pop t => binder_pop_transaction s t
  | FreeThread t => free_thread_buffer s t
  | ReleaseWork t popped => release_work s t popped
  | FreeBuffer ptr => bc_free_buffer s ptr
  | CloseVma => Some (mk_state (binder_vma_close (proc s)) (t_buffer s) (queued s))
  end.

(** A new transaction is a new object; one that is read, or dropped, comes off a
    list; one that ends was read before.  The sizes and addresses are the users'. *)
Definition allowed (s : binder_state) (ev : event) : Prop :=
  match ev with
  | Transact t ds os _ _ _ _ _ => t_buffer s !! t = None /\ word ds /\ word os
  | Deliver t _ | ReleaseWork t _ => t ∈ queued s
  | Pop t | FreeThread t => is_Some (t_buffer s !! t) /\ t ∉ queued s
  | FreeBuffer _ | CloseVma => True
  end.

(** The buffers of transactions that were dropped unread. *)
Definition dropped (s : binder_state) (ev : event) (L : list Z) : list Z :=
  match ev with
  | ReleaseWork t _ => match t_buffer s !! t with Some (Some b) => b :: L | _ => L end
  | _ => L
  end.

(** The states of a process with its area mapped, with the buffers dropped so far. *)
Inductive breach : binder_state -> list Z -> Prop :=
  | br_mmap p vm_start vm_end flags a aliasing array env stale p' :
      unmapped p -> mapping_ok vm_start vm_end a aliasing ->
      binder_mmap p vm_start vm_end flags a aliasing array env stale = Some (p', 0) -> breach (mk_state p' ∅ []) []
  | br_step s L ev s' : breach s L -> allowed s ev -> run s ev = Some s' -> breach s' (dropped s ev L).

Lemma run_ok s F A L ev : sinv s F A L -> allowed s ev -> exists s' F' A', run s ev = Some s' /\ sinv s' F' A' (dropped s ev L).
Proof.
  intros Hs Hal. destruct ev as [t ds os is_async closed copied env stale|t nr|t|t|t popped|ptr|]; simpl in Hal |- *.
  - destruct Hal as (Ht & Hd & Ho). destruct (transact_ok s F A L t ds os is_async closed copied env stale Hs Ht Hd Ho) as (s' & ok & F' & A' & E & H).
    exists s', F', A'. by rewrite E.
  - destruct (deliver_ok s F A L Hs t nr Hal) as (s' & E & H). by exists s', F, A.
  - destruct Hal as [H1 H2]. destruct (pop_ok s F A L Hs t H1 H2) as (s' & E & H). by exists s', F, A.
  - destruct Hal as [H1 H2]. destruct (free_thread_ok s F A L Hs t H1 H2) as (s' & E & H). by exists s', F, A.
  - destruct (release_work_ok s F A L t popped Hs Hal) as (s' & b & E & Et & H). exists s', F, A. by rewrite Et.
  - destruct (bc_free_ok s F A L ptr Hs) as (s' & F' & A' & E & H & _). by exists s', F', A'.
  - eexists _, F, A. split; [done|]. exact (sinv_close true s F A L Hs).
Qed.

Lemma breach_sinv s L : breach s L -> exists F A, sinv s F A L.
Proof.
  induction 1 as [p vs ve fl a al arr env stale p' Hu Hm E|s L ev s' _ (F & A & Hs) Hal E].
  - destruct (mmap_ok p vs ve fl a al arr env stale Hu Hm) as (p1 & r & E1 & H). rewrite E in E1. injection E1 as <- <-.
    destruct H as [(_ & (F & Hp) & _)|[H _]]; [|lia]. exists F, []. split.
    + split; simpl; [done|]. intros t b. rewrite lookup_empty. split; [done|]. intros [H _]. by apply not_elem_of_nil in H.
    + split; simpl; [intros t H|intros b h H|intros b H|by constructor]; by apply not_elem_of_nil in H.
  - destruct (run_ok s F A L ev Hs Hal) as (s1 & F' & A' & E1 & H). assert (s1 = s') as -> by congruence. by exists F', A'.
Qed.

Definition allocated (p : binder_proc) (b : Z) : Prop := b ∈ buffers p /\ isfree p b = false.

(** ** A machine with an area of four pages *)

Definition demo_unmapped : binder_proc := mk_proc None 0 0 [] ∅ ∅ None None 0 [] 0.
Definition demo_env : page_env := mk_env true (fun _ => PageOk).
Definition demo_stale : binder_buffer := mk_buffer false true true (Some 3%nat) 77 88.
Definition demo_mmap := binder_mmap demo_unmapped 0x40000000 0x40004000 0 (Some 0xd0800000) true true demo_env demo_stale.
Definition demo_proc : binder_proc := match demo_mmap with Some (p, _) => p | None => demo_unmapped end.
Definition demo_state : binder_state := mk_state demo_proc ∅ [].

Lemma demo_mapping : mapping_ok 0x40000000 0x40004000 (Some 0xd0800000) true.
Proof.
  split; try reflexivity; [unfold two32; lia| |].
  - intros a [= <-]. split; [reflexivity|]. unfold Ashmem.PAGE_SIZE, SZ_4M, two32. lia.
  - intros a [= <-] _. reflexivity.
Qed.

Lemma demo_breach : breach demo_state [].
Proof.
  apply (br_mmap demo_unmapped 0x40000000 0x40004000 0 (Some 0xd0800000) true true demo_env demo_stale demo_proc).
  - repeat split.
  - exact demo_mapping.
  - vm_compute. reflexivity.
Qed.

(** ** Safety *)

(** C26: whatever transactions are sent, read, answered and given up, whatever
    addresses the receiver wants to free, and whichever allocations of pages
    fail, no [BUG_ON] of the allocator fires, no header is touched whose page is
    not there, no freed transaction is followed, and every call returns.  The
    buffers always lie behind one another from the beginning of the area to its
    end, no two free ones side by side, and the pages that are there are exactly
    those with a header or data in use. *)
Theorem binder_buffers_safe s L : breach s L ->
  (forall ev, allowed s ev -> exists s', run s ev = Some s') /\
  let p := proc s in
  head (buffers p) = Some (buffer p) /\ tiled (buffers p) (area_end p) /\
  (forall l1 a b l2, buffers p = l1 ++ a :: b :: l2 -> isfree p a = true -> isfree p b = true -> False) /\
  backed p (live p) /\ (forall b, b ∈ buffers p -> mapped p b = true).
Proof.
  intros Hb. destruct (breach_sinv s L Hb) as (F & A & Hs). split.
  - intros ev Hal. destruct (run_ok s F A L ev Hs Hal) as (s' & _ & _ & E & _). by exists s'.
  - destruct Hs as [[Hp _] _]. destruct (bi_lay _ _ _ Hp) as [[G T H M _] B]. split; [done|]. split; [done|]. split; [apply (bi_merged _ _ _ Hp)|]. done.
Qed.

Lemma binder_buffers_safe_witness :
  (exists s', run demo_state (Transact 1%nat 100 8 true false true demo_env demo_stale) = Some s') /\ tiled (buffers demo_proc) (area_end demo_proc).
Proof.
  destruct (binder_buffers_safe demo_state [] demo_breach) as (H1 & _ & H2 & _). split; [|exact H2]. apply H1.
  split; [reflexivity|]. split; vm_compute; split; congruence.
Defined.

(** ** Allocation *)

Lemma room_apart l e b c : tiled l e -> b ∈ l -> c ∈ l -> c <> b -> c + 40 + gap l e c <= b \/ b + 40 + gap l e b <= c.
Proof.
  intros Ht Hb Hc Hne. apply list_elem_of_split in Hb as (l1 & l2 & ->). destruct (tiled_notin _ _ _ _ Ht) as [N1 N2].
  apply elem_of_app in Hc as [Hc|Hc].
  - left. apply list_elem_of_split in Hc as (u & v & ->). rewrite <- app_assoc in *. simpl in *. destruct (tiled_notin _ _ _ _ Ht) as [M1 _].
    rewrite gap_split by done. apply tiled_app in Ht as [_ (_ & _ & Ht)]. apply tiled_app in Ht as [T _]. rewrite start_app, start_cons. rewrite start_cons in T.
    apply tiled_le in T. lia.
  - right. apply elem_of_cons in Hc as [->|Hc]; [done|]. rewrite gap_split by done. apply tiled_app in Ht as [_ (_ & _ & Ht)].
    apply (tiled_in _ _ _ Ht) in Hc. lia.
Qed.

Lemma live_alloc p b x : area p -> allocated p b -> b <= x < b + 40 + room p b -> live p x.
Proof.
  intros Ha [Hb Hf] Hx. apply list_elem_of_split in Hb as (l1 & l2 & El). pose proof (ar_tiled p Ha) as Ht. rewrite El in Ht.
  destruct (tiled_notin _ _ _ _ Ht) as [N1 _]. rewrite (live_split p l1 b l2 x El), Hf. right. left. unfold room in Hx. rewrite El, gap_split in Hx by done. lia.
Qed.

(** C27: [binder_alloc_buf] always returns.  When it gives a buffer, it is the
    smallest free one that is large enough for the data and the offsets, each
    rounded up; the room asked for lies inside the area, apart from every other
    buffer, on pages that are all there; all other buffers stay as they were;
    and an asynchronous transaction is charged for it.  It gives none only if the
    mapping or the process is gone, the sizes overflow, there is no space left
    for asynchronous transactions, no free buffer is large enough, or a page
    cannot be had, and then everything is as before. *)
Theorem binder_alloc_correct s L ds os is_async closed env stale : breach s L -> word ds -> word os ->
  let p := proc s in let n := need ds os in
  exists p' res, binder_alloc_buf p ds os is_async closed env stale = Some (p', res) /\
  match res with
  | Some b =>
      b ∈ buffers p /\ isfree p b = true /\ n <= binder_buffer_size p b /\
      (forall c, c ∈ buffers p -> isfree p c = true -> n <= binder_buffer_size p c -> binder_buffer_size p b <= binder_buffer_size p c) /\
      buffer p <= b /\ b + 40 + n <= area_end p /\
      (forall c, c ∈ buffers p' -> c <> b -> c + 40 + binder_buffer_size p' c <= b \/ b + 40 + n <= c) /\
      (forall x, b <= x < b + 40 + n -> present p' x = true) /\
      (exists h, header p' b = Some h /\ free h = false /\ data_size h = ds /\ offsets_size h = os /\ async_transaction h = is_async) /\
      (forall c, c ∈ buffers p -> c <> b -> c ∈ buffers p' /\ header p' c = header p c /\ binder_buffer_size p' c = binder_buffer_size p c) /\
      free_async_space p' = free_async_space p - (if is_async then n + 40 else 0)
  | None =>
      (p' = p \/ p' = close_vma closed p) /\
      (vma p = None \/ two32 <= n \/ is_async = true /\ free_async_space p < n + 40 \/
       (forall c, c ∈ buffers p -> isfree p c = true -> binder_buffer_size p c < n) \/ closed = true \/ e_mm env = false \/
       exists v a, vma p = Some v /\ buffer p <= a < area_end p /\ ~ page_fine p v (e_page env) a)
  end.
Proof.
  intros Hb Hd Ho p n. destruct (breach_sinv s L Hb) as (F & A & [Hp _] & _). fold p in Hp. pose proof (bi_area _ _ _ Hp) as Ha.
  destruct (alloc_ok p F A ds os is_async closed env stale Hp Hd Ho) as (p' & res & E & H). exists p', res. split; [done|]. fold n in H.
  assert (Hr : forall c, c ∈ buffers p -> binder_buffer_size p c = room p c) by (intros c Hc; by apply buffer_size_room).
  destruct res as [b|].
  2: { destruct H as [H1 H2]. split; [done|]. unfold refused in H2. fold n in H2. do 3 (destruct H2 as [H2|H2]; [by auto|]). do 3 right.
       destruct H2 as [H2|H2]; [left|by right]. intros c Hc Hf. rewrite Hr by done. apply H2. by apply (bi_free _ _ _ Hp). }
  destruct H as [(F' & A1 & A2 & EA & Hp') HbF Hfit Hbest Hbs (h & Hh & Hh') Hoth Has (K1 & K2 & _) _]. fold n in Hfit, Hbest, Hbs, Has.
  pose proof (bi_area _ _ _ Hp') as Ha'. apply (bi_free _ _ _ Hp) in HbF as Hbb. destruct Hbb as [Hbb Hbf].
  assert (Ee : area_end p' = area_end p) by (unfold area_end; by rewrite K1, K2).
  assert (Hb' : b ∈ A1 ++ b :: A2) by set_solver. pose proof Hb' as Hb2. apply (bi_alloc _ _ _ Hp') in Hb2 as [Hb2 Hf2].
  assert (Hr' : forall c, c ∈ buffers p' -> binder_buffer_size p' c = room p' c) by (intros c Hc; by apply buffer_size_room).
  assert (Hn : n <= room p' b /\ 0 <= n).
  { pose proof (bi_fit _ _ _ Hp' b _ Hb' Hh') as Hq. unfold req in Hq. simpl in Hq. destruct (need_facts ds os) as (N0 & _ & _); [unfold word in *; lia..|].
    split; [|done]. rewrite (request_fits p b ds os Ha Hbb Hd Ho Hfit) in Hq. lia. }
  assert (Hlist : b ∈ buffers p /\ exists l1 l2, buffers p = l1 ++ b :: l2) by (split; [done|]; by apply list_elem_of_split).
  destruct Hlist as (_ & l1 & l2 & El). pose proof (ar_tiled p Ha) as Ht. rewrite El in Ht. destruct (tiled_notin _ _ _ _ Ht) as [N1 N2].
  assert (Hkeep : forall c, c ∈ buffers p -> c <> b -> c ∈ buffers p' /\ room p' c = room p c).
  { intros c Hc Hne. pose proof (tiled_nodup _ _ (ar_tiled p' Ha')) as Hnd. rewrite Hbs in Hnd |- *. unfold room. rewrite Ee, Hbs.
    destruct (splits p b n); [|done]. rewrite El in Hc, Hnd |- *. rewrite list_add_after_split in Hnd |- * by done. split; [set_solver|].
    by apply gap_add. }
  destruct (buffer_size_room p' b Ha' Hb2) as (_ & _ & Hin). rewrite (area_data p' b Ha' Hb2), Ee in Hin. destruct (area_in p b Ha Hbb) as (B1 & B2 & _).
  split; [done|]. split; [done|]. split; [by rewrite Hr|]. split; [|split; [done|split; [lia|split; [|split; [|split; [|split]]]]]].
  - intros c Hc Hf. rewrite !Hr by done. apply Hbest. by apply (bi_free _ _ _ Hp).
  - intros c Hc Hne. rewrite Hr' by done. destruct (room_apart _ _ b c (ar_tiled p' Ha') Hb2 Hc Hne) as [Hx|Hx]; unfold room in *; lia.
  - intros x Hx. eapply present_used; [apply Ha'|apply (bi_lay _ _ _ Hp')|rewrite K1; lia|]. apply (live_alloc p' b x Ha'); [done|lia].
  - exists (mk_buffer false (allow_user_free h) is_async (transaction h) ds os). by rewrite (area_header p' b Ha' Hb2).
  - intros c Hc Hne. destruct (Hkeep c Hc Hne) as [Hc' Hrm]. split; [done|]. rewrite (area_header p' c Ha' Hc'), (area_header p c Ha Hc).
    split; [by apply Hoth|]. by rewrite Hr, Hr'.
  - exact Has.
Qed.

Lemma binder_alloc_correct_witness :
  exists p' res, binder_alloc_buf demo_proc 100 8 true false demo_env demo_stale = Some (p', res) /\ free_async_space p' = free_async_space demo_proc - 148.
Proof.
  destruct (binder_alloc_correct demo_state [] 100 8 true false demo_env demo_stale demo_breach) as (p' & res & E & H).
  - vm_compute. split; congruence.
  - vm_compute. split; congruence.
  - exists p', res. split; [exact E|]. destruct res as [b|].
    + destruct H as (_ & _ & _ & _ & _ & _ & _ & _ & _ & _ & H). exact H.
    + exfalso. vm_compute in E. discriminate E.
Defined.

(** ** Freeing *)

Lemma pages_eq p p' : geometry p -> geometry p' -> buffer p' = buffer p -> buffer_size p' = buffer_size p -> backed p (live p) -> backed p' (live p') ->
  (forall x, live p' x <-> live p x) -> pages p' = pages p.
Proof.
  intros G G' E1 E2 HB HB' Hl. assert (Hlen : length (pages p') = length (pages p)) by (by rewrite (geo_pages p G), (geo_pages p' G'), E2).
  apply list_eq. intros i. destruct (decide (i < length (pages p))%nat) as [Hi|Hi]; [|by rewrite !lookup_ge_None_2 by lia].
  assert (Hiff : pages p' !! i = Some true <-> pages p !! i = Some true).
  { rewrite (HB i Hi), (HB' i) by lia. unfold addr. rewrite E1. by apply meets_ext. }
  destruct (lookup_lt_is_Some_2 (pages p) i Hi) as [x Hx]. destruct (lookup_lt_is_Some_2 (pages p') i) as [y Hy]; [lia|]. rewrite Hx, Hy in *. destruct x, y; naive_solver.
Qed.

(** A free buffer has no free neighbours, so that giving it back merges what its
    allocation split and nothing else. *)
Lemma merged_back p F A b p' q n : binv p F A -> b ∈ F -> buffers p' = (if splits p b n then list_add_after (rest b n) b (buffers p) else buffers p) ->
  (splits p b n = true -> isfree q (rest b n) = true /\ rest b n ∉ buffers p) -> buffers q = buffers p' ->
  (forall c, c ∈ buffers p -> c <> b -> isfree q c = isfree p c) -> merged_list q b = buffers p.
Proof.
  intros Hp HbF Hbs Hrest Eq Hif. pose proof (bi_area _ _ _ Hp) as Ha. apply (bi_free _ _ _ Hp) in HbF as [Hbb Hbf].
  apply list_elem_of_split in Hbb as (l1 & l2 & El). pose proof (ar_tiled p Ha) as Ht. rewrite El in Ht. destruct (tiled_notin _ _ _ _ Ht) as [N1 N2].
  assert (Hnext : after_next q b = buffers p).
  { unfold after_next. rewrite Eq, Hbs. destruct (splits p b n) eqn:Hs.
    - destruct (Hrest eq_refl) as [Hf Hn]. rewrite El in *. rewrite list_add_after_split, list_next_split by done. simpl. rewrite Hf.
      replace (l1 ++ b :: rest b n :: l2) with ((l1 ++ [b]) ++ rest b n :: l2) by (by rewrite <- app_assoc).
      rewrite list_del_split by set_solver. by rewrite <- app_assoc.
    - rewrite El, list_next_split by done. destruct l2 as [|c l2]; [done|]. simpl. rewrite Hif by (rewrite ?El; set_solver).
      destruct (isfree p c) eqn:Hfc; [|done]. exfalso. by apply (bi_merged _ _ _ Hp l1 b c l2). }
  unfold merged_list. rewrite Hnext. rewrite El, list_prev_split by done. destruct (last l1) as [a|] eqn:Hl; [|done].
  apply last_Some in Hl as [l0 ->]. rewrite Hif by (rewrite ?El; set_solver). destruct (isfree p a) eqn:Hfa; [|done]. exfalso.
  apply (bi_merged _ _ _ Hp l0 a b l2); [by rewrite El, <- app_assoc|done|done].
Qed.

(** The buffer that an allocation splits off is new, and free. *)
Lemma rest_free p F A b n p' F' A1 A2 : binv p F A -> b ∈ F -> A = A1 ++ A2 -> binv p' F' (A1 ++ b :: A2) ->
  buffers p' = (if splits p b n then list_add_after (rest b n) b (buffers p) else buffers p) -> splits p b n = true ->
  isfree p' (rest b n) = true /\ rest b n ∉ buffers p.
Proof.
  intros Hp HbF EA Hp' Hbs Hs. rewrite Hs in Hbs. pose proof (tiled_nodup _ _ (ar_tiled p' (bi_area _ _ _ Hp'))) as Hnd. rewrite Hbs in Hnd.
  apply (bi_free _ _ _ Hp) in HbF as [Hbb _]. pose proof Hbb as Hsp. apply list_elem_of_split in Hsp as (l1 & l2 & El).
  pose proof (ar_tiled p (bi_area _ _ _ Hp)) as Ht. rewrite El in Ht. destruct (tiled_notin _ _ _ _ Ht) as [N1 N2].
  rewrite El, list_add_after_split in Hnd by done. replace (l1 ++ b :: rest b n :: l2) with ((l1 ++ [b]) ++ rest b n :: l2) in Hnd by (by rewrite <- app_assoc).
  apply NoDup_app in Hnd as (_ & X1 & X2). apply NoDup_cons in X2 as [X2 _].
  assert (Hnp : rest b n ∉ buffers p).
  { rewrite El. intros Hin. assert (Hor : rest b n ∈ l1 ++ [b] \/ rest b n ∈ l2) by set_solver. destruct Hor as [Hx|Hx]; [|done]. apply (X1 _ Hx). set_solver. }
  split; [|done]. destruct (isfree p' (rest b n)) eqn:Hf; [done|]. exfalso. apply Hnp.
  assert (Hin : rest b n ∈ A1 ++ b :: A2).
  { apply (bi_alloc _ _ _ Hp'). split; [|done]. rewrite Hbs, El, list_add_after_split by done. set_solver. }
  assert (Hor : rest b n = b \/ rest b n ∈ A) by (rewrite EA; set_solver). destruct Hor as [Hx|Hx]; [by rewrite Hx|]. by apply (bi_alloc _ _ _ Hp) in Hx as [? _].
Qed.

(** A buffer that is allocated and given back leaves no trace: the
    list of buffers, the pages, the space for asynchronous transactions and the
    headers of all other buffers are what they were. *)
Theorem binder_alloc_free_roundtrip s L ds os is_async env stale p' b : breach s L -> word ds -> word os ->
  binder_alloc_buf (proc s) ds os is_async false env stale = Some (p', Some b) ->
  exists p2, (q ← update_header p' b (set_transaction None); binder_free_buf q b) = Some p2 /\
    let p := proc s in
    buffers p2 = buffers p /\ pages p2 = pages p /\ free_async_space p2 = free_async_space p /\ vma p2 = vma p /\
    (forall c, c ∈ buffers p -> c <> b -> header p2 c = header p c) /\ (forall c, c ∈ buffers p -> isfree p2 c = isfree p c).
Proof.
  intros Hb Hd Ho E. destruct (breach_sinv s L Hb) as (F & A & [Hp _] & _). set (p := proc s) in *. pose proof (bi_area _ _ _ Hp) as Ha.
  destruct (alloc_ok p F A ds os is_async false env stale Hp Hd Ho) as (p1 & res & E1 & H). rewrite E in E1. injection E1 as <- <-.
  destruct H as [(F' & A1 & A2 & EA & Hp') HbF Hfit Hbest Hbs (h & Hh & Hh') Hoth Has (K1 & K2 & K3) Kv]. set (n := need ds os) in *.
  assert (HbA : b ∈ A1 ++ b :: A2) by set_solver. set (h' := mk_buffer false (allow_user_free h) is_async (transaction h) ds os) in *.
  destruct (binv_mark p' F' _ b h' (set_transaction None) Hp' HbA Hh') as [E2 Hq]; try done. rewrite E2. cbn [mbind option_bind]. set (q := with_headers _ p') in *.
  assert (Hhq : headers q !! b = Some (set_transaction None h')) by (apply lookup_insert_eq).
  destruct (free_ok q F' _ b (set_transaction None h') Hq HbA Hhq eq_refl) as (p2 & F2 & E3 & Hp2 & (V2 & B2 & U2 & S2) & L2 & H2 & _ & As2).
  exists p2. split; [exact E3|]. cbv zeta. apply (bi_free _ _ _ Hp) in HbF as Hbb. destruct Hbb as [Hbb Hbf].
  assert (Hoq : forall c, c ∈ buffers p -> c <> b -> headers q !! c = headers p !! c) by (intros c Hc Hne; unfold q; simpl; rewrite lookup_insert_ne by done; by apply Hoth).
  assert (Hifq : forall c, c ∈ buffers p -> c <> b -> isfree q c = isfree p c) by (intros c Hc Hne; unfold isfree; by rewrite Hoq).
  assert (EA2 : list_del b (A1 ++ b :: A2) = A).
  { rewrite EA. assert (b ∉ A) by (intros HA; by apply (tr_apart _ _ _ (bi_trees _ _ _ Hp) b HbF)). apply list_del_split; set_solver. }
  assert (Hrest : splits p b n = true -> isfree q (rest b n) = true /\ rest b n ∉ buffers p).
  { intros Hs. destruct (rest_free p F A b n p' F' A1 A2 Hp HbF EA Hp' Hbs Hs) as [Hr1 Hr2]. split; [|done].
    rewrite (isfree_insert p' q b (set_transaction None h') (rest b n) eq_refl), decide_False; [done|]. intros Hx. apply Hr2. rewrite Hx. exact Hbb. }
  assert (L2' : buffers p2 = buffers p) by (rewrite L2; by eapply merged_back).
  assert (Hho : forall c, c ∈ buffers p -> c <> b -> headers p2 !! c = headers p !! c) by (intros c Hc Hne; rewrite H2, lookup_insert_ne by done; by apply Hoq).
  assert (Hif2 : forall c, c ∈ buffers p -> isfree p2 c = isfree p c).
  { intros c Hc. destruct (decide (c = b)) as [->|Hne]; [|unfold isfree; by rewrite Hho]. rewrite Hbf. unfold isfree. rewrite H2, lookup_insert_eq. done. }
  pose proof (bi_area _ _ _ Hp2) as Ha2. assert (Ee : area_end p2 = area_end p) by (unfold area_end; rewrite B2, S2; simpl; by rewrite K1, K2).
  split; [done|]. split; [|split; [|split; [|split; [|done]]]].
  - apply pages_eq; [apply Ha|apply Ha2|rewrite B2; exact K1|rewrite S2; exact K2|apply (bi_lay _ _ _ Hp)|apply (bi_lay _ _ _ Hp2)|].
    intros x. unfold live. rewrite L2', Ee. by apply used_ext.
  - rewrite As2. change (free_async_space q) with (free_async_space p'). rewrite Has. unfold charge, h'. simpl.
    destruct is_async; [|lia]. assert (Hreq : req (set_transaction None h') = n); [|unfold h' in Hreq; lia].
    by apply (request_fits p b).
  - rewrite V2. exact Kv.
  - intros c Hc Hne. rewrite (area_header p2 c Ha2), (area_header p c Ha Hc) by (by rewrite L2'). by apply Hho.
Qed.

Lemma binder_alloc_free_roundtrip_witness :
  exists p' b p2, binder_alloc_buf demo_proc 5000 8 true false demo_env demo_stale = Some (p', Some b) /\
    (q ← update_header p' b (set_transaction None); binder_free_buf q b) = Some p2 /\ pages p2 = pages demo_proc.
Proof.
  assert (E : exists p' b, binder_alloc_buf demo_proc 5000 8 true false demo_env demo_stale = Some (p', Some b)).
  { eexists _, _. vm_compute. reflexivity. }
  destruct E as (p' & b & E). destruct (binder_alloc_free_roundtrip demo_state [] 5000 8 true demo_env demo_stale p' b demo_breach) as (p2 & E2 & _ & H & _).
  - vm_compute. split; congruence.
  - vm_compute. split; congruence.
  - exact E.
  - exists p', b, p2. split; [exact E|]. split; [exact E2|exact H].
Defined.

(** ** Who owns a buffer *)

(** The address at which the receiver sees the data of [b]. *)
Definition user_data (p : binder_proc) (b : Z) : Z := u32 (b + 40 + user_buffer_offset p).

Lemma at_user_data p b : area p -> b ∈ buffers p -> forall ptr, word ptr -> at_user p ptr = b <-> ptr = user_data p b.
Proof.
  intros Ha Hb ptr Hw. destruct (area_in p b Ha Hb) as (B1 & B2 & _). destruct (area_word p Ha) as (W1 & W2 & _). unfold at_user, user_data.
  rewrite u32_sub_l. split.
  - intros <-. rewrite <- Z.add_assoc, u32_add_l. replace (_ + _) with ptr by lia. symmetry. by apply u32_small.
  - intros ->. rewrite <- Z.sub_add_distr, u32_sub_l. replace (_ - _) with b by lia. apply u32_small. unfold two32, Ashmem.PAGE_SIZE in *. lia.
Qed.

(** Transactions and buffers.  A transaction points to a buffer exactly
    when the buffer is allocated and points back.  An allocated buffer may be freed
    by the receiver, or it belongs to a transaction that waits to be read, or its
    transaction was dropped unread from the list of a thread that exited, in which
    case it stays allocated and nobody can free it.  [BC_FREE_BUFFER] frees exactly
    the buffer whose data are at the address it is given and only once the receiver
    has it; at every other address it does nothing. *)
Theorem binder_buffer_owner s L : breach s L ->
  let p := proc s in
  (forall t b, t_buffer s !! t = Some (Some b) <-> allocated p b /\ exists h, header p b = Some h /\ transaction h = Some t) /\
  (forall b h, allocated p b -> header p b = Some h -> allow_user_free h = false ->
     b ∈ L \/ exists t, t ∈ queued s /\ t_buffer s !! t = Some (Some b)) /\
  (forall t, t ∈ queued s -> exists b h, t_buffer s !! t = Some (Some b) /\ header p b = Some h /\ allow_user_free h = false) /\
  (forall b, b ∈ L -> allocated p b /\ (exists h, header p b = Some h /\ allow_user_free h = false) /\ forall t, t ∈ queued s -> t_buffer s !! t <> Some (Some b)) /\
  forall ptr, word ptr -> exists s', bc_free_buffer s ptr = Some s' /\
    ((exists b h, allocated p b /\ ptr = user_data p b /\ header p b = Some h /\ allow_user_free h = true /\
        forall c, allocated (proc s') c <-> allocated p c /\ c <> b) \/
     s' = s /\ forall b h, allocated p b -> ptr = user_data p b -> header p b = Some h -> allow_user_free h = false).
Proof.
  intros Hb p. destruct (breach_sinv s L Hb) as (F & A & Hs). pose proof Hs as [[Hp Ho] [P1 P2 PL _]]. fold p in Hp, Ho, P1, P2. pose proof (bi_area _ _ _ Hp) as Ha.
  assert (Hal : forall c, allocated p c <-> c ∈ A) by (intros c; unfold allocated; by rewrite (bi_alloc _ _ _ Hp)).
  assert (Hhd : forall c, c ∈ A -> header p c = headers p !! c) by (intros c Hc; apply (area_header p c Ha); by apply (bi_alloc _ _ _ Hp) in Hc as [? _]).
  split; [|split; [|split; [|split]]].
  - intros t b. rewrite Ho, Hal. split; intros (Hb' & h & Hh & Ht); (split; [done|]); exists h; by rewrite (Hhd b Hb') in *.
  - intros b h Hb' Hh Hu. apply Hal in Hb'. rewrite (Hhd b Hb') in Hh. destruct (decide (b ∈ L)) as [HL|HL]; [by left|right]. destruct (P2 b h Hb' Hh Hu HL) as (t & Ht & Hq). exists t. split; [done|].
    apply Ho. split; [done|]. by exists h.
  - intros t Ht. destruct (P1 t Ht) as (b & h & Et & Hh & Hu). exists b, h. split; [done|]. apply Ho in Et as (HbA & _). by rewrite (Hhd b HbA).
  - intros b HbL. destruct (PL b HbL) as [HbA (h & Hh & Hu & Hl)]. split; [by apply Hal|]. split; [exists h; by rewrite (Hhd b HbA)|].
    intros t Hq Et. apply Ho in Et as (_ & h' & Hh' & Et'). apply (Hl t); [|done]. unfold p in Hh'. congruence.
  - intros ptr Hw. destruct (bc_free_ok s F A L ptr Hs) as (s' & F' & A' & E & Hs' & Hcase). exists s'. split; [done|]. cbv zeta in Hcase. fold p in Hcase.
    destruct Hcase as [[-> Hno]|(HbA & (h & Hh & Hu) & ->)]; [right|left].
    + split; [done|]. intros b h Hb' Hptr Hh. apply Hal in Hb' as HbA. apply (at_user_data p b Ha (proj1 Hb') ptr Hw) in Hptr. rewrite Hptr in Hno.
      rewrite (Hhd b HbA) in Hh. destruct Hno as [?|(h' & Hh' & Hu)]; [done|]. congruence.
    + set (b := at_user p ptr) in *. apply Hal in HbA as Hab. exists b, h. split; [done|]. split; [by apply (at_user_data p b Ha (proj1 Hab))|].
      split; [by rewrite (Hhd b HbA)|]. split; [done|].
      destruct Hs' as [[Hp2 _] _]. intros c. unfold allocated at 1. rewrite <- (bi_alloc _ _ _ Hp2), elem_of_list_del, Hal. done.
Qed.

(** A transaction is sent and then dropped with the thread it was for: its buffer
    stays allocated for as long as the process lives. *)
Definition demo_sent : binder_state := default demo_state (run demo_state (Transact 1%nat 100 8 true false true demo_env demo_stale)).
Definition demo_dropped : binder_state := default demo_state (run demo_sent (ReleaseWork 1%nat true)).

Lemma demo_dropped_breach : breach demo_dropped [0xd0800000].
Proof.
  apply (br_step demo_sent [] (ReleaseWork 1%nat true) demo_dropped).
  - apply (br_step demo_state [] (Transact 1%nat 100 8 true false true demo_env demo_stale) demo_sent demo_breach).
    + split; [reflexivity|]. split; vm_compute; split; congruence.
    + vm_compute. reflexivity.
  - apply (bool_decide_unpack (1%nat ∈ queued demo_sent)). vm_compute. exact I.
  - vm_compute. reflexivity.
Qed.

Lemma binder_buffer_owner_witness :
  allocated (proc demo_dropped) 0xd0800000 /\ exists s', bc_free_buffer demo_dropped 0x40000028 = Some s'.
Proof.
  pose proof (binder_buffer_owner demo_dropped _ demo_dropped_breach) as H. cbv zeta in H. destruct H as (_ & _ & _ & HL & H). split.
  - apply (HL 0xd0800000). left.
  - assert (Hw : word 0x40000028) by (vm_compute; split; congruence). destruct (H 0x40000028 Hw) as (s' & E & _). exists s'. exact E.
Defined.

Lemma dropped_not_freed : bc_free_buffer demo_dropped 0x40000028 = Some demo_dropped.
Proof. vm_compute. reflexivity. Qed.

(** ** The end *)

(** When the process goes, the loop over the allocated buffers ends and
    frees each of them once; what is left is one free buffer that spans the area,
    on its first page, with the whole space for asynchronous transactions; and no
    transaction points to a buffer any more. *)
Theorem binder_release_correct s L : breach s L ->
  exists s', release_buffers s = Some (s', Z.of_nat (length (filter (fun b => isfree (proc s) b = false) (buffers (proc s)))), 1) /\
    buffers (proc s') = [buffer (proc s)] /\ free_async_space (proc s') = buffer_size (proc s) / 2 /\
    (exists n, pages (proc s') = true :: replicate n false) /\ forall t b, t_buffer s' !! t <> Some (Some b).
Proof.
  intros Hb. destruct (breach_sinv s L Hb) as (F & A & [Hc _]). pose proof (co_proc _ _ _ Hc) as Hp.
  destruct (release_buffers_ok A s F 0 (length (buffers (proc s))) Hc (alloc_length _ _ _ Hp)) as (s' & F' & E & Hc' & (_ & K1 & _ & K2)).
  pose proof (co_proc _ _ _ Hc') as Hp'. destruct (empty_area _ _ Hp') as (E1 & E2 & E3). exists s'. unfold release_buffers. rewrite E. cbn [mbind option_bind].
  rewrite (page_count_one _ _ Hp'). split; [|split; [by rewrite E1, K1|split; [by rewrite E2, K2|split; [done|]]]].
  - do 3 f_equal. rewrite Z.add_0_l. f_equal. apply Permutation_length. apply NoDup_Permutation.
    + apply sorted_nodup, (bi_by_address _ _ _ Hp).
    + apply NoDup_filter, (tiled_nodup _ _ (ar_tiled _ (bi_area _ _ _ Hp))).
    + intros c. rewrite list_elem_of_filter, (bi_alloc _ _ _ Hp). tauto.
  - intros t b Ht. apply (co_owner _ _ _ Hc') in Ht as [Ht _]. by apply not_elem_of_nil in Ht.
Qed.

Lemma binder_release_correct_witness : exists s', release_buffers demo_state = Some (s', 0, 1) /\ buffers (proc s') = [0xd0800000].
Proof. destruct (binder_release_correct demo_state [] demo_breach) as (s' & E & H & _). exists s'. split; [exact E|exact H]. Defined.

(** ** A cache with colours

    [binder_mmap] moves [vma->vm_start] up to the colour of its own address after
    it has computed [user_buffer_offset] from the old one.  The address of the
    first page then lies before the mapping, and [vm_insert_page] refuses it; a
    mapping that is no longer than the shift leaves no page at all, and the first
    access to [proc->pages] goes astray. *)
Lemma mmap_colour :
  (exists p', binder_mmap demo_unmapped 0x40000000 0x40010000 0 (Some 0xd0801000) true true demo_env demo_stale = Some (p', - ENOMEM)) /\
  (exists p', binder_mmap demo_unmapped 0x40000000 0x40010000 0 (Some 0xd0801000) false true demo_env demo_stale = Some (p', 0)) /\
  binder_mmap demo_unmapped 0x40000000 0x40001000 0 (Some 0xd0801000) true true demo_env demo_stale = None.
Proof. split; [|split]; [eexists; vm_compute; reflexivity..|vm_compute; reflexivity]. Qed.

End BinderSpec.
