(* ===== verification/BinderRef.v ===== *)
(** * The nodes and references of the binder ([drivers/staging/android/binder.c])

    A node stands for an object of a process, a reference for the hold that
    another process has on a node, under a number of its own.  A node counts the
    references that hold it strongly, and the holds of its own process: those of
    buffers that have not been freed, and those of a command that the process has
    not confirmed.  The process is told to keep the object or to let it go by
    the work item in the node, and of the death of an object by a work item
    that belongs to a reference.

    All of this is under one lock.  Objects are named by numbers, and are freed by
    taking them out of their map, so that a routine that follows a pointer to a
    freed one is [None]; so is one that links a work item that is on a list
    already.  The three trees of a process are those of [Rbtree].  [mem] is the
    result of [kzalloc]. *)

From Stdlib Require Import ZArith Lia.
From stdpp Require Import base option gmap list.
From S2P Require Import Prelude Rbtree RbtreeWalk.

Local Open Scope Z_scope.
Local Open Scope kernel_scope.

Module BinderRef.
Import Rbtree RbtreeKey.

Definition pid := nat.
Notation rid := nid (only parsing).
Definition did := nat.
Definition qid := nat.

(** ** State *)

(** The items of a list of work, as far as they matter here. *)
Inductive work := WNode (n : nid) | WDeath (d : did).

#[export] Instance work_eq_decision : EqDecision work.
Proof. solve_decision. Defined.

Inductive death_type := DEAD_BINDER | DEAD_BINDER_AND_CLEAR | CLEAR_DEATH_NOTIFICATION.

#[export] Instance death_type_eq_decision : EqDecision death_type.
Proof. solve_decision. Defined.

Record binder_node := mk_bnode {
  n_proc : option pid;
  n_refs : list rid;
  internal_strong_refs : Z;
  local_weak_refs : Z;
  local_strong_refs : Z;
  n_ptr : Z;
  n_cookie : Z;
  has_strong_ref : bool;
  pending_strong_ref : bool;
  has_weak_ref : bool;
  pending_weak_ref : bool
}.

(** The type of a new one is 0. *)
Record binder_ref_death := mk_death { d_cookie : Z; d_type : option death_type }.

Record binder_ref := mk_ref {
  r_proc : pid;
  r_node : nid;
  desc : Z;
  strong : Z;
  weak : Z;
  death : option did
}.

(** [struct binder_proc] as far as nodes and references are concerned: the lists
    of work are named, [threads] has those of the threads. *)
Record ref_proc := mk_rproc {
  p_nodes : rb_root;
  refs_by_desc : rb_root;
  refs_by_node : rb_root;
  p_todo : qid;
  delivered_death : qid;
  threads : list qid
}.

Record state := mk_state {
  procs : gmap pid ref_proc;
  bnodes : gmap nid binder_node;
  brefs : gmap rid binder_ref;
  deaths : gmap did binder_ref_death;
  todo : gmap qid (list work);
  binder_context_mgr_node : option nid;
  binder_context_mgr_uid : option Z;
  binder_dead_nodes : list nid
}.

Definition set_procs (st : state) (m : gmap pid ref_proc) : state :=
  mk_state m (bnodes st) (brefs st) (deaths st) (todo st) (binder_context_mgr_node st) (binder_context_mgr_uid st) (binder_dead_nodes st).
Definition set_bnodes (st : state) (m : gmap nid binder_node) : state :=
  mk_state (procs st) m (brefs st) (deaths st) (todo st) (binder_context_mgr_node st) (binder_context_mgr_uid st) (binder_dead_nodes st).
Definition set_brefs (st : state) (m : gmap rid binder_ref) : state :=
  mk_state (procs st) (bnodes st) m (deaths st) (todo st) (binder_context_mgr_node st) (binder_context_mgr_uid st) (binder_dead_nodes st).
Definition set_deaths (st : state) (m : gmap did binder_ref_death) : state :=
  mk_state (procs st) (bnodes st) (brefs st) m (todo st) (binder_context_mgr_node st) (binder_context_mgr_uid st) (binder_dead_nodes st).
Definition set_todo (st : state) (m : gmap qid (list work)) : state :=
  mk_state (procs st) (bnodes st) (brefs st) (deaths st) m (binder_context_mgr_node st) (binder_context_mgr_uid st) (binder_dead_nodes st).
Definition set_mgr (st : state) (n : option nid) : state :=
  mk_state (procs st) (bnodes st) (brefs st) (deaths st) (todo st) n (binder_context_mgr_uid st) (binder_dead_nodes st).
Definition set_mgr_uid (st : state) (u : option Z) : state :=
  mk_state (procs st) (bnodes st) (brefs st) (deaths st) (todo st) (binder_context_mgr_node st) u (binder_dead_nodes st).
Definition set_dead (st : state) (l : list nid) : state :=
  mk_state (procs st) (bnodes st) (brefs st) (deaths st) (todo st) (binder_context_mgr_node st) (binder_context_mgr_uid st) l.

Definition with_nodes (t : rb_root) (p : ref_proc) : ref_proc :=
  mk_rproc t (refs_by_desc p) (refs_by_node p) (p_todo p) (delivered_death p) (threads p).
Definition with_refs (t1 t2 : rb_root) (p : ref_proc) : ref_proc :=
  mk_rproc (p_nodes p) t1 t2 (p_todo p) (delivered_death p) (threads p).
Definition with_threads (l : list qid) (p : ref_proc) : ref_proc :=
  mk_rproc (p_nodes p) (refs_by_desc p) (refs_by_node p) (p_todo p) (delivered_death p) l.

Definition with_counts (i w s : Z) (nd : binder_node) : binder_node :=
  mk_bnode (n_proc nd) (n_refs nd) i w s (n_ptr nd) (n_cookie nd) (has_strong_ref nd) (pending_strong_ref nd) (has_weak_ref nd) (pending_weak_ref nd).
Definition with_n_refs (l : list rid) (nd : binder_node) : binder_node :=
  mk_bnode (n_proc nd) l (internal_strong_refs nd) (local_weak_refs nd) (local_strong_refs nd) (n_ptr nd) (n_cookie nd)
    (has_strong_ref nd) (pending_strong_ref nd) (has_weak_ref nd) (pending_weak_ref nd).
Definition with_n_proc (p : option pid) (nd : binder_node) : binder_node :=
  mk_bnode p (n_refs nd) (internal_strong_refs nd) (local_weak_refs nd) (local_strong_refs nd) (n_ptr nd) (n_cookie nd)
    (has_strong_ref nd) (pending_strong_ref nd) (has_weak_ref nd) (pending_weak_ref nd).
Definition with_flags (hs ps hw pw : bool) (nd : binder_node) : binder_node :=
  mk_bnode (n_proc nd) (n_refs nd) (internal_strong_refs nd) (local_weak_refs nd) (local_strong_refs nd) (n_ptr nd) (n_cookie nd) hs ps hw pw.

(** [node->internal_strong_refs += k] and the like, on an [int]. *)
Definition add_internal (k : Z) (nd : binder_node) : binder_node :=
  with_counts (s32 (internal_strong_refs nd + k)) (local_weak_refs nd) (local_strong_refs nd) nd.
Definition add_weak (k : Z) (nd : binder_node) : binder_node :=
  with_counts (internal_strong_refs nd) (s32 (local_weak_refs nd + k)) (local_strong_refs nd) nd.
Definition add_strong (k : Z) (nd : binder_node) : binder_node :=
  with_counts (internal_strong_refs nd) (local_weak_refs nd) (s32 (local_strong_refs nd + k)) nd.

Definition set_node (st : state) (n : nid) (nd : binder_node) : state := set_bnodes st (<[n := nd]> (bnodes st)).
Definition set_ref (st : state) (r : rid) (rf : binder_ref) : state := set_brefs st (<[r := rf]> (brefs st)).
Definition set_proc (st : state) (p : pid) (pr : ref_proc) : state := set_procs st (<[p := pr]> (procs st)).
Definition set_death (st : state) (d : did) (dt : binder_ref_death) : state := set_deaths st (<[d := dt]> (deaths st)).

Definition with_strong (k : Z) (rf : binder_ref) : binder_ref := mk_ref (r_proc rf) (r_node rf) (desc rf) k (weak rf) (death rf).
Definition with_weak (k : Z) (rf : binder_ref) : binder_ref := mk_ref (r_proc rf) (r_node rf) (desc rf) (strong rf) k (death rf).
Definition with_death (d : option did) (rf : binder_ref) : binder_ref := mk_ref (r_proc rf) (r_node rf) (desc rf) (strong rf) (weak rf) d.

(** ** Lists of work *)

(** [!list_empty(&w->entry)] *)
Definition on_list (st : state) (w : work) : bool :=
  existsb (fun p : qid * list work => bool_decide (w ∈ p.2)) (map_to_list (todo st)).

(** [list_del_init(&w->entry)] *)
Definition del_work (st : state) (w : work) : state := set_todo st (list_del w <$> todo st).

Definition add_work (st : state) (q : qid) (w : work) : option state :=
  l ← todo st !! q;
  if on_list st w then None else Some (set_todo st (<[q := list_add_tail w l]> (todo st))).

(** ** Nodes *)

Definition ptr_cmp (st : state) (ptr : Z) (n : nid) : option (option side) :=
  nd ← bnodes st !! n; Some (three_way ptr (n_ptr nd)).

Definition binder_get_node (st : state) (p : pid) (ptr : Z) : option (option nid) :=
  pr ← procs st !! p;
  pl ← rb_search (ptr_cmp st ptr) (p_nodes pr);
  Some (match pl with Found n => Some n | Empty _ _ => None end).

Definition binder_new_node (st : state) (p : pid) (ptr cookie : Z) (mem : option nid) : option (state * option nid) :=
  pr ← procs st !! p;
  pl ← rb_search (ptr_cmp st ptr) (p_nodes pr);
  match pl, mem with
  | Found _, _ => Some (st, None)
  | Empty _ _, None => Some (st, None)
  | Empty parent d, Some n =>
      t ← rb_link_node (p_nodes pr) n parent d;
      t ← rb_insert_color t n;
      Some (set_node (set_proc st p (with_nodes t pr)) n (mk_bnode (Some p) [] 0 0 0 ptr cookie false false false false), Some n)
  end.

Definition is_mgr (st : state) (n : nid) : bool := bool_decide (binder_context_mgr_node st = Some n).

Definition binder_inc_node (st : state) (n : nid) (strong internal : bool) (target_list : option qid) : option (state * Z) :=
  nd ← bnodes st !! n;
  if strong then
    if internal && bool_decide (target_list = None) && bool_decide (internal_strong_refs nd = 0) && negb (is_mgr st n && has_strong_ref nd)
    then Some (st, - EINVAL)
    else
      let st := set_node st n (if internal then add_internal 1 nd else add_strong 1 nd) in
      match target_list with
      | Some q =>
          if has_strong_ref nd then Some (st, 0)
          else st ← add_work (del_work st (WNode n)) q (WNode n); Some (st, 0)
      | None => Some (st, 0)
      end
  else
    let st := set_node st n (if internal then nd else add_weak 1 nd) in
    if negb (has_weak_ref nd) && negb (on_list st (WNode n)) then
      match target_list with
      | None => Some (st, - EINVAL)
      | Some q => st ← add_work st q (WNode n); Some (st, 0)
      end
    else Some (st, 0).

Definition free_node (st : state) (n : nid) : state := set_bnodes st (delete n (bnodes st)).

(** What becomes of a node whose count went down; [held] if a count is left that
    keeps it as it is. *)
Definition drop_node (st : state) (n : nid) (nd : binder_node) (held : bool) : option state :=
  if held then Some st
  else
    match n_proc nd, has_strong_ref nd || has_weak_ref nd with
    | Some p, true =>
        if on_list st (WNode n) then Some st
        else pr ← procs st !! p; add_work st (p_todo pr) (WNode n)
    | pnode, _ =>
        if bool_decide (n_refs nd = []) && bool_decide (local_strong_refs nd = 0) && bool_decide (local_weak_refs nd = 0) then
          let st := del_work st (WNode n) in
          match pnode with
          | Some p => pr ← procs st !! p; t ← rb_erase (p_nodes pr) n; Some (free_node (set_proc st p (with_nodes t pr)) n)
          | None => if bool_decide (n ∈ binder_dead_nodes st) then Some (free_node (set_dead st (list_del n (binder_dead_nodes st))) n) else None
          end
        else Some st
    end.

Definition binder_dec_node (st : state) (n : nid) (strong internal : bool) : option state :=
  nd ← bnodes st !! n;
  if strong then
    let nd := if internal then add_internal (-1) nd else add_strong (-1) nd in
    drop_node (set_node st n nd) n nd (negb (bool_decide (local_strong_refs nd = 0)) || negb (bool_decide (internal_strong_refs nd = 0)))
  else
    let nd := if internal then nd else add_weak (-1) nd in
    drop_node (set_node st n nd) n nd (negb (bool_decide (local_weak_refs nd = 0)) || negb (bool_decide (n_refs nd = []))).

(** ** References *)

Definition desc_cmp (st : state) (d : Z) (r : rid) : option (option side) := rf ← brefs st !! r; Some (three_way d (desc rf)).

Definition binder_get_ref (st : state) (p : pid) (d : Z) : option (option rid) :=
  pr ← procs st !! p;
  pl ← rb_search (desc_cmp st d) (refs_by_desc pr);
  Some (match pl with Found r => Some r | Empty _ _ => None end).

(** Nodes are ordered by address. *)
Definition node_cmp (st : state) (n : nid) (r : rid) : option (option side) :=
  rf ← brefs st !! r; Some (three_way (Z.of_nat n) (Z.of_nat (r_node rf))).

Fixpoint desc_loop (fuel : nat) (st : state) (t : rb_root) (n : option rid) (d : Z) : option Z :=
  match n with
  | None => Some d
  | Some r =>
      match fuel with
      | O => None
      | S fuel =>
          rf ← brefs st !! r;
          if bool_decide (desc rf > d) then Some d else n ← rb_next t r; desc_loop fuel st t n (desc rf +u 1)
      end
  end.

(** [parent] is still that of the first search when the second tree is empty. *)
Definition binder_get_ref_for_node (st : state) (p : pid) (n : nid) (mem : option rid) : option (state * option rid) :=
  pr ← procs st !! p;
  pl ← rb_search (node_cmp st n) (refs_by_node pr);
  match pl, mem with
  | Found r, _ => Some (st, Some r)
  | Empty _ _, None => Some (st, None)
  | Empty parent d, Some r =>
      t1 ← rb_link_node (refs_by_node pr) r parent d;
      t1 ← rb_insert_color t1 r;
      first ← rb_first (refs_by_desc pr);
      dsc ← desc_loop (size (nodes (refs_by_desc pr))) st (refs_by_desc pr) first (if is_mgr st n then 0 else 1);
      pl ← rb_search (desc_cmp st dsc) (refs_by_desc pr);
      match pl with
      | Found _ => None
      | Empty parent' d =>
          t2 ← rb_link_node (refs_by_desc pr) r (match parent' with Some x => Some x | None => parent end) d;
          t2 ← rb_insert_color t2 r;
          nd ← bnodes st !! n;
          let st := set_proc st p (with_refs t2 t1 pr) in
          let st := set_ref st r (mk_ref p n dsc 0 0 None) in
          Some (set_node st n (with_n_refs (r :: n_refs nd) nd), Some r)
      end
  end.

Definition free_death (st : state) (d : did) : option state :=
  _ ← deaths st !! d; Some (set_deaths st (delete d (deaths st))).

Definition binder_delete_ref (st : state) (r : rid) : option state :=
  rf ← brefs st !! r;
  pr ← procs st !! r_proc rf;
  t2 ← rb_erase (refs_by_desc pr) r;
  t1 ← rb_erase (refs_by_node pr) r;
  let st := set_proc st (r_proc rf) (with_refs t2 t1 pr) in
  st ← (if bool_decide (strong rf = 0) then Some st else binder_dec_node st (r_node rf) true true);
  nd ← bnodes st !! r_node rf;
  st ← binder_dec_node (set_node st (r_node rf) (with_n_refs (list_del r (n_refs nd)) nd)) (r_node rf) false true;
  st ← match death rf with None => Some st | Some d => free_death (del_work st (WDeath d)) d end;
  Some (set_brefs st (delete r (brefs st))).

Definition binder_inc_ref (st : state) (r : rid) (is_strong : bool) (target_list : option qid) : option (state * Z) :=
  rf ← brefs st !! r;
  if is_strong then
    '(st, ret) ← (if bool_decide (strong rf = 0) then binder_inc_node st (r_node rf) true true target_list else Some (st, 0));
    if bool_decide (ret = 0) then Some (set_ref st r (with_strong (s32 (strong rf + 1)) rf), 0) else Some (st, ret)
  else
    '(st, ret) ← (if bool_decide (weak rf = 0) then binder_inc_node st (r_node rf) false true target_list else Some (st, 0));
    if bool_decide (ret = 0) then Some (set_ref st r (with_weak (s32 (weak rf + 1)) rf), 0) else Some (st, ret).

Definition binder_dec_ref (st : state) (r : rid) (is_strong : bool) : option (state * Z) :=
  rf ← brefs st !! r;
  if bool_decide ((if is_strong then strong rf else weak rf) = 0) then Some (st, - EINVAL)
  else
    let rf := if is_strong then with_strong (s32 (strong rf - 1)) rf else with_weak (s32 (weak rf - 1)) rf in
    let st := set_ref st r rf in
    st ← (if is_strong && bool_decide (strong rf = 0) then binder_dec_node st (r_node rf) true true else Some st);
    st ← (if bool_decide (strong rf = 0) && bool_decide (weak rf = 0) then binder_delete_ref st r else Some st);
    Some (st, 0).

(** ** Commands of a process *)

Inductive ref_cmd := BC_INCREFS | BC_ACQUIRE | BC_RELEASE | BC_DECREFS.

#[export] Instance ref_cmd_eq_decision : EqDecision ref_cmd.
Proof. solve_decision. Defined.

(** A null pointer is followed when there is no memory for a reference to the
    context manager. *)
Definition bc_refs (st : state) (p : pid) (cmd : ref_cmd) (target : Z) (mem : option rid) : option state :=
  '(st, ref) ← match binder_context_mgr_node st with
    | Some m =>
        if bool_decide (target = 0) && (bool_decide (cmd = BC_INCREFS) || bool_decide (cmd = BC_ACQUIRE)) then
          '(st, ref) ← binder_get_ref_for_node st p m mem;
          match ref with Some r => Some (st, Some r) | None => None end
        else ref ← binder_get_ref st p target; Some (st, ref)
    | None => ref ← binder_get_ref st p target; Some (st, ref)
    end;
  match ref with
  | None => Some st
  | Some r =>
      '(st, _) ← match cmd with
        | BC_INCREFS => binder_inc_ref st r false None
        | BC_ACQUIRE => binder_inc_ref st r true None
        | BC_RELEASE => binder_dec_ref st r true
        | BC_DECREFS => binder_dec_ref st r false
        end;
      Some st
  end.

(** [BC_ACQUIRE_DONE] if [is_strong], else [BC_INCREFS_DONE]. *)
Definition bc_done (st : state) (p : pid) (is_strong : bool) (node_ptr cookie : Z) : option state :=
  node ← binder_get_node st p node_ptr;
  match node with
  | None => Some st
  | Some n =>
      nd ← bnodes st !! n;
      if bool_decide (cookie <> n_cookie nd) then Some st
      else if negb (if is_strong then pending_strong_ref nd else pending_weak_ref nd) then Some st
      else
        let nd := if is_strong then with_flags (has_strong_ref nd) false (has_weak_ref nd) (pending_weak_ref nd) nd
                  else with_flags (has_strong_ref nd) (pending_strong_ref nd) (has_weak_ref nd) false nd in
        binder_dec_node (set_node st n nd) n is_strong false
  end.

(** The list a thread uses for its own work: that of the process unless the
    thread is a looper. *)
Definition bc_request_death (st : state) (p : pid) (q : qid) (target cookie : Z) (mem : option did) : option state :=
  ref ← binder_get_ref st p target;
  match ref with
  | None => Some st
  | Some r =>
      rf ← brefs st !! r;
      match death rf, mem with
      | Some _, _ => Some st
      | None, None => Some st
      | None, Some d =>
          nd ← bnodes st !! r_node rf;
          let st := set_ref st r (with_death (Some d) rf) in
          match n_proc nd with
          | None => add_work (set_death st d (mk_death cookie (Some DEAD_BINDER))) q (WDeath d)
          | Some _ => Some (set_death st d (mk_death cookie None))
          end
      end
  end.

Definition bc_clear_death (st : state) (p : pid) (q : qid) (target cookie : Z) : option state :=
  ref ← binder_get_ref st p target;
  match ref with
  | None => Some st
  | Some r =>
      rf ← brefs st !! r;
      match death rf with
      | None => Some st
      | Some d =>
          dt ← deaths st !! d;
          if bool_decide (d_cookie dt <> cookie) then Some st
          else
            let st := set_ref st r (with_death None rf) in
            if on_list st (WDeath d) then
              if bool_decide (d_type dt = Some DEAD_BINDER) then Some (set_death st d (mk_death (d_cookie dt) (Some DEAD_BINDER_AND_CLEAR))) else None
            else add_work (set_death st d (mk_death (d_cookie dt) (Some CLEAR_DEATH_NOTIFICATION))) q (WDeath d)
      end
  end.

(** The first item of [delivered_death] with the cookie. *)
Fixpoint find_death (st : state) (l : list work) (cookie : Z) : option (option did) :=
  match l with
  | [] => Some None
  | WDeath d :: l => dt ← deaths st !! d; if bool_decide (d_cookie dt = cookie) then Some (Some d) else find_death st l cookie
  | WNode _ :: _ => None
  end.

Definition bc_dead_done (st : state) (p : pid) (q : qid) (cookie : Z) : option state :=
  pr ← procs st !! p;
  l ← todo st !! delivered_death pr;
  found ← find_death st l cookie;
  match found with
  | None => Some st
  | Some d =>
      dt ← deaths st !! d;
      let st := del_work st (WDeath d) in
      if bool_decide (d_type dt = Some DEAD_BINDER_AND_CLEAR)
      then add_work (set_death st d (mk_death (d_cookie dt) (Some CLEAR_DEATH_NOTIFICATION))) q (WDeath d)
      else Some st
  end.

(** ** What a process reads *)

Inductive br := BR_NOOP | BR_INCREFS | BR_ACQUIRE | BR_RELEASE | BR_DECREFS | BR_DEAD_BINDER | BR_CLEAR_DEATH_NOTIFICATION_DONE.

(** A user address that faults loses the command, with the state as here. *)
Definition br_node (st : state) (p : pid) (n : nid) : option (state * br) :=
  nd ← bnodes st !! n;
  let strong := negb (bool_decide (internal_strong_refs nd = 0)) || negb (bool_decide (local_strong_refs nd = 0)) in
  let weak := negb (bool_decide (n_refs nd = [])) || negb (bool_decide (local_weak_refs nd = 0)) || strong in
  if weak && negb (has_weak_ref nd) then
    Some (set_node st n (add_weak 1 (with_flags (has_strong_ref nd) (pending_strong_ref nd) true true nd)), BR_INCREFS)
  else if strong && negb (has_strong_ref nd) then
    Some (set_node st n (add_strong 1 (with_flags true true (has_weak_ref nd) (pending_weak_ref nd) nd)), BR_ACQUIRE)
  else if negb strong && has_strong_ref nd then
    Some (set_node st n (with_flags false (pending_strong_ref nd) (has_weak_ref nd) (pending_weak_ref nd) nd), BR_RELEASE)
  else if negb weak && has_weak_ref nd then
    Some (set_node st n (with_flags (has_strong_ref nd) (pending_strong_ref nd) false (pending_weak_ref nd) nd), BR_DECREFS)
  else
    let st := del_work st (WNode n) in
    if negb weak && negb strong then
      pr ← procs st !! p; t ← rb_erase (p_nodes pr) n; Some (free_node (set_proc st p (with_nodes t pr)) n, BR_NOOP)
    else Some (st, BR_NOOP).

Definition br_death (st : state) (p : pid) (d : did) : option (state * br) :=
  dt ← deaths st !! d;
  ty ← d_type dt;
  match ty with
  | CLEAR_DEATH_NOTIFICATION => st ← free_death (del_work st (WDeath d)) d; Some (st, BR_CLEAR_DEATH_NOTIFICATION_DONE)
  | _ =>
      pr ← procs st !! p;
      let st := del_work st (WDeath d) in
      l ← todo st !! delivered_death pr;
      Some (set_todo st (<[delivered_death pr := list_add (WDeath d) l]> (todo st)), BR_DEAD_BINDER)
  end.

(** The first item of a list. *)
Definition br_work (st : state) (p : pid) (q : qid) : option (state * br) :=
  l ← todo st !! q;
  match l with
  | [] => Some (st, BR_NOOP)
  | WNode n :: _ => br_node st p n
  | WDeath d :: _ => br_death st p d
  end.

(** ** Objects in transactions *)

Inductive object := Binder (ptr cookie : Z) | Handle (h : Z).

(** An object sent by [p] to [to] by the thread whose list is [q], with what the
    receiver gets; [None] instead when the transaction fails. *)
Definition translate_binder (st : state) (p to : pid) (q : qid) (is_strong : bool) (ptr cookie : Z) (mem : option nid) (mem' : option rid)
  : option (state * option object) :=
  node ← binder_get_node st p ptr;
  '(st, node) ← match node with Some n => Some (st, Some n) | None => binder_new_node st p ptr cookie mem end;
  match node with
  | None => Some (st, None)
  | Some n =>
      nd ← bnodes st !! n;
      if bool_decide (cookie <> n_cookie nd) then Some (st, None)
      else
        '(st, ref) ← binder_get_ref_for_node st to n mem';
        match ref with
        | None => Some (st, None)
        | Some r => rf ← brefs st !! r; '(st, _) ← binder_inc_ref st r is_strong (Some q); Some (st, Some (Handle (desc rf)))
        end
  end.

Definition translate_handle (st : state) (p to : pid) (is_strong : bool) (h : Z) (mem : option rid) : option (state * option object) :=
  ref ← binder_get_ref st p h;
  match ref with
  | None => Some (st, None)
  | Some r =>
      rf ← brefs st !! r;
      nd ← bnodes st !! r_node rf;
      if bool_decide (n_proc nd = Some to) then
        '(st, _) ← binder_inc_node st (r_node rf) is_strong false None; Some (st, Some (Binder (n_ptr nd) (n_cookie nd)))
      else
        '(st, ref) ← binder_get_ref_for_node st to (r_node rf) mem;
        match ref with
        | None => Some (st, None)
        | Some r => rf ← brefs st !! r; '(st, _) ← binder_inc_ref st r is_strong None; Some (st, Some (Handle (desc rf)))
        end
  end.

Definition release_object (st : state) (p : pid) (is_strong : bool) (o : object) : option state :=
  match o with
  | Binder ptr _ =>
      node ← binder_get_node st p ptr;
      match node with None => Some st | Some n => binder_dec_node st n is_strong false end
  | Handle h =>
      ref ← binder_get_ref st p h;
      match ref with None => Some st | Some r => '(st, _) ← binder_dec_ref st r is_strong; Some st end
  end.

(** ** Processes *)

(** The caller has checked the capability. *)
Definition set_context_mgr (st : state) (p : pid) (euid : Z) (mem : option nid) : option (state * Z) :=
  match binder_context_mgr_node st with
  | Some _ => Some (st, - EBUSY)
  | None =>
      if match binder_context_mgr_uid st with Some u => bool_decide (u <> euid) | None => false end then Some (st, - EPERM)
      else
        let st := set_mgr_uid st (Some euid) in
        '(st, node) ← binder_new_node st p 0 0 mem;
        match node with
        | None => Some (set_mgr st None, - ENOMEM)
        | Some n =>
            nd ← bnodes st !! n;
            Some (set_node (set_mgr st (Some n)) n (with_flags true (pending_strong_ref nd) true (pending_weak_ref nd) (add_strong 1 (add_weak 1 nd))), 0)
        end
  end.

(** [binder_open] and [binder_get_thread]: new lists. *)
Definition open_proc (st : state) (p : pid) (q qd : qid) : state :=
  let empty := mk_root None ∅ in
  set_todo (set_proc st p (mk_rproc empty empty empty q qd [])) (<[q := []]> (<[qd := []]> (todo st))).

Definition new_thread (st : state) (p : pid) (q : qid) : option state :=
  pr ← procs st !! p; Some (set_todo (set_proc st p (with_threads (q :: threads pr) pr)) (<[q := []]> (todo st))).

(** [binder_release_work]: the items come off the list, and nothing else happens
    to nodes and deaths; the list of a thread goes with it. *)
Definition free_thread (st : state) (p : pid) (q : qid) : option state :=
  pr ← procs st !! p;
  Some (set_todo (set_proc st p (with_threads (list_del q (threads pr)) pr)) (delete q (todo st))).

Fixpoint free_threads (st : state) (p : pid) (qs : list qid) : option state :=
  match qs with [] => Some st | q :: qs => st ← free_thread st p q; free_threads st p qs end.

(** The references to a node whose process has gone. *)
Fixpoint notify_deaths (st : state) (l : list rid) : option state :=
  match l with
  | [] => Some st
  | r :: l =>
      rf ← brefs st !! r;
      st ← match death rf with
        | None => Some st
        | Some d =>
            dt ← deaths st !! d;
            pr ← procs st !! r_proc rf;
            add_work (set_death st d (mk_death (d_cookie dt) (Some DEAD_BINDER))) (p_todo pr) (WDeath d)
        end;
      notify_deaths st l
  end.

Definition release_node (st : state) (p : pid) (n : nid) : option state :=
  pr ← procs st !! p;
  t ← rb_erase (p_nodes pr) n;
  let st := del_work (set_proc st p (with_nodes t pr)) (WNode n) in
  nd ← bnodes st !! n;
  if bool_decide (n_refs nd = []) then Some (free_node st n)
  else
    let st := set_node st n (with_n_proc None (with_counts (internal_strong_refs nd) 0 0 nd)) in
    notify_deaths (set_dead st (n :: binder_dead_nodes st)) (n_refs nd).

Fixpoint release_nodes (fuel : nat) (st : state) (p : pid) : option state :=
  pr ← procs st !! p;
  first ← rb_first (p_nodes pr);
  match first with
  | None => Some st
  | Some n => match fuel with O => None | S fuel => st ← release_node st p n; release_nodes fuel st p end
  end.

Fixpoint release_refs (fuel : nat) (st : state) (p : pid) : option state :=
  pr ← procs st !! p;
  first ← rb_first (refs_by_desc pr);
  match first with
  | None => Some st
  | Some r => match fuel with O => None | S fuel => st ← binder_delete_ref st r; release_refs fuel st p end
  end.

(** [binder_deferred_release]; the lists go with the process. *)
Definition release_proc (st : state) (p : pid) : option state :=
  pr ← procs st !! p;
  st ← match binder_context_mgr_node st with
    | None => Some st
    | Some m => nd ← bnodes st !! m; Some (if bool_decide (n_proc nd = Some p) then set_mgr st None else st)
    end;
  st ← free_threads st p (threads pr);
  st ← release_nodes (size (bnodes st)) st p;
  st ← release_refs (size (brefs st)) st p;
  Some (set_procs (set_todo st (delete (p_todo pr) (delete (delivered_death pr) (todo st)))) (delete p (procs st))).

End BinderRef.
