(* ===== verification/BinderRefInv.v ===== *)
(** * The binder's nodes and references: the invariant

    It has four parts, each on the maps it is about: the trees of the processes,
    the links between nodes and references with the strong counts, the local
    holds, and the lists of work with the deaths. *)

From Stdlib Require Import ZArith Lia.
From stdpp Require Import base option gmap sorting list.
From S2P Require Import Prelude Rbtree RbtreeWalk BinderRef.

Local Open Scope Z_scope.
Local Open Scope kernel_scope.

Module BinderRefInv.
Import Rbtree RbtreeKey BinderRef.

Implicit Types (P : gmap pid ref_proc) (N : gmap nid binder_node) (R : gmap rid binder_ref) (D : gmap did binder_ref_death) (Q : gmap qid (list work)).

(** ** The trees *)

Definition nkey N (n : nid) : Z := match N !! n with Some nd => n_ptr nd | None => 0 end.
Definition dkey R (r : rid) : Z := match R !! r with Some rf => desc rf | None => 0 end.
Definition rkey R (r : rid) : Z := match R !! r with Some rf => Z.of_nat (r_node rf) | None => 0 end.

(** The nodes and the references of a process. *)
Definition mine N (p : pid) (n : nid) : Prop := exists nd, N !! n = Some nd /\ n_proc nd = Some p.
Definition owned R (p : pid) (r : rid) : Prop := exists rf, R !! r = Some rf /\ r_proc rf = p.

Definition trees N R (p : pid) (pr : ref_proc) : Prop :=
  keyed (p_nodes pr) (nkey N) (mine N p) /\ keyed (refs_by_desc pr) (dkey R) (owned R p) /\ keyed (refs_by_node pr) (rkey R) (owned R p).

Definition tinv P N R : Prop := forall p pr, P !! p = Some pr -> trees N R p pr.

Lemma mine_insert N n nd nd' p x : N !! n = Some nd -> n_proc nd' = n_proc nd -> mine (<[n := nd']> N) p x <-> mine N p x.
Proof.
  intros Hn E. unfold mine. rewrite lookup_insert. case_decide as Hx; [subst x|done]. rewrite Hn. split; intros (y & [= <-] & H); eexists; (split; [done|congruence]).
Qed.

Lemma nkey_insert N n nd nd' x : N !! n = Some nd -> n_ptr nd' = n_ptr nd -> nkey (<[n := nd']> N) x = nkey N x.
Proof. intros Hn E. unfold nkey. rewrite lookup_insert. case_decide as Hx; [subst x; by rewrite Hn|done]. Qed.

Lemma trees_node N R p pr n nd nd' : trees N R p pr -> N !! n = Some nd -> n_proc nd' = n_proc nd -> n_ptr nd' = n_ptr nd -> trees (<[n := nd']> N) R p pr.
Proof. intros (T1 & T2) Hn Hp Hk. split; [|done]. eapply keyed_ext; [exact T1| |]; intros x; [intros _; by eapply nkey_insert|by eapply mine_insert]. Qed.

Lemma tinv_node P N R n nd nd' : tinv P N R -> N !! n = Some nd -> n_proc nd' = n_proc nd -> n_ptr nd' = n_ptr nd -> tinv P (<[n := nd']> N) R.
Proof. intros H Hn Hp Hk p pr Hpr. by eapply trees_node; [apply H|..]. Qed.

Lemma owned_insert R r rf rf' p x : R !! r = Some rf -> r_proc rf' = r_proc rf -> owned (<[r := rf']> R) p x <-> owned R p x.
Proof.
  intros Hn E. unfold owned. rewrite lookup_insert. case_decide as Hx; [subst x|done]. rewrite Hn. split; intros (y & [= <-] & H); eexists; (split; [done|congruence]).
Qed.

Lemma tinv_ref P N R r rf rf' : tinv P N R -> R !! r = Some rf -> r_proc rf' = r_proc rf -> r_node rf' = r_node rf -> desc rf' = desc rf -> tinv P N (<[r := rf']> R).
Proof.
  intros H Hr Hp Hn Hd p pr Hpr. destruct (H p pr Hpr) as (T1 & T2 & T3). split; [done|]. split.
  - eapply keyed_ext; [exact T2| |intros x; by eapply owned_insert]. intros x _. unfold dkey. rewrite lookup_insert. case_decide; [subst; by rewrite Hr|done].
  - eapply keyed_ext; [exact T3| |intros x; by eapply owned_insert]. intros x _. unfold rkey. rewrite lookup_insert. case_decide; [subst; by rewrite Hr, Hn|done].
Qed.

(** ** Links and strong counts *)

Definition int31 (z : Z) : Prop := 0 <= z < two31.

Definition is_strong R (r : rid) : bool := match R !! r with Some rf => negb (bool_decide (strong rf = 0)) | None => false end.

Definition strong_count R (l : list rid) : Z := Z.of_nat (length (filter (fun r => is_strong R r = true) l)).

Record linv N R : Prop := {
  li_ref : forall r rf, R !! r = Some rf -> (exists nd, N !! r_node rf = Some nd /\ r ∈ n_refs nd) /\ int31 (strong rf) /\ int31 (weak rf) /\ 0 <= desc rf < two32;
  li_back : forall n nd r, N !! n = Some nd -> r ∈ n_refs nd -> exists rf, R !! r = Some rf /\ r_node rf = n;
  li_nodup : forall n nd, N !! n = Some nd -> NoDup (n_refs nd);
  li_count : forall n nd, N !! n = Some nd -> internal_strong_refs nd = strong_count R (n_refs nd) /\ int31 (internal_strong_refs nd)
}.

Lemma linv_node N R n nd nd' : linv N R -> N !! n = Some nd -> n_refs nd' = n_refs nd -> internal_strong_refs nd' = internal_strong_refs nd -> linv (<[n := nd']> N) R.
Proof.
  intros [L1 L2 L3 L4] Hn Hr Hi. split.
  - intros r rf Hrf. destruct (L1 r rf Hrf) as ((x & Hx & Hin) & H). split; [|done]. rewrite lookup_insert. case_decide; [eexists; split; [done|]; congruence|by exists x].
  - intros m md r. rewrite lookup_insert. case_decide; [subst; intros [= <-]; rewrite Hr; by apply L2|apply L2].
  - intros m md. rewrite lookup_insert. case_decide; [subst; intros [= <-]; rewrite Hr; by eapply L3|apply L3].
  - intros m md. rewrite lookup_insert. case_decide; [subst; intros [= <-]; rewrite Hr, Hi; by eapply L4|apply L4].
Qed.

Lemma strong_count_ext R R' l : (forall r, r ∈ l -> is_strong R' r = is_strong R r) -> strong_count R' l = strong_count R l.
Proof.
  intros H. unfold strong_count. f_equal. f_equal. induction l as [|r l IH]; [done|]. rewrite !filter_cons. rewrite H by set_solver. case_decide; rewrite IH by (intros x Hx; apply H; set_solver); done.
Qed.

Lemma is_strong_insert R r rf x : is_strong (<[r := rf]> R) x = if decide (x = r) then negb (bool_decide (strong rf = 0)) else is_strong R x.
Proof. unfold is_strong. rewrite lookup_insert. by repeat case_decide; subst. Qed.

(** Turning one reference of a list strong or not. *)
Lemma strong_count_flip R R' l r : NoDup l -> r ∈ l -> is_strong R r = false -> is_strong R' r = true -> (forall x, x <> r -> is_strong R' x = is_strong R x) ->
  strong_count R' l = strong_count R l + 1.
Proof.
  intros Hnd Hin H0 H1 Hx. induction l as [|y l IH]; [by apply elem_of_nil in Hin|]. apply NoDup_cons in Hnd as [Hy Hnd]. unfold strong_count in *. rewrite !filter_cons. destruct (decide (y = r)) as [->|Hne].
  - rewrite decide_True by done. rewrite (decide_False (P := is_strong R r = true)) by congruence. simpl. pose proof (strong_count_ext R R' l) as He. unfold strong_count in He. specialize (He ltac:(intros z Hz; apply Hx; by intros ->)). lia.
  - apply elem_of_cons in Hin as [->|Hin]; [done|]. rewrite (Hx y Hne). specialize (IH Hnd Hin). case_decide; simpl; lia.
Qed.

Lemma strong_count_del R l r : NoDup l -> r ∈ l -> strong_count R (list_del r l) = strong_count R l - (if is_strong R r then 1 else 0).
Proof.
  intros Hnd Hin. induction l as [|y l IH]; [by apply elem_of_nil in Hin|]. apply NoDup_cons in Hnd as [Hy Hnd]. unfold strong_count, list_del in *. rewrite (filter_cons (fun x => x <> r)). destruct (decide (y = r)) as [->|Hne].
  - rewrite decide_False by tauto. rewrite (list_del_not_in r l Hy : filter (fun x => x <> r) l = l). rewrite filter_cons. destruct (is_strong R r); simpl; lia.
  - rewrite decide_True by done. apply elem_of_cons in Hin as [->|Hin]; [done|]. specialize (IH Hnd Hin). rewrite !filter_cons. case_decide; simpl; lia.
Qed.

Lemma strong_count_pos R l r : r ∈ l -> is_strong R r = true -> 0 < strong_count R l.
Proof. intros Hin Hs. unfold strong_count. assert (r ∈ filter (fun r => is_strong R r = true) l) as H by (by apply list_elem_of_filter). destruct (filter _ l); [by apply elem_of_nil in H|simpl; lia]. Qed.

(** 1 for a count that is not 0. *)
Definition unit_of (z : Z) : Z := if bool_decide (z = 0) then 0 else 1.

Lemma strong_count_insert R r rf rf' l : NoDup l -> R !! r = Some rf -> r ∈ l ->
  strong_count (<[r := rf']> R) l = strong_count R l + unit_of (strong rf') - unit_of (strong rf).
Proof.
  unfold unit_of. intros Hnd Hr Hin. assert (E0 : is_strong R r = negb (bool_decide (strong rf = 0))) by (unfold is_strong; by rewrite Hr).
  assert (E1 : is_strong (<[r := rf']> R) r = negb (bool_decide (strong rf' = 0))) by (rewrite is_strong_insert; by rewrite decide_True).
  assert (Ex : forall x, x <> r -> is_strong (<[r := rf']> R) x = is_strong R x) by (intros x Hx; rewrite is_strong_insert; by rewrite decide_False).
  destruct (bool_decide (strong rf = 0)), (bool_decide (strong rf' = 0)); simpl in *.
  - rewrite (strong_count_ext R); [lia|]. intros x _. destruct (decide (x = r)) as [->|]; [congruence|by apply Ex].
  - rewrite (strong_count_flip R (<[r := rf']> R) l r); [lia|done..].
  - pose proof (strong_count_flip (<[r := rf']> R) R l r Hnd Hin E1 E0 ltac:(intros x Hx; symmetry; by apply Ex)). lia.
  - rewrite (strong_count_ext R); [lia|]. intros x _. destruct (decide (x = r)) as [->|]; [congruence|by apply Ex].
Qed.

(** The counts of a reference change, and that of its node with them. *)
Lemma linv_count N R r rf rf' nd nd' : linv N R -> R !! r = Some rf -> N !! r_node rf = Some nd -> r_node rf' = r_node rf -> desc rf' = desc rf -> int31 (strong rf') -> int31 (weak rf') ->
  n_refs nd' = n_refs nd -> internal_strong_refs nd' = internal_strong_refs nd + unit_of (strong rf') - unit_of (strong rf) ->
  int31 (internal_strong_refs nd') -> linv (<[r_node rf := nd']> N) (<[r := rf']> R).
Proof.
  intros [L1 L2 L3 L4] Hr Hn En Ed Hs Hw Hrf Hi Hb. destruct (L1 r rf Hr) as ((y & Hy & Hin) & _ & _ & Hdr). rewrite Hn in Hy. injection Hy as <-. split.
  - intros x xf. rewrite lookup_insert. case_decide as Hx.
    + subst x. intros [= <-]. rewrite En, Ed. split; [|done]. exists nd'. rewrite lookup_insert_eq. split; [done|]. by rewrite Hrf.
    + intros Hxf. destruct (L1 x xf Hxf) as ((y & Hy & Hyin) & H). split; [|done]. rewrite lookup_insert. case_decide as Hc; [|by exists y]. exists nd'. split; [done|]. rewrite Hrf. rewrite <- Hc, Hn in Hy. by injection Hy as <-.
  - intros m md x. rewrite lookup_insert. case_decide as Hm; [subst m; intros [= <-]; rewrite Hrf|]; intros H1; [|intros H2].
    + destruct (L2 _ _ _ Hn H1) as (xf & Hxf & Hxn). rewrite lookup_insert. case_decide; [subst x; by exists rf'|by exists xf].
    + destruct (L2 m md x H1 H2) as (xf & Hxf & Hxn). rewrite lookup_insert. case_decide; [subst x; exists rf'; split; [done|]; congruence|by exists xf].
  - intros m md. rewrite lookup_insert. case_decide; [intros [= <-]; rewrite Hrf; by eapply L3|apply L3].
  - intros m md. rewrite lookup_insert. case_decide as Hm.
    + intros [= <-]. split; [|done]. rewrite Hrf, Hi, (proj1 (L4 _ _ Hn)). symmetry. rewrite (strong_count_insert R r rf); [done|by eapply L3|done|done].
    + intros Hmd. destruct (L4 m md Hmd) as [-> H]. split; [|done]. symmetry. apply strong_count_ext. intros x Hx. rewrite is_strong_insert. case_decide as Hc; [|done]. subst x. destruct (L2 m md r Hmd Hx) as (xf & Hxf & Hxn). congruence.
Qed.

(** ** Local holds *)

(** The holds of the buffers of a node's own process: a node, and whether the hold
    is strong. *)
Notation hold := (nid * bool)%type.

Definition holds (H : list hold) (n : nid) (s : bool) : Z := Z.of_nat (length (filter (fun h => h = (n, s)) H)).

Lemma holds_one h H n s : holds (h :: H) n s = holds H n s + (if decide (h = (n, s)) then 1 else 0).
Proof. unfold holds. rewrite filter_cons. case_decide; [rewrite length_cons|]; lia. Qed.

Lemma holds_sum H1 H2 n s : holds (H1 ++ H2) n s = holds H1 n s + holds H2 n s.
Proof. unfold holds. rewrite filter_app, length_app. lia. Qed.

Lemma holds_pos H n s : 0 <= holds H n s.
Proof. unfold holds. lia. Qed.

Lemma holds_in H n s : (n, s) ∈ H -> 0 < holds H n s.
Proof. intros (H1 & H2 & ->)%list_elem_of_split. rewrite holds_sum, holds_one, decide_True by done. pose proof (holds_pos H1 n s). pose proof (holds_pos H2 n s). lia. Qed.

Lemma holds_mid H1 h H2 n s : holds (H1 ++ h :: H2) n s = holds (H1 ++ H2) n s + (if decide (h = (n, s)) then 1 else 0).
Proof. rewrite !holds_sum, holds_one. lia. Qed.

Definition b2z (b : bool) : Z := if b then 1 else 0.

(** A node of a live process. *)
Record alive P (H : list hold) (mgr : option nid) (n : nid) (nd : binder_node) (p : pid) : Prop := {
  al_proc : is_Some (P !! p);
  al_strong : local_strong_refs nd = holds H n true + b2z (pending_strong_ref nd) + b2z (bool_decide (mgr = Some n));
  al_weak : local_weak_refs nd = holds H n false + b2z (pending_weak_ref nd) + b2z (bool_decide (mgr = Some n));
  al_bounds : int31 (local_strong_refs nd) /\ int31 (local_weak_refs nd);
  al_has : (has_strong_ref nd = true -> has_weak_ref nd = true) /\ (pending_strong_ref nd = true -> has_strong_ref nd = true) /\ (pending_weak_ref nd = true -> has_weak_ref nd = true)
}.

(** One whose process has gone; [x] is one that is about to be freed. *)
Record dead (x : option nid) (l : list nid) (n : nid) (nd : binder_node) : Prop := {
  de_strong : local_strong_refs nd = 0;
  de_weak : local_weak_refs nd = 0;
  de_refs : x <> Some n -> n_refs nd <> [];
  de_list : n ∈ l
}.

Record hinv P N (H : list hold) (mgr : option nid) (l : list nid) (x : option nid) : Prop := {
  hi_node : forall n nd, N !! n = Some nd -> match n_proc nd with Some p => alive P H mgr n nd p | None => dead x l n nd end;
  hi_held : forall h, h ∈ H -> exists p, mine N p h.1;
  hi_mgr : forall m, mgr = Some m -> exists p, mine N p m;
  hi_nodup : NoDup l;
  hi_dead : forall n, n ∈ l -> exists nd, N !! n = Some nd /\ n_proc nd = None
}.

(** A node is changed, and the holds on it. *)
Lemma hinv_node P N H H' mgr l u n nd nd' p : hinv P N H mgr l u -> N !! n = Some nd -> n_proc nd = Some p -> n_proc nd' = Some p ->
  (forall m s, m <> n -> holds H' m s = holds H m s) -> (forall h, h ∈ H' -> h ∈ H \/ h.1 = n) -> alive P H' mgr n nd' p -> hinv P (<[n := nd']> N) H' mgr l u.
Proof.
  intros [H1 H2 H3 H4 H5] Hn Hp Hp' Hh Hin Ha.
  assert (Hm : forall q x, mine (<[n := nd']> N) q x <-> mine N q x) by (intros q x; apply (mine_insert N n nd); [done|congruence]).
  split; [|intros h Hh'; destruct (Hin h Hh') as [?| ->]; [destruct (H2 h) as [q Hq]; [done|]; exists q; by apply Hm|exists p; apply Hm; by exists nd]|intros m Hmg; destruct (H3 m Hmg) as [q Hq]; exists q; by apply Hm|done|].
  - intros m md. rewrite lookup_insert. case_decide as Hx; [subst m; intros [= <-]; by rewrite Hp'|]. intros Hmd. specialize (H1 m md Hmd). destruct (n_proc md); destruct H1; split; try done; by rewrite Hh by done.
  - intros m Hml. destruct (H5 m Hml) as (md & Hmd & Hpd). assert (m <> n) by (intros ->; congruence). exists md. by rewrite lookup_insert_ne.
Qed.

(** Nothing that matters for the holds is changed. *)
Lemma hinv_same P N H mgr l u u' n nd nd' : hinv P N H mgr l u -> N !! n = Some nd -> n_proc nd' = n_proc nd -> local_strong_refs nd' = local_strong_refs nd -> local_weak_refs nd' = local_weak_refs nd ->
  has_strong_ref nd' = has_strong_ref nd -> has_weak_ref nd' = has_weak_ref nd -> pending_strong_ref nd' = pending_strong_ref nd -> pending_weak_ref nd' = pending_weak_ref nd ->
  u' = u \/ u = None -> (n_proc nd = None -> u' <> Some n -> n_refs nd' <> []) -> hinv P (<[n := nd']> N) H mgr l u'.
Proof.
  intros [H1 H2 H3 H4 H5] Hn E1 E2 E3 E4 E5 E6 E7 Ex E8.
  assert (Hm : forall q x, mine (<[n := nd']> N) q x <-> mine N q x) by (intros q x; by apply (mine_insert N n nd)).
  split; [|intros h Hh; destruct (H2 h Hh) as [q Hq]; exists q; by apply Hm|intros m Hmg; destruct (H3 m Hmg) as [q Hq]; exists q; by apply Hm|done|].
  - intros m md. rewrite lookup_insert. case_decide as Hx; [subst m; intros [= <-]|intros Hmd; specialize (H1 m md Hmd); destruct (n_proc md); [done|]; destruct H1 as [A1 A2 A3 A4]; split; try done; intros Hne; apply A3; destruct Ex as [-> | ->]; done]. specialize (H1 n nd Hn). rewrite E1. destruct (n_proc nd).
    + destruct H1 as [A1 A2 A3 A4 A5]. split; rewrite ?E2, ?E3, ?E4, ?E5, ?E6, ?E7; done.
    + destruct H1 as [A1 A2 A3 A4]. split; rewrite ?E2, ?E3; try done. intros Hne. by apply E8.
  - intros m Hml. destruct (H5 m Hml) as (md & Hmd & Hpd). rewrite lookup_insert. case_decide as Hx; [subst m|by exists md]. exists nd'. split; [done|]. congruence.
Qed.

(** A node that nothing holds is freed. *)
Lemma hinv_free P N H mgr l l' u n nd : hinv P N H mgr l u -> u = None \/ u = Some n -> N !! n = Some nd -> (forall s, (n, s) ∉ H) -> mgr <> Some n -> l' = list_del n l -> hinv P (delete n N) H mgr l' None.
Proof.
  intros [H1 H2 H3 H4 H5] Hx0 Hn Hh Hmg ->. assert (Hm : forall q x, x <> n -> mine N q x -> mine (delete n N) q x) by (intros q x Hx (y & Hy & Hp); exists y; by rewrite lookup_delete_ne).
  split.
  - intros m md. rewrite lookup_delete_Some. intros [Hne Hmd]. specialize (H1 m md Hmd). destruct (n_proc md); [by destruct H1|]. destruct H1 as [A1 A2 A3 A4]. split; try done; [intros _; apply A3; destruct Hx0 as [-> | ->]; congruence|by apply elem_of_list_del].
  - intros [m s] Hin. simpl. destruct (H2 _ Hin) as [q Hq]. exists q. apply Hm; [|done]. intros ->. by apply (Hh s).
  - intros m Hmm. destruct (H3 m Hmm) as [q Hq]. exists q. apply Hm; [|done]. by intros ->.
  - by apply NoDup_list_del.
  - intros m [Hml Hne]%elem_of_list_del. destruct (H5 m Hml) as (md & Hmd & Hpd). exists md. by rewrite lookup_delete_ne.
Qed.

(** ** Work *)

Definition lists_of (pr : ref_proc) : list qid := p_todo pr :: delivered_death pr :: threads pr.

Definition queued Q (w : work) (q : qid) : Prop := exists l, Q !! q = Some l /\ w ∈ l.

Record qinv P N R D Q : Prop := {
  qi_nodup : forall q l, Q !! q = Some l -> NoDup l;
  qi_once : forall w q q', queued Q w q -> queued Q w q' -> q = q';
  qi_node : forall n q, queued Q (WNode n) q -> exists p pr, mine N p n /\ P !! p = Some pr /\ q ∈ p_todo pr :: threads pr;
  qi_death : forall d q, queued Q (WDeath d) q -> exists dt, D !! d = Some dt /\ d_type dt <> None;
  qi_lists : forall p pr, P !! p = Some pr -> NoDup (lists_of pr) /\ forall q, q ∈ lists_of pr -> is_Some (Q !! q);
  qi_apart : forall p p' pr pr' q, P !! p = Some pr -> P !! p' = Some pr' -> q ∈ lists_of pr -> q ∈ lists_of pr' -> p = p';
  qi_ref : forall r rf d, R !! r = Some rf -> death rf = Some d -> exists dt, D !! d = Some dt /\
    forall q, queued Q (WDeath d) q -> d_type dt = Some DEAD_BINDER /\ exists nd, N !! r_node rf = Some nd /\ n_proc nd = None;
  qi_inj : forall r r' rf rf' d, R !! r = Some rf -> R !! r' = Some rf' -> death rf = Some d -> death rf' = Some d -> r = r';
  qi_proc : forall r rf, R !! r = Some rf -> is_Some (P !! r_proc rf)
}.

Lemma on_list_queued (st : state) w : on_list st w = true <-> exists q, queued (todo st) w q.
Proof.
  unfold on_list. rewrite existsb_exists. split.
  - intros ([q l] & Hin%list_elem_of_In%elem_of_map_to_list & Hw%bool_decide_eq_true). by exists q, l.
  - intros (q & l & Hq & Hw). exists (q, l). split; [|by apply bool_decide_eq_true]. apply list_elem_of_In. by apply elem_of_map_to_list.
Qed.

Lemma on_list_false (st : state) w q : on_list st w = false -> ~ queued (todo st) w q.
Proof. intros H Hq. assert (on_list st w = true) by (apply on_list_queued; eauto). congruence. Qed.

Lemma queued_add Q q l w w' q' : Q !! q = Some l -> queued (<[q := list_add_tail w l]> Q) w' q' <-> queued Q w' q' \/ (w' = w /\ q' = q).
Proof.
  intros Hq. unfold queued, list_add_tail. rewrite lookup_insert. case_decide as Hx; [subst q'|].
  - split; [intros (x & [= <-] & [Hin|Hw%list_elem_of_singleton]%elem_of_app); [left; by exists l|by right]|]. intros [(x & Hx & Hin)|[-> _]]; eexists; (split; [done|]); apply elem_of_app; [left; congruence|right; by apply list_elem_of_singleton].
  - split; [by left|]. intros [?|[_ ->]]; [done|]. done.
Qed.

Lemma queued_del Q w w' q : queued (list_del w <$> Q) w' q <-> queued Q w' q /\ w' <> w.
Proof.
  unfold queued. rewrite lookup_fmap. split.
  - intros (x & (l & Hl & ->)%fmap_Some & [Hin Hne]%elem_of_list_del). split; [by exists l|done].
  - intros [(l & Hl & Hin) Hne]. exists (list_del w l). rewrite Hl. split; [done|]. by apply elem_of_list_del.
Qed.

(** No death leaves its list. *)
Definition deaths_stay Q Q' : Prop := forall d q, queued Q (WDeath d) q -> queued Q' (WDeath d) q.

Lemma deaths_stay_refl Q : deaths_stay Q Q.
Proof. by intros d q. Qed.
#[export] Hint Resolve deaths_stay_refl : core.

Lemma deaths_stay_del Q n : deaths_stay Q (list_del (WNode n) <$> Q).
Proof. intros d q Hq. by apply queued_del. Qed.

Lemma deaths_stay_add Q q l w : Q !! q = Some l -> deaths_stay Q (<[q := list_add_tail w l]> Q).
Proof. intros Hl d q' Hq. apply queued_add; [done|by left]. Qed.

Lemma is_Some_fmap {A B} (f : A -> B) (o : option A) : is_Some (f <$> o) <-> is_Some o.
Proof. apply fmap_is_Some. Qed.

(** An item is taken off its list. *)
Lemma qinv_del P N R D Q w : qinv P N R D Q -> qinv P N R D (list_del w <$> Q).
Proof.
  intros [Q1 Q2 Q3 Q4 Q5 Q6 Q7 Q8 Q9]. split; try done.
  - intros q l. rewrite lookup_fmap. intros (l0 & Hl & ->)%fmap_Some. apply NoDup_list_del. by eapply Q1.
  - intros x q q' [Hx _]%queued_del [Hx' _]%queued_del. by eapply Q2.
  - intros n q [Hx _]%queued_del. by apply Q3.
  - intros d q [Hx _]%queued_del. by eapply Q4.
  - intros p pr Hp. destruct (Q5 p pr Hp) as [H1 H2]. split; [done|]. intros q Hq. rewrite lookup_fmap. by apply is_Some_fmap, H2.
  - intros r rf d Hr Hd. destruct (Q7 r rf d Hr Hd) as (dt & Hdt & H). exists dt. split; [done|]. intros q [Hx _]%queued_del. by eapply H.
Qed.

(** A node is put on a list of its process. *)
Lemma qinv_add_node P N R D Q n q l p pr : qinv P N R D Q -> Q !! q = Some l -> (forall q', ~ queued Q (WNode n) q') -> mine N p n -> P !! p = Some pr -> q ∈ p_todo pr :: threads pr ->
  qinv P N R D (<[q := list_add_tail (WNode n) l]> Q).
Proof.
  intros [Q1 Q2 Q3 Q4 Q5 Q6 Q7 Q8 Q9] Hq Hno Hm Hp Hin. split; try done.
  - intros q' l'. rewrite lookup_insert. case_decide as Hx; [|apply Q1]. intros [= <-]. unfold list_add_tail. apply NoDup_app. split; [by eapply Q1|]. split; [|apply NoDup_singleton].
    intros w Hw ->%list_elem_of_singleton. apply (Hno q). by exists l.
  - intros w q1 q2. rewrite !(queued_add _ _ _ _ _ _ Hq). intros [H1|[-> ->]] [H2|[E ->]]; [by eapply Q2|subst w; by apply Hno in H1|by apply Hno in H2|done].
  - intros m q'. rewrite (queued_add _ _ _ _ _ _ Hq). intros [H|[[= ->] ->]]; [by apply Q3|by exists p, pr].
  - intros d q'. rewrite (queued_add _ _ _ _ _ _ Hq). intros [H|[? _]]; [by eapply Q4|done].
  - intros p' pr' Hp'. destruct (Q5 p' pr' Hp') as [H1 H2]. split; [done|]. intros q' Hq'. rewrite lookup_insert. case_decide; [by eexists|by apply H2].
  - intros r rf d Hr Hd. destruct (Q7 r rf d Hr Hd) as (dt & Hdt & H). exists dt. split; [done|]. intros q'. rewrite (queued_add _ _ _ _ _ _ Hq). intros [H'|[? _]]; [by eapply H|done].
Qed.

Lemma qinv_node P N R D Q n nd nd' : qinv P N R D Q -> N !! n = Some nd -> n_proc nd' = n_proc nd -> qinv P (<[n := nd']> N) R D Q.
Proof.
  intros [Q1 Q2 Q3 Q4 Q5 Q6 Q7 Q8 Q9] Hn E. split; try done.
  - intros m q Hq. destruct (Q3 m q Hq) as (p & pr & Hm & H). exists p, pr. split; [|done]. by apply (mine_insert N n nd).
  - intros r rf d Hr Hd. destruct (Q7 r rf d Hr Hd) as (dt & Hdt & H). exists dt. split; [done|]. intros q Hq. destruct (H q Hq) as (Ht & x & Hx & Hxp). split; [done|].
    rewrite lookup_insert. case_decide as Hc; [|by exists x]. exists nd'. split; [done|]. subst n. congruence.
Qed.

Lemma qinv_ref P N R D Q r rf rf' : qinv P N R D Q -> R !! r = Some rf -> r_proc rf' = r_proc rf -> r_node rf' = r_node rf -> death rf' = death rf -> qinv P N (<[r := rf']> R) D Q.
Proof.
  intros [Q1 Q2 Q3 Q4 Q5 Q6 Q7 Q8 Q9] Hr Ep En Ed. split; try done.
  - intros x y d. rewrite lookup_insert. case_decide; [subst x; intros [= <-]; rewrite En, Ed; by apply (Q7 r rf d)|apply Q7].
  - intros x x' y y' d Hx Hx' Hd Hd'. assert (Hg : forall z w, <[r := rf']> R !! z = Some w -> exists w', R !! z = Some w' /\ death w' = death w).
    { intros z w. rewrite lookup_insert. case_decide; [subst z; intros [= <-]; by exists rf|by exists w]. }
    destruct (Hg _ _ Hx) as (a & Ha & Ea). destruct (Hg _ _ Hx') as (b & Hb & Eb). eapply (Q8 x x' a b d); congruence.
  - intros x y. rewrite lookup_insert. case_decide; [intros [= <-]; rewrite Ep; by eapply Q9|apply Q9].
Qed.

(** ** Processes that keep their lists *)

Definition same_lists P P' : Prop := forall p, lists_of <$> P' !! p = lists_of <$> P !! p.

Lemma same_lists_insert P p pr pr' : P !! p = Some pr -> lists_of pr' = lists_of pr -> same_lists P (<[p := pr']> P).
Proof. intros Hp E q. rewrite lookup_insert. case_decide; [subst; rewrite Hp; simpl; by rewrite E|done]. Qed.

Lemma same_lists_some P P' p pr' : same_lists P P' -> P' !! p = Some pr' -> exists pr, P !! p = Some pr /\ lists_of pr' = lists_of pr.
Proof. intros H E. specialize (H p). rewrite E in H. simpl in H. destruct (P !! p) as [pr|]; [|done]. injection H as H1 H2 H3. exists pr. split; [done|]. unfold lists_of. congruence. Qed.

Lemma same_lists_back P P' p pr : same_lists P P' -> P !! p = Some pr -> exists pr', P' !! p = Some pr' /\ lists_of pr' = lists_of pr.
Proof. intros H E. specialize (H p). rewrite E in H. simpl in H. destruct (P' !! p) as [pr'|]; [|done]. injection H as H1 H2 H3. exists pr'. split; [done|]. unfold lists_of. congruence. Qed.

Lemma qinv_procs P P' N R D Q : qinv P N R D Q -> same_lists P P' -> qinv P' N R D Q.
Proof.
  intros [Q1 Q2 Q3 Q4 Q5 Q6 Q7 Q8 Q9] HP. split; try done.
  - intros n q Hq. destruct (Q3 n q Hq) as (p & pr & Hm & Hp & Hin). destruct (same_lists_back _ _ _ _ HP Hp) as (pr' & Hp' & E). exists p, pr'. split; [done|]. split; [done|]. unfold lists_of in E. by injection E as -> _ ->.
  - intros p pr' Hp'. destruct (same_lists_some _ _ _ _ HP Hp') as (pr & Hp & E). rewrite E. by apply (Q5 p).
  - intros p p' a b q Ha Hb. destruct (same_lists_some _ _ _ _ HP Ha) as (a' & Ha' & ->). destruct (same_lists_some _ _ _ _ HP Hb) as (b' & Hb' & ->). by apply Q6.
  - intros r rf Hr. destruct (Q9 r rf Hr) as [pr Hp]. destruct (same_lists_back _ _ _ _ HP Hp) as (pr' & Hp' & _). by exists pr'.
Qed.

Lemma hinv_procs P P' N H mgr l u : hinv P N H mgr l u -> (forall p, is_Some (P !! p) -> is_Some (P' !! p)) -> hinv P' N H mgr l u.
Proof.
  intros [H1 H2 H3 H4 H5] HP. split; try done. intros n nd Hn. specialize (H1 n nd Hn). destruct (n_proc nd); [|done]. destruct H1 as [A1 A2 A3 A4 A5]. split; try done. by apply HP.
Qed.

Lemma same_lists_dom P P' p : same_lists P P' -> is_Some (P !! p) -> is_Some (P' !! p).
Proof. intros H [pr Hp]. destruct (same_lists_back _ _ _ _ H Hp) as (pr' & Hp' & _). by eexists. Qed.

(** ** A node goes *)

Lemma linv_free N R n nd : linv N R -> N !! n = Some nd -> n_refs nd = [] -> linv (delete n N) R.
Proof.
  intros [L1 L2 L3 L4] Hn Hr. split.
  - intros r rf Hrf. destruct (L1 r rf Hrf) as ((x & Hx & Hin) & H). split; [|done]. exists x. split; [|done]. rewrite lookup_delete_ne; [done|]. intros E. rewrite <- E, Hn in Hx. injection Hx as <-. rewrite Hr in Hin. by apply elem_of_nil in Hin.
  - intros m md r [_ Hm]%lookup_delete_Some. by apply L2.
  - intros m md [_ Hm]%lookup_delete_Some. by eapply L3.
  - intros m md [_ Hm]%lookup_delete_Some. by eapply L4.
Qed.

Lemma qinv_free P N R D Q n nd : qinv P N R D Q -> linv N R -> N !! n = Some nd -> n_refs nd = [] -> (forall q, ~ queued Q (WNode n) q) -> qinv P (delete n N) R D Q.
Proof.
  intros [Q1 Q2 Q3 Q4 Q5 Q6 Q7 Q8 Q9] HL Hn Hr Hno. split; try done.
  - intros m q Hq. destruct (Q3 m q Hq) as (p & pr & (md & Hm & Hp) & H). exists p, pr. split; [|done]. exists md. split; [|done]. rewrite lookup_delete_ne; [done|]. intros <-. by apply Hno in Hq.
  - intros r rf d Hrf Hd. destruct (Q7 r rf d Hrf Hd) as (dt & Hdt & H). exists dt. split; [done|]. intros q Hq. destruct (H q Hq) as (Ht & x & Hx & Hxp). split; [done|]. exists x. split; [|done].
    rewrite lookup_delete_ne; [done|]. intros E. destruct (li_ref _ _ HL r rf Hrf) as ((y & Hy & Hin) & _). rewrite <- E, Hn in Hy. injection Hy as <-. rewrite Hr in Hin. by apply elem_of_nil in Hin.
Qed.

Lemma tinv_free P N R n nd p pr t : tinv P N R -> N !! n = Some nd -> n_proc nd = Some p -> P !! p = Some pr ->
  (forall S, (forall y, S y <-> mine N p y /\ y <> n) -> keyed t (nkey N) S) -> tinv (<[p := with_nodes t pr]> P) (delete n N) R.
Proof.
  intros HT Hn Hp Hpr Ht. assert (Hk : forall x, x <> n -> nkey (delete n N) x = nkey N x) by (intros x Hx; unfold nkey; by rewrite lookup_delete_ne).
  assert (Hm : forall p' x, mine (delete n N) p' x <-> mine N p' x /\ x <> n).
  { intros p' x. unfold mine. split; [intros (y & [Hne Hy]%lookup_delete_Some & H); split; [by exists y|done]|intros [(y & Hy & H) Hne]; exists y; by rewrite lookup_delete_ne]. }
  intros p' pr'. rewrite lookup_insert. case_decide as Hc.
  - subst p'. intros [= <-]. destruct (HT p pr Hpr) as (T1 & T2 & T3). split; [|done]. simpl. eapply keyed_ext; [apply (Ht (fun y => mine N p y /\ y <> n)); done| |apply Hm]. intros x [_ Hx]. by apply Hk.
  - intros Hpr'. destruct (HT p' pr' Hpr') as (T1 & T2). split; [|done]. eapply keyed_ext; [exact T1| |].
    + intros x (y & Hy & Hyp). apply Hk. intros ->. congruence.
    + intros x. rewrite Hm. split; [tauto|]. intros (y & Hy & Hyp). split; [by exists y|]. intros ->. congruence.
Qed.

(** ** A reference goes *)

Lemma owned_delete R r p x : owned (delete r R) p x <-> owned R p x /\ x <> r.
Proof.
  unfold owned. split; [intros (y & [Hne Hy]%lookup_delete_Some & H); split; [by exists y|done]|intros [(y & Hy & H) Hne]; exists y; by rewrite lookup_delete_ne].
Qed.

Lemma tinv_unref P N R r rf pr t1 t2 : tinv P N R -> R !! r = Some rf -> P !! r_proc rf = Some pr ->
  (forall S, (forall y, S y <-> owned R (r_proc rf) y /\ y <> r) -> keyed t2 (dkey R) S) -> (forall S, (forall y, S y <-> owned R (r_proc rf) y /\ y <> r) -> keyed t1 (rkey R) S) ->
  tinv (<[r_proc rf := with_refs t2 t1 pr]> P) N (delete r R).
Proof.
  intros HT Hr Hp H2 H1. assert (Kd : forall x, x <> r -> dkey (delete r R) x = dkey R x) by (intros x Hx; unfold dkey; by rewrite lookup_delete_ne). assert (Kr : forall x, x <> r -> rkey (delete r R) x = rkey R x) by (intros x Hx; unfold rkey; by rewrite lookup_delete_ne).
  intros q qr. rewrite lookup_insert. case_decide as Hc.
  - subst q. intros [= <-]. destruct (HT _ _ Hp) as (T1 & _). split; [done|]. set (S := fun y => owned R (r_proc rf) y /\ y <> r). split.
    + apply (keyed_ext t2 (dkey R) _ S); [by apply H2|intros x [_ Hx]; by apply Kd|intros x; apply owned_delete].
    + apply (keyed_ext t1 (rkey R) _ S); [by apply H1|intros x [_ Hx]; by apply Kr|intros x; apply owned_delete].
  - intros Hq. destruct (HT q qr Hq) as (T1 & T2 & T3). assert (Ho : forall x, owned R q x -> x <> r) by (intros x (y & Hy & Hyp) ->; congruence). split; [done|].
    split; [eapply keyed_ext; [exact T2| |]|eapply keyed_ext; [exact T3| |]]; intros x; [intros Hx; apply Kd; by apply Ho| |intros Hx; apply Kr; by apply Ho|]; rewrite owned_delete; split; [tauto|intros Hx; split; [done|by apply Ho]|tauto|intros Hx; split; [done|by apply Ho]].
Qed.

Lemma linv_unref N R r rf nd nd' : linv N R -> R !! r = Some rf -> N !! r_node rf = Some nd -> n_refs nd' = list_del r (n_refs nd) ->
  internal_strong_refs nd' = internal_strong_refs nd - unit_of (strong rf) -> linv (<[r_node rf := nd']> N) (delete r R).
Proof.
  intros [L1 L2 L3 L4] Hr Hn Hl Hi. destruct (L1 r rf Hr) as ((y & Hy & Hin) & _). rewrite Hn in Hy. injection Hy as <-.
  assert (Hcount : forall l, r ∉ l -> strong_count (delete r R) l = strong_count R l) by (intros l Hnl; apply strong_count_ext; intros x Hx; unfold is_strong; rewrite lookup_delete_ne by (intros ->; done); done).
  split.
  - intros x xf [Hne Hx]%lookup_delete_Some. destruct (L1 x xf Hx) as ((y & Hy & Hyin) & H). split; [|done]. rewrite lookup_insert. case_decide as Hc; [|by exists y]. exists nd'. split; [done|]. rewrite Hl. apply elem_of_list_del. split; [|done]. rewrite <- Hc, Hn in Hy. by injection Hy as <-.
  - intros m md x. rewrite lookup_insert. case_decide as Hm; [subst m; intros [= <-]; rewrite Hl|]; intros H1; [|intros H2].
    + apply elem_of_list_del in H1 as [H1 Hne]. destruct (L2 _ _ _ Hn H1) as (xf & Hxf & Hxn). exists xf. by rewrite lookup_delete_ne.
    + destruct (L2 m md x H1 H2) as (xf & Hxf & Hxn). exists xf. split; [|done]. rewrite lookup_delete_ne; [done|]. intros <-. congruence.
  - intros m md. rewrite lookup_insert. case_decide; [intros [= <-]; rewrite Hl; apply NoDup_list_del; by eapply L3|apply L3].
  - intros m md. rewrite lookup_insert. case_decide as Hm.
    + intros [= <-]. destruct (L4 _ _ Hn) as [Hc Hb]. assert (E : internal_strong_refs nd' = strong_count (delete r R) (n_refs nd')).
      { rewrite Hi, Hc, Hl, Hcount by (intros [_ ?]%elem_of_list_del; done). rewrite strong_count_del by (done || by eapply L3). unfold is_strong, unit_of. rewrite Hr. by destruct (bool_decide (strong rf = 0)). }
      split; [done|]. split; [rewrite E; unfold strong_count; lia|]. destruct Hb. rewrite Hi. unfold unit_of. destruct (bool_decide _); lia.
    + intros Hmd. destruct (L4 m md Hmd) as [-> H]. split; [|done]. symmetry. apply Hcount. intros Hx. destruct (L2 m md r Hmd Hx) as (xf & Hxf & Hxn). congruence.
Qed.

Lemma qinv_unref P N R D Q r : qinv P N R D Q -> qinv P N (delete r R) D Q.
Proof.
  intros [Q1 Q2 Q3 Q4 Q5 Q6 Q7 Q8 Q9]. split; try done.
  - intros x xf d [_ Hx]%lookup_delete_Some. by apply (Q7 x).
  - intros x x' xf xf' d [_ Hx]%lookup_delete_Some [_ Hx']%lookup_delete_Some. by eapply Q8.
  - intros x xf [_ Hx]%lookup_delete_Some. by eapply Q9.
Qed.

(** A death that no reference has and that is on no list is freed. *)
Lemma qinv_undeath P N R D Q d : qinv P N R D Q -> (forall r rf, R !! r = Some rf -> death rf <> Some d) -> (forall q, ~ queued Q (WDeath d) q) -> qinv P N R (delete d D) Q.
Proof.
  intros [Q1 Q2 Q3 Q4 Q5 Q6 Q7 Q8 Q9] Hno Hnq. split; try done.
  - intros x q Hq. destruct (Q4 x q Hq) as (dt & Hd & Hty). exists dt. rewrite lookup_delete_ne; [done|]. intros <-. by apply Hnq in Hq.
  - intros r rf x Hr Hx. destruct (Q7 r rf x Hr Hx) as (dt & Hd & H). exists dt. split; [|done]. rewrite lookup_delete_ne; [done|]. intros <-. by apply (Hno r rf Hr).
Qed.

(** ** A new reference *)

Lemma owned_new R r rf p x : R !! r = None -> owned (<[r := rf]> R) p x <-> owned R p x \/ (x = r /\ r_proc rf = p).
Proof.
  intros Hr. unfold owned. rewrite lookup_insert. case_decide as Hx; [subst x|]; (split; [intros (y & Hy & Hp)|]).
  - injection Hy as <-. by right.
  - intros [(y & Hy & _)|[_ Hp]]; [congruence|by exists rf].
  - left. by exists y.
  - intros [?|[-> _]]; done.
Qed.

Lemma tinv_newref P N R r rf pr t1 t2 : tinv P N R -> R !! r = None -> P !! r_proc rf = Some pr ->
  keyed t2 (dkey (<[r := rf]> R)) (owned (<[r := rf]> R) (r_proc rf)) -> keyed t1 (rkey (<[r := rf]> R)) (owned (<[r := rf]> R) (r_proc rf)) ->
  tinv (<[r_proc rf := with_refs t2 t1 pr]> P) N (<[r := rf]> R).
Proof.
  intros HT Hr Hp H2 H1 q qr. rewrite lookup_insert. case_decide as Hc; [subst q; intros [= <-]; destruct (HT _ _ Hp) as (T1 & _); by split|].
  intros Hq. destruct (HT q qr Hq) as (T1 & T2 & T3). assert (Ho : forall x, owned (<[r := rf]> R) q x <-> owned R q x) by (intros x; rewrite owned_new by done; split; [intros [?|[_ ?]]; done|by left]).
  assert (Hne : forall x, owned R q x -> x <> r) by (intros x (y & Hy & _) ->; congruence).
  split; [done|]. split; [eapply keyed_ext; [exact T2| |exact Ho]|eapply keyed_ext; [exact T3| |exact Ho]]; intros x Hx%Hne; [unfold dkey|unfold rkey]; by rewrite lookup_insert_ne.
Qed.

Lemma linv_newref N R n nd r rf : linv N R -> N !! n = Some nd -> R !! r = None -> r_node rf = n -> strong rf = 0 -> weak rf = 0 -> 0 <= desc rf < two32 ->
  linv (<[n := with_n_refs (r :: n_refs nd) nd]> N) (<[r := rf]> R).
Proof.
  intros [L1 L2 L3 L4] Hn Hr En Es Ew Hd. assert (Hfr : forall m md, N !! m = Some md -> r ∉ n_refs md) by (intros m md Hm Hin; destruct (L2 m md r Hm Hin) as (rf0 & Hx & _); congruence).
  assert (Hcnt : forall l, r ∉ l -> strong_count (<[r := rf]> R) l = strong_count R l) by (intros l Hl; apply strong_count_ext; intros x Hx; rewrite is_strong_insert, decide_False by (intros ->; done); done).
  split.
  - intros x xf. rewrite lookup_insert. case_decide as Hx.
    + intros [= <-]. subst x. rewrite Es, Ew, En. split; [|unfold int31, two31; lia]. rewrite lookup_insert_eq. eexists. split; [done|]. simpl. set_solver.
    + intros Hxf. destruct (L1 x xf Hxf) as ((y & Hy & Hyin) & H). split; [|done]. rewrite lookup_insert. case_decide as Hc; [|by exists y]. eexists. split; [done|]. simpl. rewrite <- Hc, Hn in Hy. injection Hy as <-. set_solver.
  - intros m md x. rewrite lookup_insert. case_decide as Hm; [intros [= <-]; simpl; intros [->|Hin]%elem_of_cons|intros Hmd Hin].
    + exists rf. rewrite lookup_insert_eq. split; [done|]. congruence.
    + subst m. destruct (L2 _ _ _ Hn Hin) as (xf & Hxf & Hxn). exists xf. rewrite lookup_insert_ne; [done|]. intros <-. congruence.
    + destruct (L2 m md x Hmd Hin) as (xf & Hxf & Hxn). exists xf. rewrite lookup_insert_ne; [done|]. intros <-. congruence.
  - intros m md. rewrite lookup_insert. case_decide as Hm; [intros [= <-]; simpl; constructor; [by eapply Hfr|by eapply L3]|apply L3].
  - intros m md. rewrite lookup_insert. case_decide as Hm; intros Hmd.
    + injection Hmd as <-. simpl. destruct (L4 _ _ Hn) as [Hc Hb]. split; [|done]. rewrite Hc. rewrite <- (Hcnt (n_refs nd)) by (by eapply Hfr). unfold strong_count. rewrite filter_cons, decide_False; [done|]. by rewrite is_strong_insert, decide_True, Es.
    + destruct (L4 m md Hmd) as [-> Hb]. split; [|done]. symmetry. apply Hcnt. by eapply Hfr.
Qed.

Lemma qinv_newref P N R D Q r rf : qinv P N R D Q -> R !! r = None -> death rf = None -> is_Some (P !! r_proc rf) -> qinv P N (<[r := rf]> R) D Q.
Proof.
  intros [Q1 Q2 Q3 Q4 Q5 Q6 Q7 Q8 Q9] Hr Hd Hp. split; try done.
  - intros x xf d. rewrite lookup_insert. case_decide; [intros [= <-]; congruence|apply Q7].
  - intros x x' xf xf' d. rewrite !lookup_insert. case_decide; [intros [= <-]; congruence|]. case_decide; [intros _ [= <-]; congruence|apply Q8].
  - intros x xf. rewrite lookup_insert. case_decide; [intros [= <-]; done|apply Q9].
Qed.

(** ** A new node *)

Lemma mine_new N n nd p x : N !! n = None -> mine (<[n := nd]> N) p x <-> mine N p x \/ (x = n /\ n_proc nd = Some p).
Proof.
  intros Hn. unfold mine. rewrite lookup_insert. case_decide as Hx; [subst x|]; (split; [intros (y & Hy & Hp)|]).
  - injection Hy as <-. by right.
  - intros [(y & Hy & _)|[_ Hp]]; [congruence|by exists nd].
  - left. by exists y.
  - intros [?|[-> _]]; done.
Qed.

Lemma tinv_newnode P N R n nd p pr t : tinv P N R -> N !! n = None -> n_proc nd = Some p -> P !! p = Some pr ->
  keyed t (nkey (<[n := nd]> N)) (mine (<[n := nd]> N) p) -> tinv (<[p := with_nodes t pr]> P) (<[n := nd]> N) R.
Proof.
  intros HT Hn Hnp Hp Ht q qr. rewrite lookup_insert. case_decide as Hc; [subst q; intros [= <-]; destruct (HT _ _ Hp) as (_ & T2 & T3); by split|].
  intros Hq. destruct (HT q qr Hq) as (T1 & T2 & T3). split; [|done]. eapply keyed_ext; [exact T1| |].
  - intros x (y & Hy & _). unfold nkey. rewrite lookup_insert_ne; [done|]. intros <-. congruence.
  - intros x. rewrite mine_new by done. split; [intros [?|[_ ?]]; [done|congruence]|by left].
Qed.

Lemma linv_newnode N R n nd : linv N R -> N !! n = None -> n_refs nd = [] -> internal_strong_refs nd = 0 -> linv (<[n := nd]> N) R.
Proof.
  intros [L1 L2 L3 L4] Hn Er Ei. split.
  - intros r rf Hr. destruct (L1 r rf Hr) as ((y & Hy & Hin) & H). split; [|done]. exists y. split; [|done]. rewrite lookup_insert_ne; [done|]. congruence.
  - intros m md r. rewrite lookup_insert. case_decide; [intros [= <-]; rewrite Er; by intros ?%elem_of_nil|apply L2].
  - intros m md. rewrite lookup_insert. case_decide; [intros [= <-]; rewrite Er; constructor|apply L3].
  - intros m md. rewrite lookup_insert. case_decide; [intros [= <-]; by rewrite Er, Ei|apply L4].
Qed.

Lemma hinv_newnode P N H mgr l n nd p : hinv P N H mgr l None -> N !! n = None -> n_proc nd = Some p -> ((forall s, holds H n s = 0) -> mgr <> Some n -> alive P H mgr n nd p) -> hinv P (<[n := nd]> N) H mgr l None.
Proof.
  intros [H1 H2 H3 H4 H5] Hn Hp Ha. assert (Hm : forall q x, mine N q x -> mine (<[n := nd]> N) q x) by (intros q x Hx; apply mine_new; [done|by left]). split; [|intros h Hh; destruct (H2 h Hh) as [q Hq]; exists q; by apply Hm|intros m Hmg; destruct (H3 m Hmg) as [q Hq]; exists q; by apply Hm|done|].
  - intros m md. rewrite lookup_insert. case_decide as Hc; [|apply H1]. subst m. intros [= <-]. rewrite Hp. apply Ha.
    + intros s. unfold holds. destruct (filter (fun h => h = (n, s)) H) as [|h H'] eqn:Ef; [done|]. assert (Hin : h ∈ filter (fun h => h = (n, s)) H) by (rewrite Ef; set_solver). apply list_elem_of_filter in Hin as [-> Hin]. destruct (H2 _ Hin) as (q & y & Hy & _). simpl in Hy. congruence.
    + intros E. destruct (H3 n E) as (q & y & Hy & _). congruence.
  - intros m Hml. destruct (H5 m Hml) as (md & Hmd & Hpd). exists md. rewrite lookup_insert_ne; [done|]. congruence.
Qed.

Lemma qinv_newnode P N R D Q n nd : qinv P N R D Q -> N !! n = None -> qinv P (<[n := nd]> N) R D Q.
Proof.
  intros [Q1 Q2 Q3 Q4 Q5 Q6 Q7 Q8 Q9] Hn. split; try done.
  - intros m q Hq. destruct (Q3 m q Hq) as (p & pr & Hm & H). exists p, pr. split; [|done]. apply mine_new; [done|by left].
  - intros r rf d Hr Hd. destruct (Q7 r rf d Hr Hd) as (dt & Hdt & H). exists dt. split; [done|]. intros q Hq. destruct (H q Hq) as (Ht & x & Hx & Hxp). split; [done|]. exists x. rewrite lookup_insert_ne; [done|]. congruence.
Qed.

(** ** Deaths *)

Lemma linv_death N R r rf o : linv N R -> R !! r = Some rf -> linv N (<[r := with_death o rf]> R).
Proof.
  intros HL Hr. destruct (li_ref _ _ HL r rf Hr) as ((nd & Hn & Hin) & Bs & Bw & _). rewrite <- (insert_id N (r_node rf) nd Hn). eapply linv_count; try done; [simpl; lia|]. apply (li_count _ _ HL _ _ Hn).
Qed.

(** A reference loses its death. *)
Lemma qinv_nodeath P N R D Q r rf : qinv P N R D Q -> R !! r = Some rf -> qinv P N (<[r := with_death None rf]> R) D Q.
Proof.
  intros [Q1 Q2 Q3 Q4 Q5 Q6 Q7 Q8 Q9] Hr. split; try done.
  - intros x xf d. rewrite lookup_insert. case_decide; [intros [= <-]; done|apply Q7].
  - intros x x' xf xf' d. rewrite !lookup_insert. case_decide; [intros [= <-]; done|]. case_decide; [intros _ [= <-]; done|apply Q8].
  - intros x xf. rewrite lookup_insert. case_decide; [intros [= <-]; exact (Q9 r rf Hr)|apply Q9].
Qed.

(** A reference gets a new death, on no list yet. *)
Lemma qinv_newdeath P N R D Q r rf d dt : qinv P N R D Q -> R !! r = Some rf -> D !! d = None -> qinv P N (<[r := with_death (Some d) rf]> R) (<[d := dt]> D) Q.
Proof.
  intros [Q1 Q2 Q3 Q4 Q5 Q6 Q7 Q8 Q9] Hr Hd. assert (Hno : forall x xf, R !! x = Some xf -> death xf <> Some d) by (intros x xf Hx Hxd; destruct (Q7 x xf d Hx Hxd) as (dt' & Hdt & _); congruence).
  split; try done.
  - intros x q Hq. destruct (Q4 x q Hq) as (xt & Hx & Ht). exists xt. rewrite lookup_insert_ne; [done|]. congruence.
  - intros x xf e. rewrite lookup_insert. case_decide.
    + intros [= <-] [= <-]. exists dt. rewrite lookup_insert_eq. split; [done|]. intros q Hq. destruct (Q4 d q Hq) as (xt & Hx & _). congruence.
    + intros Hx He. destruct (Q7 x xf e Hx He) as (xt & Hxt & H'). exists xt. rewrite lookup_insert_ne; [done|]. congruence.
  - intros x x' xf xf' e Hx Hx' He He'. rewrite lookup_insert in Hx, Hx'. case_decide as C1; case_decide as C2; simplify_eq/=; first [done|exfalso; by eapply Hno|by eapply (Q8 x x')].
  - intros x xf. rewrite lookup_insert. case_decide; [intros [= <-]; exact (Q9 r rf Hr)|apply Q9].
Qed.

(** A death changes its type. *)
Lemma qinv_retype P N R D Q d dt dt' : qinv P N R D Q -> D !! d = Some dt -> d_type dt' <> None ->
  (forall r rf q, R !! r = Some rf -> death rf = Some d -> queued Q (WDeath d) q -> d_type dt' = Some DEAD_BINDER) -> qinv P N R (<[d := dt']> D) Q.
Proof.
  intros [Q1 Q2 Q3 Q4 Q5 Q6 Q7 Q8 Q9] Hd Ht Hty. split; try done.
  - intros x q Hq. rewrite lookup_insert. case_decide; [by exists dt'|by eapply Q4].
  - intros r rf x Hr Hx. destruct (Q7 r rf x Hr Hx) as (xt & Hxt & H'). rewrite lookup_insert. case_decide as Hc; [|by exists xt]. subst x. exists dt'. split; [done|]. intros q Hq. split; [by eapply Hty|by eapply H'].
Qed.

(** A death is put on a list, at either end. *)
Lemma qinv_add_death P N R D Q d dt q l l' : qinv P N R D Q -> Q !! q = Some l -> l' ≡ₚ WDeath d :: l -> (forall q', ~ queued Q (WDeath d) q') -> D !! d = Some dt -> d_type dt <> None ->
  (forall r rf, R !! r = Some rf -> death rf = Some d -> d_type dt = Some DEAD_BINDER /\ exists nd, N !! r_node rf = Some nd /\ n_proc nd = None) ->
  qinv P N R D (<[q := l']> Q).
Proof.
  intros [Q1 Q2 Q3 Q4 Q5 Q6 Q7 Q8 Q9] Hq Hl' Hno Hd Hty Href.
  assert (Hqd : forall w q', queued (<[q := l']> Q) w q' <-> queued Q w q' \/ (w = WDeath d /\ q' = q)).
  { intros w q'. unfold queued. rewrite lookup_insert. case_decide as Hx; [subst q'|by split; [left|intros [?|[_ ->]]]]. split.
    - intros (x & [= <-] & Hin). rewrite Hl' in Hin. apply elem_of_cons in Hin as [->|Hin]; [by right|left; by exists l].
    - intros H'. exists l'. split; [done|]. rewrite Hl'. destruct H' as [(x & Hx & Hin)|[-> _]]; [rewrite Hq in Hx; injection Hx as <-|]; set_solver. }
  split; try done.
  - intros q' x. rewrite lookup_insert. case_decide; [intros [= <-]|apply Q1]. rewrite Hl'. constructor; [|by eapply Q1]. intros Hin. apply (Hno q). by exists l.
  - intros w q1 q2. rewrite !Hqd. intros [H1|[-> ->]] [H2|[E ->]]; [by eapply Q2|subst w; by apply Hno in H1|by apply Hno in H2|done].
  - intros m q'. rewrite Hqd. intros [H'|[? _]]; [by apply Q3|done].
  - intros x q'. rewrite Hqd. intros [H'|[[= ->] ->]]; [by eapply Q4|by exists dt].
  - intros p' pr' Hp'. destruct (Q5 p' pr' Hp') as [H1 H2]. split; [done|]. intros q' Hq'. rewrite lookup_insert. case_decide; [by eexists|by apply H2].
  - intros r rf x Hr Hx. destruct (Q7 r rf x Hr Hx) as (xt & Hxt & H'). exists xt. split; [done|]. intros q'. rewrite Hqd. intros [Hq'|[[= ->] ->]]; [by eapply H'|]. rewrite Hd in Hxt. injection Hxt as <-. by eapply Href.
Qed.

End BinderRefInv.

(** * The binder's nodes and references: the operations on a node *)

Local Open Scope Z_scope.
Local Open Scope kernel_scope.

Module BinderRefOps.
Import Rbtree RbtreeKey BinderRef BinderRefInv.

(** [H] are the holds of buffers; [u] is a dead node without references that is
    about to be freed. *)
Record inv (st : state) (H : list hold) (u : option nid) : Prop := {
  iv_t : tinv (procs st) (bnodes st) (brefs st);
  iv_l : linv (bnodes st) (brefs st);
  iv_h : hinv (procs st) (bnodes st) H (binder_context_mgr_node st) (binder_dead_nodes st) u;
  iv_q : qinv (procs st) (bnodes st) (brefs st) (deaths st) (todo st)
}.

(** Who a node and a reference are. *)
Definition nident (nd : binder_node) : option pid * Z * Z := (n_proc nd, n_ptr nd, n_cookie nd).
Definition rident (rf : binder_ref) : pid * nid * Z * option did := (r_proc rf, r_node rf, desc rf, death rf).

(** What the operations on nodes leave alone. *)
Record kept (st st' : state) : Prop := {
  kp_refs : brefs st' = brefs st;
  kp_deaths : deaths st' = deaths st;
  kp_mgr : binder_context_mgr_node st' = binder_context_mgr_node st;
  kp_lists : same_lists (procs st) (procs st');
  kp_nodes : forall m md', bnodes st' !! m = Some md' -> exists md, bnodes st !! m = Some md /\ nident md' = nident md;
  kp_queue : deaths_stay (todo st) (todo st')
}.

Lemma kp_refl st : kept st st.
Proof. split; try done. intros m md Hm. by exists md. Qed.

Lemma kp_trans st1 st2 st3 : kept st1 st2 -> kept st2 st3 -> kept st1 st3.
Proof. intros [A1 A2 A3 A4 A5 A6] [B1 B2 B3 B4 B5 B6]. split; [congruence|congruence|congruence|intros p; by rewrite B4|intros m md3 H3; destruct (B5 m md3 H3) as (md2 & H2 & E2); destruct (A5 m md2 H2) as (md1 & H1 & E1); exists md1; split; [done|congruence]|intros d q Hq; by apply B6, A6]. Qed.

Lemma kept_node st n nd nd' : bnodes st !! n = Some nd -> nident nd' = nident nd -> kept st (set_node st n nd').
Proof. intros Hn E. split; try done. simpl. intros m md'. rewrite lookup_insert. case_decide as Hm; [subst; intros [= <-]; by exists nd|by exists md']. Qed.

Lemma alive_zero P H mgr n nd p : alive P H mgr n nd p -> local_strong_refs nd = 0 -> local_weak_refs nd = 0 -> (forall s, (n, s) ∉ H) /\ mgr <> Some n.
Proof.
  intros [A1 A2 A3 A4 A5] Hs Hw. rewrite Hs in A2. rewrite Hw in A3. assert (0 <= b2z (pending_strong_ref nd)) by (by destruct (pending_strong_ref nd)). assert (0 <= b2z (pending_weak_ref nd)) by (by destruct (pending_weak_ref nd)).
  pose proof (holds_pos H n true). pose proof (holds_pos H n false). split.
  - intros s Hin%holds_in. destruct (bool_decide (mgr = Some n)); destruct s; simpl in *; lia.
  - intros E. rewrite bool_decide_eq_true_2 in A2 by done. simpl in A2. lia.
Qed.

Lemma add_work_ok st q l w : todo st !! q = Some l -> on_list st w = false -> add_work st q w = Some (set_todo st (<[q := list_add_tail w l]> (todo st))).
Proof. intros Hq Ho. unfold add_work. rewrite Hq. simpl. by rewrite Ho. Qed.

Lemma hinv_close P N H mgr l n nd : hinv P N H mgr l (Some n) -> N !! n = Some nd -> (n_proc nd = None -> n_refs nd <> []) -> hinv P N H mgr l None.
Proof.
  intros [H1 H2 H3 H4 H5] Hn Hd. split; try done. intros m md Hm. specialize (H1 m md Hm). destruct (n_proc md) as [p|] eqn:Hp; [done|]. destruct H1 as [D1 D2 D3 D4]. split; try done.
  intros _. destruct (decide (m = n)) as [->|]; [|apply D3; congruence]. rewrite Hn in Hm. injection Hm as <-. by apply Hd.
Qed.

(** A node of a process that nothing holds leaves its tree. *)
Lemma free_alive st H u n nd p pr : inv st H u -> u = None \/ u = Some n -> bnodes st !! n = Some nd -> n_proc nd = Some p -> procs st !! p = Some pr ->
  n_refs nd = [] -> local_strong_refs nd = 0 -> local_weak_refs nd = 0 ->
  exists t, rb_erase (p_nodes pr) n = Some t /\ inv (free_node (set_proc (del_work st (WNode n)) p (with_nodes t pr)) n) H None /\ kept st (free_node (set_proc (del_work st (WNode n)) p (with_nodes t pr)) n).
Proof.
  intros [HT HL HH HQ] Hu Hn Hp Hpr Hr Hs Hw. pose proof (hi_node _ _ _ _ _ _ HH n nd Hn) as Hnd. rewrite Hp in Hnd.
  destruct (HT p pr Hpr) as (T1 & _). destruct (keyed_erase _ _ _ n T1) as (t & Et & Ht); [by exists nd|]. exists t. split; [done|].
  destruct (alive_zero _ _ _ _ _ _ Hnd Hs Hw) as [Hno Hmg]. assert (Hsl : same_lists (procs st) (<[p := with_nodes t pr]> (procs st))) by (by eapply same_lists_insert).
  split; [|split; try done; simpl; [intros m y [_ Hy]%lookup_delete_Some; by exists y|apply deaths_stay_del]]. split; simpl.
  - by eapply tinv_free.
  - by eapply linv_free.
  - eapply hinv_procs; [|intros q; by apply same_lists_dom]. eapply hinv_free; [exact HH|by destruct Hu; [left|right]|done|done|done|]. symmetry. apply list_del_not_in. intros Hin. destruct (hi_dead _ _ _ _ _ _ HH n Hin) as (y & Hy & Hyp). congruence.
  - eapply qinv_procs; [|exact Hsl]. eapply qinv_free; [by apply qinv_del|done|done|done|]. intros q [_ Hq]%queued_del. done.
Qed.

(** The node is kept, told to let go, or freed. *)
Lemma drop_node_ok st H u n nd held : inv st H u -> u = None \/ u = Some n -> bnodes st !! n = Some nd -> (u = Some n -> n_proc nd = None -> n_refs nd = [] -> held = false) ->
  exists st', drop_node st n nd held = Some st' /\ inv st' H None /\ kept st st' /\ (n_refs nd <> [] -> bnodes st' = bnodes st).
Proof.
  intros Hi Hu Hn Hx. pose proof Hi as [HT HL HH HQ].
  assert (Hstay : (n_proc nd = None -> n_refs nd <> []) -> inv st H None).
  { intros Hd. split; try done. destruct Hu as [->| ->]; [done|]. by eapply hinv_close. }
  unfold drop_node. destruct held.
  { exists st. split; [done|]. split; [apply Hstay; intros Hp Hr; destruct Hu as [->| ->]; [|by specialize (Hx eq_refl Hp Hr)]|by split; [apply kp_refl|]].
    pose proof (hi_node _ _ _ _ _ _ HH n nd Hn) as Hnd. rewrite Hp in Hnd. by apply (de_refs _ _ _ _ Hnd). }
  pose proof (hi_node _ _ _ _ _ _ HH n nd Hn) as Hnd. destruct (n_proc nd) as [p|] eqn:Hp.
  - pose proof (al_proc _ _ _ _ _ _ Hnd) as [pr Hpr]. destruct (has_strong_ref nd || has_weak_ref nd).
    + destruct (on_list st (WNode n)) eqn:Ho; [exists st; split; [done|]; split; [by apply Hstay|by split; [apply kp_refl|]]|].
      rewrite Hpr. simpl. destruct (qi_lists _ _ _ _ _ HQ p pr Hpr) as [_ Hls]. destruct (Hls (p_todo pr)) as [l Hl]; [unfold lists_of; set_solver|]. rewrite (add_work_ok st _ l) by done.
      eexists. split; [done|]. split; [|split; [destruct (kp_refl st); split; try done; simpl; by apply deaths_stay_add|done]]. destruct Hstay as [? ? ? ?]; [done|]. split; try done. simpl. eapply qinv_add_node; try done; [intros q'; by apply on_list_false|by exists nd|set_solver].
    + destruct (bool_decide (n_refs nd = []) && bool_decide (local_strong_refs nd = 0) && bool_decide (local_weak_refs nd = 0)) eqn:Hz.
      * apply andb_true_iff in Hz as [[Hr%bool_decide_eq_true Hs%bool_decide_eq_true]%andb_true_iff Hw%bool_decide_eq_true]. simpl. rewrite Hpr. simpl.
        destruct (free_alive st H u n nd p pr) as (t & Et & Hif & Hkf); try done. rewrite Et. simpl. eexists. split; [done|]. by split.
      * exists st. split; [done|]. split; [by apply Hstay|by split; [apply kp_refl|]].
  - destruct Hnd as [D1 D2 D3 D4]. rewrite (bool_decide_eq_true_2 (local_strong_refs nd = 0)), (bool_decide_eq_true_2 (local_weak_refs nd = 0)), !andb_true_r by done. simpl.
    destruct (bool_decide (n_refs nd = [])) eqn:Hr.
    + apply bool_decide_eq_true in Hr. rewrite bool_decide_eq_true_2 by done. eexists. split; [done|]. split; [|split; [split; try done; simpl; [intros m y [_ Hy]%lookup_delete_Some; by exists y|apply deaths_stay_del]|done]]. split; simpl.
      * intros q qr Hq. destruct (HT q qr Hq) as (T1 & T2). split; [|done]. eapply keyed_ext; [exact T1| |].
        -- intros x (y & Hy & Hyp). unfold nkey. rewrite lookup_delete_ne; [done|]. intros ->. congruence.
        -- intros x. unfold mine. split; [intros (y & [_ Hy]%lookup_delete_Some & H0); by exists y|]. intros (y & Hy & Hyp). exists y. rewrite lookup_delete_ne; [done|]. intros ->. congruence.
      * by eapply linv_free.
      * eapply hinv_free; [exact HH|by destruct Hu; [left|right]|done| | |done].
        -- intros s Hin. destruct (hi_held _ _ _ _ _ _ HH _ Hin) as (q & y & Hy & Hyp). simpl in Hy. congruence.
        -- intros E. destruct (hi_mgr _ _ _ _ _ _ HH n E) as (q & y & Hy & Hyp). congruence.
      * eapply qinv_free; [by apply qinv_del|done|done|done|]. intros q [_ Hq]%queued_del. done.
    + exists st. split; [done|]. split; [apply Hstay; intros _; by apply bool_decide_eq_false in Hr|by split; [apply kp_refl|]].
Qed.

(** ** Holds of the node's own process *)

Lemma set_set_node st n a b : set_node (set_node st n a) n b = set_node st n b.
Proof. unfold set_node, set_bnodes. simpl. by rewrite insert_insert_eq. Qed.

Lemma inv_node st H H' n nd nd' p : inv st H None -> bnodes st !! n = Some nd -> n_proc nd = Some p -> n_proc nd' = Some p -> n_ptr nd' = n_ptr nd ->
  n_refs nd' = n_refs nd -> internal_strong_refs nd' = internal_strong_refs nd ->
  (forall m s, m <> n -> holds H' m s = holds H m s) -> (forall h, h ∈ H' -> h ∈ H \/ h.1 = n) -> alive (procs st) H' (binder_context_mgr_node st) n nd' p -> inv (set_node st n nd') H' None.
Proof.
  intros [HT HL HH HQ] Hn Hp Hp' Hk Hr Hi Hh Hin Ha. split; simpl.
  - eapply tinv_node; [done|done|congruence|done].
  - by eapply linv_node.
  - by eapply hinv_node.
  - eapply qinv_node; [done|done|congruence].
Qed.

Lemma drop_after st H H' n nd nd' p held : inv st H None -> bnodes st !! n = Some nd -> n_proc nd = Some p -> nident nd' = nident nd ->
  n_refs nd' = n_refs nd -> internal_strong_refs nd' = internal_strong_refs nd ->
  (forall m s, m <> n -> holds H' m s = holds H m s) -> (forall h, h ∈ H' -> h ∈ H \/ h.1 = n) -> alive (procs st) H' (binder_context_mgr_node st) n nd' p ->
  exists st', drop_node (set_node st n nd') n nd' held = Some st' /\ inv st' H' None /\ kept st st'.
Proof.
  intros Hi Hn Hp Hid Hr Hin Hh Hm Ha. unfold nident in Hid. injection Hid as Hp' Hk Hck. pose proof (inv_node st H H' n nd nd' p Hi Hn Hp ltac:(congruence) Hk Hr Hin Hh Hm Ha) as Hi'.
  destruct (drop_node_ok (set_node st n nd') H' None n nd' held Hi') as (st' & E & Hi2 & Hkp & _); [by left|simpl; by rewrite lookup_insert_eq|done|].
  exists st'. split; [done|]. split; [done|]. eapply kp_trans; [|exact Hkp]. eapply kept_node; [done|]. unfold nident. congruence.
Qed.

Lemma s32_dec z : int31 z -> 0 < z -> s32 (z + -1) = z - 1.
Proof. intros [H1 H2] H. rewrite s32_small by (unfold two31 in *; lia). lia. Qed.

Lemma s32_inc z : int31 z -> z < two31 - 1 -> s32 (z + 1) = z + 1.
Proof. intros [H1 H2] H. apply s32_small. unfold two31 in *. lia. Qed.

(** A hold is given up. *)
Lemma dec_hold_ok st H1 H2 n s : inv st (H1 ++ (n, s) :: H2) None -> exists st', binder_dec_node st n s false = Some st' /\ inv st' (H1 ++ H2) None /\ kept st st'.
Proof.
  intros Hi. pose proof (iv_h _ _ _ Hi) as HH. destruct (hi_held _ _ _ _ _ _ HH (n, s)) as (p & nd & Hn & Hp); [set_solver|]. simpl in Hn. pose proof (hi_node _ _ _ _ _ _ HH n nd Hn) as Ha. rewrite Hp in Ha. destruct Ha as [A1 A2 A3 [A4 A4'] A5].
  unfold binder_dec_node. rewrite Hn. simpl. rewrite (holds_mid H1 (n, s) H2) in A2, A3. pose proof (holds_pos (H1 ++ H2) n true). pose proof (holds_pos (H1 ++ H2) n false).
  assert (0 <= b2z (pending_strong_ref nd)) by (by destruct (pending_strong_ref nd)). assert (0 <= b2z (pending_weak_ref nd)) by (by destruct (pending_weak_ref nd)). assert (0 <= b2z (bool_decide (binder_context_mgr_node st = Some n))) by (by destruct (bool_decide _)).
  assert (Hh : forall m x, m <> n -> holds (H1 ++ H2) m x = holds (H1 ++ (n, s) :: H2) m x) by (intros m x Hm; rewrite holds_mid, decide_False by congruence; lia).
  destruct s.
  - rewrite decide_True in A2 by done. rewrite decide_False in A3 by congruence. eapply drop_after; try done; [set_solver|]. split; simpl; try done; [rewrite s32_dec by (done || lia); lia|lia|rewrite s32_dec by (done || lia); unfold int31 in *; lia].
  - rewrite decide_False in A2 by congruence. rewrite decide_True in A3 by done. eapply drop_after; try done; [set_solver|]. split; simpl; try done; [lia|rewrite s32_dec by (done || lia); lia|rewrite s32_dec by (done || lia); unfold int31 in *; lia].
Qed.

(** A hold is taken. *)
Lemma inc_hold_ok st H n nd p s : inv st H None -> bnodes st !! n = Some nd -> n_proc nd = Some p -> local_strong_refs nd < two31 - 1 -> local_weak_refs nd < two31 - 1 ->
  exists st' ret, binder_inc_node st n s false None = Some (st', ret) /\ inv st' ((n, s) :: H) None /\ exists nd', st' = set_node st n nd' /\ nident nd' = nident nd.
Proof.
  intros Hi Hn Hp Rs Rw. pose proof (hi_node _ _ _ _ _ _ (iv_h _ _ _ Hi) n nd Hn) as Ha. rewrite Hp in Ha. destruct Ha as [A1 A2 A3 [A4 A4'] A5].
  assert (Hh : forall m x, m <> n -> holds ((n, s) :: H) m x = holds H m x) by (intros m x Hm; rewrite holds_one, decide_False by congruence; lia).
  unfold binder_inc_node. rewrite Hn. simpl. destruct s; simpl.
  - eexists _, _. split; [done|]. split; [|by eexists]. eapply inv_node; try done; [set_solver|]. split; simpl; try done; rewrite ?holds_one, ?(s32_inc (local_strong_refs nd)) by done; [rewrite decide_True by done; lia|rewrite decide_False by congruence; lia|unfold int31 in *; lia].
  - assert (Hi' : inv (set_node st n (add_weak 1 nd)) ((n, false) :: H) None).
    { eapply inv_node; try done; [set_solver|]. split; simpl; try done; rewrite ?holds_one, ?(s32_inc (local_weak_refs nd)) by done; [rewrite decide_False by congruence; lia|rewrite decide_True by done; lia|unfold int31 in *; lia]. }
    destruct (negb (has_weak_ref nd) && _); eexists _, _; (split; [done|]; split; [done|by eexists]).
Qed.

End BinderRefOps.
