(* ===== verification/BinderRefLink.v ===== *)
(** * The binder's nodes and references: the operations on a reference *)

From Stdlib Require Import ZArith Lia.
From stdpp Require Import base option gmap sorting list.
From S2P Require Import Prelude Rbtree RbtreeWalk BinderRef BinderRefInv.

Local Open Scope Z_scope.
Local Open Scope kernel_scope.

Module BinderRefLink.
Import Rbtree RbtreeKey BinderRef BinderRefInv BinderRefOps.

(** The list is one of the process of the node. *)
Definition list_for (st : state) (n : nid) (tl : option qid) : Prop :=
  forall q, tl = Some q -> exists p pr, mine (bnodes st) p n /\ procs st !! p = Some pr /\ q ∈ p_todo pr :: threads pr.

Lemma set_node_id st n nd : bnodes st !! n = Some nd -> set_node st n nd = st.
Proof. intros Hn. unfold set_node, set_bnodes. rewrite insert_id by done. by destruct st. Qed.

Lemma set_todo_id st : set_todo st (todo st) = st.
Proof. by destruct st. Qed.

Lemma list_for_some st n q : list_for st n (Some q) -> qinv (procs st) (bnodes st) (brefs st) (deaths st) (todo st) -> exists p pr l, mine (bnodes st) p n /\ procs st !! p = Some pr /\ q ∈ p_todo pr :: threads pr /\ todo st !! q = Some l.
Proof.
  intros Hl HQ. destruct (Hl q eq_refl) as (p & pr & Hm & Hp & Hin). destruct (qi_lists _ _ _ _ _ HQ p pr Hp) as [_ Hls]. destruct (Hls q) as [l Hq]; [unfold lists_of; set_solver|]. by exists p, pr, l.
Qed.

(** The node side of a new count. *)
Lemma inc_internal st n nd s tl : qinv (procs st) (bnodes st) (brefs st) (deaths st) (todo st) -> bnodes st !! n = Some nd -> list_for st n tl ->
  exists ret nd' Q', binder_inc_node st n s true tl = Some (set_todo (set_node st n nd') Q', ret) /\ qinv (procs st) (bnodes st) (brefs st) (deaths st) Q' /\
    ((ret = 0 /\ nd' = if s then add_internal 1 nd else nd) \/ (ret = - EINVAL /\ nd' = nd)).
Proof.
  intros HQ Hn Hl. unfold binder_inc_node. rewrite Hn. simpl. destruct s.
  - destruct (bool_decide (tl = None) && bool_decide (internal_strong_refs nd = 0) && negb (is_mgr st n && has_strong_ref nd)).
    { exists (- EINVAL), nd, (todo st). rewrite set_node_id, set_todo_id by done. split; [done|]. split; [done|by right]. }
    set (nd' := add_internal 1 nd). destruct tl as [q|]; [|exists 0, nd', (todo st); split; [by destruct st|]; split; [done|by left]].
    destruct (has_strong_ref nd); [exists 0, nd', (todo st); split; [by destruct st|]; split; [done|by left]|].
    destruct (list_for_some st n q Hl HQ) as (p & pr & l & Hm & Hp & Hin & Hq).
    assert (Hno : on_list (del_work (set_node st n nd') (WNode n)) (WNode n) = false) by (apply not_true_is_false; intros (q' & [_ Hx]%queued_del)%on_list_queued; done).
    rewrite (add_work_ok _ _ (list_del (WNode n) l)) by (simpl; by rewrite ?lookup_fmap, ?Hq). simpl. eexists 0, nd', _. split; [done|]. split; [|by left].
    eapply qinv_add_node; [by apply qinv_del|by rewrite lookup_fmap, Hq|intros q' [_ Hx]%queued_del; done|done|done|done].
  - rewrite set_node_id by done. destruct (negb (has_weak_ref nd) && negb (on_list st (WNode n))) eqn:Hw; [|exists 0, nd, (todo st); rewrite set_node_id, set_todo_id by done; split; [done|]; split; [done|by left]].
    apply andb_true_iff in Hw as [_ Ho%negb_true_iff]. destruct tl as [q|]; [|exists (- EINVAL), nd, (todo st); rewrite set_node_id, set_todo_id by done; split; [done|]; split; [done|by right]].
    destruct (list_for_some st n q Hl HQ) as (p & pr & l & Hm & Hp & Hin & Hq). rewrite (add_work_ok _ _ l) by done. simpl. eexists 0, nd, _. rewrite set_node_id by done. split; [done|]. split; [|by left].
    eapply qinv_add_node; try done. intros q'. by apply on_list_false.
Qed.

(** Nodes and references are who they were. *)
Record idents (st st' : state) : Prop := {
  id_procs : procs st' = procs st;
  id_nodes : forall m, nident <$> bnodes st' !! m = nident <$> bnodes st !! m;
  id_refs : forall x, rident <$> brefs st' !! x = rident <$> brefs st !! x;
  id_deaths : deaths st' = deaths st;
  id_mgr : binder_context_mgr_node st' = binder_context_mgr_node st
}.

(** Room for one more in all counts. *)
Definition room (st : state) : Prop :=
  (forall n nd, bnodes st !! n = Some nd -> internal_strong_refs nd < two31 - 1 /\ local_strong_refs nd < two31 - 1 /\ local_weak_refs nd < two31 - 1) /\
  (forall r rf, brefs st !! r = Some rf -> strong rf < two31 - 1 /\ weak rf < two31 - 1).

(** The counts of a reference and its node are changed, and the lists of work. *)
Lemma inv_counts st H r rf rf' nd nd' Q' : inv st H None -> brefs st !! r = Some rf -> bnodes st !! r_node rf = Some nd ->
  rident rf' = rident rf -> int31 (strong rf') -> int31 (weak rf') ->
  nd' = with_counts (internal_strong_refs nd + unit_of (strong rf') - unit_of (strong rf)) (local_weak_refs nd) (local_strong_refs nd) nd ->
  int31 (internal_strong_refs nd') -> qinv (procs st) (bnodes st) (brefs st) (deaths st) Q' ->
  inv (set_ref (set_todo (set_node st (r_node rf) nd') Q') r rf') H None.
Proof.
  intros [HT HL HH HQ] Hr Hn Hid Hs Hw -> Hb HQ'. unfold rident in Hid. injection Hid as I1 I2 I3 I4. split; simpl.
  - eapply tinv_ref; [eapply tinv_node; done|done..].
  - eapply linv_count; try done.
  - eapply hinv_same; try done; [by left|]. simpl. intros Hp _. pose proof (hi_node _ _ _ _ _ _ HH _ _ Hn) as Hd. rewrite Hp in Hd. by apply (de_refs _ _ _ _ Hd).
  - eapply qinv_ref; [eapply qinv_node; done|done..].
Qed.

Lemma idents_counts st r rf rf' n nd nd' Q' : brefs st !! r = Some rf -> bnodes st !! n = Some nd -> rident rf' = rident rf -> nident nd' = nident nd ->
  idents st (set_ref (set_todo (set_node st n nd') Q') r rf').
Proof.
  intros Hr Hn Ir In. split; try done; simpl.
  - intros m. rewrite lookup_insert. case_decide; [subst; rewrite Hn; simpl; by rewrite In|done].
  - intros x. rewrite lookup_insert. case_decide; [subst; rewrite Hr; simpl; by rewrite Ir|done].
Qed.

Lemma with_counts_id nd : with_counts (internal_strong_refs nd) (local_weak_refs nd) (local_strong_refs nd) nd = nd.
Proof. by destruct nd. Qed.

Lemma ref_node st H u r rf : inv st H u -> brefs st !! r = Some rf -> exists nd, bnodes st !! r_node rf = Some nd /\ r ∈ n_refs nd.
Proof. intros Hi Hr. exact (proj1 (li_ref _ _ (iv_l _ _ _ Hi) r rf Hr)). Qed.

Lemma unit_zero : unit_of 0 = 0.
Proof. done. Qed.

Lemma unit_pos z : 0 < z -> unit_of z = 1.
Proof. intros H. unfold unit_of. by rewrite bool_decide_eq_false_2 by lia. Qed.

Definition increased (s : bool) (rf : binder_ref) : binder_ref := if s then with_strong (strong rf + 1) rf else with_weak (weak rf + 1) rf.

Lemma inc_ref_ok st H r rf s tl : inv st H None -> brefs st !! r = Some rf -> list_for st (r_node rf) tl -> room st ->
  exists st' ret, binder_inc_ref st r s tl = Some (st', ret) /\ inv st' H None /\ idents st st' /\
    ((ret = 0 /\ brefs st' = <[r := increased s rf]> (brefs st)) \/ (ret = - EINVAL /\ brefs st' = brefs st)).
Proof.
  intros Hi Hr Hl [Rn Rr]. destruct (ref_node _ _ _ _ _ Hi Hr) as (nd & Hn & Hin). destruct (Rn _ _ Hn) as (Ri & _). destruct (Rr _ _ Hr) as [Rs Rw].
  destruct (li_ref _ _ (iv_l _ _ _ Hi) r rf Hr) as (_ & Bs & Bw & _). destruct (li_count _ _ (iv_l _ _ _ Hi) _ _ Hn) as [_ Bi].
  destruct (inc_internal st (r_node rf) nd s tl (iv_q _ _ _ Hi) Hn Hl) as (ret & nd' & Q' & E & HQ' & Hret).
  assert (Hfail : inv (set_todo (set_node st (r_node rf) nd) Q') H None /\ idents st (set_todo (set_node st (r_node rf) nd) Q')).
  { rewrite set_node_id by done. destruct Hi as [HT HL HH HQ]. split; split; done. }
  assert (Hsame : forall rf', rident rf' = rident rf -> int31 (strong rf') -> int31 (weak rf') -> unit_of (strong rf') = unit_of (strong rf) -> inv (set_ref st r rf') H None /\ idents st (set_ref st r rf')).
  { intros rf' I1 I2 I3 I4. assert (Es : set_ref st r rf' = set_ref (set_todo (set_node st (r_node rf) nd) (todo st)) r rf') by (by rewrite set_node_id, set_todo_id). rewrite Es. split; [|by eapply idents_counts]. apply (inv_counts st H r rf rf' nd nd); try done; [|exact (iv_q _ _ _ Hi)]. rewrite I4, Z.add_simpl_r. by rewrite with_counts_id. }
  unfold binder_inc_ref, increased. rewrite Hr. simpl. destruct s.
  - destruct (bool_decide (strong rf = 0)) eqn:Hz.
    + apply bool_decide_eq_true in Hz. rewrite E. simpl. destruct Hret as [[-> ->]|[-> ->]]; simpl; [|eexists _, _; split; [done|]; apply and_assoc; split; [exact Hfail|by right]].
      eexists _, _. split; [done|]. split; [|split; [by eapply idents_counts|left; split; [done|]; simpl; by rewrite ?(s32_inc (strong rf)), ?(s32_inc (weak rf))]]. apply (inv_counts st H r rf _ nd); try done; simpl; rewrite ?Hz; try done.
      * unfold add_internal. rewrite s32_inc by done. simpl. by rewrite Z.sub_0_r.
      * rewrite s32_inc by done. unfold int31 in *. lia.
    + apply bool_decide_eq_false in Hz. simpl. eexists _, _. split; [done|]. apply and_assoc. split; [|left; split; [done|]; simpl; by rewrite s32_inc]. apply Hsame; simpl; try done; rewrite s32_inc by done; [unfold int31 in *; lia|]. rewrite !unit_pos by (unfold int31 in *; lia). done.
  - assert (Hw : rident (with_weak (s32 (weak rf + 1)) rf) = rident rf) by done. assert (Hw' : int31 (s32 (weak rf + 1))) by (rewrite s32_inc by done; unfold int31 in *; lia).
    destruct (bool_decide (weak rf = 0)).
    + rewrite E. simpl. destruct Hret as [[-> ->]|[-> ->]]; simpl; [|eexists _, _; split; [done|]; apply and_assoc; split; [exact Hfail|by right]].
      eexists _, _. split; [done|]. split; [|split; [by eapply idents_counts|left; split; [done|]; simpl; by rewrite ?(s32_inc (strong rf)), ?(s32_inc (weak rf))]]. apply (inv_counts st H r rf _ nd); try done. simpl. rewrite Z.add_simpl_r. by rewrite with_counts_id.
    + simpl. eexists _, _. split; [done|]. apply and_assoc. split; [by apply Hsame|left; split; [done|]; simpl; by rewrite s32_inc].
Qed.

(** ** Deleting *)

(** With references left the node is only told, at most. *)
Lemma drop_refs st n nd held : qinv (procs st) (bnodes st) (brefs st) (deaths st) (todo st) -> bnodes st !! n = Some nd -> (forall p, n_proc nd = Some p -> is_Some (procs st !! p)) -> n_refs nd <> [] ->
  exists Q', drop_node st n nd held = Some (set_todo st Q') /\ qinv (procs st) (bnodes st) (brefs st) (deaths st) Q' /\ deaths_stay (todo st) Q'.
Proof.
  intros HQ Hn Hp Hr. assert (Hstay : exists Q', Some st = Some (set_todo st Q') /\ qinv (procs st) (bnodes st) (brefs st) (deaths st) Q' /\ deaths_stay (todo st) Q') by (exists (todo st); by rewrite set_todo_id).
  unfold drop_node. destruct held; [done|]. destruct (n_proc nd) as [p|] eqn:Ep; [|by rewrite bool_decide_eq_false_2 by done]. destruct (has_strong_ref nd || has_weak_ref nd); [|by rewrite bool_decide_eq_false_2 by done].
  destruct (on_list st (WNode n)) eqn:Ho; [done|]. destruct (Hp p eq_refl) as [pr Hpr]. rewrite Hpr. simpl. destruct (qi_lists _ _ _ _ _ HQ p pr Hpr) as [_ Hls]. destruct (Hls (p_todo pr)) as [l Hl]; [unfold lists_of; set_solver|].
  rewrite (add_work_ok st _ l) by done. eexists. split; [done|]. split; [|by apply deaths_stay_add]. eapply qinv_add_node; try done; [intros q'; by apply on_list_false|by exists nd|set_solver].
Qed.

(** [drop_node] does not look at the references. *)
Lemma drop_brefs st m n nd held : drop_node (set_brefs st m) n nd held = (fun s => set_brefs s m) <$> drop_node st n nd held.
Proof.
  unfold drop_node. destruct held; [done|]. assert (Ho : forall w, on_list (set_brefs st m) w = on_list st w) by done. destruct (n_proc nd) as [p|]; [destruct (has_strong_ref nd || has_weak_ref nd)|].
  - rewrite Ho. destruct (on_list st (WNode n)); [done|]. simpl. destruct (procs st !! p) as [pr|]; [|done]. simpl. unfold add_work. simpl. destruct (todo st !! p_todo pr); [|done]. simpl. rewrite Ho. by destruct (on_list st (WNode n)).
  - destruct (_ && _); [|done]. simpl. destruct (procs st !! p) as [pr|]; [|done]. simpl. by destruct (rb_erase (p_nodes pr) n).
  - destruct (_ && _); [|done]. simpl. by destruct (bool_decide _).
Qed.

(** The state when the reference has left its trees and its node. *)
Lemma inv_unref st H r rf nd nd' pr t1 t2 Q' : inv st H None -> brefs st !! r = Some rf -> bnodes st !! r_node rf = Some nd -> procs st !! r_proc rf = Some pr ->
  (forall S, (forall y, S y <-> owned (brefs st) (r_proc rf) y /\ y <> r) -> keyed t2 (dkey (brefs st)) S) -> (forall S, (forall y, S y <-> owned (brefs st) (r_proc rf) y /\ y <> r) -> keyed t1 (rkey (brefs st)) S) ->
  nd' = with_counts (internal_strong_refs nd - unit_of (strong rf)) (local_weak_refs nd) (local_strong_refs nd) (with_n_refs (list_del r (n_refs nd)) nd) ->
  qinv (procs st) (bnodes st) (brefs st) (deaths st) Q' ->
  inv (set_brefs (set_todo (set_node (set_proc st (r_proc rf) (with_refs t2 t1 pr)) (r_node rf) nd') Q') (delete r (brefs st))) H (Some (r_node rf)).
Proof.
  intros [HT HL HH HQ] Hr Hn Hp H2 H1 -> HQ'. assert (Hsl : same_lists (procs st) (<[r_proc rf := with_refs t2 t1 pr]> (procs st))) by (by eapply same_lists_insert). split; simpl.
  - eapply tinv_node; [by eapply tinv_unref|done..].
  - eapply linv_unref; done.
  - eapply hinv_procs; [|intros q; by apply same_lists_dom]. eapply hinv_same; try done. by right.
  - eapply qinv_procs; [|exact Hsl]. apply qinv_unref. eapply qinv_node; done.
Qed.

Lemma drop_node_brefs st n nd held st' : drop_node st n nd held = Some st' -> brefs st' = brefs st /\ deaths st' = deaths st.
Proof.
  unfold drop_node, add_work. destruct held; [by intros [= <-]|]. destruct (n_proc nd) as [p|]; [destruct (has_strong_ref nd || has_weak_ref nd)|].
  - destruct (on_list st (WNode n)); [by intros [= <-]|]. destruct (procs st !! p) as [pr|]; [|done]. simpl. destruct (todo st !! p_todo pr); [|done]. simpl. by intros [= <-].
  - destruct (_ && _); [|by intros [= <-]]. simpl. destruct (procs st !! p) as [pr|]; [|done]. simpl. destruct (rb_erase (p_nodes pr) n); [|done]. simpl. by intros [= <-].
  - destruct (_ && _); [|by intros [= <-]]. simpl. destruct (bool_decide _); [|done]. by intros [= <-].
Qed.

(** What deleting a reference leaves alone. *)
Record unreffed (st st' : state) (r : rid) : Prop := {
  un_refs : brefs st' = delete r (brefs st);
  un_lists : same_lists (procs st) (procs st');
  un_mgr : binder_context_mgr_node st' = binder_context_mgr_node st;
  un_nodes : forall m md', bnodes st' !! m = Some md' -> exists md, bnodes st !! m = Some md /\ nident md' = nident md;
  un_deaths : forall d q, queued (todo st) (WDeath d) q -> (forall rf, brefs st !! r = Some rf -> death rf <> Some d) -> queued (todo st') (WDeath d) q /\ deaths st' !! d = deaths st !! d
}.

Lemma dec_count st n nd (s : bool) : bnodes st !! n = Some nd -> qinv (procs st) (bnodes st) (brefs st) (deaths st) (todo st) -> (forall p, n_proc nd = Some p -> is_Some (procs st !! p)) -> n_refs nd <> [] ->
  exists Q', (if s then binder_dec_node st n true true else Some st) = Some (set_todo (set_node st n (if s then add_internal (-1) nd else nd)) Q') /\ qinv (procs st) (bnodes st) (brefs st) (deaths st) Q' /\ deaths_stay (todo st) Q'.
Proof.
  intros Hn HQ Hp Hr. destruct s; [|exists (todo st); by rewrite set_node_id, set_todo_id]. unfold binder_dec_node. rewrite Hn. simpl.
  destruct (drop_refs (set_node st n (add_internal (-1) nd)) n (add_internal (-1) nd) (negb (bool_decide (local_strong_refs nd = 0)) || negb (bool_decide (s32 (internal_strong_refs nd + -1) = 0)))) as (Q' & E & HQ' & Hst).
  - simpl. by eapply qinv_node.
  - simpl. by rewrite lookup_insert_eq.
  - done.
  - done.
  - exists Q'. split; [exact E|]. split; [|done]. simpl in HQ'. rewrite <- (insert_id (bnodes st) n nd Hn), <- (insert_insert_eq (bnodes st) n nd (add_internal (-1) nd)). eapply qinv_node; [exact HQ'|by rewrite lookup_insert_eq|done].
Qed.

Lemma delete_ref_ok st H r rf : inv st H None -> brefs st !! r = Some rf ->
  exists st', binder_delete_ref st r = Some st' /\ inv st' H None /\ unreffed st st' r.
Proof.
  intros Hi Hr. pose proof Hi as [HT HL HH HQ]. destruct (ref_node _ _ _ _ _ Hi Hr) as (nd & Hn & Hin). destruct (qi_proc _ _ _ _ _ HQ _ _ Hr) as [pr Hp]. destruct (HT _ _ Hp) as (_ & T2 & T1).
  destruct (keyed_erase _ _ _ r T2) as (t2 & E2 & K2); [by exists rf|]. destruct (keyed_erase _ _ _ r T1) as (t1 & E1 & K1); [by exists rf|].
  unfold binder_delete_ref. rewrite Hr. simpl. rewrite Hp. simpl. rewrite E2. simpl. rewrite E1. simpl. set (st1 := set_proc st (r_proc rf) (with_refs t2 t1 pr)).
  assert (Hsl : same_lists (procs st) (<[r_proc rf := with_refs t2 t1 pr]> (procs st))) by (by eapply same_lists_insert).
  assert (Hpn : forall p, n_proc nd = Some p -> is_Some (procs st !! p)) by (intros p Ep; pose proof (hi_node _ _ _ _ _ _ HH _ _ Hn) as Ha; rewrite Ep in Ha; exact (al_proc _ _ _ _ _ _ Ha)).
  destruct (dec_count st1 (r_node rf) nd (negb (bool_decide (strong rf = 0)))) as (Q' & Ed & HQ' & Hst1); [done|by eapply qinv_procs|intros p Ep; simpl; eapply same_lists_dom; [exact Hsl|by apply Hpn]|intros E; rewrite E in Hin; by apply elem_of_nil in Hin|].
  assert (Ed' : (if bool_decide (strong rf = 0) then Some st1 else binder_dec_node st1 (r_node rf) true true) = Some (set_todo (set_node st1 (r_node rf) (if negb (bool_decide (strong rf = 0)) then add_internal (-1) nd else nd)) Q')) by (rewrite <- Ed; by destruct (bool_decide (strong rf = 0))).
  rewrite Ed'. simpl. rewrite lookup_insert_eq. simpl. set (nd1 := if negb (bool_decide (strong rf = 0)) then add_internal (-1) nd else nd).
  set (nd2 := with_counts (internal_strong_refs nd - unit_of (strong rf)) (local_weak_refs nd) (local_strong_refs nd) (with_n_refs (list_del r (n_refs nd)) nd)).
  assert (Hnd2 : with_n_refs (list_del r (n_refs nd1)) nd1 = nd2).
  { unfold nd1, nd2, unit_of. destruct (bool_decide (strong rf = 0)) eqn:Hz; simpl; [rewrite Z.sub_0_r; by destruct nd|]. unfold add_internal. rewrite s32_dec; [done|apply (li_count _ _ HL _ _ Hn)|]. rewrite (proj1 (li_count _ _ HL _ _ Hn)).
    apply (strong_count_pos _ _ r Hin). unfold is_strong. by rewrite Hr, Hz. }
  assert (Hqp : qinv (procs st) (bnodes st) (brefs st) (deaths st) Q') by (eapply qinv_procs; [exact HQ'|]; intros q; by rewrite Hsl).
  pose proof (inv_unref st H r rf nd nd2 pr t1 t2 Q' Hi Hr Hn Hp K2 K1 eq_refl Hqp) as Hu. fold st1 in Hu.
  set (st3 := set_todo (set_node st1 (r_node rf) nd2) Q') in *. assert (Es3 : set_node (set_todo (set_node st1 (r_node rf) nd1) Q') (r_node rf) (with_n_refs (list_del r (n_refs nd1)) nd1) = st3).
  { rewrite Hnd2. unfold st3, set_node, set_bnodes, set_todo. simpl. by rewrite insert_insert_eq. }
  rewrite Es3. unfold binder_dec_node. assert (Hn3 : bnodes st3 !! r_node rf = Some nd2) by (simpl; by rewrite lookup_insert_eq). rewrite Hn3. simpl. rewrite (set_node_id st3) by done.
  set (held := negb (bool_decide (local_weak_refs nd = 0)) || negb (bool_decide (list_del r (n_refs nd) = []))).
  destruct (drop_node_ok (set_brefs st3 (delete r (brefs st))) H (Some (r_node rf)) (r_node rf) nd2 held Hu) as (S' & Edrop & HS' & [k1 k2 k3 k4 k5 k6] & _); [by right|done| |].
  { intros _ Hd Hrf. unfold held. simpl in Hrf. rewrite Hrf. pose proof (hi_node _ _ _ _ _ _ (iv_h _ _ _ Hu) (r_node rf) nd2 Hn3) as Hx. simpl in Hx. simpl in Hd. rewrite Hd in Hx. destruct Hx as [_ Hw _ _]. simpl in Hw. by rewrite (bool_decide_eq_true_2 (local_weak_refs nd = 0)). }
  rewrite drop_brefs in Edrop. destruct (drop_node st3 (r_node rf) nd2 held) as [st4|] eqn:E4; [|done]. simpl in Edrop. injection Edrop as <-. simpl in k1, k2, k3, k4, k5, k6, HS'.
  assert (Eb4 : brefs st4 = brefs st).
  { destruct (drop_node_brefs st3 (r_node rf) nd2 held st4 E4) as [-> _]. done. }
  assert (Hun : unreffed st (set_brefs st4 (delete r (brefs st))) r).
  { split; simpl; [done|intros q; rewrite k4; by apply Hsl|done| |intros e q Hq _; split; [by apply k6, Hst1|by rewrite k2]]. intros m md' Hm. destruct (k5 m md' Hm) as (md & Hmd & E). rewrite lookup_insert in Hmd. case_decide; [subst m; injection Hmd as <-; by exists nd|by exists md]. }
  destruct (death rf) as [d|] eqn:Hd.
  - destruct (qi_ref _ _ _ _ _ HQ r rf d Hr Hd) as (dt & Hdt & _). unfold free_death, del_work. simpl. assert (Ed4 : deaths st4 = deaths st) by (by rewrite (proj2 (drop_node_brefs st3 (r_node rf) nd2 held st4 E4))).
    assert (Edd : deaths st4 !! d = Some dt) by (by rewrite Ed4). rewrite Edd. simpl. eexists. split; [done|]. rewrite Eb4. destruct HS' as [S1 S2 S3 S4]. 
    split; [|destruct Hun as [u1 u2 u3 u4 u5]; split; try done; simpl; intros e q Hq He; assert (e <> d) by (intros ->; by apply (He rf Hr)); destruct (u5 e q Hq He) as [Hq' He']; split; [apply queued_del; split; [done|congruence]|by rewrite lookup_delete_ne]]. split; try done. simpl. simpl in S4.
    apply qinv_undeath; [by apply qinv_del| |intros q [_ ?]%queued_del; done]. intros x xf [Hne Hx]%lookup_delete_Some Hxd. apply Hne. symmetry. by eapply (qi_inj _ _ _ _ _ HQ x r).
  - simpl. eexists. split; [done|]. rewrite Eb4. done.
Qed.

End BinderRefLink.

(** * The binder's nodes and references: looking up, making and dropping *)

Local Open Scope Z_scope.
Local Open Scope kernel_scope.

Module BinderRefGet.
Import Rbtree RbtreeSeq RbtreeKey BinderRef BinderRefInv BinderRefOps BinderRefLink.

(** ** A count of a reference goes down *)

Definition lessened (s : bool) (rf : binder_ref) : binder_ref := if s then with_strong (strong rf - 1) rf else with_weak (weak rf - 1) rf.

(** The reference has one less of a kind, and goes with its last. *)
Lemma dec_ref_ok st H r rf s : inv st H None -> brefs st !! r = Some rf ->
  exists st' ret, binder_dec_ref st r s = Some (st', ret) /\ inv st' H None /\
    (((if s then strong rf else weak rf) = 0 /\ ret = - EINVAL /\ st' = st) \/
     (0 < (if s then strong rf else weak rf) /\ ret = 0 /\
      ((strong (lessened s rf) <> 0 \/ weak (lessened s rf) <> 0) /\ idents st st' /\ brefs st' = <[r := lessened s rf]> (brefs st) \/
       strong (lessened s rf) = 0 /\ weak (lessened s rf) = 0 /\ unreffed st st' r))).
Proof.
  intros Hi Hr. pose proof Hi as [HT HL HH HQ]. destruct (ref_node _ _ _ _ _ Hi Hr) as (nd & Hn & Hin). destruct (li_ref _ _ HL r rf Hr) as (_ & Bs & Bw & _). destruct (li_count _ _ HL _ _ Hn) as [Ec Bi].
  unfold binder_dec_ref. rewrite Hr. simpl. destruct (bool_decide ((if s then strong rf else weak rf) = 0)) eqn:Hz.
  { apply bool_decide_eq_true in Hz. exists st, (- EINVAL). split; [done|]. split; [done|]. by left. }
  apply bool_decide_eq_false in Hz. assert (Hpos : 0 < (if s then strong rf else weak rf)) by (destruct s; unfold int31 in *; lia).
  assert (Hip : s = true -> 0 < internal_strong_refs nd) by (intros ->; rewrite Ec; apply (strong_count_pos _ _ r Hin); unfold is_strong; rewrite Hr; by rewrite bool_decide_eq_false_2).
  assert (El : (if s then with_strong (s32 (strong rf - 1)) rf else with_weak (s32 (weak rf - 1)) rf) = lessened s rf) by (unfold lessened; destruct s; rewrite s32_small by (unfold int31, two31 in *; lia); done).
  rewrite El. set (rf' := lessened s rf). assert (Hid : rident rf' = rident rf) by (unfold rf', lessened; by destruct s). assert (En : r_node rf' = r_node rf) by (unfold rf', lessened; by destruct s).
  assert (Bs' : int31 (strong rf')) by (unfold rf', lessened; destruct s; simpl; unfold int31 in *; lia). assert (Bw' : int31 (weak rf')) by (unfold rf', lessened; destruct s; simpl; unfold int31 in *; lia).
  assert (Hpn : forall p, n_proc nd = Some p -> is_Some (procs st !! p)) by (intros p Ep; pose proof (hi_node _ _ _ _ _ _ HH _ _ Hn) as Ha; rewrite Ep in Ha; exact (al_proc _ _ _ _ _ _ Ha)).
  assert (Hq1 : qinv (procs st) (bnodes st) (<[r := rf']> (brefs st)) (deaths st) (todo st)) by (unfold rident in Hid; injection Hid as I1 I2 I3 I4; by eapply qinv_ref).
  destruct (dec_count (set_ref st r rf') (r_node rf) nd (s && bool_decide (strong rf' = 0)) Hn Hq1 Hpn) as (Q' & E & HQ' & Hst1); [intros E; rewrite E in Hin; by apply elem_of_nil in Hin|].
  rewrite En, E. simpl. set (st1 := set_todo _ Q').
  assert (Hi1 : inv st1 H None /\ idents st st1).
  { set (nd' := if s && bool_decide (strong rf' = 0) then add_internal (-1) nd else nd) in *.
    assert (Est : st1 = set_ref (set_todo (set_node st (r_node rf) nd') Q') r rf') by done. rewrite Est. clear Est.
    assert (Eu : nd' = with_counts (internal_strong_refs nd + unit_of (strong rf') - unit_of (strong rf)) (local_weak_refs nd) (local_strong_refs nd) nd).
    { unfold nd'. assert (Hsw : s = false -> strong rf' = strong rf) by (by intros ->). clearbody rf'. destruct s; simpl in *.
      - rewrite (unit_pos (strong rf)) by done. destruct (bool_decide (strong rf' = 0)) eqn:Hs'.
        + apply bool_decide_eq_true in Hs'. unfold unit_of. rewrite bool_decide_eq_true_2 by done. unfold add_internal. rewrite s32_dec by (done || by apply Hip). by rewrite Z.add_0_r.
        + apply bool_decide_eq_false in Hs'. rewrite unit_pos by (unfold int31 in *; lia). rewrite Z.add_simpl_r. by rewrite with_counts_id.
      - rewrite Hsw, Z.add_simpl_r by done. by rewrite with_counts_id. }
    split.
    - apply (inv_counts st H r rf rf' nd nd'); try done.
      + unfold nd'. clearbody rf'. destruct s; simpl; [|done]. destruct (bool_decide (strong rf' = 0)); simpl; [|exact Bi]. specialize (Hip eq_refl). rewrite s32_dec by done. unfold int31 in *. lia.
      + rewrite <- (insert_id (brefs st) r rf Hr), <- (insert_insert_eq (brefs st) r rf rf'). unfold rident in Hid; injection Hid as I1 I2 I3 I4. eapply qinv_ref; [exact HQ'|simpl; by rewrite lookup_insert_eq|done..].
    - eapply idents_counts; try done. rewrite Eu. done. }
  destruct Hi1 as [Hi1 Hid1]. destruct (bool_decide (strong rf' = 0) && bool_decide (weak rf' = 0)) eqn:Hb.
  - apply andb_true_iff in Hb as [Hs0%bool_decide_eq_true Hw0%bool_decide_eq_true]. destruct (delete_ref_ok st1 H r rf' Hi1) as (st2 & E2 & Hi2 & [u1 u2 u3 u4 u5]); [simpl; by rewrite lookup_insert_eq|]. rewrite E2. simpl. exists st2, 0. split; [done|]. split; [done|]. right. split; [done|]. split; [done|]. right. split; [done|]. split; [done|].
    split; [rewrite u1; simpl; by rewrite delete_insert_eq|done|done| |].
    2: { intros e q Hq He. apply u5; [simpl; by apply Hst1|]. intros x. simpl. rewrite lookup_insert_eq. intros [= <-]. unfold rident in Hid. injection Hid as _ _ _ ->. by apply He. }
    intros m md' Hm. destruct (u4 m md' Hm) as (y & Hy & E3). pose proof (id_nodes _ _ Hid1 m) as Hx. rewrite Hy in Hx. destruct (bnodes st !! m) as [md|]; [|done]. exists md. split; [done|]. simpl in Hx. congruence.
  - exists st1, 0. split; [done|]. split; [done|]. right. split; [done|]. split; [done|]. left. split; [|done]. apply andb_false_iff in Hb as [Hb%bool_decide_eq_false|Hb%bool_decide_eq_false]; [by left|by right].
Qed.

(** ** Looking up *)

Lemma get_node_ok st H u p pr ptr : inv st H u -> procs st !! p = Some pr ->
  exists o, binder_get_node st p ptr = Some o /\
    match o with Some n => exists nd, bnodes st !! n = Some nd /\ n_proc nd = Some p /\ n_ptr nd = ptr | None => forall n nd, bnodes st !! n = Some nd -> n_proc nd = Some p -> n_ptr nd <> ptr end.
Proof.
  intros Hi Hp. destruct (iv_t _ _ _ Hi p pr Hp) as (T1 & _). unfold binder_get_node. rewrite Hp. simpl.
  destruct (keyed_search _ _ _ (ptr_cmp st ptr) ptr T1) as (pl & E & Hpl); [intros x (nd & Hx & _); unfold ptr_cmp, nkey; by rewrite Hx|]. rewrite E. simpl. eexists. split; [done|]. destruct pl as [n|q d].
  - destruct Hpl as [(nd & Hn & Hnp) Hk]. exists nd. unfold nkey in Hk. by rewrite Hn in Hk.
  - destruct Hpl as [Hno _]. intros n nd Hn Hnp. specialize (Hno n ltac:(by exists nd)). unfold nkey in Hno. by rewrite Hn in Hno.
Qed.

Lemma get_ref_ok st H u p pr d : inv st H u -> procs st !! p = Some pr ->
  exists o, binder_get_ref st p d = Some o /\
    match o with Some r => exists rf, brefs st !! r = Some rf /\ r_proc rf = p /\ desc rf = d | None => forall r rf, brefs st !! r = Some rf -> r_proc rf = p -> desc rf <> d end.
Proof.
  intros Hi Hp. destruct (iv_t _ _ _ Hi p pr Hp) as (_ & T2 & _). unfold binder_get_ref. rewrite Hp. simpl.
  destruct (keyed_search _ _ _ (desc_cmp st d) d T2) as (pl & E & Hpl); [intros x (rf & Hx & _); unfold desc_cmp, dkey; by rewrite Hx|]. rewrite E. simpl. eexists. split; [done|]. destruct pl as [r|q x].
  - destruct Hpl as [(rf & Hr & Hrp) Hk]. exists rf. unfold dkey in Hk. by rewrite Hr in Hk.
  - destruct Hpl as [Hno _]. intros r rf Hr Hrp. specialize (Hno r ltac:(by exists rf)). unfold dkey in Hno. by rewrite Hr in Hno.
Qed.

(** ** New nodes *)

Definition new_bnode (p : pid) (ptr cookie : Z) : binder_node := mk_bnode (Some p) [] 0 0 0 ptr cookie false false false false.

Lemma new_node_ok st H p pr ptr cookie mem : inv st H None -> procs st !! p = Some pr -> (forall n, mem = Some n -> bnodes st !! n = None) ->
  exists st' o, binder_new_node st p ptr cookie mem = Some (st', o) /\ inv st' H None /\
    match o with
    | None => st' = st /\ (mem = None \/ exists n nd, bnodes st !! n = Some nd /\ n_proc nd = Some p /\ n_ptr nd = ptr)
    | Some n => mem = Some n /\ (forall n nd, bnodes st !! n = Some nd -> n_proc nd = Some p -> n_ptr nd <> ptr) /\
        exists t, st' = set_node (set_proc st p (with_nodes t pr)) n (new_bnode p ptr cookie)
    end.
Proof.
  intros Hi Hp Hm. pose proof Hi as [HT HL HH HQ]. destruct (HT p pr Hp) as (T1 & T2 & T3). unfold binder_new_node. rewrite Hp. simpl.
  destruct (keyed_search _ _ _ (ptr_cmp st ptr) ptr T1) as (pl & E & Hpl); [intros x (nd & Hx & _); unfold ptr_cmp, nkey; by rewrite Hx|]. rewrite E. simpl.
  destruct pl as [n|parent d]; [exists st, None; split; [by destruct mem|]; split; [done|]; split; [done|]; right; destruct Hpl as [(nd & Hn & Hnp) Hk]; exists n, nd; unfold nkey in Hk; by rewrite Hn in Hk|]. destruct mem as [n|]; [|exists st, None; split; [done|]; split; [done|]; split; [done|by left]]. specialize (Hm n eq_refl). destruct Hpl as (Hno & _ & Hins).
  assert (Hnew : forall q x, mine (<[n := new_bnode p ptr cookie]> (bnodes st)) q x <-> mine (bnodes st) q x \/ (x = n /\ Some p = Some q)) by (intros q x; by rewrite mine_new).
  destruct (Hins n (nkey (<[n := new_bnode p ptr cookie]> (bnodes st))) (mine (<[n := new_bnode p ptr cookie]> (bnodes st)) p)) as (t1 & t2 & E1 & E2 & Hk).
  - intros (nd & Hn & _). congruence.
  - unfold nkey. by rewrite lookup_insert_eq.
  - intros x (nd & Hx & _). unfold nkey. rewrite lookup_insert_ne; [done|]. intros <-. congruence.
  - intros x. rewrite Hnew. split; intros [?|?]; [by left|right; tauto|by left|right; tauto].
  - rewrite E1. simpl. rewrite E2. simpl. eexists _, (Some n). split; [done|]. assert (Hsl : same_lists (procs st) (<[p := with_nodes t2 pr]> (procs st))) by (by eapply same_lists_insert). split.
    + split; simpl.
      * by eapply tinv_newnode.
      * by eapply linv_newnode.
      * eapply hinv_procs; [|intros q; by apply same_lists_dom]. eapply hinv_newnode; [done|done|done|]. intros Hh Hmg. split; simpl; rewrite ?Hh, ?bool_decide_eq_false_2 by done; done.
      * eapply qinv_procs; [|exact Hsl]. by apply qinv_newnode.
    + split; [done|]. split; [|by exists t2]. intros m md Hmd Hmp. specialize (Hno m ltac:(by exists md)). unfold nkey in Hno. by rewrite Hmd in Hno.
Qed.

(** ** New references *)

(** The least descriptor from [s] on that is not in use. *)
Definition least_free (R : gmap rid binder_ref) (p : pid) (s d : Z) : Prop :=
  s <= d /\ (forall r rf, R !! r = Some rf -> r_proc rf = p -> desc rf <> d) /\ forall k, s <= k < d -> exists r rf, R !! r = Some rf /\ r_proc rf = p /\ desc rf = k.

Lemma desc_loop_ok st t : forall (l l1 : list rid) fuel d, seq t (l1 ++ l) -> (forall x, x ∈ l -> is_Some (brefs st !! x)) -> StronglySorted (fun x y => dkey (brefs st) x < dkey (brefs st) y) l ->
  (forall x, x ∈ l -> 0 <= dkey (brefs st) x /\ d - 1 <= dkey (brefs st) x) -> 0 <= d -> d + Z.of_nat (length l) < two32 -> (length l <= fuel)%nat ->
  exists d', desc_loop fuel st t (head l) d = Some d' /\ d <= d' <= d + Z.of_nat (length l) /\ (forall x, x ∈ l -> dkey (brefs st) x <> d') /\ forall k, d <= k < d' -> exists x, x ∈ l /\ dkey (brefs st) x = k.
Proof.
  induction l as [|x l IH]; intros l1 fuel d Hseq Hin Hs Hlo Hd Hw Hf.
  { exists d. split; [by destruct fuel|]. split; [lia|]. split; [intros x ?%elem_of_nil; done|]. lia. }
  destruct fuel as [|fuel]; [simpl in Hf; lia|]. destruct (Hin x) as [rf Hx]; [set_solver|]. assert (Ek : dkey (brefs st) x = desc rf) by (unfold dkey; by rewrite Hx).
  destruct (Hlo x) as [Hx0 Hx1]; [set_solver|]. rewrite Ek in Hx0, Hx1. inversion Hs as [|? ? Hs' Hall]; subst. rewrite Forall_forall in Hall. setoid_rewrite Ek in Hall. rewrite length_cons in *. simpl. rewrite Hx. simpl. case_bd.
  - exists d. split; [done|]. split; [lia|]. split; [|lia]. intros y [->|Hy]%elem_of_cons; [lia|]. specialize (Hall y Hy). lia.
  - rewrite (seq_next _ _ _ _ Hseq). simpl. assert (Eu : desc rf +u 1 = desc rf + 1) by (apply u32_small; lia). rewrite Eu.
    destruct (IH (l1 ++ [x]) fuel (desc rf + 1)) as (d' & E & Hr & Hno & Hall'); [by rewrite <- app_assoc|intros y Hy; apply Hin; set_solver|done|intros y Hy; specialize (Hall y Hy); lia|lia|lia|lia|].
    exists d'. split; [done|]. split; [lia|]. split.
    + intros y [->|Hy]%elem_of_cons; [lia|by apply Hno].
    + intros k Hk. destruct (decide (k < desc rf + 1)); [exists x; split; [set_solver|lia]|]. destruct (Hall' k) as (y & Hy & Hyk); [lia|]. exists y. split; [set_solver|done].
Qed.

Definition new_ref (p : pid) (n : nid) (d : Z) : binder_ref := mk_ref p n d 0 0 None.

(** The first descriptor a new reference may have. *)
Definition first_desc (st : state) (n : nid) : Z := if is_mgr st n then 0 else 1.

Lemma first_desc_ok st H u p pr n : inv st H u -> procs st !! p = Some pr -> Z.of_nat (size (brefs st)) < two32 - 1 ->
  exists f d, rb_first (refs_by_desc pr) = Some f /\ desc_loop (size (nodes (refs_by_desc pr))) st (refs_by_desc pr) f (first_desc st n) = Some d /\ d < two32 /\ least_free (brefs st) p (first_desc st n) d.
Proof.
  intros Hi Hp Hsz. destruct (iv_t _ _ _ Hi p pr Hp) as (_ & (l & Hseq & Hs & Hl) & _). exists (head l).
  assert (Hex : forall x : rid, x ∈ l -> exists rf, brefs st !! x = Some rf /\ r_proc rf = p) by (intros x Hx; by apply Hl).
  assert (Hlen : (length l <= size (brefs st))%nat).
  { rewrite <- size_dom, <- (size_list_to_set (C := gset rid) l) by (by eapply seq_nodup). apply subseteq_size. intros x Hx%elem_of_list_to_set. destruct (Hex x Hx) as (rf & Hr & _). by apply elem_of_dom_2 in Hr. }
  assert (Hf : 0 <= first_desc st n <= 1) by (unfold first_desc; destruct (is_mgr st n); lia).
  destruct (desc_loop_ok st (refs_by_desc pr) l [] (size (nodes (refs_by_desc pr))) (first_desc st n)) as (d & E & Hr & Hno & Hall); try done.
  - intros x Hx. destruct (Hex x Hx) as (rf & Hxr & _). by exists rf.
  - intros x Hx. destruct (Hex x Hx) as (rf & Hxr & _). unfold dkey. rewrite Hxr. destruct (li_ref _ _ (iv_l _ _ _ Hi) x rf Hxr) as (_ & _ & _ & Hb). lia.
  - lia.
  - lia.
  - by apply seq_size.
  - exists d. split; [by apply seq_first|]. split; [done|]. split; [lia|]. split; [lia|]. split.
    + intros r rf Hr' Hrp Hd. apply (Hno r); [apply Hl; by exists rf|]. unfold dkey. by rewrite Hr'.
    + intros k Hk. destruct (Hall k Hk) as (x & Hx & Hxk). destruct (Hex x Hx) as (rf & Hxr & Hxp). exists x, rf. unfold dkey in Hxk. by rewrite Hxr in Hxk.
Qed.

(** The trees with the new reference. *)
Lemma new_ref_trees st H u p pr n r d mp : inv st H u -> procs st !! p = Some pr -> brefs st !! r = None ->
  (forall x rf, brefs st !! x = Some rf -> r_proc rf = p -> r_node rf <> n) -> least_free (brefs st) p (first_desc st n) d ->
  rb_search (node_cmp st n) (refs_by_node pr) = Some mp -> match mp with Found _ => False | Empty _ _ => True end ->
  exists mp', rb_search (desc_cmp st d) (refs_by_desc pr) = Some mp' /\
    match mp, mp' with
    | Empty q1 d1, Empty q2 d2 => exists t1 t1' t2 t2', rb_link_node (refs_by_node pr) r q1 d1 = Some t1 /\ rb_insert_color t1 r = Some t1' /\
        rb_link_node (refs_by_desc pr) r (match q2 with Some x => Some x | None => q1 end) d2 = Some t2 /\ rb_insert_color t2 r = Some t2' /\
        keyed t2' (dkey (<[r := new_ref p n d]> (brefs st))) (owned (<[r := new_ref p n d]> (brefs st)) p) /\ keyed t1' (rkey (<[r := new_ref p n d]> (brefs st))) (owned (<[r := new_ref p n d]> (brefs st)) p)
    | _, _ => False
    end.
Proof.
  intros Hi Hp Hr Hnon (_ & Hfree & _) E1 Hm. destruct (iv_t _ _ _ Hi p pr Hp) as (_ & T2 & T1).
  destruct (keyed_search _ _ _ (node_cmp st n) (Z.of_nat n) T1) as (pl1 & E1' & H1); [intros x (rf & Hx & _); unfold node_cmp, rkey; by rewrite Hx|]. rewrite E1 in E1'. injection E1' as <-.
  destruct (keyed_search _ _ _ (desc_cmp st d) d T2) as (pl2 & E2 & H2); [intros x (rf & Hx & _); unfold desc_cmp, dkey; by rewrite Hx|]. exists pl2. split; [done|].
  destruct mp as [|q1 d1]; [done|]. destruct pl2 as [x|q2 d2]; [destruct H2 as [(rf & Hx & Hxp) Hk]; unfold dkey in Hk; rewrite Hx in Hk; by apply (Hfree x rf)|].
  destruct H1 as (_ & Hq1 & I1). destruct H2 as (_ & Hq2 & I2). assert (Hnr : ~ owned (brefs st) p r) by (intros (rf & Hx & _); congruence).
  assert (Hown : forall x, owned (<[r := new_ref p n d]> (brefs st)) p x <-> owned (brefs st) p x \/ x = r) by (intros x; rewrite owned_new by done; simpl; tauto).
  assert (Hne : forall x, owned (brefs st) p x -> x <> r) by (intros x Hx ->; done).
  destruct (I1 r (rkey (<[r := new_ref p n d]> (brefs st))) (owned (<[r := new_ref p n d]> (brefs st)) p)) as (t1 & t1' & L1 & C1 & K1); [done|unfold rkey; by rewrite lookup_insert_eq|intros x Hx%Hne; unfold rkey; by rewrite lookup_insert_ne|done|].
  destruct (I2 r (dkey (<[r := new_ref p n d]> (brefs st))) (owned (<[r := new_ref p n d]> (brefs st)) p)) as (t2 & t2' & L2 & C2 & K2); [done|unfold dkey; by rewrite lookup_insert_eq|intros x Hx%Hne; unfold dkey; by rewrite lookup_insert_ne|done|].
  assert (Eq : match q2 with Some x => Some x | None => q1 end = q2).
  { destruct q2; [done|]. apply Hq1. apply (keyed_root _ _ _ T1). apply (keyed_root _ _ _ T2). by apply Hq2. }
  exists t1, t1', t2, t2'. by rewrite Eq.
Qed.

(** A process has one reference to a node at most. *)
Lemma get_ref_for_node_ok st H p pr n nd mem : inv st H None -> procs st !! p = Some pr -> bnodes st !! n = Some nd -> (forall r, mem = Some r -> brefs st !! r = None) -> Z.of_nat (size (brefs st)) < two32 - 1 ->
  exists st' o, binder_get_ref_for_node st p n mem = Some (st', o) /\ inv st' H None /\
    ((exists r rf, o = Some r /\ st' = st /\ brefs st !! r = Some rf /\ r_proc rf = p /\ r_node rf = n) \/
     ((forall r rf, brefs st !! r = Some rf -> r_proc rf = p -> r_node rf <> n) /\ mem = None /\ o = None /\ st' = st) \/
     ((forall r rf, brefs st !! r = Some rf -> r_proc rf = p -> r_node rf <> n) /\ exists r d t1 t2, mem = Some r /\ o = Some r /\ least_free (brefs st) p (first_desc st n) d /\ 
      st' = set_node (set_ref (set_proc st p (with_refs t2 t1 pr)) r (new_ref p n d)) n (with_n_refs (r :: n_refs nd) nd))).
Proof.
  intros Hi Hp Hn Hm Hsz. pose proof Hi as [HT HL HH HQ]. destruct (HT p pr Hp) as (_ & T2 & T1). unfold binder_get_ref_for_node. rewrite Hp. simpl.
  destruct (keyed_search _ _ _ (node_cmp st n) (Z.of_nat n) T1) as (pl & E & Hpl); [intros x (rf & Hx & _); unfold node_cmp, rkey; by rewrite Hx|]. rewrite E. simpl.
  destruct pl as [r|q1 d1]; [exists st, (Some r); split; [by destruct mem|]; split; [done|]; left; destruct Hpl as [(rf & Hr & Hrp) Hk]; exists r, rf; unfold rkey in Hk; rewrite Hr in Hk; by apply Nat2Z.inj in Hk|].
  assert (Hnon : forall x rf, brefs st !! x = Some rf -> r_proc rf = p -> r_node rf <> n).
  { destruct Hpl as [Hno _]. intros x rf Hx Hxp Hk. apply (Hno x); [by exists rf|]. unfold rkey. by rewrite Hx, Hk. }
  destruct mem as [r|]; [|exists st, None; split; [done|]; split; [done|]; right; by left]. specialize (Hm r eq_refl).
  destruct (first_desc_ok st H None p pr n Hi Hp Hsz) as (f & d & Ef & Ed & Hd & Hlf). destruct (new_ref_trees st H None p pr n r d _ Hi Hp Hm Hnon Hlf E I) as (mp' & E' & Htr).
  destruct mp' as [x|q2 d2]; [done|]. destruct Htr as (t1 & t1' & t2 & t2' & L1 & C1 & L2 & C2 & K2 & K1). rewrite L1. simpl. rewrite C1. simpl. rewrite Ef. simpl. unfold first_desc in Ed. rewrite Ed. simpl. rewrite E'. simpl. rewrite L2. simpl. rewrite C2. simpl. rewrite Hn. simpl.
  eexists _, (Some r). split; [done|]. assert (Hsl : same_lists (procs st) (<[p := with_refs t2' t1' pr]> (procs st))) by (by eapply same_lists_insert). fold (new_ref p n d). split; [split; simpl|right; right; split; [done|]; by exists r, d, t1', t2'].
  - eapply tinv_node; [eapply (tinv_newref _ _ _ r (new_ref p n d)); done|done..].
  - eapply linv_newref; try done. simpl. destruct Hlf as [Hlo _]. unfold first_desc in Hlo. destruct (is_mgr st n); lia.
  - eapply hinv_procs; [|intros q; by apply same_lists_dom]. eapply hinv_same; try done. by left.
  - eapply qinv_procs; [|exact Hsl]. eapply qinv_newref; [by eapply qinv_node|done|done|by exists pr].
Qed.

End BinderRefGet.
