(* ===== verification/BinderRefCmd.v ===== *)
(** * The binder's nodes and references: the commands of a process *)

From Stdlib Require Import ZArith Lia.
From stdpp Require Import base option gmap sorting list.
From S2P Require Import Prelude Rbtree RbtreeWalk BinderRef BinderRefInv BinderRefLink.

Local Open Scope Z_scope.
Local Open Scope kernel_scope.

Module BinderRefCmd.
Import Rbtree RbtreeKey BinderRef BinderRefInv BinderRefOps BinderRefLink BinderRefGet.

(** ** What stays *)

Definition whose (rf : binder_ref) : pid * nid * Z := (r_proc rf, r_node rf, desc rf).
Definition what (nd : binder_node) : Z * Z := (n_ptr nd, n_cookie nd).

(** The references of all processes but [o] stay, and nodes keep their objects. *)
Record frame (o : option pid) (st st' : state) : Prop := {
  fr_refs : forall r rf, brefs st !! r = Some rf -> o <> Some (r_proc rf) -> exists rf', brefs st' !! r = Some rf' /\ whose rf' = whose rf;
  fr_nodes : forall n nd nd', bnodes st !! n = Some nd -> bnodes st' !! n = Some nd' -> what nd' = what nd
}.

(** Nothing goes. *)
Record grows (st st' : state) : Prop := {
  gr_refs : forall r rf, brefs st !! r = Some rf -> exists rf', brefs st' !! r = Some rf' /\ whose rf' = whose rf;
  gr_nodes : forall n nd, bnodes st !! n = Some nd -> exists nd', bnodes st' !! n = Some nd' /\ nident nd' = nident nd
}.

Lemma grows_refl st : grows st st.
Proof. split; eauto. Qed.

Lemma grows_trans st1 st2 st3 : grows st1 st2 -> grows st2 st3 -> grows st1 st3.
Proof.
  intros [A1 A2] [B1 B2]. split.
  - intros r rf H1. destruct (A1 r rf H1) as (x & H2 & E2). destruct (B1 r x H2) as (y & H3 & E3). exists y. split; [done|congruence].
  - intros n nd H1. destruct (A2 n nd H1) as (x & H2 & E2). destruct (B2 n x H2) as (y & H3 & E3). exists y. split; [done|congruence].
Qed.

Lemma frame_grows o st st' : grows st st' -> frame o st st'.
Proof. intros [A1 A2]. split; [intros r rf Hr _; by apply A1|]. intros n nd nd' Hn Hn'. destruct (A2 n nd Hn) as (x & Hx & E). unfold nident, what in *. congruence. Qed.

Lemma fr_refl o st : frame o st st.
Proof. apply frame_grows, grows_refl. Qed.

Lemma frame_kept o st st' : kept st st' -> frame o st st'.
Proof.
  intros [k1 k2 k3 k4 k5 k6]. split; [rewrite k1; eauto|]. intros n nd nd' Hn Hn'. destruct (k5 n nd' Hn') as (x & Hx & E). unfold nident, what in *. congruence.
Qed.

Lemma grows_idents st st' : idents st st' -> grows st st'.
Proof.
  intros [i1 i2 i3 i4 i5]. split.
  - intros r rf Hr. specialize (i3 r). rewrite Hr in i3. destruct (brefs st' !! r) as [x|]; [|done]. exists x. split; [done|]. simpl in i3. unfold rident, whose in *. congruence.
  - intros n nd Hn. specialize (i2 n). rewrite Hn in i2. destruct (bnodes st' !! n) as [x|]; [|done]. exists x. split; [done|]. simpl in i2. congruence.
Qed.

Lemma frame_unreffed st st' r rf : unreffed st st' r -> brefs st !! r = Some rf -> frame (Some (r_proc rf)) st st'.
Proof.
  intros [u1 u2 u3 u4 u5] Hr. split.
  - intros x xf Hx Hp. exists xf. rewrite u1, lookup_delete_ne; [done|]. intros <-. congruence.
  - intros n nd nd' Hn Hn'. destruct (u4 n nd' Hn') as (x & Hx & E). unfold nident, what in *. congruence.
Qed.

Lemma grows_new_ref st p pr n nd r d t1 t2 : bnodes st !! n = Some nd -> brefs st !! r = None ->
  grows st (set_node (set_ref (set_proc st p (with_refs t2 t1 pr)) r (new_ref p n d)) n (with_n_refs (r :: n_refs nd) nd)).
Proof.
  intros Hn Hr. split; simpl.
  - intros x xf Hx. exists xf. rewrite lookup_insert_ne; [done|]. congruence.
  - intros m md Hm. rewrite lookup_insert. case_decide; [subst; eexists; split; [done|]; unfold nident; simpl; congruence|eauto].
Qed.

Lemma room_new_ref st p pr n nd r d t1 t2 : bnodes st !! n = Some nd -> room st ->
  room (set_node (set_ref (set_proc st p (with_refs t2 t1 pr)) r (new_ref p n d)) n (with_n_refs (r :: n_refs nd) nd)).
Proof.
  intros Hn [R1 R2]. split; simpl.
  - intros m md. rewrite lookup_insert. case_decide; [intros [= <-]; exact (R1 n nd Hn)|apply R1].
  - intros x xf. rewrite lookup_insert. case_decide; [intros [= <-]; by unfold two31|apply R2].
Qed.

(** ** Counts of references *)

Definition incs (cmd : ref_cmd) : bool := match cmd with BC_INCREFS | BC_ACQUIRE => true | _ => false end.

(** Room for a reference, and memory for one when the command may need it. *)
Definition spare (st : state) : Prop := Z.of_nat (size (brefs st)) < two32 - 1.

Lemma bc_refs_ok st H p pr cmd target mem : inv st H None -> procs st !! p = Some pr -> room st -> spare st -> (forall r, mem = Some r -> brefs st !! r = None) -> mem <> None ->
  exists st', bc_refs st p cmd target mem = Some st' /\ inv st' H None /\ frame (if incs cmd then None else Some p) st st'.
Proof.
  intros Hi Hp Hroom Hsp Hm Hmem.
  assert (Hop : forall st1 r rf, inv st1 H None -> room st1 -> grows st st1 -> (incs cmd = false -> st1 = st) -> brefs st1 !! r = Some rf -> r_proc rf = p ->
    exists st', ('(st', _) ← match cmd with BC_INCREFS => binder_inc_ref st1 r false None | BC_ACQUIRE => binder_inc_ref st1 r true None | BC_RELEASE => binder_dec_ref st1 r true | BC_DECREFS => binder_dec_ref st1 r false end; Some st') = Some st' /\
      inv st' H None /\ frame (if incs cmd then None else Some p) st st').
  { intros st1 r rf Hi1 Hr1 Hg Hs Hr Hrp.
    assert (Hinc : forall s, incs cmd = true -> exists st' ret, binder_inc_ref st1 r s None = Some (st', ret) /\ inv st' H None /\ frame None st st').
    { intros s Hc. destruct (inc_ref_ok st1 H r rf s None Hi1 Hr) as (st' & ret & E & Hi' & Hid & _); [done|done|]. exists st', ret. split; [done|]. split; [done|]. apply frame_grows. eapply grows_trans; [exact Hg|by apply grows_idents]. }
    assert (Hdec : forall s, incs cmd = false -> exists st' ret, binder_dec_ref st1 r s = Some (st', ret) /\ inv st' H None /\ frame (Some p) st st').
    { intros s Hc. specialize (Hs Hc). subst st1. destruct (dec_ref_ok st H r rf s Hi Hr) as (st' & ret & E & Hi' & Hd). exists st', ret. split; [done|]. split; [done|].
      destruct Hd as [(_ & _ & ->)|(_ & _ & [(_ & Hid & _)|(_ & _ & Hu)])]; [apply fr_refl|by apply frame_grows, grows_idents|]. subst p. by eapply frame_unreffed. }
    destruct cmd; simpl in *; [destruct (Hinc false eq_refl) as (st' & ret & -> & Hi' & Hf)|destruct (Hinc true eq_refl) as (st' & ret & -> & Hi' & Hf)|destruct (Hdec true eq_refl) as (st' & ret & -> & Hi' & Hf)|destruct (Hdec false eq_refl) as (st' & ret & -> & Hi' & Hf)]; simpl; by exists st'. }
  assert (Hget : exists st', ('(st1, ref) ← (ref ← binder_get_ref st p target; Some (st, ref));
      match ref with None => Some st1 | Some r => '(st', _) ← match cmd with BC_INCREFS => binder_inc_ref st1 r false None | BC_ACQUIRE => binder_inc_ref st1 r true None | BC_RELEASE => binder_dec_ref st1 r true | BC_DECREFS => binder_dec_ref st1 r false end; Some st' end) = Some st' /\
      inv st' H None /\ frame (if incs cmd then None else Some p) st st').
  { destruct (get_ref_ok st H None p pr target Hi Hp) as (o & -> & Ho). simpl. destruct o as [r|]; [|exists st; split; [done|]; split; [done|apply fr_refl]].
    destruct Ho as (rf & Hr & Hrp & _). apply (Hop st r rf); try done. apply grows_refl. }
  unfold bc_refs. destruct (binder_context_mgr_node st) as [m|] eqn:Hmg; [|exact Hget].
  destruct (bool_decide (target = 0) && (bool_decide (cmd = BC_INCREFS) || bool_decide (cmd = BC_ACQUIRE))) eqn:Hb; [|exact Hget].
  assert (Hc : incs cmd = true) by (destruct cmd; [done|done|by rewrite andb_false_r in Hb|by rewrite andb_false_r in Hb]).
  destruct (hi_mgr _ _ _ _ _ _ (iv_h _ _ _ Hi) m Hmg) as (q & md & Hmd & _). destruct (get_ref_for_node_ok st H p pr m md mem Hi Hp Hmd Hm Hsp) as (st1 & o & E & Hi1 & Hcase). rewrite E. simpl.
  destruct Hcase as [(r & rf & -> & -> & Hr & Hrp & _)|[(_ & Hn & _)|(Hno & r & d & t1 & t2 & Hmr & -> & Hlf & ->)]]; [|done|]; simpl.
  - apply (Hop st r rf); try done. apply grows_refl.
  - apply (Hop _ r (new_ref p m d)); [done|by apply room_new_ref|apply grows_new_ref; [done|by apply Hm]|congruence|simpl; by rewrite lookup_insert_eq|done].
Qed.

(** ** Confirmations *)

Lemma b2z_pos b : 0 <= b2z b.
Proof. by destruct b. Qed.

Lemma bc_done_ok st H p pr s ptr cookie : inv st H None -> procs st !! p = Some pr -> exists st', bc_done st p s ptr cookie = Some st' /\ inv st' H None /\ frame None st st'.
Proof.
  intros Hi Hp. unfold bc_done. assert (Hst : exists st', Some st = Some st' /\ inv st' H None /\ frame None st st') by (exists st; split; [done|]; split; [done|apply fr_refl]).
  destruct (get_node_ok st H None p pr ptr Hi Hp) as (o & -> & Ho). simpl. destruct o as [n|]; [|done]. destruct Ho as (nd & Hn & Hnp & _). rewrite Hn. simpl. case_bd; [done|].
  destruct (if s then pending_strong_ref nd else pending_weak_ref nd) eqn:Hpend; [|done]. simpl. set (nd1 := if s then _ else _).
  pose proof (hi_node _ _ _ _ _ _ (iv_h _ _ _ Hi) n nd Hn) as Ha. rewrite Hnp in Ha. destruct Ha as [A1 A2 A3 [A4 A4'] A5].
  assert (Ha : alive (procs st) H (binder_context_mgr_node st) n (if s then add_strong (-1) nd1 else add_weak (-1) nd1) p).
  { pose proof (holds_pos H n true). pose proof (holds_pos H n false). pose proof (b2z_pos (bool_decide (binder_context_mgr_node st = Some n))).
    destruct s; unfold nd1; split; simpl; try done; rewrite Hpend in *; simpl in *; rewrite ?s32_dec by (done || lia); try lia; try (unfold int31 in *; lia); naive_solver. }
  unfold binder_dec_node. simpl. rewrite lookup_insert_eq. simpl. rewrite set_set_node.
  assert (Hd : forall held, exists st', drop_node (set_node st n (if s then add_strong (-1) nd1 else add_weak (-1) nd1)) n (if s then add_strong (-1) nd1 else add_weak (-1) nd1) held = Some st' /\ inv st' H None /\ kept st st').
  { intros held. eapply (drop_after st H H n nd); try done; try (by destruct s); intros h Hh; by left. }
  destruct s; rewrite ?set_set_node; match goal with |- context [drop_node _ _ _ ?h] => destruct (Hd h) as (st' & -> & Hi' & Hk) end; exists st'; (split; [done|]; split; [done|by apply frame_kept]).
Qed.

(** ** Deaths *)

(** A list of a process other than the one of delivered deaths. *)
Definition own_list (pr : ref_proc) (q : qid) : Prop := q ∈ p_todo pr :: threads pr.

Lemma own_list_some st H u p pr q : inv st H u -> procs st !! p = Some pr -> q ∈ lists_of pr -> exists l, todo st !! q = Some l.
Proof. intros Hi Hp Hq. destruct (qi_lists _ _ _ _ _ (iv_q _ _ _ Hi) p pr Hp) as [_ Hls]. by apply Hls. Qed.

Lemma own_in pr q : own_list pr q -> q ∈ lists_of pr.
Proof. unfold own_list, lists_of. set_solver. Qed.

Lemma frame_deaths st (R : gmap rid binder_ref) D Q : (forall r, whose <$> R !! r = whose <$> brefs st !! r) -> frame None st (set_todo (set_deaths (set_brefs st R) D) Q).
Proof.
  intros HR. apply frame_grows. split; simpl; [|eauto]. intros r rf Hr. specialize (HR r). rewrite Hr in HR. destruct (R !! r) as [x|]; [|done]. exists x. split; [done|]. simpl in HR. congruence.
Qed.

Lemma whose_death (R : gmap rid binder_ref) (r : rid) rf o (x : rid) : R !! r = Some rf -> whose <$> (<[r := with_death o rf]> R) !! x = whose <$> R !! x.
Proof. intros Hr. rewrite lookup_insert. case_decide; [subst; by rewrite Hr|done]. Qed.

Lemma inv_death st H u r rf o D Q : inv st H u -> brefs st !! r = Some rf -> qinv (procs st) (bnodes st) (<[r := with_death o rf]> (brefs st)) D Q ->
  inv (set_todo (set_deaths (set_ref st r (with_death o rf)) D) Q) H u.
Proof. intros [HT HL HH HQ] Hr HQ'. split; try done; simpl; [by eapply tinv_ref|by apply linv_death]. Qed.

Lemma inv_todo st H u D Q : inv st H u -> qinv (procs st) (bnodes st) (brefs st) D Q -> inv (set_todo (set_deaths st D) Q) H u.
Proof. intros [HT HL HH HQ] HQ'. by split. Qed.

(** Deaths are named by their number in the map. *)
Lemma bc_request_death_ok st H p pr q target cookie mem : inv st H None -> procs st !! p = Some pr -> own_list pr q -> (forall d, mem = Some d -> deaths st !! d = None) ->
  exists st', bc_request_death st p q target cookie mem = Some st' /\ inv st' H None /\ frame None st st'.
Proof.
  intros Hi Hp Hq Hm. unfold bc_request_death. assert (Hst : exists st', Some st = Some st' /\ inv st' H None /\ frame None st st') by (exists st; split; [done|]; split; [done|apply fr_refl]).
  destruct (get_ref_ok st H None p pr target Hi Hp) as (o & -> & Ho). simpl. destruct o as [r|]; [|done]. destruct Ho as (rf & Hr & Hrp & _). rewrite Hr. simpl.
  destruct (death rf) eqn:Hd; [done|]. destruct mem as [d|]; [|done]. specialize (Hm d eq_refl). destruct (ref_node _ _ _ _ _ Hi Hr) as (nd & Hn & _). rewrite Hn. simpl.
  pose proof (iv_q _ _ _ Hi) as HQ. assert (Hnq : forall q', ~ queued (todo st) (WDeath d) q') by (intros q' Hx; destruct (qi_death _ _ _ _ _ HQ d q' Hx) as (dt & Hdt & _); congruence).
  destruct (n_proc nd) eqn:Hnp.
  - eexists. split; [done|]. assert (E : forall st0 : state, st0 = set_todo st0 (todo st0)) by (by intros []). rewrite (E (set_death _ _ _)). split; [apply (inv_death st); [done|done|]; by apply qinv_newdeath|apply frame_deaths; simpl; intros x; by apply whose_death].
  - destruct (own_list_some st H None p pr q Hi Hp (own_in _ _ Hq)) as [l Hl]. rewrite (add_work_ok _ _ l); [|done|apply not_true_is_false; intros (q' & Hq')%on_list_queued; by apply Hnq in Hq']. eexists. split; [done|].
    split; [apply (inv_death st); [done|done|]|apply frame_deaths; simpl; intros x; by apply whose_death]. eapply (qinv_add_death _ _ _ _ _ d (mk_death cookie (Some DEAD_BINDER)) q l); try done.
    + by apply qinv_newdeath.
    + unfold list_add_tail. by rewrite Permutation_app_comm.
    + simpl. by rewrite lookup_insert_eq.
    + simpl. intros x xf. rewrite lookup_insert. case_decide; [intros [= <-] _; split; [done|]; by exists nd|]. intros Hx Hxd. destruct (qi_ref _ _ _ _ _ HQ x xf d Hx Hxd) as (dt & Hdt & _). congruence.
Qed.

Lemma no_ref_queued P N R D Q d dt q : qinv P N R D Q -> D !! d = Some dt -> queued Q (WDeath d) q -> d_type dt <> Some DEAD_BINDER -> forall r rf, R !! r = Some rf -> death rf <> Some d.
Proof. intros HQ Hd Hq Ht r rf Hr Hrd. destruct (qi_ref _ _ _ _ _ HQ r rf d Hr Hrd) as (x & Hx & Hall). destruct (Hall q Hq) as [? _]. congruence. Qed.

Lemma bc_clear_death_ok st H p pr q target cookie : inv st H None -> procs st !! p = Some pr -> own_list pr q ->
  exists st', bc_clear_death st p q target cookie = Some st' /\ inv st' H None /\ frame None st st'.
Proof.
  intros Hi Hp Hq. unfold bc_clear_death. assert (Hst : exists st', Some st = Some st' /\ inv st' H None /\ frame None st st') by (exists st; split; [done|]; split; [done|apply fr_refl]).
  destruct (get_ref_ok st H None p pr target Hi Hp) as (o & -> & Ho). simpl. destruct o as [r|]; [|done]. destruct Ho as (rf & Hr & Hrp & _). rewrite Hr. simpl.
  destruct (death rf) as [d|] eqn:Hd; [|done]. pose proof (iv_q _ _ _ Hi) as HQ. destruct (qi_ref _ _ _ _ _ HQ r rf d Hr Hd) as (dt & Hdt & Hall). rewrite Hdt. simpl. case_bd; [done|].
  assert (Hnr : forall x xf, <[r := with_death None rf]> (brefs st) !! x = Some xf -> death xf <> Some d).
  { intros x xf. rewrite lookup_insert. case_decide; [by intros [= <-]|]. intros Hx Hxd. assert (x = r) by (by eapply (qi_inj _ _ _ _ _ HQ)). congruence. }
  assert (HQ1 : forall ty, ty <> None -> qinv (procs st) (bnodes st) (<[r := with_death None rf]> (brefs st)) (<[d := mk_death (d_cookie dt) ty]> (deaths st)) (todo st)).
  { intros ty Hty. eapply qinv_retype; [by apply qinv_nodeath|done|done|]. intros x xf q' Hx Hxd. by destruct (Hnr x xf Hx). }
  change (on_list (set_ref st r (with_death None rf)) (WDeath d)) with (on_list st (WDeath d)). destruct (on_list st (WDeath d)) eqn:Ho.
  - apply on_list_queued in Ho as (q' & Hq'). destruct (Hall q' Hq') as [Hty _]. rewrite bool_decide_eq_true_2 by done. eexists. split; [done|]. assert (E : forall st0 : state, st0 = set_todo st0 (todo st0)) by (by intros []). rewrite (E (set_death _ _ _)).
    split; [apply (inv_death st); [done|done|]; by apply HQ1|apply frame_deaths; simpl; intros x; by apply whose_death].
  - destruct (own_list_some st H None p pr q Hi Hp (own_in _ _ Hq)) as [l Hl]. rewrite (add_work_ok _ _ l) by done. eexists. split; [done|].
    split; [apply (inv_death st); [done|done|]|apply frame_deaths; simpl; intros x; by apply whose_death]. eapply (qinv_add_death _ _ _ _ _ d (mk_death (d_cookie dt) (Some CLEAR_DEATH_NOTIFICATION)) q l); try done.
    + by apply HQ1.
    + unfold list_add_tail. by rewrite Permutation_app_comm.
    + intros q'. by apply on_list_false.
    + simpl. by rewrite lookup_insert_eq.
    + simpl. intros x xf Hx Hxd. by destruct (Hnr x xf Hx).
Qed.

End BinderRefCmd.

(** * The binder's nodes and references: what a process is told *)

Local Open Scope Z_scope.
Local Open Scope kernel_scope.

Module BinderRefRead.
Import Rbtree RbtreeKey BinderRef BinderRefInv BinderRefOps BinderRefLink BinderRefGet BinderRefCmd.

(** ** The end of a death *)

Lemma find_death_ok st cookie : forall l, (forall w, w ∈ l -> exists d dt, w = WDeath d /\ deaths st !! d = Some dt) ->
  exists o, find_death st l cookie = Some o /\ match o with Some d => WDeath d ∈ l /\ exists dt, deaths st !! d = Some dt /\ d_cookie dt = cookie | None => True end.
Proof.
  induction l as [|w l IH]; intros Hl; simpl; [by exists None|]. destruct (Hl w) as (d & dt & -> & Hd); [set_solver|]. rewrite Hd. simpl. case_bd.
  - exists (Some d). split; [done|]. split; [set_solver|]. by exists dt.
  - destruct IH as (o & E & Ho); [intros w Hw; apply Hl; set_solver|]. exists o. split; [done|]. destruct o as [e|]; [|done]. destruct Ho as [Hin Ho]. split; [set_solver|done].
Qed.

(** Only deaths are on the list of delivered ones. *)
Lemma delivered_deaths st H u p pr l w : inv st H u -> procs st !! p = Some pr -> todo st !! delivered_death pr = Some l -> w ∈ l -> exists d dt, w = WDeath d /\ deaths st !! d = Some dt.
Proof.
  intros Hi Hp Hl Hw. pose proof (iv_q _ _ _ Hi) as HQ. destruct w as [n|d].
  - exfalso. destruct (qi_node _ _ _ _ _ HQ n (delivered_death pr)) as (q & qr & _ & Hqr & Hin); [by exists l|].
    assert (q = p) as -> by (eapply (qi_apart _ _ _ _ _ HQ q p qr pr); [done|done|by apply own_in|unfold lists_of; set_solver]). rewrite Hp in Hqr. injection Hqr as <-.
    destruct (qi_lists _ _ _ _ _ HQ p pr Hp) as [Hnd _]. unfold lists_of in Hnd. rewrite !NoDup_cons in Hnd. destruct Hnd as (H1 & H2 & _). apply elem_of_cons in Hin as [Hx|Hx]; [|done]. apply H1. rewrite <- Hx. set_solver.
  - destruct (qi_death _ _ _ _ _ HQ d (delivered_death pr)) as (dt & Hd & _); [by exists l|]. by exists d, dt.
Qed.

(** The state as [st] with other deaths and lists. *)
Ltac as_todo st := match goal with |- inv ?s ?H ?u /\ _ =>
  let s' := constr:(set_todo (set_deaths st (deaths s)) (todo s)) in change (inv s' H u /\ frame None st s') end.

Lemma frame_todo st D Q : frame None st (set_todo (set_deaths st D) Q).
Proof. apply frame_grows. split; simpl; eauto. Qed.

(** An item that is taken off its list is on none. *)
Lemma del_not_queued Q w q : ~ queued (list_del w <$> Q) w q.
Proof. by intros [_ ?]%queued_del. Qed.

Lemma del_not_on st w : on_list (del_work st w) w = false.
Proof. apply not_true_is_false. intros (q & Hq)%on_list_queued. by apply del_not_queued in Hq. Qed.

Lemma inv_del st H u w : inv st H u -> inv (del_work st w) H u.
Proof. intros [HT HL HH HQ]. split; try done. by apply qinv_del. Qed.

Lemma frame_del st w : frame None st (del_work st w).
Proof. apply frame_grows. split; simpl; eauto. Qed.

Lemma bc_dead_done_ok st H p pr q cookie : inv st H None -> procs st !! p = Some pr -> own_list pr q -> exists st', bc_dead_done st p q cookie = Some st' /\ inv st' H None /\ frame None st st'.
Proof.
  intros Hi Hp Hq. pose proof (iv_q _ _ _ Hi) as HQ. unfold bc_dead_done. rewrite Hp. simpl. destruct (own_list_some st H None p pr (delivered_death pr) Hi Hp) as [l Hl]; [unfold lists_of; set_solver|]. rewrite Hl. simpl.
  destruct (find_death_ok st cookie l) as (o & -> & Ho); [intros w Hw; by eapply delivered_deaths|]. simpl. destruct o as [d|]; [|exists st; split; [done|]; split; [done|apply fr_refl]].
  destruct Ho as [Hin (dt & Hdt & _)]. rewrite Hdt. simpl. assert (HQ1 : qinv (procs st) (bnodes st) (brefs st) (deaths st) (list_del (WDeath d) <$> todo st)) by (by apply qinv_del). case_bd.
  - assert (Hnr : forall r rf, brefs st !! r = Some rf -> death rf <> Some d) by (eapply no_ref_queued; [exact HQ|exact Hdt|by exists l|congruence]).
    destruct (own_list_some st H None p pr q Hi Hp (own_in _ _ Hq)) as [l' Hl']. rewrite (add_work_ok _ _ (list_del (WDeath d) l')); [|simpl; by rewrite lookup_fmap, Hl'|apply (del_not_on st)]. eexists. split; [done|]. as_todo st. split; [|apply frame_todo].
    apply (inv_todo st); [done|]. simpl. eapply (qinv_add_death _ _ _ _ _ d (mk_death (d_cookie dt) (Some CLEAR_DEATH_NOTIFICATION)) q (list_del (WDeath d) l')); try done.
    + eapply qinv_retype; [done|done|done|]. intros r rf q' Hr Hrd. by destruct (Hnr r rf Hr).
    + by rewrite lookup_fmap, Hl'.
    + unfold list_add_tail. by rewrite Permutation_app_comm.
    + intros q'. apply del_not_queued.
    + simpl. by rewrite lookup_insert_eq.
    + intros r rf Hr Hrd. by destruct (Hnr r rf Hr).
  - eexists. split; [done|]. split; [by apply inv_del|apply frame_del].
Qed.

(** ** Nodes *)

(** Whether a node is held, by references or by its own process. *)
Definition held_strong (nd : binder_node) : bool := negb (bool_decide (internal_strong_refs nd = 0)) || negb (bool_decide (local_strong_refs nd = 0)).
Definition held_weak (nd : binder_node) : bool := negb (bool_decide (n_refs nd = [])) || negb (bool_decide (local_weak_refs nd = 0)) || held_strong nd.

(** The node of a work item on a list of a process is one of the process. *)
Lemma queued_mine st H u p pr q n : inv st H u -> procs st !! p = Some pr -> q ∈ lists_of pr -> queued (todo st) (WNode n) q -> exists nd, bnodes st !! n = Some nd /\ n_proc nd = Some p.
Proof.
  intros Hi Hp Hq Hqd. pose proof (iv_q _ _ _ Hi) as HQ. destruct (qi_node _ _ _ _ _ HQ n q Hqd) as (p' & pr' & (nd & Hn & Hnp) & Hp' & Hin). assert (p' = p) as -> by (eapply (qi_apart _ _ _ _ _ HQ p' p pr' pr); [done|done|by apply own_in|done]). by exists nd.
Qed.

Lemma held_weak_false nd : held_weak nd = false -> n_refs nd = [] /\ local_weak_refs nd = 0 /\ internal_strong_refs nd = 0 /\ local_strong_refs nd = 0.
Proof.
  unfold held_weak, held_strong. intros [[H1%negb_false_iff%bool_decide_eq_true H2%negb_false_iff%bool_decide_eq_true]%orb_false_iff [H3%negb_false_iff%bool_decide_eq_true H4%negb_false_iff%bool_decide_eq_true]%orb_false_iff]%orb_false_iff. done.
Qed.

Lemma held_strong_false nd : held_strong nd = false -> internal_strong_refs nd = 0 /\ local_strong_refs nd = 0.
Proof. unfold held_strong. by intros [H3%negb_false_iff%bool_decide_eq_true H4%negb_false_iff%bool_decide_eq_true]%orb_false_iff. Qed.

(** What the process is told next of a node, and the node then. *)
Definition told (nd : binder_node) : option (br * binder_node) :=
  if held_weak nd && negb (has_weak_ref nd) then Some (BR_INCREFS, add_weak 1 (with_flags (has_strong_ref nd) (pending_strong_ref nd) true true nd))
  else if held_strong nd && negb (has_strong_ref nd) then Some (BR_ACQUIRE, add_strong 1 (with_flags true true (has_weak_ref nd) (pending_weak_ref nd) nd))
  else if negb (held_strong nd) && has_strong_ref nd then Some (BR_RELEASE, with_flags false (pending_strong_ref nd) (has_weak_ref nd) (pending_weak_ref nd) nd)
  else if negb (held_weak nd) && has_weak_ref nd then Some (BR_DECREFS, with_flags (has_strong_ref nd) (pending_strong_ref nd) false (pending_weak_ref nd) nd)
  else None.

Lemma br_node_told st p n nd : bnodes st !! n = Some nd ->
  br_node st p n = match told nd with
    | Some (c, nd') => Some (set_node st n nd', c)
    | None => if held_weak nd then Some (del_work st (WNode n), BR_NOOP)
              else pr ← procs st !! p; t ← rb_erase (p_nodes pr) n; Some (free_node (set_proc (del_work st (WNode n)) p (with_nodes t pr)) n, BR_NOOP)
    end.
Proof.
  intros Hn. unfold br_node. rewrite Hn. simpl. fold (held_strong nd). fold (held_weak nd). unfold told. destruct (held_weak nd && negb (has_weak_ref nd)); [done|]. destruct (held_strong nd && negb (has_strong_ref nd)); [done|].
  destruct (negb (held_strong nd) && has_strong_ref nd); [done|]. destruct (negb (held_weak nd) && has_weak_ref nd); [done|]. simpl. destruct (held_weak nd) eqn:Hw; [done|]. simpl. by destruct (held_strong nd) eqn:Hs; [unfold held_weak in Hw; rewrite Hs, orb_true_r in Hw|].
Qed.

(** The node stays right, whatever the process is told. *)
Lemma told_alive P H mgr n nd p c nd' : alive P H mgr n nd p -> (has_strong_ref nd = false -> local_strong_refs nd < two31 - 1) -> (has_weak_ref nd = false -> local_weak_refs nd < two31 - 1) -> told nd = Some (c, nd') -> alive P H mgr n nd' p /\ nident nd' = nident nd /\ n_refs nd' = n_refs nd /\ internal_strong_refs nd' = internal_strong_refs nd.
Proof.
  intros [A1 A2 A3 [A4 A4'] (A5 & A6 & A7)] Rs Rw. pose proof (holds_pos H n true). pose proof (holds_pos H n false). pose proof (b2z_pos (bool_decide (mgr = Some n))). pose proof (b2z_pos (pending_strong_ref nd)). pose proof (b2z_pos (pending_weak_ref nd)).
  unfold told. destruct (held_weak nd) eqn:Hw, (has_weak_ref nd) eqn:Hhw; simpl.
  - destruct (held_strong nd) eqn:Hs, (has_strong_ref nd) eqn:Hhs; simpl; intros E; try done; injection E as <- <-; (split; [|done]); (split; simpl; try done).
    + destruct (pending_strong_ref nd); [by discriminate A6|]. rewrite s32_inc by (done || by apply Rs). simpl in *. lia.
    + specialize (Rs eq_refl). rewrite s32_inc by done. unfold int31 in *. lia.
    + apply held_strong_false in Hs as [_ Hs]. destruct (pending_strong_ref nd); [simpl in *; lia|done].
  - intros E. injection E as <- <-. split; [|done]. specialize (Rw eq_refl). destruct (pending_weak_ref nd); [by discriminate A7|]. split; simpl; try done; rewrite ?s32_inc by done; [simpl in *; lia|unfold int31 in *; lia].
  - apply held_weak_false in Hw as (W1 & W2 & W3 & W4). assert (Hs : held_strong nd = false) by (unfold held_strong; by rewrite W3, W4). rewrite Hs. destruct (has_strong_ref nd) eqn:Hhs; simpl; intros E; injection E as <- <-; (split; [|done]); (split; simpl; try done).
    + destruct (pending_strong_ref nd); [simpl in *; lia|done].
    + destruct (pending_strong_ref nd), (pending_weak_ref nd); simpl in *; try lia; done.
  - apply held_weak_false in Hw as (W1 & W2 & W3 & W4). destruct (held_strong nd) eqn:Hs; [unfold held_strong in Hs; by rewrite W3, W4 in Hs|]. destruct (has_strong_ref nd) eqn:Hhs; [by discriminate A5|]. done.
Qed.

Lemma br_node_ok st H p pr n nd : inv st H None -> procs st !! p = Some pr -> bnodes st !! n = Some nd -> n_proc nd = Some p -> room st ->
  exists st' c, br_node st p n = Some (st', c) /\ inv st' H None /\ frame None st st'.
Proof.
  intros Hi Hp Hn Hnp [Rn _]. destruct (Rn n nd Hn) as (_ & Rs & Rw). pose proof (hi_node _ _ _ _ _ _ (iv_h _ _ _ Hi) n nd Hn) as Ha. rewrite Hnp in Ha. rewrite (br_node_told st p n nd Hn). destruct (told nd) as [[c nd']|] eqn:Ht.
  - destruct (told_alive _ _ _ _ _ _ _ _ Ha (fun _ => Rs) (fun _ => Rw) Ht) as (Ha' & Hid & Hr & Hin). exists (set_node st n nd'), c. split; [done|]. split; [|by eapply frame_kept, kept_node].
    unfold nident in Hid. injection Hid as I1 I2 I3. eapply (inv_node st H H n nd nd' p); try done; [congruence|by left].
  - destruct (held_weak nd) eqn:Hw.
    + eexists _, _. split; [done|]. split; [by apply inv_del|apply frame_del].
    + apply held_weak_false in Hw as (W1 & W2 & W3 & W4). destruct (free_alive st H None n nd p pr) as (t & Et & Hif & Hkf); try done; [by left|]. rewrite Hp. simpl. rewrite Et. simpl. eexists _, _. split; [done|]. split; [done|by apply frame_kept].
Qed.

(** ** Deaths *)

Lemma br_death_ok st H p pr d q : inv st H None -> procs st !! p = Some pr -> queued (todo st) (WDeath d) q ->
  exists st' c, br_death st p d = Some (st', c) /\ inv st' H None /\ frame None st st'.
Proof.
  intros Hi Hp Hq. pose proof (iv_q _ _ _ Hi) as HQ. destruct (qi_death _ _ _ _ _ HQ d q Hq) as (dt & Hd & Hty). unfold br_death. rewrite Hd. simpl. destruct (d_type dt) as [ty|] eqn:Ety; [|done]. simpl.
  assert (HQ1 : qinv (procs st) (bnodes st) (brefs st) (deaths st) (list_del (WDeath d) <$> todo st)) by (by apply qinv_del).
  destruct (own_list_some st H None p pr (delivered_death pr) Hi Hp) as [l Hl]; [unfold lists_of; set_solver|].
  assert (Hmove : exists st' c, (pr0 ← procs st !! p; l ← todo (del_work st (WDeath d)) !! delivered_death pr0; Some (set_todo (del_work st (WDeath d)) (<[delivered_death pr0 := list_add (WDeath d) l]> (todo (del_work st (WDeath d)))), BR_DEAD_BINDER)) = Some (st', c) /\ inv st' H None /\ frame None st st').
  { rewrite Hp. simpl. rewrite lookup_fmap, Hl. simpl. eexists _, _. split; [done|]. as_todo st. split; [|apply frame_todo]. apply inv_todo; [done|]. simpl. eapply (qinv_add_death _ _ _ _ _ d dt _ (list_del (WDeath d) l)); try done; [by rewrite lookup_fmap, Hl|intros q'; apply del_not_queued|by rewrite Ety|].
    intros r rf Hr Hrd. destruct (qi_ref _ _ _ _ _ HQ r rf d Hr Hrd) as (x & Hx & Hall). rewrite Hd in Hx. injection Hx as <-. by apply (Hall q). }
  destruct ty; [exact Hmove|exact Hmove|]. unfold free_death, del_work. simpl. rewrite Hd. simpl. eexists _, _. split; [done|]. as_todo st. split; [|apply frame_todo]. apply inv_todo; [done|]. simpl.
  apply qinv_undeath; [done| |intros q'; apply del_not_queued]. eapply no_ref_queued; [exact HQ|exact Hd|exact Hq|congruence].
Qed.

Lemma br_work_ok st H p pr q : inv st H None -> procs st !! p = Some pr -> own_list pr q -> room st -> exists st' c, br_work st p q = Some (st', c) /\ inv st' H None /\ frame None st st'.
Proof.
  intros Hi Hp Hq Hr. destruct (own_list_some st H None p pr q Hi Hp (own_in _ _ Hq)) as [l Hl]. unfold br_work. rewrite Hl. simpl. destruct l as [|[n|d] l].
  - eexists _, _. split; [done|]. split; [done|apply fr_refl].
  - destruct (queued_mine st H None p pr q n Hi Hp (own_in _ _ Hq)) as (nd & Hn & Hnp); [eexists; split; [done|]; set_solver|]. by eapply br_node_ok.
  - eapply br_death_ok; [done|done|]. eexists. split; [done|]. set_solver.
Qed.

End BinderRefRead.

(** ** Objects in transactions *)

Module BinderRefObj.
Import Rbtree RbtreeKey BinderRef BinderRefInv BinderRefOps BinderRefLink BinderRefGet BinderRefCmd BinderRefRead.

(** Handle [h] of a process stands for an object of a process. *)
Definition denotes (st : state) (p : pid) (h : Z) (n : nid) : Prop := exists r rf, brefs st !! r = Some rf /\ r_proc rf = p /\ desc rf = h /\ r_node rf = n.

Definition object_of (st : state) (n : nid) (p : pid) (ptr cookie : Z) : Prop := exists nd, bnodes st !! n = Some nd /\ n_proc nd = Some p /\ n_ptr nd = ptr /\ n_cookie nd = cookie.

Lemma own_list_same P P' p pr q : same_lists P P' -> P !! p = Some pr -> own_list pr q -> exists pr', P' !! p = Some pr' /\ own_list pr' q.
Proof. intros HP Hp Hq. destruct (same_lists_back _ _ _ _ HP Hp) as (pr' & Hp' & E). exists pr'. split; [done|]. unfold own_list, lists_of in *. by injection E as -> _ ->. Qed.

Lemma grows_new_node st p pr n ptr cookie t : bnodes st !! n = None -> grows st (set_node (set_proc st p (with_nodes t pr)) n (new_bnode p ptr cookie)).
Proof. intros Hn. split; simpl; [eauto|]. intros m md Hm. exists md. rewrite lookup_insert_ne; [done|]. congruence. Qed.

Lemma room_new_node st p pr n ptr cookie t : room st -> room (set_node (set_proc st p (with_nodes t pr)) n (new_bnode p ptr cookie)).
Proof. intros [R1 R2]. split; simpl; [|done]. intros m md. rewrite lookup_insert. case_decide; [intros [= <-]; by unfold two31|apply R1]. Qed.

Lemma grows_object st st' n p ptr cookie : grows st st' -> object_of st n p ptr cookie -> object_of st' n p ptr cookie.
Proof. intros [_ Hg] (nd & Hn & Hp & Hk & Hc). destruct (Hg n nd Hn) as (nd' & Hn' & E). exists nd'. unfold nident in E. split; [done|]. split; [congruence|]. split; congruence. Qed.

Lemma grows_denotes st st' p h n : grows st st' -> denotes st p h n -> denotes st' p h n.
Proof. intros [Hg _] (r & rf & Hr & Hp & Hd & Hn). destruct (Hg r rf Hr) as (rf' & Hr' & E). exists r, rf'. unfold whose in E. split; [done|]. split; [congruence|]. split; congruence. Qed.

(** A reference to a node for a process, with one count more if it can have it. *)
Lemma give_ref_ok st H to pr n nd s tl mem : inv st H None -> procs st !! to = Some pr -> bnodes st !! n = Some nd -> (forall r, mem = Some r -> brefs st !! r = None) -> room st -> spare st ->
  (forall st', same_lists (procs st) (procs st') -> grows st st' -> list_for st' n tl) ->
  exists st' o, ('(st1, ref) ← binder_get_ref_for_node st to n mem; match ref with None => Some (st1, None) | Some r => rf ← brefs st1 !! r; '(st2, _) ← binder_inc_ref st1 r s tl; Some (st2, Some (Handle (desc rf))) end) = Some (st', o) /\
    inv st' H None /\ grows st st' /\ same_lists (procs st) (procs st') /\ match o with Some (Handle h) => denotes st' to h n | Some (Binder _ _) => False | None => mem = None end.
Proof.
  intros Hi Hp Hn Hm Hroom Hsp Htl. destruct (get_ref_for_node_ok st H to pr n nd mem Hi Hp Hn Hm Hsp) as (st1 & o & E & Hi1 & Hcase). rewrite E. simpl.
  assert (Hinc : forall r rf, inv st1 H None -> room st1 -> grows st st1 -> same_lists (procs st) (procs st1) -> brefs st1 !! r = Some rf -> r_proc rf = to -> r_node rf = n ->
    exists st' o, (rf ← brefs st1 !! r; '(st2, _) ← binder_inc_ref st1 r s tl; Some (st2, Some (Handle (desc rf)))) = Some (st', o) /\
    inv st' H None /\ grows st st' /\ same_lists (procs st) (procs st') /\ match o with Some (Handle h) => denotes st' to h n | Some (Binder _ _) => False | None => mem = None end).
  { intros r rf _ Hr1 Hg Hsl Hr Hrp Hrn. destruct (inc_ref_ok st1 H r rf s tl Hi1 Hr) as (st2 & ret & E2 & Hi2 & Hid & _); [rewrite Hrn; by apply Htl|done|]. rewrite Hr. simpl. rewrite E2. simpl. eexists _, _. split; [done|]. split; [done|]. pose proof (grows_idents _ _ Hid) as Hg2.
    split; [by eapply grows_trans|]. split; [by rewrite (id_procs _ _ Hid)|]. apply (grows_denotes st1); [done|]. by exists r, rf. }
  destruct Hcase as [(r & rf & -> & -> & Hr & Hrp & Hrn)|[(_ & Hmn & -> & ->)|(Hno & r & d & t1 & t2 & Hmr & -> & Hlf & ->)]].
  - apply (Hinc r rf); try done. apply grows_refl.
  - eexists _, _. split; [done|]. split; [done|]. split; [apply grows_refl|]. by split.
  - apply (Hinc r (new_ref to n d)); [done|by apply room_new_ref|apply grows_new_ref; [done|by apply Hm]|simpl; by eapply same_lists_insert|simpl; by rewrite lookup_insert_eq|done|done].
Qed.

Lemma translate_binder_ok st H p pr to pr' q s ptr cookie mem mem' : inv st H None -> procs st !! p = Some pr -> procs st !! to = Some pr' -> own_list pr q ->
  (forall n, mem = Some n -> bnodes st !! n = None) -> (forall r, mem' = Some r -> brefs st !! r = None) -> room st -> spare st ->
  exists st' o, translate_binder st p to q s ptr cookie mem mem' = Some (st', o) /\ inv st' H None /\ grows st st' /\ same_lists (procs st) (procs st') /\
    match o with
    | Some (Handle h) => exists n, denotes st' to h n /\ object_of st' n p ptr cookie
    | Some (Binder _ _) => False
    | None => mem = None \/ mem' = None \/ exists n c, object_of st n p ptr c /\ c <> cookie
    end.
Proof.
  intros Hi Hp Hto Hq Hm Hm' Hroom Hsp. unfold translate_binder. destruct (get_node_ok st H None p pr ptr Hi Hp) as (o & -> & Ho). simpl.
  assert (Hgive : forall st1 n nd, inv st1 H None -> grows st st1 -> same_lists (procs st) (procs st1) -> bnodes st1 !! n = Some nd -> n_proc nd = Some p -> n_ptr nd = ptr -> n_cookie nd = cookie -> brefs st1 = brefs st -> room st1 ->
    exists st' o, ('(st2, ref) ← binder_get_ref_for_node st1 to n mem'; match ref with None => Some (st2, None) | Some r => rf ← brefs st2 !! r; '(st3, _) ← binder_inc_ref st2 r s (Some q); Some (st3, Some (Handle (desc rf))) end) = Some (st', o) /\
    inv st' H None /\ grows st st' /\ same_lists (procs st) (procs st') /\ match o with Some (Handle h) => exists n, denotes st' to h n /\ object_of st' n p ptr cookie | Some (Binder _ _) => False | None => mem = None \/ mem' = None \/ exists n c, object_of st n p ptr c /\ c <> cookie end).
  { intros st1 n nd Hi1 Hg Hsl Hn Hnp Hk Hc Hb Hr1. destruct (same_lists_back _ _ _ _ Hsl Hto) as (pr1 & Hto1 & _).
    destruct (give_ref_ok st1 H to pr1 n nd s (Some q) mem' Hi1 Hto1 Hn) as (st2 & o' & E & Hi2 & Hg2 & Hsl2 & Ho'); [by rewrite Hb|done|unfold spare; by rewrite Hb| |].
    { intros st2 Hs2 Hg2 q' [= <-]. destruct (own_list_same (procs st) (procs st2) p pr q ltac:(intros x; by rewrite Hs2) Hp Hq) as (pr2 & Hp2 & Hq2). exists p, pr2. split; [|done]. destruct (gr_nodes _ _ Hg2 n nd Hn) as (nd2 & Hn2 & E2). exists nd2. split; [done|]. unfold nident in E2. congruence. }
    rewrite E. eexists _, _. split; [done|]. split; [done|]. split; [by eapply grows_trans|]. split; [intros x; by rewrite Hsl2|]. destruct o' as [[|h]|]; [done| |right; by left]. exists n. split; [done|]. apply (grows_object st1); [done|]. by exists nd. }
  destruct o as [n|].
  - destruct Ho as (nd & Hn & Hnp & Hk). simpl. rewrite Hn. simpl. case_bd.
    + eexists _, _. split; [done|]. split; [done|]. split; [apply grows_refl|]. split; [done|]. right. right. exists n, (n_cookie nd). split; [by exists nd|done].
    + apply (Hgive st n nd); try done; [apply grows_refl|]. by destruct (decide (n_cookie nd = cookie)).
  - destruct (new_node_ok st H p pr ptr cookie mem Hi Hp Hm) as (st1 & on & E & Hi1 & Hon). rewrite E. simpl. destruct on as [n|].
    + destruct Hon as (Hmn & _ & t & ->). simpl. rewrite lookup_insert_eq. simpl. rewrite bool_decide_eq_false_2 by naive_solver. apply (Hgive _ n (new_bnode p ptr cookie)); try done; simpl; [apply grows_new_node; by apply Hm|by eapply same_lists_insert|by rewrite lookup_insert_eq|by apply room_new_node].
    + destruct Hon as [-> Hon]. eexists _, _. split; [done|]. split; [done|]. split; [apply grows_refl|]. split; [done|]. left. destruct Hon as [?|(n & nd & Hn & Hnp & Hk)]; [done|]. by destruct (Ho n nd Hn Hnp).
Qed.

(** The object at the other end: the process's own, or a handle of it. *)
Lemma translate_handle_ok st H p pr to pr' s h mem : inv st H None -> procs st !! p = Some pr -> procs st !! to = Some pr' ->
  (forall r, mem = Some r -> brefs st !! r = None) -> room st -> spare st ->
  exists st' o H', translate_handle st p to s h mem = Some (st', o) /\ inv st' H' None /\ grows st st' /\
    match o with
    | Some (Binder ptr cookie) => exists n, H' = (n, s) :: H /\ denotes st p h n /\ object_of st n to ptr cookie
    | Some (Handle h') => exists n, H' = H /\ denotes st p h n /\ denotes st' to h' n /\ forall ptr cookie, ~ object_of st n to ptr cookie
    | None => H' = H /\ ((mem = None /\ exists n, denotes st p h n /\ forall ptr cookie, ~ object_of st n to ptr cookie) \/ forall n, ~ denotes st p h n)
    end.
Proof.
  intros Hi Hp Hto Hm Hroom Hsp. unfold translate_handle. destruct (get_ref_ok st H None p pr h Hi Hp) as (o & -> & Ho). simpl. destruct o as [r|].
  2: { eexists _, _, H. split; [done|]. split; [done|]. split; [apply grows_refl|]. split; [done|]. right. intros n (r & rf & Hr & Hrp & Hd & _). by apply (Ho r rf). }
  destruct Ho as (rf & Hr & Hrp & Hd). rewrite Hr. simpl. destruct (ref_node _ _ _ _ _ Hi Hr) as (nd & Hn & _). rewrite Hn. simpl. assert (Hden : denotes st p h (r_node rf)) by (by exists r, rf). case_bd as Hnp.
  - destruct Hroom as [Rn _]. destruct (Rn _ _ Hn) as (_ & Rs & Rw). destruct (inc_hold_ok st H (r_node rf) nd to s Hi Hn Hnp Rs Rw) as (st' & ret & E & Hi' & nd' & -> & Hid). rewrite E. simpl. eexists _, _, _. split; [done|]. split; [exact Hi'|]. split.
    + split; simpl; [eauto|]. intros m md Hmd. rewrite lookup_insert. case_decide; [subst; eexists; split; [done|congruence]|eauto].
    + exists (r_node rf). split; [done|]. split; [done|]. by exists nd.
  - destruct (give_ref_ok st H to pr' (r_node rf) nd s None mem Hi Hto Hn Hm Hroom Hsp) as (st' & o & E & Hi' & Hg & _ & Ho); [done|]. rewrite E. eexists _, _, H. split; [done|]. split; [done|]. split; [done|].
    assert (Hnob : forall ptr cookie, ~ object_of st (r_node rf) to ptr cookie) by (intros ptr cookie (nd' & Hn' & Hp' & _); congruence).
    destruct o as [[|h']|]; [done|by exists (r_node rf)|]. split; [done|]. left. split; [done|]. by exists (r_node rf).
Qed.

(** ** The end of a buffer *)

Lemma release_handle_ok st H p pr s h : inv st H None -> procs st !! p = Some pr -> exists st', release_object st p s (Handle h) = Some st' /\ inv st' H None /\ frame (Some p) st st'.
Proof.
  intros Hi Hp. unfold release_object. destruct (get_ref_ok st H None p pr h Hi Hp) as (o & -> & Ho). simpl. destruct o as [r|]; [|exists st; split; [done|]; split; [done|apply fr_refl]].
  destruct Ho as (rf & Hr & Hrp & _). destruct (dec_ref_ok st H r rf s Hi Hr) as (st' & ret & -> & Hi' & Hd). simpl. exists st'. split; [done|]. split; [done|].
  destruct Hd as [(_ & _ & ->)|(_ & _ & [(_ & Hid & _)|(_ & _ & Hu)])]; [apply fr_refl|by apply frame_grows, grows_idents|]. subst p. by eapply frame_unreffed.
Qed.

(** A node is found under its pointer. *)
Lemma get_node_here st H u p pr n nd : inv st H u -> procs st !! p = Some pr -> bnodes st !! n = Some nd -> n_proc nd = Some p -> binder_get_node st p (n_ptr nd) = Some (Some n).
Proof.
  intros Hi Hp Hn Hnp. destruct (get_node_ok st H u p pr (n_ptr nd) Hi Hp) as (o & -> & Ho). destruct o as [m|]; [|by destruct (Ho n nd Hn Hnp)]. destruct Ho as (md & Hm & Hmp & Hk). do 2 f_equal.
  destruct (iv_t _ _ _ Hi p pr Hp) as (T1 & _). eapply (keyed_inj _ _ _ m n T1); [by exists md|by exists nd|]. unfold nkey. by rewrite Hm, Hn.
Qed.

Lemma release_binder_ok st H1 H2 p pr s ptr cookie n : inv st (H1 ++ (n, s) :: H2) None -> procs st !! p = Some pr -> object_of st n p ptr cookie ->
  exists st', release_object st p s (Binder ptr cookie) = Some st' /\ inv st' (H1 ++ H2) None /\ frame None st st'.
Proof.
  intros Hi Hp (nd & Hn & Hnp & <- & _). unfold release_object. rewrite (get_node_here st _ None p pr n nd) by done. simpl. destruct (dec_hold_ok st H1 H2 n s Hi) as (st' & E & Hi' & Hk). rewrite E. exists st'. split; [done|]. split; [done|]. by apply frame_kept.
Qed.

End BinderRefObj.

(** * The binder's nodes and references: processes and threads *)

Local Open Scope Z_scope.
Local Open Scope kernel_scope.

Module BinderRefProc.
Import Rbtree RbtreeKey BinderRef BinderRefInv BinderRefOps BinderRefLink BinderRefGet BinderRefCmd BinderRefRead BinderRefObj.

(** ** Lists of work come and go *)

Lemma queued_fresh (Q : gmap qid (list work)) q w q' : Q !! q = None -> queued (<[q := []]> Q) w q' <-> queued Q w q'.
Proof.
  intros Hq. unfold queued. rewrite lookup_insert. case_decide as Hx; [subst|done]. rewrite Hq. split; [intros (l & [= <-] & Hin); by apply elem_of_nil in Hin|by intros (l & ? & _)].
Qed.

Lemma queued_gone (Q : gmap qid (list work)) q w q' : queued (delete q Q) w q' <-> queued Q w q' /\ q' <> q.
Proof. unfold queued. split; [intros (l & [Hne Hl]%lookup_delete_Some & Hin); split; [by exists l|done]|intros [(l & Hl & Hin) Hne]; exists l; by rewrite lookup_delete_ne]. Qed.

(** A list that no one has yet is in no process. *)
Lemma fresh_list P N R D Q p pr q : qinv P N R D Q -> Q !! q = None -> P !! p = Some pr -> q ∉ lists_of pr.
Proof. intros HQ Hq Hp Hin. destruct (qi_lists _ _ _ _ _ HQ p pr Hp) as [_ H]. destruct (H q Hin). congruence. Qed.

(** An empty list is added. *)
Lemma qinv_list P N R D Q q : qinv P N R D Q -> Q !! q = None -> qinv P N R D (<[q := []]> Q).
Proof.
  intros [Q1 Q2 Q3 Q4 Q5 Q6 Q7 Q8 Q9] Hq. split; try done.
  - intros q' l. rewrite lookup_insert. case_decide; [intros [= <-]; constructor|apply Q1].
  - intros w q1 q2. rewrite !queued_fresh by done. apply Q2.
  - intros n q'. rewrite queued_fresh by done. apply Q3.
  - intros d q'. rewrite queued_fresh by done. apply Q4.
  - intros p pr Hp. destruct (Q5 p pr Hp) as [H1 H2]. split; [done|]. intros q' Hq'. rewrite lookup_insert. case_decide; [by eexists|by apply H2].
  - intros r rf d Hr Hd. destruct (Q7 r rf d Hr Hd) as (dt & Hdt & H). exists dt. split; [done|]. intros q'. rewrite queued_fresh by done. apply H.
Qed.

(** A process, old or new, has the lists it had and others that no process had. *)
Lemma qinv_lists P N R D Q p pr' : qinv P N R D Q -> NoDup (lists_of pr') -> (forall q, q ∈ lists_of pr' -> is_Some (Q !! q)) ->
  (forall q q' qr, P !! q' = Some qr -> q ∈ lists_of pr' -> q ∈ lists_of qr -> q' = p) ->
  (forall pr q, P !! p = Some pr -> q ∈ p_todo pr :: threads pr -> q ∈ p_todo pr' :: threads pr') -> qinv (<[p := pr']> P) N R D Q.
Proof.
  intros [Q1 Q2 Q3 Q4 Q5 Q6 Q7 Q8 Q9] Hnd Hin Hap Hold. split; try done.
  - intros n q Hq. destruct (Q3 n q Hq) as (x & xr & Hm & Hx & Hxq). exists x. rewrite lookup_insert. case_decide; [subst x; exists pr'; split; [done|]; split; [done|]; by eapply Hold|by exists xr].
  - intros x xr. rewrite lookup_insert. case_decide; [intros [= <-]; done|apply Q5].
  - intros x y xr yr q. rewrite !lookup_insert. case_decide; case_decide; [congruence|intros [= <-] Hy H1 H2; subst; symmetry; by eapply Hap|intros Hx [= <-] H1 H2; subst; by eapply Hap|apply Q6].
  - intros r rf Hr. rewrite lookup_insert. case_decide; [by eexists|by eapply Q9].
Qed.

Lemma tinv_trees P N R p pr pr' : tinv P N R -> P !! p = Some pr -> p_nodes pr' = p_nodes pr -> refs_by_desc pr' = refs_by_desc pr -> refs_by_node pr' = refs_by_node pr -> tinv (<[p := pr']> P) N R.
Proof.
  intros HT Hp E1 E2 E3 x xr. rewrite lookup_insert. case_decide; [subst x; intros [= <-]; unfold trees; rewrite E1, E2, E3; by apply HT|apply HT].
Qed.

(** ** Opening *)

Lemma open_proc_ok st H p q qd : inv st H None -> procs st !! p = None -> todo st !! q = None -> todo st !! qd = None -> q <> qd -> inv (open_proc st p q qd) H None /\ frame None st (open_proc st p q qd).
Proof.
  intros [HT HL HH HQ] Hp Hq Hqd Hne. split; [|apply frame_grows; split; simpl; eauto]. split; simpl.
  - intros x xr. rewrite lookup_insert. case_decide; [|apply HT]. subst x. intros [= <-]. split; [|split]; apply keyed_empty.
    + intros n (nd & Hn & Hnp). pose proof (hi_node _ _ _ _ _ _ HH n nd Hn) as Ha. rewrite Hnp in Ha. destruct (al_proc _ _ _ _ _ _ Ha). congruence.
    + intros r (rf & Hr & Hrp). destruct (qi_proc _ _ _ _ _ HQ r rf Hr). congruence.
    + intros r (rf & Hr & Hrp). destruct (qi_proc _ _ _ _ _ HQ r rf Hr). congruence.
  - done.
  - eapply hinv_procs; [done|]. intros x Hx. rewrite lookup_insert. case_decide; [by eexists|done].
  - apply qinv_lists; unfold lists_of; simpl.
    + apply qinv_list; [by apply qinv_list|]. by rewrite lookup_insert_ne.
    + apply NoDup_cons. split; [intros Hin%list_elem_of_singleton; congruence|apply NoDup_singleton].
    + intros x [->|[->|?%elem_of_nil]%elem_of_cons]%elem_of_cons; [rewrite lookup_insert_eq; by eexists|rewrite lookup_insert_ne, lookup_insert_eq by done; by eexists|done].
    + intros x y yr Hy [->|[->|?%elem_of_nil]%elem_of_cons]%elem_of_cons Hin; [by destruct (fresh_list _ _ _ _ _ y yr q HQ Hq Hy)|by destruct (fresh_list _ _ _ _ _ y yr qd HQ Hqd Hy)|done].
    + intros pr x Hpr. congruence.
Qed.

Lemma new_thread_ok st H p pr q : inv st H None -> procs st !! p = Some pr -> todo st !! q = None -> exists st', new_thread st p q = Some st' /\ inv st' H None /\ frame None st st'.
Proof.
  intros [HT HL HH HQ] Hp Hq. unfold new_thread. rewrite Hp. simpl. eexists. split; [done|]. split; [|apply frame_grows; split; simpl; eauto]. destruct (qi_lists _ _ _ _ _ HQ p pr Hp) as [Hnd Hls]. pose proof (fresh_list _ _ _ _ _ p pr q HQ Hq Hp) as Hfr. split; simpl.
  - by eapply tinv_trees.
  - done.
  - eapply hinv_procs; [done|]. intros x Hx. rewrite lookup_insert. case_decide; [by eexists|done].
  - apply qinv_lists; [by apply qinv_list| | | |].
    + unfold lists_of in *. simpl. rewrite !NoDup_cons in *. destruct Hnd as (N1 & N2 & N3). set_solver.
    + intros x Hx. rewrite lookup_insert. case_decide; [by eexists|]. apply Hls. unfold lists_of in *. simpl in Hx. set_solver.
    + intros x y yr Hy Hx Hxy. destruct (decide (x = q)) as [->|]; [by destruct (fresh_list _ _ _ _ _ y yr q HQ Hq Hy)|]. eapply (qi_apart _ _ _ _ _ HQ y p yr pr x); [done|done|done|]. unfold lists_of in *. simpl in Hx. set_solver.
    + intros pr0 x Hpr0. rewrite Hp in Hpr0. injection Hpr0 as <-. simpl. set_solver.
Qed.

(** ** Threads go *)

Lemma qinv_unthread P N R D Q p pr q : qinv P N R D Q -> P !! p = Some pr -> q ∈ threads pr -> qinv (<[p := with_threads (list_del q (threads pr)) pr]> P) N R D (delete q Q).
Proof.
  intros [Q1 Q2 Q3 Q4 Q5 Q6 Q7 Q8 Q9] Hp Hq. destruct (Q5 p pr Hp) as [Hnd Hls]. unfold lists_of in Hnd. rewrite !NoDup_cons in Hnd. destruct Hnd as (N1 & N2 & N3).
  assert (Hin : forall x, x ∈ lists_of (with_threads (list_del q (threads pr)) pr) -> x ∈ lists_of pr /\ x <> q).
  { intros x. unfold lists_of. simpl. rewrite !elem_of_cons, elem_of_list_del. intros [->|[->|[Hx Hne]]]; [split; [set_solver|intros <-; set_solver]|split; [set_solver|intros <-; set_solver]|split; [set_solver|done]]. }
  split; try done.
  - intros x l [_ Hl]%lookup_delete_Some. by eapply Q1.
  - intros w x y [Hx _]%queued_gone [Hy _]%queued_gone. by eapply Q2.
  - intros n x [Hx Hne]%queued_gone. destruct (Q3 n x Hx) as (y & yr & Hm & Hy & Hin'). exists y. rewrite lookup_insert. case_decide; [subst y|by exists yr]. rewrite Hp in Hy. injection Hy as <-. eexists. split; [done|]. split; [done|]. simpl. rewrite elem_of_cons, elem_of_list_del in *. tauto.
  - intros d x [Hx _]%queued_gone. by eapply Q4.
  - intros x xr. rewrite lookup_insert. case_decide; [subst x; intros [= <-]|].
    + split; [unfold lists_of; simpl; rewrite !NoDup_cons, !elem_of_cons, !elem_of_list_del; rewrite elem_of_cons in N1; split; [tauto|]; split; [tauto|by apply NoDup_list_del]|]. intros y [Hy Hne]%Hin. rewrite lookup_delete_ne by done. by apply Hls.
    + intros Hx. destruct (Q5 x xr Hx) as [H1 H2]. split; [done|]. intros y Hy. rewrite lookup_delete_ne; [by apply H2|]. intros <-. assert (x = p) by (eapply (Q6 x p xr pr q); try done; unfold lists_of; set_solver). congruence.
  - intros x y xr yr z. rewrite !lookup_insert. case_decide; case_decide; [congruence|intros [= <-] Hy [H1 _]%Hin H2; subst; by eapply (Q6 x y pr yr z)|intros Hx [= <-] H1 [H2 _]%Hin; subst; by eapply (Q6 x y xr pr z)|apply Q6].
  - intros r rf d Hr Hd. destruct (Q7 r rf d Hr Hd) as (dt & Hdt & H). exists dt. split; [done|]. intros x [Hx _]%queued_gone. by eapply H.
  - intros r rf Hr. rewrite lookup_insert. case_decide; [by eexists|by eapply Q9].
Qed.

Lemma thread_exit_ok st H p pr q : inv st H None -> procs st !! p = Some pr -> q ∈ threads pr ->
  exists st', free_thread st p q = Some st' /\ inv st' H None /\ st' = set_todo (set_proc st p (with_threads (list_del q (threads pr)) pr)) (delete q (todo st)).
Proof.
  intros [HT HL HH HQ] Hp Hq. unfold free_thread. rewrite Hp. simpl. eexists. split; [done|]. split; [|done]. split; simpl.
  - by eapply tinv_trees.
  - done.
  - eapply hinv_procs; [done|]. intros x Hx. rewrite lookup_insert. case_decide; [by eexists|done].
  - by apply qinv_unthread.
Qed.

(** ** The context manager *)

Lemma hinv_mgr P N H l n nd nd' p : hinv P N H None l None -> N !! n = Some nd -> n_proc nd = Some p -> n_proc nd' = Some p -> alive P H (Some n) n nd' p -> hinv P (<[n := nd']> N) H (Some n) l None.
Proof.
  intros [H1 H2 H3 H4 H5] Hn Hp Hp' Ha. assert (Hm : forall q x, mine (<[n := nd']> N) q x <-> mine N q x) by (intros q x; apply (mine_insert N n nd); [done|congruence]). split.
  - intros m md. rewrite lookup_insert. case_decide as Hx; [subst m; intros [= <-]; by rewrite Hp'|]. intros Hmd. specialize (H1 m md Hmd). destruct (n_proc md); [|done]. destruct H1 as [A1 A2 A3 A4 A5]. split; try done; rewrite bool_decide_eq_false_2 in * by congruence; done.
  - intros h Hh. destruct (H2 h Hh) as [q Hq]. exists q. by apply Hm.
  - intros m [= <-]. exists p. apply Hm. by exists nd.
  - done.
  - intros m Hml. destruct (H5 m Hml) as (md & Hmd & Hpd). exists md. rewrite lookup_insert_ne; [done|]. congruence.
Qed.

Lemma set_context_mgr_ok st H p pr euid mem : inv st H None -> procs st !! p = Some pr -> (forall n, mem = Some n -> bnodes st !! n = None) ->
  exists st' ret, set_context_mgr st p euid mem = Some (st', ret) /\ inv st' H None /\ frame None st st' /\ (ret = 0 -> exists n, binder_context_mgr_node st' = Some n /\ object_of st' n p 0 0).
Proof.
  intros Hi Hp Hm. unfold set_context_mgr. destruct (binder_context_mgr_node st) eqn:Hmg; [eexists _, _; split; [done|]; split; [done|]; split; [apply fr_refl|done]|].
  destruct (match binder_context_mgr_uid st with Some u => bool_decide (u <> euid) | None => false end); [eexists _, _; split; [done|]; split; [done|]; split; [apply fr_refl|done]|].
  assert (Hi1 : inv (set_mgr_uid st (Some euid)) H None) by (by destruct Hi as [HT HL HH HQ]; split).
  destruct (new_node_ok _ H p pr 0 0 mem Hi1 Hp Hm) as (st1 & o & E & Hi2 & Ho). rewrite E. simpl. destruct o as [n|].
  - destruct Ho as (Hmn & _ & t & ->). simpl. rewrite lookup_insert_eq. simpl. eexists _, _. split; [done|]. specialize (Hm n Hmn). destruct Hi2 as [HT HL HH HQ]. simpl in *. rewrite Hmg in HH.
    assert (Hn : <[n := new_bnode p 0 0]> (bnodes st) !! n = Some (new_bnode p 0 0)) by (by rewrite lookup_insert_eq).
    split; [split; simpl|split].
    + by eapply tinv_node.
    + by eapply linv_node.
    + eapply hinv_mgr; try done. pose proof (hi_node _ _ _ _ _ _ HH n _ Hn) as Ha. simpl in Ha. destruct Ha as [A1 A2 A3 A4 A5]. simpl in *. split; simpl; rewrite ?bool_decide_eq_true_2 by done; simpl; try done; change (s32 (0 + 1)) with 1; lia.
    + by eapply qinv_node.
    + apply frame_grows. split; simpl; [eauto|]. intros m md Hmd. exists md. rewrite !lookup_insert_ne; [done|congruence..].
    + intros _. exists n. split; [done|]. eexists. simpl. rewrite lookup_insert_eq. split; [done|]. by split.
  - destruct Ho as [-> _]. eexists _, _. split; [done|]. split; [|split; [|done]]; [|apply frame_grows; split; simpl; eauto]. destruct Hi as [HT HL HH HQ]. split; try done. simpl. by rewrite Hmg in HH.
Qed.

End BinderRefProc.
