(* ===== verification/BinderRefExit.v ===== *)
(** * The binder's nodes and references: the end of a process *)

From Stdlib Require Import ZArith Lia.
From stdpp Require Import base option gmap sorting list.
From S2P Require Import Prelude Rbtree RbtreeWalk BinderRef BinderRefInv BinderRefLink BinderRefCmd.

Local Open Scope Z_scope.
Local Open Scope kernel_scope.

Module BinderRefExit.
Import Rbtree RbtreeKey BinderRef BinderRefInv BinderRefOps BinderRefLink BinderRefGet BinderRefCmd BinderRefRead BinderRefObj BinderRefProc.

Implicit Types (P : gmap pid ref_proc) (N : gmap nid binder_node) (R : gmap rid binder_ref) (D : gmap did binder_ref_death) (Q : gmap qid (list work)).

(** ** A node without its process *)

Definition drop_holds (n : nid) (H : list hold) : list hold := filter (fun h => h.1 <> n) H.

Lemma elem_of_drop n H h : h ∈ drop_holds n H <-> h ∈ H /\ h.1 <> n.
Proof. unfold drop_holds. rewrite list_elem_of_filter. tauto. Qed.

Lemma holds_drop n H m s : m <> n -> holds (drop_holds n H) m s = holds H m s.
Proof.
  intros Hm. unfold holds, drop_holds. rewrite list_filter_filter. do 2 f_equal. apply list_filter_iff. intros h. split; [tauto|]. intros ->. done.
Qed.

Lemma alive_drop P H mgr n m md p : m <> n -> alive P H mgr m md p -> alive P (drop_holds n H) mgr m md p.
Proof. intros Hm [A1 A2 A3 A4 A5]. split; rewrite ?holds_drop by done; done. Qed.

Lemma hinv_drop P N H mgr l n nd p : hinv P N H mgr l None -> N !! n = Some nd -> n_proc nd = Some p -> mgr <> Some n -> hinv P (delete n N) (drop_holds n H) mgr l None.
Proof.
  intros [H1 H2 H3 H4 H5] Hn Hp Hmg. assert (Hm : forall q x, x <> n -> mine N q x -> mine (delete n N) q x) by (intros q x Hx (y & Hy & Hyp); exists y; by rewrite lookup_delete_ne). split.
  - intros m md [Hne Hmd]%lookup_delete_Some. specialize (H1 m md Hmd). destruct (n_proc md); [by apply alive_drop|done].
  - intros h [Hin Hne]%elem_of_drop. destruct (H2 h Hin) as [q Hq]. exists q. by apply Hm.
  - intros m Hmm. destruct (H3 m Hmm) as [q Hq]. exists q. apply Hm; [|done]. by intros ->.
  - done.
  - intros m Hml. destruct (H5 m Hml) as (md & Hmd & Hpd). exists md. rewrite lookup_delete_ne; [done|]. congruence.
Qed.

Lemma hinv_die P N H mgr l n nd nd' p : hinv P N H mgr l None -> N !! n = Some nd -> n_proc nd = Some p -> mgr <> Some n -> n_proc nd' = None -> local_strong_refs nd' = 0 -> local_weak_refs nd' = 0 -> n_refs nd' <> [] ->
  hinv P (<[n := nd']> N) (drop_holds n H) mgr (n :: l) None.
Proof.
  intros HH Hn Hp Hmg Hp' Hs Hw Hr. destruct (hinv_drop P N H mgr l n nd p HH Hn Hp Hmg) as [H1 H2 H3 H4 H5]. rewrite <- insert_delete_eq.
  assert (Hm : forall q x, mine (delete n N) q x -> mine (<[n := nd']> (delete n N)) q x) by (intros q x Hx; apply mine_new; [by rewrite lookup_delete_eq|by left]). split.
  - intros m md. rewrite lookup_insert. case_decide as Hc; [subst m; intros [= <-]; rewrite Hp'; split; try done; set_solver|]. intros Hmd. specialize (H1 m md Hmd). destruct (n_proc md); [done|]. destruct H1 as [D1 D2 D3 D4]. split; try done. set_solver.
  - intros h Hh. destruct (H2 h Hh) as [q Hq]. exists q. by apply Hm.
  - intros m Hmm. destruct (H3 m Hmm) as [q Hq]. exists q. by apply Hm.
  - constructor; [|done]. intros Hin. destruct (H5 n Hin) as (md & Hmd & _). by rewrite lookup_delete_eq in Hmd.
  - intros m [->|Hml]%elem_of_cons; [exists nd'; by rewrite lookup_insert_eq|]. destruct (H5 m Hml) as (md & Hmd & Hpd). exists md. rewrite lookup_insert_ne; [done|]. intros <-. by rewrite lookup_delete_eq in Hmd.
Qed.

Lemma tinv_dead P N R n nd' : tinv P N R -> N !! n = None -> n_proc nd' = None -> tinv P (<[n := nd']> N) R.
Proof.
  intros HT Hn Hp q qr Hq. destruct (HT q qr Hq) as (T1 & T2). split; [|done]. eapply keyed_ext; [exact T1| |].
  - intros x (y & Hy & _). unfold nkey. rewrite lookup_insert_ne; [done|]. congruence.
  - intros x. rewrite mine_new by done. split; [intros [?|[_ ?]]; [done|congruence]|by left].
Qed.

Lemma qinv_die P N R D Q n nd nd' : qinv P N R D Q -> N !! n = Some nd -> (forall q, ~ queued Q (WNode n) q) -> n_proc nd' = None -> qinv P (<[n := nd']> N) R D Q.
Proof.
  intros [Q1 Q2 Q3 Q4 Q5 Q6 Q7 Q8 Q9] Hn Hno Hp. split; try done.
  - intros m q Hq. destruct (Q3 m q Hq) as (p & pr & (md & Hm & Hmp) & H). exists p, pr. split; [|done]. exists md. rewrite lookup_insert_ne; [done|]. intros <-. by apply Hno in Hq.
  - intros r rf d Hr Hd. destruct (Q7 r rf d Hr Hd) as (dt & Hdt & H). exists dt. split; [done|]. intros q Hq. destruct (H q Hq) as (Ht & x & Hx & Hxp). split; [done|]. rewrite lookup_insert. case_decide; [by exists nd'|by exists x].
Qed.

(** ** News of a death *)

(** The process of a reference has the news before it, if it asked for them. *)
Definition notified (st : state) (rf : binder_ref) : Prop :=
  forall d, death rf = Some d -> exists pr dt, procs st !! r_proc rf = Some pr /\ queued (todo st) (WDeath d) (p_todo pr) /\ deaths st !! d = Some dt /\ d_type dt = Some DEAD_BINDER.

(** Only deaths and lists of work differ. *)
Definition only_work (st st' : state) : Prop :=
  procs st' = procs st /\ bnodes st' = bnodes st /\ brefs st' = brefs st /\ binder_context_mgr_node st' = binder_context_mgr_node st /\ binder_dead_nodes st' = binder_dead_nodes st.

Lemma notify_deaths_ok H : forall l st, inv st H None -> NoDup l ->
  (forall r, r ∈ l -> exists rf nd, brefs st !! r = Some rf /\ bnodes st !! r_node rf = Some nd /\ n_proc nd = None /\ forall d q, death rf = Some d -> ~ queued (todo st) (WDeath d) q) ->
  exists st', notify_deaths st l = Some st' /\ inv st' H None /\ only_work st st' /\
    (forall r rf, r ∈ l -> brefs st !! r = Some rf -> notified st' rf) /\ forall rf, notified st rf -> notified st' rf.
Proof.
  induction l as [|r l IH]; intros st Hi Hnd Hl; simpl.
  { exists st. split; [done|]. split; [done|]. split; [done|]. split; [intros r rf ?%elem_of_nil; done|done]. }
  apply NoDup_cons in Hnd as [Hrl Hnd]. destruct (Hl r) as (rf & nd & Hr & Hn & Hnp & Hnq); [set_solver|]. rewrite Hr. simpl. destruct (death rf) as [d|] eqn:Hd.
  - pose proof (iv_q _ _ _ Hi) as HQ. destruct (qi_ref _ _ _ _ _ HQ r rf d Hr Hd) as (dt & Hdt & _). destruct (qi_proc _ _ _ _ _ HQ r rf Hr) as [pr Hp]. rewrite Hdt. simpl. rewrite Hp. simpl.
    destruct (own_list_some st H None _ pr (p_todo pr) Hi Hp) as [w Hw]; [unfold lists_of; set_solver|]. assert (Hnq' : forall q, ~ queued (todo st) (WDeath d) q) by (intros q; by apply Hnq).
    rewrite (add_work_ok _ _ w); [|done|apply not_true_is_false; intros (q & Hq)%on_list_queued; by apply Hnq' in Hq]. simpl. set (st1 := set_todo _ _).
    assert (Href : forall x xf, brefs st !! x = Some xf -> death xf = Some d -> x = r) by (intros x xf Hx Hxd; by eapply (qi_inj _ _ _ _ _ HQ x r xf rf d)).
    assert (Hi1 : inv st1 H None).
    { apply (inv_todo st H None (<[d := mk_death (d_cookie dt) (Some DEAD_BINDER)]> (deaths st)) (<[p_todo pr := list_add_tail (WDeath d) w]> (todo st))); [done|]. eapply (qinv_add_death _ _ _ _ _ d (mk_death (d_cookie dt) (Some DEAD_BINDER)) _ w); try done.
      - eapply qinv_retype; [done|done|done|]. intros x xf q Hx Hxd Hq. by apply Hnq' in Hq.
      - unfold list_add_tail. by rewrite Permutation_app_comm.
      - by rewrite lookup_insert_eq.
      - intros x xf Hx Hxd. rewrite (Href x xf Hx Hxd), Hr in Hx. injection Hx as <-. split; [done|]. by exists nd. }
    assert (Hkeep : forall xf, notified st xf -> notified st1 xf).
    { intros xf Hx e He. destruct (Hx e He) as (xr & xt & X1 & X2 & X3 & X4). exists xr. simpl. rewrite lookup_insert. case_decide; [eexists; split; [done|]; split; [|done]|exists xt; split; [done|]; split; [|done]]; apply queued_add; [done|by left|done|by left]. }
    destruct (IH st1 Hi1 Hnd) as (st' & E & Hi' & (o1 & o2 & o3 & o4 & o5) & Hnew & Hold).
    { intros x Hx. destruct (Hl x) as (xf & xd & X1 & X2 & X3 & X4); [set_solver|]. exists xf, xd. split; [done|]. split; [done|]. split; [done|]. intros e q He. simpl. rewrite queued_add by done. intros [Hq|[[= ->] _]]; [by apply (X4 e q)|]. apply Hrl. by rewrite <- (Href x xf X1 He). }
    exists st'. split; [done|]. split; [done|]. split; [done|]. split; [|intros xf Hx; by apply Hold, Hkeep]. intros x xf [->|Hx]%elem_of_cons Hxf; [|by apply (Hnew x)]. apply Hold. rewrite Hr in Hxf. injection Hxf as <-.
    intros e He. rewrite Hd in He. injection He as <-. exists pr. simpl. rewrite lookup_insert_eq. eexists. split; [done|]. split; [|done]. apply queued_add; [done|by right].
  - destruct (IH st Hi Hnd) as (st' & E & Hi' & Ho & Hnew & Hold); [intros x Hx; apply Hl; set_solver|]. simpl. exists st'. split; [done|]. split; [done|]. split; [done|]. split; [|done].
    intros x xf [->|Hx]%elem_of_cons Hxf; [|by apply (Hnew x)]. rewrite Hr in Hxf. injection Hxf as <-. intros e He. congruence.
Qed.

(** ** The nodes of the process *)

(** What a step of the release leaves of the nodes: [n] is gone or has no process. *)
Record node_left (st st' : state) (n : nid) (nd : binder_node) : Prop := {
  nl_refs : brefs st' = brefs st;
  nl_mgr : binder_context_mgr_node st' = binder_context_mgr_node st;
  nl_lists : same_lists (procs st) (procs st');
  nl_other : forall m, m <> n -> bnodes st' !! m = bnodes st !! m;
  nl_this : (n_refs nd = [] /\ bnodes st' !! n = None) \/ exists nd', bnodes st' !! n = Some nd' /\ n_proc nd' = None /\ what nd' = what nd;
  nl_new : forall r rf, brefs st !! r = Some rf -> r_node rf = n -> notified st' rf;
  nl_old : forall rf, notified st rf -> notified st' rf
}.

Lemma notified_lists st st' rf : same_lists (procs st) (procs st') -> deaths_stay (todo st) (todo st') -> deaths st' = deaths st -> notified st rf -> notified st' rf.
Proof.
  intros Hsl Hq Hd Hx d He. destruct (Hx d He) as (pr & dt & H1 & H2 & H3 & H4). destruct (same_lists_back _ _ _ _ Hsl H1) as (pr' & H1' & E). exists pr', dt. split; [done|]. split; [|by rewrite Hd]. unfold lists_of in E. injection E as -> _ _. by apply Hq.
Qed.

Lemma release_node_ok st H p pr n nd : inv st H None -> procs st !! p = Some pr -> bnodes st !! n = Some nd -> n_proc nd = Some p -> binder_context_mgr_node st <> Some n ->
  exists st', release_node st p n = Some st' /\ inv st' (drop_holds n H) None /\ node_left st st' n nd.
Proof.
  intros Hi Hp Hn Hnp Hmg. pose proof Hi as [HT HL HH HQ]. destruct (HT p pr Hp) as (T1 & _). destruct (keyed_erase _ _ _ n T1) as (t & Et & Ht); [by exists nd|].
  unfold release_node. rewrite Hp. simpl. rewrite Et. simpl. rewrite Hn. simpl. assert (Hsl : same_lists (procs st) (<[p := with_nodes t pr]> (procs st))) by (by eapply same_lists_insert).
  assert (HQ1 : qinv (procs st) (bnodes st) (brefs st) (deaths st) (list_del (WNode n) <$> todo st)) by (by apply qinv_del). assert (Hnq : forall q, ~ queued (list_del (WNode n) <$> todo st) (WNode n) q) by (intros q; apply del_not_queued).
  case_bd as Hr.
  - eexists. split; [done|]. split.
    + split; simpl; [by eapply tinv_free|by eapply linv_free| |eapply qinv_procs; [by eapply qinv_free|exact Hsl]]. eapply hinv_procs; [by eapply hinv_drop|]. intros x. by apply same_lists_dom.
    + split; simpl; try done; [intros m Hm; by rewrite lookup_delete_ne|left; by rewrite lookup_delete_eq| |intros rf; by apply notified_lists; [|apply deaths_stay_del|]].
      intros r rf Hrf Hrn. destruct (li_ref _ _ HL r rf Hrf) as ((x & Hx & Hin) & _). rewrite Hrn, Hn in Hx. injection Hx as <-. rewrite Hr in Hin. by apply elem_of_nil in Hin.
  - set (nd' := with_n_proc None (with_counts (internal_strong_refs nd) 0 0 nd)). set (st1 := set_dead _ _).
    assert (Hi1 : inv st1 (drop_holds n H) None).
    { split; simpl.
      - rewrite <- (insert_delete_eq (bnodes st) n nd'). apply tinv_dead; [by eapply tinv_free|by rewrite lookup_delete_eq|done].
      - by eapply linv_node.
      - eapply hinv_procs; [by eapply hinv_die|]. intros x. by apply same_lists_dom.
      - eapply qinv_procs; [|exact Hsl]. by eapply qinv_die. }
    destruct (notify_deaths_ok (drop_holds n H) (n_refs nd) st1 Hi1) as (st' & E & Hi' & (o1 & o2 & o3 & o4 & o5) & Hnew & Hold).
    { by eapply (li_nodup _ _ HL). }
    { intros r Hin. destruct (li_back _ _ HL n nd r Hn Hin) as (rf & Hrf & Hrn). exists rf, nd'. simpl. rewrite Hrn, lookup_insert_eq. split; [done|]. split; [done|]. split; [done|]. intros d q Hd [Hq _]%queued_del.
      destruct (qi_ref _ _ _ _ _ HQ r rf d Hrf Hd) as (dt & _ & Hall). destruct (Hall q Hq) as (_ & x & Hx & Hxp). rewrite Hrn, Hn in Hx. injection Hx as <-. congruence. }
    exists st'. split; [exact E|]. split; [done|]. split; rewrite ?o1, ?o2, ?o3, ?o4; simpl; try done.
    + intros m Hm. by rewrite lookup_insert_ne.
    + right. exists nd'. by rewrite lookup_insert_eq.
    + intros r rf Hrf Hrn. destruct (li_ref _ _ HL r rf Hrf) as ((x & Hx & Hin) & _). rewrite Hrn, Hn in Hx. injection Hx as <-. by apply (Hnew r).
    + intros rf Hx. apply Hold. eapply notified_lists; [| | |exact Hx]; simpl; [done|apply deaths_stay_del|done].
Qed.

(** The holds on nodes of other processes. *)
Definition left_holds (N : gmap nid binder_node) (p : pid) (H : list hold) : list hold := filter (fun h => n_proc <$> N !! h.1 <> Some (Some p)) H.

Definition nodes_of (N : gmap nid binder_node) (p : pid) : gmap nid binder_node := filter (fun x => n_proc x.2 = Some p) N.

Record nodes_left (st st' : state) (p : pid) : Prop := {
  ns_refs : brefs st' = brefs st;
  ns_mgr : binder_context_mgr_node st' = binder_context_mgr_node st;
  ns_lists : same_lists (procs st) (procs st');
  ns_other : forall m md, bnodes st !! m = Some md -> n_proc md <> Some p -> bnodes st' !! m = Some md;
  ns_back : forall m md', bnodes st' !! m = Some md' -> exists md, bnodes st !! m = Some md /\ what md' = what md /\ n_proc md' = (if bool_decide (n_proc md = Some p) then None else n_proc md);
  ns_new : forall r rf, brefs st !! r = Some rf -> mine (bnodes st) p (r_node rf) -> notified st' rf;
  ns_old : forall rf, notified st rf -> notified st' rf
}.

Lemma nodes_left_none st p : (forall n, ~ mine (bnodes st) p n) -> nodes_left st st p.
Proof.
  intros Hno. assert (Hx : forall m md, bnodes st !! m = Some md -> n_proc md <> Some p) by (intros m md Hm Hp; apply (Hno m); by exists md). split; try done.
  - intros m md Hm. exists md. split; [done|]. split; [done|]. rewrite bool_decide_eq_false_2; [done|]. by eapply Hx.
  - intros r rf _ Hm. by apply Hno in Hm.
Qed.

Lemma nodes_left_cons st st1 st2 p n nd : bnodes st !! n = Some nd -> n_proc nd = Some p -> node_left st st1 n nd -> nodes_left st1 st2 p -> nodes_left st st2 p.
Proof.
  intros Hn Hnp [a1 a2 a3 a4 a5 a6 a7] [b1 b2 b3 b4 b5 b6 b7]. split; [congruence|congruence|intros q; by rewrite b3| | | |intros rf Hx; by apply b7, a7].
  - intros m md Hm Hmp. apply b4; [|done]. rewrite a4; [done|]. intros ->. congruence.
  - intros m md' Hm'. destruct (b5 m md' Hm') as (x & Hx & Hw & Hp'). destruct (decide (m = n)) as [->|Hne]; [|rewrite a4 in Hx by done; by exists x]. destruct a5 as [[_ ?]|(y & Hy & Hyp & Hyw)]; [congruence|]. rewrite Hy in Hx. injection Hx as <-.
    exists nd. split; [done|]. split; [congruence|]. rewrite (bool_decide_eq_true_2 (n_proc nd = Some p)) by done. rewrite Hp', Hyp. done.
  - intros r rf Hr (md & Hm & Hmp). destruct (decide (r_node rf = n)) as [He|Hne]; [by eapply b7, a6|]. apply (b6 r); [by rewrite a1|]. exists md. by rewrite a4.
Qed.

Lemma nodes_of_left st st' n nd p : bnodes st !! n = Some nd -> n_proc nd = Some p -> node_left st st' n nd -> nodes_of (bnodes st') p = delete n (nodes_of (bnodes st) p).
Proof.
  intros Hn Hnp [_ _ _ a4 a5 _ _]. apply map_eq. intros m. apply option_eq. intros y. unfold nodes_of. rewrite lookup_delete_Some, !map_lookup_filter_Some. simpl. destruct (decide (m = n)) as [->|Hne]; [|rewrite a4 by done; naive_solver].
  split; [|naive_solver]. intros [Hy Hyp]. destruct a5 as [[_ ?]|(z & Hz & Hzp & _)]; congruence.
Qed.

Lemma left_drop st st' n nd p H : bnodes st !! n = Some nd -> n_proc nd = Some p -> node_left st st' n nd -> left_holds (bnodes st') p (drop_holds n H) = left_holds (bnodes st) p H.
Proof.
  intros Hn Hnp [_ _ _ a4 a5 _ _]. unfold left_holds, drop_holds. rewrite list_filter_filter. apply list_filter_iff. intros [m s]. simpl. destruct (decide (m = n)) as [->|Hne]; [|rewrite a4 by done; tauto]. rewrite Hn. simpl. rewrite Hnp. tauto.
Qed.

Lemma filter_every {A} (P : A -> Prop) `{forall x, Decision (P x)} (l : list A) : (forall x, x ∈ l -> P x) -> filter P l = l.
Proof. intros Hl. induction l as [|x l IH]; [done|]. rewrite filter_cons, decide_True by (apply Hl; set_solver). f_equal. apply IH. intros y Hy. apply Hl. set_solver. Qed.

Lemma left_none st H u p : inv st H u -> (forall n, ~ mine (bnodes st) p n) -> left_holds (bnodes st) p H = H.
Proof.
  intros Hi Hno. unfold left_holds. apply filter_every. intros h Hh E. destruct (bnodes st !! h.1) as [nd|] eqn:Hn; [|done]. simpl in E. injection E as E. apply (Hno h.1). by exists nd.
Qed.

Lemma release_nodes_ok p : forall fuel st H pr, inv st H None -> procs st !! p = Some pr -> (size (nodes_of (bnodes st) p) <= fuel)%nat -> (forall m, binder_context_mgr_node st = Some m -> ~ mine (bnodes st) p m) ->
  exists st', release_nodes fuel st p = Some st' /\ inv st' (left_holds (bnodes st) p H) None /\ nodes_left st st' p.
Proof.
  induction fuel as [|fuel IH]; intros st H pr Hi Hp Hsz Hmg; simpl; rewrite Hp; simpl; destruct (iv_t _ _ _ Hi p pr Hp) as (T1 & _); destruct (keyed_first _ _ _ T1) as (o & -> & Ho); simpl; destruct o as [n|].
  - exfalso. destruct Ho as (nd & Hn & Hnp). assert (Hs : nodes_of (bnodes st) p !! n = Some nd) by (by apply map_lookup_filter_Some). assert (size (nodes_of (bnodes st) p) <> 0%nat); [|lia]. intros E. apply map_size_empty_inv in E. rewrite E in Hs. by rewrite lookup_empty in Hs.
  - exists st. rewrite (left_none st H None) by done. split; [done|]. split; [done|by apply nodes_left_none].
  - destruct Ho as (nd & Hn & Hnp). destruct (release_node_ok st H p pr n nd Hi Hp Hn Hnp) as (st1 & E1 & Hi1 & Hl1); [intros E; apply (Hmg n E); by exists nd|]. rewrite E1. simpl.
    destruct (same_lists_back _ _ _ _ (nl_lists _ _ _ _ Hl1) Hp) as (pr1 & Hp1 & _). destruct (IH st1 (drop_holds n H) pr1 Hi1 Hp1) as (st2 & E2 & Hi2 & Hl2).
    + rewrite (nodes_of_left _ _ _ _ _ Hn Hnp Hl1). rewrite (map_size_delete_Some); [lia|]. exists nd. by apply map_lookup_filter_Some.
    + rewrite (nl_mgr _ _ _ _ Hl1). intros m Hm (md & Hmd & Hmp). destruct (decide (m = n)) as [->|Hne]; [by apply (Hmg n Hm); exists nd|]. rewrite (nl_other _ _ _ _ Hl1) in Hmd by done. apply (Hmg m Hm). by exists md.
    + exists st2. split; [done|]. rewrite <- (left_drop st st1 n nd p H) by done. split; [done|]. by eapply nodes_left_cons.
  - exists st. rewrite (left_none st H None) by done. split; [done|]. split; [done|by apply nodes_left_none].
Qed.

End BinderRefExit.

(** * The binder's nodes and references: all that is left of a process *)

Local Open Scope Z_scope.
Local Open Scope kernel_scope.

Module BinderRefGone.
Import Rbtree RbtreeKey BinderRef BinderRefInv BinderRefOps BinderRefLink BinderRefGet BinderRefCmd BinderRefRead BinderRefObj BinderRefProc BinderRefExit.

Implicit Types (P : gmap pid ref_proc) (N : gmap nid binder_node) (R : gmap rid binder_ref) (D : gmap did binder_ref_death) (Q : gmap qid (list work)).

(** ** The references of the process *)

Definition refs_of (R : gmap rid binder_ref) (p : pid) : gmap rid binder_ref := filter (fun x => r_proc x.2 = p) R.

Record refs_left (st st' : state) (p : pid) : Prop := {
  rs_stay : forall r rf, brefs st !! r = Some rf -> r_proc rf <> p -> brefs st' !! r = Some rf;
  rs_back : forall r rf, brefs st' !! r = Some rf -> brefs st !! r = Some rf /\ r_proc rf <> p;
  rs_mgr : binder_context_mgr_node st' = binder_context_mgr_node st;
  rs_lists : same_lists (procs st) (procs st');
  rs_nodes : forall m md', bnodes st' !! m = Some md' -> exists md, bnodes st !! m = Some md /\ nident md' = nident md;
  rs_old : forall r rf, brefs st !! r = Some rf -> r_proc rf <> p -> notified st rf -> notified st' rf
}.

Lemma refs_left_none st p : (forall r, ~ owned (brefs st) p r) -> refs_left st st p.
Proof.
  intros Hno. split; try done; [|intros m md Hm; by exists md]. intros r rf Hr. split; [done|]. intros Hp. apply (Hno r). by exists rf.
Qed.

Lemma refs_left_cons st H u st1 st2 p r rf : inv st H u -> brefs st !! r = Some rf -> r_proc rf = p -> unreffed st st1 r -> refs_left st1 st2 p -> refs_left st st2 p.
Proof.
  intros Hi Hr Hrp [u1 u2 u3 u4 u5] [a1 a2 a3 a4 a5 a6]. split; [| |congruence|intros q; by rewrite a4| |].
  - intros x xf Hx Hxp. apply a1; [|done]. rewrite u1, lookup_delete_ne; [done|]. intros <-. congruence.
  - intros x xf Hx. apply a2 in Hx as [Hx Hxp]. rewrite u1 in Hx. apply lookup_delete_Some in Hx as [_ Hx]. done.
  - intros m md2 H2. destruct (a5 m md2 H2) as (md1 & H1 & E1). destruct (u4 m md1 H1) as (md & Hm & E). exists md. split; [done|congruence].
  - intros x xf Hx Hxp Hn. apply (a6 x); [rewrite u1, lookup_delete_ne; [done|]; intros <-; congruence|done|]. intros d Hd. destruct (Hn d Hd) as (pr & dt & N1 & N2 & N3 & N4). destruct (same_lists_back _ _ _ _ u2 N1) as (pr1 & N1' & E). unfold lists_of in E. injection E as E1 _ _.
    destruct (u5 d (p_todo pr) N2) as [Hq Hd']; [|exists pr1, dt; rewrite E1, Hd'; done]. intros y Hy Hyd. rewrite Hr in Hy. injection Hy as <-. assert (x = r) by (by eapply (qi_inj _ _ _ _ _ (iv_q _ _ _ Hi) x r xf rf d)). congruence.
Qed.

Lemma release_refs_ok p H : forall fuel st pr, inv st H None -> procs st !! p = Some pr -> (size (refs_of (brefs st) p) <= fuel)%nat -> exists st', release_refs fuel st p = Some st' /\ inv st' H None /\ refs_left st st' p.
Proof.
  induction fuel as [|fuel IH]; intros st pr Hi Hp Hsz; simpl; rewrite Hp; simpl; destruct (iv_t _ _ _ Hi p pr Hp) as (_ & T2 & _); destruct (keyed_first _ _ _ T2) as (o & -> & Ho); simpl; destruct o as [r|].
  - exfalso. destruct Ho as (rf & Hr & Hrp). assert (Hs : refs_of (brefs st) p !! r = Some rf) by (by apply map_lookup_filter_Some). assert (size (refs_of (brefs st) p) <> 0%nat); [|lia]. intros E. apply map_size_empty_inv in E. rewrite E in Hs. by rewrite lookup_empty in Hs.
  - exists st. split; [done|]. split; [done|by apply refs_left_none].
  - destruct Ho as (rf & Hr & Hrp). destruct (delete_ref_ok st H r rf Hi Hr) as (st1 & E1 & Hi1 & Hu). rewrite E1. simpl. destruct (same_lists_back _ _ _ _ (un_lists _ _ _ Hu) Hp) as (pr1 & Hp1 & _).
    destruct (IH st1 pr1 Hi1 Hp1) as (st2 & E2 & Hi2 & Hl2); [|exists st2; split; [done|]; split; [done|]; by eapply refs_left_cons].
    rewrite (un_refs _ _ _ Hu). unfold refs_of. rewrite map_filter_delete. rewrite map_size_delete_Some; [unfold refs_of in Hsz; lia|]. exists rf. by apply map_lookup_filter_Some.
  - exists st. split; [done|]. split; [done|by apply refs_left_none].
Qed.

(** ** Its threads *)

Lemma list_del_head {A} `{EqDecision A} (x : A) l : x ∉ l -> list_del x (x :: l) = l.
Proof. intros Hx. unfold list_del. rewrite filter_cons, decide_False by tauto. by apply (list_del_not_in x l). Qed.

Lemma free_threads_ok p H : forall l st pr, inv st H None -> procs st !! p = Some pr -> threads pr = l ->
  exists st', free_threads st p l = Some st' /\ inv st' H None /\ bnodes st' = bnodes st /\ brefs st' = brefs st /\ binder_context_mgr_node st' = binder_context_mgr_node st /\ procs st' !! p = Some (with_threads [] pr).
Proof.
  induction l as [|q l IH]; intros st pr Hi Hp Hl; simpl.
  { exists st. split; [done|]. split; [done|]. split; [done|]. split; [done|]. split; [done|]. rewrite Hp. f_equal. destruct pr. simpl in Hl. by subst. }
  destruct (thread_exit_ok st H p pr q Hi Hp) as (st1 & E1 & Hi1 & ->); [rewrite Hl; set_solver|]. rewrite E1. simpl.
  assert (Hql : q ∉ l). { destruct (qi_lists _ _ _ _ _ (iv_q _ _ _ Hi) p pr Hp) as [Hnd _]. unfold lists_of in Hnd. rewrite Hl, !NoDup_cons in Hnd. tauto. }
  destruct (IH _ (with_threads (list_del q (threads pr)) pr) Hi1) as (st2 & E2 & Hi2 & a1 & a2 & a3 & a4); [simpl; by rewrite lookup_insert_eq|simpl; rewrite Hl; by apply list_del_head|]. exists st2. split; [done|]. split; [done|]. by rewrite a1, a2, a3, a4.
Qed.

(** ** The rest *)

Lemma qinv_unproc P N R D Q p pr : qinv P N R D Q -> P !! p = Some pr -> threads pr = [] -> (forall n, ~ mine N p n) -> (forall r, ~ owned R p r) ->
  qinv (delete p P) N R D (delete (p_todo pr) (delete (delivered_death pr) Q)).
Proof.
  intros [Q1 Q2 Q3 Q4 Q5 Q6 Q7 Q8 Q9] Hp Ht Hnm Hno.
  assert (Hqd : forall w q, queued (delete (p_todo pr) (delete (delivered_death pr) Q)) w q -> queued Q w q) by (intros w q [[H _]%queued_gone _]%queued_gone; done). split; try done.
  - intros q l [_ [_ Hl]%lookup_delete_Some]%lookup_delete_Some. by eapply Q1.
  - intros w x y Hx%Hqd Hy%Hqd. by eapply Q2.
  - intros n q Hq%Hqd. destruct (Q3 n q Hq) as (x & xr & Hm & Hx & Hin). exists x, xr. split; [done|]. split; [|done]. rewrite lookup_delete_ne; [done|]. intros <-. by apply Hnm in Hm.
  - intros d q Hq%Hqd. by eapply Q4.
  - intros x xr [Hne Hx]%lookup_delete_Some. destruct (Q5 x xr Hx) as [H1 H2]. split; [done|]. intros q Hq.
    assert (Hap : q ∉ lists_of pr) by (intros Hin; apply Hne; symmetry; by eapply (Q6 x p xr pr q)). unfold lists_of in Hap. rewrite !lookup_delete_ne by (intros <-; set_solver). by apply H2.
  - intros x y xr yr q [_ Hx]%lookup_delete_Some [_ Hy]%lookup_delete_Some. by eapply Q6.
  - intros r rf d Hr Hd. destruct (Q7 r rf d Hr Hd) as (dt & Hdt & H). exists dt. split; [done|]. intros q Hq%Hqd. by eapply H.
  - intros r rf Hr. rewrite lookup_delete_ne; [by eapply Q9|]. intros ->. apply (Hno r). by exists rf.
Qed.

Lemma inv_unproc st H p pr : inv st H None -> procs st !! p = Some pr -> threads pr = [] -> (forall n, ~ mine (bnodes st) p n) -> (forall r, ~ owned (brefs st) p r) ->
  inv (set_procs (set_todo st (delete (p_todo pr) (delete (delivered_death pr) (todo st)))) (delete p (procs st))) H None.
Proof.
  intros [HT HL [H1 H2 H3 H4 H5] HQ] Hp Ht Hnm Hno. split; simpl; [intros x xr [_ Hx]%lookup_delete_Some; by apply HT|done| |by apply qinv_unproc]. split; try done.
  intros n nd Hn. specialize (H1 n nd Hn). destruct (n_proc nd) as [x|] eqn:Hx; [|done]. destruct H1 as [A1 A2 A3 A4 A5]. split; try done. rewrite lookup_delete_ne; [done|]. intros <-. apply (Hnm n). by exists nd.
Qed.

(** The context manager goes: what it held of its own node, as if buffers held it. *)
Lemma hinv_unmgr P N H m l : hinv P N H (Some m) l None -> hinv P N ((m, true) :: (m, false) :: H) None l None.
Proof.
  intros [H1 H2 H3 H4 H5]. split; try done.
  - intros n nd Hn. specialize (H1 n nd Hn). destruct (n_proc nd) as [p|]; [|done]. destruct H1 as [A1 A2 A3 A4 A5]. split; try done; rewrite !holds_one; [rewrite A2|rewrite A3]; rewrite (bool_decide_eq_false_2 (@None nid = Some n)) by done; simpl; case_bd; repeat case_decide; simplify_eq/=; lia.
  - intros h Hh. apply elem_of_cons in Hh as [->|Hh]; [by apply H3|]. apply elem_of_cons in Hh as [->|Hh]; [by apply H3|by apply H2].
Qed.

Lemma size_filter {A} (f : nid * A -> Prop) `{forall x, Decision (f x)} (m : gmap nid A) : (size (filter f m) <= size m)%nat.
Proof. rewrite <- !size_dom. apply subseteq_size. intros x (a & [Ha _]%map_lookup_filter_Some)%elem_of_dom. by apply elem_of_dom_2 in Ha. Qed.

(** The state without the process: its references and nodes are gone, or have no
    process, and whoever asked has the news. *)
Record gone (st st' : state) (p : pid) : Prop := {
  go_proc : procs st' !! p = None;
  go_nodes : forall n, ~ mine (bnodes st') p n;
  go_refs : forall r, ~ owned (brefs st') p r;
  go_stay : forall r rf, brefs st !! r = Some rf -> r_proc rf <> p -> brefs st' !! r = Some rf;
  go_back : forall r rf, brefs st' !! r = Some rf -> brefs st !! r = Some rf;
  go_what : forall m md', bnodes st' !! m = Some md' -> exists md, bnodes st !! m = Some md /\ what md' = what md /\ n_proc md' = (if bool_decide (n_proc md = Some p) then None else n_proc md);
  go_mgr : binder_context_mgr_node st' = match binder_context_mgr_node st with Some m => if bool_decide (n_proc <$> bnodes st !! m = Some (Some p)) then None else Some m | None => None end;
  go_news : forall r rf, brefs st !! r = Some rf -> r_proc rf <> p -> mine (bnodes st) p (r_node rf) -> notified st' rf
}.

(** The context manager first. *)
Lemma release_mgr_ok st H p : inv st H None ->
  exists st1 H1, match binder_context_mgr_node st with None => Some st | Some m => nd ← bnodes st !! m; Some (if bool_decide (n_proc nd = Some p) then set_mgr st None else st) end = Some st1 /\
    inv st1 H1 None /\ left_holds (bnodes st) p H1 = left_holds (bnodes st) p H /\ procs st1 = procs st /\ bnodes st1 = bnodes st /\ brefs st1 = brefs st /\
    binder_context_mgr_node st1 = match binder_context_mgr_node st with Some m => if bool_decide (n_proc <$> bnodes st !! m = Some (Some p)) then None else Some m | None => None end.
Proof.
  intros Hi. destruct (binder_context_mgr_node st) as [m|] eqn:Hm; [|exists st, H; by rewrite Hm]. destruct (hi_mgr _ _ _ _ _ _ (iv_h _ _ _ Hi) m Hm) as (q & nd & Hn & Hq). rewrite Hn. simpl. case_bd as Hp.
  - exists (set_mgr st None), ((m, true) :: (m, false) :: H). split; [done|]. split; [destruct Hi as [HT HL HH HQ]; split; try done; simpl; apply hinv_unmgr; by rewrite <- Hm|]. split; [|by rewrite bool_decide_eq_true_2 by congruence].
    unfold left_holds. rewrite !filter_cons. simpl. rewrite Hn. simpl. rewrite !decide_False by (rewrite Hp; tauto). done.
  - exists st, H. split; [done|]. split; [done|]. split; [done|]. split; [done|]. split; [done|]. split; [done|]. rewrite bool_decide_eq_false_2; [done|]. congruence.
Qed.

Lemma release_proc_ok st H p pr : inv st H None -> procs st !! p = Some pr -> exists st', release_proc st p = Some st' /\ inv st' (left_holds (bnodes st) p H) None /\ gone st st' p.
Proof.
  intros Hi Hp. unfold release_proc. rewrite Hp. cbn [mbind option_bind]. destruct (release_mgr_ok st H p Hi) as (st1 & H1 & E1 & Hi1 & Eh & P1 & N1 & R1 & M1). rewrite E1. cbn [mbind option_bind].
  destruct (free_threads_ok p H1 (threads pr) st1 pr Hi1) as (st2 & E2 & Hi2 & N2 & R2 & M2 & P2); [by rewrite P1|done|]. rewrite E2. cbn [mbind option_bind].
  assert (Hnm : forall m, binder_context_mgr_node st2 = Some m -> ~ mine (bnodes st2) p m).
  { rewrite M2, M1, N2, N1. intros m Hm (md & Hmd & Hmp). destruct (binder_context_mgr_node st) as [x|]; [|done]. case_bd as Hb; [done|]. injection Hm as ->. apply Hb. by rewrite Hmd, <- Hmp. }
  destruct (release_nodes_ok p (size (bnodes st2)) st2 H1 _ Hi2 P2 (size_filter _ _) Hnm) as (st3 & E3 & Hi3 & [l1 l2 l3 l4 l5 l6 l7]). rewrite E3. cbn [mbind option_bind]. rewrite N2, N1, Eh in Hi3.
  destruct (same_lists_back _ _ _ _ l3 P2) as (pr3 & P3 & L3). destruct (release_refs_ok p _ (size (brefs st3)) st3 pr3 Hi3 P3 (size_filter _ _)) as (st4 & E4 & Hi4 & [k1 k2 k3 k4 k5 k6]). rewrite E4. cbn [mbind option_bind].
  destruct (same_lists_back _ _ _ _ k4 P3) as (pr4 & P4 & L4). assert (EL : lists_of pr4 = [p_todo pr; delivered_death pr]) by (rewrite L4, L3; done). unfold lists_of in EL. injection EL as T1 T2 T3. rewrite <- T1, <- T2.
  assert (Hno : forall n, ~ mine (bnodes st4) p n). { intros n (nd & Hn & Hnp). destruct (k5 n nd Hn) as (nd3 & Hn3 & E). destruct (l5 n nd3 Hn3) as (nd2 & _ & _ & Ep). assert (Hx : n_proc nd3 = Some p) by (unfold nident in E; congruence). rewrite Hx in Ep. case_bd as Hc; congruence. }
  assert (Hnr : forall r, ~ owned (brefs st4) p r) by (intros r (rf & Hr & Hrp); by apply k2 in Hr as [_ ?]).
  eexists. split; [done|]. split; [by apply inv_unproc|]. split; simpl; try done.
  - by rewrite lookup_delete_eq.
  - intros r rf Hr Hrp. apply k1; [|done]. by rewrite l1, R2, R1.
  - intros r rf Hr. apply k2 in Hr as [Hr _]. by rewrite l1, R2, R1 in Hr.
  - intros m md' Hm. destruct (k5 m md' Hm) as (md3 & Hm3 & E). destruct (l5 m md3 Hm3) as (md & Hmd & Hw & Ep). rewrite N2, N1 in Hmd. exists md. split; [done|]. unfold nident, what in *. split; congruence.
  - by rewrite k3, l2, M2.
  - intros r rf Hr Hrp Hm. assert (Hn4 : notified st4 rf). { apply (k6 r); [by rewrite l1, R2, R1|done|]. apply (l6 r); [by rewrite R2, R1|by rewrite N2, N1]. }
    intros d Hd. destruct (Hn4 d Hd) as (xr & dt & X1 & X2 & X3 & X4). exists xr, dt. simpl. rewrite lookup_delete_ne by congruence. split; [done|]. split; [|done].
    assert (Hap : forall q, q ∈ lists_of pr4 -> p_todo xr <> q). { intros q Hq <-. apply Hrp. eapply (qi_apart _ _ _ _ _ (iv_q _ _ _ Hi4) (r_proc rf) p xr pr4); [done|done| |exact Hq]. unfold lists_of. set_solver. }
    apply queued_gone. split; [|apply Hap; unfold lists_of; set_solver]. apply queued_gone. split; [done|apply Hap; unfold lists_of; set_solver].
Qed.

End BinderRefGone.
