(* ===== verification/BinderRefSpec.v ===== *)
(** * The binder's nodes and references: runs of the whole *)

From Stdlib Require Import ZArith Lia.
From stdpp Require Import base option gmap sorting list.
From S2P Require Import Prelude Rbtree RbtreeWalk BinderRef BinderRefInv BinderRefLink BinderRefCmd BinderRefExit.

Local Open Scope Z_scope.
Local Open Scope kernel_scope.

Module BinderRefRun.
Import Rbtree RbtreeKey BinderRef BinderRefInv BinderRefOps BinderRefLink BinderRefGet BinderRefCmd BinderRefRead BinderRefObj BinderRefProc BinderRefExit BinderRefGone.

(** What processes do.  [Target] and [Untarget] are the hold of a transaction on
    the node it is sent to, from when it is sent until its buffer is freed. *)
Inductive op :=
  | Open (p : pid) (q qd : qid)
  | Thread (p : pid) (q : qid)
  | ThreadExit (p : pid) (q : qid)
  | SetContextMgr (p : pid) (euid : Z) (mem : option nid)
  | Refs (p : pid) (cmd : ref_cmd) (target : Z) (mem : option rid)
  | Confirm (p : pid) (is_strong : bool) (ptr cookie : Z)
  | RequestDeath (p : pid) (q : qid) (target cookie : Z) (mem : option did)
  | ClearDeath (p : pid) (q : qid) (target cookie : Z)
  | DeadDone (p : pid) (q : qid) (cookie : Z)
  | Read (p : pid) (q : qid)
  | SendBinder (p to : pid) (q : qid) (is_strong : bool) (ptr cookie : Z) (mem : option nid) (mem' : option rid)
  | SendHandle (p to : pid) (is_strong : bool) (h : Z) (mem : option rid)
  | ReleaseBinder (p : pid) (is_strong : bool) (ptr cookie : Z)
  | ReleaseHandle (p : pid) (is_strong : bool) (h : Z)
  | Target (n : nid)
  | Untarget (n : nid)
  | Exit (p : pid).

Definition run (st : state) (o : op) : option state :=
  match o with
  | Open p q qd => Some (open_proc st p q qd)
  | Thread p q => new_thread st p q
  | ThreadExit p q => free_thread st p q
  | SetContextMgr p euid mem => fst <$> set_context_mgr st p euid mem
  | Refs p cmd target mem => bc_refs st p cmd target mem
  | Confirm p s ptr cookie => bc_done st p s ptr cookie
  | RequestDeath p q target cookie mem => bc_request_death st p q target cookie mem
  | ClearDeath p q target cookie => bc_clear_death st p q target cookie
  | DeadDone p q cookie => bc_dead_done st p q cookie
  | Read p q => fst <$> br_work st p q
  | SendBinder p to q s ptr cookie mem mem' => fst <$> translate_binder st p to q s ptr cookie mem mem'
  | SendHandle p to s h mem => fst <$> translate_handle st p to s h mem
  | ReleaseBinder p s ptr cookie => release_object st p s (Binder ptr cookie)
  | ReleaseHandle p s h => release_object st p s (Handle h)
  | Target n => fst <$> binder_inc_node st n true false None
  | Untarget n => binder_dec_node st n true false
  | Exit p => release_proc st p
  end.

Definition init : state := mk_state ∅ ∅ ∅ ∅ ∅ None None [].

(** New numbers are those of no object. *)
Definition new_node_id (st : state) (mem : option nid) : Prop := forall n, mem = Some n -> bnodes st !! n = None.
Definition new_ref_id (st : state) (mem : option rid) : Prop := forall r, mem = Some r -> brefs st !! r = None.
Definition new_death_id (st : state) (mem : option did) : Prop := forall d, mem = Some d -> deaths st !! d = None.

(** What may happen in a state, with the holds of buffers before and after: a
    process is open, a list is one of its own, a buffer that is freed has what was
    put in it, a command that may make a reference has memory for it, and no
    count is at its limit. *)
Inductive allowed (st : state) (H : list hold) : op -> list hold -> Prop :=
  | al_open p q qd : procs st !! p = None -> todo st !! q = None -> todo st !! qd = None -> q <> qd -> allowed st H (Open p q qd) H
  | al_thread p pr q : procs st !! p = Some pr -> todo st !! q = None -> allowed st H (Thread p q) H
  | al_thread_exit p pr q : procs st !! p = Some pr -> q ∈ threads pr -> allowed st H (ThreadExit p q) H
  | al_mgr p pr euid mem : procs st !! p = Some pr -> new_node_id st mem -> allowed st H (SetContextMgr p euid mem) H
  | al_refs p pr cmd target mem : procs st !! p = Some pr -> room st -> spare st -> new_ref_id st mem -> mem <> None -> allowed st H (Refs p cmd target mem) H
  | al_confirm p pr s ptr cookie : procs st !! p = Some pr -> allowed st H (Confirm p s ptr cookie) H
  | al_request p pr q target cookie mem : procs st !! p = Some pr -> own_list pr q -> new_death_id st mem -> allowed st H (RequestDeath p q target cookie mem) H
  | al_clear p pr q target cookie : procs st !! p = Some pr -> own_list pr q -> allowed st H (ClearDeath p q target cookie) H
  | al_dead_done p pr q cookie : procs st !! p = Some pr -> own_list pr q -> allowed st H (DeadDone p q cookie) H
  | al_read p pr q : procs st !! p = Some pr -> own_list pr q -> room st -> allowed st H (Read p q) H
  | al_send_binder p pr to pr' q s ptr cookie mem mem' : procs st !! p = Some pr -> procs st !! to = Some pr' -> own_list pr q -> room st -> spare st -> new_node_id st mem -> new_ref_id st mem' ->
      allowed st H (SendBinder p to q s ptr cookie mem mem') H
  | al_send_own p pr to pr' s h mem n ptr cookie : procs st !! p = Some pr -> procs st !! to = Some pr' -> room st -> spare st -> new_ref_id st mem -> denotes st p h n -> object_of st n to ptr cookie ->
      allowed st H (SendHandle p to s h mem) ((n, s) :: H)
  | al_send_handle p pr to pr' s h mem : procs st !! p = Some pr -> procs st !! to = Some pr' -> room st -> spare st -> new_ref_id st mem -> (forall n ptr cookie, denotes st p h n -> ~ object_of st n to ptr cookie) ->
      allowed st H (SendHandle p to s h mem) H
  | al_release_binder p pr s ptr cookie n H1 H2 : H = H1 ++ (n, s) :: H2 -> procs st !! p = Some pr -> object_of st n p ptr cookie -> allowed st H (ReleaseBinder p s ptr cookie) (H1 ++ H2)
  | al_release_handle p pr s h : procs st !! p = Some pr -> allowed st H (ReleaseHandle p s h) H
  | al_target n p : room st -> mine (bnodes st) p n -> allowed st H (Target n) ((n, true) :: H)
  | al_untarget n H1 H2 : H = H1 ++ (n, true) :: H2 -> allowed st H (Untarget n) (H1 ++ H2)
  | al_exit p pr : procs st !! p = Some pr -> allowed st H (Exit p) (left_holds (bnodes st) p H).

Inductive reachable : state -> list hold -> Prop :=
  | re_init : reachable init []
  | re_step st H o st' H' : reachable st H -> allowed st H o H' -> run st o = Some st' -> reachable st' H'.

(** The process that may lose references. *)
Definition dropper (o : op) : option pid :=
  match o with
  | Refs p cmd _ _ => if incs cmd then None else Some p
  | ReleaseHandle p _ _ => Some p
  | Exit p => Some p
  | _ => None
  end.

(** ** Handles and objects *)

Lemma denotes_fun st H u p h n n' : inv st H u -> denotes st p h n -> denotes st p h n' -> n = n'.
Proof.
  intros Hi (r & rf & Hr & Hp & Hd & <-) (r' & rf' & Hr' & Hp' & Hd' & <-). destruct (qi_proc _ _ _ _ _ (iv_q _ _ _ Hi) r rf Hr) as [pr Hpr]. destruct (iv_t _ _ _ Hi _ _ Hpr) as (_ & T2 & _).
  assert (r = r') by (eapply (keyed_inj _ _ _ _ _ T2); [by exists rf|by exists rf'; split; [|congruence]|]; unfold dkey; rewrite Hr, Hr'; congruence). congruence.
Qed.

Lemma denotes_inj st H u p h h' n : inv st H u -> denotes st p h n -> denotes st p h' n -> h = h'.
Proof.
  intros Hi (r & rf & Hr & Hp & <- & Hn) (r' & rf' & Hr' & Hp' & <- & Hn'). destruct (qi_proc _ _ _ _ _ (iv_q _ _ _ Hi) r rf Hr) as [pr Hpr]. destruct (iv_t _ _ _ Hi _ _ Hpr) as (_ & _ & T3).
  assert (r = r') by (eapply (keyed_inj _ _ _ _ _ T3); [by exists rf|by exists rf'; split; [|congruence]|]; unfold rkey; rewrite Hr, Hr'; congruence). congruence.
Qed.

Lemma object_fun st n p p' ptr ptr' cookie cookie' : object_of st n p ptr cookie -> object_of st n p' ptr' cookie' -> ptr = ptr' /\ cookie = cookie'.
Proof. intros (nd & Hn & _ & <- & <-) (nd' & Hn' & _ & <- & <-). rewrite Hn in Hn'. by injection Hn' as <-. Qed.

Lemma object_key st H u n n' p pr ptr cookie cookie' : inv st H u -> procs st !! p = Some pr -> object_of st n p ptr cookie -> object_of st n' p ptr cookie' -> n = n'.
Proof.
  intros Hi Hp (nd & Hn & Hnp & <- & _) (nd' & Hn' & Hnp' & Hk & _). destruct (iv_t _ _ _ Hi _ _ Hp) as (T1 & _). eapply (keyed_inj _ _ _ n n' T1); [by exists nd|by exists nd'|]. unfold nkey. by rewrite Hn, Hn'.
Qed.

(** ** Every step *)

Lemma send_handle_step st H p pr to pr' s h mem : inv st H None -> procs st !! p = Some pr -> procs st !! to = Some pr' -> room st -> spare st -> new_ref_id st mem -> forall H',
  (exists n ptr cookie, H' = (n, s) :: H /\ denotes st p h n /\ object_of st n to ptr cookie) \/ (H' = H /\ forall n ptr cookie, denotes st p h n -> ~ object_of st n to ptr cookie) ->
  exists st', fst <$> translate_handle st p to s h mem = Some st' /\ inv st' H' None /\ frame None st st'.
Proof.
  intros Hi Hp Hto Hr Hs Hm H' Hcase. destruct (translate_handle_ok st H p pr to pr' s h mem Hi Hp Hto Hm Hr Hs) as (st' & o & H'' & E & Hi' & Hg & Ho). rewrite E. simpl. exists st'. split; [done|]. split; [|by apply frame_grows].
  assert (H'' = H') as ->; [|done]. destruct o as [[ptr cookie|h']|].
  - destruct Ho as (n & -> & Hd & Hob). destruct Hcase as [(n' & ptr' & cookie' & -> & Hd' & _)|[-> Hno]]; [|by destruct (Hno n ptr cookie)]. by rewrite (denotes_fun st H None p h n n').
  - destruct Ho as (n & -> & Hd & _ & Hno). destruct Hcase as [(n' & ptr & cookie & -> & Hd' & Hob)|[-> _]]; [|done]. rewrite <- (denotes_fun st H None p h n n') in Hob by done. by apply Hno in Hob.
  - destruct Ho as [-> Hno]. destruct Hcase as [(n' & ptr & cookie & -> & Hd' & Hob)|[-> _]]; [|done]. destruct Hno as [(_ & n & Hd & Hno)|Hno]; [|by apply Hno in Hd']. rewrite <- (denotes_fun st H None p h n n') in Hob by done. by apply Hno in Hob.
Qed.

Lemma frame_gone st st' p : gone st st' p -> frame (Some p) st st'.
Proof.
  intros [g1 g2 g3 g4 g5 g6 g7 g8]. split; [intros r rf Hr Hne; exists rf; split; [apply g4; [done|congruence]|done]|]. intros n nd nd' Hn Hn'. destruct (g6 n nd' Hn') as (x & Hx & Hw & _). congruence.
Qed.

Lemma step_ok st H o H' : inv st H None -> allowed st H o H' -> exists st', run st o = Some st' /\ inv st' H' None /\ frame (dropper o) st st'.
Proof.
  intros Hi Ha. destruct Ha; simpl.
  - eexists. split; [done|]. by apply open_proc_ok.
  - by eapply new_thread_ok.
  - edestruct thread_exit_ok as (st' & E & Hi' & ->); [done|done|done|]. rewrite E. eexists. split; [done|]. split; [done|]. apply frame_grows. split; simpl; eauto.
  - edestruct set_context_mgr_ok as (st' & ret & E & Hi' & Hf & _); [done|done|done|]. rewrite E. by exists st'.
  - by eapply bc_refs_ok.
  - by eapply bc_done_ok.
  - by eapply bc_request_death_ok.
  - by eapply bc_clear_death_ok.
  - by eapply bc_dead_done_ok.
  - edestruct br_work_ok as (st' & c & E & Hi' & Hf); [done|done|done|done|]. rewrite E. by exists st'.
  - edestruct (translate_binder_ok st H p pr to pr' q s ptr cookie mem mem') as (st' & ob & E & Hi' & Hg & _); try done. rewrite E. exists st'. split; [done|]. split; [done|by apply frame_grows].
  - eapply send_handle_step; try done. left. by exists n, ptr, cookie.
  - eapply send_handle_step; try done. by right.
  - subst H. by eapply release_binder_ok.
  - by eapply release_handle_ok.
  - match goal with Hr : room st |- _ => destruct Hr as [Rn _] end. match goal with Hm : mine _ _ _ |- _ => destruct Hm as (nd & Hn & Hnp) end. destruct (Rn n nd Hn) as (_ & Rs & Rw). destruct (inc_hold_ok st H n nd p true Hi Hn Hnp Rs Rw) as (st' & ret & E & Hi' & nd' & -> & Hid). rewrite E. simpl. eexists. split; [done|]. split; [done|]. by eapply frame_kept, kept_node.
  - subst H. destruct (dec_hold_ok st H1 H2 n true Hi) as (st' & E & Hi' & Hk). rewrite E. exists st'. split; [done|]. split; [done|by apply frame_kept].
  - destruct (release_proc_ok st H p pr) as (st' & E & Hi' & Hg); [done|done|]. exists st'. split; [done|]. split; [done|by apply frame_gone].
Qed.

Lemma init_inv : inv init [] None.
Proof.
  assert (Hq : forall w q, ~ queued (todo init) w q) by (by intros w q (l & ? & _)). split; [done|split; done|split; try done|split; try done].
  - intros h ?%elem_of_nil. done.
  - apply NoDup_nil_2.
  - intros n ?%elem_of_nil. done.
  - intros w q q' H. by apply Hq in H.
  - intros n q H. by apply Hq in H.
  - intros d q H. by apply Hq in H.
Qed.

Lemma reachable_inv st H : reachable st H -> inv st H None.
Proof.
  induction 1 as [|st H o st' H' _ IH Ha E]; [apply init_inv|]. destruct (step_ok st H o H' IH Ha) as (st2 & E2 & Hi & _). congruence.
Qed.

End BinderRefRun.

(** * The binder's nodes and references: what they promise

    Handles are names for objects of other processes.  In every state that can be
    reached all calls return and the counts are right; a handle stands for one
    object as long as its process keeps it; an object comes home as what it
    was; a process is told what to do with its objects; and nothing is left of a
    process but the news of its end. *)

Local Open Scope Z_scope.
Local Open Scope kernel_scope.

Module BinderRefSpec.
Import Rbtree RbtreeKey BinderRef BinderRefInv BinderRefOps BinderRefLink BinderRefGet BinderRefCmd BinderRefRead BinderRefObj BinderRefProc BinderRefExit BinderRefGone BinderRefRun.

(** ** A run as an example *)

Definition after (st : state) (o : op) : state := default st (run st o).

Lemma after_ok st H o H' : reachable st H -> allowed st H o H' -> run st o = Some (after st o) /\ reachable (after st o) H'.
Proof. intros Hr Ha. destruct (step_ok st H o H' (reachable_inv _ _ Hr) Ha) as (st' & E & _). unfold after. rewrite E. split; [done|]. by eapply re_step. Qed.

(** Process 2 gets a handle for an object of process 1 and wants to know when it
    dies. *)
Definition st1 : state := after (after init (Open 1 10 11)%nat) (Open 2 20 21)%nat.
Definition st2 : state := after st1 (SendBinder 1 2 10 true 100 200 (Some 1) (Some 1))%nat.
Definition st3 : state := after st2 (RequestDeath 2%nat 20%nat 1 7 (Some 1%nat)).

Definition small (st : state) : bool :=
  bool_decide (map_Forall (fun _ nd => internal_strong_refs nd < two31 - 1 /\ local_strong_refs nd < two31 - 1 /\ local_weak_refs nd < two31 - 1) (bnodes st)) &&
  bool_decide (map_Forall (fun _ rf => strong rf < two31 - 1 /\ weak rf < two31 - 1) (brefs st)) && bool_decide (spare st).

Lemma small_ok st : small st = true -> room st /\ spare st.
Proof. unfold small. intros [[H1%bool_decide_eq_true H2%bool_decide_eq_true]%andb_true_iff H3%bool_decide_eq_true]%andb_true_iff. done. Qed.

Definition proc_at (st : state) (p : pid) : ref_proc := default (mk_rproc (mk_root None ∅) (mk_root None ∅) (mk_root None ∅) 0%nat 0%nat []) (procs st !! p).

Lemma st1_reachable : reachable st1 [].
Proof. eapply after_ok; [eapply after_ok; [constructor|]|]; apply al_open; done. Qed.

Lemma st2_allowed : allowed st1 [] (SendBinder 1 2 10 true 100 200 (Some 1) (Some 1))%nat [].
Proof. destruct (small_ok st1) as [Hr Hs]; [done|]. apply (al_send_binder _ _ _ (proc_at st1 1%nat) _ (proc_at st1 2%nat)); first [done|vm_compute; by constructor|by intros ? [= <-]]. Qed.

Lemma st2_reachable : reachable st2 [].
Proof. eapply after_ok; [apply st1_reachable|apply st2_allowed]. Qed.

Lemma st3_reachable : reachable st3 [].
Proof. eapply after_ok; [apply st2_reachable|]. apply (al_request _ _ _ (proc_at st2 2%nat)); first [done|vm_compute; by constructor|by intros ? [= <-]]. Qed.

(** ** Safety *)

Lemma strong_refs_size st H u n nd : inv st H u -> bnodes st !! n = Some nd -> internal_strong_refs nd = Z.of_nat (size (filter (fun x : nid * binder_ref => r_node x.2 = n /\ strong x.2 <> 0) (brefs st))).
Proof.
  intros Hi Hn. pose proof (iv_l _ _ _ Hi) as HL. rewrite (proj1 (li_count _ _ HL n nd Hn)). unfold strong_count. f_equal. rewrite <- size_dom, <- (size_list_to_set (C := gset nid)) by (apply NoDup_filter; by eapply (li_nodup _ _ HL)). f_equal. apply set_eq. intros r.
  rewrite elem_of_list_to_set, list_elem_of_filter, elem_of_dom. unfold is_strong. split.
  - intros [Hs Hin]. destruct (li_back _ _ HL n nd r Hn Hin) as (rf & Hr & Hrn). rewrite Hr in Hs. apply negb_true_iff, bool_decide_eq_false in Hs. exists rf. by apply map_lookup_filter_Some.
  - intros (rf & [Hr [Hrn Hs]]%map_lookup_filter_Some). simpl in *. rewrite Hr. split; [by apply negb_true_iff, bool_decide_eq_false|]. destruct (li_ref _ _ HL r rf Hr) as ((x & Hx & Hin) & _). rewrite Hrn, Hn in Hx. by injection Hx as <-.
Qed.

(** C22: whatever processes do, with bad handles and wrong counts as they
    like, no call of the binder on nodes and references follows a pointer to
    something freed, links a work item twice or fails a check; every reference has
    its node and its process, a node counts exactly the references that hold it
    strongly and is there while a buffer holds it, and handles and objects of
    a process correspond one to one.  This is under the conditions of [allowed]:
    a buffer is freed with exactly what was put into it, which two offsets of a
    transaction that overlap can break; a command on a reference that has to be
    made finds memory for it, since the code uses the null pointer otherwise; and
    no count of references has reached its limit of 2^31 - 1. *)
Theorem binder_refs_safe st H : reachable st H ->
  (forall r rf, brefs st !! r = Some rf -> is_Some (bnodes st !! r_node rf) /\ is_Some (procs st !! r_proc rf)) /\
  (forall n nd, bnodes st !! n = Some nd -> internal_strong_refs nd = Z.of_nat (size (filter (fun x : nid * binder_ref => r_node x.2 = n /\ strong x.2 <> 0) (brefs st)))) /\
  (forall n s, (n, s) ∈ H -> exists p ptr cookie, object_of st n p ptr cookie /\ is_Some (procs st !! p)) /\
  (forall p h n n', denotes st p h n -> denotes st p h n' -> n = n') /\ (forall p h h' n, denotes st p h n -> denotes st p h' n -> h = h') /\
  (forall o H', allowed st H o H' -> exists st', run st o = Some st' /\ reachable st' H').
Proof.
  intros Hr. pose proof (reachable_inv _ _ Hr) as Hi. split; [|split; [|split; [|split; [|split]]]].
  - intros r rf Hrf. destruct (ref_node _ _ _ _ _ Hi Hrf) as (nd & Hn & _). split; [by exists nd|]. by eapply (qi_proc _ _ _ _ _ (iv_q _ _ _ Hi)).
  - intros n nd. by eapply strong_refs_size.
  - intros n s Hin. destruct (hi_held _ _ _ _ _ _ (iv_h _ _ _ Hi) _ Hin) as (p & nd & Hn & Hp). exists p, (n_ptr nd), (n_cookie nd). split; [by exists nd|]. pose proof (hi_node _ _ _ _ _ _ (iv_h _ _ _ Hi) _ nd Hn) as Ha. rewrite Hp in Ha. apply Ha.
  - intros p h n n'. by eapply denotes_fun.
  - intros p h h' n. by eapply denotes_inj.
  - intros o H' Ha. destruct (after_ok st H o H' Hr Ha) as [E Hr']. by exists (after st o).
Qed.

Lemma binder_refs_safe_witness : reachable st1 [] /\ exists st', run st1 (SendBinder 1 2 10 true 100 200 (Some 1) (Some 1))%nat = Some st' /\ reachable st' [].
Proof. split; [exact st1_reachable|]. destruct (binder_refs_safe st1 [] st1_reachable) as (_ & _ & _ & _ & _ & Hs). exact (Hs _ _ st2_allowed). Defined.

(** ** Handles *)

(** C23: no other process can take a handle away or make it stand for
    something else: whatever is done, a handle stands for the object it stood for,
    with its pointer and cookie, until its own process gives up a count of a
    reference, frees a buffer with a handle or ends. *)
Theorem binder_handle_stable st H o H' st' p h n : reachable st H -> allowed st H o H' -> run st o = Some st' -> dropper o <> Some p -> denotes st p h n ->
  denotes st' p h n /\ exists nd nd', bnodes st !! n = Some nd /\ bnodes st' !! n = Some nd' /\ n_ptr nd' = n_ptr nd /\ n_cookie nd' = n_cookie nd.
Proof.
  intros Hr Ha E Hd (r & rf & Hrf & Hp & Hh & Hn). destruct (step_ok st H o H' (reachable_inv _ _ Hr) Ha) as (x & Ex & Hi' & [Hf1 Hf2]). rewrite E in Ex. injection Ex as <-.
  destruct (Hf1 r rf Hrf) as (rf' & Hrf' & Ew); [congruence|]. unfold whose in Ew. injection Ew as E1 E2 E3. destruct (ref_node _ _ _ _ _ (reachable_inv _ _ Hr) Hrf) as (nd & Hnd & _). destruct (ref_node _ _ _ _ _ Hi' Hrf') as (nd' & Hnd' & _).
  rewrite E2, Hn in Hnd'. rewrite Hn in Hnd. split; [exists r, rf'; split; [done|]; split; [congruence|]; split; congruence|]. exists nd, nd'. pose proof (Hf2 n nd nd' Hnd Hnd') as Hw. unfold what in Hw. injection Hw as W1 W2. done.
Qed.

Lemma binder_handle_stable_witness : denotes st2 2%nat 1 1%nat /\ denotes (after st2 (Exit 1%nat)) 2%nat 1 1%nat.
Proof.
  assert (Hd : denotes st2 2%nat 1 1%nat) by (exists 1%nat, (default (mk_ref 0%nat 0%nat 0 0 0 None) (brefs st2 !! 1%nat)); vm_compute; done). split; [exact Hd|].
  assert (Ha : allowed st2 [] (Exit 1%nat) []) by (apply (al_exit st2 [] 1%nat (proc_at st2 1%nat)); done).
  exact (proj1 (binder_handle_stable st2 [] (Exit 1%nat) [] (after st2 (Exit 1%nat)) 2%nat 1 1%nat st2_reachable Ha (proj1 (after_ok _ _ _ _ st2_reachable Ha)) ltac:(done) Hd)).
Defined.

Lemma least_free_denotes st p s d : least_free (brefs st) p s d <-> s <= d /\ (forall n, ~ denotes st p d n) /\ forall k, s <= k < d -> exists n, denotes st p k n.
Proof.
  unfold least_free, denotes. split; intros (H1 & H2 & H3); (split; [done|]); split.
  - intros n (r & rf & Hr & Hp & Hd & _). by apply (H2 r rf).
  - intros k Hk. destruct (H3 k Hk) as (r & rf & Hr & Hp & Hd). by exists (r_node rf), r, rf.
  - intros r rf Hr Hp Hd. apply (H2 (r_node rf)). by exists r, rf.
  - intros k Hk. destruct (H3 k Hk) as (n & r & rf & Hr & Hp & Hd & _). by exists r, rf.
Qed.

(** The reference of a process to a node is the one it has, under
    the handle it has; if it has none, and there is memory, it gets a new one,
    under the least number that is not in use, from 1 on, or from 0 on for
    the context manager; nothing else of the process changes its handle. *)
Theorem binder_new_descriptor st H p pr n nd r : reachable st H -> procs st !! p = Some pr -> bnodes st !! n = Some nd -> brefs st !! r = None -> spare st ->
  (exists r' h, binder_get_ref_for_node st p n (Some r) = Some (st, Some r') /\ dkey (brefs st) r' = h /\ denotes st p h n) \/
  (exists st' h, binder_get_ref_for_node st p n (Some r) = Some (st', Some r) /\ (forall h', ~ denotes st p h' n) /\
    (let s := if bool_decide (binder_context_mgr_node st = Some n) then 0 else 1 in s <= h /\ (forall m, ~ denotes st p h m) /\ forall k, s <= k < h -> exists m, denotes st p k m) /\
    forall q k m, denotes st' q k m <-> denotes st q k m \/ (q = p /\ k = h /\ m = n)).
Proof.
  intros Hr Hp Hn Hfr Hsp. pose proof (reachable_inv _ _ Hr) as Hi. destruct (get_ref_for_node_ok st H p pr n nd (Some r) Hi Hp Hn) as (st' & o & E & Hi' & Hcase); [by intros x [= <-]|done|].
  destruct Hcase as [(x & rf & -> & -> & Hx & Hxp & Hxn)|[(_ & ? & _)|(Hno & x & d & t1 & t2 & [= <-] & -> & Hlf & ->)]]; [|done|].
  - left. exists x, (desc rf). split; [done|]. split; [unfold dkey; by rewrite Hx|]. by exists x, rf.
  - right. eexists _, d. split; [exact E|]. split; [intros h' (y & yf & Hy & Hyp & _ & Hyn); by apply (Hno y yf)|]. split; [by apply least_free_denotes|]. intros q k m. unfold denotes. simpl. split.
    + intros (y & yf & Hy & Hyp & Hyd & Hyn). rewrite lookup_insert in Hy. case_decide; [injection Hy as <-; right; by subst|left; by exists y, yf].
    + intros [(y & yf & Hy & Hyp & Hyd & Hyn)|(-> & -> & ->)]; [exists y, yf; split; [|done]; rewrite lookup_insert_ne; [done|]; congruence|exists r, (new_ref p n d)]. by rewrite lookup_insert_eq.
Qed.

Lemma binder_new_descriptor_witness : exists nd, bnodes st2 !! 1%nat = Some nd /\
  ((exists r' h, binder_get_ref_for_node st2 2%nat 1%nat (Some 5%nat) = Some (st2, Some r') /\ dkey (brefs st2) r' = h /\ denotes st2 2%nat h 1%nat) \/
   exists st', binder_get_ref_for_node st2 2%nat 1%nat (Some 5%nat) = Some (st', Some 5%nat) /\ forall h', ~ denotes st2 2%nat h' 1%nat).
Proof.
  exists (default (new_bnode 0%nat 0 0) (bnodes st2 !! 1%nat)). split; [done|].
  destruct (binder_new_descriptor st2 [] 2%nat (proc_at st2 2%nat) 1%nat (default (new_bnode 0%nat 0 0) (bnodes st2 !! 1%nat)) 5%nat st2_reachable ltac:(done) ltac:(done) ltac:(done) (proj2 (small_ok st2 eq_refl))) as [Hx|(st' & h & H1 & H2 & _)]; [by left|right]. by exists st'.
Defined.

(** ** Objects *)

(** An object that is sent to another process arrives as a
    handle, and when that process sends the handle back, or to whoever the
    object belongs to, the object comes home under the pointer and the cookie it
    had, and is held; for that no memory is needed. *)
Theorem binder_object_roundtrip st H p pr to pr' q s ptr cookie n r : reachable st H -> procs st !! p = Some pr -> procs st !! to = Some pr' -> own_list pr q -> room st -> spare st ->
  bnodes st !! n = None -> brefs st !! r = None -> (forall m c, object_of st m p ptr c -> c = cookie) ->
  exists st' h m, translate_binder st p to q s ptr cookie (Some n) (Some r) = Some (st', Some (Handle h)) /\ reachable st' H /\ denotes st' to h m /\ object_of st' m p ptr cookie /\
    forall s' mem, room st' -> spare st' -> new_ref_id st' mem -> exists st'', translate_handle st' to p s' h mem = Some (st'', Some (Binder ptr cookie)) /\ reachable st'' ((m, s') :: H).
Proof.
  intros Hr Hp Hto Hq Hroom Hsp Hn Hrf Hc. pose proof (reachable_inv _ _ Hr) as Hi. assert (Fn : new_node_id st (Some n)) by (by intros x [= <-]). assert (Fr : new_ref_id st (Some r)) by (by intros x [= <-]).
  destruct (translate_binder_ok st H p pr to pr' q s ptr cookie (Some n) (Some r) Hi Hp Hto Hq Fn Fr Hroom Hsp) as (st' & o & E & Hi' & Hg & Hsl & Ho).
  destruct o as [[|h]|]; [done| |exfalso; destruct Ho as [?|[?|(m & c & Hm & Hne)]]; [done|done|]; by apply Hne, (Hc m)]. destruct Ho as (m & Hd & Hob). exists st', h, m. split; [done|].
  assert (Hr' : reachable st' H) by (eapply (re_step st H (SendBinder p to q s ptr cookie (Some n) (Some r))); [done|by eapply al_send_binder|simpl; by rewrite E]). split; [done|]. split; [done|]. split; [done|].
  intros s' mem Hroom' Hsp' Hm. destruct (same_lists_back _ _ _ _ Hsl Hp) as (pr1 & Hp1 & _). destruct (same_lists_back _ _ _ _ Hsl Hto) as (pr2 & Hto1 & _).
  destruct (translate_handle_ok st' H to pr2 p pr1 s' h mem Hi' Hto1 Hp1 Hm Hroom' Hsp') as (st'' & o & H'' & E' & Hi'' & _ & Ho'). destruct o as [[ptr' cookie'|h']|].
  - destruct Ho' as (m' & -> & Hd' & Hob'). assert (m' = m) as -> by exact (denotes_fun st' H None to h m' m Hi' Hd' Hd). destruct (object_fun _ _ _ _ _ _ _ _ Hob Hob') as [<- <-]. exists st''. split; [done|]. eapply (re_step st' H (SendHandle to p s' h mem)); [done|by eapply al_send_own|simpl; by rewrite E'].
  - exfalso. destruct Ho' as (m' & _ & Hd' & _ & Hno). assert (m' = m) as -> by exact (denotes_fun st' H None to h m' m Hi' Hd' Hd). by apply Hno in Hob.
  - exfalso. destruct Ho' as [_ [(_ & m' & Hd' & Hno)|Hno]]; [|by apply Hno in Hd]. assert (m' = m) as -> by exact (denotes_fun st' H None to h m' m Hi' Hd' Hd). by apply Hno in Hob.
Qed.

Lemma binder_object_roundtrip_witness : exists st' h, translate_binder st1 1%nat 2%nat 10%nat true 100 200 (Some 1%nat) (Some 1%nat) = Some (st', Some (Handle h)).
Proof.
  destruct (small_ok st1) as [Hr Hs]; [done|].
  assert (Hc : forall m c, object_of st1 m 1%nat 100 c -> c = 200) by (intros m c (nd & Hn & _); assert (E : bnodes st1 = ∅) by (by vm_compute); by rewrite E in Hn).
  destruct (binder_object_roundtrip st1 [] 1%nat (proc_at st1 1%nat) 2%nat (proc_at st1 2%nat) 10%nat true 100 200 1%nat 1%nat st1_reachable ltac:(done) ltac:(done) ltac:(vm_compute; by constructor) Hr Hs ltac:(done) ltac:(done) Hc) as (st' & h & _ & E & _).
  exists st', h. exact E.
Defined.

End BinderRefSpec.
