(* ===== verification/BinderRefLife.v ===== *)
(** * The binder's nodes and references: the life of a node and the end of a process *)

From Stdlib Require Import ZArith Lia.
From stdpp Require Import base option gmap sorting list.
From S2P Require Import Prelude Rbtree RbtreeWalk BinderRef BinderRefInv BinderRefLink BinderRefCmd BinderRefExit BinderRefSpec.

Local Open Scope Z_scope.
Local Open Scope kernel_scope.

Module BinderRefLife.
Import Rbtree RbtreeKey BinderRef BinderRefInv BinderRefOps BinderRefLink BinderRefGet BinderRefCmd BinderRefRead BinderRefObj BinderRefProc BinderRefExit BinderRefGone BinderRefRun BinderRefSpec.

(** ** Reading the work of a node *)

(** [k] items in a row, and what the process is told. *)
Fixpoint reads (k : nat) (st : state) (p : pid) (q : qid) : option (state * list br) :=
  match k with
  | O => Some (st, [])
  | S k => '(st, c) ← br_work st p q; '(st, cs) ← reads k st p q; Some (st, c :: cs)
  end.

Lemma reads_S k st p q : reads (S k) st p q = ('(st, c) ← br_work st p q; '(st, cs) ← reads k st p q; Some (st, c :: cs)).
Proof. done. Qed.

(** All that a process has to be told of a node. *)
Definition said (nd : binder_node) : list br :=
  if held_weak nd then (if has_weak_ref nd then [] else [BR_INCREFS]) ++ (if held_strong nd then if has_strong_ref nd then [] else [BR_ACQUIRE] else if has_strong_ref nd then [BR_RELEASE] else [])
  else (if has_strong_ref nd then [BR_RELEASE] else []) ++ (if has_weak_ref nd then [BR_DECREFS] else []).

Lemma weak_of_strong nd : held_strong nd = true -> held_weak nd = true.
Proof. intros H. unfold held_weak. by rewrite H, orb_true_r. Qed.

Lemma strong_of_weak nd : held_weak nd = false -> held_strong nd = false.
Proof. intros H. destruct (held_strong nd) eqn:E; [|done]. by rewrite weak_of_strong in H. Qed.

Lemma told_none nd : told nd = None -> said nd = [] /\ if held_weak nd then has_weak_ref nd = true /\ has_strong_ref nd = held_strong nd else True.
Proof.
  unfold told, said. destruct (held_weak nd) eqn:Hw; [|rewrite (strong_of_weak nd Hw)]; destruct (has_weak_ref nd), (has_strong_ref nd); simpl; try done; by destruct (held_strong nd).
Qed.

(** Being told changes nothing of who holds the node. *)
Lemma told_held P H mgr n nd p c nd' : alive P H mgr n nd p -> (has_strong_ref nd = false -> local_strong_refs nd < two31 - 1) -> (has_weak_ref nd = false -> local_weak_refs nd < two31 - 1) -> told nd = Some (c, nd') ->
  held_weak nd' = held_weak nd /\ held_strong nd' = held_strong nd /\ said nd = c :: said nd' /\ (has_strong_ref nd' = false -> local_strong_refs nd' < two31 - 1) /\ (has_weak_ref nd' = false -> local_weak_refs nd' < two31 - 1).
Proof.
  intros [A1 A2 A3 [[A4 _] [A4' _]] (A5 & A6 & A7)] Rs Rw Ht.
  assert (Hk : held_weak nd' = held_weak nd /\ held_strong nd' = held_strong nd).
  { unfold told in Ht. destruct (held_weak nd && negb (has_weak_ref nd)) eqn:E1.
    { injection Ht as <- <-. apply andb_true_iff in E1 as [E1 E2%negb_true_iff]. rewrite E1. split; [|done]. unfold held_weak. simpl. rewrite s32_small by (specialize (Rw E2); unfold two31 in *; lia). rewrite (bool_decide_eq_false_2 (local_weak_refs nd + 1 = 0)) by lia. by rewrite orb_true_r. }
    destruct (held_strong nd && negb (has_strong_ref nd)) eqn:E2.
    { injection Ht as <- <-. apply andb_true_iff in E2 as [E2 E3%negb_true_iff]. assert (Hs : held_strong (add_strong 1 (with_flags true true (has_weak_ref nd) (pending_weak_ref nd) nd)) = true).
      { unfold held_strong. simpl. rewrite s32_small by (specialize (Rs E3); unfold two31 in *; lia). rewrite (bool_decide_eq_false_2 (local_strong_refs nd + 1 = 0)) by lia. by rewrite orb_true_r. }
      rewrite E2, (weak_of_strong nd E2). split; [by apply weak_of_strong|done]. }
    destruct (negb (held_strong nd) && has_strong_ref nd); [by injection Ht as <- <-|]. destruct (negb (held_weak nd) && has_weak_ref nd); [by injection Ht as <- <-|done]. }
  destruct Hk as [K1 K2]. split; [done|]. split; [done|]. unfold said. rewrite K1, K2. clear K1 K2. unfold told in Ht. assert (T31 : 0 < two31 - 1) by (by unfold two31).
  destruct (held_weak nd) eqn:Hw, (has_weak_ref nd) eqn:Hhw, (has_strong_ref nd) eqn:Hhs, (held_strong nd) eqn:Hs; simpl in *; try done; try (by discriminate (A5 eq_refl)); try (by rewrite (strong_of_weak nd Hw) in Hs); injection Ht as <- <-; simpl; rewrite ?Hhs, ?Hhw; try done;
    try (apply held_strong_false in Hs as [_ Hs]; rewrite Hs); try (apply held_weak_false in Hw as (_ & Hw & _); rewrite Hw); done.
Qed.

Lemma settle_ok H p q n l : forall k st pr nd, inv st H None -> procs st !! p = Some pr -> todo st !! q = Some (WNode n :: l) -> bnodes st !! n = Some nd -> n_proc nd = Some p ->
  (has_strong_ref nd = false -> local_strong_refs nd < two31 - 1) -> (has_weak_ref nd = false -> local_weak_refs nd < two31 - 1) -> length (said nd) = k ->
  exists st', reads (S k) st p q = Some (st', said nd ++ [BR_NOOP]) /\ todo st' !! q = Some l /\
    if held_weak nd then exists nd', bnodes st' !! n = Some nd' /\ has_weak_ref nd' = true /\ has_strong_ref nd' = held_strong nd else bnodes st' !! n = None.
Proof.
  induction k as [|k IH]; intros st pr nd Hi Hp Hq Hn Hnp Rs Rw Hk; pose proof (hi_node _ _ _ _ _ _ (iv_h _ _ _ Hi) n nd Hn) as Ha; rewrite Hnp in Ha;
    assert (Eb : br_work st p q = br_node st p n) by (unfold br_work; by rewrite Hq); rewrite reads_S, Eb, (br_node_told st p n nd Hn); destruct (told nd) as [[c nd']|] eqn:Ht.
  - destruct (told_held _ _ _ _ _ _ _ _ Ha Rs Rw Ht) as (_ & _ & Es & _). rewrite Es in Hk. done.
  - destruct (told_none nd Ht) as [-> Hf]. assert (Hnl : WNode n ∉ l) by (pose proof (qi_nodup _ _ _ _ _ (iv_q _ _ _ Hi) q _ Hq) as Hnd; by apply NoDup_cons in Hnd as [? _]).
    assert (El : (list_del (WNode n) <$> todo st) !! q = Some l) by (rewrite lookup_fmap, Hq; simpl; by rewrite list_del_head).
    destruct (held_weak nd) eqn:Hw.
    + simpl. eexists. split; [done|]. split; [done|]. exists nd. done.
    + apply held_weak_false in Hw as (W1 & W2 & W3 & W4). destruct (free_alive st H None n nd p pr) as (t & Et & _); try done; [by left|]. rewrite Hp. simpl. rewrite Et. simpl. eexists. split; [done|]. split; [done|]. simpl. by rewrite lookup_delete_eq.
  - destruct (told_held _ _ _ _ _ _ _ _ Ha Rs Rw Ht) as (E1 & E2 & Es & Rs' & Rw'). destruct (told_alive _ _ _ _ _ _ _ _ Ha Rs Rw Ht) as (Ha' & Hid & Hr & Hin). assert (Hnp' : n_proc nd' = Some p) by (unfold nident in Hid; congruence).
    rewrite Es in Hk. injection Hk as Hk. destruct (IH (set_node st n nd') pr nd') as (st' & E & Hq' & Hres); try done; [|simpl; by rewrite lookup_insert_eq|].
    + unfold nident in Hid. injection Hid as I1 I2 I3. eapply (inv_node st H H n nd nd' p); try done. by left.
    + cbn [mbind option_bind]. rewrite E. cbn [mbind option_bind]. exists st'. rewrite Es. split; [done|]. split; [done|]. by rewrite <- E1, <- E2.
  - destruct (told_none nd Ht) as [Es _]. by rewrite Es in Hk.
Qed.

(** C25: reading the work of a node ends after at most three items: the
    process is told to keep the object and to let it go exactly as far as that is
    news, in the order of the protocol, the item leaves the list, and then the node
    is what the process was told, or is gone if nothing holds it. *)
Theorem binder_node_settles st H p pr q n nd l : reachable st H -> procs st !! p = Some pr -> own_list pr q -> todo st !! q = Some (WNode n :: l) -> bnodes st !! n = Some nd -> room st ->
  (length (said nd) <= 2)%nat /\ exists st', reads (S (length (said nd))) st p q = Some (st', said nd ++ [BR_NOOP]) /\ todo st' !! q = Some l /\
    if held_weak nd then exists nd', bnodes st' !! n = Some nd' /\ has_weak_ref nd' = true /\ has_strong_ref nd' = held_strong nd else bnodes st' !! n = None.
Proof.
  intros Hr Hp Hq Hl Hn [Rn _]. pose proof (reachable_inv _ _ Hr) as Hi. destruct (Rn n nd Hn) as (_ & Rs & Rw).
  split; [unfold said; destruct (held_weak nd), (has_weak_ref nd), (held_strong nd), (has_strong_ref nd); simpl; lia|].
  destruct (queued_mine st H None p pr q n Hi Hp (own_in _ _ Hq)) as (nd' & Hn' & Hnp); [eexists; split; [done|]; set_solver|]. rewrite Hn in Hn'. injection Hn' as <-. by eapply settle_ok.
Qed.

Lemma binder_node_settles_witness : exists st', reads 3 st2 1%nat 10%nat = Some (st', [BR_INCREFS; BR_ACQUIRE; BR_NOOP]).
Proof.
  destruct (binder_node_settles st2 [] 1%nat (proc_at st2 1%nat) 10%nat 1%nat (default (new_bnode 0%nat 0 0) (bnodes st2 !! 1%nat)) [] st2_reachable ltac:(done) ltac:(vm_compute; by constructor) ltac:(by vm_compute) ltac:(done) (proj1 (small_ok st2 eq_refl))) as (_ & st' & E & _).
  exists st'. exact E.
Defined.

(** ** The end of a process *)

(** C24: the release of a process always returns.  Its nodes and references are
    gone, it is no context manager any more, and every handle of another process
    stays as it was; one for an object of the dead process stands for a node
    without a process, under the same pointer and cookie, and if its holder asked
    to be told of the death, the news are on its list of work. *)
Theorem binder_exit_correct st H p pr : reachable st H -> procs st !! p = Some pr ->
  exists st', release_proc st p = Some st' /\ reachable st' (left_holds (bnodes st) p H) /\ procs st' !! p = None /\
    (forall n nd, bnodes st' !! n = Some nd -> n_proc nd <> Some p) /\ (forall m, binder_context_mgr_node st' = Some m -> exists q ptr cookie, q <> p /\ object_of st' m q ptr cookie) /\
    (forall r rf, brefs st' !! r = Some rf <-> brefs st !! r = Some rf /\ r_proc rf <> p) /\
    forall r rf nd, brefs st !! r = Some rf -> r_proc rf <> p -> bnodes st !! r_node rf = Some nd -> exists nd', bnodes st' !! r_node rf = Some nd' /\ n_ptr nd' = n_ptr nd /\ n_cookie nd' = n_cookie nd /\
      (n_proc nd <> Some p -> n_proc nd' = n_proc nd) /\
      (n_proc nd = Some p -> n_proc nd' = None /\ forall d, death rf = Some d -> exists qr dt, procs st' !! r_proc rf = Some qr /\ queued (todo st') (WDeath d) (p_todo qr) /\ deaths st' !! d = Some dt /\ d_type dt = Some DEAD_BINDER).
Proof.
  intros Hr Hp. pose proof (reachable_inv _ _ Hr) as Hi. destruct (release_proc_ok st H p pr Hi Hp) as (st' & E & Hi' & [g1 g2 g3 g4 g5 g6 g7 g8]). exists st'. split; [done|].
  split; [eapply (re_step st H (Exit p)); [done|by eapply al_exit|done]|]. split; [done|]. split; [intros n nd Hn Hnp; apply (g2 n); by exists nd|]. split; [|split].
  - intros m Hm. destruct (hi_mgr _ _ _ _ _ _ (iv_h _ _ _ Hi') m Hm) as (q & nd & Hn & Hq). exists q, (n_ptr nd), (n_cookie nd). split; [intros ->; apply (g2 m); by exists nd|by exists nd].
  - intros r rf. split; [intros Hrf; split; [by apply g5|intros Hrp; apply (g3 r); by exists rf]|intros [Hrf Hrp]; by apply g4].
  - intros r rf nd Hrf Hrp Hn. destruct (ref_node _ _ _ _ _ Hi' (g4 r rf Hrf Hrp)) as (nd' & Hn' & _). exists nd'. split; [done|]. destruct (g6 _ _ Hn') as (x & Hx & Hw & Hpp). rewrite Hn in Hx. injection Hx as <-. unfold what in Hw. injection Hw as W1 W2. split; [done|]. split; [done|]. split.
    + intros Hne. by rewrite bool_decide_eq_false_2 in Hpp.
    + intros Hnp. rewrite bool_decide_eq_true_2 in Hpp by done. split; [done|]. apply (g8 r rf Hrf Hrp). by exists nd.
Qed.

Lemma binder_exit_correct_witness : exists st', release_proc st3 1%nat = Some st' /\ procs st' !! 1%nat = None /\ exists qr dt, procs st' !! 2%nat = Some qr /\ queued (todo st') (WDeath 1%nat) (p_todo qr) /\ deaths st' !! 1%nat = Some dt /\ d_type dt = Some DEAD_BINDER.
Proof.
  destruct (binder_exit_correct st3 [] 1%nat (proc_at st3 1%nat) st3_reachable ltac:(done)) as (st' & E & _ & Hp & _ & _ & _ & Hall). exists st'. split; [exact E|]. split; [exact Hp|].
  destruct (Hall 1%nat (default (mk_ref 0%nat 0%nat 0 0 0 None) (brefs st3 !! 1%nat)) (default (new_bnode 0%nat 0 0) (bnodes st3 !! 1%nat)) ltac:(done) ltac:(done) ltac:(done)) as (nd' & _ & _ & _ & _ & Hd).
  destruct (Hd ltac:(done)) as [_ Hdeath]. exact (Hdeath 1%nat eq_refl).
Defined.

(** ** What the code lets happen *)

(** Process 1 has handle 1 for an object of process 2, pointer 100. *)
Definition st4 : state := after st1 (SendBinder 2 1 20 true 100 200 (Some 1) (Some 1))%nat.

(** The offsets of a transaction may name one object twice.  It is then translated
    twice: sent by process 1 as its object 500, it becomes handle 1 of process 2,
    and that number is taken for handle 1 of process 1, which is object 100 of
    process 2, held once.  When the buffer is freed that is given back twice. *)
Lemma overlapping_objects :
  (fun nd => local_strong_refs nd) <$> ('(st, _) ← translate_binder st4 1%nat 2%nat 10%nat true 500 600 (Some 2%nat) (Some 2%nat);
    '(st, o) ← translate_handle st 1%nat 2%nat true 1 None; st ← release_object st 2%nat true (default (Handle 0) o); st ← release_object st 2%nat true (default (Handle 0) o); bnodes st !! 1%nat) = Some (-1).
Proof. vm_compute. reflexivity. Qed.

(** The item that tells a process to acquire its object is on the list of the thread
    that sent it; when that thread ends, the item goes with it. *)
Lemma lost_acquire :
  (fun st => (on_list st (WNode 1%nat), internal_strong_refs <$> bnodes st !! 1%nat, has_strong_ref <$> bnodes st !! 1%nat)) <$>
    (st ← run st1 (Thread 1 12)%nat; st ← run st (SendBinder 1 2 12 true 100 200 (Some 1) (Some 1))%nat; run st (ThreadExit 1 12)%nat) = Some (false, Some 1, Some false).
Proof. vm_compute. reflexivity. Qed.

(** A reference to the context manager for which there is no memory is followed. *)
Lemma null_reference : exists st, run st1 (SetContextMgr 1%nat 0 (Some 1%nat)) = Some st /\ bc_refs st 2%nat BC_ACQUIRE 0 None = None.
Proof. eexists. split; [by vm_compute|]. by vm_compute. Qed.

(** A process that ends with news of a death that it has not confirmed leaves the
    death behind. *)
Lemma leaked_death :
  (fun st => (size (procs st), size (brefs st), size (deaths st))) <$> (st ← run st3 (Exit 1)%nat; st ← run st (Read 2 20)%nat; st ← run st (ClearDeath 2%nat 20%nat 1 7); run st (Exit 2)%nat) = Some (0%nat, 0%nat, 1%nat).
Proof. vm_compute. reflexivity. Qed.

End BinderRefLife.
