(* ===== verification/Timer.v ===== *)
(** * The timer wheel ([kernel/timer.c])

    Timers wait in the lists of five vectors: [tv1] has a list for each of the
    next 256 jiffies, each further vector lists for 64 times longer spans, which
    are spread over the vector before when their time comes.

    The target has one CPU, and so one [tvec_base], and [CONFIG_BASE_SMALL] is 0;
    timer statistics and object debugging are configured out.  With [CONFIG_NO_HZ]
    an idle CPU asks for the next event and sleeps until then.
    [__run_timers] gives up its lock around each handler, so that timers can be
    set and deleted there, those on its [work_list] included; it is cut at these
    points. *)

From Stdlib Require Import ZArith Lia.
From stdpp Require Import base option gmap list.
From S2P Require Import Prelude.

Local Open Scope Z_scope.
Local Open Scope kernel_scope.

Module Timer.

Definition tid := nat.

(** ** State *)

Definition TVN_BITS : Z := 6.
Definition TVR_BITS : Z := 8.
Definition TVN_SIZE : Z := Z.shiftl 1 TVN_BITS.
Definition TVR_SIZE : Z := Z.shiftl 1 TVR_BITS.
Definition TVN_MASK : Z := TVN_SIZE - 1.
Definition TVR_MASK : Z := TVR_SIZE - 1.

(** [struct tvec_base], less its lock. *)
Record tvec_base := mk_base {
  timer_jiffies : Z;
  tv1 : list (list tid);
  tv2 : list (list tid);
  tv3 : list (list tid);
  tv4 : list (list tid);
  tv5 : list (list tid)
}.

Inductive level := TV1 | TV2 | TV3 | TV4 | TV5.

#[export] Instance level_eq_decision : EqDecision level.
Proof. solve_decision. Defined.

Definition tv (b : tvec_base) (l : level) : list (list tid) :=
  match l with TV1 => tv1 b | TV2 => tv2 b | TV3 => tv3 b | TV4 => tv4 b | TV5 => tv5 b end.

Definition set_tv (b : tvec_base) (l : level) (v : list (list tid)) : tvec_base :=
  match l with
  | TV1 => mk_base (timer_jiffies b) v (tv2 b) (tv3 b) (tv4 b) (tv5 b)
  | TV2 => mk_base (timer_jiffies b) (tv1 b) v (tv3 b) (tv4 b) (tv5 b)
  | TV3 => mk_base (timer_jiffies b) (tv1 b) (tv2 b) v (tv4 b) (tv5 b)
  | TV4 => mk_base (timer_jiffies b) (tv1 b) (tv2 b) (tv3 b) v (tv5 b)
  | TV5 => mk_base (timer_jiffies b) (tv1 b) (tv2 b) (tv3 b) (tv4 b) v
  end.

Definition map_tv (f : list tid -> list tid) (b : tvec_base) : tvec_base :=
  mk_base (timer_jiffies b) (map f (tv1 b)) (map f (tv2 b)) (map f (tv3 b)) (map f (tv4 b)) (map f (tv5 b)).

(** [struct timer_list]: [pending] is [entry.next != NULL], [function] whether
    there is one. *)
Record timer_list := mk_timer { expires : Z; function : bool; pending : bool; deferrable : bool }.

(** [work_list] is the one of [__run_timers] while that is in a handler. *)
Record state := mk_state { base : tvec_base; work_list : list tid; timers : gmap tid timer_list; jiffies : Z }.

Definition set_base (st : state) (b : tvec_base) : state := mk_state b (work_list st) (timers st) (jiffies st).
Definition set_work (st : state) (l : list tid) : state := mk_state (base st) l (timers st) (jiffies st).
Definition set_timer (st : state) (t : tid) (tm : timer_list) : state :=
  mk_state (base st) (work_list st) (<[t := tm]> (timers st)) (jiffies st).

Definition time_after_eq (a b : Z) : bool := bool_decide (s32 (a - b) >= 0).

(** ** Adding *)

(** The vector and the index for a time of expiry. *)
Definition vec_for (timer_jiffies expires : Z) : level * Z :=
  let idx := expires -u timer_jiffies in
  if bool_decide (idx < TVR_SIZE) then (TV1, Z.land expires TVR_MASK)
  else if bool_decide (idx < Z.shiftl 1 (TVR_BITS + TVN_BITS))
  then (TV2, Z.land (Z.shiftr expires TVR_BITS) TVN_MASK)
  else if bool_decide (idx < Z.shiftl 1 (TVR_BITS + 2 * TVN_BITS))
  then (TV3, Z.land (Z.shiftr expires (TVR_BITS + TVN_BITS)) TVN_MASK)
  else if bool_decide (idx < Z.shiftl 1 (TVR_BITS + 3 * TVN_BITS))
  then (TV4, Z.land (Z.shiftr expires (TVR_BITS + 2 * TVN_BITS)) TVN_MASK)
  else if bool_decide (s32 idx < 0) then (TV1, Z.land timer_jiffies TVR_MASK)
  else
    let expires := if bool_decide (idx > 0xffffffff) then 0xffffffff +u timer_jiffies else expires in
    (TV5, Z.land (Z.shiftr expires (TVR_BITS + 3 * TVN_BITS)) TVN_MASK).

Definition internal_add_timer (b : tvec_base) (t : tid) (expires : Z) : option tvec_base :=
  let '(l, i) := vec_for (timer_jiffies b) expires in
  v ← tv b l !! Z.to_nat i;
  Some (set_tv b l (<[Z.to_nat i := list_add_tail t v]> (tv b l))).

(** The lists that a pending timer can be on. *)
Definition on_list (st : state) (t : tid) : bool :=
  bool_decide (t ∈ work_list st) ||
  existsb (fun v => bool_decide (t ∈ v)) (tv1 (base st) ++ tv2 (base st) ++ tv3 (base st) ++ tv4 (base st) ++ tv5 (base st)).

(** [__list_del] of a timer that is on a list. *)
Definition detach_timer (st : state) (t : tid) : option state :=
  if on_list st t
  then Some (mk_state (map_tv (list_del t) (base st)) (list_del t (work_list st)) (timers st) (jiffies st))
  else None.

Definition __mod_timer (st : state) (t : tid) (new_expires : Z) : option (state * Z) :=
  tm ← timers st !! t;
  if negb (function tm) then None
  else
    '(st, ret) ← (if pending tm then st ← detach_timer st t; Some (st, 1) else Some (st, 0));
    b ← internal_add_timer (base st) t new_expires;
    Some (set_timer (set_base st b) t (mk_timer new_expires (function tm) true (deferrable tm)), ret).

Definition mod_timer (st : state) (t : tid) (new_expires : Z) : option (state * Z) :=
  tm ← timers st !! t;
  if negb (function tm) then None
  else if bool_decide (expires tm = new_expires) && pending tm then Some (st, 1)
  else __mod_timer st t new_expires.

Definition add_timer (st : state) (t : tid) : option state :=
  tm ← timers st !! t;
  if pending tm then None
  else '(st, _) ← __mod_timer st t (expires tm); Some st.

Definition add_timer_on (st : state) (t : tid) : option state :=
  tm ← timers st !! t;
  if pending tm || negb (function tm) then None
  else
    b ← internal_add_timer (base st) t (expires tm);
    Some (set_timer (set_base st b) t (mk_timer (expires tm) (function tm) true (deferrable tm))).

Definition del_timer (st : state) (t : tid) : option (state * Z) :=
  tm ← timers st !! t;
  if pending tm then
    st ← detach_timer st t;
    Some (set_timer st t (mk_timer (expires tm) (function tm) false (deferrable tm)), 1)
  else Some (st, 0).

(** The caller fills in the function and the time before or after. *)
Definition init_timer (st : state) (t : tid) (e : Z) (fn : bool) : state := set_timer st t (mk_timer e fn false false).
Definition init_timer_deferrable (st : state) (t : tid) (e : Z) (fn : bool) : state := set_timer st t (mk_timer e fn false true).

(** ** Running *)

(** [internal_add_timer] for the timers of a list that was taken off. *)
Fixpoint add_all (tms : gmap tid timer_list) (b : tvec_base) (l : list tid) : option tvec_base :=
  match l with
  | [] => Some b
  | t :: l => tm ← tms !! t; b ← internal_add_timer b t (expires tm); add_all tms b l
  end.

Definition cascade (tms : gmap tid timer_list) (b : tvec_base) (l : level) (index : Z) : option (tvec_base * Z) :=
  v ← tv b l !! Z.to_nat index;
  b ← add_all tms (set_tv b l (<[Z.to_nat index := []]> (tv b l))) v;
  Some (b, index).

Definition INDEX (b : tvec_base) (n : Z) : Z := Z.land (Z.shiftr (timer_jiffies b) (TVR_BITS + n * TVN_BITS)) TVN_MASK.

(** The chain of [&&]s: each further vector is cascaded when the index before was
    0. *)
Fixpoint cascade_from (tms : gmap tid timer_list) (b : tvec_base) (n : Z) (ls : list level) : option tvec_base :=
  match ls with
  | [] => Some b
  | l :: ls =>
      '(b, index) ← cascade tms b l (INDEX b n);
      if bool_decide (index = 0) then cascade_from tms b (n + 1) ls else Some b
  end.

Definition advance_base (b : tvec_base) : tvec_base :=
  mk_base (timer_jiffies b +u 1) (tv1 b) (tv2 b) (tv3 b) (tv4 b) (tv5 b).

(** A turn of the outer loop of [__run_timers], up to the inner loop. *)
Definition advance (st : state) : option state :=
  let index := Z.land (timer_jiffies (base st)) TVR_MASK in
  b ← (if bool_decide (index = 0) then cascade_from (timers st) (base st) 0 [TV2; TV3; TV4; TV5] else Some (base st));
  let b := advance_base b in
  v ← tv b TV1 !! Z.to_nat index;
  Some (mk_state (set_tv b TV1 (<[Z.to_nat index := []]> (tv b TV1))) v (timers st) (jiffies st)).

(** A turn of the inner loop, up to the call of the handler, with the timer whose
    handler is called. *)
Definition fire (st : state) : option (state * tid) :=
  t ← head (work_list st);
  tm ← timers st !! t;
  if function tm then
    st ← detach_timer st t;
    Some (set_timer st t (mk_timer (expires tm) (function tm) false (deferrable tm)), t)
  else None.

(** What a handler can do with timers. *)
Inductive timer_call := CallMod (t : tid) (e : Z) | CallDel (t : tid).

Definition call (st : state) (c : timer_call) : option state :=
  match c with
  | CallMod t e => '(st, _) ← mod_timer st t e; Some st
  | CallDel t => '(st, _) ← del_timer st t; Some st
  end.

Fixpoint calls (st : state) (cs : list timer_call) : option state :=
  match cs with
  | [] => Some st
  | c :: cs => st ← call st c; calls st cs
  end.

(** The whole; [handler] says what the handler of a timer does, the result has
    the timers in the order their handlers ran, each with [timer_jiffies] then. *)
Fixpoint __run_timers (fuel : nat) (handler : tid -> list timer_call) (st : state) : option (state * list (tid * Z)) :=
  match work_list st with
  | [] =>
      if time_after_eq (jiffies st) (timer_jiffies (base st)) then
        match fuel with
        | O => None
        | S fuel => st ← advance st; __run_timers fuel handler st
        end
      else Some (st, [])
  | _ =>
      match fuel with
      | O => None
      | S fuel =>
          '(st, t) ← fire st;
          let now := timer_jiffies (base st) in
          st ← calls st (handler t);
          '(st, log) ← __run_timers fuel handler st;
          Some (st, (t, now) :: log)
      end
  end.

Definition run_timer_softirq (fuel : nat) (handler : tid -> list timer_call) (st : state) : option (state * list (tid * Z)) :=
  if time_after_eq (jiffies st) (timer_jiffies (base st)) then __run_timers fuel handler st else Some (st, []).

(** ** The next event *)

Definition NEXT_TIMER_MAX_DELTA : Z := Z.shiftl 1 30 - 1.

Definition time_before (a b : Z) : bool := bool_decide (s32 (a - b) < 0).
Definition time_before_eq (a b : Z) : bool := time_after_eq b a.

(** The time of the first timer of a list that cannot be deferred. *)
Fixpoint first_event (tms : gmap tid timer_list) (v : list tid) : option (option Z) :=
  match v with
  | [] => Some None
  | nte :: v => tm ← tms !! nte; if deferrable tm then first_event tms v else Some (Some (expires tm))
  end.

(** The search through [tv1], with the slot where it ends; its loop has at most
    [TVR_SIZE] turns. *)
Fixpoint tv1_search (fuel : nat) (tms : gmap tid timer_list) (b : tvec_base) (index slot : Z) : option (option (Z * Z)) :=
  match fuel with
  | O => None
  | S fuel =>
      v ← tv b TV1 !! Z.to_nat slot;
      f ← first_event tms v;
      match f with
      | Some e => Some (Some (e, slot))
      | None =>
          let slot := Z.land (slot + 1) TVR_MASK in
          if bool_decide (slot = index) then Some None else tv1_search fuel tms b index slot
      end
  end.

Fixpoint earliest (tms : gmap tid timer_list) (v : list tid) (found : bool) (e : Z) : option (bool * Z) :=
  match v with
  | [] => Some (found, e)
  | nte :: v => tm ← tms !! nte; earliest tms v true (if time_before (expires tm) e then expires tm else e)
  end.

(** The search through one of the other vectors; the first of the results says
    whether it returns. *)
Fixpoint tvn_search (fuel : nat) (tms : gmap tid timer_list) (b : tvec_base) (l : level) (index slot : Z) (found : bool) (e : Z)
  : option (bool * bool * Z) :=
  match fuel with
  | O => None
  | S fuel =>
      v ← tv b l !! Z.to_nat slot;
      '(found, e) ← earliest tms v found e;
      if (found : bool) then Some (negb (bool_decide (index = 0) || bool_decide (slot < index)), found, e)
      else
        let slot := Z.land (slot + 1) TVN_MASK in
        if bool_decide (slot = index) then Some (false, found, e) else tvn_search fuel tms b l index slot found e
  end.

Fixpoint next_levels (tms : gmap tid timer_list) (b : tvec_base) (tj : Z) (ls : list level) (found : bool) (e : Z) : option Z :=
  match ls with
  | [] => Some e
  | l :: ls =>
      let index := Z.land tj TVN_MASK in
      '(ret, found, e) ← tvn_search (Z.to_nat TVN_SIZE) tms b l index index found e;
      if (ret : bool) then Some e
      else
        let tj := if bool_decide (index = 0) then tj else tj +u (TVN_SIZE - index) in
        next_levels tms b (Z.shiftr tj TVN_BITS) ls found e
  end.

Definition __next_timer_interrupt (tms : gmap tid timer_list) (b : tvec_base) : option Z :=
  let tj := timer_jiffies b in
  let index := Z.land tj TVR_MASK in
  r ← tv1_search (Z.to_nat TVR_SIZE) tms b index index;
  let later (found : bool) (e : Z) : option Z :=
    let tj := if bool_decide (index = 0) then tj else tj +u (TVR_SIZE - index) in
    next_levels tms b (Z.shiftr tj TVR_BITS) [TV2; TV3; TV4; TV5] found e in
  match r with
  | Some (e, slot) => if bool_decide (index = 0) || bool_decide (slot < index) then later true e else Some e
  | None => later false (tj +u NEXT_TIMER_MAX_DELTA)
  end.

(** [hr] is what [hrtimer_get_next_event] returns, [None] for [KTIME_MAX], and
    [to_jiffies] converts nanoseconds. *)
Definition cmp_next_hrtimer_event (to_jiffies : Z -> Z) (hr : option Z) (now e : Z) : Z :=
  match hr with
  | None => e
  | Some hr_delta =>
      if bool_decide (hr_delta <= 0) then now +u 1
      else
        let delta := to_jiffies hr_delta in
        let delta := if bool_decide (delta > NEXT_TIMER_MAX_DELTA) then NEXT_TIMER_MAX_DELTA else delta in
        let delta := if bool_decide (delta < 1) then 1 else delta in
        let now := now +u delta in
        if time_before now e then now else e
  end.

Definition get_next_timer_interrupt (to_jiffies : Z -> Z) (hr : option Z) (st : state) (now : Z) : option Z :=
  e ← __next_timer_interrupt (timers st) (base st);
  if time_before_eq e now then Some now else Some (cmp_next_hrtimer_event to_jiffies hr now e).

(** The low word of [jiffies_64]. *)
Definition do_timer (st : state) (ticks : Z) : state :=
  mk_state (base st) (work_list st) (timers st) (jiffies st +u ticks).

(** ** Initialisation and rounding *)

Definition init_timers_cpu (jiffies : Z) : tvec_base :=
  let v n := replicate (Z.to_nat n) [] in
  mk_base jiffies (v TVR_SIZE) (v TVN_SIZE) (v TVN_SIZE) (v TVN_SIZE) (v TVN_SIZE).

(** [HZ] is [CONFIG_HZ]. *)
Definition round_jiffies_common (HZ jiffies j cpu : Z) (force_up : bool) : Z :=
  let original := j in
  let j := j +u cpu * 3 in
  let rem := j mod HZ in
  let j := if bool_decide (rem < HZ / 4) && negb force_up then j -u rem else j -u rem +u HZ in
  let j := j -u cpu * 3 in
  if bool_decide (j <= jiffies) then original else j.

Definition __round_jiffies (HZ jiffies j cpu : Z) : Z := round_jiffies_common HZ jiffies j cpu false.
Definition __round_jiffies_relative (HZ jiffies j cpu : Z) : Z := round_jiffies_common HZ jiffies (j +u jiffies) cpu false -u jiffies.
Definition __round_jiffies_up (HZ jiffies j cpu : Z) : Z := round_jiffies_common HZ jiffies j cpu true.
Definition __round_jiffies_up_relative (HZ jiffies j cpu : Z) : Z := round_jiffies_common HZ jiffies (j +u jiffies) cpu true -u jiffies.

(** [raw_smp_processor_id] is 0. *)
Definition round_jiffies (HZ jiffies j : Z) : Z := round_jiffies_common HZ jiffies j 0 false.
Definition round_jiffies_relative (HZ jiffies j : Z) : Z := __round_jiffies_relative HZ jiffies j 0.
Definition round_jiffies_up (HZ jiffies j : Z) : Z := round_jiffies_common HZ jiffies j 0 true.
Definition round_jiffies_up_relative (HZ jiffies j : Z) : Z := __round_jiffies_up_relative HZ jiffies j 0.

End Timer.
