(* ===== verification/TimerInv.v ===== *)
(** * The timer wheel: where a timer waits *)

From Stdlib Require Import ZArith Lia.
From stdpp Require Import base option gmap list.
From S2P Require Import Prelude Timer.

Local Open Scope Z_scope.
Local Open Scope kernel_scope.

Module TimerInv.
Import Timer.

(** ** Times

    Jiffies are counted without wrapping here; the code keeps them modulo
    [2^32].  [T] is the jiffy that is processed next. *)

Definition word (z : Z) : Prop := 0 <= z < two32.

(** The jiffy at which a timer is due that is set to [e] at [T]: [e] if it is
    less than [2^31] jiffies away, and otherwise it has passed and [T] is next. *)
Definition due_at (T e : Z) : Z := if bool_decide (e -u T < two31) then T + (e -u T) else T.

Definition shift (l : level) : Z := match l with TV1 => 0 | TV2 => 8 | TV3 => 14 | TV4 => 20 | TV5 => 26 end.
Definition size_of (l : level) : Z := match l with TV1 => 256 | _ => 64 end.

(** The span of the vector [l] that the jiffy [D] is in, and its first jiffy. *)
Definition span (l : level) (D : Z) : Z := D / 2 ^ shift l.
Definition span_start (l : level) (D : Z) : Z := span l D * 2 ^ shift l.

(** A timer that is due at [D] may wait in the list [i] of the vector [l]: its
    span has not begun, and no other span that is to come sooner shares the
    list. *)
Definition fits (T D : Z) (l : level) (i : nat) : Prop :=
  T <= span_start l D /\ span l D < (T + 2 ^ shift l - 1) / 2 ^ shift l + size_of l /\ Z.of_nat i = span l D mod size_of l.

Lemma pow_shift l : 0 < 2 ^ shift l.
Proof. by destruct l. Qed.

Lemma span_bounds l D : span_start l D <= D < span_start l D + 2 ^ shift l.
Proof.
  unfold span_start, span. pose proof (pow_shift l) as Hp. pose proof (Z.div_mod D (2 ^ shift l) ltac:(lia)). pose proof (Z.mod_pos_bound D (2 ^ shift l) Hp). lia.
Qed.

(** The index in a word is that of the unbounded time. *)
Lemma index_word D s k : 0 <= s -> 0 <= k -> s + k <= 32 -> Z.land (Z.shiftr (u32 D) s) (2 ^ k - 1) = (D / 2 ^ s) mod 2 ^ k.
Proof.
  intros Hs Hk Hsk. replace (2 ^ k - 1) with (Z.ones k) by (rewrite Z.ones_equiv; lia). rewrite Z.land_ones by done. unfold u32, two32. change 4294967296 with (2 ^ 32).
  rewrite <- Z.land_ones, <- !Z.land_ones by lia. apply Z.bits_inj'. intros n Hn. rewrite !Z.land_spec, Z.shiftr_spec, Z.land_spec by lia. rewrite <- Z.shiftr_div_pow2, Z.shiftr_spec by lia.
  destruct (decide (n < k)).
  - rewrite (Z.ones_spec_low k) by lia. rewrite (Z.ones_spec_low 32) by lia. by rewrite !andb_true_r.
  - rewrite (Z.ones_spec_high k) by lia. by rewrite !andb_false_r.
Qed.

Lemma u32_due T e : word e -> e -u T < two31 -> u32 (T + (e -u T)) = e.
Proof. intros He _. rewrite u32_add_r. replace (T + (e - T)) with e by lia. by apply u32_small. Qed.

Lemma due_again T D : T <= D < T + two31 -> due_at T (u32 D) = D.
Proof.
  intros H. unfold due_at. rewrite u32_sub_l. rewrite u32_small by (unfold two31, two32 in *; lia). rewrite bool_decide_eq_true_2 by lia. lia.
Qed.

Lemma due_range T e : T <= due_at T e < T + two31.
Proof. unfold due_at. case_bd; [|unfold two31; lia]. pose proof (u32_range (e - T)). lia. Qed.

Lemma due_sub T e : e -u u32 T = e -u T.
Proof. apply u32_sub_r. Qed.

(** A vector takes what is at least one of its spans away and less than all of
    them. *)
Lemma fits_add T D l : 2 ^ shift l <= D - T < size_of l * 2 ^ shift l -> fits T D l (Z.to_nat (span l D mod size_of l)) /\ T < span_start l D.
Proof.
  intros H. pose proof (span_bounds l D) as Hb. pose proof (pow_shift l) as Hp. assert (Hsz : 0 < size_of l) by (by destruct l).
  split; [|lia]. split; [lia|]. split; [|rewrite Z2Nat.id; [done|]; by apply Z.mod_pos_bound].
  assert (Hc : T <= (T + 2 ^ shift l - 1) / 2 ^ shift l * 2 ^ shift l).
  { pose proof (Z.div_mod (T + 2 ^ shift l - 1) (2 ^ shift l) ltac:(lia)). pose proof (Z.mod_pos_bound (T + 2 ^ shift l - 1) (2 ^ shift l) Hp). lia. }
  unfold span. apply Z.div_lt_upper_bound; [done|]. nia.
Qed.

Lemma fits_first T D : T <= D < T + 256 -> fits T D TV1 (Z.to_nat (D mod 256)).
Proof.
  intros H. unfold fits, span_start, span. simpl shift. simpl size_of. rewrite Z.pow_0_r, !Z.div_1_r. split; [lia|]. split; [lia|]. rewrite Z2Nat.id; [done|]. apply Z.mod_pos_bound. lia.
Qed.

(** [internal_add_timer] picks such a list. *)
Lemma vec_for_ok T e l i : word e -> vec_for (u32 T) e = (l, i) ->
  (0 <= i < size_of l) /\ fits T (due_at T e) l (Z.to_nat i) /\ (l <> TV1 -> T < span_start l (due_at T e) /\ u32 (due_at T e) = e).
Proof.
  intros He. unfold vec_for. rewrite due_sub. set (idx := e -u T). assert (Hi : 0 <= idx < two32) by apply u32_range.
  assert (Hs : s32 idx < 0 <-> two31 <= idx).
  { unfold s32. rewrite Z.mod_small by done. case_bd; unfold two31, two32 in *; lia. }
  change TVR_MASK with (2 ^ 8 - 1). change TVN_MASK with (2 ^ 6 - 1). change (Z.shiftl 1 (TVR_BITS + TVN_BITS)) with 16384. change (Z.shiftl 1 (TVR_BITS + 2 * TVN_BITS)) with 1048576.
  change (Z.shiftl 1 (TVR_BITS + 3 * TVN_BITS)) with 67108864. change TVR_SIZE with 256.
  assert (Hd : idx < two31 -> due_at T e = T + idx /\ u32 (due_at T e) = e).
  { intros H. unfold due_at. fold idx. rewrite bool_decide_eq_true_2 by done. split; [done|]. by apply u32_due. }
  assert (Hnext : forall l', l' <> TV1 -> 2 ^ shift l' <= idx -> idx < two31 -> idx < size_of l' * 2 ^ shift l' ->
    let i := Z.land (Z.shiftr e (shift l')) (2 ^ 6 - 1) in
    (0 <= i < size_of l') /\ fits T (due_at T e) l' (Z.to_nat i) /\ (l' <> TV1 -> T < span_start l' (due_at T e) /\ u32 (due_at T e) = e)).
  { intros l' Hl' H1 H2 H3 i'. destruct (Hd H2) as [Ed Eu]. assert (Ei : i' = span l' (due_at T e) mod size_of l').
    { unfold i'. rewrite <- Eu at 1. rewrite index_word by (destruct l'; simpl; lia). by destruct l'. }
    destruct (fits_add T (due_at T e) l') as [F1 F2]; [lia|]. rewrite Ei. split; [apply Z.mod_pos_bound; by destruct l'|]. done. }
  case_bd as H1.
  { intros [= <- <-]. destruct Hd as [Ed Eu]; [unfold two31; lia|]. assert (Ei : Z.land e (2 ^ 8 - 1) = due_at T e mod 256).
    { rewrite <- Eu at 1. rewrite <- (Z.shiftr_0_r (u32 (due_at T e))), index_word by lia. by rewrite Z.pow_0_r, Z.div_1_r. }
    rewrite Ei. split; [apply Z.mod_pos_bound; done|]. split; [apply fits_first; lia|done]. }
  case_bd as H2; [intros [= <- <-]; apply (Hnext TV2); simpl; unfold two31; (done || lia)|].
  case_bd as H3; [intros [= <- <-]; apply (Hnext TV3); simpl; unfold two31; (done || lia)|].
  case_bd as H4; [intros [= <- <-]; apply (Hnext TV4); simpl; unfold two31; (done || lia)|].
  case_bd as H5.
  - intros [= <- <-]. assert (Ed : due_at T e = T) by (unfold due_at; fold idx; rewrite bool_decide_eq_false_2; [done|lia]).
    assert (Ei : Z.land (u32 T) (2 ^ 8 - 1) = T mod 256) by (rewrite <- (Z.shiftr_0_r (u32 T)), index_word by lia; by rewrite Z.pow_0_r, Z.div_1_r).
    rewrite Ei, Ed. split; [by apply Z.mod_pos_bound|]. split; [apply fits_first; lia|done].
  - rewrite bool_decide_eq_false_2 by (unfold two32 in *; lia). intros [= <- <-]. apply (Hnext TV5); simpl; unfold two31, two32 in *; (done || lia).
Qed.

(** ** Lists *)

Definition in_vec (b : tvec_base) (l : level) (i : nat) (t : tid) : Prop := exists v, tv b l !! i = Some v /\ t ∈ v.

Definition placed (b : tvec_base) (t : tid) : Prop := exists l i, in_vec b l i t.

Lemma tv_set b l l' v : tv (set_tv b l v) l' = if decide (l' = l) then v else tv b l'.
Proof. by destruct l, l'. Qed.

Lemma time_set b l v : timer_jiffies (set_tv b l v) = timer_jiffies b.
Proof. by destruct l. Qed.

Lemma tv_map f b l : tv (map_tv f b) l = map f (tv b l).
Proof. by destruct l. Qed.

Lemma in_vec_insert b l i v v' l' i' t : tv b l !! i = Some v ->
  in_vec (set_tv b l (<[i := v']> (tv b l))) l' i' t <-> if decide (l' = l /\ i' = i) then t ∈ v' else in_vec b l' i' t.
Proof.
  intros Hv. unfold in_vec. rewrite tv_set. case_decide as Hl.
  - subst l'. destruct (decide (i' = i)) as [->|Hi].
    + rewrite decide_True by done. rewrite list_lookup_insert_eq by (by eapply lookup_lt_Some). split; [intros (w & [= <-] & H); done|eauto].
    + rewrite decide_False by tauto. by rewrite list_lookup_insert_ne.
  - rewrite decide_False by tauto. done.
Qed.

(** The vectors hold timers where they fit, each once. *)
Record bwf (T : Z) (due : gmap tid Z) (tms : gmap tid timer_list) (b : tvec_base) : Prop := {
  bw_time : timer_jiffies b = u32 T;
  bw_len : forall l, length (tv b l) = Z.to_nat (size_of l);
  bw_nodup : forall l i v, tv b l !! i = Some v -> NoDup v;
  bw_once : forall t l i l' i', in_vec b l i t -> in_vec b l' i' t -> l = l' /\ i = i';
  bw_vec : forall t l i, in_vec b l i t -> exists D, due !! t = Some D /\ fits T D l i /\ D < T + two31 /\
    (l <> TV1 -> exists tm, tms !! t = Some tm /\ expires tm = u32 D)
}.

Lemma bw_lookup T due tms b l i : bwf T due tms b -> 0 <= i < size_of l -> exists v, tv b l !! Z.to_nat i = Some v.
Proof. intros H Hi. apply lookup_lt_is_Some_2. rewrite (bw_len _ _ _ _ H l). lia. Qed.

(** No timer of [l] has a span that begins at [T]. *)
Definition settled (T : Z) (due : gmap tid Z) (b : tvec_base) (l : level) : Prop :=
  forall t i D, in_vec b l i t -> due !! t = Some D -> T < span_start l D.

Lemma internal_add_ok T due tms b t e tm : bwf T due tms b -> word e -> ~ placed b t -> due !! t = Some (due_at T e) -> tms !! t = Some tm -> expires tm = e ->
  exists b', internal_add_timer b t e = Some b' /\ bwf T due tms b' /\ (forall x, placed b' x <-> placed b x \/ x = t) /\
    (forall l, l <> TV1 -> settled T due b l -> settled T due b' l).
Proof.
  intros Hb He Hn Hd Htm Hex. unfold internal_add_timer. rewrite (bw_time _ _ _ _ Hb). destruct (vec_for (u32 T) e) as [l i] eqn:Ev.
  destruct (vec_for_ok T e l i He Ev) as (Hi & Hf & Hl). destruct (bw_lookup _ _ _ _ l i Hb Hi) as [v Hv]. rewrite Hv. simpl.
  set (b' := set_tv _ _ _). assert (Hin : forall l' i' x, in_vec b' l' i' x <-> in_vec b l' i' x \/ (x = t /\ l' = l /\ i' = Z.to_nat i)).
  { intros l' i' x. unfold b'. rewrite (in_vec_insert b l (Z.to_nat i) v) by done. unfold list_add_tail. case_decide as Hc.
    - destruct Hc as [-> ->]. rewrite elem_of_app, list_elem_of_singleton. unfold in_vec. split; [intros [H| ->]; [left; eauto|by right]|].
      intros [(w & Hw & H)|[-> _]]; [left; congruence|by right].
    - split; [by left|]. intros [H|(_ & -> & ->)]; [done|tauto]. }
  exists b'. split; [done|]. split.
  - pose proof Hb as [B1 B2 B3 B4 B5]. split.
    + unfold b'. by rewrite time_set.
    + intros l'. unfold b'. rewrite tv_set. case_decide; [subst; rewrite length_insert|]; apply B2.
    + intros l' i' w. unfold b'. rewrite tv_set. case_decide as Hc; [subst l'|apply B3]. rewrite list_lookup_insert. case_decide as Hc.
      * destruct Hc as [<- _]. intros [= <-]. unfold list_add_tail. apply NoDup_app. split; [by eapply B3|]. split; [|apply NoDup_singleton].
        intros x Hx Hx'%list_elem_of_singleton. subst x. apply Hn. exists l, (Z.to_nat i), v. done.
      * apply B3.
    + intros x l1 i1 l2 i2 [H1|(E1 & E2 & E3)]%Hin [H2|(F1 & F2 & F3)]%Hin; [by eapply B4| | |by subst]; subst x; exfalso; apply Hn; eexists _, _; eassumption.
    + intros x l' i' [H|(-> & -> & ->)]%Hin; [by apply B5|]. exists (due_at T e). split; [done|]. split; [done|]. split; [apply due_range|].
      intros Hne. exists tm. split; [done|]. destruct (Hl Hne) as [_ ->]. done.
  - split.
    + intros x. split; [intros (l' & i' & [H|(-> & _)]%Hin); [left; by exists l', i'|by right]|].
      intros [(l' & i' & H)| ->]; [exists l', i'; apply Hin; by left|exists l, (Z.to_nat i); apply Hin; by right].
    + intros l' Hl' Hs x i' D [H|(-> & -> & ->)]%Hin HD; [by eapply Hs|]. rewrite Hd in HD. injection HD as <-. by apply Hl.
Qed.

End TimerInv.

(** * The timer wheel: cascading and the next jiffy *)

Local Open Scope Z_scope.
Local Open Scope kernel_scope.

Module TimerRun.
Import Timer TimerInv.

Section wheel.
Context (T : Z) (due : gmap tid Z) (tms : gmap tid timer_list).
Implicit Types (b : tvec_base) (l : level).

Notation bwf := (bwf T due tms).
Notation settled := (settled T due).

(** ** Emptying and refilling *)

(** [list_replace_init]: the list [i] of [l] is taken off. *)
Lemma take_list b l i v : bwf b -> tv b l !! i = Some v ->
  let b0 := set_tv b l (<[i := []]> (tv b l)) in
  bwf b0 /\ (forall x, placed b0 x <-> placed b x /\ x ∉ v) /\ (forall l' i' x, in_vec b0 l' i' x -> in_vec b l' i' x /\ ~ (l' = l /\ i' = i)).
Proof.
  intros Hb Hv b0. pose proof Hb as [B1 B2 B3 B4 B5].
  assert (Hin : forall l' i' x, in_vec b0 l' i' x <-> in_vec b l' i' x /\ ~ (l' = l /\ i' = i)).
  { intros l' i' x. unfold b0. rewrite (in_vec_insert b l i v) by done. case_decide; [|tauto]. rewrite elem_of_nil. tauto. }
  split; [|split; [|intros l' i' x; apply Hin]].
  - split.
    + unfold b0. by rewrite time_set.
    + intros l'. unfold b0. rewrite tv_set. case_decide; [subst; rewrite length_insert|]; apply B2.
    + intros l' i' w. unfold b0. rewrite tv_set. case_decide as Hc; [subst l'|apply B3]. rewrite list_lookup_insert. case_decide; [intros [= <-]; constructor|apply B3].
    + intros x l1 i1 l2 i2 [H1 _]%Hin [H2 _]%Hin. by eapply B4.
    + intros x l' i' [H _]%Hin. by apply B5.
  - intros x. split.
    + intros (l' & i' & [H Hne]%Hin). split; [by exists l', i'|]. intros Hx. apply Hne. apply (B4 x l' i' l i); [done|]. by exists v.
    + intros [(l' & i' & H) Hx]. exists l', i'. apply Hin. split; [done|]. intros [-> ->]. apply Hx. destruct H as (w & Hw & H). congruence.
Qed.

Lemma add_all_ok v : forall b, bwf b -> NoDup v -> (forall x, x ∈ v -> ~ placed b x) ->
  (forall x, x ∈ v -> exists D tm, due !! x = Some D /\ T <= D < T + two31 /\ tms !! x = Some tm /\ expires tm = u32 D) ->
  exists b', add_all tms b v = Some b' /\ bwf b' /\ (forall x, placed b' x <-> placed b x \/ x ∈ v) /\ (forall l, l <> TV1 -> settled b l -> settled b' l).
Proof.
  induction v as [|t v IH]; intros b Hb Hnd Hn Hd.
  - exists b. split; [done|]. split; [done|]. split; [|done]. intros x. rewrite elem_of_nil. tauto.
  - apply NoDup_cons in Hnd as [Ht Hnd]. destruct (Hd t) as (D & tm & HD & HT & Htm & Hex); [set_solver|]. simpl. rewrite Htm. simpl. rewrite Hex.
    destruct (internal_add_ok T due tms b t (u32 D) tm Hb) as (b1 & E1 & Hb1 & Hp1 & Hs1); [apply u32_range|apply Hn; set_solver|by rewrite due_again|done|done|].
    rewrite E1. simpl. destruct (IH b1 Hb1 Hnd) as (b' & E & Hb' & Hp & Hs).
    + intros x Hx [H| ->]%Hp1; [|done]. by apply (Hn x); [set_solver|].
    + intros x Hx. apply Hd. set_solver.
    + exists b'. split; [done|]. split; [done|]. split; [intros x; rewrite Hp, Hp1; set_solver|]. intros l Hl H. by apply Hs, Hs1.
Qed.

(** ** Cascading *)

Lemma span_mul l : T mod 2 ^ shift l = 0 -> (T + 2 ^ shift l - 1) / 2 ^ shift l = T / 2 ^ shift l.
Proof.
  intros Hm. pose proof (pow_shift l) as Hp. pose proof (Z.div_mod T (2 ^ shift l) ltac:(lia)) as Hd. rewrite Hm in Hd.
  symmetry. apply (Z.div_unique_pos _ _ _ (2 ^ shift l - 1)); lia.
Qed.

(** In the list of the span that begins at [T] are exactly the timers due in it. *)
Lemma fits_now l D i : T mod 2 ^ shift l = 0 -> fits T D l i -> Z.of_nat i = (T / 2 ^ shift l) mod size_of l -> span_start l D = T.
Proof.
  intros Hm (H1 & H2 & H3) Hi. rewrite span_mul in H2 by done. pose proof (pow_shift l) as Hp. pose proof (Z.div_mod T (2 ^ shift l) ltac:(lia)) as Hd. rewrite Hm in Hd.
  unfold span_start in *. set (q := span l D) in *. set (k := T / 2 ^ shift l) in *. assert (Hsz : 0 < size_of l) by (by destruct l).
  assert (Hq : q = k); [|rewrite Hq; lia]. assert (Hkq : k <= q) by nia. rewrite Hi in H3.
  pose proof (Z.div_mod q (size_of l) ltac:(lia)) as D1. pose proof (Z.div_mod k (size_of l) ltac:(lia)) as D2.
  assert (q / size_of l = k / size_of l); [nia|lia].
Qed.

Lemma cascade_ok b l i : bwf b -> l <> TV1 -> T mod 2 ^ shift l = 0 -> i = (T / 2 ^ shift l) mod size_of l ->
  exists b', cascade tms b l i = Some (b', i) /\ bwf b' /\ (forall x, placed b' x <-> placed b x) /\ settled b' l /\
    (forall l', l' <> TV1 -> settled b l' -> settled b' l').
Proof.
  intros Hb Hl Hm Hi. assert (Hsz : 0 < size_of l) by (by destruct l). assert (Hir : 0 <= i < size_of l) by (rewrite Hi; by apply Z.mod_pos_bound).
  destruct (bw_lookup _ _ _ _ l i Hb Hir) as [v Hv]. unfold cascade. rewrite Hv. simpl. destruct (take_list b l _ v Hb Hv) as (Hb0 & Hp0 & Hin0).
  set (b0 := set_tv _ _ _) in *. destruct (add_all_ok v b0 Hb0) as (b' & E & Hb' & Hp & Hs).
  - exact (bw_nodup _ _ _ _ Hb _ _ _ Hv).
  - intros x Hx [_ H]%Hp0. done.
  - intros x Hx. destruct (bw_vec _ _ _ _ Hb x l (Z.to_nat i)) as (D & HD & Hf & Hr & Hx'); [by exists v|]. destruct (Hx' Hl) as (tm & Htm & Hex).
    exists D, tm. split; [done|]. split; [|done]. destruct Hf as [Hf _]. pose proof (span_bounds l D). lia.
  - rewrite E. simpl. exists b'. split; [done|]. split; [done|]. split; [intros x; rewrite Hp, Hp0|split].
    + split; [intros [[? _]|Hx]; [done|exists l, (Z.to_nat i), v; done]|]. intros Hx. destruct (decide (x ∈ v)); [by right|by left].
    + apply Hs; [done|]. intros x j D Hj HD. destruct (Hin0 _ _ _ Hj) as [Hj0 Hne]. destruct (bw_vec _ _ _ _ Hb x l j Hj0) as (D' & HD' & Hf & _).
      rewrite HD in HD'. injection HD' as <-. destruct (decide (T = span_start l D)) as [He|]; [|destruct Hf; lia]. exfalso. apply Hne. split; [done|].
      destruct Hf as (_ & _ & Hj'). assert (span l D = T / 2 ^ shift l) as Hsp by (unfold span_start in He; rewrite He, Z.div_mul by (pose proof (pow_shift l); lia); done).
      rewrite Hsp, <- Hi in Hj'. lia.
    + intros l' Hl' H. apply Hs; [done|]. intros x j D Hj HD. apply Hin0 in Hj as [Hj _]. by eapply H.
Qed.

Lemma settled_off b l : bwf b -> T mod 2 ^ shift l <> 0 -> settled b l.
Proof.
  intros Hb Hm x i D Hi HD. destruct (bw_vec _ _ _ _ Hb x l i Hi) as (D' & HD' & (Hf & _) & _). rewrite HD in HD'. injection HD' as <-.
  destruct (decide (T = span_start l D)) as [He|]; [|lia]. exfalso. apply Hm. rewrite He. unfold span_start. apply Z.mod_mul. pose proof (pow_shift l). lia.
Qed.

(** The levels that follow the index [n]. *)
Fixpoint follows (n : Z) (ls : list level) : Prop :=
  match ls with [] => True | l :: ls => l <> TV1 /\ shift l = TVR_BITS + n * TVN_BITS /\ follows (n + 1) ls end.

Lemma follows_shift n ls l : follows n ls -> l ∈ ls -> 8 + 6 * n <= shift l.
Proof.
  revert n. induction ls as [|l' ls IH]; intros n; [set_solver|]. simpl. intros (_ & Hs & Hf) [->|Hl]%elem_of_cons; [rewrite Hs; unfold TVR_BITS, TVN_BITS; lia|].
  specialize (IH (n + 1) Hf Hl). lia.
Qed.

Lemma cascade_from_ok ls : forall n b, bwf b -> 0 <= n -> follows n ls -> T mod 2 ^ (8 + 6 * n) = 0 ->
  exists b', cascade_from tms b n ls = Some b' /\ bwf b' /\ (forall x, placed b' x <-> placed b x) /\ (forall l, l ∈ ls -> settled b' l) /\
    (forall l, l <> TV1 -> settled b l -> settled b' l).
Proof.
  induction ls as [|l ls IH]; intros n b Hb Hn Hf Hm.
  - exists b. split; [done|]. split; [done|]. split; [done|]. split; [set_solver|done].
  - simpl in Hf. destruct Hf as (Hl & Hs & Hf). assert (Esh : shift l = 8 + 6 * n) by (rewrite Hs; unfold TVR_BITS, TVN_BITS; lia).
    assert (Ei : INDEX b n = (T / 2 ^ shift l) mod size_of l).
    { unfold INDEX. rewrite (bw_time _ _ _ _ Hb), <- Hs. change TVN_MASK with (2 ^ 6 - 1). rewrite index_word by (destruct l; simpl; lia). by destruct l. }
    destruct (cascade_ok b l (INDEX b n) Hb Hl) as (b1 & E1 & Hb1 & Hp1 & Hsl & Hs1); [by rewrite Esh|done|]. simpl. rewrite E1. simpl.
    assert (Hnext : INDEX b n = 0 <-> T mod 2 ^ (8 + 6 * (n + 1)) = 0).
    { rewrite Ei, Esh. replace (size_of l) with (2 ^ 6) by (by destruct l). replace (8 + 6 * (n + 1)) with (8 + 6 * n + 6) by lia.
      rewrite (Z.pow_add_r 2 (8 + 6 * n) 6) by lia. rewrite Z.rem_mul_r, Hm by (try apply Z.pow_nonzero; try lia). pose proof (Z.pow_pos_nonneg 2 (8 + 6 * n) ltac:(lia) ltac:(lia)). lia. }
    case_bd as Hz.
    + destruct (IH (n + 1) b1 Hb1 ltac:(lia) Hf ltac:(by apply Hnext)) as (b' & E & Hb' & Hp & Hss & Hs'). exists b'. split; [done|]. split; [done|].
      split; [intros x; by rewrite Hp, Hp1|]. split; [intros l' [->|Hl']%elem_of_cons; [by apply Hs'|by apply Hss]|]. intros l' Hl' H. by apply Hs', Hs1.
    + exists b1. split; [done|]. split; [done|]. split; [done|]. split; [|done]. intros l' [->|Hl']%elem_of_cons; [done|]. apply settled_off; [done|]. intros H0. apply Hz, Hnext.
      pose proof (follows_shift _ _ _ Hf Hl') as Hge. rewrite <- (Z.mod_mod_divide T (2 ^ shift l') (2 ^ (8 + 6 * (n + 1)))); [by rewrite H0|].
      exists (2 ^ (shift l' - (8 + 6 * (n + 1)))). rewrite <- Z.pow_add_r by lia. f_equal. lia.
Qed.

(** After the cascades no list holds a timer whose span begins now, except those
    that are due. *)
Lemma cascades_ok b : bwf b ->
  exists b', (if bool_decide (Z.land (timer_jiffies b) TVR_MASK = 0) then cascade_from tms b 0 [TV2; TV3; TV4; TV5] else Some b) = Some b' /\
    bwf b' /\ (forall x, placed b' x <-> placed b x) /\ forall l, l <> TV1 -> settled b' l.
Proof.
  intros Hb. assert (Ei : Z.land (timer_jiffies b) TVR_MASK = T mod 2 ^ 8).
  { rewrite (bw_time _ _ _ _ Hb). change TVR_MASK with (2 ^ 8 - 1). rewrite <- (Z.shiftr_0_r (u32 T)), index_word by lia. by rewrite Z.pow_0_r, Z.div_1_r. }
  rewrite Ei. case_bd as Hz.
  - destruct (cascade_from_ok [TV2; TV3; TV4; TV5] 0 b Hb) as (b' & E & Hb' & Hp & Hs & _); [lia|by repeat split|done|].
    exists b'. split; [done|]. split; [done|]. split; [done|]. intros l Hl. apply Hs. destruct l; [done|..]; set_solver.
  - exists b. split; [done|]. split; [done|]. split; [done|]. intros l Hl. apply settled_off; [done|]. intros H0. apply Hz.
    rewrite <- (Z.mod_mod_divide T (2 ^ shift l) (2 ^ 8)); [by rewrite H0|]. exists (2 ^ (shift l - 8)). rewrite <- Z.pow_add_r by (destruct l; simpl; (done || lia)). f_equal. destruct l; simpl; lia.
Qed.

End wheel.

(** ** The next jiffy *)

Lemma fits_later T D l i : fits T D l i -> T < span_start l D -> fits (T + 1) D l i.
Proof.
  intros (H1 & H2 & H3) Hlt. split; [lia|]. split; [|done]. pose proof (pow_shift l) as Hp.
  pose proof (Z.div_le_mono (T + 2 ^ shift l - 1) (T + 1 + 2 ^ shift l - 1) (2 ^ shift l) Hp ltac:(lia)). lia.
Qed.

Lemma fits_tv1 T D i : fits T D TV1 i -> T <= D < T + 256 /\ Z.of_nat i = D mod 256.
Proof. unfold fits, span_start, span. simpl shift. simpl size_of. rewrite Z.pow_0_r, !Z.div_1_r. lia. Qed.

(** Once the list of the jiffy [T] is taken off, everything is in place for the
    next. *)
Lemma next_jiffy T due tms b v : bwf T due tms b -> (forall l, l <> TV1 -> settled T due b l) -> tv b TV1 !! Z.to_nat (T mod 256) = Some v ->
  let b' := set_tv (advance_base b) TV1 (<[Z.to_nat (T mod 256) := []]> (tv (advance_base b) TV1)) in
  bwf (T + 1) due tms b' /\ (forall x, placed b' x <-> placed b x /\ x ∉ v) /\ (forall x, x ∈ v -> due !! x = Some T) /\
  (forall x D, placed b' x -> due !! x = Some D -> T < D).
Proof.
  intros Hb Hs Hv b'. destruct (take_list T due tms b TV1 _ v Hb Hv) as (Hb0 & Hp0 & Hin0). set (b0 := set_tv b TV1 _) in *.
  assert (Etv : forall l, tv b' l = tv b0 l) by (by intros []). assert (Hin : forall l i x, in_vec b' l i x <-> in_vec b0 l i x) by (intros l i x; unfold in_vec; by rewrite Etv).
  assert (Hpl : forall x, placed b' x <-> placed b0 x) by (intros x; unfold placed; by setoid_rewrite Hin).
  pose proof (Z.mod_pos_bound T 256 ltac:(lia)) as Hmod.
  assert (Hlt : forall x l i D, in_vec b0 l i x -> due !! x = Some D -> T < span_start l D).
  { intros x l i D Hx HD. destruct (Hin0 _ _ _ Hx) as [Hx' Hne]. destruct (decide (l = TV1)) as [->|Hl]; [|by apply (Hs l Hl x i)].
    destruct (bw_vec _ _ _ _ Hb x TV1 i Hx') as (D' & HD' & Hf & _). rewrite HD in HD'. injection HD' as <-. destruct (fits_tv1 _ _ _ Hf) as [H1 H2].
    pose proof (span_bounds TV1 D) as Hsb. simpl shift in Hsb. rewrite Z.pow_0_r in Hsb. destruct (decide (D = T)) as [->|]; [|lia]. exfalso. apply Hne. split; [done|lia]. }
  split; [|split; [intros x; by rewrite Hpl|split]].
  - destruct Hb0 as [B1 B2 B3 B4 B5]. split.
    + unfold b', advance_base. rewrite time_set. simpl. rewrite (bw_time _ _ _ _ Hb). by rewrite u32_add_l.
    + intros l. by rewrite Etv.
    + intros l i w. rewrite Etv. apply B3.
    + intros x l i l' i'. rewrite !Hin. apply B4.
    + intros x l i Hx%Hin. destruct (B5 x l i Hx) as (D & HD & Hf & Hr & Hex). exists D. split; [done|]. split; [apply fits_later; [done|by eapply Hlt]|]. split; [lia|done].
  - intros x Hx. destruct (bw_vec _ _ _ _ Hb x TV1 (Z.to_nat (T mod 256))) as (D & HD & Hf & _); [by exists v|]. destruct (fits_tv1 _ _ _ Hf) as [H1 H2]. rewrite HD. f_equal.
    rewrite Z2Nat.id in H2 by lia. pose proof (Z.div_mod D 256 ltac:(lia)). pose proof (Z.div_mod T 256 ltac:(lia)). lia.
  - intros x D (l & i & Hx)%Hpl HD. pose proof (Hlt x l i D Hx HD). pose proof (span_bounds l D). lia.
Qed.

End TimerRun.
