(* ===== verification/TimerTop.v ===== *)
(** * The timer wheel: the operations *)

From Stdlib Require Import ZArith Lia.
From stdpp Require Import base option gmap list.
From S2P Require Import Prelude Timer TimerInv.

Local Open Scope Z_scope.
Local Open Scope kernel_scope.

Module TimerTop.
Import Timer TimerInv TimerRun.

(** ** The vectors and the work list *)

(** Every timer that is due waits in one list, or on the work list if its jiffy
    is being processed. *)
Record wcore (T : Z) (due : gmap tid Z) (tms : gmap tid timer_list) (b : tvec_base) (w : list tid) : Prop := {
  wc_base : bwf T due tms b;
  wc_nodup : NoDup w;
  wc_apart : forall t, placed b t -> t ∉ w;
  wc_fire : forall t, t ∈ w -> due !! t = Some (T - 1);
  wc_all : forall t D, due !! t = Some D -> t ∈ w \/ placed b t
}.

Lemma wc_later T due tms b w t D : wcore T due tms b w -> due !! t = Some D -> t ∉ w -> T <= D < T + two31.
Proof.
  intros H HD Hw. destruct (wc_all _ _ _ _ _ H t D HD) as [?|(l & i & Hi)]; [done|].
  destruct (bw_vec _ _ _ _ (wc_base _ _ _ _ _ H) t l i Hi) as (D' & HD' & (Hf & _) & Hr & _). rewrite HD in HD'. injection HD' as <-.
  pose proof (span_bounds l D). lia.
Qed.

Lemma bwf_ext T due due' tms tms' b : bwf T due tms b -> (forall t, placed b t -> due' !! t = due !! t /\ tms' !! t = tms !! t) -> bwf T due' tms' b.
Proof.
  intros [B1 B2 B3 B4 B5] H. split; try done. intros t l i Hi. destruct (H t) as [-> ->]; [by exists l, i|]. by apply B5.
Qed.

Lemma placed_due T due tms b t : bwf T due tms b -> placed b t -> is_Some (due !! t).
Proof. intros Hb (l & i & Hi). destruct (bw_vec _ _ _ _ Hb t l i Hi) as (D & HD & _). by exists D. Qed.

Lemma in_vec_del b t l i x : in_vec (map_tv (list_del t) b) l i x <-> in_vec b l i x /\ x <> t.
Proof.
  unfold in_vec. rewrite tv_map. setoid_rewrite list_lookup_fmap. split.
  - intros (v & Hv & Hx). apply fmap_Some in Hv as (v0 & Hv0 & ->). apply elem_of_list_del in Hx as [? ?]. split; [|done]. by exists v0.
  - intros [(v & Hv & Hx) Hne]. exists (list_del t v). rewrite Hv. split; [done|]. by apply elem_of_list_del.
Qed.

Lemma wcore_detach T due tms b w t : wcore T due tms b w -> wcore T (delete t due) tms (map_tv (list_del t) b) (list_del t w).
Proof.
  intros [[B1 B2 B3 B4 B5] Hnd Hap Hfi Hall].
  assert (Hp : forall x, placed (map_tv (list_del t) b) x <-> placed b x /\ x <> t).
  { intros x. unfold placed. setoid_rewrite in_vec_del. split; [intros (l & i & H & Hne); split; [by exists l, i|done]|intros [(l & i & H) Hne]; by exists l, i]. }
  split.
  - split.
    + done.
    + intros l. rewrite tv_map, length_map. apply B2.
    + intros l i v. rewrite tv_map, list_lookup_fmap. intros Hv. apply fmap_Some in Hv as (v0 & Hv0 & ->). apply NoDup_list_del. by eapply B3.
    + intros x l i l' i' [H1 _]%in_vec_del [H2 _]%in_vec_del. by eapply B4.
    + intros x l i [H Hne]%in_vec_del. rewrite lookup_delete_ne by done. by apply B5.
  - by apply NoDup_list_del.
  - intros x [Hx _]%Hp [Hw _]%elem_of_list_del. by apply (Hap x).
  - intros x [Hw Hne]%elem_of_list_del. rewrite lookup_delete_ne by done. by apply Hfi.
  - intros x D HD. apply lookup_delete_Some in HD as [Hne HD]. rewrite elem_of_list_del, Hp. destruct (Hall x D HD); [left|right]; split; done.
Qed.

Lemma wcore_add T due tms b w t e tm : wcore T due tms b w -> due !! t = None -> word e -> expires tm = e ->
  exists b', internal_add_timer b t e = Some b' /\ wcore T (<[t := due_at T e]> due) (<[t := tm]> tms) b' w.
Proof.
  intros Hc Hd He Htm. pose proof Hc as [Hb Hnd Hap Hfi Hall].
  assert (Hnp : ~ placed b t) by (intros Hp; apply (placed_due _ _ _ _ _ Hb) in Hp as [D HD]; congruence).
  assert (Hnw : t ∉ w) by (intros Hw; specialize (Hfi t Hw); congruence).
  assert (Hb' : bwf T (<[t := due_at T e]> due) (<[t := tm]> tms) b).
  { eapply bwf_ext; [exact Hb|]. intros x Hx. assert (x <> t) by (intros ->; done). by rewrite !lookup_insert_ne. }
  destruct (internal_add_ok T _ _ b t e tm Hb' He Hnp) as (b' & E & Hbf & Hp & _); [by rewrite lookup_insert_eq|by rewrite lookup_insert_eq|done|].
  exists b'. split; [done|]. split; try done.
  - intros x [Hx| ->]%Hp; [by apply Hap|done].
  - intros x Hx. rewrite lookup_insert_ne by (by intros ->). by apply Hfi.
  - intros x D. rewrite lookup_insert. case_decide as Hx; [subst x; intros _; right; apply Hp; by right|]. intros HD. destruct (Hall x D HD); [by left|right; apply Hp; by left].
Qed.

Lemma wcore_advance T due tms b : wcore T due tms b [] ->
  exists b1 b' v, (if bool_decide (Z.land (timer_jiffies b) TVR_MASK = 0) then cascade_from tms b 0 [TV2; TV3; TV4; TV5] else Some b) = Some b1 /\
    tv (advance_base b1) TV1 !! Z.to_nat (Z.land (timer_jiffies b) TVR_MASK) = Some v /\
    b' = set_tv (advance_base b1) TV1 (<[Z.to_nat (Z.land (timer_jiffies b) TVR_MASK) := []]> (tv (advance_base b1) TV1)) /\
    wcore (T + 1) due tms b' v /\ forall t, t ∈ v <-> due !! t = Some T.
Proof.
  intros [Hb _ _ _ Hall]. destruct (cascades_ok T due tms b Hb) as (b1 & E & Hb1 & Hp1 & Hs1).
  assert (Ei : Z.land (timer_jiffies b) TVR_MASK = T mod 256).
  { rewrite (bw_time _ _ _ _ Hb). change TVR_MASK with (2 ^ 8 - 1). rewrite <- (Z.shiftr_0_r (u32 T)), index_word by lia. by rewrite Z.pow_0_r, Z.div_1_r. }
  destruct (bw_lookup _ _ _ _ TV1 (T mod 256) Hb1) as [v Hv]; [exact (Z.mod_pos_bound T 256 eq_refl)|].
  destruct (next_jiffy T due tms b1 v Hb1 Hs1 Hv) as (Hb' & Hp' & Hv' & Hlt). eexists b1, _, v. split; [done|]. rewrite Ei. split; [by destruct b1|]. split; [done|].
  assert (Hiff : forall t, t ∈ v <-> due !! t = Some T).
  { intros t. split; [apply Hv'|]. intros HD. destruct (decide (t ∈ v)) as [|Hn]; [done|]. exfalso. destruct (Hall t T HD) as [H|H]; [by apply not_elem_of_nil in H|].
    assert (T < T); [|lia]. apply (Hlt t T); [|done]. apply Hp'. split; [by apply Hp1|done]. }
  split; [|done]. split; [done|exact (bw_nodup _ _ _ _ Hb1 _ _ _ Hv)| | |].
  - intros t [_ Ht]%Hp'. done.
  - intros t Ht. apply Hiff in Ht. rewrite Ht. f_equal. lia.
  - intros t D HD. destruct (decide (t ∈ v)) as [|Hn]; [by left|right]. apply Hp'. split; [|done]. apply Hp1. destruct (Hall t D HD) as [H|H]; [by apply not_elem_of_nil in H|done].
Qed.

(** ** The table of timers *)

(** What holds of the timers in [P], and of all others but for their mark.  A
    timer on the work list may have been set for a time before its jiffy. *)
Record wtms (T : Z) (due : gmap tid Z) (tms : gmap tid timer_list) (w : list tid) (P : tid -> Prop) : Prop := {
  wt_pending : forall t tm, P t -> tms !! t = Some tm -> pending tm = bool_decide (is_Some (due !! t));
  wt_known : forall t D, due !! t = Some D -> exists tm, tms !! t = Some tm /\ function tm = true;
  wt_word : forall t tm, tms !! t = Some tm -> word (expires tm);
  wt_exp : forall t tm D, tms !! t = Some tm -> due !! t = Some D -> t ∉ w -> due_at T (expires tm) = D
}.

Notation everywhere := (fun _ : tid => True).
Notation but t := (fun x : tid => x <> t).

Lemma wtms_detach T due tms w t : wtms T due tms w everywhere -> wtms T (delete t due) tms (list_del t w) (but t).
Proof.
  intros [H1 H2 H3 H4]. split; [| |done|].
  - intros x tm Hx Htm. rewrite lookup_delete_ne by done. by apply H1.
  - intros x D HD. apply lookup_delete_Some in HD as [_ HD]. by eapply H2.
  - intros x tm D Htm HD Hw. apply lookup_delete_Some in HD as [Hne HD]. apply (H4 x tm D Htm HD). intros Hx. apply Hw. by apply elem_of_list_del.
Qed.

Lemma wtms_weaken T due tms w t : wtms T due tms w everywhere -> wtms T due tms w (but t).
Proof. intros [H1 H2 H3 H4]. split; try done. intros x tm _. by apply H1. Qed.

(** A timer that is not due, marked as not pending, whatever else it holds. *)
Lemma wtms_idle T due tms w t tm : wtms T due tms w (but t) -> due !! t = None -> word (expires tm) -> pending tm = false ->
  wtms T due (<[t := tm]> tms) w everywhere.
Proof.
  intros [H1 H2 H3 H4] Hd Hw Hp. split.
  - intros x y _. rewrite lookup_insert. case_decide as Hx; [subst x; intros [= <-]; by rewrite Hd, bool_decide_eq_false_2 by (by intros [? ?])|]. intros Hy. by apply H1.
  - intros x D HD. rewrite lookup_insert_ne; [by eapply H2|]. intros <-. congruence.
  - intros x y. rewrite lookup_insert. case_decide; [by intros [= <-]|apply H3].
  - intros x y D. rewrite lookup_insert. case_decide; [subst x; congruence|apply H4].
Qed.

Definition arm (T : Z) (due : gmap tid Z) (t : tid) (e : Z) : gmap tid Z := <[t := due_at T e]> due.

Lemma wtms_set T due tms w t e d : wtms T due tms w (but t) -> word e -> wtms T (arm T due t e) (<[t := mk_timer e true true d]> tms) w everywhere.
Proof.
  intros [H1 H2 H3 H4] He. unfold arm. split.
  - intros x y _. rewrite !lookup_insert. case_decide as Hx; [subst x; by intros [= <-]|]. intros Hy. by apply H1.
  - intros x D. rewrite !lookup_insert. case_decide as Hx; [intros _; by eexists|]. apply H2.
  - intros x y. rewrite lookup_insert. case_decide; [by intros [= <-]|apply H3].
  - intros x y D. rewrite !lookup_insert. case_decide; [by intros [= <-] [= <-]|apply H4].
Qed.

Lemma due_later T e D : due_at T e = D -> T < D -> due_at (T + 1) e = D.
Proof.
  unfold due_at. case_bd as H; [|lia]. intros <- Hlt. assert (E : e -u (T + 1) = e -u T - 1).
  { replace (e - (T + 1)) with (e - T - 1) by lia. rewrite <- u32_sub_l. apply u32_small. pose proof (u32_range (e - T)). unfold two32 in *. lia. }
  rewrite E, bool_decide_eq_true_2; lia.
Qed.

(** ** The state *)

Record winv (T J : Z) (due : gmap tid Z) (st : state) : Prop := {
  wv_core : wcore T due (timers st) (base st) (work_list st);
  wv_tms : wtms T due (timers st) (work_list st) everywhere;
  wv_now : jiffies st = u32 J;
  wv_range : T <= J + 1 /\ J - T < two31
}.

Lemma on_list_ok T due tms st t D : wcore T due tms (base st) (work_list st) -> due !! t = Some D -> on_list st t = true.
Proof.
  intros Hc HD. unfold on_list. apply orb_true_iff. destruct (wc_all _ _ _ _ _ Hc t D HD) as [H|(l & i & v & Hv & H)]; [left; by apply bool_decide_eq_true|right].
  apply existsb_exists. exists v. split; [|by apply bool_decide_eq_true]. apply list_elem_of_In. apply list_elem_of_lookup_2 in Hv. rewrite !elem_of_app. destruct l; simpl in Hv; tauto.
Qed.

Lemma wcore_tms T due tms tms' b w : wcore T due tms b w -> (forall t, is_Some (due !! t) -> tms' !! t = tms !! t) -> wcore T due tms' b w.
Proof.
  intros [Hb Hnd Hap Hfi Hall] H. split; try done. eapply bwf_ext; [exact Hb|]. intros t Ht. split; [done|]. apply H. by eapply placed_due.
Qed.

Lemma not_due_off T due tms b w t : wcore T due tms b w -> due !! t = None -> list_del t w = w.
Proof. intros Hc Hd. apply list_del_not_in. intros Hin. pose proof (wc_fire _ _ _ _ _ Hc t Hin). congruence. Qed.

(** Detaching a timer that is due. *)
Lemma detach_ok T J due st t D : winv T J due st -> due !! t = Some D ->
  exists b', detach_timer st t = Some (mk_state b' (list_del t (work_list st)) (timers st) (jiffies st)) /\ wcore T (delete t due) (timers st) b' (list_del t (work_list st)).
Proof.
  intros [Hc _ _ _] HD. unfold detach_timer. rewrite (on_list_ok _ _ _ _ _ _ Hc HD). eexists. split; [done|]. by apply wcore_detach.
Qed.

Lemma winv_idle T J due t tm b w tms j : wcore T due tms b w -> wtms T due tms w (but t) -> due !! t = None -> word (expires tm) -> pending tm = false ->
  j = u32 J -> T <= J + 1 /\ J - T < two31 -> winv T J due (mk_state b w (<[t := tm]> tms) j).
Proof.
  intros Hc Ht Hd Hw Hp Hj Hr. split; simpl; [|by apply wtms_idle|done|done].
  eapply wcore_tms; [exact Hc|]. intros x [D HD]. rewrite lookup_insert_ne; [done|]. intros <-. congruence.
Qed.

Lemma winv_set T J due t e d b w tms j : wcore T due tms b w -> wtms T due tms w (but t) -> due !! t = None -> word e ->
  j = u32 J -> T <= J + 1 /\ J - T < two31 ->
  exists b', internal_add_timer b t e = Some b' /\ winv T J (arm T due t e) (mk_state b' w (<[t := mk_timer e true true d]> tms) j).
Proof.
  intros Hc Ht Hd He Hj Hr. destruct (wcore_add T due tms b w t e (mk_timer e true true d) Hc Hd He eq_refl) as (b' & E & Hc').
  exists b'. split; [done|]. split; simpl; [done|by apply wtms_set|done|done].
Qed.

(** ** Setting and deleting *)

Definition returned (due : gmap tid Z) (t : tid) : Z := if bool_decide (is_Some (due !! t)) then 1 else 0.

Lemma del_timer_ok T J due st t tm : winv T J due st -> timers st !! t = Some tm ->
  exists st', del_timer st t = Some (st', returned due t) /\ winv T J (delete t due) st' /\ work_list st' = list_del t (work_list st).
Proof.
  intros Hw Htm. pose proof Hw as [Hc Ht Hj Hr]. unfold del_timer, returned. rewrite Htm. simpl. rewrite (wt_pending _ _ _ _ _ Ht t tm I Htm). destruct (due !! t) as [D|] eqn:HD.
  - rewrite !bool_decide_eq_true_2 by eauto. destruct (detach_ok T J due st t D Hw HD) as (b' & E & Hc'). rewrite E. simpl. eexists. split; [done|]. split; [|done].
    apply winv_idle; try done; [by apply wtms_detach|by rewrite lookup_delete_eq|]. exact (wt_word _ _ _ _ _ Ht t tm Htm).
  - rewrite !bool_decide_eq_false_2 by (by intros [? ?]). eexists. split; [done|]. rewrite delete_id by done. split; [done|]. symmetry. by eapply not_due_off.
Qed.

Lemma __mod_timer_ok T J due st t tm e : winv T J due st -> timers st !! t = Some tm -> function tm = true -> word e ->
  exists st', __mod_timer st t e = Some (st', returned due t) /\ winv T J (arm T due t e) st' /\ work_list st' = list_del t (work_list st).
Proof.
  intros Hw Htm Hf He. pose proof Hw as [Hc Ht Hj Hr]. unfold __mod_timer, returned. rewrite Htm. simpl. rewrite Hf. simpl. rewrite (wt_pending _ _ _ _ _ Ht t tm I Htm). destruct (due !! t) as [D|] eqn:HD.
  - rewrite !bool_decide_eq_true_2 by eauto. destruct (detach_ok T J due st t D Hw HD) as (b' & E & Hc'). rewrite E. simpl.
    destruct (winv_set T J (delete t due) t e (deferrable tm) b' (list_del t (work_list st)) (timers st) (jiffies st)) as (b2 & E2 & Hw2); try done; [by apply wtms_detach|by rewrite lookup_delete_eq|].
    rewrite E2. simpl. eexists. split; [done|]. unfold arm in *. by rewrite insert_delete_eq in Hw2.
  - rewrite !bool_decide_eq_false_2 by (by intros [? ?]). simpl.
    destruct (winv_set T J due t e (deferrable tm) (base st) (work_list st) (timers st) (jiffies st)) as (b2 & E2 & Hw2); try done; [by apply wtms_weaken|].
    rewrite E2. simpl. eexists. split; [done|]. split; [done|]. symmetry. by eapply not_due_off.
Qed.

(** [mod_timer] leaves a timer alone that was set for the same time, and this
    makes a difference only for one that is on the work list. *)
Definition modded (T : Z) (due : gmap tid Z) (st : state) (t : tid) (tm : timer_list) (e : Z) : gmap tid Z :=
  if bool_decide (expires tm = e) && bool_decide (t ∈ work_list st) then due else arm T due t e.

Lemma mod_timer_ok T J due st t tm e : winv T J due st -> timers st !! t = Some tm -> function tm = true -> word e ->
  exists st', mod_timer st t e = Some (st', returned due t) /\ winv T J (modded T due st t tm e) st' /\ (length (work_list st') <= length (work_list st))%nat.
Proof.
  intros Hw Htm Hf He. pose proof Hw as [Hc Ht Hj Hr]. unfold mod_timer, modded. rewrite Htm. simpl. rewrite Hf. simpl. pose proof (wt_pending _ _ _ _ _ Ht t tm I Htm) as Hp. destruct (bool_decide (expires tm = e) && pending tm) eqn:Hs.
  - apply andb_true_iff in Hs as [Hex Hpe]. rewrite Hpe in Hp. rewrite Hex. apply bool_decide_eq_true in Hex. unfold returned. rewrite <- Hp. exists st. split; [done|]. split; [|done]. simpl. case_bd as Hwl; [done|].
    symmetry in Hp. apply bool_decide_eq_true in Hp as [D HD]. unfold arm. rewrite insert_id; [done|]. rewrite HD. f_equal. rewrite <- Hex. symmetry. exact (wt_exp _ _ _ _ _ Ht t tm D Htm HD Hwl).
  - destruct (__mod_timer_ok T J due st t tm e Hw Htm Hf He) as (st' & E & Hw' & Hwl). exists st'. split; [done|]. rewrite Hwl.
    split; [|unfold list_del; apply length_filter]. case_bd as Hex; simpl in *; [|done]. case_bd as Hin; [|done]. exfalso. pose proof (wc_fire _ _ _ _ _ Hc t Hin) as HD. rewrite Hs in Hp. rewrite HD in Hp. done.
Qed.

(** A timer that is not pending is set by [add_timer] and [add_timer_on]. *)
Lemma add_timer_ok T J due st t tm : winv T J due st -> timers st !! t = Some tm -> function tm = true -> pending tm = false ->
  exists st', add_timer st t = Some st' /\ winv T J (arm T due t (expires tm)) st' /\ work_list st' = work_list st.
Proof.
  intros Hw Htm Hf Hp. pose proof Hw as [Hc Ht Hj Hr]. unfold add_timer. rewrite Htm. simpl. rewrite Hp.
  destruct (__mod_timer_ok T J due st t tm (expires tm) Hw Htm Hf (wt_word _ _ _ _ _ Ht t tm Htm)) as (st' & E & Hw' & Hwl). rewrite E. simpl. exists st'. split; [done|]. split; [done|].
  rewrite Hwl. eapply not_due_off; [exact Hc|]. pose proof (wt_pending _ _ _ _ _ Ht t tm I Htm) as H. rewrite Hp in H. symmetry in H. apply bool_decide_eq_false in H. by apply eq_None_not_Some.
Qed.

Lemma add_timer_on_ok T J due st t tm : winv T J due st -> timers st !! t = Some tm -> function tm = true -> pending tm = false ->
  exists st', add_timer_on st t = Some st' /\ winv T J (arm T due t (expires tm)) st' /\ work_list st' = work_list st.
Proof.
  intros Hw Htm Hf Hp. pose proof Hw as [Hc Ht Hj Hr]. unfold add_timer_on. rewrite Htm. simpl. rewrite Hp, Hf. simpl.
  assert (Hd : due !! t = None). { pose proof (wt_pending _ _ _ _ _ Ht t tm I Htm) as H. rewrite Hp in H. symmetry in H. apply bool_decide_eq_false in H. by apply eq_None_not_Some. }
  destruct (winv_set T J due t (expires tm) (deferrable tm) (base st) (work_list st) (timers st) (jiffies st)) as (b2 & E2 & Hw2); try done; [by apply wtms_weaken|exact (wt_word _ _ _ _ _ Ht t tm Htm)|].
  rewrite E2. simpl. eexists. split; [done|]. done.
Qed.

(** ** Running *)

Lemma fire_ok T J due st t w : winv T J due st -> work_list st = t :: w ->
  exists st', fire st = Some (st', t) /\ winv T J (delete t due) st' /\ work_list st' = w /\ due !! t = Some (T - 1).
Proof.
  intros Hw Hwl. pose proof Hw as [Hc Ht Hj Hr]. assert (HD : due !! t = Some (T - 1)) by (apply (wc_fire _ _ _ _ _ Hc); rewrite Hwl; set_solver).
  destruct (wt_known _ _ _ _ _ Ht t _ HD) as (tm & Htm & Hf). unfold fire. rewrite Hwl. simpl. rewrite Htm. simpl. rewrite Hf.
  destruct (detach_ok T J due st t _ Hw HD) as (b' & E & Hc'). rewrite E. simpl. eexists. split; [done|].
  assert (Hwd : list_del t (work_list st) = w). { rewrite Hwl. pose proof (wc_nodup _ _ _ _ _ Hc) as Hnd. rewrite Hwl in Hnd. apply NoDup_cons in Hnd as [Hn _]. apply (list_del_split t []); [apply not_elem_of_nil|done]. }
  split; [|done]. unfold set_timer. simpl. apply winv_idle; try done; [by apply wtms_detach|by rewrite lookup_delete_eq|]. exact (wt_word _ _ _ _ _ Ht t tm Htm).
Qed.

Lemma time_after_ok T J : T <= J + 1 -> J - T < two31 -> time_after_eq (u32 J) (u32 T) = bool_decide (T <= J).
Proof.
  intros H1 H2. unfold time_after_eq. rewrite <- (s32_u32 (u32 J - u32 T)), u32_sub_l, u32_sub_r, s32_u32, s32_small by (unfold two31 in *; lia). by apply bool_decide_ext; lia.
Qed.

Lemma advance_ok T J due st : winv T J due st -> work_list st = [] -> T <= J ->
  exists st', advance st = Some st' /\ winv (T + 1) J due st' /\ (forall t, t ∈ work_list st' <-> due !! t = Some T) /\ timers st' = timers st.
Proof.
  intros [Hc Ht Hj Hr] Hwl HT. rewrite Hwl in Hc. destruct (wcore_advance T due (timers st) (base st) Hc) as (b1 & b' & v & E1 & Ev & Eb & Hc' & Hiff).
  unfold advance. rewrite E1. simpl. simpl in Ev. rewrite Ev. simpl. eexists. split; [done|]. split; [|done]. rewrite Eb in Hc'. split; simpl; [exact Hc'| |done|lia].
  destruct Ht as [H1 H2 H3 H4]. split; try done. intros t tm D Htm HD Hv. assert (E : due_at T (expires tm) = D) by (apply (H4 t tm D Htm HD); rewrite Hwl; apply not_elem_of_nil).
  apply due_later; [done|]. pose proof (due_range T (expires tm)). assert (D <> T); [|lia]. intros ->. apply Hv. by apply Hiff.
Qed.

(** ** The clock and new timers *)

Lemma do_timer_ok T J due st k : winv T J due st -> 0 <= k -> J + k - T < two31 -> winv T (J + k) due (do_timer st k).
Proof. intros [Hc Ht Hj Hr] Hk Hlt. split; simpl; [done|done|rewrite Hj; by rewrite u32_add_l|lia]. Qed.

Lemma init_timer_ok T J due st t tm : winv T J due st -> (forall tm, timers st !! t = Some tm -> pending tm = false) -> word (expires tm) -> pending tm = false ->
  winv T J due (set_timer st t tm).
Proof.
  intros Hw Hn He Hp. pose proof Hw as [Hc Ht Hj Hr]. unfold set_timer. assert (Hd : due !! t = None).
  { destruct (due !! t) as [D|] eqn:HD; [|done]. destruct (wt_known _ _ _ _ _ Ht t D HD) as (y & Hy & _). pose proof (wt_pending _ _ _ _ _ Ht t y I Hy) as H. rewrite HD, (Hn y Hy) in H. done. }
  apply winv_idle; try done. by apply wtms_weaken.
Qed.

Lemma tv_boot j l : tv (init_timers_cpu j) l = replicate (Z.to_nat (size_of l)) [].
Proof. by destruct l. Qed.

Lemma in_vec_boot j l i t : ~ in_vec (init_timers_cpu j) l i t.
Proof. intros (v & Hv & Ht). rewrite tv_boot in Hv. apply lookup_replicate in Hv as [-> _]; by apply not_elem_of_nil in Ht. Qed.

Definition boot (j : Z) : state := mk_state (init_timers_cpu j) [] ∅ j.

Lemma timer_boot_ok j : word j -> winv j j ∅ (boot j).
Proof.
  intros Hj. split; simpl.
  - split; [split|constructor|by intros t Ht ?%elem_of_nil|by intros t ?%elem_of_nil|by intros t D ?].
    + simpl. symmetry. by apply u32_small.
    + intros l. by rewrite tv_boot, length_replicate.
    + intros l i v. rewrite tv_boot. intros Hv. apply lookup_replicate in Hv as [-> _]; constructor.
    + by intros t l i l' i' ?%in_vec_boot.
    + by intros t l i ?%in_vec_boot.
  - split; intros t; by rewrite ?lookup_empty.
  - by rewrite u32_small.
  - unfold two31. lia.
Qed.

End TimerTop.

(** ** What the users of the timers are promised *)

Module TimerSpec.
Import Timer TimerInv TimerRun TimerTop.

(** ** The queue

    Without wheel and words: the jiffy to be processed next, the present one, the
    jiffies at which timers are due, and the times the timers were set to.  Timers
    due at [next - 1] are being run. *)
Record queue := mk_queue { next : Z; now : Z; due : gmap tid Z; set_to : gmap tid Z }.

Definition running (q : queue) (t : tid) : Prop := due q !! t = Some (next q - 1).

Definition set_time (q : queue) (t : tid) (e : Z) : queue := mk_queue (next q) (now q) (due q) (<[t := e]> (set_to q)).
Definition set_due (q : queue) (t : tid) (e : Z) : queue :=
  mk_queue (next q) (now q) (<[t := due_at (next q) e]> (due q)) (<[t := e]> (set_to q)).
Definition clear_due (q : queue) (t : tid) : queue := mk_queue (next q) (now q) (delete t (due q)) (set_to q).

Inductive event :=
  | EInit (t : tid) (e : Z) (fn deferred : bool)
  | EMod (t : tid) (e : Z)
  | EAdd (t : tid)
  | EAddOn (t : tid)
  | EDel (t : tid)
  | ETicks (k : Z)
  | EAdvance
  | EFire.

(** A call's result, or the timer whose handler is called. *)
Inductive outcome := Ret (z : Z) | Ran (t : tid).

(** What each event does to the queue.  The event and its outcome determine it:
    a timer is due at the time it was set to, counted from the next jiffy on
    ([due_at]); only when [EMod] sets a timer that is about to run to the time it
    has already, it is left to run. *)
Inductive qstep (q : queue) : event -> outcome -> queue -> Prop :=
  | q_init t e fn d : due q !! t = None -> qstep q (EInit t e fn d) (Ret 0) (set_time q t e)
  | q_mod t e : ~ (running q t /\ set_to q !! t = Some e) -> qstep q (EMod t e) (Ret (returned (due q) t)) (set_due q t e)
  | q_keep t e : running q t -> set_to q !! t = Some e -> qstep q (EMod t e) (Ret 1) q
  | q_add t e : due q !! t = None -> set_to q !! t = Some e -> qstep q (EAdd t) (Ret 0) (set_due q t e)
  | q_add_on t e : due q !! t = None -> set_to q !! t = Some e -> qstep q (EAddOn t) (Ret 0) (set_due q t e)
  | q_del t : qstep q (EDel t) (Ret (returned (due q) t)) (clear_due q t)
  | q_ticks k : 0 <= k -> qstep q (ETicks k) (Ret 0) (mk_queue (next q) (now q + k) (due q) (set_to q))
  | q_advance : next q <= now q -> (forall t, ~ running q t) -> qstep q EAdvance (Ret 0) (mk_queue (next q + 1) (now q) (due q) (set_to q))
  | q_fire t : running q t -> qstep q EFire (Ran t) (clear_due q t).

Inductive qsteps : queue -> list event -> list outcome -> queue -> Prop :=
  | qs_nil q : qsteps q [] [] q
  | qs_cons q e o q1 es os q2 : qstep q e o q1 -> qsteps q1 es os q2 -> qsteps q (e :: es) (o :: os) q2.

(** The queue is a function of the events and their outcomes. *)
Lemma qstep_det q e o q1 q2 : qstep q e o q1 -> qstep q e o q2 -> q1 = q2.
Proof. intros H1 H2. inversion H1; subst; inversion H2; subst; try done; try tauto; try (by simplify_eq); congruence. Qed.

Lemma qsteps_det q es os q1 q2 : qsteps q es os q1 -> qsteps q es os q2 -> q1 = q2.
Proof.
  intros H. revert q2. induction H as [|q e o q1 es os q2 Hs _ IH]; intros q3 H3; inversion H3 as [|? ? ? q1' ? ? ? Hs' Hr]; subst; [done|].
  apply IH. by rewrite (qstep_det _ _ _ _ _ Hs Hs').
Qed.

(** ** Runs of the code *)

Definition exec (st : state) (e : event) : option (state * outcome) :=
  match e with
  | EInit t e fn false => Some (init_timer st t e fn, Ret 0)
  | EInit t e fn true => Some (init_timer_deferrable st t e fn, Ret 0)
  | EMod t e => '(st, r) ← mod_timer st t e; Some (st, Ret r)
  | EAdd t => st ← add_timer st t; Some (st, Ret 0)
  | EAddOn t => st ← add_timer_on st t; Some (st, Ret 0)
  | EDel t => '(st, r) ← del_timer st t; Some (st, Ret r)
  | ETicks k => Some (do_timer st k, Ret 0)
  | EAdvance => st ← advance st; Some (st, Ret 0)
  | EFire => '(st, t) ← fire st; Some (st, Ran t)
  end.

(** A timer that [P] holds of. *)
Definition known (st : state) (t : tid) (P : timer_list -> bool) : bool :=
  match timers st !! t with Some tm => P tm | None => false end.

Definition is_word (z : Z) : bool := bool_decide (0 <= z) && bool_decide (z < two32).

(** A timer is initialised when it is not pending and has a function when it is
    set; it is added when it is not pending; [__run_timers] is less than
    [2^31] jiffies late, and does its steps in order. *)
Definition allowed (st : state) (e : event) : bool :=
  match e with
  | EInit t e _ _ => is_word e && (bool_decide (timers st !! t = None) || known st t (fun tm => negb (pending tm)))
  | EMod t e => is_word e && known st t function
  | EAdd t | EAddOn t => known st t (fun tm => function tm && negb (pending tm))
  | EDel t => known st t (fun _ => true)
  | ETicks k => bool_decide (0 <= k) && bool_decide (s32 (jiffies st - timer_jiffies (base st)) + k < two31)
  | EAdvance => bool_decide (work_list st = []) && time_after_eq (jiffies st) (timer_jiffies (base st))
  | EFire => bool_decide (work_list st <> [])
  end.

Fixpoint run (st : state) (es : list event) : option (state * list outcome) :=
  match es with
  | [] => Some (st, [])
  | e :: es => '(st, o) ← exec st e; '(st, os) ← run st es; Some (st, o :: os)
  end.

Fixpoint valid (st : state) (es : list event) : bool :=
  match es with
  | [] => true
  | e :: es => allowed st e && match exec st e with Some (st, _) => valid st es | None => true end
  end.

(** How a state of the code stands for a queue. *)
Record represents (q : queue) (st : state) : Prop := {
  rp_next : timer_jiffies (base st) = u32 (next q);
  rp_now : jiffies st = u32 (now q);
  rp_late : -1 <= now q - next q < two31;
  rp_pending : forall t tm, timers st !! t = Some tm -> pending tm = bool_decide (is_Some (due q !! t));
  rp_known : forall t D, due q !! t = Some D -> is_Some (timers st !! t) /\ next q - 1 <= D < next q + two31;
  rp_running : forall t, t ∈ work_list st <-> running q t;
  rp_times : set_to q = expires <$> timers st;
  rp_due : forall t D e, due q !! t = Some D -> ~ running q t -> set_to q !! t = Some e -> D = due_at (next q) e
}.

Definition rep (q : queue) (st : state) : Prop := winv (next q) (now q) (due q) st.

(** The times the timers were set to are those in the structures. *)
Definition times (st : state) : gmap tid Z := expires <$> timers st.

Lemma times_lookup st t tm : timers st !! t = Some tm -> times st !! t = Some (expires tm).
Proof. intros H. unfold times. by rewrite lookup_fmap, H. Qed.

Lemma times_set st t tm tm' : timers st !! t = Some tm -> expires tm' = expires tm -> times (set_timer st t tm') = times st.
Proof. intros H E. unfold times, set_timer. simpl. rewrite fmap_insert, E. apply insert_id. by apply times_lookup. Qed.

Lemma detach_same st t st' : detach_timer st t = Some st' -> timers st' = timers st.
Proof. unfold detach_timer. destruct (on_list st t); [|done]. by intros [= <-]. Qed.

Lemma del_timer_times st t st' r : del_timer st t = Some (st', r) -> times st' = times st.
Proof.
  unfold del_timer. destruct (timers st !! t) as [tm|] eqn:Htm; [|done]. simpl. destruct (pending tm); [|by intros [= <- _]].
  destruct (detach_timer st t) as [st1|] eqn:E; [|done]. simpl. intros [= <- _]. apply detach_same in E. rewrite (times_set st1 t tm); [unfold times; by rewrite E|by rewrite E|done].
Qed.

Lemma __mod_timer_times st t e st' r : __mod_timer st t e = Some (st', r) -> times st' = <[t := e]> (times st).
Proof.
  unfold __mod_timer. destruct (timers st !! t) as [tm|] eqn:Htm; [|done]. simpl. destruct (negb (function tm)); [done|].
  destruct (pending tm); [destruct (detach_timer st t) as [st1|] eqn:E; [|done]; apply detach_same in E|]; simpl;
    destruct (internal_add_timer _ t e); simpl; try done; intros [= <- _]; unfold times; simpl; rewrite fmap_insert; [by rewrite E|done].
Qed.

Lemma mod_timer_times st t e st' r : mod_timer st t e = Some (st', r) -> times st' = <[t := e]> (times st).
Proof.
  unfold mod_timer. destruct (timers st !! t) as [tm|] eqn:Htm; [|done]. simpl. destruct (negb (function tm)); [done|].
  destruct (bool_decide (expires tm = e) && pending tm) eqn:Hs; [|apply __mod_timer_times].
  apply andb_true_iff in Hs as [He%bool_decide_eq_true _]. intros [= <- _]. symmetry. apply insert_id. rewrite <- He. by apply times_lookup.
Qed.

Lemma add_timer_times st t st' tm : timers st !! t = Some tm -> add_timer st t = Some st' \/ add_timer_on st t = Some st' ->
  times st' = <[t := expires tm]> (times st).
Proof.
  intros Htm [H|H].
  - unfold add_timer in H. rewrite Htm in H. simpl in H. destruct (pending tm); [done|]. destruct (__mod_timer st t (expires tm)) as [[st1 r]|] eqn:E; [|done].
    simpl in H. injection H as <-. by apply __mod_timer_times in E.
  - unfold add_timer_on in H. rewrite Htm in H. simpl in H. destruct (pending tm || negb (function tm)); [done|]. destruct (internal_add_timer _ t _); [|done].
    simpl in H. injection H as <-. unfold times. simpl. by rewrite fmap_insert.
Qed.

Lemma fire_times st st' t : fire st = Some (st', t) -> times st' = times st.
Proof.
  unfold fire. destruct (head (work_list st)) as [x|]; [|done]. simpl. destruct (timers st !! x) as [tm|] eqn:Htm; [|done]. simpl. destruct (function tm); [|done].
  destruct (detach_timer st x) as [st1|] eqn:E; [|done]. simpl. intros [= <- <-]. apply detach_same in E. rewrite (times_set st1 x tm); [unfold times; by rewrite E|by rewrite E|done].
Qed.

Lemma rep_running q st t : rep q st -> t ∈ work_list st <-> running q t.
Proof.
  intros [Hc _ _ _]. split; [apply (wc_fire _ _ _ _ _ Hc)|]. intros HD. destruct (decide (t ∈ work_list st)) as [|Hn]; [done|]. pose proof (wc_later _ _ _ _ _ t _ Hc HD Hn). lia.
Qed.

Lemma rep_represents q st : rep q st -> set_to q = times st -> represents q st.
Proof.
  intros Hr He. pose proof Hr as [Hc Ht Hj Hl]. split; [exact (bw_time _ _ _ _ (wc_base _ _ _ _ _ Hc))|done|lia| | |intros t; by apply rep_running|done|].
  3: { intros t D e HD Hn Hs. rewrite He in Hs. unfold times in Hs. rewrite lookup_fmap in Hs. apply fmap_Some in Hs as (tm & Htm & ->). symmetry.
       apply (wt_exp _ _ _ _ _ Ht t tm D Htm HD). by rewrite (rep_running q st t Hr). }
  - intros t tm. by apply (wt_pending _ _ _ _ _ Ht).
  - intros t D HD. destruct (wt_known _ _ _ _ _ Ht t D HD) as (tm & Htm & _). split; [by eexists|]. destruct (decide (t ∈ work_list st)) as [Hin|Hn].
    + pose proof (wc_fire _ _ _ _ _ Hc t Hin) as H. rewrite HD in H. injection H as ->. unfold two31. lia.
    + pose proof (wc_later _ _ _ _ _ t D Hc HD Hn). lia.
Qed.

Lemma is_word_ok z : is_word z = true -> word z.
Proof. unfold is_word, word. intros [H1%bool_decide_eq_true H2%bool_decide_eq_true]%andb_true_iff. done. Qed.

Lemma known_ok st t P : known st t P = true -> exists tm, timers st !! t = Some tm /\ P tm = true.
Proof. unfold known. destruct (timers st !! t); [eauto|done]. Qed.

Lemma rep_idle q st t tm : rep q st -> timers st !! t = Some tm -> pending tm = false -> due q !! t = None.
Proof.
  intros Hr Htm Hp. pose proof (wt_pending _ _ _ _ _ (wv_tms _ _ _ _ Hr) t tm I Htm) as H. rewrite Hp in H. symmetry in H. apply bool_decide_eq_false in H. by apply eq_None_not_Some.
Qed.

(** ** Simulation *)

(** A step of the code and the step of the queue that answers it. *)
Definition simulates (q : queue) (st : state) (e : event) : Prop :=
  exists st' o q', exec st e = Some (st', o) /\ qstep q e o q' /\ rep q' st' /\ set_to q' = times st'.

Lemma sim_init q st t e fn d : rep q st -> set_to q = times st -> allowed st (EInit t e fn d) = true -> simulates q st (EInit t e fn d).
Proof.
  intros Hr Hs [He%is_word_ok Hn]%andb_true_iff. assert (Hn' : forall tm, timers st !! t = Some tm -> pending tm = false).
  { intros tm Htm. apply orb_true_iff in Hn as [Hn|Hn]; [apply bool_decide_eq_true in Hn; congruence|]. apply known_ok in Hn as (tm' & Htm' & Hp). rewrite Htm in Htm'. injection Htm' as <-. by apply negb_true_iff. }
  assert (Hd : due q !! t = None).
  { destruct (timers st !! t) as [tm|] eqn:Htm; [eapply rep_idle; [done..|]; by apply Hn'|]. destruct (due q !! t) as [D|] eqn:HD; [|done]. destruct (wt_known _ _ _ _ _ (wv_tms _ _ _ _ Hr) t D HD) as (? & ? & _). congruence. }
  exists (set_timer st t (mk_timer e fn false d)), (Ret 0), (set_time q t e). split; [by destruct d|]. split; [by constructor|]. split; [by apply init_timer_ok|].
  unfold times. simpl. by rewrite fmap_insert, Hs.
Qed.

Lemma sim_mod q st t e : rep q st -> set_to q = times st -> allowed st (EMod t e) = true -> simulates q st (EMod t e).
Proof.
  intros Hr Hs [He%is_word_ok (tm & Htm & Hf)%known_ok]%andb_true_iff. destruct (mod_timer_ok _ _ _ st t tm e Hr Htm Hf He) as (st' & E & Hw & _). unfold simulates. simpl. rewrite E. simpl. unfold modded in Hw.
  pose proof (mod_timer_times _ _ _ _ _ E) as Ht. pose proof (times_lookup _ _ _ Htm) as Htl. rewrite <- Hs in Ht, Htl.
  destruct (bool_decide (expires tm = e) && bool_decide (t ∈ work_list st)) eqn:Hk.
  - apply andb_true_iff in Hk as [He'%bool_decide_eq_true Hk%bool_decide_eq_true]. apply (rep_running _ _ _ Hr) in Hk. rewrite He' in Htl. eexists _, _, q. split; [done|].
    rewrite insert_id in Ht by done. split; [|done]. unfold returned. rewrite Hk. by constructor.
  - eexists _, _, (set_due q t e). split; [done|]. split; [|done]. constructor. intros [Hk1%(rep_running _ _ _ Hr) Hk2]. rewrite Htl in Hk2. injection Hk2 as Hk2.
    rewrite !bool_decide_eq_true_2 in Hk by done. done.
Qed.

Lemma sim_add q st t e : rep q st -> set_to q = times st -> e = EAdd t \/ e = EAddOn t -> allowed st e = true -> simulates q st e.
Proof.
  intros Hr Hs He Ha. assert (Hk : known st t (fun tm => function tm && negb (pending tm)) = true) by (by destruct He as [-> | ->]).
  apply known_ok in Hk as (tm & Htm & [Hf Hp%negb_true_iff]%andb_true_iff). pose proof (rep_idle _ _ _ _ Hr Htm Hp) as Hd.
  pose proof (times_lookup _ _ _ Htm) as Htl. rewrite <- Hs in Htl. unfold simulates. destruct He as [-> | ->]; simpl.
  - destruct (add_timer_ok _ _ _ st t tm Hr Htm Hf Hp) as (st' & E & Hw & _). rewrite E. simpl. exists st', (Ret 0), (set_due q t (expires tm)). split; [done|]. split; [by constructor|].
    split; [done|]. simpl. rewrite Hs. symmetry. apply add_timer_times; [done|by left].
  - destruct (add_timer_on_ok _ _ _ st t tm Hr Htm Hf Hp) as (st' & E & Hw & _). rewrite E. simpl. exists st', (Ret 0), (set_due q t (expires tm)). split; [done|]. split; [by constructor|].
    split; [done|]. simpl. rewrite Hs. symmetry. apply add_timer_times; [done|by right].
Qed.

Lemma rep_lag q st : rep q st -> s32 (jiffies st - timer_jiffies (base st)) = now q - next q /\ time_after_eq (jiffies st) (timer_jiffies (base st)) = bool_decide (next q <= now q).
Proof.
  intros [Hc _ Hj [H1 H2]]. rewrite Hj, (bw_time _ _ _ _ (wc_base _ _ _ _ _ Hc)). split; [|by apply time_after_ok].
  rewrite <- (s32_u32 (u32 (now q) - u32 (next q))), u32_sub_l, u32_sub_r, s32_u32. apply s32_small. unfold two31 in *. lia.
Qed.

Lemma sim_step q st e : rep q st -> set_to q = times st -> allowed st e = true -> simulates q st e.
Proof.
  intros Hr Hs Ha. destruct (rep_lag q st Hr) as [Hlag Hafter]. destruct e as [t e fn d|t e|t|t|t|k| |]; [by apply sim_init|by apply sim_mod|by apply (sim_add q st t); auto..| | | |]; unfold simulates.
  - apply known_ok in Ha as (tm & Htm & _). destruct (del_timer_ok _ _ _ st t tm Hr Htm) as (st' & E & Hw & _). simpl. rewrite E. simpl. eexists _, _, (clear_due q t). split; [done|]. split; [by constructor|].
    split; [done|]. simpl. rewrite Hs. symmetry. by eapply del_timer_times.
  - simpl in Ha. apply andb_true_iff in Ha as [Hk%bool_decide_eq_true Hl%bool_decide_eq_true]. eexists _, _, _. split; [done|]. split; [by constructor|]. split; [|done]. apply (do_timer_ok (next q) (now q) (due q) st k); [done|done|]. rewrite Hlag in Hl. lia.
  - simpl in Ha. rewrite Hafter in Ha. apply andb_true_iff in Ha as [Hwl%bool_decide_eq_true Hle%bool_decide_eq_true]. destruct (advance_ok _ _ _ st Hr Hwl Hle) as (st' & E & Hw & _ & Etm). simpl. rewrite E. simpl.
    eexists _, _, (mk_queue (next q + 1) (now q) (due q) (set_to q)). split; [done|]. split; [|split; [exact Hw|unfold times; simpl; by rewrite Etm]].
    constructor; [done|]. intros t Ht%(rep_running _ st); [|done]. rewrite Hwl in Ht. by apply elem_of_nil in Ht.
  - simpl in Ha. apply bool_decide_eq_true in Ha. destruct (work_list st) as [|t w] eqn:Hwl; [done|]. destruct (fire_ok _ _ _ st t w Hr Hwl) as (st' & E & Hw & _ & HD). simpl. rewrite E. simpl.
    eexists _, _, (clear_due q t). split; [done|]. split; [by constructor|]. split; [done|]. simpl. rewrite Hs. symmetry. by eapply fire_times.
Qed.

Lemma sim_run es : forall q st, rep q st -> set_to q = times st -> valid st es = true ->
  exists st' os q', run st es = Some (st', os) /\ qsteps q es os q' /\ rep q' st' /\ set_to q' = times st'.
Proof.
  induction es as [|e es IH]; intros q st Hr Hs Hv; simpl in *.
  - exists st, [], q. split; [done|]. split; [constructor|done].
  - apply andb_true_iff in Hv as [Ha Hv]. destruct (sim_step q st e Hr Hs Ha) as (st1 & o & q1 & E & Hq & Hr1 & Hs1). rewrite E in Hv |- *. simpl. destruct (IH q1 st1 Hr1 Hs1 Hv) as (st' & os & q' & E' & Hqs & Hr' & Hs').
    rewrite E'. simpl. exists st', (o :: os), q'. split; [done|]. split; [by econstructor|done].
Qed.

Definition start (j : Z) : queue := mk_queue j j ∅ ∅.

Lemma start_rep j : word j -> rep (start j) (boot j).
Proof. apply timer_boot_ok. Qed.

Lemma start_times j : set_to (start j) = times (boot j).
Proof. done. Qed.

Lemma run_app es1 es2 : forall st st1 os1, run st es1 = Some (st1, os1) -> run st (es1 ++ es2) = '(st2, os2) ← run st1 es2; Some (st2, os1 ++ os2).
Proof.
  induction es1 as [|e es1 IH]; intros st st1 os1 E; simpl in *; [injection E as <- <-; by destruct (run st es2) as [[? ?]|]|].
  destruct (exec st e) as [[st' o]|]; [|done]. simpl in *. destruct (run st' es1) as [[st'' os]|] eqn:E'; [|done]. simpl in E. injection E as <- <-. rewrite (IH st' st'' os E'). by destruct (run st'' es2) as [[? ?]|].
Qed.

Lemma valid_app es1 es2 : forall st st1 os1, run st es1 = Some (st1, os1) -> valid st (es1 ++ es2) = valid st es1 && valid st1 es2.
Proof.
  induction es1 as [|e es1 IH]; intros st st1 os1 E; simpl in *; [by injection E as <- <-|].
  destruct (exec st e) as [[st' o]|]; [|done]. simpl in *. destruct (run st' es1) as [[st'' os]|] eqn:E'; [|done]. simpl in E. injection E as <- <-. rewrite (IH st' st'' os E'). by rewrite andb_assoc.
Qed.

(** ** A timer that is left alone *)

(** The event neither sets nor deletes [t]. *)
Definition leaves (t : tid) (e : event) : bool :=
  match e with
  | EInit t' _ _ _ | EMod t' _ | EAdd t' | EAddOn t' | EDel t' => negb (bool_decide (t' = t))
  | _ => true
  end.

Lemma qstep_leaves q e o q' t D : qstep q e o q' -> leaves t e = true -> o <> Ran t -> due q !! t = Some D -> due q' !! t = Some D.
Proof.
  intros Hq Hl Ho HD. destruct Hq; simpl in *; try done; apply negb_true_iff in Hl || clear Hl; try apply bool_decide_eq_false in Hl; rewrite ?lookup_insert_ne, ?lookup_delete_ne by congruence; done.
Qed.

Lemma qsteps_leaves q es os q' t D : qsteps q es os q' -> forallb (leaves t) es = true -> Ran t ∉ os -> due q !! t = Some D -> due q' !! t = Some D.
Proof.
  induction 1 as [|q e o q1 es os q2 Hq _ IH]; [done|]. simpl. intros [Hl Hls]%andb_true_iff Ho HD. apply not_elem_of_cons in Ho as [Ho Hos]. apply IH; [done|done|].
  by eapply qstep_leaves.
Qed.

End TimerSpec.
