(* ===== verification/TimerLoop.v ===== *)
(** * The timer wheel: [__run_timers] as a whole, and the claims *)

From Stdlib Require Import ZArith Lia.
From stdpp Require Import base option gmap list.
From S2P Require Import Prelude Timer TimerInv TimerTop.

Local Open Scope Z_scope.
Local Open Scope kernel_scope.

Module TimerLoop.
Import Timer TimerInv TimerRun TimerTop TimerSpec.

(** ** What stays as it is *)

(** Which timers there are, and which of them have a function. *)
Definition funs (st : state) : gmap tid bool := function <$> timers st.

Lemma funs_lookup st t tm : timers st !! t = Some tm -> funs st !! t = Some (function tm).
Proof. intros H. unfold funs. by rewrite lookup_fmap, H. Qed.

Lemma funs_some st t b : funs st !! t = Some b -> exists tm, timers st !! t = Some tm /\ function tm = b.
Proof. unfold funs. rewrite lookup_fmap. intros (tm & H & ->)%fmap_Some. eauto. Qed.

Lemma funs_set st t tm tm' : timers st !! t = Some tm -> function tm' = function tm -> funs (set_timer st t tm') = funs st.
Proof. intros H E. unfold funs, set_timer. simpl. rewrite fmap_insert, E. apply insert_id. by apply funs_lookup. Qed.

Lemma del_timer_funs st t st' r : del_timer st t = Some (st', r) -> funs st' = funs st.
Proof.
  unfold del_timer. destruct (timers st !! t) as [tm|] eqn:Htm; [|done]. simpl. destruct (pending tm); [|by intros [= <- _]].
  destruct (detach_timer st t) as [st1|] eqn:E; [|done]. simpl. intros [= <- _]. apply detach_same in E. rewrite (funs_set st1 t tm); [unfold funs; by rewrite E|by rewrite E|done].
Qed.

Lemma __mod_timer_funs st t e st' r : __mod_timer st t e = Some (st', r) -> funs st' = funs st.
Proof.
  unfold __mod_timer. destruct (timers st !! t) as [tm|] eqn:Htm; [|done]. simpl. destruct (function tm) eqn:Hf; [|done]. simpl.
  assert (Hadd : forall st1 r1, timers st1 = timers st -> (b ← internal_add_timer (base st1) t e; Some (set_timer (set_base st1 b) t (mk_timer e true true (deferrable tm)), r1)) = Some (st', r) -> funs st' = funs st).
  { intros st1 r1 E. destruct (internal_add_timer (base st1) t e) as [b|]; [|done]. simpl. intros [= <- _]. rewrite (funs_set (set_base st1 b) t tm); [unfold funs; simpl; by rewrite E|simpl; by rewrite E|done]. }
  destruct (pending tm); [|by apply Hadd]. destruct (detach_timer st t) as [st1|] eqn:E; [|done]. simpl. apply Hadd. by eapply detach_same.
Qed.

Lemma mod_timer_funs st t e st' r : mod_timer st t e = Some (st', r) -> funs st' = funs st.
Proof.
  unfold mod_timer. destruct (timers st !! t) as [tm|]; [|done]. simpl. destruct (negb (function tm)); [done|]. destruct (_ && _); [by intros [= <- _]|apply __mod_timer_funs].
Qed.

Lemma fire_funs st st' t : fire st = Some (st', t) -> funs st' = funs st.
Proof.
  unfold fire. destruct (head (work_list st)) as [x|]; [|done]. simpl. destruct (timers st !! x) as [tm|] eqn:Htm; [|done]. simpl. destruct (function tm) eqn:Hf; [|done].
  destruct (detach_timer st x) as [st1|] eqn:E; [|done]. simpl. intros [= <- <-]. apply detach_same in E. rewrite (funs_set st1 x tm); [unfold funs; by rewrite E|by rewrite E|done].
Qed.

(** ** Handlers *)

Definition target (c : timer_call) : tid := match c with CallMod t _ | CallDel t => t end.

(** A handler may set and delete the timers there are, and sets only those that
    have a function. *)
Definition call_ok (fs : gmap tid bool) (c : timer_call) : Prop :=
  match c with
  | CallMod t e => fs !! t = Some true /\ word e
  | CallDel t => is_Some (fs !! t)
  end.

Lemma timer_call_step T J due st c : winv T J due st -> call_ok (funs st) c ->
  exists st' due', call st c = Some st' /\ winv T J due' st' /\ (length (work_list st') <= length (work_list st))%nat /\ funs st' = funs st /\
    forall x, x <> target c -> due' !! x = due !! x.
Proof.
  intros Hw Hc. destruct c as [t e|t]; simpl in *.
  - destruct Hc as [(tm & Htm & Hf)%funs_some He]. destruct (mod_timer_ok T J due st t tm e Hw Htm Hf He) as (st' & E & Hw' & Hl). rewrite E. simpl. eexists _, _. split; [done|]. split; [exact Hw'|]. split; [done|].
    split; [by eapply mod_timer_funs|]. intros x Hx. unfold modded. destruct (_ && _); [done|]. unfold arm. by rewrite lookup_insert_ne.
  - destruct Hc as [b (tm & Htm & _)%funs_some]. destruct (del_timer_ok T J due st t tm Hw Htm) as (st' & E & Hw' & Hl). rewrite E. simpl. eexists _, _. split; [done|]. split; [exact Hw'|]. rewrite Hl.
    split; [unfold list_del; apply length_filter|]. split; [by eapply del_timer_funs|]. intros x Hx. by rewrite lookup_delete_ne.
Qed.

Lemma calls_step T J cs : forall due st, winv T J due st -> (forall c, c ∈ cs -> call_ok (funs st) c) ->
  exists st' due', calls st cs = Some st' /\ winv T J due' st' /\ (length (work_list st') <= length (work_list st))%nat /\ funs st' = funs st /\
    forall x, x ∉ map target cs -> due' !! x = due !! x.
Proof.
  induction cs as [|c cs IH]; intros due st Hw Hok; simpl; [by exists st, due|].
  destruct (timer_call_step T J due st c Hw) as (st1 & due1 & E & Hw1 & Hl1 & Hf1 & Hd1); [apply Hok; set_solver|]. rewrite E. simpl.
  destruct (IH due1 st1 Hw1) as (st' & due' & E' & Hw' & Hl' & Hf' & Hd'); [intros c' Hc'; rewrite Hf1; apply Hok; set_solver|].
  exists st', due'. split; [done|]. split; [done|]. split; [lia|]. split; [by rewrite Hf'|]. intros x [Hx Hxs]%not_elem_of_cons. rewrite Hd' by done. by apply Hd1.
Qed.

(** ** The loop *)

Section loop.
Context (handler : tid -> list timer_call).

Definition handlers_ok (st : state) : Prop := forall t c, c ∈ handler t -> call_ok (funs st) c.

(** No handler sets or deletes [t]. *)
Definition untouched (t : tid) : Prop := forall t', t ∉ map target (handler t').

Definition runs_of (log : list (tid * Z)) (t : tid) : list (tid * Z) := filter (fun p => p.1 = t) log.

(** What becomes of such a timer: it runs once, in its jiffy, if that has come. *)
Definition outcome_of (J : Z) (before after : gmap tid Z) (log : list (tid * Z)) (t : tid) : Prop :=
  match before !! t with
  | Some D => if bool_decide (D <= J) then runs_of log t = [(t, u32 (D + 1))] /\ after !! t = None else runs_of log t = [] /\ after !! t = Some D
  | None => runs_of log t = [] /\ after !! t = None
  end.

Definition measure (T J : Z) (n : nat) (w : list tid) : nat := (Z.to_nat (J + 1 - T) * S n + length w)%nat.

Lemma measure_advance T J n w : T <= J -> (length w <= n)%nat -> (measure (T + 1) J n w < measure T J n [])%nat.
Proof. intros HT Hw. unfold measure. replace (Z.to_nat (J + 1 - T)) with (S (Z.to_nat (J + 1 - (T + 1)))) by lia. simpl. lia. Qed.

Lemma work_size T J due st : winv T J due st -> (length (work_list st) <= size (funs st))%nat.
Proof.
  intros [Hc Ht _ _]. rewrite <- size_dom. rewrite <- (size_list_to_set (C := gset tid) (work_list st)) by exact (wc_nodup _ _ _ _ _ Hc). apply subseteq_size.
  intros t Hin%elem_of_list_to_set. apply elem_of_dom. destruct (wt_known _ _ _ _ _ Ht t _ (wc_fire _ _ _ _ _ Hc t Hin)) as (tm & Htm & _). eexists. by apply funs_lookup.
Qed.

Lemma finished J due st t : winv (J + 1) J due st -> work_list st = [] -> outcome_of J due due [] t.
Proof.
  intros [Hc _ _ _] Hwl. rewrite Hwl in Hc. unfold outcome_of. destruct (due !! t) as [D|] eqn:HD; [|done].
  rewrite bool_decide_eq_false_2; [done|]. pose proof (wc_later _ _ _ _ _ t D Hc HD (not_elem_of_nil t)). lia.
Qed.

Lemma run_timers_ok : forall fuel T J due st, winv T J due st -> handlers_ok st -> (measure T J (size (funs st)) (work_list st) <= fuel)%nat ->
  exists st' log due', __run_timers fuel handler st = Some (st', log) /\ winv (J + 1) J due' st' /\ work_list st' = [] /\ funs st' = funs st /\
    forall t, untouched t -> outcome_of J due due' log t.
Proof.
  induction fuel as [|fuel IH]; intros T J due st Hw Hh Hm; pose proof Hw as [Hc Ht Hj Hr]; pose proof (bw_time _ _ _ _ (wc_base _ _ _ _ _ Hc)) as HT; destruct (work_list st) as [|t w] eqn:Hwl; simpl; rewrite Hwl.
  - rewrite Hj, HT, time_after_ok by lia. unfold measure in Hm. simpl in Hm. rewrite bool_decide_eq_false_2 by (intros ?; lia). assert (T = J + 1) as -> by (destruct (decide (T <= J)); [exfalso; lia|lia]).
    exists st, [], due. do 4 (split; [done|]). intros t _. by apply (finished J due st).
  - unfold measure in Hm. simpl in Hm. lia.
  - rewrite Hj, HT, time_after_ok by lia. case_bd as HTJ.
    + destruct (advance_ok T J due st Hw Hwl HTJ) as (st1 & E & Hw1 & _ & Etm). rewrite E. simpl. assert (Ef : funs st1 = funs st) by (unfold funs; by rewrite Etm).
      destruct (IH (T + 1) J due st1 Hw1) as (st' & log & due' & E' & Hw' & Hwl' & Hf' & Ho'); [intros t c Hc'; rewrite Ef; by eapply Hh| |].
      * rewrite Ef. pose proof (work_size _ _ _ _ Hw1) as Hs. rewrite Ef in Hs. pose proof (measure_advance T J _ _ HTJ Hs). lia.
      * exists st', log, due'. split; [done|]. split; [done|]. split; [done|]. split; [by rewrite Hf'|done].
    + assert (T = J + 1) as -> by lia. exists st, [], due. do 4 (split; [done|]). intros t _. by apply (finished J due st).
  - destruct (fire_ok T J due st t w Hw Hwl) as (st1 & E & Hw1 & Hwl1 & HD). rewrite E. simpl. assert (Ef : funs st1 = funs st) by (by eapply fire_funs).
    rewrite (bw_time _ _ _ _ (wc_base _ _ _ _ _ (wv_core _ _ _ _ Hw1))).
    destruct (calls_step T J (handler t) _ st1 Hw1) as (st2 & due2 & E2 & Hw2 & Hl2 & Hf2 & Hd2); [intros c Hc'; rewrite Ef; by eapply Hh|]. rewrite E2. simpl. rewrite Hwl1 in Hl2.
    destruct (IH T J due2 st2 Hw2) as (st' & log & due' & E' & Hw' & Hwl' & Hf' & Ho'); [intros t' c Hc'; rewrite Hf2, Ef; by eapply Hh|rewrite Hf2, Ef; unfold measure in *; simpl in Hm; lia|].
    rewrite E'. simpl. exists st', ((t, u32 T) :: log), due'. split; [done|]. split; [done|]. split; [done|]. split; [by rewrite Hf', Hf2|].
    intros x Hu. specialize (Ho' x Hu). unfold outcome_of in *. rewrite Hd2 in Ho' by apply Hu. unfold runs_of in *. rewrite filter_cons. simpl. destruct (decide (t = x)) as [->|Hne].
    + rewrite lookup_delete_eq in Ho'. rewrite HD, bool_decide_eq_true_2 by lia. destruct Ho' as [-> ->]. by replace (T - 1 + 1) with T by lia.
    + rewrite lookup_delete_ne in Ho' by done. exact Ho'.
Qed.

End loop.

(** Turns of the two loops: the jiffies to be processed, each with at most all
    the timers, and what is left of the work list. *)
Definition run_fuel (st : state) : nat :=
  (Z.to_nat (s32 (jiffies st - timer_jiffies (base st)) + 1) * S (size (timers st)) + length (work_list st))%nat.

Lemma run_fuel_ok q st : rep q st -> run_fuel st = measure (next q) (now q) (size (funs st)) (work_list st).
Proof. intros Hr. unfold run_fuel, measure, funs. rewrite (proj1 (rep_lag q st Hr)), map_size_fmap. do 3 f_equal. lia. Qed.

(** ** Claims *)

(** C4: the wheel of five vectors on [2^32] jiffies is a queue of due times
    that do not wrap.  After any sequence of calls on timers, clock ticks and turns of
    the loops of [__run_timers], each under its conditions, every call has returned
    with the result that the queue gives, and the state stands for the queue that
    the calls and their results determine ([qsteps_det]): a timer set for [e], with
    [mod_timer] or by [expires] before it is added, is due at the jiffy [e] when that
    is less than [2^31] ahead and at the next one otherwise, a jiffy is taken only
    when all timers of the one before have run, and a timer runs in the jiffy it is
    due. *)
Theorem timer_wheel_refines j es : word j -> valid (boot j) es = true ->
  exists st os q, run (boot j) es = Some (st, os) /\ qsteps (start j) es os q /\ represents q st.
Proof.
  intros Hj Hv. destruct (sim_run es _ _ (start_rep j Hj) (start_times j) Hv) as (st & os & q & E & Hq & Hr & Hs). exists st, os, q. split; [done|]. split; [done|]. by apply rep_represents.
Qed.

Definition demo : list event :=
  [EInit 1%nat 0 true false; EMod 1%nat 5; EInit 2%nat 700 true false; EAdd 2%nat; EDel 2%nat; ETicks 30] ++ replicate 22 EAdvance.

Lemma timer_wheel_refines_witness : (word (two32 - 16) /\ valid (boot (two32 - 16)) (demo ++ [EFire]) = true) /\
  exists st os q, run (boot (two32 - 16)) (demo ++ [EFire]) = Some (st, os) /\ qsteps (start (two32 - 16)) (demo ++ [EFire]) os q /\ represents q st.
Proof.
  assert (H1 : word (two32 - 16)) by (unfold word, two32; lia). assert (H2 : valid (boot (two32 - 16)) (demo ++ [EFire]) = true) by (vm_compute; reflexivity).
  exact (conj (conj H1 H2) (timer_wheel_refines _ _ H1 H2)).
Defined.

(** C5: a timer that is set with [mod_timer] and then left alone runs in
    exactly the jiffy [e] that was asked for, never one later by way of the
    coarser vectors, or in the next one to be processed if [e] has passed by then;
    and that jiffy has come. *)
Theorem timer_exact j es1 t e es2 st1 os1 st2 os2 st3 :
  word j -> valid (boot j) (es1 ++ EMod t e :: es2 ++ [EFire]) = true ->
  run (boot j) es1 = Some (st1, os1) -> t ∉ work_list st1 ->
  run st1 (EMod t e :: es2) = Some (st2, os2) -> forallb (leaves t) es2 = true -> Ran t ∉ os2 ->
  fire st2 = Some (st3, t) ->
  timer_jiffies (base st3) -u 1 = (if bool_decide (e -u timer_jiffies (base st1) < two31) then e else timer_jiffies (base st1)) /\
  -1 <= s32 (jiffies st3 - timer_jiffies (base st3)).
Proof.
  intros Hj Hv E1 Hw E2 Hl Hn Ef. rewrite (valid_app _ _ _ _ _ E1) in Hv. apply andb_true_iff in Hv as [Hv1 Hv2].
  destruct (sim_run es1 _ _ (start_rep j Hj) (start_times j) Hv1) as (? & ? & q1 & E1' & _ & Hr1 & Hs1). rewrite E1 in E1'. injection E1' as <- <-.
  change (EMod t e :: es2 ++ [EFire]) with ((EMod t e :: es2) ++ [EFire]) in Hv2. rewrite (valid_app _ _ _ _ _ E2) in Hv2. apply andb_true_iff in Hv2 as [Hv2 Hv3].
  destruct (sim_run _ _ _ Hr1 Hs1 Hv2) as (? & ? & q2 & E2' & Hq & Hr2 & _). rewrite E2 in E2'. injection E2' as <- <-.
  assert (He : word e) by (simpl in Hv2; apply andb_true_iff in Hv2 as [[He _]%andb_true_iff _]; by apply is_word_ok).
  assert (HD : due q2 !! t = Some (due_at (next q1) e)).
  { inversion Hq as [|? ? o q1' ? os ? Hs Hqs]; subst. apply not_elem_of_cons in Hn as [_ Hn]. eapply qsteps_leaves; [exact Hqs|done|done|]. inversion Hs; subst; [simpl; by rewrite lookup_insert_eq|].
    exfalso. apply Hw. by apply (rep_running q1'). }
  destruct (work_list st2) as [|t' w] eqn:Hwl; [by unfold fire in Ef; rewrite Hwl in Ef|]. destruct (fire_ok _ _ _ st2 t' w Hr2 Hwl) as (st & Ef' & Hr3 & _ & HD'). rewrite Ef in Ef'. injection Ef' as <- <-.
  rewrite HD in HD'. injection HD' as Hdue. split; [|rewrite (proj1 (rep_lag (clear_due q2 t) st3 Hr3)); simpl; destruct (wv_range _ _ _ _ Hr3); lia].
  rewrite (bw_time _ _ _ _ (wc_base _ _ _ _ _ (wv_core _ _ _ _ Hr3))), (bw_time _ _ _ _ (wc_base _ _ _ _ _ (wv_core _ _ _ _ Hr1))), u32_sub_l, <- Hdue, due_sub.
  unfold due_at. case_bd; [by apply u32_due|done].
Qed.

Lemma timer_exact_witness : exists st1 os1 st2 os2 st3,
  (word (two32 - 16) /\ valid (boot (two32 - 16)) ([EInit 1%nat 0 true false] ++ EMod 1%nat 5 :: (ETicks 30 :: replicate 22 EAdvance) ++ [EFire]) = true /\
   run (boot (two32 - 16)) [EInit 1%nat 0 true false] = Some (st1, os1) /\ 1%nat ∉ work_list st1 /\
   run st1 (EMod 1%nat 5 :: ETicks 30 :: replicate 22 EAdvance) = Some (st2, os2) /\ Ran 1%nat ∉ os2 /\ fire st2 = Some (st3, 1%nat)) /\
  timer_jiffies (base st3) -u 1 = (if bool_decide (5 -u timer_jiffies (base st1) < two31) then 5 else timer_jiffies (base st1)) /\
  -1 <= s32 (jiffies st3 - timer_jiffies (base st3)).
Proof.
  assert (H1 : word (two32 - 16)) by (unfold word, two32; lia).
  assert (H2 : valid (boot (two32 - 16)) ([EInit 1%nat 0 true false] ++ EMod 1%nat 5 :: (ETicks 30 :: replicate 22 EAdvance) ++ [EFire]) = true) by (vm_compute; reflexivity).
  destruct (run (boot (two32 - 16)) [EInit 1%nat 0 true false]) as [[st1 os1]|] eqn:E1; [|vm_compute in E1; discriminate].
  assert (Es1 : st1 = init_timer (boot (two32 - 16)) 1%nat 0 true) by (cbn in E1; injection E1 as <- _; reflexivity). subst st1.
  destruct (run (init_timer (boot (two32 - 16)) 1%nat 0 true) (EMod 1%nat 5 :: ETicks 30 :: replicate 22 EAdvance)) as [[st2 os2]|] eqn:E2; [|vm_compute in E2; discriminate].
  assert (H3 : 1%nat ∉ work_list (init_timer (boot (two32 - 16)) 1%nat 0 true)) by apply not_elem_of_nil.
  pose (r := run (init_timer (boot (two32 - 16)) 1%nat 0 true) (EMod 1%nat 5 :: ETicks 30 :: replicate 22 EAdvance)).
  assert (H4 : Ran 1%nat ∉ os2).
  { assert (Ho : snd <$> r = Some os2) by (unfold r; rewrite E2; reflexivity). assert (Hb : (fun os => forallb (fun o => match o with Ran _ => false | Ret _ => true end) os) <$> (snd <$> r) = Some true) by (vm_compute; reflexivity).
    rewrite Ho in Hb. simpl in Hb. injection Hb as Hb. intros Hin%list_elem_of_In. rewrite forallb_forall in Hb. specialize (Hb _ Hin). discriminate. }
  destruct (fire st2) as [[st3 t]|] eqn:E3.
  2: { exfalso. assert (Hf : (r ≫= fun p => fire p.1) = None) by (unfold r; rewrite E2; exact E3). vm_compute in Hf. discriminate. }
  assert (Et : t = 1%nat). { assert (Hf : snd <$> (r ≫= fun p => fire p.1) = Some t) by (unfold r; rewrite E2; simpl; rewrite E3; reflexivity). vm_compute in Hf. injection Hf as <-. reflexivity. }
  subst t. exists (init_timer (boot (two32 - 16)) 1%nat 0 true), os1, st2, os2, st3. split; [exact (conj H1 (conj H2 (conj eq_refl (conj H3 (conj E2 (conj H4 E3))))))|].
  exact (timer_exact (two32 - 16) _ 1%nat 5 (ETicks 30 :: replicate 22 EAdvance) _ os1 st2 os2 st3 H1 H2 E1 H3 E2 eq_refl H4 E3).
Defined.

(** C6: [__run_timers] returns, whatever the handlers set and delete, after at
    most the fuel that is given by the jiffies it is behind and the number of
    timers; then every jiffy up to the present one has been processed, all timers
    that are pending are due later, and a timer that no handler touches has
    run exactly once, in the jiffy it was due, if this has come, and is still pending
    if not.  The jiffies at which timers are due are those of the queue that the
    calls made so far determine. *)
Theorem run_timers_complete j es st os handler :
  word j -> valid (boot j) es = true -> run (boot j) es = Some (st, os) -> handlers_ok handler st ->
  exists st' log q q', qsteps (start j) es os q /\ represents q st /\ represents q' st' /\
    __run_timers (run_fuel st) handler st = Some (st', log) /\
    work_list st' = [] /\ now q' = now q /\ next q' = now q + 1 /\ (forall t D, due q' !! t = Some D -> now q < D) /\
    forall t, untouched handler t -> outcome_of (now q) (due q) (due q') log t.
Proof.
  intros Hj Hv E Hh. destruct (sim_run es _ _ (start_rep j Hj) (start_times j) Hv) as (? & ? & q & E' & Hq & Hr & Hs). rewrite E in E'. injection E' as <- <-.
  destruct (run_timers_ok handler (run_fuel st) _ _ _ st Hr Hh) as (st' & log & due' & Er & Hw & Hwl & _ & Ho); [by rewrite (run_fuel_ok q st Hr)|].
  exists st', log, q, (mk_queue (now q + 1) (now q) due' (times st')). split; [done|]. split; [by apply rep_represents|]. split; [by apply rep_represents|]. split; [done|]. split; [done|]. split; [done|]. split; [done|]. split; [|done].
  intros t D HD. pose proof (wv_core _ _ _ _ Hw) as Hc. rewrite Hwl in Hc. pose proof (wc_later _ _ _ _ _ t D Hc HD (not_elem_of_nil t)). lia.
Qed.

Definition demo_handler (t : tid) : list timer_call := if bool_decide (t = 1%nat) then [CallMod 1%nat 40; CallDel 2%nat] else [].

Lemma run_timers_complete_witness : exists st os,
  (word (two32 - 16) /\ valid (boot (two32 - 16)) (demo ++ [EFire]) = true /\ run (boot (two32 - 16)) (demo ++ [EFire]) = Some (st, os) /\ handlers_ok demo_handler st) /\
  exists st' log q q', qsteps (start (two32 - 16)) (demo ++ [EFire]) os q /\ represents q st /\ represents q' st' /\
    __run_timers (run_fuel st) demo_handler st = Some (st', log) /\
    work_list st' = [] /\ now q' = now q /\ next q' = now q + 1 /\ (forall t D, due q' !! t = Some D -> now q < D) /\
    forall t, untouched demo_handler t -> outcome_of (now q) (due q) (due q') log t.
Proof.
  assert (H1 : word (two32 - 16)) by (unfold word, two32; lia). assert (H2 : valid (boot (two32 - 16)) (demo ++ [EFire]) = true) by (vm_compute; reflexivity).
  destruct (run (boot (two32 - 16)) (demo ++ [EFire])) as [[st os]|] eqn:E; [|vm_compute in E; discriminate].
  assert (Hf : (fun p => (funs p.1 !! 1%nat, funs p.1 !! 2%nat)) <$> run (boot (two32 - 16)) (demo ++ [EFire]) = Some (Some true, Some true)) by (vm_compute; reflexivity).
  rewrite E in Hf. simpl in Hf. injection Hf as Hf1 Hf2. assert (H3 : handlers_ok demo_handler st).
  { clear H1 H2 E. intros t c. unfold demo_handler. case_bd; [|intros Hc; by apply elem_of_nil in Hc]. intros [->|[->|Hc]%elem_of_cons]%elem_of_cons; [|exists true; exact Hf2|by apply elem_of_nil in Hc].
    split; [exact Hf1|]. unfold word, two32. lia. }
  exists st, os. split; [exact (conj H1 (conj H2 (conj eq_refl H3)))|]. exact (run_timers_complete _ _ st os demo_handler H1 H2 E H3).
Defined.

(** ** Rounding *)

(** When the clock does not wrap within the second that follows, rounding a
    time in the future moves it by less than a second (upwards by at most
    one), never into the past, and to a whole second, except that a time is
    left alone if the second it would be rounded down to has passed;
    the variants that round up never give an earlier time. *)
Theorem round_jiffies_bounds HZ now j up : 0 < HZ -> 0 <= now < j -> j + HZ < two32 ->
  let r := round_jiffies_common HZ now j 0 up in
  now < r /\ j - HZ / 4 < r <= j + HZ /\
  (r mod HZ = 0 \/ r = j /\ up = false /\ j - j mod HZ <= now) /\ (up = true -> j < r).
Proof.
  intros HHZ Hnow Hj r. pose proof (Z.mod_pos_bound j HZ HHZ) as Hm. pose proof (Z.mod_le j HZ ltac:(lia) HHZ) as Hle. unfold r, round_jiffies_common. change (0 * 3) with 0. rewrite Z.add_0_r, (u32_small j) by lia.
  assert (Hdown : (j - j mod HZ) mod HZ = 0) by (rewrite Zminus_mod_idemp_r, Z.sub_diag; apply Z.mod_0_l; lia). assert (Hup : (j - j mod HZ + HZ) mod HZ = 0) by (rewrite <- Z.add_mod_idemp_r, Z.mod_same, Z.add_0_r; lia).
  rewrite Z.sub_0_r. destruct (bool_decide (j mod HZ < HZ / 4) && negb up) eqn:Hd.
  - apply andb_true_iff in Hd as [Hq%bool_decide_eq_true Hu%negb_true_iff]. rewrite (u32_small (j - j mod HZ)), u32_small by (rewrite ?u32_small; lia). case_bd as Hlt.
    + subst up. split; [lia|]. split; [lia|]. split; [by right|done].
    + subst up. split; [lia|]. split; [lia|]. split; [by left|done].
  - rewrite (u32_small (j - j mod HZ)), (u32_small (j - j mod HZ + HZ)), u32_small by (rewrite ?u32_small; lia). rewrite bool_decide_eq_false_2 by lia. split; [lia|]. split; [|split; [by left|lia]].
    pose proof (Z.div_pos HZ 4 ltac:(lia) ltac:(lia)). lia.
Qed.

Lemma round_jiffies_bounds_witness : (0 < 100 /\ 0 <= 1000 < 1234 /\ 1234 + 100 < two32) /\
  let r := round_jiffies_common 100 1000 1234 0 false in
  1000 < r /\ 1234 - 100 / 4 < r <= 1234 + 100 /\
  (r mod 100 = 0 \/ r = 1234 /\ false = false /\ 1234 - 1234 mod 100 <= 1000) /\ (false = true -> 1234 < r).
Proof.
  assert (H1 : 0 < 100) by lia. assert (H2 : 0 <= 1000 < 1234) by lia. assert (H3 : 1234 + 100 < two32) by (unfold two32; lia).
  exact (conj (conj H1 (conj H2 H3)) (round_jiffies_bounds 100 1000 1234 false H1 H2 H3)).
Defined.

(** When the clock wraps in between, as it does five minutes after booting, the
    comparison with [jiffies] takes the rounded time for one that has passed. *)
Lemma round_jiffies_wraps : round_jiffies_common 100 (two32 - 1000) 234 0 false = 234.
Proof. reflexivity. Qed.

End TimerLoop.
