(* ===== verification/TimerNext.v ===== *)
(** * The timer wheel: the search for the next event *)

From Stdlib Require Import ZArith Lia.
From stdpp Require Import base option gmap list.
From S2P Require Import Prelude Timer TimerInv TimerTop.

Local Open Scope Z_scope.
Local Open Scope kernel_scope.

Module TimerNext.
Import Timer TimerInv TimerRun TimerTop TimerSpec.

(** ** Spans to come *)

(** The first span of [l] that has not begun before [T]. *)
Definition first_span (T : Z) (l : level) : Z := (T + 2 ^ shift l - 1) / 2 ^ shift l.

Lemma first_span_bounds T l : T <= first_span T l * 2 ^ shift l < T + 2 ^ shift l.
Proof.
  unfold first_span. pose proof (pow_shift l) as Hp. pose proof (Z.div_mod (T + 2 ^ shift l - 1) (2 ^ shift l) ltac:(lia)). pose proof (Z.mod_pos_bound (T + 2 ^ shift l - 1) (2 ^ shift l) Hp). lia.
Qed.

(** [l'] is the vector after [l]. *)
Definition after (l l' : level) : Prop := 2 ^ shift l' = size_of l * 2 ^ shift l.

Lemma first_span_next T l l' : after l l' -> first_span T l <= size_of l * first_span T l' < first_span T l + size_of l.
Proof.
  intros H. pose proof (first_span_bounds T l) as H1. pose proof (first_span_bounds T l') as H2. rewrite H in H2. pose proof (pow_shift l) as Hp. assert (0 < size_of l) by (by destruct l). nia.
Qed.

Lemma first_span_mono T l l' : shift l <= shift l' -> first_span T l * 2 ^ shift l <= first_span T l' * 2 ^ shift l'.
Proof.
  intros H. pose proof (first_span_bounds T l) as H1. pose proof (first_span_bounds T l') as H2. pose proof (pow_shift l) as Hp.
  assert (E : 2 ^ shift l' = 2 ^ (shift l' - shift l) * 2 ^ shift l) by (rewrite <- Z.pow_add_r by (destruct l, l'; simpl in *; lia); f_equal; lia).
  rewrite E in *. rewrite Z.mul_assoc in *. set (P := 2 ^ shift l) in *. set (m := first_span T l' * _) in *. apply Z.mul_le_mono_nonneg_r; [lia|].
  destruct (decide (first_span T l <= m)); [done|]. nia.
Qed.

(** The slot that comes [i] after the first one has wrapped, or it has not and its
    span ends before the next vector's first one begins. *)
Lemma not_wrapped T l l' i : after l l' -> 0 <= i < size_of l -> first_span T l mod size_of l <> 0 ->
  first_span T l mod size_of l <= (first_span T l + i) mod size_of l -> first_span T l + i + 1 <= size_of l * first_span T l'.
Proof.
  intros Ha Hi Hz Hle. pose proof (first_span_next T l l' Ha) as Hn. set (c := first_span T l) in *. set (n := size_of l) in *. set (q := first_span T l') in *.
  assert (Hsz : 0 < n) by (unfold n; by destruct l). pose proof (Z.div_mod c n ltac:(lia)) as Hd. pose proof (Z.mod_pos_bound c n Hsz) as Hm.
  assert (Hq : q = c / n + 1) by nia. destruct (decide (c mod n + i < n)) as [|Hge]; [nia|]. exfalso.
  assert (E : (c + i) mod n = c mod n + i - n); [|lia]. symmetry. apply (Z.mod_unique_pos _ _ (c / n + 1)); lia.
Qed.

Lemma slot_next c i n : 0 < n -> 0 <= i -> i + 1 < n -> (c + (i + 1)) mod n <> c mod n.
Proof.
  intros Hn Hi Hlt E. pose proof (Z.div_mod (c + (i + 1)) n ltac:(lia)). pose proof (Z.div_mod c n ltac:(lia)). rewrite E in *. assert (n * ((c + (i + 1)) / n - c / n) = i + 1) by lia.
  assert ((c + (i + 1)) / n - c / n = 0 \/ 1 <= (c + (i + 1)) / n - c / n \/ (c + (i + 1)) / n - c / n <= -1) by lia. nia.
Qed.

(** ** Times of expiry *)

(** The time [e], counted from [T]. *)
Definition time_of (T e : Z) : Z := T + s32 (e - T).

Lemma time_of_word T e : word e -> u32 (time_of T e) = e.
Proof.
  intros He. unfold time_of, s32. case_bd.
  - rewrite <- (u32_small e He) at 2. unfold u32. rewrite Z.add_mod_idemp_r by (unfold two32; lia). f_equal. lia.
  - rewrite <- (u32_small e He) at 2. unfold u32. replace (T + ((e - T) mod two32 - two32)) with (T + (e - T) mod two32 + (-1) * two32) by lia. rewrite Z.mod_add by (unfold two32; lia). rewrite Z.add_mod_idemp_r by (unfold two32; lia). f_equal. lia.
Qed.

Lemma time_of_due T e : time_of T e <= due_at T e.
Proof.
  unfold time_of, due_at, s32, u32. case_bd; unfold two31, two32 in *; try lia. pose proof (Z.mod_pos_bound (e - T) 4294967296 ltac:(lia)). lia.
Qed.

Lemma time_of_again T D : T <= D < T + two31 -> time_of T (u32 D) = D.
Proof. intros H. unfold time_of. rewrite <- s32_u32, u32_sub_l, s32_u32, s32_small by (unfold two31 in *; lia). lia. Qed.

Lemma time_before_ok A B : - two31 <= A - B < two31 -> time_before (u32 A) (u32 B) = bool_decide (A < B).
Proof.
  intros H. unfold time_before. rewrite <- (s32_u32 (u32 A - u32 B)), u32_sub_l, u32_sub_r, s32_u32, s32_small by (unfold two31 in *; lia). apply bool_decide_ext. lia.
Qed.

(** ** The searches *)

Section search.
Context (T : Z) (due : gmap tid Z) (tms : gmap tid timer_list) (b : tvec_base).
Context (Hb : bwf T due tms b).
Context (Hknown : forall t, placed b t -> exists tm, tms !! t = Some tm /\ word (expires tm)).
Context (Hexp : forall t tm D, placed b t -> tms !! t = Some tm -> due !! t = Some D -> due_at T (expires tm) = D).

(** How far back a time may lie that a timer was set to. *)
Definition back : Z := 2 ^ 30.
Context (Hpast : forall t tm, placed b t -> tms !! t = Some tm -> T - back <= time_of T (expires tm)).

Notation slot l i := ((first_span T l + i) mod size_of l).

Lemma in_slot l i t : 0 <= i < size_of l -> in_vec b l (Z.to_nat (slot l i)) t -> exists D, due !! t = Some D /\ span l D = first_span T l + i /\ T <= D < T + two31.
Proof.
  intros Hi Hin. destruct (bw_vec _ _ _ _ Hb t l _ Hin) as (D & HD & (F1 & F2 & F3) & Hr & _). exists D. split; [done|]. pose proof (span_bounds l D). split; [|lia].
  assert (Hsz : 0 < size_of l) by (by destruct l). rewrite Z2Nat.id in F3 by (apply Z.mod_pos_bound; done). fold (first_span T l) in F2. pose proof (first_span_bounds T l) as Hf. pose proof (pow_shift l) as Hp.
  assert (first_span T l <= span l D) by (unfold span_start in F1; nia).
  set (c := first_span T l) in *. set (d := span l D) in *. pose proof (Z.div_mod d (size_of l) ltac:(lia)). pose proof (Z.div_mod (c + i) (size_of l) ltac:(lia)). rewrite F3 in *. set (n := size_of l) in *. clear F3.
  assert (d / n = (c + i) / n) as Eq; [nia|lia].
Qed.

Lemma slot_of l k t : in_vec b l k t -> exists i, 0 <= i < size_of l /\ k = Z.to_nat (slot l i).
Proof.
  intros Hin. destruct (bw_vec _ _ _ _ Hb t l k Hin) as (D & HD & (F1 & F2 & F3) & _). fold (first_span T l) in F2. pose proof (first_span_bounds T l) as Hf. pose proof (pow_shift l) as Hp.
  assert (first_span T l <= span l D) by (unfold span_start in F1; nia). exists (span l D - first_span T l). split; [lia|]. replace (first_span T l + (span l D - first_span T l)) with (span l D) by lia. lia.
Qed.

Lemma slot_range l i : 0 <= slot l i < size_of l.
Proof. apply Z.mod_pos_bound. by destruct l. Qed.

Lemma slot_lookup l i : exists v, tv b l !! Z.to_nat (slot l i) = Some v.
Proof. exact (bw_lookup _ _ _ _ l _ Hb (slot_range l i)). Qed.

Lemma slot_step l i : Z.land (slot l i + 1) (size_of l - 1) = slot l (i + 1).
Proof.
  assert (E : exists k, 0 <= k /\ size_of l = 2 ^ k) by (destruct l; [exists 8|exists 6..]; done). destruct E as (k & Hk & E). rewrite E. replace (2 ^ k - 1) with (Z.ones k) by (rewrite Z.ones_equiv; lia).
  rewrite Z.land_ones by done. rewrite Z.add_mod_idemp_l by (apply Z.pow_nonzero; lia). f_equal. lia.
Qed.

(** The times to which the timers of a list were set. *)
Lemma first_event_ok v : (forall t, t ∈ v -> placed b t) ->
  exists f, first_event tms v = Some f /\
    match f with
    | None => forall t tm, t ∈ v -> tms !! t = Some tm -> deferrable tm = true
    | Some e => exists t tm, t ∈ v /\ tms !! t = Some tm /\ e = expires tm
    end.
Proof.
  induction v as [|t v IH]; intros Hv; simpl; [exists None; split; [done|]; intros t tm Ht; by apply elem_of_nil in Ht|].
  destruct (Hknown t) as (tm & Htm & _); [apply Hv; set_solver|]. rewrite Htm. simpl. destruct (deferrable tm) eqn:Hd.
  - destruct IH as (f & E & H); [intros x Hx; apply Hv; set_solver|]. exists f. split; [done|]. destruct f as [e|]; [destruct H as (x & y & H1 & H2 & H3); exists x, y; set_solver|].
    intros x y [->|Hx]%elem_of_cons Hy; [congruence|by eapply H].
  - eexists. split; [done|]. exists t, tm. set_solver.
Qed.

(** No timer of [tv1] before the slot [i] that could not be deferred. *)
Definition free_before (i : Z) : Prop :=
  forall j t tm, 0 <= j < i -> in_vec b TV1 (Z.to_nat (slot TV1 j)) t -> tms !! t = Some tm -> deferrable tm = true.

Lemma tv1_search_ok n : forall i, Z.of_nat n = size_of TV1 - i -> 0 <= i < size_of TV1 -> free_before i ->
  exists r, tv1_search n tms b (slot TV1 0) (slot TV1 i) = Some r /\
    match r with
    | None => free_before (size_of TV1)
    | Some (e, s) => exists k t tm, 0 <= k < size_of TV1 /\ s = slot TV1 k /\ free_before k /\ in_vec b TV1 (Z.to_nat s) t /\ tms !! t = Some tm /\ e = expires tm
    end.
Proof.
  induction n as [|n IH]; intros i Hn Hi Hf; [lia|]. simpl. destruct (slot_lookup TV1 i) as [v Hv]. simpl in Hv. rewrite Hv. simpl.
  assert (Hp : forall t, t ∈ v -> in_vec b TV1 (Z.to_nat (slot TV1 i)) t) by (intros t Ht; by exists v). destruct (first_event_ok v) as (f & E & H); [intros t Ht; eexists _, _; by apply Hp|]. rewrite E. simpl. destruct f as [e|].
  - destruct H as (t & tm & Ht & Htm & ->). eexists. split; [done|]. exists i, t, tm. split; [done|]. split; [done|]. split; [done|]. by split; [apply Hp|].
  - assert (Hf' : free_before (i + 1)).
    { intros j t tm Hj Hin Htm. destruct (decide (j = i)) as [->|]; [|apply (Hf j t tm); [lia|done..]]. destruct Hin as (w & Hw & Ht). assert (w = v) as -> by (simpl in Hw; congruence). by eapply H. }
    pose proof (slot_step TV1 i) as Es. simpl size_of in Es. change TVR_MASK with (256 - 1). rewrite Es. destruct (decide (i + 1 < 256)) as [Hlt|].
    + rewrite bool_decide_eq_false_2 by (simpl size_of; rewrite Z.add_0_r; apply slot_next; lia). apply IH; [simpl size_of in *; lia|simpl size_of; lia|done].
    + simpl size_of in Hi. assert (i = 255) as -> by lia. rewrite bool_decide_eq_true_2; [by eexists|]. simpl size_of. rewrite Z.add_0_r, <- Z.add_mod_idemp_r by lia. by rewrite Z.add_0_r.
Qed.

(** [E] is a time that some timer was set to. *)
Definition origin (E : Z) : Prop := exists t tm, placed b t /\ tms !! t = Some tm /\ u32 E = expires tm.

Definition limit : Z := T + back - 1.

Lemma earliest_ok v : forall found E, (forall t, t ∈ v -> exists tm D, tms !! t = Some tm /\ expires tm = u32 D /\ due !! t = Some D /\ T <= D < T + two31 /\ D < E + two31) -> E <= limit ->
  exists E', earliest tms v found (u32 E) = Some (found || negb (bool_decide (v = [])), u32 E') /\ E' <= E /\
    (forall t D, t ∈ v -> due !! t = Some D -> E' <= D) /\ (E' = E \/ exists t, t ∈ v /\ due !! t = Some E').
Proof.
  induction v as [|t v IH]; intros found E Hv HE; simpl.
  - exists E. rewrite orb_false_r. split; [done|]. split; [lia|]. split; [intros t D Ht; by apply elem_of_nil in Ht|by left].
  - destruct (Hv t) as (tm & D & Htm & Hex & HD & HT & Hlt); [set_solver|]. rewrite Htm. simpl. rewrite Hex, time_before_ok by (unfold limit, back, two31 in *; lia).
    assert (Es : (if bool_decide (D < E) then u32 D else u32 E) = u32 (Z.min D E)) by (case_bd; f_equal; lia). rewrite Es. rewrite orb_true_r.
    destruct (IH true (Z.min D E)) as (E' & E1 & H1 & H2 & H3); [|lia|].
    + intros x Hx. destruct (Hv x) as (tm' & D' & ? & ? & ? & ? & ?); [set_solver|]. exists tm', D'. split; [done|]. split; [done|]. split; [done|]. split; [done|]. lia.
    + exists E'. split; [done|]. split; [lia|]. split.
      * intros x Dx [->|Hx]%elem_of_cons HDx; [rewrite HD in HDx; injection HDx as <-; lia|by eapply H2].
      * destruct H3 as [H3|(x & Hx & HDx)]; [|right; exists x; set_solver]. destruct (Z.min_spec D E) as [[_ Hm]|[_ Hm]]; [right; exists t; rewrite H3, Hm; set_solver|left; lia].
Qed.

(** What the search of one vector gives. *)
Record searched (l : level) (found0 : bool) (E : Z) (ret found : bool) (E' : Z) : Prop := {
  se_le : E' <= E;
  se_low : T - back <= E';
  se_from : E' = E \/ origin E';
  se_all : forall t k D, in_vec b l k t -> due !! t = Some D -> E' <= D;
  se_none : found = false -> found0 = false /\ E' = E;
  se_found : found = true -> E' < (first_span T l + size_of l) * 2 ^ shift l;
  se_ret : ret = true -> found = true /\ forall l', after l l' -> E' < size_of l * first_span T l' * 2 ^ shift l
}.

Lemma slot_timers l i v : l <> TV1 -> 0 <= i < size_of l -> tv b l !! Z.to_nat (slot l i) = Some v ->
  forall t, t ∈ v -> exists tm D, tms !! t = Some tm /\ expires tm = u32 D /\ due !! t = Some D /\ T <= D < T + two31 /\ span l D = first_span T l + i.
Proof.
  intros Hl Hi Hv t Ht. assert (Hin : in_vec b l (Z.to_nat (slot l i)) t) by (by exists v). destruct (in_slot l i t Hi Hin) as (D & HD & Hs & Hr).
  destruct (bw_vec _ _ _ _ Hb t l _ Hin) as (D' & HD' & _ & _ & Hx). rewrite HD in HD'. injection HD' as <-. destruct (Hx Hl) as (tm & Htm & Hex). by exists tm, D.
Qed.

Lemma span_within l D c : span l D = c -> c * 2 ^ shift l <= D < (c + 1) * 2 ^ shift l.
Proof. intros <-. pose proof (span_bounds l D) as H. unfold span_start in H. lia. Qed.

Lemma tvn_search_ok l : l <> TV1 -> forall n i found E, Z.of_nat n = size_of l - i -> 0 <= i < size_of l -> T - back <= E <= limit ->
  (if (found : bool) then i = 0 /\ E < (first_span T l + 1) * 2 ^ shift l else E = limit /\ forall j t, 0 <= j < i -> ~ in_vec b l (Z.to_nat (slot l j)) t) ->
  exists ret found' E', tvn_search n tms b l (slot l 0) (slot l i) found (u32 E) = Some (ret, found', u32 E') /\ searched l found E ret found' E'.
Proof.
  intros Hl n. assert (Hsz : size_of l = 64) by (by destruct l). pose proof (pow_shift l) as Hp. pose proof (first_span_bounds T l) as Hfs. assert (Hpl : 2 ^ shift l <= 2 ^ 26) by (destruct l; simpl; lia).
  induction n as [|n IH]; intros i found E Hn Hi HE Hf; [lia|]. simpl. destruct (slot_lookup l i) as [v Hv]. rewrite Hv. simpl. pose proof (slot_timers l i v Hl Hi Hv) as Hts.
  destruct (earliest_ok v found E) as (E' & E1 & H1 & H2 & H3); [|apply HE|].
  { intros t Ht. destruct (Hts t Ht) as (tm & D & ? & ? & ? & ? & Hs). exists tm, D. split; [done|]. split; [done|]. split; [done|]. split; [done|].
    apply span_within in Hs. destruct found; [destruct Hf as [-> _]|destruct Hf as [-> _]]; unfold limit, back, two31 in *; lia. }
  rewrite E1. simpl. assert (Hfrom : E' = E \/ origin E').
  { destruct H3 as [|(t & Ht & HD)]; [by left|right]. destruct (Hts t Ht) as (tm & D & Htm & Hex & HD' & _). rewrite HD in HD'. injection HD' as <-. exists t, tm. split; [|done]. exists l, (Z.to_nat (slot l i)), v. done. }
  assert (Hlow : T - back <= E').
  { destruct H3 as [->|(t & Ht & HD)]; [apply HE|]. destruct (Hts t Ht) as (tm & D & _ & _ & HD' & Hr & _). rewrite HD in HD'. injection HD' as <-. unfold back. lia. }
  destruct (found || negb (bool_decide (v = []))) eqn:Hfound.
  - assert (Hend : E' < (first_span T l + i + 1) * 2 ^ shift l).
    { destruct found; [destruct Hf as [-> Hf]; rewrite Z.add_0_r; lia|]. simpl in Hfound. apply negb_true_iff, bool_decide_eq_false in Hfound. destruct v as [|t v]; [done|].
      destruct (Hts t) as (tm & D & _ & _ & HD & _ & Hs); [set_solver|]. apply span_within in Hs. pose proof (H2 t D ltac:(set_solver) HD). lia. }
    eexists _, _, E'. split; [done|]. split; try done.
    + intros t k D Hin HD. destruct (slot_of l k t Hin) as (j & Hj & ->). destruct (in_slot l j t Hj Hin) as (D' & HD' & Hs & _). rewrite HD in HD'. injection HD' as <-. apply span_within in Hs.
      destruct (Z.lt_trichotomy j i) as [Hlt|[->|Hgt]]; [|destruct Hin as (w & Hw & Ht); assert (w = v) as -> by congruence; by eapply H2|nia].
      destruct found; [destruct Hf; lia|]. destruct Hf as [_ Hf]. exfalso. apply (Hf j t); [lia|done].
    + intros _. nia.
    + intros Hret%negb_true_iff. split; [done|]. intros l' Ha. apply orb_false_iff in Hret as [Hz%bool_decide_eq_false Hw%bool_decide_eq_false]. rewrite Z.add_0_r in Hz, Hw.
      pose proof (not_wrapped T l l' i Ha Hi Hz ltac:(lia)). nia.
  - apply orb_false_iff in Hfound as [-> Hnil%negb_false_iff%bool_decide_eq_true]. subst v. destruct Hf as [HEl Hf]. assert (E' = E) as -> by (destruct H3 as [|(t & Ht & _)]; [done|by apply elem_of_nil in Ht]).
    assert (Hf' : forall j t, 0 <= j < i + 1 -> ~ in_vec b l (Z.to_nat (slot l j)) t).
    { intros j t Hj Hin. destruct (decide (j = i)) as [->|]; [|apply (Hf j t); [lia|done]]. destruct Hin as (w & Hw & Ht). assert (w = []) as -> by congruence. by apply elem_of_nil in Ht. }
    pose proof (slot_step l i) as Es. change TVN_MASK with (64 - 1). rewrite Hsz in Es at 2. rewrite Es. destruct (decide (i + 1 < 64)) as [Hlt|].
    + rewrite bool_decide_eq_false_2 by (rewrite Hsz, Z.add_0_r; apply slot_next; lia). apply IH; [lia|lia|done|]. done.
    + assert (i = 63) as -> by lia. rewrite bool_decide_eq_true_2 by (rewrite Hsz, Z.add_0_r, <- Z.add_mod_idemp_r by lia; by rewrite Z.add_0_r).
      exists false, false, E. split; [done|]. split; try done.
      intros t k D Hin HD. destruct (slot_of l k t Hin) as (j & Hj & ->). exfalso. apply (Hf' j t); [lia|done].
Qed.

Lemma due_after l k t D : in_vec b l k t -> due !! t = Some D -> first_span T l * 2 ^ shift l <= D.
Proof.
  intros Hin HD. destruct (slot_of l k t Hin) as (i & Hi & ->). destruct (in_slot l i t Hi Hin) as (D' & HD' & Hs & _). rewrite HD in HD'. injection HD' as <-. apply span_within in Hs.
  pose proof (pow_shift l). nia.
Qed.

(** The word [tj] stands for the first span of [l] that has not begun. *)
Definition tracks (l : level) (tj : Z) : Prop := 0 <= tj <= 2 ^ 24 /\ exists k, tj = first_span T l + k * 2 ^ (32 - shift l).

Lemma tracks_index l tj : l <> TV1 -> tracks l tj -> Z.land tj TVN_MASK = slot l 0.
Proof.
  intros Hl (_ & k & ->). change TVN_MASK with (Z.ones 6). rewrite Z.land_ones, Z.add_0_r by lia. replace (2 ^ (32 - shift l)) with (2 ^ (26 - shift l) * 2 ^ 6) by (rewrite <- Z.pow_add_r by (destruct l; simpl; (done || lia)); f_equal; lia).
  rewrite Z.mul_assoc, Z.mod_add by lia. by destruct l.
Qed.

Lemma tracks_next l l' tj : l <> TV1 -> after l l' -> tracks l tj ->
  tracks l' (Z.shiftr (if bool_decide (slot l 0 = 0) then tj else tj +u (TVN_SIZE - slot l 0)) TVN_BITS).
Proof.
  intros Hl Ha Ht. pose proof (tracks_index l tj Hl Ht) as Hx. destruct Ht as (Hr & k & Hk). change TVN_MASK with (Z.ones 6) in Hx. rewrite Z.land_ones in Hx by lia. change (2 ^ 6) with 64 in Hx. rewrite <- Hx.
  change TVN_SIZE with 64. change TVN_BITS with 6. rewrite Z.shiftr_div_pow2 by lia. change (2 ^ 6) with 64. pose proof (Z.div_mod tj 64 ltac:(lia)) as Hd. pose proof (Z.mod_pos_bound tj 64 ltac:(lia)) as Hm.
  assert (Hu : tj <= 64 * ((if bool_decide (tj mod 64 = 0) then tj else tj +u (64 - tj mod 64)) / 64) < tj + 64).
  { case_bd as Hz; [lia|]. rewrite u32_small by (unfold two32; lia). replace (tj + (64 - tj mod 64)) with ((tj / 64 + 1) * 64) by lia. rewrite Z.div_mul by lia. lia. }
  set (u := _ / 64) in *. pose proof (first_span_next T l l' Ha) as Hn. assert (Hsz : size_of l = 64) by (by destruct l). rewrite Hsz in Hn.
  split; [lia|]. exists k. assert (Hsl : shift l' = shift l + 6).
  { unfold after in Ha. rewrite Hsz in Ha. destruct l, l'; try done; simpl in Ha; lia. }
  assert (Hpow : 2 ^ (32 - shift l) = 64 * 2 ^ (32 - shift l')) by (change 64 with (2 ^ 6); rewrite <- Z.pow_add_r by (destruct l'; simpl; lia); f_equal; lia). rewrite Hpow in Hk. nia.
Qed.

Fixpoint chained (ls : list level) : Prop :=
  match ls with
  | [] => True
  | l :: ls => l <> TV1 /\ match ls with [] => True | l' :: _ => after l l' /\ forall x, x ∈ ls -> shift l' <= shift x end /\ chained ls
  end.

Lemma next_levels_ok ls : forall tj found E, chained ls -> T - back <= E <= limit ->
  (forall l, head ls = Some l -> tracks l tj /\ if (found : bool) then E < (first_span T l + 1) * 2 ^ shift l else E = limit) ->
  exists E', next_levels tms b tj ls found (u32 E) = Some (u32 E') /\ E' <= E /\ T - back <= E' /\ (E' = E \/ origin E') /\
    forall l t k D, l ∈ ls -> in_vec b l k t -> due !! t = Some D -> E' <= D.
Proof.
  induction ls as [|l ls IH]; intros tj found E Hch HE Hhd.
  - exists E. split; [done|]. split; [lia|]. split; [lia|]. split; [by left|]. intros l t k D Hl. by apply elem_of_nil in Hl.
  - destruct Hch as (Hl & Hnext & Hch). destruct (Hhd l eq_refl) as [Htj Hf]. cbn [next_levels]. rewrite (tracks_index l tj Hl Htj).
    destruct (tvn_search_ok l Hl 64 0 found E) as (ret & found' & E1 & Es & [S1 S2 S3 S4 S5 S6 S7]); [by destruct l|by destruct l|done|destruct found; [done|split; [done|lia]]|].
    change (Z.to_nat TVN_SIZE) with 64%nat. rewrite Es. cbn -[next_levels]. destruct ret.
    + exists E1. split; [done|]. split; [done|]. split; [done|]. split; [done|]. intros x t k D [->|Hx]%elem_of_cons Hin HD; [by eapply S4|].
      destruct ls as [|l' ls]; [by apply elem_of_nil in Hx|]. destruct Hnext as [Ha Hsh]. destruct (S7 eq_refl) as [_ S7']. specialize (S7' l' Ha). pose proof (due_after x k t D Hin HD). pose proof (first_span_mono T l' x (Hsh x Hx)) as Hmono.
      unfold after in Ha. nia.
    + destruct (IH (Z.shiftr (if bool_decide (slot l 0 = 0) then tj else tj +u (TVN_SIZE - slot l 0)) TVN_BITS) found' E1 Hch) as (E' & E2 & H1 & H2 & H3 & H4); [lia| |].
      * intros l' Hl'. destruct ls as [|l1 ls]; [done|]. simpl in Hl'. injection Hl' as ->. destruct Hnext as [Ha _]. split; [by apply tracks_next|]. destruct found'; [|destruct (S5 eq_refl) as [-> ->]; done].
        specialize (S6 eq_refl). pose proof (first_span_next T l l' Ha) as Hn. unfold after in Ha. rewrite Ha. pose proof (pow_shift l). nia.
      * exists E'. split; [done|]. split; [lia|]. split; [done|]. split; [destruct H3 as [->|]; [done|by right]|]. intros x t k D [->|Hx]%elem_of_cons Hin HD; [|by eapply H4].
        specialize (S4 t k D Hin HD). lia.
Qed.

Lemma first_span_tv1 : first_span T TV1 = T.
Proof. unfold first_span. simpl shift. rewrite Z.pow_0_r, Z.div_1_r. lia. Qed.

Definition first_tj : Z := Z.shiftr (if bool_decide (slot TV1 0 = 0) then u32 T else u32 T +u (TVR_SIZE - slot TV1 0)) TVR_BITS.

Lemma tracks_first : tracks TV2 first_tj.
Proof.
  unfold first_tj. rewrite Z.add_0_r, first_span_tv1. change (size_of TV1) with 256. change TVR_SIZE with 256. change TVR_BITS with 8. rewrite Z.shiftr_div_pow2 by lia. change (2 ^ 8) with 256.
  pose proof (first_span_bounds T TV2) as Hf. simpl shift in Hf. change (2 ^ 8) with 256 in Hf. set (c := first_span T TV2) in *. pose proof (Z.div_mod T 256 ltac:(lia)) as Hd. pose proof (Z.mod_pos_bound T 256 ltac:(lia)) as Hm.
  assert (E : (if bool_decide (T mod 256 = 0) then u32 T else u32 T +u (256 - T mod 256)) = u32 (256 * c)) by (case_bd; [|rewrite u32_add_l]; f_equal; lia). rewrite E. unfold tracks.
  pose proof (Z.div_mod (256 * c) two32 ltac:(unfold two32; lia)) as Hc. pose proof (Z.mod_pos_bound (256 * c) two32 ltac:(unfold two32; lia)) as Hcm. unfold u32. set (r := (256 * c) mod two32) in *. set (q := 256 * c / two32) in *.
  assert (Hr : r = 256 * (c - q * 2 ^ 24)) by (unfold two32 in Hc; lia). assert (Er : r / 256 = c - q * 2 ^ 24) by (rewrite Hr, Z.mul_comm, Z.div_mul by lia; done).
  rewrite Er. split; [unfold two32 in Hcm; lia|]. exists (- q). fold c. simpl shift. change (2 ^ (32 - 8)) with (2 ^ 24). lia.
Qed.

Lemma chain_ok : chained [TV2; TV3; TV4; TV5].
Proof. repeat (split; [done|]); repeat split; try done; intros x Hx; destruct x; simpl; (lia || set_solver). Qed.

(** [R] is no later than any timer that cannot be deferred is due, and is the time
    some timer was set to unless it is the farthest that is looked for. *)
Record next_event (R : Z) : Prop := {
  ne_low : T - back <= R;
  ne_high : R <= limit;
  ne_from : R = limit \/ origin R;
  ne_all : forall t tm D, placed b t -> tms !! t = Some tm -> deferrable tm = false -> due !! t = Some D -> R <= D
}.

Lemma placed_level t : placed b t -> (exists k, in_vec b TV1 k t) \/ exists l k, l ∈ [TV2; TV3; TV4; TV5] /\ in_vec b l k t.
Proof.
  intros (l & k & Hin). destruct (decide (l = TV1)) as [->|]; [left; eauto|right]. exists l, k. split; [|done]. destruct l; [done|..]; set_solver.
Qed.

Lemma later_shift l : l ∈ [TV2; TV3; TV4; TV5] -> shift TV2 <= shift l.
Proof. destruct l; simpl; [set_solver|lia..]. Qed.

Lemma next_interrupt_ok : exists R, __next_timer_interrupt tms b = Some (u32 R) /\ next_event R.
Proof.
  assert (Ha : after TV1 TV2) by done. unfold __next_timer_interrupt. rewrite (bw_time _ _ _ _ Hb).
  assert (Ei : Z.land (u32 T) TVR_MASK = slot TV1 0). { change TVR_MASK with (2 ^ 8 - 1). rewrite <- (Z.shiftr_0_r (u32 T)), index_word by lia. rewrite Z.pow_0_r, Z.div_1_r, Z.add_0_r. by rewrite first_span_tv1. }
  rewrite Ei. change (Z.to_nat TVR_SIZE) with 256%nat. destruct (tv1_search_ok 256 0) as (r & E & Hr); [done|done|intros j t tm Hj; lia|]. rewrite E. cbv beta iota zeta delta [mbind option_bind]. fold first_tj.
  destruct r as [[e s]|].
  - destruct Hr as (k & t & tm & Hk & -> & Hfree & Hin & Htm & ->). destruct (in_slot TV1 k t Hk Hin) as (D & HD & Hs & _). assert (Hpt : placed b t) by (by eexists _, _). apply span_within in Hs. rewrite first_span_tv1 in Hs. simpl shift in Hs. rewrite Z.pow_0_r in Hs.
    destruct (Hknown t Hpt) as (tm' & Htm' & Hw). rewrite Htm in Htm'. injection Htm' as <-. pose proof (time_of_due T (expires tm)) as Hle. rewrite (Hexp t tm D Hpt Htm HD) in Hle. rewrite <- (time_of_word T (expires tm) Hw). set (R := time_of T (expires tm)) in *.
    pose proof (Hpast t tm Hpt Htm) as Hlow. fold R in Hlow. assert (Hor : origin R) by (exists t, tm; split; [done|]; split; [done|]; by apply time_of_word).
    assert (Htv1 : forall x xm Dx kx, in_vec b TV1 kx x -> tms !! x = Some xm -> deferrable xm = false -> due !! x = Some Dx -> R <= Dx).
    { intros x xm Dx kx Hx Hxm Hdef HDx. destruct (slot_of TV1 kx x Hx) as (j & Hj & ->). destruct (in_slot TV1 j x Hj Hx) as (Dx' & HDx' & Hsx & _). rewrite HDx in HDx'. injection HDx' as <-.
      apply span_within in Hsx. rewrite first_span_tv1 in Hsx. simpl shift in Hsx. rewrite Z.pow_0_r in Hsx. destruct (decide (j < k)); [|lia]. exfalso. pose proof (Hfree j x xm ltac:(lia) Hx Hxm). congruence. }
    pose proof (first_span_bounds T TV2) as Hb2. simpl shift in Hb2. change (2 ^ 8) with 256 in Hb2. change (size_of TV1) with 256 in Hk. assert (HR : R <= limit) by (unfold limit, back; lia).
    destruct (bool_decide (slot TV1 0 = 0) || bool_decide (slot TV1 k < slot TV1 0)) eqn:Hwrap.
    + destruct (next_levels_ok _ first_tj true R chain_ok) as (E' & En & H1 & H2 & H3 & H4); [done|intros l [= <-]; split; [apply tracks_first|simpl shift; change (2 ^ 8) with 256; lia]|].
      exists E'. split; [exact En|]. split; [done|lia|destruct H3 as [->|]; by right|]. intros x xm Dx Hx Hxm Hdef HDx. destruct (placed_level x Hx) as [(kx & Hi)|(l & kx & Hl & Hi)]; [pose proof (Htv1 x xm Dx kx Hi Hxm Hdef HDx); lia|by eapply H4].
    + exists R. split; [done|]. split; [done|done|by right|]. intros x xm Dx Hx Hxm Hdef HDx. destruct (placed_level x Hx) as [(kx & Hi)|(l & kx & Hl & Hi)]; [by eapply Htv1|].
      apply orb_false_iff in Hwrap as [Hz%bool_decide_eq_false Hwr%bool_decide_eq_false]. rewrite Z.add_0_r in Hz, Hwr. pose proof (not_wrapped T TV1 TV2 k Ha Hk Hz ltac:(lia)) as Hnw. rewrite first_span_tv1 in Hnw. change (size_of TV1) with 256 in Hnw.
      pose proof (due_after l kx x Dx Hi HDx). pose proof (first_span_mono T TV2 l (later_shift l Hl)) as Hmono. simpl shift in Hmono. change (2 ^ 8) with 256 in Hmono. lia.
  - assert (El : u32 T +u NEXT_TIMER_MAX_DELTA = u32 limit) by (rewrite u32_add_l; f_equal; unfold limit, back; change NEXT_TIMER_MAX_DELTA with (2 ^ 30 - 1); lia). rewrite El.
    destruct (next_levels_ok _ first_tj false limit chain_ok) as (E' & En & H1 & H2 & H3 & H4); [unfold limit, back; lia|intros l [= <-]; split; [apply tracks_first|done]|].
    exists E'. split; [exact En|]. split; [done|done|done|]. intros x xm Dx Hx Hxm Hdef HDx. destruct (placed_level x Hx) as [(kx & Hi)|(l & kx & Hl & Hi)]; [|by eapply H4].
    exfalso. destruct (slot_of TV1 kx x Hi) as (j & Hj & ->). pose proof (Hr j x xm Hj Hi Hxm). congruence.
Qed.

End search.

(** ** States of the code *)

(** No timer is pending that was set to a time over [2^30] jiffies back. *)
Definition recent (st : state) : bool :=
  forallb (fun p => negb (pending p.2) || bool_decide (- 2 ^ 30 <= s32 (expires p.2 - timer_jiffies (base st)))) (map_to_list (timers st)).

Lemma recent_ok st t tm : recent st = true -> timers st !! t = Some tm -> pending tm = true -> - 2 ^ 30 <= s32 (expires tm - timer_jiffies (base st)).
Proof.
  unfold recent. rewrite forallb_forall. intros H Htm Hp. specialize (H (t, tm)). simpl in H. rewrite Hp in H. simpl in H. eapply bool_decide_eq_true, H, list_elem_of_In. by apply elem_of_map_to_list.
Qed.

Lemma next_of_rep q st : rep q st -> recent st = true -> exists R, __next_timer_interrupt (timers st) (base st) = Some (u32 R) /\ next_event (next q) (due q) (timers st) (base st) R.
Proof.
  intros [Hc Ht Hj Hr] Hre. pose proof (wc_base _ _ _ _ _ Hc) as Hb. apply next_interrupt_ok; [done|..].
  - intros t Hp. destruct (placed_due _ _ _ _ _ Hb Hp) as [D HD]. destruct (wt_known _ _ _ _ _ Ht t D HD) as (tm & Htm & _). exists tm. split; [done|]. exact (wt_word _ _ _ _ _ Ht t tm Htm).
  - intros t tm D Hp Htm HD. apply (wt_exp _ _ _ _ _ Ht t tm D Htm HD). by apply (wc_apart _ _ _ _ _ Hc).
  - intros t tm Hp Htm. destruct (placed_due _ _ _ _ _ Hb Hp) as [D HD]. pose proof (wt_pending _ _ _ _ _ Ht t tm I Htm) as Hpe. rewrite HD in Hpe. pose proof (recent_ok st t tm Hre Htm Hpe) as Hx.
    rewrite (bw_time _ _ _ _ Hb), <- s32_u32, u32_sub_r, s32_u32 in Hx. unfold time_of, back. lia.
Qed.

(** The clock events of high resolution can only bring the event forward. *)
Lemma cmp_hrtimer_ok to_jiffies hr J R : J < R <= J + back -> exists R', cmp_next_hrtimer_event to_jiffies hr (u32 J) (u32 R) = u32 R' /\ J <= R' <= R /\ (hr = None -> R' = R).
Proof.
  intros H. unfold cmp_next_hrtimer_event. destruct hr as [d|]; [|exists R; split; [done|lia]]. case_bd as Hd; [exists (J + 1); rewrite u32_add_l; split; [done|]; split; [lia|done]|].
  set (k := if bool_decide (_ < 1) then 1 else _). assert (Hk : 1 <= k < back).
  { unfold k. change NEXT_TIMER_MAX_DELTA with (2 ^ 30 - 1). unfold back. case_bd; case_bd; lia. }
  rewrite u32_add_l, time_before_ok by (unfold two31, back in *; lia). case_bd; [exists (J + k)|exists R]; (split; [done|]; split; [lia|done]).
Qed.

Lemma get_next_ok to_jiffies hr q st R : rep q st -> now q - next q < back -> __next_timer_interrupt (timers st) (base st) = Some (u32 R) -> next q - back <= R <= next q + back - 1 ->
  exists R', get_next_timer_interrupt to_jiffies hr st (jiffies st) = Some (u32 R') /\ now q <= R' <= Z.max (now q) R /\ (hr = None -> R' = Z.max (now q) R).
Proof.
  intros [Hc Ht Hj Hr] Hlag E HR. unfold get_next_timer_interrupt. rewrite E. cbn -[two31]. rewrite Hj. unfold time_before_eq, time_after_eq.
  rewrite <- (s32_u32 (u32 (now q) - u32 R)), u32_sub_l, u32_sub_r, s32_u32, s32_small by (unfold two31, back in *; lia). case_bd; [exists (now q); split; [done|]; split; [lia|]; intros _; lia|].
  destruct (cmp_hrtimer_ok to_jiffies hr (now q) R) as (R' & -> & H1 & H2); [unfold two31, back in *; lia|]. exists R'. split; [done|]. split; [lia|]. intros Hn. rewrite (H2 Hn). lia.
Qed.

(** ** Claim *)

(** C29: a CPU that goes idle is not put to sleep past a timer.  The search for
    the next event ends with a time that is no later than any pending timer
    that cannot be deferred is due, by the queue that the calls made so far
    determine, and which is [2^30 - 1] jiffies ahead or else a time that some
    pending timer was set to; [get_next_timer_interrupt] returns it, or the present
    jiffy if it has passed, or an earlier time for the sake of a high-resolution
    timer.  (Timers were set to times at most [2^30] jiffies back, and less than
    [2^30] jiffies wait to be processed.) *)
Theorem next_timer_interrupt_safe j es st os : word j -> valid (boot j) es = true -> run (boot j) es = Some (st, os) ->
  recent st = true -> s32 (jiffies st - timer_jiffies (base st)) < 2 ^ 30 ->
  exists q R, qsteps (start j) es os q /\ represents q st /\
    __next_timer_interrupt (timers st) (base st) = Some (u32 R) /\ next q - 2 ^ 30 <= R <= next q + 2 ^ 30 - 1 /\
    (forall t tm D, timers st !! t = Some tm -> deferrable tm = false -> due q !! t = Some D -> t ∉ work_list st -> R <= D) /\
    (R = next q + 2 ^ 30 - 1 \/ exists t tm, timers st !! t = Some tm /\ pending tm = true /\ u32 R = expires tm) /\
    forall to_jiffies hr, exists R', get_next_timer_interrupt to_jiffies hr st (jiffies st) = Some (u32 R') /\
      now q <= R' <= Z.max (now q) R /\ (hr = None -> R' = Z.max (now q) R).
Proof.
  intros Hj Hv E Hre Hlag. destruct (sim_run es _ _ (start_rep j Hj) (start_times j) Hv) as (? & ? & q & E' & Hq & Hr & Hs). rewrite E in E'. injection E' as <- <-.
  destruct (next_of_rep q st Hr Hre) as (R & En & [H1 H2 H3 H4]). exists q, R. split; [done|]. split; [by apply rep_represents|]. split; [done|]. split; [exact (conj H1 H2)|]. rewrite (proj1 (rep_lag q st Hr)) in Hlag. pose proof Hr as [Hc Ht _ _]. split; [|split].
  - intros t tm D Htm Hd HD Hw. destruct (wc_all _ _ _ _ _ Hc t D HD) as [?|Hp]; [done|]. by eapply H4.
  - destruct H3 as [->|(t & tm & Hp & Htm & Hu)]; [by left|right]. exists t, tm. split; [done|]. split; [|done]. rewrite (wt_pending _ _ _ _ _ Ht t tm I Htm). apply bool_decide_eq_true_2. by eapply placed_due; [exact (wc_base _ _ _ _ _ Hc)|].
  - intros to_jiffies hr. by apply get_next_ok.
Qed.

Lemma next_timer_interrupt_safe_witness : exists st os,
  (word (two32 - 16) /\ valid (boot (two32 - 16)) [EInit 1%nat 0 true true; EMod 1%nat 5; EInit 2%nat 700 true false; EAdd 2%nat; ETicks 4] = true /\ recent st = true /\
   s32 (jiffies st - timer_jiffies (base st)) < 2 ^ 30) /\
  __next_timer_interrupt (timers st) (base st) = Some 700 /\
  exists q R, qsteps (start (two32 - 16)) [EInit 1%nat 0 true true; EMod 1%nat 5; EInit 2%nat 700 true false; EAdd 2%nat; ETicks 4] os q /\ represents q st /\
    __next_timer_interrupt (timers st) (base st) = Some (u32 R) /\ next q - 2 ^ 30 <= R <= next q + 2 ^ 30 - 1 /\
    (forall t tm D, timers st !! t = Some tm -> deferrable tm = false -> due q !! t = Some D -> t ∉ work_list st -> R <= D) /\
    (R = next q + 2 ^ 30 - 1 \/ exists t tm, timers st !! t = Some tm /\ pending tm = true /\ u32 R = expires tm) /\
    forall to_jiffies hr, exists R', get_next_timer_interrupt to_jiffies hr st (jiffies st) = Some (u32 R') /\
      now q <= R' <= Z.max (now q) R /\ (hr = None -> R' = Z.max (now q) R).
Proof.
  assert (H1 : word (two32 - 16)) by (unfold word, two32; lia).
  set (es := [EInit 1%nat 0 true true; EMod 1%nat 5; EInit 2%nat 700 true false; EAdd 2%nat; ETicks 4]).
  assert (H2 : valid (boot (two32 - 16)) es = true) by (vm_compute; reflexivity).
  destruct (run (boot (two32 - 16)) es) as [[st os]|] eqn:E; [|vm_compute in E; discriminate].
  assert (Hf : (fun p => (recent p.1, (bool_decide (s32 (jiffies p.1 - timer_jiffies (base p.1)) < 2 ^ 30), __next_timer_interrupt (timers p.1) (base p.1)))) <$> run (boot (two32 - 16)) es = Some (true, (true, Some 700))) by (vm_compute; reflexivity).
  rewrite E in Hf. cbn -[recent s32 __next_timer_interrupt Z.pow] in Hf. injection Hf as H3 H4 H5. apply bool_decide_eq_true in H4.
  exists st, os. split; [exact (conj H1 (conj H2 (conj H3 H4)))|]. split; [exact H5|]. exact (next_timer_interrupt_safe _ _ st os H1 H2 E H3 H4).
Defined.

End TimerNext.
