(* ===== verification/Idr.v ===== *)
(** * Identifiers: the idr

    [lib/idr.c] hands out small integers and keeps a pointer for each.  The ids
    are the leaves of a radix tree: a layer has 32 slots and a bitmap with a bit
    for every slot below which no id is free.  Layers come from a list of
    preallocated ones.  This file has the layers, the list and every operation
    of the idr; the sizes are those of a 32-bit kernel.

    Pointers are addresses, [None] is NULL.  Reading a layer that does not
    exist, writing past an array or a [BUG_ON] gives [None]. *)

From Stdlib Require Import ZArith Lia.
From stdpp Require Import base option gmap list.
From S2P Require Import Prelude.

Local Open Scope Z_scope.
Local Open Scope kernel_scope.

Module Idr.

Definition IDR_BITS : Z := 5.
Definition IDR_FULL : Z := 4294967295.
Definition IDR_SIZE : Z := Z.shiftl 1 IDR_BITS.
Definition IDR_MASK : Z := Z.shiftl 1 IDR_BITS - 1.
Definition MAX_ID_SHIFT : Z := 31.
Definition MAX_ID_BIT : Z := Z.shiftl 1 MAX_ID_SHIFT.
Definition MAX_ID_MASK : Z := MAX_ID_BIT - 1.
Definition MAX_LEVEL : Z := (MAX_ID_SHIFT + IDR_BITS - 1) / IDR_BITS.
Definition IDR_FREE_MAX : Z := MAX_LEVEL + MAX_LEVEL.
Definition IDR_NEED_TO_GROW : Z := -2.
Definition IDR_NOMORE_SPACE : Z := -3.
Definition ENOSPC : Z := 28.
Definition idr_rc_to_errno (rc : Z) : Z := if rc =? -1 then - EAGAIN else - ENOSPC.

Definition addr := positive.

(** A slot of [ary] that is NULL is not in the map. *)
Record idr_layer := mk_layer { bitmap : Z; ary : gmap Z addr; count : Z; layer : Z }.

(** The idr, with the memory its layers live in. *)
Record idr := mk_idr { top : option addr; id_free : option addr; layers : Z; id_free_cnt : Z; mem : gmap addr idr_layer }.

Definition zero_layer : idr_layer := mk_layer 0 ∅ 0 0.

Definition set_bitmap (x : idr_layer) (b : Z) : idr_layer := mk_layer b (ary x) (count x) (layer x).
Definition set_count (x : idr_layer) (c : Z) : idr_layer := mk_layer (bitmap x) (ary x) c (layer x).
Definition set_layer (x : idr_layer) (l : Z) : idr_layer := mk_layer (bitmap x) (ary x) (count x) l.
Definition set_slot (x : idr_layer) (n : Z) (p : option addr) : idr_layer :=
  mk_layer (bitmap x) (partial_alter (fun _ => p) n (ary x)) (count x) (layer x).

Definition set_mem (idp : idr) (m : gmap addr idr_layer) : idr :=
  mk_idr (top idp) (id_free idp) (layers idp) (id_free_cnt idp) m.
Definition set_top (idp : idr) (p : option addr) (ls : Z) : idr :=
  mk_idr p (id_free idp) ls (id_free_cnt idp) (mem idp).
Definition put (idp : idr) (p : addr) (x : idr_layer) : idr := set_mem idp (<[p := x]> (mem idp)).

(** The first bit of [bm] that is set, from [n] on and below [size]. *)
Fixpoint next_bit (k : nat) (bm n : Z) : Z :=
  match k with
  | O => n
  | S k => if Z.testbit bm n then n else next_bit k bm (n + 1)
  end.
Definition find_next_bit (bm size n : Z) : Z := if size <=? n then size else next_bit (Z.to_nat (size - n)) bm n.

Definition fls (x : Z) : Z := if x =? 0 then 0 else if x <? 0 then 32 else Z.log2 x + 1.

(** ** The list of free layers, chained through the first slot *)

Definition get_from_free_list (idp : idr) : option (idr * option addr) :=
  match id_free idp with
  | None => Some (idp, None)
  | Some p =>
      x ← mem idp !! p;
      Some (mk_idr (top idp) (ary x !! 0) (layers idp) (id_free_cnt idp - 1) (<[p := set_slot x 0 None]> (mem idp)), Some p)
  end.

(** [call_rcu] frees the layer once no reader can hold it; a second call for the
    same layer is an error. *)
Definition free_layer (idp : idr) (p : addr) : option idr :=
  _ ← mem idp !! p;
  Some (set_mem idp (delete p (mem idp))).

Definition kmem_cache_free := free_layer.

Definition move_to_free_list (idp : idr) (p : addr) : option idr :=
  x ← mem idp !! p;
  Some (mk_idr (top idp) (Some p) (layers idp) (id_free_cnt idp + 1) (<[p := set_slot x 0 (id_free idp)]> (mem idp))).

(** [zalloc] are the zeroed layers the slab allocator returns before it fails. *)
Fixpoint idr_pre_get (idp : idr) (zalloc : list addr) : option (idr * Z) :=
  if id_free_cnt idp <? IDR_FREE_MAX then
    match zalloc with
    | [] => Some (idp, 0)
    | new :: zalloc =>
        idp ← move_to_free_list (put idp new zero_layer) new;
        idr_pre_get idp zalloc
    end
  else Some (idp, 1).

(** ** Allocation *)

(** The layers on the way to an id: [pa[l]] is the one at level [l]; what was
    not written is not in the map. *)
Notation path := (gmap Z (option addr)).
Definition pa_set (pa : path) (l : Z) (p : option addr) : option path :=
  if bool_decide (0 <= l < MAX_LEVEL) then Some (<[l := p]> pa) else None.

Fixpoint mark_full_loop (fuel : nat) (idp : idr) (pa : path) (p : addr) (l id : Z) : option idr :=
  match fuel with
  | O => None
  | S fuel =>
      x ← mem idp !! p;
      if bitmap x =? IDR_FULL then
        v ← pa !! (l + 1);
        match v with
        | None => Some idp
        | Some p =>
            let id := Z.shiftr id IDR_BITS in
            x ← mem idp !! p;
            mark_full_loop fuel (put idp p (set_bitmap x (Z.setbit (bitmap x) (Z.land id IDR_MASK)))) pa p (l + 1) id
        end
      else Some idp
  end.

Definition idr_mark_full (idp : idr) (pa : path) (id : Z) : option idr :=
  v ← pa !! 0;
  p ← v;
  x ← mem idp !! p;
  mark_full_loop 8 (put idp p (set_bitmap x (Z.setbit (bitmap x) (Z.land id IDR_MASK)))) pa p 0 id.

(** What [sub_alloc] returns: the value, [*starting_id] and [pa]. *)
Definition alloc_result : Type := idr * Z * Z * path.

(** The layer below slot [m] of the layer [p] of level [l], created if it is missing;
    NULL if there is no free layer. *)
Definition make_child (idp : idr) (p : addr) (m l : Z) : option (idr * option addr) :=
  x ← mem idp !! p;
  match ary x !! m with
  | Some c => Some (idp, Some c)
  | None =>
      r ← get_from_free_list idp;
      match r with
      | (idp, None) => Some (idp, None)
      | (idp, Some new) =>
          y ← mem idp !! new;
          let idp := put idp new (set_layer y (l - 1)) in
          x ← mem idp !! p;
          Some (put idp p (set_count (set_slot x m (Some new)) (count x + 1)), Some new)
      end
  end.

Fixpoint sub_alloc_loop (fuel : nat) (idp : idr) (starting_id : Z) (pa : path) (p : addr) (l id : Z) : option alloc_result :=
  match fuel with
  | O => None
  | S fuel =>
      x ← mem idp !! p;
      let n := Z.land (Z.shiftr id (IDR_BITS * l)) IDR_MASK in
      let m := find_next_bit (Z.lxor IDR_FULL (bitmap x)) IDR_SIZE n in
      if m =? IDR_SIZE then
        let l := l + 1 in
        let oid := id in
        let id := s32 (Z.lor id (Z.shiftl 1 (IDR_BITS * l) - 1) + 1) in
        v ← pa !! l;
        match v with
        | None => Some (idp, IDR_NEED_TO_GROW, id, pa)
        | Some p =>
            let sh := IDR_BITS * (l + 1) in
            if Z.shiftr oid sh =? Z.shiftr id sh then sub_alloc_loop fuel idp starting_id pa p l id
            else
              p ← top idp;
              pa ← pa_set pa (layers idp) None;
              sub_alloc_loop fuel idp starting_id pa p (layers idp - 1) id
        end
      else
        let id := if m =? n then id else s32 (Z.shiftl (Z.lxor (Z.lxor (Z.shiftr id (IDR_BITS * l)) n) m) (IDR_BITS * l)) in
        if (MAX_ID_BIT <=? u32 id) || (id <? 0) then Some (idp, IDR_NOMORE_SPACE, starting_id, pa)
        else if l =? 0 then pa ← pa_set pa l (Some p); Some (idp, id, starting_id, pa)
        else
          r ← make_child idp p m l;
          match r with
          | (idp, None) => Some (idp, -1, starting_id, pa)
          | (idp, Some c) =>
              pa ← pa_set pa l (Some p);
              sub_alloc_loop fuel idp starting_id pa c (l - 1) id
          end
  end.

Definition sub_alloc (idp : idr) (starting_id : Z) (pa : path) : option alloc_result :=
  p ← top idp;
  pa ← pa_set pa (layers idp) None;
  sub_alloc_loop 64 idp starting_id pa p (layers idp - 1) starting_id.

(** The layers built so far go back to the list of free ones. *)
Fixpoint tear_down (fuel : nat) (idp : idr) (p : option addr) : option idr :=
  match fuel with
  | O => None
  | S fuel =>
      match p with
      | Some new =>
          if bool_decide (top idp = Some new) then Some idp else
            x ← mem idp !! new;
            idp ← move_to_free_list (put idp new (set_count (set_bitmap (set_slot x 0 None) 0) 0)) new;
            tear_down fuel idp (ary x !! 0)
      | None => Some idp
      end
  end.

(** The loop that adds layers at the top; [None] for the layer when one is missing. *)
Fixpoint grow_loop (fuel : nat) (idp : idr) (p : addr) (layers id : Z) : option (idr * option addr * Z) :=
  match fuel with
  | O => None
  | S fuel =>
      if (layers <? MAX_LEVEL - 1) && (Z.shiftl 1 (layers * IDR_BITS) <=? id) then
        let layers := layers + 1 in
        x ← mem idp !! p;
        if count x =? 0 then grow_loop fuel (put idp p (set_layer x (layer x + 1))) p layers id
        else
          r ← get_from_free_list idp;
          match r with
          | (idp, None) => idp ← tear_down 8 idp (Some p); Some (idp, None, layers)
          | (idp, Some new) =>
              y ← mem idp !! new;
              let y := set_layer (set_count (set_slot y 0 (Some p)) 1) (layers - 1) in
              let y := if bitmap x =? IDR_FULL then set_bitmap y (Z.setbit (bitmap y) 0) else y in
              grow_loop fuel (put idp new y) new layers id
          end
      else Some (idp, Some p, layers)
  end.

(** The top layer, or a first one. *)
Definition first_layer (idp : idr) : option (idr * option addr * Z) :=
  match top idp with
  | Some p => Some (idp, Some p, layers idp)
  | None =>
      r ← get_from_free_list idp;
      match r with
      | (idp, None) => Some (idp, None, layers idp)
      | (idp, Some p) => x ← mem idp !! p; Some (put idp p (set_layer x 0), Some p, 1)
      end
  end.

(** [build_up] is entered again each time the tree has to grow. *)
Fixpoint build_up (fuel : nat) (idp : idr) (id : Z) (pa : path) : option (idr * Z * path) :=
  match fuel with
  | O => None
  | S fuel =>
      r ← first_layer idp;
      match r with
      | (idp, None, _) => Some (idp, -1, pa)
      | (idp, Some p, ls) =>
          r ← grow_loop 8 idp p ls id;
          match r with
          | (idp, None, _) => Some (idp, -1, pa)
          | (idp, Some p, ls) =>
              r ← sub_alloc (set_top idp (Some p) ls) id pa;
              match r with
              | (idp, v, id, pa) => if v =? IDR_NEED_TO_GROW then build_up fuel idp id pa else Some (idp, v, pa)
              end
          end
      end
  end.

Definition idr_get_empty_slot (idp : idr) (starting_id : Z) (pa : path) : option (idr * Z * path) :=
  build_up 8 idp starting_id pa.

Definition idr_get_new_above_int (idp : idr) (ptr : option addr) (starting_id : Z) : option (idr * Z) :=
  r ← idr_get_empty_slot idp starting_id ∅;
  match r with
  | (idp, id, pa) =>
      if 0 <=? id then
        v ← pa !! 0;
        p ← v;
        x ← mem idp !! p;
        idp ← idr_mark_full (put idp p (set_count (set_slot x (Z.land id IDR_MASK) ptr) (count x + 1))) pa id;
        Some (idp, id)
      else Some (idp, id)
  end.

(** The return value, and the id where it is 0. *)
Definition idr_get_new_above (idp : idr) (ptr : option addr) (starting_id : Z) : option (idr * Z * option Z) :=
  r ← idr_get_new_above_int idp ptr starting_id;
  match r with
  | (idp, rv) => if rv <? 0 then Some (idp, idr_rc_to_errno rv, None) else Some (idp, 0, Some rv)
  end.

Definition idr_get_new (idp : idr) (ptr : option addr) : option (idr * Z * option Z) :=
  r ← idr_get_new_above_int idp ptr 0;
  match r with
  | (idp, rv) => if rv <? 0 then Some (idp, idr_rc_to_errno rv, None) else Some (idp, 0, Some rv)
  end.

(** ** Removal *)

(** Where a pointer to a layer is kept. *)
Inductive slot_loc := TopSlot | ArySlot (p : addr) (n : Z).

Definition read_slot (idp : idr) (s : slot_loc) : option (option addr) :=
  match s with
  | TopSlot => Some (top idp)
  | ArySlot p n => x ← mem idp !! p; Some (ary x !! n)
  end.

Definition clear_slot (idp : idr) (s : slot_loc) : option idr :=
  match s with
  | TopSlot => Some (set_top idp None (layers idp))
  | ArySlot p n => x ← mem idp !! p; Some (put idp p (set_slot x n None))
  end.

(** The first loop of [sub_remove]; [paa] is the stack of slots, innermost first. *)
Fixpoint remove_down (fuel : nat) (idp : idr) (p : option addr) (shift id : Z) (paa : list slot_loc) : option (idr * option addr * list slot_loc) :=
  match fuel with
  | O => None
  | S fuel =>
      match p with
      | Some p =>
          if 0 <? shift then
            let n := Z.land (Z.shiftr id shift) IDR_MASK in
            x ← mem idp !! p;
            if bool_decide (Z.of_nat (length paa) + 1 < MAX_LEVEL) then
              remove_down fuel (put idp p (set_bitmap x (Z.clearbit (bitmap x) n))) (ary x !! n) (shift - IDR_BITS) id (ArySlot p n :: paa)
            else None
          else Some (idp, Some p, paa)
      | None => Some (idp, None, paa)
      end
  end.

Definition free_opt (idp : idr) (p : option addr) : option idr :=
  match p with Some p => free_layer idp p | None => Some idp end.

(** The second loop: layers whose last id is gone are taken out. *)
Fixpoint remove_up (idp : idr) (paa : list slot_loc) (to_free : option addr) : option (idr * list slot_loc * option addr) :=
  match paa with
  | [] => Some (idp, [], to_free)
  | s :: rest =>
      v ← read_slot idp s;
      p ← v;
      x ← mem idp !! p;
      let idp := put idp p (set_count x (count x - 1)) in
      if count x - 1 =? 0 then
        idp ← free_opt idp to_free;
        idp ← clear_slot idp s;
        remove_up idp rest (Some p)
      else Some (idp, paa, to_free)
  end.

(** The flag says that the warning was printed. *)
Definition sub_remove (idp : idr) (shift id : Z) : option (idr * bool) :=
  r ← remove_down 8 idp (top idp) shift id [TopSlot];
  match r with
  | (idp, None, _) => Some (idp, true)
  | (idp, Some p, paa) =>
      let n := Z.land id IDR_MASK in
      x ← mem idp !! p;
      if Z.testbit (bitmap x) n then
        r ← remove_up (put idp p (set_slot (set_bitmap x (Z.clearbit (bitmap x) n)) n None)) paa None;
        match r with
        | (idp, paa, to_free) =>
            let idp := match paa with [] => set_top idp (top idp) 0 | _ => idp end in
            idp ← free_opt idp to_free;
            Some (idp, false)
        end
      else Some (idp, true)
  end.

Fixpoint trim_loop (fuel : nat) (idp : idr) : option idr :=
  match fuel with
  | O => None
  | S fuel =>
      if IDR_FREE_MAX <=? id_free_cnt idp then
        r ← get_from_free_list idp;
        match r with
        | (idp, Some p) => idp ← kmem_cache_free idp p; trim_loop fuel idp
        | (_, None) => None
        end
      else Some idp
  end.

(** A single child in the first slot of the top: the top is not needed. *)
Definition shrink (idp : idr) : option idr :=
  match top idp with
  | None => Some idp
  | Some t =>
      x ← mem idp !! t;
      match ary x !! 0 with
      | Some p =>
          if (count x =? 1) && (1 <? layers idp) then free_layer (set_top idp (Some p) (layers idp - 1)) t else Some idp
      | None => Some idp
      end
  end.

Definition idr_remove (idp : idr) (id : Z) : option (idr * bool) :=
  let id := Z.land id MAX_ID_MASK in
  r ← sub_remove idp ((layers idp - 1) * IDR_BITS) id;
  match r with
  | (idp, warned) =>
      idp ← shrink idp;
      idp ← trim_loop (S (Z.to_nat (id_free_cnt idp))) idp;
      Some (idp, warned)
  end.

Fixpoint destroy_loop (fuel : nat) (idp : idr) : option idr :=
  match fuel with
  | O => None
  | S fuel =>
      if id_free_cnt idp =? 0 then Some idp
      else
        r ← get_from_free_list idp;
        match r with
        | (idp, Some p) => idp ← kmem_cache_free idp p; destroy_loop fuel idp
        | (_, None) => None
        end
  end.
Definition idr_destroy (idp : idr) : option idr := destroy_loop (S (Z.to_nat (id_free_cnt idp))) idp.

(** ** Lookup *)

Fixpoint lookup_loop (fuel : nat) (idp : idr) (p : option addr) (n id : Z) : option (option addr) :=
  match fuel with
  | O => None
  | S fuel =>
      match p with
      | Some q =>
          if 0 <? n then
            let n := n - IDR_BITS in
            x ← mem idp !! q;
            if n =? layer x * IDR_BITS then lookup_loop fuel idp (ary x !! Z.land (Z.shiftr id n) IDR_MASK) n id else None
          else Some p
      | None => Some None
      end
  end.

Definition idr_find (idp : idr) (id : Z) : option (option addr) :=
  match top idp with
  | None => Some None
  | Some p =>
      x ← mem idp !! p;
      let n := (layer x + 1) * IDR_BITS in
      let id := Z.land id MAX_ID_MASK in
      if Z.shiftl 1 n <=? id then Some None
      else if n =? 0 then None
      else lookup_loop 8 idp (Some p) n id
  end.

Fixpoint replace_loop (fuel : nat) (idp : idr) (p : option addr) (n id : Z) : option (option addr) :=
  match fuel with
  | O => None
  | S fuel =>
      match p with
      | Some q =>
          if 0 <? n then x ← mem idp !! q; replace_loop fuel idp (ary x !! Z.land (Z.shiftr id n) IDR_MASK) (n - IDR_BITS) id
          else Some p
      | None => Some None
      end
  end.

(** The old pointer, or [ERR_PTR]. *)
Definition idr_replace (idp : idr) (ptr : option addr) (id : Z) : option (idr * (Z + option addr)) :=
  match top idp with
  | None => Some (idp, inl (- EINVAL))
  | Some p =>
      x ← mem idp !! p;
      let n := (layer x + 1) * IDR_BITS in
      let id := Z.land id MAX_ID_MASK in
      if Z.shiftl 1 n <=? id then Some (idp, inl (- EINVAL))
      else
        v ← replace_loop 8 idp (Some p) (n - IDR_BITS) id;
        match v with
        | None => Some (idp, inl (- ENOENT))
        | Some p =>
            x ← mem idp !! p;
            let n := Z.land id IDR_MASK in
            if Z.testbit (bitmap x) n then Some (put idp p (set_slot x n ptr), inr (ary x !! n))
            else Some (idp, inl (- ENOENT))
        end
  end.

(** ** Walks over the whole tree *)

(** The stack [pa] of a walk, innermost layer first.  Reading below it gives
    what is there, [stray]. *)
Definition pop (stray : option addr) (paa : list addr) : option addr * list addr :=
  match paa with [] => (stray, []) | p :: paa => (Some p, paa) end.

(** Down until [n] is at most [floor] or a slot is NULL. *)
Fixpoint walk_down (fuel : nat) (idp : idr) (floor n id : Z) (p : option addr) (paa : list addr) : option (Z * option addr * list addr) :=
  match fuel with
  | O => None
  | S fuel =>
      match p with
      | Some q =>
          if floor <? n then
            let n := n - IDR_BITS in
            x ← mem idp !! q;
            if bool_decide (Z.of_nat (length paa) < MAX_LEVEL) then
              walk_down fuel idp floor n id (ary x !! Z.land (Z.shiftr id n) IDR_MASK) (q :: paa)
            else None
          else Some (n, p, paa)
      | None => Some (n, None, paa)
      end
  end.

Section for_each.
Context {D : Type} (fn : Z -> addr -> D -> Z * D) (stray : option addr).

Fixpoint each_up (fuel : nat) (n id : Z) (p : option addr) (paa : list addr) : option (Z * option addr * list addr) :=
  match fuel with
  | O => None
  | S fuel =>
      if n <? fls id then let '(p, paa) := pop stray paa in each_up fuel (n + IDR_BITS) id p paa
      else Some (n, p, paa)
  end.

(** [id], [n], [p] and the stack are the state of the walk, [data] what the
    callback keeps. *)
Fixpoint each_loop (fuel : nat) (idp : idr) (max n id : Z) (p : option addr) (paa : list addr) (data : D) : option (Z * D) :=
  if id <? max then
    match fuel with
    | O => None
    | S fuel =>
        r ← walk_down 8 idp 0 n id p paa;
        match r with
        | (n, p, paa) =>
            let '(error, data) := match p with Some q => fn id q data | None => (0, data) end in
            if error =? 0 then
              let id := id + Z.shiftl 1 n in
              r ← each_up 8 n id p paa;
              match r with (n, p, paa) => each_loop fuel idp max n id p paa data end
            else Some (error, data)
        end
    end
  else Some (0, data).

Definition idr_for_each (idp : idr) (data : D) : option (Z * D) :=
  let n := layers idp * IDR_BITS in
  let max := Z.shiftl 1 n in
  each_loop (Z.to_nat max) idp max n 0 (top idp) [] data.
End for_each.

Fixpoint remove_all_up (fuel : nat) (stray : option addr) (idp : idr) (n id : Z) (p : option addr) (paa : list addr) : option (idr * Z * option addr * list addr) :=
  match fuel with
  | O => None
  | S fuel =>
      if n <? fls id then
        idp ← free_opt idp p;
        let '(p, paa) := pop stray paa in remove_all_up fuel stray idp (n + IDR_BITS) id p paa
      else Some (idp, n, p, paa)
  end.

Fixpoint remove_all_loop (fuel : nat) (stray : option addr) (idp : idr) (max n id : Z) (p : option addr) (paa : list addr) : option idr :=
  if id <? max then
    match fuel with
    | O => None
    | S fuel =>
        r ← walk_down 8 idp IDR_BITS n id p paa;
        match r with
        | (n, p, paa) =>
            let id := id + Z.shiftl 1 n in
            r ← remove_all_up 8 stray idp n id p paa;
            match r with (idp, n, p, paa) => remove_all_loop fuel stray idp max n id p paa end
        end
    end
  else Some idp.

Definition idr_remove_all (stray : option addr) (idp : idr) : option idr :=
  let n := layers idp * IDR_BITS in
  let max := Z.shiftl 1 n in
  idp' ← remove_all_loop (Z.to_nat max) stray (set_top idp None (layers idp)) max n 0 (top idp) [];
  Some (set_top idp' (top idp') 0).

(** [idr_init]: a zeroed handle. *)
Definition idr_init (m : gmap addr idr_layer) : idr := mk_idr None None 0 0 m.

End Idr.
