(* ===== verification/IdrInv.v ===== *)
(** * The idr: its tree and its invariant

    Ids are grouped by prefixes: at level [l] a layer has the ids with the same
    [anc l].  The invariant places each layer at a level and a prefix, and
    relates slots, counts and bitmaps to the ids that are taken. *)

From Stdlib Require Import ZArith Lia.
From stdpp Require Import base option gmap list list_numbers.
From S2P Require Import Prelude Idr.

Local Open Scope Z_scope.
Local Open Scope kernel_scope.

Module IdrInv.
Import Idr.

Ltac dlia := Z.div_mod_to_equations; lia.

(** ** Prefixes of ids *)

(** The prefix of [i] that selects a layer of level [l]; at level -1 the id itself. *)
Definition anc (l i : Z) : Z := Z.shiftr i (5 * (l + 1)).
(** The ids below one slot at level [l + 1], and the first id with a prefix. *)
Definition width (l : Z) : Z := 2 ^ (5 * (l + 1)).
Definition lo (l c : Z) : Z := c * width l.

Lemma width_pos l : -1 <= l -> 0 < width l.
Proof. intros. apply Z.pow_pos_nonneg; lia. Qed.

Lemma width_succ l : -1 <= l -> width (l + 1) = 32 * width l.
Proof.
  intros. unfold width. replace (5 * (l + 1 + 1)) with (5 + 5 * (l + 1)) by lia.
  rewrite Z.pow_add_r by lia. reflexivity.
Qed.

Lemma anc_width l i : -1 <= l -> anc l i = i / width l.
Proof. intros. unfold anc, width. apply Z.shiftr_div_pow2. lia. Qed.

Lemma anc_m1 i : anc (-1) i = i.
Proof. reflexivity. Qed.

Lemma anc_succ l i : -1 <= l -> anc (l + 1) i = anc l i / 32.
Proof.
  intros. rewrite !anc_width, width_succ by lia. rewrite Z.mul_comm.
  rewrite <- Z.div_div; [done| |lia]. pose proof (width_pos l). lia.
Qed.

Lemma anc_pred l i : 0 <= l -> anc l i = anc (l - 1) i / 32.
Proof. intros. rewrite <- anc_succ by lia. f_equal. lia. Qed.

Lemma anc_spec l i c : -1 <= l -> anc l i = c <-> lo l c <= i < lo l (c + 1).
Proof.
  intros Hl. rewrite anc_width by done. unfold lo. pose proof (width_pos l Hl) as Hw.
  rewrite Z.mul_add_distr_r. split; intros H.
  - subst c. pose proof (Z.div_mod i (width l) ltac:(lia)). pose proof (Z.mod_pos_bound i (width l) Hw). lia.
  - symmetry. apply (Z.div_unique _ _ _ (i - c * width l)); lia.
Qed.

Lemma anc_mono l i j : -1 <= l -> i <= j -> anc l i <= anc l j.
Proof. intros. rewrite !anc_width by done. apply Z.div_le_mono; [by apply width_pos|done]. Qed.

Lemma lo_succ l c : -1 <= l -> lo (l + 1) c = lo l (32 * c).
Proof. intros. unfold lo. rewrite width_succ by done. lia. Qed.

Lemma lo_pred l c : 0 <= l -> lo l c = lo (l - 1) (32 * c).
Proof. intros. rewrite <- lo_succ by lia. f_equal. lia. Qed.

Lemma lo_mono l c d : -1 <= l -> c <= d -> lo l c <= lo l d.
Proof. intros Hl ?. unfold lo. pose proof (width_pos l Hl). nia. Qed.

Lemma anc_lo l c : -1 <= l -> anc l (lo l c) = c.
Proof. intros. apply anc_spec; [done|]. unfold lo. pose proof (width_pos l). lia. Qed.

Lemma lo_anc l i : -1 <= l -> lo l (anc l i) <= i < lo l (anc l i + 1).
Proof. intros. by apply anc_spec. Qed.

Lemma anc_nonneg l i : 0 <= i -> 0 <= anc l i.
Proof. intros. by apply Z.shiftr_nonneg. Qed.

(** The slot of an id in its layer of level [l]. *)
Definition digit (l i : Z) : Z := anc (l - 1) i mod 32.

Lemma digit_range l i : 0 <= digit l i < 32.
Proof. apply Z.mod_pos_bound. lia. Qed.

Lemma digit_spec l i : 0 <= l -> 32 * anc l i + digit l i = anc (l - 1) i.
Proof. intros. rewrite (anc_pred l) by done. unfold digit. pose proof (Z.div_mod (anc (l - 1) i) 32). lia. Qed.

Lemma digit_code l i : 0 <= l -> Z.land (Z.shiftr i (IDR_BITS * l)) IDR_MASK = digit l i.
Proof.
  intros. unfold digit, anc, IDR_BITS. change IDR_MASK with (2 ^ 5 - 1).
  rewrite land_pow2_mask by lia. change (2 ^ 5) with 32. do 2 f_equal. lia.
Qed.

Lemma digit_leaf i : Z.land i IDR_MASK = digit 0 i.
Proof. rewrite <- digit_code by lia. reflexivity. Qed.

Lemma add_disjoint a b k : 0 <= k -> 0 <= b < 2 ^ k -> Z.land (Z.shiftl a k) b = 0.
Proof.
  intros Hk Hb. apply Z.bits_inj'. intros j Hj. rewrite Z.land_spec, Z.bits_0.
  destruct (decide (j < k)).
  - by rewrite Z.shiftl_spec_low.
  - rewrite <- (Z.mod_small b (2 ^ k)) by lia. rewrite Z.mod_pow2_bits_high by lia. apply andb_false_r.
Qed.

(** What [(id | ones) + 1] and the exchange of a digit give. *)
Lemma carry_code l i : 0 <= l -> Z.lor i (Z.shiftl 1 (IDR_BITS * l) - 1) + 1 = lo (l - 1) (anc (l - 1) i + 1).
Proof.
  intros. unfold lo, width, anc, IDR_BITS. replace (l - 1 + 1) with l by lia.
  set (k := 5 * l). assert (0 <= k) by lia. assert (0 < 2 ^ k) by (apply Z.pow_pos_nonneg; lia).
  rewrite (Z.shiftl_mul_pow2 1), Z.mul_1_l by lia.
  assert (Z.lor i (2 ^ k - 1) = Z.lor (Z.shiftl (Z.shiftr i k) k) (2 ^ k - 1)) as ->.
  { change (2 ^ k - 1) with (Z.pred (2 ^ k)). rewrite <- Z.ones_equiv. apply Z.bits_inj'. intros j Hj.
    rewrite !Z.lor_spec. destruct (decide (j < k)).
    - rewrite Z.ones_spec_low by lia. by rewrite !orb_true_r.
    - rewrite Z.shiftl_spec, Z.shiftr_spec by lia. do 2 f_equal. lia. }
  pose proof (Z.add_lor_land (Z.shiftl (Z.shiftr i k) k) (2 ^ k - 1)) as E.
  rewrite add_disjoint in E by lia. rewrite Z.shiftl_mul_pow2 in * by lia. lia.
Qed.

Lemma exchange_code l i m : 0 <= l -> 0 <= m < 32 ->
  Z.shiftl (Z.lxor (Z.lxor (Z.shiftr i (IDR_BITS * l)) (digit l i)) m) (IDR_BITS * l) = lo (l - 1) (32 * anc l i + m).
Proof.
  intros Hl Hm. rewrite (anc_pred l) by done. unfold lo, width, digit, anc, IDR_BITS. replace (l - 1 + 1) with l by lia.
  set (x := Z.shiftr i (5 * l)). rewrite Z.shiftl_mul_pow2 by lia. f_equal.
  assert (Z.lxor x (x mod 32) = Z.shiftl (Z.shiftr x 5) 5) as ->.
  { change 32 with (2 ^ 5). apply Z.bits_inj'. intros j Hj. rewrite Z.lxor_spec. destruct (decide (j < 5)).
    - rewrite Z.mod_pow2_bits_low, Z.shiftl_spec_low by lia. apply xorb_nilpotent.
    - rewrite Z.mod_pow2_bits_high, Z.shiftl_spec, Z.shiftr_spec, xorb_false_r by lia. f_equal. lia. }
  rewrite <- Z.add_nocarry_lxor by (apply add_disjoint; simpl; lia).
  rewrite Z.shiftl_mul_pow2, Z.shiftr_div_pow2 by lia. change (2 ^ 5) with 32. lia.
Qed.

(** ** Bitmaps *)

(** No id below the prefix [c] of level [l] is outside [F]. *)
Definition full (F : gset Z) (l c : Z) : Prop := forall i, anc l i = c -> i ∈ F.

Lemma full_leaf F i : full F (-1) i <-> i ∈ F.
Proof. unfold full. split; [intros H; by apply H|]. intros ? j ?. by rewrite anc_m1 in *; subst. Qed.

Lemma full_slots F l c : 0 <= l -> full F l c <-> forall n, 0 <= n < 32 -> full F (l - 1) (32 * c + n).
Proof.
  intros Hl. split.
  - intros Hf n Hn i Hi. apply Hf. rewrite anc_pred by done. rewrite Hi. dlia.
  - intros Hf i Hi. apply (Hf (digit l i)); [apply digit_range|]. rewrite <- Hi. symmetry. by apply digit_spec.
Qed.

Lemma full_lo F l c : -1 <= l -> full F l c -> lo l c ∈ F.
Proof. intros ? Hf. apply Hf. by apply anc_lo. Qed.

(** Bit [n] of the bitmap of the layer [(l, q)]. *)
Definition bits_ok (F : gset Z) (l q : Z) (b : Z) : Prop :=
  0 <= b < two32 /\ forall n, 0 <= n < 32 -> Z.testbit b n = true <-> full F (l - 1) (32 * q + n).

Lemma word_full b : 0 <= b < two32 -> b = IDR_FULL <-> forall n, 0 <= n < 32 -> Z.testbit b n = true.
Proof.
  intros Hb. split.
  - intros -> n Hn. change IDR_FULL with (Z.ones 32). rewrite Z.ones_spec_low; lia.
  - intros H. change IDR_FULL with (Z.ones 32). apply Z.bits_inj'. intros j Hj. destruct (decide (j < 32)).
    + rewrite H, Z.ones_spec_low; lia.
    + rewrite Z.ones_spec_high by lia. change two32 with (2 ^ 32) in Hb. rewrite <- (Z.mod_small b (2 ^ 32)) by lia.
      apply Z.mod_pow2_bits_high. lia.
Qed.

Lemma bits_full F l q b : 0 <= l -> bits_ok F l q b -> b = IDR_FULL <-> full F l q.
Proof.
  intros Hl [Hb Hs]. rewrite word_full by done. rewrite full_slots by done.
  split; intros H n Hn; apply Hs; auto.
Qed.

Lemma word_range b : 0 <= b -> b < two32 <-> forall j, 32 <= j -> Z.testbit b j = false.
Proof. intros. change two32 with (2 ^ 32). apply Z.bounded_iff_bits_nonneg; lia. Qed.

Lemma setbit_range b n : 0 <= b < two32 -> 0 <= n < 32 -> 0 <= Z.setbit b n < two32.
Proof.
  intros [Hb Hb'] Hn. assert (0 <= Z.setbit b n) as H0.
  { rewrite Z.setbit_spec'. apply Z.lor_nonneg. split; [lia|]. apply Z.pow_nonneg; lia. }
  split; [done|]. apply word_range; [done|]. intros j Hj. rewrite Z.setbit_neq by lia. apply (proj1 (word_range b Hb) Hb' j Hj).
Qed.

Lemma clearbit_range b n : 0 <= b < two32 -> 0 <= n -> 0 <= Z.clearbit b n < two32.
Proof.
  intros [Hb Hb'] Hn. assert (0 <= Z.clearbit b n) as H0.
  { rewrite Z.clearbit_spec'. apply Z.ldiff_nonneg. lia. }
  split; [done|]. apply word_range; [done|]. intros j Hj. rewrite Z.clearbit_eqb.
  by rewrite (proj1 (word_range b Hb) Hb' j Hj).
Qed.

Lemma next_bit_spec k bm n : let m := next_bit k bm n in
  n <= m <= n + Z.of_nat k /\ (forall j, n <= j < m -> Z.testbit bm j = false) /\ (m < n + Z.of_nat k -> Z.testbit bm m = true).
Proof.
  revert n. induction k as [|k IH]; intros n; simpl.
  { split_and!; intros; lia. }
  destruct (Z.testbit bm n) eqn:E.
  { split_and!; intros; try lia; done. }
  destruct (IH (n + 1)) as (H1 & H2 & H3). split_and!; [lia|lia| |].
  - intros j Hj. destruct (decide (j = n)) as [->|]; [done|]. apply H2. lia.
  - intros. apply H3. lia.
Qed.

(** The slot a search goes on with: the first one that is not full. *)
Lemma next_free_spec F l q b n : bits_ok F l q b -> 0 <= n < 32 ->
  let m := find_next_bit (Z.lxor IDR_FULL b) IDR_SIZE n in
  n <= m <= 32 /\ (forall k, n <= k < m -> full F (l - 1) (32 * q + k)) /\ (m < 32 -> ~ full F (l - 1) (32 * q + m)).
Proof.
  intros [Hb Hs] Hn. unfold find_next_bit. change IDR_SIZE with 32. destruct (Z.leb_spec 32 n); [lia|].
  pose proof (next_bit_spec (Z.to_nat (32 - n)) (Z.lxor IDR_FULL b) n) as H1. cbv zeta in *.
  set (m := next_bit _ _ _) in *. destruct H1 as (H1 & H2 & H3).
  assert (forall j, 0 <= j < 32 -> Z.testbit (Z.lxor IDR_FULL b) j = negb (Z.testbit b j)) as Hx.
  { intros j Hj. rewrite Z.lxor_spec. change IDR_FULL with (Z.ones 32). by rewrite Z.ones_spec_low by lia. }
  split_and!; [lia|lia| |].
  - intros k Hk. apply Hs; [lia|]. specialize (H2 k ltac:(lia)). rewrite Hx in H2 by lia. by destruct (Z.testbit b k).
  - intros Hm Hf. specialize (H3 ltac:(lia)). rewrite Hx in H3 by lia. apply Hs in Hf; [|lia]. by rewrite Hf in H3.
Qed.

(** ** Counting slots *)

Fixpoint cnt (f : Z -> bool) (ns : list Z) : Z :=
  match ns with [] => 0 | n :: ns => (if f n then 1 else 0) + cnt f ns end.

Lemma cnt_nonneg f ns : 0 <= cnt f ns.
Proof. induction ns as [|n ns IH]; simpl; [done|]. destruct (f n); lia. Qed.

Lemma cnt_ext f g ns : (forall n, n ∈ ns -> f n = g n) -> cnt f ns = cnt g ns.
Proof.
  induction ns as [|n ns IH]; intros H; simpl; [done|]. rewrite (H n) by left. rewrite IH; [done|].
  intros m Hm. apply H. by right.
Qed.

Lemma cnt_zero f ns : cnt f ns = 0 -> forall n, n ∈ ns -> f n = false.
Proof.
  induction ns as [|m ns IH]; intros H n Hn; [by apply not_elem_of_nil in Hn|]. simpl in H.
  pose proof (cnt_nonneg f ns). apply elem_of_cons in Hn as [->|Hn]; destruct (f m) eqn:E; try lia; auto.
Qed.

Lemma cnt_more f g ns k : NoDup ns -> k ∈ ns -> f k = false -> g k = true -> (forall n, n ∈ ns -> n <> k -> f n = g n) ->
  cnt g ns = cnt f ns + 1.
Proof.
  induction ns as [|m ns IH]; intros Hd Hk Hf Hg H; [by apply not_elem_of_nil in Hk|].
  apply NoDup_cons in Hd as [Hm Hd]. simpl. destruct (decide (m = k)) as [->|Hne].
  - rewrite Hf, Hg. rewrite (cnt_ext f g ns); [lia|]. intros n Hn. apply H; [by right|]. by intros ->.
  - apply elem_of_cons in Hk as [->|Hk]; [done|]. rewrite (H m) by (left || done).
    rewrite IH; [lia|done..|]. intros n Hn. apply H. by right.
Qed.

Lemma cnt_one f ns k : NoDup ns -> k ∈ ns -> f k = true -> cnt f ns = 1 -> forall n, n ∈ ns -> n <> k -> f n = false.
Proof.
  intros Hd Hk Hf H1 n Hn Hne. set (g := fun n => if decide (n = k) then false else f n).
  assert (cnt f ns = cnt g ns + 1) as E.
  { apply (cnt_more g f ns k); [done|done| |done|]; unfold g; intros; by case_decide. }
  pose proof (cnt_zero g ns ltac:(lia) n Hn) as Hg. unfold g in Hg. by case_decide.
Qed.

Definition slots32 : list Z := seqZ 0 32.

Lemma elem_of_slots32 n : n ∈ slots32 <-> 0 <= n < 32.
Proof. unfold slots32. rewrite elem_of_seqZ. lia. Qed.

Lemma NoDup_slots32 : NoDup slots32.
Proof. apply NoDup_seqZ. Qed.

(** ** The invariant *)

(** [A] says where the layers are, [U] what the taken ids are registered with.
    In the idr the full slots of the lowest layers are the taken ones; the
    allocator of [Ida.v] has more than one id in a slot. *)
Notation placement := (gmap (Z * Z) addr).
Notation users := (gmap Z (option addr)).

(** What is below the prefix [c] of level [l]. *)
Definition child (A : placement) (U : users) (l c : Z) : option (option addr) :=
  if decide (l < 0) then U !! c else Some <$> A !! (l, c).
Definition occupied (A : placement) (U : users) (l c : Z) : bool := bool_decide (is_Some (child A U l c)).
Definition nkids (A : placement) (U : users) (l q : Z) : Z := cnt (fun n => occupied A U (l - 1) (32 * q + n)) slots32.

(** The layer [x] at [(l, q)].  Ids whose bits are set can differ between the
    levels, and a count can be off by [E], while an operation is under way. *)
Record node_ok (A : placement) (U : users) (F : Z -> gset Z) (E : Z -> Z -> Z) (l q : Z) (x : idr_layer) : Prop := {
  n_layer : layer x = l;
  n_ary : forall n, 0 <= n < 32 -> ary x !! n = mjoin (child A U (l - 1) (32 * q + n));
  n_dom : forall n, is_Some (ary x !! n) -> 0 <= n < 32;
  n_count : count x = nkids A U l q + E l q;
  n_bits : bits_ok (F l) l q (bitmap x)
}.

Fixpoint free_ok (m : gmap addr idr_layer) (o : option addr) (Fr : list addr) : Prop :=
  match Fr with
  | [] => o = None
  | p :: Fr =>
      o = Some p /\ exists x, m !! p = Some x /\ bitmap x = 0 /\ count x = 0 /\
        (forall n, n <> 0 -> ary x !! n = None) /\ free_ok m (ary x !! 0) Fr
  end.

(** A tree of [L] levels with the layer [tp] at the top, the free layers [Fr] and
    possibly one layer [pend] that is in neither. *)
Record wf (tp : option addr) (L : Z) (idp : idr) (A : placement) (U : users) (F : Z -> gset Z) (E : Z -> Z -> Z)
    (Fr : list addr) (pend : option addr) : Prop := {
  w_L : 0 <= L <= 6;
  w_top : tp = A !! (L - 1, 0);
  w_root : 0 < L -> is_Some tp;
  w_range : forall l q a, A !! (l, q) = Some a -> 0 <= l < L /\ (l = L - 1 -> q = 0);
  w_par : forall l c, -1 <= l -> (l < 0 \/ l < L - 1) -> is_Some (child A U l c) -> is_Some (A !! (l + 1, c / 32));
  w_inj : forall k k' a, A !! k = Some a -> A !! k' = Some a -> k = k';
  w_nodes : forall l q a, A !! (l, q) = Some a -> exists x, mem idp !! a = Some x /\ node_ok A U F E l q x;
  w_F : forall l, F l ⊆ dom U;
  w_free : free_ok (mem idp) (id_free idp) Fr;
  w_nodup : NoDup Fr;
  w_cnt : id_free_cnt idp = Z.of_nat (length Fr);
  w_disj : forall k a, A !! k = Some a -> a ∉ Fr;
  w_pend : forall a, pend = Some a -> a ∉ Fr /\ (forall k, A !! k <> Some a) /\ is_Some (mem idp !! a);
  w_owned : forall a, is_Some (mem idp !! a) -> (exists k, A !! k = Some a) \/ a ∈ Fr \/ pend = Some a
}.

Arguments w_L {_ _ _ _ _ _ _ _ _} _.
Arguments w_top {_ _ _ _ _ _ _ _ _} _.
Arguments w_root {_ _ _ _ _ _ _ _ _} _ _.
Arguments w_range {_ _ _ _ _ _ _ _ _} _ _ _ _ _.
Arguments w_par {_ _ _ _ _ _ _ _ _} _ _ _ _ _ _.
Arguments w_inj {_ _ _ _ _ _ _ _ _} _ _ _ _ _ _.
Arguments w_nodes {_ _ _ _ _ _ _ _ _} _ _ _ _ _.
Arguments w_F {_ _ _ _ _ _ _ _ _} _ _.
Arguments w_free {_ _ _ _ _ _ _ _ _} _.
Arguments w_nodup {_ _ _ _ _ _ _ _ _} _.
Arguments w_cnt {_ _ _ _ _ _ _ _ _} _.
Arguments w_disj {_ _ _ _ _ _ _ _ _} _ _ _ _.
Arguments w_pend {_ _ _ _ _ _ _ _ _} _ _ _.
Arguments w_owned {_ _ _ _ _ _ _ _ _} _ _ _.

Definition level (F : gset Z) : Z -> gset Z := fun _ => F.
Definition exact : Z -> Z -> Z := fun _ _ => 0.

Definition inv (idp : idr) (A : placement) (U : users) (F : gset Z) (Fr : list addr) : Prop :=
  wf (top idp) (layers idp) idp A U (level F) exact Fr None.

Lemma child_leaf A U c : child A U (-1) c = U !! c.
Proof. done. Qed.

Lemma child_node A U l c : 0 <= l -> child A U l c = Some <$> A !! (l, c).
Proof. intros. unfold child. by rewrite decide_False by lia. Qed.

Lemma occupied_true A U l c : occupied A U l c = true <-> is_Some (child A U l c).
Proof. unfold occupied. apply bool_decide_eq_true. Qed.

Lemma occupied_false A U l c : occupied A U l c = false <-> child A U l c = None.
Proof. unfold occupied. rewrite bool_decide_eq_false. symmetry. apply eq_None_not_Some. Qed.

Lemma nkids_ext A U A' U' l q : (forall n, 0 <= n < 32 -> child A' U' (l - 1) (32 * q + n) = child A U (l - 1) (32 * q + n)) ->
  nkids A' U' l q = nkids A U l q.
Proof. intros H. apply cnt_ext. intros n Hn%elem_of_slots32. unfold occupied. by rewrite H. Qed.

Lemma nkids_more A U A' U' l q k : 0 <= k < 32 ->
  child A U (l - 1) (32 * q + k) = None -> is_Some (child A' U' (l - 1) (32 * q + k)) ->
  (forall n, 0 <= n < 32 -> n <> k -> child A' U' (l - 1) (32 * q + n) = child A U (l - 1) (32 * q + n)) ->
  nkids A' U' l q = nkids A U l q + 1.
Proof.
  intros Hk H0 H1 H. apply (cnt_more _ _ _ k).
  - apply NoDup_slots32.
  - by apply elem_of_slots32.
  - by apply occupied_false.
  - by apply occupied_true.
  - intros n Hn%elem_of_slots32 Hne. unfold occupied. by rewrite (H n).
Qed.

Lemma nkids_zero A U l q n : nkids A U l q = 0 -> 0 <= n < 32 -> child A U (l - 1) (32 * q + n) = None.
Proof. intros H Hn. apply occupied_false. apply (cnt_zero _ _ H n). by apply elem_of_slots32. Qed.

Lemma nkids_one A U l q n : nkids A U l q = 1 -> is_Some (child A U (l - 1) (32 * q)) -> 0 < n < 32 ->
  child A U (l - 1) (32 * q + n) = None.
Proof.
  intros H1 H0 Hn. apply occupied_false.
  apply (cnt_one (fun n => occupied A U (l - 1) (32 * q + n)) slots32 0 NoDup_slots32 (proj2 (elem_of_slots32 0) ltac:(lia))); [|exact H1|apply elem_of_slots32; lia|lia].
  apply occupied_true. by rewrite Z.add_0_r.
Qed.

Lemma node_ok_ext A U F E A' U' F' E' l q x :
  node_ok A U F E l q x ->
  (forall n, 0 <= n < 32 -> child A' U' (l - 1) (32 * q + n) = child A U (l - 1) (32 * q + n)) ->
  (forall n, 0 <= n < 32 -> full (F' l) (l - 1) (32 * q + n) <-> full (F l) (l - 1) (32 * q + n)) ->
  E' l q = E l q -> node_ok A' U' F' E' l q x.
Proof.
  intros [H1 H2 H3 H4 [H5 H6]] Hc Hf He. constructor; [done| |done| |split; [done|]].
  - intros n Hn. rewrite H2, Hc by done. done.
  - rewrite He, (nkids_ext A U) by done. done.
  - intros n Hn. rewrite H6 by done. symmetry. by apply Hf.
Qed.

Lemma free_ok_ext m m' o Fr : free_ok m o Fr -> (forall a, a ∈ Fr -> m' !! a = m !! a) -> free_ok m' o Fr.
Proof.
  revert o. induction Fr as [|p Fr IH]; intros o; simpl; [done|].
  intros (-> & x & Hx & Hb & Hc & Ha & Hr) Hm. split; [done|]. exists x. rewrite Hm by left. split_and!; try done.
  apply IH; [done|]. intros a Ha'. apply Hm. by right.
Qed.

Lemma free_ok_insert m o Fr a x : free_ok m o Fr -> a ∉ Fr -> free_ok (<[a := x]> m) o Fr.
Proof. intros H Ha. apply (free_ok_ext m); [done|]. intros b Hb. rewrite lookup_insert_ne; [done|]. by intros ->. Qed.

Lemma free_ok_mem m o Fr a : free_ok m o Fr -> a ∈ Fr -> is_Some (m !! a).
Proof.
  revert o. induction Fr as [|p Fr IH]; intros o; simpl; [by intros ? ?%not_elem_of_nil|].
  intros (-> & x & Hx & _ & _ & _ & Hr) [->|Ha]%elem_of_cons; [by eexists|]. by apply (IH (ary x !! 0)).
Qed.

(** ** Positions *)

Section positions.
Context {tp : option addr} {L : Z} {idp : idr} {A : placement} {U : users} {F : Z -> gset Z} {E : Z -> Z -> Z}
  {Fr : list addr} {pend : option addr} (W : wf tp L idp A U F E Fr pend).

(** Above what is there, layers are there. *)
Lemma present_up l k i : -1 <= l -> l < k < L -> is_Some (child A U l (anc l i)) -> is_Some (A !! (k, anc k i)).
Proof.
  intros Hl Hk Hc. remember (Z.to_nat (k - l - 1)) as d eqn:Hd. revert k Hk Hd.
  induction d as [|d IH]; intros k Hk Hd.
  - assert (k = l + 1) as -> by lia. rewrite anc_succ by lia. apply (w_par W); [lia|lia|done].
  - assert (is_Some (A !! (k - 1, anc (k - 1) i))) as H by (apply IH; lia).
    rewrite (anc_pred k) by lia. replace k with (k - 1 + 1) at 1 by lia.
    apply (w_par W); [lia|lia|]. rewrite child_node by lia. by rewrite fmap_is_Some.
Qed.

Lemma present_level l c : -1 <= l -> is_Some (child A U l c) -> 0 < L /\ l < L.
Proof.
  intros Hl Hc. destruct (decide (l < 0)).
  - assert (l = -1) as -> by lia. destruct (w_par W (-1) c) as [a Ha]; [lia|by left|done|].
    apply (w_range W) in Ha. lia.
  - rewrite child_node in Hc by lia. rewrite fmap_is_Some in Hc. destruct Hc as [a Ha].
    apply (w_range W) in Ha. lia.
Qed.

(** All that is there has the prefix 0 at the top. *)
Lemma present_top l i : -1 <= l -> is_Some (child A U l (anc l i)) -> 0 <= i < width (L - 1).
Proof.
  intros Hl Hc. destruct (present_level l _ Hl Hc). enough (anc (L - 1) i = 0) as Hz.
  { apply anc_spec in Hz; [|lia]. unfold lo in Hz. lia. }
  assert (is_Some (A !! (L - 1, anc (L - 1) i))) as [a Ha].
  { destruct (decide (l = L - 1)) as [->|]; [|apply (present_up l); [lia|lia|done]].
    rewrite child_node in Hc by lia. by rewrite fmap_is_Some in Hc. }
  by apply (w_range W) in Ha as [_ ->].
Qed.

Lemma user_range i : is_Some (U !! i) -> 0 <= i < width (L - 1).
Proof.
  intros Hi. by apply (present_top (-1)).
Qed.

Lemma user_path i l : is_Some (U !! i) -> 0 <= l < L -> is_Some (A !! (l, anc l i)).
Proof. intros Hi Hl. apply (present_up (-1)); [lia|lia|done]. Qed.

Lemma absent_user l c i : 0 <= l < L -> A !! (l, c) = None -> anc l i = c -> U !! i = None.
Proof.
  intros Hl Ha <-. destruct (U !! i) eqn:E'; [|done]. destruct (user_path i l) as [a Ha']; [by eexists|done|congruence].
Qed.

Lemma absent_child l c n : 0 <= l < L -> A !! (l, c) = None -> 0 <= n < 32 -> child A U (l - 1) (32 * c + n) = None.
Proof.
  intros Hl Ha Hn. destruct (child _ _ _ _) eqn:E'; [|done].
  destruct (w_par W (l - 1) (32 * c + n)) as [a Ha']; [lia|lia|by eexists|].
  replace (l - 1 + 1) with l in Ha' by lia. replace ((32 * c + n) / 32) with c in Ha' by dlia. congruence.
Qed.

Lemma absent_not_full k l c : -1 <= l < L -> child A U l c = None -> ~ full (F k) l c.
Proof.
  intros Hl Ha Hf. assert (is_Some (U !! lo l c)) as Hu.
  { apply elem_of_dom, (w_F W k). apply full_lo; [lia|done]. }
  destruct (decide (l = -1)) as [->|].
  - unfold lo in Hu. change (width (-1)) with 1 in Hu. rewrite Z.mul_1_r in Hu. rewrite child_leaf in Ha. rewrite Ha in Hu. by destruct Hu.
  - rewrite child_node in Ha by lia. destruct (user_path (lo l c) l) as [a Ha']; [done|lia|].
    rewrite anc_lo in Ha' by lia. by rewrite Ha' in Ha.
Qed.

Lemma full_range l c : -1 <= l -> full (F l) l c -> 0 <= lo l c /\ lo l (c + 1) <= width (L - 1).
Proof.
  intros Hl Hf. pose proof (width_pos l Hl).
  assert (forall i, anc l i = c -> is_Some (U !! i)) as Hu.
  { intros i Hi. apply elem_of_dom, (w_F W l). by apply Hf. }
  assert (lo l (c + 1) = lo l c + width l) by (unfold lo; lia).
  pose proof (user_range (lo l c) (Hu _ (anc_lo l c Hl))).
  pose proof (user_range (lo l (c + 1) - 1) (Hu _ (proj2 (anc_spec l (lo l (c + 1) - 1) c Hl) ltac:(lia)))). lia.
Qed.

End positions.

End IdrInv.

(** * The idr: changes of the tree

    What each change of the tree or of the list of free layers does to the
    invariant: a layer changed in place, taken from the list, put below a slot
    or on top, and taken out again. *)

Local Open Scope Z_scope.
Local Open Scope kernel_scope.

Module IdrTree.
Import Idr IdrInv.

(** A layer as the list of free ones gives it out. *)
Definition blank (y : idr_layer) : Prop := bitmap y = 0 /\ count y = 0 /\ forall n, ary y !! n = None.

Lemma blank_bits F l q y : blank y -> (forall n, 0 <= n < 32 -> ~ full F (l - 1) (32 * q + n)) -> bits_ok F l q (bitmap y).
Proof.
  intros (-> & _ & _) Hf. split; [unfold two32; lia|]. intros n Hn. rewrite Z.bits_0. split; [done|]. by intros ?%Hf.
Qed.

Lemma cnt_none f ns : (forall n, n ∈ ns -> f n = false) -> cnt f ns = 0.
Proof.
  induction ns as [|m ns IH]; intros H; [done|]. simpl. rewrite (H m) by left. rewrite IH; [done|]. intros n Hn. apply H. by right.
Qed.

Lemma nkids_none A U l q : (forall n, 0 <= n < 32 -> child A U (l - 1) (32 * q + n) = None) -> nkids A U l q = 0.
Proof. intros H. apply cnt_none. intros n Hn%elem_of_slots32. by apply occupied_false, H. Qed.

Lemma blank_node A U F E l q y : blank y -> layer y = l -> E l q = 0 ->
  (forall n, 0 <= n < 32 -> child A U (l - 1) (32 * q + n) = None) ->
  (forall n, 0 <= n < 32 -> ~ full (F l) (l - 1) (32 * q + n)) -> node_ok A U F E l q y.
Proof.
  intros Hb Hl He Hc Hf. constructor; [done| | | |by apply blank_bits].
  - intros n Hn. rewrite Hc by done. apply Hb.
  - intros n [z Hz]. destruct Hb as (_ & _ & Hb). by rewrite Hb in Hz.
  - rewrite nkids_none by done. destruct Hb as (_ & -> & _). lia.
Qed.

Section changes.
Context {tp : option addr} {L : Z} {idp : idr} {A : placement} {U : users} {F : Z -> gset Z} {E : Z -> Z -> Z} {Fr : list addr}.

(** A layer of the tree is changed, and with it what is registered. *)
Lemma wf_put pend l q a x' U' F' E' :
  wf tp L idp A U F E Fr pend -> A !! (l, q) = Some a -> node_ok A U' F' E' l q x' ->
  (forall l' q' b y, A !! (l', q') = Some b -> (l', q') <> (l, q) -> node_ok A U F E l' q' y -> node_ok A U' F' E' l' q' y) ->
  (forall c, is_Some (U' !! c) -> is_Some (A !! (0, c / 32))) -> (forall l, F' l ⊆ dom U') ->
  wf tp L (put idp a x') A U' F' E' Fr pend.
Proof.
  intros W Ha Hx Ho Hp Hf. constructor; simpl; try apply W.
  - intros k c Hk Hlt Hc. destruct (decide (k < 0)).
    + assert (k = -1) as -> by lia. by apply Hp.
    + apply (w_par W); [done|done|]. by rewrite child_node in * by lia.
  - intros l' q' b Hb. destruct (decide ((l', q') = (l, q))) as [Heq|Hne].
    + simplify_eq. exists x'. by rewrite lookup_insert_eq.
    + destruct (w_nodes W _ _ _ Hb) as (y & Hy & Hok). exists y.
      rewrite lookup_insert_ne; [split; [done|]; by eapply Ho|]. intros <-. by apply Hne, (w_inj W _ _ a).
  - done.
  - apply free_ok_insert; [apply W|]. by apply (w_disj W (l, q)).
  - intros b Hb. destruct (w_pend W b Hb) as (H1 & H2 & H3). split_and!; [done|done|].
    apply lookup_insert_is_Some'. by right.
  - intros b [->|Hb]%lookup_insert_is_Some'; [left; by eexists|]. by apply (w_owned W).
Qed.

(** A layer comes off the list. *)
Lemma wf_take p : wf tp L idp A U F E (p :: Fr) None -> exists idp' y,
  get_from_free_list idp = Some (idp', Some p) /\ wf tp L idp' A U F E Fr (Some p) /\
  mem idp' !! p = Some y /\ blank y /\ top idp' = top idp /\ layers idp' = layers idp /\
  (forall b, b <> p -> mem idp' !! b = mem idp !! b).
Proof.
  intros W. destruct (w_free W) as (Ho & x & Hx & Hb & Hc & Ha & Hr). pose proof (w_nodup W) as [Hni Hnd]%NoDup_cons.
  eexists _, (set_slot x 0 None). unfold get_from_free_list. rewrite Ho, Hx. simpl. split_and!; [done| | | |done|done|].
  - constructor; simpl; try apply W; try done.
    + intros l q a Hla. destruct (w_nodes W _ _ _ Hla) as (y & Hy & Hok). exists y. rewrite lookup_insert_ne; [done|].
      intros <-. apply (w_disj W _ _ Hla). left.
    + by apply free_ok_insert.
    + rewrite (w_cnt W). simpl. lia.
    + intros k a Hk Hin. apply (w_disj W _ _ Hk). by right.
    + intros a [= <-]. split_and!; [done| |by rewrite lookup_insert_eq]. intros k Hk. apply (w_disj W _ _ Hk). left.
    + intros a [->|Ha']%lookup_insert_is_Some'; [by right; right|].
      destruct (w_owned W _ Ha') as [?|[[->|?]%elem_of_cons|?]]; [auto..|done].
  - simpl. by rewrite lookup_insert_eq.
  - split_and!; [done|done|]. intros n. simpl. destruct (decide (n = 0)) as [->|].
    + by rewrite lookup_partial_alter_eq.
    + rewrite lookup_partial_alter_ne by done. by apply Ha.
  - intros b Hb'. simpl. by rewrite lookup_insert_ne.
Qed.

Lemma wf_take_none pend : wf tp L idp A U F E [] pend -> get_from_free_list idp = Some (idp, None).
Proof. intros W. unfold get_from_free_list. by rewrite (w_free W). Qed.

(** ... or goes onto it. *)
Lemma wf_give p x : wf tp L idp A U F E Fr (Some p) -> mem idp !! p = Some x -> bitmap x = 0 -> count x = 0 ->
  (forall n, n <> 0 -> ary x !! n = None) -> exists idp',
  move_to_free_list idp p = Some idp' /\ wf tp L idp' A U F E (p :: Fr) None /\ top idp' = top idp /\ layers idp' = layers idp /\
  (forall b, b <> p -> mem idp' !! b = mem idp !! b).
Proof.
  intros W Hx Hb Hc Ha. unfold move_to_free_list. rewrite Hx. simpl. eexists. split; [done|].
  destruct (w_pend W p eq_refl) as (H1 & H2 & _). split_and!; [|done|done|].
  2:{ intros b Hb'. simpl. by rewrite lookup_insert_ne. }
  constructor; simpl; try apply W; try done.
  - intros l q a Hla. destruct (w_nodes W _ _ _ Hla) as (y & Hy & Hok). exists y. rewrite lookup_insert_ne; [done|].
    intros <-. by apply (H2 (l, q)).
  - split; [done|]. exists (set_slot x 0 (id_free idp)). rewrite lookup_insert_eq. split_and!; try done.
    + intros n Hn. simpl. rewrite lookup_partial_alter_ne by done. by apply Ha.
    + simpl. rewrite lookup_partial_alter_eq. apply free_ok_insert; [apply W|done].
  - apply NoDup_cons. split; [done|apply W].
  - rewrite (w_cnt W). lia.
  - intros k a Hk [->|Hin]%elem_of_cons; [by apply (H2 k)|]. by apply (w_disj W _ _ Hk).
  - intros a [->|Ha']%lookup_insert_is_Some'; [right; left; left|].
    destruct (w_owned W _ Ha') as [?|[?|[= ->]]]; [by left|right; left; by right|right; left; left].
Qed.

Lemma wf_new p x : wf tp L idp A U F E Fr None -> mem idp !! p = None -> wf tp L (put idp p x) A U F E Fr (Some p).
Proof.
  intros W Hp. assert (forall k, A !! k <> Some p) as HA.
  { intros [l q] Hk. destruct (w_nodes W _ _ _ Hk) as (y & Hy & _). congruence. }
  assert (p ∉ Fr) as HF. { intros Hin. destruct (free_ok_mem _ _ _ _ (w_free W) Hin). congruence. }
  constructor; simpl; try apply W.
  - intros l q a Hla. destruct (w_nodes W _ _ _ Hla) as (y & Hy & Hok). exists y. rewrite lookup_insert_ne; [done|].
    intros <-. by apply (HA (l, q)).
  - apply free_ok_insert; [apply W|done].
  - intros a [= <-]. split_and!; [done|done|]. by rewrite lookup_insert_eq.
  - intros a [->|Ha]%lookup_insert_is_Some'; [by right; right|]. destruct (w_owned W _ Ha) as [?|[?|?]]; [auto..|done].
Qed.

Lemma wf_put_pend p x : wf tp L idp A U F E Fr (Some p) -> wf tp L (put idp p x) A U F E Fr (Some p).
Proof.
  intros W. destruct (w_pend W p eq_refl) as (H1 & H2 & H3). constructor; simpl; try apply W.
  - intros l q a Hla. destruct (w_nodes W _ _ _ Hla) as (y & Hy & Hok). exists y. rewrite lookup_insert_ne; [done|].
    intros <-. by apply (H2 (l, q)).
  - apply free_ok_insert; [apply W|done].
  - intros a [= <-]. split_and!; [done|done|]. by rewrite lookup_insert_eq.
  - intros a [->|Ha]%lookup_insert_is_Some'; [by right; right|]. by apply (w_owned W).
Qed.

Lemma wf_set_top pend t ls : wf tp L idp A U F E Fr pend -> wf tp L (set_top idp t ls) A U F E Fr pend.
Proof. intros W. destruct W. by constructor. Qed.

Lemma wf_free p : wf tp L idp A U F E Fr (Some p) ->
  free_layer idp p = Some (set_mem idp (delete p (mem idp))) /\ wf tp L (set_mem idp (delete p (mem idp))) A U F E Fr None.
Proof.
  intros W. destruct (w_pend W p eq_refl) as (H1 & H2 & [x Hx]). unfold free_layer. rewrite Hx. split; [done|].
  constructor; simpl; try apply W; try done.
  - intros l q a Hla. destruct (w_nodes W _ _ _ Hla) as (y & Hy & Hok). exists y. rewrite lookup_delete_ne; [done|].
    intros <-. by apply (H2 (l, q)).
  - apply (free_ok_ext (mem idp)); [apply W|]. intros a Ha. rewrite lookup_delete_ne; [done|]. by intros ->.
  - intros a Ha. destruct (decide (a = p)) as [->|]; [by rewrite lookup_delete_eq in Ha; destruct Ha|].
    rewrite lookup_delete_ne in Ha by done. destruct (w_owned W _ Ha) as [?|[?|?]]; [auto..|congruence].
Qed.

End changes.

(** ** Layers put into the tree *)

Lemma child_insert_ne A U l c a l' c' : (l', c') <> (l, c) -> child (<[(l, c) := a]> A) U l' c' = child A U l' c'.
Proof. intros Hne. unfold child. case_decide; [done|]. by rewrite lookup_insert_ne. Qed.

(** The layer at [(l, q)] with the layer [c] below its slot [n]. *)
Lemma attached_parent A U F l q n x c : node_ok A U F exact l q x -> 0 < l -> 0 <= n < 32 -> A !! (l - 1, 32 * q + n) = None ->
  node_ok (<[(l - 1, 32 * q + n) := c]> A) U F exact l q (set_count (set_slot x n (Some c)) (count x + 1)).
Proof.
  intros Hok Hl Hn Hc. constructor; simpl; [apply Hok| | | |apply Hok].
  - intros k Hk. destruct (decide (k = n)) as [->|].
    + rewrite lookup_partial_alter_eq, child_node by lia. by rewrite lookup_insert_eq.
    + rewrite lookup_partial_alter_ne, child_insert_ne by (lia || (intros [=]; lia)). by apply Hok.
  - intros k. destruct (decide (k = n)) as [->|]; [done|]. rewrite lookup_partial_alter_ne by done. apply Hok.
  - rewrite (n_count _ _ _ _ _ _ _ Hok). rewrite (nkids_more A U (<[(l - 1, 32 * q + n) := c]> A) U l q n); [unfold exact; lia|done| | |].
    + rewrite child_node by lia. by rewrite Hc.
    + rewrite child_node by lia. rewrite lookup_insert_eq. by eexists.
    + intros k Hk Hkn. apply child_insert_ne. intros [=]; lia.
Qed.

(** The layer [c] is put below slot [n] of the layer at [(l, q)]. *)
Lemma wf_attach tp L idp A U F Fr l q n p x c y :
  wf tp L idp A U F exact Fr (Some c) -> A !! (l, q) = Some p -> 0 < l -> 0 <= n < 32 -> A !! (l - 1, 32 * q + n) = None ->
  mem idp !! c = Some y -> blank y -> mem idp !! p = Some x ->
  wf tp L (put (put idp c (set_layer y (l - 1))) p (set_count (set_slot x n (Some c)) (count x + 1)))
    (<[(l - 1, 32 * q + n) := c]> A) U F exact Fr None.
Proof.
  intros W Hp Hl Hn Hc Hy Hb Hx. destruct (w_pend W c eq_refl) as (Hc1 & Hc2 & _).
  pose proof (proj1 (w_range W _ _ _ Hp)) as HlL.
  destruct (w_nodes W _ _ _ Hp) as (x0 & Hx0 & Hok). simplify_eq.
  assert (p <> c) as Hpc by (intros ->; by apply (Hc2 (l, q))).
  constructor; simpl; try apply W; try done.
  - rewrite (w_top W). rewrite lookup_insert_ne; [done|]. intros [= ? ?]. lia.
  - intros l' q' a. rewrite lookup_insert_Some. intros [[[= <- <-] <-]|[_ Ha]]; [lia|by apply (w_range W _ _ _ Ha)].
  - intros k d Hk Hlt Hd. destruct (decide ((k, d) = (l - 1, 32 * q + n))) as [[= -> ->]|Hne].
    + rewrite lookup_insert_ne by (intros [=]; lia). replace (l - 1 + 1) with l by lia.
      replace ((32 * q + n) / 32) with q by dlia. by eexists.
    + rewrite child_insert_ne in Hd by done. apply lookup_insert_is_Some'. right. by apply (w_par W).
  - intros k k' a. rewrite !lookup_insert_Some. intros [[<- <-]|[_ H1]] [[<- E]|[_ H2]]; [done| | |by apply (w_inj W _ _ a)].
    + by destruct (Hc2 k').
    + subst a. by destruct (Hc2 k).
  - intros l' q' a. rewrite lookup_insert_Some. intros [[[= <- <-] <-]|[Hne Ha]].
    + exists (set_layer y (l - 1)). rewrite lookup_insert_ne, lookup_insert_eq by done. split; [done|].
      apply blank_node; [done|done|done| |].
      * intros k Hk. rewrite child_insert_ne by (intros [=]; lia). apply (absent_child W); [lia|done|done].
      * intros k Hk Hf. revert Hf. apply (absent_not_full W); [lia|]. apply (absent_child W); [lia|done|done].
    + destruct (decide ((l', q') = (l, q))) as [[= -> ->]|Hne'].
      * assert (a = p) as -> by congruence. eexists. rewrite lookup_insert_eq. split; [done|]. by apply attached_parent.
      * destruct (w_nodes W _ _ _ Ha) as (z & Hz & Hzok). exists z.
        rewrite lookup_insert_ne by (intros <-; by apply Hne', (w_inj W _ _ p)).
        rewrite lookup_insert_ne by (intros <-; by apply (Hc2 (l', q'))). split; [done|].
        apply (node_ok_ext _ _ _ _ _ _ _ _ _ _ _ Hzok); [|done|done].
        intros k Hk. apply child_insert_ne. intros [=]. apply Hne'. f_equal; lia.
  - do 2 (apply free_ok_insert; [|done || by apply (w_disj W (l, q))]). apply W.
  - intros k a. rewrite lookup_insert_Some. intros [[_ <-]|[_ Ha]]; [done|by apply (w_disj W k)].
  - intros a [->|[->|Ha]%lookup_insert_is_Some']%lookup_insert_is_Some'.
    + left. exists (l, q). rewrite lookup_insert_ne; [done|]. intros [=]; lia.
    + left. eexists. by rewrite lookup_insert_eq.
    + destruct (w_owned W _ Ha) as [[k Hk]|[?|[= ->]]]; [|by auto|].
      * left. exists k. rewrite lookup_insert_ne; [done|]. intros <-. congruence.
      * left. eexists. by rewrite lookup_insert_eq.
Qed.

(** A tree of one layer. *)
Lemma wf_single tp L idp A U F E Fr p y L' :
  wf tp L idp A U F E Fr (Some p) -> A = ∅ -> 1 <= L' <= 6 -> mem idp !! p = Some y -> blank y -> layer y = L' - 1 ->
  wf (Some p) L' idp {[(L' - 1, 0) := p]} ∅ (level ∅) exact Fr None.
Proof.
  intros W -> HL Hy Hb Hl. destruct (w_pend W p eq_refl) as (H1 & _ & _).
  assert (forall l c, child {[(L' - 1, 0) := p]} ∅ l c = None \/ l = L' - 1 /\ c = 0) as Hch.
  { intros l c. unfold child. case_decide; [by left|]. destruct (decide ((l, c) = (L' - 1, 0))) as [[= -> ->]|]; [by right|].
    left. by rewrite lookup_singleton_ne. }
  constructor; simpl; try apply W; try done.
  - lia.
  - by rewrite lookup_singleton_eq.
  - intros l q a. rewrite lookup_singleton_Some. intros [[= <- <-] <-]. lia.
  - intros l c Hl' Hlt Hc. exfalso. destruct (Hch l c) as [Hn|[-> ->]]; [rewrite Hn in Hc; by destruct Hc|lia].
  - intros k k' a. rewrite !lookup_singleton_Some. naive_solver.
  - intros l q a. rewrite lookup_singleton_Some. intros [[= <- <-] <-]. exists y. split; [done|].
    apply blank_node; [done|done|done| |].
    + intros n Hn. destruct (Hch (L' - 1 - 1) (32 * 0 + n)) as [?|[? ?]]; [done|lia].
    + intros n Hn Hf. apply full_lo in Hf; [|lia]. by apply not_elem_of_empty in Hf.
  - intros k a. rewrite lookup_singleton_Some. by intros [_ <-].
  - intros a Ha. destruct (w_owned W _ Ha) as [[k Hk]|[?|[= ->]]]; [done|by auto|].
    left. eexists. by rewrite lookup_singleton_eq.
Qed.

Lemma nkids_single A U l : is_Some (child A U (l - 1) 0) -> (forall n, 0 < n < 32 -> child A U (l - 1) n = None) -> nkids A U l 0 = 1.
Proof.
  intros H0 Hn. assert (forall n, child ∅ ∅ (l - 1) n = None) as He by (intros n; unfold child; by case_decide).
  rewrite (nkids_more ∅ ∅ A U l 0 0); [|lia|done|done|].
  - by rewrite nkids_none by (intros; apply He).
  - intros n Hn1 Hn2. rewrite He. apply Hn. lia.
Qed.

(** A layer above the layer [x] at [p]. *)
Lemma grown_top_ok A U F L p x : child A U (L - 1) 0 = Some (Some p) ->
  (forall n, 0 < n < 32 -> child A U (L - 1) n = None) -> (forall n, 0 < n < 32 -> ~ full (F L) (L - 1) n) ->
  bitmap x = IDR_FULL <-> full (F L) (L - 1) 0 ->
  node_ok A U F exact L 0 (mk_layer (if bitmap x =? IDR_FULL then Z.setbit 0 0 else 0) {[0 := p]} 1 L).
Proof.
  intros H0 Hn Hnf Hbf. constructor; simpl; [done| | | |].
  - intros n Hn'. change (32 * 0 + n) with n. destruct (decide (n = 0)) as [->|].
    + by rewrite lookup_singleton_eq, H0.
    + by rewrite lookup_singleton_ne, Hn by lia.
  - intros n. rewrite lookup_singleton_is_Some. lia.
  - rewrite nkids_single; [done|rewrite H0; by eexists|done].
  - split; [by destruct (_ =? _)|]. intros n Hn'. change (32 * 0 + n) with n. destruct (Z.eqb_spec (bitmap x) IDR_FULL) as [Hbx|Hbx].
    + destruct (decide (n = 0)) as [->|].
      * split; [|done]. intros _. by apply Hbf.
      * rewrite Z.setbit_neq by lia. rewrite Z.bits_0. split; [done|]. by intros ?%Hnf; [|lia].
    + rewrite Z.bits_0. split; [done|]. intros Hf. exfalso.
      destruct (decide (n = 0)) as [->|]; [by apply Hbx, Hbf|]. by apply (Hnf n); [lia|].
Qed.

(** A new layer on top. *)
Lemma wf_grow p L idp A U F Fr new x y y' :
  wf (Some p) L idp A U F exact Fr (Some new) -> 0 < L < 6 -> mem idp !! p = Some x -> mem idp !! new = Some y -> blank y ->
  F L = F (L - 1) ->
  y' = mk_layer (if bitmap x =? IDR_FULL then Z.setbit 0 0 else 0) {[0 := p]} 1 L ->
  wf (Some new) (L + 1) (put idp new y') (<[(L, 0) := new]> A) U F exact Fr None.
Proof.
  intros W HL Hx Hy Hb HF Hy'. destruct (w_pend W new eq_refl) as (Hc1 & Hc2 & _).
  assert (A !! (L, 0) = None) as HN.
  { destruct (A !! (L, 0)) eqn:Hl; [|done]. apply (w_range W) in Hl. lia. }
  pose proof (w_top W) as Htp. destruct (w_nodes W _ _ _ (eq_sym Htp)) as (x0 & Hx0 & Hok). simplify_eq.
  assert (forall n, 0 <= n < 32 -> n <> 0 -> child A U (L - 1) n = None) as Hne.
  { intros n Hn H0. rewrite child_node by lia. destruct (A !! (L - 1, n)) eqn:Hl; [|done].
    apply (w_range W) in Hl as [_ Hl]. by destruct (H0 (Hl eq_refl)). }
  constructor; simpl; try apply W; try done.
  - lia.
  - replace (L + 1 - 1) with L by lia. by rewrite lookup_insert_eq.
  - intros l q a. rewrite lookup_insert_Some. intros [[[= <- <-] <-]|[_ Ha]]; [lia|].
    apply (w_range W) in Ha. lia.
  - intros k d Hk Hlt Hd. apply lookup_insert_is_Some'. destruct (decide ((k, d) = (L, 0))) as [[= -> ->]|Hkd]; [lia|].
    rewrite child_insert_ne in Hd by done. destruct (decide (k = L - 1)) as [->|].
    + left. rewrite child_node in Hd by lia. rewrite fmap_is_Some in Hd. destruct Hd as [a Ha].
      apply (w_range W) in Ha as [_ Ha]. rewrite Ha by done. f_equal. lia.
    + right. apply (w_par W); [done| |done]. destruct Hlt; [by left|right; lia].
  - intros k k' a. rewrite !lookup_insert_Some. intros [[<- <-]|[_ H1]] [[<- E']|[_ H2]]; [done| | |by apply (w_inj W _ _ a)].
    + by destruct (Hc2 k').
    + subst a. by destruct (Hc2 k).
  - intros l' q' a. rewrite lookup_insert_Some. intros [[[= <- <-] <-]|[Hk Ha]].
    + eexists. rewrite lookup_insert_eq. split; [done|].
      assert (forall n, child (<[(L, 0) := new]> A) U (L - 1) n = child A U (L - 1) n) as Hci.
      { intros n. apply child_insert_ne. intros [=]; lia. }
      apply (grown_top_ok _ _ _ _ _ x).
      * rewrite Hci, child_node, <- Htp by lia. done.
      * intros n Hn. rewrite Hci, Hne by lia. done.
      * intros n Hn. apply (absent_not_full W); [lia|]. apply Hne; lia.
      * rewrite HF. apply bits_full; [lia|]. apply Hok.
    + destruct (w_nodes W _ _ _ Ha) as (z & Hz & Hzok). exists z.
      rewrite lookup_insert_ne by (intros <-; by apply (Hc2 (l', q'))). split; [done|].
      apply (node_ok_ext _ _ _ _ _ _ _ _ _ _ _ Hzok); [|done|done].
      intros n Hn. apply child_insert_ne. intros [=]. apply (w_range W) in Ha. lia.
  - apply free_ok_insert; [apply W|done].
  - intros k a. rewrite lookup_insert_Some. intros [[_ <-]|[_ Ha]]; [done|by apply (w_disj W k)].
  - intros a [->|Ha]%lookup_insert_is_Some'.
    + left. eexists. by rewrite lookup_insert_eq.
    + destruct (w_owned W _ Ha) as [[k Hk]|[?|[= ->]]]; [|by auto|].
      * left. exists k. rewrite lookup_insert_ne; [done|]. intros <-. congruence.
      * left. eexists. by rewrite lookup_insert_eq.
Qed.

(** ** Layers taken out *)

(** The top has only its first slot in use: the layer below can be the top. *)
Lemma wf_drop_top t L idp A U F E Fr x p :
  wf (Some t) L idp A U F E Fr None -> 1 < L -> mem idp !! t = Some x -> ary x !! 0 = Some p ->
  nkids A U (L - 1) 0 = 1 ->
  wf (Some p) (L - 1) idp (delete (L - 1, 0) A) U F E Fr (Some t).
Proof.
  intros W HL Hx Hp Hk. pose proof (w_top W) as Ht. destruct (w_nodes W _ _ _ (eq_sym Ht)) as (x0 & Hx0 & Hok). simplify_eq.
  assert (A !! (L - 1 - 1, 0) = Some p) as Hp'.
  { pose proof (n_ary _ _ _ _ _ _ _ Hok 0 ltac:(lia)) as Ha. rewrite Hp, child_node in Ha by lia.
    replace (32 * 0 + 0) with 0 in Ha by lia. by destruct (A !! (L - 1 - 1, 0)). }
  assert (forall l q a, A !! (l, q) = Some a -> (l, q) <> (L - 1, 0) -> 0 <= l < L - 1 /\ (l = L - 1 - 1 -> q = 0)) as Hrange.
  { intros l q a Ha Hne. pose proof (w_range W _ _ _ Ha) as [H1 H2].
    assert (l <> L - 1) by (intros ->; by apply Hne; rewrite H2). split; [lia|]. intros ->.
    destruct (w_par W (L - 1 - 1) q) as [b Hb]; [lia|lia|rewrite child_node by lia; rewrite Ha; by eexists|].
    apply (w_range W) in Hb as [_ Hb]. specialize (Hb ltac:(lia)).
    destruct (decide (q = 0)); [done|]. exfalso.
    pose proof (nkids_one _ _ _ _ q Hk) as Hq. rewrite !child_node in Hq by lia.
    replace (32 * 0) with 0 in Hq by lia. replace (0 + q) with q in Hq by lia. rewrite Ha, Hp' in Hq.
    assert (0 < q < 32) by dlia. discriminate Hq; [by eexists|lia]. }
  constructor; simpl; try apply W; try done.
  - pose proof (w_L W). lia.
  - rewrite lookup_delete_ne; [done|]. intros [=]; lia.
  - intros l q a [Hne Ha]%lookup_delete_Some. by apply (Hrange _ _ a).
  - intros l c Hl Hlt Hc. rewrite lookup_delete_ne by (intros [=]; lia). apply (w_par W); [done|lia|].
    unfold child in *. case_decide; [done|]. by rewrite lookup_delete_ne in Hc by (intros [=]; lia).
  - intros k k' a [_ H1]%lookup_delete_Some [_ H2]%lookup_delete_Some. by apply (w_inj W _ _ a).
  - intros l q a [Hne Ha]%lookup_delete_Some. destruct (w_nodes W _ _ _ Ha) as (z & Hz & Hzok). exists z. split; [done|].
    apply (node_ok_ext _ _ _ _ _ _ _ _ _ _ _ Hzok); [|done|done].
    intros n Hn. unfold child. case_decide; [done|]. rewrite lookup_delete_ne; [done|]. intros [=].
    destruct (Hrange _ _ _ Ha); [congruence|lia].
  - intros k a [_ Ha]%lookup_delete_Some. by apply (w_disj W k).
  - intros a [= <-]. split_and!; [by apply (w_disj W (L - 1, 0))| |by eexists].
    intros k [Hne Hk']%lookup_delete_Some. apply Hne. by apply (w_inj W _ _ t).
  - intros a Ha. destruct (w_owned W _ Ha) as [[k Hk']|[?|?]]; [|by auto|done].
    destruct (decide (k = (L - 1, 0))) as [->|]; [right; right; congruence|]. left. exists k. by rewrite lookup_delete_ne.
Qed.

End IdrTree.
