(* ===== verification/IdrAlloc.v ===== *)
(** * The idr: the search for a free id

    [sub_alloc] finds the least free id from the starting id on in the tree as
    it is, or finds that there is none. *)

From Stdlib Require Import ZArith Lia.
From stdpp Require Import base option gmap list list_numbers.
From S2P Require Import Prelude Idr IdrInv.

Local Open Scope Z_scope.
Local Open Scope kernel_scope.

Module IdrAlloc.
Import Idr IdrInv IdrTree.

Lemma anc_up l j i i' : -1 <= l <= j -> anc l i = anc l i' -> anc j i = anc j i'.
Proof.
  intros Hl He. replace (anc j i) with (Z.shiftr (anc l i) (5 * (j - l))).
  2:{ unfold anc. rewrite Z.shiftr_shiftr by lia. f_equal. lia. }
  rewrite He. unfold anc. rewrite Z.shiftr_shiftr by lia. f_equal. lia.
Qed.

Lemma width_mono l l' : -1 <= l <= l' -> width l <= width l'.
Proof. intros. apply Z.pow_le_mono_r; lia. Qed.

Lemma width_bound L : 0 <= L <= 6 -> width (L - 1) <= 2 ^ 30.
Proof. intros. apply (Z.pow_le_mono_r 2); lia. Qed.

Lemma s32_id i : 0 <= i <= 2 ^ 30 -> s32 i = i.
Proof. intros. apply s32_small. unfold two31. lia. Qed.

(** The layers of the levels from [k] on that lead to [id]. *)
Definition path_ok (A : placement) (L : Z) (pa : path) (k id : Z) : Prop :=
  pa !! L = Some None /\ forall j, k <= j < L -> exists a, pa !! j = Some (Some a) /\ A !! (j, anc j id) = Some a.

Lemma path_ok_next A A' L pa l id id' p :
  path_ok A L pa (l + 1) id -> A ⊆ A' -> 0 <= l < L -> L <= 6 -> A !! (l, anc l id) = Some p -> anc l id' = anc l id ->
  pa_set pa l (Some p) = Some (<[l := Some p]> pa) /\ path_ok A' L (<[l := Some p]> pa) l id'.
Proof.
  intros [Ht Hp] Hsub Hl HL Ha He. unfold pa_set. change MAX_LEVEL with 7. rewrite bool_decide_true by lia.
  split; [done|]. split; [by rewrite lookup_insert_ne by lia|]. intros j Hj. destruct (decide (j = l)) as [->|].
  - exists p. rewrite lookup_insert_eq, He. split; [done|]. by eapply lookup_weaken.
  - destruct (Hp j ltac:(lia)) as (a & H1 & H2). exists a. rewrite lookup_insert_ne by lia. split; [done|].
    rewrite (anc_up l j id' id) by (lia || done). by eapply lookup_weaken.
Qed.

(** ** One round of the loop *)

(** The slot the round finds. *)
Definition slot_of (x : idr_layer) (l id : Z) : Z := find_next_bit (Z.lxor IDR_FULL (bitmap x)) IDR_SIZE (digit l id).
(** The id it goes on with. *)
Definition next_id (l id m : Z) : Z := if m =? digit l id then id else lo (l - 1) (32 * anc l id + m).

Lemma next_id_spec l id m : 0 <= l -> digit l id <= m < 32 ->
  anc (l - 1) (next_id l id m) = 32 * anc l id + m /\ anc l (next_id l id m) = anc l id /\ id <= next_id l id m.
Proof.
  intros Hl Hm. assert (anc (l - 1) (next_id l id m) = 32 * anc l id + m) as H1.
  { unfold next_id. destruct (Z.eqb_spec m (digit l id)) as [->|]; [by rewrite digit_spec|]. apply anc_lo. lia. }
  split_and!; [done| |].
  - rewrite (anc_pred l (next_id _ _ _)), H1 by done. pose proof (digit_range l id). dlia.
  - unfold next_id. destruct (Z.eqb_spec m (digit l id)) as [->|]; [lia|].
    pose proof (lo_anc (l - 1) id ltac:(lia)) as H2. rewrite <- digit_spec in H2 by done.
    pose proof (lo_mono (l - 1) (32 * anc l id + digit l id + 1) (32 * anc l id + m) ltac:(lia) ltac:(lia)). lia.
Qed.

(** Slots that are full are skipped, and only those. *)
Lemma next_id_skip F l id m i : 0 <= l -> digit l id <= m < 32 ->
  (forall k, digit l id <= k < m -> full F (l - 1) (32 * anc l id + k)) -> id <= i < next_id l id m -> i ∈ F.
Proof.
  intros Hl Hm Hf Hi. destruct (next_id_spec l id m Hl Hm) as (H1 & H2 & H3).
  assert (anc l i = anc l id) as Ha.
  { pose proof (anc_mono l id i ltac:(lia) ltac:(lia)). pose proof (anc_mono l i (next_id l id m) ltac:(lia) ltac:(lia)). lia. }
  pose proof (anc_mono (l - 1) id i ltac:(lia) ltac:(lia)) as H4.
  rewrite <- (digit_spec l i), <- (digit_spec l id), Ha in H4 by done. pose proof (digit_range l i).
  assert (digit l i < m) as H5.
  { unfold next_id in Hi. destruct (Z.eqb_spec m (digit l id)); [lia|].
    assert (anc (l - 1) i < 32 * anc l id + m); [|rewrite <- (digit_spec l i), Ha in *; lia].
    assert (~ 32 * anc l id + m <= anc (l - 1) i); [|lia]. intros Hle.
    pose proof (lo_mono (l - 1) _ _ ltac:(lia) Hle). pose proof (lo_anc (l - 1) i ltac:(lia)). lia. }
  apply (Hf (digit l i) ltac:(lia)). rewrite <- digit_spec, Ha by done. done.
Qed.

Lemma loop_found fuel idp sid pa p l id x : mem idp !! p = Some x -> 0 <= l -> slot_of x l id < 32 -> digit l id <= slot_of x l id ->
  0 <= next_id l id (slot_of x l id) < 2 ^ 30 ->
  sub_alloc_loop (S fuel) idp sid pa p l id =
    let id' := next_id l id (slot_of x l id) in
    if l =? 0 then pa ← pa_set pa l (Some p); Some (idp, id', sid, pa)
    else
      r ← make_child idp p (slot_of x l id) l;
      match r with
      | (idp, None) => Some (idp, -1, sid, pa)
      | (idp, Some c) => pa ← pa_set pa l (Some p); sub_alloc_loop fuel idp sid pa c (l - 1) id'
      end.
Proof.
  intros Hx Hl Hm Hn Hid. simpl. rewrite Hx. simpl. rewrite digit_code by done. fold (slot_of x l id).
  pose proof (digit_range l id). rewrite (proj2 (Z.eqb_neq (slot_of x l id) IDR_SIZE)) by (change IDR_SIZE with 32; lia).
  rewrite exchange_code by lia. unfold next_id in *. set (m := slot_of x l id) in *.
  assert ((if m =? digit l id then id else s32 (lo (l - 1) (32 * anc l id + m))) =
    (if m =? digit l id then id else lo (l - 1) (32 * anc l id + m))) as ->.
  { destruct (m =? digit l id); [done|]. apply s32_id. lia. }
  set (id' := if m =? digit l id then _ else _) in *.
  rewrite (u32_small id') by (unfold two32; lia). change MAX_ID_BIT with (2 ^ 31).
  rewrite (proj2 (Z.leb_gt (2 ^ 31) id')), (proj2 (Z.ltb_ge id' 0)) by lia. simpl. done.
Qed.

Lemma loop_fail fuel idp sid pa p l id x : mem idp !! p = Some x -> 0 <= l -> slot_of x l id = 32 ->
  0 <= lo l (anc l id + 1) <= 2 ^ 30 ->
  sub_alloc_loop (S fuel) idp sid pa p l id =
    let id' := lo l (anc l id + 1) in
    v ← pa !! (l + 1);
    match v with
    | None => Some (idp, IDR_NEED_TO_GROW, id', pa)
    | Some p =>
        if anc (l + 1) id =? anc (l + 1) id' then sub_alloc_loop fuel idp sid pa p (l + 1) id'
        else p ← top idp; pa ← pa_set pa (layers idp) None; sub_alloc_loop fuel idp sid pa p (layers idp - 1) id'
    end.
Proof.
  intros Hx Hl Hm Hid. simpl. rewrite Hx. simpl. rewrite digit_code by done. fold (slot_of x l id).
  rewrite Hm. rewrite Z.eqb_refl. change (32 =? IDR_SIZE) with true. simpl.
  rewrite carry_code by lia. replace (l + 1 - 1) with l by lia. rewrite s32_id by done. done.
Qed.

(** The layer below a slot is there afterwards, unless a layer was missing. *)
Lemma make_child_spec idp A U F Fr l q p m :
  inv idp A U F Fr -> A !! (l, q) = Some p -> 0 < l -> 0 <= m < 32 ->
  (Fr = [] /\ make_child idp p m l = Some (idp, None)) \/
  exists idp' c A' Fr', make_child idp p m l = Some (idp', Some c) /\ inv idp' A' U F Fr' /\ A ⊆ A' /\
    A' !! (l - 1, 32 * q + m) = Some c /\ layers idp' = layers idp /\
    (A !! (l - 1, 32 * q + m) = Some c /\ idp' = idp /\ A' = A /\ Fr' = Fr \/
     A !! (l - 1, 32 * q + m) = None /\ length Fr = S (length Fr')).
Proof.
  intros W Hp Hl Hm. destruct (w_nodes W _ _ _ Hp) as (x & Hx & Hok). unfold make_child. rewrite Hx. simpl.
  pose proof (n_ary _ _ _ _ _ _ _ Hok m Hm) as Ha. rewrite child_node in Ha by lia.
  destruct (A !! (l - 1, 32 * q + m)) as [c|] eqn:Hc; simpl in Ha; rewrite Ha.
  { right. exists idp, c, A, Fr. split_and!; try done. by left. }
  destruct Fr as [|c Fr].
  { left. split; [done|]. by rewrite (wf_take_none _ W). }
  right. destruct (wf_take _ W) as (idp1 & y & Hg & W1 & Hy & Hb & Ht & HL & Hm1). rewrite Hg. simpl. rewrite Hy. simpl.
  assert (p <> c) as Hpc. { intros ->. destruct (w_pend W1 c eq_refl) as (_ & H & _). by apply (H (l, q)). }
  rewrite lookup_insert_ne, Hm1, Hx by done. simpl.
  eexists _, c, (<[(l - 1, 32 * q + m) := c]> A), Fr. split; [done|].
  split_and!; [| |by rewrite lookup_insert_eq|done|by right].
  - unfold inv. simpl. rewrite Ht, HL. apply wf_attach; try done. by rewrite Hm1.
  - by apply insert_subseteq.
Qed.

(** ** The search *)

(** [v] is the least id from [s] on that is not in [F]. *)
Definition least_free (F : gset Z) (s v : Z) : Prop := s <= v /\ v ∉ F /\ forall i, s <= i < v -> i ∈ F.

(** The search from [s] in a tree of [L] levels succeeded, or was short of layers
    with fewer than [k] to begin with. *)
Definition search_ok (L k : Z) (U : users) (F : gset Z) (Fr : list addr) (s : Z) (r : alloc_result) : Prop :=
  let '(idp', v, _, pa) := r in
  exists A' Fr', inv idp' A' U F Fr' /\ layers idp' = L /\
    (v = -1 /\ Z.of_nat (length Fr) < k \/ least_free F s v /\ v < width (L - 1) /\ path_ok A' L pa 0 v).

Lemma search_ok_mono L k k' U F Fr Fr' s r :
  search_ok L k U F Fr s r -> k + Z.of_nat (length Fr') <= k' + Z.of_nat (length Fr) -> search_ok L k' U F Fr' s r.
Proof.
  destruct r as [[[idp' v] sid] pa]. intros (A' & F' & W & HL & H) Hk. exists A', F'. split_and!; [done|done|].
  destruct H as [[-> H]|H]; [left; split; [done|lia]|by right].
Qed.

Section search.
Context (L : Z) (U : users) (F : gset Z) (s sid : Z).

(** The search cannot fail below this layer: it starts at the first id of a
    layer with a free id, or in a layer with no id taken. *)
Definition sure (l id : Z) : Prop :=
  (id = lo l (anc l id) /\ ~ full F l (anc l id)) \/ (forall i, anc l i = anc l id -> i ∉ F).

(** The round finds a slot, and the search below it is sure again. *)
Lemma sure_round A E l id x : 0 <= l -> node_ok A U (level F) E l (anc l id) x -> sure l id ->
  digit l id <= slot_of x l id < 32 /\ (forall i, id <= i < next_id l id (slot_of x l id) -> i ∈ F) /\
  sure (l - 1) (next_id l id (slot_of x l id)).
Proof.
  intros Hl Hok Hs. pose proof (digit_range l id) as Hd.
  destruct (next_free_spec F l (anc l id) (bitmap x) (digit l id) (n_bits _ _ _ _ _ _ _ Hok) Hd) as (H1 & H2 & H3).
  fold (slot_of x l id) in *. set (m := slot_of x l id) in *.
  assert (m < 32 /\ sure (l - 1) (next_id l id m)) as [Hm Hs'].
  - destruct Hs as [[Hid Hnf]|Hno].
    + assert (anc (l - 1) id = 32 * anc l id) as Hd0.
      { rewrite Hid at 1. rewrite lo_pred by done. apply anc_lo. lia. }
      assert (digit l id = 0) as Hz by (rewrite <- digit_spec in Hd0 by done; lia).
      assert (m <> 32) as Hne.
      { intros ->. apply Hnf. apply full_slots; [done|]. intros n Hn. apply H2. lia. }
      split; [lia|]. destruct (next_id_spec l id m Hl ltac:(lia)) as (Ha & _ & _). left. rewrite Ha.
      split; [|apply H3; lia]. unfold next_id. destruct (Z.eqb_spec m (digit l id)) as [->|]; [|done].
      rewrite Hz, Z.add_0_r, <- lo_pred by done. done.
    + assert (m = digit l id) as Hm.
      { destruct (decide (m = digit l id)); [done|]. exfalso. specialize (H2 (digit l id) ltac:(lia)).
        rewrite digit_spec in H2 by done. apply (Hno id eq_refl). by apply H2. }
      split; [lia|]. unfold next_id. rewrite Hm, Z.eqb_refl. right. intros i Hi. apply Hno.
      by apply (anc_up (l - 1)); [lia|].
  - split_and!; [lia|done| |done]. intros i Hi. apply (next_id_skip F l id m i); try done; lia.
Qed.

Lemma sure_leaf id : sure (-1) id -> id ∉ F.
Proof. intros [[_ Hf]|Hno]; [by rewrite full_leaf in Hf|]. by apply Hno. Qed.

Lemma next_id_range l id m : 0 <= l < L -> digit l id <= m < 32 -> 0 <= id < width (L - 1) -> 0 <= next_id l id m < width (L - 1).
Proof.
  intros Hl Hm Hid. destruct (next_id_spec l id m ltac:(lia) Hm) as (_ & H2 & H3).
  assert (anc (L - 1) (next_id l id m) = anc (L - 1) id) as He by (by apply (anc_up l); [lia|]).
  assert (anc (L - 1) id = 0) as H0 by (apply anc_spec; [lia|]; unfold lo; lia).
  rewrite H0 in He. apply anc_spec in He; [|lia]. unfold lo in He. lia.
Qed.

(** The descent when the search is sure. *)
Lemma sub_alloc_sure l fuel idp A Fr pa p id :
  inv idp A U F Fr -> layers idp = L -> 0 <= l < L -> A !! (l, anc l id) = Some p -> path_ok A L pa (l + 1) id ->
  0 <= id < width (L - 1) -> sure l id -> s <= id -> (forall i, s <= i < id -> i ∈ F) -> l < Z.of_nat fuel ->
  exists r, sub_alloc_loop fuel idp sid pa p l id = Some r /\ search_ok L l U F Fr s r.
Proof.
  intros W HLd Hl. pose proof (w_L W) as HL. rewrite HLd in HL. revert fuel idp A Fr pa p id W HLd.
  remember (Z.to_nat l) as k eqn:Hk. revert l Hl Hk.
  induction k as [|k IH]; intros l Hl Hk fuel idp A Fr pa p id W HLd Hp Hpath Hid Hs Hsid Hlow Hfuel;
    destruct fuel as [|fuel]; [lia| |lia|]; destruct (w_nodes W _ _ _ Hp) as (x & Hx & Hok);
    destruct (sure_round _ _ l id x ltac:(lia) Hok Hs) as (Hm & Hskip & Hs'); set (m := slot_of x l id) in *;
    destruct (next_id_spec l id m ltac:(lia) Hm) as (Hn1 & Hn2 & Hn3);
    pose proof (next_id_range l id m Hl Hm Hid) as Hnr; pose proof (width_bound L HL) as Hw;
    rewrite (loop_found fuel idp sid pa p l id x Hx); (try (fold m; lia)); fold m; cbv zeta;
    assert (forall i, s <= i < next_id l id m -> i ∈ F) as Hlow'
      by (intros i Hi; destruct (decide (i < id)); [apply Hlow; lia|apply Hskip; lia]).
  - assert (l = 0) as -> by lia. rewrite Z.eqb_refl.
    destruct (path_ok_next A A L pa 0 id (next_id 0 id m) p Hpath ltac:(done) ltac:(lia) ltac:(lia) Hp Hn2) as [-> Hp'].
    simpl. eexists. split; [done|]. exists A, Fr. split_and!; [done|done|]. right. split_and!; [|lia|done].
    split_and!; [lia|by apply sure_leaf|done].
  - rewrite (proj2 (Z.eqb_neq l 0)) by lia.
    destruct (make_child_spec idp A U F Fr l (anc l id) p m W Hp ltac:(lia) ltac:(pose proof (digit_range l id); lia))
      as [[-> ->]|(idp' & c & A' & Fr' & -> & W' & Hsub & Hc & HL' & Hcase)]; simpl.
    { eexists. split; [done|]. exists A, []. split_and!; [done|done|]. left. simpl. lia. }
    destruct (path_ok_next A A' L pa l id (next_id l id m) p Hpath Hsub ltac:(lia) ltac:(lia) Hp Hn2) as [-> Hp']. simpl.
    destruct (IH (l - 1) ltac:(lia) ltac:(lia) fuel idp' A' Fr' (<[l := Some p]> pa) c (next_id l id m)) as (r & Hr & Hok');
      try done; try lia; [by rewrite Hn1|by replace (l - 1 + 1) with l by lia|].
    exists r. split; [done|]. apply (search_ok_mono _ _ _ _ _ _ _ _ _ Hok').
    destruct Hcase as [(_ & _ & _ & ->)|[_ ->]]; lia.
Qed.

(** Where the search can begin: there is a free id from [s] on, or the last
    slot of the top is full, or there is only one layer. *)
Definition regular : Prop := L <= 1 \/ (exists i, s <= i < width (L - 1) /\ i ∉ F) \/ full F (L - 2) 31.

Definition alloc_ok (idp : idr) (Fr : list addr) (r : alloc_result) : Prop :=
  search_ok L (L - 1) U F Fr s r \/
  exists pa', r = (idp, IDR_NEED_TO_GROW, width (L - 1), pa') /\ forall i, s <= i < width (L - 1) -> i ∈ F.

(** When no slot is left in a layer, the ids up to its end are taken. *)
Lemma fail_full l q id b i : 0 <= l -> q = anc l id -> bits_ok F l q b -> 
  find_next_bit (Z.lxor IDR_FULL b) IDR_SIZE (digit l id) = 32 -> id <= i < lo l (q + 1) -> i ∈ F.
Proof.
  intros Hl -> Hb Hm Hi. pose proof (digit_range l id) as Hd.
  destruct (next_free_spec F l (anc l id) b (digit l id) Hb Hd) as (_ & H2 & _). rewrite Hm in H2.
  assert (anc l i = anc l id) as Ha.
  { apply anc_spec; [lia|]. pose proof (lo_anc l id ltac:(lia)). lia. }
  apply (H2 (digit l i)); [|by rewrite <- Ha, digit_spec].
  pose proof (digit_range l i). pose proof (anc_mono (l - 1) id i ltac:(lia) ltac:(lia)) as Hmono.
  rewrite <- (digit_spec l i), <- (digit_spec l id) in Hmono by done. lia.
Qed.

(** The prefix of the id before the carry at the end of the tree. *)
Lemma carry_end l id : 0 <= l < L - 1 -> 0 <= id < width (L - 1) -> width (L - 1) <= lo l (anc l id + 1) -> anc (L - 2) id = 31.
Proof.
  intros Hl Hid Hge. set (e := width (L - 1) - 1).
  assert (anc l e <= anc l id) as H1.
  { assert (~ anc l id + 1 <= anc l e); [|lia]. intros Hle. pose proof (lo_mono l _ _ ltac:(lia) Hle).
    pose proof (lo_anc l e ltac:(lia)). lia. }
  pose proof (anc_mono l id e ltac:(lia) ltac:(lia)). rewrite (anc_up l (L - 2) id e) by lia.
  apply anc_spec; [lia|]. unfold lo. subst e. replace (L - 1) with (L - 2 + 1) by lia. rewrite width_succ by lia.
  pose proof (width_pos (L - 2)). lia.
Qed.

(** The carry of a failed round leaves the tree only where no id is free. *)
Lemma carry_range l id : 0 <= l < L -> 0 <= id < width (L - 1) -> 0 <= lo l (anc l id + 1) <= width (L - 1).
Proof.
  intros Hl Hid. pose proof (width_pos l ltac:(lia)). pose proof (anc_nonneg l id ltac:(lia)).
  split; [unfold lo; nia|].
  assert (~ width (L - 1) < lo l (anc l id + 1)); [|lia]. intros Hlt.
  assert (anc l (width (L - 1)) = anc l id) as He.
  { apply anc_spec; [lia|]. pose proof (lo_anc l id ltac:(lia)). lia. }
  apply (anc_up l (L - 1)) in He; [|lia].
  rewrite (proj2 (anc_spec (L - 1) id 0 ltac:(lia))) in He by (unfold lo; lia).
  replace (width (L - 1)) with (lo (L - 1) 1) in He by (unfold lo; lia). rewrite anc_lo in He by lia. lia.
Qed.

Lemma top_prefix id : 1 <= L -> 0 <= id < width (L - 1) <-> anc (L - 1) id = 0.
Proof. intros. rewrite anc_spec by lia. unfold lo. lia. Qed.

Section rounds.
Context (idp : idr) (A : placement) (Fr : list addr) (W : inv idp A U F Fr) (HLd : layers idp = L) (Hreg : regular).

(** The state before a round at level [l], with the last [f] digits of the id 0. *)
Record round_ok (f l : Z) (pa : path) (p : addr) (id : Z) : Prop := {
  r_f : 0 <= f <= l;
  r_l : l < L;
  r_p : A !! (l, anc l id) = Some p;
  r_path : path_ok A L pa (l + 1) id;
  r_id : 0 <= id < width (L - 1);
  r_zero : id = lo (f - 1) (anc (f - 1) id);
  r_free : forall j, l <= j < L - 1 -> ~ full F j (anc j id);
  r_start : s <= id;
  r_low : forall i, s <= i < id -> i ∈ F
}.

(** Each failed round has more digits 0 than the one before. *)
Definition rounds (f l : Z) : Z := (L - f) * (L + 1) + l + 1.
Definition goes (f l : Z) : Prop := forall fuel pa p id, round_ok f l pa p id -> rounds f l <= Z.of_nat fuel ->
  exists r, sub_alloc_loop fuel idp sid pa p l id = Some r /\ alloc_ok idp Fr r.

Lemma L_range : 0 <= L <= 6.
Proof. pose proof (w_L W). lia. Qed.

(** No slot is left: the search goes up, or on from the top. *)
Lemma round_fail f l fuel pa p id x : (forall f' l', f < f' -> goes f' l') -> round_ok f l pa p id ->
  mem idp !! p = Some x -> bits_ok F l (anc l id) (bitmap x) -> slot_of x l id = 32 -> rounds f l <= Z.of_nat (S fuel) ->
  exists r, sub_alloc_loop (S fuel) idp sid pa p l id = Some r /\ alloc_ok idp Fr r.
Proof.
  intros IH [Hf Hl Hp Hpath Hid Hal Hnf Hsid Hlow] Hx Hb Hm Hfuel. pose proof L_range as HL. pose proof (width_bound L HL) as Hw.
  pose proof (carry_range l id ltac:(lia) Hid) as Hcr. rewrite (loop_fail fuel idp sid pa p l id x Hx) by (done || lia).
  cbv zeta. set (id' := lo l (anc l id + 1)) in *.
  assert (forall i, s <= i < id' -> i ∈ F) as Hlow'.
  { intros i Hi. destruct (decide (i < id)); [apply Hlow; lia|].
    by apply (fail_full l (anc l id) id (bitmap x)); [lia|done|done|done|lia]. }
  assert (id < id') as Hlt by apply (lo_anc l id ltac:(lia)).
  assert (id' = lo (l + 1 - 1) (anc (l + 1 - 1) id')) as Hal'.
  { replace (l + 1 - 1) with l by lia. unfold id'. by rewrite anc_lo by lia. }
  destruct (decide (l + 1 = L)) as [HlL|HlL].
  - rewrite HlL. destruct Hpath as [-> _]. simpl. eexists. split; [done|]. right. exists pa.
    assert (id' = width (L - 1)) as He.
    { unfold id'. replace l with (L - 1) by lia. rewrite (proj1 (top_prefix id ltac:(lia)) Hid). unfold lo. lia. }
    split; [by rewrite He|]. intros i Hi. apply Hlow'. lia.
  - destruct (proj2 Hpath (l + 1) ltac:(lia)) as (p' & -> & Hp'). simpl.
    destruct (Z.eqb_spec (anc (l + 1) id) (anc (l + 1) id')) as [He|Hne].
    + assert (forall j, l + 1 <= j -> anc j id' = anc j id) as Hup by (intros j Hj; apply (anc_up (l + 1)); [lia|done]).
      apply (IH (l + 1)); [lia| |unfold rounds in *; nia]. constructor; try done; try lia.
      * by rewrite <- He.
      * split; [apply Hpath|]. intros j Hj. rewrite Hup by lia. apply Hpath. lia.
      * apply top_prefix; [lia|]. rewrite Hup by lia. by apply top_prefix; [lia|].
      * intros j Hj. rewrite Hup by lia. apply Hnf. lia.
    + assert (id' < width (L - 1)) as Hid'.
      { assert (id' <> width (L - 1)); [|lia]. intros Hend. destruct Hreg as [?|[(i & Hi & Hfree)|Hfull]]; [lia| |].
        - apply Hfree, Hlow'. lia.
        - apply (Hnf (L - 2)); [lia|]. by rewrite (carry_end l id) by lia. }
      rewrite HLd. destruct (w_root W ltac:(lia)) as [t Ht]. rewrite Ht. simpl.
      unfold pa_set. change MAX_LEVEL with 7. rewrite bool_decide_true by lia. simpl.
      apply (IH (l + 1)); [lia| |unfold rounds in *; nia]. constructor; try done; try lia.
      * rewrite (proj1 (top_prefix id' ltac:(lia))) by lia. by rewrite <- Ht, (w_top W), HLd.
      * replace (L - 1 + 1) with L by lia. split; [by rewrite lookup_insert_eq|]. intros j Hj. lia.
Qed.

(** A slot is found: the search below it is sure, or goes on with the layer there. *)
Lemma round_found f l fuel pa p id x : goes f (l - 1) -> round_ok f l pa p id ->
  mem idp !! p = Some x -> bits_ok F l (anc l id) (bitmap x) -> slot_of x l id <> 32 -> rounds f l <= Z.of_nat (S fuel) ->
  exists r, sub_alloc_loop (S fuel) idp sid pa p l id = Some r /\ alloc_ok idp Fr r.
Proof.
  intros IH [Hf Hl Hp Hpath Hid Hal Hnf Hsid Hlow] Hx Hb Hm Hfuel. pose proof L_range as HL. pose proof (width_bound L HL) as Hw.
  pose proof (digit_range l id) as Hd.
  destruct (next_free_spec F l (anc l id) (bitmap x) (digit l id) Hb Hd) as (H1 & H2 & H3).
  fold (slot_of x l id) in *. set (m := slot_of x l id) in *.
  destruct (next_id_spec l id m ltac:(lia) ltac:(lia)) as (Hn1 & Hn2 & Hn3).
  pose proof (next_id_range l id m ltac:(lia) ltac:(lia) Hid) as Hnr.
  rewrite (loop_found fuel idp sid pa p l id x Hx); (try (fold m; lia)); fold m; cbv zeta.
  assert (forall i, s <= i < next_id l id m -> i ∈ F) as Hlow'.
  { intros i Hi. destruct (decide (i < id)); [apply Hlow; lia|]. apply (next_id_skip F l id m i); try done; lia. }
  destruct (Z.eqb_spec l 0) as [->|Hl0].
  { destruct (path_ok_next A A L pa 0 id (next_id 0 id m) p Hpath ltac:(done) ltac:(lia) ltac:(lia) Hp Hn2) as [-> Hp'].
    simpl. eexists. split; [done|]. left. exists A, Fr. split_and!; [done|done|]. right. split_and!; [|lia|done].
    split_and!; [lia| |done]. rewrite <- full_leaf. change (0 - 1) with (-1) in *. rewrite <- (anc_m1 (next_id 0 id m)), Hn1. apply H3. lia. }
  destruct (make_child_spec idp A U F Fr l (anc l id) p m W Hp ltac:(lia) ltac:(lia))
    as [[HFr ->]|(idp' & c & A' & Fr' & -> & W' & Hsub & Hc & HL' & Hcase)]; simpl.
  { eexists. split; [done|]. left. exists A, Fr. split_and!; [done|done|]. left. rewrite HFr. simpl. lia. }
  destruct (path_ok_next A A' L pa l id (next_id l id m) p Hpath Hsub ltac:(lia) ltac:(lia) Hp Hn2) as [-> Hp']. simpl.
  assert (sure (l - 1) (next_id l id m) \/ m = digit l id /\ f <= l - 1 /\ idp' = idp /\ A' = A) as [Hs|(Hmn & Hf' & -> & ->)].
  { destruct (decide (next_id l id m = lo (l - 1) (anc (l - 1) (next_id l id m)))) as [He|Hne].
    { left. left. split; [done|]. rewrite Hn1. apply H3. lia. }
    assert (m = digit l id) as Hmn.
    { destruct (Z.eqb_spec m (digit l id)) as [|Hne']; [done|]. exfalso. apply Hne. rewrite Hn1. unfold next_id.
      by rewrite (proj2 (Z.eqb_neq _ _) Hne'). }
    destruct Hcase as [(_ & -> & -> & _)|[Hnone _]].
    - right. split_and!; try done. assert (f <> l); [|lia]. intros ->. apply Hne. unfold next_id. by rewrite Hmn, Z.eqb_refl.
    - left. right. intros i Hi HiF. rewrite Hn1 in Hi. pose proof (absent_user W (l - 1) _ i ltac:(lia) Hnone Hi) as Hu.
      apply (w_F W 0), elem_of_dom in HiF. rewrite Hu in HiF. by destruct HiF. }
  - destruct (sub_alloc_sure (l - 1) fuel idp' A' Fr' (<[l := Some p]> pa) c (next_id l id m)) as (r & Hr & Hok');
      try done; try lia; [by rewrite Hn1|by replace (l - 1 + 1) with l by lia|unfold rounds in *; nia|].
    exists r. split; [done|]. left. apply (search_ok_mono _ _ _ _ _ _ _ _ _ Hok').
    destruct Hcase as [(_ & _ & _ & ->)|[_ ->]]; lia.
  - assert (next_id l id m = id) as He by (unfold next_id; by rewrite Hmn, Z.eqb_refl). rewrite He in *.
    apply IH; [|unfold rounds in *; nia]. constructor; try done; try lia.
    + by rewrite Hn1.
    + by replace (l - 1 + 1) with l by lia.
    + intros j Hj. destruct (decide (j = l - 1)) as [->|]; [rewrite Hn1; apply H3; lia|apply Hnf; lia].
Qed.

Lemma search_goes f l : goes f l.
Proof.
  remember (Z.to_nat (L - f)) as k eqn:Hk. revert f l Hk. induction (lt_wf k) as [k _ IHf]. intros f l Hk.
  remember (Z.to_nat l) as d eqn:Hd. revert l Hd. induction (lt_wf d) as [d _ IHl]. intros l Hd.
  intros fuel pa p id Hr Hfuel. pose proof (r_f _ _ _ _ _ Hr). pose proof (r_l _ _ _ _ _ Hr).
  destruct fuel as [|fuel]; [unfold rounds in *; nia|].
  destruct (w_nodes W _ _ _ (r_p _ _ _ _ _ Hr)) as (x & Hx & Hok). pose proof (n_bits _ _ _ _ _ _ _ Hok) as Hb.
  destruct (decide (slot_of x l id = 32)).
  - apply (round_fail f l fuel pa p id x); try done. intros f' l' Hf'.
    intros fuel' pa' p' id' Hr'. pose proof (r_f _ _ _ _ _ Hr'). pose proof (r_l _ _ _ _ _ Hr').
    by apply (IHf (Z.to_nat (L - f')) ltac:(lia) f' l').
  - apply (round_found f l fuel pa p id x); try done.
    intros fuel' pa' p' id' Hr'. pose proof (r_f _ _ _ _ _ Hr'). pose proof (r_l _ _ _ _ _ Hr').
    by apply (IHl (Z.to_nat (l - 1)) ltac:(lia)).
Qed.

(** [sub_alloc] in a tree that reaches beyond the starting id. *)
Lemma sub_alloc_spec pa : 1 <= L -> sid = s -> 0 <= s < width (L - 1) ->
  exists r, sub_alloc idp sid pa = Some r /\ alloc_ok idp Fr r.
Proof.
  intros H1 Hs Hid. pose proof L_range as HL. unfold sub_alloc. destruct (w_root W ltac:(lia)) as [t Ht]. rewrite Ht.
  rewrite HLd. unfold pa_set. change MAX_LEVEL with 7. rewrite bool_decide_true by lia. cbn [mbind option_bind].
  apply (search_goes 0); [|unfold rounds; change (Z.of_nat 64) with 64; nia].
  constructor; rewrite ?Hs; try done; try lia.
  - rewrite (proj1 (top_prefix s ltac:(lia)) Hid). by rewrite <- Ht, (w_top W), HLd.
  - replace (L - 1 + 1) with L by lia. split; [by rewrite lookup_insert_eq|]. intros j Hj. lia.
  - unfold lo. change (0 - 1) with (-1). rewrite anc_m1. change (width (-1)) with 1. lia.
Qed.

End rounds.

End search.

End IdrAlloc.

(** * The idr: growing the tree

    [idr_get_empty_slot] adds layers on top until the tree reaches the starting
    id, takes them back if there are too few, and searches.  It returns the
    least free id, or fails for lack of layers. *)

Local Open Scope Z_scope.
Local Open Scope kernel_scope.

Module IdrGrow.
Import Idr IdrInv IdrTree IdrAlloc.

Lemma shift_width L : 0 <= L -> Z.shiftl 1 (L * IDR_BITS) = width (L - 1).
Proof. intros. unfold IDR_BITS, width. rewrite Z.shiftl_mul_pow2, Z.mul_1_l by lia. f_equal. lia. Qed.

Lemma grow_test L id : 0 <= L -> (L <? MAX_LEVEL - 1) && (Z.shiftl 1 (L * IDR_BITS) <=? id) = bool_decide (L < 6 /\ width (L - 1) <= id).
Proof.
  intros. rewrite shift_width by done. change (MAX_LEVEL - 1) with 6. case_bool_decide as Hd.
  - apply andb_true_intro. split; [apply Z.ltb_lt|apply Z.leb_le]; lia.
  - apply andb_false_iff. destruct (decide (L < 6)); [right; apply Z.leb_gt; lia|left; apply Z.ltb_ge; lia].
Qed.

Section grow.
Context (U : users) (F : gset Z).
Notation tree tp L idp A Fr := (wf tp L idp A U (level F) exact Fr None).

(** ** Taking layers back *)

(** From the level [L0] on the tree is a chain of new layers over the old top. *)
Definition chain (L0 : Z) (A : placement) (t : addr) : Prop :=
  A !! (L0 - 1, 0) = Some t /\ forall l q a, A !! (l, q) = Some a -> L0 - 1 <= l -> q = 0.

Lemma chain_node L0 L idp A Fr p t x : tree (Some p) L idp A Fr -> chain L0 A t -> 1 <= L0 < L -> mem idp !! p = Some x ->
  exists p', ary x !! 0 = Some p' /\ nkids A U (L - 1) 0 = 1 /\ (forall n, n <> 0 -> ary x !! n = None) /\ p <> t.
Proof.
  intros W [Ht Hc] HL Hx. pose proof (w_top W) as Hp. destruct (w_nodes W _ _ _ (eq_sym Hp)) as (x0 & Hx0 & Hok). simplify_eq.
  assert (is_Some (A !! (L - 1 - 1, 0))) as [p' Hp'].
  { destruct (decide (L0 = L - 1)) as [->|]; [by eexists|].
    pose proof (present_up W (L0 - 1) (L - 1 - 1) 0 ltac:(lia) ltac:(lia)) as Hup.
    assert (forall l, anc l 0 = 0) as Hz by (intros l; apply Z.shiftr_0_l). rewrite !Hz, child_node in Hup by lia.
    apply Hup. rewrite Ht. by eexists. }
  assert (forall n, 0 < n < 32 -> child A U (L - 1 - 1) n = None) as Hn.
  { intros n Hn. rewrite child_node by lia. destruct (A !! (L - 1 - 1, n)) eqn:Hl; [|done].
    apply Hc in Hl; lia. }
  exists p'. split_and!.
  - rewrite (n_ary _ _ _ _ _ _ _ Hok 0) by lia. change (32 * 0 + 0) with 0. rewrite child_node, Hp' by lia. done.
  - apply nkids_single; [|done]. rewrite child_node, Hp' by lia. by eexists.
  - intros n Hn0. destruct (decide (0 <= n < 32)) as [Hr|Hr].
    + rewrite (n_ary _ _ _ _ _ _ _ Hok n) by lia. change (32 * 0 + n) with n. by rewrite Hn by lia.
    + destruct (ary x !! n) eqn:He; [|done]. by destruct Hr; eapply (n_dom _ _ _ _ _ _ _ Hok); eexists.
  - intros ->. pose proof (w_inj W _ _ _ Ht (eq_sym Hp)) as [=]. lia.
Qed.

Lemma tear_down_spec L0 k idp A Fr p t L fuel :
  tree (Some p) L idp A Fr -> chain L0 A t -> 1 <= L0 -> L - L0 = Z.of_nat k -> top idp = Some t -> (k < fuel)%nat ->
  exists idp' A' Fr', tear_down fuel idp (Some p) = Some idp' /\ tree (Some t) L0 idp' A' Fr' /\
    top idp' = Some t /\ layers idp' = layers idp /\ Z.of_nat (length Fr') = Z.of_nat (length Fr) + (L - L0).
Proof.
  revert idp A Fr p L fuel. induction k as [|k IH]; intros idp A Fr p L fuel W Hc H1 HL Ht Hfuel;
    (destruct fuel as [|fuel]; [lia|]); simpl.
  - assert (L = L0) as -> by lia. assert (p = t) as ->.
    { pose proof (w_top W) as Hp. destruct Hc as [Hc _]. congruence. }
    rewrite bool_decide_true by done. exists idp, A, Fr. split_and!; try done; try lia.
  - destruct (w_nodes W _ _ _ (eq_sym (w_top W))) as (x & Hx & Hok).
    destruct (chain_node L0 L idp A Fr p t x W Hc ltac:(lia) Hx) as (p' & H0 & Hk & Hn & Hne).
    rewrite bool_decide_false by congruence. rewrite Hx. simpl.
    pose proof (wf_drop_top _ _ _ _ _ _ _ _ _ _ W ltac:(lia) Hx H0 Hk) as W1.
    apply (wf_put_pend p (set_count (set_bitmap (set_slot x 0 None) 0) 0)) in W1.
    eapply wf_give in W1 as (idp1 & -> & W2 & Ht2 & HL2 & _); [|simpl; by rewrite lookup_insert_eq|done|done|].
    2:{ intros n Hn0. simpl. rewrite lookup_partial_alter_ne by done. by apply Hn. }
    simpl. rewrite H0.
    destruct (IH idp1 (delete (L - 1, 0) A) (p :: Fr) p' (L - 1) fuel) as (idp' & A' & Fr' & -> & W' & Ht' & HL' & Hlen);
      [done| |done|lia|by rewrite Ht2|lia|].
    { destruct Hc as [Hc1 Hc2]. split; [rewrite lookup_delete_ne; [done|intros [=]; lia]|].
      intros l q a [_ Ha]%lookup_delete_Some. by apply (Hc2 l q a). }
    exists idp', A', Fr'. split_and!; [done|done|done|by rewrite HL', HL2|]. rewrite Hlen. simpl. lia.
Qed.

(** ** Adding layers *)

(** The tree reaches [id], or as far as it can. *)
Definition reaches (L id : Z) : Prop := L = 6 \/ id < width (L - 1).

Lemma grow_full k L0 idp A Fr p t x L fuel id :
  tree (Some p) L idp A Fr -> chain L0 A t -> 1 <= L0 <= L -> 6 - L = Z.of_nat k -> top idp = Some t ->
  mem idp !! p = Some x -> count x <> 0 -> (k < fuel)%nat ->
  exists idp' A' Fr' v L', grow_loop fuel idp p L id = Some (idp', v, L') /\ layers idp' = layers idp /\ top idp' = top idp /\
    match v with
    | Some p' => tree (Some p') L' idp' A' Fr' /\ L <= L' /\ reaches L' id /\ (id < width (L - 1) -> L' = L) /\
        Z.of_nat (length Fr) = Z.of_nat (length Fr') + (L' - L)
    | None => tree (Some t) L0 idp' A' Fr' /\ Z.of_nat (length Fr) < 6 - L
    end.
Proof.
  revert idp A Fr p x L fuel. induction k as [|k IH]; intros idp A Fr p x L fuel W Hc H1 HL Ht Hx Hcx Hfuel;
    (destruct fuel as [|fuel]; [lia|]); cbn [grow_loop]; rewrite grow_test by lia.
  { rewrite bool_decide_false by lia. exists idp, A, Fr, (Some p), L. split_and!; try done; try lia. left. lia. }
  case_bool_decide as Hg.
  2:{ exists idp, A, Fr, (Some p), L. split_and!; try done; try lia. right. lia. }
  rewrite Hx. cbn [mbind option_bind]. rewrite (proj2 (Z.eqb_neq _ _) Hcx). destruct Fr as [|new Fr].
  { rewrite (wf_take_none _ W). cbn [mbind option_bind].
    destruct (tear_down_spec L0 (Z.to_nat (L - L0)) idp A [] p t L 8 W Hc ltac:(lia) ltac:(lia) Ht ltac:(pose proof (w_L W); lia))
      as (idp' & A' & Fr' & -> & W' & Ht' & HL' & Hlen). cbn [mbind option_bind].
    exists idp', A', Fr', None, (L + 1). split_and!; try done; try congruence. simpl. lia. }
  destruct (wf_take _ W) as (idp1 & y & -> & W1 & Hy & Hb & Ht1 & HL1 & Hm1). cbn [mbind option_bind]. rewrite Hy. cbn [mbind option_bind].
  assert (p <> new) as Hpn. { intros ->. destruct (w_pend W1 new eq_refl) as (_ & H & _). by apply (H (L - 1, 0)); rewrite <- (w_top W1). }
  set (y' := if bitmap x =? IDR_FULL then _ else _).
  assert (y' = mk_layer (if bitmap x =? IDR_FULL then Z.setbit 0 0 else 0) {[0 := p]} 1 L) as Hy'.
  { unfold y'. destruct Hb as (Hb1 & _ & Hb2). assert (ary y = ∅) as He by (apply map_eq; intros i; by rewrite Hb2).
    destruct (bitmap x =? IDR_FULL); unfold set_layer, set_count, set_slot, set_bitmap; simpl; rewrite Hb1, He; f_equal; lia. }
  pose proof (wf_grow p L idp1 A U (level F) Fr new x y y' W1 ltac:(lia) ltac:(by rewrite Hm1) Hy Hb eq_refl Hy') as W2.
  destruct (IH (put idp1 new y') (<[(L, 0) := new]> A) Fr new y' (L + 1) fuel) as (idp' & A' & Fr' & v & L' & -> & HL' & Ht' & Hv);
    [done| |lia|lia|by simpl; rewrite Ht1|by simpl; rewrite lookup_insert_eq|by rewrite Hy'|lia|].
  { destruct Hc as [Hc1 Hc2]. split; [rewrite lookup_insert_ne; [done|intros [=]; lia]|].
    intros l q a. rewrite lookup_insert_Some. intros [[[= <- <-] _]|[_ Ha]]; [done|by apply (Hc2 l q a)]. }
  exists idp', A', Fr', v, L'. split_and!; [done|by rewrite HL'|by rewrite Ht'|]. destruct v as [p'|].
  - destruct Hv as (W' & H2 & H3 & H4 & H5). split_and!; [done|lia|done|lia|simpl; lia].
  - destruct Hv as (W' & H2). split; [done|simpl; lia].
Qed.

End grow.

(** ** A tree with no id *)

Lemma only_top tp L idp A U F E Fr pend l c : wf tp L idp A U F E Fr pend -> nkids A U (L - 1) 0 = 0 -> -1 <= l < L - 1 ->
  child A U l c = None.
Proof.
  intros W Hk Hl. destruct (child A U l c) eqn:Hc; [|done]. exfalso. assert (is_Some (child A U l c)) as Hs by (by eexists).
  rewrite <- (anc_lo l c) in Hs by lia. pose proof (present_top W l _ ltac:(lia) Hs) as Hr.
  assert (anc (L - 1) (lo l c) = 0) as H0 by (apply top_prefix; lia || done).
  assert (is_Some (child A U (L - 1 - 1) (anc (L - 1 - 1) (lo l c)))) as Hs'.
  { destruct (decide (l = L - 1 - 1)) as [<-|]; [done|]. rewrite child_node by lia. rewrite fmap_is_Some.
    apply (present_up W l); [lia|lia|done]. }
  rewrite anc_pred in H0 by lia.
  pose proof (nkids_zero A U (L - 1) 0 (anc (L - 1 - 1) (lo l c)) Hk ltac:(dlia)) as Hz. change (32 * 0) with 0 in Hz.
  rewrite Z.add_0_l in Hz. rewrite Hz in Hs'. by destruct Hs'.
Qed.

Lemma no_ids tp L idp A U F E Fr pend : wf tp L idp A U F E Fr pend -> (L = 0 \/ nkids A U (L - 1) 0 = 0) ->
  U = ∅ /\ (forall l, F l = ∅) /\ forall k a, A !! k = Some a -> k = (L - 1, 0).
Proof.
  intros W HL. assert (U = ∅) as HU.
  { apply map_eq. intros i. rewrite lookup_empty. destruct HL as [->|Hk].
    - destruct (U !! i) eqn:Hi; [|done]. destruct (w_par W (-1) i) as [a Ha]; [lia|by left|by eexists|].
      apply (w_range W) in Ha. lia.
    - destruct (U !! i) eqn:Hi; [|done]. assert (0 < L) by (apply (present_level W (-1) i ltac:(lia)); by eexists).
      rewrite <- (child_leaf A) in Hi. rewrite (only_top _ _ _ _ _ _ _ _ _ (-1) i W Hk) in Hi by lia. done. }
  split_and!; [done| |].
  - intros l. apply set_eq. intros i. split; [|by intros ?%not_elem_of_empty]. intros Hi%(w_F W l). subst U. by apply elem_of_dom in Hi as [? ?].
  - intros [l q] a Ha. pose proof (w_range W _ _ _ Ha) as [Hl Hq]. destruct (decide (l = L - 1)) as [->|]; [by rewrite Hq|].
    destruct HL as [->|Hk]; [lia|]. pose proof (only_top _ _ _ _ _ _ _ _ _ l q W Hk ltac:(lia)) as Hc.
    rewrite child_node, Ha in Hc by lia. done.
Qed.

(** The only layer is taken off. *)
Lemma wf_unroot p L idp A U F Fr x : wf (Some p) L idp A U F exact Fr None -> mem idp !! p = Some x -> count x = 0 -> 0 < L ->
  wf None 0 idp ∅ ∅ (level ∅) exact Fr (Some p) /\ U = ∅ /\ (forall l, F l = ∅) /\ blank x /\ layer x = L - 1.
Proof.
  intros W Hx Hc HL. destruct (w_nodes W _ _ _ (eq_sym (w_top W))) as (x0 & Hx0 & Hok). simplify_eq.
  assert (nkids A U (L - 1) 0 = 0) as Hk by (pose proof (n_count _ _ _ _ _ _ _ Hok); unfold exact in *; lia).
  destruct (no_ids _ _ _ _ _ _ _ _ _ W (or_intror Hk)) as (HU & HF & HA). split_and!; [|done|done| |apply Hok].
  - constructor; simpl; try apply W; try done; try lia.
    + intros l c Hl1 Hl2 [z Hz]. unfold child in Hz. by case_decide.
    + intros a [= <-]. split_and!; [by apply (w_disj W (L - 1, 0)); rewrite <- (w_top W)|done|by eexists].
    + intros a Ha. destruct (w_owned W _ Ha) as [[k Hk']|[?|?]]; [|by auto|done]. right. right.
      pose proof (HA _ _ Hk') as ->. by rewrite (w_top W).
  - split_and!; [|done|].
    + destruct (n_bits _ _ _ _ _ _ _ Hok) as [Hb1 Hb2]. apply Z.bits_inj'. intros n Hn. rewrite Z.bits_0.
      destruct (decide (n < 32)); [|by apply (proj1 (word_range (bitmap x) ltac:(lia))); [lia|lia]].
      destruct (Z.testbit (bitmap x) n) eqn:Ht; [|done]. apply Hb2 in Ht; [|lia]. exfalso.
      apply full_lo in Ht; [|lia]. rewrite HF in Ht. by apply not_elem_of_empty in Ht.
    + intros n. destruct (decide (0 <= n < 32)) as [Hn|Hn].
      * rewrite (n_ary _ _ _ _ _ _ _ Hok n Hn). by rewrite (nkids_zero _ _ _ _ _ Hk Hn).
      * destruct (ary x !! n) eqn:He; [|done]. by destruct Hn; eapply (n_dom _ _ _ _ _ _ _ Hok); eexists.
Qed.

Lemma grow_empty k idp Fr p x L fuel id :
  wf None 0 idp ∅ ∅ (level ∅) exact Fr (Some p) -> mem idp !! p = Some x -> blank x -> layer x = L - 1 -> 1 <= L ->
  6 - L = Z.of_nat k -> (k < fuel)%nat ->
  exists idp' L', grow_loop fuel idp p L id = Some (idp', Some p, L') /\ layers idp' = layers idp /\ top idp' = top idp /\
    wf (Some p) L' idp' {[(L' - 1, 0) := p]} ∅ (level ∅) exact Fr None /\ L <= L' /\ reaches L' id /\ (id < width (L - 1) -> L' = L).
Proof.
  revert idp x L fuel. induction k as [|k IH]; intros idp x L fuel W Hx Hb Hl HL Hk Hfuel;
    (destruct fuel as [|fuel]; [lia|]); cbn [grow_loop]; rewrite grow_test by lia.
  { rewrite bool_decide_false by lia. exists idp, L. split_and!; try done; try lia; [|left; lia].
    by apply (wf_single _ _ _ _ _ _ _ _ _ x _ W); [|lia|..]. }
  case_bool_decide as Hg.
  2:{ exists idp, L. split_and!; try done; try lia; [|right; lia].
      by apply (wf_single _ _ _ _ _ _ _ _ _ x _ W); [|lia|..]. }
  rewrite Hx. cbn [mbind option_bind]. rewrite (proj2 (Z.eqb_eq (count x) 0)) by apply Hb.
  destruct (IH (put idp p (set_layer x (layer x + 1))) (set_layer x (layer x + 1)) (L + 1) fuel)
    as (idp' & L' & -> & H1 & H2 & H3 & H4 & H5 & H6); [by apply wf_put_pend|simpl; by rewrite lookup_insert_eq|done|simpl; lia|lia..|].
  exists idp', L'. split_and!; try done; lia.
Qed.

(** ** One round of [build_up] before the search *)

Lemma grow_round idp A U F Fr s : inv idp A U F Fr -> 0 <= s < 2 ^ 30 ->
  exists idp1 v1 ls, first_layer idp = Some (idp1, v1, ls) /\
    match v1 with
    | None => idp1 = idp /\ Fr = []
    | Some p => exists idp2 v2 L2 A2 Fr2, grow_loop 8 idp1 p ls s = Some (idp2, v2, L2) /\
        match v2 with
        | None => inv idp2 A2 U F Fr2 /\ Z.of_nat (length Fr) < 6
        | Some p2 => inv (set_top idp2 (Some p2) L2) A2 U F Fr2 /\ 1 <= L2 /\ s < width (L2 - 1) /\
            (1 <= layers idp /\ L2 = layers idp /\ s < width (layers idp - 1) /\ length Fr2 = length Fr \/ width (layers idp - 1) <= s \/ layers idp = 0) /\
            Z.of_nat (length Fr) <= Z.of_nat (length Fr2) + 5
        end
    end.
Proof.
  intros W Hs. pose proof (w_L W) as HL.
  assert (forall L', reaches L' s -> s < width (L' - 1)) as Hreach. { intros L' [->|?]; [by apply (proj2 Hs)|done]. }
  unfold first_layer. destruct (top idp) as [p|] eqn:Ht.
  - assert (0 < layers idp) as H0. { pose proof (w_top W) as Hp. rewrite Ht in Hp. symmetry in Hp. apply (w_range W) in Hp. lia. }
    exists idp, (Some p), (layers idp). split; [done|]. pose proof W as W0. unfold inv in W. rewrite Ht in W.
    destruct (w_nodes W _ _ _ (eq_sym (w_top W))) as (x & Hx & Hok). destruct (decide (count x = 0)) as [Hc|Hc].
    + destruct (wf_unroot _ _ _ _ _ _ _ _ W Hx Hc H0) as (W1 & HU & HF & Hb & Hl). specialize (HF 0). unfold level in HF. subst U F.
      destruct (grow_empty (Z.to_nat (6 - layers idp)) idp Fr p x (layers idp) 8 s W1 Hx Hb Hl ltac:(lia) ltac:(lia) ltac:(lia))
        as (idp' & L' & -> & H1 & H2 & H3 & H4 & H5 & H6).
      eexists idp', (Some p), L', _, Fr. split; [done|]. split_and!; [by apply wf_set_top|lia|by apply Hreach| |lia].
      destruct (decide (s < width (layers idp - 1))); [left|right; left]; [split_and!|]; try lia; by apply H6.
    + destruct (grow_full U F (Z.to_nat (6 - layers idp)) (layers idp) idp A Fr p p x (layers idp) 8 s W) as (idp' & A' & Fr' & v & L' & -> & HL' & Ht' & Hv);
        [|lia|lia|done|done|done|lia|].
      { split; [by rewrite <- (w_top W)|]. intros l q a Ha Hlq. apply (w_range W) in Ha as [Hl' Hq]. apply Hq. lia. }
      exists idp', v, L', A', Fr'. split; [done|]. destruct v as [p'|].
      * destruct Hv as (W' & H1 & H2 & H3 & H4). pose proof (w_L W').
        split_and!; [by apply wf_set_top|lia|by apply Hreach| |lia].
        destruct (decide (s < width (layers idp - 1))); [left|right; left; lia]. pose proof (H3 ltac:(done)). split_and!; lia.
      * destruct Hv as (W' & H1). split; [|lia]. unfold inv. by rewrite Ht', HL', Ht.
  - assert (layers idp = 0) as H0. { destruct (decide (layers idp = 0)); [done|]. destruct (w_root W ltac:(lia)). congruence. }
    destruct Fr as [|p Fr].
    { exists idp, None, (layers idp). rewrite (wf_take_none _ W). done. }
    destruct (wf_take _ W) as (idp1 & y & -> & W1 & Hy & Hb & Ht1 & HL1 & _). cbn [mbind option_bind]. rewrite Hy. cbn [mbind option_bind].
    eexists _, (Some p), 1. split; [done|].
    destruct (no_ids _ _ _ _ _ _ _ _ _ W (or_introl H0)) as (HU & HF & HA). specialize (HF 0). unfold level in HF. subst U F.
    assert (A = ∅) as ->.
    { apply map_eq. intros k. rewrite lookup_empty. destruct (A !! k) as [a|] eqn:Hk; [|done].
      destruct k as [l q]. apply (w_range W) in Hk. lia. }
    rewrite Ht, H0 in W1. apply (wf_put_pend p (set_layer y 0)) in W1.
    destruct (grow_empty 5 (put idp1 p (set_layer y 0)) Fr p (set_layer y 0) 1 8 s W1) as (idp' & L' & -> & H1 & H2 & H3 & H4 & H5 & H6);
      [simpl; by rewrite lookup_insert_eq|done|done|lia|lia|lia|].
    eexists idp', (Some p), L', _, Fr. split; [done|]. split_and!; [by apply wf_set_top|lia|by apply Hreach|by right; right|simpl; lia].
Qed.

(** ** The slot *)

(** An empty slot was found, or there were fewer than [k] free layers. *)
Definition slot_ok (k : Z) (U : users) (F : gset Z) (Fr : list addr) (s : Z) (r : idr * Z * path) : Prop :=
  let '(idp', v, pa) := r in
  exists A' Fr', inv idp' A' U F Fr' /\
    (v = -1 /\ Z.of_nat (length Fr) < k \/
     least_free F s v /\ v < width (layers idp' - 1) /\ 1 <= layers idp' /\ path_ok A' (layers idp') pa 0 v).

(** A starting id the search handles: see [regular], or it is beyond the tree. *)
Definition good_start (idp : idr) (F : gset Z) (s : Z) : Prop := regular (layers idp) F s \/ width (layers idp - 1) <= s.

Lemma beyond_free idp A U F Fr i : inv idp A U F Fr -> width (layers idp - 1) <= i -> i ∉ F.
Proof. intros W Hi Hin. apply (w_F W 0), elem_of_dom in Hin. apply (user_range W) in Hin. lia. Qed.

Lemma build_once fuel idp A U F Fr s pa : inv idp A U F Fr -> 0 <= s < 2 ^ 30 -> good_start idp F s ->
  (exists r, build_up (S fuel) idp s pa = Some r /\ slot_ok 11 U F Fr s r) \/
  exists idp2 A2 Fr2 pa', build_up (S fuel) idp s pa = build_up fuel idp2 (width (layers idp2 - 1)) pa' /\
    inv idp2 A2 U F Fr2 /\ length Fr2 = length Fr /\ s < width (layers idp2 - 1) /\
    (forall i, s <= i < width (layers idp2 - 1) -> i ∈ F).
Proof.
  intros W Hs Hg. destruct (grow_round idp A U F Fr s W Hs) as (idp1 & v1 & ls & H1 & Hv1). cbn [build_up]. rewrite H1.
  cbn [mbind option_bind]. destruct v1 as [p|].
  2:{ destruct Hv1 as [-> HFr]. left. eexists. split; [done|]. exists A, Fr. split; [done|]. left. rewrite HFr. simpl. lia. }
  destruct Hv1 as (idp2 & v2 & L2 & A2 & Fr2 & -> & Hv2). cbn [mbind option_bind]. destruct v2 as [p2|].
  2:{ destruct Hv2 as [W2 Hlen]. left. eexists. split; [done|]. exists A2, Fr2. split; [done|]. left. lia. }
  destruct Hv2 as (W2 & HL2 & Hs2 & Hcase & Hlen). set (idp3 := set_top idp2 (Some p2) L2) in *.
  assert (regular L2 F s) as Hreg.
  { assert (width (layers idp - 1) <= s \/ layers idp = 0 -> s ∉ F) as Hf.
    { intros [Hw|H0]; [by apply (beyond_free idp A U F Fr)|]. intros Hin. apply (w_F W 0), elem_of_dom in Hin.
      destruct (no_ids _ _ _ _ _ _ _ _ _ W (or_introl H0)) as (-> & _). by destruct Hin. }
    destruct Hcase as [(H & -> & Hlt & _)|Hcase]; [destruct Hg as [?|?]; [done|lia]|].
    right. left. exists s. split; [lia|]. by apply Hf. }
  pose proof (w_L W2) as HL6. simpl in HL6.
  destruct (sub_alloc_spec L2 U F s s idp3 A2 Fr2 W2 eq_refl Hreg pa ltac:(lia) eq_refl ltac:(lia)) as (r & -> & Hok).
  cbn [mbind option_bind]. destruct r as [[[idp' v] sid] pa']. destruct Hok as [(A' & Fr' & W' & HL' & Hv)|(pa2 & [= -> -> -> ->] & Hall)].
  - left. destruct (Z.eqb_spec v IDR_NEED_TO_GROW) as [->|_].
    { exfalso. destruct Hv as [[? _]|[(? & _) _]]; unfold IDR_NEED_TO_GROW in *; lia. }
    eexists. split; [done|]. exists A', Fr'. split; [done|]. rewrite HL'. destruct Hv as [[-> Hv]|(Hv1 & Hv2 & Hv3)]; [left; lia|by right].
  - right. rewrite Z.eqb_refl. exists idp3, A2, Fr2, pa2. split_and!; try done. destruct Hcase as [(_ & _ & _ & ?)|Hcase]; [done|].
    exfalso. destruct Hcase as [Hw|H0].
    + apply (beyond_free _ _ _ _ _ s W Hw). apply Hall. lia.
    + assert (s ∈ F) as Hin by (apply Hall; lia). apply (w_F W 0), elem_of_dom in Hin.
      destruct (no_ids _ _ _ _ _ _ _ _ _ W (or_introl H0)) as (-> & _). by destruct Hin.
Qed.

Lemma get_empty_slot_spec idp A U F Fr s pa :
  inv idp A U F Fr -> 0 <= s < 2 ^ 30 -> (exists i, s <= i < 2 ^ 30 /\ i ∉ F) -> good_start idp F s ->
  exists r, idr_get_empty_slot idp s pa = Some r /\ slot_ok 11 U F Fr s r.
Proof.
  intros W Hs (i & Hi & HiF) Hg. unfold idr_get_empty_slot.
  destruct (build_once 7 idp A U F Fr s pa W Hs Hg) as [H|(idp2 & A2 & Fr2 & pa' & -> & W2 & Hlen & Hs2 & Hall)]; [done|].
  assert (width (layers idp2 - 1) <= i) as Hwi.
  { assert (~ i < width (layers idp2 - 1)); [|lia]. intros ?. apply HiF, Hall. lia. }
  pose proof (width_pos (layers idp2 - 1) ltac:(pose proof (w_L W2); lia)) as Hpos.
  destruct (build_once 6 idp2 A2 U F Fr2 (width (layers idp2 - 1)) pa' W2 ltac:(lia) ltac:(by right))
    as [([[idp' v] pa3] & Hr & Hok)|(idp3 & A3 & Fr3 & _ & _ & _ & _ & Hs3 & Hall3)].
  - exists (idp', v, pa3). split; [done|]. destruct Hok as (A' & Fr' & W' & Hv). exists A', Fr'. split; [done|].
    rewrite Hlen in Hv. destruct Hv as [?|((H1 & H2 & H3) & Hv)]; [by left|right]. split; [|done].
    split_and!; [lia|done|]. intros j Hj. destruct (decide (j < width (layers idp2 - 1))); [apply Hall|apply H3]; lia.
  - exfalso. apply (beyond_free _ _ _ _ _ (width (layers idp2 - 1)) W2); [lia|]. apply Hall3. lia.
Qed.

(** It is enough that the starting id is 0 or free, or that a free id follows
    before one that is taken. *)
Lemma start_good idp A U F Fr s : inv idp A U F Fr -> 0 <= s ->
  s = 0 \/ s ∉ F \/ (exists i j, s <= i < j /\ i ∉ F /\ is_Some (U !! j)) -> good_start idp F s.
Proof.
  intros W Hs Hf. unfold good_start. pose proof (w_L W) as HL.
  destruct (decide (width (layers idp - 1) <= s)) as [|Hlt]; [by right|left].
  destruct Hf as [->|[Hf|(i & j & Hij & Hi & Hj)]].
  - destruct (decide (layers idp <= 1)); [by left|]. right.
    destruct (decide (Exists (fun i => i ∉ F) (seqZ 0 (width (layers idp - 1))))) as [He|He].
    + left. apply Exists_exists in He as (i & Hi%elem_of_seqZ & Hn). exists i. split; [lia|done].
    + right. intros i Hi. destruct (decide (i ∈ F)) as [|Hn]; [done|]. destruct He. apply Exists_exists. exists i. split; [|done].
      apply elem_of_seqZ. rewrite anc_spec in Hi by lia. unfold lo in Hi.
      replace (layers idp - 1) with (layers idp - 2 + 1) by lia. rewrite width_succ by lia.
      pose proof (width_pos (layers idp - 2) ltac:(lia)). lia.
  - right. left. exists s. split; [lia|done].
  - right. left. exists i. split; [|done]. pose proof (user_range W j Hj). lia.
Qed.

End IdrGrow.
