(* ===== verification/IdrGet.v ===== *)
(** * The idr: taking an id

    The id found gets its pointer, and the bitmaps of the layers above are
    brought up to date. *)

From Stdlib Require Import ZArith Lia.
From stdpp Require Import base option gmap list list_numbers.
From S2P Require Import Prelude Idr IdrInv IdrAlloc.

Local Open Scope Z_scope.
Local Open Scope kernel_scope.

Module IdrGet.
Import Idr IdrInv IdrTree IdrAlloc IdrGrow.

(** ** Bitmaps while an id changes *)

Lemma full_down F l j i : -1 <= l <= j -> full F j (anc j i) -> full F l (anc l i).
Proof. intros Hl Hf k Hk. apply Hf. by apply (anc_up l). Qed.

Lemma full_agree F F' l c i : (forall k, k <> i -> k ∈ F' <-> k ∈ F) -> anc l i <> c -> full F' l c <-> full F l c.
Proof. intros Hx Hc. unfold full. split; intros Hf k Hk; apply Hx; [congruence|by apply Hf|congruence|by apply Hf]. Qed.

(** Below level [k] the bits are those of [F'], from there on those of [F]. *)
Definition upto (k : Z) (F' F : gset Z) : Z -> gset Z := fun l => if l <? k then F' else F.

Lemma upto_lt k F' F l : l < k -> upto k F' F l = F'.
Proof. intros. unfold upto. by rewrite (proj2 (Z.ltb_lt l k)). Qed.

Lemma upto_ge k F' F l : k <= l -> upto k F' F l = F.
Proof. intros. unfold upto. by rewrite (proj2 (Z.ltb_ge l k)). Qed.

Lemma upto_dom k F' F (U : users) : F' ⊆ dom U -> F ⊆ dom U -> forall l, upto k F' F l ⊆ dom U.
Proof. intros ? ? l. unfold upto. by destruct (l <? k). Qed.

Lemma wf_refull tp L idp A U G G' E Fr pend :
  wf tp L idp A U G E Fr pend -> (forall l, G' l ⊆ dom U) ->
  (forall l q a n, A !! (l, q) = Some a -> 0 <= l < L -> 0 <= n < 32 ->
    full (G' l) (l - 1) (32 * q + n) <-> full (G l) (l - 1) (32 * q + n)) ->
  wf tp L idp A U G' E Fr pend.
Proof.
  intros W H1 H. constructor; try apply W; [|done].
  intros l q a Ha. destruct (w_nodes W _ _ _ Ha) as (x & Hx & Hok). exists x. split; [done|].
  apply (node_ok_ext _ _ _ _ _ _ _ _ _ _ _ Hok); [done| |done]. intros n Hn. apply (H l q a); [done| |done].
  by apply (w_range W _ _ _ Ha).
Qed.

Section mark.
Context (i : Z) (F F' : gset Z) (HF : forall k, k <> i -> k ∈ F' <-> k ∈ F).

(** One bit on the way to [i] is set to what it is for [F2]. *)
Lemma wf_bit tp L idp A U G G' E Fr pend l p x b :
  wf tp L idp A U G E Fr pend -> A !! (l, anc l i) = Some p -> mem idp !! p = Some x -> 0 <= l ->
  (forall j, j <> l -> G' j = G j) -> (forall k, k <> i -> k ∈ G' l <-> k ∈ G l) -> (forall j, G' j ⊆ dom U) ->
  0 <= b < two32 -> (forall n, 0 <= n < 32 -> n <> digit l i -> Z.testbit b n = Z.testbit (bitmap x) n) ->
  (Z.testbit b (digit l i) = true <-> full (G' l) (l - 1) (anc (l - 1) i)) ->
  wf tp L (put idp p (set_bitmap x b)) A U G' E Fr pend.
Proof.
  intros W Hp Hx Hl Hj Hk Hd Hb Hn Hi. destruct (w_nodes W _ _ _ Hp) as (x0 & Hx0 & Hok). simplify_eq.
  apply (wf_put _ l (anc l i) p _ U G' E W Hp); [| |intros c; apply (w_par W (-1) c); lia|done].
  - destruct Hok as [H1 H2 H3 H4 [H5 H6]]. constructor; simpl; try done. split; [done|]. intros n Hn'.
    destruct (decide (n = digit l i)) as [->|Hne].
    + rewrite digit_spec by done. done.
    + rewrite Hn, H6 by done. symmetry. apply (full_agree _ _ _ _ i Hk). rewrite <- digit_spec by done. lia.
  - intros l' q' a y Ha Hne Hy. apply (node_ok_ext _ _ _ _ _ _ _ _ _ _ _ Hy); [done| |done].
    intros n Hn'. destruct (decide (l' = l)) as [->|Hll]; [|by rewrite Hj].
    apply (full_agree _ _ _ _ i Hk). intros He. apply Hne. f_equal.
    rewrite (anc_pred l i), He by done. dlia.
Qed.

Hypothesis Hin : i ∈ F'.

Lemma mark_full_spec k fuel tp L idp A U E Fr pend pa p l :
  wf tp L idp A U (upto (l + 1) F' F) E Fr pend -> F' ⊆ dom U -> F ⊆ dom U -> A !! (l, anc l i) = Some p ->
  path_ok A L pa 0 i -> 0 <= l -> L - l = Z.of_nat k -> (k < fuel)%nat ->
  exists idp', mark_full_loop fuel idp pa p l (anc (l - 1) i) = Some idp' /\
    wf tp L idp' A U (upto 7 F' F) E Fr pend /\ top idp' = top idp /\ layers idp' = layers idp.
Proof.
  revert fuel idp p l. induction k as [|k IH]; intros fuel idp p l W HU HU' Hp Hpath Hl HL Hfuel.
  { apply (w_range W) in Hp. lia. }
  destruct fuel as [|fuel]; [lia|]. simpl. destruct (w_nodes W _ _ _ Hp) as (x & Hx & Hok). rewrite Hx. simpl.
  pose proof (n_bits _ _ _ _ _ _ _ Hok) as Hb. rewrite upto_lt in Hb by lia. pose proof (bits_full _ _ _ _ Hl Hb) as Hbf.
  pose proof (w_L W) as HL6. destruct (Z.eqb_spec (bitmap x) IDR_FULL) as [Hfull|Hnot].
  - apply Hbf in Hfull. destruct (decide (l + 1 = L)) as [Hlast|Hlast].
    + rewrite Hlast. destruct Hpath as [-> _]. simpl. exists idp. split_and!; try done.
      apply (wf_refull _ _ _ _ _ _ _ _ _ _ W); [by apply upto_dom|]. intros l' q a n Ha Hl' _.
      by rewrite !upto_lt by lia.
    + destruct (proj2 Hpath (l + 1) ltac:(lia)) as (p' & -> & Hp'). simpl.
      destruct (w_nodes W _ _ _ Hp') as (x' & Hx' & Hok'). rewrite Hx'. simpl.
      assert (Z.shiftr (anc (l - 1) i) IDR_BITS = anc (l + 1 - 1) i) as ->.
      { replace (l + 1 - 1) with l by lia. unfold anc, IDR_BITS. rewrite Z.shiftr_shiftr by lia. f_equal. lia. }
      assert (Z.land (anc (l + 1 - 1) i) IDR_MASK = digit (l + 1) i) as ->.
      { rewrite <- digit_code by lia. unfold anc, IDR_BITS. do 2 f_equal. lia. }
      pose proof (n_bits _ _ _ _ _ _ _ Hok') as [Hb' _]. pose proof (digit_range (l + 1) i).
      destruct (IH fuel (put idp p' (set_bitmap x' (Z.setbit (bitmap x') (digit (l + 1) i)))) p' (l + 1)) as (idp' & -> & W' & Ht & HL');
        try done; try lia; [|by exists idp'].
      apply (wf_bit _ _ _ _ _ (upto (l + 1) F' F) _ _ _ _ (l + 1) p' x'); try done; try lia.
      * intros j Hj. destruct (decide (j < l + 1)); [by rewrite !upto_lt by lia|by rewrite !upto_ge by lia].
      * intros j Hj. rewrite upto_lt, upto_ge by lia. by apply HF.
      * by apply upto_dom.
      * by apply setbit_range.
      * intros n Hn Hne. by rewrite Z.setbit_neq by lia.
      * rewrite Z.setbit_eq by lia. split; [intros _|done]. rewrite upto_lt by lia. by replace (l + 1 - 1) with l by lia.
  - exists idp. split_and!; try done. apply (wf_refull _ _ _ _ _ _ _ _ _ _ W); [by apply upto_dom|]. intros l' q a n Ha Hl' Hn.
    destruct (decide (l' < l + 1)); [by rewrite !upto_lt by lia|].
    rewrite upto_lt, upto_ge by lia. destruct (decide (anc (l' - 1) i = 32 * q + n)) as [He|Hne]; [|by apply (full_agree _ _ _ _ i HF)].
    rewrite <- He. split; intros Hf; exfalso; apply Hnot, Hbf; apply (full_down F' l (l' - 1)); try lia; try done.
    intros j Hj. destruct (decide (j = i)) as [->|]; [done|]. apply HF; [done|]. by apply Hf.
Qed.

(** All bits on the way to an id that has become full. *)
Lemma idr_mark_full_spec L idp A U Fr pa :
  inv idp A U F Fr -> L = layers idp -> F' ⊆ dom U -> path_ok A L pa 0 i -> 1 <= L ->
  exists idp', idr_mark_full idp pa i = Some idp' /\ inv idp' A U F' Fr /\ layers idp' = layers idp.
Proof.
  intros W -> HU Hpath HL. destruct (proj2 Hpath 0 ltac:(lia)) as (p & Hp & Ha). unfold idr_mark_full. rewrite Hp.
  destruct (w_nodes W _ _ _ Ha) as (x & Hx & Hok). cbn [mbind option_bind]. rewrite Hx. cbn [mbind option_bind].
  rewrite digit_leaf. pose proof (w_L W). pose proof (w_F W 0 : F ⊆ dom U) as HU'.
  pose proof (n_bits _ _ _ _ _ _ _ Hok) as [Hb _]. pose proof (digit_range 0 i).
  destruct (mark_full_spec (Z.to_nat (layers idp)) 8 (top idp) (layers idp) (put idp p (set_bitmap x (Z.setbit (bitmap x) (digit 0 i)))) A U exact Fr None pa p 0)
    as (idp' & Hr & W' & Ht & HL'); try done; try lia.
  - apply (wf_bit _ _ _ _ _ (upto 0 F' F) _ _ _ _ 0 p x); try done; try lia.
    + apply (wf_refull _ _ _ _ _ _ _ _ _ _ W); [by apply upto_dom|]. intros l q a n _ Hl _. by rewrite upto_ge by lia.
    + intros j Hj. destruct (decide (j < 0)); [by rewrite !upto_lt by lia|by rewrite !upto_ge by lia].
    + by apply upto_dom.
    + by apply setbit_range.
    + intros n Hn Hne. by rewrite Z.setbit_neq by lia.
    + rewrite Z.setbit_eq by lia. split; [intros _|done]. rewrite upto_lt by lia. change (0 - 1) with (-1). by apply full_leaf.
  - exists idp'. split_and!; [done| |done]. unfold inv. rewrite Ht, HL'. simpl.
    apply (wf_refull _ _ _ _ _ _ _ _ _ _ W'); [done|]. intros l q a n _ Hl _. by rewrite upto_lt by lia.
Qed.

End mark.

(** ** The new entry *)

(** The slot of an id is written, with the count its layer has then. *)
Lemma wf_user tp L idp A U F E Fr pend i p x U' E' c :
  wf tp L idp A U F E Fr pend -> A !! (0, anc 0 i) = Some p -> mem idp !! p = Some x ->
  (forall k, k <> i -> U' !! k = U !! k) -> (forall l q, (l, q) <> (0, anc 0 i) -> E' l q = E l q) ->
  (forall l, F l ⊆ dom U') -> c = nkids A U' 0 (anc 0 i) + E' 0 (anc 0 i) ->
  wf tp L (put idp p (set_count (set_slot x (digit 0 i) (mjoin (U' !! i))) c)) A U' F E' Fr pend.
Proof.
  intros W Hp Hx HU HE HF Hc. destruct (w_nodes W _ _ _ Hp) as (x0 & Hx0 & Hok). simplify_eq.
  pose proof (digit_spec 0 i ltac:(lia)) as Hs. change (anc (0 - 1) i) with i in Hs. change (0 - 1) with (-1) in *.
  pose proof (digit_range 0 i) as Hdr.
  apply (wf_put _ 0 (anc 0 i) p _ _ _ _ W Hp); [| | |done].
  - constructor; simpl; [apply Hok| | |done|apply Hok].
    + intros n Hn. rewrite child_leaf. destruct (decide (n = digit 0 i)) as [->|Hne].
      * by rewrite lookup_partial_alter_eq, Hs.
      * rewrite lookup_partial_alter_ne, HU by lia. by apply Hok.
    + intros n. destruct (decide (n = digit 0 i)) as [->|Hne]; [done|]. rewrite lookup_partial_alter_ne by done. apply Hok.
  - intros l q a y Ha Hne Hy. apply (node_ok_ext _ _ _ _ _ _ _ _ _ _ _ Hy); [|done|by apply HE]. intros n Hn. pose proof (w_range W _ _ _ Ha).
    destruct (decide (l = 0)) as [->|].
    + change (0 - 1) with (-1). rewrite !child_leaf, HU; [done|]. intros <-. apply Hne. f_equal.
      rewrite anc_pred by lia. change (anc (0 - 1) (32 * q + n)) with (32 * q + n). dlia.
    + by rewrite !child_node by lia.
  - intros k Hk. destruct (decide (k = i)) as [->|].
    + rewrite anc_pred in Hp by lia. by exists p.
    + rewrite HU in Hk by done. by apply (w_par W (-1) k); [lia|lia|].
Qed.

(** How the number of ids in a lowest layer changes. *)
Lemma nkids_user A U U' i : U !! i = None -> is_Some (U' !! i) -> (forall k, k <> i -> U' !! k = U !! k) ->
  nkids A U' 0 (anc 0 i) = nkids A U 0 (anc 0 i) + 1.
Proof.
  intros H0 H1 HU. pose proof (digit_spec 0 i ltac:(lia)) as Hs. change (anc (0 - 1) i) with i in Hs.
  apply (nkids_more _ _ _ _ _ _ (digit 0 i)); [apply digit_range|by rewrite Hs|by rewrite Hs|].
  intros n Hn Hne. change (0 - 1) with (-1). rewrite !child_leaf. apply HU. lia.
Qed.

Lemma nkids_same A U U' i : is_Some (U !! i) -> is_Some (U' !! i) -> (forall k, k <> i -> U' !! k = U !! k) ->
  nkids A U' 0 (anc 0 i) = nkids A U 0 (anc 0 i).
Proof.
  intros H0 H1 HU. rewrite (nkids_user A (delete i U) U' i), (nkids_user A (delete i U) U i); [done|..]; try done;
    try apply lookup_delete_eq; intros k Hk; by rewrite ?lookup_delete_ne, ?HU by done.
Qed.

Lemma install_spec idp A U F Fr i p x ptr :
  inv idp A U F Fr -> U !! i = None -> A !! (0, anc 0 i) = Some p -> mem idp !! p = Some x ->
  inv (put idp p (set_count (set_slot x (digit 0 i) ptr) (count x + 1))) A (<[i := ptr]> U) F Fr.
Proof.
  intros W Hi Hp Hx. destruct (w_nodes W _ _ _ Hp) as (x0 & Hx0 & Hok). simplify_eq.
  assert (forall k, k <> i -> <[i := ptr]> U !! k = U !! k) as HU by (intros k Hk; by rewrite lookup_insert_ne).
  replace ptr with (mjoin (<[i := ptr]> U !! i)) at 1 by (by rewrite lookup_insert_eq).
  apply (wf_user _ _ _ _ U _ exact); try done.
  - intros l. rewrite dom_insert_L. pose proof (w_F W l). set_solver.
  - rewrite (n_count _ _ _ _ _ _ _ Hok), (nkids_user A U (<[i := ptr]> U) i) by (try done; rewrite lookup_insert_eq; by eexists). unfold exact. lia.
Qed.

Lemma replace_spec idp A U F Fr i p x ptr :
  inv idp A U F Fr -> is_Some (U !! i) -> A !! (0, anc 0 i) = Some p -> mem idp !! p = Some x ->
  inv (put idp p (set_slot x (digit 0 i) ptr)) A (<[i := ptr]> U) F Fr.
Proof.
  intros W Hi Hp Hx. destruct (w_nodes W _ _ _ Hp) as (x0 & Hx0 & Hok). simplify_eq.
  assert (forall k, k <> i -> <[i := ptr]> U !! k = U !! k) as HU by (intros k Hk; by rewrite lookup_insert_ne).
  change (set_slot x (digit 0 i) ptr) with (set_count (set_slot x (digit 0 i) ptr) (count x)).
  replace ptr with (mjoin (<[i := ptr]> U !! i)) at 1 by (by rewrite lookup_insert_eq).
  apply (wf_user _ _ _ _ U _ exact); try done.
  - intros l. rewrite dom_insert_L. pose proof (w_F W l). set_solver.
  - rewrite (n_count _ _ _ _ _ _ _ Hok), (nkids_same A U (<[i := ptr]> U) i) by (try done; rewrite lookup_insert_eq; by eexists). done.
Qed.

(** The map an idr stands for: what each taken id is registered with. *)
Definition idr_map (idp : idr) (U : users) : Prop := exists A Fr, inv idp A U (dom U) Fr.

(** The starting ids the search handles, as it is for every id that is free in the tree. *)
Definition good_from (idp : idr) (U : users) (s : Z) : Prop := good_start idp (dom U) s.

Lemma get_new_above_int_spec idp U ptr s :
  idr_map idp U -> 0 <= s < 2 ^ 30 -> (exists i, s <= i < 2 ^ 30 /\ U !! i = None) -> good_from idp U s ->
  exists idp' v, idr_get_new_above_int idp ptr s = Some (idp', v) /\
    (v = -1 /\ id_free_cnt idp < 11 /\ idr_map idp' U \/
     least_free (dom U) s v /\ v < 2 ^ 30 /\ idr_map idp' (<[v := ptr]> U)).
Proof.
  intros (A & Fr & W) Hs (i & Hi & HiU) Hg. unfold idr_get_new_above_int.
  destruct (get_empty_slot_spec idp A U (dom U) Fr s ∅ W Hs) as ([[idp' v] pa] & -> & A' & Fr' & W' & Hv); [|done|].
  { exists i. split; [done|]. by apply not_elem_of_dom. }
  cbn [mbind option_bind]. destruct Hv as [[-> Hlen]|(Hv & Hvw & HL1 & Hpath)].
  { simpl. exists idp', (-1). split; [done|]. left. rewrite (w_cnt W). split_and!; [done|lia|by exists A', Fr']. }
  destruct Hv as (Hv1 & Hv2 & Hv3). rewrite (proj2 (Z.leb_le 0 v)) by lia. pose proof (w_L W') as HL.
  destruct (proj2 Hpath 0 ltac:(lia)) as (p & Hp & Ha). rewrite Hp. destruct (w_nodes W' _ _ _ Ha) as (x & Hx & Hok).
  cbn [mbind option_bind]. rewrite Hx. cbn [mbind option_bind]. rewrite digit_leaf.
  pose proof (install_spec idp' A' U (dom U) Fr' v p x ptr W' ltac:(by apply not_elem_of_dom) Ha Hx) as W2.
  destruct (idr_mark_full_spec v (dom U) (dom (<[v := ptr]> U)) ltac:(intros k Hk; rewrite dom_insert_L; set_solver)
    ltac:(rewrite dom_insert_L; set_solver) _ _ A' _ Fr' pa W2 eq_refl ltac:(done) Hpath HL1) as (idp2 & -> & W3 & HL2).
  cbn [mbind option_bind]. exists idp2, v. split; [done|]. right. split_and!; [done| |by exists A', Fr'].
  pose proof (width_bound (layers idp') HL). lia.
Qed.

(** ** Lookup *)

Section lookup.
Context {idp : idr} {A : placement} {U : users} {F : gset Z} {Fr : list addr} (W : inv idp A U F Fr).

Lemma slot_code l i x : A !! (l, anc l i) = Some x -> 0 <= l -> exists y, mem idp !! x = Some y /\ layer y = l /\
  ary y !! Z.land (Z.shiftr i (IDR_BITS * l)) IDR_MASK = mjoin (child A U (l - 1) (anc (l - 1) i)) /\
  bits_ok F l (anc l i) (bitmap y).
Proof.
  intros Hx Hl. destruct (w_nodes W _ _ _ Hx) as (y & Hy & Hok). exists y. split_and!; [done|apply Hok| |apply Hok].
  rewrite digit_code, (n_ary _ _ _ _ _ _ _ Hok) by (done || apply digit_range). by rewrite digit_spec.
Qed.

Lemma absent_id l i : -1 <= l < layers idp -> child A U l (anc l i) = None -> U !! i = None.
Proof.
  intros Hl Hc. destruct (decide (l = -1)) as [->|]; [done|]. rewrite child_node in Hc by lia.
  apply (absent_user W l (anc l i)); [lia| |done]. by destruct (A !! (l, anc l i)).
Qed.

Lemma find_loop_spec k fuel i l : l + 1 = Z.of_nat k -> l < layers idp -> (k < fuel)%nat ->
  lookup_loop fuel idp (mjoin (child A U l (anc l i))) (IDR_BITS * (l + 1)) i = Some (mjoin (U !! i)).
Proof.
  revert fuel l. induction k as [|k IH]; intros fuel l Hk Hl Hfuel; (destruct fuel as [|fuel]; [lia|]).
  - assert (l = -1) as -> by lia. rewrite child_leaf, anc_m1. change (IDR_BITS * (-1 + 1)) with 0.
    cbn [lookup_loop]. rewrite Z.ltb_irrefl. by destruct (mjoin (U !! i)).
  - cbn [lookup_loop]. destruct (mjoin (child A U l (anc l i))) as [a|] eqn:Ha.
    + rewrite (proj2 (Z.ltb_lt 0 (IDR_BITS * (l + 1)))) by (unfold IDR_BITS; lia).
      rewrite child_node in Ha by lia. assert (A !! (l, anc l i) = Some a) as Ha' by (revert Ha; destruct (A !! _); simpl; congruence).
      destruct (slot_code l i a Ha' ltac:(lia)) as (y & Hy & Hly & Hs & _). rewrite Hy. cbn [mbind option_bind].
      replace (IDR_BITS * (l + 1) - IDR_BITS) with (IDR_BITS * l) by (unfold IDR_BITS; lia).
      rewrite Hs, Hly, (Z.mul_comm l), Z.eqb_refl. replace (IDR_BITS * l) with (IDR_BITS * (l - 1 + 1)) by (unfold IDR_BITS; lia).
      apply IH; lia.
    + rewrite (absent_id l i); [done|lia|]. rewrite child_node in * by lia. revert Ha. by destruct (A !! _).
Qed.

Lemma replace_loop_spec k fuel i l : l = Z.of_nat k -> l < layers idp -> (k < fuel)%nat ->
  replace_loop fuel idp (A !! (l, anc l i)) (IDR_BITS * l) i = Some (A !! (0, anc 0 i)).
Proof.
  revert fuel l. induction k as [|k IH]; intros fuel l Hk Hl Hfuel; (destruct fuel as [|fuel]; [lia|]).
  - assert (l = 0) as -> by lia. cbn [replace_loop]. change (IDR_BITS * 0) with 0. rewrite Z.ltb_irrefl. by destruct (A !! _).
  - cbn [replace_loop]. destruct (A !! (l, anc l i)) as [a|] eqn:Ha.
    + rewrite (proj2 (Z.ltb_lt 0 (IDR_BITS * l))) by (unfold IDR_BITS; lia).
      destruct (slot_code l i a Ha ltac:(lia)) as (y & Hy & Hly & Hs & _). rewrite Hy. cbn [mbind option_bind].
      rewrite Hs, child_node by lia. replace (IDR_BITS * l - IDR_BITS) with (IDR_BITS * (l - 1)) by (unfold IDR_BITS; lia).
      replace (mjoin (Some <$> A !! (l - 1, anc (l - 1) i))) with (A !! (l - 1, anc (l - 1) i)) by (by destruct (A !! (l - 1, anc (l - 1) i))).
      apply IH; lia.
    + destruct (A !! (0, anc 0 i)) as [b|] eqn:Hb; [|done]. destruct (present_up W 0 l i) as [c Hc]; [lia|lia| |congruence].
      rewrite child_node, Hb by lia. by eexists.
Qed.

Lemma top_code : match top idp with
  | None => layers idp = 0
  | Some p => 1 <= layers idp <= 6 /\ A !! (layers idp - 1, 0) = Some p /\
      exists x, mem idp !! p = Some x /\ layer x = layers idp - 1
  end.
Proof.
  pose proof (w_L W). destruct (top idp) as [p|] eqn:Ht.
  - pose proof (w_top W) as Hp. rewrite Ht in Hp. symmetry in Hp. pose proof (w_range W _ _ _ Hp). split_and!; [lia|lia|done|].
    destruct (w_nodes W _ _ _ Hp) as (x & Hx & Hok). exists x. split; [done|apply Hok].
  - destruct (decide (layers idp = 0)); [done|]. destruct (w_root W ltac:(lia)). congruence.
Qed.

Lemma beyond_none i : ~ 0 <= i < width (layers idp - 1) -> U !! i = None.
Proof. intros Hi. destruct (U !! i) eqn:He; [|done]. destruct Hi. apply (user_range W). by eexists. Qed.

Lemma no_layer_none i : layers idp = 0 -> U !! i = None.
Proof. intros H0. destruct (no_ids _ _ _ _ _ _ _ _ _ W (or_introl H0)) as (-> & _). done. Qed.

Lemma idr_find_spec i : 0 <= i < 2 ^ 31 -> idr_find idp i = Some (mjoin (U !! i)).
Proof.
  intros Hi. unfold idr_find. pose proof top_code as Ht. destruct (top idp) as [p|]; [|by rewrite no_layer_none].
  destruct Ht as (HL & Hp & x & Hx & Hl). rewrite Hx. cbn [mbind option_bind]. rewrite Hl.
  replace ((layers idp - 1 + 1) * IDR_BITS) with (layers idp * IDR_BITS) by lia. rewrite shift_width by lia.
  change MAX_ID_MASK with (2 ^ 31 - 1). rewrite land_pow2_mask, Z.mod_small by lia.
  destruct (Z.leb_spec (width (layers idp - 1)) i); [by rewrite beyond_none by lia|].
  rewrite (proj2 (Z.eqb_neq _ 0)) by (unfold IDR_BITS; lia).
  pose proof (find_loop_spec (Z.to_nat (layers idp)) 8 i (layers idp - 1) ltac:(lia) ltac:(lia) ltac:(lia)) as Hf.
  rewrite (proj1 (top_prefix (layers idp) i ltac:(lia))), child_node, Hp in Hf by lia. 
  replace (IDR_BITS * (layers idp - 1 + 1)) with (layers idp * IDR_BITS) in Hf by lia. exact Hf.
Qed.

End lookup.

(** The pointer of an id that is registered is exchanged; for the others the
    error depends on whether the tree reaches the id. *)
Definition replace_error (idp : idr) (i : Z) : Z :=
  if bool_decide (layers idp = 0 \/ width (layers idp - 1) <= i) then - EINVAL else - ENOENT.

Lemma idr_replace_spec idp U ptr i : idr_map idp U -> 0 <= i < 2 ^ 31 ->
  match U !! i with
  | Some old => exists idp', idr_replace idp ptr i = Some (idp', inr old) /\ idr_map idp' (<[i := ptr]> U)
  | None => idr_replace idp ptr i = Some (idp, inl (replace_error idp i))
  end.
Proof.
  intros (A & Fr & W) Hi. unfold idr_replace, replace_error. pose proof (top_code W) as Ht. destruct (top idp) as [p|].
  2:{ rewrite (no_layer_none W) by done. by rewrite bool_decide_true by (by left). }
  destruct Ht as (HL & Hp & x & Hx & Hl). rewrite Hx. cbn [mbind option_bind]. rewrite Hl.
  replace ((layers idp - 1 + 1) * IDR_BITS) with (layers idp * IDR_BITS) by lia. rewrite shift_width by lia.
  change MAX_ID_MASK with (2 ^ 31 - 1). rewrite land_pow2_mask, Z.mod_small by lia.
  destruct (Z.leb_spec (width (layers idp - 1)) i).
  { rewrite (beyond_none W) by lia. by rewrite bool_decide_true by (by right). }
  rewrite bool_decide_false by lia.
  pose proof (replace_loop_spec W (Z.to_nat (layers idp - 1)) 8 i (layers idp - 1) ltac:(lia) ltac:(lia) ltac:(lia)) as Hf.
  rewrite (proj1 (top_prefix (layers idp) i ltac:(lia))), Hp in Hf by lia.
  replace (layers idp * IDR_BITS - IDR_BITS) with (IDR_BITS * (layers idp - 1)) by (unfold IDR_BITS; lia).
  rewrite Hf. cbn [mbind option_bind]. destruct (A !! (0, anc 0 i)) as [a|] eqn:Ha.
  2:{ by rewrite (absent_user W 0 _ i ltac:(lia) Ha eq_refl). }
  destruct (slot_code W 0 i a Ha ltac:(lia)) as (y & Hy & _ & Hs & Hb). rewrite Hy. cbn [mbind option_bind].
  change (Z.shiftr i (IDR_BITS * 0)) with i in Hs. rewrite Hs, digit_leaf. change (0 - 1) with (-1). rewrite child_leaf, anc_m1.
  assert (Z.testbit (bitmap y) (digit 0 i) = true <-> i ∈ dom U) as Hbit.
  { destruct Hb as [_ ->]; [|apply digit_range]. rewrite digit_spec by lia. apply full_leaf. }
  rewrite elem_of_dom in Hbit. destruct (U !! i) as [old|] eqn:Ho.
  - rewrite (proj2 Hbit) by (by eexists). eexists. split; [done|]. exists A, Fr. rewrite dom_insert_lookup_L by (by eexists).
    by apply replace_spec; [|by eexists|..].
  - destruct (Z.testbit (bitmap y) (digit 0 i)); [|done]. by destruct (proj1 Hbit eq_refl).
Qed.

End IdrGet.

(** * The idr: removing an id

    The bits on the way to the id are cleared, the layers left without an id
    are freed, and the tree loses its top when it is not needed. *)

Local Open Scope Z_scope.
Local Open Scope kernel_scope.

Module IdrRemove.
Import Idr IdrInv IdrTree IdrAlloc IdrGrow IdrGet.

(** One count is too big. *)
Definition off (l q : Z) : Z -> Z -> Z := fun l' q' => if decide ((l', q') = (l, q)) then 1 else 0.

Lemma off_eq l q : off l q l q = 1.
Proof. unfold off. by rewrite decide_True. Qed.

Lemma off_ne l q l' q' : (l', q') <> (l, q) -> off l q l' q' = 0.
Proof. intros. unfold off. by rewrite decide_False. Qed.

(** The slots that hold the layers from level [k] on to the id [i]. *)
Fixpoint slots_ok (A : placement) (L i k : Z) (paa : list slot_loc) : Prop :=
  match paa with
  | [] => k = L
  | s :: rest =>
      (k = L - 1 /\ s = TopSlot \/
       k < L - 1 /\ exists a, A !! (k + 1, anc (k + 1) i) = Some a /\ s = ArySlot a (digit (k + 1) i)) /\
      slots_ok A L i (k + 1) rest
  end.

Lemma slots_ok_length A L i k paa : slots_ok A L i k paa -> Z.of_nat (length paa) = L - k.
Proof. revert k. induction paa as [|s paa IH]; simpl; intros k; [lia|]. intros [_ H]. apply IH in H. lia. Qed.

Lemma slots_ok_delete A L i k q j paa : slots_ok A L i k paa -> j <= k -> slots_ok (delete (j, q) A) L i k paa.
Proof.
  revert k. induction paa as [|s paa IH]; simpl; intros k; [done|]. intros [H1 H2] Hj. split; [|apply IH; [done|lia]].
  destruct H1 as [?|(Hk & a & Ha & Hs)]; [by left|right]. split; [done|]. exists a. split; [|done].
  rewrite lookup_delete_ne; [done|]. intros [=]. lia.
Qed.

(** ** Down *)

Section down.
Context (i : Z) (F F' : gset Z) (HF : F' = F ∖ {[i]}).

Lemma without_agree : forall k, k <> i -> k ∈ F <-> k ∈ F'.
Proof. intros k Hk. rewrite HF. set_solver. Qed.

(** The bits from level [c] on may have been cleared before. *)
Lemma clear_step c tp L idp A U E Fr pend l p x :
  wf tp L idp A U (upto c F F') E Fr pend -> c <= l + 1 -> F ⊆ dom U -> A !! (l, anc l i) = Some p -> mem idp !! p = Some x -> 0 <= l ->
  wf tp L (put idp p (set_bitmap x (Z.clearbit (bitmap x) (digit l i)))) A U (upto (Z.min c l) F F') E Fr pend.
Proof.
  intros W Hcl HU Hp Hx Hl. assert (F' ⊆ dom U) as HU' by (rewrite HF; set_solver). pose proof (digit_range l i).
  destruct (w_nodes W _ _ _ Hp) as (x0 & Hx0 & Hok). simplify_eq. destruct (n_bits _ _ _ _ _ _ _ Hok) as [Hb _].
  apply (wf_bit i _ _ _ _ _ (upto c F (F ∖ {[i]})) _ _ _ _ l p x); try done.
  - intros j Hj. destruct (decide (j < Z.min c l)); [by rewrite !upto_lt by lia|by rewrite !upto_ge by lia].
  - intros k Hk. rewrite (upto_ge (Z.min c l)) by lia. unfold upto. destruct (l <? c); set_solver.
  - by apply upto_dom.
  - apply clearbit_range; lia.
  - intros n Hn Hne. by rewrite Z.clearbit_neq by lia.
  - rewrite Z.clearbit_eq. split; [done|]. rewrite upto_ge by lia. intros Hf.
    assert (i ∈ F ∖ {[i]}) as Hin by (by apply Hf). set_solver.
Qed.

Lemma remove_down_spec k c fuel tp L idp A U E Fr pend l paa :
  wf tp L idp A U (upto c F F') E Fr pend -> 1 <= c <= l + 1 -> F ⊆ dom U -> 0 <= l < L -> slots_ok A L i l paa ->
  l = Z.of_nat k -> (k < fuel)%nat ->
  exists idp' paa', remove_down fuel idp (A !! (l, anc l i)) (IDR_BITS * l) i paa = Some (idp', A !! (0, anc 0 i), paa') /\
    top idp' = top idp /\ layers idp' = layers idp /\
    match A !! (0, anc 0 i) with
    | Some _ => wf tp L idp' A U (upto 1 F F') E Fr pend /\ slots_ok A L i 0 paa'
    | None => exists l, wf tp L idp' A U (upto l F F') E Fr pend
    end.
Proof.
  revert c fuel idp l paa. induction k as [|k IH]; intros c fuel idp l paa W Hc HU Hl Hs Hk Hfuel; (destruct fuel as [|fuel]; [lia|]).
  - assert (l = 0) as -> by lia. assert (c = 1) as -> by lia. cbn [remove_down]. change (IDR_BITS * 0) with 0. rewrite Z.ltb_irrefl.
    exists idp, paa. split_and!; try done; [by destruct (A !! _)|]. destruct (A !! _); [done|by exists 1].
  - cbn [remove_down]. destruct (A !! (l, anc l i)) as [p|] eqn:Hp.
    + rewrite (proj2 (Z.ltb_lt 0 (IDR_BITS * l))) by (unfold IDR_BITS; lia). destruct (w_nodes W _ _ _ Hp) as (x & Hx & Hok).
      rewrite Hx. cbn [mbind option_bind]. pose proof (slots_ok_length _ _ _ _ _ Hs) as Hlen. pose proof (w_L W).
      change MAX_LEVEL with 7. rewrite bool_decide_true by lia.
      rewrite digit_code, (n_ary _ _ _ _ _ _ _ Hok), digit_spec, child_node by (apply digit_range || lia).
      replace (mjoin (Some <$> A !! (l - 1, anc (l - 1) i))) with (A !! (l - 1, anc (l - 1) i)) by (by destruct (A !! (l - 1, anc (l - 1) i))).
      replace (IDR_BITS * l - IDR_BITS) with (IDR_BITS * (l - 1)) by (unfold IDR_BITS; lia).
      pose proof (clear_step c _ _ _ _ _ _ _ _ l p x W ltac:(lia) HU Hp Hx ltac:(lia)) as W'.
      destruct (IH (Z.min c l) fuel (put idp p (set_bitmap x (Z.clearbit (bitmap x) (digit l i)))) (l - 1) (ArySlot p (digit l i) :: paa))
        as (idp' & paa' & Hr & Ht & HL' & Hv); try done; try lia; [|by exists idp', paa'].
      simpl. split; [|by replace (l - 1 + 1) with l by lia]. right. split; [lia|]. exists p.
      by replace (l - 1 + 1) with l by lia.
    + assert (A !! (0, anc 0 i) = None) as ->.
      { destruct (A !! (0, anc 0 i)) as [b|] eqn:Hb; [|done]. destruct (present_up W 0 l i) as [d Hd]; [lia|lia| |congruence].
        rewrite child_node, Hb by lia. by eexists. }
      exists idp, paa. split_and!; try done. by exists c.
Qed.
End down.

(** ** Up *)

Lemma wf_count tp L idp A U F Fr pend l q p x :
  wf tp L idp A U F (off l q) Fr pend -> A !! (l, q) = Some p -> mem idp !! p = Some x ->
  wf tp L (put idp p (set_count x (count x - 1))) A U F exact Fr pend /\ count x - 1 = nkids A U l q.
Proof.
  intros W Hp Hx. destruct (w_nodes W _ _ _ Hp) as (x0 & Hx0 & Hok). simplify_eq.
  pose proof (n_count _ _ _ _ _ _ _ Hok) as Hc. rewrite off_eq in Hc. split; [|lia].
  apply (wf_put _ l q p _ U F exact W Hp).
  - destruct Hok as [H1 H2 H3 H4 H5]. constructor; try done. simpl. unfold exact. lia.
  - intros l' q' b y _ Hne Hy. apply (node_ok_ext _ _ _ _ _ _ _ _ _ _ _ Hy); [done|done|]. by rewrite off_ne.
  - intros c. by apply (w_par W (-1) c); lia.
  - apply W.
Qed.

(** The layer above [(l, q)] without it; its count is not adjusted yet. *)
Lemma detached_parent A U F l q p x : 0 <= l -> A !! (l, q) = Some p -> node_ok A U F exact (l + 1) (q / 32) x ->
  node_ok (delete (l, q) A) U F (off (l + 1) (q / 32)) (l + 1) (q / 32) (set_slot x (q mod 32) None).
Proof.
  intros Hl Hp Hok. assert (32 * (q / 32) + q mod 32 = q) as Hq by dlia. assert (0 <= q mod 32 < 32) as Hqr by dlia.
  assert (forall c, c <> q -> child (delete (l, q) A) U l c = child A U l c) as Hch.
  { intros c Hne. rewrite !child_node by lia. by rewrite lookup_delete_ne by congruence. }
  assert (child (delete (l, q) A) U l q = None) as Hgone by (rewrite child_node by lia; by rewrite lookup_delete_eq).
  constructor; simpl; [apply Hok| | | |apply Hok].
  - intros n Hn. replace (l + 1 - 1) with l by lia. destruct (decide (n = q mod 32)) as [->|].
    + by rewrite lookup_partial_alter_eq, Hq, Hgone.
    + rewrite lookup_partial_alter_ne, Hch by lia.
      rewrite (n_ary _ _ _ _ _ _ _ Hok) by done. by replace (l + 1 - 1) with l by lia.
  - intros n. destruct (decide (n = q mod 32)) as [->|]; [done|]. rewrite lookup_partial_alter_ne by lia. apply Hok.
  - rewrite (n_count _ _ _ _ _ _ _ Hok), off_eq. unfold exact.
    rewrite (nkids_more (delete (l, q) A) U A U (l + 1) (q / 32) (q mod 32)); [lia|done|..]; replace (l + 1 - 1) with l by lia.
    + by rewrite Hq.
    + rewrite Hq, child_node, Hp by lia. by eexists.
    + intros n Hn Hnq. by rewrite Hch by lia.
Qed.

(** A layer with no id leaves the slot above it. *)
Lemma wf_detach tp L idp A U F Fr l q p pp x :
  wf tp L idp A U F exact Fr None -> A !! (l, q) = Some p -> nkids A U l q = 0 -> l < L - 1 ->
  A !! (l + 1, q / 32) = Some pp -> mem idp !! pp = Some x ->
  wf tp L (put idp pp (set_slot x (q mod 32) None)) (delete (l, q) A) U F (off (l + 1) (q / 32)) Fr (Some p).
Proof.
  intros W Hp Hk Hl Hpp Hx. pose proof (w_range W _ _ _ Hp) as [Hl0 _].
  destruct (w_nodes W _ _ _ Hpp) as (x0 & Hx0 & Hok). simplify_eq.
  assert (forall l' c, (l', c) <> (l, q) -> child (delete (l, q) A) U l' c = child A U l' c) as Hch.
  { intros l' c Hne. unfold child. case_decide; [done|]. by rewrite lookup_delete_ne. }
  assert (child (delete (l, q) A) U l q = None) as Hgone by (rewrite child_node by lia; by rewrite lookup_delete_eq).
  assert (32 * (q / 32) + q mod 32 = q) as Hq by dlia. assert (0 <= q mod 32 < 32) as Hqr by dlia.
  assert (p <> pp) as Hne. { intros ->. pose proof (w_inj W _ _ _ Hp Hpp) as [=]. lia. }
  constructor; simpl; try apply W; try done.
  - rewrite (w_top W), lookup_delete_ne; [done|]. intros [=]. lia.
  - intros l' q' a [_ Ha]%lookup_delete_Some. by apply (w_range W _ _ _ Ha).
  - intros l' c Hl' Hlt Hc. destruct (decide ((l', c) = (l, q))) as [[= -> ->]|Hlc]; [rewrite Hgone in Hc; by destruct Hc|].
    rewrite Hch in Hc by done. rewrite lookup_delete_ne; [by apply (w_par W)|]. intros [= ? ?].
    pose proof (nkids_zero A U l q (c mod 32) Hk ltac:(dlia)) as Hz. replace (l - 1) with l' in Hz by lia.
    replace (32 * q + c mod 32) with c in Hz by dlia. rewrite Hz in Hc. by destruct Hc.
  - intros k k' a [_ H1]%lookup_delete_Some [_ H2]%lookup_delete_Some. by apply (w_inj W _ _ a).
  - intros l' q' a [Hlq Ha]%lookup_delete_Some. destruct (decide ((l', q') = (l + 1, q / 32))) as [[= -> ->]|Hpar].
    + assert (a = pp) as -> by congruence. eexists. rewrite lookup_insert_eq. split; [done|]. apply (detached_parent A U F l q p x); [lia|done|done].
    + destruct (w_nodes W _ _ _ Ha) as (y & Hy & Hyok). exists y.
      rewrite lookup_insert_ne by (intros <-; by apply Hpar, (w_inj W _ _ pp)). split; [done|].
      apply (node_ok_ext _ _ _ _ _ _ _ _ _ _ _ Hyok); [|done|by rewrite off_ne].
      intros n Hn. apply Hch. intros [= ? ?]. apply Hpar. f_equal; [lia|dlia].
  - apply free_ok_insert; [apply W|]. by apply (w_disj W (l + 1, q / 32)).
  - intros k a [_ Ha]%lookup_delete_Some. by apply (w_disj W k).
  - intros a [= <-]. split_and!; [by apply (w_disj W (l, q))| |].
    + intros k [Hkk Hk']%lookup_delete_Some. apply Hkk. by apply (w_inj W _ _ p).
    + rewrite lookup_insert_ne by done. destruct (w_nodes W _ _ _ Hp) as (y & Hy & _). by exists y.
  - intros a [->|Ha]%lookup_insert_is_Some'; [left; exists (l + 1, q / 32); rewrite lookup_delete_ne; [done|intros [=]; lia]|].
    destruct (w_owned W _ Ha) as [[k Hk']|[?|?]]; [|by auto|done].
    destruct (decide (k = (l, q))) as [->|]; [right; right; congruence|]. left. exists k. by rewrite lookup_delete_ne.
Qed.

Lemma free_opt_spec tp L idp A U F E Fr pend : wf tp L idp A U F E Fr pend ->
  exists idp', free_opt idp pend = Some idp' /\ wf tp L idp' A U F E Fr None /\ top idp' = top idp /\ layers idp' = layers idp /\
    (forall a, pend <> Some a -> mem idp' !! a = mem idp !! a).
Proof.
  intros W. destruct pend as [p|]; simpl; [|by exists idp].
  destruct (wf_free p W) as [-> W']. eexists. split_and!; [done|done|done|done|]. intros a Ha. simpl.
  rewrite lookup_delete_ne; [done|congruence].
Qed.

(** What the loop leaves: a tree, or no layer at all. *)
Definition removed (U : users) (F : gset Z) (Fr : list addr) (L : Z) (r : idr * list slot_loc * option addr) : Prop :=
  let '(idp', paa', tf) := r in
  (paa' <> [] /\ layers idp' = L /\ exists A', wf (top idp') L idp' A' U (level F) exact Fr tf) \/
  (paa' = [] /\ U = ∅ /\ F = ∅ /\ top idp' = None /\ wf None 0 idp' ∅ ∅ (level ∅) exact Fr tf).

Lemma slot_read tp L idp A U F E Fr pend i k s rest p : wf tp L idp A U F E Fr pend -> slots_ok A L i k (s :: rest) -> 0 <= k < L ->
  0 <= i < width (L - 1) -> A !! (k, anc k i) = Some p -> tp = top idp -> read_slot idp s = Some (Some p).
Proof.
  intros W [[[-> ->]|(Hk & a & Ha & ->)] _] Hk0 Hi Hp Htp; simpl.
  - rewrite <- Htp, (w_top W). rewrite (proj1 (top_prefix L i ltac:(lia)) Hi) in Hp. by rewrite Hp.
  - destruct (w_nodes W _ _ _ Ha) as (y & Hy & Hok). rewrite Hy. simpl.
    rewrite (n_ary _ _ _ _ _ _ _ Hok), digit_spec by (apply digit_range || lia). replace (k + 1 - 1) with k by lia.
    by rewrite child_node, Hp by lia.
Qed.

Lemma remove_up_spec i U F Fr L paa k idp A p tf :
  wf (top idp) L idp A U (level F) (off k (anc k i)) Fr tf -> layers idp = L -> slots_ok A L i k paa -> 0 <= k < L ->
  0 <= i < width (L - 1) -> A !! (k, anc k i) = Some p ->
  exists r, remove_up idp paa tf = Some r /\ removed U F Fr L r.
Proof.
  revert k idp A p tf. induction paa as [|s paa IH]; intros k idp A p tf W HL Hs Hk Hi Hp; [simpl in Hs; lia|].
  cbn [remove_up]. rewrite (slot_read _ _ _ _ _ _ _ _ _ _ _ _ _ _ W Hs Hk Hi Hp eq_refl). cbn [mbind option_bind].
  destruct (w_nodes W _ _ _ Hp) as (x & Hx & _). rewrite Hx. cbn [mbind option_bind].
  destruct (wf_count _ _ _ _ _ _ _ _ _ _ _ _ W Hp Hx) as [W1 Hc]. set (idp1 := put idp p (set_count x (count x - 1))) in *.
  destruct (Z.eqb_spec (count x - 1) 0) as [Hz|Hz].
  2:{ eexists. split; [done|]. left. split_and!; [done|done|]. by exists A. }
  destruct (free_opt_spec _ _ _ _ _ _ _ _ _ W1) as (idp2 & -> & W2 & Ht2 & HL2 & Hm2). cbn [mbind option_bind].
  assert (mem idp2 !! p = Some (set_count x (count x - 1))) as Hp2.
  { rewrite Hm2; [simpl; by rewrite lookup_insert_eq|]. intros Htf. destruct (w_pend W1 p Htf) as (_ & H & _). by apply (H (k, anc k i)). }
  destruct Hs as [[[Hk1 ->]|(Hk1 & a & Ha & ->)] Hrest]; cbn [clear_slot].
  - assert (paa = []) as ->. { apply slots_ok_length in Hrest. destruct paa; [done|simpl in Hrest; lia]. }
    assert (top idp = Some p) as Htp.
    { rewrite (w_top W1). rewrite Hk1 in Hp. by rewrite (proj1 (top_prefix L i ltac:(lia)) Hi) in Hp. }
    rewrite Htp in W2. destruct (wf_unroot _ _ _ _ _ _ _ _ W2 Hp2 Hz ltac:(lia)) as (W3 & HU & HF & _).
    cbn [mbind option_bind remove_up]. eexists. split; [done|]. right. split_and!; try done; [apply (HF 0)|]. by apply wf_set_top.
  - destruct (w_nodes W2 _ _ _ Ha) as (y & Hy & _). rewrite Hy. cbn [mbind option_bind].
    rewrite Hc in Hz. rewrite (anc_succ k i) in Ha by lia.
    pose proof (wf_detach _ _ _ _ _ _ _ _ _ _ _ _ W2 Hp Hz Hk1 Ha Hy) as W3.
    replace (anc k i mod 32) with (digit (k + 1) i) in W3 by (unfold digit; by replace (k + 1 - 1) with k by lia).
    rewrite <- (anc_succ k i) in W3, Ha by lia.
    apply (IH (k + 1) _ (delete (k, anc k i) A) a); try lia.
    + simpl. rewrite Ht2. exact W3.
    + simpl. by rewrite HL2.
    + apply slots_ok_delete; [done|lia].
    + rewrite lookup_delete_ne; [done|]. intros [=]. lia.
Qed.

Lemma put_put idp p x y : put (put idp p x) p y = put idp p y.
Proof. unfold put, set_mem. simpl. by rewrite insert_insert_eq. Qed.

(** ** The whole *)

Lemma no_level_change idp A U F Fr i l : wf (top idp) (layers idp) idp A U (upto l F (F ∖ {[i]})) exact Fr None -> i ∉ F -> inv idp A U F Fr.
Proof.
  intros W Hi. assert (F ∖ {[i]} = F) as He by set_solver. rewrite He in W.
  assert (forall l', upto l F F l' = F) as Hu by (intros l'; unfold upto; by destruct (_ <? _)).
  apply (wf_refull _ _ _ _ _ _ _ _ _ _ W); [|intros; by rewrite Hu].
  intros l'. pose proof (w_F W l') as HF. by rewrite Hu in HF.
Qed.

(** The bit and the pointer of a taken id go; the count follows later. *)
Lemma clear_leaf tp L idp A U F Fr i p x : wf tp L idp A U (upto 1 F (F ∖ {[i]})) exact Fr None -> F ⊆ dom U -> i ∈ F ->
  A !! (0, anc 0 i) = Some p -> mem idp !! p = Some x ->
  wf tp L (put idp p (set_slot (set_bitmap x (Z.clearbit (bitmap x) (digit 0 i))) (digit 0 i) None)) A (delete i U)
    (level (F ∖ {[i]})) (off 0 (anc 0 i)) Fr None.
Proof.
  intros W HU Hin Hp Hx. destruct (w_nodes W _ _ _ Hp) as (x0 & Hx0 & Hok). simplify_eq.
  pose proof (clear_step i F (F ∖ {[i]}) eq_refl 1 _ _ _ _ _ _ _ _ 0 p x W ltac:(lia) HU Hp Hx ltac:(lia)) as W2.
  set (x2 := set_bitmap x (Z.clearbit (bitmap x) (digit 0 i))) in *.
  rewrite <- (put_put _ _ x2). change (set_slot x2 (digit 0 i) None) with (set_count (set_slot x2 (digit 0 i) None) (count x)).
  replace (None (A := addr)) with (mjoin (delete i U !! i)) at 1 by (by rewrite lookup_delete_eq).
  apply (wf_user _ _ _ _ U _ exact).
  - apply (wf_refull _ _ _ _ _ _ _ _ _ _ W2); [intros l; unfold level; set_solver|]. intros l q a n _ Hl _. by rewrite upto_ge by lia.
  - done.
  - simpl. by rewrite lookup_insert_eq.
  - intros k Hk. by rewrite lookup_delete_ne.
  - intros l q Hne. by rewrite off_ne.
  - intros l. unfold level. rewrite dom_delete_L. set_solver.
  - rewrite off_eq, (n_count _ _ _ _ _ _ _ Hok). unfold exact. rewrite (nkids_user A (delete i U) U i); [lia|apply lookup_delete_eq|by apply elem_of_dom, HU|].
    intros k Hk. by rewrite lookup_delete_ne.
Qed.

Lemma sub_remove_spec c idp A U F Fr i : wf (top idp) (layers idp) idp A U (upto c F (F ∖ {[i]})) exact Fr None -> 1 <= c <= layers idp ->
  F ⊆ dom U -> 0 <= i < width (layers idp - 1) ->
  exists idp' A', sub_remove idp ((layers idp - 1) * IDR_BITS) i = Some (idp', negb (bool_decide (i ∈ F))) /\
    inv idp' A' (if decide (i ∈ F) then delete i U else U) (F ∖ {[i]}) Fr.
Proof.
  intros W Hc HU Hi. pose proof (w_L W) as HL6. set (L := layers idp) in *. unfold sub_remove.
  destruct (remove_down_spec i F (F ∖ {[i]}) eq_refl (Z.to_nat (L - 1)) c 8 _ _ _ _ _ _ _ _ (L - 1) [TopSlot] W ltac:(lia) HU)
    as (idp1 & paa & Hd & Ht1 & HL1 & Hcase); [lia|simpl; split; [by left|lia]|lia|lia|].
  rewrite (proj1 (top_prefix L i ltac:(lia)) Hi) in Hd. rewrite <- (w_top W), Z.mul_comm in Hd. rewrite Hd.
  cbn [mbind option_bind]. destruct (A !! (0, anc 0 i)) as [p|] eqn:Hp.
  2:{ destruct Hcase as [l W1]. assert (i ∉ F) as Hni.
      { intros Hin. apply HU, elem_of_dom in Hin. rewrite (absent_user W 0 _ i ltac:(lia) Hp eq_refl) in Hin. by destruct Hin. }
      exists idp1, A. rewrite bool_decide_false, decide_False by done. split; [done|].
      replace (F ∖ {[i]}) with F by set_solver. apply (no_level_change _ _ _ _ _ i l); [|done]. by rewrite Ht1, HL1. }
  destruct Hcase as [W1 Hs]. destruct (w_nodes W1 _ _ _ Hp) as (x & Hx & Hok). rewrite Hx. cbn [mbind option_bind].
  rewrite digit_leaf. destruct (n_bits _ _ _ _ _ _ _ Hok) as [Hb Hbit]. specialize (Hbit (digit 0 i) (digit_range 0 i)).
  rewrite digit_spec in Hbit by lia. rewrite upto_lt in Hbit by lia. change (full F (0 - 1) (anc (0 - 1) i)) with (full F (-1) i) in Hbit.
  rewrite full_leaf in Hbit. destruct (decide (i ∈ F)) as [Hin|Hni].
  2:{ exists idp1, A. rewrite bool_decide_false by done. split.
      - destruct (Z.testbit (bitmap x) (digit 0 i)); [by destruct Hni; apply Hbit|done].
      - replace (F ∖ {[i]}) with F by set_solver. apply (no_level_change _ _ _ _ _ i 1); [|done]. by rewrite Ht1, HL1. }
  rewrite (proj2 Hbit Hin). rewrite bool_decide_true by done.
  set (x2 := set_bitmap x (Z.clearbit (bitmap x) (digit 0 i))).
  pose proof (clear_leaf _ _ _ _ _ _ _ _ _ _ W1 HU Hin Hp Hx) as W3. fold x2 in W3.
  destruct (remove_up_spec i (delete i U) (F ∖ {[i]}) Fr L paa 0 (put idp1 p (set_slot x2 (digit 0 i) None)) A p None) as ([[idp3 paa3] tf] & -> & Hr);
    [simpl; by rewrite Ht1|done|done|lia|done|done|]. cbn [mbind option_bind].
  destruct Hr as [(Hne & HL3 & A3 & W4)|(-> & HU0 & HF0 & Ht0 & W4)].
  - destruct (free_opt_spec _ _ _ _ _ _ _ _ _ W4) as (idp4 & Hf & W5 & Ht5 & HL5 & _). exists idp4, A3.
    destruct paa3 as [|s3 paa3]; [done|]. rewrite Hf. cbn [mbind option_bind]. split; [done|]. unfold inv. by rewrite Ht5, HL5, HL3.
  - apply (wf_set_top _ (top idp3) 0) in W4. destruct (free_opt_spec _ _ _ _ _ _ _ _ _ W4) as (idp4 & -> & W5 & Ht5 & HL5 & _).
    cbn [mbind option_bind]. exists idp4, ∅. split; [done|]. rewrite HU0, HF0. unfold inv. rewrite Ht5, HL5. simpl. by rewrite Ht0.
Qed.

(** ** The top and the free layers *)

Lemma shrink_spec idp A U F Fr : inv idp A U F Fr -> exists idp' A', shrink idp = Some idp' /\ inv idp' A' U F Fr /\ id_free_cnt idp' = id_free_cnt idp.
Proof.
  intros W. unfold shrink. pose proof (top_code W) as Ht. destruct (top idp) as [t|] eqn:Htop; [|by exists idp, A].
  destruct Ht as (HL & Hp & x & Hx & Hl). rewrite Hx. cbn [mbind option_bind]. destruct (ary x !! 0) as [p|] eqn:H0; [|by exists idp, A].
  destruct (Z.eqb_spec (count x) 1) as [Hc|Hc]; simpl; [|by exists idp, A].
  destruct (Z.ltb_spec 1 (layers idp)) as [H1|H1]; simpl; [|by exists idp, A].
  destruct (w_nodes W _ _ _ Hp) as (x0 & Hx0 & Hok). simplify_eq. unfold inv in W. rewrite Htop in W.
  pose proof (n_count _ _ _ _ _ _ _ Hok) as Hk. unfold exact in Hk.
  pose proof (wf_drop_top _ _ _ _ _ _ _ _ _ _ W H1 Hx H0 ltac:(lia)) as W1.
  apply (wf_set_top _ (Some p) (layers idp - 1)) in W1. destruct (wf_free t W1) as [-> W2].
  eexists _, _. split; [done|]. split; [exact W2|done].
Qed.

(** A free layer goes back to the slab allocator. *)
Lemma take_free idp A U F p Fr : inv idp A U F (p :: Fr) -> exists idp' idp'',
  get_from_free_list idp = Some (idp', Some p) /\ kmem_cache_free idp' p = Some idp'' /\ inv idp'' A U F Fr.
Proof.
  intros W. destruct (wf_take _ W) as (idp1 & y & Hg & W1 & _ & _ & Ht & HL & _). exists idp1.
  destruct (wf_free p W1) as [Hf W2]. eexists. split_and!; [done|exact Hf|]. unfold inv. simpl. by rewrite Ht, HL.
Qed.

Lemma trim_loop_spec fuel idp A U F Fr : inv idp A U F Fr -> (length Fr < fuel)%nat ->
  exists idp' Fr', trim_loop fuel idp = Some idp' /\ inv idp' A U F Fr' /\ (length Fr' < 14)%nat.
Proof.
  revert idp Fr. induction fuel as [|fuel IH]; intros idp Fr W Hf; [lia|]. cbn [trim_loop]. rewrite (w_cnt W).
  change IDR_FREE_MAX with 14. destruct (Z.leb_spec 14 (Z.of_nat (length Fr))); [|exists idp, Fr; split_and!; [done|done|lia]].
  destruct Fr as [|p Fr]; [simpl in *; lia|]. destruct (take_free _ _ _ _ _ _ W) as (idp1 & idp2 & -> & H2 & W2). cbn [mbind option_bind].
  rewrite H2. cbn [mbind option_bind]. apply (IH _ Fr); [done|simpl in Hf; lia].
Qed.

Lemma destroy_loop_spec fuel idp A U F Fr : inv idp A U F Fr -> (length Fr < fuel)%nat ->
  exists idp', destroy_loop fuel idp = Some idp' /\ inv idp' A U F [].
Proof.
  revert idp Fr. induction fuel as [|fuel IH]; intros idp Fr W Hf; [lia|]. cbn [destroy_loop]. rewrite (w_cnt W).
  destruct Fr as [|p Fr]; [exists idp; split; done|]. rewrite (proj2 (Z.eqb_neq _ 0)) by (simpl; lia).
  destruct (take_free _ _ _ _ _ _ W) as (idp1 & idp2 & -> & H2 & W2). cbn [mbind option_bind].
  rewrite H2. cbn [mbind option_bind]. apply (IH _ Fr); [done|simpl in Hf; lia].
Qed.

(** Removing in a tree that reaches the id.  Bits above the lowest level may have
    been cleared before. *)
Lemma idr_remove_gen c idp A U F Fr i : wf (top idp) (layers idp) idp A U (upto c F (F ∖ {[i]})) exact Fr None -> 1 <= c <= layers idp ->
  F ⊆ dom U -> 0 <= i < width (layers idp - 1) ->
  exists idp' A' Fr', idr_remove idp i = Some (idp', negb (bool_decide (i ∈ F))) /\
    inv idp' A' (if decide (i ∈ F) then delete i U else U) (F ∖ {[i]}) Fr' /\ (length Fr' < 14)%nat.
Proof.
  intros W Hc HU Hi. unfold idr_remove. pose proof (width_bound (layers idp) ltac:(pose proof (w_L W); lia)).
  change MAX_ID_MASK with (2 ^ 31 - 1). rewrite land_pow2_mask, Z.mod_small by lia.
  destruct (sub_remove_spec c idp A U F Fr i W Hc HU Hi) as (idp1 & A1 & -> & W1). cbn [mbind option_bind].
  destruct (shrink_spec _ _ _ _ _ W1) as (idp2 & A2 & -> & W2 & _). cbn [mbind option_bind].
  destruct (trim_loop_spec (S (Z.to_nat (id_free_cnt idp2))) idp2 A2 _ _ Fr W2) as (idp3 & Fr3 & -> & W3 & Hlen).
  { rewrite (w_cnt W2). lia. }
  cbn [mbind option_bind]. by exists idp3, A2, Fr3.
Qed.

Lemma idr_remove_inv idp A U F Fr i : inv idp A U F Fr -> 1 <= layers idp -> 0 <= i < width (layers idp - 1) ->
  exists idp' A' Fr', idr_remove idp i = Some (idp', negb (bool_decide (i ∈ F))) /\
    inv idp' A' (if decide (i ∈ F) then delete i U else U) (F ∖ {[i]}) Fr' /\ (length Fr' < 14)%nat.
Proof.
  intros W HL Hi. pose proof (w_F W 0 : F ⊆ dom U) as HU. apply (idr_remove_gen (layers idp) idp A U F Fr i); [|lia|done|done].
  apply (wf_refull _ _ _ _ _ _ _ _ _ _ W); [apply upto_dom; set_solver|]. intros l q a n _ Hl _. by rewrite upto_lt by lia.
Qed.

Lemma idr_pre_get_inv zalloc idp A U F Fr : inv idp A U F Fr -> NoDup zalloc -> (forall a, a ∈ zalloc -> mem idp !! a = None) ->
  exists idp' rv Fr', idr_pre_get idp zalloc = Some (idp', rv) /\ inv idp' A U F Fr' /\ layers idp' = layers idp /\ (length Fr <= length Fr')%nat /\
    (rv = 1 /\ (14 <= length Fr')%nat \/ rv = 0 /\ Z.of_nat (length Fr') = Z.of_nat (length Fr) + Z.of_nat (length zalloc)).
Proof.
  revert idp Fr. induction zalloc as [|new zalloc IH]; intros idp Fr W Hd Hz; cbn [idr_pre_get]; rewrite (w_cnt W);
    change IDR_FREE_MAX with 14; (destruct (Z.ltb_spec (Z.of_nat (length Fr)) 14);
      [|exists idp, 1, Fr; split_and!; [done|done|done|lia|left; split; [done|lia]]]).
  { exists idp, 0, Fr. split_and!; [done|done|done|lia|right; split; [done|simpl; lia]]. }
  apply NoDup_cons in Hd as [Hn Hd].
  pose proof (wf_new new zero_layer W (Hz new ltac:(left))) as W1.
  destruct (wf_give new zero_layer W1 ltac:(simpl; by rewrite lookup_insert_eq) eq_refl eq_refl ltac:(done)) as (idp1 & -> & W2 & Ht & HL & Hm).
  cbn [mbind option_bind]. destruct (IH idp1 (new :: Fr)) as (idp' & rv & Fr' & -> & W' & HL' & Hl & Hrv).
  - unfold inv. rewrite Ht, HL. exact W2.
  - done.
  - intros a Ha. assert (a <> new) by (by intros ->). rewrite Hm by done. simpl. rewrite lookup_insert_ne by done. apply Hz. by right.
  - exists idp', rv, Fr'. simpl in *. split_and!; [done|done|by rewrite HL', HL|lia|].
    destruct Hrv as [?|[-> ?]]; [by left|right; split; [done|lia]].
Qed.

End IdrRemove.
