(* ===== verification/IdrSpec.v ===== *)
(** * The idr: the walk over all ids

    [idr_for_each] goes down to an id, on to the next one and up as far as the
    prefix of the next id is 0.  It calls its function for the registered
    pointers, in the order of the ids. *)

From Stdlib Require Import ZArith Lia.
From stdpp Require Import base option gmap list list_numbers sorting.
From S2P Require Import Prelude Idr IdrInv IdrAlloc IdrGet.

Local Open Scope Z_scope.
Local Open Scope kernel_scope.

Module IdrEach.
Import Idr IdrInv IdrTree IdrAlloc IdrGrow IdrGet.

Lemma fls_spec n i : 0 <= n -> 0 < i -> (n <? fls i) = bool_decide (2 ^ n <= i).
Proof.
  intros Hn Hi. unfold fls. rewrite (proj2 (Z.eqb_neq i 0)), (proj2 (Z.ltb_ge i 0)) by lia.
  pose proof (Z.log2_le_pow2 i n Hi). case_bool_decide; [apply Z.ltb_lt|apply Z.ltb_ge]; lia.
Qed.

(** ** Lists of ids in order *)

Lemma ids_nodup ids : StronglySorted Z.lt ids -> NoDup ids.
Proof.
  induction 1 as [|i ids _ IH Hi]; constructor; [|done]. intros Hin. rewrite Forall_forall in Hi. apply Hi in Hin. lia.
Qed.

Lemma ids_filter (P : Z -> Prop) `{forall i, Decision (P i)} ids : StronglySorted Z.lt ids -> StronglySorted Z.lt (filter P ids).
Proof.
  induction 1 as [|i ids _ IH Hi]; [constructor|]. rewrite filter_cons. case_decide; [|done]. constructor; [done|].
  rewrite Forall_forall in *. intros j [_ Hj]%list_elem_of_filter. by apply Hi.
Qed.

Lemma ids_seqZ m n : StronglySorted Z.lt (seqZ m n).
Proof.
  remember (Z.to_nat n) as k eqn:Hk. revert m n Hk. induction k as [|k IH]; intros m n Hk; [rewrite seqZ_nil by lia; constructor|].
  rewrite seqZ_cons by lia. constructor; [apply IH; lia|]. apply Forall_forall. intros j Hj%elem_of_seqZ. lia.
Qed.

Lemma ids_unique ids ids' : StronglySorted Z.lt ids -> StronglySorted Z.lt ids' -> (forall i, i ∈ ids <-> i ∈ ids') -> ids = ids'.
Proof.
  intros H1 H2 H. apply (StronglySorted_unique_strong Z.lt); [intros; lia|done|done|].
  apply NoDup_Permutation; [by apply ids_nodup|by apply ids_nodup|done].
Qed.

Section each.
Context {D : Type} (fn : Z -> addr -> D -> Z * D).

(** The reference: the function is called for the listed ids until it fails. *)
Fixpoint each_ref (U : users) (ids : list Z) (data : D) : Z * D :=
  match ids with
  | [] => (0, data)
  | i :: ids =>
      match mjoin (U !! i) with
      | Some q => let '(error, data) := fn i q data in if error =? 0 then each_ref U ids data else (error, data)
      | None => each_ref U ids data
      end
  end.

Lemma each_ref_skip U ids ids' data : (forall i, i ∈ ids -> mjoin (U !! i) = None) -> each_ref U (ids ++ ids') data = each_ref U ids' data.
Proof.
  induction ids as [|i ids IH]; intros H; [done|]. simpl. rewrite (H i) by left. apply IH. intros j Hj. apply H. by right.
Qed.

Lemma each_ref_filter U ids data : each_ref U (filter (fun i => is_Some (mjoin (U !! i))) ids) data = each_ref U ids data.
Proof.
  revert data. induction ids as [|i ids IH]; intros data; [done|]. rewrite filter_cons. case_decide as Hd.
  - simpl. destruct (mjoin (U !! i)) as [q|]; [|by destruct Hd]. destruct (fn i q data) as [e d]. by rewrite IH.
  - simpl. rewrite IH. destruct (mjoin (U !! i)); [by destruct Hd|done].
Qed.
End each.

(** The first id after the prefix of [i] at level [l]. *)
Definition after (l i : Z) : Z := lo l (anc l i + 1).

Lemma after_step l i : -1 <= l -> i = lo l (anc l i) -> i + Z.shiftl 1 (IDR_BITS * (l + 1)) = after l i.
Proof.
  intros Hl Hi. unfold after. rewrite Z.shiftl_mul_pow2 by (unfold IDR_BITS; lia). rewrite Hi at 1. unfold lo, width, IDR_BITS. lia.
Qed.

Lemma lo_multiple j l c : -1 <= j <= l -> exists d, lo l c = lo j d.
Proof.
  intros Hj. exists (c * 2 ^ (5 * (l - j))). unfold lo, width. rewrite <- Z.mul_assoc, <- Z.pow_add_r by lia. do 2 f_equal. lia.
Qed.

(** The next id is at the start of a layer, or in the layer the last one was in. *)
Lemma after_cases j l i : -1 <= l -> -1 <= j -> 0 <= i ->
  after l i = lo j (anc j (after l i)) \/ l < j /\ anc j (after l i) = anc j i.
Proof.
  intros Hl Hj Hi. destruct (decide (j <= l)) as [Hjl|Hjl].
  { left. unfold after. destruct (lo_multiple j l (anc l i + 1) ltac:(lia)) as [d ->]. by rewrite anc_lo. }
  destruct (decide (anc j (after l i) = anc j i)) as [He|Hne]; [by right; split; [lia|]|left].
  pose proof (lo_anc l i Hl) as H1. unfold after in *. set (i' := lo l (anc l i + 1)) in *.
  pose proof (anc_mono j i i' Hj ltac:(lia)) as Hm. pose proof (lo_anc j i' Hj) as H2. pose proof (lo_anc j i Hj) as H3.
  pose proof (lo_mono j (anc j i + 1) (anc j i') Hj ltac:(lia)) as H4.
  (* a multiple of the width of level l that is above i is at least i' *)
  destruct (lo_multiple l j (anc j i') ltac:(lia)) as [d Hd].
  assert (anc l i + 1 <= d) as Hdd.
  { assert (~ d <= anc l i); [|lia]. intros Hle. pose proof (lo_mono l _ _ Hl Hle). lia. }
  pose proof (lo_mono l _ _ Hl Hdd) as Hq. fold i' in Hq. lia.
Qed.

Section walk.
Context {idp : idr} {A : placement} {U : users} {F : gset Z} {Fr : list addr} (W : inv idp A U F Fr).

(** The layers above level [l] on the way to [i]. *)
Fixpoint stack_ok (l i : Z) (paa : list addr) : Prop :=
  match paa with
  | [] => l = layers idp - 1
  | a :: paa => l < layers idp - 1 /\ A !! (l + 1, anc (l + 1) i) = Some a /\ stack_ok (l + 1) i paa
  end.

Lemma stack_length l i paa : stack_ok l i paa -> Z.of_nat (length paa) = layers idp - 1 - l.
Proof. revert l. induction paa as [|a paa IH]; simpl; intros l; [lia|]. intros (H1 & _ & H2). apply IH in H2. lia. Qed.

Lemma stack_present l i paa j : stack_ok l i paa -> l < j < layers idp -> is_Some (A !! (j, anc j i)).
Proof.
  revert l. induction paa as [|a paa IH]; simpl; intros l Hs Hj; [lia|]. destruct Hs as (H1 & H2 & H3).
  destruct (decide (j = l + 1)) as [->|]; [by eexists|]. apply (IH (l + 1)); [done|lia].
Qed.

Lemma stack_same l i i' paa : stack_ok l i paa -> (forall j, l < j < layers idp -> anc j i' = anc j i) -> stack_ok l i' paa.
Proof.
  revert l. induction paa as [|a paa IH]; simpl; intros l Hs He; [done|]. destruct Hs as (H1 & H2 & H3).
  split_and!; [done|by rewrite He by lia|]. apply IH; [done|]. intros j Hj. apply He. lia.
Qed.

Definition below (l i : Z) : option addr := mjoin (child A U l (anc l i)).

(** Down to the id or to a missing layer. *)
Lemma walk_down_spec k fuel l i paa : l + 1 = Z.of_nat k -> l < layers idp -> stack_ok l i paa -> (k < fuel)%nat ->
  exists l' paa', walk_down fuel idp 0 (IDR_BITS * (l + 1)) i (below l i) paa = Some (IDR_BITS * (l' + 1), below l' i, paa') /\
    -1 <= l' <= l /\ (below l' i = None \/ l' = -1) /\ stack_ok l' i paa'.
Proof.
  revert fuel l paa. induction k as [|k IH]; intros fuel l paa Hk Hl Hs Hf; (destruct fuel as [|fuel]; [lia|]); cbn [walk_down].
  - assert (l = -1) as -> by lia. change (IDR_BITS * (-1 + 1)) with 0. rewrite Z.ltb_irrefl. exists (-1), paa.
    split_and!; [by destruct (below _ _)|lia|lia|by right|done].
  - destruct (below l i) as [a|] eqn:Ha.
    2:{ exists l, paa. rewrite Ha. split_and!; try done; try lia. by left. }
    rewrite (proj2 (Z.ltb_lt 0 (IDR_BITS * (l + 1)))) by (unfold IDR_BITS; lia).
    assert (A !! (l, anc l i) = Some a) as Ha'.
    { revert Ha. unfold below. rewrite child_node by lia. destruct (A !! _); simpl; congruence. }
    destruct (slot_code W l i a Ha' ltac:(lia)) as (y & Hy & _ & Hslot & _). rewrite Hy. cbn [mbind option_bind].
    pose proof (stack_length _ _ _ Hs). pose proof (w_L W). change MAX_LEVEL with 7. rewrite bool_decide_true by lia.
    replace (IDR_BITS * (l + 1) - IDR_BITS) with (IDR_BITS * l) by (unfold IDR_BITS; lia). rewrite Hslot. fold (below (l - 1) i).
    replace (IDR_BITS * l) with (IDR_BITS * (l - 1 + 1)) by (unfold IDR_BITS; lia).
    destruct (IH fuel (l - 1) (a :: paa)) as (l' & paa' & H1 & H2 & H3 & H4); [lia|lia| |lia|].
    { simpl. replace (l - 1 + 1) with l by lia. split_and!; [lia|done|done]. }
    exists l', paa'. split_and!; try done; lia.
Qed.

(** Nothing is registered below a missing layer. *)
Lemma below_none l i j : -1 <= l < layers idp -> below l i = None -> anc l j = anc l i -> mjoin (U !! j) = None.
Proof.
  intros Hl Hb Hj. unfold below in Hb. destruct (decide (l = -1)) as [->|].
  - rewrite !anc_m1 in Hj. subst j. done.
  - rewrite child_node in Hb by lia. rewrite (absent_user W l (anc l i)); [done|lia| |done]. revert Hb.
    destruct (A !! _); simpl; congruence.
Qed.

(** Up until the prefix of the next id is 0. *)
Lemma each_up_spec stray k fuel l i i' p paa :
  layers idp - l = Z.of_nat k -> (k < fuel)%nat -> -1 <= l < layers idp -> stack_ok l i paa ->
  0 <= i < i' -> i' <= width (layers idp - 1) -> p = below l i \/ width l <= i' ->
  exists r, each_up stray fuel (IDR_BITS * (l + 1)) i' p paa = Some r /\
    (i' < width (layers idp - 1) -> exists l' paa', r = (IDR_BITS * (l' + 1), below l' i', paa') /\
      l <= l' < layers idp /\ stack_ok l' i' paa').
Proof.
  pose proof (w_L W) as HL.
  revert fuel l p paa. induction k as [|k IH]; intros fuel l p paa Hk Hf Hl Hs Hi Hi' Hp; [lia|]. destruct fuel as [|fuel]; [lia|].
  cbn [each_up]. rewrite fls_spec by (unfold IDR_BITS; lia). change (2 ^ (IDR_BITS * (l + 1))) with (width l).
  case_bool_decide as Hw.
  - destruct paa as [|a paa]; simpl in Hs.
    + (* beyond the top *)
      destruct fuel as [|fuel]; [lia|]. cbn [pop each_up]. rewrite fls_spec by (unfold IDR_BITS; lia).
      replace (IDR_BITS * (l + 1) + IDR_BITS) with (IDR_BITS * (l + 1 + 1)) by (unfold IDR_BITS; lia).
      change (2 ^ (IDR_BITS * (l + 1 + 1))) with (width (l + 1)).
      pose proof (width_succ l ltac:(lia)). pose proof (width_pos l ltac:(lia)). rewrite Hs in *.
      rewrite bool_decide_false by lia. eexists. split; [done|]. lia.
    + destruct Hs as (H1 & H2 & H3). cbn [pop].
      replace (IDR_BITS * (l + 1) + IDR_BITS) with (IDR_BITS * (l + 1 + 1)) by (unfold IDR_BITS; lia).
      destruct (IH fuel (l + 1) (Some a) paa) as (r & Hr & Hcase); try done; try lia.
      { left. unfold below. by rewrite child_node, H2 by lia. }
      exists r. split; [done|]. intros Hlt. destruct (Hcase Hlt) as (l' & paa' & Hr' & Hl' & Hs'). exists l', paa'. split_and!; try done; lia.
  - eexists. split; [done|]. intros Hlt. assert (p = below l i) as -> by (destruct Hp; [done|lia]).
    assert (forall j, l <= j < layers idp -> anc j i' = anc j i) as Hz.
    { intros j Hj. pose proof (width_mono l j ltac:(lia)).
      rewrite (proj2 (anc_spec j i' 0 ltac:(lia))) by (unfold lo; lia).
      rewrite (proj2 (anc_spec j i 0 ltac:(lia))) by (unfold lo; lia). done. }
    exists l, paa. split_and!; [|lia|lia|].
    + unfold below. by rewrite Hz by lia.
    + apply (stack_same l i); [done|]. intros j Hj. apply Hz. lia.
Qed.

Lemma after_range l i : -1 <= l < layers idp -> 0 <= i < width (layers idp - 1) -> i < after l i <= width (layers idp - 1).
Proof.
  intros Hl Hi. pose proof (lo_anc l i ltac:(lia)). unfold after. split; [lia|]. destruct (decide (l = -1)) as [->|].
  - unfold lo. rewrite anc_m1. change (width (-1)) with 1. lia.
  - apply carry_range; [lia|done].
Qed.

Section loop.
Context {D : Type} (fn : Z -> addr -> D -> Z * D) (stray : option addr).
Notation max := (width (layers idp - 1)).

(** The walk stands at [i]. *)
Record walk_ok (l i : Z) (paa : list addr) : Prop := {
  k_l : -1 <= l < layers idp;
  k_i : 0 <= i < max;
  k_stack : stack_ok l i paa;
  k_start : forall j, 0 <= j < layers idp -> i = lo j (anc j i) \/ is_Some (A !! (j, anc j i))
}.

Lemma each_done fuel n p paa data : each_loop fn stray fuel idp max n max p paa data = Some (0, data).
Proof. destruct fuel; cbn [each_loop]; by rewrite Z.ltb_irrefl. Qed.

(** The ids up to the next one the walk goes to. *)
Lemma each_ref_next l i data : -1 <= l < layers idp -> 0 <= i < max -> below l i = None \/ l = -1 ->
  i = lo l (anc l i) ->
  each_ref fn U (seqZ i (max - i)) data =
    let '(error, data) := match below l i with Some q => fn i q data | None => (0, data) end in
    if error =? 0 then each_ref fn U (seqZ (after l i) (max - after l i)) data else (error, data).
Proof.
  intros Hl Hi Hb Hal. pose proof (after_range l i Hl Hi) as Ha.
  replace (max - i) with ((after l i - i) + (max - after l i)) by lia. rewrite seqZ_app by lia.
  replace (i + (after l i - i)) with (after l i) by lia. destruct (below l i) as [q|] eqn:Hq.
  - destruct Hb as [?| ->]; [done|]. assert (after (-1) i = i + 1) as He by (unfold after, lo; rewrite anc_m1; change (width (-1)) with 1; lia).
    rewrite He. replace (i + 1 - i) with 1 by lia. rewrite seqZ_cons by lia. change (Z.pred 1) with 0. simpl.
    unfold below in Hq. rewrite child_leaf, anc_m1 in Hq. rewrite Hq. done.
  - rewrite each_ref_skip; [done|]. intros j Hj%elem_of_seqZ. apply (below_none l i); [done|done|].
    apply anc_spec; [lia|]. fold (after l i). rewrite <- Hal. lia.
Qed.

Lemma each_loop_spec fuel l i paa data : walk_ok l i paa -> max - i <= Z.of_nat fuel ->
  each_loop fn stray fuel idp max (IDR_BITS * (l + 1)) i (below l i) paa data = Some (each_ref fn U (seqZ i (max - i)) data).
Proof.
  revert l i paa data. induction fuel as [|fuel IH]; intros l i paa data [Hl Hi Hs HJ] Hfuel; [lia|]. pose proof (w_L W) as HL6.
  cbn [each_loop]. rewrite (proj2 (Z.ltb_lt i max)) by lia.
  destruct (walk_down_spec (Z.to_nat (l + 1)) 8 l i paa ltac:(lia) ltac:(lia) Hs ltac:(lia)) as (l' & paa' & -> & Hl' & Hb & Hs').
  cbn [mbind option_bind]. assert (i = lo l' (anc l' i)) as Hal.
  { destruct (decide (l' = -1)) as [->|]; [unfold lo; rewrite anc_m1; change (width (-1)) with 1; lia|].
    destruct (HJ l' ltac:(lia)) as [?|[a Ha]]; [done|]. destruct Hb as [Hb|?]; [|lia].
    unfold below in Hb. by rewrite child_node, Ha in Hb by lia. }
  rewrite (each_ref_next l' i data ltac:(lia) Hi Hb Hal).
  destruct (match below l' i with Some q => fn i q data | None => (0, data) end) as [error data'].
  destruct (error =? 0); [|done]. rewrite (after_step l' i ltac:(lia) Hal). pose proof (after_range l' i ltac:(lia) Hi) as Ha.
  destruct (each_up_spec stray (Z.to_nat (layers idp - l')) 8 l' i (after l' i) (below l' i) paa' ltac:(lia) ltac:(lia) ltac:(lia) Hs' ltac:(lia) ltac:(lia) ltac:(by left))
    as ([[n p] paa2] & -> & Hnext). cbn [mbind option_bind].
  destruct (decide (after l' i = max)) as [->|Hne]; [rewrite each_done; by rewrite Z.sub_diag|].
  destruct (Hnext ltac:(lia)) as (l2 & paa3 & [= -> -> ->] & Hl2 & Hs2). apply IH; [|lia]. constructor; [lia|lia|done|].
  intros j Hj. destruct (after_cases j l' i ltac:(lia) ltac:(lia) ltac:(lia)) as [?|[Hlj He]]; [by left|right].
  rewrite He. apply (stack_present l' i paa'); [done|lia].
Qed.

(** Every registered pointer, in the order of the ids. *)
Lemma idr_for_each_spec ids data : StronglySorted Z.lt ids -> (forall i, i ∈ ids <-> exists q, U !! i = Some (Some q)) ->
  idr_for_each fn stray idp data = Some (each_ref fn U ids data).
Proof.
  intros Hsort Hids. unfold idr_for_each. pose proof (w_L W) as HL. rewrite shift_width by lia.
  pose proof (width_pos (layers idp - 1) ltac:(lia)) as Hpos.
  assert (top idp = below (layers idp - 1) 0) as ->.
  { pose proof (top_code W) as Ht. unfold below, anc. rewrite Z.shiftr_0_l. destruct (top idp) as [p|].
    - destruct Ht as (H1 & H2 & _). by rewrite child_node, H2 by lia.
    - rewrite Ht. change (0 - 1) with (-1). rewrite child_leaf. by rewrite (no_layer_none W). }
  replace (layers idp * IDR_BITS) with (IDR_BITS * (layers idp - 1 + 1)) by lia.
  rewrite (each_loop_spec (Z.to_nat max) (layers idp - 1) 0 []); [|constructor|lia]; [|lia|lia|done|].
  2:{ intros j Hj. left. unfold lo, anc. by rewrite Z.shiftr_0_l. }
  f_equal. rewrite <- each_ref_filter. f_equal. rewrite Z.sub_0_r.
  apply ids_unique; [apply ids_filter, ids_seqZ|done|].
  intros i. rewrite list_elem_of_filter, elem_of_seqZ, Hids. split.
  - intros [[q Hq] _]. exists q. destruct (U !! i) as [[?|]|]; simpl in Hq; congruence.
  - intros [q Hq]. rewrite Hq. split; [by eexists|]. pose proof (user_range W i ltac:(by eexists)). lia.
Qed.
End loop.

End walk.

(** ** Removing all ids, in a tree of at most two layers *)

(** All layers of the tree are gone, the free ones are as before. *)
Lemma wf_all_gone idp A U F Fr idp' : inv idp A U F Fr -> top idp' = None -> layers idp' = 0 ->
  id_free idp' = id_free idp -> id_free_cnt idp' = id_free_cnt idp ->
  (forall k a, A !! k = Some a -> mem idp' !! a = None) -> (forall a, (forall k, A !! k <> Some a) -> mem idp' !! a = mem idp !! a) ->
  inv idp' ∅ ∅ ∅ Fr.
Proof.
  intros W Ht HL Hf Hc Hgone Hsame. unfold inv. rewrite Ht, HL. constructor; try done; try lia.
  - intros l c Hl1 Hl2 [z Hz]. unfold child in Hz. by case_decide.
  - rewrite Hf. apply (free_ok_ext (mem idp)); [apply W|]. intros a Ha. apply Hsame. intros k Hk. by apply (w_disj W k a).
  - apply W.
  - rewrite Hc. apply W.
  - intros a [x Hx]. destruct (w_owned W a) as [[k Hk]|[?|?]]; [|by rewrite (Hgone k a Hk) in Hx|by auto|done].
    destruct (decide (exists k, k ∈ dom A /\ A !! k = Some a)) as [(k & _ & Hk)|Hn].
    + by rewrite (Hgone k a Hk) in Hx.
    + exists x. rewrite <- Hsame; [done|]. intros k Hk. apply Hn. exists k. split; [by apply elem_of_dom_2 in Hk|done].
Qed.

Section remove_all.
Context {idp : idr} {A : placement} {U : users} {F : gset Z} {Fr : list addr} (W : inv idp A U F Fr) (stray : option addr).

(** The layers below the slots before [k] have been freed. *)
Definition freed (k : Z) (idp' : idr) : Prop :=
  top idp' = None /\ id_free idp' = id_free idp /\ id_free_cnt idp' = id_free_cnt idp /\
  (forall j a, 0 <= j < k -> A !! (0, j) = Some a -> mem idp' !! a = None) /\
  (forall a, (forall j, 0 <= j < k -> A !! (0, j) <> Some a) -> mem idp' !! a = mem idp !! a).

Lemma freed_next k idp' : 0 <= k -> freed k idp' -> exists idp'', free_opt idp' (A !! (0, k)) = Some idp'' /\ freed (k + 1) idp''.
Proof.
  intros Hk (H1 & H2 & H3 & H4 & H5). destruct (A !! (0, k)) as [p|] eqn:Hp; simpl.
  - destruct (w_nodes W _ _ _ Hp) as (x & Hx & _). unfold free_layer. rewrite H5, Hx.
    2:{ intros j Hj Ha. pose proof (w_inj W _ _ _ Hp Ha) as [=]. lia. }
    eexists. split; [done|]. split_and!; try done; simpl.
    + intros j a Hj Ha. destruct (decide (a = p)) as [->|]; [by rewrite lookup_delete_eq|]. rewrite lookup_delete_ne by done.
      apply (H4 j); [|done]. assert (j <> k) by (intros ->; congruence). lia.
    + intros a Ha. rewrite lookup_delete_ne; [apply H5; intros j Hj; apply Ha; lia|]. intros <-. by apply (Ha k); [lia|].
  - exists idp'. split; [done|]. split_and!; try done.
    + intros j a Hj Ha. apply (H4 j); [|done]. assert (j <> k) by (intros ->; congruence). lia.
    + intros a Ha. apply H5. intros j Hj. apply Ha. lia.
Qed.

Context (t : addr) (x : idr_layer) (Ht : A !! (1, 0) = Some t) (Hx : mem idp !! t = Some x) (HL : layers idp = 2).

Lemma freed_top k idp' : freed k idp' -> mem idp' !! t = Some x.
Proof. intros (_ & _ & _ & _ & H5). rewrite H5; [done|]. intros j _ Ha. by pose proof (w_inj W _ _ _ Ht Ha) as [=]. Qed.

Lemma top_slot k : 0 <= k < 32 -> ary x !! k = A !! (0, k).
Proof.
  intros Hk. destruct (w_nodes W _ _ _ Ht) as (y & Hy & Hok). simplify_eq. rewrite (n_ary _ _ _ _ _ _ _ Hok k Hk).
  change (32 * 0 + k) with k. change (1 - 1) with 0. rewrite child_node by lia. by destruct (A !! (0, k)).
Qed.

(** Down to one slot of the top. *)
Lemma down_one k idp' : 0 <= k < 32 -> freed k idp' ->
  walk_down 8 idp' IDR_BITS 10 (32 * k) (Some t) [] = Some (5, A !! (0, k), [t]).
Proof.
  intros Hk Hf. cbn [walk_down]. rewrite (freed_top k idp' Hf). cbn [mbind option_bind]. change (IDR_BITS <? 10) with true.
  rewrite bool_decide_true by done. change (10 - IDR_BITS) with 5.
  assert (Z.land (Z.shiftr (32 * k) 5) IDR_MASK = k) as ->.
  { change IDR_MASK with (2 ^ 5 - 1). rewrite land_pow2_mask, Z.shiftr_div_pow2 by lia. change (2 ^ 5) with 32. dlia. }
  rewrite top_slot by done. change (IDR_BITS <? 5) with false. by destruct (A !! (0, k)).
Qed.

Lemma fls_range n i : 0 <= n -> 0 < i -> (n < fls i <-> 2 ^ n <= i).
Proof. intros Hn Hi. pose proof (fls_spec n i Hn Hi) as H. case_bool_decide; [apply Z.ltb_lt in H|apply Z.ltb_ge in H]; lia. Qed.

Lemma up_one k idp' idp'' : 0 <= k < 31 -> free_opt idp' (A !! (0, k)) = Some idp'' ->
  remove_all_up 8 stray idp' 5 (32 * k + 32) (A !! (0, k)) [t] = Some (idp'', 10, Some t, []).
Proof.
  intros Hk Hf. cbn [remove_all_up]. rewrite (proj2 (Z.ltb_lt 5 _)) by (apply fls_range; lia).
  rewrite Hf. cbn [mbind option_bind pop]. change (5 + IDR_BITS) with 10.
  rewrite (proj2 (Z.ltb_ge 10 _)); [done|]. pose proof (fls_range 10 (32 * k + 32) ltac:(lia) ltac:(lia)) as H. change (2 ^ 10) with 1024 in H. lia.
Qed.

Lemma remove_all_two k fuel idp' : 0 <= k < 32 -> k = 32 - Z.of_nat fuel -> 0 < Z.of_nat fuel -> freed k idp' ->
  exists idp'', remove_all_loop fuel stray idp' 1024 10 (32 * k) (Some t) [] = Some idp'' /\ inv (set_top idp'' (top idp'') 0) ∅ ∅ ∅ Fr.
Proof.
  revert k idp'. induction fuel as [|fuel IH]; intros k idp' Hk Hfuel Hpos Hf; [lia|]. cbn [remove_all_loop].
  rewrite (proj2 (Z.ltb_lt _ _)) by lia. rewrite down_one by (done || lia). cbn [mbind option_bind]. change (Z.shiftl 1 5) with 32.
  destruct (freed_next k idp' ltac:(lia) Hf) as (idp1 & H1 & Hf1). destruct (decide (k = 31)) as [->|].
  - cbn [remove_all_up]. change (5 <? fls (32 * 31 + 32)) with true. rewrite H1. cbn [mbind option_bind pop].
    change (5 + IDR_BITS <? fls (32 * 31 + 32)) with true. cbn [free_opt]. unfold free_layer. rewrite (freed_top _ _ Hf1).
    cbn [mbind option_bind]. change (5 + IDR_BITS + IDR_BITS <? fls (32 * 31 + 32)) with false. cbn [mbind option_bind].
    change (32 * 31 + 32) with 1024. assert (fuel = 0%nat) as -> by lia. cbn [remove_all_loop]. rewrite Z.ltb_irrefl.
    eexists. split; [done|]. destruct Hf1 as (G1 & G2 & G3 & G4 & G5).
    assert (forall key a, A !! key = Some a -> key = (1, 0) \/ exists j, key = (0, j) /\ 0 <= j < 32) as Hkeys.
    { intros [l q] a Ha. pose proof (w_range W _ _ _ Ha) as [Hl Hq]. rewrite HL in Hl, Hq.
      destruct (decide (l = 1)) as [->|]; [left; by rewrite Hq|right]. assert (l = 0) as -> by lia. exists q. split; [done|].
      destruct (w_par W 0 q) as [b Hb]; [lia|lia|rewrite child_node, Ha by lia; by eexists|].
      apply (w_range W) in Hb as [_ Hb]. specialize (Hb ltac:(lia)). dlia. }
    apply (wf_all_gone idp A U F Fr); try done; simpl.
    + intros key a Ha. destruct (decide (a = t)) as [->|Hat]; [by rewrite lookup_delete_eq|]. rewrite lookup_delete_ne by done.
      destruct (Hkeys key a Ha) as [->|(j & -> & Hj)]; [congruence|]. apply (G4 j); [lia|done].
    + intros a Ha. rewrite lookup_delete_ne by (intros <-; by apply (Ha (1, 0))). apply G5. intros j _. apply Ha.
  - rewrite (up_one k idp' idp1) by (done || lia). cbn [mbind option_bind]. replace (32 * k + 32) with (32 * (k + 1)) by lia.
    apply IH; [lia|lia|lia|done].
Qed.

End remove_all.

Lemma remove_all_fuel fuel stray idp max n id p paa r : remove_all_loop fuel stray idp max n id p paa = Some r ->
  forall fuel', (fuel <= fuel')%nat -> remove_all_loop fuel' stray idp max n id p paa = Some r.
Proof.
  revert idp n id p paa. induction fuel as [|fuel IH]; intros idp n id p paa H fuel' Hf.
  - destruct fuel'; cbn [remove_all_loop] in *; destruct (id <? max); done.
  - destruct fuel' as [|fuel']; [lia|]. cbn [remove_all_loop] in *. destruct (id <? max); [|done].
    destruct (walk_down _ _ _ _ _ _ _) as [[[n1 p1] paa1]|]; [|done]. cbn [mbind option_bind] in *.
    destruct (remove_all_up _ _ _ _ _ _ _) as [[[[idp1 n2] p2] paa2]|]; [|done]. cbn [mbind option_bind] in *.
    apply (IH _ _ _ _ _ H). lia.
Qed.

Lemma remove_all_zero stray idp : remove_all_loop 1 stray idp 1 0 0 None [] = Some idp.
Proof. destruct stray; reflexivity. Qed.

Lemma remove_all_one stray idp t x : mem idp !! t = Some x ->
  remove_all_loop 1 stray idp 32 5 0 (Some t) [] = Some (set_mem idp (delete t (mem idp))).
Proof.
  intros Hx. cbn [remove_all_loop walk_down]. change (0 <? 32) with true. change (IDR_BITS <? 5) with false. cbn [mbind option_bind].
  change (0 + Z.shiftl 1 5) with 32. cbn [remove_all_up]. change (5 <? fls 32) with true. cbn [free_opt]. unfold free_layer. rewrite Hx.
  cbn [mbind option_bind pop]. by destruct stray.
Qed.

Lemma idr_remove_all_spec stray idp A U F Fr : inv idp A U F Fr -> layers idp <= 2 ->
  exists idp', idr_remove_all stray idp = Some idp' /\ inv idp' ∅ ∅ ∅ Fr.
Proof.
  intros W HL. pose proof (top_code W) as Ht. unfold idr_remove_all. set (idp0 := set_top idp None (layers idp)).
  destruct (top idp) as [t|] eqn:Htop.
  - destruct Ht as (HL1 & Hp & x & Hx & _). destruct (decide (layers idp = 1)) as [H1|H1].
    + rewrite H1 in *. change (Z.shiftl 1 (1 * IDR_BITS)) with 32. change (1 * IDR_BITS) with 5.
      rewrite (remove_all_fuel 1 _ _ _ _ _ _ _ _ (remove_all_one stray idp0 t x Hx)) by (apply Nat2Z.inj_le; lia).
      cbn [mbind option_bind]. eexists. split; [done|].
      assert (forall k a, A !! k = Some a -> a = t) as Hall.
      { intros [l q] a Ha. pose proof (w_range W _ _ _ Ha) as [Hl Hq]. rewrite H1 in Hl, Hq. assert (l = 0) as -> by lia.
        rewrite Hq in Ha by done. change (1 - 1) with 0 in Hp. congruence. }
      apply (wf_all_gone idp A U F Fr); try done; simpl.
      * intros k a Ha. rewrite (Hall k a Ha). by rewrite lookup_delete_eq.
      * intros a Ha. rewrite lookup_delete_ne; [done|]. intros <-. by apply (Ha (1 - 1, 0)).
    + assert (layers idp = 2) as H2 by lia. rewrite H2 in *. change (Z.shiftl 1 (2 * IDR_BITS)) with 1024. change (2 * IDR_BITS) with 10.
      destruct (remove_all_two W stray t x Hp Hx H2 0 32 idp0) as (idp' & Hr & W'); [lia|lia|lia| |].
      { split_and!; try done. intros j a Hj. lia. }
      rewrite (remove_all_fuel 32 _ _ _ _ _ _ _ _ Hr) by (apply Nat2Z.inj_le; lia). by eexists.
  - rewrite Ht. change (Z.shiftl 1 (0 * IDR_BITS)) with 1. change (0 * IDR_BITS) with 0. change (Z.to_nat 1) with 1%nat.
    rewrite remove_all_zero. cbn [mbind option_bind]. eexists. split; [done|].
    apply (wf_all_gone idp A U F Fr); try done; simpl.
    intros [l q] a Ha. apply (w_range W) in Ha. lia.
Qed.

End IdrEach.

(** * The idr as a finite map

    The operations of the idr on the map from ids to pointers it stands for,
    and runs of them.  Where the search or a removal goes wrong is shown on
    examples at the end. *)

Local Open Scope Z_scope.
Local Open Scope kernel_scope.

Module IdrSpec.
Import Idr IdrInv IdrTree IdrAlloc IdrGrow IdrGet IdrRemove IdrEach.

(** ** Starting ids *)

(** The starting id is 0 or free, or a free id follows before one that is taken. *)
Definition fair_start (U : users) (s : Z) : Prop :=
  s = 0 \/ U !! s = None \/ exists i j, s <= i < j /\ U !! i = None /\ is_Some (U !! j).

Lemma fair_good idp U s : idr_map idp U -> 0 <= s -> fair_start U s -> good_from idp U s.
Proof.
  intros (A & Fr & W) Hs Hf. apply (start_good _ _ _ _ _ _ W Hs). destruct Hf as [?|[?|(i & j & Hij & Hi & Hj)]].
  - by left.
  - right. left. by apply not_elem_of_dom.
  - right. right. exists i, j. split_and!; [lia|lia|by apply not_elem_of_dom|done].
Qed.

(** ** Operations and what they do to the map *)

Inductive op :=
  | PreGet (zalloc : list addr)
  | GetNew (ptr : option addr)
  | GetNewAbove (ptr : option addr) (s : Z)
  | Remove (i : Z)
  | Replace (ptr : option addr) (i : Z)
  | Find (i : Z)
  | Destroy.

Inductive res := RInt (rv : Z) | RId (i : Z) | RPtr (p : option addr) | RVoid.

Definition id_res (r : option (idr * Z * option Z)) : option (idr * res) :=
  r ← r;
  match r with
  | (idp, rv, None) => Some (idp, RInt rv)
  | (idp, _, Some i) => Some (idp, RId i)
  end.

Definition run (idp : idr) (o : op) : option (idr * res) :=
  match o with
  | PreGet zalloc => r ← idr_pre_get idp zalloc; Some (r.1, RInt r.2)
  | GetNew ptr => id_res (idr_get_new idp ptr)
  | GetNewAbove ptr s => id_res (idr_get_new_above idp ptr s)
  | Remove i => r ← idr_remove idp i; Some (r.1, RVoid)
  | Replace ptr i => r ← idr_replace idp ptr i; Some (r.1, match r.2 with inl e => RInt e | inr p => RPtr p end)
  | Find i => p ← idr_find idp i; Some (idp, RPtr p)
  | Destroy => idp ← idr_destroy idp; Some (idp, RVoid)
  end.

(** What the caller sees: a map. *)
Inductive spec (U : users) : op -> users -> res -> Prop :=
  | S_PreGet zalloc rv : rv = 0 \/ rv = 1 -> spec U (PreGet zalloc) U (RInt rv)
  | S_GetNew ptr i : least_free (dom U) 0 i -> spec U (GetNew ptr) (<[i := ptr]> U) (RId i)
  | S_GetNew_again ptr : spec U (GetNew ptr) U (RInt (- EAGAIN))
  | S_GetNewAbove ptr s i : least_free (dom U) s i -> spec U (GetNewAbove ptr s) (<[i := ptr]> U) (RId i)
  | S_GetNewAbove_again ptr s : spec U (GetNewAbove ptr s) U (RInt (- EAGAIN))
  | S_Remove i : spec U (Remove i) (delete i U) RVoid
  | S_Replace ptr i old : U !! i = Some old -> spec U (Replace ptr i) (<[i := ptr]> U) (RPtr old)
  | S_Replace_none ptr i e : U !! i = None -> e = - EINVAL \/ e = - ENOENT -> spec U (Replace ptr i) U (RInt e)
  | S_Find i : spec U (Find i) U (RPtr (mjoin (U !! i)))
  | S_Destroy : spec U Destroy U RVoid.

(** What the caller has to see to: new layers are new, a free id is left below
    2^30, only ids that are taken are removed, ids are not negative. *)
Definition room (U : users) (s : Z) : Prop := exists i, s <= i < 2 ^ 30 /\ U !! i = None.

Definition legal (idp : idr) (U : users) (o : op) : Prop :=
  match o with
  | PreGet zalloc => NoDup zalloc /\ forall a, a ∈ zalloc -> mem idp !! a = None
  | GetNew _ => room U 0
  | GetNewAbove _ s => 0 <= s < 2 ^ 30 /\ room U s /\ fair_start U s
  | Remove i => is_Some (U !! i)
  | Replace _ i | Find i => 0 <= i < 2 ^ 31
  | Destroy => True
  end.

(** ** The operations one by one *)

Lemma get_new_above_ok idp U ptr s : idr_map idp U -> 0 <= s < 2 ^ 30 -> room U s -> fair_start U s ->
  exists idp', (exists i, idr_get_new_above idp ptr s = Some (idp', 0, Some i) /\ least_free (dom U) s i /\ i < 2 ^ 30 /\ idr_map idp' (<[i := ptr]> U)) \/
    (idr_get_new_above idp ptr s = Some (idp', - EAGAIN, None) /\ id_free_cnt idp < 11 /\ idr_map idp' U).
Proof.
  intros Hm Hs (i & Hi & Hn) Hf. destruct (get_new_above_int_spec idp U ptr s Hm Hs) as (idp' & v & Hr & Hcase);
    [by exists i|by apply fair_good; [|lia|]|]. exists idp'. unfold idr_get_new_above. rewrite Hr. cbn [mbind option_bind].
  destruct Hcase as [(-> & Hc & Hm')|(Hv & Hlt & Hm')]; [by right|left].
  exists v. rewrite (proj2 (Z.ltb_ge v 0)) by (destruct Hv; lia). done.
Qed.

Lemma get_new_zero idp ptr : idr_get_new idp ptr = idr_get_new_above idp ptr 0.
Proof. done. Qed.

Lemma remove_ok idp U i : idr_map idp U -> is_Some (U !! i) -> exists idp', idr_remove idp i = Some (idp', false) /\ idr_map idp' (delete i U).
Proof.
  intros (A & Fr & W) Hi. destruct (idr_remove_inv idp A U (dom U) Fr i W) as (idp' & A' & Fr' & Hr & W' & _).
  - pose proof (present_level W (-1) i ltac:(lia) Hi). lia.
  - by apply (user_range W).
  - apply elem_of_dom in Hi. exists idp'. rewrite bool_decide_true in Hr by done. rewrite decide_True in W' by done.
    split; [done|]. exists A', Fr'. by rewrite dom_delete_L.
Qed.

Lemma idr_init_map : idr_map (idr_init ∅) ∅.
Proof.
  exists ∅, []. unfold inv. simpl. constructor; simpl; try done; try lia.
  - intros l c Hl1 Hl2 [z Hz]. unfold child in Hz. by case_decide.
  - apply NoDup_nil_2.
  - intros a Ha. rewrite lookup_empty in Ha. by destruct Ha.
Qed.

Lemma idr_run_ok idp U o : idr_map idp U -> legal idp U o -> exists idp' U' r, run idp o = Some (idp', r) /\ spec U o U' r /\ idr_map idp' U'.
Proof.
  intros Hm Hl. destruct o as [zalloc|ptr|ptr s|i|ptr i|i|]; simpl in *.
  - destruct Hl as [Hd Hz]. destruct Hm as (A & Fr & W). destruct (idr_pre_get_inv zalloc idp A U _ Fr W Hd Hz) as (idp' & rv & Fr' & -> & W' & _ & _ & Hrv).
    eexists idp', U, _. split; [done|]. split; [|by exists A, Fr']. apply S_PreGet. simpl. naive_solver.
  - rewrite get_new_zero. destruct (get_new_above_ok idp U ptr 0 Hm ltac:(lia) Hl ltac:(by left)) as (idp' & [(i & -> & Hi & _ & Hm')|(-> & _ & Hm')]).
    + eexists idp', _, _. split; [done|]. split; [by apply S_GetNew|done].
    + eexists idp', _, _. split; [done|]. split; [by apply S_GetNew_again|done].
  - destruct Hl as (Hs & Hr & Hf). destruct (get_new_above_ok idp U ptr s Hm Hs Hr Hf) as (idp' & [(i & -> & Hi & _ & Hm')|(-> & _ & Hm')]).
    + eexists idp', _, _. split; [done|]. split; [by apply S_GetNewAbove|done].
    + eexists idp', _, _. split; [done|]. split; [by apply S_GetNewAbove_again|done].
  - destruct (remove_ok idp U i Hm Hl) as (idp' & -> & Hm'). eexists idp', _, _. split; [done|]. split; [by apply S_Remove|done].
  - pose proof (idr_replace_spec idp U ptr i Hm Hl) as Hr. destruct (U !! i) as [old|] eqn:Hi.
    + destruct Hr as (idp' & -> & Hm'). eexists idp', _, _. split; [done|]. split; [by apply S_Replace|done].
    + rewrite Hr. eexists idp, U, _. split; [done|]. split; [|done]. apply S_Replace_none; [done|]. unfold replace_error. case_bool_decide; auto.
  - destruct Hm as (A & Fr & W). rewrite (idr_find_spec W i Hl). eexists idp, U, _. split; [done|]. split; [by apply S_Find|by exists A, Fr].
  - destruct Hm as (A & Fr & W). destruct (destroy_loop_spec (S (Z.to_nat (id_free_cnt idp))) idp A U _ Fr W) as (idp' & Hd & W').
    { rewrite (w_cnt W). lia. }
    unfold idr_destroy. rewrite Hd. eexists idp', U, _. split; [done|]. split; [by apply S_Destroy|by exists A, []].
Qed.

(** The result tells the new map. *)
Lemma spec_det U o U1 U2 r : spec U o U1 r -> spec U o U2 r -> U1 = U2.
Proof. intros H1 H2. destruct H1; inversion H2; subst; try done; congruence. Qed.

(** The states after any number of legal operations, with the map seen by the caller. *)
Inductive reachable : idr -> users -> Prop :=
  | R_init : reachable (idr_init ∅) ∅
  | R_step idp U o idp' r U' : reachable idp U -> legal idp U o -> run idp o = Some (idp', r) -> spec U o U' r -> reachable idp' U'.

Lemma reachable_map idp U : reachable idp U -> idr_map idp U.
Proof.
  induction 1 as [|idp U o idp' r U' _ IH Hl Hr Hs]; [apply idr_init_map|].
  destruct (idr_run_ok idp U o IH Hl) as (idp1 & U1 & r1 & Hr1 & Hs1 & Hm). rewrite Hr in Hr1. simplify_eq.
  by rewrite (spec_det _ _ _ _ _ Hs Hs1).
Qed.

(** C7: After any sequence of operations of the idr, each called as it should
    be, the next such operation returns without touching memory that is not its
    own, and its result and what it does to the registered ids are those of the
    same operation on a finite map. *)
Theorem idr_refines_map idp U o : reachable idp U -> legal idp U o ->
  exists idp' U' r, run idp o = Some (idp', r) /\ spec U o U' r /\ reachable idp' U'.
Proof.
  intros Hm Hl. destruct (idr_run_ok idp U o (reachable_map _ _ Hm) Hl) as (idp' & U' & r & Hr & Hs & _).
  exists idp', U', r. split_and!; [done|done|]. by apply (R_step idp U o idp' r).
Qed.

Lemma idr_refines_map_witness :
  exists idp' U' r, run (idr_init ∅) (GetNew None) = Some (idp', r) /\ spec ∅ (GetNew None) U' r /\ reachable idp' U'.
Proof.
  apply (idr_refines_map (idr_init ∅) ∅ (GetNew None) R_init). simpl. exists 0. split; [lia|reflexivity].
Defined.

(** Looking up every id tells the map. *)
Lemma map_find idp U i : idr_map idp U -> 0 <= i < 2 ^ 31 -> idr_find idp i = Some (mjoin (U !! i)).
Proof. intros (A & Fr & W) Hi. by apply (idr_find_spec W). Qed.

(** C8: After [idr_pre_get] returned 1, an id is always found: the least one
    from the starting id on that is not taken.  Afterwards it is registered with
    the pointer, and the other ids are registered as before. *)
Theorem idr_get_new_least idp U zalloc idp1 ptr s :
  reachable idp U -> legal idp U (PreGet zalloc) -> idr_pre_get idp zalloc = Some (idp1, 1) ->
  0 <= s < 2 ^ 30 -> room U s -> fair_start U s ->
  exists idp2 i, idr_get_new_above idp1 ptr s = Some (idp2, 0, Some i) /\ least_free (dom U) s i /\ i < 2 ^ 30 /\
    reachable idp2 (<[i := ptr]> U) /\
    forall j, 0 <= j < 2 ^ 31 -> idr_find idp2 j = if decide (j = i) then Some ptr else idr_find idp j.
Proof.
  intros Hreach Hl Hpre Hs Hr Hf. pose proof (reachable_map _ _ Hreach) as Hm. destruct Hm as (A & Fr & W).
  assert (reachable idp1 U) as Hreach1.
  { apply (R_step idp U (PreGet zalloc) idp1 (RInt 1) U Hreach Hl); [simpl; by rewrite Hpre|]. apply S_PreGet. by right. }
  destruct Hl as [Hd Hz].
  destruct (idr_pre_get_inv zalloc idp A U _ Fr W Hd Hz) as (idp' & rv & Fr' & Hp & W' & _ & _ & Hrv).
  rewrite Hpre in Hp. simplify_eq. assert (14 <= length Fr')%nat as Hlen by (by destruct Hrv as [[_ ?]|[? _]]).
  destruct (get_new_above_ok idp' U ptr s ltac:(by exists A, Fr') Hs Hr Hf) as (idp2 & [(i & Hg & Hi & Hlt & Hm2)|(_ & Hc & _)]).
  2:{ rewrite (w_cnt W') in Hc. lia. }
  exists idp2, i. split_and!; try done.
  { apply (R_step idp' U (GetNewAbove ptr s) idp2 (RId i) _ Hreach1); [done|simpl; by rewrite Hg|by apply S_GetNewAbove]. }
  intros j Hj. rewrite (map_find _ _ j Hm2 Hj), (map_find _ _ j (reachable_map _ _ Hreach) Hj). case_decide as Hji.
  - subst j. by rewrite lookup_insert_eq.
  - by rewrite lookup_insert_ne.
Qed.

Definition some_layers : list addr := [1; 2; 3; 4; 5; 6; 7; 8; 9; 10; 11; 12; 13; 14; 15; 16]%positive.
Definition filled : idr := match idr_pre_get (idr_init ∅) some_layers with Some (idp, _) => idp | None => idr_init ∅ end.

Lemma idr_get_new_least_witness : exists idp2 i,
  idr_get_new_above filled (Some 7%positive) 1000 = Some (idp2, 0, Some i) /\ least_free ∅ 1000 i.
Proof.
  destruct (idr_get_new_least (idr_init ∅) ∅ some_layers filled (Some 7%positive) 1000) as (idp2 & i & H1 & H2 & _).
  - exact R_init.
  - split; [|intros a _; apply lookup_empty]. apply (bool_decide_unpack _). vm_compute. exact I.
  - vm_compute. reflexivity.
  - lia.
  - exists 1000. split; [lia|reflexivity].
  - right. left. reflexivity.
  - exists idp2, i. split; [exact H1|exact H2].
Defined.

(** [idr_for_each] calls its function for every id that is registered
    with a pointer, once and in ascending order, until one call returns an error;
    what lies below its stack does not matter. *)
Theorem idr_for_each_in_order {D} (fn : Z -> addr -> D -> Z * D) stray idp U ids data :
  reachable idp U -> StronglySorted Z.lt ids -> (forall i, i ∈ ids <-> exists q, U !! i = Some (Some q)) ->
  idr_for_each fn stray idp data = Some (each_ref fn U ids data).
Proof. intros Hr H1 H2. destruct (reachable_map _ _ Hr) as (A & Fr & W). by apply (idr_for_each_spec W). Qed.

(** An idr with one id. *)
Definition one_id (ptr : option addr) (s : Z) : idr :=
  match idr_get_new_above filled ptr s with Some (idp, _, _) => idp | None => filled end.

Lemma filled_reachable : reachable filled ∅.
Proof.
  apply (R_step _ ∅ (PreGet some_layers) _ (RInt 1) ∅ R_init); [|vm_compute; reflexivity|apply S_PreGet; by right].
  split; [|intros a _; apply lookup_empty]. apply (bool_decide_unpack _). vm_compute. exact I.
Qed.

Lemma one_id_reachable : reachable (one_id (Some 9%positive) 1000) {[1000 := Some 9%positive]}.
Proof.
  apply (R_step filled ∅ (GetNewAbove (Some 9%positive) 1000) _ (RId 1000) _ filled_reachable).
  - split_and!; [lia|lia|exists 1000; split; [lia|done]|right; by left].
  - vm_compute. reflexivity.
  - apply (S_GetNewAbove ∅ (Some 9%positive) 1000 1000). split_and!; [lia|by rewrite dom_empty_L|]. intros i Hi. lia.
Qed.

Lemma idr_for_each_in_order_witness :
  idr_for_each (fun i q l => (0, (i, q) :: l)) None (one_id (Some 9%positive) 1000) [] = Some (0, [(1000, 9%positive)]).
Proof.
  rewrite (idr_for_each_in_order _ None _ {[1000 := Some 9%positive]} [1000] [] one_id_reachable).
  - reflexivity.
  - constructor; constructor.
  - intros i. rewrite list_elem_of_singleton. split.
    + intros ->. exists 9%positive. reflexivity.
    + intros [q Hq]. apply lookup_singleton_Some in Hq. destruct Hq as [Hq _]. symmetry. exact Hq.
Defined.

(** ** The layers *)

(** The layers that can be reached from the top. *)
Inductive linked (idp : idr) : addr -> Prop :=
  | L_top t : top idp = Some t -> linked idp t
  | L_child a x n b : linked idp a -> mem idp !! a = Some x -> 0 < layer x -> ary x !! n = Some b -> linked idp b.

Definition layer_ok (idp : idr) (x : idr_layer) : Prop :=
  0 <= layer x < layers idp /\ layers idp <= 6 /\ 0 <= bitmap x < two32 /\ 0 <= count x <= 32 /\ (forall n, is_Some (ary x !! n) -> 0 <= n < 32) /\
  forall n b, 0 < layer x -> ary x !! n = Some b -> exists y, mem idp !! b = Some y /\ layer y = layer x - 1.

Lemma cnt_le f ns : cnt f ns <= Z.of_nat (length ns).
Proof. induction ns as [|m ns IH]; simpl; [lia|]. destruct (f m); lia. Qed.

Lemma placed_ok idp A U F Fr l q a : inv idp A U F Fr -> A !! (l, q) = Some a -> exists x, mem idp !! a = Some x /\ layer_ok idp x.
Proof.
  intros W Ha. destruct (w_nodes W _ _ _ Ha) as (x & Hx & Hok). exists x. split; [done|]. pose proof (w_range W _ _ _ Ha) as [Hl _].
  pose proof (w_L W). destruct Hok as [H1 H2 H3 H4 [H5 _]]. subst l. split_and!; try lia; try done.
  - rewrite H4. unfold exact. pose proof (cnt_nonneg (fun n => occupied A U (layer x - 1) (32 * q + n)) slots32). unfold nkids. lia.
  - rewrite H4. unfold exact. pose proof (cnt_le (fun n => occupied A U (layer x - 1) (32 * q + n)) slots32) as Hle.
    change (length slots32) with 32%nat in Hle. unfold nkids. lia.
  - intros n b Hpos Hb. pose proof (H3 n ltac:(by eexists)) as Hn. rewrite H2, child_node in Hb by lia.
    destruct (A !! (layer x - 1, 32 * q + n)) as [b'|] eqn:Hb'; [|done]. simpl in Hb. injection Hb as ->.
    destruct (w_nodes W _ _ _ Hb') as (y & Hy & Hyok). exists y. split; [done|apply Hyok].
Qed.

Lemma linked_placed idp A U F Fr a : inv idp A U F Fr -> linked idp a -> exists l q, A !! (l, q) = Some a.
Proof.
  intros W. induction 1 as [t Ht|a x n b _ (l & q & Ha) Hx Hpos Hb].
  - exists (layers idp - 1), 0. by rewrite <- (w_top W).
  - destruct (w_nodes W _ _ _ Ha) as (x0 & Hx0 & [H1 H2 H3 _ _]). simplify_eq.
    exists (layer x - 1), (32 * q + n). pose proof (H3 n ltac:(by eexists)) as Hn. rewrite H2, child_node in Hb by lia.
    by destruct (A !! (layer x - 1, 32 * q + n)).
Qed.

(** The layers on the list of free ones. *)
Inductive spare (idp : idr) : addr -> Prop :=
  | F_first a : id_free idp = Some a -> spare idp a
  | F_next a x b : spare idp a -> mem idp !! a = Some x -> ary x !! 0 = Some b -> spare idp b.

Lemma placed_linked k idp A U F Fr l q a : inv idp A U F Fr -> A !! (l, q) = Some a -> layers idp - 1 - l = Z.of_nat k -> linked idp a.
Proof.
  intros W. revert l q a. induction k as [|k IH]; intros l q a Ha Hk; pose proof (w_range W _ _ _ Ha) as [Hl Hq].
  - apply L_top. rewrite (w_top W), <- Ha. f_equal. f_equal; [lia|]. symmetry. apply Hq. lia.
  - destruct (w_par W l q) as [p Hp]; [lia|lia|rewrite child_node, Ha by lia; by eexists|].
    destruct (w_nodes W _ _ _ Hp) as (x & Hx & [H1 H2 H3 _ _]).
    apply (L_child idp p x (q mod 32)); [apply (IH (l + 1) (q / 32)); [done|lia]|done|lia|].
    rewrite H2 by dlia. replace (32 * (q / 32) + q mod 32) with q by dlia. replace (l + 1 - 1) with l by lia.
    by rewrite child_node, Ha by lia.
Qed.

Lemma spare_free idp o Fr : free_ok (mem idp) o Fr -> id_free idp = o ->
  forall a, spare idp a <-> a ∈ Fr.
Proof.
  intros Hf Ho a. split.
  - induction 1 as [a Ha|a x b _ IH Hx Hb].
    + destruct Fr as [|p Fr]; simpl in Hf; [congruence|]. destruct Hf as [Hf _]. assert (p = a) as -> by congruence. left.
    + clear Ho. revert o Hf IH. induction Fr as [|p Fr IHF]; simpl; intros o Hf Hin; [by apply not_elem_of_nil in Hin|].
      destruct Hf as (_ & y & Hy & _ & _ & _ & Hr). apply elem_of_cons in Hin as [->|Hin].
      * simplify_eq. right. destruct Fr as [|p' Fr]; simpl in Hr; [congruence|]. destruct Hr as [Hr _]. rewrite Hr in Hb. injection Hb as ->. left.
      * right. by apply (IHF (ary y !! 0)).
  - assert (forall o Fr, free_ok (mem idp) o Fr -> (forall p, o = Some p -> spare idp p) -> forall a, a ∈ Fr -> spare idp a) as Hall.
    { clear. intros o Fr. revert o. induction Fr as [|p Fr IH]; simpl; intros o Hf Hs a Ha; [by apply not_elem_of_nil in Ha|].
      destruct Hf as (-> & x & Hx & _ & _ & _ & Hr). apply elem_of_cons in Ha as [->|Ha]; [by apply Hs|].
      apply (IH (ary x !! 0)); [done| |done]. intros p' Hp'. by apply (F_next idp p x); [apply Hs| |]. }
    apply (Hall o Fr); [done|]. intros p Hp. apply F_first. congruence.
Qed.

(** C32: In every reachable state the layers in memory are those that can be
    reached from the top and those on the list of free ones, and none is both: no
    layer is lost or used twice.  A layer below the top is of a level below
    [layers], which is at most 6, its count is at most 32 and its bitmap has 32
    bits; the pointers in its 32 slots lead to layers of the level below, and in
    the lowest layers to what the callers passed. *)
Theorem idr_layers_typed idp U : reachable idp U ->
  (forall a, is_Some (mem idp !! a) <-> linked idp a \/ spare idp a) /\ (forall a, linked idp a -> spare idp a -> False) /\
  forall a, linked idp a -> exists x, mem idp !! a = Some x /\ layer_ok idp x.
Proof.
  intros Hr. destruct (reachable_map _ _ Hr) as (A & Fr & W). pose proof (spare_free _ _ _ (w_free W) eq_refl) as Hsp.
  assert (forall a, linked idp a <-> exists k, A !! k = Some a) as Hli.
  { intros a. split.
    - intros Ha. destruct (linked_placed _ _ _ _ _ _ W Ha) as (l & q & Hp). by eexists.
    - intros [[l q] Ha]. apply (placed_linked (Z.to_nat (layers idp - 1 - l)) idp A U (dom U) Fr l q); [done|done|].
      pose proof (w_range W _ _ _ Ha). lia. }
  split_and!.
  - intros a. rewrite Hli, Hsp. split.
    + intros Ha. destruct (w_owned W a Ha) as [?|[?|?]]; [auto..|done].
    + intros [[[l q] Ha]|Ha]; [|by apply (free_ok_mem _ _ _ _ (w_free W))]. destruct (w_nodes W _ _ _ Ha) as (x & Hx & _). by eexists.
  - intros a. rewrite Hli, Hsp. intros [k Hk]. by apply (w_disj W k).
  - intros a [[l q] Ha]%Hli. by apply (placed_ok idp A U (dom U) Fr l q).
Qed.

Lemma idr_layers_typed_witness : exists t x,
  top (one_id (Some 9%positive) 1000) = Some t /\ mem (one_id (Some 9%positive) 1000) !! t = Some x /\ layer_ok (one_id (Some 9%positive) 1000) x.
Proof.
  exists 14%positive. destruct (idr_layers_typed _ _ one_id_reachable) as (_ & _ & H). destruct (H 14%positive) as (x & H1 & H2).
  - apply L_top. vm_compute. reflexivity.
  - exists x. split; [vm_compute; reflexivity|]. split; [exact H1|exact H2].
Defined.

(** ** Where it goes wrong *)

(** [idr_remove_all] in a tree of at most two layers. *)
Lemma idr_remove_all_small stray idp U : idr_map idp U -> layers idp <= 2 ->
  exists idp', idr_remove_all stray idp = Some idp' /\ idr_map idp' ∅ /\ top idp' = None /\ id_free_cnt idp' = id_free_cnt idp.
Proof.
  intros (A & Fr & W) HL. destruct (idr_remove_all_spec stray idp A U _ Fr W HL) as (idp' & Hr & W'). exists idp'.
  split_and!; [done|exists ∅, Fr; by rewrite dom_empty_L|by rewrite (w_top W')|]. by rewrite (w_cnt W), (w_cnt W').
Qed.

(** With more layers it goes up too far, as [fls(id)] counts all bits of the id
    and not those that changed: a layer is freed a second time. *)
Lemma idr_remove_all_frees_twice stray : layers (one_id (Some 7%positive) 2000) = 3 /\ idr_remove_all stray (one_id (Some 7%positive) 2000) = None.
Proof. destruct stray; vm_compute; done. Qed.

(** The search from an id that is taken, up to the end of the tree where ids
    before it are free, starts again with an id beyond the tree: the pointer is
    stored with id 0, the caller is told 1024, and finds nothing there. *)
Lemma idr_get_new_above_lost : exists idp, idr_get_new_above (one_id (Some 7%positive) 1023) (Some 8%positive) 1023 = Some (idp, 0, Some 1024) /\
  idr_find idp 1024 = Some None /\ idr_find idp 0 = Some (Some 8%positive).
Proof. eexists. vm_compute. done. Qed.

(** Removing an id beyond the tree removes the one with the same low bits. *)
Lemma idr_remove_alias : exists idp, idr_remove (one_id (Some 7%positive) 0) 32 = Some (idp, false) /\ idr_find idp 0 = Some None.
Proof. eexists. vm_compute. done. Qed.

End IdrSpec.
