(* ===== verification/Ida.v ===== *)
(** * Identifiers without pointers: the ida

    The ida of [lib/idr.c] keeps a bitmap of 992 ids in each slot of an idr; the
    bit of the slot in the idr is set when no id of the bitmap is free.  The ida
    stands for a set of ids. *)

From Stdlib Require Import ZArith Lia.
From stdpp Require Import base option gmap list list_numbers.
From S2P Require Import Prelude Idr IdrInv IdrAlloc IdrGet.

Local Open Scope Z_scope.
Local Open Scope kernel_scope.

Module Ida.
Import Idr IdrInv IdrTree IdrAlloc IdrGrow IdrGet IdrRemove.

Definition IDA_CHUNK_SIZE : Z := 128.
Definition IDA_BITMAP_LONGS : Z := IDA_CHUNK_SIZE / 4 - 1.
Definition IDA_BITMAP_BITS : Z := IDA_BITMAP_LONGS * 4 * 8.

(** The words of the bitmap as one number. *)
Record ida_bitmap := mk_bitmap { nr_busy : Z; bits : Z }.

(** The ida, with the memory its bitmaps live in. *)
Record ida := mk_ida { ida_idr : idr; free_bitmap : option addr; bitmaps : gmap addr ida_bitmap }.

Definition set_idr (d : ida) (i : idr) : ida := mk_ida i (free_bitmap d) (bitmaps d).
Definition put_bitmap (d : ida) (b : addr) (x : ida_bitmap) : ida := mk_ida (ida_idr d) (free_bitmap d) (<[b := x]> (bitmaps d)).

Definition find_next_zero_bit (b size n : Z) : Z := if size <=? n then size else next_bit (Z.to_nat (size - n)) (Z.lnot b) n.

Definition kfree (d : ida) (b : addr) : option ida :=
  _ ← bitmaps d !! b;
  Some (mk_ida (ida_idr d) (free_bitmap d) (delete b (bitmaps d))).

(** [free_bitmap]: the bitmap is kept if there is none, and freed otherwise. *)
Definition release_bitmap (d : ida) (b : addr) : option ida :=
  match free_bitmap d with
  | None => Some (mk_ida (ida_idr d) (Some b) (bitmaps d))
  | Some _ => kfree d b
  end.

(** [kmalloc] gives the address of a bitmap with anything in it, or NULL. *)
Definition ida_pre_get (d : ida) (zalloc : list addr) (kmalloc : option (addr * ida_bitmap)) : option (ida * Z) :=
  r ← idr_pre_get (ida_idr d) zalloc;
  match r with
  | (i, rv) =>
      let d := set_idr d i in
      if rv =? 0 then Some (d, 0)
      else
        match free_bitmap d with
        | Some _ => Some (d, 1)
        | None =>
            match kmalloc with
            | None => Some (d, 0)
            | Some (b, junk) => d ← release_bitmap (put_bitmap d b junk) b; Some (d, 1)
            end
        end
  end.

(** The bitmap in the slot of [idr_id] of the layer [p], put there if it is missing. *)
Definition slot_bitmap (d : ida) (p : addr) (idr_id : Z) : option (ida * option addr) :=
  x ← mem (ida_idr d) !! p;
  match ary x !! Z.land idr_id IDR_MASK with
  | Some b => Some (d, Some b)
  | None =>
      match free_bitmap d with
      | None => Some (d, None)
      | Some b =>
          let d := mk_ida (ida_idr d) None (bitmaps d) in
          _ ← bitmaps d !! b;
          let d := put_bitmap d b (mk_bitmap 0 0) in
          Some (set_idr d (put (ida_idr d) p (set_count (set_slot x (Z.land idr_id IDR_MASK) (Some b)) (count x + 1))), Some b)
      end
  end.

(** A free layer is given back after each id. *)
Definition give_back (d : ida) : option ida :=
  if negb (id_free_cnt (ida_idr d) =? 0) || bool_decide (is_Some (free_bitmap d)) then
    r ← get_from_free_list (ida_idr d);
    match r with
    | (i, Some p) => i ← kmem_cache_free i p; Some (set_idr d i)
    | (i, None) => Some (set_idr d i)
    end
  else Some d.

(** From [restart] on. *)
Fixpoint get_above (fuel : nat) (d : ida) (idr_id offset : Z) (pa : path) : option (ida * Z * option Z) :=
  match fuel with
  | O => None
  | S fuel =>
      r ← idr_get_empty_slot (ida_idr d) idr_id pa;
      match r with
      | (i, t, pa) =>
          let d := set_idr d i in
          if t <? 0 then Some (d, idr_rc_to_errno t, None)
          else if MAX_ID_BIT <=? u32 (t * IDA_BITMAP_BITS) then Some (d, - ENOSPC, None)
          else
            let offset := if t =? idr_id then offset else 0 in
            let idr_id := t in
            v ← pa !! 0;
            p ← v;
            r ← slot_bitmap d p idr_id;
            match r with
            | (d, None) => Some (d, - EAGAIN, None)
            | (d, Some b) =>
                bm ← bitmaps d !! b;
                let t := find_next_zero_bit (bits bm) IDA_BITMAP_BITS offset in
                if t =? IDA_BITMAP_BITS then get_above fuel d (idr_id + 1) 0 pa
                else
                  let id := s32 (idr_id * IDA_BITMAP_BITS + t) in
                  if MAX_ID_BIT <=? u32 id then Some (d, - ENOSPC, None)
                  else
                    let d := put_bitmap d b (mk_bitmap (nr_busy bm + 1) (Z.setbit (bits bm) t)) in
                    d ← (if nr_busy bm + 1 =? IDA_BITMAP_BITS then i ← idr_mark_full (ida_idr d) pa idr_id; Some (set_idr d i) else Some d);
                    d ← give_back d;
                    Some (d, 0, Some id)
            end
      end
  end.

Definition ida_get_new_above (d : ida) (starting_id : Z) : option (ida * Z * option Z) :=
  get_above 4 d (u32 starting_id / IDA_BITMAP_BITS) (u32 starting_id mod IDA_BITMAP_BITS) ∅.

Definition ida_get_new (d : ida) : option (ida * Z * option Z) := ida_get_new_above d 0.

(** The loop of [ida_remove] that clears bits on the way down. *)
Fixpoint clear_down (fuel : nat) (idp : idr) (p : option addr) (shift id : Z) : option (idr * option addr) :=
  match fuel with
  | O => None
  | S fuel =>
      match p with
      | Some p =>
          if 0 <? shift then
            let n := Z.land (Z.shiftr id shift) IDR_MASK in
            x ← mem idp !! p;
            clear_down fuel (put idp p (set_bitmap x (Z.clearbit (bitmap x) n))) (ary x !! n) (shift - IDR_BITS) id
          else Some (idp, Some p)
      | None => Some (idp, None)
      end
  end.

(** The flag says that the warning was printed. *)
Definition ida_remove (d : ida) (id : Z) : option (ida * bool) :=
  let shift := (layers (ida_idr d) - 1) * IDR_BITS in
  let idr_id := u32 id / IDA_BITMAP_BITS in
  let offset := u32 id mod IDA_BITMAP_BITS in
  r ← clear_down 8 (ida_idr d) (top (ida_idr d)) shift idr_id;
  match r with
  | (i, None) => Some (set_idr d i, true)
  | (i, Some p) =>
      let n := Z.land idr_id IDR_MASK in
      x ← mem i !! p;
      let i := put i p (set_bitmap x (Z.clearbit (bitmap x) n)) in
      b ← ary x !! n;
      bm ← bitmaps d !! b;
      if Z.testbit (bits bm) offset then
        let d := put_bitmap (set_idr d i) b (mk_bitmap (nr_busy bm - 1) (Z.clearbit (bits bm) offset)) in
        if nr_busy bm - 1 =? 0 then
          x ← mem i !! p;
          r ← idr_remove (put i p (set_bitmap x (Z.setbit (bitmap x) n))) idr_id;
          match r with (i, _) => d ← release_bitmap (set_idr d i) b; Some (d, false) end
        else Some (d, false)
      else Some (set_idr d i, true)
  end.

Definition ida_destroy (d : ida) : option ida :=
  i ← idr_destroy (ida_idr d);
  let d := set_idr d i in
  match free_bitmap d with None => Some d | Some b => kfree d b end.

Definition ida_init : ida := mk_ida (idr_init ∅) None ∅.

End Ida.

Module IdaInv.
Import Idr IdrInv IdrTree IdrAlloc IdrGrow IdrGet IdrRemove Ida.

(** ** Bitmaps *)

Lemma bits_is : IDA_BITMAP_BITS = 992.
Proof. reflexivity. Qed.

Definition offsets : list Z := seqZ 0 992.

Lemma elem_of_offsets t : t ∈ offsets <-> 0 <= t < 992.
Proof. unfold offsets. rewrite elem_of_seqZ. lia. Qed.

(** The ids of [ids] in chunk [c], as a bitmap has them. *)
Definition chunk_busy (ids : gset Z) (c : Z) : Z := cnt (fun t => bool_decide (992 * c + t ∈ ids)) offsets.

Definition chunk_ok (ids : gset Z) (c : Z) (bm : ida_bitmap) : Prop :=
  (forall t, 0 <= t < 992 -> Z.testbit (bits bm) t = true <-> 992 * c + t ∈ ids) /\ nr_busy bm = chunk_busy ids c.

Definition chunk_full (ids : gset Z) (c : Z) : Prop := forall t, 0 <= t < 992 -> 992 * c + t ∈ ids.

Lemma cnt_bound f ns : cnt f ns <= Z.of_nat (length ns) /\ (cnt f ns = Z.of_nat (length ns) -> forall n, n ∈ ns -> f n = true).
Proof.
  induction ns as [|m ns [IH1 IH2]]; simpl; [split; [lia|by intros _ n ?%not_elem_of_nil]|]. split; [destruct (f m); lia|].
  intros H n Hn. destruct (f m) eqn:Hm; [|lia]. apply elem_of_cons in Hn as [->|Hn]; [done|]. apply IH2; [lia|done].
Qed.

Lemma cnt_all f ns : (forall n, n ∈ ns -> f n = true) -> cnt f ns = Z.of_nat (length ns).
Proof.
  induction ns as [|m ns IH]; intros H; simpl; [done|]. rewrite (H m) by left. rewrite IH; [lia|]. intros n Hn. apply H. by right.
Qed.

Lemma busy_full ids c : chunk_busy ids c = 992 <-> chunk_full ids c.
Proof.
  assert (Z.of_nat (length offsets) = 992) as Hlen by (unfold offsets; rewrite length_seqZ; lia).
  unfold chunk_busy. split.
  - intros H t Ht. rewrite <- Hlen in H. pose proof (proj2 (cnt_bound _ _) H t (proj2 (elem_of_offsets t) Ht)) as Hb.
    by apply bool_decide_eq_true in Hb.
  - intros H. rewrite cnt_all; [done|]. intros t Ht%elem_of_offsets. by apply bool_decide_true, H.
Qed.

Lemma busy_ext ids ids' c : (forall t, 0 <= t < 992 -> 992 * c + t ∈ ids' <-> 992 * c + t ∈ ids) -> chunk_busy ids' c = chunk_busy ids c.
Proof. intros H. apply cnt_ext. intros t Ht%elem_of_offsets. by apply bool_decide_ext, H. Qed.

Lemma busy_more ids ids' c t : 0 <= t < 992 -> 992 * c + t ∉ ids -> 992 * c + t ∈ ids' ->
  (forall i, i <> 992 * c + t -> i ∈ ids' <-> i ∈ ids) -> chunk_busy ids' c = chunk_busy ids c + 1.
Proof.
  intros Ht H0 H1 H. apply (cnt_more _ _ _ t); [apply NoDup_seqZ|by apply elem_of_offsets|by apply bool_decide_false|by apply bool_decide_true|].
  intros n Hn%elem_of_offsets Hne. symmetry. apply bool_decide_ext, H. lia.
Qed.

Lemma busy_zero ids c : chunk_busy ids c = 0 <-> forall t, 0 <= t < 992 -> 992 * c + t ∉ ids.
Proof.
  split.
  - intros H t Ht. pose proof (cnt_zero _ _ H t (proj2 (elem_of_offsets t) Ht)) as Hb. by apply bool_decide_eq_false in Hb.
  - intros H. apply cnt_none. intros t Ht%elem_of_offsets. by apply bool_decide_false, H.
Qed.

Lemma zero_bit_spec ids c bm n : chunk_ok ids c bm -> 0 <= n < 992 -> let t := find_next_zero_bit (bits bm) 992 n in
  n <= t <= 992 /\ (forall j, n <= j < t -> 992 * c + j ∈ ids) /\ (t < 992 -> 992 * c + t ∉ ids).
Proof.
  intros [Hb _] Hn. unfold find_next_zero_bit. destruct (Z.leb_spec 992 n); [lia|]. cbv zeta.
  pose proof (next_bit_spec (Z.to_nat (992 - n)) (Z.lnot (bits bm)) n) as H1. cbv zeta in H1.
  set (t := next_bit _ _ _) in *. destruct H1 as (H1 & H2 & H3). split_and!; [lia|lia| |].
  - intros j Hj. apply Hb; [lia|]. specialize (H2 j Hj). rewrite Z.lnot_spec in H2 by lia. by destruct (Z.testbit (bits bm) j).
  - intros Ht Hin. specialize (H3 ltac:(lia)). rewrite Z.lnot_spec in H3 by lia. apply Hb in Hin; [|lia]. by rewrite Hin in H3.
Qed.

(** ** The invariant *)

(** [U] has the bitmaps in the slots, [F] the slots that are full, [ids] the ids taken. *)
Record chunks_ok (d : ida) (U : users) (F : gset Z) (ids : gset Z) : Prop := {
  o_slot : forall c v, U !! c = Some v -> exists b bm, v = Some b /\ bitmaps d !! b = Some bm /\ chunk_ok ids c bm;
  o_inj : forall c c' b, U !! c = Some (Some b) -> U !! c' = Some (Some b) -> c = c';
  o_full : forall c, c ∈ F <-> chunk_full ids c;
  o_ids : forall i, i ∈ ids -> 0 <= i < 2 ^ 31 /\ is_Some (U !! (i / 992));
  o_free : forall b, free_bitmap d = Some b -> is_Some (bitmaps d !! b) /\ forall c, U !! c <> Some (Some b)
}.

(** The set of ids an ida stands for. *)
Definition ida_ids (d : ida) (ids : gset Z) : Prop :=
  exists A U F Fr, inv (ida_idr d) A U F Fr /\ chunks_ok d U F ids.

Lemma chunk_of i : 992 * (i / 992) + i mod 992 = i /\ 0 <= i mod 992 < 992.
Proof. dlia. Qed.

Lemma not_in_chunk d U F ids c : chunks_ok d U F ids -> U !! c = None -> forall t, 0 <= t < 992 -> 992 * c + t ∉ ids.
Proof.
  intros O Hc t Ht Hin. apply (o_ids _ _ _ _ O) in Hin as [_ Hin]. replace ((992 * c + t) / 992) with c in Hin by dlia.
  rewrite Hc in Hin. by destruct Hin.
Qed.

Lemma chunks_idr d U F ids i : chunks_ok d U F ids -> chunks_ok (set_idr d i) U F ids.
Proof. intros [H1 H2 H3 H4 H5]. by constructor. Qed.

(** The bitmap of the slot that was found. *)
Lemma slot_bitmap_spec d A U F Fr ids c p :
  inv (ida_idr d) A U F Fr -> chunks_ok d U F ids -> A !! (0, anc 0 c) = Some p -> 0 <= c ->
  (free_bitmap d = None /\ slot_bitmap d p c = Some (d, None)) \/
  exists d' b U' bm, slot_bitmap d p c = Some (d', Some b) /\ inv (ida_idr d') A U' F Fr /\ chunks_ok d' U' F ids /\
    U' !! c = Some (Some b) /\ bitmaps d' !! b = Some bm /\ layers (ida_idr d') = layers (ida_idr d) /\
    (d' = d \/ forall t, 0 <= t < 992 -> 992 * c + t ∉ ids).
Proof.
  intros W O Hp Hc. destruct (slot_code W 0 c p Hp ltac:(lia)) as (x & Hx & _ & Hs & _).
  change (Z.shiftr c (IDR_BITS * 0)) with c in Hs. change (0 - 1) with (-1) in Hs. rewrite child_leaf, anc_m1 in Hs.
  unfold slot_bitmap. rewrite Hx. cbn [mbind option_bind]. rewrite Hs. destruct (U !! c) as [v|] eqn:Hv.
  { destruct (o_slot _ _ _ _ O c v Hv) as (b & bm & -> & Hb & _). right. exists d, b, U, bm. simpl. split_and!; try done. by left. }
  simpl. destruct (free_bitmap d) as [b|] eqn:Hf; [|by left]. right.
  destruct (o_free _ _ _ _ O b Hf) as [[bm0 Hb0] Hfree]. rewrite Hb0. cbn [mbind option_bind]. rewrite digit_leaf.
  eexists _, b, (<[c := Some b]> U), (mk_bitmap 0 0). split; [done|]. split_and!; simpl.
  - by apply install_spec.
  - constructor; simpl.
    + intros c' v. rewrite lookup_insert_Some. intros [[<- <-]|[Hne Hv']].
      * exists b, (mk_bitmap 0 0). rewrite lookup_insert_eq. split_and!; [done|done|]. split; simpl.
        -- intros t Ht. rewrite Z.bits_0. split; [done|]. intros Hin. by destruct (not_in_chunk _ _ _ _ _ O Hv t Ht).
        -- symmetry. apply busy_zero. by apply (not_in_chunk d U F).
      * destruct (o_slot _ _ _ _ O c' v Hv') as (b' & bm & -> & Hb & Hok). exists b', bm. rewrite lookup_insert_ne; [done|].
        intros <-. by apply (Hfree c').
    + intros c1 c2 b'. rewrite !lookup_insert_Some. intros [[<- [= <-]]|[H1 H2]] [[<- H3]|[H3 H4]]; [done| | |by apply (o_inj _ _ _ _ O _ _ b')].
      * by destruct (Hfree c2).
      * injection H3 as <-. by destruct (Hfree c1).
    + apply O.
    + intros i Hi. destruct (o_ids _ _ _ _ O i Hi) as [H1 H2]. split; [done|]. apply lookup_insert_is_Some'. by right.
    + done.
  - by rewrite lookup_insert_eq.
  - by rewrite lookup_insert_eq.
  - done.
  - right. by apply (not_in_chunk d U F).
Qed.

(** An id of a chunk is taken. *)
Lemma take_bit d U F ids c b bm t : chunks_ok d U F ids -> U !! c = Some (Some b) -> bitmaps d !! b = Some bm -> 0 <= t < 992 ->
  0 <= 992 * c + t < 2 ^ 31 -> 992 * c + t ∉ ids ->
  chunks_ok (put_bitmap d b (mk_bitmap (nr_busy bm + 1) (Z.setbit (bits bm) t))) U
    (if nr_busy bm + 1 =? 992 then {[c]} ∪ F else F) ({[992 * c + t]} ∪ ids).
Proof.
  intros O Hc Hb Ht Hr Hni. destruct (o_slot _ _ _ _ O c _ Hc) as (b' & bm' & [= <-] & Hb' & Hok). simplify_eq.
  assert (chunk_busy ({[992 * c + t]} ∪ ids) c = nr_busy bm + 1) as Hbusy.
  { destruct Hok as [_ ->]. apply (busy_more _ _ _ t); [done|done|set_solver|]. intros i Hi. set_solver. }
  assert (forall c', c' <> c -> forall t', 0 <= t' < 992 -> 992 * c' + t' ∈ ({[992 * c + t]} ∪ ids : gset Z) <-> 992 * c' + t' ∈ ids) as Hother.
  { intros c' Hc' t' Ht'. assert (992 * c' + t' <> 992 * c + t) by lia. set_solver. }
  constructor; simpl.
  - intros c' v Hv. destruct (o_slot _ _ _ _ O c' v Hv) as (b' & bm' & -> & Hb1 & Hok1). destruct (decide (c' = c)) as [->|Hne].
    + assert (b' = b) as -> by congruence. eexists b, _. rewrite lookup_insert_eq. split_and!; [done|done|]. split; simpl; [|by rewrite Hbusy].
      intros t' Ht'. destruct (decide (t' = t)) as [->|Hne].
      * rewrite Z.setbit_eq by lia. split; [set_solver|done].
      * rewrite Z.setbit_neq by lia. destruct Hok as [-> _]; [|done]. assert (992 * c + t' <> 992 * c + t) by lia. set_solver.
    + exists b', bm'. rewrite lookup_insert_ne. 2:{ intros <-. apply Hne. by apply (o_inj _ _ _ _ O _ _ b). }
      split_and!; [done|done|]. destruct Hok1 as [K1 K2]. split.
      * intros t' Ht'. rewrite K1 by done. symmetry. by apply Hother.
      * rewrite K2. symmetry. apply busy_ext. by apply Hother.
  - apply O.
  - intros c'. rewrite <- busy_full. destruct (decide (c' = c)) as [->|Hne].
    + rewrite Hbusy. destruct (Z.eqb_spec (nr_busy bm + 1) 992) as [->|]; [set_solver|]. split; [|done].
      intros Hin. apply (o_full _ _ _ _ O) in Hin. by destruct (Hni (Hin t Ht)).
    + rewrite (busy_ext ids) by (by apply Hother). rewrite busy_full, <- (o_full _ _ _ _ O). destruct (_ =? _); set_solver.
  - intros i [->%elem_of_singleton|Hi]%elem_of_union; [|by apply (o_ids _ _ _ _ O)]. split; [done|].
    replace ((992 * c + t) / 992) with c by dlia. by eexists.
  - intros b' Hb1. destruct (o_free _ _ _ _ O b' Hb1) as [K1 K2]. split; [|done]. apply lookup_insert_is_Some'. by right.
Qed.

(** ** Taking an id *)

Lemma give_back_spec d A U F Fr ids : inv (ida_idr d) A U F Fr -> chunks_ok d U F ids ->
  exists d', give_back d = Some d' /\ ida_ids d' ids.
Proof.
  intros W O. unfold give_back. destruct (_ || _); [|by exists d; split; [done|exists A, U, F, Fr]]. destruct Fr as [|p Fr].
  - rewrite (wf_take_none _ W). cbn [mbind option_bind]. eexists. split; [done|]. exists A, U, F, []. split; [done|by apply chunks_idr].
  - destruct (take_free _ _ _ _ _ _ W) as (i1 & i2 & -> & H2 & W2). cbn [mbind option_bind]. rewrite H2. cbn [mbind option_bind].
    eexists. split; [done|]. exists A, U, F, Fr. split; [done|by apply chunks_idr].
Qed.

Definition mark_opt (d : ida) (pa : path) (c : Z) (full : bool) : option ida :=
  if full then i ← idr_mark_full (ida_idr d) pa c; Some (set_idr d i) else Some d.

Lemma mark_opt_spec d A U F Fr ids pa c (full : bool) : inv (ida_idr d) A U F Fr ->
  chunks_ok d U (if full then {[c]} ∪ F else F) ids -> is_Some (U !! c) ->
  path_ok A (layers (ida_idr d)) pa 0 c -> 1 <= layers (ida_idr d) ->
  exists d' F', mark_opt d pa c full = Some d' /\ inv (ida_idr d') A U F' Fr /\ chunks_ok d' U F' ids.
Proof.
  intros W O Hc Hpath HL. destruct full; [|by exists d, F]. simpl.
  destruct (idr_mark_full_spec c F ({[c]} ∪ F) ltac:(intros k Hk; set_solver) ltac:(set_solver) _ _ A U Fr pa W eq_refl) as (i & -> & W' & _).
  - pose proof (w_F W 0 : F ⊆ dom U). apply elem_of_dom in Hc. set_solver.
  - done.
  - done.
  - cbn [mbind option_bind]. eexists _, ({[c]} ∪ F). split; [done|]. split; [done|by apply chunks_idr].
Qed.

(** The ids skipped by the search for a chunk and in it are taken. *)
Lemma skipped d U F ids c0 o c n i : chunks_ok d U F ids -> least_free F c0 c -> 0 <= o < 992 -> 0 <= n <= 992 ->
  (forall j, (if c =? c0 then o else 0) <= j < n -> 992 * c + j ∈ ids) -> 992 * c0 + o <= i < 992 * c + n -> i ∈ ids.
Proof.
  intros O (H1 & _ & H2) Ho Hn Hj Hi. destruct (chunk_of i) as [He Hm]. destruct (decide (i / 992 = c)) as [Hc|Hc].
  - rewrite <- He, Hc. apply Hj. destruct (Z.eqb_spec c c0); dlia.
  - assert (i / 992 ∈ F) as HF by (apply H2; dlia). apply (o_full _ _ _ _ O) in HF. rewrite <- He. by apply HF.
Qed.

Definition taken (d : ida) (ids : gset Z) (s : Z) (r : ida * Z * option Z) : Prop :=
  (exists d' i, r = (d', 0, Some i) /\ least_free ids s i /\ ida_ids d' ({[i]} ∪ ids)) \/
  (exists d', r = (d', - EAGAIN, None) /\ ida_ids d' ids /\ (id_free_cnt (ida_idr d) < 11 \/ free_bitmap d = None)).

(** One round from [restart] on. *)
Lemma get_above_round fuel d A U F Fr ids c0 o pa :
  inv (ida_idr d) A U F Fr -> chunks_ok d U F ids -> 0 <= c0 -> 0 <= o < 992 -> good_start (ida_idr d) F c0 ->
  (exists i, 992 * c0 + o <= i < 2 ^ 31 /\ i ∉ ids) ->
  (exists r, get_above (S fuel) d c0 o pa = Some r /\ taken d ids (992 * c0 + o) r) \/
  (992 * c0 + o ∈ ids /\ 0 < o /\ (forall i, 992 * c0 + o <= i < 992 * (c0 + 1) -> i ∈ ids) /\
   exists d' A' Fr' pa', get_above (S fuel) d c0 o pa = get_above fuel d' (c0 + 1) 0 pa' /\
     inv (ida_idr d') A' U F Fr' /\ chunks_ok d' U F ids).
Proof.
  intros W O Hc0 Ho Hg (i & Hi & Hni). cbn [get_above].
  assert (i / 992 ∉ F) as HiF. { intros Hin. apply (o_full _ _ _ _ O) in Hin. destruct (chunk_of i) as [He Hm]. apply Hni. rewrite <- He. by apply Hin. }
  destruct (get_empty_slot_spec (ida_idr d) A U F Fr c0 pa W ltac:(dlia) ltac:(exists (i / 992); split; [dlia|done]) Hg) as ([[i1 c] pa1] & -> & A' & Fr' & W' & Hcase).
  cbn [mbind option_bind]. set (d1 := set_idr d i1). assert (chunks_ok d1 U F ids) as O1 by (by apply chunks_idr).
  destruct Hcase as [[-> Hlen]|(Hleast & Hw & HL & Hpath)].
  { left. simpl. eexists. split; [done|]. right. eexists. split; [done|]. split; [by exists A', U, F, Fr'|]. left. rewrite (w_cnt W). lia. }
  pose proof Hleast as (Hc1 & HcF & HcF').
  assert (c <= i / 992) as Hci. { destruct (decide (c <= i / 992)); [done|]. destruct HiF. apply HcF'. dlia. }
  rewrite bits_is. rewrite (proj2 (Z.ltb_ge c 0)) by lia. rewrite u32_small by (unfold two32; dlia).
  change MAX_ID_BIT with (2 ^ 31). rewrite (proj2 (Z.leb_gt (2 ^ 31) (c * 992))) by dlia.
  destruct (proj2 Hpath 0 ltac:(lia)) as (p & -> & Hp). cbn [mbind option_bind]. set (o1 := if c =? c0 then o else 0).
  assert (0 <= o1 < 992) as Ho1 by (unfold o1; destruct (c =? c0); lia).
  destruct (slot_bitmap_spec d1 A' U F Fr' ids c p W' O1 Hp ltac:(lia)) as [[Hf ->]|(d2 & b & U2 & bm & -> & W2 & O2 & Hb & Hbm & HL2 & Hnew)].
  { left. cbn [mbind option_bind]. eexists. split; [done|]. right. eexists. split; [done|]. split; [by exists A', U, F, Fr'|]. by right. }
  cbn [mbind option_bind]. rewrite Hbm. cbn [mbind option_bind].
  destruct (o_slot _ _ _ _ O2 c _ Hb) as (b' & bm' & [= <-] & Hbm' & Hok). assert (bm' = bm) as -> by congruence.
  destruct (zero_bit_spec ids c bm o1 Hok Ho1) as (Ht1 & Ht2 & Ht3). set (t := find_next_zero_bit (bits bm) 992 o1) in *.
  destruct (Z.eqb_spec t 992) as [Ht|Ht].
  - (* no id is left in the chunk *)
    right. assert (0 < o1) as Hpos.
    { destruct (decide (0 < o1)); [done|]. destruct HcF. apply (o_full _ _ _ _ O). intros j Hj. apply Ht2. lia. }
    assert (c = c0 /\ o1 = o) as [-> Ho2] by (unfold o1 in *; destruct (Z.eqb_spec c c0); lia).
    assert (forall j, 992 * c0 + o <= j < 992 * (c0 + 1) -> j ∈ ids) as Hall.
    { intros j Hj. replace j with (992 * c0 + (j - 992 * c0)) by lia. apply Ht2. lia. }
    split_and!; [apply Hall; lia|lia|done|]. destruct Hnew as [->|Hnone]; [|by destruct (Hnone o Ho (Hall (992 * c0 + o) ltac:(lia)))].
    exists d1, A', Fr', pa1. done.
  - left. assert (992 * c + t <= i) as Hti.
    { destruct (decide (992 * c + t <= i)); [done|]. destruct Hni. apply (skipped d U F ids c0 o c t i O Hleast Ho); [lia|done|lia]. }
    rewrite (Z.mul_comm c 992). rewrite s32_small by (unfold two31; lia). rewrite u32_small by (unfold two32; lia).
    rewrite (proj2 (Z.leb_gt (2 ^ 31) (992 * c + t))) by lia.
    pose proof (take_bit d2 U2 F ids c b bm t O2 Hb Hbm ltac:(lia) ltac:(lia) ltac:(apply Ht3; lia)) as O3.
    set (d3 := put_bitmap d2 b _) in *. destruct (mark_opt_spec d3 A' U2 F Fr' _ pa1 c (nr_busy bm + 1 =? 992) W2 O3 ltac:(by eexists)) as (d4 & F4 & H4 & W4 & O4).
    { simpl. by rewrite HL2. }
    { simpl. by rewrite HL2. }
    unfold mark_opt in H4. rewrite H4. cbn [mbind option_bind].
    destruct (give_back_spec d4 A' U2 F4 Fr' _ W4 O4) as (d5 & -> & H5). cbn [mbind option_bind].
    eexists. split; [done|]. left. exists d5, (992 * c + t). split_and!; [done| |done].
    split_and!; [|apply Ht3; lia|].
    + unfold o1 in *. destruct (Z.eqb_spec c c0); lia.
    + intros j Hj. apply (skipped d U F ids c0 o c t j O Hleast Ho); [lia|done|lia].
Qed.

(** The starting ids: as for the idr, with chunks for ids. *)
Definition fair_start (ids : gset Z) (s : Z) : Prop :=
  s = 0 \/ s ∉ ids \/ exists i j, s <= i /\ i / 992 < j / 992 /\ i ∉ ids /\ j ∈ ids.

Lemma chunk_start d A U F Fr ids c s : inv (ida_idr d) A U F Fr -> chunks_ok d U F ids -> 0 <= c ->
  c = 0 \/ (c = s / 992 /\ s ∉ ids) \/ (exists i j, c <= i / 992 /\ i / 992 < j / 992 /\ i ∉ ids /\ j ∈ ids) -> good_start (ida_idr d) F c.
Proof.
  intros W O Hc Hf. assert (forall i, i ∉ ids -> i / 992 ∉ F) as HF.
  { intros i Hi Hin. apply (o_full _ _ _ _ O) in Hin. destruct (chunk_of i) as [He Hm]. apply Hi. rewrite <- He. by apply Hin. }
  apply (start_good _ _ _ _ _ _ W Hc). destruct Hf as [?|[[-> Hs]|(i & j & H1 & H2 & H3 & H4)]].
  - by left.
  - right. left. by apply HF.
  - right. right. exists (i / 992), (j / 992). split_and!; [done|done|by apply HF|]. by apply (o_ids _ _ _ _ O).
Qed.

Definition ida_room (ids : gset Z) (s : Z) : Prop := exists i, s <= i < 2 ^ 31 /\ i ∉ ids.

Lemma ida_get_new_above_ok d ids s : ida_ids d ids -> 0 <= s -> ida_room ids s -> fair_start ids s ->
  exists d', (exists i, ida_get_new_above d s = Some (d', 0, Some i) /\ least_free ids s i /\ ida_ids d' ({[i]} ∪ ids)) \/
    (ida_get_new_above d s = Some (d', - EAGAIN, None) /\ ida_ids d' ids /\
     (s = 0 \/ s ∉ ids -> id_free_cnt (ida_idr d) < 11 \/ free_bitmap d = None)).
Proof.
  intros (A & U & F & Fr & W & O) Hs (i & Hi & Hni) Hf. unfold ida_get_new_above. rewrite bits_is, u32_small by (unfold two32; lia).
  destruct (chunk_of s) as [He Hm]. set (c := s / 992) in *. set (o := s mod 992) in *. assert (0 <= c) as Hc by (unfold c; dlia).
  destruct (get_above_round 3 d A U F Fr ids c o ∅ W O Hc Hm) as [(r & -> & [(d' & v & -> & Hv & Hd)|(d' & -> & Hd & Hwhy)])|(Hin & Hpos & Hall & d1 & A1 & Fr1 & pa1 & -> & W1 & O1)].
  - apply (chunk_start d A U F Fr ids c s W O Hc). destruct Hf as [->|[?|(i' & j & H1 & H2 & H3 & H4)]]; [left; reflexivity|right; left; done|].
    right. right. exists i', j. split_and!; [unfold c; dlia|done..].
  - exists i. split; [lia|done].
  - exists d'. left. exists v. rewrite He in Hv. done.
  - exists d'. right. split_and!; [done|done|]. by intros _.
  - rewrite He in Hin, Hall. assert (992 * (c + 1) <= i) as Hge. { destruct (decide (992 * (c + 1) <= i)); [done|]. destruct Hni. apply Hall. lia. }
    destruct Hf as [->|[?|(i' & j & H1 & H2 & H3 & H4)]]; [unfold o in Hpos; simpl in Hpos; lia|done|].
    assert (992 * (c + 1) <= i') as Hge'. { destruct (decide (992 * (c + 1) <= i')); [done|]. destruct H3. apply Hall. lia. }
    destruct (get_above_round 2 d1 A1 U F Fr1 ids (c + 1) 0 pa1 W1 O1) as [(r & -> & [(d' & v & -> & Hv & Hd)|(d' & -> & Hd & _)])|(_ & ? & _)]; [lia|lia| | | | |lia].
    + apply (chunk_start d1 A1 U F Fr1 ids (c + 1) s W1 O1); [lia|]. right. right. exists i', j. split_and!; [dlia|done..].
    + exists i. split; [lia|done].
    + exists d'. left. exists v. split_and!; [done| |done]. destruct Hv as (K1 & K2 & K3). split_and!; [lia|done|].
      intros k Hk. destruct (decide (k < 992 * (c + 1))); [apply Hall|apply K3]; lia.
    + exists d'. right. split_and!; [done|done|]. intros [->|?]; [unfold o in Hpos; simpl in Hpos; lia|done].
Qed.

(** ** Reserving memory *)

Lemma ida_pre_get_ok d ids zalloc kmalloc : ida_ids d ids -> NoDup zalloc -> (forall a, a ∈ zalloc -> mem (ida_idr d) !! a = None) ->
  (forall b junk, kmalloc = Some (b, junk) -> bitmaps d !! b = None) ->
  exists d' rv, ida_pre_get d zalloc kmalloc = Some (d', rv) /\ ida_ids d' ids /\
    (rv = 1 /\ 14 <= id_free_cnt (ida_idr d') /\ is_Some (free_bitmap d') \/ rv = 0).
Proof.
  intros (A & U & F & Fr & W & O) Hd Hz Hk. unfold ida_pre_get.
  destruct (idr_pre_get_inv zalloc (ida_idr d) A U F Fr W Hd Hz) as (i & rv & Fr' & -> & W' & _ & _ & Hrv). cbn [mbind option_bind].
  assert (chunks_ok (set_idr d i) U F ids) as O' by (by apply chunks_idr).
  destruct Hrv as [[-> Hlen]|[-> _]]; simpl.
  2:{ eexists _, 0. split; [done|]. split; [by exists A, U, F, Fr'|by right]. }
  assert (14 <= id_free_cnt i) as Hcnt by (rewrite (w_cnt W'); lia).
  destruct (free_bitmap d) as [b|] eqn:Hf.
  { eexists _, 1. split; [done|]. split; [by exists A, U, F, Fr'|]. left. split_and!; [done|done|]. simpl. rewrite Hf. by eexists. }
  destruct kmalloc as [[b junk]|]; [|eexists _, 0; split; [done|]; split; [by exists A, U, F, Fr'|by right]].
  unfold release_bitmap. simpl. rewrite Hf. simpl. eexists _, 1. split; [done|]. split; [|left; split_and!; [done|done|by eexists]].
  exists A, U, F, Fr'. split; [done|]. specialize (Hk b junk eq_refl).
  assert (forall c, U !! c <> Some (Some b)) as Hfresh.
  { intros c Hc. destruct (o_slot _ _ _ _ O c _ Hc) as (b' & bm & [= <-] & Hb & _). congruence. }
  constructor; simpl; try apply O.
  - intros c v Hv. destruct (o_slot _ _ _ _ O c v Hv) as (b' & bm & -> & Hb & Hok). exists b', bm. rewrite lookup_insert_ne; [done|].
    intros <-. congruence.
  - intros b' [= <-]. split; [rewrite lookup_insert_eq; by eexists|done].
Qed.

(** ** Removing an id *)

Lemma clear_down_sim fuel idp p shift i paa idp' p' paa' :
  remove_down fuel idp p shift i paa = Some (idp', p', paa') -> clear_down fuel idp p shift i = Some (idp', p').
Proof.
  revert idp p shift paa. induction fuel as [|fuel IH]; intros idp p shift paa H; [done|]. cbn [remove_down clear_down] in *.
  destruct p as [p|]; [|congruence]. destruct (0 <? shift); [|congruence]. destruct (mem idp !! p) as [x|]; [|done].
  cbn [mbind option_bind] in *. case_bool_decide; [|done]. by apply IH in H.
Qed.

(** The bits above the chunk [c] are cleared. *)
Lemma ida_clear_path idp A U F Fr c : inv idp A U F Fr -> is_Some (U !! c) ->
  exists idp1 p x, clear_down 8 idp (top idp) ((layers idp - 1) * IDR_BITS) c = Some (idp1, Some p) /\ A !! (0, anc 0 c) = Some p /\
    mem idp1 !! p = Some x /\ inv (put idp1 p (set_bitmap x (Z.clearbit (bitmap x) (digit 0 c)))) A U (F ∖ {[c]}) Fr /\ layers idp1 = layers idp /\
    ary x !! digit 0 c = mjoin (U !! c).
Proof.
  intros W Hc. pose proof (w_F W 0 : F ⊆ dom U) as HU. pose proof (w_L W) as HL6.
  assert (0 < layers idp) as HL by apply (present_level W (-1) c ltac:(lia) Hc). pose proof (user_range W c Hc) as Hr.
  assert (wf (top idp) (layers idp) idp A U (upto (layers idp) F (F ∖ {[c]})) exact Fr None) as W0.
  { apply (wf_refull _ _ _ _ _ _ _ _ _ _ W); [apply upto_dom; set_solver|]. intros l q a n _ Hl _. by rewrite upto_lt by lia. }
  destruct (remove_down_spec c F (F ∖ {[c]}) eq_refl (Z.to_nat (layers idp - 1)) (layers idp) 8 _ _ _ _ _ _ _ _ (layers idp - 1) [TopSlot] W0 ltac:(lia) HU)
    as (idp1 & paa & Hd & Ht1 & HL1 & Hcase); [lia|simpl; split; [by left|lia]|lia|lia|].
  rewrite (proj1 (top_prefix (layers idp) c ltac:(lia)) Hr) in Hd. rewrite <- (w_top W0), Z.mul_comm in Hd. apply clear_down_sim in Hd.
  destruct (user_path W c 0 Hc ltac:(lia)) as [p Hp]. rewrite Hp in *. destruct Hcase as [W1 _]. destruct (w_nodes W1 _ _ _ Hp) as (x & Hx & Hok).
  exists idp1, p, x. split_and!; try done.
  - pose proof (clear_step c F (F ∖ {[c]}) eq_refl 1 _ _ _ _ _ _ _ _ 0 p x W1 ltac:(lia) HU Hp Hx ltac:(lia)) as W2.
    unfold inv. simpl. rewrite Ht1, HL1. apply (wf_refull _ _ _ _ _ _ _ _ _ _ W2).
    + intros l. unfold level. set_solver.
    + intros l q a n _ Hl _. by rewrite upto_ge by lia.
  - rewrite (n_ary _ _ _ _ _ _ _ Hok) by apply digit_range. by rewrite digit_spec by lia.
Qed.

(** The bit of the chunk is set for [idr_remove], which takes the chunk out. *)
Lemma ida_drop_chunk idp A U F Fr c p x : inv idp A U F Fr -> is_Some (U !! c) -> c ∉ F -> A !! (0, anc 0 c) = Some p -> mem idp !! p = Some x ->
  exists idp' A' Fr', idr_remove (put idp p (set_bitmap x (Z.setbit (bitmap x) (digit 0 c)))) c = Some (idp', false) /\ inv idp' A' (delete c U) F Fr'.
Proof.
  intros W Hc HcF Hp Hx. pose proof (w_F W 0 : F ⊆ dom U) as HU. pose proof (user_range W c Hc) as Hr.
  assert (0 < layers idp) as HL by apply (present_level W (-1) c ltac:(lia) Hc).
  assert ({[c]} ∪ F ⊆ dom U) as HU2 by (apply elem_of_dom in Hc; set_solver). assert (({[c]} ∪ F) ∖ {[c]} = F) as HF by set_solver.
  destruct (w_nodes W _ _ _ Hp) as (x0 & Hx0 & Hok). simplify_eq. destruct (n_bits _ _ _ _ _ _ _ Hok) as [Hb _]. pose proof (digit_range 0 c).
  assert (wf (top idp) (layers idp) (put idp p (set_bitmap x (Z.setbit (bitmap x) (digit 0 c)))) A U (upto 1 ({[c]} ∪ F) F) exact Fr None) as W1.
  { apply (wf_bit c _ _ _ _ _ (upto 0 ({[c]} ∪ F) F) _ _ _ _ 0 p x); try done; try lia.
    - apply (wf_refull _ _ _ _ _ _ _ _ _ _ W); [by apply upto_dom|]. intros l q a n _ Hl _. by rewrite upto_ge by lia.
    - intros j Hj. destruct (decide (j < 0)); [by rewrite !upto_lt by lia|by rewrite !upto_ge by lia].
    - intros k Hk. rewrite upto_lt, upto_ge by lia. set_solver.
    - by apply upto_dom.
    - by apply setbit_range.
    - intros n Hn Hne. by rewrite Z.setbit_neq by lia.
    - rewrite Z.setbit_eq by lia. split; [intros _|done]. rewrite upto_lt by lia. change (0 - 1) with (-1). apply full_leaf. rewrite anc_m1. set_solver. }
  rewrite <- HF in W1 at 2. destruct (idr_remove_gen 1 (put idp p (set_bitmap x (Z.setbit (bitmap x) (digit 0 c)))) A U ({[c]} ∪ F) Fr c W1 ltac:(simpl; lia) HU2 Hr) as (idp' & A' & Fr' & Hrem & W' & _).
  rewrite bool_decide_true in Hrem by set_solver. rewrite decide_True, HF in W' by set_solver. by exists idp', A', Fr'.
Qed.

(** An id of a chunk is given back. *)
Lemma drop_bit d U F ids c b bm t : chunks_ok d U F ids -> U !! c = Some (Some b) -> bitmaps d !! b = Some bm -> 0 <= t < 992 ->
  992 * c + t ∈ ids ->
  chunks_ok (put_bitmap d b (mk_bitmap (nr_busy bm - 1) (Z.clearbit (bits bm) t))) U (F ∖ {[c]}) (ids ∖ {[992 * c + t]}) /\
  nr_busy bm - 1 = chunk_busy (ids ∖ {[992 * c + t]}) c.
Proof.
  intros O Hc Hb Ht Hin. destruct (o_slot _ _ _ _ O c _ Hc) as (b' & bm' & [= <-] & Hb' & Hok). simplify_eq.
  assert (nr_busy bm = chunk_busy (ids ∖ {[992 * c + t]}) c + 1) as Hbusy.
  { destruct Hok as [_ ->]. apply (busy_more _ _ _ t); [done|set_solver|done|]. intros i Hi. set_solver. }
  assert (forall c', c' <> c -> forall t', 0 <= t' < 992 -> 992 * c' + t' ∈ (ids ∖ {[992 * c + t]} : gset Z) <-> 992 * c' + t' ∈ ids) as Hother.
  { intros c' Hc' t' Ht'. assert (992 * c' + t' <> 992 * c + t) by lia. set_solver. }
  split; [|lia]. constructor; simpl.
  - intros c' v Hv. destruct (o_slot _ _ _ _ O c' v Hv) as (b' & bm' & -> & Hb1 & Hok1). destruct (decide (c' = c)) as [->|Hne].
    + assert (b' = b) as -> by congruence. eexists b, _. rewrite lookup_insert_eq. split_and!; [done|done|]. split; simpl; [|lia].
      intros t' Ht'. destruct (decide (t' = t)) as [->|Hne].
      * rewrite Z.clearbit_eq. split; [done|set_solver].
      * rewrite Z.clearbit_neq by lia. destruct Hok as [-> _]; [|done]. assert (992 * c + t' <> 992 * c + t) by lia. set_solver.
    + exists b', bm'. rewrite lookup_insert_ne. 2:{ intros <-. apply Hne. by apply (o_inj _ _ _ _ O _ _ b). }
      split_and!; [done|done|]. destruct Hok1 as [K1 K2]. split.
      * intros t' Ht'. rewrite K1 by done. symmetry. by apply Hother.
      * rewrite K2. symmetry. apply busy_ext. by apply Hother.
  - apply O.
  - intros c'. destruct (decide (c' = c)) as [->|Hne].
    + split; [set_solver|]. intros Hf. specialize (Hf t Ht). set_solver.
    + rewrite <- busy_full, (busy_ext ids), busy_full, <- (o_full _ _ _ _ O) by (by apply Hother). set_solver.
  - intros i Hi. apply (o_ids _ _ _ _ O). set_solver.
  - intros b' Hb1. destruct (o_free _ _ _ _ O b' Hb1) as [K1 K2]. split; [|done]. apply lookup_insert_is_Some'. by right.
Qed.

(** The bitmap of an empty chunk goes. *)
Lemma release_spec d U F ids c b : chunks_ok d U F ids -> U !! c = Some (Some b) -> chunk_busy ids c = 0 ->
  exists d', release_bitmap d b = Some d' /\ chunks_ok d' (delete c U) F ids /\ ida_idr d' = ida_idr d.
Proof.
  intros O Hc Hz. destruct (o_slot _ _ _ _ O c _ Hc) as (b' & bm & [= <-] & Hb & _).
  assert (forall c', delete c U !! c' <> Some (Some b)) as Hgone.
  { intros c' [Hne Hc']%lookup_delete_Some. apply Hne. by apply (o_inj _ _ _ _ O _ _ b). }
  assert (forall i, i ∈ ids -> 0 <= i < 2 ^ 31 /\ is_Some (delete c U !! (i / 992))) as Hids.
  { intros i Hi. destruct (o_ids _ _ _ _ O i Hi) as [H1 H2]. split; [done|]. rewrite lookup_delete_ne; [done|]. intros ->.
    destruct (chunk_of i) as [He Hm]. apply (proj1 (busy_zero ids (i / 992)) Hz (i mod 992) Hm). by rewrite He. }
  unfold release_bitmap. destruct (free_bitmap d) as [f|] eqn:Hf.
  - unfold kfree. rewrite Hb. cbn [mbind option_bind]. eexists. split; [done|]. split; [|done].
    destruct (o_free _ _ _ _ O f Hf) as [K1 K2]. constructor; simpl; [| |apply O|done|].
    + intros c' v [Hne Hv]%lookup_delete_Some. destruct (o_slot _ _ _ _ O c' v Hv) as (b' & bm' & -> & Hb1 & Hok1). exists b', bm'.
      rewrite lookup_delete_ne; [done|]. intros <-. apply Hne. by apply (o_inj _ _ _ _ O _ _ b).
    + intros c1 c2 b' [_ H1]%lookup_delete_Some [_ H2]%lookup_delete_Some. by apply (o_inj _ _ _ _ O _ _ b').
    + rewrite Hf. intros b' [= <-]. split.
      * rewrite lookup_delete_ne; [done|]. intros <-. by apply (K2 c).
      * intros c' [_ Hc']%lookup_delete_Some. by apply (K2 c').
  - eexists. split; [done|]. split; [|done]. constructor; simpl; [| |apply O|done|].
    + intros c' v [_ Hv]%lookup_delete_Some. by apply (o_slot _ _ _ _ O).
    + intros c1 c2 b' [_ H1]%lookup_delete_Some [_ H2]%lookup_delete_Some. by apply (o_inj _ _ _ _ O _ _ b').
    + intros b' [= <-]. split; [by eexists|done].
Qed.

Lemma ida_remove_ok d ids i : ida_ids d ids -> i ∈ ids -> exists d', ida_remove d i = Some (d', false) /\ ida_ids d' (ids ∖ {[i]}).
Proof.
  intros (A & U & F & Fr & W & O) Hi. destruct (o_ids _ _ _ _ O i Hi) as [Hr [v Hv]]. destruct (chunk_of i) as [He Hm].
  destruct (o_slot _ _ _ _ O _ v Hv) as (b & bm & -> & Hb & Hok). unfold ida_remove. rewrite bits_is, u32_small by (unfold two32; lia).
  set (c := i / 992) in *. set (t := i mod 992) in *.
  destruct (ida_clear_path _ _ _ _ _ c W ltac:(by eexists)) as (i1 & p & x & -> & Hp & Hx & W1 & HL1 & Hary). cbn [mbind option_bind].
  rewrite Hx. cbn [mbind option_bind]. rewrite digit_leaf, Hary, Hv. cbn [mjoin option_join mbind option_bind]. rewrite Hb. cbn [mbind option_bind].
  rewrite (proj2 (proj1 Hok t Hm)) by (by rewrite He).
  destruct (drop_bit d U F ids c b bm t O Hv Hb Hm ltac:(by rewrite He)) as [O2 Hbusy]. rewrite He in O2, Hbusy.
  set (i2 := put i1 p _) in *. set (d2 := put_bitmap (set_idr d i2) b _).
  assert (chunks_ok d2 U (F ∖ {[c]}) (ids ∖ {[i]})) as O3 by (apply (chunks_idr _ _ _ _ i2) in O2; exact O2).
  destruct (Z.eqb_spec (nr_busy bm - 1) 0) as [Hz|Hz]; [|exists d2; split; [done|by exists A, U, (F ∖ {[c]}), Fr]].
  assert (exists x2, mem i2 !! p = Some x2) as [x2 Hx2]. { unfold i2. simpl. rewrite lookup_insert_eq. by eexists. }
  rewrite Hx2. cbn [mbind option_bind].
  destruct (ida_drop_chunk i2 A U (F ∖ {[c]}) Fr c p x2 W1 ltac:(by eexists) ltac:(set_solver) Hp Hx2) as (i3 & A3 & Fr3 & -> & W3). cbn [mbind option_bind].
  destruct (release_spec (set_idr d2 i3) U (F ∖ {[c]}) (ids ∖ {[i]}) c b (chunks_idr _ _ _ _ i3 O3) Hv ltac:(lia)) as (d4 & -> & O4 & Hd4).
  cbn [mbind option_bind]. exists d4. split; [done|]. exists A3, (delete c U), (F ∖ {[c]}), Fr3. split; [|done]. by rewrite Hd4.
Qed.

End IdaInv.

Module IdaSpec.
Import Idr IdrInv IdrTree IdrAlloc IdrGrow IdrGet IdrRemove Ida IdaInv.

Inductive op :=
  | PreGet (zalloc : list addr) (kmalloc : option (addr * ida_bitmap))
  | GetNew
  | GetNewAbove (s : Z)
  | Remove (i : Z).

Inductive res := RInt (rv : Z) | RId (i : Z) | RVoid.

Definition id_res (r : option (ida * Z * option Z)) : option (ida * res) :=
  r ← r;
  match r with
  | (d, rv, None) => Some (d, RInt rv)
  | (d, _, Some i) => Some (d, RId i)
  end.

Definition run (d : ida) (o : op) : option (ida * res) :=
  match o with
  | PreGet zalloc kmalloc => r ← ida_pre_get d zalloc kmalloc; Some (r.1, RInt r.2)
  | GetNew => id_res (ida_get_new d)
  | GetNewAbove s => id_res (ida_get_new_above d s)
  | Remove i => r ← ida_remove d i; Some (r.1, RVoid)
  end.

(** What the caller sees: a set. *)
Inductive spec (ids : gset Z) : op -> gset Z -> res -> Prop :=
  | S_PreGet zalloc kmalloc rv : rv = 0 \/ rv = 1 -> spec ids (PreGet zalloc kmalloc) ids (RInt rv)
  | S_GetNew i : least_free ids 0 i -> spec ids GetNew ({[i]} ∪ ids) (RId i)
  | S_GetNew_again : spec ids GetNew ids (RInt (- EAGAIN))
  | S_GetNewAbove s i : least_free ids s i -> spec ids (GetNewAbove s) ({[i]} ∪ ids) (RId i)
  | S_GetNewAbove_again s : spec ids (GetNewAbove s) ids (RInt (- EAGAIN))
  | S_Remove i : spec ids (Remove i) (ids ∖ {[i]}) RVoid.

Definition legal (d : ida) (ids : gset Z) (o : op) : Prop :=
  match o with
  | PreGet zalloc kmalloc => NoDup zalloc /\ (forall a, a ∈ zalloc -> mem (ida_idr d) !! a = None) /\
      forall b junk, kmalloc = Some (b, junk) -> bitmaps d !! b = None
  | GetNew => ida_room ids 0
  | GetNewAbove s => 0 <= s /\ ida_room ids s /\ fair_start ids s
  | Remove i => i ∈ ids
  end.

Lemma ida_init_ids : ida_ids ida_init ∅.
Proof.
  exists ∅, ∅, ∅, []. split.
  - unfold inv. simpl. constructor; simpl; try done; try lia.
    + intros l c Hl1 Hl2 [z Hz]. unfold child in Hz. by case_decide.
    + apply NoDup_nil_2.
    + intros a Ha. rewrite lookup_empty in Ha. by destruct Ha.
  - constructor; simpl; try done. intros c. split; [done|]. intros Hf. specialize (Hf 0 ltac:(lia)). done.
Qed.

Lemma ida_run_ok d ids o : ida_ids d ids -> legal d ids o -> exists d' ids' r, run d o = Some (d', r) /\ spec ids o ids' r /\ ida_ids d' ids'.
Proof.
  intros Hd Hl. destruct o as [zalloc kmalloc| |s|i]; simpl in *.
  - destruct Hl as (H1 & H2 & H3). destruct (ida_pre_get_ok d ids zalloc kmalloc Hd H1 H2 H3) as (d' & rv & -> & Hd' & Hrv).
    eexists d', ids, _. split; [done|]. split; [|done]. apply S_PreGet. simpl. naive_solver.
  - unfold ida_get_new. destruct (ida_get_new_above_ok d ids 0 Hd ltac:(lia) Hl ltac:(by left)) as (d' & [(i & -> & Hi & Hd')|(-> & Hd' & _)]).
    + eexists d', _, _. split; [done|]. split; [by apply S_GetNew|done].
    + eexists d', _, _. split; [done|]. split; [by apply S_GetNew_again|done].
  - destruct Hl as (H1 & H2 & H3). destruct (ida_get_new_above_ok d ids s Hd H1 H2 H3) as (d' & [(i & -> & Hi & Hd')|(-> & Hd' & _)]).
    + eexists d', _, _. split; [done|]. split; [by apply S_GetNewAbove|done].
    + eexists d', _, _. split; [done|]. split; [by apply S_GetNewAbove_again|done].
  - destruct (ida_remove_ok d ids i Hd Hl) as (d' & -> & Hd'). eexists d', _, _. split; [done|]. split; [by apply S_Remove|done].
Qed.

(** After [ida_pre_get] returned 1, [ida_get_new] finds the least free id. *)
Lemma ida_get_new_least d ids zalloc kmalloc d1 : ida_ids d ids -> legal d ids (PreGet zalloc kmalloc) ->
  ida_pre_get d zalloc kmalloc = Some (d1, 1) -> ida_room ids 0 ->
  exists d2 i, ida_get_new d1 = Some (d2, 0, Some i) /\ least_free ids 0 i /\ ida_ids d2 ({[i]} ∪ ids).
Proof.
  intros Hd (H1 & H2 & H3) Hp Hroom. destruct (ida_pre_get_ok d ids zalloc kmalloc Hd H1 H2 H3) as (d' & rv & Hp' & Hd' & Hrv).
  rewrite Hp in Hp'. simplify_eq. destruct Hrv as [(_ & Hcnt & Hfree)|?]; [|done]. unfold ida_get_new.
  destruct (ida_get_new_above_ok d' ids 0 Hd' ltac:(lia) Hroom ltac:(by left)) as (d2 & [(i & Hg & Hi & Hd2)|(_ & _ & Hwhy)]); [by exists d2, i|].
  destruct (Hwhy (or_introl eq_refl)) as [?|He]; [lia|]. rewrite He in Hfree. by destruct Hfree.
Qed.

Lemma ida_spec_det ids o ids1 ids2 r : spec ids o ids1 r -> spec ids o ids2 r -> ids1 = ids2.
Proof. intros H1 H2. destruct H1; inversion H2; subst; done. Qed.

(** The states after any number of legal operations, with the ids the caller has. *)
Inductive reachable : ida -> gset Z -> Prop :=
  | R_init : reachable ida_init ∅
  | R_step d ids o d' r ids' : reachable d ids -> legal d ids o -> run d o = Some (d', r) -> spec ids o ids' r -> reachable d' ids'.

Lemma reachable_ids d ids : reachable d ids -> ida_ids d ids.
Proof.
  induction 1 as [|d ids o d' r ids' _ IH Hl Hr Hs]; [apply ida_init_ids|].
  destruct (ida_run_ok d ids o IH Hl) as (d1 & ids1 & r1 & Hr1 & Hs1 & Hd). rewrite Hr in Hr1. simplify_eq.
  by rewrite (ida_spec_det _ _ _ _ _ Hs Hs1).
Qed.

(** C28: After any sequence of operations of the ida, each called as it should
    be, the next such operation returns without touching memory that is not its
    own, and does to the ids taken what the same operation does to a set; a new
    id is the least one that is free.  After [ida_pre_get] returned 1,
    [ida_get_new] does find one. *)
Theorem ida_refines_set d ids o : reachable d ids -> legal d ids o ->
  (exists d' ids' r, run d o = Some (d', r) /\ spec ids o ids' r /\ reachable d' ids') /\
  forall zalloc kmalloc d1, o = PreGet zalloc kmalloc -> ida_pre_get d zalloc kmalloc = Some (d1, 1) -> ida_room ids 0 ->
    exists d2 i, ida_get_new d1 = Some (d2, 0, Some i) /\ least_free ids 0 i /\ reachable d2 ({[i]} ∪ ids).
Proof.
  intros Hd Hl. pose proof (reachable_ids _ _ Hd) as Hi. split.
  - destruct (ida_run_ok d ids o Hi Hl) as (d' & ids' & r & Hr & Hs & _). exists d', ids', r. split_and!; [done|done|].
    by apply (R_step d ids o d' r).
  - intros zalloc kmalloc d1 -> Hp Hroom. assert (reachable d1 ids) as Hd1.
    { apply (R_step d ids (PreGet zalloc kmalloc) d1 (RInt 1)); [done|done|simpl; by rewrite Hp|]. apply S_PreGet. by right. }
    destruct (ida_get_new_least d ids zalloc kmalloc d1 Hi Hl Hp Hroom) as (d2 & i & Hg & Hleast & _). exists d2, i. split_and!; [done|done|].
    apply (R_step d1 ids GetNew d2 (RId i)); [done|done|simpl; by rewrite Hg|by apply S_GetNew].
Qed.

Lemma ida_refines_set_witness : exists d' ids' r, run ida_init GetNew = Some (d', r) /\ spec ∅ GetNew ids' r /\ reachable d' ids'.
Proof. apply (ida_refines_set ida_init ∅ GetNew R_init). simpl. exists 0. split; [lia|]. apply not_elem_of_empty. Defined.

Lemma ida_destroy_ok d ids : ida_ids d ids -> exists d', ida_destroy d = Some d' /\ id_free_cnt (ida_idr d') = 0.
Proof.
  intros (A & U & F & Fr & W & O). unfold ida_destroy, idr_destroy.
  destruct (destroy_loop_spec (S (Z.to_nat (id_free_cnt (ida_idr d)))) (ida_idr d) A U F Fr W) as (i & -> & W').
  { rewrite (w_cnt W). lia. }
  cbn [mbind option_bind]. simpl. destruct (free_bitmap d) as [b|] eqn:Hf.
  - destruct (o_free _ _ _ _ O b Hf) as [[bm Hb] _]. unfold kfree. simpl. rewrite Hb. eexists. split; [done|]. simpl. apply (w_cnt W').
  - eexists. split; [done|]. simpl. apply (w_cnt W').
Qed.

(** An id of a chunk that was never used is not recognised where its layer is
    there: the bitmap that is missing is read. *)
Definition some_ida : ida :=
  match ida_pre_get ida_init [1; 2; 3; 4; 5; 6; 7; 8; 9; 10; 11; 12; 13; 14]%positive (Some (1%positive, mk_bitmap 0 0)) with
  | Some (d, _) => match ida_get_new d with Some (d, _, _) => d | None => d end
  | None => ida_init
  end.

Lemma ida_remove_null : ida_remove some_ida 1 = Some (set_idr some_ida (ida_idr some_ida), true) /\ ida_remove some_ida 992 = None.
Proof. split; vm_compute; reflexivity. Qed.

End IdaSpec.
