(* ===== verification/Ipc.v ===== *)
(** * System V IPC: identifiers, keys and permissions

    [ipc/util.c] keeps the objects of a kind (message queues, semaphores, shared
    memory) in an idr.  The id a user sees is made of the index in the idr and a
    sequence number; an object can also be found by its key.  This file has the
    object header, its locks and reference count, and the operations of
    [ipc/util.c] and [ipc/util.h]; what follows the header of an object is a
    parameter of the file.

    [None] stands for an operation that touches an object that is not there,
    sleeps or spins on a lock for ever, or frees a lock that is not held.  Sizes
    are those of a 32-bit kernel on ARM. *)

From Stdlib Require Import ZArith Lia.
From stdpp Require Import base option gmap list.
From S2P Require Import Prelude Idr.

Local Open Scope Z_scope.
Local Open Scope kernel_scope.

Module Ipc.
Import Idr.

Definition u16 (z : Z) : Z := z mod 65536.
Definition s16 (z : Z) : Z := let m := z mod 65536 in if m <? 32768 then m else m - 65536.

Definition EACCES : Z := 13.
Definition EEXIST : Z := 17.
Definition EIDRM : Z := 43.

Definition INT_MAX : Z := 2147483647.
Definition USHORT_MAX : Z := 65535.
Definition PAGE_SIZE : Z := 4096.
Definition IPCMNI : Z := 32768.
Definition SEQ_MULTIPLIER : Z := IPCMNI.
Definition IPC_PRIVATE : Z := 0.
Definition IPC_CREAT : Z := 512.
Definition IPC_EXCL : Z := 1024.
Definition IPC_RMID : Z := 0.
Definition IPC_SET : Z := 1.
Definition IPC_64 : Z := 256.
Definition IPC_OLD : Z := 0.
Definition S_IRWXUGO : Z := 511.
Definition CAP_IPC_OWNER : Z := 15.
Definition CAP_SYS_ADMIN : Z := 21.

(** The pointer [security] belongs to the security module and is left out. *)
Record kern_ipc_perm := mk_perm {
  lock : bool; deleted : Z; perm_id : Z; key : Z; uid : Z; gid : Z; cuid : Z; cgid : Z; mode : Z; perm_seq : Z }.

Record ipc64_perm := mk_ipc64 { key64 : Z; uid64 : Z; gid64 : Z; cuid64 : Z; cgid64 : Z; mode64 : Z; seq64 : Z }.
Record ipc_perm := mk_ipc { key16 : Z; uid16 : Z; gid16 : Z; cuid16 : Z; cgid16 : Z; mode16 : Z; seq16 : Z }.

(** [rw_mutex]: -1 with a writer, otherwise the number of readers. *)
Record ipc_ids := mk_ids { in_use : Z; ids_seq : Z; seq_max : Z; rw_mutex : Z; ipcs_idr : idr }.

Record ipc_params := mk_params { params_key : Z; flg : Z }.

(** The task that makes a call: its credentials, and what the security module
    says about it. *)
Record cred := mk_cred {
  euid : Z; egid : Z; in_group_p : Z -> bool; capable : Z -> bool; security_ipc_permission : kern_ipc_perm -> Z -> Z }.

Definition set_lock (p : kern_ipc_perm) (b : bool) : kern_ipc_perm :=
  mk_perm b (deleted p) (perm_id p) (key p) (uid p) (gid p) (cuid p) (cgid p) (mode p) (perm_seq p).
Definition set_deleted (p : kern_ipc_perm) (d : Z) : kern_ipc_perm :=
  mk_perm (lock p) d (perm_id p) (key p) (uid p) (gid p) (cuid p) (cgid p) (mode p) (perm_seq p).
Definition set_owner (p : kern_ipc_perm) (u g : Z) : kern_ipc_perm :=
  mk_perm (lock p) (deleted p) (perm_id p) (key p) u g u g (mode p) (perm_seq p).
Definition set_ident (p : kern_ipc_perm) (i s : Z) : kern_ipc_perm :=
  mk_perm (lock p) (deleted p) i (key p) (uid p) (gid p) (cuid p) (cgid p) (mode p) s.
Definition set_key_mode (p : kern_ipc_perm) (k m : Z) : kern_ipc_perm :=
  mk_perm (lock p) (deleted p) (perm_id p) k (uid p) (gid p) (cuid p) (cgid p) m (perm_seq p).

(** ** Identifiers *)

Definition ipcid_to_idx (id : Z) : Z := Z.rem id SEQ_MULTIPLIER.
Definition ipc_buildid (id seq : Z) : Z := s32 (SEQ_MULTIPLIER * seq + id).
(** The quotient is converted to the [unsigned long] it is compared with. *)
Definition ipc_checkid (ipcp : kern_ipc_perm) (uid : Z) : bool := negb (u32 (Z.quot uid SEQ_MULTIPLIER) =? perm_seq ipcp).

Definition ipc_init_ids (m : gmap addr idr_layer) : ipc_ids :=
  let seq_limit := INT_MAX / SEQ_MULTIPLIER in
  mk_ids 0 0 (if USHORT_MAX <? seq_limit then USHORT_MAX else u16 seq_limit) 0 (idr_init m).

(** ** Permissions *)

(** [flag] is a [short]; 0 if the access is allowed. *)
Definition ipcperms (c : cred) (ipcp : kern_ipc_perm) (flag : Z) : Z :=
  let requested_mode := Z.lor (Z.lor (Z.shiftr flag 6) (Z.shiftr flag 3)) flag in
  let granted_mode :=
    if (euid c =? cuid ipcp) || (euid c =? uid ipcp) then Z.shiftr (mode ipcp) 6
    else if in_group_p c (cgid ipcp) || in_group_p c (gid ipcp) then Z.shiftr (mode ipcp) 3
    else mode ipcp in
  if negb (Z.land (Z.land requested_mode (Z.lnot granted_mode)) 7 =? 0) && negb (capable c CAP_IPC_OWNER) then -1
  else security_ipc_permission c ipcp flag.

Definition kernel_to_ipc64_perm (p : kern_ipc_perm) : ipc64_perm :=
  mk_ipc64 (key p) (uid p) (gid p) (cuid p) (cgid p) (mode p) (u16 (perm_seq p)).

(** [SET_UID] and [SET_GID] to 16 bits. *)
Definition high2low (overflow x : Z) : Z := if Z.land x (Z.lnot 65535) =? 0 then x else overflow.
Definition ipc64_perm_to_ipc_perm (overflowuid overflowgid : Z) (p : ipc64_perm) : ipc_perm :=
  mk_ipc (key64 p) (high2low overflowuid (uid64 p)) (high2low overflowgid (gid64 p))
    (high2low overflowuid (cuid64 p)) (high2low overflowgid (cgid64 p)) (mode64 p) (seq64 p).

Definition ipc_update_perm (p : ipc64_perm) (out : kern_ipc_perm) : kern_ipc_perm :=
  mk_perm (lock out) (deleted out) (perm_id out) (key out) (uid64 p) (gid64 p) (cuid out) (cgid out)
    (Z.lor (Z.land (mode out) (Z.lnot S_IRWXUGO)) (Z.land (mode64 p) S_IRWXUGO)) (perm_seq out).

(** The command without the version, and the version. *)
Definition ipc_parse_version (cmd : Z) : Z * Z :=
  if Z.land cmd IPC_64 =? 0 then (cmd, IPC_OLD) else (Z.lxor cmd IPC_64, IPC_64).

(** ** Objects *)

Section objects.
Context {B : Type}.

(** An object with the header of [ipc_rcu_alloc] before it. *)
Record ipc_obj := mk_obj { refcount : Z; is_vmalloc : bool; perm : kern_ipc_perm; body : B }.

Inductive free_fn := ipc_immediate_free | ipc_schedule_free.

(** [rcu] counts the read-side sections the task is in.  [pending] are the
    objects given to [call_rcu], with the function that is to free them; it runs
    when no section is left.  [freed] are the objects that were freed. *)
Record world := mk_world {
  ids : ipc_ids; objs : gmap addr ipc_obj; rcu : Z; pending : list (addr * free_fn); freed : list (addr * free_fn) }.

Definition set_perm (o : ipc_obj) (p : kern_ipc_perm) : ipc_obj := mk_obj (refcount o) (is_vmalloc o) p (body o).
Definition set_body (o : ipc_obj) (b : B) : ipc_obj := mk_obj (refcount o) (is_vmalloc o) (perm o) b.
Definition set_refcount (o : ipc_obj) (n : Z) : ipc_obj := mk_obj n (is_vmalloc o) (perm o) (body o).
Definition set_ids (w : world) (i : ipc_ids) : world := mk_world i (objs w) (rcu w) (pending w) (freed w).
Definition set_objs (w : world) (m : gmap addr ipc_obj) : world := mk_world (ids w) m (rcu w) (pending w) (freed w).
Definition set_rcu (w : world) (n : Z) : world := mk_world (ids w) (objs w) n (pending w) (freed w).
Definition put_obj (w : world) (a : addr) (o : ipc_obj) : world := set_objs w (<[a := o]> (objs w)).
Definition set_idr (w : world) (idp : idr) (n : Z) : world :=
  set_ids w (mk_ids n (ids_seq (ids w)) (seq_max (ids w)) (rw_mutex (ids w)) idp).
Definition set_rw (w : world) (n : Z) : world :=
  set_ids w (mk_ids (in_use (ids w)) (ids_seq (ids w)) (seq_max (ids w)) n (ipcs_idr (ids w))).
Definition set_seq (w : world) (s : Z) : world :=
  set_ids w (mk_ids (in_use (ids w)) s (seq_max (ids w)) (rw_mutex (ids w)) (ipcs_idr (ids w))).

(** *** Locks *)

Definition down_write (w : world) : option world := if rw_mutex (ids w) =? 0 then Some (set_rw w (-1)) else None.
Definition up_write (w : world) : option world := if rw_mutex (ids w) =? -1 then Some (set_rw w 0) else None.
Definition down_read (w : world) : option world :=
  if 0 <=? rw_mutex (ids w) then Some (set_rw w (rw_mutex (ids w) + 1)) else None.
Definition up_read (w : world) : option world :=
  if 0 <? rw_mutex (ids w) then Some (set_rw w (rw_mutex (ids w) - 1)) else None.

(** The callbacks run outside of all read-side sections. *)
Definition run_callbacks (w : world) : world :=
  if rcu w =? 0 then
    mk_world (ids w) (foldr (fun p m => delete p.1 m) (objs w) (pending w)) (rcu w) [] (pending w ++ freed w)
  else w.

Definition rcu_read_lock (w : world) : world := set_rcu w (rcu w + 1).
Definition rcu_read_unlock (w : world) : option world :=
  if 0 <? rcu w then Some (run_callbacks (set_rcu w (rcu w - 1))) else None.

Definition spin_lock (w : world) (a : addr) : option world :=
  o ← objs w !! a;
  if lock (perm o) then None else Some (put_obj w a (set_perm o (set_lock (perm o) true))).
Definition spin_unlock (w : world) (a : addr) : option world :=
  o ← objs w !! a;
  if lock (perm o) then Some (put_obj w a (set_perm o (set_lock (perm o) false))) else None.

Definition ipc_lock_by_ptr (w : world) (a : addr) : option world := spin_lock (rcu_read_lock w) a.
Definition ipc_unlock (w : world) (a : addr) : option world := w ← spin_unlock w a; rcu_read_unlock w.

(** *** Reference counts *)

Definition HDRLEN_KMALLOC : Z := 8.
Definition rcu_use_vmalloc (size : Z) : bool := PAGE_SIZE <? HDRLEN_KMALLOC + size.

(** [mem] is what the allocator returns: NULL, or an address and what the memory
    held before. *)
Definition ipc_rcu_alloc (w : world) (mem : option (addr * kern_ipc_perm * B)) (size : Z) : world * option addr :=
  match mem with
  | None => (w, None)
  | Some (a, p, b) => (put_obj w a (mk_obj 1 (rcu_use_vmalloc size) p b), Some a)
  end.

Definition ipc_rcu_getref (w : world) (a : addr) : option world :=
  o ← objs w !! a;
  Some (put_obj w a (set_refcount o (refcount o + 1))).

Definition call_rcu (w : world) (a : addr) (fn : free_fn) : world :=
  run_callbacks (mk_world (ids w) (objs w) (rcu w) ((a, fn) :: pending w) (freed w)).

(** The last reference takes the object with it; to give back one more is an error. *)
Definition ipc_rcu_putref (w : world) (a : addr) : option world :=
  o ← objs w !! a;
  let w := put_obj w a (set_refcount o (refcount o - 1)) in
  if refcount o <=? 0 then None
  else if 0 <? refcount o - 1 then Some w
  else Some (call_rcu w a (if is_vmalloc o then ipc_schedule_free else ipc_immediate_free)).

(** *** Keys and ids *)

(** The loop has no bound of its own: it runs until [in_use] objects were seen. *)
Fixpoint findkey_loop (fuel : nat) (w : world) (k total next_id : Z) : option (option addr) :=
  if total <? in_use (ids w) then
    match fuel with
    | O => None
    | S fuel =>
        p ← idr_find (ipcs_idr (ids w)) next_id;
        match p with
        | None => findkey_loop fuel w k total (next_id + 1)
        | Some a =>
            o ← objs w !! a;
            if key (perm o) =? k then Some (Some a) else findkey_loop fuel w k (total + 1) (next_id + 1)
        end
    end
  else Some None.

Definition ipc_findkey (w : world) (k : Z) : option (world * option addr) :=
  p ← findkey_loop (Z.to_nat IPCMNI) w k 0 0;
  match p with
  | None => Some (w, None)
  | Some a => w ← ipc_lock_by_ptr w a; Some (w, Some a)
  end.

Fixpoint maxid_loop (fuel : nat) (w : world) (max_id total id : Z) : option Z :=
  if (id <? IPCMNI) && (total <? in_use (ids w)) then
    match fuel with
    | O => None
    | S fuel =>
        p ← idr_find (ipcs_idr (ids w)) id;
        match p with
        | Some _ => maxid_loop fuel w id (total + 1) (id + 1)
        | None => maxid_loop fuel w max_id total (id + 1)
        end
    end
  else Some max_id.

Definition ipc_get_maxid (w : world) : option Z :=
  if in_use (ids w) =? 0 then Some (-1)
  else if in_use (ids w) =? IPCMNI then Some (IPCMNI - 1)
  else maxid_loop (Z.to_nat IPCMNI) w (-1) 0 0.

Definition spin_lock_init (w : world) (a : addr) : option world :=
  o ← objs w !! a;
  Some (put_obj w a (set_perm o (set_deleted (set_lock (perm o) false) 0))).

(** What [ipc_addid] fills in after the idr has an index for the object. *)
Definition fill_in (c : cred) (w : world) (new : addr) (id : Z) : option world :=
  o ← objs w !! new;
  let p := set_owner (perm o) (euid c) (egid c) in
  let seq := ids_seq (ids w) in
  let next := u16 (seq + 1) in
  let next := if seq_max (ids w) <? next then 0 else next in
  Some (put_obj (set_seq w next) new (set_perm o (set_ident p (ipc_buildid id seq) seq))).

Definition ipc_addid (c : cred) (w : world) (new : addr) (size : Z) : option (world * Z) :=
  let size := if IPCMNI <? size then IPCMNI else size in
  if size <=? in_use (ids w) then Some (w, - ENOSPC)
  else
    w ← spin_lock_init w new;
    w ← spin_lock (rcu_read_lock w) new;
    r ← idr_get_new (ipcs_idr (ids w)) (Some new);
    match r with
    | (idp, err, None) => w ← spin_unlock (set_idr w idp (in_use (ids w))) new; w ← rcu_read_unlock w; Some (w, err)
    | (idp, _, Some id) => w ← fill_in c (set_idr w idp (in_use (ids w) + 1)) new id; Some (w, id)
    end.

Definition ipc_rmid (w : world) (a : addr) : option world :=
  o ← objs w !! a;
  r ← idr_remove (ipcs_idr (ids w)) (ipcid_to_idx (perm_id (perm o)));
  let w := set_idr w (r.1) (in_use (ids w) - 1) in
  Some (put_obj w a (set_perm o (set_deleted (perm o) 1))).

(** [inl] is an [ERR_PTR]. *)
Definition ipc_lock (w : world) (id : Z) : option (world * (Z + addr)) :=
  let w := rcu_read_lock w in
  p ← idr_find (ipcs_idr (ids w)) (ipcid_to_idx id);
  match p with
  | None => w ← rcu_read_unlock w; Some (w, inl (- EINVAL))
  | Some a =>
      w ← spin_lock w a;
      o ← objs w !! a;
      if deleted (perm o) =? 0 then Some (w, inr a)
      else w ← spin_unlock w a; w ← rcu_read_unlock w; Some (w, inl (- EINVAL))
  end.

Definition ipc_lock_check (w : world) (id : Z) : option (world * (Z + addr)) :=
  r ← ipc_lock w id;
  match r with
  | (w, inl e) => Some (w, inl e)
  | (w, inr a) =>
      o ← objs w !! a;
      if ipc_checkid (perm o) id then w ← ipc_unlock w a; Some (w, inl (- EIDRM)) else Some (w, inr a)
  end.

(** The audit calls are left out. *)
Definition ipcctl_pre_down (c : cred) (w : world) (id : Z) : option (world * (Z + addr)) :=
  w ← down_write w;
  r ← ipc_lock_check w id;
  match r with
  | (w, inl e) => w ← up_write w; Some (w, inl e)
  | (w, inr a) =>
      o ← objs w !! a;
      if (euid c =? cuid (perm o)) || (euid c =? uid (perm o)) || capable c CAP_SYS_ADMIN then Some (w, inr a)
      else w ← ipc_unlock w a; w ← up_write w; Some (w, inl (- EPERM))
  end.

(** *** Getting an object *)

(** What a call of [getnew] finds: [E]. *)
Context {E : Type}.

Record ipc_ops := mk_ops {
  getnew : world -> ipc_params -> E -> option (world * Z);
  associate : ipc_obj -> Z -> Z;
  more_checks : option (ipc_obj -> ipc_params -> Z) }.

(** Each try has the layers [idr_pre_get] is given and what [getnew] finds. *)
Fixpoint ipcget_new (ops : ipc_ops) (params : ipc_params) (tries : list (list addr * E)) (w : world) : option (world * Z) :=
  match tries with
  | [] => None
  | (zalloc, e) :: tries =>
      r ← idr_pre_get (ipcs_idr (ids w)) zalloc;
      let w := set_idr w (r.1) (in_use (ids w)) in
      if r.2 =? 0 then Some (w, - ENOMEM)
      else
        w ← down_write w;
        r ← getnew ops w params e;
        w ← up_write (r.1);
        if r.2 =? - EAGAIN then ipcget_new ops params tries w else Some (w, r.2)
  end.

Definition ipc_check_perms (c : cred) (ops : ipc_ops) (params : ipc_params) (o : ipc_obj) : Z :=
  if ipcperms c (perm o) (s16 (flg params)) =? 0 then
    let err := associate ops o (flg params) in
    if err =? 0 then perm_id (perm o) else err
  else - EACCES.

(** What [ipcget_public] returns for an object that has the key. *)
Definition check_found (c : cred) (ops : ipc_ops) (params : ipc_params) (o : ipc_obj) : Z :=
  if negb (Z.land (flg params) IPC_CREAT =? 0) && negb (Z.land (flg params) IPC_EXCL =? 0) then - EEXIST
  else
    let err := match more_checks ops with Some f => f o params | None => 0 end in
    if err =? 0 then ipc_check_perms c ops params o else err.

Fixpoint ipcget_public (c : cred) (ops : ipc_ops) (params : ipc_params) (tries : list (list addr * E)) (w : world) : option (world * Z) :=
  match tries with
  | [] => None
  | (zalloc, e) :: tries =>
      r ← idr_pre_get (ipcs_idr (ids w)) zalloc;
      let w := set_idr w (r.1) (in_use (ids w)) in
      w ← down_write w;
      f ← ipc_findkey w (params_key params);
      r ← (match f with
           | (w, None) =>
               if Z.land (flg params) IPC_CREAT =? 0 then Some (w, - ENOENT)
               else if r.2 =? 0 then Some (w, - ENOMEM)
               else getnew ops w params e
           | (w, Some a) =>
               o ← objs w !! a;
               w ← ipc_unlock w a;
               Some (w, check_found c ops params o)
           end);
      w ← up_write (r.1);
      if r.2 =? - EAGAIN then ipcget_public c ops params tries w else Some (w, r.2)
  end.

Definition ipcget (c : cred) (ops : ipc_ops) (params : ipc_params) (tries : list (list addr * E)) (w : world) : option (world * Z) :=
  if params_key params =? IPC_PRIVATE then ipcget_new ops params tries w else ipcget_public c ops params tries w.

(** *** The files in /proc/sysvipc *)

Fixpoint count_loop (fuel : nat) (w : world) (pos total id : Z) : option Z :=
  if (id <? pos) && (total <? in_use (ids w)) then
    match fuel with
    | O => None
    | S fuel =>
        p ← idr_find (ipcs_idr (ids w)) id;
        count_loop fuel w pos (match p with Some _ => total + 1 | None => total end) (id + 1)
    end
  else Some total.

Fixpoint from_loop (fuel : nat) (w : world) (pos : Z) : option (option (Z * addr)) :=
  if pos <? IPCMNI then
    match fuel with
    | O => None
    | S fuel =>
        p ← idr_find (ipcs_idr (ids w)) pos;
        match p with
        | Some a => Some (Some (pos + 1, a))
        | None => from_loop fuel w (pos + 1)
        end
    end
  else Some None.

(** The new position and the locked object. *)
Definition sysvipc_find_ipc (w : world) (pos : Z) : option (world * option (Z * addr)) :=
  total ← count_loop (Z.to_nat IPCMNI) w pos 0 0;
  if in_use (ids w) <=? total then Some (w, None)
  else
    f ← from_loop (Z.to_nat IPCMNI) w pos;
    match f with
    | Some (new_pos, a) => w ← ipc_lock_by_ptr w a; Some (w, Some (new_pos, a))
    | None => Some (w, None)
    end.

Inductive proc_it := SeqNull | SeqStart | SeqObj (a : addr).

(** The iterator and the position. *)
Definition proc_find (w : world) (from pos : Z) : option (world * proc_it * Z) :=
  r ← sysvipc_find_ipc w from;
  match r with
  | (w, Some (new_pos, a)) => Some (w, SeqObj a, new_pos)
  | (w, None) => Some (w, SeqNull, pos)
  end.

Definition proc_release (w : world) (it : proc_it) : option world :=
  match it with SeqObj a => ipc_unlock w a | _ => Some w end.

Definition sysvipc_proc_next (w : world) (it : proc_it) (pos : Z) : option (world * proc_it * Z) :=
  w ← proc_release w it;
  proc_find w pos pos.

Definition sysvipc_proc_start (w : world) (pos : Z) : option (world * proc_it * Z) :=
  w ← down_read w;
  if pos <? 0 then Some (w, SeqNull, pos)
  else if pos =? 0 then Some (w, SeqStart, pos)
  else proc_find w (pos - 1) pos.

Definition sysvipc_proc_stop (w : world) (it : proc_it) : option world :=
  w ← proc_release w it;
  up_read w.

End objects.

#[global] Arguments ipc_obj : clear implicits.
#[global] Arguments world : clear implicits.
#[global] Arguments ipc_ops : clear implicits.

End Ipc.
