(* ===== verification/IpcSpec.v ===== *)
(** * System V IPC: the table of objects

    The idr of an identifier set as a finite map from indices to objects: what
    the loops over the indices find, what the locks do, and what adding and
    removing an object does to the map.  The proofs use the idr only through its
    map. *)

From Stdlib Require Import ZArith Lia.
From stdpp Require Import base option gmap fin_maps fin_sets list list_numbers.
From S2P Require Import Prelude Idr IdrInv IdrAlloc IdrGet IdrSpec Ipc.

Local Open Scope Z_scope.
Local Open Scope kernel_scope.

Module IpcCount.
Import IdrAlloc.

(** ** Counting the indices below a bound *)

Definition nbelow (D : gset Z) (i : Z) : Z := Z.of_nat (size (filter (fun j => j < i) D)).

Section count.
Context (D : gset Z).

Lemma nbelow_zero : (forall j, j ∈ D -> 0 <= j) -> nbelow D 0 = 0.
Proof.
  intros HD. unfold nbelow. replace (filter _ D) with (∅ : gset Z); [by rewrite size_empty|].
  apply set_eq. intros j. rewrite elem_of_filter, elem_of_empty. split; [done|]. intros [Hj1 Hj2%HD]. lia.
Qed.

Lemma nbelow_step i : nbelow D (i + 1) = nbelow D i + if decide (i ∈ D) then 1 else 0.
Proof.
  unfold nbelow. case_decide as Hi.
  - replace (filter (fun j => j < i + 1) D) with ({[i]} ∪ filter (fun j => j < i) D).
    + rewrite size_union, size_singleton; [lia|]. apply disjoint_singleton_l. rewrite elem_of_filter. lia.
    + apply set_eq. intros j. rewrite elem_of_union, elem_of_singleton, !elem_of_filter.
      destruct (decide (j = i)) as [->|]; naive_solver lia.
  - rewrite Z.add_0_r. do 2 f_equal. apply set_eq. intros j. rewrite !elem_of_filter.
    split; intros [? Hj]; (split; [|done]); (destruct (decide (j = i)) as [->|]; [done|lia]).
Qed.

Lemma nbelow_le i : nbelow D i <= Z.of_nat (size D).
Proof. unfold nbelow. pose proof (subseteq_size (filter (fun j => j < i) D) D ltac:(set_solver)). lia. Qed.

Lemma nbelow_all i : Z.of_nat (size D) <= nbelow D i -> forall j, j ∈ D -> j < i.
Proof.
  intros Hn j Hj. assert (filter (fun j => j < i) D = D) as HD.
  { apply set_subseteq_size_eq; [set_solver|]. unfold nbelow in Hn. lia. }
  rewrite <- HD in Hj. apply elem_of_filter in Hj. tauto.
Qed.

Lemma nbelow_more i : nbelow D i < Z.of_nat (size D) -> exists j, j ∈ D /\ i <= j.
Proof.
  intros Hn. destruct (decide (set_Exists (fun j => i <= j) D)) as [(j & Hj & Hi)|Hno]; [by exists j|].
  exfalso. apply not_set_Exists_Forall in Hno; [|apply _]. replace (nbelow D i) with (Z.of_nat (size D)) in Hn; [lia|].
  unfold nbelow. do 2 f_equal. apply set_eq. intros j. rewrite elem_of_filter. split; [|tauto].
  intros Hj. split; [|done]. pose proof (Hno j Hj). simpl in *. lia.
Qed.

(** As many indices as there are elements: the first free one comes no later. *)
Lemma first_free i : least_free D 0 i -> i <= Z.of_nat (size D).
Proof.
  intros (H0 & _ & Hall). assert (list_to_set (seqZ 0 i) ⊆ D) as Hs.
  { intros j Hj. apply elem_of_list_to_set, elem_of_seqZ in Hj. apply Hall. lia. }
  apply subseteq_size in Hs. rewrite size_list_to_set, length_seqZ in Hs by apply NoDup_seqZ. lia.
Qed.

Lemma free_below n : Z.of_nat (size D) < n -> exists i, 0 <= i < n /\ i ∉ D.
Proof.
  intros Hn. destruct (decide (Exists (fun i => i ∉ D) (seqZ 0 n))) as [He|Hno].
  - apply Exists_exists in He as (i & Hi%elem_of_seqZ & HD). exists i. split; [lia|done].
  - exfalso. assert (list_to_set (seqZ 0 n) ⊆ D) as Hs.
    { intros j Hj. apply elem_of_list_to_set in Hj. destruct (decide (j ∈ D)) as [|Hd]; [done|].
      destruct Hno. apply Exists_exists. by exists j. }
    apply subseteq_size in Hs. rewrite size_list_to_set, length_seqZ in Hs by apply NoDup_seqZ. lia.
Qed.

(** Elements below [n] and as many as that: all of them. *)
Lemma full_all n : (forall j, j ∈ D -> 0 <= j < n) -> n <= Z.of_nat (size D) -> forall i, 0 <= i < n -> i ∈ D.
Proof.
  intros HD Hn i Hi. assert (D = list_to_set (seqZ 0 n)) as ->.
  { apply set_subseteq_size_eq.
    - intros j Hj%HD. apply elem_of_list_to_set, elem_of_seqZ. lia.
    - rewrite size_list_to_set, length_seqZ by apply NoDup_seqZ. lia. }
  apply elem_of_list_to_set, elem_of_seqZ. lia.
Qed.

End count.

End IpcCount.

Module IpcTable.
Import Idr IdrInv IdrTree IdrAlloc IdrGet IdrSpec Ipc IpcCount.

(** ** The idr through its map *)

Lemma idr_find_table idp (T : gmap Z addr) i : idr_map idp (Some <$> T) -> 0 <= i < 2 ^ 31 -> idr_find idp i = Some (T !! i).
Proof. intros Hm Hi. rewrite (map_find _ _ _ Hm Hi), lookup_fmap. by destruct (T !! i). Qed.

Lemma idr_find_mask idp i : idr_find idp i = idr_find idp (i mod 2 ^ 31).
Proof.
  unfold idr_find. change MAX_ID_MASK with (2 ^ 31 - 1). rewrite !land_pow2_mask by lia. by rewrite Z.mod_mod.
Qed.

Lemma bind_some {A B} (x : A) (f : A -> option B) : (Some x ≫= f) = f x.
Proof. done. Qed.

Section table.
Context {B : Type}.
Implicit Types (w : world B) (T : gmap Z addr) (o : ipc_obj B).

(** The object at index [i], with its id made of the index and its sequence number. *)
Record obj_ok (i : Z) o : Prop := {
  o_ref : 1 <= refcount o;
  o_live : deleted (perm o) = 0;
  o_id : perm_id (perm o) = IPCMNI * perm_seq (perm o) + i;
  o_seq : 0 <= perm_seq (perm o) <= 65535 }.

Record table_ok w T : Prop := {
  t_idr : idr_map (ipcs_idr (ids w)) (Some <$> T);
  t_use : in_use (ids w) = Z.of_nat (size T);
  t_range : forall i, is_Some (T !! i) -> 0 <= i < IPCMNI;
  t_obj : forall i a, T !! i = Some a -> exists o, objs w !! a = Some o /\ obj_ok i o;
  t_seq : 0 <= ids_seq (ids w) <= 65535;
  t_max : seq_max (ids w) = 65535 }.

(** No object is locked. *)
Definition unlocked w : Prop := forall a o, objs w !! a = Some o -> lock (perm o) = false.
(** No read-side section is open either, and nothing waits to be freed. *)
Definition calm w : Prop := unlocked w /\ rcu w = 0 /\ pending w = [].

Definition key_of w (a : addr) : option Z := (fun o => key (perm o)) <$> objs w !! a.

Section loops.
Context {w : world B} {T : gmap Z addr} (HT : table_ok w T).

Lemma table_find i : 0 <= i < 2 ^ 31 -> idr_find (ipcs_idr (ids w)) i = Some (T !! i).
Proof. apply idr_find_table, HT. Qed.

Lemma table_use : in_use (ids w) = Z.of_nat (size (dom T)).
Proof. rewrite size_dom. apply HT. Qed.

Lemma table_range i : i ∈ dom T -> 0 <= i < IPCMNI.
Proof. rewrite elem_of_dom. apply HT. Qed.

(** While objects are missing, the index is one of the table's. *)
Lemma more_indices i : nbelow (dom T) i < in_use (ids w) -> i < IPCMNI.
Proof. rewrite table_use. intros (j & Hj%table_range & Hij)%nbelow_more. lia. Qed.

Lemma nbelow_lookup i : nbelow (dom T) (i + 1) = match T !! i with Some _ => nbelow (dom T) i + 1 | None => nbelow (dom T) i end.
Proof.
  rewrite nbelow_step. case_decide as Hd.
  - apply elem_of_dom in Hd as [a ->]. done.
  - apply not_elem_of_dom in Hd as ->. lia.
Qed.

Lemma none_left i : in_use (ids w) <= nbelow (dom T) i -> forall j, is_Some (T !! j) -> j < i.
Proof. rewrite table_use. intros Hn j Hj. apply (nbelow_all _ _ Hn). by apply elem_of_dom. Qed.

(** The first object with a key. *)
Definition findkey_ok (k : Z) (r : option addr) : Prop :=
  match r with
  | Some a => exists i, T !! i = Some a /\ key_of w a = Some k /\ forall j b, T !! j = Some b -> key_of w b = Some k -> i <= j
  | None => forall j b, T !! j = Some b -> key_of w b <> Some k
  end.

Lemma findkey_loop_spec k fuel i : 0 <= i -> IPCMNI - i <= Z.of_nat fuel ->
  (forall j b, T !! j = Some b -> j < i -> key_of w b <> Some k) ->
  exists r, findkey_loop fuel w k (nbelow (dom T) i) i = Some r /\ findkey_ok k r.
Proof.
  revert i. induction fuel as [|fuel IH]; intros i Hi Hf Hno; cbn [findkey_loop];
    (destruct (Z.ltb_spec (nbelow (dom T) i) (in_use (ids w))) as [Hlt|Hge];
     [|exists None; split; [done|]; intros j b Hj; apply (Hno j b Hj), (none_left i); [done|by eexists]]);
    pose proof (more_indices i Hlt) as Hr; [lia|].
  rewrite table_find by (unfold IPCMNI in Hr; lia). cbn [mbind option_bind].
  pose proof (nbelow_lookup i) as Hn. destruct (T !! i) as [a|] eqn:Ha.
  - destruct (t_obj _ _ HT i a Ha) as (o & Ho & _). rewrite Ho. cbn [mbind option_bind]. destruct (Z.eqb_spec (key (perm o)) k) as [Hk|Hk].
    + exists (Some a). split; [done|]. exists i. split_and!; [done|unfold key_of; by rewrite Ho, <- Hk|].
      intros j b Hj Hb. destruct (decide (j < i)); [by destruct (Hno j b Hj)|lia].
    + rewrite <- Hn. apply IH; [lia|lia|]. intros j b Hj Hlt'. destruct (decide (j = i)) as [->|]; [|apply (Hno j b Hj); lia].
      simplify_eq. unfold key_of. rewrite Ho. simpl. congruence.
  - rewrite <- Hn. apply IH; [lia|lia|]. intros j b Hj Hlt'. apply (Hno j b Hj). destruct (decide (j = i)); [congruence|lia].
Qed.

Lemma maxid_loop_spec fuel m i : 0 <= i -> IPCMNI - i <= Z.of_nat fuel ->
  (m = -1 \/ is_Some (T !! m)) -> (forall j, is_Some (T !! j) -> j < i -> j <= m) ->
  exists r, maxid_loop fuel w m (nbelow (dom T) i) i = Some r /\ (r = -1 \/ is_Some (T !! r)) /\ forall j, is_Some (T !! j) -> j <= r.
Proof.
  revert m i. induction fuel as [|fuel IH]; intros m i Hi Hf Hm Hle; cbn [maxid_loop];
    (destruct (Z.ltb_spec (nbelow (dom T) i) (in_use (ids w))) as [Hlt|Hge];
     [|rewrite andb_false_r; exists m; split_and!; [done|done|]; intros j Hj; by apply Hle, (none_left i)]);
    pose proof (more_indices i Hlt) as Hr; [lia|].
  rewrite (proj2 (Z.ltb_lt i IPCMNI)) by lia. simpl.
  rewrite table_find by (unfold IPCMNI in Hr; lia). cbn [mbind option_bind].
  pose proof (nbelow_lookup i) as Hn. destruct (T !! i) as [a|] eqn:Ha; rewrite <- Hn; (apply IH; [lia|lia| |]).
  - right. by eexists.
  - intros j _ Hj. lia.
  - done.
  - intros j Hj Hlt'. apply Hle; [done|]. destruct (decide (j = i)) as [->|]; [rewrite Ha in Hj; by destruct Hj|lia].
Qed.

Lemma nbelow_start : nbelow (dom T) 0 = 0.
Proof. apply nbelow_zero. intros j Hj%table_range. lia. Qed.

Lemma findkey_spec k : exists r, findkey_loop (Z.to_nat IPCMNI) w k 0 0 = Some r /\ findkey_ok k r.
Proof.
  pose proof (findkey_loop_spec k (Z.to_nat IPCMNI) 0) as Hs. rewrite nbelow_start in Hs. apply Hs; [lia|unfold IPCMNI; lia|].
  intros j b Hj Hlt. pose proof (t_range _ _ HT j ltac:(by eexists)). lia.
Qed.

Lemma get_maxid_spec : exists r, ipc_get_maxid w = Some r /\ (r = -1 \/ is_Some (T !! r)) /\ forall j, is_Some (T !! j) -> j <= r.
Proof.
  unfold ipc_get_maxid. destruct (Z.eqb_spec (in_use (ids w)) 0) as [H0|H0].
  { exists (-1). split_and!; [done|by left|]. intros j Hj. exfalso. rewrite table_use in H0.
    assert (dom T = ∅) as Hd by (apply leibniz_equiv, size_empty_iff; lia). apply elem_of_dom in Hj. set_solver. }
  destruct (Z.eqb_spec (in_use (ids w)) IPCMNI) as [H1|H1].
  - exists (IPCMNI - 1). split_and!; [done| |intros j Hj; pose proof (t_range _ _ HT j Hj); lia].
    right. apply elem_of_dom, (full_all _ IPCMNI table_range); [rewrite <- table_use; lia|unfold IPCMNI; lia].
  - pose proof (maxid_loop_spec (Z.to_nat IPCMNI) (-1) 0) as Hs. rewrite nbelow_start in Hs. apply Hs; [lia|unfold IPCMNI; lia|by left|].
    intros j Hj Hlt. pose proof (t_range _ _ HT j Hj). lia.
Qed.

End loops.

(** ** Locking an object *)

Definition locked w (a : addr) o : world B := put_obj (rcu_read_lock w) a (set_perm o (set_lock (perm o) true)).

Lemma lock_ptr w a o : objs w !! a = Some o -> lock (perm o) = false -> ipc_lock_by_ptr w a = Some (locked w a o).
Proof. intros Ho Hl. unfold ipc_lock_by_ptr, spin_lock, rcu_read_lock. simpl. rewrite Ho. cbn [mbind option_bind]. by rewrite Hl. Qed.

Lemma unlock_again (p : kern_ipc_perm) : lock p = false -> set_lock (set_lock p true) false = p.
Proof. destruct p; simpl. by intros ->. Qed.

Lemma no_callbacks w : pending w = [] -> run_callbacks w = w.
Proof. destruct w. unfold run_callbacks. simpl. intros ->. by case_match. Qed.

(** Unlocking gives back the world from before. *)
Lemma unlock_ptr w a o : objs w !! a = Some o -> lock (perm o) = false -> 0 <= rcu w -> pending w = [] -> ipc_unlock (locked w a o) a = Some w.
Proof.
  intros Ho Hl Hr Hp. unfold ipc_unlock, spin_unlock, locked. simpl. rewrite lookup_insert_eq. simpl.
  unfold rcu_read_unlock. simpl. rewrite (proj2 (Z.ltb_lt 0 (rcu w + 1))) by lia.
  rewrite no_callbacks by done. unfold put_obj, set_objs, set_rcu. simpl. rewrite insert_insert_eq, unlock_again by done.
  unfold set_perm at 1. simpl. destruct w as [i m r q f], o as [rc vm p b]. simpl in *. rewrite insert_id by done. do 2 f_equal. lia.
Qed.

(** The object with the key, locked. *)
Lemma ipc_findkey_spec w T k : table_ok w T -> unlocked w ->
  (exists a i o, ipc_findkey w k = Some (locked w a o, Some a) /\ T !! i = Some a /\ objs w !! a = Some o /\ key (perm o) = k /\
     forall j b, T !! j = Some b -> key_of w b = Some k -> i <= j) \/
  (ipc_findkey w k = Some (w, None) /\ forall j b, T !! j = Some b -> key_of w b <> Some k).
Proof.
  intros HT Hu. destruct (findkey_spec HT k) as ([a|] & Hf & Hok); unfold ipc_findkey; rewrite Hf; cbn [mbind option_bind]; [left|by right].
  destruct Hok as (i & Hi & Hk & Hmin). destruct (t_obj _ _ HT i a Hi) as (o & Ho & _). exists a, i, o. rewrite (lock_ptr w a o Ho (Hu a o Ho)).
  split_and!; try done. unfold key_of in Hk. rewrite Ho in Hk. by injection Hk.
Qed.

(** The index of an id, also of a negative one. *)
Lemma find_index w T id : table_ok w T -> - 2 ^ 31 <= id < 2 ^ 31 -> idr_find (ipcs_idr (ids w)) (ipcid_to_idx id) = Some (T !! Z.rem id IPCMNI).
Proof.
  intros HT Hid. unfold ipcid_to_idx. change SEQ_MULTIPLIER with IPCMNI. pose proof (Z.rem_bound_abs id IPCMNI ltac:(done)) as Hb. change (Z.abs IPCMNI) with 32768 in Hb.
  destruct (decide (0 <= Z.rem id IPCMNI)) as [Hpos|Hpos]; [apply (table_find HT); lia|].
  rewrite idr_find_mask. assert (Z.rem id IPCMNI mod 2 ^ 31 = Z.rem id IPCMNI + 2 ^ 31) as Hm.
  { symmetry. apply (Z.mod_unique _ _ (-1)); lia. }
  rewrite Hm, (table_find HT) by lia. f_equal.
  destruct (T !! (Z.rem id IPCMNI + 2 ^ 31)) as [a|] eqn:H1; [pose proof (t_range _ _ HT _ (ex_intro _ _ H1)); unfold IPCMNI in *; lia|].
  destruct (T !! Z.rem id IPCMNI) as [a|] eqn:H2; [pose proof (t_range _ _ HT _ (ex_intro _ _ H2)); lia|done].
Qed.

Lemma lock_spec w T id : table_ok w T -> unlocked w -> 0 <= rcu w -> pending w = [] -> - 2 ^ 31 <= id < 2 ^ 31 ->
  ipc_lock w id =
    match T !! Z.rem id IPCMNI with
    | None => Some (w, inl (- EINVAL))
    | Some a => o ← objs w !! a; Some (locked w a o, inr a)
    end.
Proof.
  intros HT Hu Hr Hp Hid. unfold ipc_lock. change (ids (rcu_read_lock w)) with (ids w). rewrite (find_index w T id HT Hid).
  cbn [mbind option_bind]. destruct (T !! Z.rem id IPCMNI) as [a|] eqn:Ha.
  - destruct (t_obj _ _ HT _ a Ha) as (o & Ho & Hok). pose proof (Hu a o Ho) as Hl.
    change (spin_lock (rcu_read_lock w) a) with (ipc_lock_by_ptr w a). rewrite (lock_ptr w a o Ho Hl), Ho. cbn [mbind option_bind].
    assert (objs (locked w a o) !! a = Some (set_perm o (set_lock (perm o) true))) as -> by (simpl; apply lookup_insert_eq).
    cbn [mbind option_bind]. cbn [set_perm perm set_lock deleted]. by rewrite (o_live _ _ Hok).
  - unfold rcu_read_unlock. simpl. rewrite (proj2 (Z.ltb_lt 0 (rcu w + 1))) by lia. simpl.
    rewrite no_callbacks by done. destruct w. unfold set_rcu. simpl. do 3 f_equal. lia.
Qed.

(** The sequence number in the id is the object's if and only if the id is. *)
Lemma checkid_spec i o id : obj_ok i o -> Z.rem id IPCMNI = i -> 0 <= i -> - 2 ^ 31 <= id < 2 ^ 31 -> ipc_checkid (perm o) id = negb (perm_id (perm o) =? id).
Proof.
  intros Hok Hi Hpos Hid. unfold ipc_checkid. change SEQ_MULTIPLIER with IPCMNI. f_equal. pose proof (o_seq _ _ Hok). pose proof (o_id _ _ Hok) as Ho.
  pose proof (Z.quot_rem' id IPCMNI) as Hq. pose proof (Z.rem_bound_abs id IPCMNI ltac:(done)) as Hb. change (Z.abs IPCMNI) with 32768 in Hb.
  unfold IPCMNI in Hq at 1, Ho at 1. assert (-65536 <= Z.quot id IPCMNI <= 65535) as Hqr by lia.
  unfold u32, two32. destruct (Z.eqb_spec (perm_id (perm o)) id) as [He|He].
  - apply Z.eqb_eq. rewrite Z.mod_small; lia.
  - apply Z.eqb_neq. intros Hu32. apply He. destruct (decide (0 <= Z.quot id IPCMNI)); [rewrite Z.mod_small in Hu32; lia|].
    rewrite <- (Z.mod_unique _ 4294967296 (-1) (Z.quot id IPCMNI + 4294967296)) in Hu32; lia.
Qed.

(** Only the object with this very id is found by it. *)
Lemma lock_check_spec w T id : table_ok w T -> unlocked w -> 0 <= rcu w -> pending w = [] -> - 2 ^ 31 <= id < 2 ^ 31 ->
  ipc_lock_check w id =
    match T !! Z.rem id IPCMNI with
    | None => Some (w, inl (- EINVAL))
    | Some a => o ← objs w !! a; Some (if perm_id (perm o) =? id then (locked w a o, inr a) else (w, inl (- EIDRM)))
    end.
Proof.
  intros HT Hu Hr Hp Hid. unfold ipc_lock_check. rewrite (lock_spec w T id) by done. destruct (T !! Z.rem id IPCMNI) as [a|] eqn:Ha; [|done].
  destruct (t_obj _ _ HT _ a Ha) as (o & Ho & Hok). rewrite Ho. cbn [mbind option_bind].
  assert (objs (locked w a o) !! a = Some (set_perm o (set_lock (perm o) true))) as -> by (simpl; apply lookup_insert_eq). cbn [mbind option_bind].
  assert (ipc_checkid (perm (set_perm o (set_lock (perm o) true))) id = negb (perm_id (perm o) =? id)) as ->.
  { pose proof (t_range _ _ HT _ (ex_intro _ _ Ha)). apply (checkid_spec (Z.rem id IPCMNI) o id Hok); [done|lia|done]. }
  destruct (perm_id (perm o) =? id); simpl; [done|]. by rewrite (unlock_ptr w a o Ho (Hu a o Ho) Hr Hp).
Qed.

(** ** Adding and removing objects *)

Lemma get_new_table idp T a : idr_map idp (Some <$> T) -> Z.of_nat (size T) < 2 ^ 30 ->
  exists idp', (exists i, idr_get_new idp (Some a) = Some (idp', 0, Some i) /\ least_free (dom T) 0 i /\ idr_map idp' (Some <$> <[i := a]> T)) \/
    (idr_get_new idp (Some a) = Some (idp', - EAGAIN, None) /\ id_free_cnt idp < 11 /\ idr_map idp' (Some <$> T)).
Proof.
  intros Hm Hs. destruct (get_new_above_ok idp (Some <$> T) (Some a) 0 Hm ltac:(lia)) as (idp' & [(i & Hg & Hi & _ & Hm')|(Hg & Hc & Hm')]).
  - destruct (free_below (dom T) (2 ^ 30)) as (i & Hi & Hd); [by rewrite size_dom|]. exists i. split; [done|].
    apply not_elem_of_dom in Hd. by rewrite lookup_fmap, Hd.
  - by left.
  - exists idp'. left. exists i. rewrite get_new_zero, fmap_insert. rewrite dom_fmap_L in Hi. done.
  - exists idp'. right. by rewrite get_new_zero.
Qed.

Lemma remove_table idp T i : idr_map idp (Some <$> T) -> is_Some (T !! i) ->
  exists idp', idr_remove idp i = Some (idp', false) /\ idr_map idp' (Some <$> delete i T).
Proof.
  intros Hm Hi. rewrite fmap_delete. apply (remove_ok idp _ i Hm). rewrite lookup_fmap. by apply fmap_is_Some.
Qed.

(** The header of an object that was added. *)
Definition new_perm (c : cred) (p : kern_ipc_perm) (i seq : Z) : kern_ipc_perm :=
  mk_perm true 0 (IPCMNI * seq + i) (key p) (euid c) (egid c) (euid c) (egid c) (mode p) seq.

Definition added (c : cred) w idp' (new : addr) o (i : Z) : world B :=
  mk_world (mk_ids (in_use (ids w) + 1) (u16 (ids_seq (ids w) + 1)) (seq_max (ids w)) (rw_mutex (ids w)) idp')
    (<[new := set_perm o (new_perm c (perm o) i (ids_seq (ids w)))]> (objs w)) (rcu w + 1) (pending w) (freed w).

(** The idr had no layer left. *)
Definition not_added w idp' (new : addr) o : world B :=
  mk_world (mk_ids (in_use (ids w)) (ids_seq (ids w)) (seq_max (ids w)) (rw_mutex (ids w)) idp')
    (<[new := set_perm o (set_deleted (set_lock (perm o) false) 0)]> (objs w)) (rcu w) (pending w) (freed w).

Lemma buildid_ok i seq : 0 <= i < IPCMNI -> 0 <= seq <= 65535 -> ipc_buildid i seq = IPCMNI * seq + i.
Proof.
  intros Hi Hs. unfold ipc_buildid. change SEQ_MULTIPLIER with IPCMNI. unfold IPCMNI in *. apply s32_small. unfold two31. lia.
Qed.

Lemma fill_in_spec c w new o i : objs w !! new = Some o -> 0 <= i < IPCMNI -> 0 <= ids_seq (ids w) <= 65535 -> seq_max (ids w) = 65535 ->
  lock (perm o) = true -> deleted (perm o) = 0 ->
  fill_in c w new i = Some (put_obj (set_seq w (u16 (ids_seq (ids w) + 1))) new (set_perm o (new_perm c (perm o) i (ids_seq (ids w))))).
Proof.
  intros Ho Hi Hs Hm Hl Hd. unfold fill_in. rewrite Ho, Hm, buildid_ok by done. cbn [mbind option_bind].
  assert ((65535 <? u16 (ids_seq (ids w) + 1)) = false) as ->.
  { apply Z.ltb_ge. unfold u16. pose proof (Z.mod_pos_bound (ids_seq (ids w) + 1) 65536 ltac:(lia)). lia. }
  unfold new_perm, set_ident, set_owner. simpl. by rewrite Hl, Hd.
Qed.

Lemma addid_full c w new size : Z.min size IPCMNI <= in_use (ids w) -> ipc_addid c w new size = Some (w, - ENOSPC).
Proof.
  intros Hf. unfold ipc_addid. destruct (Z.ltb_spec IPCMNI size); (rewrite (proj2 (Z.leb_le _ _)) by lia); done.
Qed.

Lemma addid_spec c w T new o size : table_ok w T -> objs w !! new = Some o -> 0 <= rcu w -> pending w = [] -> in_use (ids w) < Z.min size IPCMNI ->
  exists idp',
    (exists i, ipc_addid c w new size = Some (added c w idp' new o i, i) /\ least_free (dom T) 0 i /\ 0 <= i < IPCMNI /\
       idr_map idp' (Some <$> <[i := new]> T)) \/
    (ipc_addid c w new size = Some (not_added w idp' new o, - EAGAIN) /\ id_free_cnt (ipcs_idr (ids w)) < 11 /\ idr_map idp' (Some <$> T)).
Proof.
  intros HT Ho Hr Hp Hlt. pose proof (t_use _ _ HT) as Hu. unfold ipc_addid.
  assert (((if IPCMNI <? size then IPCMNI else size) <=? in_use (ids w)) = false) as ->.
  { destruct (Z.ltb_spec IPCMNI size); apply Z.leb_gt; lia. }
  unfold spin_lock_init. rewrite Ho. cbn [mbind option_bind]. unfold spin_lock. simpl. rewrite lookup_insert_eq. simpl.
  destruct (get_new_table (ipcs_idr (ids w)) T new (t_idr _ _ HT)) as (idp' & [(i & Hg & Hi & Hm)|(Hg & Hc & Hm)]);
    [unfold IPCMNI in Hlt; lia| |]; rewrite Hg; cbn [mbind option_bind]; exists idp'; [left|right].
  - exists i. assert (0 <= i < IPCMNI) as Hir.
    { pose proof (first_free _ _ Hi) as Hle. rewrite size_dom in Hle. destruct Hi. lia. }
    split; [|split; [done|by split]]. erewrite fill_in_spec;
      [|simpl; apply lookup_insert_eq|done|apply HT|apply HT|done|done].
    simpl. unfold added, put_obj, set_objs, set_seq, set_idr, set_ids, rcu_read_lock, set_rcu. simpl. by rewrite !insert_insert_eq.
  - split; [|done]. unfold spin_unlock. simpl. rewrite lookup_insert_eq. simpl. unfold rcu_read_unlock. simpl.
    rewrite (proj2 (Z.ltb_lt 0 (rcu w + 1))) by lia. simpl. rewrite no_callbacks by done. unfold not_added, put_obj, set_objs, set_idr, set_ids, set_rcu. simpl.
    rewrite !insert_insert_eq. do 3 f_equal. lia.
Qed.

(** Two indices never lead to one object. *)
Lemma table_inj w T i j a : table_ok w T -> T !! i = Some a -> T !! j = Some a -> i = j.
Proof.
  intros HT Hi Hj. destruct (t_obj _ _ HT i a Hi) as (o & Ho & H1). destruct (t_obj _ _ HT j a Hj) as (o' & Ho' & H2). simplify_eq.
  pose proof (o_id _ _ H1). pose proof (o_id _ _ H2). lia.
Qed.

Lemma table_added c w T idp' new o i : table_ok w T -> objs w !! new = Some o -> (forall j, T !! j <> Some new) -> 1 <= refcount o ->
  0 <= i < IPCMNI -> T !! i = None -> idr_map idp' (Some <$> <[i := new]> T) -> table_ok (added c w idp' new o i) (<[i := new]> T).
Proof.
  intros HT Ho Hnew Hrc Hi Hn Hm. pose proof (t_seq _ _ HT) as Hs. constructor; simpl.
  - done.
  - rewrite map_size_insert_None by done. rewrite (t_use _ _ HT). lia.
  - intros j. destruct (decide (i = j)) as [->|]; [done|]. rewrite lookup_insert_ne by done. apply HT.
  - intros j a. destruct (decide (i = j)) as [<-|].
    + rewrite lookup_insert_eq. intros [= <-]. rewrite lookup_insert_eq. eexists. split; [done|]. by constructor.
    + rewrite lookup_insert_ne by done. intros Ha. rewrite lookup_insert_ne; [by apply HT|]. intros <-. by apply (Hnew j).
  - unfold u16. pose proof (Z.mod_pos_bound (ids_seq (ids w) + 1) 65536 ltac:(lia)). lia.
  - apply HT.
Qed.

Definition removed w idp' (a : addr) o : world B :=
  put_obj (set_idr w idp' (in_use (ids w) - 1)) a (set_perm o (set_deleted (perm o) 1)).

Lemma rmid_spec w T i a o : table_ok w T -> T !! i = Some a -> objs w !! a = Some o ->
  exists idp', ipc_rmid w a = Some (removed w idp' a o) /\ idr_map idp' (Some <$> delete i T).
Proof.
  intros HT Hi Ho. destruct (t_obj _ _ HT i a Hi) as (o' & Ho' & Hok). simplify_eq.
  pose proof (t_range _ _ HT i ltac:(by eexists)) as Hr. unfold ipc_rmid. rewrite Ho. cbn [mbind option_bind].
  assert (ipcid_to_idx (perm_id (perm o)) = i) as ->.
  { unfold ipcid_to_idx. change SEQ_MULTIPLIER with IPCMNI. pose proof (o_seq _ _ Hok). rewrite (o_id _ _ Hok).
    unfold IPCMNI in *. rewrite Z.rem_mod_nonneg, (Z.mul_comm 32768), Z.add_comm, Z.mod_add, Z.mod_small by lia. done. }
  destruct (remove_table _ T i (t_idr _ _ HT) ltac:(by eexists)) as (idp' & -> & Hm). by exists idp'.
Qed.

Lemma table_removed w T idp' i a o : table_ok w T -> T !! i = Some a -> idr_map idp' (Some <$> delete i T) ->
  table_ok (removed w idp' a o) (delete i T).
Proof.
  intros HT Hi Hm. constructor; simpl.
  - done.
  - rewrite map_size_delete, Hi, (t_use _ _ HT). pose proof (map_size_ne_0_lookup_2 T i ltac:(by eexists)). lia.
  - intros j. destruct (decide (i = j)) as [->|]; [rewrite lookup_delete_eq; by intros [? ?]|]. rewrite lookup_delete_ne by done. apply HT.
  - intros j b. destruct (decide (i = j)) as [<-|Hij]; [by rewrite lookup_delete_eq|]. rewrite lookup_delete_ne by done. intros Hb.
    rewrite lookup_insert_ne; [by apply HT|]. intros <-. by apply Hij, (table_inj w T i j a).
  - apply HT.
  - apply HT.
Qed.

(** ** The files in /proc/sysvipc *)

(** The objects from an index on, in the order of the indices. *)
Definition from_index T (i : Z) : list addr := omap (fun j => T !! j) (seqZ i (IPCMNI - i)).

Lemma from_index_step T i : i < IPCMNI -> from_index T i = match T !! i with Some a => a :: from_index T (i + 1) | None => from_index T (i + 1) end.
Proof.
  intros Hi. unfold from_index. rewrite seqZ_cons by lia. replace (Z.pred (IPCMNI - i)) with (IPCMNI - (i + 1)) by lia. by simpl; destruct (T !! i).
Qed.

Lemma from_index_end T i : IPCMNI <= i -> from_index T i = [].
Proof. intros Hi. unfold from_index. by rewrite seqZ_nil by lia. Qed.

(** Positions: what is at [pos] or after. *)
Definition seek T (pos : Z) (r : option (Z * addr)) : Prop :=
  match r with
  | Some (new_pos, a) => pos < new_pos <= IPCMNI /\ T !! (new_pos - 1) = Some a /\ from_index T pos = a :: from_index T new_pos
  | None => from_index T pos = []
  end.

Lemma from_loop_spec w T fuel : table_ok w T -> forall pos, 0 <= pos -> IPCMNI - pos <= Z.of_nat fuel -> exists r, from_loop fuel w pos = Some r /\ seek T pos r.
Proof.
  intros HT. induction fuel as [|fuel IH]; intros pos H0 Hf; cbn [from_loop];
    (destruct (Z.ltb_spec pos IPCMNI) as [Hlt|Hge]; [|exists None; split; [done|by apply from_index_end]]); [lia|].
  rewrite (table_find HT) by (unfold IPCMNI in Hlt; lia). cbn [mbind option_bind]. destruct (T !! pos) as [a|] eqn:Ha.
  - exists (Some (pos + 1, a)). split; [done|]. split_and!; [lia|lia|by replace (pos + 1 - 1) with pos by lia|]. by rewrite from_index_step, Ha by lia.
  - destruct (IH (pos + 1)) as (r & Hr & Hs); [lia|lia|]. exists r. split; [done|]. destruct r as [[np a]|]; simpl in *.
    + destruct Hs as (? & ? & ?). rewrite from_index_step, Ha by lia. split_and!; try done; lia.
    + by rewrite from_index_step, Ha by lia.
Qed.

(** The first loop only tells whether there is anything left. *)
Lemma count_loop_spec w T pos fuel : table_ok w T -> forall i, 0 <= i -> IPCMNI - i <= Z.of_nat fuel -> exists n, count_loop fuel w pos (nbelow (dom T) i) i = Some n /\
  (in_use (ids w) <= n -> exists j, (j <= pos \/ j <= i) /\ forall k, is_Some (T !! k) -> k < j).
Proof.
  intros HT. induction fuel as [|fuel IH]; intros i H0 Hf; cbn [count_loop];
    (destruct (Z.ltb_spec i pos) as [Hp|Hp];
      [|eexists; split; [done|]; intros Hn; exists i; split; [by right|]; by apply (none_left HT)]);
    (destruct (Z.ltb_spec (nbelow (dom T) i) (in_use (ids w))) as [Hlt|Hge]; cbn [andb];
      [|eexists; split; [done|]; intros _; exists i; split; [by right|]; by apply (none_left HT)]);
    pose proof (more_indices HT i Hlt) as Hr; [lia|].
  rewrite (table_find HT) by (unfold IPCMNI in Hr; lia). cbn [mbind option_bind].
  replace (match T !! i with Some _ => nbelow (dom T) i + 1 | None => nbelow (dom T) i end) with (nbelow (dom T) (i + 1)) by (rewrite nbelow_lookup; done).
  destruct (IH (i + 1)) as (n & Hn & Hd); [lia|lia|]. exists n. split; [done|]. intros Hu. destruct (Hd Hu) as (j & Hj & Hall). exists j. split; [lia|done].
Qed.

Lemma from_index_none T i : (forall k, is_Some (T !! k) -> k < i) -> from_index T i = [].
Proof.
  intros Hall. unfold from_index. destruct (omap _ _) as [|a l] eqn:E; [done|]. exfalso.
  assert (a ∈ omap (fun j => T !! j) (seqZ i (IPCMNI - i))) as (j & Hj%elem_of_seqZ & Ha)%list_elem_of_omap by (rewrite E; left).
  pose proof (Hall j ltac:(by exists a)). lia.
Qed.

Lemma sysvipc_find_spec w T pos : table_ok w T -> unlocked w -> 0 <= pos ->
  exists r w', sysvipc_find_ipc w pos = Some (w', r) /\ seek T pos r /\
    match r with Some (_, a) => exists o, objs w !! a = Some o /\ w' = locked w a o | None => w' = w end.
Proof.
  intros HT Hu H0. unfold sysvipc_find_ipc. destruct (count_loop_spec w T pos (Z.to_nat IPCMNI) HT 0) as (n & Hn & Hd); [lia|unfold IPCMNI; lia|].
  rewrite (nbelow_start HT) in Hn. rewrite Hn. cbn [mbind option_bind]. destruct (Z.leb_spec (in_use (ids w)) n) as [Hle|Hgt].
  - exists None, w. split; [done|]. split; [|done]. destruct (Hd Hle) as (j & Hj & Hall). apply from_index_none. intros k Hk. pose proof (Hall k Hk). lia.
  - destruct (from_loop_spec w T (Z.to_nat IPCMNI) HT pos H0) as (r & Hr & Hs); [unfold IPCMNI; lia|]. rewrite Hr. cbn [mbind option_bind].
    destruct r as [[np a]|]; [|by exists None, w]. destruct Hs as (H1 & H2 & H3). destruct (t_obj _ _ HT _ a H2) as (o & Ho & _).
    rewrite (lock_ptr w a o Ho (Hu a o Ho)). exists (Some (np, a)), (locked w a o). split; [done|]. split; [done|]. by exists o.
Qed.

(** The file is read from an iterator on: the objects shown, and what is left
    after [stop]. *)
Fixpoint proc_read (fuel : nat) w (it : proc_it) (pos : Z) : option (world B * list addr) :=
  match fuel with
  | O => None
  | S fuel =>
      r ← sysvipc_proc_next w it pos;
      match r with
      | (w, SeqObj a, pos) => r ← proc_read fuel w (SeqObj a) pos; Some (r.1, a :: r.2)
      | (w, it, _) => w ← sysvipc_proc_stop w it; Some (w, [])
      end
  end.

Definition proc_file w : option (world B * list addr) :=
  r ← sysvipc_proc_start w 0;
  let '(w, it, pos) := r in proc_read (Z.to_nat (IPCMNI + 1)) w it pos.

Lemma proc_read_spec w T : table_ok w T -> calm w -> 0 < rw_mutex (ids w) -> forall fuel w1 it pos,
  (w1 = w /\ it = SeqStart \/ exists a o, objs w !! a = Some o /\ w1 = locked w a o /\ it = SeqObj a) -> 0 <= pos -> IPCMNI + 1 - pos <= Z.of_nat fuel ->
  proc_read fuel w1 it pos = Some (set_rw w (rw_mutex (ids w) - 1), from_index T pos) \/ IPCMNI < pos.
Proof.
  intros HT (Hu & Hr & Hp) Hrw. induction fuel as [|fuel IH]; intros w1 it pos Hw H0 Hf; [right; lia|]. left. cbn [proc_read].
  unfold sysvipc_proc_next. assert (proc_release w1 it = Some w) as ->.
  { destruct Hw as [[-> ->]|(a & o & Ho & -> & ->)]; [done|]. apply (unlock_ptr w a o Ho (Hu a o Ho)); [lia|done]. }
  cbn [mbind option_bind]. unfold proc_find. destruct (sysvipc_find_spec w T pos HT Hu H0) as (r & w' & -> & Hs & Hw'). cbn [mbind option_bind].
  destruct r as [[np a]|].
  - destruct Hs as (H1 & H2 & H3). destruct Hw' as (o & Ho & ->). cbn [mbind option_bind].
    destruct (IH (locked w a o) (SeqObj a) np) as [->|]; [right; by exists a, o|lia|lia| |lia]. cbn [mbind option_bind fst snd]. by rewrite H3.
  - subst w'. simpl in Hs. rewrite Hs. unfold sysvipc_proc_stop, up_read. cbn [proc_release mbind option_bind]. by rewrite (proj2 (Z.ltb_lt _ _) Hrw).
Qed.

Lemma from_index_elem w T a : table_ok w T -> a ∈ from_index T 0 <-> exists i, T !! i = Some a.
Proof.
  intros HT. unfold from_index. rewrite list_elem_of_omap. split; [by intros (i & _ & Hi); exists i|]. intros [i Hi]. exists i. split; [|done].
  apply elem_of_seqZ. pose proof (t_range _ _ HT i ltac:(by exists a)). lia.
Qed.

Lemma from_index_NoDup w T i : table_ok w T -> NoDup (from_index T i).
Proof.
  intros HT. unfold from_index. generalize (NoDup_seqZ i (IPCMNI - i)). generalize (seqZ i (IPCMNI - i)). intros l.
  induction l as [|j l IH]; intros Hl; simpl; [constructor|]. apply NoDup_cons in Hl as [Hj Hl]. destruct (T !! j) as [a|] eqn:Ha; [|by apply IH].
  constructor; [|by apply IH]. rewrite list_elem_of_omap. intros (k & Hk & Hka). by rewrite (table_inj w T j k a HT Ha Hka) in Hj.
Qed.

Lemma set_rw_back w : rw_mutex (ids w) = 0 -> set_rw (set_rw w (0 + 1)) (1 - 1) = w.
Proof. destruct w as [[] ?]. simpl. by intros ->. Qed.

(** A reader of the file is told every object once, in the order of the indices,
    and leaves everything as it was. *)
Lemma proc_file_spec w T : table_ok w T -> calm w -> rw_mutex (ids w) = 0 -> proc_file w = Some (w, from_index T 0).
Proof.
  intros HT Hc Hrw. unfold proc_file. assert (sysvipc_proc_start w 0 = Some (set_rw w (0 + 1), SeqStart, 0)) as ->.
  { unfold sysvipc_proc_start, down_read. by rewrite Hrw. }
  rewrite bind_some. cbv beta iota.
  assert (rw_mutex (ids (set_rw w (0 + 1))) = 1) as Hrw1 by done.
  destruct (proc_read_spec (set_rw w (0 + 1)) T ltac:(by destruct HT; constructor) Hc ltac:(by rewrite Hrw1)
    (Z.to_nat (IPCMNI + 1)) (set_rw w (0 + 1)) SeqStart 0 ltac:(by left) ltac:(done) ltac:(unfold IPCMNI; lia)) as [H|H]; [|by unfold IPCMNI in H].
  rewrite H, Hrw1. by rewrite (set_rw_back w Hrw).
Qed.

(** The same object in the table, with something else changed. *)
Definition same_ident o o' : Prop :=
  perm_id (perm o') = perm_id (perm o) /\ perm_seq (perm o') = perm_seq (perm o) /\ deleted (perm o') = deleted (perm o) /\ key (perm o') = key (perm o).

Lemma table_put w T a o o' : table_ok w T -> objs w !! a = Some o -> same_ident o o' -> 1 <= refcount o' -> table_ok (put_obj w a o') T.
Proof.
  intros HT Ho (H1 & H2 & H3 & _) Hr. destruct HT as [A1 A2 A3 A4 A5 A6]. constructor; simpl; try done.
  intros i b Hb. destruct (A4 i b Hb) as (ob & Hob & [B1 B2 B3 B4]). destruct (decide (a = b)) as [<-|].
  - simplify_eq. rewrite lookup_insert_eq. exists o'. split; [done|]. constructor; [lia|congruence|congruence|]. by rewrite H2.
  - rewrite lookup_insert_ne by done. by exists ob.
Qed.

Lemma table_rw w T n : table_ok w T -> table_ok (set_rw w n) T.
Proof. intros [A1 A2 A3 A4 A5 A6]. by constructor. Qed.

Lemma calm_put w a o' : calm w -> lock (perm o') = false -> calm (put_obj w a o').
Proof.
  intros (Hu & Hr & Hp) Hl. split; [|done]. intros b ob. simpl. destruct (decide (a = b)) as [<-|].
  - rewrite lookup_insert_eq. by intros [= <-].
  - rewrite lookup_insert_ne by done. apply Hu.
Qed.

End table.

End IpcTable.

Module IpcPerms.
Import Ipc.

(** ** Permissions *)

(** Which of the three groups of bits of the mode counts for a task. *)
Definition class_of (c : cred) (p : kern_ipc_perm) : Z :=
  if bool_decide (euid c = cuid p \/ euid c = uid p) then 6
  else if in_group_p c (cgid p) || in_group_p c (gid p) then 3 else 0.

(** The access asked for: each of read, write and execute (bits 2, 1, 0) that is
    in the flag for the owner, the group or the others. *)
Definition asks (flag i : Z) : bool := Z.testbit flag (i + 6) || Z.testbit flag (i + 3) || Z.testbit flag i.

Definition allowed (c : cred) (p : kern_ipc_perm) (flag : Z) : Prop :=
  capable c CAP_IPC_OWNER = true \/ forall i, 0 <= i < 3 -> asks flag i = true -> Z.testbit (mode p) (class_of c p + i) = true.

Lemma low3_zero x : Z.land x 7 = 0 <-> forall i, 0 <= i < 3 -> Z.testbit x i = false.
Proof.
  change 7 with (Z.ones 3). split.
  - intros H i Hi. pose proof (f_equal (fun z => Z.testbit z i) H) as Hb. cbv beta in Hb.
    rewrite Z.land_spec, Z.testbit_0_l, Z.ones_spec_low, andb_true_r in Hb by lia. done.
  - intros H. apply Z.bits_inj'. intros i Hi. rewrite Z.land_spec, Z.testbit_0_l. destruct (decide (i < 3)) as [Hlt|].
    + by rewrite H by lia.
    + rewrite Z.ones_spec_high by lia. apply andb_false_r.
Qed.

(** A task gets the access it asks for exactly if the bits of the mode for
    the owner or creator, else for their groups, else for everyone, have all that
    the flag asks for in any of its three groups, or if the task may do anything;
    then the security module decides. *)
Theorem ipcperms_correct c p flag :
  (allowed c p flag -> ipcperms c p flag = security_ipc_permission c p flag) /\ (~ allowed c p flag -> ipcperms c p flag = -1).
Proof.
  assert (exists g, ipcperms c p flag =
    (if negb (Z.land (Z.land (Z.lor (Z.lor (Z.shiftr flag 6) (Z.shiftr flag 3)) flag) (Z.lnot g)) 7 =? 0) && negb (capable c CAP_IPC_OWNER) then -1
     else security_ipc_permission c p flag) /\ forall i, 0 <= i -> Z.testbit g i = Z.testbit (mode p) (class_of c p + i)) as (g & -> & Hg).
  { unfold ipcperms, class_of. eexists. split; [done|]. intros i Hi. destruct (Z.eqb_spec (euid c) (cuid p)), (Z.eqb_spec (euid c) (uid p)); cbn [orb];
      (first [rewrite bool_decide_true by auto|rewrite bool_decide_false by tauto]);
      [rewrite Z.shiftr_spec by lia; f_equal; lia..|]. destruct (_ || _); [rewrite Z.shiftr_spec by lia|]; f_equal; lia. }
  assert (Z.land (Z.land (Z.lor (Z.lor (Z.shiftr flag 6) (Z.shiftr flag 3)) flag) (Z.lnot g)) 7 = 0 <->
    forall i, 0 <= i < 3 -> asks flag i = true -> Z.testbit (mode p) (class_of c p + i) = true) as Hbits.
  { rewrite low3_zero. apply forall_proper. intros i. apply forall_proper. intros Hi.
    rewrite Z.land_spec, !Z.lor_spec, !Z.shiftr_spec, Z.lnot_spec, Hg by lia. fold (asks flag i).
    by destruct (asks flag i), (Z.testbit (mode p) (class_of c p + i)); simpl; intuition congruence. }
  unfold allowed. rewrite <- Hbits. destruct (Z.eqb_spec (Z.land (Z.land (Z.lor (Z.lor (Z.shiftr flag 6) (Z.shiftr flag 3)) flag) (Z.lnot g)) 7) 0) as [E|E], (capable c CAP_IPC_OWNER);
    cbn [negb andb]; split; intros H; try done; destruct H; auto; done.
Qed.

#[export] Instance allowed_dec c p flag : Decision (allowed c p flag).
Proof.
  unfold allowed. apply or_dec; [apply _|].
  destruct (decide (Forall (fun i => asks flag i = true -> Z.testbit (mode p) (class_of c p + i) = true) [0; 1; 2])) as [H|H]; [left|right].
  - intros i Hi. rewrite !Forall_cons in H. destruct H as (H0 & H1 & H2 & _). assert (i = 0 \/ i = 1 \/ i = 2) as [-> | [-> | ->]] by lia; done.
  - intros Hall. apply H. rewrite !Forall_cons. split_and!; [apply Hall; lia..|done].
Defined.

Lemma ipcperms_zero c p flag : ipcperms c p flag = 0 <-> allowed c p flag /\ security_ipc_permission c p flag = 0.
Proof.
  destruct (ipcperms_correct c p flag) as [H1 H2]. destruct (decide (allowed c p flag)) as [Ha|Ha].
  - rewrite (H1 Ha). tauto.
  - rewrite (H2 Ha). split; [done|tauto].
Qed.

End IpcPerms.
