(* ===== verification/Msg.v ===== *)
(** * System V message queues

    [ipc/msg.c] and [ipc/msgutil.c] on top of [Ipc]: creating and removing
    queues, sending and receiving, the tasks that wait for room or for a message.
    A call runs until it returns or goes to sleep in [schedule]; what a task has
    on its stack while it sleeps is kept in [senders] and [receivers], and waking
    up goes on from there, at any time.  Messages are in memory of their own, so
    that a message which is lost or freed twice shows. *)

From Stdlib Require Import ZArith Lia.
From stdpp Require Import base option gmap list.
From S2P Require Import Prelude Idr Ipc.

Local Open Scope Z_scope.
Local Open Scope kernel_scope.

Module Msg.
Import Idr Ipc.

Definition E2BIG : Z := 7.
Definition ENOMSG : Z := 42.
Definition ERESTARTNOHAND : Z := 514.
Definition IPC_STAT : Z := 2.
Definition IPC_INFO : Z := 3.
Definition MSG_STAT : Z := 11.
Definition MSG_INFO : Z := 12.
Definition IPC_NOWAIT : Z := 2048.
Definition MSG_NOERROR : Z := 4096.
Definition MSG_EXCEPT : Z := 8192.
Definition S_IRUGO : Z := 292.
Definition S_IWUGO : Z := 146.
Definition CAP_SYS_RESOURCE : Z := 24.
Definition MSGMNI : Z := 16.
Definition MSGMAX : Z := 8192.
Definition MSGMNB : Z := 16384.
Definition MSG_MEM_SCALE : Z := 32.
Definition MSGPOOL : Z := MSGMNI * MSGMNB / 1024.
Definition MSGTQL : Z := MSGMNB.
Definition MSGMAP : Z := MSGMNB.
Definition MSGSSZ : Z := 16.
Definition __MSGSEG : Z := MSGPOOL * 1024 / MSGSSZ.
Definition MSGSEG : Z := if __MSGSEG <=? 65535 then __MSGSEG else 65535.

(** ** The text of a message *)

(** [sizeof(struct msg_msg)] is 24, [sizeof(struct msg_msgseg)] is 4. *)
Definition DATALEN_MSG : Z := PAGE_SIZE - 24.
Definition DATALEN_SEG : Z := PAGE_SIZE - 4.

(** The bytes after the structure, and those of the segments. *)
Record msg_msg := mk_msg { m_type : Z; m_ts : Z; text : list Z; next : list (list Z) }.

(** [src] are the bytes that can be read; [kmalloc k] tells whether the [k]th
    allocation succeeds. *)
Fixpoint load_segs (fuel : nat) (kmalloc : nat -> bool) (k : nat) (src : list Z) (len : Z) : option (Z + list (list Z)) :=
  if 0 <? len then
    match fuel with
    | O => None
    | S fuel =>
        let alen := if DATALEN_SEG <? len then DATALEN_SEG else len in
        if kmalloc k then
          if Z.of_nat (length src) <? alen then Some (inl (- EFAULT))
          else
            r ← load_segs fuel kmalloc (S k) (drop (Z.to_nat alen) src) (len - alen);
            Some (match r with inl e => inl e | inr segs => inr (take (Z.to_nat alen) src :: segs) end)
        else Some (inl (- ENOMEM))
    end
  else Some (inr []).

(** [load_msg], with the type and the size its caller stores. *)
Definition load_msg (kmalloc : nat -> bool) (security_msg_msg_alloc : Z) (src : list Z) (len mtype : Z) : option (Z + msg_msg) :=
  let alen := if DATALEN_MSG <? len then DATALEN_MSG else len in
  if kmalloc 0%nat then
    if Z.of_nat (length src) <? alen then Some (inl (- EFAULT))
    else
      r ← load_segs (Z.to_nat len) kmalloc 1 (drop (Z.to_nat alen) src) (len - alen);
      Some (match r with
            | inl e => inl e
            | inr segs =>
                if security_msg_msg_alloc =? 0 then inr (mk_msg mtype len (take (Z.to_nat alen) src) segs)
                else inl security_msg_msg_alloc
            end)
  else Some (inl (- ENOMEM)).

(** [dest] bytes can be written; the bytes written.  The outer [None] is a read
    beyond the message, the inner one -1. *)
Fixpoint store_segs (fuel : nat) (dest : Z) (segs : list (list Z)) (len : Z) : option (option (list Z)) :=
  if 0 <? len then
    match fuel, segs with
    | S fuel, seg :: segs =>
        let alen := if DATALEN_SEG <? len then DATALEN_SEG else len in
        if Z.of_nat (length seg) <? alen then None
        else if dest <? alen then Some None
        else
          r ← store_segs fuel (dest - alen) segs (len - alen);
          Some (l ← r; Some (take (Z.to_nat alen) seg ++ l))
    | _, _ => None
    end
  else Some (Some []).

Definition store_msg (dest : Z) (msg : msg_msg) (len : Z) : option (option (list Z)) :=
  let alen := if DATALEN_MSG <? len then DATALEN_MSG else len in
  if Z.of_nat (length (text msg)) <? alen then None
  else if dest <? alen then Some None
  else
    r ← store_segs (Z.to_nat len) (dest - alen) (next msg) (len - alen);
    Some (l ← r; Some (take (Z.to_nat alen) (text msg) ++ l)).

(** ** Queues and the tasks that wait *)

Definition tid := positive.

Record msg_queue := mk_queue {
  q_stime : Z; q_rtime : Z; q_ctime : Z; q_cbytes : Z; q_qnum : Z; q_qbytes : Z; q_lspid : Z; q_lrpid : Z;
  q_messages : list addr; q_receivers : list tid; q_senders : list tid }.

(** [r_msg]: an [ERR_PTR] or a message.  The NULL it is for a moment only makes
    the receiver look again. *)
Inductive rmsg := RErr (e : Z) | RMsg (m : addr).

(** A receiver that sleeps: [struct msg_receiver] and the variables of [do_msgrcv]. *)
Record receiver := mk_receiver { r_mode : Z; r_msgtype : Z; r_maxsize : Z; r_msg : rmsg; r_msq : addr; r_msgsz : Z; r_msgflg : Z }.

(** A sender that sleeps: [linked] is [list.next != NULL]. *)
Record sender := mk_sender { linked : bool; s_msq : addr; s_msg : addr; s_msgflg : Z }.

Notation queues := (world msg_queue).

Record sys := mk_sys {
  ipc : queues; msg_ctlmax : Z; msg_ctlmnb : Z; msg_ctlmni : Z; msg_bytes : Z; msg_hdrs : Z;
  msgs : gmap addr msg_msg; receivers : gmap tid receiver; senders : gmap tid sender; woken : gset tid }.

Definition set_ipc (s : sys) (w : queues) : sys :=
  mk_sys w (msg_ctlmax s) (msg_ctlmnb s) (msg_ctlmni s) (msg_bytes s) (msg_hdrs s) (msgs s) (receivers s) (senders s) (woken s).
Definition set_counts (s : sys) (b h : Z) : sys :=
  mk_sys (ipc s) (msg_ctlmax s) (msg_ctlmnb s) (msg_ctlmni s) b h (msgs s) (receivers s) (senders s) (woken s).
Definition set_msgs (s : sys) (m : gmap addr msg_msg) : sys :=
  mk_sys (ipc s) (msg_ctlmax s) (msg_ctlmnb s) (msg_ctlmni s) (msg_bytes s) (msg_hdrs s) m (receivers s) (senders s) (woken s).
Definition set_receivers (s : sys) (r : gmap tid receiver) : sys :=
  mk_sys (ipc s) (msg_ctlmax s) (msg_ctlmnb s) (msg_ctlmni s) (msg_bytes s) (msg_hdrs s) (msgs s) r (senders s) (woken s).
Definition set_senders (s : sys) (x : gmap tid sender) : sys :=
  mk_sys (ipc s) (msg_ctlmax s) (msg_ctlmnb s) (msg_ctlmni s) (msg_bytes s) (msg_hdrs s) (msgs s) (receivers s) x (woken s).
Definition set_woken (s : sys) (x : gset tid) : sys :=
  mk_sys (ipc s) (msg_ctlmax s) (msg_ctlmnb s) (msg_ctlmni s) (msg_bytes s) (msg_hdrs s) (msgs s) (receivers s) (senders s) x.

Definition set_rmsg (r : receiver) (m : rmsg) : receiver :=
  mk_receiver (r_mode r) (r_msgtype r) (r_maxsize r) m (r_msq r) (r_msgsz r) (r_msgflg r).
Definition unlink (x : sender) : sender := mk_sender false (s_msq x) (s_msg x) (s_msgflg x).

Definition set_lists (q : msg_queue) (m : list addr) (r x : list tid) : msg_queue :=
  mk_queue (q_stime q) (q_rtime q) (q_ctime q) (q_cbytes q) (q_qnum q) (q_qbytes q) (q_lspid q) (q_lrpid q) m r x.
Definition set_sent (q : msg_queue) (t p : Z) : msg_queue :=
  mk_queue t (q_rtime q) (q_ctime q) (q_cbytes q) (q_qnum q) (q_qbytes q) p (q_lrpid q) (q_messages q) (q_receivers q) (q_senders q).
Definition set_received (q : msg_queue) (t p : Z) : msg_queue :=
  mk_queue (q_stime q) t (q_ctime q) (q_cbytes q) (q_qnum q) (q_qbytes q) (q_lspid q) p (q_messages q) (q_receivers q) (q_senders q).
Definition set_fill (q : msg_queue) (b n : Z) : msg_queue :=
  mk_queue (q_stime q) (q_rtime q) (q_ctime q) b n (q_qbytes q) (q_lspid q) (q_lrpid q) (q_messages q) (q_receivers q) (q_senders q).
Definition set_limit (q : msg_queue) (t b : Z) : msg_queue :=
  mk_queue (q_stime q) (q_rtime q) t (q_cbytes q) (q_qnum q) b (q_lspid q) (q_lrpid q) (q_messages q) (q_receivers q) (q_senders q).

(** Change the queue at [a]. *)
Definition upd_queue (s : sys) (a : addr) (f : msg_queue -> msg_queue) : option sys :=
  o ← objs (ipc s) !! a;
  Some (set_ipc s (put_obj (ipc s) a (set_body o (f (body o))))).

Definition lift (s : sys) (w : option queues) : option sys := w ← w; Some (set_ipc s w).
Definition msg_unlock (s : sys) (a : addr) : option sys := lift s (ipc_unlock (ipc s) a).

(** The security module. *)
Record security := mk_security {
  sec_associate : ipc_obj msg_queue -> Z -> Z;
  sec_msgctl : option (ipc_obj msg_queue) -> Z -> Z;
  sec_msgsnd : msg_msg -> Z -> Z;
  sec_msgrcv : msg_msg -> tid -> Z -> Z -> Z }.

(** The task that makes a call or wakes up. *)
Record task := mk_task { who : tid; cr : cred; now : Z; signal_pending : bool }.

Section msg.
Context (sec : security) (task_pid_vnr task_tgid_vnr : tid -> Z) (sizeof_msg_queue : Z).

(** ** Limits *)

(** [lowmem] is [(totalram - totalhigh) / MSG_MEM_SCALE * mem_unit]. *)
Definition recompute_msgmni (lowmem nb_ns : Z) : Z :=
  let allowed := lowmem / MSGMNB / nb_ns in
  if allowed <? MSGMNI then MSGMNI
  else if IPCMNI / nb_ns <? allowed then IPCMNI / nb_ns
  else allowed.

Definition msg_init_ns (m : gmap addr idr_layer) (lowmem nb_ns : Z) : sys :=
  mk_sys (mk_world (ipc_init_ids m) ∅ 0 [] []) MSGMAX MSGMNB (recompute_msgmni lowmem nb_ns) 0 0 ∅ ∅ ∅ ∅.

(** ** Creating a queue *)

(** What [newque] finds: the allocation, the security module, the time. *)
Record new_env := mk_env { env_mem : option (addr * kern_ipc_perm * msg_queue); env_sec : Z; env_now : Z }.

Definition newque (c : cred) (ctlmni ctlmnb : Z) (w : queues) (params : ipc_params) (e : new_env) : option (queues * Z) :=
  match ipc_rcu_alloc w (env_mem e) sizeof_msg_queue with
  | (w, None) => Some (w, - ENOMEM)
  | (w, Some a) =>
      o ← objs w !! a;
      let w := put_obj w a (set_perm o (set_key_mode (perm o) (params_key params) (Z.land (flg params) S_IRWXUGO))) in
      if env_sec e =? 0 then
        r ← ipc_addid c w a ctlmni;
        match r with
        | (w, id) =>
            if id <? 0 then w ← ipc_rcu_putref w a; Some (w, id)
            else
              o ← objs w !! a;
              let w := put_obj w a (set_body o (mk_queue 0 0 (env_now e) 0 0 ctlmnb 0 0 [] [] [])) in
              w ← ipc_unlock w a;
              Some (w, perm_id (perm o))
        end
      else w ← ipc_rcu_putref w a; Some (w, env_sec e)
  end.

Definition msg_ops (c : cred) (s : sys) : ipc_ops msg_queue new_env :=
  mk_ops (newque c (msg_ctlmni s) (msg_ctlmnb s)) (sec_associate sec) None.

Definition msgget (c : cred) (k msgflg : Z) (tries : list (list addr * new_env)) (s : sys) : option (sys * Z) :=
  r ← ipcget c (msg_ops c s) (mk_params k msgflg) tries (ipc s);
  Some (set_ipc s (r.1), r.2).

(** ** Waking tasks up *)

Fixpoint expunge_all (s : sys) (rs : list tid) (res : Z) : option sys :=
  match rs with
  | [] => Some s
  | t :: rs =>
      msr ← receivers s !! t;
      expunge_all (set_woken (set_receivers s (<[t := set_rmsg msr (RErr res)]> (receivers s))) ({[t]} ∪ woken s)) rs res
  end.

Fixpoint ss_wakeup (s : sys) (ss : list tid) (kill : bool) : option sys :=
  match ss with
  | [] => Some s
  | t :: ss =>
      mss ← senders s !! t;
      let s := if kill then set_senders s (<[t := unlink mss]> (senders s)) else s in
      ss_wakeup (set_woken s ({[t]} ∪ woken s)) ss kill
  end.

Definition free_msg (s : sys) (m : addr) : option sys :=
  _ ← msgs s !! m;
  Some (set_msgs s (delete m (msgs s))).

(** ** Removing a queue *)

Fixpoint free_all (s : sys) (ms : list addr) : option sys :=
  match ms with
  | [] => Some s
  | m :: ms =>
      s ← free_msg (set_counts s (msg_bytes s) (s32 (msg_hdrs s - 1))) m;
      free_all s ms
  end.

Definition freeque (s : sys) (a : addr) : option sys :=
  o ← objs (ipc s) !! a;
  s ← expunge_all s (q_receivers (body o)) (- EIDRM);
  s ← ss_wakeup s (q_senders (body o)) true;
  s ← lift s (ipc_rmid (ipc s) a);
  s ← msg_unlock s a;
  s ← free_all s (q_messages (body o));
  let s := set_counts s (s32 (msg_bytes s - q_cbytes (body o))) (msg_hdrs s) in
  lift s (ipc_rcu_putref (ipc s) a).

(** [free_ipcs] of ipc/namespace.c for message queues. *)
Fixpoint free_ipcs_loop (fuel : nat) (s : sys) (in_use total next_id : Z) : option sys :=
  if total <? in_use then
    match fuel with
    | O => None
    | S fuel =>
        p ← idr_find (ipcs_idr (ids (ipc s))) next_id;
        match p with
        | None => free_ipcs_loop fuel s in_use total (next_id + 1)
        | Some a =>
            s ← lift s (ipc_lock_by_ptr (ipc s) a);
            s ← freeque s a;
            free_ipcs_loop fuel s in_use (total + 1) (next_id + 1)
        end
    end
  else Some s.

Definition msg_exit_ns (s : sys) : option sys :=
  s ← lift s (down_write (ipc s));
  s ← free_ipcs_loop (Z.to_nat IPCMNI) s (in_use (ids (ipc s))) 0 0;
  lift s (up_write (ipc s)).

(** ** Sending *)

Definition SEARCH_ANY : Z := 1.
Definition SEARCH_EQUAL : Z := 2.
Definition SEARCH_NOTEQUAL : Z := 3.
Definition SEARCH_LESSEQUAL : Z := 4.

Definition testmsg (msg : msg_msg) (type mode : Z) : bool :=
  if mode =? SEARCH_ANY then true
  else if mode =? SEARCH_LESSEQUAL then m_type msg <=? type
  else if mode =? SEARCH_EQUAL then m_type msg =? type
  else if mode =? SEARCH_NOTEQUAL then negb (m_type msg =? type)
  else false.

(** The loop of [pipelined_send] over the receivers; [true] if one took the message. *)
Fixpoint pipelined_send (s : sys) (a m : addr) (msg : msg_msg) (now : Z) (rs : list tid) : option (sys * bool) :=
  match rs with
  | [] => Some (s, false)
  | t :: rs =>
      msr ← receivers s !! t;
      if testmsg msg (r_msgtype msr) (r_mode msr) && (sec_msgrcv sec msg t (r_msgtype msr) (r_mode msr) =? 0) then
        s ← upd_queue s a (fun q => set_lists q (q_messages q) (list_del t (q_receivers q)) (q_senders q));
        if r_maxsize msr <? m_ts msg then
          let s := set_woken (set_receivers s (<[t := set_rmsg msr (RErr (- E2BIG))]> (receivers s))) ({[t]} ∪ woken s) in
          pipelined_send s a m msg now rs
        else
          s ← upd_queue s a (fun q => set_received q now (task_pid_vnr t));
          Some (set_woken (set_receivers s (<[t := set_rmsg msr (RMsg m)]> (receivers s))) ({[t]} ∪ woken s), true)
      else pipelined_send s a m msg now rs
  end.

(** How a call ends: with a value, asleep, or with a message. *)
Inductive outcome := Done (ret : Z) | Asleep | Got (mtype : Z) (data : list Z).

(** [out_unlock_free] *)
Definition snd_fail (s : sys) (a m : addr) (err : Z) : option (sys * outcome) :=
  s ← msg_unlock s a;
  s ← free_msg s m;
  Some (s, Done err).

(** No one is waiting for the message. *)
Definition enqueue (s : sys) (a m : addr) (msgsz : Z) : option sys :=
  s ← upd_queue s a (fun q => set_fill (set_lists q (list_add_tail m (q_messages q)) (q_receivers q) (q_senders q))
                                (u32 (q_cbytes q + msgsz)) (u32 (q_qnum q + 1)));
  Some (set_counts s (s32 (msg_bytes s + msgsz)) (s32 (msg_hdrs s + 1))).

(** From the top of the loop in [do_msgsnd], with the queue locked. *)
Definition snd_try (s : sys) (t : task) (a m : addr) (msgflg : Z) : option (sys * outcome) :=
  o ← objs (ipc s) !! a;
  msg ← msgs s !! m;
  let msgsz := m_ts msg in
  if negb (ipcperms (cr t) (perm o) S_IWUGO =? 0) then snd_fail s a m (- EACCES)
  else if negb (sec_msgsnd sec msg msgflg =? 0) then snd_fail s a m (sec_msgsnd sec msg msgflg)
  else if (u32 (msgsz + q_cbytes (body o)) <=? q_qbytes (body o)) && (u32 (1 + q_qnum (body o)) <=? q_qbytes (body o)) then
    s ← upd_queue s a (fun q => set_sent q (now t) (task_tgid_vnr (who t)));
    r ← pipelined_send s a m msg (now t) (q_receivers (body o));
    s ← (match r with (s, true) => Some s | (s, false) => enqueue s a m msgsz end);
    s ← msg_unlock s a;
    Some (s, Done 0)
  else if negb (Z.land msgflg IPC_NOWAIT =? 0) then snd_fail s a m (- EAGAIN)
  else
    s ← upd_queue s a (fun q => set_lists q (q_messages q) (q_receivers q) (list_add_tail (who t) (q_senders q)));
    s ← lift s (ipc_rcu_getref (ipc s) a);
    s ← msg_unlock s a;
    Some (set_woken (set_senders s (<[who t := mk_sender true a m msgflg]> (senders s))) (woken s ∖ {[who t]}), Asleep).

(** What [load_msg] finds: the address for the message, the allocator, the
    security module and the bytes that can be read. *)
Record load_env := mk_load { load_at : addr; load_kmalloc : nat -> bool; load_sec : Z; load_src : list Z }.

Definition do_msgsnd (s : sys) (t : task) (msqid mtype msgsz msgflg : Z) (e : load_env) : option (sys * outcome) :=
  if (msg_ctlmax s <? msgsz) || (s32 msgsz <? 0) || (msqid <? 0) then Some (s, Done (- EINVAL))
  else if mtype <? 1 then Some (s, Done (- EINVAL))
  else
    load ← load_msg (load_kmalloc e) (load_sec e) (load_src e) msgsz mtype;
    match load with
    | inl err => Some (s, Done err)
    | inr msg =>
        let m := load_at e in
        let s := set_msgs s (<[m := msg]> (msgs s)) in
        r ← ipc_lock_check (ipc s) msqid;
        match r with
        | (w, inl err) => s ← free_msg (set_ipc s w) m; Some (s, Done err)
        | (w, inr a) => snd_try (set_ipc s w) t a m msgflg
        end
    end.

(** After [schedule]. *)
Definition snd_wake (s : sys) (t : task) : option (sys * outcome) :=
  mss ← senders s !! who t;
  let a := s_msq mss in
  let s := set_senders s (delete (who t) (senders s)) in
  s ← lift s (ipc_lock_by_ptr (ipc s) a);
  s ← lift s (ipc_rcu_putref (ipc s) a);
  o ← objs (ipc s) !! a;
  if negb (deleted (perm o) =? 0) then snd_fail s a (s_msg mss) (- EIDRM)
  else
    s ← (if linked mss then upd_queue s a (fun q => set_lists q (q_messages q) (q_receivers q) (list_del (who t) (q_senders q)))
         else Some s);
    if signal_pending t then snd_fail s a (s_msg mss) (- ERESTARTNOHAND)
    else snd_try s t a (s_msg mss) (s_msgflg mss).

(** ** Receiving *)

(** The type and the mode; the negation of the least [long] is itself. *)
Definition convert_mode (msgtyp msgflg : Z) : Z * Z :=
  if msgtyp =? 0 then (msgtyp, SEARCH_ANY)
  else if msgtyp <? 0 then (s32 (- msgtyp), SEARCH_LESSEQUAL)
  else if negb (Z.land msgflg MSG_EXCEPT =? 0) then (msgtyp, SEARCH_NOTEQUAL)
  else (msgtyp, SEARCH_EQUAL).

(** The walk over the messages. *)
Fixpoint find_msg (mm : gmap addr msg_msg) (who : tid) (mode : Z) (ms : list addr) (msgtyp : Z) (found : option addr) : option (option addr) :=
  match ms with
  | [] => Some found
  | m :: ms =>
      msg ← mm !! m;
      if testmsg msg msgtyp mode && (sec_msgrcv sec msg who msgtyp mode =? 0) then
        if (mode =? SEARCH_LESSEQUAL) && negb (m_type msg =? 1) then find_msg mm who mode ms (m_type msg - 1) (Some m)
        else Some (Some m)
      else find_msg mm who mode ms msgtyp found
  end.

(** The end of [do_msgrcv], with a message.  [dest] bytes of the user's buffer
    can be written. *)
Definition rcv_deliver (s : sys) (m : addr) (msgsz dest : Z) : option (sys * outcome) :=
  msg ← msgs s !! m;
  let msgsz := if m_ts msg <? msgsz then m_ts msg else msgsz in
  r ← store_msg dest msg msgsz;
  s ← free_msg s m;
  Some (s, match r with Some data => Got (m_type msg) data | None => Done (- EFAULT) end).

Definition rcv_fail (s : sys) (a : addr) (err : Z) : option (sys * outcome) :=
  s ← msg_unlock s a;
  Some (s, Done err).

(** From the top of the loop in [do_msgrcv], with the queue locked. *)
Definition rcv_try (s : sys) (t : task) (a : addr) (msgtyp mode msgsz msgflg dest : Z) : option (sys * outcome) :=
  o ← objs (ipc s) !! a;
  if negb (ipcperms (cr t) (perm o) S_IRUGO =? 0) then rcv_fail s a (- EACCES)
  else
    found ← find_msg (msgs s) (who t) mode (q_messages (body o)) msgtyp None;
    match found with
    | Some m =>
        msg ← msgs s !! m;
        if (msgsz <? m_ts msg) && (Z.land msgflg MSG_NOERROR =? 0) then rcv_fail s a (- E2BIG)
        else
          s ← upd_queue s a (fun q =>
                set_fill (set_received (set_lists q (list_del m (q_messages q)) (q_receivers q) (q_senders q)) (now t) (task_tgid_vnr (who t)))
                  (u32 (q_cbytes q - m_ts msg)) (u32 (q_qnum q - 1)));
          let s := set_counts s (s32 (msg_bytes s - m_ts msg)) (s32 (msg_hdrs s - 1)) in
          s ← ss_wakeup s (q_senders (body o)) false;
          s ← msg_unlock s a;
          rcv_deliver s m msgsz dest
    | None =>
        if negb (Z.land msgflg IPC_NOWAIT =? 0) then rcv_fail s a (- ENOMSG)
        else
          s ← upd_queue s a (fun q => set_lists q (q_messages q) (list_add_tail (who t) (q_receivers q)) (q_senders q));
          let maxsize := if negb (Z.land msgflg MSG_NOERROR =? 0) then INT_MAX else msgsz in
          let msr := mk_receiver mode msgtyp maxsize (RErr (- EAGAIN)) a msgsz msgflg in
          s ← msg_unlock s a;
          Some (set_woken (set_receivers s (<[who t := msr]> (receivers s))) (woken s ∖ {[who t]}), Asleep)
    end.

Definition do_msgrcv (s : sys) (t : task) (msqid msgsz msgtyp msgflg dest : Z) : option (sys * outcome) :=
  if (msqid <? 0) || (s32 msgsz <? 0) then Some (s, Done (- EINVAL))
  else
    let '(msgtyp, mode) := convert_mode msgtyp msgflg in
    r ← ipc_lock_check (ipc s) msqid;
    match r with
    | (w, inl e) => Some (set_ipc s w, Done e)
    | (w, inr a) => rcv_try (set_ipc s w) t a msgtyp mode msgsz msgflg dest
    end.

(** After [schedule]: the lockless receive. *)
Definition rcv_wake (s : sys) (t : task) (dest : Z) : option (sys * outcome) :=
  msr ← receivers s !! who t;
  let s := set_receivers s (delete (who t) (receivers s)) in
  match r_msg msr with
  | RMsg m => rcv_deliver s m (r_msgsz msr) dest
  | RErr e =>
      if e =? - EAGAIN then
        let a := r_msq msr in
        s ← lift s (ipc_lock_by_ptr (rcu_read_lock (ipc s)) a);
        s ← lift s (rcu_read_unlock (ipc s));
        s ← upd_queue s a (fun q => set_lists q (q_messages q) (list_del (who t) (q_receivers q)) (q_senders q));
        if signal_pending t then rcv_fail s a (- ERESTARTNOHAND)
        else rcv_try s t a (r_msgtype msr) (r_mode msr) (r_msgsz msr) (r_msgflg msr) dest
      else Some (s, Done e)
  end.

(** ** Control *)

(** The user's [msqid_ds], in the new format or the old one. *)
Record msqid64_ds := mk_msqid64 {
  msg_perm : ipc64_perm; msg_stime : Z; msg_rtime : Z; msg_ctime : Z; msg_cbytes : Z; msg_qnum : Z; msg_qbytes : Z; msg_lspid : Z; msg_lrpid : Z }.
Record msqid_ds := mk_msqid {
  old_perm : ipc_perm; old_stime : Z; old_rtime : Z; old_ctime : Z; old_lcbytes : Z; old_lqbytes : Z; old_cbytes : Z; old_qnum : Z; old_qbytes : Z;
  old_lspid : Z; old_lrpid : Z }.

Definition short (x : Z) : Z := if USHORT_MAX <? x then USHORT_MAX else x.

Definition msqid_to_old (overflowuid overflowgid : Z) (x : msqid64_ds) : msqid_ds :=
  mk_msqid (ipc64_perm_to_ipc_perm overflowuid overflowgid (msg_perm x)) (msg_stime x) (msg_rtime x) (msg_ctime x) (msg_cbytes x) (msg_qbytes x)
    (short (msg_cbytes x)) (short (msg_qnum x)) (short (msg_qbytes x)) (msg_lspid x) (msg_lrpid x).

(** The permissions and the limit.  Of the permissions the owner and the mode are
    written to [out]; [IPC_SET] looks at nothing else. *)
Definition msqid_from_old (out : ipc64_perm) (x : msqid_ds) : ipc64_perm * Z :=
  (mk_ipc64 (key64 out) (uid16 (old_perm x)) (gid16 (old_perm x)) (cuid64 out) (cgid64 out) (mode16 (old_perm x)) (seq64 out),
   if old_qbytes x =? 0 then old_lqbytes x else old_qbytes x).

(** [IPC_SET] on a locked queue: [out_unlock] with the limit too high. *)
Definition msgctl_set (s : sys) (t : task) (a : addr) (x : ipc64_perm * Z) : option (sys * Z) :=
  if (msg_ctlmnb s <? x.2) && negb (capable (cr t) CAP_SYS_RESOURCE) then s ← msg_unlock s a; Some (s, - EPERM)
  else
    s ← upd_queue s a (fun q => set_limit q (now t) (x.2));
    o ← objs (ipc s) !! a;
    let s := set_ipc s (put_obj (ipc s) a (set_perm o (ipc_update_perm (x.1) (perm o)))) in
    s ← expunge_all s (q_receivers (body o)) (- EAGAIN);
    s ← ss_wakeup s (q_senders (body o)) false;
    s ← msg_unlock s a;
    Some (s, 0).

(** The commands, with the queue locked; it is unlocked at the end. *)
Definition msgctl_locked (s : sys) (t : task) (a : addr) (cmd : Z) (arg : option (ipc64_perm * Z)) : option (sys * Z) :=
  o ← objs (ipc s) !! a;
  let err := sec_msgctl sec (Some o) cmd in
  if negb (err =? 0) then s ← msg_unlock s a; Some (s, err)
  else if cmd =? IPC_RMID then s ← freeque s a; Some (s, 0)
  else if cmd =? IPC_SET then x ← arg; msgctl_set s t a x
  else s ← msg_unlock s a; Some (s, - EINVAL).

(** [arg] is what [copy_msqid_from_user] read. *)
Definition msgctl_down (s : sys) (t : task) (msqid cmd : Z) (arg : option (ipc64_perm * Z)) : option (sys * Z) :=
  if (cmd =? IPC_SET) && match arg with None => true | Some _ => false end then Some (s, - EFAULT)
  else
    r ← ipcctl_pre_down (cr t) (ipc s) msqid;
    match r with
    | (w, inl e) => Some (set_ipc s w, e)
    | (w, inr a) =>
        r ← msgctl_locked (set_ipc s w) t a cmd arg;
        s ← lift (r.1) (up_write (ipc (r.1)));
        Some (s, r.2)
    end.

Record msginfo := mk_msginfo { msgpool : Z; msgmap : Z; msgmax : Z; msgmnb : Z; msgmni : Z; msgssz : Z; msgtql : Z; msgseg : Z }.

(** What is copied to the user. *)
Inductive ctl_data := NoData | InfoData (i : msginfo) | StatData (x : msqid64_ds).

Definition stat_of (o : ipc_obj msg_queue) : msqid64_ds :=
  let q := body o in
  mk_msqid64 (kernel_to_ipc64_perm (perm o)) (q_stime q) (q_rtime q) (q_ctime q) (q_cbytes q) (q_qnum q) (q_qbytes q) (q_lspid q) (q_lrpid q).

(** [buf] is the user's pointer: NULL, or whether it can be written. *)
Definition msgctl (s : sys) (t : task) (msqid cmd : Z) (buf : option bool) (arg : option (ipc64_perm * Z)) : option (sys * Z * ctl_data) :=
  if (msqid <? 0) || (cmd <? 0) then Some (s, - EINVAL, NoData)
  else
    let cmd := (ipc_parse_version cmd).1 in
    if (cmd =? IPC_INFO) || (cmd =? MSG_INFO) then
      match buf with
      | None => Some (s, - EFAULT, NoData)
      | Some ok =>
          let err := sec_msgctl sec None cmd in
          if negb (err =? 0) then Some (s, err, NoData)
          else
            s ← lift s (down_read (ipc s));
            let info :=
              if cmd =? MSG_INFO then mk_msginfo (in_use (ids (ipc s))) (msg_hdrs s) (msg_ctlmax s) (msg_ctlmnb s) (msg_ctlmni s) MSGSSZ (msg_bytes s) MSGSEG
              else mk_msginfo MSGPOOL MSGMAP (msg_ctlmax s) (msg_ctlmnb s) (msg_ctlmni s) MSGSSZ MSGTQL MSGSEG in
            max_id ← ipc_get_maxid (ipc s);
            s ← lift s (up_read (ipc s));
            Some (if ok then (s, if max_id <? 0 then 0 else max_id, InfoData info) else (s, - EFAULT, NoData))
      end
    else if (cmd =? MSG_STAT) || (cmd =? IPC_STAT) then
      match buf with
      | None => Some (s, - EFAULT, NoData)
      | Some ok =>
          r ← (if cmd =? MSG_STAT then ipc_lock (ipc s) msqid else ipc_lock_check (ipc s) msqid);
          match r with
          | (w, inl e) => Some (set_ipc s w, e, NoData)
          | (w, inr a) =>
              o ← objs w !! a;
              let success_return := if cmd =? MSG_STAT then perm_id (perm o) else 0 in
              let err := sec_msgctl sec (Some o) cmd in
              s ← msg_unlock (set_ipc s w) a;
              Some (if negb (ipcperms (cr t) (perm o) S_IRUGO =? 0) then (s, - EACCES, NoData)
                    else if negb (err =? 0) then (s, err, NoData)
                    else if ok then (s, success_return, StatData (stat_of o)) else (s, - EFAULT, NoData))
          end
      end
    else if (cmd =? IPC_SET) || (cmd =? IPC_RMID) then
      r ← msgctl_down s t msqid cmd arg;
      Some (r.1, r.2, NoData)
    else Some (s, - EINVAL, NoData).

End msg.

End Msg.
