(* ===== verification/MsgInv.v ===== *)
(** * Message queues: what holds between the calls

    Every message in memory has one owner: the queue it is in, the task that
    sleeps with it in [msgsnd], or the one it was handed to in [msgrcv].  The
    counters, the reference counts and the lists of sleeping tasks agree with the
    owners, and no task sleeps while a message it could take is in the queue. *)

From Stdlib Require Import ZArith Lia.
From stdpp Require Import base option gmap fin_maps fin_sets list list_numbers.
From S2P Require Import Prelude Idr IdrInv IdrAlloc IdrGet IdrSpec Ipc IpcSpec Msg.

Local Open Scope Z_scope.
Local Open Scope kernel_scope.

Module MsgText.
Import Ipc Msg.

(** ** The parts of a message *)

(** The segments of a text of [len] bytes. *)
Fixpoint segs_ok (segs : list (list Z)) (len : Z) : Prop :=
  match segs with
  | [] => len = 0
  | seg :: segs => 0 < len /\ Z.of_nat (length seg) = Z.min len DATALEN_SEG /\ segs_ok segs (len - Z.min len DATALEN_SEG)
  end.

Definition text_ok (msg : msg_msg) : Prop :=
  0 <= m_ts msg /\ Z.of_nat (length (text msg)) = Z.min (m_ts msg) DATALEN_MSG /\ segs_ok (next msg) (m_ts msg - Z.min (m_ts msg) DATALEN_MSG).

(** All bytes of a message. *)
Definition bytes (msg : msg_msg) : list Z := text msg ++ concat (next msg).

Lemma part_min len d : (if d <? len then d else len) = Z.min len d.
Proof. destruct (Z.ltb_spec d len); lia. Qed.

Lemma segs_len segs len : segs_ok segs len -> Z.of_nat (length (concat segs)) = len.
Proof.
  revert len. induction segs as [|seg segs IH]; intros len; simpl; [intros ->; done|].
  intros (Hl & Hs & H). rewrite length_app, Nat2Z.inj_add, (IH _ H). lia.
Qed.

Lemma bytes_len msg : text_ok msg -> Z.of_nat (length (bytes msg)) = m_ts msg.
Proof. intros (H0 & H1 & H2%segs_len). unfold bytes. rewrite length_app, Nat2Z.inj_add, H2. lia. Qed.

Lemma load_segs_ok fuel km k src len : 0 <= len -> len <= Z.of_nat fuel ->
  exists r, load_segs fuel km k src len = Some r /\
    match r with
    | inr segs => segs_ok segs len /\ concat segs = take (Z.to_nat len) src /\ len <= Z.of_nat (length src)
    | inl e => e = - EFAULT \/ e = - ENOMEM
    end.
Proof.
  revert k src len. induction fuel as [|fuel IH]; intros k src len H0 Hf; cbn [load_segs];
    (destruct (Z.ltb_spec 0 len); [|exists (inr []); split; [done|]; simpl; replace (Z.to_nat len) with 0%nat by lia; simpl; split_and!; [lia|done|lia]]); [lia|].
  rewrite part_min. destruct (km k); [|eexists; split; [done|by right]].
  destruct (Z.ltb_spec (Z.of_nat (length src)) (Z.min len DATALEN_SEG)); [eexists; split; [done|by left]|].
  assert (0 < Z.min len DATALEN_SEG <= len) as Hmin by (unfold DATALEN_SEG, PAGE_SIZE; lia).
  destruct (IH (S k) (drop (Z.to_nat (Z.min len DATALEN_SEG)) src) (len - Z.min len DATALEN_SEG)) as ([e|segs] & Hr & Hok); [lia|lia| |];
    rewrite Hr; cbn [mbind option_bind]; eexists; (split; [done|]); [done|].
  destruct Hok as (Ha & Hb & Hc). rewrite length_drop in Hc. simpl. split_and!; [lia| |done| |lia].
  - rewrite length_take. lia.
  - rewrite Hb. replace (Z.to_nat (len - Z.min len DATALEN_SEG)) with (Z.to_nat len - Z.to_nat (Z.min len DATALEN_SEG))%nat by lia.
    rewrite take_take_drop. f_equal. lia.
Qed.

Lemma load_msg_ok km sa src len mtype : 0 <= len -> exists r, load_msg km sa src len mtype = Some r /\
  match r with
  | inr msg => text_ok msg /\ m_ts msg = len /\ m_type msg = mtype /\ bytes msg = take (Z.to_nat len) src
  | inl e => e = - EFAULT \/ e = - ENOMEM \/ e = sa /\ sa <> 0
  end.
Proof.
  intros H0. unfold load_msg. rewrite part_min. destruct (km 0%nat); [|eexists; split; [done|by right; left]].
  destruct (Z.ltb_spec (Z.of_nat (length src)) (Z.min len DATALEN_MSG)); [eexists; split; [done|by left]|].
  assert (0 <= Z.min len DATALEN_MSG <= len) as Hmin by (unfold DATALEN_MSG, PAGE_SIZE; lia).
  destruct (load_segs_ok (Z.to_nat len) km 1 (drop (Z.to_nat (Z.min len DATALEN_MSG)) src) (len - Z.min len DATALEN_MSG)) as ([e|segs] & Hr & Hok);
    [lia|lia| |]; rewrite Hr; cbn [mbind option_bind]; eexists; (split; [done|]); [naive_solver|].
  destruct Hok as (Ha & Hb & Hc). rewrite length_drop in Hc. destruct (Z.eqb_spec sa 0); [|auto]. unfold text_ok, bytes. simpl. split_and!; try done.
  - rewrite length_take. lia.
  - rewrite Hb. replace (Z.to_nat (len - Z.min len DATALEN_MSG)) with (Z.to_nat len - Z.to_nat (Z.min len DATALEN_MSG))%nat by lia.
    rewrite take_take_drop. f_equal. lia.
Qed.

Lemma store_segs_ok fuel dest segs len total : segs_ok segs total -> 0 <= len <= total -> len <= Z.of_nat fuel ->
  store_segs fuel dest segs len = Some (if (0 <? len) && (dest <? len) then None else Some (take (Z.to_nat len) (concat segs))).
Proof.
  revert dest segs len total. induction fuel as [|fuel IH]; intros dest segs len total Hs Hl Hf; cbn [store_segs];
    (destruct (Z.ltb_spec 0 len); [|replace (Z.to_nat len) with 0%nat by lia; done]); [lia|].
  destruct segs as [|seg segs]; simpl in Hs; [lia|]. destruct Hs as (Ht & Hseg & Hs). rewrite part_min.
  assert (0 < Z.min len DATALEN_SEG <= len) as Hmin by (unfold DATALEN_SEG, PAGE_SIZE; lia).
  rewrite (proj2 (Z.ltb_ge _ _)) by lia. destruct (Z.ltb_spec dest (Z.min len DATALEN_SEG)).
  { rewrite (proj2 (Z.ltb_lt dest len)) by lia. done. }
  destruct (decide (len <= DATALEN_SEG)) as [Hle|Hgt].
  - rewrite (IH _ _ _ (total - Z.min total DATALEN_SEG)) by (done || lia).
    replace (len - Z.min len DATALEN_SEG) with 0 by lia. cbn [mbind option_bind andb Z.ltb Z.compare]. simpl.
    rewrite (proj2 (Z.ltb_ge dest len)) by lia. rewrite app_nil_r, take_app_le by lia. by replace (Z.min len DATALEN_SEG) with len by lia.
  - rewrite (IH _ _ _ (total - Z.min total DATALEN_SEG)) by (done || lia). cbn [mbind option_bind].
    rewrite (proj2 (Z.ltb_lt 0 (len - _))) by lia. simpl andb.
    destruct (Z.ltb_spec (dest - Z.min len DATALEN_SEG) (len - Z.min len DATALEN_SEG)).
    + rewrite (proj2 (Z.ltb_lt dest len)) by lia. done.
    + rewrite (proj2 (Z.ltb_ge dest len)) by lia. cbn [mbind option_bind]. do 2 f_equal. simpl. rewrite take_app_ge by lia. f_equal.
      * apply take_ge. lia.
      * f_equal. lia.
Qed.

Lemma store_msg_ok dest msg len : text_ok msg -> len <= m_ts msg -> 0 <= dest ->
  store_msg dest msg len = Some (if dest <? len then None else Some (take (Z.to_nat len) (bytes msg))).
Proof.
  intros (Ht0 & Ht & Hs) Hl Hd. unfold store_msg. rewrite part_min. destruct (decide (0 <= len)) as [Hpos|Hneg].
  2:{ unfold DATALEN_MSG, PAGE_SIZE. rewrite (Z.min_l len) by lia. rewrite !(proj2 (Z.ltb_ge _ len)) by lia. rewrite Z.sub_diag.
      replace (Z.to_nat len) with 0%nat by lia. done. }
  assert (0 <= Z.min len DATALEN_MSG <= len) as Hmin by (unfold DATALEN_MSG, PAGE_SIZE; lia).
  rewrite (proj2 (Z.ltb_ge (Z.of_nat (length (text msg))) _)) by lia. destruct (Z.ltb_spec dest (Z.min len DATALEN_MSG)).
  { rewrite (proj2 (Z.ltb_lt dest len)) by lia. done. }
  rewrite (store_segs_ok _ _ _ _ _ Hs) by lia. cbn [mbind option_bind]. unfold bytes. destruct (decide (len <= DATALEN_MSG)) as [Hle|Hgt].
  - replace (len - Z.min len DATALEN_MSG) with 0 by lia. simpl. rewrite (proj2 (Z.ltb_ge dest len)) by lia.
    rewrite app_nil_r, take_app_le by lia. by replace (Z.min len DATALEN_MSG) with len by lia.
  - rewrite (proj2 (Z.ltb_lt 0 (len - _))) by lia. simpl andb.
    destruct (Z.ltb_spec (dest - Z.min len DATALEN_MSG) (len - Z.min len DATALEN_MSG)).
    + rewrite (proj2 (Z.ltb_lt dest len)) by lia. done.
    + rewrite (proj2 (Z.ltb_ge dest len)) by lia. cbn [mbind option_bind]. do 2 f_equal. rewrite take_app_ge by lia. f_equal.
      * apply take_ge. lia.
      * f_equal. lia.
Qed.

End MsgText.

Module MsgInv.
Import Idr Ipc IpcTable Msg MsgText.

(** ** Sums over maps *)

Section wsum.
Context {A : Type} (f : A -> Z).
Implicit Types m : gmap positive A.

Definition wsum m : Z := map_fold (fun _ x n => f x + n) 0 m.

Lemma wsum_insert m k x : m !! k = None -> wsum (<[k := x]> m) = f x + wsum m.
Proof. intros Hk. unfold wsum. rewrite map_fold_insert_L; [done| |done]. intros. lia. Qed.

Lemma wsum_delete m k x : m !! k = Some x -> wsum (delete k m) = wsum m - f x.
Proof.
  intros Hk. rewrite <- (insert_delete_id m k x Hk) at 2. rewrite wsum_insert by apply lookup_delete_eq. lia.
Qed.

Lemma wsum_update m k x y : m !! k = Some x -> wsum (<[k := y]> m) = wsum m - f x + f y.
Proof.
  intros Hk. rewrite <- insert_delete_eq, wsum_insert by apply lookup_delete_eq. rewrite (wsum_delete m k x Hk). lia.
Qed.

Lemma wsum_nonneg m : (forall x, 0 <= f x) -> 0 <= wsum m.
Proof.
  intros Hf. unfold wsum. apply (map_fold_weak_ind (fun n _ => 0 <= n)); [lia|]. intros k x m' n _ Hn. pose proof (Hf x). lia.
Qed.

Lemma wsum_ge m k x : (forall x, 0 <= f x) -> m !! k = Some x -> f x <= wsum m.
Proof. intros Hf Hk. pose proof (wsum_nonneg (delete k m) Hf). rewrite (wsum_delete m k x Hk) in *. lia. Qed.

End wsum.

(** ** Owners *)

Inductive owner := InQueue (a : addr) | WithSender (t : tid) | WithReceiver (t : tid).
Notation mail := (gmap addr (owner * msg_msg)).

Definition queued (f : msg_msg -> Z) (x : owner * msg_msg) : Z := match x.1 with InQueue _ => f x.2 | _ => 0 end.
Definition one (_ : msg_msg) : Z := 1.

(** The bytes of the messages of a list. *)
Fixpoint lsum (K : mail) (ms : list addr) : Z :=
  match ms with [] => 0 | m :: ms => default 0 ((fun x => m_ts x.2) <$> K !! m) + lsum K ms end.

Definition sleeps_on (a : addr) (x : sender) : Z := if decide (s_msq x = a) then 1 else 0.
Definition sleepers (X : gmap tid sender) (a : addr) : Z := wsum (sleeps_on a) X.

Lemma sleeps_nonneg a x : 0 <= sleeps_on a x.
Proof. unfold sleeps_on. case_decide; lia. Qed.

Lemma sleepers_nonneg X a : 0 <= sleepers X a.
Proof. apply wsum_nonneg, sleeps_nonneg. Qed.

Lemma sleepers_ge X t x : X !! t = Some x -> 1 <= sleepers X (s_msq x).
Proof.
  intros Hx. pose proof (wsum_ge (sleeps_on (s_msq x)) X t x (sleeps_nonneg _) Hx) as Hw.
  unfold sleeps_on in Hw at 1. by rewrite decide_True in Hw.
Qed.

Definition live (T : gmap Z addr) (a : addr) : Prop := exists i, T !! i = Some a.

Section inv.
Context (sec : security).

(** The receiver would take the message. *)
Definition accepts (t : tid) (r : receiver) (msg : msg_msg) : bool :=
  testmsg msg (r_msgtype r) (r_mode r) && (sec_msgrcv sec msg t (r_msgtype r) (r_mode r) =? 0).

Definition waits (r : receiver) (a : addr) : Prop := r_msq r = a /\ r_msg r = RErr (- EAGAIN).

Record queue_ok (K : mail) (R : gmap tid receiver) (X : gmap tid sender) (a : addr) (q : msg_queue) : Prop := {
  qo_bytes : q_cbytes q = u32 (lsum K (q_messages q));
  qo_num : q_qnum q = u32 (Z.of_nat (length (q_messages q)));
  qo_nodup : NoDup (q_messages q);
  qo_mail : forall m, m ∈ q_messages q <-> exists msg, K !! m = Some (InQueue a, msg);
  qo_rnodup : NoDup (q_receivers q);
  qo_rcv : forall t, t ∈ q_receivers q <-> exists r, R !! t = Some r /\ waits r a;
  qo_snodup : NoDup (q_senders q);
  qo_snd : forall t, t ∈ q_senders q <-> exists x, X !! t = Some x /\ s_msq x = a;
  qo_linked : forall t x, X !! t = Some x -> s_msq x = a -> linked x = true;
  qo_idle : forall t r m msg, R !! t = Some r -> waits r a -> K !! m = Some (InQueue a, msg) -> accepts t r msg = false }.

Record sys_ok (s : sys) (T : gmap Z addr) (K : mail) : Prop := {
  s_table : table_ok (ipc s) T;
  s_calm : calm (ipc s);
  s_msgs : msgs s = snd <$> K;
  s_text : forall m x, K !! m = Some x -> text_ok x.2 /\ 1 <= m_type x.2;
  s_bytes : msg_bytes s = s32 (wsum (queued m_ts) K);
  s_hdrs : msg_hdrs s = s32 (wsum (queued one) K);
  s_live : forall a o, live T a -> objs (ipc s) !! a = Some o ->
    refcount o = 1 + sleepers (senders s) a /\ queue_ok K (receivers s) (senders s) a (body o);
  s_dead : forall a o, ~ live T a -> objs (ipc s) !! a = Some o ->
    refcount o = sleepers (senders s) a /\ 1 <= refcount o /\ deleted (perm o) <> 0;
  s_inq : forall m a msg, K !! m = Some (InQueue a, msg) -> live T a;
  s_snd : forall t m, (exists msg, K !! m = Some (WithSender t, msg)) <-> exists x, senders s !! t = Some x /\ s_msg x = m;
  s_rcv : forall t m, (exists msg, K !! m = Some (WithReceiver t, msg)) <-> exists r, receivers s !! t = Some r /\ r_msg r = RMsg m;
  s_sobj : forall t x, senders s !! t = Some x -> is_Some (objs (ipc s) !! s_msq x);
  s_wait : forall t r a, receivers s !! t = Some r -> waits r a -> live T a;
  s_keys : forall a b oa ob, live T a -> live T b -> objs (ipc s) !! a = Some oa -> objs (ipc s) !! b = Some ob ->
    key (perm oa) = key (perm ob) -> key (perm oa) <> IPC_PRIVATE -> a = b }.

Lemma live_obj s T a : table_ok (ipc s) T -> live T a -> exists o, objs (ipc s) !! a = Some o /\ deleted (perm o) = 0.
Proof. intros HT [i Hi]. destruct (t_obj _ _ HT i a Hi) as (o & Ho & Hok). exists o. split; [done|apply Hok]. Qed.

Lemma lsum_frame (K K' : mail) ms : (forall m, m ∈ ms -> K' !! m = K !! m) -> lsum K' ms = lsum K ms.
Proof.
  induction ms as [|m ms IH]; intros H; simpl; [done|]. rewrite H by left. rewrite IH; [done|]. intros m' Hm'. apply H. by right.
Qed.

(** Nothing changed for a queue. *)
Lemma queue_frame K K' R R' X X' a q :
  (forall m msg, K' !! m = Some (InQueue a, msg) <-> K !! m = Some (InQueue a, msg)) ->
  (forall t r, waits r a -> R' !! t = Some r <-> R !! t = Some r) ->
  (forall t x, s_msq x = a -> X' !! t = Some x <-> X !! t = Some x) ->
  queue_ok K R X a q -> queue_ok K' R' X' a q.
Proof.
  intros HK HR HX [H1 H2 H3 H4 H5 H6 H7 H8 H9 H10]. constructor; try done.
  - rewrite (lsum_frame K K'); [done|]. intros m [msg Hm]%H4. rewrite Hm. by apply HK.
  - intros m. rewrite H4. split; intros [msg Hm]; exists msg; by apply HK.
  - intros t. rewrite H6. split; intros (r & Hr & Hw); exists r; (split; [by apply HR|done]).
  - intros t. rewrite H8. split; intros (x & Hx & Ha); exists x; (split; [by apply HX|done]).
  - intros t x Hx Ha. apply (H9 t x); [by apply HX|done].
  - intros t r m msg Hr Hw Hm. apply (H10 t r m msg); [by apply HR|done|by apply HK].
Qed.

(** ** Changing one queue *)

(** The other queues do not see the change. *)
Record others_same (a : addr) (K K' : mail) (R R' : gmap tid receiver) (X X' : gmap tid sender) : Prop := {
  os_K : forall b m msg, b <> a -> K' !! m = Some (InQueue b, msg) <-> K !! m = Some (InQueue b, msg);
  os_R : forall b t r, b <> a -> waits r b -> R' !! t = Some r <-> R !! t = Some r;
  os_X : forall b t x, b <> a -> s_msq x = b -> X' !! t = Some x <-> X !! t = Some x;
  os_N : forall b, b <> a -> sleepers X' b = sleepers X b }.

Lemma others_refl a K R X : others_same a K K R R X X.
Proof. by constructor. Qed.

Lemma sys_update s s' T K K' a o o' :
  sys_ok s T K -> live T a -> objs (ipc s) !! a = Some o -> ipc s' = put_obj (ipc s) a o' -> same_ident o o' -> lock (perm o') = false ->
  others_same a K K' (receivers s) (receivers s') (senders s) (senders s') ->
  msgs s' = snd <$> K' -> (forall m x, K' !! m = Some x -> text_ok x.2 /\ 1 <= m_type x.2) ->
  msg_bytes s' = s32 (wsum (queued m_ts) K') -> msg_hdrs s' = s32 (wsum (queued one) K') ->
  refcount o' = 1 + sleepers (senders s') a -> queue_ok K' (receivers s') (senders s') a (body o') ->
  (forall t m, (exists msg, K' !! m = Some (WithSender t, msg)) <-> exists x, senders s' !! t = Some x /\ s_msg x = m) ->
  (forall t m, (exists msg, K' !! m = Some (WithReceiver t, msg)) <-> exists r, receivers s' !! t = Some r /\ r_msg r = RMsg m) ->
  sys_ok s' T K'.
Proof.
  intros Hs Ha Ho Hipc Hsame Hlock [F1 F2 F3 F4] H1 H2 H3 H4 H5 H6 H7 H8.
  assert (1 <= refcount o') as Hrc.
  { rewrite H5. pose proof (sleepers_nonneg (senders s') a). lia. }
  assert (forall b, objs (ipc s') !! b = if decide (a = b) then Some o' else objs (ipc s) !! b) as Hobj.
  { intros b. rewrite Hipc. simpl. case_decide as Hd; [subst b; by rewrite lookup_insert_eq|by rewrite lookup_insert_ne]. }
  destruct Hsame as (I1 & I2 & I3 & I4). constructor; try done.
  - rewrite Hipc. apply (table_put _ _ a o o'); [apply Hs|done|by split_and!|done].
  - rewrite Hipc. apply calm_put; [apply Hs|done].
  - intros b ob Hb. rewrite Hobj. case_decide as Hd; [intros [= <-]; by subst b|]. intros Hob.
    destruct (s_live _ _ _ Hs b ob Hb Hob) as [E1 E2]. rewrite F4 by done. split; [done|].
    apply (queue_frame K K' (receivers s) (receivers s') (senders s) (senders s')); [| | |done]; intros; [by apply F1|by apply (F2 b)|by apply (F3 b)].
  - intros b ob Hb. rewrite Hobj. case_decide as Hd; [by subst b|]. intros Hob. rewrite F4 by done. by apply (s_dead _ _ _ Hs).
  - intros m b msg Hm. destruct (decide (b = a)) as [->|Hd]; [done|]. by apply (s_inq _ _ _ Hs m b msg), F1.
  - intros t x Hx. rewrite Hobj. case_decide as Hd; [done|]. apply (s_sobj _ _ _ Hs t). by apply (F3 (s_msq x)).
  - intros t r b Hr Hw. destruct (decide (b = a)) as [->|Hd]; [done|]. apply (s_wait _ _ _ Hs t r b); [by apply (F2 b)|done].
  - assert (forall b ob, objs (ipc s') !! b = Some ob -> exists ob0, objs (ipc s) !! b = Some ob0 /\ key (perm ob0) = key (perm ob)) as Hk.
    { intros b ob. rewrite Hobj. case_decide as Hd; [intros [= <-]; subst b; by exists o|]. intros Hob. by exists ob. }
    intros b c ob oc Hb Hc (ob0 & Hob & Ekb)%Hk (oc0 & Hoc & Ekc)%Hk Hkey Hnp.
    apply (s_keys _ _ _ Hs b c ob0 oc0); [done..|congruence|congruence].
Qed.

(** ** Steps of one queue *)

Lemma s32_mod x y : u32 x = u32 y -> s32 x = s32 y.
Proof. intros H. by rewrite <- (s32_u32 x), H, s32_u32. Qed.

Lemma s32_add x y : s32 (s32 x + y) = s32 (x + y).
Proof. apply s32_mod. rewrite <- (u32_add_l (s32 x)), u32_s32. apply u32_add_l. Qed.

Lemma s32_sub x y : s32 (s32 x - y) = s32 (x - y).
Proof. apply s32_mod. rewrite <- (u32_sub_l (s32 x)), u32_s32. apply u32_sub_l. Qed.

Definition same_mail (q q' : msg_queue) : Prop :=
  q_messages q' = q_messages q /\ q_cbytes q' = q_cbytes q /\ q_qnum q' = q_qnum q /\ q_senders q' = q_senders q.

(** A receiver leaves the list. *)
Lemma queue_rcv_leaves K R R' X a q q' t : queue_ok K R X a q -> same_mail q q' -> q_receivers q' = list_del t (q_receivers q) ->
  (forall t', t' <> t -> R' !! t' = R !! t') -> (forall r', R' !! t = Some r' -> r_msg r' <> RErr (- EAGAIN)) -> queue_ok K R' X a q'.
Proof.
  intros [H1 H2 H3 H4 H5 H6 H7 H8 H9 H10] (M1 & M2 & M3 & M4) Hr HR Ht.
  assert (forall t' r', waits r' a -> R' !! t' = Some r' <-> R !! t' = Some r' /\ t' <> t) as Hw.
  { intros t' r' Hw. destruct (decide (t' = t)) as [->|Hn]; [|rewrite HR by done; tauto]. split; [|tauto].
    intros Hr'. by destruct (Ht r' Hr' (proj2 Hw)). }
  constructor; rewrite ?M1, ?M2, ?M3, ?M4, ?Hr; try done.
  - by apply NoDup_list_del.
  - intros t'. rewrite elem_of_list_del, H6. split.
    + intros ((r' & Hr' & Hw') & Hn). exists r'. split; [by apply Hw|done].
    + intros (r' & Hr' & Hw'). apply Hw in Hr' as [Hr' Hn]; [|done]. split; [by exists r'|done].
  - intros t' r' m msg Hr' Hw' Hm. apply (H10 t' r' m msg); [by apply Hw|done|done].
Qed.

Lemma queue_rcv_enters K R X a q q' t r : queue_ok K R X a q -> same_mail q q' -> q_receivers q' = list_add_tail t (q_receivers q) ->
  R !! t = None -> waits r a -> (forall m msg, K !! m = Some (InQueue a, msg) -> accepts t r msg = false) ->
  queue_ok K (<[t := r]> R) X a q'.
Proof.
  intros [H1 H2 H3 H4 H5 H6 H7 H8 H9 H10] (M1 & M2 & M3 & M4) Hr Hn Hw Hacc. constructor; rewrite ?M1, ?M2, ?M3, ?M4, ?Hr; try done.
  - apply NoDup_app. split_and!; [done| |apply NoDup_singleton]. intros t' Ht' ->%list_elem_of_singleton.
    apply H6 in Ht' as (r' & Hr' & _). congruence.
  - intros t'. unfold list_add_tail. rewrite elem_of_app, list_elem_of_singleton, H6. split.
    + intros [(r' & Hr' & Hw')| ->].
      * exists r'. split; [|done]. rewrite lookup_insert_ne; [done|]. intros <-. congruence.
      * exists r. by rewrite lookup_insert_eq.
    + intros (r' & Hr' & Hw'). destruct (decide (t = t')) as [<-|Hd]; [by right|]. rewrite lookup_insert_ne in Hr' by done. left. by exists r'.
  - intros t' r' m msg. destruct (decide (t = t')) as [<-|Hd].
    + rewrite lookup_insert_eq. intros [= <-] _. apply Hacc.
    + rewrite lookup_insert_ne by done. apply H10.
Qed.

Lemma lsum_app K ms ms' : lsum K (ms ++ ms') = lsum K ms + lsum K ms'.
Proof. induction ms as [|m ms IH]; simpl; lia. Qed.

Lemma queue_enqueue (K : mail) R X a q q' m msg : queue_ok K R X a q -> K !! m = None -> q_messages q' = list_add_tail m (q_messages q) ->
  q_cbytes q' = u32 (q_cbytes q + m_ts msg) -> q_qnum q' = u32 (q_qnum q + 1) -> q_senders q' = q_senders q -> q_receivers q' = q_receivers q ->
  (forall t r, R !! t = Some r -> waits r a -> accepts t r msg = false) -> queue_ok (<[m := (InQueue a, msg)]> K) R X a q'.
Proof.
  intros [H1 H2 H3 H4 H5 H6 H7 H8 H9 H10] Hm M1 M2 M3 M4 M5 Hacc.
  assert (m ∉ q_messages q) as Hnew by (intros [msg' Hm']%H4; congruence).
  constructor; rewrite ?M1, ?M2, ?M3, ?M4, ?M5; unfold list_add_tail; try done.
  - rewrite H1, u32_add_l, lsum_app. simpl. rewrite lookup_insert_eq. simpl. rewrite (lsum_frame K (<[m := (InQueue a, msg)]> K) (q_messages q)); [f_equal; lia|].
    intros m' Hm'. apply lookup_insert_ne. congruence.
  - rewrite H2, u32_add_l, length_app. f_equal. simpl. lia.
  - apply NoDup_app. split_and!; [done| |apply NoDup_singleton]. by intros m' Hm' ->%list_elem_of_singleton.
  - intros m'. rewrite elem_of_app, list_elem_of_singleton, H4. destruct (decide (m = m')) as [<-|Hd].
    + rewrite lookup_insert_eq. split; [|by right]. intros _. by exists msg.
    + rewrite lookup_insert_ne by done. split; [intros [?|?]; [done|congruence]|by left].
  - intros t r m' msg' Hr Hw. destruct (decide (m = m')) as [<-|Hd].
    + rewrite lookup_insert_eq. intros [= <-]. by apply Hacc.
    + rewrite lookup_insert_ne by done. by apply (H10 t r).
Qed.

Lemma lsum_del K m x ms : NoDup ms -> m ∈ ms -> K !! m = Some x ->
  lsum (delete m K) (list_del m ms) = lsum K ms - m_ts x.2 /\ Z.of_nat (length (list_del m ms)) = Z.of_nat (length ms) - 1.
Proof.
  intros Hd (l1 & l2 & ->)%list_elem_of_split Hm. apply NoDup_app in Hd as (_ & Hn1 & [Hn2 _]%NoDup_cons).
  assert (m ∉ l1) as Hn3 by (intros Hin; apply (Hn1 m Hin); left).
  rewrite list_del_split by done. rewrite (lsum_frame K (delete m K)).
  - rewrite !lsum_app. simpl. rewrite Hm. simpl. rewrite !length_app. simpl. lia.
  - intros m' Hm'. apply lookup_delete_ne. intros <-. apply elem_of_app in Hm'. tauto.
Qed.

Lemma queue_dequeue (K : mail) R X a q q' m msg : queue_ok K R X a q -> K !! m = Some (InQueue a, msg) -> q_messages q' = list_del m (q_messages q) ->
  q_cbytes q' = u32 (q_cbytes q - m_ts msg) -> q_qnum q' = u32 (q_qnum q - 1) -> q_senders q' = q_senders q -> q_receivers q' = q_receivers q ->
  queue_ok (delete m K) R X a q'.
Proof.
  intros [H1 H2 H3 H4 H5 H6 H7 H8 H9 H10] Hm M1 M2 M3 M4 M5.
  destruct (lsum_del K m _ (q_messages q) H3 ltac:(by apply H4; exists msg) Hm) as [L1 L2].
  constructor; rewrite ?M1, ?M2, ?M3, ?M4, ?M5; try done.
  - by rewrite H1, u32_sub_l, L1.
  - by rewrite H2, u32_sub_l, L2.
  - by apply NoDup_list_del.
  - intros m'. rewrite elem_of_list_del, H4. destruct (decide (m = m')) as [<-|Hd].
    + rewrite lookup_delete_eq. split; [tauto|by intros [? ?]].
    + rewrite lookup_delete_ne by done. split; [tauto|]. intros ?. split; [done|congruence].
  - intros t r m' msg' Hr Hw [_ Hm']%lookup_delete_Some. by apply (H10 t r m').
Qed.

Lemma queue_snd_enters K R X a q q' t x : queue_ok K R X a q -> q_messages q' = q_messages q -> q_cbytes q' = q_cbytes q -> q_qnum q' = q_qnum q ->
  q_receivers q' = q_receivers q -> q_senders q' = list_add_tail t (q_senders q) -> X !! t = None -> s_msq x = a -> linked x = true ->
  queue_ok K R (<[t := x]> X) a q'.
Proof.
  intros [H1 H2 H3 H4 H5 H6 H7 H8 H9 H10] M1 M2 M3 M4 M5 Hn Hx Hl. constructor; rewrite ?M1, ?M2, ?M3, ?M4, ?M5; try done.
  - apply NoDup_app. split_and!; [done| |apply NoDup_singleton]. intros t' Ht' ->%list_elem_of_singleton.
    apply H8 in Ht' as (r' & Hr' & _). congruence.
  - intros t'. unfold list_add_tail. rewrite elem_of_app, list_elem_of_singleton, H8. split.
    + intros [(x' & Hx' & Ha)| ->].
      * exists x'. split; [|done]. rewrite lookup_insert_ne; [done|]. intros <-. congruence.
      * exists x. by rewrite lookup_insert_eq.
    + intros (x' & Hx' & Ha). destruct (decide (t = t')) as [<-|Hd]; [by right|]. rewrite lookup_insert_ne in Hx' by done. left. by exists x'.
  - intros t' x'. destruct (decide (t = t')) as [<-|Hd]; [rewrite lookup_insert_eq; by intros [= <-]|]. rewrite lookup_insert_ne by done. apply H9.
Qed.

Lemma queue_snd_leaves K R X a q q' t : queue_ok K R X a q -> q_messages q' = q_messages q -> q_cbytes q' = q_cbytes q -> q_qnum q' = q_qnum q ->
  q_receivers q' = q_receivers q -> q_senders q' = list_del t (q_senders q) -> queue_ok K R (delete t X) a q'.
Proof.
  intros [H1 H2 H3 H4 H5 H6 H7 H8 H9 H10] M1 M2 M3 M4 M5. constructor; rewrite ?M1, ?M2, ?M3, ?M4, ?M5; try done.
  - by apply NoDup_list_del.
  - intros t'. rewrite elem_of_list_del, H8. split.
    + intros ((x & Hx & Ha) & Hn). exists x. by rewrite lookup_delete_ne.
    + intros (x & [Hn Hx]%lookup_delete_Some & Ha). split; [by exists x|done].
  - intros t' x [_ Hx]%lookup_delete_Some. by apply (H9 t' x).
Qed.

End inv.

End MsgInv.

Module MsgStep.
Import Idr IdrGet Ipc IpcTable Msg MsgText MsgInv.

(** Another object at [a]. *)
Definition upd (s : sys) (a : addr) (o : ipc_obj msg_queue) : sys := set_ipc s (put_obj (ipc s) a o).
(** A message in memory that no one owns yet. *)
Definition carry (s : sys) (m : addr) (msg : msg_msg) : sys := set_msgs s (<[m := msg]> (msgs s)).

Section step.
Context (sec : security).
Implicit Types (s : sys) (T : gmap Z addr).

Lemma ok_woken s T K W : sys_ok sec s T K -> sys_ok sec (set_woken s W) T K.
Proof. intros []. by constructor. Qed.

Lemma ok_rw s T K n : sys_ok sec s T K -> sys_ok sec (set_ipc s (set_rw (ipc s) n)) T K.
Proof. intros []. constructor; try done. by apply table_rw. Qed.

Lemma sleepers_insert X t x a : X !! t = None -> sleepers (<[t := x]> X) a = sleeps_on a x + sleepers X a.
Proof. apply wsum_insert. Qed.

Lemma sleepers_delete X t x a : X !! t = Some x -> sleepers (delete t X) a = sleepers X a - sleeps_on a x.
Proof. apply wsum_delete. Qed.

Section queue.
Context (s : sys) (T : gmap Z addr) (K : gmap addr (owner * msg_msg)) (a : addr) (o : ipc_obj msg_queue).
Context (Hs : sys_ok sec s T K) (Ha : live T a) (Ho : objs (ipc s) !! a = Some o).

Lemma here_ok : refcount o = 1 + sleepers (senders s) a /\ queue_ok sec K (receivers s) (senders s) a (body o).
Proof. by apply (s_live _ _ _ _ Hs). Qed.

Lemma here_ref : 1 <= refcount o.
Proof. rewrite (proj1 here_ok). pose proof (sleepers_nonneg (senders s) a). lia. Qed.

Lemma here_unlocked : lock (perm o) = false.
Proof. apply (proj1 (s_calm _ _ _ _ Hs) a o Ho). Qed.

Lemma mail_free m : msgs s !! m = None <-> K !! m = None.
Proof. rewrite (s_msgs _ _ _ _ Hs), lookup_fmap. destruct (K !! m); done. Qed.

Lemma mail_some m x : K !! m = Some x -> msgs s !! m = Some x.2.
Proof. intros Hm. by rewrite (s_msgs _ _ _ _ Hs), lookup_fmap, Hm. Qed.

(** A change of the queue that leaves messages and tasks alone. *)
Lemma ok_touch q' p' : same_mail (body o) q' -> q_receivers q' = q_receivers (body o) -> same_ident o (set_perm o p') -> lock p' = false ->
  sys_ok sec (upd s a (mk_obj (refcount o) (is_vmalloc o) p' q')) T K.
Proof.
  intros (M1 & M2 & M3 & M4) M5 Hid Hl. destruct here_ok as [Hrc [H1 H2 H3 H4 H5 H6 H7 H8 H9 H10]].
  apply (sys_update sec s _ T K K a o (mk_obj (refcount o) (is_vmalloc o) p' q')); try done; try (by apply Hs).
  constructor; simpl; by rewrite ?M1, ?M2, ?M3, ?M4, ?M5.
Qed.

(** A receiver stops waiting, without a message. *)
Lemma ok_rcv_drop q' t r R' : receivers s !! t = Some r -> waits r a -> same_mail (body o) q' -> q_receivers q' = list_del t (q_receivers (body o)) ->
  (forall t', t' <> t -> R' !! t' = receivers s !! t') ->
  (forall r', R' !! t = Some r' -> exists e, r_msg r' = RErr e /\ e <> - EAGAIN) ->
  sys_ok sec (set_receivers (upd s a (set_body o q')) R') T K.
Proof.
  intros Hr Hw M1 M2 HR Ht. destruct here_ok as [Hrc Hq].
  assert (forall r', R' !! t = Some r' -> r_msg r' <> RErr (- EAGAIN)) as Hne by (intros r' (e & He & Hn)%Ht; congruence).
  apply (sys_update sec s _ T K K a o (set_body o q')); try done; try (by apply Hs); try apply here_unlocked.
  - constructor; try done. intros b t' r' Hb Hw'. simpl. destruct (decide (t' = t)) as [->|]; [|by rewrite HR]. split.
    + intros Hr'. by destruct (Hne r' Hr' (proj2 Hw')).
    + intros Hr'. simplify_eq. destruct Hb. by rewrite <- (proj1 Hw), <- (proj1 Hw').
  - by apply (queue_rcv_leaves sec K (receivers s) R' (senders s) a (body o) q' t).
  - intros t' m. rewrite (s_rcv _ _ _ _ Hs). simpl. destruct (decide (t' = t)) as [->|]; [|by rewrite HR]. split; intros (r' & Hr' & Hm).
    + simplify_eq. rewrite (proj2 Hw) in Hm. done.
    + destruct (Ht r' Hr') as (e & He & _). congruence.
Qed.

(** A receiver is handed a message. *)
Lemma ok_rcv_take q' t r m msg : receivers s !! t = Some r -> waits r a -> same_mail (body o) q' -> q_receivers q' = list_del t (q_receivers (body o)) ->
  msgs s !! m = None -> text_ok msg -> 1 <= m_type msg ->
  sys_ok sec (set_receivers (upd (carry s m msg) a (set_body o q')) (<[t := set_rmsg r (RMsg m)]> (receivers s))) T (<[m := (WithReceiver t, msg)]> K).
Proof.
  intros Hr Hw M1 M2 Hm Htx Hty. destruct here_ok as [Hrc Hq]. apply mail_free in Hm.
  apply (sys_update sec s _ T K _ a o (set_body o q')); try done; try (by apply Hs); try apply here_unlocked.
  - constructor; try done; simpl.
    + intros b m' msg' _. destruct (decide (m = m')) as [<-|]; [rewrite lookup_insert_eq, Hm; done|by rewrite lookup_insert_ne].
    + intros b t' r' Hb Hw'. destruct (decide (t = t')) as [<-|]; [|by rewrite lookup_insert_ne]. rewrite lookup_insert_eq. split.
      * intros [= <-]. by destruct Hw'.
      * intros Hr'. simplify_eq. destruct Hb. by rewrite <- (proj1 Hw), <- (proj1 Hw').
  - simpl. by rewrite fmap_insert, (s_msgs _ _ _ _ Hs).
  - intros m' x. destruct (decide (m = m')) as [<-|]; [rewrite lookup_insert_eq; by intros [= <-]|]. rewrite lookup_insert_ne by done. apply Hs.
  - rewrite wsum_insert by done. apply Hs.
  - rewrite wsum_insert by done. apply Hs.
  - apply (queue_frame sec K _ (<[t := set_rmsg r (RMsg m)]> (receivers s)) _ (senders s)); try done.
    + intros m' msg'. destruct (decide (m = m')) as [<-|]; [rewrite lookup_insert_eq, Hm; done|by rewrite lookup_insert_ne].
    + apply (queue_rcv_leaves sec K (receivers s) _ (senders s) a (body o) q' t); try done.
      * intros t' Hn. by rewrite lookup_insert_ne.
      * rewrite lookup_insert_eq. by intros r' [= <-].
  - intros t' m'. rewrite <- (s_snd _ _ _ _ Hs). destruct (decide (m = m')) as [<-|]; [|by rewrite lookup_insert_ne].
    rewrite lookup_insert_eq, Hm. split; intros [? ?]; done.
  - intros t' m'. simpl. destruct (decide (t = t')) as [<-|Ht].
    + rewrite lookup_insert_eq. destruct (decide (m = m')) as [<-|Hn].
      * rewrite lookup_insert_eq. split; intros _; [by eexists|by exists msg].
      * rewrite lookup_insert_ne by done. rewrite (s_rcv _ _ _ _ Hs).
        split; intros (r' & Hr' & Hm'); simplify_eq; [by rewrite (proj2 Hw) in Hm'|simpl in Hm'; congruence].
    + rewrite (lookup_insert_ne _ t t') by done. rewrite <- (s_rcv _ _ _ _ Hs).
      destruct (decide (m = m')) as [<-|Hn]; [|by rewrite lookup_insert_ne]. rewrite lookup_insert_eq, Hm. split; intros [? ?]; congruence.
Qed.

(** The mail of the other queues is the same if one message of no other queue
    comes or goes. *)
Lemma insert_other (b : addr) m x m' (msg' : msg_msg) : K !! m = None -> x.1 <> InQueue b ->
  <[m := x]> K !! m' = Some (InQueue b, msg') <-> K !! m' = Some (InQueue b, msg').
Proof.
  intros Hm Hx. destruct (decide (m = m')) as [<-|]; [|by rewrite lookup_insert_ne]. rewrite lookup_insert_eq, Hm.
  split; [|done]. intros [= ->]. done.
Qed.

Lemma delete_other (b : addr) m x m' (msg' : msg_msg) : K !! m = Some x -> x.1 <> InQueue b ->
  delete m K !! m' = Some (InQueue b, msg') <-> K !! m' = Some (InQueue b, msg').
Proof.
  intros Hm Hx. destruct (decide (m = m')) as [<-|]; [|by rewrite lookup_delete_ne]. rewrite lookup_delete_eq, Hm.
  split; [done|]. intros [= ->]. done.
Qed.

Lemma insert_text m x : text_ok x.2 -> 1 <= m_type x.2 -> forall m' x', <[m := x]> K !! m' = Some x' -> text_ok x'.2 /\ 1 <= m_type x'.2.
Proof.
  intros H1 H2 m' x'. destruct (decide (m = m')) as [<-|]; [rewrite lookup_insert_eq; by intros [= <-]|]. rewrite lookup_insert_ne by done. apply Hs.
Qed.

Lemma delete_text m m' x' : delete m K !! m' = Some x' -> text_ok x'.2 /\ 1 <= m_type x'.2.
Proof. intros [_ Hx]%lookup_delete_Some. by apply (s_text _ _ _ _ Hs m'). Qed.

Lemma ok_enqueue q' m msg : msgs s !! m = None -> text_ok msg -> 1 <= m_type msg -> q_messages q' = list_add_tail m (q_messages (body o)) ->
  q_cbytes q' = u32 (q_cbytes (body o) + m_ts msg) -> q_qnum q' = u32 (q_qnum (body o) + 1) -> q_senders q' = q_senders (body o) ->
  q_receivers q' = q_receivers (body o) -> (forall t r, receivers s !! t = Some r -> waits r a -> accepts sec t r msg = false) ->
  sys_ok sec (set_counts (upd (carry s m msg) a (set_body o q')) (s32 (msg_bytes s + m_ts msg)) (s32 (msg_hdrs s + 1))) T (<[m := (InQueue a, msg)]> K).
Proof.
  intros Hm Htx Hty M1 M2 M3 M4 M5 Hacc. destruct here_ok as [Hrc Hq]. apply mail_free in Hm.
  apply (sys_update sec s _ T K _ a o (set_body o q')); try done; try (by apply Hs); try apply here_unlocked.
  - constructor; try done; simpl. intros b m' msg' Hb. apply insert_other; [done|]. simpl. congruence.
  - simpl. by rewrite fmap_insert, (s_msgs _ _ _ _ Hs).
  - by apply insert_text.
  - rewrite wsum_insert by done. simpl. rewrite (s_bytes _ _ _ _ Hs), s32_add. f_equal. unfold queued. simpl. lia.
  - rewrite wsum_insert by done. simpl. rewrite (s_hdrs _ _ _ _ Hs), s32_add. f_equal. unfold queued, one. simpl. lia.
  - by apply (queue_enqueue sec K _ _ a (body o)).
  - intros t m'. rewrite <- (s_snd _ _ _ _ Hs). destruct (decide (m = m')) as [<-|]; [|by rewrite lookup_insert_ne].
    rewrite lookup_insert_eq, Hm. split; intros [? ?]; done.
  - intros t m'. rewrite <- (s_rcv _ _ _ _ Hs). destruct (decide (m = m')) as [<-|]; [|by rewrite lookup_insert_ne].
    rewrite lookup_insert_eq, Hm. split; intros [? ?]; done.
Qed.

(** A receiver takes a message out; no one owns it then. *)
Lemma ok_dequeue q' m msg : K !! m = Some (InQueue a, msg) -> q_messages q' = list_del m (q_messages (body o)) ->
  q_cbytes q' = u32 (q_cbytes (body o) - m_ts msg) -> q_qnum q' = u32 (q_qnum (body o) - 1) -> q_senders q' = q_senders (body o) ->
  q_receivers q' = q_receivers (body o) ->
  sys_ok sec (set_counts (set_msgs (upd s a (set_body o q')) (delete m (msgs s))) (s32 (msg_bytes s - m_ts msg)) (s32 (msg_hdrs s - 1))) T (delete m K).
Proof.
  intros Hm M1 M2 M3 M4 M5. destruct here_ok as [Hrc Hq].
  apply (sys_update sec s _ T K _ a o (set_body o q')); try done; try (by apply Hs); try apply here_unlocked.
  - constructor; try done; simpl. intros b m' msg' Hb. apply (delete_other b m _ m' msg' Hm). simpl. congruence.
  - simpl. by rewrite fmap_delete, (s_msgs _ _ _ _ Hs).
  - apply delete_text.
  - rewrite (wsum_delete _ _ _ _ Hm). simpl. by rewrite (s_bytes _ _ _ _ Hs), s32_sub.
  - rewrite (wsum_delete _ _ _ _ Hm). simpl. by rewrite (s_hdrs _ _ _ _ Hs), s32_sub.
  - by apply (queue_dequeue sec K _ _ a (body o) q' m msg).
  - intros t m'. rewrite <- (s_snd _ _ _ _ Hs). destruct (decide (m = m')) as [<-|]; [|by rewrite lookup_delete_ne].
    rewrite lookup_delete_eq, Hm. split; intros [? ?]; done.
  - intros t m'. rewrite <- (s_rcv _ _ _ _ Hs). destruct (decide (m = m')) as [<-|]; [|by rewrite lookup_delete_ne].
    rewrite lookup_delete_eq, Hm. split; intros [? ?]; done.
Qed.

(** A sender goes to sleep with its message, and holds the queue. *)
Lemma ok_snd_sleep t m msg msgflg : senders s !! t = None -> msgs s !! m = None -> text_ok msg -> 1 <= m_type msg ->
  sys_ok sec (set_senders (upd (carry s m msg) a
      (set_refcount (set_body o (set_lists (body o) (q_messages (body o)) (q_receivers (body o)) (list_add_tail t (q_senders (body o))))) (refcount o + 1)))
    (<[t := mk_sender true a m msgflg]> (senders s))) T (<[m := (WithSender t, msg)]> K).
Proof.
  intros Ht Hm Htx Hty. destruct here_ok as [Hrc Hq]. apply mail_free in Hm.
  eapply (sys_update sec s _ T K _ a o); [done..| | | | | | | | | |]; try (by apply Hs); try done; try apply here_unlocked; simpl.
  - constructor; try done; simpl.
    + intros b m' msg' Hb. by apply insert_other.
    + intros b t' x Hb Hx. destruct (decide (t = t')) as [<-|]; [|by rewrite lookup_insert_ne]. rewrite lookup_insert_eq, Ht.
      split; [|done]. intros [= <-]. by destruct Hb.
    + intros b Hb. rewrite sleepers_insert by done. unfold sleeps_on. simpl. by rewrite decide_False.
  - by rewrite fmap_insert, (s_msgs _ _ _ _ Hs).
  - by apply insert_text.
  - rewrite wsum_insert by done. apply Hs.
  - rewrite wsum_insert by done. apply Hs.
  - rewrite sleepers_insert by done. unfold sleeps_on. simpl. rewrite decide_True by done. lia.
  - apply (queue_frame sec K _ (receivers s) _ (<[t := mk_sender true a m msgflg]> (senders s))); try done.
    + intros m' msg'. by apply insert_other.
    + by apply (queue_snd_enters sec K _ (senders s) a (body o)).
  - intros t' m'. destruct (decide (t = t')) as [<-|Hd].
    + rewrite lookup_insert_eq. destruct (decide (m = m')) as [<-|Hn].
      * rewrite lookup_insert_eq. split; intros _; [by eexists|by exists msg].
      * rewrite lookup_insert_ne by done. rewrite (s_snd _ _ _ _ Hs). split; intros (x & Hx & Hm'); [congruence|]. simplify_eq.
    + rewrite (lookup_insert_ne _ t t') by done. rewrite <- (s_snd _ _ _ _ Hs).
      destruct (decide (m = m')) as [<-|Hn]; [|by rewrite lookup_insert_ne]. rewrite lookup_insert_eq, Hm. split; intros [? ?]; congruence.
  - intros t' m'. rewrite <- (s_rcv _ _ _ _ Hs). destruct (decide (m = m')) as [<-|]; [|by rewrite lookup_insert_ne].
    rewrite lookup_insert_eq, Hm. split; intros [? ?]; done.
Qed.

(** It wakes up; no one owns its message then. *)
Lemma ok_snd_wake t x : senders s !! t = Some x -> s_msq x = a ->
  sys_ok sec (set_msgs (set_senders (upd s a
      (set_refcount (set_body o (set_lists (body o) (q_messages (body o)) (q_receivers (body o)) (list_del t (q_senders (body o))))) (refcount o - 1)))
    (delete t (senders s))) (delete (s_msg x) (msgs s))) T (delete (s_msg x) K).
Proof.
  intros Ht Hx. destruct here_ok as [Hrc Hq]. destruct (proj2 (s_snd _ _ _ _ Hs t (s_msg x))) as [msg Hm]; [by exists x|].
  eapply (sys_update sec s _ T K _ a o); [done..| | | | | | | | | |]; try (by apply Hs); try done; try apply here_unlocked; simpl.
  - constructor; try done; simpl.
    + intros b m' msg' Hb. by apply (delete_other b _ _ _ _ Hm).
    + intros b t' x' Hb Hx'. destruct (decide (t = t')) as [<-|]; [|by rewrite lookup_delete_ne]. rewrite lookup_delete_eq, Ht.
      split; [done|]. intros [= ->]. congruence.
    + intros b Hb. rewrite (sleepers_delete _ _ _ _ Ht). unfold sleeps_on. rewrite decide_False by congruence. lia.
  - by rewrite fmap_delete, (s_msgs _ _ _ _ Hs).
  - apply delete_text.
  - rewrite (wsum_delete _ _ _ _ Hm). unfold queued at 2. simpl. rewrite Z.sub_0_r. apply Hs.
  - rewrite (wsum_delete _ _ _ _ Hm). unfold queued at 2. simpl. rewrite Z.sub_0_r. apply Hs.
  - rewrite (sleepers_delete _ _ _ _ Ht). unfold sleeps_on. rewrite decide_True by done. lia.
  - apply (queue_frame sec K _ (receivers s) _ (delete t (senders s))); try done.
    + intros m' msg'. by apply (delete_other a _ _ _ _ Hm).
    + by apply (queue_snd_leaves sec K _ (senders s) a (body o)).
  - intros t' m'. destruct (decide (t = t')) as [<-|Hd].
    + rewrite lookup_delete_eq. split; [|by intros (? & ? & _)]. intros (msg' & [Hn Hm']%lookup_delete_Some).
      destruct (proj1 (s_snd _ _ _ _ Hs t m') ltac:(by exists msg')) as (x' & Hx' & <-). simplify_eq.
    + rewrite (lookup_delete_ne _ t t') by done. rewrite <- (s_snd _ _ _ _ Hs).
      destruct (decide (s_msg x = m')) as [<-|Hn]; [|by rewrite lookup_delete_ne]. rewrite lookup_delete_eq, Hm. split; intros [? ?]; congruence.
  - intros t' m'. rewrite <- (s_rcv _ _ _ _ Hs). destruct (decide (s_msg x = m')) as [<-|]; [|by rewrite lookup_delete_ne].
    rewrite lookup_delete_eq, Hm. split; intros [? ?]; done.
Qed.

Lemma ok_rcv_sleep t r : receivers s !! t = None -> waits r a -> (forall m msg, K !! m = Some (InQueue a, msg) -> accepts sec t r msg = false) ->
  sys_ok sec (set_receivers (upd s a (set_body o (set_lists (body o) (q_messages (body o)) (list_add_tail t (q_receivers (body o))) (q_senders (body o)))))
    (<[t := r]> (receivers s))) T K.
Proof.
  intros Ht Hw Hacc. destruct here_ok as [Hrc Hq].
  eapply (sys_update sec s _ T K _ a o); [done..| | | | | | | | | |]; try (by apply Hs); try done; try apply here_unlocked; simpl.
  - constructor; try done; simpl. intros b t' r' Hb Hw'. destruct (decide (t = t')) as [<-|]; [|by rewrite lookup_insert_ne].
    rewrite lookup_insert_eq, Ht. split; [|done]. intros [= <-]. destruct Hb. by rewrite <- (proj1 Hw), <- (proj1 Hw').
  - by apply (queue_rcv_enters sec K (receivers s) _ a (body o)).
  - intros t' m. rewrite (s_rcv _ _ _ _ Hs). destruct (decide (t = t')) as [<-|]; [|by rewrite lookup_insert_ne].
    rewrite lookup_insert_eq, Ht. split; intros (r' & Hr' & Hm); [done|]. simplify_eq. by rewrite (proj2 Hw) in Hm.
Qed.

End queue.

(** ** Changes that no live queue sees *)

Record unseen s s' (K K' : gmap addr (owner * msg_msg)) (b : addr) : Prop := {
  us_obj : objs (ipc s') !! b = objs (ipc s) !! b;
  us_N : sleepers (senders s') b = sleepers (senders s) b;
  us_K : forall m msg, K' !! m = Some (InQueue b, msg) <-> K !! m = Some (InQueue b, msg);
  us_R : forall t r, waits r b -> receivers s' !! t = Some r <-> receivers s !! t = Some r;
  us_X : forall t x, s_msq x = b -> senders s' !! t = Some x <-> senders s !! t = Some x }.

Lemma sys_elsewhere s s' T T' K K' :
  sys_ok sec s T K -> table_ok (ipc s') T' -> calm (ipc s') -> (forall b, live T' b -> live T b /\ unseen s s' K K' b) ->
  msgs s' = snd <$> K' -> (forall m x, K' !! m = Some x -> text_ok x.2 /\ 1 <= m_type x.2) ->
  msg_bytes s' = s32 (wsum (queued m_ts) K') -> msg_hdrs s' = s32 (wsum (queued one) K') ->
  (forall b ob, ~ live T' b -> objs (ipc s') !! b = Some ob ->
     refcount ob = sleepers (senders s') b /\ 1 <= refcount ob /\ deleted (perm ob) <> 0) ->
  (forall m b msg, K' !! m = Some (InQueue b, msg) -> live T' b) ->
  (forall t m, (exists msg, K' !! m = Some (WithSender t, msg)) <-> exists x, senders s' !! t = Some x /\ s_msg x = m) ->
  (forall t m, (exists msg, K' !! m = Some (WithReceiver t, msg)) <-> exists r, receivers s' !! t = Some r /\ r_msg r = RMsg m) ->
  (forall t x, senders s' !! t = Some x -> is_Some (objs (ipc s') !! s_msq x)) ->
  (forall t r b, receivers s' !! t = Some r -> waits r b -> live T' b) ->
  sys_ok sec s' T' K'.
Proof.
  intros Hs H1 H2 Hv H3 H4 H5 H6 H7 H8 H9 H10 H11 H12. constructor; try done.
  - intros b ob Hb Hob. destruct (Hv b Hb) as (Hb0 & [E1 E2 E3 E4 E5]). rewrite E1 in Hob. rewrite E2.
    destruct (s_live _ _ _ _ Hs b ob Hb0 Hob) as [F1 F2]. split; [done|]. by apply (queue_frame sec K K' (receivers s) _ (senders s)).
  - intros b c ob oc Hb Hc Hob Hoc. destruct (Hv b Hb) as (Hb0 & [E1 _ _ _ _]). destruct (Hv c Hc) as (Hc0 & [E2 _ _ _ _]).
    rewrite E1 in Hob. rewrite E2 in Hoc. by apply (s_keys _ _ _ _ Hs).
Qed.

(** A receiver goes away with its message. *)
Lemma ok_rcv_gone s T K t r m : sys_ok sec s T K -> receivers s !! t = Some r -> r_msg r = RMsg m ->
  sys_ok sec (set_msgs (set_receivers s (delete t (receivers s))) (delete m (msgs s))) T (delete m K).
Proof.
  intros Hs Ht Hr. destruct (proj2 (s_rcv _ _ _ _ Hs t m)) as [msg Hm]; [by exists r|].
  apply (sys_elsewhere s _ T T K _ Hs); try (by apply Hs); simpl.
  - intros b Hb. split; [done|]. constructor; try done; simpl.
    + intros m' msg'. by apply (delete_other K b m _ m' msg' Hm).
    + intros t' r' Hw. destruct (decide (t = t')) as [<-|]; [|by rewrite lookup_delete_ne]. rewrite lookup_delete_eq, Ht.
      split; [done|]. intros [= ->]. by destruct Hw; congruence.
  - by rewrite fmap_delete, (s_msgs _ _ _ _ Hs).
  - by apply (delete_text s T K Hs).
  - rewrite (wsum_delete _ _ _ _ Hm). unfold queued at 2. simpl. rewrite Z.sub_0_r. apply Hs.
  - rewrite (wsum_delete _ _ _ _ Hm). unfold queued at 2. simpl. rewrite Z.sub_0_r. apply Hs.
  - intros m' b msg' [_ Hm']%lookup_delete_Some. by apply (s_inq _ _ _ _ Hs m' b msg').
  - intros t' m'. rewrite <- (s_snd _ _ _ _ Hs). destruct (decide (m = m')) as [<-|]; [|by rewrite lookup_delete_ne].
    rewrite lookup_delete_eq, Hm. split; intros [? ?]; done.
  - intros t' m'. destruct (decide (t = t')) as [<-|Hd].
    + rewrite lookup_delete_eq. split; [|by intros (? & ? & _)]. intros (msg' & [Hn Hm']%lookup_delete_Some).
      destruct (proj1 (s_rcv _ _ _ _ Hs t m') ltac:(by exists msg')) as (r' & Hr' & E). congruence.
    + rewrite (lookup_delete_ne _ t t') by done. rewrite <- (s_rcv _ _ _ _ Hs).
      destruct (decide (m = m')) as [<-|Hn]; [|by rewrite lookup_delete_ne]. rewrite lookup_delete_eq, Hm. split; intros [? ?]; congruence.
  - intros t' r' b [_ Hr']%lookup_delete_Some. by apply (s_wait _ _ _ _ Hs t').
Qed.

(** A receiver goes away with an error. *)
Lemma ok_rcv_error s T K t r e : sys_ok sec s T K -> receivers s !! t = Some r -> r_msg r = RErr e -> e <> - EAGAIN ->
  sys_ok sec (set_receivers s (delete t (receivers s))) T K.
Proof.
  intros Hs Ht Hr He. apply (sys_elsewhere s _ T T K _ Hs); try (by apply Hs); simpl.
  - intros b Hb. split; [done|]. constructor; try done; simpl. intros t' r' Hw.
    destruct (decide (t = t')) as [<-|]; [|by rewrite lookup_delete_ne]. rewrite lookup_delete_eq, Ht.
    split; [done|]. intros [= ->]. destruct Hw. congruence.
  - intros t' m. rewrite (s_rcv _ _ _ _ Hs). destruct (decide (t = t')) as [<-|]; [|by rewrite lookup_delete_ne].
    rewrite lookup_delete_eq, Ht. split; intros (r' & Hr' & Hm); [congruence|done].
  - intros t' r' b [_ Hr']%lookup_delete_Some. by apply (s_wait _ _ _ _ Hs t').
Qed.

(** What the last or one more sleeping sender leaves of a queue that was removed. *)
Definition put_back (w : world msg_queue) (a : addr) (o : ipc_obj msg_queue) : world msg_queue :=
  if 0 <? refcount o - 1 then put_obj w a (set_refcount o (refcount o - 1))
  else mk_world (ids w) (delete a (objs w)) (rcu w) (pending w) ((a, if is_vmalloc o then ipc_schedule_free else ipc_immediate_free) :: freed w).

Lemma put_back_obj w a o b : a <> b -> objs (put_back w a o) !! b = objs w !! b.
Proof. intros Hb. unfold put_back. case_match; simpl; [by rewrite lookup_insert_ne|by rewrite lookup_delete_ne]. Qed.

Lemma table_same_ids (w w' : world msg_queue) T : table_ok w T -> ids w' = ids w -> (forall b, live T b -> objs w' !! b = objs w !! b) -> table_ok w' T.
Proof.
  intros [A1 A2 A3 A4 A5 A6] Hi Hb. constructor; rewrite ?Hi; try done. intros i b Hib. rewrite (Hb b) by (by exists i). by apply A4.
Qed.

Lemma calm_back w a o : calm w -> lock (perm o) = false -> calm (put_back w a o).
Proof.
  intros Hc Hl. unfold put_back. case_match; [by apply calm_put|]. destruct Hc as (Hu & Hr & Hp). split; [|done].
  intros b ob Hob. simpl in Hob. apply lookup_delete_Some in Hob as [_ Hb]. by apply (Hu b).
Qed.

Lemma ok_snd_orphan s T K a o t x : sys_ok sec s T K -> ~ live T a -> objs (ipc s) !! a = Some o -> senders s !! t = Some x -> s_msq x = a ->
  sys_ok sec (set_msgs (set_senders (set_ipc s (put_back (ipc s) a o)) (delete t (senders s))) (delete (s_msg x) (msgs s))) T (delete (s_msg x) K).
Proof.
  intros Hs Ha Ho Ht Hx. destruct (s_dead _ _ _ _ Hs a o Ha Ho) as (D1 & D2 & D3).
  destruct (proj2 (s_snd _ _ _ _ Hs t (s_msg x))) as [msg Hm]; [by exists x|].
  assert (forall b, live T b -> a <> b) as Hab by (intros b Hb <-; done).
  assert (sleepers (delete t (senders s)) a = refcount o - 1) as Hsl.
  { rewrite (sleepers_delete _ _ _ _ Ht), D1. unfold sleeps_on. by rewrite decide_True. }
  apply (sys_elsewhere s _ T T K _ Hs); simpl.
  - apply (table_same_ids (ipc s)); [apply Hs|unfold put_back; by case_match|]. intros b Hb. apply put_back_obj. by apply Hab.
  - apply calm_back; [apply Hs|]. apply (proj1 (s_calm _ _ _ _ Hs) a o Ho).
  - intros b Hb. split; [done|]. constructor; simpl.
    + by apply put_back_obj, Hab.
    + rewrite (sleepers_delete _ _ _ _ Ht). unfold sleeps_on. rewrite decide_False; [lia|]. intros E. apply (Hab b Hb). congruence.
    + intros m' msg'. by apply (delete_other K b _ _ _ _ Hm).
    + done.
    + intros t' x' Hx'. destruct (decide (t = t')) as [<-|]; [|by rewrite lookup_delete_ne]. rewrite lookup_delete_eq, Ht.
      split; [done|]. intros [= ->]. destruct (Hab b Hb). congruence.
  - by rewrite fmap_delete, (s_msgs _ _ _ _ Hs).
  - by apply (delete_text s T K Hs).
  - rewrite (wsum_delete _ _ _ _ Hm). unfold queued at 2. simpl. rewrite Z.sub_0_r. apply Hs.
  - rewrite (wsum_delete _ _ _ _ Hm). unfold queued at 2. simpl. rewrite Z.sub_0_r. apply Hs.
  - intros b ob Hb Hob. destruct (decide (a = b)) as [<-|Hn].
    + rewrite Hsl. unfold put_back in Hob. destruct (Z.ltb_spec 0 (refcount o - 1)); simpl in Hob.
      * rewrite lookup_insert_eq in Hob. injection Hob as <-. simpl. split_and!; [done|lia|done].
      * by rewrite lookup_delete_eq in Hob.
    + rewrite put_back_obj in Hob by done. rewrite (sleepers_delete _ _ _ _ Ht). unfold sleeps_on. rewrite decide_False by congruence.
      rewrite Z.sub_0_r. by apply (s_dead _ _ _ _ Hs).
  - intros m' b msg' [_ Hm']%lookup_delete_Some. by apply (s_inq _ _ _ _ Hs m' b msg').
  - intros t' m'. destruct (decide (t = t')) as [<-|Hd].
    + rewrite lookup_delete_eq. split; [|by intros (? & ? & _)]. intros (msg' & [Hn Hm']%lookup_delete_Some).
      destruct (proj1 (s_snd _ _ _ _ Hs t m') ltac:(by exists msg')) as (x' & Hx' & <-). simplify_eq.
    + rewrite (lookup_delete_ne _ t t') by done. rewrite <- (s_snd _ _ _ _ Hs).
      destruct (decide (s_msg x = m')) as [<-|Hn]; [|by rewrite lookup_delete_ne]. rewrite lookup_delete_eq, Hm. split; intros [? ?]; congruence.
  - intros t' m'. rewrite <- (s_rcv _ _ _ _ Hs). destruct (decide (s_msg x = m')) as [<-|]; [|by rewrite lookup_delete_ne].
    rewrite lookup_delete_eq, Hm. split; intros [? ?]; done.
  - intros t' x' [Hn Hx']%lookup_delete_Some. destruct (decide (a = s_msq x')) as [E|]; [|rewrite put_back_obj by done; by apply (s_sobj _ _ _ _ Hs t')].
    pose proof (sleepers_ge (delete t (senders s)) t' x') as Hge. rewrite lookup_delete_ne, <- E in Hge by done. specialize (Hge Hx').
    rewrite <- E. unfold put_back. rewrite (proj2 (Z.ltb_lt 0 (refcount o - 1))) by lia. simpl. rewrite lookup_insert_eq. by eexists.
  - apply Hs.
Qed.

(** ** Removing a queue *)

Definition delete_all {A} (m : gmap addr A) (ks : list addr) : gmap addr A := foldr delete m ks.

Lemma delete_all_lookup {A} (m : gmap addr A) ks k : delete_all m ks !! k = if decide (k ∈ ks) then None else m !! k.
Proof. unfold delete_all. case_decide; [by apply lookup_foldr_delete|by apply lookup_foldr_delete_not_elem_of]. Qed.

Lemma delete_all_cons {A} (m : gmap addr A) k ks : delete_all (delete k m) ks = delete_all m (k :: ks).
Proof. symmetry. apply delete_foldr_delete. Qed.

Lemma delete_all_fmap {A B} (f : A -> B) (m : gmap addr A) ks : f <$> delete_all m ks = delete_all (f <$> m) ks.
Proof. induction ks as [|k ks IH]; simpl; [done|]. by rewrite fmap_delete, IH. Qed.

Lemma delete_all_sum f a (K : gmap addr (owner * msg_msg)) ms : NoDup ms -> (forall m, m ∈ ms -> exists msg, K !! m = Some (InQueue a, msg)) ->
  wsum (queued f) (delete_all K ms) = wsum (queued f) K - foldr (fun m n => default 0 ((fun x => f x.2) <$> K !! m) + n) 0 ms.
Proof.
  induction 1 as [|m ms Hm _ IH]; intros Hq; simpl; [lia|]. destruct (Hq m ltac:(left)) as [msg Hk].
  rewrite (wsum_delete _ _ m (InQueue a, msg)).
  - rewrite IH, Hk by (intros m' Hm'; apply Hq; by right). unfold queued at 2. simpl. lia.
  - change (foldr delete K ms) with (delete_all K ms). by rewrite delete_all_lookup, decide_False.
Qed.

Lemma lsum_foldr (K : gmap addr (owner * msg_msg)) ms : lsum K ms = foldr (fun m n => default 0 ((fun x => m_ts x.2) <$> K !! m) + n) 0 ms.
Proof. induction ms as [|m ms IH]; simpl; [done|]. by rewrite IH. Qed.

Lemma ok_removed s s' T K a o i idp' :
  sys_ok sec s T K -> T !! i = Some a -> objs (ipc s) !! a = Some o -> idr_map idp' (Some <$> delete i T) ->
  ipc s' = put_back (removed (ipc s) idp' a o) a (set_perm o (set_deleted (perm o) 1)) ->
  msgs s' = delete_all (msgs s) (q_messages (body o)) ->
  msg_bytes s' = s32 (msg_bytes s - q_cbytes (body o)) -> msg_hdrs s' = s32 (msg_hdrs s - Z.of_nat (length (q_messages (body o)))) ->
  (forall t, receivers s' !! t = if decide (t ∈ q_receivers (body o)) then (fun r => set_rmsg r (RErr (- EIDRM))) <$> receivers s !! t else receivers s !! t) ->
  (forall t, senders s' !! t = if decide (t ∈ q_senders (body o)) then unlink <$> senders s !! t else senders s !! t) ->
  (forall b, sleepers (senders s') b = sleepers (senders s) b) ->
  sys_ok sec s' (delete i T) (delete_all K (q_messages (body o))).
Proof.
  intros Hs Hi Ho Hm Hipc Hmsgs Hby Hhd HR HX HN. assert (live T a) as Ha by (by exists i).
  destruct (here_ok s T K a o Hs Ha Ho) as [Hrc [H1 H2 H3 H4 H5 H6 H7 H8 H9 H10]].
  assert (forall b, live (delete i T) b -> live T b /\ a <> b) as Hlive.
  { intros b (j & [Hj Hb]%lookup_delete_Some). split; [by exists j|]. intros <-. apply Hj. by apply (table_inj (ipc s) T i j a (s_table _ _ _ _ Hs)). }
  assert (~ live (delete i T) a) as Hdead by (intros Hl; by destruct (Hlive a Hl)).
  assert (forall b, a <> b -> objs (ipc s') !! b = objs (ipc s) !! b) as Hobj.
  { intros b Hb. rewrite Hipc, put_back_obj by done. simpl. by rewrite lookup_insert_ne. }
  assert (forall m x, delete_all K (q_messages (body o)) !! m = Some x <-> K !! m = Some x /\ x.1 <> InQueue a) as HK.
  { intros m [w msg]. rewrite delete_all_lookup. case_decide as Hd.
    - apply H4 in Hd as [msg' Hm']. rewrite Hm'. split; [done|]. intros [[= -> ->] Hn]. done.
    - split; [|tauto]. intros Hx. split; [done|]. simpl. intros ->. apply Hd, H4. by exists msg. }
  assert (forall t r, receivers s !! t = Some r -> waits r a -> receivers s' !! t = Some (set_rmsg r (RErr (- EIDRM)))) as HR1.
  { intros t r Hr Hw. rewrite HR, decide_True by (apply H6; by exists r). by rewrite Hr. }
  assert (forall t r, receivers s !! t = Some r -> ~ waits r a -> receivers s' !! t = Some r) as HR2.
  { intros t r Hr Hw. rewrite HR, decide_False; [done|]. intros (r' & Hr' & Hw')%H6. by simplify_eq. }
  assert (forall t r', receivers s' !! t = Some r' -> exists r, receivers s !! t = Some r /\
    (r' = r /\ ~ waits r a \/ r' = set_rmsg r (RErr (- EIDRM)) /\ waits r a)) as HR3.
  { intros t r'. rewrite HR. case_decide as Hd.
    - apply H6 in Hd as (r & -> & Hw). intros [= <-]. exists r. split; [done|]. by right.
    - intros Hr. exists r'. split; [done|]. left. split; [done|]. intros Hw. apply Hd, H6. by exists r'. }
  assert (forall t x', senders s' !! t = Some x' <-> exists x, senders s !! t = Some x /\ x' = if decide (s_msq x = a) then unlink x else x) as HX1.
  { intros t x'. rewrite HX. case_decide as Hd.
    - apply H8 in Hd as (x & Hx & Hxa). rewrite Hx. split; [intros [= <-]; exists x; by rewrite decide_True|].
      intros (x0 & [= <-] & ->). by rewrite decide_True.
    - split.
      + intros Hx. exists x'. split; [done|]. rewrite decide_False; [done|]. intros Hxa. apply Hd, H8. by exists x'.
      + intros (x0 & Hx0 & ->). rewrite decide_False; [done|]. intros Hxa. apply Hd, H8. by exists x0. }
  assert (forall t x, senders s !! t = Some x -> exists x', senders s' !! t = Some x' /\ s_msq x' = s_msq x /\ s_msg x' = s_msg x) as HX2.
  { intros t x Hx. eexists. split; [apply HX1; by exists x|]. by case_decide. }
  assert (forall t x', senders s' !! t = Some x' -> exists x, senders s !! t = Some x /\ s_msq x' = s_msq x /\ s_msg x' = s_msg x) as HX3.
  { intros t x' (x & Hx & ->)%HX1. exists x. split; [done|]. by case_decide. }
  apply (sys_elsewhere s _ T (delete i T) K _ Hs).
  - rewrite Hipc. apply (table_same_ids (removed (ipc s) idp' a o)).
    + by apply table_removed; [apply Hs| |].
    + unfold put_back. by case_match.
    + intros b Hb. apply put_back_obj. by apply Hlive.
  - rewrite Hipc. apply calm_back; [|apply (here_unlocked s T K a o Hs Ho)].
    unfold removed. apply calm_put; [apply Hs|apply (here_unlocked s T K a o Hs Ho)].
  - intros b [Hb Hab]%Hlive. split; [done|]. constructor.
    + by apply Hobj.
    + apply HN.
    + intros m msg. rewrite HK. simpl. split; [tauto|]. intros Hx. split; [done|congruence].
    + intros t r Hw. split; [intros (r0 & Hr0 & [[-> _]|[-> [_ Hw']]])%HR3|intros Hr]; [done|by destruct Hw|].
      apply HR2; [done|]. intros [Hw' _]. destruct Hw. congruence.
    + intros t x Hx. rewrite HX1. split; [intros (x0 & Hx0 & ->)|intros Hx0].
      * case_decide as Hd; [simpl in Hx; congruence|done].
      * exists x. split; [done|]. rewrite decide_False by congruence. done.
  - by rewrite Hmsgs, delete_all_fmap, (s_msgs _ _ _ _ Hs).
  - intros m x [Hx _]%HK. by apply (s_text _ _ _ _ Hs m).
  - rewrite (delete_all_sum m_ts a K) by (done || (intros m; apply H4)). rewrite Hby, (s_bytes _ _ _ _ Hs), H1, s32_sub.
    apply s32_mod. by rewrite u32_sub_r, lsum_foldr.
  - rewrite (delete_all_sum one a K) by (done || (intros m; apply H4)). rewrite Hhd, (s_hdrs _ _ _ _ Hs), s32_sub. do 2 f_equal.
    assert (forall m, m ∈ q_messages (body o) -> is_Some (K !! m)) as Hin by (intros m [msg ->]%H4; by eexists).
    clear -Hin. induction (q_messages (body o)) as [|m ms IH]; [done|]. cbn [foldr]. rewrite <- IH by (intros m' Hm'; apply Hin; by right).
    destruct (Hin m ltac:(left)) as [x ->]. simpl. unfold one. lia.
  - intros b ob Hb Hob. destruct (decide (a = b)) as [<-|Hn].
    + rewrite HN. rewrite Hipc in Hob. unfold put_back in Hob. simpl in Hob. destruct (Z.ltb_spec 0 (refcount o - 1)); simpl in Hob.
      * rewrite lookup_insert_eq in Hob. injection Hob as <-. simpl. split_and!; [lia|lia|done].
      * by rewrite lookup_delete_eq in Hob.
    + rewrite Hobj in Hob by done. rewrite HN. apply (s_dead _ _ _ _ Hs b ob); [|done].
      intros (j & Hj). apply Hb. exists j. rewrite lookup_delete_ne; [done|]. intros <-. congruence.
  - intros m b msg [Hx Hn]%HK. simpl in Hn. destruct (s_inq _ _ _ _ Hs m b msg Hx) as [j Hj]. exists j. rewrite lookup_delete_ne; [done|].
    intros <-. congruence.
  - intros t m. transitivity (exists x, senders s !! t = Some x /\ s_msg x = m).
    + rewrite <- (s_snd _ _ _ _ Hs). split; intros [msg Hx]; exists msg; [by apply HK in Hx as [Hx _]|by apply HK].
    + split; [intros (x & (x' & Hx' & _ & Hsm)%HX2 & <-)|intros (x' & (x & Hx & _ & Hsm)%HX3 & <-)]; by eexists.
  - intros t m. transitivity (exists r, receivers s !! t = Some r /\ r_msg r = RMsg m).
    + rewrite <- (s_rcv _ _ _ _ Hs). split; intros [msg Hx]; exists msg; [by apply HK in Hx as [Hx _]|by apply HK].
    + split.
      * intros (r & Hr & Hrm). exists r. split; [|done]. apply HR2; [done|]. intros [_ Hw]. congruence.
      * intros (r' & (r & Hr & [[-> _]|[-> _]])%HR3 & Hrm); [by exists r|done].
  - intros t x' (x & Hx & E & _)%HX3. rewrite E. destruct (decide (a = s_msq x)) as [Hax|Hn]; [|rewrite Hobj by done; by apply (s_sobj _ _ _ _ Hs t)].
    rewrite <- Hax, Hipc. unfold put_back. simpl.
    pose proof (sleepers_ge _ _ _ Hx) as Hge. rewrite <- Hax in Hge.
    rewrite (proj2 (Z.ltb_lt 0 (refcount o - 1))) by lia. simpl. rewrite lookup_insert_eq. by eexists.
  - intros t r' b (r & Hr & [[-> Hna]|[-> Hwa]])%HR3 Hw; [|by destruct Hw].
    destruct (s_wait _ _ _ _ Hs t r b Hr Hw) as [j Hj]. exists j. rewrite lookup_delete_ne; [done|].
    intros <-. apply Hna. assert (b = a) as -> by congruence. done.
Qed.

(** ** The world around the queues *)

Lemma ok_world s T K w' : sys_ok sec s T K -> table_ok w' T -> calm w' -> objs w' = objs (ipc s) -> sys_ok sec (set_ipc s w') T K.
Proof. intros [] Ht Hc Ho. constructor; simpl; rewrite ?Ho; done. Qed.

Lemma no_sleepers X a : (forall t x, X !! t = Some x -> s_msq x <> a) -> sleepers X a = 0.
Proof.
  unfold sleepers. induction X as [|t x X Ht IH] using map_ind; [done|]. intros Hx. rewrite wsum_insert by done. rewrite IH.
  - unfold sleeps_on. rewrite decide_False; [done|]. apply (Hx t). apply lookup_insert_eq.
  - intros t' x' Hx'. apply (Hx t'). rewrite lookup_insert_ne; [done|]. intros <-. congruence.
Qed.

(** A new queue. *)
Lemma ok_created s T K w' i new o' ctime qbytes : sys_ok sec s T K -> table_ok w' (<[i := new]> T) -> calm w' -> T !! i = None -> objs (ipc s) !! new = None ->
  objs w' = <[new := o']> (objs (ipc s)) -> refcount o' = 1 -> body o' = mk_queue 0 0 ctime 0 0 qbytes 0 0 [] [] [] ->
  (key (perm o') = IPC_PRIVATE \/ forall b, live T b -> key_of (ipc s) b <> Some (key (perm o'))) ->
  sys_ok sec (set_ipc s w') (<[i := new]> T) K.
Proof.
  intros Hs Ht Hc Hi Hnew Ho Hrc Hb Hk.
  assert (forall b, is_Some (objs (ipc s) !! b) -> objs w' !! b = objs (ipc s) !! b) as Hold.
  { intros b [ob Hob]. rewrite Ho, lookup_insert_ne; [done|]. intros <-. congruence. }
  assert (forall b, live (<[i := new]> T) b -> b = new \/ live T b) as Hlive.
  { intros b [j Hj]. destruct (decide (i = j)) as [<-|]; [rewrite lookup_insert_eq in Hj; left; congruence|]. rewrite lookup_insert_ne in Hj by done. right. by exists j. }
  assert (forall b, live T b -> live (<[i := new]> T) b) as Hlive2.
  { intros b [j Hj]. exists j. rewrite lookup_insert_ne; [done|]. intros <-. congruence. }
  assert (forall b, live T b -> is_Some (objs (ipc s) !! b)) as Hin.
  { intros b Hb'. destruct (live_obj s T b (s_table _ _ _ _ Hs) Hb') as (ob & Hob & _). by exists ob. }
  destruct Hs as [A1 A2 A3 A4 A5 A6 A7 A8 A9 A10 A11 A12 A13 A14]. constructor; simpl; try done.
  - intros b ob [->|Hb']%Hlive Hob.
    + rewrite Ho, lookup_insert_eq in Hob. injection Hob as <-. split.
      { rewrite no_sleepers; [lia|]. intros t x Hx E. destruct (A12 t x Hx) as [ox Hox]. congruence. }
      rewrite Hb. constructor; simpl; try done; try apply NoDup_nil_2.
      * intros m. split; [by intros ?%not_elem_of_nil|]. intros (msg & Hm). exfalso. destruct (Hin new (A9 _ _ _ Hm)). congruence.
      * intros t. split; [by intros ?%not_elem_of_nil|]. intros (r & Hr & Hw). exfalso. destruct (Hin new (A13 _ _ _ Hr Hw)). congruence.
      * intros t. split; [by intros ?%not_elem_of_nil|]. intros (x & Hx & E). exfalso. destruct (A12 t x Hx) as [ox Hox]. congruence.
      * intros t x Hx E. destruct (A12 t x Hx) as [ox Hox]. congruence.
      * intros t r m msg _ _ Hm. exfalso. destruct (Hin new (A9 _ _ _ Hm)). congruence.
    + rewrite Hold in Hob by auto. by apply A7.
  - intros b ob Hb' Hob. apply A8; [intros Hl; by apply Hb', Hlive2|]. rewrite Ho in Hob. rewrite lookup_insert_ne in Hob; [done|].
    intros <-. apply Hb'. exists i. apply lookup_insert_eq.
  - intros m b msg Hm. by apply Hlive2, (A9 m b msg).
  - intros t x Hx. destruct (A12 t x Hx) as [ox Hox]. rewrite Hold; [by exists ox|by exists ox].
  - intros t r b Hr Hw. by apply Hlive2, (A13 t r b).
  - intros b c ob oc Hb' Hc' Hob Hoc Hkey Hnp. destruct (Hlive b Hb') as [->|Hb0], (Hlive c Hc') as [->|Hc0]; [done| | |].
    + rewrite Ho, lookup_insert_eq in Hob. injection Hob as <-. destruct Hk as [Hk|Hk]; [done|]. destruct (Hk c Hc0).
      rewrite Hold in Hoc by auto. unfold key_of. rewrite Hoc. simpl. by rewrite Hkey.
    + rewrite Ho, lookup_insert_eq in Hoc. injection Hoc as <-. destruct Hk as [Hk|Hk]; [congruence|]. destruct (Hk b Hb0).
      rewrite Hold in Hob by auto. unfold key_of. rewrite Hob. simpl. by rewrite Hkey.
    + rewrite Hold in Hob by auto. rewrite Hold in Hoc by auto. by apply (A14 b c ob oc).
Qed.

End step.

End MsgStep.
