(* ===== verification/MsgSpec.v ===== *)
(** * Message queues: the calls

    Every call of [Msg] on a state in which the invariant holds returns, and the
    invariant holds again: no call waits for a lock for ever, touches a queue or
    a message that was freed, or frees one twice. *)

From Stdlib Require Import ZArith Lia.
From stdpp Require Import base option gmap fin_maps fin_sets list list_numbers.
From S2P Require Import Prelude Idr IdrInv IdrAlloc IdrGet IdrSpec Ipc IpcSpec Msg MsgInv.

Local Open Scope Z_scope.
Local Open Scope kernel_scope.

Module MsgCode.
Import Idr IdrGet Ipc IpcTable IpcPerms Msg MsgText MsgInv MsgStep.

(** ** With a queue locked *)

Definition hold (s : sys) (a : addr) (o : ipc_obj msg_queue) : sys := set_ipc s (locked (ipc s) a o).

Section code.
Context (sec : security) (task_pid_vnr task_tgid_vnr : tid -> Z).
Implicit Types (s : sys) (T : gmap Z addr).

Lemma hold_obj s a o : objs (ipc (hold s a o)) !! a = Some (set_perm o (set_lock (perm o) true)).
Proof. apply lookup_insert_eq. Qed.

Lemma upd_upd s a o o' : upd (upd s a o) a o' = upd s a o'.
Proof. unfold upd, set_ipc, put_obj, set_objs. simpl. by rewrite insert_insert_eq. Qed.

Lemma upd_hold s a o f : upd_queue (hold s a o) a f = Some (hold (upd s a (set_body o (f (body o)))) a (set_body o (f (body o)))).
Proof.
  unfold upd_queue. rewrite hold_obj. cbn [mbind option_bind]. unfold hold, upd, locked, set_ipc, put_obj, set_objs, rcu_read_lock, set_rcu.
  simpl. by rewrite !insert_insert_eq.
Qed.

Lemma getref_hold s a o : lift (hold s a o) (ipc_rcu_getref (ipc (hold s a o)) a) =
  Some (hold (upd s a (set_refcount o (refcount o + 1))) a (set_refcount o (refcount o + 1))).
Proof.
  unfold lift, ipc_rcu_getref. rewrite hold_obj. cbn [mbind option_bind]. unfold hold, upd, locked, set_ipc, put_obj, set_objs, rcu_read_lock, set_rcu.
  simpl. by rewrite !insert_insert_eq.
Qed.

Lemma unlock_hold s a o : objs (ipc s) !! a = Some o -> calm (ipc s) -> msg_unlock (hold s a o) a = Some s.
Proof.
  intros Ho (Hu & Hr & Hp). unfold msg_unlock, lift. change (ipc (hold s a o)) with (locked (ipc s) a o). rewrite (unlock_ptr (ipc s) a o Ho (Hu a o Ho)) by (lia || done).
  simpl. f_equal. by destruct s.
Qed.

Lemma lock_hold s a o : objs (ipc s) !! a = Some o -> calm (ipc s) -> lift s (ipc_lock_by_ptr (ipc s) a) = Some (hold s a o).
Proof. intros Ho (Hu & _). unfold lift. by rewrite (lock_ptr (ipc s) a o Ho (Hu a o Ho)). Qed.

Lemma carry_free s m msg : msgs s !! m = None -> free_msg (carry s m msg) m = Some s.
Proof.
  intros Hm. unfold free_msg, carry. simpl. rewrite lookup_insert_eq. simpl. rewrite delete_insert_id by done. f_equal. by destruct s.
Qed.

(** *** Waking tasks *)

Definition mark (e : Z) (R : gmap tid receiver) (rs : list tid) : gmap tid receiver :=
  foldl (fun R t => alter (fun r => set_rmsg r (RErr e)) t R) R rs.

Lemma mark_lookup e rs : forall R t, mark e R rs !! t = if decide (t ∈ rs) then (fun r => set_rmsg r (RErr e)) <$> R !! t else R !! t.
Proof.
  induction rs as [|t' rs IH]; intros R t; [done|]. simpl. rewrite IH.
  destruct (decide (t' = t)) as [<-|Hn].
  - rewrite lookup_alter_eq. rewrite (decide_True (P := t' ∈ t' :: rs)) by left. case_decide; [|done]. by destruct (R !! t').
  - rewrite lookup_alter_ne by done. destruct (decide (t ∈ rs)) as [Hi|Hi].
    + by rewrite (decide_True (P := t ∈ t' :: rs)) by (by right).
    + rewrite (decide_False (P := t ∈ t' :: rs)); [done|]. intros [->|?]%elem_of_cons; done.
Qed.

Lemma expunge_ok e rs : forall s, (forall t, t ∈ rs -> is_Some (receivers s !! t)) ->
  exists W, expunge_all s rs e = Some (set_woken (set_receivers s (mark e (receivers s) rs)) W).
Proof.
  induction rs as [|t rs IH]; intros s Hin; simpl; [exists (woken s); by destruct s|]. destruct (Hin t ltac:(left)) as [r Hr]. rewrite Hr. cbn [mbind option_bind].
  edestruct IH as [W HW]; [|exists W; rewrite HW; unfold set_woken, set_receivers; simpl].
  - intros t' Ht'. simpl. destruct (decide (t = t')) as [<-|]; [rewrite lookup_insert_eq; by eexists|]. rewrite lookup_insert_ne by done. apply Hin. by right.
  - do 2 f_equal. f_equal. symmetry. rewrite <- (insert_id (receivers s) t r Hr) at 1. by rewrite alter_insert_eq.
Qed.

Definition unlink_all (X : gmap tid sender) (ts : list tid) : gmap tid sender := foldl (fun X t => alter unlink t X) X ts.

Lemma unlink_lookup ts : forall X t, unlink_all X ts !! t = if decide (t ∈ ts) then unlink <$> X !! t else X !! t.
Proof.
  induction ts as [|t' ts IH]; intros X t; [done|]. simpl. rewrite IH.
  destruct (decide (t' = t)) as [<-|Hn].
  - rewrite lookup_alter_eq. rewrite (decide_True (P := t' ∈ t' :: ts)) by left. case_decide; [|done]. by destruct (X !! t').
  - rewrite lookup_alter_ne by done. destruct (decide (t ∈ ts)) as [Hi|Hi].
    + by rewrite (decide_True (P := t ∈ t' :: ts)) by (by right).
    + rewrite (decide_False (P := t ∈ t' :: ts)); [done|]. intros [->|?]%elem_of_cons; done.
Qed.

Lemma unlink_sleepers ts : forall X a, sleepers (unlink_all X ts) a = sleepers X a.
Proof.
  induction ts as [|t ts IH]; intros X a; [done|]. simpl. rewrite IH. destruct (X !! t) as [x|] eqn:Hx.
  - rewrite <- (insert_id X t x Hx) at 1. rewrite alter_insert_eq. unfold sleepers. rewrite (wsum_update _ _ _ _ _ Hx).
    unfold sleeps_on at 2 3. simpl. lia.
  - rewrite alter_id; [done|]. congruence.
Qed.

Lemma wakeup_ok kill ts : forall s, (forall t, t ∈ ts -> is_Some (senders s !! t)) ->
  exists W, ss_wakeup s ts kill = Some (set_woken (set_senders s (if kill then unlink_all (senders s) ts else senders s)) W).
Proof.
  induction ts as [|t ts IH]; intros s Hin; simpl; [exists (woken s); destruct s; by destruct kill|].
  destruct (Hin t ltac:(left)) as [x Hx]. rewrite Hx. cbn [mbind option_bind]. edestruct IH as [W HW]; [|exists W; rewrite HW].
  - intros t' Ht'. destruct kill; simpl; [|apply Hin; by right].
    destruct (decide (t = t')) as [<-|]; [rewrite lookup_insert_eq; by eexists|]. rewrite lookup_insert_ne by done. apply Hin. by right.
  - destruct kill; [|done]. unfold set_woken, set_senders. simpl. do 2 f_equal. f_equal. symmetry.
    rewrite <- (insert_id (senders s) t x Hx) at 1. by rewrite alter_insert_eq.
Qed.

(** *** Sending *)

Definition same_ids s s' : Prop := ids (ipc s') = ids (ipc s).

(** The receivers that do not get the message are still waiting, or were told
    that it is too big for them. *)
Lemma pipelined_ok a m msg now T K rs : forall s o,
  sys_ok sec s T K -> live T a -> objs (ipc s) !! a = Some o -> msgs s !! m = None -> text_ok msg -> 1 <= m_type msg ->
  NoDup rs -> (forall t, t ∈ rs -> t ∈ q_receivers (body o)) ->
  (exists s1 o1, pipelined_send sec task_pid_vnr (hold (carry s m msg) a o) a m msg now rs = Some (hold (carry s1 m msg) a o1, false) /\
     sys_ok sec s1 T K /\ objs (ipc s1) !! a = Some o1 /\ same_ids s s1 /\ msgs s1 = msgs s /\
     (forall t, t ∉ rs -> receivers s1 !! t = receivers s !! t) /\
     (forall t r, t ∈ rs -> receivers s1 !! t = Some r -> waits r a -> accepts sec t r msg = false)) \/
  (exists s1 o1 t, pipelined_send sec task_pid_vnr (hold (carry s m msg) a o) a m msg now rs = Some (hold s1 a o1, true) /\
     sys_ok sec s1 T (<[m := (WithReceiver t, msg)]> K) /\ objs (ipc s1) !! a = Some o1 /\ same_ids s s1).
Proof.
  induction rs as [|t rs IH]; intros s o Hs Ha Ho Hm Htx Hty Hd Hin; cbn [pipelined_send].
  { left. exists s, o. split_and!; try done. by intros t r ?%not_elem_of_nil. }
  apply NoDup_cons in Hd as [Ht Hd]. pose proof (Hin t ltac:(left)) as Hq. destruct (here_ok _ s T K a o Hs Ha Ho) as [_ Hok].
  apply (qo_rcv _ _ _ _ _ _ Hok) in Hq as (r & Hr & Hw). change (receivers (hold (carry s m msg) a o)) with (receivers s). rewrite Hr.
  cbn [mbind option_bind]. destruct (testmsg _ _ _ && _) eqn:Hacc.
  2:{ destruct (IH s o) as [(s1 & o1 & H1 & H2 & H3 & H4 & H5 & H6 & H7)|(s1 & o1 & t' & H)]; try done; [intros t' ?; apply Hin; by right| |].
      - left. exists s1, o1. split_and!; try done.
        + intros t' Hn. apply H6. intros ?. apply Hn. by right.
        + intros t' r' [->|Ht']%elem_of_cons; [|by apply H7]. rewrite H6 by done. rewrite Hr. intros [= <-] _. done.
      - right. by exists s1, o1, t'. }
  rewrite upd_hold. cbn [mbind option_bind].
  set (q1 := set_lists (body o) (q_messages (body o)) (list_del t (q_receivers (body o))) (q_senders (body o))).
  destruct (Z.ltb_spec (r_maxsize r) (m_ts msg)) as [Hbig|Hfit].
  - set (R1 := <[t := set_rmsg r (RErr (- E2BIG))]> (receivers s)).
    set (s1 := set_woken (set_receivers (upd s a (set_body o q1)) R1) ({[t]} ∪ woken s)).
    assert (sys_ok sec s1 T K) as Hs1.
    { apply ok_woken, (ok_rcv_drop _ s T K a o Hs Ha Ho q1 t r R1); try done.
      - intros t' Hn. unfold R1. by rewrite lookup_insert_ne.
      - intros r'. unfold R1. rewrite lookup_insert_eq. intros [= <-]. by exists (- E2BIG). }
    destruct (IH s1 (set_body o q1) Hs1 Ha) as [(s2 & o2 & H1 & H2 & H3 & H4 & H5 & H6 & H7)|(s2 & o2 & t' & H)]; try done.
    + apply lookup_insert_eq.
    + intros t' Ht'. simpl. apply elem_of_list_del. split; [apply Hin; by right|]. intros ->. done.
    + left. exists s2, o2. split_and!; try done.
      * intros t' Hn. rewrite H6 by (intros ?; apply Hn; by right). simpl. unfold R1. rewrite lookup_insert_ne; [done|]. intros <-. apply Hn. left.
      * intros t' r' [->|Ht']%elem_of_cons; [|by apply H7]. rewrite H6 by done. simpl. unfold R1. rewrite lookup_insert_eq. by intros [= <-] [_ ?].
    + right. by exists s2, o2, t'.
  - right. set (q2 := set_received q1 now (task_pid_vnr t)).
    set (s1 := set_woken (set_receivers (upd (carry s m msg) a (set_body o q2)) (<[t := set_rmsg r (RMsg m)]> (receivers s))) ({[t]} ∪ woken s)).
    exists s1, (set_body o q2), t. split_and!; [|by apply ok_woken, ok_rcv_take|apply lookup_insert_eq|done].
    rewrite upd_hold. cbn [mbind option_bind]. by rewrite upd_upd.
Qed.

Lemma snd_fail_ok s T K a o m msg err : sys_ok sec s T K -> objs (ipc s) !! a = Some o -> msgs s !! m = None ->
  snd_fail (hold (carry s m msg) a o) a m err = Some (s, Done err).
Proof.
  intros Hs Ho Hm. unfold snd_fail. rewrite unlock_hold by (done || apply Hs). cbn [mbind option_bind]. by rewrite carry_free.
Qed.

(** The call keeps the invariant and the identifiers. *)
Definition fine s T (r : option (sys * outcome)) : Prop := exists s' res K', r = Some (s', res) /\ sys_ok sec s' T K' /\ same_ids s s'.

Lemma fine_same s T K res : sys_ok sec s T K -> fine s T (Some (s, res)).
Proof. intros Hs. by exists s, res, K. Qed.

Lemma snd_try_ok s T K a o t m msg msgflg : sys_ok sec s T K -> live T a -> objs (ipc s) !! a = Some o -> senders s !! who t = None ->
  msgs s !! m = None -> text_ok msg -> 1 <= m_type msg ->
  fine s T (snd_try sec task_pid_vnr task_tgid_vnr (hold (carry s m msg) a o) t a m msgflg).
Proof.
  intros Hs Ha Ho Ht Hm Htx Hty. unfold snd_try. rewrite hold_obj. cbn [mbind option_bind].
  change (msgs (hold (carry s m msg) a o)) with (<[m := msg]> (msgs s)). rewrite lookup_insert_eq. cbn [mbind option_bind].
  destruct (negb _); [rewrite (snd_fail_ok s T K) by done; by apply (fine_same s T K)|].
  destruct (negb _); [rewrite (snd_fail_ok s T K) by done; by apply (fine_same s T K)|]. cbn [body set_perm].
  destruct (_ && _).
  { rewrite upd_hold. cbn [mbind option_bind]. set (q0 := set_sent (body o) (now t) (task_tgid_vnr (who t))).
    assert (sys_ok sec (upd s a (set_body o q0)) T K) as Hs0 by (by apply (ok_touch _ s T K a o Hs Ha Ho q0 (perm o)); [..|apply (here_unlocked _ s T K a o Hs Ho)]).
    destruct (here_ok _ s T K a o Hs Ha Ho) as [_ Hok].
    destruct (pipelined_ok a m msg (now t) T K (q_receivers (body o)) (upd s a (set_body o q0)) (set_body o q0))
      as [(s1 & o1 & H1 & H2 & H3 & H4 & H5 & H6 & H7)|(s1 & o1 & t' & H1 & H2 & H3 & H4)]; try done; [apply lookup_insert_eq|apply Hok| |];
      change (upd (carry s m msg) a (set_body o q0)) with (carry (upd s a (set_body o q0)) m msg); rewrite H1; cbn [mbind option_bind].
    - unfold enqueue. rewrite upd_hold. cbn [mbind option_bind].
      assert (forall t0 r0, receivers s1 !! t0 = Some r0 -> waits r0 a -> accepts sec t0 r0 msg = false) as Hacc.
      { intros t0 r0 Hr0 Hw0. destruct (decide (t0 ∈ q_receivers (body o))) as [Hi|Hn]; [by apply (H7 t0 r0)|].
        rewrite H6 in Hr0 by done. destruct Hn. apply (qo_rcv _ _ _ _ _ _ Hok). by exists r0. }
      set (q2 := set_fill (set_lists (body o1) (list_add_tail m (q_messages (body o1))) (q_receivers (body o1)) (q_senders (body o1)))
                   (u32 (q_cbytes (body o1) + m_ts msg)) (u32 (q_qnum (body o1) + 1))).
      set (s2 := set_counts (upd (carry s1 m msg) a (set_body o1 q2)) (s32 (msg_bytes s1 + m_ts msg)) (s32 (msg_hdrs s1 + 1))).
      assert (sys_ok sec s2 T (<[m := (InQueue a, msg)]> K)) as Hs2 by (apply (ok_enqueue _ s1 T K a o1 H2 Ha H3 q2 m msg); try done; by rewrite H5).
      change (set_counts (hold _ _ _) _ _) with (hold s2 a (set_body o1 q2)).
      rewrite unlock_hold; [|apply lookup_insert_eq|apply Hs2]. by exists s2, (Done 0), (<[m := (InQueue a, msg)]> K).
    - rewrite unlock_hold by (done || apply H2). by exists s1, (Done 0), (<[m := (WithReceiver t', msg)]> K). }
  destruct (negb _); [rewrite (snd_fail_ok s T K) by done; by apply (fine_same s T K)|].
  rewrite upd_hold. cbn [mbind option_bind]. rewrite getref_hold. cbn [mbind option_bind]. rewrite upd_upd.
  rewrite unlock_hold; [|apply lookup_insert_eq|apply calm_put; [apply Hs|apply (here_unlocked _ s T K a o Hs Ho)]]. cbn [mbind option_bind].
  eexists _, _, _. split; [done|]. split; [|done]. by apply ok_woken, (ok_snd_sleep _ s T K a o Hs Ha Ho (who t) m msg msgflg).
Qed.

Lemma live_dec s T K a o : sys_ok sec s T K -> objs (ipc s) !! a = Some o -> (deleted (perm o) = 0 <-> live T a) /\ (deleted (perm o) <> 0 <-> ~ live T a).
Proof.
  intros Hs Ho. assert (live T a -> deleted (perm o) = 0) as H1.
  { intros Hl. destruct (live_obj s T a (s_table _ _ _ _ Hs) Hl) as (o' & Ho' & Hd). congruence. }
  assert (~ live T a -> deleted (perm o) <> 0) as H2 by (intros Hl; apply (s_dead _ _ _ _ Hs a o Hl Ho)).
  assert (live T a \/ ~ live T a) as Hlem.
  { destruct (decide (map_Exists (fun _ b => b = a) T)) as [(i & b & Hi & ->)|Hn]; [left; by exists i|]. right. intros [i Hi]. apply Hn. by exists i, a. }
  split; split; [intros Hd; destruct Hlem as [?|Hl]; [done|by destruct (H2 Hl Hd)]|done|intros Hd Hl; by apply Hd, H1|done].
Qed.

Lemma lookup_msqid s T K id : sys_ok sec s T K -> - 2 ^ 31 <= id < 2 ^ 31 ->
  (exists e, ipc_lock_check (ipc s) id = Some (ipc s, inl e)) \/
  (exists a o, ipc_lock_check (ipc s) id = Some (locked (ipc s) a o, inr a) /\ live T a /\ objs (ipc s) !! a = Some o /\ perm_id (perm o) = id).
Proof.
  intros Hs Hid. destruct (s_calm _ _ _ _ Hs) as (Hu & Hr & Hp). rewrite (lock_check_spec (ipc s) T id) by (done || lia || apply Hs).
  destruct (T !! Z.rem id IPCMNI) as [a|] eqn:Ha; [|left; by eexists].
  destruct (t_obj _ _ (s_table _ _ _ _ Hs) _ a Ha) as (o & Ho & _). rewrite Ho. cbn [mbind option_bind].
  destruct (Z.eqb_spec (perm_id (perm o)) id) as [He|]; [|left; by eexists]. right. exists a, o. split_and!; try done. by exists (Z.rem id IPCMNI).
Qed.

Lemma do_msgsnd_ok s T K t msqid mtype msgsz msgflg e : sys_ok sec s T K -> msgs s !! load_at e = None -> senders s !! who t = None ->
  msqid < 2 ^ 31 -> 0 <= msgsz -> fine s T (do_msgsnd sec task_pid_vnr task_tgid_vnr s t msqid mtype msgsz msgflg e).
Proof.
  intros Hs Hm Ht Hid Hsz. unfold do_msgsnd. destruct (_ || (msqid <? 0)) eqn:Hc; [by apply (fine_same s T K)|].
  apply orb_false_iff in Hc as [_ Hid0%Z.ltb_ge]. destruct (Z.ltb_spec mtype 1); [by apply (fine_same s T K)|].
  destruct (load_msg_ok (load_kmalloc e) (load_sec e) (load_src e) msgsz mtype Hsz) as ([err|msg] & -> & Hload); cbn [mbind option_bind]; [by apply (fine_same s T K)|].
  destruct Hload as (Htx & _ & Hty & _). change (ipc (set_msgs s _)) with (ipc s).
  destruct (lookup_msqid s T K msqid Hs ltac:(lia)) as [[err ->]|(a & o & -> & Ha & Ho & _)]; cbn [mbind option_bind].
  - change (set_ipc (set_msgs s (<[load_at e := msg]> (msgs s))) (ipc s)) with (carry s (load_at e) msg). rewrite carry_free by done. by apply (fine_same s T K).
  - change (set_ipc (set_msgs s (<[load_at e := msg]> (msgs s))) (locked (ipc s) a o)) with (hold (carry s (load_at e) msg) a o).
    apply (snd_try_ok s T K); try done. lia.
Qed.

(** *** Giving references back *)

Lemma putref_calm (w : world msg_queue) a o : objs w !! a = Some o -> rcu w = 0 -> pending w = [] -> 1 <= refcount o ->
  ipc_rcu_putref w a = Some (put_back w a o).
Proof.
  intros Ho Hr Hp Hrc. unfold ipc_rcu_putref, put_back. rewrite Ho. cbn [mbind option_bind]. rewrite (proj2 (Z.leb_gt _ _)) by lia.
  case_match; [done|]. unfold call_rcu, run_callbacks. simpl. rewrite Hr, Hp. simpl. by rewrite delete_insert_eq.
Qed.

(** With the object locked, it is freed when it is unlocked. *)
Lemma putref_locked (w : world msg_queue) a o : objs w !! a = Some o -> calm w -> 1 <= refcount o -> exists w1 o1,
  ipc_rcu_putref (locked w a o) a = Some w1 /\ objs w1 !! a = Some o1 /\ perm o1 = set_lock (perm o) true /\ ipc_unlock w1 a = Some (put_back w a o).
Proof.
  intros Ho (Hu & Hr & Hp) Hrc. unfold ipc_rcu_putref, put_back, locked. simpl. rewrite lookup_insert_eq. simpl. rewrite (proj2 (Z.leb_gt _ _)) by lia.
  assert (set_lock (set_lock (perm o) true) false = perm o) as Hl by (by apply unlock_again, (Hu a)). destruct (Z.ltb_spec 0 (refcount o - 1)).
  - eexists _, _. split_and!; [done|simpl; apply lookup_insert_eq|done|]. unfold ipc_unlock, spin_unlock. simpl. rewrite lookup_insert_eq. simpl.
    unfold rcu_read_unlock. simpl. rewrite Hr. simpl. rewrite no_callbacks by done. f_equal. unfold put_obj, set_objs, set_rcu, set_perm, set_refcount. simpl.
    by rewrite !insert_insert_eq, Hl, Hr.
  - unfold call_rcu, run_callbacks. simpl. rewrite Hr. simpl. eexists _, _. split_and!; [done|simpl; apply lookup_insert_eq|done|].
    unfold ipc_unlock, spin_unlock. simpl. rewrite lookup_insert_eq. simpl. unfold rcu_read_unlock. simpl. unfold run_callbacks. simpl. rewrite Hp. simpl.
    by rewrite !delete_insert_eq.
Qed.

Lemma putref_hold s a o : objs (ipc s) !! a = Some o -> 1 < refcount o ->
  lift (hold s a o) (ipc_rcu_putref (ipc (hold s a o)) a) = Some (hold (upd s a (set_refcount o (refcount o - 1))) a (set_refcount o (refcount o - 1))).
Proof.
  intros Ho Hrc. unfold lift, ipc_rcu_putref. rewrite hold_obj. cbn [mbind option_bind set_perm refcount].
  rewrite (proj2 (Z.leb_gt _ _)), (proj2 (Z.ltb_lt 0 _)) by lia. unfold hold, upd, locked, set_ipc, put_obj, set_objs, rcu_read_lock, set_rcu.
  simpl. by rewrite !insert_insert_eq.
Qed.

Lemma snd_wake_ok s T K t : sys_ok sec s T K -> is_Some (senders s !! who t) -> fine s T (snd_wake sec task_pid_vnr task_tgid_vnr s t).
Proof.
  intros Hs [x Hx]. unfold snd_wake. rewrite Hx. cbn [mbind option_bind]. set (a := s_msq x). set (m := s_msg x).
  destruct (s_sobj _ _ _ _ Hs _ _ Hx) as [o Ho]. pose proof (s_calm _ _ _ _ Hs) as Hc. set (s0 := set_senders s (delete (who t) (senders s))).
  rewrite (lock_hold s0 a o Ho Hc). cbn [mbind option_bind]. destruct (proj2 (s_snd _ _ _ _ Hs (who t) m)) as [msg Hm]; [by exists x|].
  pose proof (mail_some _ s T K Hs _ _ Hm) as Hmm. simpl in Hmm. pose proof (s_text _ _ _ _ Hs _ _ Hm) as [Htx Hty].
  destruct (live_dec s T K a o Hs Ho) as [L1 L2]. destruct (decide (deleted (perm o) = 0)) as [Hd|Hd].
  - pose proof (proj1 L1 Hd) as Ha. destruct (here_ok _ s T K a o Hs Ha Ho) as [Hrc Hok].
    assert (1 < refcount o) as Hgt.
    { pose proof (sleepers_ge _ _ _ Hx) as Hge. fold a in Hge. lia. }
    rewrite (putref_hold s0 a o Ho Hgt). cbn [mbind option_bind]. rewrite hold_obj. cbn [mbind option_bind set_refcount set_perm perm set_lock deleted].
    rewrite Hd. change (negb (0 =? 0)) with false. cbn iota. rewrite (qo_linked _ _ _ _ _ _ Hok _ _ Hx eq_refl). rewrite upd_hold. cbn [mbind option_bind]. rewrite upd_upd.
    pose proof (ok_snd_wake _ s T K a o Hs Ha Ho (who t) x Hx eq_refl) as Hs1. set (o1 := set_refcount (set_body o _) _) in Hs1.
    set (s1 := set_msgs _ _) in Hs1. assert (msgs s1 !! m = None) as Hm1 by apply lookup_delete_eq.
    match goal with |- context [hold (upd s0 a ?oo) a ?oo] => change oo with o1 end.
    assert (hold (upd s0 a o1) a o1 = hold (carry s1 m msg) a o1) as ->.
    { unfold carry, s1, hold. simpl. fold m. rewrite insert_delete_id by done. by destruct s. }
    assert (objs (ipc s1) !! a = Some o1) as Ho1 by apply lookup_insert_eq.
    destruct (signal_pending t).
    + rewrite (snd_fail_ok s1 T _ a o1 m msg _ Hs1) by done. by eexists _, _, _.
    + apply (snd_try_ok s1 T (delete (s_msg x) K)); try done. apply lookup_delete_eq.
  - pose proof (proj1 L2 Hd) as Ha. destruct (s_dead _ _ _ _ Hs a o Ha Ho) as (D1 & D2 & D3).
    destruct (putref_locked (ipc s) a o Ho Hc D2) as (w1 & o1 & P1 & P2 & P3 & P4).
    change (ipc (hold s0 a o)) with (locked (ipc s) a o). rewrite P1. cbn [lift mbind option_bind]. change (ipc (set_ipc (hold s0 a o) w1)) with w1. rewrite P2.
    cbn [mbind option_bind]. rewrite P3. cbn [set_lock deleted]. rewrite (proj2 (Z.eqb_neq _ _) Hd). cbn [negb].
    unfold snd_fail, msg_unlock. change (ipc (set_ipc (hold s0 a o) w1)) with w1. rewrite P4. cbn [lift mbind option_bind].
    unfold free_msg. change (msgs (set_ipc (set_ipc (hold s0 a o) w1) (put_back (ipc s) a o))) with (msgs s). fold m. rewrite Hmm. cbn [mbind option_bind].
    eexists _, _, _. split; [done|]. split; [by apply (ok_snd_orphan _ s T K a o (who t) x Hs)|]. unfold same_ids. simpl. unfold put_back. by case_match.
Qed.

(** *** Receiving *)

Definition wanted (t : tid) (mode msgtyp : Z) (msg : msg_msg) : bool := testmsg msg msgtyp mode && (sec_msgrcv sec msg t msgtyp mode =? 0).

Lemma find_msg_total mm t mode ms : (forall m, m ∈ ms -> is_Some (mm !! m)) -> forall msgtyp found, exists r,
  find_msg sec mm t mode ms msgtyp found = Some r /\
  match r with
  | Some m => m ∈ ms \/ found = Some m
  | None => found = None /\ forall m msg, m ∈ ms -> mm !! m = Some msg -> wanted t mode msgtyp msg = false
  end.
Proof.
  induction ms as [|m ms IH]; intros Hin msgtyp found; cbn [find_msg].
  { exists found. split; [done|]. destruct found; [by right|]. split; [done|]. by intros m msg ?%not_elem_of_nil. }
  destruct (Hin m ltac:(left)) as [msg Hm]. rewrite Hm. cbn [mbind option_bind].
  assert (forall m, m ∈ ms -> is_Some (mm !! m)) as Hin' by (intros m' Hm'; apply Hin; by right).
  destruct (testmsg _ _ _ && _) eqn:Ht.
  - destruct (_ && negb _).
    + destruct (IH Hin' (m_type msg - 1) (Some m)) as ([m'|] & Hr & Hok); exists (Some m') || exists None; (split; [done|]).
      * destruct Hok as [?|[= ->]]; left; [by right|left].
      * by destruct Hok.
    + exists (Some m). split; [done|]. left. left.
  - destruct (IH Hin' msgtyp found) as ([m'|] & Hr & Hok); exists (Some m') || exists None; (split; [done|]).
    + destruct Hok as [?|?]; [left; by right|by right].
    + destruct Hok as [? Hok]. split; [done|]. intros m' msg' [->|Hi]%elem_of_cons Hm'; [|by apply (Hok m')]. rewrite Hm in Hm'. by injection Hm' as <-.
Qed.

Lemma rcv_fail_ok s T K a o err : sys_ok sec s T K -> objs (ipc s) !! a = Some o -> fine s T (rcv_fail (hold s a o) a err).
Proof.
  intros Hs Ho. unfold rcv_fail. rewrite unlock_hold by (done || apply Hs). by apply (fine_same s T K).
Qed.

Lemma rcv_deliver_ok s T K m msg msgsz dest : sys_ok sec s T K -> msgs s !! m = None -> text_ok msg -> 0 <= dest ->
  rcv_deliver (carry s m msg) m msgsz dest =
    Some (s, if dest <? Z.min (m_ts msg) msgsz then Done (- EFAULT) else Got (m_type msg) (take (Z.to_nat (Z.min (m_ts msg) msgsz)) (bytes msg))).
Proof.
  intros Hs Hm Htx Hd. unfold rcv_deliver. change (msgs (carry s m msg)) with (<[m := msg]> (msgs s)). rewrite lookup_insert_eq. cbn [mbind option_bind].
  assert ((if m_ts msg <? msgsz then m_ts msg else msgsz) = Z.min (m_ts msg) msgsz) as -> by (destruct (Z.ltb_spec (m_ts msg) msgsz); lia).
  assert (0 <= m_ts msg) by apply Htx. rewrite store_msg_ok by (done || lia). cbn [mbind option_bind]. rewrite carry_free by done. cbn [mbind option_bind].
  by destruct (dest <? _).
Qed.

Lemma rcv_try_ok s T K a o t msgtyp mode msgsz msgflg dest : sys_ok sec s T K -> live T a -> objs (ipc s) !! a = Some o -> receivers s !! who t = None ->
  0 <= dest -> fine s T (rcv_try sec task_tgid_vnr (hold s a o) t a msgtyp mode msgsz msgflg dest).
Proof.
  intros Hs Ha Ho Ht Hd. destruct (here_ok _ s T K a o Hs Ha Ho) as [_ Hok]. unfold rcv_try. rewrite hold_obj. cbn [mbind option_bind set_perm body].
  destruct (negb _); [by apply (rcv_fail_ok s T K)|]. change (msgs (hold s a o)) with (msgs s).
  destruct (find_msg_total (msgs s) (who t) mode (q_messages (body o))) with (msgtyp := msgtyp) (found := @None addr) as ([m|] & -> & Hf).
  { intros m [msg Hm]%(qo_mail _ _ _ _ _ _ Hok). rewrite (mail_some _ s T K Hs _ _ Hm). by eexists. }
  - destruct Hf as [Hf|]; [|done]. apply (qo_mail _ _ _ _ _ _ Hok) in Hf as [msg Hm]. cbn [mbind option_bind]. rewrite (mail_some _ s T K Hs _ _ Hm). cbn [mbind option_bind snd].
    destruct (_ && _); [by apply (rcv_fail_ok s T K)|]. rewrite upd_hold. cbn [mbind option_bind].
    set (q1 := set_fill _ _ _). pose proof (ok_dequeue _ s T K a o Hs Ha Ho q1 m msg Hm eq_refl eq_refl eq_refl eq_refl eq_refl) as Hs1.
    set (s1 := set_counts _ _ _) in Hs1. set (s2 := set_counts (upd s a (set_body o q1)) (s32 (msg_bytes s - m_ts msg)) (s32 (msg_hdrs s - 1))).
    change (set_counts (hold _ _ _) _ _) with (hold s2 a (set_body o q1)).
    destruct (wakeup_ok false (q_senders (body o)) (hold s2 a (set_body o q1))) as [W ->].
    { intros t' (x & Hx & _)%(qo_snd _ _ _ _ _ _ Hok). by exists x. }
    cbn [mbind option_bind]. change (set_woken _ W) with (hold (set_woken s2 W) a (set_body o q1)).
    rewrite unlock_hold; [|apply lookup_insert_eq|apply Hs1]. cbn [mbind option_bind].
    assert (set_woken s2 W = carry (set_woken s1 W) m msg) as ->.
    { unfold carry, s1, s2. simpl. rewrite insert_delete_id by (by rewrite (mail_some _ s T K Hs _ _ Hm)). by destruct s. }
    rewrite (rcv_deliver_ok (set_woken s1 W) T (delete m K)); [|by apply ok_woken|apply lookup_delete_eq|apply (s_text _ _ _ _ Hs _ _ Hm)|done].
    eexists _, _, _. split; [done|]. split; [by apply ok_woken|done].
  - cbn [mbind option_bind]. destruct (negb _); [by apply (rcv_fail_ok s T K)|]. rewrite upd_hold. cbn [mbind option_bind].
    rewrite unlock_hold; [|apply lookup_insert_eq|apply calm_put; [apply Hs|apply (here_unlocked _ s T K a o Hs Ho)]]. cbn [mbind option_bind].
    eexists _, _, _. split; [done|]. split; [|done]. apply ok_woken, (ok_rcv_sleep _ s T K a o Hs Ha Ho); [done|done|].
    intros m msg Hm. apply (proj2 Hf m); [apply (qo_mail _ _ _ _ _ _ Hok); by exists msg|by rewrite (mail_some _ s T K Hs _ _ Hm)].
Qed.

Lemma do_msgrcv_ok s T K t msqid msgsz msgtyp msgflg dest : sys_ok sec s T K -> receivers s !! who t = None -> msqid < 2 ^ 31 -> 0 <= dest ->
  fine s T (do_msgrcv sec task_tgid_vnr s t msqid msgsz msgtyp msgflg dest).
Proof.
  intros Hs Ht Hid Hd. unfold do_msgrcv. destruct ((msqid <? 0) || _) eqn:Hc; [by apply (fine_same s T K)|].
  apply orb_false_iff in Hc as [Hid0%Z.ltb_ge _]. destruct (convert_mode msgtyp msgflg) as [ty mode].
  destruct (lookup_msqid s T K msqid Hs ltac:(lia)) as [[err ->]|(a & o & -> & Ha & Ho & _)]; cbn [mbind option_bind].
  - replace (set_ipc s (ipc s)) with s by (by destruct s). by apply (fine_same s T K).
  - by apply (rcv_try_ok s T K).
Qed.

(** A receiver that wakes up finds its queue, or does not need it. *)
Lemma rcv_wake_ok s T K t dest : sys_ok sec s T K -> is_Some (receivers s !! who t) -> 0 <= dest ->
  fine s T (rcv_wake sec task_tgid_vnr s t dest).
Proof.
  intros Hs [r Hr] Hd. unfold rcv_wake. rewrite Hr. cbn [mbind option_bind]. destruct (r_msg r) as [e|m] eqn:Hm.
  - destruct (Z.eqb_spec e (- EAGAIN)) as [->|He]; [|eexists _, _, _; split; [done|]; split; [by apply (ok_rcv_error _ s T K (who t) r e)|done]].
    set (a := r_msq r). assert (waits r a) as Hw by done. pose proof (s_wait _ _ _ _ Hs _ _ _ Hr Hw) as Ha.
    destruct (live_obj s T a (s_table _ _ _ _ Hs) Ha) as (o & Ho & _). pose proof (s_calm _ _ _ _ Hs) as Hc.
    set (s0 := set_receivers s (delete (who t) (receivers s))).
    rewrite (lock_ptr (rcu_read_lock (ipc s0)) a o Ho (here_unlocked _ s T K a o Hs Ho)). cbn [lift mbind option_bind].
    assert (rcu_read_unlock (ipc (set_ipc s0 (locked (rcu_read_lock (ipc s0)) a o))) = Some (locked (ipc s) a o)) as ->.
    { destruct Hc as (Hu & Hr0 & Hp). unfold rcu_read_unlock, locked. simpl. rewrite Hr0. simpl. rewrite no_callbacks by done.
      unfold put_obj, set_objs, set_rcu, rcu_read_lock. simpl. by rewrite Hr0. }
    cbn [lift mbind option_bind]. change (set_ipc (set_ipc s0 _) (locked (ipc s) a o)) with (hold s0 a o). rewrite upd_hold. cbn [mbind option_bind].
    set (q1 := set_lists _ _ _ _). set (s1 := upd s0 a (set_body o q1)).
    assert (sys_ok sec s1 T K) as Hs1.
    { apply (ok_rcv_drop _ s T K a o Hs Ha Ho q1 (who t) r (delete (who t) (receivers s))); try done.
      - intros t' Hn. by rewrite lookup_delete_ne.
      - rewrite lookup_delete_eq. done. }
    assert (objs (ipc s1) !! a = Some (set_body o q1)) as Ho1 by apply lookup_insert_eq.
    destruct (signal_pending t); [by apply (rcv_fail_ok s1 T K)|]. apply (rcv_try_ok s1 T K); try done. apply lookup_delete_eq.
  - destruct (proj2 (s_rcv _ _ _ _ Hs (who t) m)) as [msg Hk]; [by exists r|]. pose proof (ok_rcv_gone _ s T K (who t) r m Hs Hr Hm) as Hs1.
    set (s1 := set_msgs _ _) in Hs1. assert (set_receivers s (delete (who t) (receivers s)) = carry s1 m msg) as ->.
    { unfold carry, s1. simpl. rewrite insert_delete_id by (by rewrite (mail_some _ s T K Hs _ _ Hk)). by destruct s. }
    rewrite (rcv_deliver_ok s1 T (delete m K)); [|done|apply lookup_delete_eq|apply (s_text _ _ _ _ Hs _ _ Hk)|done]. by eexists _, _, _.
Qed.

(** *** Removing *)

Lemma free_all_ok ms : forall s h, NoDup ms -> (forall m, m ∈ ms -> is_Some (msgs s !! m)) -> msg_hdrs s = s32 h ->
  free_all s ms = Some (set_counts (set_msgs s (delete_all (msgs s) ms)) (msg_bytes s) (s32 (h - Z.of_nat (length ms)))).
Proof.
  induction ms as [|m ms IH]; intros s h Hd Hin Hh; cbn [free_all].
  { simpl. rewrite Z.sub_0_r, <- Hh. by destruct s. }
  apply NoDup_cons in Hd as [Hm Hd]. destruct (Hin m ltac:(left)) as [msg Hmsg]. unfold free_msg. simpl. rewrite Hmsg. simpl.
  rewrite (IH _ (h - 1) Hd); simpl.
  - rewrite delete_all_cons. do 2 f_equal. f_equal. lia.
  - intros m' Hm'. rewrite lookup_delete_ne by (intros <-; done). apply Hin. by right.
  - by rewrite Hh, s32_sub.
Qed.

Lemma unlock_removed (w : world msg_queue) idp' a o : calm w -> objs w !! a = Some o ->
  ipc_unlock (removed (locked w a o) idp' a (set_perm o (set_lock (perm o) true))) a = Some (removed w idp' a o).
Proof.
  intros (Hu & Hr & Hp) Ho. unfold ipc_unlock, spin_unlock. simpl. rewrite lookup_insert_eq. simpl. unfold rcu_read_unlock. simpl. rewrite Hr. simpl.
  rewrite no_callbacks by done. f_equal. unfold removed, put_obj, set_objs, set_rcu, set_idr, set_ids, set_perm. simpl. rewrite !insert_insert_eq, Hr.
  do 2 f_equal. f_equal. unfold set_lock, set_deleted. simpl. by rewrite (Hu a o Ho).
Qed.

Lemma freeque_ok s T K a o i : sys_ok sec s T K -> T !! i = Some a -> objs (ipc s) !! a = Some o ->
  exists s' K', freeque (hold s a o) a = Some s' /\ sys_ok sec s' (delete i T) K' /\
    rw_mutex (ids (ipc s')) = rw_mutex (ids (ipc s)) /\ ids_seq (ids (ipc s')) = ids_seq (ids (ipc s)).
Proof.
  intros Hs Hi Ho. assert (live T a) as Ha by (by exists i). destruct (here_ok _ s T K a o Hs Ha Ho) as [Hrc Hok]. pose proof (s_calm _ _ _ _ Hs) as Hc.
  unfold freeque. rewrite hold_obj. cbn [mbind option_bind set_perm body].
  destruct (expunge_ok (- EIDRM) (q_receivers (body o)) (hold s a o)) as [W1 ->].
  { intros t (r & Hr & _)%(qo_rcv _ _ _ _ _ _ Hok). by exists r. }
  cbn [mbind option_bind]. set (R' := mark _ _ _). set (s1 := set_woken (set_receivers s R') W1).
  change (set_woken (set_receivers (hold s a o) R') W1) with (hold s1 a o).
  destruct (wakeup_ok true (q_senders (body o)) (hold s1 a o)) as [W2 ->].
  { intros t (x & Hx & _)%(qo_snd _ _ _ _ _ _ Hok). by exists x. }
  cbn [mbind option_bind]. set (X' := unlink_all _ _). set (s2 := set_woken (set_senders s1 X') W2).
  change (set_woken (set_senders (hold s1 a o) X') W2) with (hold s2 a o).
  assert (table_ok (locked (ipc s) a o) T) as Hlt.
  { apply (table_put (rcu_read_lock (ipc s)) T a o); [|done|done|].
    - apply (table_same_ids (ipc s)); [apply Hs|done|done].
    - apply (here_ref _ s T K a o Hs Ha Ho). }
  destruct (rmid_spec (locked (ipc s) a o) T i a _ Hlt Hi (lookup_insert_eq _ _ _)) as (idp' & Hrm & Hmap).
  change (ipc (hold s2 a o)) with (locked (ipc s) a o). rewrite Hrm. cbn [lift mbind option_bind]. unfold msg_unlock.
  change (ipc (set_ipc (hold s2 a o) ?w)) with w. rewrite (unlock_removed (ipc s) idp' a o Hc Ho). cbn [lift mbind option_bind].
  erewrite free_all_ok; [|apply Hok| |simpl; apply (s_hdrs _ _ _ _ Hs)].
  2:{ intros m [msg Hm]%(qo_mail _ _ _ _ _ _ Hok). simpl. rewrite (mail_some _ s T K Hs _ _ Hm). by eexists. }
  cbn [mbind option_bind]. cbn [ipc set_counts set_msgs set_ipc].
  rewrite (putref_calm _ a (set_perm o (set_deleted (perm o) 1)));
    [|apply lookup_insert_eq|apply Hc|apply Hc|apply (here_ref _ s T K a o Hs Ha Ho)].
  cbn [mbind option_bind]. eexists _, _. split; [done|]. split; [|unfold put_back; simpl; by case_match].
  apply (ok_removed _ s _ T K a o i idp' Hs Hi Ho); try done; simpl.
  - by rewrite (s_hdrs _ _ _ _ Hs), s32_sub.
  - apply mark_lookup.
  - apply unlink_lookup.
  - apply unlink_sleepers.
Qed.

(** *** Control *)

Definition with_rw s (n : Z) : sys := set_ipc s (set_rw (ipc s) n).

(** What is left in the table: one queue may be gone. *)
Definition kept T T' : Prop := T' = T \/ exists i, is_Some (T !! i) /\ T' = delete i T.

Lemma pre_down_ok s T K c id : sys_ok sec s T K -> rw_mutex (ids (ipc s)) = 0 -> - 2 ^ 31 <= id < 2 ^ 31 ->
  (exists e, ipcctl_pre_down c (ipc s) id = Some (ipc s, inl e)) \/
  (exists a o, ipcctl_pre_down c (ipc s) id = Some (ipc (hold (with_rw s (-1)) a o), inr a) /\ live T a /\ objs (ipc s) !! a = Some o).
Proof.
  intros Hs Hrw Hid. unfold ipcctl_pre_down, down_write. rewrite Hrw. cbn [mbind option_bind Z.eqb]. pose proof (ok_rw _ s T K (-1) Hs) as Hs1.
  change (set_rw (ipc s) (-1)) with (ipc (with_rw s (-1))).
  assert (up_write (ipc (with_rw s (-1))) = Some (ipc s)) as Hup.
  { unfold up_write. simpl. f_equal. unfold set_rw, set_ids. simpl. rewrite <- Hrw. destruct s as [w]; simpl. destruct w as [i]; simpl. by destruct i. }
  destruct (lookup_msqid (with_rw s (-1)) T K id Hs1 Hid) as [[e ->]|(a & o & -> & Ha & Ho & _)]; cbn [mbind option_bind].
  { left. exists e. by rewrite Hup. }
  simpl in Ho. change (locked (ipc (with_rw s (-1))) a o) with (ipc (hold (with_rw s (-1)) a o)). rewrite hold_obj. cbn [mbind option_bind].
  destruct (_ || capable _ _); [right; by exists a, o|]. left. exists (- EPERM).
  change (ipc (hold (with_rw s (-1)) a o)) with (locked (ipc (with_rw s (-1))) a o). destruct (s_calm _ _ _ _ Hs) as (Hu & Hr & Hp).
  rewrite (unlock_ptr (ipc (with_rw s (-1))) a o Ho (Hu a o Ho)); [|simpl; lia|done]. cbn [mbind option_bind]. by rewrite Hup.
Qed.

Lemma mark_waiting R a rs : (forall t, t ∈ rs -> exists r, R !! t = Some r /\ waits r a) -> mark (- EAGAIN) R rs = R.
Proof.
  intros Hw. apply map_eq. intros t. rewrite mark_lookup. case_decide as Hi; [|done]. destruct (Hw t Hi) as (r & -> & [_ Hm]). simpl. f_equal.
  destruct r. simpl in *. by subst.
Qed.

(** What a command does with the queue locked. *)
Definition fine_locked s T (r : option (sys * Z)) : Prop := exists s' err T' K', r = Some (s', err) /\ sys_ok sec s' T' K' /\ kept T T' /\
  rw_mutex (ids (ipc s')) = rw_mutex (ids (ipc s)) /\ ids_seq (ids (ipc s')) = ids_seq (ids (ipc s)).

Lemma unlock_fine s T K a o e : sys_ok sec s T K -> objs (ipc s) !! a = Some o -> fine_locked s T (s' ← msg_unlock (hold s a o) a; Some (s', e)).
Proof. intros Hs Ho. rewrite unlock_hold by (done || apply Hs). exists s, e, T, K. split_and!; try done. by left. Qed.

Lemma put_hold s a o o' : set_ipc (hold s a o) (put_obj (ipc (hold s a o)) a (set_perm o' (set_lock (perm o') true))) = hold (upd s a o') a o'.
Proof. unfold hold, upd, locked, set_ipc, put_obj, set_objs, rcu_read_lock, set_rcu. simpl. by rewrite !insert_insert_eq. Qed.

Lemma ctl_set_ok s T K a o t x : sys_ok sec s T K -> live T a -> objs (ipc s) !! a = Some o -> fine_locked s T (msgctl_set (hold s a o) t a x).
Proof.
  intros Hs Ha Ho. destruct (here_ok _ s T K a o Hs Ha Ho) as [Hrc Hok]. unfold msgctl_set. destruct (_ && negb _); [by apply (unlock_fine s T K)|].
  rewrite upd_hold. cbn [mbind option_bind]. rewrite hold_obj. cbn [mbind option_bind].
  set (q1 := set_limit (body o) (now t) x.2). set (o1 := mk_obj (refcount o) (is_vmalloc o) (ipc_update_perm x.1 (perm o)) q1).
  assert (sys_ok sec (upd s a o1) T K) as Hs1 by (by apply (ok_touch _ s T K a o Hs Ha Ho q1); [..|apply (here_unlocked _ s T K a o Hs Ho)]).
  match goal with |- context [set_ipc _ (put_obj _ a ?oo)] => change oo with (set_perm o1 (set_lock (perm o1) true)) end. rewrite put_hold, upd_upd.
  cbn [body set_perm set_body].
  destruct (expunge_ok (- EAGAIN) (q_receivers q1) (hold (upd s a o1) a o1)) as [W1 ->].
  { intros t' (r & Hr & _)%(qo_rcv _ _ _ _ _ _ Hok). by exists r. }
  cbn [mbind option_bind]. change (receivers (hold (upd s a o1) a o1)) with (receivers s).
  rewrite (mark_waiting _ a) by (intros t' Ht'; by apply (qo_rcv _ _ _ _ _ _ Hok)).
  set (s2 := set_woken (upd s a o1) W1). change (set_woken _ W1) with (hold s2 a o1).
  destruct (wakeup_ok false (q_senders q1) (hold s2 a o1)) as [W2 ->].
  { intros t' (y & Hy & _)%(qo_snd _ _ _ _ _ _ Hok). by exists y. }
  cbn [mbind option_bind]. change (set_woken _ W2) with (hold (set_woken s2 W2) a o1).
  rewrite unlock_hold; [|apply lookup_insert_eq|apply Hs1]. exists (set_woken s2 W2), 0, T, K. split; [done|].
  split_and!; try done; [by apply ok_woken, ok_woken|by left].
Qed.

Lemma ctl_locked_ok s T K a o t cmd arg : sys_ok sec s T K -> live T a -> objs (ipc s) !! a = Some o ->
  (cmd =? IPC_SET) && match arg with None => true | Some _ => false end = false -> fine_locked s T (msgctl_locked sec (hold s a o) t a cmd arg).
Proof.
  intros Hs Ha Ho Harg. unfold msgctl_locked. rewrite hold_obj. cbn [mbind option_bind]. destruct (negb _); [by apply (unlock_fine s T K)|].
  destruct (cmd =? IPC_RMID).
  { destruct Ha as [i Hi]. destruct (freeque_ok s T K a o i Hs Hi Ho) as (s' & K' & -> & Hs' & Hrw' & Hsq). cbn [mbind option_bind].
    exists s', 0, (delete i T), K'. split_and!; try done. right. exists i. split; [by exists a|done]. }
  destruct (cmd =? IPC_SET); [|by apply (unlock_fine s T K)]. destruct arg as [x|]; [|done]. by apply (ctl_set_ok s T K).
Qed.

Lemma up_write_ok s T K : sys_ok sec s T K -> rw_mutex (ids (ipc s)) = -1 -> exists s', lift s (up_write (ipc s)) = Some s' /\ sys_ok sec s' T K /\
  rw_mutex (ids (ipc s')) = 0 /\ ids_seq (ids (ipc s')) = ids_seq (ids (ipc s)).
Proof. intros Hs Hrw. unfold up_write. rewrite Hrw. simpl. eexists. split; [done|]. split; [by apply ok_rw|done]. Qed.

Lemma msgctl_down_ok s T K t id cmd arg : sys_ok sec s T K -> rw_mutex (ids (ipc s)) = 0 -> - 2 ^ 31 <= id < 2 ^ 31 ->
  fine_locked s T (msgctl_down sec s t id cmd arg).
Proof.
  intros Hs Hrw Hid. unfold msgctl_down. destruct (_ && _) eqn:Harg; [exists s, (- EFAULT), T, K; split_and!; try done; by left|].
  destruct (pre_down_ok s T K (cr t) id Hs Hrw Hid) as [[e ->]|(a & o & -> & Ha & Ho)]; cbn [mbind option_bind].
  { exists s, e, T, K. replace (set_ipc s (ipc s)) with s by (by destruct s). split_and!; try done. by left. }
  change (set_ipc s (ipc (hold (with_rw s (-1)) a o))) with (hold (with_rw s (-1)) a o).
  destruct (ctl_locked_ok (with_rw s (-1)) T K a o t cmd arg) as (s' & e & T' & K' & -> & Hs' & Hk & Hrw' & Hsq); [by apply ok_rw|done|done|done|].
  cbn [mbind option_bind fst snd]. destruct (up_write_ok s' T' K' Hs' Hrw') as (s2 & -> & Hs2 & Hrw2 & Hsq2). cbn [mbind option_bind].
  exists s2, e, T', K'. split_and!; try done; [congruence|]. by rewrite Hsq2, Hsq.
Qed.

(** *** Creating *)

Lemma table_fresh (w : world msg_queue) T a o : table_ok w T -> objs w !! a = None -> table_ok (put_obj w a o) T.
Proof.
  intros HT Ha. apply (table_same_ids w); [done|done|]. intros b [i Hi]. simpl. rewrite lookup_insert_ne; [done|].
  intros <-. destruct (t_obj _ _ HT i a Hi) as (o' & Ho' & _). congruence.
Qed.

Lemma set_idr_table (w : world msg_queue) T idp' : table_ok w T -> idr_map idp' (Some <$> T) -> table_ok (set_idr w idp' (in_use (ids w))) T.
Proof. intros [A1 A2 A3 A4 A5 A6] Hm. by constructor. Qed.

(** An object that was allocated and given back. *)
Lemma put_back_fresh (w : world msg_queue) a o : objs w !! a = None -> refcount o = 1 ->
  objs (put_back (put_obj w a o) a o) = objs w /\ ids (put_back (put_obj w a o) a o) = ids w /\
  rcu (put_back (put_obj w a o) a o) = rcu w /\ pending (put_back (put_obj w a o) a o) = pending w.
Proof. intros Ha Hr. unfold put_back. rewrite Hr. simpl. rewrite delete_insert_id by done. done. Qed.

Definition new_queue (e : new_env) (ctlmnb : Z) : msg_queue := mk_queue 0 0 (env_now e) 0 0 ctlmnb 0 0 [] [] [].

(** A queue was created. *)
Definition created (c : cred) (ctlmnb : Z) (w : world msg_queue) T (params : ipc_params) (e : new_env) (a : addr) (w' : world msg_queue) (r i : Z) : Prop :=
  r = IPCMNI * ids_seq (ids w) + i /\ IdrAlloc.least_free (dom T) 0 i /\ 0 <= i < IPCMNI /\ ids_seq (ids w') = u16 (ids_seq (ids w) + 1) /\
  rw_mutex (ids w') = rw_mutex (ids w) /\ objs w !! a = None /\
  exists v, objs w' = <[a := mk_obj 1 v (mk_perm false 0 r (params_key params) (euid c) (egid c) (euid c) (egid c) (Z.land (flg params) S_IRWXUGO) (ids_seq (ids w)))
                         (new_queue e ctlmnb)]> (objs w).

Lemma newque_spec size c mni mnb s T K params e : sys_ok sec s T K -> 11 <= id_free_cnt (ipcs_idr (ids (ipc s))) ->
  (forall a p b, env_mem e = Some (a, p, b) -> objs (ipc s) !! a = None) ->
  (params_key params = IPC_PRIVATE \/ forall b, live T b -> key_of (ipc s) b <> Some (params_key params)) ->
  exists w' r, newque size c mni mnb (ipc s) params e = Some (w', r) /\
    ((exists a i, env_sec e = 0 /\ created c mnb (ipc s) T params e a w' r i /\ sys_ok sec (set_ipc s w') (<[i := a]> T) K) \/
     ((r = - ENOMEM /\ env_mem e = None \/ r = env_sec e /\ r <> 0 \/ r = - ENOSPC /\ Z.min mni IPCMNI <= in_use (ids (ipc s))) /\
      objs w' = objs (ipc s) /\ ids w' = ids (ipc s) /\ sys_ok sec (set_ipc s w') T K)).
Proof.
  intros Hs Hcnt Hmem Hkey. pose proof (s_calm _ _ _ _ Hs) as (Hu & Hr & Hp). unfold newque. destruct (env_mem e) as [[[a p] b]|]; cbn [ipc_rcu_alloc].
  2:{ exists (ipc s), (- ENOMEM). split; [done|]. right. split; [by left|]. split; [done|]. split; [done|].
      by replace (set_ipc s (ipc s)) with s by (by destruct s). }
  pose proof (Hmem a p b eq_refl) as Ha. cbn [objs put_obj set_objs]. rewrite lookup_insert_eq. cbn [mbind option_bind].
  set (o1 := set_perm _ _). assert (put_obj (put_obj (ipc s) a (mk_obj 1 (rcu_use_vmalloc size) p b)) a o1 = put_obj (ipc s) a o1) as ->.
  { unfold put_obj, set_objs. simpl. by rewrite insert_insert_eq. }
  set (w1 := put_obj (ipc s) a o1). assert (objs w1 !! a = Some o1) as Ho1 by apply lookup_insert_eq.
  pose proof (table_fresh (ipc s) T a o1 (s_table _ _ _ _ Hs) Ha) as Ht1. fold w1 in Ht1.
  assert (forall r, r <> 0 -> (r = env_sec e \/ r = - ENOSPC /\ Z.min mni IPCMNI <= in_use (ids (ipc s))) -> exists w' r', (w ← ipc_rcu_putref w1 a; Some (w, r)) = Some (w', r') /\
    ((exists a i, env_sec e = 0 /\ created c mnb (ipc s) T params e a w' r' i /\ sys_ok sec (set_ipc s w') (<[i := a]> T) K) \/
     ((r' = - ENOMEM /\ Some (a, p, b) = None \/ r' = env_sec e /\ r' <> 0 \/ r' = - ENOSPC /\ Z.min mni IPCMNI <= in_use (ids (ipc s))) /\
      objs w' = objs (ipc s) /\ ids w' = ids (ipc s) /\ sys_ok sec (set_ipc s w') T K))) as Hfail.
  { intros r Hr0 Hcase. rewrite (putref_calm w1 a o1) by done. cbn [mbind option_bind]. eexists _, r. split; [done|]. right.
    destruct (put_back_fresh (ipc s) a o1 Ha eq_refl) as (E1 & E2 & E3 & E4). change (put_obj (ipc s) a o1) with w1 in E1, E2, E3, E4.
    split; [right; destruct Hcase as [?|?]; [by left|by right]|]. split; [done|]. split; [done|].
    apply ok_world; [done| | |done].
    - apply (table_same_ids (ipc s)); [apply Hs|done|]. intros b' _. by rewrite E1.
    - split; [intros b' ob'; rewrite E1; apply Hu|]. rewrite E3, E4. done. }
  destruct (Z.eqb_spec (env_sec e) 0) as [He|He]; [|apply Hfail; [done|by left]].
  destruct (decide (Z.min mni IPCMNI <= in_use (ids w1))) as [Hfull|Hroom].
  { rewrite addid_full by done. cbn [mbind option_bind]. change (- ENOSPC <? 0) with true. cbn iota. apply Hfail; [done|by right]. }
  destruct (addid_spec c w1 T a o1 mni Ht1 Ho1) as (idp' & [(i & Hadd & Hi & Hir & Hmap)|(_ & Hc & _)]); [simpl; lia|done|lia| |simpl in Hc; lia].
  rewrite Hadd. cbn [mbind option_bind]. rewrite (proj2 (Z.ltb_ge i 0)) by lia. cbn [objs added]. rewrite lookup_insert_eq. cbn [mbind option_bind].
  assert (T !! i = None) as Hni by (by apply not_elem_of_dom, Hi).
  set (o2 := mk_obj 1 (is_vmalloc o1) (mk_perm false 0 (IPCMNI * ids_seq (ids (ipc s)) + i) (params_key params) (euid c) (egid c) (euid c) (egid c)
    (Z.land (flg params) S_IRWXUGO) (ids_seq (ids (ipc s)))) (new_queue e mnb)).
  set (w2 := mk_world (ids (added c w1 idp' a o1 i)) (<[a := o2]> (objs (ipc s))) 0 [] (freed (ipc s))).
  assert (forall o, perm o = perm (set_perm o1 (new_perm c (perm o1) i (ids_seq (ids w1)))) ->
    ipc_unlock (put_obj (added c w1 idp' a o1 i) a (set_body o (new_queue e mnb))) a =
      Some (mk_world (ids (added c w1 idp' a o1 i)) (<[a := mk_obj (refcount o) (is_vmalloc o) (perm o2) (new_queue e mnb)]> (objs (ipc s))) 0 [] (freed (ipc s)))) as Hun.
  { intros o Hpo. unfold ipc_unlock, spin_unlock. simpl. rewrite lookup_insert_eq. simpl. rewrite Hpo. simpl. unfold rcu_read_unlock. simpl. rewrite Hr. simpl.
    rewrite no_callbacks by done. unfold put_obj, set_objs, set_rcu. simpl. rewrite !insert_insert_eq, Hp. done. }
  change (mk_queue 0 0 (env_now e) 0 0 mnb 0 0 [] [] []) with (new_queue e mnb). rewrite Hun by done. cbn [mbind option_bind].
  exists w2, (IPCMNI * ids_seq (ids (ipc s)) + i). split; [done|]. left. exists a, i. split; [done|]. split.
  { split_and!; try done; [lia..|]. by eexists. }
  assert (table_ok (added c w1 idp' a o1 i) (<[i := a]> T)) as Ht2.
  { apply table_added; try done. intros j Hj. destruct (t_obj _ _ (s_table _ _ _ _ Hs) j a Hj) as (o' & Ho' & _). congruence. }
  apply (ok_created _ s T K w2 i a o2 (env_now e) mnb Hs); try done.
  - assert (table_ok (put_obj (added c w1 idp' a o1 i) a o2) (<[i := a]> T)) as Ht3 by (eapply table_put; [exact Ht2|apply lookup_insert_eq|done|done]).
    apply (table_same_ids _ w2 _ Ht3); [done|]. intros b' _. simpl. by rewrite !insert_insert_eq.
  - split; [|done]. intros b' ob'. simpl. destruct (decide (a = b')) as [<-|]; [rewrite lookup_insert_eq; by intros [= <-]|]. rewrite lookup_insert_ne by done. apply Hu.
Qed.

(** [idr_pre_get] fails only when the layers it gets do not fill the list. *)
Definition few_layers (idp : idr) (zalloc : list addr) : Prop := id_free_cnt idp + Z.of_nat (length zalloc) < IDR_FREE_MAX.

Lemma pre_get_few zalloc : forall idp idp', idr_pre_get idp zalloc = Some (idp', 0) -> few_layers idp zalloc.
Proof.
  unfold few_layers. induction zalloc as [|new zalloc IH]; intros idp idp'; cbn [idr_pre_get length]; (destruct (Z.ltb_spec (id_free_cnt idp) IDR_FREE_MAX); [|done]); [lia|].
  destruct (move_to_free_list (put idp new zero_layer) new) as [idp1|] eqn:Hm; [|done]. cbn [mbind option_bind]. intros Hp%IH.
  unfold move_to_free_list in Hm. destruct (_ !! new); [|done]. cbn [mbind option_bind] in Hm. injection Hm as <-. simpl in Hp. lia.
Qed.

Lemma pre_get_table idp T zalloc : idr_map idp (Some <$> T) -> NoDup zalloc -> (forall a, a ∈ zalloc -> mem idp !! a = None) ->
  exists idp' rv, idr_pre_get idp zalloc = Some (idp', rv) /\ idr_map idp' (Some <$> T) /\ (rv = 1 /\ 11 <= id_free_cnt idp' \/ rv = 0 /\ few_layers idp zalloc).
Proof.
  intros (A & Fr & W) Hd Hz. destruct (IdrRemove.idr_pre_get_inv zalloc idp A _ _ Fr W Hd Hz) as (idp' & rv & Fr' & Hp & W' & _ & _ & Hrv).
  exists idp', rv. split; [done|]. split; [by exists A, Fr'|]. destruct Hrv as [[-> Hl]|[-> _]]; [left|right; split; [done|by apply (pre_get_few _ _ idp')]].
  split; [done|]. rewrite (IdrInv.w_cnt W'). lia.
Qed.

(** The errors of [msgget] for a new queue, each with its condition: no memory for
    the layers of the idr or for the queue, the security module, too many queues. *)
Definition new_result (s : sys) (zalloc : list addr) (e : new_env) (r : Z) : Prop :=
  r = - ENOMEM /\ (few_layers (ipcs_idr (ids (ipc s))) zalloc \/ env_mem e = None) \/ r = env_sec e /\ r <> 0 \/
  r = - ENOSPC /\ Z.min (msg_ctlmni s) IPCMNI <= in_use (ids (ipc s)).

(** The answer for a queue [o] with the key: it must not be there, or the caller
    may not have the access it asks for, or the security module has its say, or
    the caller gets the id. *)
Definition found_result (c : cred) (o : ipc_obj msg_queue) (msgflg r : Z) : Prop :=
  let o := set_perm o (set_lock (perm o) true) in
  let granted := allowed c (perm o) (s16 msgflg) /\ security_ipc_permission c (perm o) (s16 msgflg) = 0 in
  let excl := Z.land msgflg IPC_CREAT <> 0 /\ Z.land msgflg IPC_EXCL <> 0 in
  excl /\ r = - EEXIST \/
  ~ excl /\ (~ granted /\ r = - EACCES \/
            granted /\ sec_associate sec o msgflg <> 0 /\ r = sec_associate sec o msgflg \/
            granted /\ sec_associate sec o msgflg = 0 /\ r = perm_id (perm o)).

Lemma check_found_result size c s k msgflg o :
  found_result c o msgflg (check_found c (msg_ops sec size c s) (mk_params k msgflg) (set_perm o (set_lock (perm o) true))).
Proof.
  unfold found_result, check_found. cbn [flg more_checks msg_ops]. destruct (Z.eqb_spec (Z.land msgflg IPC_CREAT) 0), (Z.eqb_spec (Z.land msgflg IPC_EXCL) 0); cbn [negb andb].
  4: { by left. }
  all: right; (split; [tauto|]); change (0 =? 0) with true; cbn iota; unfold ipc_check_perms; cbn [flg associate msg_ops];
    match goal with |- context [ipcperms ?c ?p ?f =? 0] => destruct (Z.eqb_spec (ipcperms c p f) 0) as [Hp|Hp]; rewrite (ipcperms_zero c p f) in Hp end;
    [|by left]; match goal with |- context [?x =? 0] => destruct (Z.eqb_spec x 0); [by right; right|by right; left] end.
Qed.

(** The outcome of [msgget]: a queue with the key was found, or there is none. *)
Definition get_result (c : cred) s T (k msgflg : Z) (zalloc : list addr) (e : new_env) (r : Z) T' (w' : world msg_queue) : Prop :=
  (k <> IPC_PRIVATE /\ T' = T /\ objs w' = objs (ipc s) /\ exists a o, live T a /\ objs (ipc s) !! a = Some o /\ key (perm o) = k /\ found_result c o msgflg r) \/
  ((k = IPC_PRIVATE \/ forall b, live T b -> key_of (ipc s) b <> Some k) /\
     ((k <> IPC_PRIVATE /\ Z.land msgflg IPC_CREAT = 0 /\ r = - ENOENT /\ T' = T /\ objs w' = objs (ipc s)) \/
      ((k = IPC_PRIVATE \/ Z.land msgflg IPC_CREAT <> 0) /\
        (new_result s zalloc e r /\ T' = T /\ objs w' = objs (ipc s) \/
         exists a i, env_sec e = 0 /\ T' = <[i := a]> T /\ created c (msg_ctlmnb s) (ipc s) T (mk_params k msgflg) e a w' r i)))).

Definition env_ok s (e : new_env) : Prop := env_sec e <> - EAGAIN /\ forall a p b, env_mem e = Some (a, p, b) -> objs (ipc s) !! a = None.

Section get.
Context (size : Z) (c : cred) (s : sys) (T : gmap Z addr) (K : gmap addr (owner * msg_msg)) (e : new_env) (idp' : idr).
Context (Hs : sys_ok sec s T K) (Hrw : rw_mutex (ids (ipc s)) = 0) (Hmap : idr_map idp' (Some <$> T)) (Henv : env_ok s e).

(** The world after [idr_pre_get] and [down_write]. *)
Definition ready : sys := with_rw (set_ipc s (set_idr (ipc s) idp' (in_use (ids (ipc s))))) (-1).

Lemma ready_ok : sys_ok sec ready T K.
Proof. apply ok_rw, ok_world; [done|apply set_idr_table; [apply Hs|done]|apply Hs|done]. Qed.

Lemma ready_down : down_write (set_idr (ipc s) idp' (in_use (ids (ipc s)))) = Some (ipc ready).
Proof. unfold down_write. simpl. by rewrite Hrw. Qed.

(** A new queue, and [up_write]. *)
Lemma getnew_ok k msgflg : 11 <= id_free_cnt idp' -> (k = IPC_PRIVATE \/ forall b, live T b -> key_of (ipc s) b <> Some k) ->
  exists w1 w2 r T', newque size c (msg_ctlmni s) (msg_ctlmnb s) (ipc ready) (mk_params k msgflg) e = Some (w1, r) /\ up_write w1 = Some w2 /\ r <> - EAGAIN /\
    sys_ok sec (set_ipc s w2) T' K /\ rw_mutex (ids w2) = 0 /\
    ((forall zalloc, new_result s zalloc e r) /\ T' = T /\ objs w2 = objs (ipc s) /\ ids_seq (ids w2) = ids_seq (ids (ipc s)) \/
     exists a i, env_sec e = 0 /\ T' = <[i := a]> T /\ created c (msg_ctlmnb s) (ipc s) T (mk_params k msgflg) e a w2 r i).
Proof.
  intros Hcnt Hkey. destruct Henv as [He Hm]. destruct (newque_spec size c (msg_ctlmni s) (msg_ctlmnb s) ready T K (mk_params k msgflg) e ready_ok Hcnt Hm Hkey)
    as (w1 & r & Hnew & [(a & i & He0 & Hc & Hok)|(Hcase & Ho & Hi & Hok)]).
  - exists w1, (set_rw w1 0), r, (<[i := a]> T). destruct Hc as (Hr & Hf & Hir & Hsq & Hrw1 & Hna & Hobj). split; [done|].
    split; [unfold up_write; by rewrite Hrw1|]. split.
    { pose proof (t_seq _ _ (s_table _ _ _ _ Hs)). simpl in Hr. unfold IPCMNI, EAGAIN in *. lia. }
    split; [by apply (ok_rw _ _ _ _ 0) in Hok|]. split; [done|]. right. exists a, i. split; [done|]. split; [done|]. split_and!; try done; lia.
  - exists w1, (set_rw w1 0), r, T. split; [done|]. split; [unfold up_write; by rewrite Hi|]. split.
    { destruct Hcase as [[-> _]|[[-> _]|[-> _]]]; done. }
    split; [by apply (ok_rw _ _ _ _ 0) in Hok|]. split; [done|]. left. split; [|by split_and!; [..|simpl; rewrite Hi]].
    intros zalloc. destruct Hcase as [[-> ?]|[?|?]]; [left; split; [done|by right]|by right; left|by right; right].
Qed.

Lemma found_ok a o : live T a -> objs (ipc s) !! a = Some o -> ipc_lock_by_ptr (ipc ready) a = Some (locked (ipc ready) a o) /\
  ipc_unlock (locked (ipc ready) a o) a = Some (ipc ready).
Proof.
  intros Ha Ho. destruct (s_calm _ _ _ _ Hs) as (Hu & Hr & Hp). pose proof (Hu a o Ho).
  split; [by apply lock_ptr|]. apply unlock_ptr; [done|done|simpl; lia|done].
Qed.

End get.

(** A bind is run one step at a time where the loop over the ids follows: the
    reduction must not unfold the loop. *)
Lemma lift_some s w : lift s (Some w) = Some (set_ipc s w).
Proof. done. Qed.

(** What [msgget] ends with. *)
Definition got c s T (k msgflg : Z) (zalloc : list addr) (e : new_env) (K : gmap addr (owner * msg_msg)) (ret : option (world msg_queue * Z)) : Prop :=
  exists w' r T', ret = Some (w', r) /\ sys_ok sec (set_ipc s w') T' K /\ rw_mutex (ids w') = 0 /\ get_result c s T k msgflg zalloc e r T' w' /\
    (T' = T -> ids_seq (ids w') = ids_seq (ids (ipc s))).

Section get_key.
Context (size : Z) (c : cred) (s : sys) (T : gmap Z addr) (K : gmap addr (owner * msg_msg)) (k msgflg : Z) (zalloc : list addr) (e : new_env).
Context (Hs : sys_ok sec s T K) (Hrw : rw_mutex (ids (ipc s)) = 0) (Henv : env_ok s e) (Hsec : forall o, sec_associate sec o msgflg <> - EAGAIN).

Lemma new_got idp' again : idr_map idp' (Some <$> T) -> 11 <= id_free_cnt idp' -> (k = IPC_PRIVATE \/ forall b, live T b -> key_of (ipc s) b <> Some k) ->
  (k = IPC_PRIVATE \/ Z.land msgflg IPC_CREAT <> 0) ->
  got c s T k msgflg zalloc e K
    (r ← newque size c (msg_ctlmni s) (msg_ctlmnb s) (ipc (ready s idp')) (mk_params k msgflg) e;
     w ← up_write (r.1); if r.2 =? - EAGAIN then again w else Some (w, r.2)).
Proof.
  intros Hmap Hcnt Hno Hcr. destruct (getnew_ok size c s T K e idp' Hs Hrw Hmap Henv k msgflg Hcnt Hno) as (w1 & w2 & r & T' & -> & Hup & Hr & Hok & Hrw2 & Hres).
  cbn [mbind option_bind fst snd]. rewrite Hup. cbn [mbind option_bind]. rewrite (proj2 (Z.eqb_neq _ _) Hr). exists w2, r, T'. split_and!; try done.
  - right. split; [done|]. right. split; [done|]. destruct Hres as [(?&?&?&_)|?]; [left; by split_and!|by right].
  - destruct Hres as [(_&_&_&?)|(a & i & _ & -> & (_ & (_ & Hf & _) & _))]; [done|]. intros E. destruct Hf. rewrite <- E, dom_insert. apply elem_of_union. left. by apply elem_of_singleton.
Qed.

Lemma ready_up idp' : up_write (ipc (ready s idp')) = Some (set_rw (ipc (ready s idp')) 0).
Proof. done. Qed.

(** Nothing was created. *)
Lemma same_got idp' r : idr_map idp' (Some <$> T) -> get_result c s T k msgflg zalloc e r T (set_rw (ipc (ready s idp')) 0) ->
  got c s T k msgflg zalloc e K (Some (set_rw (ipc (ready s idp')) 0, r)).
Proof. intros Hmap Hres. eexists _, r, T. split; [done|]. split; [apply (ok_rw _ _ T K 0 (ready_ok s T K idp' Hs Hmap))|]. done. Qed.

(** [check_found] never asks to try again. *)
Lemma found_err i a o : T !! i = Some a -> objs (ipc s) !! a = Some o ->
  check_found c (msg_ops sec size c s) (mk_params k msgflg) (set_perm o (set_lock (perm o) true)) <> - EAGAIN.
Proof.
  intros Hi Ho. unfold check_found. destruct (_ && _); [done|]. cbn [more_checks msg_ops]. change (0 =? 0) with true. cbn iota. unfold ipc_check_perms.
  destruct (_ =? 0); [|done]. cbn [associate msg_ops flg]. destruct (sec_associate _ _ _ =? 0); [|apply Hsec].
  simpl. destruct (t_obj _ _ (s_table _ _ _ _ Hs) i a Hi) as (o' & Ho' & Hok). simplify_eq. rewrite (o_id _ _ Hok).
  pose proof (o_seq _ _ Hok). pose proof (t_range _ _ (s_table _ _ _ _ Hs) i ltac:(by exists a)). unfold IPCMNI, EAGAIN in *. lia.
Qed.

Lemma public_got tries : k <> IPC_PRIVATE -> NoDup zalloc -> (forall a, a ∈ zalloc -> mem (ipcs_idr (ids (ipc s))) !! a = None) ->
  got c s T k msgflg zalloc e K (ipcget_public c (msg_ops sec size c s) (mk_params k msgflg) ((zalloc, e) :: tries) (ipc s)).
Proof.
  intros Hk Hd Hz. destruct (pre_get_table _ T zalloc (t_idr _ _ (s_table _ _ _ _ Hs)) Hd Hz) as (idp' & rv & Hpre & Hmap & Hrv).
  cbn [ipcget_public]. rewrite Hpre, bind_some. cbn [fst snd]. rewrite (ready_down s idp' Hrw), bind_some.
  pose proof (ready_ok s T K idp' Hs Hmap) as Hok. cbn [params_key].
  destruct (ipc_findkey_spec _ T k (s_table _ _ _ _ Hok) (proj1 (s_calm _ _ _ _ Hok))) as [(a & i & o & -> & Hi & Ho & Hka & _)|[-> Hfk]]; cbn [mbind option_bind].
  - assert (live T a) as Ha by (by exists i). destruct (found_ok s T K idp' Hs a o Ha Ho) as [L1 L2].
    change (objs (locked (ipc (ready s idp')) a o) !! a) with (objs (ipc (hold (ready s idp') a o)) !! a). rewrite hold_obj. cbn [mbind option_bind]. rewrite L2. cbn [mbind option_bind fst snd].
    rewrite ready_up. cbn [mbind option_bind]. rewrite (proj2 (Z.eqb_neq _ _) (found_err i a o Hi Ho)). apply same_got; [done|].
    left. split_and!; try done. exists a, o. split_and!; try done. apply check_found_result.
  - assert (forall b, live T b -> key_of (ipc s) b <> Some k) as Hno by (intros b [j Hj]; by apply (Hfk j b)).
    cbn [mbind option_bind flg]. destruct (Z.eqb_spec (Z.land msgflg IPC_CREAT) 0) as [Hcr|Hcr].
    + cbn [mbind option_bind fst snd]. rewrite ready_up. cbn [mbind option_bind]. change (- ENOENT =? - EAGAIN) with false. cbn iota. apply same_got; [done|].
      right. split; [by right|]. by left.
    + destruct Hrv as [[-> Hcnt]|[-> Hfew]]; cbn [Z.eqb].
      * apply (new_got idp'); auto.
      * cbn [mbind option_bind fst snd]. rewrite ready_up. cbn [mbind option_bind]. change (- ENOMEM =? - EAGAIN) with false. cbn iota. apply same_got; [done|].
        right. split; [by right|]. right. split; [by right|]. left. split; [|done]. left. split; [done|by left].
Qed.

Lemma private_got tries : k = IPC_PRIVATE -> NoDup zalloc -> (forall a, a ∈ zalloc -> mem (ipcs_idr (ids (ipc s))) !! a = None) ->
  got c s T k msgflg zalloc e K (ipcget_new (msg_ops sec size c s) (mk_params k msgflg) ((zalloc, e) :: tries) (ipc s)).
Proof.
  intros Hk Hd Hz. destruct (pre_get_table _ T zalloc (t_idr _ _ (s_table _ _ _ _ Hs)) Hd Hz) as (idp' & rv & Hpre & Hmap & Hrv).
  cbn [ipcget_new]. rewrite Hpre. cbn [mbind option_bind fst snd]. destruct Hrv as [[-> Hcnt]|[-> Hfew]]; cbn [Z.eqb].
  - rewrite (ready_down s idp' Hrw). apply (new_got idp'); auto.
  - eexists _, _, T. split; [done|]. split; [apply ok_world; [done|apply set_idr_table; [apply Hs|done]|apply Hs|done]|]. split; [done|]. split; [|done].
    right. split; [by left|]. right. split; [by left|]. left. split; [|done]. left. split; [done|by left].
Qed.

Lemma msgget_ok tries : NoDup zalloc -> (forall a, a ∈ zalloc -> mem (ipcs_idr (ids (ipc s))) !! a = None) ->
  exists s' r T', msgget sec size c k msgflg ((zalloc, e) :: tries) s = Some (s', r) /\ sys_ok sec s' T' K /\ rw_mutex (ids (ipc s')) = 0 /\
    get_result c s T k msgflg zalloc e r T' (ipc s') /\ (T' = T -> ids_seq (ids (ipc s')) = ids_seq (ids (ipc s))).
Proof.
  intros Hd Hz. unfold msgget, ipcget. cbn [params_key]. destruct (Z.eqb_spec k IPC_PRIVATE) as [Hk|Hk].
  - destruct (private_got tries Hk Hd Hz) as (w' & r & T' & -> & H). by exists (set_ipc s w'), r, T'.
  - destruct (public_got tries Hk Hd Hz) as (w' & r & T' & -> & H). by exists (set_ipc s w'), r, T'.
Qed.

End get_key.

(** *** The other commands *)

Definition fine_ctl s T (r : option (sys * Z * ctl_data)) : Prop := exists s' err d T' K', r = Some (s', err, d) /\ sys_ok sec s' T' K' /\ kept T T' /\
  rw_mutex (ids (ipc s')) = 0 /\ ids_seq (ids (ipc s')) = ids_seq (ids (ipc s)).

Lemma ctl_same s T K err d : sys_ok sec s T K -> rw_mutex (ids (ipc s)) = 0 -> fine_ctl s T (Some (s, err, d)).
Proof. intros Hs Hrw. exists s, err, d, T, K. split_and!; try done. by left. Qed.

Lemma msgctl_ok s T K t id cmd buf arg : sys_ok sec s T K -> rw_mutex (ids (ipc s)) = 0 -> id < 2 ^ 31 -> fine_ctl s T (msgctl sec s t id cmd buf arg).
Proof.
  intros Hs Hrw Hid. unfold msgctl. destruct ((id <? 0) || _) eqn:Hneg; [by apply (ctl_same s T K)|]. apply orb_false_iff in Hneg as [Hid0%Z.ltb_ge _].
  set (cmd1 := (ipc_parse_version cmd).1). destruct ((cmd1 =? IPC_INFO) || _).
  { destruct buf as [ok|]; [|by apply (ctl_same s T K)]. destruct (negb _); [by apply (ctl_same s T K)|].
    unfold down_read. rewrite Hrw. change (0 <=? 0) with true. cbn iota. rewrite lift_some, bind_some.
    pose proof (ok_rw _ s T K (0 + 1) Hs) as Hs1. set (s1 := set_ipc s (set_rw (ipc s) (0 + 1))) in *. destruct (get_maxid_spec (s_table _ _ _ _ Hs1)) as (r & Hr & _).
    rewrite Hr, bind_some. unfold up_read. change (0 <? rw_mutex (ids (ipc s1))) with true. cbn iota. rewrite lift_some, bind_some.
    pose proof (ok_rw _ s1 T K 0 Hs1) as Hs2. destruct ok; (eexists _, _, _, T, K; split; [done|]; split; [exact Hs2|]; split; [by left|done]). }
  destruct ((cmd1 =? MSG_STAT) || _).
  { destruct buf as [ok|]; [|by apply (ctl_same s T K)]. pose proof (s_calm _ _ _ _ Hs) as (Hu & Hr & Hp).
    assert ((exists e, (if cmd1 =? MSG_STAT then ipc_lock (ipc s) id else ipc_lock_check (ipc s) id) = Some (ipc s, inl e)) \/
      exists a o, (if cmd1 =? MSG_STAT then ipc_lock (ipc s) id else ipc_lock_check (ipc s) id) = Some (locked (ipc s) a o, inr a) /\ objs (ipc s) !! a = Some o)
      as [[e ->]|(a & o & -> & Ho)].
    { destruct (cmd1 =? MSG_STAT); [|destruct (lookup_msqid s T K id Hs ltac:(lia)) as [?|(a & o & ? & _ & ? & _)]; [by left|right; by exists a, o]].
      rewrite (lock_spec (ipc s) T id) by (done || lia || apply Hs). destruct (T !! Z.rem id IPCMNI) as [a|] eqn:Ha; [|left; by eexists].
      destruct (t_obj _ _ (s_table _ _ _ _ Hs) _ a Ha) as (o & Ho & _). rewrite Ho. right. by exists a, o. }
    - cbn [mbind option_bind]. replace (set_ipc s (ipc s)) with s by (by destruct s). by apply (ctl_same s T K).
    - cbn [mbind option_bind]. change (objs (locked (ipc s) a o) !! a) with (objs (ipc (hold s a o)) !! a). rewrite hold_obj. cbn [mbind option_bind].
      change (set_ipc s (locked (ipc s) a o)) with (hold s a o). rewrite unlock_hold by (done || apply Hs). cbn [mbind option_bind].
      destruct (negb _); [by apply (ctl_same s T K)|]. destruct (negb _); [by apply (ctl_same s T K)|]. destruct ok; by apply (ctl_same s T K). }
  destruct (_ || _); [|by apply (ctl_same s T K)].
  destruct (msgctl_down_ok s T K t id cmd1 arg Hs Hrw ltac:(lia)) as (s' & err & T' & K' & -> & H1 & H2 & H3 & H4). cbn [mbind option_bind fst snd].
  exists s', err, NoData, T', K'. split_and!; try done. congruence.
Qed.

(** *** The end of a namespace *)

Lemma exit_loop_ok n fuel : forall s T K i, sys_ok sec s T K -> 0 <= i -> IPCMNI - i <= Z.of_nat fuel -> (forall j, is_Some (T !! j) -> i <= j) ->
  exists s' K', free_ipcs_loop fuel s (n + Z.of_nat (size T)) n i = Some s' /\ sys_ok sec s' ∅ K' /\ rw_mutex (ids (ipc s')) = rw_mutex (ids (ipc s)).
Proof.
  assert (forall (T : gmap Z addr) n, n + Z.of_nat (size T) <= n -> T = ∅) as Hemp by (intros T n' Hle; apply map_size_empty_inv; lia).
  revert n. induction fuel as [|fuel IH]; intros n s T K i Hs Hi Hf Hge; cbn [free_ipcs_loop];
    (destruct (Z.ltb_spec n (n + Z.of_nat (size T))) as [Hlt|Hle]; [|rewrite (Hemp T n Hle) in Hs; by exists s, K]);
    (assert (exists j, is_Some (T !! j)) as (j & Hj) by (destruct (map_choose T) as (j & a & Hj); [intros ->; rewrite map_size_empty in Hlt; lia|exists j; by exists a]));
    pose proof (t_range _ _ (s_table _ _ _ _ Hs) j Hj) as Hr; pose proof (Hge j Hj); [unfold IPCMNI in *; lia|].
  rewrite (table_find (s_table _ _ _ _ Hs)) by (unfold IPCMNI in *; lia). cbn [mbind option_bind]. destruct (T !! i) as [a|] eqn:Ha.
  - destruct (live_obj s T a (s_table _ _ _ _ Hs) ltac:(by exists i)) as (o & Ho & _). rewrite (lock_hold s a o Ho (s_calm _ _ _ _ Hs)). cbn [mbind option_bind].
    destruct (freeque_ok s T K a o i Hs Ha Ho) as (s1 & K1 & -> & Hs1 & Hrw & _). cbn [mbind option_bind].
    destruct (IH (n + 1) s1 (delete i T) K1 (i + 1) Hs1) as (s' & K' & Hr' & Hs' & Hrw'); [lia|lia| |].
    + intros j' [a' [Hne Hj']%lookup_delete_Some]. assert (i <= j') by (apply Hge; by exists a'). lia.
    + exists s', K'. rewrite <- Hrw, <- Hr'. split; [|done]. f_equal. rewrite map_size_delete, Ha. pose proof (map_size_ne_0_lookup_2 T i ltac:(by exists a)). lia.
  - apply (IH n s T K (i + 1)); [done|lia|lia|]. intros j' Hj'. assert (i <= j') by (by apply Hge). destruct (decide (j' = i)) as [->|]; [|lia].
    rewrite Ha in Hj'. by destruct Hj'.
Qed.

Lemma exit_ns_ok s T K : sys_ok sec s T K -> rw_mutex (ids (ipc s)) = 0 -> exists s' K', msg_exit_ns s = Some s' /\ sys_ok sec s' ∅ K' /\ rw_mutex (ids (ipc s')) = 0.
Proof.
  intros Hs Hrw. unfold msg_exit_ns, down_write. rewrite Hrw. change (0 =? 0) with true. cbn iota. rewrite lift_some, bind_some.
  pose proof (ok_rw _ s T K (-1) Hs) as Hs1. set (s1 := set_ipc s (set_rw (ipc s) (-1))) in *.
  destruct (exit_loop_ok 0 (Z.to_nat IPCMNI) s1 T K 0 Hs1) as (s2 & K2 & Hl & Hs2 & Hrw2); [lia|unfold IPCMNI; lia| |].
  { intros j Hj. apply (t_range _ _ (s_table _ _ _ _ Hs) j Hj). }
  assert (in_use (ids (ipc s1)) = 0 + Z.of_nat (size T)) as Hu by (simpl; rewrite (t_use _ _ (s_table _ _ _ _ Hs)); lia).
  rewrite Hu, Hl, bind_some. destruct (up_write_ok s2 ∅ K2 Hs2 Hrw2) as (s3 & -> & Hs3 & Hrw3 & _). by exists s3, K2.
Qed.

End code.

End MsgCode.
