(* ===== verification/MsgTop.v ===== *)
(** * Message queues: what a user can rely on

    The states that calls of [msgget], [msgctl], [msgsnd] and [msgrcv] by any
    tasks lead to, in any order, with sleeping tasks waking up at any time.  The
    ids that were handed out are recorded, with the queue they were given to. *)

From Stdlib Require Import ZArith Lia.
From stdpp Require Import base option gmap fin_maps fin_sets list list_numbers.
From S2P Require Import Prelude Idr IdrInv IdrAlloc IdrGet IdrSpec Ipc IpcSpec Msg MsgInv MsgSpec.

Local Open Scope Z_scope.
Local Open Scope kernel_scope.

Module MsgKeep.
Import Idr Ipc IpcTable Msg MsgInv MsgStep MsgCode.

(** ** No call but [msgget] makes an object or changes its id *)

Definition ids_kept (w w' : world msg_queue) : Prop :=
  forall a o', objs w' !! a = Some o' -> exists o, objs w !! a = Some o /\ perm_id (perm o') = perm_id (perm o).

Lemma ids_kept_refl w : ids_kept w w.
Proof. intros a o' Ho. by exists o'. Qed.

Lemma ids_kept_trans w1 w2 w3 : ids_kept w1 w2 -> ids_kept w2 w3 -> ids_kept w1 w3.
Proof. intros H1 H2 a o3 (o2 & Ho2 & E2)%H2. apply H1 in Ho2 as (o1 & Ho1 & E1). exists o1. split; [done|congruence]. Qed.

Lemma ids_kept_objs w w' : objs w' = objs w -> ids_kept w w'.
Proof. intros E a o'. rewrite E. intros Ho. by exists o'. Qed.

Lemma ids_kept_put w w' a o o' : objs w !! a = Some o -> objs w' = <[a := o']> (objs w) -> perm_id (perm o') = perm_id (perm o) -> ids_kept w w'.
Proof.
  intros Ho E Hid b ob. rewrite E. destruct (decide (a = b)) as [<-|]; [rewrite lookup_insert_eq; intros [= <-]; by exists o|].
  rewrite lookup_insert_ne by done. intros Hb. by exists ob.
Qed.

Lemma ids_kept_callbacks w : ids_kept w (run_callbacks w).
Proof.
  unfold run_callbacks. case_match; [|apply ids_kept_refl]. intros a o'. simpl. induction (pending w) as [|p ps IH]; simpl; [intros Ho; by exists o'|].
  intros [_ Ho]%lookup_delete_Some. by apply IH.
Qed.

(** Take a computation that returned apart. *)
Ltac open_bind H :=
  repeat match type of H with
  | (_ ≫= _) = Some _ => let x := fresh "x" in let E := fresh "E" in apply bind_Some in H as (x & E & H)
  | lift _ _ = Some _ => let x := fresh "x" in let E := fresh "E" in unfold lift in H; apply bind_Some in H as (x & E & H)
  | Some _ = Some _ => injection H as H; subst
  | None = Some _ => discriminate H
  end.

Ltac split_if H := match type of H with context [if ?b then _ else _] => let E := fresh "E" in destruct b eqn:E end.

Lemma ids_kept_spin_lock w a w' : spin_lock w a = Some w' -> ids_kept w w'.
Proof. unfold spin_lock. intros H. open_bind H. split_if H; [done|]. injection H as <-. by eapply ids_kept_put. Qed.

Lemma ids_kept_lock w a w' : ipc_lock_by_ptr w a = Some w' -> ids_kept w w'.
Proof. unfold ipc_lock_by_ptr. intros H%ids_kept_spin_lock. eapply ids_kept_trans; [|exact H]. by apply ids_kept_objs. Qed.

Lemma ids_kept_rcu_unlock w w' : rcu_read_unlock w = Some w' -> ids_kept w w'.
Proof.
  unfold rcu_read_unlock. intros H. split_if H; [|done]. injection H as <-. eapply ids_kept_trans; [|apply ids_kept_callbacks]. by apply ids_kept_objs.
Qed.

Lemma ids_kept_unlock w a w' : ipc_unlock w a = Some w' -> ids_kept w w'.
Proof.
  unfold ipc_unlock, spin_unlock. intros H. open_bind H. open_bind E. split_if E; [|done]. injection E as <-. apply ids_kept_rcu_unlock in H. eapply ids_kept_trans; [|exact H].
  by eapply ids_kept_put.
Qed.

Lemma ids_kept_putref w a w' : ipc_rcu_putref w a = Some w' -> ids_kept w w'.
Proof.
  unfold ipc_rcu_putref. intros H. open_bind H. split_if H; [done|]. split_if H; injection H as <-; [by eapply ids_kept_put|].
  unfold call_rcu. eapply ids_kept_trans; [|apply ids_kept_callbacks]. by eapply ids_kept_put.
Qed.

Lemma ids_kept_getref w a w' : ipc_rcu_getref w a = Some w' -> ids_kept w w'.
Proof. unfold ipc_rcu_getref. intros H. open_bind H. by eapply ids_kept_put. Qed.

Lemma ids_kept_rmid w a w' : ipc_rmid w a = Some w' -> ids_kept w w'.
Proof. unfold ipc_rmid. intros H. open_bind H. by eapply ids_kept_put. Qed.

Lemma ids_kept_rw w n : ids_kept w (set_rw w n).
Proof. by apply ids_kept_objs. Qed.

Lemma ids_kept_up_write w w' : up_write w = Some w' -> ids_kept w w'.
Proof. unfold up_write. intros H. split_if H; [|done]. injection H as <-. apply ids_kept_rw. Qed.

(** What a computation that returns leaves. *)
Definition kp {A} (pr : A -> world msg_queue) (w : world msg_queue) (r : option A) : Prop := forall x, r = Some x -> ids_kept w (pr x).

Lemma kp_bind {A C} (pr : A -> world msg_queue) (pr' : C -> world msg_queue) w (e : option A) f :
  kp pr w e -> (forall x, ids_kept w (pr x) -> kp pr' w (f x)) -> kp pr' w (e ≫= f).
Proof. intros H1 H2 y (x & E & Hf)%bind_Some. apply (H2 x); [by apply H1|done]. Qed.

Lemma kp_any {A C} (pr' : C -> world msg_queue) w (e : option A) f : (forall x, e = Some x -> kp pr' w (f x)) -> kp pr' w (e ≫= f).
Proof. intros H y (x & E & Hf)%bind_Some. by apply (H x). Qed.

Lemma kp_some {A} (pr : A -> world msg_queue) w x : ids_kept w (pr x) -> kp pr w (Some x).
Proof. by intros H y [= <-]. Qed.

Lemma kp_none {A} (pr : A -> world msg_queue) w : kp pr w None.
Proof. done. Qed.

Lemma kp_lift w s r : kp (fun w' => w') w r -> kp ipc w (lift s r).
Proof. intros H. unfold lift. eapply kp_bind; [exact H|]. intros w' Hw'. by apply kp_some. Qed.

Section prim.
Context (w w0 : world msg_queue) (H : ids_kept w w0).

Lemma kp_lock a : kp (fun w' => w') w (ipc_lock_by_ptr w0 a).
Proof. intros w' E. eapply ids_kept_trans; [exact H|by eapply ids_kept_lock]. Qed.
Lemma kp_spin_lock a : kp (fun w' => w') w (spin_lock w0 a).
Proof. intros w' E. eapply ids_kept_trans; [exact H|by eapply ids_kept_spin_lock]. Qed.
Lemma kp_spin_unlock a : kp (fun w' => w') w (spin_unlock w0 a).
Proof. intros w' E. eapply ids_kept_trans; [exact H|]. unfold spin_unlock in E. open_bind E. split_if E; [|done]. injection E as <-. by eapply ids_kept_put. Qed.
Lemma kp_unlock a : kp (fun w' => w') w (ipc_unlock w0 a).
Proof. intros w' E. eapply ids_kept_trans; [exact H|by eapply ids_kept_unlock]. Qed.
Lemma kp_rcu_unlock : kp (fun w' => w') w (rcu_read_unlock w0).
Proof. intros w' E. eapply ids_kept_trans; [exact H|by eapply ids_kept_rcu_unlock]. Qed.
Lemma kp_putref a : kp (fun w' => w') w (ipc_rcu_putref w0 a).
Proof. intros w' E. eapply ids_kept_trans; [exact H|by eapply ids_kept_putref]. Qed.
Lemma kp_getref a : kp (fun w' => w') w (ipc_rcu_getref w0 a).
Proof. intros w' E. eapply ids_kept_trans; [exact H|by eapply ids_kept_getref]. Qed.
Lemma kp_rmid a : kp (fun w' => w') w (ipc_rmid w0 a).
Proof. intros w' E. eapply ids_kept_trans; [exact H|by eapply ids_kept_rmid]. Qed.
Lemma kp_up_write : kp (fun w' => w') w (up_write w0).
Proof. intros w' E. eapply ids_kept_trans; [exact H|by eapply ids_kept_up_write]. Qed.
Lemma kp_down_write : kp (fun w' => w') w (down_write w0).
Proof. intros w' E. eapply ids_kept_trans; [exact H|]. unfold down_write in E. split_if E; [|done]. injection E as <-. apply ids_kept_rw. Qed.
Lemma kp_down_read : kp (fun w' => w') w (down_read w0).
Proof. intros w' E. eapply ids_kept_trans; [exact H|]. unfold down_read in E. split_if E; [|done]. injection E as <-. apply ids_kept_rw. Qed.
Lemma kp_up_read : kp (fun w' => w') w (up_read w0).
Proof. intros w' E. eapply ids_kept_trans; [exact H|]. unfold up_read in E. split_if E; [|done]. injection E as <-. apply ids_kept_rw. Qed.

End prim.

Create HintDb keep.
#[local] Hint Resolve kp_lock kp_spin_lock kp_spin_unlock kp_unlock kp_rcu_unlock kp_putref kp_getref kp_rmid kp_up_write kp_down_write kp_down_read kp_up_read kp_lift kp_none : keep.

(** One step of a computation. *)
Ltac kp_step :=
  first
  [ assumption
  | solve [eauto with keep]
  | apply kp_some; solve [assumption | simpl; assumption | simpl; eauto with keep]
  | match goal with |- kp _ _ (Some _ ≫= _) => rewrite bind_some end
  | eapply kp_bind; [solve [eauto with keep]|intros ? ?]
  | apply kp_any; intros ? ?
  | match goal with
    | |- kp _ _ (let _ := _ in _) => cbv zeta
    | |- kp _ _ (if ?b then _ else _) => destruct b
    | |- kp _ _ (match ?x with _ => _ end) => destruct x
    end ].
Ltac kp_run := repeat kp_step.

Lemma kp_ipc_lock w w0 id : ids_kept w w0 -> kp fst w (ipc_lock w0 id).
Proof.
  intros H. unfold ipc_lock. assert (ids_kept w (rcu_read_lock w0)) by (eapply ids_kept_trans; [exact H|by apply ids_kept_objs]). cbv zeta. kp_run.
Qed.
#[local] Hint Resolve kp_ipc_lock : keep.

Lemma kp_lock_check w w0 id : ids_kept w w0 -> kp fst w (ipc_lock_check w0 id).
Proof. intros H. unfold ipc_lock_check. eapply kp_bind; [by apply kp_ipc_lock|]. intros [w1 [e|a]] H1; simpl in H1; kp_run. Qed.

Lemma kp_pre_down w w0 c id : ids_kept w w0 -> kp fst w (ipcctl_pre_down c w0 id).
Proof.
  intros H. unfold ipcctl_pre_down. eapply kp_bind; [by apply kp_down_write|]. intros w1 H1. eapply kp_bind; [by apply kp_lock_check|].
  intros [w2 [e|a]] H2; simpl in H2; kp_run.
Qed.
#[local] Hint Resolve kp_lock_check kp_pre_down : keep.

Section calls.
Context (sec : security) (task_pid_vnr task_tgid_vnr : tid -> Z) (w : world msg_queue).

Lemma kp_upd_queue s a f : ids_kept w (ipc s) -> kp ipc w (upd_queue s a f).
Proof.
  intros H. unfold upd_queue. apply kp_any. intros o Ho. apply kp_some. eapply ids_kept_trans; [exact H|]. by eapply ids_kept_put.
Qed.

Lemma kp_msg_unlock s a : ids_kept w (ipc s) -> kp ipc w (msg_unlock s a).
Proof. intros H. unfold msg_unlock. eauto with keep. Qed.

Lemma kp_free_msg s m : ids_kept w (ipc s) -> kp ipc w (free_msg s m).
Proof. intros H. unfold free_msg. apply kp_any. intros _ _. by apply kp_some. Qed.

Lemma kp_expunge res rs : forall s, ids_kept w (ipc s) -> kp ipc w (expunge_all s rs res).
Proof. induction rs as [|t rs IH]; intros s H; simpl; [by apply kp_some|]. apply kp_any. intros r _. by apply IH. Qed.

Lemma kp_wakeup kill ts : forall s, ids_kept w (ipc s) -> kp ipc w (ss_wakeup s ts kill).
Proof. induction ts as [|t ts IH]; intros s H; simpl; [by apply kp_some|]. apply kp_any. intros r _. apply IH. by destruct kill. Qed.

Lemma kp_free_all ms : forall s, ids_kept w (ipc s) -> kp ipc w (free_all s ms).
Proof. induction ms as [|m ms IH]; intros s H; cbn [free_all]; [by apply kp_some|]. eapply kp_bind; [by apply kp_free_msg|]. intros s' H'. by apply IH. Qed.

#[local] Hint Resolve kp_upd_queue kp_msg_unlock kp_free_msg kp_expunge kp_wakeup kp_free_all : keep.

Lemma kp_freeque s a : ids_kept w (ipc s) -> kp ipc w (freeque s a).
Proof. intros H. unfold freeque. kp_run. Qed.

Lemma kp_pipelined a m msg now rs : forall s, ids_kept w (ipc s) -> kp (fun x => ipc x.1) w (pipelined_send sec task_pid_vnr s a m msg now rs).
Proof.
  induction rs as [|t rs IH]; intros s H; cbn [pipelined_send]; [by apply kp_some|]. apply kp_any. intros r _. destruct (_ && _); [|by apply IH].
  eapply kp_bind; [by apply kp_upd_queue|]. intros s1 H1. destruct (_ <? _); [by apply IH|]. kp_run.
Qed.

Lemma kp_snd_fail s a m err : ids_kept w (ipc s) -> kp (fun x => ipc x.1) w (snd_fail s a m err).
Proof. intros H. unfold snd_fail. kp_run. Qed.

Lemma kp_enqueue s a m n : ids_kept w (ipc s) -> kp ipc w (enqueue s a m n).
Proof. intros H. unfold enqueue. kp_run. Qed.

#[local] Hint Resolve kp_freeque kp_pipelined kp_snd_fail kp_enqueue : keep.

Lemma kp_snd_try s t a m msgflg : ids_kept w (ipc s) -> kp (fun x => ipc x.1) w (snd_try sec task_pid_vnr task_tgid_vnr s t a m msgflg).
Proof.
  intros H. unfold snd_try. apply kp_any. intros o _. apply kp_any. intros msg _. cbv zeta. destruct (negb _); [by apply kp_snd_fail|].
  destruct (negb _); [by apply kp_snd_fail|]. destruct (_ && _); [|kp_run].
  eapply kp_bind; [by apply kp_upd_queue|]. intros s1 H1. eapply kp_bind; [by apply kp_pipelined|]. intros [s2 [|]] H2; simpl in H2; kp_run.
Qed.

Lemma kp_snd_wake s t : ids_kept w (ipc s) -> kp (fun x => ipc x.1) w (snd_wake sec task_pid_vnr task_tgid_vnr s t).
Proof.
  intros H. unfold snd_wake. apply kp_any. intros x _. cbv zeta. eapply kp_bind; [apply kp_lift, kp_lock; exact H|]. intros s1 H1.
  eapply kp_bind; [by apply kp_lift, kp_putref|]. intros s2 H2. apply kp_any. intros o _. destruct (negb _); [by apply kp_snd_fail|].
  eapply kp_bind with (pr := ipc); [destruct (linked x); kp_run|]. intros s3 H3. destruct (signal_pending t); [by apply kp_snd_fail|by apply kp_snd_try].
Qed.

Lemma kp_rcv_fail s a err : ids_kept w (ipc s) -> kp (fun x => ipc x.1) w (rcv_fail s a err).
Proof. intros H. unfold rcv_fail. kp_run. Qed.

Lemma kp_deliver s m msgsz dest : ids_kept w (ipc s) -> kp (fun x => ipc x.1) w (rcv_deliver s m msgsz dest).
Proof. intros H. unfold rcv_deliver. apply kp_any. intros msg _. cbv zeta. apply kp_any. intros r _. eapply kp_bind; [by apply kp_free_msg|]. intros s1 H1. by apply kp_some. Qed.

#[local] Hint Resolve kp_rcv_fail kp_deliver : keep.

Lemma kp_rcv_try s t a msgtyp mode msgsz msgflg dest : ids_kept w (ipc s) -> kp (fun x => ipc x.1) w (rcv_try sec task_tgid_vnr s t a msgtyp mode msgsz msgflg dest).
Proof.
  intros H. unfold rcv_try. apply kp_any. intros o _. destruct (negb _); [by apply kp_rcv_fail|]. apply kp_any. intros [m|] _.
  - apply kp_any. intros msg _. destruct (_ && _); [by apply kp_rcv_fail|]. eapply kp_bind; [by apply kp_upd_queue|]. intros s1 H1. cbv zeta.
    eapply kp_bind; [by apply kp_wakeup|]. intros s2 H2. eapply kp_bind; [by apply kp_msg_unlock|]. intros s3 H3. by apply kp_deliver.
  - destruct (negb _); [by apply kp_rcv_fail|]. kp_run.
Qed.

Lemma kp_rcv_wake s t dest : ids_kept w (ipc s) -> kp (fun x => ipc x.1) w (rcv_wake sec task_tgid_vnr s t dest).
Proof.
  intros H. unfold rcv_wake. apply kp_any. intros r _. cbv zeta. destruct (r_msg r) as [e|m]; [|by apply kp_deliver]. destruct (e =? _); [|by apply kp_some].
  assert (ids_kept w (rcu_read_lock (ipc s))) as H0 by (eapply ids_kept_trans; [exact H|by apply ids_kept_objs]).
  eapply kp_bind; [by apply kp_lift, kp_lock|]. intros s1 H1. eapply kp_bind; [by apply kp_lift, kp_rcu_unlock|]. intros s2 H2.
  eapply kp_bind; [by apply kp_upd_queue|]. intros s3 H3. destruct (signal_pending t); [by apply kp_rcv_fail|by apply kp_rcv_try].
Qed.

Lemma kp_msgsnd s t msqid mtype msgsz msgflg e : ids_kept w (ipc s) -> kp (fun x => ipc x.1) w (do_msgsnd sec task_pid_vnr task_tgid_vnr s t msqid mtype msgsz msgflg e).
Proof.
  intros H. unfold do_msgsnd. destruct (_ || _); [by apply kp_some|]. destruct (_ <? _); [by apply kp_some|]. apply kp_any. intros [err|msg] _; [by apply kp_some|].
  cbv zeta. eapply kp_bind; [by apply kp_lock_check|]. intros [w1 [err|a]] H1; simpl in H1; [kp_run|]. by apply kp_snd_try.
Qed.

Lemma kp_msgrcv s t msqid msgsz msgtyp msgflg dest : ids_kept w (ipc s) -> kp (fun x => ipc x.1) w (do_msgrcv sec task_tgid_vnr s t msqid msgsz msgtyp msgflg dest).
Proof.
  intros H. unfold do_msgrcv. destruct (_ || _); [by apply kp_some|]. destruct (convert_mode _ _) as [ty mode].
  eapply kp_bind; [by apply kp_lock_check|]. intros [w1 [err|a]] H1; simpl in H1; [by apply kp_some|]. by apply kp_rcv_try.
Qed.

Lemma kp_msgctl_down s t msqid cmd arg : ids_kept w (ipc s) -> kp (fun x => ipc x.1) w (msgctl_down sec s t msqid cmd arg).
Proof.
  intros H. unfold msgctl_down. destruct (_ && _); [by apply kp_some|]. eapply kp_bind; [by apply kp_pre_down|].
  intros [w1 [err|a]] H1; simpl in H1; [by apply kp_some|]. eapply kp_bind with (pr := fun x => ipc x.1).
  - unfold msgctl_locked. apply kp_any. intros o _. cbv zeta. destruct (negb _); [kp_run|]. destruct (_ =? _); [kp_run|]. destruct (_ =? _); [|kp_run].
    apply kp_any. intros x _. unfold msgctl_set. destruct (_ && _); [kp_run|]. eapply kp_bind; [by apply kp_upd_queue|]. intros s2 H2.
    apply kp_any. intros o2 Ho2. cbv zeta. assert (ids_kept w (put_obj (ipc s2) a (set_perm o2 (ipc_update_perm x.1 (perm o2))))) as H3
      by (eapply ids_kept_trans; [exact H2|by eapply ids_kept_put]). eapply kp_bind; [by apply kp_expunge|]. intros s4 H4. kp_run.
  - intros [s2 e] H2. simpl in *. eapply kp_bind; [by apply kp_lift, kp_up_write|]. intros s3 H3. by apply kp_some.
Qed.

Lemma kp_msgctl s t msqid cmd buf arg : ids_kept w (ipc s) -> kp (fun x => ipc x.1.1) w (msgctl sec s t msqid cmd buf arg).
Proof.
  intros H. unfold msgctl. destruct (_ || _); [by apply kp_some|]. cbv zeta. destruct (_ || _).
  { destruct buf as [ok|]; [|by apply kp_some]. destruct (negb _); [by apply kp_some|]. eapply kp_bind; [by apply kp_lift, kp_down_read|]. intros s1 H1.
    apply kp_any. intros r _. eapply kp_bind; [by apply kp_lift, kp_up_read|]. intros s2 H2. apply kp_some. by destruct ok. }
  destruct (_ || _).
  { destruct buf as [ok|]; [|by apply kp_some]. eapply kp_bind with (pr := fst); [destruct (_ =? _); eauto with keep|]. intros [w1 [e|a]] H1; simpl in H1; [by apply kp_some|].
    apply kp_any. intros o _. eapply kp_bind; [by apply kp_msg_unlock|]. intros s2 H2. apply kp_some. repeat (destruct (negb _); [done|]). by destruct ok. }
  destruct (_ || _); [|by apply kp_some]. eapply kp_bind; [by apply kp_msgctl_down|]. intros [s1 e] H1. by apply kp_some.
Qed.

End calls.

End MsgKeep.

Module MsgTop.
Import Idr IdrAlloc IdrGet IdrSpec Ipc IpcTable Msg MsgText MsgInv MsgStep MsgCode MsgKeep.

Section top.
Context (sec : security) (task_pid_vnr task_tgid_vnr : tid -> Z) (sizeof_msg_queue : Z).
Implicit Types (s : sys) (T : gmap Z addr).

Inductive op :=
  | Get (c : cred) (k msgflg : Z) (zalloc : list addr) (e : new_env)
  | Ctl (t : task) (msqid cmd : Z) (buf : option bool) (arg : option (ipc64_perm * Z))
  | Snd (t : task) (msqid mtype msgsz msgflg : Z) (e : load_env)
  | SndWake (t : task)
  | Rcv (t : task) (msqid msgsz msgtyp msgflg dest : Z)
  | RcvWake (t : task) (dest : Z).

Inductive res := RGet (r : Z) | RCtl (r : Z) (d : ctl_data) | RCall (r : outcome).

Definition run s (o : op) : option (sys * res) :=
  match o with
  | Get c k msgflg zalloc e => r ← msgget sec sizeof_msg_queue c k msgflg [(zalloc, e)] s; Some (r.1, RGet r.2)
  | Ctl t msqid cmd buf arg => r ← msgctl sec s t msqid cmd buf arg; Some (r.1.1, RCtl r.1.2 r.2)
  | Snd t msqid mtype msgsz msgflg e => r ← do_msgsnd sec task_pid_vnr task_tgid_vnr s t msqid mtype msgsz msgflg e; Some (r.1, RCall r.2)
  | SndWake t => r ← snd_wake sec task_pid_vnr task_tgid_vnr s t; Some (r.1, RCall r.2)
  | Rcv t msqid msgsz msgtyp msgflg dest => r ← do_msgrcv sec task_tgid_vnr s t msqid msgsz msgtyp msgflg dest; Some (r.1, RCall r.2)
  | RcvWake t dest => r ← rcv_wake sec task_tgid_vnr s t dest; Some (r.1, RCall r.2)
  end.

(** New memory is new, arguments are in the range of their types, a task that
    sleeps makes no call, and the security module does not answer [-EAGAIN],
    which would make [ipcget] try again. *)
Definition legal s (o : op) : Prop :=
  match o with
  | Get c k msgflg zalloc e =>
      env_ok s e /\ NoDup zalloc /\ (forall a, a ∈ zalloc -> mem (ipcs_idr (ids (ipc s))) !! a = None) /\ (forall o, sec_associate sec o msgflg <> - EAGAIN)
  | Ctl t msqid _ _ _ => msqid < 2 ^ 31
  | Snd t msqid mtype msgsz msgflg e => msqid < 2 ^ 31 /\ 0 <= msgsz /\ msgs s !! load_at e = None /\ senders s !! who t = None
  | SndWake t => is_Some (senders s !! who t)
  | Rcv t msqid msgsz msgtyp msgflg dest => msqid < 2 ^ 31 /\ 0 <= dest /\ receivers s !! who t = None
  | RcvWake t dest => is_Some (receivers s !! who t) /\ 0 <= dest
  end.

(** The ids handed out, the last one first: a call of [msgget] that made an
    object gave its id to it. *)
Definition log s s' (r : res) (L : list (Z * addr)) : list (Z * addr) :=
  match r, elements (dom (objs (ipc s')) ∖ dom (objs (ipc s))) with
  | RGet id, a :: _ => (id, a) :: L
  | _, _ => L
  end.

Inductive reachable : sys -> list (Z * addr) -> Prop :=
  | R_init lowmem nb_ns : reachable (msg_init_ns ∅ lowmem nb_ns) []
  | R_step s L o s' r : reachable s L -> legal s o -> run s o = Some (s', r) -> reachable s' (log s s' r L).

(** The sequence number of an id is the number of the call that handed it out. *)
Record log_ok s T (L : list (Z * addr)) : Prop := {
  l_seq : ids_seq (ids (ipc s)) = Z.of_nat (length L) mod 65536;
  l_num : forall k x a, L !! k = Some (x, a) -> exists i, 0 <= i < IPCMNI /\ x = IPCMNI * ((Z.of_nat (length L) - 1 - Z.of_nat k) mod 65536) + i;
  l_live : forall i a o, T !! i = Some a -> objs (ipc s) !! a = Some o ->
    exists k, L !! k = Some (perm_id (perm o), a) /\ forall j y b, L !! j = Some (y, b) -> y mod IPCMNI = i -> (k <= j)%nat }.

Lemma log_kept s s' T T' L : log_ok s T L -> ids_kept (ipc s) (ipc s') -> ids_seq (ids (ipc s')) = ids_seq (ids (ipc s)) -> kept T T' -> log_ok s' T' L.
Proof.
  intros [H1 H2 H3] Hk Hs HT. constructor; [congruence|done|]. intros i a o' Hi Ho'.
  assert (T !! i = Some a) as Hi0 by (destruct HT as [->|(j & _ & ->)]; [done|by apply lookup_delete_Some in Hi as [_ Hi]]).
  destruct (Hk a o' Ho') as (o & Ho & ->). by apply H3.
Qed.

Lemma log_same s s' r L : objs (ipc s') = objs (ipc s) -> log s s' r L = L.
Proof. intros E. unfold log. rewrite E, difference_diag_L, elements_empty. by destruct r. Qed.

Lemma log_call s s' r L : (forall id, r <> RGet id) -> log s s' r L = L.
Proof. destruct r; [|done..]. intros H. by destruct (H r). Qed.

Lemma log_new s s' id L a o : objs (ipc s) !! a = None -> objs (ipc s') = <[a := o]> (objs (ipc s)) -> log s s' (RGet id) L = (id, a) :: L.
Proof.
  intros Ha E. unfold log. rewrite E, dom_insert_L. assert (({[a]} ∪ dom (objs (ipc s))) ∖ dom (objs (ipc s)) = {[a]}) as ->.
  { apply not_elem_of_dom in Ha. set_solver. }
  by rewrite elements_singleton.
Qed.

Lemma id_parts seq i : 0 <= i < IPCMNI -> (IPCMNI * seq + i) mod IPCMNI = i /\ (IPCMNI * seq + i) / IPCMNI = seq.
Proof. intros Hi. unfold IPCMNI in *. rewrite (Z.mul_comm 32768), Z.add_comm, Z.mod_add, Z.div_add, Z.mod_small, Z.div_small by lia. lia. Qed.

Lemma log_created c s T L params e a w' r i : log_ok s T L -> table_ok (ipc s) T -> T !! i = None -> objs (ipc s) !! a = None ->
  created c (msg_ctlmnb s) (ipc s) T params e a w' r i -> log_ok (set_ipc s w') (<[i := a]> T) ((r, a) :: L).
Proof.
  intros [H1 H2 H3] HT Hi Ha (Hr & _ & Hir & Hsq & _ & _ & v & Ho). rewrite H1 in Hr, Hsq. constructor; simpl.
  - rewrite Hsq. unfold u16. rewrite Zplus_mod_idemp_l. f_equal. lia.
  - intros [|k] x b; simpl.
    + intros [= <- <-]. exists i. split; [done|]. rewrite Hr. do 3 f_equal. lia.
    + intros Hk. destruct (H2 k x b Hk) as (i' & Hi' & ->). exists i'. split; [done|]. do 3 f_equal. lia.
  - intros j b o'. destruct (decide (i = j)) as [<-|Hij].
    + rewrite lookup_insert_eq. intros [= <-]. rewrite Ho, lookup_insert_eq. intros [= <-]. exists 0%nat. split; [done|]. lia.
    + rewrite lookup_insert_ne by done. intros Hj Hob. assert (a <> b) as Hab.
      { intros <-. destruct (t_obj _ _ HT j a Hj) as (o0 & Ho0 & _). congruence. }
      rewrite Ho, lookup_insert_ne in Hob by done. destruct (H3 j b o' Hj Hob) as (k & Hk & Hmin). exists (S k). split; [done|].
      intros [|j'] y b'; simpl; [|intros Hy Hyj; pose proof (Hmin j' y b' Hy Hyj); lia].
      intros [= <- <-] Hmod. destruct Hij. rewrite Hr in Hmod. by rewrite (proj1 (id_parts _ i Hir)) in Hmod.
Qed.

Definition good s (L : list (Z * addr)) : Prop := exists T K, sys_ok sec s T K /\ rw_mutex (ids (ipc s)) = 0 /\ log_ok s T L.

Lemma init_good lowmem nb_ns : good (msg_init_ns ∅ lowmem nb_ns) [].
Proof.
  exists ∅, ∅. split_and!; [|done|by constructor]. constructor; simpl; try done.
  - constructor; simpl; try done; [|by intros i [? ?]]. rewrite fmap_empty. apply idr_init_map.
  - intros t m. split; [by intros [? ?]|by intros (? & ? & _)].
  - intros t m. split; [by intros [? ?]|by intros (? & ? & _)].
Qed.

(** A call that is not [msgget]. *)
Lemma call_good s L T (r : option (sys * outcome)) : log_ok s T L -> rw_mutex (ids (ipc s)) = 0 -> fine sec s T r ->
  kp (fun x => ipc x.1) (ipc s) r -> exists s' o, r = Some (s', o) /\ good s' L.
Proof.
  intros Hl Hrw (s' & o & K' & -> & Hs' & Hi) Hk. exists s', o. split; [done|]. exists T, K'. split; [done|]. unfold same_ids in Hi. rewrite Hi.
  split; [done|]. apply (log_kept s s' T T L Hl); [by apply (Hk (s', o))|by rewrite Hi|by left].
Qed.

Lemma step_good s L o : good s L -> legal s o -> exists s' r, run s o = Some (s', r) /\ good s' (log s s' r L).
Proof.
  intros (T & K & Hs & Hrw & Hl) Hleg. pose proof (ids_kept_refl (ipc s)) as Hkr.
  assert (forall r, fine sec s T r -> kp (fun x => ipc x.1) (ipc s) r -> exists s' r', (x ← r; Some (x.1, RCall x.2)) = Some (s', r') /\ good s' (log s s' r' L)) as Hcall.
  { intros r Hf Hk. destruct (call_good s L T r Hl Hrw Hf Hk) as (s' & o' & -> & Hg). exists s', (RCall o'). split; [done|]. by rewrite log_call. }
  destruct o as [c k msgflg zalloc e|t msqid cmd buf arg|t msqid mtype msgsz msgflg e|t|t msqid msgsz msgtyp msgflg dest|t dest]; cbn [run legal] in *.
  - destruct Hleg as (He & Hd & Hz & Hsec). destruct (msgget_ok sec sizeof_msg_queue c s T K k msgflg zalloc e Hs Hrw He Hsec [] Hd Hz) as (s' & r & T' & -> & Hs' & Hrw' & Hres & Hsq).
    cbn [mbind option_bind fst snd]. exists s', (RGet r). split; [done|]. exists T', K. split; [done|]. split; [done|].
    assert (T' = T /\ objs (ipc s') = objs (ipc s) \/ exists a i, T' = <[i := a]> T /\ created c (msg_ctlmnb s) (ipc s) T (mk_params k msgflg) e a (ipc s') r i)
      as [[-> Ho]|(a & i & -> & Hc)].
    { destruct Hres as [(_ & ? & ? & _)|[_ [(_ & _ & _ & ? & ?)|[_ [(_ & ? & ?)|(a & i & _ & ? & ?)]]]]]; [by left..|]. right. by exists a, i. }
    + rewrite log_same by done. apply (log_kept s s' T T L Hl); [by apply ids_kept_objs|by apply Hsq|by left].
    + assert (T !! i = None) as Hi by (destruct Hc as (_ & (_ & Hn & _) & _); by apply not_elem_of_dom in Hn).
      pose proof (log_created c s T L _ e a (ipc s') r i Hl (s_table _ _ _ _ Hs) Hi ltac:(by destruct Hc as (_&_&_&_&_&?&_)) Hc) as Hl'.
      destruct Hc as (_ & _ & _ & _ & _ & Hna & v & Ho). rewrite (log_new s s' r L a _ Hna Ho). by destruct Hl'.
  - destruct (msgctl_ok sec s T K t msqid cmd buf arg Hs Hrw Hleg) as (s' & err & d & T' & K' & Hr & Hs' & Hk & Hrw' & Hsq).
    rewrite Hr. cbn [mbind option_bind fst snd]. exists s', (RCtl err d). split; [done|]. rewrite log_call by done. exists T', K'. split; [done|]. split; [done|].
    apply (log_kept s s' T T' L Hl); [|done|done]. apply (kp_msgctl sec (ipc s) s t msqid cmd buf arg Hkr (s', err, d) Hr).
  - destruct Hleg as (H1 & H2 & H3 & H4). apply Hcall; [by apply (do_msgsnd_ok sec task_pid_vnr task_tgid_vnr s T K)|by apply kp_msgsnd].
  - apply Hcall; [by apply (snd_wake_ok sec task_pid_vnr task_tgid_vnr s T K)|by apply kp_snd_wake].
  - destruct Hleg as (H1 & H2 & H3). apply Hcall; [by apply (do_msgrcv_ok sec task_tgid_vnr s T K)|by apply kp_msgrcv].
  - destruct Hleg as (H1 & H2). apply Hcall; [by apply (rcv_wake_ok sec task_tgid_vnr s T K)|by apply kp_rcv_wake].
Qed.

Lemma msg_reachable_good s L : reachable s L -> good s L.
Proof.
  induction 1 as [lowmem nb_ns|s L o s' r _ IH Hleg Hrun]; [apply init_good|].
  destruct (step_good s L o IH Hleg) as (s1 & r1 & Hrun1 & Hg). rewrite Hrun in Hrun1. by simplify_eq.
Qed.

(** ** What holds in every reachable state *)

(** C10: A call of any task, and the waking up of any task that sleeps in one,
    returns or goes to sleep: it never waits for a lock for ever, touches a queue
    or a message that was freed, gives back a reference or a message twice, or
    leaves a lock held. *)
Theorem msg_calls_return s L o : reachable s L -> legal s o ->
  exists s' r, run s o = Some (s', r) /\ reachable s' (log s s' r L) /\ calm (ipc s') /\ rw_mutex (ids (ipc s')) = 0.
Proof.
  intros Hr Hl. destruct (step_good s L o (msg_reachable_good s L Hr) Hl) as (s' & r & Hrun & T & K & Hs & Hrw & _).
  exists s', r. split; [done|]. split; [by apply (R_step s L o)|]. split; [apply Hs|done].
Qed.

(** A queue that was not removed. *)
Definition queue_at s (a : addr) (q : msg_queue) : Prop := exists o, objs (ipc s) !! a = Some o /\ deleted (perm o) = 0 /\ body o = q.

(** Who has a message. *)
Definition owns s (m : addr) (w : owner) : Prop :=
  match w with
  | InQueue a => exists q, queue_at s a q /\ m ∈ q_messages q
  | WithSender t => exists x, senders s !! t = Some x /\ s_msg x = m
  | WithReceiver t => exists r, receivers s !! t = Some r /\ r_msg r = RMsg m
  end.

(** The bytes of the messages of a list. *)
Definition text_sum (mm : gmap addr msg_msg) (ms : list addr) : Z := foldr (fun m n => default 0 (m_ts <$> mm !! m) + n) 0 ms.

Lemma queue_at_ok s T K a q : sys_ok sec s T K -> queue_at s a q -> live T a /\ queue_ok sec K (receivers s) (senders s) a q.
Proof.
  intros Hs (o & Ho & Hd & <-). pose proof (proj1 (proj1 (live_dec sec s T K a o Hs Ho)) Hd) as Ha. split; [done|]. by apply (s_live _ _ _ _ Hs a o).
Qed.

Lemma live_queue_at s T K a : sys_ok sec s T K -> live T a -> exists q, queue_at s a q.
Proof. intros Hs Ha. destruct (live_obj s T a (s_table _ _ _ _ Hs) Ha) as (o & Ho & Hd). by exists (body o), o. Qed.

Lemma owns_mail s T K m w : sys_ok sec s T K -> owns s m w <-> exists msg, K !! m = Some (w, msg).
Proof.
  intros Hs. destruct w as [a|t|t]; simpl; [|symmetry; apply Hs|symmetry; apply Hs]. split.
  - intros (q & Hq & Hm). destruct (queue_at_ok s T K a q Hs Hq) as [_ Hok]. by apply (qo_mail _ _ _ _ _ _ Hok).
  - intros [msg Hm]. destruct (live_queue_at s T K a Hs (s_inq _ _ _ _ Hs _ _ _ Hm)) as [q Hq]. exists q. split; [done|].
    destruct (queue_at_ok s T K a q Hs Hq) as [_ Hok]. apply (qo_mail _ _ _ _ _ _ Hok). by exists msg.
Qed.

Lemma text_sum_lsum (K : gmap addr (owner * msg_msg)) ms : text_sum (snd <$> K) ms = lsum K ms.
Proof. induction ms as [|m ms IH]; simpl; [done|]. rewrite IH, lookup_fmap. by destruct (K !! m) as [[? ?]|]. Qed.

(** C9: Every message in memory has exactly one owner: a queue, a task that
    sleeps with it in [msgsnd], or a task it was handed to in [msgrcv].  Messages
    are not lost and not shared.  A queue has no message twice, and its counters
    are the number and the bytes of its messages, modulo 2^32. *)
Theorem msg_one_owner s L : reachable s L ->
  (forall m, is_Some (msgs s !! m) <-> exists w, owns s m w) /\ (forall m w w', owns s m w -> owns s m w' -> w = w') /\
  forall a q, queue_at s a q -> NoDup (q_messages q) /\ q_cbytes q = u32 (text_sum (msgs s) (q_messages q)) /\
    q_qnum q = u32 (Z.of_nat (length (q_messages q))).
Proof.
  intros Hr. destruct (msg_reachable_good s L Hr) as (T & K & Hs & _). split_and!.
  - intros m. rewrite (s_msgs _ _ _ _ Hs), lookup_fmap, fmap_is_Some. split.
    + intros [[w msg] Hm]. exists w. apply (owns_mail s T K m w Hs). by exists msg.
    + intros (w & [msg Hm]%(owns_mail s T K m w Hs)). by exists (w, msg).
  - intros m w w' [msg Hm]%(owns_mail s T K m w Hs) [msg' Hm']%(owns_mail s T K m w' Hs). congruence.
  - intros a q Hq. destruct (queue_at_ok s T K a q Hs Hq) as [_ Hok]. rewrite (s_msgs _ _ _ _ Hs), text_sum_lsum. split_and!; apply Hok.
Qed.

(** C11: A task that waits for a message waits on a queue that exists, is on its
    list, and there is no message in the queue that it would take: no task sleeps
    while its message is there. *)
Theorem msg_no_lost_wakeup s L t r : reachable s L -> receivers s !! t = Some r -> r_msg r = RErr (- EAGAIN) ->
  exists q, queue_at s (r_msq r) q /\ t ∈ q_receivers q /\
    forall m msg, m ∈ q_messages q -> msgs s !! m = Some msg -> accepts sec t r msg = false.
Proof.
  intros Hr Ht Hm. destruct (msg_reachable_good s L Hr) as (T & K & Hs & _). assert (waits r (r_msq r)) as Hw by done.
  destruct (live_queue_at s T K _ Hs (s_wait _ _ _ _ Hs t r _ Ht Hw)) as [q Hq]. exists q. split; [done|].
  destruct (queue_at_ok s T K _ q Hs Hq) as [_ Hok]. split; [apply (qo_rcv _ _ _ _ _ _ Hok); by exists r|].
  intros m msg [msg' Hk]%(qo_mail _ _ _ _ _ _ Hok). rewrite (mail_some sec s T K Hs _ _ Hk). intros [= <-]. by apply (qo_idle _ _ _ _ _ _ Hok t r m).
Qed.

(** A queue has as many references as tasks sleep in [msgsnd] on it, and one
    more until it is removed; so a queue that was removed is still there exactly
    as long as a task sleeps on it, and a task never wakes up to a queue that is
    gone. *)
Theorem msg_queue_lifetime s L : reachable s L ->
  (forall a o, objs (ipc s) !! a = Some o ->
     refcount o = (if deleted (perm o) =? 0 then 1 else 0) + sleepers (senders s) a /\ 1 <= refcount o) /\
  (forall t x, senders s !! t = Some x -> is_Some (objs (ipc s) !! s_msq x)).
Proof.
  intros Hr. destruct (msg_reachable_good s L Hr) as (T & K & Hs & _). split; [|apply (s_sobj _ _ _ _ Hs)]. intros a o Ho.
  destruct (live_dec sec s T K a o Hs Ho) as [L1 L2]. destruct (Z.eqb_spec (deleted (perm o)) 0) as [Hd|Hd].
  - apply L1 in Hd. pose proof (here_ok sec s T K a o Hs Hd Ho) as [-> _]. pose proof (sleepers_nonneg (senders s) a). lia.
  - apply L2 in Hd. destruct (s_dead _ _ _ _ Hs a o Hd Ho) as (-> & H & _). lia.
Qed.

(** C12: An id names the queue it was handed out for: as long as no 65536 queues
    were created since, a call with the id reaches that queue or none, even when
    the queue was removed and its index is used again. *)
Theorem msg_id_not_reused s L k x a w b : reachable s L -> L !! k = Some (x, a) -> Z.of_nat k < 65536 ->
  ipc_lock_check (ipc s) x = Some (w, inr b) -> b = a.
Proof.
  intros Hr Hk Hlt Hlock. destruct (msg_reachable_good s L Hr) as (T & K & Hs & _ & [_ Hnum Hlive]).
  destruct (Hnum k x a Hk) as (i & Hi & Hx). assert (0 <= x < 2 ^ 31) as Hxr.
  { pose proof (Z.mod_pos_bound (Z.of_nat (length L) - 1 - Z.of_nat k) 65536 ltac:(lia)). unfold IPCMNI in *. lia. }
  destruct (lookup_msqid sec s T K x Hs ltac:(lia)) as [[e He]|(b' & o & He & [j Hj] & Ho & Hid)]; rewrite He in Hlock; [done|]. injection Hlock as _ ->.
  destruct (Hlive j b o Hj Ho) as (k' & Hk' & Hmin). rewrite Hid in Hk'. destruct (Hnum k' x b Hk') as (i' & Hi' & Hx').
  destruct (t_obj _ _ (s_table _ _ _ _ Hs) j b Hj) as (o' & Ho' & Hok). rewrite Ho in Ho'. injection Ho' as <-.
  pose proof (t_range _ _ (s_table _ _ _ _ Hs) j ltac:(by exists b)) as Hjr.
  assert ((IPCMNI * perm_seq (perm o) + j) mod IPCMNI = j) as Hmod by apply (id_parts _ j Hjr). rewrite <- (o_id _ _ Hok), Hid in Hmod.
  pose proof (Hmin k x a Hk Hmod) as Hle.
  assert ((Z.of_nat (length L) - 1 - Z.of_nat k) mod 65536 = (Z.of_nat (length L) - 1 - Z.of_nat k') mod 65536) as Heq.
  { rewrite <- (proj2 (id_parts _ i Hi)), <- (proj2 (id_parts ((Z.of_nat (length L) - 1 - Z.of_nat k') mod 65536) i' Hi')). congruence. }
  assert (k = k') as ->; [|congruence].
  pose proof (Z.div_mod (Z.of_nat (length L) - 1 - Z.of_nat k) 65536 ltac:(lia)). pose proof (Z.div_mod (Z.of_nat (length L) - 1 - Z.of_nat k') 65536 ltac:(lia)). lia.
Qed.

(** C13: [msgget] with a key finds the queue that has it and returns its id,
    or an error when it was to be created anew, when the bits asked for of the
    owner, group or others are not all there and the caller may not override
    that, or when the security module says so; or it says that there is none; or
    it makes a new one, with the least free index, the next sequence number, and
    the caller as its owner.  A private key always makes a new one.  A new queue
    fails only with -ENOMEM when an allocation failed, of the layers of the table
    or of the queue, when there are too many queues, or when the security module
    says so. *)
Theorem msgget_by_key s L c k msgflg zalloc e : reachable s L -> legal s (Get c k msgflg zalloc e) ->
  exists T s' r T', table_ok (ipc s) T /\ msgget sec sizeof_msg_queue c k msgflg [(zalloc, e)] s = Some (s', r) /\ table_ok (ipc s') T' /\
    get_result sec c s T k msgflg zalloc e r T' (ipc s').
Proof.
  intros Hr (He & Hd & Hz & Hsec). destruct (msg_reachable_good s L Hr) as (T & K & Hs & Hrw & _).
  destruct (msgget_ok sec sizeof_msg_queue c s T K k msgflg zalloc e Hs Hrw He Hsec [] Hd Hz) as (s' & r & T' & Hg & Hs' & _ & Hres & _).
  exists T, s', r, T'. split; [apply Hs|]. split; [done|]. split; [apply Hs'|done].
Qed.

(** When the namespace goes away, the loop over the ids ends, with no queue
    left; the memory that is left belongs to tasks that have yet to wake up. *)
Theorem msg_exit_empties s L : reachable s L ->
  exists s', msg_exit_ns s = Some s' /\ in_use (ids (ipc s')) = 0 /\ (forall i, 0 <= i < 2 ^ 31 -> idr_find (ipcs_idr (ids (ipc s'))) i = Some None) /\
    (forall m, is_Some (msgs s' !! m) -> exists t, owns s' m (WithSender t) \/ owns s' m (WithReceiver t)) /\
    (forall a o, objs (ipc s') !! a = Some o -> deleted (perm o) <> 0 /\ 1 <= sleepers (senders s') a).
Proof.
  intros Hr. destruct (msg_reachable_good s L Hr) as (T & K & Hs & Hrw & _). destruct (exit_ns_ok sec s T K Hs Hrw) as (s' & K' & Hx & Hs' & _). exists s'.
  pose proof (s_table _ _ _ _ Hs') as Ht. split; [done|]. split; [apply (t_use _ _ Ht)|]. split; [intros i Hi; by rewrite (table_find Ht)|]. split.
  - intros m. rewrite (s_msgs _ _ _ _ Hs'), lookup_fmap, fmap_is_Some. intros [[w msg] Hm]. destruct w as [a|t|t].
    + by destruct (s_inq _ _ _ _ Hs' m a msg Hm).
    + exists t. left. apply (owns_mail s' ∅ K' m (WithSender t) Hs'). by exists msg.
    + exists t. right. apply (owns_mail s' ∅ K' m (WithReceiver t) Hs'). by exists msg.
  - intros a o Ho. destruct (s_dead _ _ _ _ Hs' a o) as (H1 & H2 & H3); [by intros [i Hi]|done|]. split; [done|lia].
Qed.

(** Reading the file in /proc from its start to its end shows every queue
    once, in the order of the indices, and leaves everything as it was, with no
    lock held. *)
Theorem msg_proc_lists s L : reachable s L -> exists T, table_ok (ipc s) T /\ proc_file (ipc s) = Some (ipc s, from_index T 0) /\
  NoDup (from_index T 0) /\ forall a, a ∈ from_index T 0 <-> exists q, queue_at s a q.
Proof.
  intros Hr. destruct (msg_reachable_good s L Hr) as (T & K & Hs & Hrw & _). exists T. split; [apply Hs|]. split; [apply proc_file_spec; [apply Hs..|done]|].
  pose proof (s_table _ _ _ _ Hs) as Ht. split.
  - apply (from_index_NoDup (ipc s) T 0 Ht).
  - intros a. rewrite (from_index_elem (ipc s) T a Ht). split; [apply (live_queue_at s T K a Hs)|]. intros [q Hq]. apply (queue_at_ok s T K a q Hs Hq).
Qed.

(** ** Which message is taken *)

(** The order in which the messages come does not matter to the security module. *)
Definition type_blind : Prop := forall msg t ty ty' mode, sec_msgrcv sec msg t ty mode = sec_msgrcv sec msg t ty' mode.

Definition chosen (mm : gmap addr msg_msg) (t : tid) (mode msgtyp : Z) (ms : list addr) (r : option addr) : Prop :=
  match r with
  | None => forall m msg, m ∈ ms -> mm !! m = Some msg -> wanted sec t mode msgtyp msg = false
  | Some m => exists l1 l2 msg, ms = l1 ++ m :: l2 /\ mm !! m = Some msg /\ wanted sec t mode msgtyp msg = true /\
      (forall m' msg', m' ∈ l1 -> mm !! m' = Some msg' -> wanted sec t mode msgtyp msg' = true -> mode = SEARCH_LESSEQUAL /\ m_type msg < m_type msg') /\
      (forall m' msg', m' ∈ l2 -> mm !! m' = Some msg' -> wanted sec t mode msgtyp msg' = true -> mode = SEARCH_LESSEQUAL -> m_type msg <= m_type msg')
  end.

Lemma wanted_below t msgtyp n msg : type_blind -> n <= msgtyp ->
  wanted sec t SEARCH_LESSEQUAL n msg = wanted sec t SEARCH_LESSEQUAL msgtyp msg && (m_type msg <=? n).
Proof.
  intros Hb Hn. unfold wanted, testmsg. simpl. rewrite (Hb msg t n msgtyp). destruct (Z.leb_spec (m_type msg) n), (Z.leb_spec (m_type msg) msgtyp), (_ =? 0); simpl; done || lia.
Qed.

Section choose.
Context (mm : gmap addr msg_msg) (t : tid).

(** The walk for the least type, with [n] the bound so far. *)
Lemma find_least msgtyp ms : type_blind -> (forall m, m ∈ ms -> exists msg, mm !! m = Some msg /\ 1 <= m_type msg) -> forall n found, n <= msgtyp ->
  exists r, find_msg sec mm t SEARCH_LESSEQUAL ms n found = Some r /\
    (r = found /\ (forall m msg, m ∈ ms -> mm !! m = Some msg -> wanted sec t SEARCH_LESSEQUAL msgtyp msg = true -> n < m_type msg) \/
     exists m msg, r = Some m /\ mm !! m = Some msg /\ m_type msg <= n /\ chosen mm t SEARCH_LESSEQUAL msgtyp ms (Some m)).
Proof.
  intros Hb. induction ms as [|m0 ms IH]; intros Hin n found Hn; cbn [find_msg].
  { exists found. split; [done|]. left. split; [done|]. by intros m msg ?%not_elem_of_nil. }
  destruct (Hin m0 ltac:(left)) as (msg0 & Hm0 & Hty0). rewrite Hm0. cbn [mbind option_bind]. specialize (IH ltac:(intros m Hm; apply Hin; by right)).
  fold (wanted sec t SEARCH_LESSEQUAL n msg0). rewrite (wanted_below t msgtyp n msg0 Hb Hn). change (SEARCH_LESSEQUAL =? SEARCH_LESSEQUAL) with true. cbn [andb].
  destruct (wanted sec t SEARCH_LESSEQUAL msgtyp msg0) eqn:Hw; destruct (Z.leb_spec (m_type msg0) n) as [Hle|Hgt]; cbn [andb].
  1:{ destruct (Z.eqb_spec (m_type msg0) 1) as [H1|H1]; cbn [negb].
      - exists (Some m0). split; [done|]. right. exists m0, msg0. split_and!; try done. exists [], ms, msg0. split_and!; try done; [by intros m' ? ?%not_elem_of_nil|].
        intros m' msg' Hm' Hm2 _ _. destruct (Hin m' ltac:(by right)) as (x & Hx & Hx1). rewrite Hm2 in Hx. injection Hx as <-. lia.
      - destruct (IH (m_type msg0 - 1) (Some m0) ltac:(lia)) as (r & Hr & [[-> Hno]|(m & msg & -> & Hm & Hle' & Hch)]); eexists; (split; [exact Hr|]); right.
        + exists m0, msg0. split_and!; try done. exists [], ms, msg0. split_and!; try done; [by intros m' ? ?%not_elem_of_nil|].
          intros m' msg' Hm' Hm2 Hw2 _. pose proof (Hno m' msg' Hm' Hm2 Hw2). lia.
        + exists m, msg. split_and!; try done; [lia|]. destruct Hch as (l1 & l2 & x & -> & Hx & Hwx & Hl1 & Hl2). rewrite Hm in Hx. injection Hx as <-.
          exists (m0 :: l1), l2, msg. split_and!; try done. intros m' msg' [->|Hm']%elem_of_cons Hm2 Hw2; [|by apply (Hl1 m')]. split; [done|].
          rewrite Hm0 in Hm2. injection Hm2 as <-. lia. }
  all: destruct (IH n found Hn) as (r & Hr & [[-> Hno]|(m & msg & -> & Hm & Hle' & Hch)]); eexists; (split; [exact Hr|]); [left|right].
  all: try (split; [done|]; intros m' msg' [->|Hm']%elem_of_cons Hm2 Hw2; [rewrite Hm0 in Hm2; injection Hm2 as <-; congruence || lia|by apply (Hno m')]).
  all: exists m, msg; split_and!; try done; destruct Hch as (l1 & l2 & x & -> & Hx & Hwx & Hl1 & Hl2); rewrite Hm in Hx; injection Hx as <-;
    exists (m0 :: l1), l2, msg; split_and!; try done; intros m' msg' [->|Hm']%elem_of_cons Hm2 Hw2; [|by apply (Hl1 m')];
    rewrite Hm0 in Hm2; injection Hm2 as <-; first [congruence|split; [done|lia]].
Qed.

(** The walk in the other modes. *)
Lemma find_first mode msgtyp ms : mode <> SEARCH_LESSEQUAL -> (forall m, m ∈ ms -> is_Some (mm !! m)) ->
  exists r, find_msg sec mm t mode ms msgtyp None = Some r /\ chosen mm t mode msgtyp ms r.
Proof.
  intros Hmode. induction ms as [|m0 ms IH]; intros Hin; cbn [find_msg]; [exists None; split; [done|]; by intros m msg ?%not_elem_of_nil|].
  destruct (Hin m0 ltac:(left)) as (msg0 & Hm0). rewrite Hm0. cbn [mbind option_bind]. rewrite (proj2 (Z.eqb_neq _ _) Hmode). cbn [andb].
  fold (wanted sec t mode msgtyp msg0). destruct (wanted sec t mode msgtyp msg0) eqn:Hw.
  - exists (Some m0). split; [done|]. exists [], ms, msg0. split_and!; try done; by intros m' ? ?%not_elem_of_nil.
  - destruct IH as ([m|] & Hr & Hch); [intros m Hm; apply Hin; by right|..]; eexists; (split; [exact Hr|]).
    + destruct Hch as (l1 & l2 & msg & -> & Hm & Hwm & Hl1 & Hl2). exists (m0 :: l1), l2, msg. split_and!; try done.
      intros m' msg' [->|Hm']%elem_of_cons Hm2 Hw2; [congruence|by apply (Hl1 m')].
    + intros m' msg' [->|Hm']%elem_of_cons Hm2; [congruence|by apply (Hch m')].
Qed.

(** C14: The walk over the messages of a queue ends with the first message that is
    wanted, or, when types up to a bound are, with the first one of the least type
    there is; with none only if none is wanted. *)
Theorem msgrcv_chooses mode msgtyp ms : type_blind -> (forall m, m ∈ ms -> exists msg, mm !! m = Some msg /\ 1 <= m_type msg) ->
  exists r, find_msg sec mm t mode ms msgtyp None = Some r /\ chosen mm t mode msgtyp ms r.
Proof.
  intros Hb Hin. destruct (decide (mode = SEARCH_LESSEQUAL)) as [->|Hm].
  - destruct (find_least msgtyp ms Hb Hin msgtyp None ltac:(lia)) as (r & Hr & [[-> Hno]|(m & msg & -> & _ & _ & Hch)]); eexists; (split; [exact Hr|]); [|done].
    intros m msg Hm Hm2. destruct (wanted sec t SEARCH_LESSEQUAL msgtyp msg) eqn:Hw; [|done]. pose proof (Hno m msg Hm Hm2 Hw).
    unfold wanted, testmsg in Hw. simpl in Hw. apply andb_true_iff in Hw as [Hw%Z.leb_le _]. lia.
  - apply find_first; [done|]. intros m (msg & Hmsg & _)%Hin. by exists msg.
Qed.

End choose.

End top.

(** ** The text of a message *)

(** C15: What [msgrcv] copies out is what [msgsnd] copied in: a message of any
    length, over as many segments as it takes, comes back whole, or cut to the
    size asked for; [-EFAULT] is returned only if the receiver's buffer is too
    short, and what is beyond the message in memory is never copied. *)
Theorem msg_text_roundtrip km sa src len mtype msg dest len' : 0 <= len -> load_msg km sa src len mtype = Some (inr msg) -> len' <= len -> 0 <= dest ->
  m_ts msg = len /\ store_msg dest msg len' = Some (if dest <? len' then None else Some (take (Z.to_nat len') src)).
Proof.
  intros Hlen Hload Hle Hd. destruct (load_msg_ok km sa src len mtype Hlen) as (r & Hr & Hok). rewrite Hload in Hr. injection Hr as <-.
  destruct Hok as (Ht & Hts & _ & Hb). split; [done|].
  rewrite store_msg_ok by (done || lia). rewrite Hb, take_take. by rewrite Nat.min_l by lia.
Qed.

(** A receiver that asks for [LONG_MIN] gets no message, of whatever type: the
    negation of the bound is the bound. *)
Lemma long_min_takes_nothing msg msgflg : 1 <= m_type msg -> let '(t, mode) := convert_mode (- 2 ^ 31) msgflg in testmsg msg t mode = false.
Proof. intros Hm. apply Z.leb_gt. assert (s32 (- - 2 ^ 31) = - 2 ^ 31) as -> by done. lia. Qed.

(** ** A run *)

Section run.

Definition plain : security := mk_security (fun _ _ => 0) (fun _ _ => 0) (fun _ _ => 0) (fun _ _ _ _ => 0).
Definition pid (t : tid) : Z := Z.pos t.
Definition user : cred := mk_cred 1000 1000 (fun g => g =? 1000) (fun _ => false) (fun _ _ => 0).
Definition at_time (t : tid) (n : Z) : task := mk_task t user n false.
Definition old_perms : kern_ipc_perm := mk_perm true 1 77 77 7 7 7 7 7 7.
Definition old_queue : msg_queue := mk_queue 9 9 9 9 9 9 9 9 [] [] [].
Definition layers_at (n : positive) : list addr := (fun k => n + Pos.of_succ_nat k)%positive <$> seq 0 14.

Definition size : Z := 92.
Definition after s o : sys := match run plain pid pid size s o with Some (s', _) => s' | None => s end.
Definition answer s o : res := match run plain pid pid size s o with Some (_, r) => r | None => RGet 0 end.

Lemma run_more s L o L' : reachable plain pid pid size s L -> legal plain s o -> (if run plain pid pid size s o then true else false) = true ->
  log s (after s o) (answer s o) L = L' -> reachable plain pid pid size (after s o) L'.
Proof.
  intros Hr Hl Hs <-. apply (R_step plain pid pid size s L o (after s o) (answer s o) Hr Hl). unfold after, answer.
  destruct (run plain pid pid size s o) as [[s' r]|]; done.
Qed.

(** A queue is made for key 5; task 3 waits for a message of type 2 in it; task 4
    sends one of type 1, which stays in the queue. *)
Definition make (a n : positive) : op := Get user 5 (Z.lor IPC_CREAT 384) (layers_at n) (mk_env (Some (a, old_perms, old_queue)) 0 10).
Definition wait : op := Rcv (at_time 3%positive 11) 0 8 2 0 8.
Definition send : op := Snd (at_time 4%positive 12) 0 1 3 0 (mk_load 200%positive (fun _ => true) 0 [104; 105; 106]).
Definition kill : op := Ctl (at_time 5%positive 13) 0 IPC_RMID None None.

Definition s0 : sys := msg_init_ns ∅ 0 1.
Definition s1 : sys := after s0 (make 100%positive 1%positive).
Definition s2 : sys := after s1 wait.
Definition s3 : sys := after s2 send.
(** The queue is removed and another one is made, which gets its index. *)
Definition s4 : sys := after (after s3 kill) (make 101%positive 50%positive).

Lemma make_legal s (a n : addr) : (if objs (ipc s) !! a then false else true) = true ->
  forallb (fun x : addr => if mem (ipcs_idr (ids (ipc s))) !! x then false else true) (layers_at n) = true -> legal plain s (make a n).
Proof.
  intros Ha Hn. split; [split|split; [|split]]; [by vm_compute| | | |intros x; by vm_compute].
  - intros b p q [= <- _ _]. revert Ha. by case_match.
  - apply NoDup_fmap_2, NoDup_seq. intros i j. lia.
  - intros x Hx. rewrite forallb_forall in Hn. specialize (Hn x ltac:(by apply list_elem_of_In)). revert Hn. cbv beta. destruct (mem _ !! x) eqn:E; [discriminate|by intros].
Qed.

Lemma s1_reachable : reachable plain pid pid size s1 [(0, 100%positive)].
Proof. eapply run_more; [apply R_init|by apply make_legal; vm_compute|by vm_compute|by vm_compute]. Qed.

Lemma s2_reachable : reachable plain pid pid size s2 [(0, 100%positive)].
Proof. eapply run_more; [apply s1_reachable|by split_and!; vm_compute|by vm_compute|by vm_compute]. Qed.

Lemma s3_reachable : reachable plain pid pid size s3 [(0, 100%positive)].
Proof. eapply run_more; [apply s2_reachable|by split_and!; vm_compute|by vm_compute|by vm_compute]. Qed.

Lemma s4_reachable : reachable plain pid pid size s4 [(32768, 101%positive); (0, 100%positive)].
Proof.
  eapply run_more; [|by apply make_legal; vm_compute|by vm_compute|by vm_compute].
  eapply run_more; [apply s3_reachable|done|by vm_compute|by vm_compute].
Qed.

End run.

Lemma msg_calls_return_witness : exists s' r, run plain pid pid size s3 kill = Some (s', r) /\ calm (ipc s').
Proof.
  destruct (msg_calls_return plain pid pid size s3 [(0, 100%positive)] kill s3_reachable) as (s' & r & H1 & _ & H2 & _); [done|]. exists s', r. exact (conj H1 H2).
Defined.

Lemma msg_one_owner_witness : owns s3 200%positive (InQueue 100%positive) /\ ~ owns s3 200%positive (WithReceiver 3%positive).
Proof.
  assert (owns s3 200%positive (InQueue 100%positive)) as Hq.
  { eexists. split; [eexists; split; [by vm_compute|split; reflexivity]|]. vm_compute. left. }
  split; [exact Hq|]. intros Hr. destruct (msg_one_owner plain pid pid size s3 [(0, 100%positive)] s3_reachable) as (_ & H & _).
  discriminate (H _ _ _ Hq Hr).
Defined.

Lemma msg_no_lost_wakeup_witness : exists q, queue_at s3 100%positive q /\ 3%positive ∈ q_receivers q.
Proof.
  destruct (msg_no_lost_wakeup plain pid pid size s3 [(0, 100%positive)] 3%positive (mk_receiver SEARCH_EQUAL 2 8 (RErr (- EAGAIN)) 100%positive 8 0) s3_reachable)
    as (q & Hq & Ht & _); [by vm_compute|done|by exists q].
Defined.

Lemma msg_queue_lifetime_witness : exists o, objs (ipc s3) !! 100%positive = Some o /\ 1 <= refcount o.
Proof.
  eexists. split; [by vm_compute|]. apply (msg_queue_lifetime plain pid pid size s3 [(0, 100%positive)] s3_reachable) with 100%positive. by vm_compute.
Defined.

Lemma msg_id_not_reused_witness : match ipc_lock_check (ipc s4) 32768 with Some (_, inr b) => b = 101%positive | _ => False end.
Proof.
  destruct (ipc_lock_check (ipc s4) 32768) as [[w [e|b]]|] eqn:E; [by vm_compute in E| |by vm_compute in E].
  by apply (msg_id_not_reused plain pid pid size s4 [(32768, 101%positive); (0, 100%positive)] 0 32768 101%positive w b s4_reachable).
Defined.

Lemma msgget_by_key_witness : exists s' r, msgget plain size user 5 (Z.lor IPC_CREAT 384) [(layers_at 50%positive, mk_env (Some (101%positive, old_perms, old_queue)) 0 10)] s3 = Some (s', r).
Proof.
  destruct (msgget_by_key plain pid pid size s3 [(0, 100%positive)] user 5 (Z.lor IPC_CREAT 384) (layers_at 50%positive)
    (mk_env (Some (101%positive, old_perms, old_queue)) 0 10) s3_reachable) as (T & s' & r & T' & _ & H & _); [apply (make_legal s3 101%positive 50%positive); by vm_compute|by exists s', r].
Defined.

Lemma msg_proc_lists_witness : exists T, table_ok (ipc s3) T /\ proc_file (ipc s3) = Some (ipc s3, from_index T 0).
Proof.
  destruct (msg_proc_lists plain pid pid size s3 [(0, 100%positive)] s3_reachable) as (T & H1 & H2 & _). exists T. exact (conj H1 H2).
Defined.

Lemma msg_exit_empties_witness : exists s', msg_exit_ns s3 = Some s' /\ in_use (ids (ipc s')) = 0.
Proof. destruct (msg_exit_empties plain pid pid size s3 [(0, 100%positive)] s3_reachable) as (s' & H1 & H2 & _). exists s'. exact (conj H1 H2). Defined.

(** Of messages of the types 3, 2 and 2 the first one of type 2 is taken. *)
Definition three : gmap addr msg_msg := {[ 1%positive := mk_msg 3 0 [] []; 2%positive := mk_msg 2 0 [] []; 3%positive := mk_msg 2 0 [] [] ]}.

Lemma msgrcv_chooses_witness : chosen plain three 3%positive SEARCH_LESSEQUAL 4 [1; 2; 3]%positive (Some 2%positive).
Proof.
  destruct (msgrcv_chooses plain three 3%positive SEARCH_LESSEQUAL 4 [1; 2; 3]%positive) as (r & Hr & Hc); [done| |].
  - intros m Hm. repeat (apply elem_of_cons in Hm as [->|Hm]; [eexists; split; [by vm_compute|simpl; lia]|]). by apply not_elem_of_nil in Hm.
  - vm_compute in Hr. by injection Hr as <-.
Defined.

(** A message in two segments. *)
Lemma msg_text_roundtrip_witness : exists msg, load_msg (fun _ => true) 0 (replicate 5000 7) 4500 1 = Some (inr msg) /\
  store_msg 4200 msg 4200 = Some (Some (take 4200 (replicate 5000 7))).
Proof.
  eexists. split; [by vm_compute|]. apply (msg_text_roundtrip (fun _ => true) 0 (replicate 5000 7) 4500 1); [lia|by vm_compute|lia|lia].
Defined.

End MsgTop.
